(* ===== verification/_CoqProject ===== *)
-Q . S2P
Prelude.v
Memory.v
Pmem.v
Util.v
BttLayout.v
Btt.v
BttSpec.v
BttRun.v
BttRefine.v
BttInit.v
BttCrash.v
BttFresh.v
BttCheck.v
Blk.v
BlkSpec.v
BlkCreate.v
BlkTheorems.v
Log.v
LogSpec.v
LogTheorems.v
Ulog.v
UlogSpec.v
UlogEntry.v
UlogTheorems.v
Ravl.v
RavlTree.v
RavlBalance.v
RavlRun.v
RavlSearch.v
RavlTheorems.v
Vecq.v
Container.v
ContainerSeglists.v
ContainerRavl.v
Bucket.v
Cuckoo.v
CuckooTheorems.v
Memops.v
MemopsMerge.v
MemopsRedo.v
MemopsCrash.v
MemopsExample.v
MemopsTheorems.v
MemopsTx.v
Lane.v
LaneTheorems.v
LaneHold.v
LaneHoldTheorems.v
Memblock.v
MemblockFree.v
MemblockRun.v
MemblockAlloc.v
MemblockAllocTheorems.v
MemblockHdr.v
MemblockTheorems.v
AllocClass.v
AllocClassTheorems.v
Recycler.v
RecyclerTheorems.v
Heap.v
HeapZone.v
HeapExample.v
HeapTheorems.v
HeapRun.v
HeapRunTheorems.v
Palloc.v
PallocTheorems.v
Pmalloc.v
Tx.v
ObjList.v
ObjListSpec.v
ObjListRun.v
TxRanges.v
TxAdd.v
TxProgram.v
TxCommit.v
TxExample.v
TxStages.v
TxTheorems.v
ObjListTheorems.v
