(* ===== verification/Prelude.v ===== *)
(** * A verification library for the PMDK sources of this repository

    PMDK (here under [src/pmdk-1.5/src]) is a set of C libraries for storage on
    byte-addressable persistent memory.  This library models the parts that decide whether
    data survives a power failure and the data structures they rest on, and proves
    them correct, or shows on a concrete run where they are not.

    ** The program and the files that model it

    - [libpmem] ([libpmem/pmem.c], [x86_64/init.c], [x86_64/flush.h]): writing back cache lines,
      fences, copies.  [Memory.v] is a byte memory (a finite map from addresses to bytes) with
      little-endian words; [Pmem.v] adds the trace of stores, line write-backs and fences and the
      relation [crash_at]: after a power failure every aligned 8-byte word holds one of the values it has had
      since the last write-back that a fence has completed.  Everything below stores through
      [Pmem.v] or through an interface it satisfies.
    - [common/util.c], [util.h]: [Util.v] (Fletcher64 checksums, [util_is_zeroed], bit operations).
    - [libpmemblk]: blocks of a fixed size, written atomically.  [btt.c] implements it with a
      free block per lane, a map and a log ([flog]) over five callbacks of [blk.c].
      [BttLayout.v]: on-media formats and geometry ([btt_layout.h]).  [Btt.v]: every function of
      [btt.c].  [BttSpec.v]: what a namespace must promise (class [NsSpec]) and the abstract
      block device.  [BttRun.v], [BttRefine.v]: execution of the operations and their
      refinement.  [BttInit.v], [BttFresh.v]: opening and laying out a namespace.
      [BttCrash.v]: recovery after a failure at any point.  [BttCheck.v]: the offline check.
      [Blk.v]: [blk.c] (namespace callbacks, lanes, create, open, read, write, set, check).
      [BlkSpec.v] shows that its callbacks are a namespace in the sense of [NsSpec], [BlkCreate.v]
      builds a concrete pool, [BlkTheorems.v] states the results.
    - [libpmemlog] ([log.c]): an append-only log.  [Log.v] (operations), [LogSpec.v] (invariant and
      abstract log), [LogTheorems.v].
    - [libpmemobj/ulog.c]: the log of changes that transactions replay.  [Ulog.v] (every function,
      and the persistence functions of [pmemops.h] and [obj.c] for a pool without replicas),
      [UlogSpec.v] (meaning of entries, class [OpsSpec] of persistence functions), [UlogEntry.v]
      (encoding of entries), [UlogTheorems.v].
    - [libpmemobj/ravl.c]: the relaxed AVL tree that the allocator and transactions search.
      [Ravl.v] (every function, on a heap of nodes with parent pointers), [RavlTree.v] (trees,
      contexts, ordering, ranks), [RavlBalance.v] (rebalancing on trees), [RavlRun.v], [RavlSearch.v]
      (the heap code computes the tree functions; class [CompareOk] of
      comparison callbacks), [RavlTheorems.v] (sorted-list specification).
    - [libpmemobj/memops.c]: operations, that collect changes in a shadow log and make them all at
      once through the unified log.  [Memops.v] (every function), [MemopsMerge.v] (the shadow log
      means what was asked for), [MemopsRedo.v] (logs of value entries, storing and recognising
      them), [MemopsCrash.v] (power failures; class [OrderedOps] of platforms that write back in order),
      [MemopsExample.v] (a concrete operation; torn logs by enumeration), [MemopsTheorems.v].
      [MemopsTx.v] (logs of snapshots; snapshots and stores of a transaction,
      undone or committed).
    - [libpmemobj/lane.c]: every thread works in a lane, that has two redo logs and an undo log in the
      pool.  [Lane.v] (layout, initialisation, recovery and check of the lanes), [LaneTheorems.v].
      [LaneHold.v] (the records of a thread and how it takes and releases a lane) and
      [LaneHoldTheorems.v] (the threads of a process as a system of steps).
    - [libpmemobj/cuckoo.c]: the hash table that finds the record of a pool.  [Cuckoo.v] (every function),
      [CuckooTheorems.v].
    - The free blocks of the allocator.  [Vecq.v]: the ring-buffer queue of [common/vecq.h].
      [Container.v]: memory blocks, addresses of the heap ([memblock.h], [heap_layout.h]) and the interface of a
      container ([container.h]) with its promise, the class [BlockContainer].
      [ContainerSeglists.v] and [ContainerRavl.v]: the two implementations
      ([container_seglists.c] over the queue, [container_ravl.c] over the tree).  [Bucket.v]:
      [bucket.c], proved against the interface only, and the results.
    - [libpmemobj/memblock.c], [heap_layout.h]: chunks, runs of small units with a bitmap, object headers.  [Memblock.v]
      (every function), [MemblockFree.v] (free units of a bitmap), [MemblockRun.v] (geometry and initialisation of runs),
      [MemblockHdr.v] (headers and addresses of blocks), [MemblockTheorems.v]; [MemblockAlloc.v] and [MemblockAllocTheorems.v]
      (allocating and freeing units through an operation of [memops.c]).
    - [libpmemobj/alloc_class.c]: which unit size serves a request.  [AllocClass.v] (every function), [AllocClassTheorems.v].
    - [libpmemobj/recycler.c]: runs with free units.  [Recycler.v] (every function), [RecyclerTheorems.v].
    - [libpmemobj/heap.c]: zones of chunks and the bucket of free ones.  [Heap.v] (the huge side, creation, check), [HeapZone.v]
      (a zone as a sequence of segments; headers of free chunks; class [ExactContainer]; the invariant, neighbours, merging and splitting), [HeapExample.v] (a small heap and its crashes), [HeapTheorems.v].  [HeapRun.v] (arenas, the
      buckets of runs, start and end of the heap), [HeapRunTheorems.v].
    - [libpmemobj/palloc.c]: reservations and actions that are published in one operation.  [Palloc.v], [PallocTheorems.v].
    - [libpmemobj/pmalloc.c]: the allocator in the context of a lane, its start and end, and the handlers of allocation classes and of the
      size of the heap.  [Pmalloc.v] (every function).
    - [libpmemobj/list.c]: doubly-linked circular lists in the pool, changed atomically by an operation in a lane.  [ObjList.v] (every function),
      [ObjListSpec.v] (rings and sequences), [ObjListRun.v] (the requests of an operation, in a lane), [ObjListTheorems.v].
    - [libpmemobj/tx.c]: transactions.  [Tx.v] (every function but those of the control interface: stages, locks, ranges, snapshots,
      objects).  [TxRanges.v] (the tree of ranges as a sorted list), [TxAdd.v] (the loop of
      [pmemobj_tx_add_common] against the class [SnapshotSpec] of snapshots), [TxProgram.v] (rolling back around locks;
      snapshots on the undo log of a lane, an instance of the class; programs of snapshots and stores, and their abort), [TxCommit.v]
      (the outermost begin and end), [TxExample.v] (a concrete pool, and runs that go wrong), [TxStages.v] (which calls keep a transaction
      well formed), [TxTheorems.v].
    - [Prelude.v] (this file): integers of fixed width, the state and error monad, arrays,
      tactics and the hint database [pmdk].

    ** How code is translated

    A C function is a Rocq function into the monad [M S A] below: explicit state, and a result that is
    a value, an [errno] or [Undef].  [Undef] stands for what the C program must not do: an index out of
    range, a read through [NULL], an assertion that fails, a loop that does not end.
    Theorems therefore show that a call returns [Ok], not only what it returns if it does.  Integers are
    [Z] with the wrap-around written where the C expression can leave its width.
    Functions are single-threaded: a lock that is already held makes the call [Undef].  Only the locks of
    lanes are followed through the interleavings of threads.
    Code outside the repository's sources (allocation, [mmap], callbacks of the user) is an argument.
    A result that the code discards is discarded in the model ([ignore]): the allocator and the lists go on when an entry could not be added
    to an operation.
    Sources are read as for a build without [PMDK_NO_TX]: the build script makes both variants, and with it the ranges and
    snapshots of [tx.c] are compiled out, so that the theorems on transactions say nothing about that variant.
    Addresses of the flush loop do not wrap around at 2^64, and a copy of a range onto itself, which [memmove_nodrain] skips, is not made by the callers in the model.

    ** What is shown

    - Crash atomicity: a block write of [libpmemblk], an append of [libpmemlog] and a replay of
      the unified log interrupted at any event, with any loss that [crash_at] allows, leave a state
      from which opening or recovering gives either the old or the new contents (on a pool of [libpmemblk] that is laid out)
      ([pmemblk_write_crash_atomic], [pmemlog_appendv_crash_atomic],
      [pmemlog_rewind_atomic], [ulog_process_restart]) and durability of what has returned
      ([pmemblk_write_durable], [pmem_persist_durable]); the first write to a new pool, which lays it out, is described without failures
      ([pmemblk_create_fresh]).  A redo operation of [libpmemobj] is
      atomic in the same sense ([operation_finish_crash_atomic]) on platforms that write back in the
      order of the calls, under the assumption that the checksum tells a torn log from a
      complete one; [MemopsExample.v] decides that assumption for a concrete log.  In all theorems on operations and transactions the
      entries fit in the base buffer of the log; chained logs are modelled in [Ulog.v] and [Memops.v] but no theorem covers them.
    - Composition: an operation on a new context has the effect of its requests made one after the other,
      whatever is merged and however often the shadow log grows ([operation_redo_applies]); every sequence of insertions and
      best-fit removals on a bucket that meets the conditions of its container conserves the blocks, whichever it has
      ([bucket_conserves]; a full queue whose front is not at a multiple of twice its capacity is excluded, since growing it loses blocks), and the two containers answer with blocks of the same size
      ([containers_agree]).
    - Transactions: whatever a transaction stored over ranges it had snapshotted before, processing the undo log
      restores the memory ([operation_undo_rolls_back]), finishing the operation keeps it
      ([operation_undo_commits]), and opening a pool rolls back every lane ([lane_recovery_rolls_back]).
      One level up, in [tx.c]: adding a range snapshots every byte of it that no range of the transaction has yet, and none
      twice ([pmemobj_tx_add_range_covers]); from begin to end, an aborted transaction leaves no trace in the
      ranges it added ([pmemobj_tx_aborted_no_trace]) and a committed one keeps its stores
      ([pmemobj_tx_committed_keeps]); an abort in a nested transaction unwinds all of them ([pmemobj_tx_abort_unwinds]); the record of a thread stays
      well formed under every sequence of calls the stages allow ([tx_calls_well_formed]).
    - Lists: [list_insert], [list_remove] and [list_move] act on sequences of objects; they give back the lane and the locks, change no other word of the heap, and
      leave the memory as it was when a lock cannot be taken
      ([list_insert_refines], [list_remove_refines], [list_move_refines], [list_move_within]).
    - Allocation: units of runs are allocated and freed together with the stores of the same operation, at once and atomically under crashes
      ([run_requests_applied], [run_requests_crash_atomic]); a block is found again from the address of its data, in the first 65536 units of a run
      ([memblock_offset_roundtrip]); the free blocks that are found in a bitmap are the maximal ones, and a new run is free
      ([run_free_blocks], [memblock_run_init_free]); a request gets the class with the least waste ([alloc_class_by_alloc_size_serves]), and in the default collection, which is made exactly when all of its 76 allocations
      succeed, one that serves it ([alloc_class_collection_new_ok]), and the smallest run that has room ([recycler_get_best]); chunks are handed out, split, given back and
      merged without overlap or loss ([heap_get_bestfit_serves], [heap_free_chunk_reuse_merges]) and the check accepts them
      ([heap_verify_zone_accepts]); a thread's bucket gets exactly the free units of a run and serves requests from them
      ([heap_run_reuse_fills], [heap_get_bestfit_run_serves]); the locks of the actions of an operation are taken once and given back
      ([palloc_exec_actions_locks]).
    - Threads: for every interleaving of the compare-and-swaps of [get_lane], a lane has one holder and its release
      succeeds ([lanes_exclusive]); a thread gets a lane when one is free ([lane_hold_returns]).
    - Refinement: the hash table acts on a finite map ([cuckoo_insert_refines],
      [cuckoo_get_remove]), the operations of [libpmemblk] act on an array of blocks, those of [libpmemlog] on
      a byte string, those of the tree on a sorted list, with their invariants preserved and
      every error branch described.
    - Formats: information block, log entries and checksums round-trip; the check of [btt.c]
      decides exactly the consistency that the operations preserve.
    - Limits: [stale_footer_corrupts] is a run of the code that goes wrong; [HeapExample.v], [TxExample.v] and the end of
      [Pmalloc.v] hold more of them.

    ** Fuel

    Loops that are not structural take fuel and are [Undef] without it, so every theorem that a call
    returns [Ok] shows that the fuel was enough.  The fuel of the flush loop is the number of lines
    of the range plus one; that of the loops of [btt.c] is the number of arenas, map entries or lanes; that
    of a walk over a log bounds the entries, and is a hypothesis there, because a
    damaged log can make the walk endless; that of an operation is more than the number of its
    entries (an operation of [list.c] has at most 16, so that its shadow log does not grow); that of [get_lane] is the number of lanes, enough when one of them is free; that of the loops over chunks is
    the size of the zone; that of the loop over the ranges of a transaction ([ranges_fuel]) is their number plus two; that of the tree operations is an upper bound on the
    height, which the theorems bound by the number of nodes.

    ** Not modelled

    Threads beyond the locks of lanes, pool sets and the mapping of files
    ([common/set.c], [mmap.c]: operating-system calls), replicas and [librpmem] (network),
    the volatile allocators ([libvmem], [jemalloc]: vendored), tools, tests, C++ bindings and the
    applications in the other directories of the repository.  Of
    [libpmemobj]: the locks in the pool ([sync.c]: the locks of a transaction and of lists are a set
    of held ones), statistics and the registration of the control interface.  The theorems on lists are not about the
    variants that also allocate or free the object ([list_insert_new], [list_remove_free]), and not about power failures.  The theorems on transactions are about ranges and locks, not
    about the objects allocated in them; a power failure in a transaction is covered at the level of
    [memops.c] only, and one in [palloc_publish] is not. *)

From stdpp Require Import base gmap list numbers.
Local Open Scope Z_scope.

(** ** Machine integers

    A C integer of width [w] is a [Z] kept in [0, 2^w); every operation of the
    source that can leave the range is followed by the wrap below. *)

Definition u8 (x : Z) : Z := x mod 2 ^ 8.
Definition u16 (x : Z) : Z := x mod 2 ^ 16.
Definition u32 (x : Z) : Z := x mod 2 ^ 32.
Definition u64 (x : Z) : Z := x mod 2 ^ 64.

Declare Scope pmdk_scope.
Delimit Scope pmdk_scope with pmdk.
Notation "x '&&&' y" := (Z.land x y) (at level 40, left associativity) : pmdk_scope.
Notation "x '|||' y" := (Z.lor x y) (at level 50, left associativity) : pmdk_scope.
Open Scope pmdk_scope.

(** [<sys/param.h>]: [roundup] and [howmany] on non-negative operands, before
    the wrap at the width of the expression. *)
Definition roundup (x y : Z) : Z := (x + (y - 1)) / y * y.
Definition howmany (x y : Z) : Z := (x + (y - 1)) / y.

(** [util.h]: power-of-two alignment, [((size) + (align) - 1) & ~((align) - 1)] on
    64-bit operands. *)
Definition ALIGN_UP (size align : Z) : Z :=
  u64 (size + align - 1) &&& u64 (Z.lnot (align - 1)).
Definition ALIGN_DOWN (size align : Z) : Z := size &&& u64 (Z.lnot (align - 1)).

(** ** Results of C functions and the state monad they run in

    A C function returns normally, fails with [-1] and an [errno], or leaves
    the defined behaviour of the program ([Undef]: an index out of range, a
    lock taken twice by the same thread, a loop that spins for ever).  A failing
    function does not undo the stores it has made, so the state is returned in
    every case. *)

Inductive res (A : Type) : Type :=
| Ok (a : A)
| Fail (errno : Z)
| Undef.
Arguments Ok {A} a.
Arguments Fail {A} errno.
Arguments Undef {A}.

Definition EIO : Z := 5.
Definition ENOMEM : Z := 12.
Definition EINVAL : Z := 22.
Definition ENOSPC : Z := 28.
Definition EROFS : Z := 30.
Definition ENOTSUP : Z := 95.

#[global] Instance res_eq_dec {A} `{!EqDecision A} : EqDecision (res A).
Proof. solve_decision. Defined.

Definition M (S A : Type) : Type := S → res A * S.

#[global] Instance M_ret S : MRet (M S) := λ A a s, (Ok a, s).
#[global] Instance M_bind S : MBind (M S) := λ A B k m s,
  match m s with
  | (Ok a, s') => k a s'
  | (Fail e, s') => (Fail e, s')
  | (Undef, s') => (Undef, s')
  end.

Section monad.
Context {S : Type}.

Definition fail {A} (e : Z) : M S A := λ s, (Fail e, s).
Definition undef {A} : M S A := λ s, (Undef, s).
Definition gets {A} (f : S → A) : M S A := λ s, (Ok (f s), s).
Definition modify (f : S → S) : M S unit := λ s, (Ok tt, f s).

(** A call whose return value the source discards. *)
Definition ignore {A} (m : M S A) : M S unit := λ s,
  match m s with
  | (Undef, s') => (Undef, s')
  | (_, s') => (Ok tt, s')
  end.

(** The error code, [None] for success. *)
Definition errno_of (f : M S unit) : M S (option Z) := λ s,
  match f s with
  | (Ok _, s') => (Ok None, s')
  | (Fail e, s') => (Ok (Some e), s')
  | (Undef, s') => (Undef, s')
  end.

(** [if (m < 0) { h(errno); }]: the handler runs in the state of the failure. *)
Definition on_fail {A} (m : M S A) (h : Z → M S A) : M S A := λ s,
  match m s with
  | (Fail e, s') => h e s'
  | r => r
  end.

Lemma bind_ok {A B} (m : M S A) (k : A → M S B) s a s' :
  m s = (Ok a, s') → (x ← m; k x) s = k a s'.
Proof. intros H. unfold mbind, M_bind. by rewrite H. Qed.

Lemma bind_fail {A B} (m : M S A) (k : A → M S B) s e s' :
  m s = (Fail e, s') → (x ← m; k x) s = (Fail e, s').
Proof. intros H. unfold mbind, M_bind. by rewrite H. Qed.

Lemma bind_inv_ok {A B} (m : M S A) (k : A → M S B) s b s' :
  (x ← m; k x) s = (Ok b, s') → ∃ a s1, m s = (Ok a, s1) ∧ k a s1 = (Ok b, s').
Proof.
  unfold mbind, M_bind. destruct (m s) as [[a|e|] s1]; intros; simplify_eq; eauto.
Qed.

Lemma on_fail_ok {A} (m : M S A) h s a s' :
  m s = (Ok a, s') → on_fail m h s = (Ok a, s').
Proof. intros H. unfold on_fail. by rewrite H. Qed.

Lemma on_fail_fail {A} (m : M S A) h s e s' :
  m s = (Fail e, s') → on_fail m h s = h e s'.
Proof. intros H. unfold on_fail. by rewrite H. Qed.
End monad.

(** Indexing of C arrays: out of range is [None], which callers turn into [Undef]. *)
Definition lookupZ {A} (l : list A) (i : Z) : option A :=
  if decide (0 ≤ i) then l !! Z.to_nat i else None.
Definition updZ {A} (l : list A) (i : Z) (x : A) : list A :=
  if decide (0 ≤ i) then <[Z.to_nat i := x]> l else l.

(** ** Proof automation *)

(** Substitute the result of a call into the calling function. *)
Ltac mstep :=
  match goal with
  | |- context [mbind ?k ?m ?s] =>
      first
        [ erewrite (bind_ok m k s) by (eassumption || reflexivity)
        | erewrite (bind_fail m k s) by (eassumption || reflexivity) ]
  end.

(** Case on the conditional or match at the head of the goal or of a hypothesis. *)
Ltac case_head :=
  match goal with
  | |- context [if decide ?P then _ else _] => destruct (decide P)
  | |- context [if ?b then _ else _] => destruct b eqn:?
  | |- context [match ?x with _ => _ end] => destruct x eqn:?
  end.

Ltac bool_hyps :=
  repeat match goal with
  | H : (_ <? _)%Z = true |- _ => apply Z.ltb_lt in H
  | H : (_ <? _)%Z = false |- _ => apply Z.ltb_ge in H
  | H : (_ <=? _)%Z = true |- _ => apply Z.leb_le in H
  | H : (_ <=? _)%Z = false |- _ => apply Z.leb_gt in H
  | H : (_ =? _)%Z = true |- _ => apply Z.eqb_eq in H
  | H : (_ =? _)%Z = false |- _ => apply Z.eqb_neq in H
  | H : bool_decide _ = true |- _ => apply bool_decide_eq_true in H
  | H : bool_decide _ = false |- _ => apply bool_decide_eq_false in H
  | H : _ && _ = true |- _ => apply andb_true_iff in H as [? ?]
  | H : _ || _ = false |- _ => apply orb_false_iff in H as [? ?]
  end.

Create HintDb pmdk.

(** ** Lemmas on integers *)

Lemma u32_range x : 0 ≤ u32 x < 2 ^ 32.
Proof. unfold u32. apply Z.mod_pos_bound. lia. Qed.
Lemma u64_range x : 0 ≤ u64 x < 2 ^ 64.
Proof. unfold u64. apply Z.mod_pos_bound. lia. Qed.
Lemma u32_id x : 0 ≤ x < 2 ^ 32 → u32 x = x.
Proof. unfold u32. apply Z.mod_small. Qed.
Lemma u64_id x : 0 ≤ x < 2 ^ 64 → u64 x = x.
Proof. unfold u64. apply Z.mod_small. Qed.
#[export] Hint Resolve u32_range u64_range : pmdk.

Lemma roundup_bounds x y : 0 < y → x ≤ roundup x y < x + y.
Proof.
  intros Hy. unfold roundup.
  pose proof (Z.div_mod (x + (y - 1)) y ltac:(lia)) as He.
  pose proof (Z.mod_pos_bound (x + (y - 1)) y Hy). nia.
Qed.

Lemma roundup_divide x y : (y | roundup x y).
Proof. unfold roundup. exists ((x + (y - 1)) / y). lia. Qed.

Lemma roundup_le x y : 0 < y → x ≤ roundup x y.
Proof. intros. apply roundup_bounds. lia. Qed.

Lemma roundup_id x y : 0 < y → (y | x) → roundup x y = x.
Proof.
  intros Hy [k ->]. unfold roundup.
  replace (k * y + (y - 1)) with ((y - 1) + k * y) by lia.
  rewrite Z.div_add by lia. rewrite (Z.div_small (y - 1)) by lia. lia.
Qed.

Lemma howmany_spec x y : 0 < y → 0 ≤ x → y * (howmany x y) - y < x ≤ y * howmany x y.
Proof.
  intros Hy Hx. unfold howmany.
  pose proof (Z.div_mod (x + (y - 1)) y ltac:(lia)).
  pose proof (Z.mod_pos_bound (x + (y - 1)) y Hy). nia.
Qed.

Lemma land_ones_mod x n : 0 ≤ n → x &&& Z.ones n = x mod 2 ^ n.
Proof. intros. by apply Z.land_ones. Qed.

Lemma lor_disjoint a b n : 0 ≤ n → 0 ≤ a < 2 ^ n → a ||| (b * 2 ^ n) = a + b * 2 ^ n.
Proof.
  intros Hn Ha. rewrite Z.add_nocarry_lxor, Z.lxor_lor; [done| |].
  all: apply Z.bits_inj'; intros i Hi; rewrite Z.land_spec, Z.bits_0.
  all: destruct (decide (i < n)).
  1,3: rewrite Z.mul_pow2_bits_low by lia; apply andb_false_r.
  all: rewrite (Z.testbit_eqb a i) by lia.
  all: rewrite Z.div_small; [reflexivity|].
  all: split; [lia|]; apply Z.lt_le_trans with (2 ^ n); [lia|].
  all: apply Z.pow_le_mono_r; lia.
Qed.

Lemma land_align x k : 0 ≤ x → 0 ≤ k ≤ 64 → x < 2 ^ 64 →
  x &&& u64 (Z.lnot (2 ^ k - 1)) = x / 2 ^ k * 2 ^ k.
Proof.
  intros Hx Hk Hx'.
  assert (u64 (Z.lnot (2 ^ k - 1)) = Z.ones (64 - k) * 2 ^ k) as ->.
  { unfold u64. rewrite Z.ones_equiv.
    replace (Z.lnot (2 ^ k - 1)) with (- 2 ^ k) by (unfold Z.lnot; lia).
    assert (2 ^ 64 = 2 ^ (64 - k) * 2 ^ k) as He by (rewrite <- Z.pow_add_r; f_equal; lia).
    symmetry. apply Z.mod_unique with (-1); [left|].
    - assert (0 < 2 ^ (64 - k)) by (apply Z.pow_pos_nonneg; lia).
      assert (0 < 2 ^ k) by (apply Z.pow_pos_nonneg; lia). nia.
    - nia. }
  rewrite <- Z.shiftl_mul_pow2 by lia.
  rewrite <- (Z.shiftr_div_pow2 x), <- Z.shiftl_mul_pow2 by lia.
  apply Z.bits_inj'; intros i Hi. rewrite Z.land_spec.
  destruct (decide (i < k)).
  - rewrite !Z.shiftl_spec_low by lia. apply andb_false_r.
  - rewrite !Z.shiftl_spec by lia. rewrite Z.shiftr_spec by lia.
    replace (i - k + k) with i by lia.
    destruct (decide (i < 64)).
    + rewrite Z.ones_spec_low by lia. apply andb_true_r.
    + rewrite Z.ones_spec_high by lia. rewrite andb_false_r.
      symmetry. rewrite Z.testbit_eqb, Z.div_small; [done| |lia].
      split; [lia|]. apply Z.lt_le_trans with (2 ^ 64); [lia|].
      apply Z.pow_le_mono_r; lia.
Qed.

Lemma ALIGN_UP_64 x : 0 ≤ x → x + 63 < 2 ^ 64 → ALIGN_UP x 64 = roundup x 64.
Proof.
  intros. unfold ALIGN_UP, roundup. rewrite u64_id by lia.
  change (64 - 1) with (2 ^ 6 - 1). rewrite land_align by lia.
  change (2 ^ 6) with 64. f_equal. f_equal. lia.
Qed.

Lemma ALIGN_DOWN_64 x : 0 ≤ x < 2 ^ 64 → ALIGN_DOWN x 64 = x / 64 * 64.
Proof.
  intros. unfold ALIGN_DOWN. change (64 - 1) with (2 ^ 6 - 1).
  rewrite land_align by lia. done.
Qed.

Lemma ALIGN_DOWN_4096 x : 0 ≤ x < 2 ^ 64 → ALIGN_DOWN x 4096 = x / 4096 * 4096.
Proof.
  intros. unfold ALIGN_DOWN. change (4096 - 1) with (2 ^ 12 - 1).
  rewrite land_align by lia. done.
Qed.

(** ** Lemmas on arrays *)

Section arrays.
Context {A : Type}.
Implicit Types (l : list A) (i j : Z) (x : A).

Lemma lookupZ_Some l i x :
  lookupZ l i = Some x → 0 ≤ i < Z.of_nat (length l).
Proof.
  unfold lookupZ. case_decide; [|done].
  intros H1%lookup_lt_Some. lia.
Qed.

Lemma lookupZ_is_Some l i : 0 ≤ i < Z.of_nat (length l) → is_Some (lookupZ l i).
Proof.
  intros. unfold lookupZ. rewrite decide_True by lia.
  apply lookup_lt_is_Some. lia.
Qed.

Lemma lookupZ_None l i : ¬ (0 ≤ i < Z.of_nat (length l)) → lookupZ l i = None.
Proof.
  intros. unfold lookupZ. case_decide; [|done].
  apply lookup_ge_None. lia.
Qed.

Lemma lookupZ_nat l (i : nat) : lookupZ l (Z.of_nat i) = l !! i.
Proof. unfold lookupZ. rewrite decide_True by lia. by rewrite Nat2Z.id. Qed.

Lemma length_updZ l i x : length (updZ l i x) = length l.
Proof. unfold updZ. case_decide; [apply length_insert|done]. Qed.

Lemma lookupZ_updZ_eq l i x :
  0 ≤ i < Z.of_nat (length l) → lookupZ (updZ l i x) i = Some x.
Proof.
  intros. unfold lookupZ, updZ. rewrite !decide_True by lia.
  apply list_lookup_insert_eq. lia.
Qed.

Lemma lookupZ_updZ_ne l i j x : i ≠ j → lookupZ (updZ l i x) j = lookupZ l j.
Proof.
  intros. unfold lookupZ, updZ. repeat case_decide; try done.
  apply list_lookup_insert_ne. lia.
Qed.

Lemma lookupZ_updZ l i j x y :
  lookupZ (updZ l i x) j = Some y →
  (i = j ∧ y = x) ∨ (i ≠ j ∧ lookupZ l j = Some y).
Proof.
  intros H. destruct (decide (i = j)) as [->|].
  - pose proof (lookupZ_Some _ _ _ H) as Hr. rewrite length_updZ in Hr.
    rewrite lookupZ_updZ_eq in H by done. left. by simplify_eq.
  - rewrite lookupZ_updZ_ne in H by done. auto.
Qed.
End arrays.

Lemma lookupZ_nil {A} i : lookupZ (@nil A) i = None.
Proof. unfold lookupZ. by case_decide. Qed.

Lemma lookupZ_cons_ne {A} (x : A) l i : 0 < i → lookupZ (x :: l) i = lookupZ l (i - 1).
Proof.
  intros. unfold lookupZ. rewrite !decide_True by lia.
  by replace (Z.to_nat i) with (S (Z.to_nat (i - 1))) by lia.
Qed.

Lemma updZ_updZ {A} (l : list A) i x y : updZ (updZ l i x) i y = updZ l i y.
Proof. unfold updZ. case_decide; [apply list_insert_insert_eq|done]. Qed.

Lemma updZ_id {A} (l : list A) i x : lookupZ l i = Some x → updZ l i x = l.
Proof. unfold lookupZ, updZ. case_decide; [apply list_insert_id|done]. Qed.

Lemma lookupZ_replicate {A} (n : Z) (x : A) i :
  0 ≤ i < n → lookupZ (replicate (Z.to_nat n) x) i = Some x.
Proof.
  intros. unfold lookupZ. rewrite decide_True by lia. apply lookup_replicate_2. lia.
Qed.

Lemma lookupZ_Forall {A} (P : A → Prop) l i x : Forall P l → lookupZ l i = Some x → P x.
Proof.
  intros HF. unfold lookupZ. case_decide; [|done]. intros Hl.
  by eapply Forall_lookup_1.
Qed.

Lemma Forall_updZ {A} (P : A → Prop) l i x : Forall P l → P x → Forall P (updZ l i x).
Proof. intros. unfold updZ. case_decide; [by apply Forall_insert|done]. Qed.
