(* ===== verification/Memory.v ===== *)
(** * Byte-addressed memory, little-endian integers and power failures

    The namespaces, pools and logs of the library are ranges of bytes.  This
    file has the byte store every component works on, the loads and stores of
    little-endian integers ([le32toh], [htole64], ... on a little-endian host
    are the identity, so the byte order shows only in these two functions), and
    the state a power failure can leave behind. *)

From stdpp Require Import base gmap list numbers.
From S2P Require Import Prelude.
Local Open Scope Z_scope.

(** A memory maps addresses to bytes; an address never written holds 0.  A cell
    is read modulo 256, so that every load yields a byte. *)
Abbreviation mem := (gmap Z Z).

Definition rd (m : mem) (a : Z) : Z := default 0 (m !! a) mod 256.

Fixpoint rdn (m : mem) (off : Z) (n : nat) : list Z :=
  match n with
  | O => []
  | S n => rd m off :: rdn m (off + 1) n
  end.

(** [memcpy(base + off, bs, len)] *)
Fixpoint wr (m : mem) (off : Z) (bs : list Z) : mem :=
  match bs with
  | [] => m
  | b :: bs => wr (<[off := b]> m) (off + 1) bs
  end.

(** [memset(base + off, c, n)] *)
Definition zeros (n : Z) : list Z := repeat 0 (Z.to_nat n).

Abbreviation len l := (Z.of_nat (length l)).

(** Little-endian integers. *)
Fixpoint le_of (bs : list Z) : Z :=
  match bs with
  | [] => 0
  | b :: bs => b mod 256 + 256 * le_of bs
  end.

Fixpoint le_bytes (n : nat) (v : Z) : list Z :=
  match n with
  | O => []
  | S n => v mod 256 :: le_bytes n (v / 256)
  end.

Definition rd16 (m : mem) (off : Z) : Z := le_of (rdn m off 2).
Definition rd32 (m : mem) (off : Z) : Z := le_of (rdn m off 4).
Definition rd64 (m : mem) (off : Z) : Z := le_of (rdn m off 8).
Definition wr32 (m : mem) (off v : Z) : mem := wr m off (le_bytes 4 v).
Definition wr64 (m : mem) (off v : Z) : mem := wr m off (le_bytes 8 v).

(** Two memories that agree on a range. *)
Definition eq_on (m m' : mem) (lo hi : Z) : Prop :=
  ∀ a, lo ≤ a < hi → rd m a = rd m' a.

Definition mem_eq (m m' : mem) : Prop := ∀ a, rd m a = rd m' a.

#[global] Instance mem_eq_equiv : Equivalence mem_eq.
Proof.
  split; unfold mem_eq.
  - done.
  - intros m m' H a. by rewrite H.
  - intros m1 m2 m3 H1 H2 a. by rewrite H1.
Qed.

(** ** Loads and stores *)

Lemma rd_range m a : 0 ≤ rd m a < 256.
Proof. apply Z.mod_pos_bound. lia. Qed.

Lemma rd_insert m a b a' :
  rd (<[a := b]> m) a' = if decide (a = a') then b mod 256 else rd m a'.
Proof. unfold rd. rewrite lookup_insert. by case_decide. Qed.

Lemma rd_wr m off bs a :
  rd (wr m off bs) a =
  if decide (off ≤ a < off + len bs)
  then nth (Z.to_nat (a - off)) bs 0 mod 256 else rd m a.
Proof.
  revert m off. induction bs as [|b bs IH]; intros m off; simpl.
  - rewrite decide_False by lia. done.
  - rewrite IH, rd_insert.
    destruct (decide (off + 1 ≤ a < off + 1 + len bs)).
    + rewrite decide_True by lia.
      replace (Z.to_nat (a - off)) with (S (Z.to_nat (a - (off + 1)))) by lia. done.
    + destruct (decide (off = a)) as [->|].
      * rewrite decide_True by lia. by rewrite Z.sub_diag.
      * rewrite decide_False by lia. done.
Qed.

Lemma rd_wr_out m off bs a : ¬ (off ≤ a < off + len bs) → rd (wr m off bs) a = rd m a.
Proof. intros. by rewrite rd_wr, decide_False. Qed.

Lemma length_rdn m off n : length (rdn m off n) = n.
Proof. revert off. induction n; intros; simpl; auto. Qed.

Lemma length_le_bytes n v : length (le_bytes n v) = n.
Proof. revert v. induction n; intros; simpl; auto. Qed.

Lemma nth_rdn m off n i d : (i < n)%nat → nth i (rdn m off n) d = rd m (off + Z.of_nat i).
Proof.
  revert off i. induction n as [|n IH]; intros off i Hi; [lia|]. simpl.
  destruct i as [|i]; [by rewrite Z.add_0_r|].
  rewrite IH by lia. f_equal. lia.
Qed.

Lemma rdn_ext m m' off n :
  (∀ a, off ≤ a < off + Z.of_nat n → rd m a = rd m' a) → rdn m off n = rdn m' off n.
Proof.
  revert off. induction n as [|n IH]; intros off H; simpl; [done|].
  rewrite H by lia. f_equal. apply IH. intros. apply H. lia.
Qed.

Lemma rdn_mem_eq m m' off n : mem_eq m m' → rdn m off n = rdn m' off n.
Proof. intros H. apply rdn_ext. auto. Qed.

Lemma rdn_wr_out m off bs o n :
  o + Z.of_nat n ≤ off ∨ off + len bs ≤ o → rdn (wr m off bs) o n = rdn m o n.
Proof. intros. apply rdn_ext. intros. apply rd_wr_out. lia. Qed.

Definition is_byte (b : Z) : Prop := 0 ≤ b < 256.

Lemma rdn_bytes m off n : Forall is_byte (rdn m off n).
Proof. revert off. induction n; intros; constructor; [apply rd_range|auto]. Qed.

Lemma le_bytes_bytes n v : Forall is_byte (le_bytes n v).
Proof.
  revert v. induction n; intros; constructor; [|auto]. apply Z.mod_pos_bound. lia.
Qed.

Lemma zeros_bytes n : Forall is_byte (zeros n).
Proof. unfold zeros. induction (Z.to_nat n); constructor; [unfold is_byte; lia|done]. Qed.

Lemma length_zeros n : 0 ≤ n → len (zeros n) = n.
Proof. intros. unfold zeros. rewrite repeat_length. lia. Qed.
#[export] Hint Resolve rdn_bytes le_bytes_bytes zeros_bytes : pmdk.

Lemma nth_mod_byte bs i : Forall is_byte bs → nth i bs 0 mod 256 = nth i bs 0.
Proof.
  intros H. apply Z.mod_small. destruct (decide (i < length bs)%nat).
  - apply (Forall_nth is_byte bs); auto.
  - rewrite nth_overflow by lia. lia.
Qed.

(** Reading back what was just written. *)
Lemma rdn_wr_same m off bs : Forall is_byte bs → rdn (wr m off bs) off (length bs) = bs.
Proof.
  intros Hb. apply (nth_ext _ _ 0 0); [apply length_rdn|].
  intros i Hi. rewrite length_rdn in Hi. rewrite nth_rdn by done.
  rewrite rd_wr, decide_True by lia.
  rewrite nth_mod_byte by done. f_equal. lia.
Qed.

Lemma rdn_wr_same' m off bs n :
  Forall is_byte bs → length bs = n → rdn (wr m off bs) off n = bs.
Proof. intros ? <-. by apply rdn_wr_same. Qed.

(** Reading a part of what was just written. *)
Lemma rdn_wr_sub m off bs o n :
  Forall is_byte bs → off ≤ o → o + Z.of_nat n ≤ off + len bs →
  rdn (wr m off bs) o n = take n (drop (Z.to_nat (o - off)) bs).
Proof.
  intros Hb Ho Hn. apply (nth_ext _ _ 0 0).
  - rewrite length_rdn, length_take, length_drop. lia.
  - intros i Hi. rewrite length_rdn in Hi. rewrite nth_rdn by done.
    rewrite rd_wr, decide_True by lia. rewrite nth_mod_byte by done.
    rewrite !nth_lookup. rewrite lookup_take_lt, lookup_drop by done.
    f_equal. f_equal. lia.
Qed.

Lemma rdn_app m off n k : rdn m off (n + k) = rdn m off n ++ rdn m (off + Z.of_nat n) k.
Proof.
  revert off. induction n as [|n IH]; intros off; simpl.
  - by rewrite Z.add_0_r.
  - rewrite IH. by replace (off + Z.of_nat (S n)) with (off + 1 + Z.of_nat n) by lia.
Qed.

Lemma rdn_sub m off n o k :
  off ≤ o → o + Z.of_nat k ≤ off + Z.of_nat n →
  take k (drop (Z.to_nat (o - off)) (rdn m off n)) = rdn m o k.
Proof.
  intros Ho Hk.
  replace n with (Z.to_nat (o - off) + (n - Z.to_nat (o - off)))%nat by lia.
  rewrite rdn_app, drop_app_length' by (rewrite length_rdn; lia).
  replace (off + Z.of_nat (Z.to_nat (o - off))) with o by lia.
  replace (n - Z.to_nat (o - off))%nat with (k + (n - Z.to_nat (o - off) - k))%nat by lia.
  rewrite rdn_app. apply take_app_length'. by rewrite length_rdn.
Qed.

(** ** Little-endian round trips *)

Lemma le_of_range bs : 0 ≤ le_of bs < 256 ^ len bs.
Proof.
  induction bs as [|b bs IH]; simpl length; [done|]. simpl.
  pose proof (Z.mod_pos_bound b 256).
  rewrite Nat2Z.inj_succ, Z.pow_succ_r by lia. lia.
Qed.

Lemma le_of_le_bytes n v : le_of (le_bytes n v) = v mod 256 ^ Z.of_nat n.
Proof.
  revert v. induction n as [|n IH]; intros v.
  - simpl. by rewrite Z.mod_1_r.
  - rewrite Nat2Z.inj_succ, Z.pow_succ_r by lia. simpl. rewrite IH, Z.mod_mod by lia.
    rewrite Z.rem_mul_r by lia. done.
Qed.

Lemma le_bytes_le_of bs : Forall is_byte bs → le_bytes (length bs) (le_of bs) = bs.
Proof.
  induction 1 as [|b bs Hb _ IH]; simpl; [done|]. unfold is_byte in Hb.
  rewrite (Z.mod_small b) by lia. f_equal.
  - rewrite Z.mul_comm, Z.mod_add by lia. apply Z.mod_small. lia.
  - rewrite Z.mul_comm, Z.div_add by lia. rewrite Z.div_small by lia. by rewrite Z.add_0_l.
Qed.

Lemma rd32_range m off : 0 ≤ rd32 m off < 2 ^ 32.
Proof. unfold rd32. pose proof (le_of_range (rdn m off 4)) as H. by rewrite length_rdn in H. Qed.

Lemma rd64_range m off : 0 ≤ rd64 m off < 2 ^ 64.
Proof. unfold rd64. pose proof (le_of_range (rdn m off 8)) as H. by rewrite length_rdn in H. Qed.

Lemma le_of_rdn_wr m off n v : le_of (rdn (wr m off (le_bytes n v)) off n) = v mod 256 ^ Z.of_nat n.
Proof.
  rewrite rdn_wr_same' by (auto using length_le_bytes with pmdk). apply le_of_le_bytes.
Qed.

Lemma rd32_wr32 m off v : rd32 (wr32 m off v) off = u32 v.
Proof. apply (le_of_rdn_wr m off 4). Qed.

Lemma rd64_wr64 m off v : rd64 (wr64 m off v) off = u64 v.
Proof. apply (le_of_rdn_wr m off 8). Qed.

Lemma rd32_wr_out m off bs o :
  o + 4 ≤ off ∨ off + len bs ≤ o → rd32 (wr m off bs) o = rd32 m o.
Proof. intros. unfold rd32. by rewrite rdn_wr_out by lia. Qed.

Lemma rd64_wr_out m off bs o :
  o + 8 ≤ off ∨ off + len bs ≤ o → rd64 (wr m off bs) o = rd64 m o.
Proof. intros. unfold rd64. by rewrite rdn_wr_out by lia. Qed.

Lemma rd32_ext m m' off : eq_on m m' off (off + 4) → rd32 m off = rd32 m' off.
Proof. intros H. unfold rd32. f_equal. by apply rdn_ext. Qed.

Lemma rd64_ext m m' off : eq_on m m' off (off + 8) → rd64 m off = rd64 m' off.
Proof. intros H. unfold rd64. f_equal. by apply rdn_ext. Qed.

Lemma eq_on_wr_out m off bs lo hi :
  hi ≤ off ∨ off + len bs ≤ lo → eq_on (wr m off bs) m lo hi.
Proof. intros H a Ha. apply rd_wr_out. lia. Qed.

Lemma eq_on_trans m1 m2 m3 lo hi : eq_on m1 m2 lo hi → eq_on m2 m3 lo hi → eq_on m1 m3 lo hi.
Proof. intros H1 H2 a Ha. by rewrite H1, H2. Qed.

Lemma eq_on_sub m m' lo hi lo' hi' : eq_on m m' lo hi → lo ≤ lo' → hi' ≤ hi → eq_on m m' lo' hi'.
Proof. intros H ?? a Ha. apply H. lia. Qed.

Lemma wr_app m off b1 b2 : wr m off (b1 ++ b2) = wr (wr m off b1) (off + len b1) b2.
Proof.
  revert m off. induction b1 as [|b b1 IH]; intros m off; simpl.
  - by rewrite Z.add_0_r.
  - rewrite IH. f_equal. lia.
Qed.

Lemma wr_mem_eq m m' off bs : mem_eq m m' → mem_eq (wr m off bs) (wr m' off bs).
Proof. intros H a. rewrite !rd_wr. case_decide; [done|apply H]. Qed.

#[global] Arguments le_bytes : simpl never.
#[global] Arguments le_of : simpl never.
#[global] Arguments rdn : simpl never.
#[global] Arguments wr : simpl never.
#[global] Arguments zeros : simpl never.
