(* ===== verification/Pmem.v ===== *)
(** * libpmem: stores, cache flushes and fences

    Models [libpmem/pmem.c], [libpmem/x86_64/flush.h] and the dispatch table
    of [libpmem/x86_64/init.c].  A persistent memory is the memory the CPU sees
    together with the trace of stores, cache-line flushes and fences issued
    since the pool was opened; the trace determines the memories a power
    failure can leave behind. *)

From stdpp Require Import base gmap list numbers strings.
From S2P Require Import Prelude Memory.
Local Open Scope Z_scope.

(** ** Persistent memory *)

Inductive ev : Type :=
| EvStore (off : Z) (bs : list Z)
| EvFlush (lines : list Z)        (* write-back of these cache lines is requested *)
| EvDrain.                        (* sfence: requested write-backs complete *)

Record pmem : Type := Pmem { pm_mem : mem; pm_evs : list ev }.

Definition emit (p : pmem) (es : list ev) : pmem := Pmem (pm_mem p) (pm_evs p ++ es).

Definition pm_store (p : pmem) (off : Z) (bs : list Z) : pmem :=
  Pmem (wr (pm_mem p) off bs) (pm_evs p ++ [EvStore off bs]).

(** The memory after the stores of a trace, in program order. *)
Fixpoint replay (m : mem) (es : list ev) : mem :=
  match es with
  | [] => m
  | EvStore off bs :: es => replay (wr m off bs) es
  | _ :: es => replay m es
  end.

(** [durable_from i fl du es w]: how many events of the trace are certainly in
    effect for the 8-byte word [w] after a power failure at the end of [es].  [i]
    events came before; write-back of the first [fl] of them was requested for
    the line of [w], and that of the first [du] has completed. *)
Fixpoint durable_from (i fl du : nat) (es : list ev) (w : Z) : nat :=
  match es with
  | [] => du
  | EvStore _ _ :: es => durable_from (S i) fl du es w
  | EvFlush ls :: es =>
      durable_from (S i) (if bool_decide (w / 8 ∈ ls) then i else fl) du es w
  | EvDrain :: es => durable_from (S i) fl fl es w
  end.

Definition durable_upto (es : list ev) (w : Z) : nat := durable_from 0 0 0 es w.

(** A power failure after [k] events: each aligned 8-byte word holds the value
    some prefix of the trace gave it, and that prefix contains every store
    whose write-back was requested and fenced.  Words are independent, so
    later stores can survive where earlier ones are lost. *)
Definition crash_at (m0 : mem) (es : list ev) (m' : mem) : Prop :=
  ∀ w, ∃ j, (durable_upto es w ≤ j ≤ length es)%nat ∧
    ∀ a, a / 8 = w → rd m' a = rd (replay m0 (take j es)) a.

Definition crash (m0 : mem) (es : list ev) (m' : mem) : Prop :=
  ∃ k, (k ≤ length es)%nat ∧ crash_at m0 (take k es) m'.

(** ** Flush loops of [x86_64/flush.h] *)

Definition FLUSH_ALIGN : Z := 64.

(** Ranges end before the last line of the address space: the sum and the counter do not wrap around.  The lines visited by
    [for (uptr = addr & ~(FLUSH_ALIGN - 1); uptr < addr + len; uptr += FLUSH_ALIGN)]. *)
Fixpoint flush_loop (fuel : nat) (uptr stop : Z) : list Z :=
  match fuel with
  | O => []
  | S fuel =>
      if uptr <? stop then uptr / FLUSH_ALIGN :: flush_loop fuel (uptr + FLUSH_ALIGN) stop
      else []
  end.

(** The loop runs at most [len / 64 + 1] times. *)
Definition flush_nolog (addr length : Z) : list Z :=
  flush_loop (Z.to_nat (length / FLUSH_ALIGN + 2)) (ALIGN_DOWN addr FLUSH_ALIGN) (addr + length).

(** ** The dispatch table *)

Inductive flush_fn : Type := flush_clflush | flush_clflushopt | flush_clwb | flush_empty.
Inductive fence_fn : Type := predrain_fence_empty | predrain_memory_barrier.

#[global] Instance flush_fn_eq_dec : EqDecision flush_fn.
Proof. solve_decision. Defined.

Record pmem_funcs : Type := PmemFuncs {
  predrain_fence : fence_fn;
  deep_flush : flush_fn;
  flush : flush_fn
}.

(** [clflush] is ordered with respect to the stores around it; [clflushopt] and
    [clwb] only request the write-back. *)
Definition run_flush (f : flush_fn) (addr length : Z) : list ev :=
  match f with
  | flush_clflush => [EvFlush (flush_nolog addr length); EvDrain]
  | flush_clflushopt | flush_clwb => [EvFlush (flush_nolog addr length)]
  | flush_empty => []
  end.

Definition run_fence (f : fence_fn) : list ev :=
  match f with
  | predrain_fence_empty => []
  | predrain_memory_barrier => [EvDrain]
  end.

(** The environment variables and CPU features [pmem_init_funcs] consults. *)
Record pmem_env : Type := PmemEnv {
  PMEM_NO_CLFLUSHOPT : option string;
  PMEM_NO_CLWB : option string;
  PMEM_NO_FLUSH : option string;
  PMEM_NO_FENCE : option string;
  cpu_clwb : bool;
  auto_flush : bool
}.

Definition is_str (s : string) (v : option string) : bool := bool_decide (v = Some s).

(** [pmem_cpuinfo_to_funcs]: the [clflushopt] test is [if (1)] in this tree. *)
Definition pmem_cpuinfo_to_funcs (env : pmem_env) (f : pmem_funcs) : pmem_funcs :=
  let f := if is_str "1" (PMEM_NO_CLFLUSHOPT env) then f
           else PmemFuncs predrain_memory_barrier flush_clflushopt (flush f) in
  if cpu_clwb env then
    if is_str "1" (PMEM_NO_CLWB env) then f
    else PmemFuncs predrain_memory_barrier flush_clwb (flush f)
  else f.

Definition pmem_init_funcs (env : pmem_env) : pmem_funcs :=
  let f := pmem_cpuinfo_to_funcs env
             (PmemFuncs predrain_fence_empty flush_clflush flush_empty) in
  let do_flush :=
    if is_str "1" (PMEM_NO_FLUSH env) then false
    else if is_str "0" (PMEM_NO_FLUSH env) then true
    else negb (auto_flush env) in
  let f := if do_flush
           then PmemFuncs (predrain_fence f) (deep_flush f) (deep_flush f)
           else PmemFuncs predrain_memory_barrier (deep_flush f) flush_empty in
  if is_str "1" (PMEM_NO_FENCE env)
  then PmemFuncs predrain_fence_empty (deep_flush f) (flush f)
  else f.

(** ** Entry points of [pmem.c] *)

Definition PMEM_F_MEM_NODRAIN : Z := 1.
Definition PMEM_F_MEM_NONTEMPORAL : Z := 2.
Definition PMEM_F_MEM_WC : Z := 8.
Definition PMEM_F_MEM_NOFLUSH : Z := 32.

Section entry_points.
Context (Funcs : pmem_funcs).

Definition pmem_drain (p : pmem) : pmem := emit p (run_fence (predrain_fence Funcs)).

Definition pmem_flush (p : pmem) (addr length : Z) : pmem :=
  emit p (run_flush (flush Funcs) addr length).

Definition pmem_persist (p : pmem) (addr length : Z) : pmem :=
  pmem_drain (pmem_flush p addr length).

(** [msync] of the pages covering the range returns when they are on the
    media.  (A failing [msync] is not modelled.) *)
Definition pmem_msync (p : pmem) (addr length : Z) : pmem :=
  let length := length + addr mod 4096 in
  let uptr := ALIGN_DOWN addr 4096 in
  emit p [EvFlush (flush_nolog uptr length); EvDrain].

(** [memmove_nodrain_<isa>_<flush>]: the copy, then a flush of the range
    unless [PMEM_F_MEM_NOFLUSH] is given.  The instance is the one that
    matches [deep_flush]; the bytes of [src] are those of a buffer at another address than [dest] (for the same address the code
    returns at once); in the [clflush] configuration non-temporal stores are followed
    by [barrier_after_ntstores], the same events as [clflush]. *)
Definition memmove_nodrain (p : pmem) (dest : Z) (src : list Z) (flags : Z) : pmem :=
  if len src =? 0 then p
  else
    let p := pm_store p dest src in
    if Z.testbit flags 5 then p
    else emit p (run_flush (deep_flush Funcs) dest (len src)).

(** [pmem_memmove]: the fence under
    [if ((flags & (PMEM_F_MEM_NODRAIN | PMEM_F_MEM_NOFLUSH)) == 0)] is commented out in
    this tree, the branch is empty. *)
Definition pmem_memmove (p : pmem) (pmemdest : Z) (src : list Z) (flags : Z) : pmem :=
  let p := memmove_nodrain p pmemdest src (Z.clearbit flags 0) in
  if (flags &&& (PMEM_F_MEM_NODRAIN ||| PMEM_F_MEM_NOFLUSH)) =? 0 then p else p.

Definition pmem_memcpy (p : pmem) (pmemdest : Z) (src : list Z) (flags : Z) : pmem :=
  pmem_memmove p pmemdest src flags.

Definition pmem_memset (p : pmem) (pmemdest c length flags : Z) : pmem :=
  let p := memmove_nodrain p pmemdest (repeat (u8 c) (Z.to_nat length)) (Z.clearbit flags 0) in
  if (flags &&& (PMEM_F_MEM_NODRAIN ||| PMEM_F_MEM_NOFLUSH)) =? 0 then p else p.

Definition pmem_memcpy_nodrain (p : pmem) (pmemdest : Z) (src : list Z) : pmem :=
  pmem_memcpy p pmemdest src PMEM_F_MEM_NODRAIN.

Definition pmem_memcpy_persist (p : pmem) (pmemdest : Z) (src : list Z) : pmem :=
  pmem_memcpy p pmemdest src 0.

Definition pmem_memset_persist (p : pmem) (pmemdest c length : Z) : pmem :=
  pmem_memset p pmemdest c length 0.

(** [common/util_pmem.h] *)
Definition util_persist (is_pmem : bool) (p : pmem) (addr length : Z) : pmem :=
  if is_pmem then pmem_persist p addr length else pmem_msync p addr length.
End entry_points.

(** ** Write sequences

    A component whose every write is durable when the call returns (the
    contract of the [nswrite] callback) has simpler crash states: a prefix of its
    writes is complete and the next one is torn at word boundaries. *)

Definition torn (m m1 m' : mem) : Prop :=
  ∀ w, (∀ a, a / 8 = w → rd m' a = rd m a) ∨ (∀ a, a / 8 = w → rd m' a = rd m1 a).

Inductive ws_crash : mem → list (Z * list Z) → mem → Prop :=
| ws_crash_now m ws m' : mem_eq m' m → ws_crash m ws m'
| ws_crash_torn m off bs ws m' :
    torn m (wr m off bs) m' → ws_crash m ((off, bs) :: ws) m'
| ws_crash_later m off bs ws m' :
    ws_crash (wr m off bs) ws m' → ws_crash m ((off, bs) :: ws) m'.

Fixpoint wrs (m : mem) (ws : list (Z * list Z)) : mem :=
  match ws with
  | [] => m
  | (off, bs) :: ws => wrs (wr m off bs) ws
  end.

(** The events of one durable write. *)
Inductive durable_write (off : Z) (bs : list Z) : list ev → Prop :=
| dw_flushed ls :
    (∀ a, off ≤ a < off + len bs → a / 64 ∈ ls) →
    durable_write off bs [EvStore off bs; EvFlush ls; EvDrain]
| dw_empty es :
    bs = [] → es = [] ∨ es = [EvDrain] → durable_write off bs es.

Inductive durable_writes : list (Z * list Z) → list ev → Prop :=
| dws_nil : durable_writes [] []
| dws_snoc ws es off bs es' :
    durable_writes ws es → durable_write off bs es' →
    durable_writes (ws ++ [(off, bs)]) (es ++ es').

(** ** Lemmas *)

Lemma durable_shift es w : ∀ i n fl du fl' du',
  (fl ≤ fl' - n)%nat → (du ≤ du' - n)%nat →
  (durable_from i fl du es w ≤ durable_from (i + n) fl' du' es w - n)%nat.
Proof.
  induction es as [|[off bs|ls|] es IH]; intros i n fl du fl' du' Hfl Hdu; simpl.
  - done.
  - by apply (IH (S i)).
  - apply (IH (S i)); [|done]. case_bool_decide; lia.
  - by apply (IH (S i)).
Qed.

Lemma durable_ge es w : ∀ i fl du,
  (du ≤ fl)%nat → (fl ≤ i)%nat → (du ≤ durable_from i fl du es w)%nat.
Proof.
  induction es as [|[off bs|ls|] es IH]; intros i fl du Hd Hf; simpl.
  - done.
  - apply IH; lia.
  - apply IH; case_bool_decide; lia.
  - transitivity fl; [lia|]. apply IH; lia.
Qed.

Lemma durable_le es w : ∀ i fl du,
  (fl ≤ i)%nat → (du ≤ i)%nat → (durable_from i fl du es w ≤ i + length es)%nat.
Proof.
  induction es as [|[off bs|ls|] es IH]; intros i fl du Hf Hd; simpl; [lia|..];
    (etransitivity; [apply IH|]); try lia; case_bool_decide; lia.
Qed.

Lemma replay_app m es1 es2 : replay m (es1 ++ es2) = replay (replay m es1) es2.
Proof. revert m. induction es1 as [|[] es IH]; intros; simpl; auto. Qed.

Lemma word_line a w : a / 8 = w → w / 8 = a / 64.
Proof. intros <-. rewrite Z.div_div by lia. done. Qed.

Lemma wr_word_untouched m off bs w :
  (∀ a, off ≤ a < off + len bs → a / 8 ≠ w) →
  ∀ a, a / 8 = w → rd (wr m off bs) a = rd m a.
Proof. intros H a Ha. apply rd_wr_out. intros Hr. by apply (H a). Qed.

(** A word the range touches, or none. *)
Lemma word_touched_dec (off : Z) (bs : list Z) w :
  {∃ a, off ≤ a < off + len bs ∧ a / 8 = w} +
  {∀ a, off ≤ a < off + len bs → a / 8 ≠ w}.
Proof.
  destruct (decide (Exists (λ i, (off + i) / 8 = w) (Z.of_nat <$> seq 0 (length bs)))) as [He|He].
  - left. apply Exists_exists in He as (i & Hi & Hw).
    apply list_elem_of_fmap in Hi as (n & -> & Hn%elem_of_seq).
    exists (off + Z.of_nat n). split; [lia|done].
  - right. intros a Ha Hw. apply He. apply Exists_exists. exists (a - off). split.
    + apply list_elem_of_fmap. exists (Z.to_nat (a - off)). split; [lia|].
      apply elem_of_seq. lia.
    + by replace (off + (a - off)) with a by lia.
Qed.

Lemma crash_durable_write m0 off bs ls es m' :
  (∀ a, off ≤ a < off + len bs → a / 64 ∈ ls) →
  crash m0 ([EvStore off bs; EvFlush ls; EvDrain] ++ es) m' →
  torn m0 (wr m0 off bs) m' ∨ crash (wr m0 off bs) es m'.
Proof.
  intros Hls (k & Hk & Hc). destruct (decide (k < 3)%nat) as [Hlt|Hge].
  - left. intros w. destruct (Hc w) as (j & Hj & Ha).
    rewrite length_take in Hj. rewrite take_take in Ha.
    replace (min j k) with j in Ha by lia.
    destruct j as [|[|[|j]]]; simpl in Ha; auto. lia.
  - right. exists (k - 3)%nat. rewrite length_app in Hk. simpl in Hk. split; [lia|].
    intros w. destruct (Hc w) as (j & Hj & Ha).
    destruct k as [|[|[|k]]]; [lia..|]. simpl in *. rewrite Nat.sub_0_r in *.
    rewrite length_take in Hj. unfold durable_upto in *. simpl in Hj.
    exists (j - 3)%nat. split.
    { rewrite length_take. split; [|lia]. etransitivity; [|apply Nat.sub_le_mono_r, Hj].
      apply (durable_shift _ _ 0%nat); lia. }
    intros a Haw. rewrite (Ha a Haw).
    destruct j as [|[|[|j]]]; simpl; rewrite ?take_0, ?Nat.sub_0_r; try done.
    destruct (word_touched_dec off bs w) as [(a0 & Ha0 & Hw0)|Hno].
    + exfalso. rewrite bool_decide_true in Hj.
      2: { rewrite (word_line a0 w Hw0). by apply Hls. }
      pose proof (durable_ge (take k es) w 3 1 1). lia.
    + symmetry. by apply (wr_word_untouched _ _ _ w).
Qed.

Lemma crash_skip_drain m0 es m' : crash m0 (EvDrain :: es) m' → crash m0 es m'.
Proof.
  intros (k & Hk & Hc). exists (k - 1)%nat. simpl in Hk. split; [lia|].
  intros w. destruct (Hc w) as (j & Hj & Ha). rewrite length_take in Hj.
  exists (j - 1)%nat. destruct k as [|k].
  - simpl in *. replace j with 0%nat in * by lia. simpl in *.
    split; [unfold durable_upto in *; simpl in *; lia|done].
  - simpl in *. rewrite Nat.sub_0_r. rewrite length_take.
    unfold durable_upto in *. simpl in Hj. split.
    + split; [|lia]. etransitivity; [|apply Nat.sub_le_mono_r, Hj].
      apply (durable_shift _ _ 0%nat); lia.
    + intros a Haw. rewrite (Ha a Haw). destruct j as [|j]; simpl; [done|].
      by rewrite Nat.sub_0_r.
Qed.

Lemma crash_nil m0 m' : crash m0 [] m' → mem_eq m' m0.
Proof.
  intros (k & Hk & Hc) a. destruct (Hc (a / 8)) as (j & Hj & Ha).
  rewrite (Ha a eq_refl). by rewrite !take_nil.
Qed.

(** The crash states of a trace of durable writes are those of the write sequence. *)
Lemma crash_ws ws es : durable_writes ws es →
  ∀ m0 m', crash m0 es m' → ws_crash m0 ws m'.
Proof.
  intros Hd.
  assert (∀ ws' es', (∀ m0 m', crash m0 es' m' → ws_crash m0 ws' m') →
     ∀ m0 m', crash m0 (es ++ es') m' → ws_crash m0 (ws ++ ws') m') as Hgen.
  { induction Hd as [|ws es off bs es1 Hd IH Hw]; intros ws' es' Hrec m0 m' Hc; [auto|].
    rewrite <- !(assoc_L (++)) in *. revert m0 m' Hc. apply IH. intros m0 m' Hc.
    inversion Hw as [ls Hls|es0 Hbs Hes]; subst.
    - apply (crash_durable_write _ _ _ _ _ _ Hls) in Hc as [Ht|Hc]; [by apply ws_crash_torn|].
      by apply ws_crash_later, Hrec.
    - apply ws_crash_later. simpl. apply Hrec.
      destruct Hes as [->| ->]; [done|by apply crash_skip_drain]. }
  intros m0 m' Hc. rewrite <- (app_nil_r ws). apply (Hgen [] []).
  - intros ?? Hn%crash_nil. by constructor.
  - by rewrite app_nil_r.
Qed.

Lemma ws_crash_cons m off bs ws m' : ws_crash m ((off, bs) :: ws) m' →
  mem_eq m' m ∨ torn m (wr m off bs) m' ∨ ws_crash (wr m off bs) ws m'.
Proof. inversion 1; subst; auto. Qed.

Lemma ws_crash_nil m m' : ws_crash m [] m' → mem_eq m' m.
Proof. by inversion 1; subst. Qed.

Lemma wrs_app m ws1 ws2 : wrs m (ws1 ++ ws2) = wrs (wrs m ws1) ws2.
Proof. revert m. induction ws1 as [|[] ws IH]; intros; simpl; auto. Qed.

Lemma durable_from_app w es1 : ∀ i fl du, ∃ fl' du', ∀ es2,
  durable_from i fl du (es1 ++ es2) w = durable_from (i + length es1) fl' du' es2 w.
Proof.
  induction es1 as [|e es1 IH]; intros i fl du; simpl.
  - exists fl, du. intros es2. by rewrite Nat.add_0_r.
  - rewrite <- Nat.add_succ_comm. destruct e; apply IH.
Qed.

Lemma flush_loop_spec l : ∀ fuel u stop,
  stop - u * 64 ≤ 64 * Z.of_nat fuel →
  l ∈ flush_loop fuel (u * 64) stop ↔ u ≤ l ∧ l * 64 < stop.
Proof.
  induction fuel as [|fuel IH]; intros u stop Hf; simpl.
  - split; [by intros ?%not_elem_of_nil|lia].
  - destruct (Z.ltb_spec (u * 64) stop).
    + unfold FLUSH_ALIGN. rewrite Z.div_mul by lia.
      replace (u * 64 + 64) with ((u + 1) * 64) by lia.
      rewrite elem_of_cons, IH by lia. lia.
    + split; [by intros ?%not_elem_of_nil|lia].
Qed.

Lemma flush_nolog_elem addr length l :
  0 ≤ addr → 0 ≤ length → addr + length < 2 ^ 64 →
  l ∈ flush_nolog addr length ↔ addr / 64 ≤ l ∧ l * 64 < addr + length.
Proof.
  intros Ha Hl Hlt. unfold flush_nolog, FLUSH_ALIGN. rewrite ALIGN_DOWN_64 by lia.
  apply flush_loop_spec.
  pose proof (Z.div_mod addr 64 ltac:(lia)). pose proof (Z.mod_pos_bound addr 64 ltac:(lia)).
  pose proof (Z.div_mod length 64 ltac:(lia)). pose proof (Z.mod_pos_bound length 64 ltac:(lia)).
  assert (0 ≤ length / 64) by (apply Z.div_pos; lia). lia.
Qed.

Lemma flush_nolog_covers addr length a :
  0 ≤ addr → addr + length < 2 ^ 64 → addr ≤ a < addr + length →
  a / 64 ∈ flush_nolog addr length.
Proof.
  intros. apply flush_nolog_elem; [lia..|]. split; [apply Z.div_le_mono; lia|].
  pose proof (Z.div_mod a 64 ltac:(lia)). pose proof (Z.mod_pos_bound a 64 ltac:(lia)). lia.
Qed.

Lemma msync_covers off n a : 0 ≤ off → 0 ≤ n → off + n < 2 ^ 64 → off ≤ a < off + n →
  a / 64 ∈ flush_nolog (ALIGN_DOWN off 4096) (n + off mod 4096).
Proof.
  intros Hoff Hn Hlt Ha. rewrite ALIGN_DOWN_4096 by lia.
  pose proof (Z.mod_pos_bound off 4096 ltac:(lia)). pose proof (Z.div_mod off 4096 ltac:(lia)).
  pose proof (Z.div_pos off 4096 ltac:(lia) ltac:(lia)). apply flush_nolog_covers; lia.
Qed.

(** A stored range is durable once a flush covering it and then a fence were issued. *)
Lemma crash_at_flushed m0 es off bs ls m' :
  (∀ a, off ≤ a < off + len bs → a / 64 ∈ ls) →
  crash_at m0 (es ++ [EvStore off bs; EvFlush ls; EvDrain]) m' →
  ∀ a, off ≤ a < off + len bs → rd m' a = rd (wr (replay m0 es) off bs) a.
Proof.
  intros Hls Hc a Ha. destruct (Hc (a / 8)) as (j & Hj & Heq). rewrite (Heq a eq_refl).
  unfold durable_upto in Hj.
  destruct (durable_from_app (a / 8) es 0 0 0) as (fl & du & Hd). rewrite Hd in Hj. simpl in Hj.
  rewrite bool_decide_true in Hj by (rewrite (word_line a (a / 8)) by done; auto).
  rewrite length_app in Hj. simpl in Hj.
  rewrite take_app_ge by lia. rewrite replay_app.
  by destruct (j - length es)%nat as [|[|[|[|n]]]] eqn:E; [lia|..].
Qed.

(** A failure that loses nothing is always possible. *)
Lemma crash_at_replay m0 es : crash_at m0 es (replay m0 es).
Proof.
  intros w. exists (length es). split.
  - split; [|done]. apply (durable_le es w 0 0 0); lia.
  - intros a _. by rewrite take_ge.
Qed.

(** Everything a trace has stored is on the media. *)
Definition settled (m0 : mem) (es : list ev) : Prop :=
  ∀ m', crash_at m0 es m' → mem_eq m' (replay m0 es).

(** Started from [m0], a memory that has everything it stored on the media. *)
Definition persisted (m0 : mem) (p : pmem) : Prop :=
  replay m0 (pm_evs p) = pm_mem p ∧ settled m0 (pm_evs p).

Lemma durable_app_ge es1 es2 w :
  (durable_upto es1 w ≤ durable_upto (es1 ++ es2) w)%nat.
Proof.
  unfold durable_upto.
  assert (∀ i fl du, (du ≤ fl)%nat → (fl ≤ i)%nat →
    (durable_from i fl du es1 w ≤ durable_from i fl du (es1 ++ es2) w)%nat) as H; [|apply H; lia].
  induction es1 as [|[] es1 IH]; intros i fl du Hd Hf; simpl; [by apply durable_ge|..];
    apply IH; try case_bool_decide; lia.
Qed.

Lemma durable_app_shift es1 es2 w :
  (durable_upto es2 w ≤ durable_upto (es1 ++ es2) w - length es1)%nat.
Proof.
  unfold durable_upto. destruct (durable_from_app w es1 0 0 0) as (fl & du & ->).
  apply (durable_shift _ _ 0%nat); lia.
Qed.

(** Only the events after a settled prefix matter. *)
Lemma crash_at_settled m0 es1 es2 m' :
  settled m0 es1 → crash_at m0 (es1 ++ es2) m' → crash_at (replay m0 es1) es2 m'.
Proof.
  intros Hs Hc w. destruct (Hc w) as (j & Hj & Ha). rewrite length_app in Hj.
  pose proof (durable_app_shift es1 es2 w). pose proof (durable_app_ge es1 es2 w).
  exists (j - length es1)%nat. split; [lia|]. intros a Haw. rewrite (Ha a Haw).
  destruct (decide (length es1 ≤ j)%nat) as [Hge|Hlt].
  - by rewrite take_app_ge, replay_app.
  - rewrite take_app_le by lia. replace (j - length es1)%nat with 0%nat by lia. simpl.
    set (m1 := wr (replay m0 es1) (8 * w) (rdn m' (8 * w) 8)).
    assert (∀ a, rd m1 a = if decide (a / 8 = w) then rd m' a else rd (replay m0 es1) a) as Hm1.
    { intros a0. unfold m1. rewrite rd_wr, length_rdn. pose proof (Z.div_mod a0 8 ltac:(lia)).
      pose proof (Z.mod_pos_bound a0 8 ltac:(lia)). case_decide; case_decide; try lia.
      rewrite nth_mod_byte by auto with pmdk. rewrite nth_rdn by lia. f_equal. lia. }
    assert (crash_at m0 es1 m1) as Hc1.
    { intros w'. destruct (decide (w' = w)) as [->|Hne].
      - exists j. split; [lia|]. intros a0 Ha0. rewrite Hm1, decide_True by done.
        rewrite (Ha a0 Ha0). by rewrite take_app_le by lia.
      - exists (length es1). split.
        + split; [apply (durable_le es1 w' 0 0 0); lia|done].
        + intros a0 Ha0. rewrite Hm1, decide_False by lia. by rewrite take_ge. }
    pose proof (Hs m1 Hc1 a) as Heq. rewrite Hm1, decide_True in Heq by done.
    rewrite <- Heq, (Ha a Haw). by rewrite take_app_le by lia.
Qed.

Lemma settled_app m0 es1 es2 :
  settled m0 es1 → settled (replay m0 es1) es2 → settled m0 (es1 ++ es2).
Proof. intros H1 H2 m' Hc. rewrite replay_app. by apply H2, crash_at_settled. Qed.

Lemma settled_nil m0 : settled m0 [].
Proof. intros m' Hc. apply crash_nil. by exists 0%nat. Qed.

Lemma durable_write_settled m off bs es : durable_write off bs es → settled m es.
Proof.
  intros [ls Hls|es' -> [->| ->]] m' Hc.
  - intros a. destruct (decide (off ≤ a < off + len bs)) as [Hin|Hout].
    { exact (crash_at_flushed m [] off bs ls m' Hls Hc a Hin). }
    simpl. rewrite rd_wr_out by done. destruct (Hc (a / 8)) as (j & Hj & Ha).
    rewrite (Ha a eq_refl). destruct j as [|j]; simpl; [done|].
    replace (replay (wr m off bs) (take j [EvFlush ls; EvDrain])) with (wr m off bs)
      by (by destruct j as [|[|[|]]]). by rewrite rd_wr_out.
  - by apply settled_nil.
  - intros a. destruct (Hc (a / 8)) as (j & Hj & Ha). rewrite (Ha a eq_refl). by destruct j as [|[|[|]]].
Qed.

Lemma durable_writes_settled ws es : durable_writes ws es → ∀ m, settled m es.
Proof.
  induction 1 as [|ws es off bs es' _ IH Hw]; intros m; [apply settled_nil|].
  apply settled_app; [done|by eapply durable_write_settled].
Qed.

(** A failure during the calls that follow a settled prefix. *)
Lemma crash_settled m0 es1 es2 k m' :
  settled m0 es1 → (length es1 ≤ k ≤ length (es1 ++ es2))%nat →
  crash_at m0 (take k (es1 ++ es2)) m' → crash (replay m0 es1) es2 m'.
Proof.
  intros Hs Hk Hc. rewrite length_app in Hk. exists (k - length es1)%nat. split; [lia|].
  apply crash_at_settled; [done|]. by rewrite take_app_ge in Hc by lia.
Qed.

(** Bytes no store of the trace touches. *)
Definition untouched (es : list ev) (a : Z) : Prop :=
  ∀ off bs, EvStore off bs ∈ es → ¬ (off ≤ a < off + len bs).

Lemma untouched_app es1 es2 a : untouched (es1 ++ es2) a ↔ untouched es1 a ∧ untouched es2 a.
Proof.
  unfold untouched. setoid_rewrite elem_of_app. split; [intros H; split; intros; apply (H off bs); auto|].
  intros [H1 H2] off bs [H|H]; eauto.
Qed.

Lemma replay_untouched es : ∀ m a, untouched es a → rd (replay m es) a = rd m a.
Proof.
  induction es as [|e es IH]; intros m a H; [done|].
  assert (untouched es a) as H' by (intros off bs Hin; apply H; by right).
  destruct e as [off bs| |]; simpl; rewrite IH by done; [|done|done].
  apply rd_wr_out, H. left.
Qed.

Lemma untouched_take es j a : untouched es a → untouched (take j es) a.
Proof. rewrite <- (take_drop j es) at 1. by intros [H _]%untouched_app. Qed.

Lemma crash_untouched m es x a : crash_at m es x → untouched es a → rd x a = rd m a.
Proof.
  intros Hc H. destruct (Hc (a / 8)) as (j & _ & Ha). rewrite (Ha a eq_refl).
  by apply replay_untouched, untouched_take.
Qed.

(** A batch of stores, then the write-back of all the lines they touch. *)
Lemma settled_batch m es ls :
  (∀ a, ¬ untouched es a → a / 64 ∈ ls) → settled m (es ++ [EvFlush ls; EvDrain]).
Proof.
  intros Hls x Hc a. destruct (Hc (a / 8)) as (j & Hj & Ha). rewrite (Ha a eq_refl).
  rewrite replay_app. simpl. unfold durable_upto in Hj.
  destruct (durable_from_app (a / 8) es 0 0 0) as (fl & du & Hd). rewrite Hd in Hj. simpl in Hj.
  rewrite length_app in Hj. simpl in Hj. case_bool_decide as Hin.
  - rewrite take_app_ge, replay_app by lia. by destruct (j - length es)%nat as [|[|[|]]].
  - assert (untouched es a) as Hu.
    { intros off bs Hin' Hr. apply Hin. rewrite (word_line a) by done. apply Hls.
      intros Hu. by apply (Hu off bs). }
    rewrite (replay_untouched es) by done. apply replay_untouched, untouched_take.
    apply untouched_app. split; [done|]. intros off bs. rewrite !elem_of_cons, elem_of_nil. intros [?|[?|[]]]; done.
Qed.

(** Each store is followed by the write-back of its lines; one fence at the end. *)
Inductive flushed : list ev → Prop :=
| flushed_nil : flushed []
| flushed_store es off bs ls :
    flushed es → (∀ a, off ≤ a < off + len bs → a / 64 ∈ ls) →
    flushed (es ++ [EvStore off bs; EvFlush ls])
| flushed_drain es : flushed es → flushed (es ++ [EvDrain]).

Lemma flushed_words m es w : flushed es → ∃ fl du, (du ≤ fl ≤ length es)%nat ∧
  (∀ es', durable_upto (es ++ es') w = durable_from (length es) fl du es' w) ∧
  ∀ j a, (fl ≤ j ≤ length es)%nat → a / 8 = w → rd (replay m (take j es)) a = rd (replay m es) a.
Proof.
  induction 1 as [|es off bs ls _ (fl & du & Hle & Hd & Hw) Hls|es _ (fl & du & Hle & Hd & Hw)].
  - exists 0%nat, 0%nat. split; [simpl; lia|]. split; [done|]. intros j a Hj _. by destruct j.
  - destruct (decide (w / 8 ∈ ls)) as [Hin|Hout].
    + exists (S (length es)), du. rewrite length_app. split; [simpl; lia|]. split.
      * intros es'. rewrite <- (assoc_L (++)), Hd. simpl. rewrite bool_decide_true by done.
        f_equal. lia.
      * intros j a Hj Ha. rewrite take_app_ge, !replay_app by lia. simpl in Hj.
        by destruct (j - length es)%nat as [|[|[|]]] eqn:E; [lia|..].
    + assert (∀ m' a, a / 8 = w → rd (wr m' off bs) a = rd m' a) as Hno.
      { intros m' a Ha. apply rd_wr_out. intros Hr. apply Hout. rewrite (word_line a) by done. auto. }
      exists fl, du. rewrite length_app. split; [simpl; lia|]. split.
      * intros es'. rewrite <- (assoc_L (++)), Hd. simpl. rewrite bool_decide_false by done.
        f_equal. lia.
      * intros j a Hj Ha. rewrite replay_app. simpl. rewrite Hno by done.
        destruct (decide (j ≤ length es)%nat).
        -- rewrite take_app_le by lia. apply Hw; [lia|done].
        -- rewrite take_app_ge, replay_app by lia. simpl in Hj.
           destruct (j - length es)%nat as [|[|[|]]] eqn:E; simpl; [lia|..]; by rewrite ?Hno.
  - exists fl, fl. rewrite length_app. split; [simpl; lia|]. split.
    + intros es'. rewrite <- (assoc_L (++)), Hd. simpl. f_equal. lia.
    + intros j a Hj Ha. rewrite replay_app. simpl. destruct (decide (j ≤ length es)%nat).
      * rewrite take_app_le by lia. apply Hw; [lia|done].
      * rewrite take_app_ge, replay_app by lia. simpl in Hj.
        by destruct (j - length es)%nat as [|[|[|]]] eqn:E; simpl; [lia|..].
Qed.

Lemma flushed_settled m es : flushed es → settled m (es ++ [EvDrain]).
Proof.
  intros H x Hc a. destruct (flushed_words m es (a / 8) H) as (fl & du & Hle & Hd & Hw).
  destruct (Hc (a / 8)) as (j & Hj & Ha). rewrite (Ha a eq_refl). rewrite Hd, length_app in Hj. simpl in Hj.
  rewrite replay_app. simpl. destruct (decide (j ≤ length es)%nat).
  - rewrite take_app_le by lia. apply Hw; [lia|done].
  - rewrite take_app_ge, replay_app by lia. by destruct (j - length es)%nat as [|[|[|]]] eqn:E; simpl; [lia|..].
Qed.

(** ** Properties of libpmem *)

(** The configurations the library documents as safe on a platform without eADR. *)
Definition flushing_env (env : pmem_env) : Prop :=
  PMEM_NO_FLUSH env ≠ Some "1" ∧ PMEM_NO_FENCE env ≠ Some "1" ∧ auto_flush env = false.

Lemma init_flushing env : flushing_env env →
  let F := pmem_init_funcs env in
  flush F = deep_flush F ∧
  (deep_flush F = flush_clflush ∧ predrain_fence F = predrain_fence_empty
   ∨ (deep_flush F = flush_clflushopt ∨ deep_flush F = flush_clwb)
     ∧ predrain_fence F = predrain_memory_barrier).
Proof.
  intros (H1 & H2 & H3). unfold pmem_init_funcs, pmem_cpuinfo_to_funcs, is_str.
  rewrite !(bool_decide_false _ H1), !(bool_decide_false _ H2), H3.
  repeat case_match; simpl in *; naive_solver.
Qed.

Lemma persist_events env p off length : flushing_env env →
  pmem_persist (pmem_init_funcs env) p off length =
  emit p [EvFlush (flush_nolog off length); EvDrain].
Proof.
  intros He. destruct (init_flushing env He) as (Hf & Hk).
  unfold pmem_persist, pmem_flush, pmem_drain, emit. rewrite Hf. simpl.
  rewrite <- (assoc_L (++)). destruct Hk as [(-> & ->)|([->| ->] & ->)]; done.
Qed.

Lemma memcpy_nodrain_drain_events env p off bs : flushing_env env → bs ≠ [] →
  pmem_drain (pmem_init_funcs env) (pmem_memcpy_nodrain (pmem_init_funcs env) p off bs) =
  emit (pm_store p off bs) [EvFlush (flush_nolog off (len bs)); EvDrain].
Proof.
  intros He Hbs. destruct (init_flushing env He) as (Hf & Hk).
  unfold pmem_drain, pmem_memcpy_nodrain, pmem_memcpy, pmem_memmove, memmove_nodrain.
  destruct (Z.eqb_spec (len bs) 0) as [Hl|_]; [destruct bs; [done|simpl in Hl; lia]|].
  simpl. unfold emit. simpl. rewrite <- !(assoc_L (++)).
  destruct Hk as [(-> & ->)|([->| ->] & ->)]; done.
Qed.

(** C39: [pmem_persist] after a store makes the stored bytes durable: no power
    failure after it returns can lose them, whichever flush instruction
    [pmem_init_funcs] selected.  The environment asks for flushes and fences: PMEM_NO_FLUSH and PMEM_NO_FENCE are not set and the caches
    are not assumed to be persistent (eADR). *)
Theorem pmem_persist_durable env p off bs m0 m' :
  flushing_env env → 0 ≤ off → off + len bs < 2 ^ 64 →
  crash_at m0
    (pm_evs (pmem_persist (pmem_init_funcs env) (pm_store p off bs) off (len bs))) m' →
  ∀ a, off ≤ a < off + len bs → rd m' a = nth (Z.to_nat (a - off)) bs 0 mod 256.
Proof.
  intros He Hoff Hlt Hc a Ha. rewrite persist_events in Hc by done. simpl in Hc.
  rewrite <- (assoc_L (++)) in Hc. simpl in Hc.
  erewrite (crash_at_flushed _ _ _ _ _ _ _ Hc a Ha).
  by rewrite rd_wr, decide_True.
  Unshelve. intros. apply flush_nolog_covers; lia.
Qed.

Definition default_env : pmem_env := PmemEnv None None None None true false.

Lemma pmem_persist_durable_witness :
  rd (replay ∅ (pm_evs (pmem_persist (pmem_init_funcs default_env)
        (pm_store (Pmem ∅ []) 60 [7; 8; 9; 10; 11]) 60 5))) 62 = 9.
Proof.
  apply (pmem_persist_durable default_env (Pmem ∅ []) 60 [7; 8; 9; 10; 11] ∅).
  - repeat split; discriminate.
  - lia.
  - vm_compute. done.
  - apply crash_at_replay.
  - simpl. lia.
Defined.

(** every line that holds a byte of the range is flushed, and only those. *)
Theorem flush_loop_exact addr length l :
  0 ≤ addr → 0 < length → addr + length < 2 ^ 64 →
  l ∈ flush_nolog addr length ↔ ∃ a, addr ≤ a < addr + length ∧ a / 64 = l.
Proof.
  intros Ha Hl Hlt. rewrite flush_nolog_elem by lia. split.
  - intros [H1 H2]. exists (Z.max addr (l * 64)). split; [lia|].
    destruct (Z.max_spec addr (l * 64)) as [[? ->]|[? ->]]; [by rewrite Z.div_mul by lia|].
    apply Z.le_antisymm; [done|]. apply Z.div_le_lower_bound; lia.
  - intros (a & Har & <-). split; [apply Z.div_le_mono; lia|].
    pose proof (Z.div_mod a 64 ltac:(lia)). pose proof (Z.mod_pos_bound a 64 ltac:(lia)). lia.
Qed.

Lemma flush_loop_exact_witness : 1 ∈ flush_nolog 60 10 ∧ (2 ∉ flush_nolog 60 10).
Proof.
  split.
  - apply (flush_loop_exact 60 10 1); [lia..|]. exists 65. split; [lia|reflexivity].
  - intros H. apply (flush_loop_exact 60 10 2) in H as (a & Ha & Hd); [|lia..].
    assert (a / 64 ≤ 69 / 64) by (apply Z.div_le_mono; lia).
    change (69 / 64) with 1 in *. lia.
Defined.

(** with [clwb] or [clflushopt], [pmem_memcpy_persist] adds no durability: any
    memory a power failure could leave before the call can still be left
    after it has returned, because no fence follows the flush. *)
Theorem pmem_memcpy_persist_not_durable env p off bs m0 m' :
  deep_flush (pmem_init_funcs env) ≠ flush_clflush →
  crash_at m0 (pm_evs p) m' →
  crash_at m0 (pm_evs (pmem_memcpy_persist (pmem_init_funcs env) p off bs)) m'.
Proof.
  intros Hd Hc.
  unfold pmem_memcpy_persist, pmem_memcpy, pmem_memmove, memmove_nodrain.
  destruct (len bs =? 0); simpl; [done|].
  intros w. destruct (Hc w) as (j & Hj & Ha). exists j.
  unfold durable_upto in *.
  destruct (durable_from_app w (pm_evs p) 0 0 0) as (fl & du & Happ).
  pose proof (Happ []) as H0. rewrite app_nil_r in H0. rewrite H0 in Hj. simpl in Hj.
  destruct (deep_flush (pmem_init_funcs env)); simpl; try done;
    rewrite <- !(assoc_L (++)), ?app_nil_r, Happ, length_app; simpl;
    (split; [lia|]); rewrite take_app_le by lia; done.
Qed.

Lemma pmem_memcpy_persist_not_durable_witness :
  crash_at ∅ (pm_evs (pmem_memcpy_persist (pmem_init_funcs default_env) (Pmem ∅ []) 0 [1])) ∅.
Proof.
  apply (pmem_memcpy_persist_not_durable default_env (Pmem ∅ []) 0 [1] ∅ ∅).
  - discriminate.
  - intros w. exists 0%nat. split; [split; reflexivity|intros a _; reflexivity].
Defined.
