(* ===== verification/Util.v ===== *)
(** * Basic utilities: checksums, zero tests and bit arrays

    Models [common/util.c] ([util_is_zeroed], [util_checksum],
    [util_checksum_seq]) and the bit helpers of [common/util.h].  A buffer is the
    list of its bytes; a pointer into it is a byte offset. *)

From stdpp Require Import base gmap list numbers.
From S2P Require Import Prelude Memory.
Local Open Scope Z_scope.

(** The 32-bit little-endian words of a buffer; a trailing partial word is dropped. *)
Fixpoint words (bs : list Z) : list Z :=
  match bs with
  | b0 :: b1 :: b2 :: b3 :: bs => le_of [b0; b1; b2; b3] :: words bs
  | _ => []
  end.

(** Store [new] over the bytes at [off]. *)
Definition splice (bs : list Z) (off : Z) (new : list Z) : list Z :=
  take (Z.to_nat off) bs ++ new ++ drop (Z.to_nat (off + len new)) bs.

Definition slice (bs : list Z) (off : Z) (n : nat) : list Z :=
  take n (drop (Z.to_nat off) bs).

(** [util_is_zeroed]: the first byte is 0 and every byte equals the next one. *)
Definition util_is_zeroed (a : list Z) : bool :=
  match a with
  | [] => true
  | b :: t => (b =? 0) && bool_decide (take (length t) a = t)
  end.

(** The loop of [util_checksum]: [i] is the index of the current word, [cs] that
    of the checksum field, [skip] that of the first word past the checksummed part.
    The checksum field and the skipped part are consumed two words at a time. *)
Fixpoint checksum_loop (ws : list Z) (i cs skip lo32 hi32 : Z) : Z * Z :=
  match ws with
  | [] => (lo32, hi32)
  | w :: t =>
      if (i =? cs) || (skip <=? i) then
        let hi32 := u32 (u32 (hi32 + lo32) + lo32) in
        match t with
        | [] => (lo32, hi32)
        | _ :: t' => checksum_loop t' (i + 2) cs skip lo32 hi32
        end
      else
        let lo32 := u32 (lo32 + w) in
        checksum_loop t (i + 1) cs skip lo32 (u32 (hi32 + lo32))
  end.

Definition csum_of (lohi : Z * Z) : Z := Z.lor (Z.shiftl lohi.2 32) lohi.1.

Definition checksum_value (bs : list Z) (csump skip_off : Z) : Z :=
  let skip := if skip_off =? 0 then len bs / 4 else skip_off / 4 in
  csum_of (checksum_loop (words bs) 0 (csump / 4) skip 0 0).

(** [util_checksum(addr, len, csump, insert, skip_off)]: the result and the buffer
    after the call; [Undef] is the [abort()] of a length that is no multiple of 4. *)
Definition util_checksum (bs : list Z) (csump : Z) (insert : bool) (skip_off : Z)
    : res (bool * list Z) :=
  if negb (len bs mod 4 =? 0) then Undef
  else
    let csum := checksum_value bs csump skip_off in
    if insert then Ok (true, splice bs csump (le_bytes 8 csum))
    else Ok (le_of (slice bs csump 8) =? csum, bs).

Fixpoint checksum_seq_loop (ws : list Z) (lo32 hi32 : Z) : Z * Z :=
  match ws with
  | [] => (lo32, hi32)
  | w :: t =>
      let lo32 := u32 (lo32 + w) in
      checksum_seq_loop t lo32 (u32 (hi32 + lo32))
  end.

Definition util_checksum_seq (bs : list Z) (csum : Z) : res Z :=
  if negb (len bs mod 4 =? 0) then Undef
  else Ok (csum_of (checksum_seq_loop (words bs) (u32 csum) (u32 (Z.shiftr csum 32)))).

(** [util_setbit], [util_clrbit], [isset] and [isclr] on an array of bytes. *)
Definition util_setbit (b : list Z) (i : Z) : list Z :=
  updZ b (i / 8) (u8 (Z.lor (default 0 (lookupZ b (i / 8))) (u8 (Z.shiftl 1 (i mod 8))))).

Definition util_clrbit (b : list Z) (i : Z) : list Z :=
  updZ b (i / 8)
    (u8 (Z.land (default 0 (lookupZ b (i / 8))) (u8 (Z.lnot (Z.shiftl 1 (i mod 8)))))).

Definition util_isset (b : list Z) (i : Z) : bool :=
  negb (Z.land (default 0 (lookupZ b (i / 8))) (Z.shiftl 1 (i mod 8)) =? 0).

Definition util_isclr (b : list Z) (i : Z) : bool := negb (util_isset b i).

(** [util_is_pow2] and [util_div_ceil]. *)
Definition util_is_pow2 (v : Z) : bool :=
  negb (v =? 0) && (Z.land v (u64 (v - 1)) =? 0).
Definition util_div_ceil (a b : Z) : Z := u32 (u64 (u64 (a + b) - 1) / b).

(** ** Slices *)

Lemma length_splice bs off new :
  0 ≤ off → off + len new ≤ len bs → length (splice bs off new) = length bs.
Proof.
  intros. unfold splice. rewrite !length_app, length_take, length_drop. lia.
Qed.

Lemma lookup_splice_out bs off new i :
  0 ≤ off → off + len new ≤ len bs →
  ¬ (off ≤ Z.of_nat i < off + len new) → splice bs off new !! i = bs !! i.
Proof.
  intros Ho Hl Hi. unfold splice. destruct (decide (Z.of_nat i < off)).
  - rewrite lookup_app_l by (rewrite length_take; lia). rewrite lookup_take_lt by lia. done.
  - rewrite lookup_app_r by (rewrite length_take; lia).
    rewrite lookup_app_r by (rewrite length_take; lia).
    rewrite lookup_drop, length_take. f_equal. lia.
Qed.

Lemma lookup_splice_in bs off new i :
  0 ≤ off → off + len new ≤ len bs → off ≤ Z.of_nat i < off + len new →
  splice bs off new !! i = new !! (i - Z.to_nat off)%nat.
Proof.
  intros Ho Hl Hi. unfold splice.
  rewrite lookup_app_r by (rewrite length_take; lia).
  rewrite lookup_app_l by (rewrite length_take; lia).
  rewrite length_take. f_equal. lia.
Qed.

Lemma slice_splice bs off new :
  0 ≤ off → off + len new ≤ len bs → slice (splice bs off new) off (length new) = new.
Proof.
  intros. unfold slice, splice.
  rewrite drop_app_length' by (rewrite length_take; lia).
  by rewrite take_app_length.
Qed.

(** ** Words *)

Lemma words_app_lemma n : ∀ a b, length a = (4 * n)%nat → words (a ++ b) = words a ++ words b.
Proof.
  induction n as [|n IH]; intros a b Ha.
  - by destruct a.
  - destruct a as [|x0 [|x1 [|x2 [|x3 a]]]]; simpl in Ha; try lia.
    simpl. f_equal. apply IH. lia.
Qed.

Lemma words_app a b : len a mod 4 = 0 → words (a ++ b) = words a ++ words b.
Proof.
  intros Ha. apply (words_app_lemma (length a / 4)).
  pose proof (Z.div_mod (len a) 4 ltac:(lia)).
  apply Nat2Z.inj. rewrite Nat2Z.inj_mul, Nat2Z.inj_div. simpl Z.of_nat. lia.
Qed.

Lemma length_words_lemma n : ∀ a, length a = (4 * n)%nat → length (words a) = n.
Proof.
  induction n as [|n IH]; intros a Ha.
  - by destruct a.
  - destruct a as [|x0 [|x1 [|x2 [|x3 a]]]]; simpl in Ha; try lia.
    simpl. f_equal. apply IH. lia.
Qed.

Lemma length_words a : len a mod 4 = 0 → len (words a) = len a / 4.
Proof.
  intros Ha. pose proof (Z.div_mod (len a) 4 ltac:(lia)).
  rewrite (length_words_lemma (Z.to_nat (len a / 4))); [|lia].
  assert (0 ≤ len a / 4) by (apply Z.div_pos; lia). lia.
Qed.

Lemma words_range a : Forall (λ w, 0 ≤ w < 2 ^ 32) (words a).
Proof.
  assert (∀ n a, (length a ≤ n)%nat → Forall (λ w, 0 ≤ w < 2 ^ 32) (words a)) as H.
  { clear a. induction n as [|n IH]; intros a Hn.
    - destruct a; [constructor|simpl in Hn; lia].
    - destruct a as [|x0 [|x1 [|x2 [|x3 a]]]]; try constructor.
      + apply (le_of_range [x0; x1; x2; x3]).
      + apply IH. simpl in Hn. lia. }
  by apply (H (length a)).
Qed.

(** ** The checksum loop *)

(** Past [skip] only the length matters. *)
Lemma checksum_loop_skip cs skip : ∀ n ws1 ws2 i lo hi,
  (length ws1 ≤ n)%nat → length ws1 = length ws2 → skip ≤ i →
  checksum_loop ws1 i cs skip lo hi = checksum_loop ws2 i cs skip lo hi.
Proof.
  induction n as [|n IH]; intros ws1 ws2 i lo hi Hn Hl Hi.
  - destruct ws1, ws2; simpl in *; try lia; done.
  - destruct ws1 as [|w1 [|v1 t1]], ws2 as [|w2 [|v2 t2]]; simpl in *; try lia; try done;
      rewrite (proj2 (Z.leb_le skip i)) by done; rewrite orb_true_r; try done.
    apply IH; lia.
Qed.

(** The two words of the checksum field do not matter. *)
Lemma checksum_loop_field cs skip : ∀ ws1 ws2 i lo hi,
  length ws1 = length ws2 →
  (∀ k, i + Z.of_nat k ≠ cs → i + Z.of_nat k ≠ cs + 1 → ws1 !! k = ws2 !! k) →
  i ≤ cs ∨ cs + 2 ≤ i →
  checksum_loop ws1 i cs skip lo hi = checksum_loop ws2 i cs skip lo hi.
Proof.
  induction ws1 as [|w1 t1 IH]; intros ws2 i lo hi Hl Hk Hi.
  { by destruct ws2. }
  destruct ws2 as [|w2 t2]; [done|]. simpl in Hl.
  destruct (decide (skip ≤ i)) as [Hs|Hs].
  { by apply (checksum_loop_skip cs skip (S (length t1))); [|simpl; lia|]. }
  simpl. rewrite (proj2 (Z.leb_gt skip i)) by lia. rewrite orb_false_r.
  destruct (Z.eqb_spec i cs) as [->|Hne].
  - destruct t1 as [|v1 t1], t2 as [|v2 t2]; simpl in Hl; try lia; [done|].
    replace t2 with t1; [done|].
    apply list_eq. intros k. specialize (Hk (S (S k))). simpl in Hk. apply Hk; lia.
  - assert (w1 = w2) as ->.
    { specialize (Hk O). simpl in Hk. apply Some_inj, Hk; lia. }
    apply IH; [lia| |lia].
    intros k H1 H2. specialize (Hk (S k)). simpl in Hk. apply Hk; lia.
Qed.

(** Without a skipped part, the loop is the sequential one on the buffer whose
    checksum field is zero. *)
Lemma checksum_loop_seq cs skip : ∀ ws i lo hi,
  i + len ws ≤ skip → 0 ≤ lo < 2 ^ 32 → 0 ≤ hi < 2 ^ 32 →
  (∀ k w, ws !! k = Some w → 0 ≤ w < 2 ^ 32) →
  (∀ k, i + Z.of_nat k = cs ∨ i + Z.of_nat k = cs + 1 → default 0 (ws !! k) = 0) →
  (i ≤ cs → cs + 1 < i + len ws ∨ i + len ws ≤ cs) →
  checksum_loop ws i cs skip lo hi = checksum_seq_loop ws lo hi.
Proof.
  induction ws as [ws IHw] using (induction_ltof1 _ (@length Z)); unfold ltof in IHw.
  intros i lo hi Hs Hlo Hhi Hw Hz Hc.
  destruct ws as [|w t]; [done|]. simpl length in *. simpl.
  rewrite (proj2 (Z.leb_gt skip i)) by lia. rewrite orb_false_r.
  destruct (Z.eqb_spec i cs) as [->|Hne].
  - destruct t as [|v t]; [simpl in Hc; lia|].
    pose proof (Hz O ltac:(lia)) as Hz0. pose proof (Hz 1%nat ltac:(lia)) as Hz1.
    simpl in Hz0, Hz1. subst w v. simpl.
    rewrite !Z.add_0_r, !(u32_id lo) by lia. simpl length in *.
    apply IHw; try lia.
    + apply u32_range.
    + intros k x Hx. apply (Hw (S (S k)) x Hx).
  - apply IHw; try lia; try apply u32_range.
    + intros k x Hx. apply (Hw (S k) x Hx).
    + intros k Hk. specialize (Hz (S k)). simpl in Hz. apply Hz. lia.
Qed.

Lemma checksum_seq_app a b lo hi :
  checksum_seq_loop (a ++ b) lo hi =
  checksum_seq_loop b (checksum_seq_loop a lo hi).1 (checksum_seq_loop a lo hi).2.
Proof. revert lo hi. induction a as [|w a IH]; intros lo hi; simpl; [done|apply IH]. Qed.

Lemma checksum_seq_range ws : ∀ lo hi, 0 ≤ lo < 2 ^ 32 → 0 ≤ hi < 2 ^ 32 →
  0 ≤ (checksum_seq_loop ws lo hi).1 < 2 ^ 32 ∧ 0 ≤ (checksum_seq_loop ws lo hi).2 < 2 ^ 32.
Proof.
  induction ws as [|w ws IH]; intros lo hi Hlo Hhi; simpl; [done|].
  apply IH; apply u32_range.
Qed.

(** The low half is the sum of the words. *)
Lemma checksum_seq_lo ws : ∀ lo hi, 0 ≤ lo < 2 ^ 32 →
  (checksum_seq_loop ws lo hi).1 = u32 (lo + foldr Z.add 0 ws).
Proof.
  induction ws as [|w ws IH]; intros lo hi Hlo; simpl.
  - rewrite Z.add_0_r. by rewrite u32_id.
  - rewrite IH by apply u32_range. unfold u32.
    rewrite Z.add_mod_idemp_l by lia. f_equal. lia.
Qed.

Lemma csum_of_split p : 0 ≤ p.1 < 2 ^ 32 → 0 ≤ p.2 < 2 ^ 32 →
  csum_of p = p.1 + p.2 * 2 ^ 32.
Proof.
  intros H1 H2. unfold csum_of. rewrite Z.lor_comm, Z.shiftl_mul_pow2 by lia.
  by apply lor_disjoint.
Qed.

Lemma csum_of_inj p q :
  0 ≤ p.1 < 2 ^ 32 → 0 ≤ p.2 < 2 ^ 32 → 0 ≤ q.1 < 2 ^ 32 → 0 ≤ q.2 < 2 ^ 32 →
  csum_of p = csum_of q → p = q.
Proof.
  intros. destruct p as [p1 p2], q as [q1 q2]; simpl in *.
  rewrite !csum_of_split in * by done. simpl in *. f_equal; lia.
Qed.

Lemma csum_of_halves p : 0 ≤ p.1 < 2 ^ 32 → 0 ≤ p.2 < 2 ^ 32 →
  u32 (csum_of p) = p.1 ∧ u32 (Z.shiftr (csum_of p) 32) = p.2.
Proof.
  intros H1 H2. rewrite csum_of_split by done. unfold u32.
  rewrite Z.shiftr_div_pow2 by lia.
  rewrite Z.mod_add, Z.div_add by lia. rewrite (Z.div_small p.1), !Z.mod_small by lia. done.
Qed.

Lemma words_lookup : ∀ k bs, (4 * k + 4 ≤ length bs)%nat →
  words bs !! k = Some (le_of (take 4 (drop (4 * k) bs))).
Proof.
  induction k as [|k IH]; intros bs Hl;
    destruct bs as [|x0 [|x1 [|x2 [|x3 bs]]]]; simpl in Hl; try lia; [done|].
  replace (4 * S k)%nat with (S (S (S (S (4 * k)))))%nat by lia. simpl drop. simpl words.
  apply IH. lia.
Qed.

Lemma words_lookup_ge k bs : (length bs < 4 * k + 4)%nat → words bs !! k = None.
Proof.
  revert bs. induction k as [|k IH]; intros bs Hl;
    destruct bs as [|x0 [|x1 [|x2 [|x3 bs]]]]; simpl in *; try done; [lia|].
  apply IH. lia.
Qed.

Lemma words_ext bs1 bs2 k :
  length bs1 = length bs2 →
  (∀ i, (4 * k ≤ i < 4 * k + 4)%nat → bs1 !! i = bs2 !! i) → words bs1 !! k = words bs2 !! k.
Proof.
  intros Hl Hi. destruct (decide (4 * k + 4 ≤ length bs1)%nat).
  - rewrite !words_lookup by lia. do 2 f_equal. apply list_eq. intros i.
    destruct (decide (i < 4)%nat).
    + rewrite !lookup_take_lt, !lookup_drop by done. apply Hi. lia.
    + rewrite !lookup_take_ge by lia. done.
  - by rewrite !words_lookup_ge by lia.
Qed.

Lemma words_splice_field bs csump new k :
  csump mod 4 = 0 → 0 ≤ csump → csump + 8 ≤ len bs → length new = 8%nat →
  Z.of_nat k ≠ csump / 4 → Z.of_nat k ≠ csump / 4 + 1 →
  words (splice bs csump new) !! k = words bs !! k.
Proof.
  intros Hm H0 Hl Hn H1 H2. pose proof (Z.div_mod csump 4 ltac:(lia)).
  apply words_ext; [apply length_splice; lia|].
  intros i Hi. apply lookup_splice_out; lia.
Qed.

Lemma len_splice bs off new :
  0 ≤ off → off + len new ≤ len bs → len (splice bs off new) = len bs.
Proof. intros. by rewrite length_splice. Qed.

(** The checksum does not depend on the bytes of its own field. *)
Lemma checksum_value_field bs csump skip_off new :
  len bs mod 4 = 0 → csump mod 4 = 0 → 0 ≤ csump → csump + 8 ≤ len bs → length new = 8%nat →
  checksum_value (splice bs csump new) csump skip_off = checksum_value bs csump skip_off.
Proof.
  intros Hm Hc H0 Hl Hn. unfold checksum_value. rewrite len_splice by lia. f_equal.
  apply checksum_loop_field.
  - apply Nat2Z.inj. rewrite !length_words; rewrite ?len_splice by lia; done.
  - intros k H1 H2. apply words_splice_field; try done; lia.
  - left. apply Z.div_pos; lia.
Qed.

Lemma length_le8 v : length (le_bytes 8 v) = 8%nat.
Proof. apply length_le_bytes. Qed.

Lemma slice_lookup (bs : list Z) off n i : (i < n)%nat → slice bs off n !! i = bs !! (Z.to_nat off + i)%nat.
Proof. intros. unfold slice. by rewrite lookup_take_lt, lookup_drop. Qed.

(** A buffer with a zeroed checksum field is summed by the plain loop. *)
Lemma checksum_value_seq bs csump :
  len bs mod 4 = 0 → csump mod 4 = 0 → 0 ≤ csump → csump + 8 ≤ len bs →
  checksum_value bs csump 0 =
  csum_of (checksum_seq_loop (words (splice bs csump (zeros 8))) 0 0).
Proof.
  intros Hm Hc H0 Hl. pose proof (Z.div_mod csump 4 ltac:(lia)).
  rewrite <- (checksum_value_field bs csump 0 (zeros 8)) by done.
  unfold checksum_value. simpl. set (bs' := splice bs csump (zeros 8)).
  assert (len bs' = len bs) as Hl' by (apply len_splice; simpl; lia).
  assert (len (words bs') = len bs / 4) as Hw by (rewrite length_words; by rewrite Hl').
  assert (4 * (len bs / 4) = len bs) as Hq by (pose proof (Z.div_mod (len bs) 4 ltac:(lia)); lia).
  f_equal. rewrite Hl'. apply checksum_loop_seq; try (rewrite Hw; lia); try lia.
  - intros k w Hk. pose proof (words_range bs') as Hr. rewrite Forall_lookup in Hr. eauto.
  - intros k Hk. destruct (words bs' !! k) as [w|] eqn:E; [|done]. simpl.
    assert (4 * k + 4 ≤ length bs')%nat.
    { apply lookup_lt_Some in E. lia. }
    rewrite words_lookup in E by done.
    enough (take 4 (drop (4 * k) bs') = [0; 0; 0; 0]) as Hz.
    { rewrite Hz in E. injection E as <-. reflexivity. }
    apply list_eq. intros i. destruct (decide (i < 4)%nat) as [Hi|Hi].
    + rewrite lookup_take_lt, lookup_drop by done. unfold bs'.
      rewrite lookup_splice_in by (simpl; lia). change (zeros 8) with (replicate 8 0).
      rewrite lookup_replicate_2 by lia.
      do 4 (destruct i as [|i]; [done|]). lia.
    + rewrite lookup_take_ge by lia. do 4 (destruct i as [|i]; [lia|]). done.
Qed.

(** ** Bit arrays *)

Lemma testbit_isset b i : 0 ≤ i →
  util_isset b i = Z.testbit (default 0 (lookupZ b (i / 8))) (i mod 8).
Proof.
  intros Hi. unfold util_isset. set (x := default 0 _).
  pose proof (Z.mod_pos_bound i 8 ltac:(lia)).
  destruct (Z.testbit x (i mod 8)) eqn:E.
  - apply negb_true_iff, Z.eqb_neq. intros Hz.
    apply (f_equal (λ z, Z.testbit z (i mod 8))) in Hz.
    rewrite Z.land_spec, E, Z.shiftl_spec, Z.sub_diag, Z.bits_0 in Hz by lia. done.
  - apply negb_false_iff, Z.eqb_eq. apply Z.bits_inj'. intros n Hn.
    rewrite Z.land_spec, Z.bits_0, Z.shiftl_spec by lia.
    destruct (decide (n = i mod 8)) as [->|Hne]; [by rewrite E|].
    rewrite andb_false_iff. right. destruct (decide (n < i mod 8)).
    + apply Z.testbit_neg_r; lia.
    + change 1 with (2 ^ 0). apply Z.pow2_bits_false. lia.
Qed.

Lemma u8_testbit x n : 0 ≤ n < 8 → Z.testbit (u8 x) n = Z.testbit x n.
Proof. intros. unfold u8. apply Z.mod_pow2_bits_low. lia. Qed.

Lemma shiftl1_testbit k n : 0 ≤ k → 0 ≤ n → Z.testbit (Z.shiftl 1 k) n = bool_decide (n = k).
Proof.
  intros. rewrite Z.shiftl_spec by lia. case_bool_decide as E.
  - subst. by rewrite Z.sub_diag.
  - destruct (decide (n < k)); [apply Z.testbit_neg_r; lia|].
    change 1 with (2 ^ 0). apply Z.pow2_bits_false. lia.
Qed.

Lemma isset_setbit b i j :
  0 ≤ i < 8 * len b → 0 ≤ j →
  util_isset (util_setbit b i) j = bool_decide (i = j) || util_isset b j.
Proof.
  intros Hi Hj. rewrite !testbit_isset by lia. unfold util_setbit.
  assert (0 ≤ i / 8 < len b) as Hib.
  { split; [apply Z.div_pos; lia|apply Z.div_lt_upper_bound; lia]. }
  pose proof (Z.mod_pos_bound i 8 ltac:(lia)). pose proof (Z.mod_pos_bound j 8 ltac:(lia)).
  pose proof (Z.div_mod i 8 ltac:(lia)). pose proof (Z.div_mod j 8 ltac:(lia)).
  destruct (decide (i / 8 = j / 8)) as [Heq|Hne].
  - rewrite <- Heq, lookupZ_updZ_eq by done. simpl default.
    rewrite u8_testbit, Z.lor_spec, u8_testbit, shiftl1_testbit by lia.
    rewrite orb_comm. f_equal. apply bool_decide_ext. lia.
  - rewrite lookupZ_updZ_ne by done. rewrite bool_decide_false; [done|]. intros ->. done.
Qed.

Lemma length_setbit b i : length (util_setbit b i) = length b.
Proof. apply length_updZ. Qed.

(** ** Properties *)

Lemma mod4_eqb n : n mod 4 = 0 → negb (n mod 4 =? 0) = false.
Proof. intros ->. done. Qed.

Lemma checksum_insert_ok bs csump skip_off :
  len bs mod 4 = 0 →
  util_checksum bs csump true skip_off =
  Ok (true, splice bs csump (le_bytes 8 (checksum_value bs csump skip_off))).
Proof. intros H. unfold util_checksum. by rewrite mod4_eqb. Qed.

Lemma checksum_loop_range cs skip : ∀ n ws i lo hi, (length ws ≤ n)%nat →
  0 ≤ lo < 2 ^ 32 → 0 ≤ hi < 2 ^ 32 →
  0 ≤ (checksum_loop ws i cs skip lo hi).1 < 2 ^ 32 ∧
  0 ≤ (checksum_loop ws i cs skip lo hi).2 < 2 ^ 32.
Proof.
  induction n as [|n IH]; intros ws i lo hi Hn Hlo Hhi.
  - destruct ws; [done|simpl in Hn; lia].
  - destruct ws as [|w t]; [done|]. simpl in *. case_match.
    + destruct t as [|v t]; simpl in *; [split; [done|apply u32_range]|].
      apply IH; [lia|done|apply u32_range].
    + apply IH; [lia|apply u32_range..].
Qed.

Lemma checksum_value_range bs csump skip_off : 0 ≤ checksum_value bs csump skip_off < 2 ^ 64.
Proof.
  unfold checksum_value. set (sk := if skip_off =? 0 then _ else _). clearbody sk.
  destruct (checksum_loop_range (csump / 4) sk (length (words bs)) (words bs) 0 0 0) as [H1 H2];
    [done|lia..|]. rewrite csum_of_split by done. lia.
Qed.

Lemma checksum_splice_ok bs csump skip_off :
  len bs mod 4 = 0 → csump mod 4 = 0 → 0 ≤ csump → csump + 8 ≤ len bs →
  let bs' := splice bs csump (le_bytes 8 (checksum_value bs csump skip_off)) in
  util_checksum bs' csump false skip_off = Ok (true, bs').
Proof.
  intros Hm Hc H0 Hl. set (v := checksum_value bs csump skip_off). simpl.
  pose proof (length_le8 v) as Hl8.
  unfold util_checksum. rewrite mod4_eqb by (rewrite len_splice by lia; done).
  rewrite checksum_value_field by done. fold v. do 2 f_equal.
  pose proof (slice_splice bs csump (le_bytes 8 v)) as Hs. rewrite Hl8 in Hs.
  rewrite Hs by lia. rewrite le_of_le_bytes.
  rewrite Z.mod_small by (apply (checksum_value_range bs csump skip_off)).
  apply Z.eqb_refl.
Qed.

(** a checksum inserted by [util_checksum] is accepted by [util_checksum], for
    every buffer, field and skipped part. *)
Theorem util_checksum_insert_verify bs csump skip_off :
  len bs mod 4 = 0 → csump mod 4 = 0 → 0 ≤ csump → csump + 8 ≤ len bs →
  ∃ bs', util_checksum bs csump true skip_off = Ok (true, bs') ∧
    length bs' = length bs ∧
    (∀ i, ¬ (csump ≤ Z.of_nat i < csump + 8) → bs' !! i = bs !! i) ∧
    util_checksum bs' csump false skip_off = Ok (true, bs').
Proof.
  intros Hm Hc H0 Hl. set (v := checksum_value bs csump skip_off).
  exists (splice bs csump (le_bytes 8 v)). pose proof (length_le8 v) as Hl8.
  split; [by rewrite checksum_insert_ok|]. split; [apply length_splice; lia|]. split.
  { intros i Hi. apply lookup_splice_out; lia. }
  by apply checksum_splice_ok.
Qed.

Lemma util_checksum_insert_verify_witness :
  ∃ bs', util_checksum [1;2;3;4;5;6;7;8;0;0;0;0;0;0;0;0;9;9;9;9] 8 true 0 = Ok (true, bs') ∧
    util_checksum bs' 8 false 0 = Ok (true, bs').
Proof.
  destruct (util_checksum_insert_verify [1;2;3;4;5;6;7;8;0;0;0;0;0;0;0;0;9;9;9;9] 8 0)
    as (bs' & H1 & _ & _ & H2); [reflexivity|reflexivity|lia|simpl; lia|].
  exists bs'. auto.
Defined.

Lemma sum_insert_ne (ws1 ws2 : list Z) k w1 w2 :
  length ws1 = length ws2 → ws1 !! k = Some w1 → ws2 !! k = Some w2 →
  (∀ i, i ≠ k → ws1 !! i = ws2 !! i) →
  foldr Z.add 0 ws1 - foldr Z.add 0 ws2 = w1 - w2.
Proof.
  revert ws2 k. induction ws1 as [|x ws1 IH]; intros [|y ws2] k Hl H1 H2 Hi; simpl in *; try done.
  destruct k as [|k].
  - simplify_eq/=. replace ws2 with ws1; [lia|].
    apply list_eq. intros i. apply (Hi (S i)). lia.
  - assert (x = y) as -> by (apply Some_inj, (Hi O); lia).
    pose proof (IH ws2 k ltac:(lia) H1 H2) as IH'.
    assert (∀ i, i ≠ k → ws1 !! i = ws2 !! i) as Hi' by (intros i ?; apply (Hi (S i)); lia).
    specialize (IH' Hi'). lia.
Qed.

(** the checksum detects every corruption confined to one aligned 32-bit
    word outside the checksum field. *)
Theorem util_checksum_detects bs1 bs2 csump k w1 w2 :
  len bs1 mod 4 = 0 → length bs1 = length bs2 →
  csump mod 4 = 0 → 0 ≤ csump → csump + 8 ≤ len bs1 →
  slice bs1 csump 8 = slice bs2 csump 8 →
  words bs1 !! k = Some w1 → words bs2 !! k = Some w2 → w1 ≠ w2 →
  Z.of_nat k ≠ csump / 4 → Z.of_nat k ≠ csump / 4 + 1 →
  (∀ i, i ≠ k → words bs1 !! i = words bs2 !! i) →
  util_checksum bs1 csump false 0 = Ok (true, bs1) →
  util_checksum bs2 csump false 0 = Ok (false, bs2).
Proof.
  intros Hm Hl Hc H0 Hle Hs H1 H2 Hw Hk1 Hk2 Hi Hok.
  unfold util_checksum in *. rewrite mod4_eqb in Hok by done.
  rewrite mod4_eqb by (by rewrite <- Hl). do 2 f_equal. injection Hok as Hok.
  apply Z.eqb_eq in Hok. apply Z.eqb_neq. rewrite <- Hs, Hok. intros He.
  rewrite !checksum_value_seq in He by (rewrite <- ?Hl; done).
  set (z1 := words (splice bs1 csump (zeros 8))) in He.
  set (z2 := words (splice bs2 csump (zeros 8))) in He.
  assert (z1 !! k = Some w1) as Hz1 by (unfold z1; rewrite words_splice_field; done).
  assert (z2 !! k = Some w2) as Hz2.
  { unfold z2. rewrite words_splice_field; [done..|lia|done|done|done]. }
  assert (length z1 = length z2) as Hzl.
  { apply Nat2Z.inj. unfold z1, z2.
    rewrite !length_words; rewrite !len_splice by (simpl; lia); rewrite <- ?Hl; done. }
  assert (∀ i, i ≠ k → z1 !! i = z2 !! i) as Hzi.
  { intros i Hik. destruct (decide (Z.of_nat i = csump / 4 ∨ Z.of_nat i = csump / 4 + 1)) as [Hf|Hf].
    - apply words_ext; [rewrite !length_splice by (simpl; lia); done|].
      intros j Hj. pose proof (Z.div_mod csump 4 ltac:(lia)).
      by rewrite !lookup_splice_in by (simpl; lia).
    - unfold z1, z2. rewrite !words_splice_field by (try done; lia). by apply Hi. }
  apply csum_of_inj in He; try (apply checksum_seq_range; lia).
  apply (f_equal fst) in He. rewrite !checksum_seq_lo in He by lia.
  pose proof (sum_insert_ne z1 z2 k w1 w2 Hzl Hz1 Hz2 Hzi) as Hsum.
  pose proof (words_range bs1) as Hr1. pose proof (words_range bs2) as Hr2.
  rewrite Forall_lookup in Hr1, Hr2. specialize (Hr1 k w1 H1). specialize (Hr2 k w2 H2).
  unfold u32 in He. rewrite !Z.add_0_l in He.
  assert ((foldr Z.add 0 z1 - foldr Z.add 0 z2) mod 2 ^ 32 = 0) as Hd.
  { rewrite Zminus_mod, He, Z.sub_diag. done. }
  rewrite Hsum in Hd. apply Z.mod_divide in Hd as [q Hq]; [|lia]. nia.
Qed.

Lemma util_checksum_detects_witness :
  util_checksum [1;2;3;4;5;6;7;8;0;0;0;0;0;0;0;0] 8 true 0
    = Ok (true, [1;2;3;4;5;6;7;8;6;8;10;12;19;26;33;40]) ∧
  util_checksum [1;2;3;4;5;6;7;9;6;8;10;12;19;26;33;40] 8 false 0
    = Ok (false, [1;2;3;4;5;6;7;9;6;8;10;12;19;26;33;40]).
Proof.
  split; [vm_compute; reflexivity|].
  apply (util_checksum_detects [1;2;3;4;5;6;7;8;6;8;10;12;19;26;33;40] _ 8 1
           (le_of [5;6;7;8]) (le_of [5;6;7;9])); try reflexivity; try discriminate; try lia.
  intros [|[|[|[|i]]]] Hi; try reflexivity. done.
Defined.

(** the sequential checksum of two pieces is the checksum of their
    concatenation, and the checksum [util_checksum] verifies is the sequential
    one of the buffer with a zeroed checksum field.  ([ulog_entry_buf_create]
    computes the one, recovery checks the other.) *)
Theorem util_checksum_seq_pieces a b csump :
  len a mod 4 = 0 → len b mod 4 = 0 →
  csump mod 4 = 0 → 0 ≤ csump → csump + 8 ≤ len a → slice a csump 8 = zeros 8 →
  ∃ c, util_checksum_seq a 0 = Ok c ∧
    util_checksum_seq b c = Ok (checksum_value (a ++ b) csump 0).
Proof.
  intros Ha Hb Hc H0 Hl Hz. unfold util_checksum_seq. rewrite !mod4_eqb by done.
  eexists. split; [reflexivity|]. f_equal.
  change (u32 0) with 0. change (u32 (Z.shiftr 0 32)) with 0.
  assert (len (a ++ b) mod 4 = 0) as Hab.
  { rewrite length_app, Nat2Z.inj_add, Z.add_mod, Ha, Hb by lia. done. }
  rewrite checksum_value_seq by (try done; rewrite length_app; lia).
  replace (splice (a ++ b) csump (zeros 8)) with (a ++ b).
  2: { rewrite <- Hz. apply list_eq. intros i.
       assert (length (slice a csump 8) = 8%nat) as Hs by (rewrite Hz; done).
       destruct (decide (csump ≤ Z.of_nat i < csump + 8)) as [Hi|Hi].
       - rewrite lookup_splice_in by (rewrite ?length_app; lia).
         rewrite slice_lookup by lia. rewrite lookup_app_l by lia. f_equal. lia.
       - rewrite lookup_splice_out by (rewrite ?length_app; lia). done. }
  rewrite words_app, checksum_seq_app by done.
  destruct (checksum_seq_range (words a) 0 0) as [H1 H2]; [lia..|].
  destruct (csum_of_halves (checksum_seq_loop (words a) 0 0) H1 H2) as [-> ->]. done.
Qed.

Lemma util_checksum_seq_pieces_witness :
  ∃ c, util_checksum_seq [1;2;3;4;0;0;0;0;0;0;0;0] 0 = Ok c ∧
    util_checksum_seq [9;0;0;0] c =
    Ok (checksum_value [1;2;3;4;0;0;0;0;0;0;0;0;9;0;0;0] 4 0).
Proof.
  apply (util_checksum_seq_pieces [1;2;3;4;0;0;0;0;0;0;0;0] [9;0;0;0] 4);
    try reflexivity; simpl; lia.
Defined.

(** [util_is_zeroed] decides whether every byte of the range is zero. *)
Theorem util_is_zeroed_spec a : util_is_zeroed a = true ↔ Forall (λ b, b = 0) a.
Proof.
  destruct a as [|b t]; simpl; [split; [constructor|done]|].
  rewrite andb_true_iff, Z.eqb_eq, bool_decide_eq_true, Forall_cons_iff. split.
  - intros [-> Heq]. split; [done|].
    assert (∀ z, take (length t) (z :: t) = t → Forall (λ b, b = z) t) as Hgen.
    { clear. induction t as [|x t IH]; intros z Heq; [constructor|].
      simpl in Heq. injection Heq as <- Heq. constructor; [done|by apply IH]. }
    by apply Hgen.
  - intros [-> Hf]. split; [done|].
    induction Hf as [|x t -> Hf IH]; [done|]. simpl length. by rewrite firstn_cons, IH.
Qed.

(** [util_setbit] and [util_clrbit] change the bit they name and no other. *)
Theorem util_bits_spec b i j : 0 ≤ i < 8 * len b → 0 ≤ j →
  util_isset (util_setbit b i) j = bool_decide (i = j) || util_isset b j ∧
  util_isset (util_clrbit b i) j = negb (bool_decide (i = j)) && util_isset b j.
Proof.
  intros Hi Hj. split; [by apply isset_setbit|].
  rewrite !testbit_isset by lia. unfold util_clrbit.
  assert (0 ≤ i / 8 < len b) as Hib.
  { split; [apply Z.div_pos; lia|apply Z.div_lt_upper_bound; lia]. }
  pose proof (Z.mod_pos_bound i 8 ltac:(lia)). pose proof (Z.mod_pos_bound j 8 ltac:(lia)).
  pose proof (Z.div_mod i 8 ltac:(lia)). pose proof (Z.div_mod j 8 ltac:(lia)).
  destruct (decide (i / 8 = j / 8)) as [Heq|Hne].
  - rewrite <- Heq, lookupZ_updZ_eq by done. simpl default.
    rewrite u8_testbit, Z.land_spec, u8_testbit, Z.lnot_spec, shiftl1_testbit by lia.
    rewrite andb_comm. f_equal. f_equal. apply bool_decide_ext. lia.
  - rewrite lookupZ_updZ_ne by done. rewrite bool_decide_false; [done|]. intros ->. done.
Qed.

Lemma util_bits_spec_witness :
  util_isset (util_setbit [0; 0] 9) 9 = true ∧ util_isset (util_clrbit [255; 255] 9) 8 = true.
Proof.
  split; [apply (proj1 (util_bits_spec [0; 0] 9 9 ltac:(simpl; lia) ltac:(lia)))|].
  apply (proj2 (util_bits_spec [255; 255] 9 8 ltac:(simpl; lia) ltac:(lia))).
Defined.
