(* ===== verification/BttLayout.v ===== *)
(** * Block translation table: on-media layout

    Models [libpmemblk/btt_layout.h] and the layout arithmetic of
    [libpmemblk/btt.c]: the info block, flog and map entries as structures and as
    bytes, the sizes and offsets of the regions of an arena.  On a little-endian
    host [le32toh] and its relatives are the identity, so the conversion
    functions of the source are the decoding and encoding functions here. *)

From stdpp Require Import base gmap list numbers.
From S2P Require Import Prelude Memory Util.
Local Open Scope Z_scope.

(** ** Constants *)

Definition BTT_ALIGNMENT : Z := 4096.
Definition BTTINFO_UUID_LEN : Z := 16.
Definition BTTINFO_UNUSED_LEN : Z := 3968.
Definition BTTINFO_FLAG_ERROR : Z := 1.
Definition BTTINFO_FLAG_ERROR_MASK : Z := 1.
Definition BTTINFO_MAJOR_VERSION : Z := 1.
Definition BTTINFO_MINOR_VERSION : Z := 1.
Definition BTT_FLOG_PAIR_ALIGN : Z := 64.
Definition BTT_MAP_ENTRY_SIZE : Z := 4.
Definition BTT_MAP_ENTRY_ERROR : Z := 0x40000000.
Definition BTT_MAP_ENTRY_ZERO : Z := 0x80000000.
Definition BTT_MAP_ENTRY_NORMAL : Z := 0xC0000000.
Definition BTT_MAP_ENTRY_LBA_MASK : Z := 0x3fffffff.
Definition BTT_MAP_LOCK_ALIGN : Z := 64.
Definition BTT_MIN_SIZE : Z := 2 ^ 20 * 16.
Definition BTT_MAX_ARENA : Z := 2 ^ 39.
Definition BTT_MIN_LBA_SIZE : Z := 512.
Definition BTT_INTERNAL_LBA_ALIGNMENT : Z := 256.
Definition BTT_DEFAULT_NFREE : Z := 256.

Definition sizeof_btt_info : Z := 4096.
Definition sizeof_btt_flog : Z := 16.

(** ["BTT_ARENA_INFO\0"] and the terminating NUL. *)
Definition Sig : list Z := [66;84;84;95;65;82;69;78;65;95;73;78;70;79;0;0].

(** ** The info block *)

Record btt_info : Type := BttInfo {
  bi_sig : list Z;
  bi_uuid : list Z;
  bi_parent_uuid : list Z;
  bi_flags : Z;
  bi_major : Z;
  bi_minor : Z;
  bi_external_lbasize : Z;
  bi_external_nlba : Z;
  bi_internal_lbasize : Z;
  bi_internal_nlba : Z;
  bi_nfree : Z;
  bi_infosize : Z;
  bi_nextoff : Z;
  bi_dataoff : Z;
  bi_mapoff : Z;
  bi_flogoff : Z;
  bi_infooff : Z;
  bi_unused : list Z;
  bi_checksum : Z
}.

Definition le_field (bs : list Z) (off : Z) (n : nat) : Z := le_of (slice bs off n).

Definition btt_info_convert2h (bs : list Z) : btt_info := {|
  bi_sig := slice bs 0 16;
  bi_uuid := slice bs 16 16;
  bi_parent_uuid := slice bs 32 16;
  bi_flags := le_field bs 48 4;
  bi_major := le_field bs 52 2;
  bi_minor := le_field bs 54 2;
  bi_external_lbasize := le_field bs 56 4;
  bi_external_nlba := le_field bs 60 4;
  bi_internal_lbasize := le_field bs 64 4;
  bi_internal_nlba := le_field bs 68 4;
  bi_nfree := le_field bs 72 4;
  bi_infosize := le_field bs 76 4;
  bi_nextoff := le_field bs 80 8;
  bi_dataoff := le_field bs 88 8;
  bi_mapoff := le_field bs 96 8;
  bi_flogoff := le_field bs 104 8;
  bi_infooff := le_field bs 112 8;
  bi_unused := slice bs 120 3968;
  bi_checksum := le_field bs 4088 8
|}.

Definition btt_info_convert2le (i : btt_info) : list Z :=
  bi_sig i ++ bi_uuid i ++ bi_parent_uuid i ++
  le_bytes 4 (bi_flags i) ++ le_bytes 2 (bi_major i) ++ le_bytes 2 (bi_minor i) ++
  le_bytes 4 (bi_external_lbasize i) ++ le_bytes 4 (bi_external_nlba i) ++
  le_bytes 4 (bi_internal_lbasize i) ++ le_bytes 4 (bi_internal_nlba i) ++
  le_bytes 4 (bi_nfree i) ++ le_bytes 4 (bi_infosize i) ++
  le_bytes 8 (bi_nextoff i) ++ le_bytes 8 (bi_dataoff i) ++ le_bytes 8 (bi_mapoff i) ++
  le_bytes 8 (bi_flogoff i) ++ le_bytes 8 (bi_infooff i) ++
  bi_unused i ++ le_bytes 8 (bi_checksum i).

(** [memset(&info, 0, sizeof(info))] *)
Definition zero_info : btt_info := {|
  bi_sig := zeros 16; bi_uuid := zeros 16; bi_parent_uuid := zeros 16;
  bi_flags := 0; bi_major := 0; bi_minor := 0;
  bi_external_lbasize := 0; bi_external_nlba := 0;
  bi_internal_lbasize := 0; bi_internal_nlba := 0;
  bi_nfree := 0; bi_infosize := 0;
  bi_nextoff := 0; bi_dataoff := 0; bi_mapoff := 0; bi_flogoff := 0; bi_infooff := 0;
  bi_unused := zeros BTTINFO_UNUSED_LEN; bi_checksum := 0
|}.

(** [read_info]: signature, parent UUID, checksum and major version, in this order. *)
Definition read_info (parent_uuid : list Z) (bs : list Z) : option btt_info :=
  let info := btt_info_convert2h bs in
  if negb (bool_decide (bi_sig info = Sig)) then None
  else if negb (bool_decide (bi_parent_uuid info = parent_uuid)) then None
  else match util_checksum bs 4088 false 0 with
       | Ok (true, _) => if bi_major info =? 0 then None else Some info
       | _ => None
       end.

(** ** The flog *)

Record btt_flog : Type := BttFlog {
  fl_lba : Z;
  fl_old_map : Z;
  fl_new_map : Z;
  fl_seq : Z
}.

#[global] Instance btt_flog_eq_dec : EqDecision btt_flog.
Proof. solve_decision. Defined.

Definition btt_flog_convert2h (bs : list Z) : btt_flog :=
  BttFlog (le_field bs 0 4) (le_field bs 4 4) (le_field bs 8 4) (le_field bs 12 4).

Definition btt_flog_convert2le (f : btt_flog) : list Z :=
  le_bytes 4 (fl_lba f) ++ le_bytes 4 (fl_old_map f) ++
  le_bytes 4 (fl_new_map f) ++ le_bytes 4 (fl_seq f).

Definition Zflog : btt_flog := BttFlog 0 0 0 0.

(** [Nseq[] = { 0, 2, 3, 1 }] *)
Definition NSEQ (s : Z) : Z :=
  match s &&& 3 with
  | 1 => 2
  | 2 => 3
  | 3 => 1
  | _ => 0
  end.

(** [btt_flog_get_valid]: the current entry of a pair and the index of the other one. *)
Definition btt_flog_get_valid (f0 f1 : btt_flog) : option (btt_flog * Z) :=
  if fl_seq f0 =? fl_seq f1 then None
  else if fl_seq f0 =? 0 then Some (f1, 0)
  else if fl_seq f1 =? 0 then Some (f0, 1)
  else if NSEQ (fl_seq f0) =? fl_seq f1 then Some (f1, 0)
  else Some (f0, 1).

(** ** Map entries *)

Definition map_entry_flags (map_entry : Z) : Z :=
  map_entry &&& u32 (Z.lnot BTT_MAP_ENTRY_LBA_MASK).

Definition map_entry_is_zero (map_entry : Z) : bool :=
  map_entry_flags map_entry =? BTT_MAP_ENTRY_ZERO.
Definition map_entry_is_error (map_entry : Z) : bool :=
  map_entry_flags map_entry =? BTT_MAP_ENTRY_ERROR.
Definition map_entry_is_initial (map_entry : Z) : bool :=
  map_entry_flags map_entry =? 0.
Definition map_entry_is_zero_or_initial (map_entry : Z) : bool :=
  let entry_flags := map_entry_flags map_entry in
  (entry_flags =? 0) || (entry_flags =? BTT_MAP_ENTRY_ZERO).

(** [get_map_lock_num]: the cache line of the map entry, modulo the number of locks. *)
Definition get_map_lock_num (premap_lba nfree : Z) : Z :=
  u32 (u32 (premap_lba * BTT_MAP_ENTRY_SIZE) / BTT_MAP_LOCK_ALIGN) mod nfree.

(** ** Sizes and offsets *)

(** [internal_lbasize]: 0 is the error of a size that overflows when rounded up. *)
Definition internal_lbasize (external_lbasize : Z) : Z :=
  let l := if external_lbasize <? BTT_MIN_LBA_SIZE then BTT_MIN_LBA_SIZE
           else external_lbasize in
  let l := u32 (l + 255) / 256 * 256 in
  if l <? BTT_INTERNAL_LBA_ALIGNMENT then 0 else l.

Definition btt_flog_size (nfree : Z) : Z :=
  let flog_size := u64 (nfree * roundup (2 * sizeof_btt_flog) BTT_FLOG_PAIR_ALIGN) in
  u64 (roundup flog_size BTT_ALIGNMENT).

(** The product is a 32-bit one. *)
Definition btt_map_size (external_nlba : Z) : Z :=
  u64 (roundup (u32 (external_nlba * BTT_MAP_ENTRY_SIZE)) BTT_ALIGNMENT).

Definition btt_arena_datasize (arena_size nfree : Z) : Z :=
  u64 (u64 (arena_size - 2 * sizeof_btt_info) - btt_flog_size nfree).

(** [None] is the return value -1 with [errno = EINVAL]. *)
Definition btt_info_set_params (info : btt_info)
    (external_lbasize internal_lbasize nfree arena_size : Z) : option btt_info :=
  let arena_data_size := btt_arena_datasize arena_size nfree in
  let internal_nlba :=
    u64 (arena_data_size - BTT_ALIGNMENT) / u32 (internal_lbasize + BTT_MAP_ENTRY_SIZE) in
  if internal_nlba <? u32 (2 * nfree) then None
  else
    let internal_nlba_u32 := u32 internal_nlba in
    Some {|
      bi_sig := bi_sig info; bi_uuid := bi_uuid info; bi_parent_uuid := bi_parent_uuid info;
      bi_flags := bi_flags info; bi_major := bi_major info; bi_minor := bi_minor info;
      bi_external_lbasize := external_lbasize;
      bi_external_nlba := u32 (internal_nlba_u32 - nfree);
      bi_internal_lbasize := internal_lbasize;
      bi_internal_nlba := internal_nlba_u32;
      bi_nfree := nfree; bi_infosize := sizeof_btt_info;
      bi_nextoff := bi_nextoff info; bi_dataoff := bi_dataoff info;
      bi_mapoff := bi_mapoff info; bi_flogoff := bi_flogoff info;
      bi_infooff := bi_infooff info;
      bi_unused := bi_unused info; bi_checksum := bi_checksum info |}.

Definition btt_info_set_offs (info : btt_info) (arena_size space_left : Z) : btt_info :=
  let infooff := u64 (arena_size - sizeof_btt_info) in
  let flogoff := u64 (infooff - btt_flog_size (bi_nfree info)) in
  let mapoff := u64 (flogoff - btt_map_size (bi_external_nlba info)) in
  {| bi_sig := bi_sig info; bi_uuid := bi_uuid info; bi_parent_uuid := bi_parent_uuid info;
     bi_flags := bi_flags info; bi_major := bi_major info; bi_minor := bi_minor info;
     bi_external_lbasize := bi_external_lbasize info;
     bi_external_nlba := bi_external_nlba info;
     bi_internal_lbasize := bi_internal_lbasize info;
     bi_internal_nlba := bi_internal_nlba info;
     bi_nfree := bi_nfree info; bi_infosize := bi_infosize info;
     bi_nextoff := if BTT_MIN_SIZE <=? space_left then arena_size else 0;
     bi_dataoff := bi_infosize info;
     bi_mapoff := mapoff; bi_flogoff := flogoff; bi_infooff := infooff;
     bi_unused := bi_unused info; bi_checksum := bi_checksum info |}.

Definition btt_info_set (info : btt_info)
    (external_lbasize nfree arena_size space_left : Z) : option btt_info :=
  let internal_lba_size := internal_lbasize external_lbasize in
  if internal_lba_size =? 0 then None
  else match btt_info_set_params info external_lbasize internal_lba_size nfree arena_size with
       | None => None
       | Some info => Some (btt_info_set_offs info arena_size space_left)
       end.

(** ** Map entries as numbers: two flag bits above a 30-bit block number *)

Lemma mask_flags : u32 (Z.lnot BTT_MAP_ENTRY_LBA_MASK) = 3 * 2 ^ 30.
Proof. reflexivity. Qed.

Lemma map_entry_flags_eq e : 0 ≤ e < 2 ^ 32 → map_entry_flags e = e / 2 ^ 30 * 2 ^ 30.
Proof.
  intros He. unfold map_entry_flags. rewrite mask_flags.
  rewrite <- (Z.shiftl_mul_pow2 3), <- (Z.shiftl_mul_pow2 (e / _)), <- Z.shiftr_div_pow2 by lia.
  apply Z.bits_inj'. intros n Hn. rewrite Z.land_spec.
  destruct (decide (n < 30)); [rewrite !Z.shiftl_spec_low by lia; apply andb_false_r|].
  rewrite !Z.shiftl_spec, Z.shiftr_spec by lia. replace (n - 30 + 30) with n by lia.
  destruct (decide (n < 32)).
  - assert (n = 30 ∨ n = 31) as [->| ->] by lia; simpl; apply andb_true_r.
  - rewrite (Z.testbit_eqb e) by lia. rewrite Z.div_small; [done|].
    split; [lia|]. apply Z.lt_le_trans with (2 ^ 32); [lia|]. apply Z.pow_le_mono_r; lia.
Qed.

Lemma map_entry_lba_eq e : e &&& BTT_MAP_ENTRY_LBA_MASK = e mod 2 ^ 30.
Proof. change BTT_MAP_ENTRY_LBA_MASK with (Z.ones 30). apply land_ones_mod. lia. Qed.

Lemma lor_normal a : 0 ≤ a < 2 ^ 30 → a ||| BTT_MAP_ENTRY_NORMAL = a + 3 * 2 ^ 30.
Proof. intros. change BTT_MAP_ENTRY_NORMAL with (3 * 2 ^ 30). by apply lor_disjoint. Qed.

Lemma lor_zero a : 0 ≤ a < 2 ^ 30 → a ||| BTT_MAP_ENTRY_ZERO = a + 2 * 2 ^ 30.
Proof. intros. change BTT_MAP_ENTRY_ZERO with (2 * 2 ^ 30). by apply lor_disjoint. Qed.

Lemma lor_error a : 0 ≤ a < 2 ^ 30 → a ||| BTT_MAP_ENTRY_ERROR = a + 1 * 2 ^ 30.
Proof. intros. change BTT_MAP_ENTRY_ERROR with (1 * 2 ^ 30). by apply lor_disjoint. Qed.

(** The flags of an entry built from a block number and two flag bits. *)
Lemma entry_flags a k : 0 ≤ a < 2 ^ 30 → 0 ≤ k < 4 →
  map_entry_flags (a + k * 2 ^ 30) = k * 2 ^ 30.
Proof.
  intros Ha Hk. rewrite map_entry_flags_eq by lia.
  rewrite Z.div_add, Z.div_small by lia. lia.
Qed.

Lemma entry_lba a k : 0 ≤ a < 2 ^ 30 → (a + k * 2 ^ 30) &&& BTT_MAP_ENTRY_LBA_MASK = a.
Proof. intros. rewrite map_entry_lba_eq, Z.mod_add by lia. by apply Z.mod_small. Qed.

(** ** Arithmetic of the layout *)

Lemma internal_lbasize_range l : 0 ≤ l < 2 ^ 32 → internal_lbasize l ≠ 0 →
  512 ≤ internal_lbasize l ≤ 2 ^ 32 - 256 ∧ l ≤ internal_lbasize l ∧
  (256 | internal_lbasize l).
Proof.
  intros Hl. unfold internal_lbasize, BTT_MIN_LBA_SIZE, BTT_INTERNAL_LBA_ALIGNMENT.
  set (x := if l <? 512 then 512 else l).
  assert (l ≤ x ∧ 512 ≤ x < 2 ^ 32) as (H1 & H2).
  { unfold x. destruct (Z.ltb_spec l 512); lia. }
  destruct (Z.ltb_spec (u32 (x + 255) / 256 * 256) 256) as [|Hge]; [done|]. intros _.
  assert (x + 255 < 2 ^ 32) as Hs.
  { destruct (decide (x + 255 < 2 ^ 32)) as [|Hn]; [done|]. exfalso.
    assert (u32 (x + 255) = x + 255 - 2 ^ 32) as Hw.
    { unfold u32. symmetry. apply Z.mod_unique with 1; lia. }
    rewrite Hw in Hge. rewrite Z.div_small in Hge; lia. }
  rewrite u32_id in * by lia.
  pose proof (Z.div_mod (x + 255) 256 ltac:(lia)).
  pose proof (Z.mod_pos_bound (x + 255) 256 ltac:(lia)).
  split; [lia|]. split; [lia|]. exists ((x + 255) / 256). lia.
Qed.

Lemma flog_size_eq nfree : 0 ≤ nfree < 2 ^ 32 →
  btt_flog_size nfree = roundup (nfree * 64) 4096.
Proof.
  intros. unfold btt_flog_size, BTT_ALIGNMENT.
  change (roundup (2 * sizeof_btt_flog) BTT_FLOG_PAIR_ALIGN) with 64.
  pose proof (roundup_bounds (nfree * 64) 4096 ltac:(lia)).
  rewrite !u64_id; rewrite ?u64_id; lia.
Qed.

Lemma map_size_eq n : 0 ≤ n < 2 ^ 30 → btt_map_size n = roundup (n * 4) 4096.
Proof.
  intros. unfold btt_map_size, BTT_ALIGNMENT, BTT_MAP_ENTRY_SIZE.
  rewrite u32_id by lia. pose proof (roundup_bounds (n * 4) 4096 ltac:(lia)).
  rewrite u64_id; lia.
Qed.

(** What the layout promises about an arena of [arena_size] bytes with [nfree] free
    blocks, offsets relative to its start. *)
Record arena_geometry (info : btt_info) (arena_size nfree : Z) : Prop := {
  ag_lbasize : 512 ≤ bi_internal_lbasize info;
  ag_ext : bi_external_lbasize info ≤ bi_internal_lbasize info;
  ag_nlba : bi_internal_nlba info < 2 ^ 30;
  ag_free : bi_external_nlba info + nfree = bi_internal_nlba info;
  ag_min : nfree ≤ bi_external_nlba info;
  ag_data0 : bi_dataoff info = 4096;
  ag_data : bi_dataoff info + bi_internal_nlba info * bi_internal_lbasize info ≤ bi_mapoff info;
  ag_map : bi_mapoff info + 4 * bi_external_nlba info ≤ bi_flogoff info;
  ag_mapsize : bi_mapoff info + btt_map_size (bi_external_nlba info) = bi_flogoff info;
  ag_flog : bi_flogoff info + 64 * nfree ≤ bi_infooff info;
  ag_info : bi_infooff info + 4096 = arena_size;
  ag_map_align : arena_size mod 64 = 0 → bi_mapoff info mod 64 = 0;
  ag_flog_align : arena_size mod 64 = 0 → bi_flogoff info mod 64 = 0
}.

Lemma divide_4096_64 x : (4096 | x) → (64 | x).
Proof. intros [k ->]. exists (k * 64). lia. Qed.

Lemma set_geometry info external_lbasize nfree arena_size space_left info' :
  0 ≤ external_lbasize < 2 ^ 32 → 0 < nfree ≤ 65536 →
  BTT_MIN_SIZE ≤ arena_size ≤ BTT_MAX_ARENA →
  btt_info_set info external_lbasize nfree arena_size space_left = Some info' →
  arena_geometry info' arena_size nfree.
Proof.
  unfold BTT_MIN_SIZE, BTT_MAX_ARENA. intros Hl Hf Ha. unfold btt_info_set.
  destruct (Z.eqb_spec (internal_lbasize external_lbasize) 0) as [|Hil]; [done|].
  destruct (internal_lbasize_range _ Hl Hil) as (Hr & Hle & _).
  set (il := internal_lbasize external_lbasize) in *. clearbody il.
  unfold btt_info_set_params, btt_arena_datasize, BTT_ALIGNMENT, BTT_MAP_ENTRY_SIZE, sizeof_btt_info.
  rewrite flog_size_eq by lia. set (F := roundup (nfree * 64) 4096).
  pose proof (roundup_bounds (nfree * 64) 4096 ltac:(lia)) as HF. fold F in HF.
  rewrite (u64_id (arena_size - 2 * 4096)), (u64_id (arena_size - 2 * 4096 - F)) by lia.
  rewrite (u64_id (_ - 4096)), (u32_id (il + 4)), (u32_id (2 * nfree)) by lia.
  set (D := arena_size - 2 * 4096 - F). set (N := (D - 4096) / (il + 4)).
  pose proof (Z.div_mod (D - 4096) (il + 4) ltac:(lia)) as HN. fold N in HN.
  pose proof (Z.mod_pos_bound (D - 4096) (il + 4) ltac:(lia)) as HM.
  assert (0 ≤ N) by (apply Z.div_pos; unfold D; lia).
  assert (N < 2 ^ 30) by (unfold D in *; nia).
  destruct (Z.ltb_spec N (2 * nfree)); [done|]. intros [= <-].
  unfold btt_info_set_offs. simpl.
  rewrite (u32_id N), (u32_id (N - nfree)), flog_size_eq, map_size_eq by lia. fold F.
  set (Mp := roundup ((N - nfree) * 4) 4096).
  pose proof (roundup_bounds ((N - nfree) * 4) 4096 ltac:(lia)) as HMp. fold Mp in HMp.
  unfold sizeof_btt_info in *.
  assert (4096 + N * il + Mp ≤ arena_size - 4096 - F) as Hfit by (unfold D in *; nia).
  assert (0 ≤ N * il) by nia.
  rewrite (u64_id (arena_size - 4096)), (u64_id (arena_size - 4096 - F)), u64_id by lia.
  assert (64 | F) as HF64 by apply divide_4096_64, roundup_divide.
  assert (64 | Mp) as HM64 by apply divide_4096_64, roundup_divide.
  split; simpl; unfold sizeof_btt_info; rewrite ?map_size_eq by lia; fold Mp; try lia.
  - intros Hm%Z.mod_divide; [|lia]. apply Z.mod_divide; [lia|].
    do 2 (apply Z.divide_sub_r; [|done]). apply Z.divide_sub_r; [done|]. by exists 64.
  - intros Hm%Z.mod_divide; [|lia]. apply Z.mod_divide; [lia|].
    apply Z.divide_sub_r; [|done]. apply Z.divide_sub_r; [done|]. by exists 64.
Qed.

(** ** Encoding and decoding *)

Lemma slice_app_here (a b : list Z) (n : nat) : length a = n → slice (a ++ b) 0 n = a.
Proof. intros <-. apply (take_app_length a b). Qed.

Lemma slice_app_skip (a b : list Z) (k : Z) off n :
  len a = k → k ≤ off → slice (a ++ b) off n = slice b (off - k) n.
Proof.
  intros <- Ho. unfold slice. rewrite drop_app_ge by lia. do 2 f_equal. lia.
Qed.

Lemma slice_all (a : list Z) (n : nat) : length a = n → slice a 0 n = a.
Proof. intros <-. by apply (take_ge a). Qed.

Lemma slice_join (bs : list Z) off off' (n k t : nat) :
  0 ≤ off → off' = off + Z.of_nat n → t = (n + k)%nat →
  slice bs off n ++ slice bs off' k = slice bs off t.
Proof.
  intros Ho -> ->. unfold slice.
  rewrite <- (take_take_drop (drop (Z.to_nat off) bs) n k), drop_drop. do 3 f_equal. lia.
Qed.

Lemma slice_bytes bs off n : Forall is_byte bs → Forall is_byte (slice bs off n).
Proof. intros H. by apply Forall_take, Forall_drop. Qed.

Lemma length_slice (bs : list Z) off (n : nat) :
  0 ≤ off → off + Z.of_nat n ≤ len bs → length (slice bs off n) = n.
Proof. intros. unfold slice. rewrite length_take, length_drop. lia. Qed.

Lemma le_field_bytes bs off n :
  Forall is_byte bs → 0 ≤ off → off + Z.of_nat n ≤ len bs →
  le_bytes n (le_field bs off n) = slice bs off n.
Proof.
  intros Hb H0 Hl. unfold le_field.
  rewrite <- (length_slice bs off n) at 1 by done.
  apply le_bytes_le_of. by apply slice_bytes.
Qed.

Lemma le_field_range bs off n : 0 ≤ le_field bs off n < 256 ^ Z.of_nat n.
Proof.
  unfold le_field. pose proof (le_of_range (slice bs off n)) as H.
  assert (256 ^ len (slice bs off n) ≤ 256 ^ Z.of_nat n); [|lia].
  apply Z.pow_le_mono_r; [lia|]. unfold slice. rewrite length_take. lia.
Qed.

Lemma le_field_here n v b : le_field (le_bytes n v ++ b) 0 n = v mod 256 ^ Z.of_nat n.
Proof.
  unfold le_field. rewrite slice_app_here by apply length_le_bytes. apply le_of_le_bytes.
Qed.

Lemma le_field_skip (a b : list Z) (k : Z) off n :
  len a = k → k ≤ off → le_field (a ++ b) off n = le_field b (off - k) n.
Proof. intros. unfold le_field. by rewrite (slice_app_skip a b k). Qed.

Lemma le_field_last n v : le_field (le_bytes n v) 0 n = v mod 256 ^ Z.of_nat n.
Proof. rewrite <- (app_nil_r (le_bytes n v)). apply le_field_here. Qed.

(** Walk over the fields of an encoded structure. *)
Ltac eval_sub :=
  repeat match goal with
  | |- context [?x - ?y] =>
      let z := eval vm_compute in (x - y) in
      match z with Z0 => idtac | Zpos _ => idtac end; change (x - y) with z
  end.
Ltac known_len := rewrite ?length_le_bytes; first [eassumption | reflexivity].
Ltac walk_fields :=
  repeat first
    [ rewrite le_field_here
    | rewrite le_field_last
    | rewrite slice_app_here by (rewrite ?length_le_bytes; (done || lia))
    | erewrite le_field_skip; [|known_len|lia]; eval_sub
    | erewrite slice_app_skip; [|known_len|lia]; eval_sub ].

Definition flog_wf (f : btt_flog) : Prop :=
  0 ≤ fl_lba f < 2 ^ 32 ∧ 0 ≤ fl_old_map f < 2 ^ 32 ∧
  0 ≤ fl_new_map f < 2 ^ 32 ∧ 0 ≤ fl_seq f < 2 ^ 32.

Lemma flog_convert2h_2le f : flog_wf f → btt_flog_convert2h (btt_flog_convert2le f) = f.
Proof.
  destruct f as [l o n s]. intros (H1 & H2 & H3 & H4); simpl in *.
  unfold btt_flog_convert2h, btt_flog_convert2le. cbn [fl_lba fl_old_map fl_new_map fl_seq].
  f_equal; walk_fields; apply Z.mod_small; assumption.
Qed.

Lemma flog_convert2le_2h bs : Forall is_byte bs → length bs = 16%nat →
  btt_flog_convert2le (btt_flog_convert2h bs) = bs.
Proof.
  intros Hb Hl. unfold btt_flog_convert2le, btt_flog_convert2h.
  cbn [fl_lba fl_old_map fl_new_map fl_seq]. rewrite !le_field_bytes by (done || lia).
  rewrite (slice_join bs 8 12 4 4 8), (slice_join bs 4 8 4 8 12), (slice_join bs 0 4 4 12 16) by lia.
  by apply (slice_all bs).
Qed.

Lemma flog_convert2h_wf bs : flog_wf (btt_flog_convert2h bs).
Proof. repeat split; apply le_field_range. Qed.

Lemma length_flog_2le f : length (btt_flog_convert2le f) = 16%nat.
Proof. unfold btt_flog_convert2le. by rewrite !length_app, !length_le_bytes. Qed.

Lemma flog_2le_bytes f : Forall is_byte (btt_flog_convert2le f).
Proof. unfold btt_flog_convert2le. rewrite !Forall_app. auto with pmdk. Qed.

(** The fields of the info block within their widths. *)
Record info_wf (i : btt_info) : Prop := {
  iw_sig : length (bi_sig i) = 16%nat;
  iw_uuid : length (bi_uuid i) = 16%nat;
  iw_puuid : length (bi_parent_uuid i) = 16%nat;
  iw_unused : length (bi_unused i) = 3968%nat;
  iw_flags : 0 ≤ bi_flags i < 2 ^ 32;
  iw_major : 0 ≤ bi_major i < 2 ^ 16;
  iw_minor : 0 ≤ bi_minor i < 2 ^ 16;
  iw_elba : 0 ≤ bi_external_lbasize i < 2 ^ 32;
  iw_enlba : 0 ≤ bi_external_nlba i < 2 ^ 32;
  iw_ilba : 0 ≤ bi_internal_lbasize i < 2 ^ 32;
  iw_inlba : 0 ≤ bi_internal_nlba i < 2 ^ 32;
  iw_nfree : 0 ≤ bi_nfree i < 2 ^ 32;
  iw_size : 0 ≤ bi_infosize i < 2 ^ 32;
  iw_next : 0 ≤ bi_nextoff i < 2 ^ 64;
  iw_data : 0 ≤ bi_dataoff i < 2 ^ 64;
  iw_map : 0 ≤ bi_mapoff i < 2 ^ 64;
  iw_flog : 0 ≤ bi_flogoff i < 2 ^ 64;
  iw_info : 0 ≤ bi_infooff i < 2 ^ 64;
  iw_csum : 0 ≤ bi_checksum i < 2 ^ 64
}.

Lemma info_convert2h_2le i : info_wf i → btt_info_convert2h (btt_info_convert2le i) = i.
Proof.
  destruct i; intros [Hsig Huuid Hpuuid Hunused]; cbn [bi_sig bi_uuid bi_parent_uuid bi_unused] in *.
  assert (len bi_sig0 = 16) by lia. assert (len bi_uuid0 = 16) by lia.
  assert (len bi_parent_uuid0 = 16) by lia. assert (len bi_unused0 = 3968) by lia.
  unfold btt_info_convert2h, btt_info_convert2le.
  cbn [bi_sig bi_uuid bi_parent_uuid bi_flags bi_major bi_minor bi_external_lbasize
       bi_external_nlba bi_internal_lbasize bi_internal_nlba bi_nfree bi_infosize bi_nextoff
       bi_dataoff bi_mapoff bi_flogoff bi_infooff bi_unused bi_checksum] in *.
  f_equal; walk_fields; first [done | apply Z.mod_small; assumption].
Qed.

Lemma length_info_2le i : info_wf i → length (btt_info_convert2le i) = 4096%nat.
Proof.
  intros [H1 H2 H3 H4]. unfold btt_info_convert2le.
  by rewrite !length_app, !length_le_bytes, H1, H2, H3, H4.
Qed.

Lemma info_convert2le_2h bs : Forall is_byte bs → length bs = 4096%nat →
  btt_info_convert2le (btt_info_convert2h bs) = bs.
Proof.
  intros Hb Hl. unfold btt_info_convert2le, btt_info_convert2h.
  cbn [bi_sig bi_uuid bi_parent_uuid bi_flags bi_major bi_minor bi_external_lbasize
       bi_external_nlba bi_internal_lbasize bi_internal_nlba bi_nfree bi_infosize bi_nextoff
       bi_dataoff bi_mapoff bi_flogoff bi_infooff bi_unused bi_checksum].
  rewrite !le_field_bytes by (done || lia).
  rewrite (slice_join bs 120 4088 3968 8 3976), (slice_join bs 112 120 8 3976 3984),
    (slice_join bs 104 112 8 3984 3992), (slice_join bs 96 104 8 3992 4000), (slice_join bs 88 96 8 4000 4008),
    (slice_join bs 80 88 8 4008 4016), (slice_join bs 76 80 4 4016 4020), (slice_join bs 72 76 4 4020 4024),
    (slice_join bs 68 72 4 4024 4028), (slice_join bs 64 68 4 4028 4032), (slice_join bs 60 64 4 4032 4036),
    (slice_join bs 56 60 4 4036 4040), (slice_join bs 54 56 2 4040 4042), (slice_join bs 52 54 2 4042 4044),
    (slice_join bs 48 52 4 4044 4048), (slice_join bs 32 48 16 4048 4064), (slice_join bs 16 32 16 4064 4080),
    (slice_join bs 0 16 16 4080 4096) by lia.
  by apply (slice_all bs).
Qed.

(** ** Which slot of a flog pair is current

    The choice depends on the two sequence numbers only. *)

Definition seq_pick (s0 s1 : Z) : option Z :=
  if s0 =? s1 then None
  else if s0 =? 0 then Some 0
  else if s1 =? 0 then Some 1
  else if NSEQ s0 =? s1 then Some 0 else Some 1.

Lemma get_valid_pick f0 f1 :
  btt_flog_get_valid f0 f1 =
  match seq_pick (fl_seq f0) (fl_seq f1) with
  | None => None
  | Some n => Some (if n =? 0 then f1 else f0, n)
  end.
Proof. unfold btt_flog_get_valid, seq_pick. by repeat case_match. Qed.

Lemma seq_pick_new s : 1 ≤ s ≤ 3 → seq_pick (NSEQ s) s = Some 1 ∧ seq_pick s (NSEQ s) = Some 0.
Proof. intros Hs. assert (s = 1 ∨ s = 2 ∨ s = 3) as [->|[->| ->]] by lia; done. Qed.

Lemma seq_pick_01 s0 s1 n : seq_pick s0 s1 = Some n → n = 0 ∨ n = 1.
Proof. unfold seq_pick. repeat case_match; intros; simplify_eq; auto. Qed.

Lemma NSEQ_range s : 1 ≤ s ≤ 3 → 1 ≤ NSEQ s ≤ 3.
Proof. intros Hs. assert (s = 1 ∨ s = 2 ∨ s = 3) as [->|[->| ->]] by lia; vm_compute; split; discriminate. Qed.

Lemma get_valid_part f0 f1 cur next part :
  btt_flog_get_valid f0 f1 = Some (cur, next) →
  fl_seq part = fl_seq (if next =? 0 then f0 else f1) →
  (if next =? 0 then btt_flog_get_valid part f1 else btt_flog_get_valid f0 part)
  = Some (cur, next).
Proof.
  rewrite !get_valid_pick. destruct (seq_pick _ _) as [n|] eqn:E; [|done].
  intros [= <- <-] Hp. destruct (seq_pick_01 _ _ _ E) as [-> | ->]; simpl in *; by rewrite Hp, E.
Qed.

Lemma get_valid_new f0 f1 cur next new :
  btt_flog_get_valid f0 f1 = Some (cur, next) →
  1 ≤ fl_seq cur ≤ 3 → fl_seq new = NSEQ (fl_seq cur) →
  (if next =? 0 then btt_flog_get_valid new f1 else btt_flog_get_valid f0 new)
  = Some (new, 1 - next).
Proof.
  rewrite !get_valid_pick. destruct (seq_pick _ _) as [n|] eqn:E; [|done].
  intros [= <- <-] Hc Hn. destruct (seq_pick_01 _ _ _ E) as [-> | ->]; simpl in *;
    rewrite Hn; destruct (seq_pick_new _ Hc) as [H1 H2]; by rewrite ?H1, ?H2.
Qed.

(** ** Properties of the layout *)

(** in every arena size the code lays out, the data blocks, the map, the flog
    and the two info blocks lie one after the other without overlap and fill
    the arena; a block number fits in the 30 bits of a map entry; no 32- or 64-bit
    computation on the way wraps. *)
Theorem btt_info_set_layout info external_lbasize nfree arena_size space_left info' :
  0 ≤ external_lbasize < 2 ^ 32 → 0 < nfree ≤ 65536 →
  BTT_MIN_SIZE ≤ arena_size ≤ BTT_MAX_ARENA →
  btt_info_set info external_lbasize nfree arena_size space_left = Some info' →
  arena_geometry info' arena_size nfree ∧
  bi_nextoff info' = (if BTT_MIN_SIZE <=? space_left then arena_size else 0) ∧
  bi_internal_lbasize info' = internal_lbasize external_lbasize.
Proof.
  intros Hl Hf Ha H. split; [by eapply set_geometry|].
  unfold btt_info_set, btt_info_set_params in H.
  repeat case_match; simplify_eq; simpl; repeat case_match; done.
Qed.

Lemma btt_info_set_layout_witness :
  ∃ info', btt_info_set zero_info 512 256 (BTT_MAX_ARENA) 0 = Some info' ∧
    arena_geometry info' BTT_MAX_ARENA 256.
Proof.
  destruct (btt_info_set zero_info 512 256 BTT_MAX_ARENA 0) as [info'|] eqn:E;
    [|vm_compute in E; discriminate].
  exists info'. split; [done|].
  apply (btt_info_set_layout zero_info 512 256 BTT_MAX_ARENA 0 info'); [lia|lia| |done].
  unfold BTT_MIN_SIZE, BTT_MAX_ARENA. lia.
Defined.

(** encoding and decoding of the info block are inverse to each other, on
    every 4096 bytes and on every structure whose fields are in range. *)
Theorem btt_info_roundtrip i bs :
  info_wf i → Forall is_byte bs → length bs = 4096%nat →
  btt_info_convert2h (btt_info_convert2le i) = i ∧
  length (btt_info_convert2le i) = 4096%nat ∧
  btt_info_convert2le (btt_info_convert2h bs) = bs.
Proof.
  intros. split; [by apply info_convert2h_2le|]. split; [by apply length_info_2le|].
  by apply info_convert2le_2h.
Qed.

Lemma btt_info_roundtrip_witness :
  btt_info_convert2h (btt_info_convert2le zero_info) = zero_info.
Proof.
  apply (btt_info_roundtrip zero_info (replicate 4096 7)).
  - split; first [reflexivity | simpl; lia].
  - apply Forall_replicate. unfold is_byte. lia.
  - reflexivity.
Defined.

(** a flog entry written next to the current one with the following sequence
    number becomes the current one, whichever slot it goes to and whether
    the pair is fresh or not; before the sequence number is written the old entry
    stays the current one. *)
Theorem flog_pair_switch f0 f1 cur next new part :
  btt_flog_get_valid f0 f1 = Some (cur, next) →
  1 ≤ fl_seq cur ≤ 3 → fl_seq new = NSEQ (fl_seq cur) →
  fl_seq part = fl_seq (if next =? 0 then f0 else f1) →
  let put f := if next =? 0 then btt_flog_get_valid f f1 else btt_flog_get_valid f0 f in
  put part = Some (cur, next) ∧ put new = Some (new, 1 - next).
Proof.
  intros Hv Hs Hn Hp. simpl. split; [by apply get_valid_part|by eapply get_valid_new].
Qed.

Lemma flog_pair_switch_witness :
  btt_flog_get_valid (BttFlog 0 9 9 1) (BttFlog 3 9 7 2) = Some (BttFlog 3 9 7 2, 0).
Proof.
  apply (flog_pair_switch (BttFlog 0 9 9 1) Zflog (BttFlog 0 9 9 1) 1 (BttFlog 3 9 7 2) (BttFlog 3 9 0 0));
    [reflexivity|simpl; lia|reflexivity|reflexivity].
Defined.
