(* ===== verification/Btt.v ===== *)
(** * Block translation table: run-time state and operations

    Models [libpmemblk/btt.c] and [libpmemblk/btt.h].  The namespace is reached
    only through the callbacks of [struct ns_callback], a record of functions
    here too; [struct btt], [struct arena] and [struct flog_runtime] are records,
    and every function of the source that has side effects is an action of the
    state monad.  The functions are those of one thread: a mutex that is already held
    and a spin on a condition nobody will change are [Undef].  Debug assertions
    are compiled out in the build of this repository and are not modelled as
    checks; the ones on the layout are theorems of [BttLayout]. *)

From stdpp Require Import base gmap list numbers.
From S2P Require Import Prelude Memory Util BttLayout.
Local Open Scope Z_scope.

(** ** Namespace callbacks *)

(** [nsmap] hands out a pointer: the length mapped and the bytes behind it. *)
Record ns_callback (NS : Type) : Type := NsCallback {
  nsread : NS → Z → Z → Z → res (list Z);          (* lane count off *)
  nswrite : NS → Z → list Z → Z → res unit * NS;   (* lane buf off *)
  nszero : NS → Z → Z → Z → res unit * NS;         (* lane count off *)
  nsmap : NS → Z → Z → Z → res (Z * (Z → Z));      (* lane len off *)
  nssync : NS → Z → Z → Z → NS;                    (* lane addr len *)
  ns_is_zeroed : bool
}.
Arguments nsread {NS}. Arguments nswrite {NS}. Arguments nszero {NS}.
Arguments nsmap {NS}. Arguments nssync {NS}. Arguments ns_is_zeroed {NS}.

(** ** Run-time state *)

Record flog_runtime : Type := FlogRuntime {
  fr_flog : btt_flog;
  fr_entries : Z * Z;
  fr_next : Z
}.

Record arena : Type := Arena {
  a_flags : Z;
  a_external_nlba : Z;
  a_internal_lbasize : Z;
  a_internal_nlba : Z;
  a_startoff : Z;
  a_dataoff : Z;
  a_mapoff : Z;
  a_flogoff : Z;
  a_nextoff : Z;
  a_flogs : list flog_runtime;
  a_rtt : list Z;
  a_map_locks : list bool;
  a_info_lock : bool
}.

Record btt : Type := Btt {
  b_nlane : Z;
  b_layout_write_mutex : bool;
  b_laidout : bool;
  b_uuid : list Z;
  b_parent_uuid : list Z;
  b_rawsize : Z;
  b_lbasize : Z;
  b_nfree : Z;
  b_nlba : Z;
  b_narena : Z;
  b_arenas : list arena
}.

Definition zero_arena : arena := Arena 0 0 0 0 0 0 0 0 0 [] [] [] false.
Definition zero_flog_runtime : flog_runtime := FlogRuntime Zflog (0, 0) 0.
Definition zero_btt : btt := Btt 0 false false (zeros 16) (zeros 16) 0 0 0 0 0 [].

(** Field updates. *)
Definition a_set_flags (x : Z) (a : arena) : arena :=
  Arena x (a_external_nlba a) (a_internal_lbasize a) (a_internal_nlba a) (a_startoff a)
    (a_dataoff a) (a_mapoff a) (a_flogoff a) (a_nextoff a) (a_flogs a) (a_rtt a)
    (a_map_locks a) (a_info_lock a).
Definition a_set_flogs (x : list flog_runtime) (a : arena) : arena :=
  Arena (a_flags a) (a_external_nlba a) (a_internal_lbasize a) (a_internal_nlba a) (a_startoff a)
    (a_dataoff a) (a_mapoff a) (a_flogoff a) (a_nextoff a) x (a_rtt a)
    (a_map_locks a) (a_info_lock a).
Definition a_set_rtt (x : list Z) (a : arena) : arena :=
  Arena (a_flags a) (a_external_nlba a) (a_internal_lbasize a) (a_internal_nlba a) (a_startoff a)
    (a_dataoff a) (a_mapoff a) (a_flogoff a) (a_nextoff a) (a_flogs a) x
    (a_map_locks a) (a_info_lock a).
Definition a_set_map_locks (x : list bool) (a : arena) : arena :=
  Arena (a_flags a) (a_external_nlba a) (a_internal_lbasize a) (a_internal_nlba a) (a_startoff a)
    (a_dataoff a) (a_mapoff a) (a_flogoff a) (a_nextoff a) (a_flogs a) (a_rtt a)
    x (a_info_lock a).
Definition a_set_info_lock (x : bool) (a : arena) : arena :=
  Arena (a_flags a) (a_external_nlba a) (a_internal_lbasize a) (a_internal_nlba a) (a_startoff a)
    (a_dataoff a) (a_mapoff a) (a_flogoff a) (a_nextoff a) (a_flogs a) (a_rtt a)
    (a_map_locks a) x.

Definition b_set_nlane (x : Z) (b : btt) : btt :=
  Btt x (b_layout_write_mutex b) (b_laidout b) (b_uuid b) (b_parent_uuid b) (b_rawsize b)
    (b_lbasize b) (b_nfree b) (b_nlba b) (b_narena b) (b_arenas b).
Definition b_set_mutex (x : bool) (b : btt) : btt :=
  Btt (b_nlane b) x (b_laidout b) (b_uuid b) (b_parent_uuid b) (b_rawsize b)
    (b_lbasize b) (b_nfree b) (b_nlba b) (b_narena b) (b_arenas b).
Definition b_set_laidout (x : bool) (b : btt) : btt :=
  Btt (b_nlane b) (b_layout_write_mutex b) x (b_uuid b) (b_parent_uuid b) (b_rawsize b)
    (b_lbasize b) (b_nfree b) (b_nlba b) (b_narena b) (b_arenas b).
Definition b_set_uuid (x : list Z) (b : btt) : btt :=
  Btt (b_nlane b) (b_layout_write_mutex b) (b_laidout b) x (b_parent_uuid b) (b_rawsize b)
    (b_lbasize b) (b_nfree b) (b_nlba b) (b_narena b) (b_arenas b).
Definition b_set_nfree (x : Z) (b : btt) : btt :=
  Btt (b_nlane b) (b_layout_write_mutex b) (b_laidout b) (b_uuid b) (b_parent_uuid b) (b_rawsize b)
    (b_lbasize b) x (b_nlba b) (b_narena b) (b_arenas b).
Definition b_set_nlba (x : Z) (b : btt) : btt :=
  Btt (b_nlane b) (b_layout_write_mutex b) (b_laidout b) (b_uuid b) (b_parent_uuid b) (b_rawsize b)
    (b_lbasize b) (b_nfree b) x (b_narena b) (b_arenas b).
Definition b_set_narena (x : Z) (b : btt) : btt :=
  Btt (b_nlane b) (b_layout_write_mutex b) (b_laidout b) (b_uuid b) (b_parent_uuid b) (b_rawsize b)
    (b_lbasize b) (b_nfree b) (b_nlba b) x (b_arenas b).
Definition b_set_arenas (x : list arena) (b : btt) : btt :=
  Btt (b_nlane b) (b_layout_write_mutex b) (b_laidout b) (b_uuid b) (b_parent_uuid b) (b_rawsize b)
    (b_lbasize b) (b_nfree b) (b_nlba b) (b_narena b) x.

(** The state of a call: the handle, the namespace, the answers of the coming
    allocations ([Malloc]; when the list is exhausted allocations succeed) and
    the result of the next [util_uuid_generate]. *)
Record st (NS : Type) : Type := St {
  s_btt : btt;
  s_ns : NS;
  s_malloc : list bool;
  s_uuid : option (list Z)
}.
Arguments St {NS}. Arguments s_btt {NS}. Arguments s_ns {NS}.
Arguments s_malloc {NS}. Arguments s_uuid {NS}.

(** ** Operations *)

Section btt.
Context {NS : Type} (cb : ns_callback NS).
Implicit Types (lane ai : Z).
Local Abbreviation MB A := (M (st NS) A).

(** *** State access *)

Definition get_btt {A} (f : btt → A) : MB A := gets (f ∘ s_btt).
Definition mod_btt (f : btt → btt) : MB unit :=
  modify (λ s, St (f (s_btt s)) (s_ns s) (s_malloc s) (s_uuid s)).

Definition ns_read lane count off : MB (list Z) :=
  λ s, (nsread cb (s_ns s) lane count off, s).
Definition ns_write lane buf off : MB unit := λ s,
  let '(r, n) := nswrite cb (s_ns s) lane buf off in
  (r, St (s_btt s) n (s_malloc s) (s_uuid s)).
Definition ns_zero lane count off : MB unit := λ s,
  let '(r, n) := nszero cb (s_ns s) lane count off in
  (r, St (s_btt s) n (s_malloc s) (s_uuid s)).
Definition ns_map lane length off : MB (Z * (Z → Z)) :=
  λ s, (nsmap cb (s_ns s) lane length off, s).

Definition Malloc : MB unit := λ s,
  match s_malloc s with
  | [] => (Ok tt, s)
  | true :: t => (Ok tt, St (s_btt s) (s_ns s) t (s_uuid s))
  | false :: t => (Fail ENOMEM, St (s_btt s) (s_ns s) t (s_uuid s))
  end.

Definition get_arena ai : MB arena := λ s,
  match lookupZ (b_arenas (s_btt s)) ai with
  | Some a => (Ok a, s)
  | None => (Undef, s)
  end.
Definition mod_arena ai (f : arena → arena) : MB unit :=
  a ← get_arena ai;
  mod_btt (λ b, b_set_arenas (updZ (b_arenas b) ai (f a)) b).

(** [arenap->flogs[i]] *)
Definition get_flog ai i : MB flog_runtime :=
  a ← get_arena ai;
  match lookupZ (a_flogs a) i with
  | Some f => mret f
  | None => undef
  end.
Definition set_flog ai i (f : flog_runtime) : MB unit :=
  get_flog ai i;; mod_arena ai (λ a, a_set_flogs (updZ (a_flogs a) i f) a).

(** [arenap->rtt[lane] = entry] *)
Definition set_rtt ai lane (entry : Z) : MB unit :=
  a ← get_arena ai;
  match lookupZ (a_rtt a) lane with
  | Some _ => mod_arena ai (λ a, a_set_rtt (updZ (a_rtt a) lane entry) a)
  | None => undef
  end.

Definition map_mutex_lock ai (num : Z) : MB unit :=
  a ← get_arena ai;
  match lookupZ (a_map_locks a) num with
  | Some false => mod_arena ai (λ a, a_set_map_locks (updZ (a_map_locks a) num true) a)
  | _ => undef
  end.
Definition map_mutex_unlock ai (num : Z) : MB unit :=
  a ← get_arena ai;
  match lookupZ (a_map_locks a) num with
  | Some true => mod_arena ai (λ a, a_set_map_locks (updZ (a_map_locks a) num false) a)
  | _ => undef
  end.

(** *** Flog *)

Definition invalid_lba (lba : Z) : MB unit :=
  nlba ← get_btt b_nlba;
  if nlba <=? lba then fail EINVAL else mret tt.

Definition read_flog_pair lane ai (flog_off flognum : Z) : MB unit :=
  fr ← get_flog ai flognum;
  set_flog ai flognum
    (FlogRuntime (fr_flog fr) (flog_off, u64 (flog_off + sizeof_btt_flog)) (fr_next fr));;
  nfree ← get_btt b_nfree;
  if nfree <=? lane then fail EINVAL
  else if flog_off =? 0 then fail EINVAL
  else
    bs ← ns_read lane (2 * sizeof_btt_flog) flog_off;
    let f0 := btt_flog_convert2h (slice bs 0 16) in
    let f1 := btt_flog_convert2h (slice bs 16 16) in
    invalid_lba (fl_lba f0);;
    invalid_lba (fl_lba f1);;
    match btt_flog_get_valid f0 f1 with
    | None => mod_arena ai (λ a, a_set_flags (a_flags a ||| BTTINFO_FLAG_ERROR) a)
    | Some (current, next) =>
        fr ← get_flog ai flognum;
        set_flog ai flognum (FlogRuntime current (fr_entries fr) next);;
        if fl_old_map current =? fl_new_map current then mret tt
        else
          a ← get_arena ai;
          let map_entry_off :=
            u64 (a_mapoff a + u32 (BTT_MAP_ENTRY_SIZE * fl_lba current)) in
          ebs ← ns_read lane 4 map_entry_off;
          let entry := le_of ebs in
          let entry := if map_entry_is_initial entry
                       then fl_lba current ||| BTT_MAP_ENTRY_NORMAL else entry in
          if negb (fl_new_map current =? entry) && (fl_old_map current =? entry)
          then ns_write lane (le_bytes 4 (fl_new_map current)) map_entry_off
          else mret tt
    end.

Definition flog_update lane ai (lba old_map new_map : Z) : MB unit :=
  fr ← get_flog ai lane;
  let new_flog := BttFlog lba old_map new_map (NSEQ (fl_seq (fr_flog fr))) in
  let new_flog_off := if fr_next fr =? 0 then (fr_entries fr).1 else (fr_entries fr).2 in
  ns_write lane (le_bytes 4 (fl_lba new_flog) ++ le_bytes 4 (fl_old_map new_flog)) new_flog_off;;
  let new_flog_off := u64 (new_flog_off + 4 * 2) in
  ns_write lane (le_bytes 4 (fl_new_map new_flog) ++ le_bytes 4 (fl_seq new_flog)) new_flog_off;;
  set_flog ai lane (FlogRuntime new_flog (fr_entries fr) (1 - fr_next fr)).

(** *** Arena info block *)

Definition info_lock ai : MB unit :=
  a ← get_arena ai;
  if a_info_lock a then undef else mod_arena ai (a_set_info_lock true).
Definition info_unlock ai : MB unit := mod_arena ai (a_set_info_lock false).

Definition arena_setf ai lane (setf : Z) : MB unit :=
  mod_arena ai (λ a, a_set_flags (a_flags a ||| setf) a);;
  laidout ← get_btt b_laidout;
  if negb laidout then mret tt
  else
    a ← get_arena ai;
    let arena_off := a_startoff a in
    info_lock ai;;
    on_fail
      (bs ← ns_read lane sizeof_btt_info arena_off;
       let infooff := le_field bs 112 8 in
       let bs := splice bs 48 (le_bytes 4 (le_field bs 48 4 ||| setf)) in
       match util_checksum bs 4088 true 0 with
       | Ok (_, bs) =>
           ns_write lane bs arena_off;;
           ns_write lane bs (u64 (arena_off + infooff))
       | _ => undef
       end)
      (λ e, info_unlock ai;; fail e);;
    info_unlock ai.

Definition set_arena_error ai lane : MB unit := arena_setf ai lane BTTINFO_FLAG_ERROR.

(** *** Loading an arena *)

Fixpoint read_flogs_loop lane ai (n : nat) (i flog_off : Z) : MB unit :=
  match n with
  | O => mret tt
  | S n =>
      on_fail (read_flog_pair lane ai flog_off i)
        (λ e, ignore (set_arena_error ai lane);; fail e);;
      read_flogs_loop lane ai n (i + 1)
        (u64 (flog_off + roundup (2 * sizeof_btt_flog) BTT_FLOG_PAIR_ALIGN))
  end.

Definition read_flogs lane ai : MB unit :=
  nfree ← get_btt b_nfree;
  Malloc;;
  mod_arena ai (a_set_flogs (replicate (Z.to_nat nfree) zero_flog_runtime));;
  a ← get_arena ai;
  read_flogs_loop lane ai (Z.to_nat nfree) 0 (a_flogoff a).

Definition build_rtt ai : MB unit :=
  nfree ← get_btt b_nfree;
  Malloc;;
  mod_arena ai (a_set_rtt (replicate (Z.to_nat nfree) BTT_MAP_ENTRY_ERROR)).

Definition build_map_locks ai : MB unit :=
  nfree ← get_btt b_nfree;
  Malloc;;
  mod_arena ai (a_set_map_locks (replicate (Z.to_nat nfree) false)).

Definition read_arena lane (arena_off : Z) ai : MB unit :=
  bs ← ns_read lane sizeof_btt_info arena_off;
  mod_arena ai (λ a,
    Arena (le_field bs 48 4) (le_field bs 60 4) (le_field bs 64 4) (le_field bs 68 4)
      arena_off
      (u64 (arena_off + le_field bs 88 8)) (u64 (arena_off + le_field bs 96 8))
      (u64 (arena_off + le_field bs 104 8)) (u64 (arena_off + le_field bs 80 8))
      (a_flogs a) (a_rtt a) (a_map_locks a) (a_info_lock a));;
  read_flogs lane ai;;
  build_rtt ai;;
  build_map_locks ai;;
  mod_arena ai (a_set_info_lock false).

Fixpoint read_arenas_loop lane (n : nat) (i arena_off : Z) : MB unit :=
  match n with
  | O => mret tt
  | S n =>
      read_arena lane arena_off i;;
      a ← get_arena i;
      read_arenas_loop lane n (i + 1) (a_nextoff a)
  end.

(** The clean-up at [err] frees the arenas. *)
Definition read_arenas lane (narena : Z) : MB unit :=
  on_fail
    (Malloc;;
     mod_btt (b_set_arenas (replicate (Z.to_nat narena) zero_arena));;
     read_arenas_loop lane (Z.to_nat narena) 0 0;;
     mod_btt (b_set_laidout true))
    (λ e, mod_btt (b_set_arenas []);; fail e).

(** *** Writing a new layout *)

Definition util_uuid_generate : MB (list Z) := λ s,
  match s_uuid s with
  | Some u => (Ok u, s)
  | None => (Fail EINVAL, s)
  end.

Fixpoint write_flogs_loop lane (n : nat) (i flog_entry_off next_free_lba : Z) : MB unit :=
  match n with
  | O => mret tt
  | S n =>
      let e := next_free_lba ||| BTT_MAP_ENTRY_ZERO in
      ns_write lane (btt_flog_convert2le (BttFlog i e e 1)) flog_entry_off;;
      let flog_entry_off := u64 (flog_entry_off + sizeof_btt_flog) in
      ns_write lane (btt_flog_convert2le Zflog) flog_entry_off;;
      let flog_entry_off := u64 (flog_entry_off + sizeof_btt_flog) in
      let flog_entry_off := u64 (roundup flog_entry_off BTT_FLOG_PAIR_ALIGN) in
      write_flogs_loop lane n (i + 1) flog_entry_off (u32 (next_free_lba + 1))
  end.

(** The metadata of one arena.  The map is zeroed at [info.mapoff], which is
    relative to the arena, not at [arena_off + info.mapoff]. *)
Definition write_arena_metadata lane (info : btt_info) (arena_off : Z) : MB unit :=
  b ← get_btt (λ b, b);
  (if ns_is_zeroed cb then mret tt
   else ns_zero lane (btt_map_size (bi_external_nlba info)) (bi_mapoff info));;
  write_flogs_loop lane (Z.to_nat (b_nfree b)) 0 (u64 (arena_off + bi_flogoff info))
    (bi_external_nlba info);;
  let info :=
    BttInfo Sig (b_uuid b) (b_parent_uuid b) (bi_flags info)
      BTTINFO_MAJOR_VERSION BTTINFO_MINOR_VERSION
      (bi_external_lbasize info) (bi_external_nlba info) (bi_internal_lbasize info)
      (bi_internal_nlba info) (bi_nfree info) (bi_infosize info) (bi_nextoff info)
      (bi_dataoff info) (bi_mapoff info) (bi_flogoff info) (bi_infooff info)
      (bi_unused info) (bi_checksum info) in
  match util_checksum (btt_info_convert2le info) 4088 true 0 with
  | Ok (_, bs) =>
      ns_write lane bs arena_off;;
      ns_write lane bs (u64 (arena_off + bi_infooff info))
  | _ => undef
  end.

(** The loop over the arenas: returns the number of arenas and of blocks. *)
Fixpoint write_layout_loop lane (write : bool) (internal_lba_size : Z) (fuel : nat)
    (rawsize arena_num arena_off total_nlba : Z) : MB (Z * Z) :=
  if rawsize <? BTT_MIN_SIZE then mret (arena_num, total_nlba)
  else match fuel with
  | O => undef
  | S fuel =>
      let arena_rawsize := if BTT_MAX_ARENA <? rawsize then BTT_MAX_ARENA else rawsize in
      let rawsize := rawsize - arena_rawsize in
      b ← get_btt (λ b, b);
      match btt_info_set_params zero_info (b_lbasize b) internal_lba_size (b_nfree b)
              arena_rawsize with
      | None => fail EINVAL
      | Some info =>
          let total_nlba := u64 (total_nlba + bi_external_nlba info) in
          if negb write then
            write_layout_loop lane write internal_lba_size fuel rawsize
              (arena_num + 1) arena_off total_nlba
          else
            let info := btt_info_set_offs info arena_rawsize rawsize in
            write_arena_metadata lane info arena_off;;
            write_layout_loop lane write internal_lba_size fuel rawsize
              (arena_num + 1) (u64 (arena_off + bi_nextoff info)) total_nlba
      end
  end.

Definition arena_count (rawsize : Z) : Z :=
  u32 (rawsize / BTT_MAX_ARENA) +
  (if BTT_MIN_SIZE <=? rawsize mod BTT_MAX_ARENA then 1 else 0).

Definition write_layout lane (write : bool) : MB unit :=
  (if write then u ← util_uuid_generate; mod_btt (b_set_uuid u) else mret tt);;
  rawsize ← get_btt b_rawsize;
  mod_btt (b_set_narena (arena_count rawsize));;
  lbasize ← get_btt b_lbasize;
  let internal_lba_size := internal_lbasize lbasize in
  if internal_lba_size =? 0 then fail EINVAL
  else
    r ← write_layout_loop lane write internal_lba_size
          (Z.to_nat (rawsize / BTT_MAX_ARENA + 1)) rawsize 0 0 0;
    mod_btt (b_set_nlba r.2);;
    if write then narena ← get_btt b_narena; read_arenas lane narena
    else mret tt.

(** *** Reading an existing layout *)

(** The loop returns [None] when no valid info block was found, otherwise the
    number of arenas, of blocks and the smallest [nfree]. *)
Fixpoint read_layout_loop lane (fuel : nat)
    (rawsize narena smallest_nfree total_nlba arena_off : Z) : MB (option (Z * Z * Z)) :=
  if rawsize <? BTT_MIN_SIZE then mret (Some (narena, total_nlba, smallest_nfree))
  else match fuel with
  | O => undef
  | S fuel =>
      let narena := narena + 1 in
      bs ← ns_read lane sizeof_btt_info arena_off;
      b ← get_btt (λ b, b);
      match read_info (b_parent_uuid b) bs with
      | None => mret None
      | Some info =>
          if negb (bi_external_lbasize info =? b_lbasize b) then fail EINVAL
          else if bi_nfree info =? 0 then fail EINVAL
          else if bi_external_nlba info =? 0 then fail EINVAL
          else if negb (bi_nextoff info =? 0) && negb (bi_nextoff info =? BTT_MAX_ARENA)
          then fail EINVAL
          else
            let smallest_nfree :=
              if bi_nfree info <? smallest_nfree then bi_nfree info else smallest_nfree in
            let total_nlba := u64 (total_nlba + bi_external_nlba info) in
            let arena_off := u64 (arena_off + bi_nextoff info) in
            if bi_nextoff info =? 0 then mret (Some (narena, total_nlba, smallest_nfree))
            else if rawsize <? bi_nextoff info then fail EINVAL
            else read_layout_loop lane fuel (rawsize - bi_nextoff info) narena
                   smallest_nfree total_nlba arena_off
      end
  end.

Definition read_layout lane : MB unit :=
  rawsize ← get_btt b_rawsize;
  mod_btt (b_set_nfree BTT_DEFAULT_NFREE);;
  r ← read_layout_loop lane (Z.to_nat (rawsize / BTT_MAX_ARENA + 1)) rawsize
        0 (2 ^ 32 - 1) 0 0;
  match r with
  | None => write_layout lane false
  | Some (narena, total_nlba, smallest_nfree) =>
      mod_btt (b_set_narena narena);;
      mod_btt (b_set_nlba total_nlba);;
      nfree ← get_btt b_nfree;
      (if smallest_nfree <? nfree then mod_btt (b_set_nfree smallest_nfree) else mret tt);;
      read_arenas lane narena
  end.

(** *** Entry points *)

Definition btt_fini : MB unit := mod_btt (b_set_arenas []).

Definition btt_init (rawsize lbasize : Z) (parent_uuid : list Z) (maxlane : Z) : MB unit :=
  if rawsize <? BTT_MIN_SIZE then fail EINVAL
  else
    Malloc;;
    mod_btt (λ _, Btt 0 false false (zeros 16) parent_uuid rawsize lbasize 0 0 0 []);;
    on_fail (read_layout 0) (λ e, btt_fini;; fail e);;
    nfree ← get_btt b_nfree;
    mod_btt (b_set_nlane
      (if negb (maxlane =? 0) && (maxlane <? nfree) then maxlane else nfree)).

Definition btt_nlane : MB Z := get_btt b_nlane.
Definition btt_nlba : MB Z := get_btt b_nlba.

Definition zero_block : MB (list Z) :=
  lbasize ← get_btt b_lbasize; mret (zeros lbasize).

(** [lba_to_arena_lba]: the arena's index and the LBA within it. *)
Fixpoint lba_to_arena_loop (arenas : list arena) (i lba : Z) : option (Z * Z) :=
  match arenas with
  | [] => None
  | a :: arenas =>
      if lba <? a_external_nlba a then Some (i, lba)
      else lba_to_arena_loop arenas (i + 1) (lba - a_external_nlba a)
  end.

Definition lba_to_arena_lba (lba : Z) : MB (Z * Z) :=
  b ← get_btt (λ b, b);
  match lba_to_arena_loop (take (Z.to_nat (b_narena b)) (b_arenas b)) 0 lba with
  | Some (ai, premap_lba) => mret (ai, u32 premap_lba)
  | None => undef
  end.

(** The retry loop of [btt_read]: [inl] is a block of zeros, [inr] the entry
    that was published in the read tracking table. *)
Fixpoint btt_read_loop lane ai (map_entry_off : Z) (fuel : nat) (entry : Z) : MB (unit + Z) :=
  match fuel with
  | O => undef
  | S fuel =>
      if map_entry_is_error entry then fail EIO
      else if map_entry_is_zero_or_initial entry then mret (inl tt)
      else
        set_rtt ai lane entry;;
        ebs ← on_fail (ns_read lane 4 map_entry_off)
                (λ e, set_rtt ai lane BTT_MAP_ENTRY_ERROR;; fail e);
        let latest_entry := le_of ebs in
        if entry =? latest_entry then mret (inr entry)
        else btt_read_loop lane ai map_entry_off fuel latest_entry
  end.

(** One thread sees the same entry twice, so one round of the loop suffices. *)
Definition btt_read lane (lba : Z) : MB (list Z) :=
  invalid_lba lba;;
  laidout ← get_btt b_laidout;
  if negb laidout then zero_block
  else
    al ← lba_to_arena_lba lba;
    let '(ai, premap_lba) := al in
    a ← get_arena ai;
    let map_entry_off := u64 (a_mapoff a + u32 (BTT_MAP_ENTRY_SIZE * premap_lba)) in
    ebs ← ns_read lane 4 map_entry_off;
    r ← btt_read_loop lane ai map_entry_off 1 (le_of ebs);
    match r with
    | inl _ => zero_block
    | inr entry =>
        let data_block_off :=
          u64 (a_dataoff a + u64 ((entry &&& BTT_MAP_ENTRY_LBA_MASK) * a_internal_lbasize a)) in
        lbasize ← get_btt b_lbasize;
        buf ← on_fail (ns_read lane lbasize data_block_off)
                (λ e, set_rtt ai lane BTT_MAP_ENTRY_ERROR;; fail e);
        set_rtt ai lane BTT_MAP_ENTRY_ERROR;;
        mret buf
    end.

Definition map_lock lane ai (premap_lba : Z) : MB Z :=
  b ← get_btt (λ b, b);
  a ← get_arena ai;
  let map_entry_off := u64 (a_mapoff a + u32 (BTT_MAP_ENTRY_SIZE * premap_lba)) in
  let map_lock_num := get_map_lock_num premap_lba (b_nfree b) in
  map_mutex_lock ai map_lock_num;;
  ebs ← on_fail (ns_read lane 4 map_entry_off)
          (λ e, map_mutex_unlock ai map_lock_num;; fail e);
  let entry := le_of ebs in
  mret (if map_entry_is_initial entry then premap_lba ||| BTT_MAP_ENTRY_NORMAL else entry).

Definition map_abort lane ai (premap_lba : Z) : MB unit :=
  nfree ← get_btt b_nfree;
  map_mutex_unlock ai (get_map_lock_num premap_lba nfree).

Definition map_unlock lane ai (entry premap_lba : Z) : MB unit :=
  b ← get_btt (λ b, b);
  a ← get_arena ai;
  let map_entry_off := u64 (a_mapoff a + u32 (BTT_MAP_ENTRY_SIZE * premap_lba)) in
  on_fail (ns_write lane (le_bytes 4 entry) map_entry_off)
    (λ e, map_mutex_unlock ai (get_map_lock_num premap_lba (b_nfree b));; fail e);;
  map_mutex_unlock ai (get_map_lock_num premap_lba (b_nfree b)).

(** [if (!laidout) { lock; if (!laidout) err = write_layout(bttp, lane, 1); unlock; }] *)
Definition first_write lane : MB unit :=
  laidout ← get_btt b_laidout;
  if (laidout : bool) then mret tt
  else
    held ← get_btt b_layout_write_mutex;
    if (held : bool) then undef
    else
      mod_btt (b_set_mutex true);;
      laidout ← get_btt b_laidout;
      (if (laidout : bool) then mret tt
       else on_fail (write_layout lane true) (λ e, mod_btt (b_set_mutex false);; fail e));;
      mod_btt (b_set_mutex false).

Definition btt_write lane (lba : Z) (buf : list Z) : MB unit :=
  invalid_lba lba;;
  first_write lane;;
  al ← lba_to_arena_lba lba;
  let '(ai, premap_lba) := al in
  a ← get_arena ai;
  if negb (a_flags a &&& BTTINFO_FLAG_ERROR_MASK =? 0) then fail EIO
  else
    fr ← get_flog ai lane;
    let free_entry :=
      (fl_old_map (fr_flog fr) &&& BTT_MAP_ENTRY_LBA_MASK) ||| BTT_MAP_ENTRY_NORMAL in
    nlane ← get_btt b_nlane;
    if bool_decide (free_entry ∈ take (Z.to_nat nlane) (a_rtt a)) then undef
    else
      let data_block_off :=
        u64 (a_dataoff a +
             u64 ((free_entry &&& BTT_MAP_ENTRY_LBA_MASK) * a_internal_lbasize a)) in
      lbasize ← get_btt b_lbasize;
      ns_write lane (take (Z.to_nat lbasize) buf) data_block_off;;
      old_entry ← map_lock lane ai premap_lba;
      on_fail (flog_update lane ai premap_lba old_entry free_entry)
        (λ e, map_abort lane ai premap_lba;; fail e);;
      on_fail (map_unlock lane ai free_entry premap_lba)
        (λ e, ignore (set_arena_error ai lane);; fail EIO).

Definition map_entry_setf lane (lba setf : Z) : MB unit :=
  invalid_lba lba;;
  laidout ← get_btt b_laidout;
  if negb laidout && (setf =? BTT_MAP_ENTRY_ZERO) then mret tt
  else
    first_write lane;;
    al ← lba_to_arena_lba lba;
    let '(ai, premap_lba) := al in
    a ← get_arena ai;
    if negb (a_flags a &&& BTTINFO_FLAG_ERROR_MASK =? 0) then fail EIO
    else
      old_entry ← map_lock lane ai premap_lba;
      if (setf =? BTT_MAP_ENTRY_ZERO) && map_entry_is_zero_or_initial old_entry
      then map_abort lane ai premap_lba
      else
        let new_entry := (old_entry &&& BTT_MAP_ENTRY_LBA_MASK) ||| setf in
        map_unlock lane ai new_entry premap_lba.

Definition btt_set_zero lane (lba : Z) : MB unit := map_entry_setf lane lba BTT_MAP_ENTRY_ZERO.
Definition btt_set_error lane (lba : Z) : MB unit := map_entry_setf lane lba BTT_MAP_ENTRY_ERROR.

(** *** Consistency check *)

Definition ptr_rd32 (p : Z → Z) (index : Z) : Z :=
  le_of [p (4 * index); p (4 * index + 1); p (4 * index + 2); p (4 * index + 3)].

(** The scan of the map: [n] entries are left, [i] is the next one, [remaining]
    bytes of the mapped range [mapp] are left from [next_index] on. *)
Fixpoint check_map_loop ai (n : nat) (i map_entry_off : Z) (mapp : Z → Z)
    (next_index remaining : Z) (bitmap : list Z) (consistent : bool) : MB (list Z * bool) :=
  match n with
  | O => mret (bitmap, consistent)
  | S n =>
      a ← get_arena ai;
      mr ← (if remaining =? 0
            then r ← ns_map 0 (u32 (a_external_nlba a - i) * 4) map_entry_off;
                 mret (r.2, 0, r.1)
            else mret (mapp, next_index, remaining) : MB ((Z → Z) * Z * Z));
      let '(mapp, next_index, remaining) := mr in
      let entry := ptr_rd32 mapp next_index in
      let entry := if map_entry_is_initial entry then i
                   else entry &&& BTT_MAP_ENTRY_LBA_MASK in
      if a_internal_nlba a <=? entry then fail EINVAL
      else
        let dup := util_isset bitmap entry in
        check_map_loop ai n (i + 1) (u64 (map_entry_off + 4)) mapp (next_index + 1)
          (u64 (remaining - 4))
          (if dup then bitmap else util_setbit bitmap entry) (consistent && negb dup)
  end.

(** The scan of the flogs: an entry beyond the bitmap is an access out of bounds. *)
Fixpoint check_flog_loop (flogs : list flog_runtime) (bitmap : list Z) (consistent : bool)
    : option (list Z * bool) :=
  match flogs with
  | [] => Some (bitmap, consistent)
  | fr :: flogs =>
      let entry := fl_old_map (fr_flog fr) &&& BTT_MAP_ENTRY_LBA_MASK in
      if len bitmap <=? entry / 8 then None
      else
        let dup := util_isset bitmap entry in
        check_flog_loop flogs (if dup then bitmap else util_setbit bitmap entry)
          (consistent && negb dup)
  end.

Fixpoint all_set (bitmap : list Z) (n : nat) (i : Z) : bool :=
  match n with
  | O => true
  | S n => negb (util_isclr bitmap i) && all_set bitmap n (i + 1)
  end.

Definition check_arena ai : MB bool :=
  a ← get_arena ai;
  Malloc;;
  r ← check_map_loop ai (Z.to_nat (a_external_nlba a)) 0 (a_mapoff a) (λ _, 0) 0 0
        (zeros (howmany (a_internal_nlba a) 8)) true;
  let '(bitmap, consistent) := r in
  nfree ← get_btt b_nfree;
  match check_flog_loop (take (Z.to_nat nfree) (a_flogs a)) bitmap consistent with
  | None => undef
  | Some (bitmap, consistent) =>
      mret (consistent && all_set bitmap (Z.to_nat (a_internal_nlba a)) 0)
  end.

Fixpoint btt_check_loop (n : nat) ai (consistent : bool) : MB bool :=
  match n with
  | O => mret consistent
  | S n => r ← check_arena ai; btt_check_loop n (ai + 1) (consistent && r)
  end.

Definition btt_check : MB bool :=
  b ← get_btt (λ b, b);
  if negb (b_laidout b) then mret true
  else btt_check_loop (Z.to_nat (b_narena b)) 0 true.
End btt.
