(* ===== verification/BttSpec.v ===== *)
(** * Block translation table: contract of the namespace, block view, invariant

    [NsSpec] is what the BTT relies on from the namespace callbacks (the
    comments of [btt.h] and of [struct ns_callback]): reads return the stored bytes,
    a write is in place and durable before the next one starts.  The BTT in
    turn promises its clients an array of blocks, each holding data, zeros or a
    read error: [btt_view].  The invariant says how the map, the flog and the run-time
    state represent that array. *)

From stdpp Require Import base gmap list numbers.
From S2P Require Import Prelude Memory Pmem Util BttLayout Btt.
Local Open Scope Z_scope.

(** ** Contract of the namespace *)

Class NsSpec {NS} (cb : ns_callback NS) : Type := {
  ns_mem : NS → mem;
  ns_size : NS → Z;
  ns_trace : NS → list (Z * list Z);
  ns_ok : NS → Prop;
  ns_size_range n : ns_ok n → 0 ≤ ns_size n < 2 ^ 64;
  ns_read_ok n lane count off :
    ns_ok n → 0 ≤ off → 0 ≤ count → off + count ≤ ns_size n →
    nsread cb n lane count off = Ok (rdn (ns_mem n) off (Z.to_nat count));
  ns_write_ok n lane bs off :
    ns_ok n → 0 ≤ off → bs ≠ [] → off + len bs ≤ ns_size n →
    ∃ n', nswrite cb n lane bs off = (Ok tt, n') ∧ ns_ok n' ∧
      ns_mem n' = wr (ns_mem n) off bs ∧ ns_size n' = ns_size n ∧
      ns_trace n' = ns_trace n ++ [(off, bs)];
  ns_map_ok n lane length off :
    ns_ok n → 0 ≤ off → 0 < length → off + length < ns_size n →
    ∃ p, nsmap cb n lane length off = Ok (length, p) ∧
      ∀ i, 0 ≤ i < length → p i = rd (ns_mem n) (off + i)
}.

(** [nszero], which only [write_layout] calls, promises less: the bytes are cleared
    in place, nothing is said of their durability. *)
Class NsZeroSpec {NS} (cb : ns_callback NS) `{!NsSpec cb} : Prop :=
  ns_zero_ok n lane count off :
    ns_ok n → 0 ≤ off → 0 ≤ count → off + count ≤ ns_size n →
    ∃ n', nszero cb n lane count off = (Ok tt, n') ∧ ns_ok n' ∧
      ns_mem n' = wr (ns_mem n) off (zeros count) ∧ ns_size n' = ns_size n.

(** ** The block view of an arena *)

Inductive block : Type :=
| BZero
| BError
| BData (bs : list Z).

Definition map_off (a : arena) (l : Z) : Z := a_mapoff a + 4 * l.
Definition flog_off (a : arena) (i : Z) : Z := a_flogoff a + 64 * i.
Definition block_off (a : arena) (k : Z) : Z := a_dataoff a + k * a_internal_lbasize a.

(** An entry never written stands for the identity mapping. *)
Definition map_entry (a : arena) (m : mem) (l : Z) : Z :=
  let e := rd32 m (map_off a l) in
  if map_entry_is_initial e then l ||| BTT_MAP_ENTRY_NORMAL else e.

(** The post-map block of a pre-map LBA. *)
Definition target (a : arena) (m : mem) (l : Z) : Z :=
  map_entry a m l &&& BTT_MAP_ENTRY_LBA_MASK.

Definition arena_view (lbasize : Z) (a : arena) (m : mem) (l : Z) : block :=
  let e := rd32 m (map_off a l) in
  if map_entry_is_error e then BError
  else if map_entry_is_zero_or_initial e then BZero
  else BData (rdn m (block_off a (e &&& BTT_MAP_ENTRY_LBA_MASK)) (Z.to_nat lbasize)).

(** The block view of the namespace. *)
Definition btt_view (b : btt) (m : mem) (lba : Z) : option block :=
  match lba_to_arena_loop (b_arenas b) 0 lba with
  | Some (ai, l) =>
      match lookupZ (b_arenas b) ai with
      | Some a => Some (arena_view (b_lbasize b) a m l)
      | None => None
      end
  | None => None
  end.

(** ** The invariant *)

(** The regions of a loaded arena, up to the end of its flog. *)
Record arena_geo (lbasize nfree : Z) (a : arena) : Prop := ArenaGeo {
  g_start : 0 ≤ a_startoff a;
  g_lba : 0 < lbasize ≤ a_internal_lbasize a;
  g_nfree : 0 < nfree;
  g_ext : 0 < a_external_nlba a;
  g_free : a_external_nlba a + nfree = a_internal_nlba a;
  g_nlba : a_internal_nlba a < 2 ^ 30;
  g_info : a_startoff a + 4096 ≤ a_dataoff a;
  g_data : block_off a (a_internal_nlba a) ≤ a_mapoff a;
  g_map : map_off a (a_external_nlba a) ≤ a_flogoff a;
  g_map_align : a_mapoff a mod 8 = 0;
  g_flog_align : a_flogoff a mod 8 = 0
}.

Definition arena_end (nfree : Z) (a : arena) : Z := flog_off a nfree.

Definition flog_at (m : mem) (off : Z) : btt_flog := btt_flog_convert2h (rdn m off 16).

(** The run-time state of flog [i] is the one the media gives. *)
Record flog_ok (a : arena) (m : mem) (i : Z) (fr : flog_runtime) : Prop := FlogOk {
  fo_entries : fr_entries fr = (flog_off a i, flog_off a i + 16);
  fo_valid : btt_flog_get_valid (flog_at m (flog_off a i)) (flog_at m (flog_off a i + 16))
             = Some (fr_flog fr, fr_next fr);
  fo_seq : 1 ≤ fl_seq (fr_flog fr) ≤ 3;
  fo_lba0 : fl_lba (flog_at m (flog_off a i)) < a_external_nlba a;
  fo_lba1 : fl_lba (flog_at m (flog_off a i + 16)) < a_external_nlba a
}.

Definition flogs_ok (nfree : Z) (a : arena) (m : mem) (frs : list flog_runtime) : Prop :=
  len frs = nfree ∧ ∀ i fr, lookupZ frs i = Some fr → flog_ok a m i fr.

Definition free_block (fr : flog_runtime) : Z :=
  fl_old_map (fr_flog fr) &&& BTT_MAP_ENTRY_LBA_MASK.

(** Every internal block has at most one owner, a map entry or a flog. *)
Record owned (a : arena) (m : mem) (frs : list flog_runtime) : Prop := Owned {
  ow_map_range : ∀ l, 0 ≤ l < a_external_nlba a → target a m l < a_internal_nlba a;
  ow_flog_range : ∀ i fr, lookupZ frs i = Some fr → free_block fr < a_internal_nlba a;
  ow_map_inj : ∀ l l', 0 ≤ l < a_external_nlba a → 0 ≤ l' < a_external_nlba a →
    target a m l = target a m l' → l = l';
  ow_flog_inj : ∀ i j fi fj, lookupZ frs i = Some fi → lookupZ frs j = Some fj →
    free_block fi = free_block fj → i = j;
  ow_disj : ∀ l i fr, 0 ≤ l < a_external_nlba a → lookupZ frs i = Some fr →
    target a m l ≠ free_block fr
}.

(** The part of the run-time state no thread is using. *)
Record arena_idle (nfree : Z) (a : arena) : Prop := ArenaIdle {
  id_rtt : a_rtt a = replicate (Z.to_nat nfree) BTT_MAP_ENTRY_ERROR;
  id_locks : a_map_locks a = replicate (Z.to_nat nfree) false;
  id_info : a_info_lock a = false
}.

Record arena_inv (lbasize nfree : Z) (m : mem) (a : arena) : Prop := ArenaInv {
  ai_geo : arena_geo lbasize nfree a;
  ai_flogs : flogs_ok nfree a m (a_flogs a);
  ai_owned : owned a m (a_flogs a);
  ai_idle : arena_idle nfree a
}.

(** What [read_arena] takes from the info block. *)
Definition arena_of (info : btt_info) (off : Z) (a : arena) : arena :=
  Arena (bi_flags info) (bi_external_nlba info) (bi_internal_lbasize info)
    (bi_internal_nlba info) off
    (u64 (off + bi_dataoff info)) (u64 (off + bi_mapoff info)) (u64 (off + bi_flogoff info))
    (u64 (off + bi_nextoff info)) (a_flogs a) (a_rtt a) (a_map_locks a) (a_info_lock a).

(** The info blocks describe the arenas, one after the other from [off] on. *)
Fixpoint layout_ok (puuid : list Z) (lbasize nfree : Z) (m : mem) (off rawsize : Z)
    (arenas : list arena) : Prop :=
  match arenas with
  | [] => False
  | a :: rest =>
      BTT_MIN_SIZE ≤ rawsize ∧ arena_geo lbasize nfree a ∧
      (∃ info, read_info puuid (rdn m off 4096) = Some info ∧
        bi_external_lbasize info = lbasize ∧ bi_nfree info = nfree ∧
        arena_of info off a = a ∧
        bi_nextoff info = match rest with [] => 0 | _ => BTT_MAX_ARENA end) ∧
      match rest with
      | [] => arena_end nfree a ≤ off + rawsize
      | _ => BTT_MAX_ARENA ≤ rawsize ∧ arena_end nfree a ≤ off + BTT_MAX_ARENA ∧
             layout_ok puuid lbasize nfree m (off + BTT_MAX_ARENA) (rawsize - BTT_MAX_ARENA) rest
      end
  end.

Definition sum_nlba (arenas : list arena) : Z :=
  foldr (λ a n, a_external_nlba a + n) 0 arenas.

(** The invariant of a namespace with a layout. *)
Record btt_inv (b : btt) (m : mem) : Prop := BttInv {
  bv_laidout : b_laidout b = true;
  bv_narena : b_narena b = len (b_arenas b);
  bv_nlba : b_nlba b = sum_nlba (b_arenas b);
  bv_nlane : 0 < b_nlane b ≤ b_nfree b;
  bv_nfree : b_nfree b ≤ BTT_DEFAULT_NFREE;
  bv_rawsize : b_rawsize b < 2 ^ 64;
  bv_layout : layout_ok (b_parent_uuid b) (b_lbasize b) (b_nfree b) m 0 (b_rawsize b) (b_arenas b);
  bv_arenas : Forall (arena_inv (b_lbasize b) (b_nfree b) m) (b_arenas b)
}.
