(* ===== verification/BttRun.v ===== *)
(** * Block translation table: what the operations do on a namespace with a layout

    The operations are evaluated on states of the form [mk s ai a n]: state [s] in which
    arena [ai] is [a] and the namespace is [n].  From these equations follow
    the refinement theorems: reads return the block view, writes update it,
    and the invariant is kept. *)

From stdpp Require Import base gmap list numbers.
From S2P Require Import Prelude Memory Pmem Util BttLayout Btt BttSpec.
Local Open Scope Z_scope.

(** ** Map entries *)

Lemma rd32_is_u32 m off : 0 ≤ rd32 m off < 2 ^ 32.
Proof. apply rd32_range. Qed.

Lemma mask_range e : 0 ≤ e &&& BTT_MAP_ENTRY_LBA_MASK < 2 ^ 30.
Proof. rewrite map_entry_lba_eq. apply Z.mod_pos_bound. lia. Qed.

Lemma entry_split e : 0 ≤ e < 2 ^ 32 →
  ∃ a k, 0 ≤ a < 2 ^ 30 ∧ 0 ≤ k < 4 ∧ e = a + k * 2 ^ 30.
Proof.
  intros He. exists (e mod 2 ^ 30), (e / 2 ^ 30).
  pose proof (Z.mod_pos_bound e (2 ^ 30) ltac:(lia)).
  pose proof (Z.div_mod e (2 ^ 30) ltac:(lia)).
  assert (0 ≤ e / 2 ^ 30) by (apply Z.div_pos; lia). lia.
Qed.

(** ** Canonical states *)

Definition mk {NS} (s : st NS) (ai : Z) (a : arena) (n : NS) : st NS :=
  St (b_set_arenas (updZ (b_arenas (s_btt s)) ai a) (s_btt s)) n (s_malloc s) (s_uuid s).

Lemma mk_id {NS} (s : st NS) ai a :
  lookupZ (b_arenas (s_btt s)) ai = Some a → s = mk s ai a (s_ns s).
Proof. intros H. unfold mk. rewrite (updZ_id _ _ _ H). by destruct s as [[]]. Qed.

Section canonical.
Context {NS : Type} (cb : ns_callback NS).
Context (s : st NS) (ai : Z) (Hai : 0 ≤ ai < len (b_arenas (s_btt s))).
Implicit Types (a : arena) (n : NS).

Lemma lookup_mk a n : lookupZ (b_arenas (s_btt (mk s ai a n))) ai = Some a.
Proof using Hai. simpl. by apply lookupZ_updZ_eq. Qed.

Lemma get_arena_mk a n : get_arena ai (mk s ai a n) = (Ok a, mk s ai a n).
Proof using Hai. unfold get_arena. by rewrite lookup_mk. Qed.

Lemma mod_arena_mk f a n : mod_arena ai f (mk s ai a n) = (Ok tt, mk s ai (f a) n).
Proof using Hai.
  unfold mod_arena. erewrite bind_ok by apply get_arena_mk.
  unfold mod_btt, modify, mk. simpl. by rewrite updZ_updZ.
Qed.

Lemma get_flog_mk a n i fr :
  lookupZ (a_flogs a) i = Some fr → get_flog ai i (mk s ai a n) = (Ok fr, mk s ai a n).
Proof using Hai.
  intros H. unfold get_flog. erewrite bind_ok by apply get_arena_mk. by rewrite H.
Qed.

Lemma set_flog_mk a n i fr : 0 ≤ i < len (a_flogs a) →
  set_flog ai i fr (mk s ai a n) = (Ok tt, mk s ai (a_set_flogs (updZ (a_flogs a) i fr) a) n).
Proof using Hai.
  intros [f Hf]%lookupZ_is_Some. unfold set_flog.
  erewrite bind_ok by (by apply get_flog_mk). by rewrite mod_arena_mk.
Qed.

Lemma set_rtt_mk a n lane e : 0 ≤ lane < len (a_rtt a) →
  set_rtt ai lane e (mk s ai a n) = (Ok tt, mk s ai (a_set_rtt (updZ (a_rtt a) lane e) a) n).
Proof using Hai.
  intros [f Hf]%lookupZ_is_Some. unfold set_rtt.
  erewrite bind_ok by apply get_arena_mk. rewrite Hf. by rewrite mod_arena_mk.
Qed.

Lemma map_mutex_lock_mk a n num : lookupZ (a_map_locks a) num = Some false →
  map_mutex_lock ai num (mk s ai a n) =
  (Ok tt, mk s ai (a_set_map_locks (updZ (a_map_locks a) num true) a) n).
Proof using Hai.
  intros H. unfold map_mutex_lock. erewrite bind_ok by apply get_arena_mk.
  rewrite H. by rewrite mod_arena_mk.
Qed.

Lemma map_mutex_unlock_mk a n num : lookupZ (a_map_locks a) num = Some true →
  map_mutex_unlock ai num (mk s ai a n) =
  (Ok tt, mk s ai (a_set_map_locks (updZ (a_map_locks a) num false) a) n).
Proof using Hai.
  intros H. unfold map_mutex_unlock. erewrite bind_ok by apply get_arena_mk.
  rewrite H. by rewrite mod_arena_mk.
Qed.
End canonical.

(** ** External LBAs and arenas *)

Lemma sum_nlba_cons a arenas : sum_nlba (a :: arenas) = a_external_nlba a + sum_nlba arenas.
Proof. done. Qed.

Lemma sum_nlba_nonneg arenas :
  Forall (λ a, 0 ≤ a_external_nlba a) arenas → 0 ≤ sum_nlba arenas.
Proof. induction 1; rewrite ?sum_nlba_cons; [done|lia]. Qed.

Lemma lba_to_arena_total arenas : ∀ i lba,
  0 ≤ lba < sum_nlba arenas → is_Some (lba_to_arena_loop arenas i lba).
Proof.
  induction arenas as [|a arenas IH]; intros i lba Hl; [change (sum_nlba []) with 0 in Hl; lia|].
  rewrite sum_nlba_cons in Hl. simpl. destruct (Z.ltb_spec lba (a_external_nlba a)); [eauto|]. apply IH. lia.
Qed.

Lemma lba_to_arena_spec arenas : ∀ i lba j l,
  0 ≤ lba → lba_to_arena_loop arenas i lba = Some (j, l) →
  i ≤ j ∧ 0 ≤ l ∧ lba = sum_nlba (take (Z.to_nat (j - i)) arenas) + l ∧
  ∃ a, lookupZ arenas (j - i) = Some a ∧ l < a_external_nlba a.
Proof.
  induction arenas as [|a arenas IH]; intros i lba j l Hl H; simpl in *; [done|].
  destruct (Z.ltb_spec lba (a_external_nlba a)).
  - simplify_eq. rewrite Z.sub_diag.
    split_and!; [lia|lia|by rewrite take_0|]. eauto.
  - apply IH in H as (H1 & H2 & H3 & a' & H4 & H5); [|lia].
    pose proof (lookupZ_Some _ _ _ H4) as Hr.
    replace (Z.to_nat (j - i)) with (S (Z.to_nat (j - (i + 1)))) by lia.
    rewrite firstn_cons, sum_nlba_cons. split_and!; [lia..|]. exists a'. split; [|done].
    rewrite lookupZ_cons_ne by lia. by replace (j - i - 1) with (j - (i + 1)) by lia.
Qed.

Lemma lba_to_arena_ext arenas arenas' : ∀ i lba,
  a_external_nlba <$> arenas = a_external_nlba <$> arenas' →
  lba_to_arena_loop arenas i lba = lba_to_arena_loop arenas' i lba.
Proof.
  revert arenas'. induction arenas as [|a arenas IH]; intros [|a' arenas'] i lba H; try done.
  simpl in *. injection H as H1 H2. rewrite H1. case_match; [done|]. by apply IH.
Qed.

(** ** Geometry of an arena *)

Section geometry.
Context {lbasize nfree : Z} {a : arena} (G : arena_geo lbasize nfree a).

Lemma geo_map l : 0 ≤ l < a_external_nlba a →
  block_off a (a_internal_nlba a) ≤ map_off a l ∧ map_off a l + 4 ≤ a_flogoff a.
Proof using G. intros. destruct G. unfold map_off in *. lia. Qed.

Lemma geo_flog i : 0 ≤ i < nfree →
  a_flogoff a ≤ flog_off a i ∧ flog_off a i + 64 ≤ arena_end nfree a.
Proof using G. intros. unfold arena_end, flog_off. lia. Qed.

Lemma geo_block k : 0 ≤ k < a_internal_nlba a →
  a_startoff a + 4096 ≤ block_off a k ∧
  block_off a k + a_internal_lbasize a ≤ a_mapoff a ∧
  block_off a k + lbasize ≤ a_mapoff a.
Proof using G. intros. destruct G. unfold block_off in *. nia. Qed.

Lemma geo_block_disj k k' : k ≠ k' →
  block_off a k + lbasize ≤ block_off a k' ∨ block_off a k' + lbasize ≤ block_off a k.
Proof using G. intros. destruct G. unfold block_off. nia. Qed.

Lemma geo_mapoff : a_startoff a + 4096 ≤ a_mapoff a ∧ 0 ≤ a_mapoff a ≤ a_flogoff a ∧
  a_flogoff a + 64 ≤ arena_end nfree a.
Proof using G.
  destruct G. unfold block_off, map_off, arena_end, flog_off in *. nia.
Qed.

Lemma map_entry_off_eq l : arena_end nfree a < 2 ^ 64 → 0 ≤ l < a_external_nlba a →
  u64 (a_mapoff a + u32 (BTT_MAP_ENTRY_SIZE * l)) = map_off a l.
Proof using G.
  intros He Hl. pose proof geo_mapoff. pose proof (geo_map l Hl).
  destruct G. unfold map_off, BTT_MAP_ENTRY_SIZE in *.
  rewrite u32_id by lia. apply u64_id. lia.
Qed.

Lemma block_off_eq e : arena_end nfree a < 2 ^ 64 →
  e &&& BTT_MAP_ENTRY_LBA_MASK < a_internal_nlba a →
  u64 (a_dataoff a + u64 ((e &&& BTT_MAP_ENTRY_LBA_MASK) * a_internal_lbasize a)) =
  block_off a (e &&& BTT_MAP_ENTRY_LBA_MASK).
Proof using G.
  intros He Hl. pose proof (mask_range e). pose proof geo_mapoff.
  pose proof (geo_block (e &&& BTT_MAP_ENTRY_LBA_MASK) ltac:(lia)).
  destruct G. unfold block_off in *.
  rewrite (u64_id (_ * _)) by nia. apply u64_id. nia.
Qed.
End geometry.

(** ** The map *)

Lemma target_range a m l : 0 ≤ target a m l < 2 ^ 30.
Proof. apply mask_range. Qed.

Lemma free_block_range fr : 0 ≤ free_block fr < 2 ^ 30.
Proof. apply mask_range. Qed.

(** The block of an entry that is not in its initial state. *)
Lemma target_entry a m l : map_entry_is_initial (rd32 m (map_off a l)) = false →
  target a m l = rd32 m (map_off a l) &&& BTT_MAP_ENTRY_LBA_MASK.
Proof. intros H. unfold target, map_entry. by rewrite H. Qed.

Lemma not_initial e : map_entry_is_zero_or_initial e = false → map_entry_is_initial e = false.
Proof. by intros [? _]%orb_false_iff. Qed.

Lemma target_ext a m m' l :
  eq_on m m' (map_off a l) (map_off a l + 4) → target a m l = target a m' l.
Proof. intros H. unfold target, map_entry. by rewrite (rd32_ext _ _ _ H). Qed.

Lemma arena_view_ext lbasize nfree a m m' l :
  arena_geo lbasize nfree a →
  eq_on m m' (map_off a l) (map_off a l + 4) →
  eq_on m m' (block_off a (target a m l)) (block_off a (target a m l) + lbasize) →
  arena_view lbasize a m l = arena_view lbasize a m' l.
Proof.
  intros G Hm Hd. unfold arena_view. rewrite <- (rd32_ext _ _ _ Hm).
  destruct (map_entry_is_error _); [done|].
  destruct (map_entry_is_zero_or_initial _) eqn:Ez; [done|]. f_equal.
  rewrite (target_entry _ _ _ (not_initial _ Ez)) in Hd. apply rdn_ext.
  destruct G. intros x Hx. apply Hd. lia.
Qed.

(** ** Where the arenas are *)

Lemma layout_range puuid lbasize nfree m arenas : ∀ off rawsize i a,
  0 ≤ off → layout_ok puuid lbasize nfree m off rawsize arenas → lookupZ arenas i = Some a →
  arena_geo lbasize nfree a ∧ off ≤ a_startoff a ∧ arena_end nfree a ≤ off + rawsize.
Proof.
  induction arenas as [|a0 arenas IH]; intros off rawsize i a Ho H Hl; [done|].
  destruct H as (Hr & G & (info & _ & _ & _ & Hof & _) & Hrest).
  assert (a_startoff a0 = off) as Hs by (rewrite <- Hof; done).
  pose proof (lookupZ_Some _ _ _ Hl) as Hi. simpl in Hi.
  destruct (decide (i = 0)) as [->|].
  - cbv in Hl. simplify_eq. split_and!; [done|lia|].
    destruct arenas; [done|]. lia.
  - assert (lookupZ arenas (i - 1) = Some a) as Hl'.
    { by rewrite lookupZ_cons_ne in Hl by lia. }
    destruct arenas as [|a1 arenas]; [by rewrite lookupZ_nil in Hl'|].
    destruct Hrest as (H1 & H2 & H3). unfold BTT_MAX_ARENA in *.
    eapply IH in H3 as (H4 & H5 & H6); [|lia|done]. split; [done|]. lia.
Qed.

Lemma layout_disj puuid lbasize nfree m arenas : ∀ off rawsize i j a a',
  0 ≤ off → layout_ok puuid lbasize nfree m off rawsize arenas →
  lookupZ arenas i = Some a → lookupZ arenas j = Some a' → i < j →
  arena_end nfree a ≤ a_startoff a'.
Proof.
  induction arenas as [|a0 arenas IH]; intros off rawsize i j a a' Ho H Hi Hj Hlt; [done|].
  pose proof (lookupZ_Some _ _ _ Hi) as Hir. destruct H as (_ & _ & _ & Hrest).
  rewrite lookupZ_cons_ne in Hj by lia.
  destruct arenas as [|a1 arenas]; [by rewrite lookupZ_nil in Hj|]. destruct Hrest as (H1 & H2 & H3).
  destruct (decide (i = 0)) as [->|].
  - cbv in Hi. simplify_eq.
    assert (0 ≤ off + BTT_MAX_ARENA) as Hp by (unfold BTT_MAX_ARENA; lia).
    destruct (layout_range _ _ _ _ _ _ _ _ _ Hp H3 Hj) as (_ & H4 & _). lia.
  - rewrite lookupZ_cons_ne in Hi by lia.
    eapply (IH _ _ (i - 1) (j - 1)); [|exact H3|done|done|lia]. unfold BTT_MAX_ARENA; lia.
Qed.

(** The info blocks are outside the part of the arenas the operations write to. *)
Lemma layout_ext puuid lbasize nfree m m' arenas : ∀ off rawsize,
  (∀ i a, lookupZ arenas i = Some a → eq_on m m' (a_startoff a) (a_startoff a + 4096)) →
  layout_ok puuid lbasize nfree m off rawsize arenas →
  layout_ok puuid lbasize nfree m' off rawsize arenas.
Proof.
  induction arenas as [|a arenas IH]; intros off rawsize He H; [done|].
  destruct H as (Hr & G & (info & Hi & Hx & Hf & Hof & Hn) & Hrest).
  split; [done|]. split; [done|]. split.
  - exists info. split_and!; try done. rewrite <- Hi. f_equal.
    assert (a_startoff a = off) as <- by (rewrite <- Hof; done).
    symmetry. apply rdn_ext. by apply (He 0 a).
  - destruct arenas as [|a1 arenas]; [done|]. destruct Hrest as (H1 & H2 & H3).
    split_and!; [done..|]. apply IH; [|done].
    intros i a' Hi'. apply (He (i + 1)). pose proof (lookupZ_Some _ _ _ Hi').
    rewrite lookupZ_cons_ne by lia. by replace (i + 1 - 1) with i by lia.
Qed.

(** Only the fixed fields of the arenas matter to the layout. *)
Definition a_static (a : arena) : arena :=
  Arena (a_flags a) (a_external_nlba a) (a_internal_lbasize a) (a_internal_nlba a) (a_startoff a)
    (a_dataoff a) (a_mapoff a) (a_flogoff a) (a_nextoff a) [] [] [] false.

Lemma geo_static lbasize nfree a a' :
  a_static a = a_static a' → arena_geo lbasize nfree a → arena_geo lbasize nfree a'.
Proof.
  destruct a, a'. unfold a_static. simpl. intros [=]. subst.
  intros []. by split.
Qed.

Lemma layout_static puuid lbasize nfree m arenas : ∀ arenas' off rawsize,
  a_static <$> arenas = a_static <$> arenas' →
  layout_ok puuid lbasize nfree m off rawsize arenas →
  layout_ok puuid lbasize nfree m off rawsize arenas'.
Proof.
  induction arenas as [|a arenas IH]; intros [|a' arenas'] off rawsize He H; try done.
  rewrite !fmap_cons in He. apply (inj2 cons) in He as [Hs Hrest].
  destruct H as (Hr & G & (info & Hi & Hx & Hf & Hof & Hn) & Hl).
  split; [done|]. split; [by eapply geo_static|]. split.
  - exists info. split_and!; try done.
    + rewrite <- Hof in Hs. destruct a'. unfold arena_of, a_static in *. simpl in *.
      injection Hs as <- <- <- <- <- <- <- <- <-. done.
    + rewrite Hn. destruct arenas, arenas'; done.
  - assert (arena_end nfree a' = arena_end nfree a) as ->.
    { change (arena_end nfree (a_static a') = arena_end nfree (a_static a)). by rewrite Hs. }
    destruct arenas as [|a1 arenas], arenas' as [|a1' arenas']; try done.
    destruct Hl as (H1 & H2 & H3). split_and!; [done..|]. by apply IH.
Qed.

(** ** Operations on a namespace with a layout *)

Section run.
Context {NS : Type} (cb : ns_callback NS) `{!NsSpec cb}.
Implicit Types (s : st NS) (n : NS).

(** The handle and the namespace are in a consistent, idle state. *)
Record btt_ready s : Prop := BttReady {
  br_inv : btt_inv (s_btt s) (ns_mem (s_ns s));
  br_ok : ns_ok (s_ns s);
  br_size : b_rawsize (s_btt s) ≤ ns_size (s_ns s)
}.

(** Where an external LBA lives. *)
Record located s (lba ai l : Z) (a : arena) : Prop := Located {
  lo_run : lba_to_arena_lba lba s = (Ok (ai, l), s);
  lo_loop : lba_to_arena_loop (b_arenas (s_btt s)) 0 lba = Some (ai, l);
  lo_lookup : lookupZ (b_arenas (s_btt s)) ai = Some a;
  lo_l : 0 ≤ l < a_external_nlba a;
  lo_inv : arena_inv (b_lbasize (s_btt s)) (b_nfree (s_btt s)) (ns_mem (s_ns s)) a;
  lo_end : arena_end (b_nfree (s_btt s)) a ≤ ns_size (s_ns s);
  lo_view : btt_view (s_btt s) (ns_mem (s_ns s)) lba =
            Some (arena_view (b_lbasize (s_btt s)) a (ns_mem (s_ns s)) l);
  lo_valid : invalid_lba lba s = (Ok tt, s)
}.

Lemma invalid_lba_run s lba : invalid_lba lba s =
  ((if b_nlba (s_btt s) <=? lba then Fail EINVAL else Ok tt), s).
Proof. unfold invalid_lba, get_btt, gets, mbind, M_bind. simpl. by case_match. Qed.

Lemma arena_of_lookup s ai a : btt_ready s → lookupZ (b_arenas (s_btt s)) ai = Some a →
  arena_inv (b_lbasize (s_btt s)) (b_nfree (s_btt s)) (ns_mem (s_ns s)) a ∧
  arena_end (b_nfree (s_btt s)) a ≤ ns_size (s_ns s).
Proof.
  intros [Hi _ Hs] Hl. split; [by eapply lookupZ_Forall, Hl; apply Hi|].
  destruct (layout_range _ _ _ _ _ _ _ _ _ (Z.le_refl 0) (bv_layout _ _ Hi) Hl) as (_ & _ & ?).
  lia.
Qed.

Lemma locate s lba : btt_ready s → 0 ≤ lba < b_nlba (s_btt s) →
  ∃ ai l a, located s lba ai l a.
Proof.
  intros HR Hl. pose proof HR as [Hi _ _].
  rewrite (bv_nlba _ _ Hi) in Hl.
  destruct (lba_to_arena_total (b_arenas (s_btt s)) 0 lba Hl) as [[ai l] E].
  destruct (lba_to_arena_spec _ _ _ _ _ (proj1 Hl) E) as (_ & Hl0 & _ & a & Ha & Hlt).
  rewrite Z.sub_0_r in Ha. exists ai, l, a.
  destruct (arena_of_lookup s ai a HR Ha) as (Hinv & Hend).
  assert (l < 2 ^ 30) by (destruct (ai_geo _ _ _ _ Hinv); lia).
  split; try done.
  - unfold lba_to_arena_lba, get_btt, gets, mbind, M_bind. simpl.
    rewrite (bv_narena _ _ Hi), Nat2Z.id, firstn_all, E. simpl. by rewrite u32_id by lia.
  - unfold btt_view. by rewrite E, Ha.
  - rewrite invalid_lba_run, (bv_nlba _ _ Hi). by rewrite (proj2 (Z.leb_gt _ _)) by lia.
Qed.

Lemma view_out s lba : btt_ready s → b_nlba (s_btt s) ≤ lba →
  btt_view (s_btt s) (ns_mem (s_ns s)) lba = None.
Proof.
  intros [Hi _ _] Hl. unfold btt_view.
  destruct (lba_to_arena_loop _ _ _) as [[j l]|] eqn:E; [|done]. exfalso.
  assert (Forall (λ a, 0 ≤ a_external_nlba a) (b_arenas (s_btt s))) as Hpos.
  { eapply Forall_impl; [|exact (bv_arenas _ _ Hi)]. intros a [[] _ _ _]. lia. }
  rewrite (bv_nlba _ _ Hi) in Hl. pose proof (sum_nlba_nonneg _ Hpos).
  apply lba_to_arena_spec in E as (_ & H1 & H2 & a & Ha & H3); [|lia].
  rewrite Z.sub_0_r in *.
  assert (sum_nlba (take (Z.to_nat j) (b_arenas (s_btt s))) + a_external_nlba a
          ≤ sum_nlba (b_arenas (s_btt s))); [|lia].
  unfold lookupZ in Ha. case_decide; [|done]. clear -Ha Hpos.
  revert Ha. generalize (Z.to_nat j). induction Hpos as [|x arenas Hx Hpos IH]; intros k Ha; [done|].
  rewrite sum_nlba_cons. destruct k as [|k]; simpl in Ha.
  - simplify_eq. pose proof (sum_nlba_nonneg _ Hpos). change (sum_nlba (take 0 _)) with 0. lia.
  - rewrite firstn_cons, sum_nlba_cons. apply IH in Ha. lia.
Qed.

(** A read of a map entry. *)
Lemma map_read lbasize nfree a m n s lane l : arena_geo lbasize nfree a →
  s_ns s = n → ns_ok n → ns_mem n = m → arena_end nfree a ≤ ns_size n →
  0 ≤ l < a_external_nlba a →
  ns_read cb lane 4 (u64 (a_mapoff a + u32 (BTT_MAP_ENTRY_SIZE * l))) s =
  (Ok (rdn m (map_off a l) 4), s).
Proof.
  intros G Hn Hok Hm He Hl. pose proof (ns_size_range n Hok).
  pose proof (geo_map G l Hl). pose proof (geo_mapoff G).
  unfold ns_read. rewrite (map_entry_off_eq G) by lia.
  rewrite Hn, ns_read_ok; [by rewrite Hm|done| |lia|].
  - unfold map_off. lia.
  - destruct G. unfold map_off in *. lia.
Qed.

Lemma lane_in_rtt nfree a lane : arena_idle nfree a → 0 ≤ lane < nfree →
  0 ≤ lane < len (a_rtt a).
Proof. intros [-> _ _] H. rewrite length_replicate. lia. Qed.

Lemma zero_block_run s : zero_block s = (Ok (zeros (b_lbasize (s_btt s))), s).
Proof. done. Qed.

(** The retry loop ends in its first round: nobody else changes the map. *)
Lemma btt_read_loop_run s lane ai l a :
  btt_ready s → lookupZ (b_arenas (s_btt s)) ai = Some a → 0 ≤ l < a_external_nlba a →
  0 ≤ lane < b_nfree (s_btt s) →
  let e := rd32 (ns_mem (s_ns s)) (map_off a l) in
  btt_read_loop cb lane ai (u64 (a_mapoff a + u32 (BTT_MAP_ENTRY_SIZE * l))) 1 e s =
  if map_entry_is_error e then (Fail EIO, s)
  else if map_entry_is_zero_or_initial e then (Ok (inl tt), s)
  else (Ok (inr e), mk s ai (a_set_rtt (updZ (a_rtt a) lane e) a) (s_ns s)).
Proof.
  intros HR Ha Hl Hlane e. simpl.
  destruct (map_entry_is_error e); [done|].
  destruct (map_entry_is_zero_or_initial e); [done|].
  destruct (arena_of_lookup s ai a HR Ha) as ([G Hf Ho Hid] & Hend).
  pose proof (lookupZ_Some _ _ _ Ha) as Hai.
  rewrite (mk_id s ai a Ha) at 1.
  erewrite bind_ok by (apply set_rtt_mk; [done|by eapply lane_in_rtt]).
  erewrite bind_ok.
  2: { apply on_fail_ok. eapply (map_read _ _ a); [exact G|done|apply HR|done|done|done]. }
  fold (rd32 (ns_mem (s_ns s)) (map_off a l)). fold e. by rewrite Z.eqb_refl.
Qed.

(** Publishing an entry in the read tracking table and clearing it again. *)
Lemma rtt_restore nfree a lane e : arena_idle nfree a → 0 ≤ lane < nfree →
  let a' := a_set_rtt (updZ (a_rtt a) lane e) a in
  a_set_rtt (updZ (a_rtt a') lane BTT_MAP_ENTRY_ERROR) a' = a.
Proof.
  intros [Hr _ _] Hl. destruct a. unfold a_set_rtt in *. simpl in *. rewrite updZ_updZ.
  rewrite updZ_id; [done|]. rewrite Hr. by apply lookupZ_replicate.
Qed.

(** On every external LBA [btt_read] returns what the block view holds
    there: the data, a block of zeros, or [EIO] for a block in error; beyond the last LBA it
    fails with [EINVAL].  The read tracking table is left as it was. *)
Lemma read_view s lane lba :
  btt_ready s → 0 ≤ lane < b_nlane (s_btt s) → 0 ≤ lba →
  btt_read cb lane lba s =
    (match btt_view (s_btt s) (ns_mem (s_ns s)) lba with
     | None => Fail EINVAL
     | Some BError => Fail EIO
     | Some BZero => Ok (zeros (b_lbasize (s_btt s)))
     | Some (BData d) => Ok d
     end, s).
Proof.
  intros HR Hlane Hlba. destruct (decide (b_nlba (s_btt s) ≤ lba)) as [Hge|Hlt].
  { rewrite view_out by done. unfold btt_read.
    erewrite bind_fail; [done|]. rewrite invalid_lba_run. by rewrite (proj2 (Z.leb_le _ _)). }
  destruct (locate s lba HR ltac:(lia)) as (ai & l & a & L). rewrite (lo_view _ _ _ _ _ L).
  destruct (lo_inv _ _ _ _ _ L) as [G Hf Ho Hid]. pose proof (br_inv _ HR) as Hi.
  pose proof (bv_nlane _ _ Hi) as Hnl.
  unfold btt_read. erewrite bind_ok by apply L. unfold get_btt at 1.
  erewrite bind_ok by reflexivity. simpl. rewrite (bv_laidout _ _ Hi). simpl.
  erewrite bind_ok by apply L. simpl. erewrite bind_ok.
  2: { unfold get_arena. by rewrite (lo_lookup _ _ _ _ _ L). }
  erewrite bind_ok by (eapply (map_read _ _ a); [exact G|done|apply HR|done|apply L|apply L]).
  fold (rd32 (ns_mem (s_ns s)) (map_off a l)).
  pose proof (btt_read_loop_run s lane ai l a HR (lo_lookup _ _ _ _ _ L) (lo_l _ _ _ _ _ L)
    ltac:(lia)) as Hloop. simpl in Hloop.
  unfold arena_view. destruct (map_entry_is_error _); [by erewrite bind_fail by exact Hloop|].
  destruct (map_entry_is_zero_or_initial _) eqn:Ez; [by erewrite bind_ok by exact Hloop|].
  erewrite bind_ok by exact Hloop. clear Hloop. cbv beta iota zeta.
  pose proof (ow_map_range _ _ _ Ho l (lo_l _ _ _ _ _ L)) as Htr.
  rewrite (target_entry _ _ _ (not_initial _ Ez)) in Htr.
  set (e := rd32 (ns_mem (s_ns s)) (map_off a l)) in *.
  pose proof (ns_size_range _ (br_ok _ HR)). pose proof (lo_end _ _ _ _ _ L).
  rewrite (block_off_eq G) by (done || lia).
  pose proof (geo_block G _ (conj (proj1 (mask_range e)) Htr)).
  pose proof (geo_mapoff G). pose proof (lookupZ_Some _ _ _ (lo_lookup _ _ _ _ _ L)) as Hai.
  erewrite bind_ok by reflexivity. erewrite bind_ok.
  2: { apply on_fail_ok. unfold ns_read. simpl.
       rewrite ns_read_ok; [done|apply HR| | |]; destruct G; lia. }
  erewrite bind_ok.
  2: { apply set_rtt_mk; [done|]. simpl. rewrite length_updZ. eapply lane_in_rtt; [done|lia]. }
  unfold mret, M_ret. f_equal. rewrite (rtt_restore (b_nfree (s_btt s))) by (done || lia).
  symmetry. apply mk_id, L.
Qed.

(** *** The writes of [btt_write] *)

Definition free_entry (fr : flog_runtime) : Z := free_block fr ||| BTT_MAP_ENTRY_NORMAL.

Definition new_flog (a : arena) (m : mem) (l : Z) (fr : flog_runtime) : btt_flog :=
  BttFlog l (map_entry a m l) (free_entry fr) (NSEQ (fl_seq (fr_flog fr))).

Definition next_slot (fr : flog_runtime) : Z :=
  if fr_next fr =? 0 then (fr_entries fr).1 else (fr_entries fr).2.

Definition write_ws (a : arena) (m : mem) (l : Z) (fr : flog_runtime) (buf : list Z)
    : list (Z * list Z) :=
  [ (block_off a (free_block fr), buf);
    (next_slot fr, le_bytes 4 l ++ le_bytes 4 (map_entry a m l));
    (next_slot fr + 8, le_bytes 4 (free_entry fr) ++ le_bytes 4 (NSEQ (fl_seq (fr_flog fr))));
    (map_off a l, le_bytes 4 (free_entry fr)) ].

Definition new_runtime (a : arena) (m : mem) (l : Z) (fr : flog_runtime) : flog_runtime :=
  FlogRuntime (new_flog a m l fr) (fr_entries fr) (1 - fr_next fr).

Definition write_arena (a : arena) (m : mem) (lane l : Z) (fr : flog_runtime) : arena :=
  a_set_flogs (updZ (a_flogs a) lane (new_runtime a m l fr)) a.

Lemma ns_write_mk s ai a n lane bs off :
  ns_ok n → 0 ≤ off → bs ≠ [] → off + len bs ≤ ns_size n →
  ∃ n', ns_write cb lane bs off (mk s ai a n) = (Ok tt, mk s ai a n') ∧ ns_ok n' ∧
    ns_mem n' = wr (ns_mem n) off bs ∧ ns_size n' = ns_size n ∧
    ns_trace n' = ns_trace n ++ [(off, bs)].
Proof.
  intros H1 H2 H3 H4. destruct (ns_write_ok n lane bs off H1 H2 H3 H4) as (n' & E & ?).
  exists n'. split; [|done]. unfold ns_write. simpl. by rewrite E.
Qed.

Lemma lock_num_range l nfree : 0 < nfree → 0 ≤ get_map_lock_num l nfree < nfree.
Proof. intros. apply Z.mod_pos_bound. lia. Qed.

Lemma map_entry_range a m l : 0 ≤ l < 2 ^ 30 → 0 ≤ map_entry a m l < 2 ^ 32.
Proof.
  intros. unfold map_entry. case_match; [|apply rd32_range]. rewrite lor_normal by lia. lia.
Qed.

Lemma free_entry_eq fr : free_entry fr = free_block fr + 3 * 2 ^ 30.
Proof. apply lor_normal, free_block_range. Qed.

Lemma free_entry_lba fr : free_entry fr &&& BTT_MAP_ENTRY_LBA_MASK = free_block fr.
Proof. rewrite free_entry_eq. apply entry_lba, free_block_range. Qed.

(** The lock of a map entry taken and the arena otherwise unchanged. *)
Definition a_locked (l nfree : Z) (a : arena) : arena :=
  a_set_map_locks (updZ (a_map_locks a) (get_map_lock_num l nfree) true) a.

Lemma map_lock_run s ai a n lane l :
  let nfree := b_nfree (s_btt s) in
  arena_geo (b_lbasize (s_btt s)) nfree a → arena_idle nfree a →
  0 ≤ ai < len (b_arenas (s_btt s)) → ns_ok n → arena_end nfree a ≤ ns_size n →
  0 ≤ l < a_external_nlba a →
  map_lock cb lane ai l (mk s ai a n) =
  (Ok (map_entry a (ns_mem n) l), mk s ai (a_locked l nfree a) n).
Proof.
  intros nfree G [_ Hk _] Hai Hok He Hl. unfold map_lock.
  erewrite bind_ok by reflexivity. simpl. erewrite bind_ok by (by apply get_arena_mk).
  cbv zeta. erewrite bind_ok.
  2: { apply map_mutex_lock_mk; [done|]. rewrite Hk. apply lookupZ_replicate, lock_num_range.
       apply G. }
  erewrite bind_ok.
  2: { apply on_fail_ok. eapply (map_read _ _ a); [exact G|done..]. }
  done.
Qed.

Lemma map_unlock_run s ai a n lane l e :
  let nfree := b_nfree (s_btt s) in
  arena_geo (b_lbasize (s_btt s)) nfree a → arena_idle nfree a →
  0 ≤ ai < len (b_arenas (s_btt s)) → ns_ok n → arena_end nfree a ≤ ns_size n →
  0 ≤ l < a_external_nlba a →
  ∃ n', map_unlock cb lane ai e l (mk s ai (a_locked l nfree a) n) = (Ok tt, mk s ai a n') ∧
    ns_ok n' ∧ ns_mem n' = wr (ns_mem n) (map_off a l) (le_bytes 4 e) ∧
    ns_size n' = ns_size n ∧ ns_trace n' = ns_trace n ++ [(map_off a l, le_bytes 4 e)].
Proof.
  intros nfree G [_ Hk _] Hai Hok He Hl. pose proof (ns_size_range n Hok).
  pose proof (geo_map G l Hl). pose proof (geo_mapoff G).
  destruct (ns_write_mk s ai (a_locked l nfree a) n lane (le_bytes 4 e) (map_off a l))
    as (n' & E & Hn); [done|unfold map_off; lia|done|rewrite length_le_bytes; lia|].
  exists n'. split; [|done]. unfold map_unlock.
  erewrite bind_ok by reflexivity. simpl. erewrite bind_ok by (by apply get_arena_mk).
  cbv zeta. change (a_mapoff (a_locked l nfree a)) with (a_mapoff a).
  rewrite (map_entry_off_eq G) by (done || lia).
  pose proof (lock_num_range l nfree (g_nfree _ _ _ G)) as Hln.
  assert (len (a_map_locks a) = nfree) as Hlen by (rewrite Hk, length_replicate; destruct G; lia).
  erewrite bind_ok by (by apply on_fail_ok).
  rewrite map_mutex_unlock_mk; [|done|by apply lookupZ_updZ_eq; rewrite Hlen].
  do 2 f_equal. destruct a. unfold a_locked, a_set_map_locks. simpl in *. rewrite updZ_updZ.
  rewrite updZ_id; [done|]. rewrite Hk. by apply lookupZ_replicate.
Qed.

Lemma map_abort_run s ai a n lane l :
  let nfree := b_nfree (s_btt s) in
  0 < nfree → arena_idle nfree a → 0 ≤ ai < len (b_arenas (s_btt s)) →
  map_abort lane ai l (mk s ai (a_locked l nfree a) n) = (Ok tt, mk s ai a n).
Proof.
  intros nfree Hnf [_ Hk _] Hai. unfold map_abort. erewrite bind_ok by reflexivity. simpl.
  pose proof (lock_num_range l nfree Hnf) as Hln.
  rewrite map_mutex_unlock_mk; [|done|].
  - do 2 f_equal. destruct a. unfold a_locked, a_set_map_locks. simpl in *. rewrite updZ_updZ.
    rewrite updZ_id; [done|]. rewrite Hk. by apply lookupZ_replicate.
  - apply lookupZ_updZ_eq. rewrite Hk, length_replicate. fold nfree. lia.
Qed.

Lemma flog_slot lbasize nfree a m lane fr : arena_geo lbasize nfree a → flog_ok a m lane fr →
  0 ≤ lane < nfree →
  (fr_next fr = 0 ∧ next_slot fr = flog_off a lane ∨
   fr_next fr = 1 ∧ next_slot fr = flog_off a lane + 16) ∧
  a_flogoff a ≤ next_slot fr ∧ next_slot fr + 16 ≤ arena_end nfree a.
Proof.
  intros G [He Hv _ _ _] Hl. pose proof (geo_flog G lane Hl).
  rewrite get_valid_pick in Hv. destruct (seq_pick _ _) eqn:E; [|done].
  injection Hv as _ Hz. rewrite Hz in E. unfold next_slot. rewrite He.
  destruct (seq_pick_01 _ _ _ E) as [H1|H1]; rewrite H1; simpl; lia.
Qed.

Lemma flog_update_run s ai a n lane l fr m :
  let nfree := b_nfree (s_btt s) in
  arena_geo (b_lbasize (s_btt s)) nfree a → flog_ok a m lane fr →
  lookupZ (a_flogs a) lane = Some fr → 0 ≤ lane < nfree →
  0 ≤ ai < len (b_arenas (s_btt s)) → ns_ok n → arena_end nfree a ≤ ns_size n →
  ∃ n', flog_update cb lane ai l (map_entry a m l) (free_entry fr) (mk s ai (a_locked l nfree a) n)
        = (Ok tt, mk s ai (a_locked l nfree (write_arena a m lane l fr)) n') ∧
    ns_ok n' ∧
    ns_mem n' = wr (wr (ns_mem n) (next_slot fr) (le_bytes 4 l ++ le_bytes 4 (map_entry a m l)))
      (next_slot fr + 8) (le_bytes 4 (free_entry fr) ++ le_bytes 4 (NSEQ (fl_seq (fr_flog fr)))) ∧
    ns_size n' = ns_size n ∧
    ns_trace n' = ns_trace n ++
      [(next_slot fr, le_bytes 4 l ++ le_bytes 4 (map_entry a m l));
       (next_slot fr + 8, le_bytes 4 (free_entry fr) ++ le_bytes 4 (NSEQ (fl_seq (fr_flog fr))))].
Proof.
  intros nfree G Hf Hfl Hlane Hai Hok He.
  destruct (flog_slot _ _ _ _ _ _ G Hf Hlane) as (_ & Hlo & Hhi).
  pose proof (ns_size_range n Hok). pose proof (geo_mapoff G).
  destruct (ns_write_mk s ai (a_locked l nfree a) n lane
    (le_bytes 4 l ++ le_bytes 4 (map_entry a m l)) (next_slot fr)) as (n1 & E1 & Hok1 & Hm1 & Hs1 & Ht1);
    [done|lia|done|rewrite length_app, !length_le_bytes; lia|].
  destruct (ns_write_mk s ai (a_locked l nfree a) n1 lane
    (le_bytes 4 (free_entry fr) ++ le_bytes 4 (NSEQ (fl_seq (fr_flog fr)))) (next_slot fr + 8))
    as (n2 & E2 & Hok2 & Hm2 & Hs2 & Ht2);
    [done|lia|done|rewrite length_app, !length_le_bytes; lia|].
  exists n2. split_and!; [|done|by rewrite Hm2, Hm1|by rewrite Hs2, Hs1|
    rewrite Ht2, Ht1; by rewrite <- (assoc_L (++))].
  unfold flog_update. erewrite bind_ok by (apply get_flog_mk; [done|exact Hfl]).
  cbv zeta. fold (next_slot fr). cbn [fl_lba fl_old_map fl_new_map fl_seq].
  erewrite bind_ok by exact E1. rewrite u64_id by lia. change (4 * 2) with 8.
  erewrite bind_ok by exact E2.
  rewrite set_flog_mk; [done|done|]. apply (lookupZ_Some _ _ _ Hfl).
Qed.

Lemma idle_write nfree a m lane l fr :
  arena_idle nfree a → arena_idle nfree (write_arena a m lane l fr).
Proof. intros []. by split. Qed.

Lemma geo_write lbasize nfree a m lane l fr :
  arena_geo lbasize nfree a → arena_geo lbasize nfree (write_arena a m lane l fr).
Proof. apply geo_static. by destruct a. Qed.

Lemma rtt_free nfree nlane a fr : arena_idle nfree a → 
  bool_decide (free_entry fr ∈ take nlane (a_rtt a)) = false.
Proof.
  intros [-> _ _]. apply bool_decide_eq_false. rewrite take_replicate.
  intros [He _]%elem_of_replicate. rewrite free_entry_eq in He.
  pose proof (free_block_range fr). unfold BTT_MAP_ENTRY_ERROR in He. lia.
Qed.

Lemma first_write_laidout s lane : b_laidout (s_btt s) = true → first_write cb lane s = (Ok tt, s).
Proof. intros H. unfold first_write, get_btt. erewrite bind_ok by reflexivity. simpl. by rewrite H. Qed.

(** [btt_write] as a whole: the four writes to the namespace and the new
    run-time state of the lane. *)
Lemma btt_write_run s lane lba ai l a fr buf :
  btt_ready s → located s lba ai l a → 0 ≤ lane < b_nlane (s_btt s) →
  lookupZ (a_flogs a) lane = Some fr → a_flags a &&& BTTINFO_FLAG_ERROR_MASK = 0 →
  len buf = b_lbasize (s_btt s) →
  let m := ns_mem (s_ns s) in
  ∃ n', btt_write cb lane lba buf s = (Ok tt, mk s ai (write_arena a m lane l fr) n') ∧
    ns_ok n' ∧ ns_mem n' = wrs m (write_ws a m l fr buf) ∧ ns_size n' = ns_size (s_ns s) ∧
    ns_trace n' = ns_trace (s_ns s) ++ write_ws a m l fr buf.
Proof.
  intros HR L Hlane Hfr Hfl Hbuf m. pose proof (br_inv _ HR) as Hi.
  pose proof (lo_inv _ _ _ _ _ L) as [G Hf Ho Hid]. pose proof (lo_end _ _ _ _ _ L) as Hend.
  pose proof (bv_nlane _ _ Hi) as Hnl. pose proof (lo_l _ _ _ _ _ L) as Hl.
  pose proof (lookupZ_Some _ _ _ (lo_lookup _ _ _ _ _ L)) as Hai.
  pose proof (ns_size_range _ (br_ok _ HR)). pose proof (geo_mapoff G).
  pose proof (ow_flog_range _ _ _ Ho _ _ Hfr) as Hfb. pose proof (free_block_range fr).
  pose proof (geo_block G (free_block fr) ltac:(lia)) as Hblk.
  assert (0 < b_lbasize (s_btt s)) by apply G.
  destruct (ns_write_mk s ai a (s_ns s) lane buf (block_off a (free_block fr)))
    as (n1 & E1 & Hok1 & Hm1 & Hs1 & Ht1);
    [apply HR|destruct G; lia|intros ->; simpl in *; lia|lia|].
  assert (map_entry a (ns_mem n1) l = map_entry a m l) as Hme.
  { unfold map_entry. rewrite Hm1, rd32_wr_out; [done|]. unfold map_off. lia. }
  destruct (flog_update_run s ai a n1 lane l fr m) as (n2 & E2 & Hok2 & Hm2 & Hs2 & Ht2);
    [done|by apply Hf|done|lia|done|done|lia|].
  destruct (map_unlock_run s ai (write_arena a m lane l fr) n2 lane l (free_entry fr))
    as (n3 & E3 & Hok3 & Hm3 & Hs3 & Ht3);
    [by apply geo_write|by apply idle_write|done|done|rewrite Hs2, Hs1; done|done|].
  exists n3. split_and!; [|done|by rewrite Hm3, Hm2, Hm1|by rewrite Hs3, Hs2, Hs1|
    rewrite Ht3, Ht2, Ht1; by rewrite <- !(assoc_L (++))].
  unfold btt_write. erewrite bind_ok by apply L.
  erewrite bind_ok by (apply first_write_laidout, Hi). erewrite bind_ok by apply L. cbv beta iota zeta.
  rewrite (mk_id s ai a (lo_lookup _ _ _ _ _ L)) at 1.
  erewrite bind_ok by (by apply get_arena_mk). rewrite Hfl. cbn [negb Z.eqb].
  erewrite bind_ok by (by apply get_flog_mk). unfold get_btt at 1. erewrite bind_ok by reflexivity.
  fold (free_block fr). fold (free_entry fr). rewrite (rtt_free (b_nfree (s_btt s))) by done.
  unfold get_btt. erewrite bind_ok by reflexivity. cbn [compose s_btt mk b_lbasize b_set_arenas].
  rewrite take_ge by lia. rewrite (block_off_eq G) by (rewrite ?free_entry_lba; lia).
  rewrite free_entry_lba. erewrite bind_ok by exact E1.
  erewrite bind_ok by (apply map_lock_run; [done..|lia|done]). rewrite Hme.
  erewrite bind_ok by (apply on_fail_ok, E2). by apply on_fail_ok.
Qed.
End run.
