(* ===== verification/BttRefine.v ===== *)
(** * Block translation table: the operations refine an array of blocks

    The four writes of [btt_write] take the media through the states [w_m1] to [w_m4].
    The first part has, for each of them and for the states in which one write is torn,
    what the flog, the map and the block view are; the second, the refinement. *)

From stdpp Require Import base gmap list numbers.
From S2P Require Import Prelude Memory Pmem Util BttLayout Btt BttSpec BttRun.
Local Open Scope Z_scope.

(** ** Flog entries as words *)

Lemma flog_at_fields m off :
  flog_at m off = BttFlog (rd32 m off) (rd32 m (off + 4)) (rd32 m (off + 8)) (rd32 m (off + 12)).
Proof.
  assert (∀ k, 0 ≤ k ≤ 12 → take 4 (drop (Z.to_nat k) (rdn m off 16)) = rdn m (off + k) 4) as H.
  { intros k Hk. pose proof (rdn_sub m off 16 (off + k) 4) as Hs.
    replace (off + k - off) with k in Hs by lia. apply Hs; lia. }
  unfold flog_at, btt_flog_convert2h, le_field, slice, rd32.
  rewrite !H by lia. by rewrite Z.add_0_r.
Qed.

Lemma flog_at_ext m m' off : eq_on m m' off (off + 16) → flog_at m off = flog_at m' off.
Proof. intros H. unfold flog_at. f_equal. by apply rdn_ext. Qed.

Lemma flog_at_write m s l e f q :
  0 ≤ l < 2 ^ 32 → 0 ≤ e < 2 ^ 32 → 0 ≤ f < 2 ^ 32 → 0 ≤ q < 2 ^ 32 →
  flog_at (wr (wr m s (le_bytes 4 l ++ le_bytes 4 e)) (s + 8) (le_bytes 4 f ++ le_bytes 4 q)) s
  = BttFlog l e f q.
Proof.
  intros. rewrite flog_at_fields, !wr_app, !length_le_bytes.
  change (Z.of_nat 4) with 4. rewrite <- (Z.add_assoc s 8 4). change (8 + 4) with 12.
  f_equal.
  - rewrite !rd32_wr_out by (rewrite length_le_bytes; lia).
    change (rd32 (wr32 m s l) s = l). rewrite rd32_wr32. by apply u32_id.
  - rewrite (rd32_wr_out _ (s + 12)), (rd32_wr_out _ (s + 8)) by (rewrite length_le_bytes; lia).
    etransitivity; [apply rd32_wr32|]. by apply u32_id.
  - rewrite rd32_wr_out by (rewrite length_le_bytes; lia).
    etransitivity; [apply rd32_wr32|]. by apply u32_id.
  - etransitivity; [apply rd32_wr32|]. by apply u32_id.
Qed.

(** A write inside one aligned word is not torn. *)
Lemma torn_word m off bs m' :
  off / 8 = (off + len bs - 1) / 8 → torn m (wr m off bs) m' →
  mem_eq m' m ∨ mem_eq m' (wr m off bs).
Proof.
  intros Hw Ht.
  assert (∀ x, x / 8 ≠ off / 8 → rd (wr m off bs) x = rd m x) as Hout.
  { intros x Hx. apply rd_wr_out. intros Hr. apply Hx.
    assert (off / 8 ≤ x / 8) by (apply Z.div_le_mono; lia).
    assert (x / 8 ≤ (off + len bs - 1) / 8) by (apply Z.div_le_mono; lia). lia. }
  assert (∀ x, x / 8 ≠ off / 8 → rd m' x = rd m x) as Hout'.
  { intros x Hx. destruct (Ht (x / 8)) as [H|H]; rewrite (H x eq_refl); auto. }
  destruct (Ht (off / 8)) as [H|H]; [left|right]; intros x;
    (destruct (decide (x / 8 = off / 8)) as [He|He]; [by apply H|]).
  - by apply Hout'.
  - by rewrite Hout', Hout.
Qed.

Lemma torn_out m off bs m' x :
  torn m (wr m off bs) m' → ¬ (off ≤ x < off + len bs) → rd m' x = rd m x.
Proof.
  intros Ht Hx. destruct (Ht (x / 8)) as [H|H]; rewrite (H x eq_refl); [done|].
  by apply rd_wr_out.
Qed.

(** ** The states of the media during a write *)

Section write_effect.
Context {lbasize nfree : Z} {a : arena} {m : mem} {lane l : Z} {fr : flog_runtime} {buf : list Z}.
Context (G : arena_geo lbasize nfree a) (Hf : flogs_ok nfree a m (a_flogs a)).
Context (Ho : owned a m (a_flogs a)) (Hfr : lookupZ (a_flogs a) lane = Some fr).
Context (Hl : 0 ≤ l < a_external_nlba a) (Hbuf : len buf = lbasize).

Definition w_m1 : mem := wr m (block_off a (free_block fr)) buf.
Definition w_m2 : mem :=
  wr w_m1 (next_slot fr) (le_bytes 4 l ++ le_bytes 4 (map_entry a m l)).
Definition w_m3 : mem :=
  wr w_m2 (next_slot fr + 8) (le_bytes 4 (free_entry fr) ++ le_bytes 4 (NSEQ (fl_seq (fr_flog fr)))).
Definition w_m4 : mem := wr w_m3 (map_off a l) (le_bytes 4 (free_entry fr)).

Lemma wrs_m4 : wrs m (write_ws a m l fr buf) = w_m4.
Proof. done. Qed.

(** A memory in which the write has not taken effect: it differs from [m] at most in
    the free block and in the first two words of the unused flog slot. *)
Record old_state (x : mem) : Prop := OldState {
  os_out : ∀ p, ¬ (block_off a (free_block fr) ≤ p < block_off a (free_block fr) + lbasize) →
    ¬ (next_slot fr ≤ p < next_slot fr + 8) → rd x p = rd m p;
  os_slot : eq_on x m (next_slot fr) (next_slot fr + 8) ∨
            eq_on x w_m2 (next_slot fr) (next_slot fr + 8)
}.

Lemma lane_range : 0 ≤ lane < nfree.
Proof using G Hfr Hf. destruct Hf as [<- _]. by apply lookupZ_Some in Hfr. Qed.

Lemma slot_facts :
  (fr_next fr = 0 ∧ next_slot fr = flog_off a lane ∨
   fr_next fr = 1 ∧ next_slot fr = flog_off a lane + 16) ∧
  a_flogoff a ≤ next_slot fr ∧ next_slot fr + 16 ≤ arena_end nfree a.
Proof using G Hfr Hf.
  eapply flog_slot; [exact G| |exact lane_range]. by apply Hf.
Qed.

Lemma block_facts :
  0 ≤ free_block fr < a_internal_nlba a ∧
  a_startoff a + 4096 ≤ block_off a (free_block fr) ∧
  block_off a (free_block fr) + lbasize ≤ a_mapoff a.
Proof using G Ho Hfr.
  clear Hbuf. pose proof (ow_flog_range _ _ _ Ho _ _ Hfr). pose proof (free_block_range fr).
  pose proof (geo_block G (free_block fr) ltac:(lia)). lia.
Qed.

Lemma w_crash_cases x : ws_crash m (write_ws a m l fr buf) x →
  old_state x ∨ mem_eq x w_m3 ∨ mem_eq x w_m4.
Proof using G Hf Ho Hfr Hl Hbuf.
  pose proof slot_facts as (Hs & Hs1 & Hs2). pose proof block_facts as (_ & Hb1 & Hb2).
  pose proof (geo_mapoff G) as Hmo. pose proof (geo_map G l Hl) as Hml.
  assert (old_state w_m1) as O1.
  { split; [intros p H1 H2|left; intros p Hp]; apply rd_wr_out; rewrite Hbuf; lia. }
  assert (old_state w_m2) as O2.
  { split; [|by right]. intros p H1 H2. unfold w_m2.
    rewrite rd_wr_out by (rewrite length_app, !length_le_bytes; lia). by apply O1. }
  assert (∀ y z, mem_eq y z → old_state z → old_state y) as Oext.
  { intros y z He [H1 H2]. split; [intros; rewrite He; auto|].
    destruct H2 as [H2|H2]; [left|right]; intros p Hp; rewrite He; auto. }
  assert (next_slot fr mod 8 = 0) as Hal.
  { pose proof (g_flog_align _ _ _ G) as Hg. apply Z.mod_divide in Hg as [q Hq]; [|lia].
    apply Z.mod_divide; [lia|]. destruct Hs as [[_ ->]|[_ ->]]; unfold flog_off; rewrite Hq.
    - exists (q + 8 * lane). lia.
    - exists (q + 8 * lane + 2). lia. }
  apply Z.mod_divide in Hal as [q Hq]; [|lia].
  pose proof (g_map_align _ _ _ G) as Hm. apply Z.mod_divide in Hm as [q' Hq']; [|lia].
  unfold write_ws. intros [He|[Ht|H']]%ws_crash_cons.
  { left. apply (Oext _ m He). split; [done|by left]. }
  { left. split.
    - intros p H1 _. apply (torn_out _ _ _ _ _ Ht). by rewrite Hbuf.
    - left. intros p Hp. apply (torn_out _ _ _ _ _ Ht). rewrite Hbuf. lia. }
  fold w_m1 in H'. apply ws_crash_cons in H' as [He|[Ht|H'']].
  { left. by apply (Oext _ w_m1 He). }
  { apply torn_word in Ht as [He|He].
    - left. by apply (Oext _ w_m1).
    - left. by apply (Oext _ w_m2).
    - rewrite length_app, !length_le_bytes, Hq. rewrite Z.div_mul by lia.
      apply Z.div_unique with 7; lia. }
  fold w_m2 in H''. apply ws_crash_cons in H'' as [He|[Ht|H3]].
  { left. by apply (Oext _ w_m2 He). }
  { apply torn_word in Ht as [He|He].
    - left. by apply (Oext _ w_m2).
    - right. by left.
    - rewrite length_app, !length_le_bytes, Hq. replace (q * 8 + 8) with ((q + 1) * 8) by lia.
      rewrite Z.div_mul by lia. apply Z.div_unique with 7; lia. }
  fold w_m3 in H3. apply ws_crash_cons in H3 as [He|[Ht|H4]].
  { right. by left. }
  { apply torn_word in Ht as [He|He]; [by right; left|by right; right|].
    rewrite length_le_bytes. unfold map_off. rewrite Hq'. clear -Hl.
    destruct (Z.even l) eqn:El.
    - apply Z.even_spec in El as [h ->].
      replace (q' * 8 + 4 * (2 * h)) with ((q' + h) * 8) by lia. rewrite Z.div_mul by lia.
      apply Z.div_unique with 3; lia.
    - assert (Z.odd l = true) as Eo by (rewrite <- Z.negb_even, El; done).
      apply Z.odd_spec in Eo as [h ->].
      replace (q' * 8 + 4 * (2 * h + 1)) with (4 + (q' + h) * 8) by lia.
      rewrite Z.div_add by lia. apply Z.div_unique with 7; [lia|]. change (4 / 8) with 0. lia. }
  fold w_m4 in H4. apply ws_crash_nil in H4. right. by right.
Qed.

(** *** Before the write takes effect *)

Lemma old_map x l' : old_state x → 0 ≤ l' < a_external_nlba a →
  eq_on x m (map_off a l') (map_off a l' + 4).
Proof using G Hf Ho Hfr.
  intros Hx Hl' p Hp. pose proof slot_facts. pose proof block_facts.
  pose proof (geo_map G l' Hl'). apply (os_out _ Hx); unfold map_off in *; lia.
Qed.

Lemma old_data x k : old_state x → 0 ≤ k < a_internal_nlba a → k ≠ free_block fr →
  eq_on x m (block_off a k) (block_off a k + lbasize).
Proof using G Hf Hfr.
  intros Hx Hk Hne p Hp. pose proof slot_facts. pose proof (geo_mapoff G).
  pose proof (geo_block G k Hk). pose proof (geo_block_disj G _ _ Hne).
  apply (os_out _ Hx); lia.
Qed.

Lemma old_flog_out x off : old_state x → a_flogoff a ≤ off →
  off + 16 ≤ next_slot fr ∨ next_slot fr + 16 ≤ off → flog_at x off = flog_at m off.
Proof using G Ho Hfr.
  intros Hx Ho' Hd. apply flog_at_ext. intros p Hp. pose proof block_facts.
  pose proof (geo_mapoff G). apply (os_out _ Hx); lia.
Qed.

Lemma old_slot x : old_state x →
  fl_seq (flog_at x (next_slot fr)) = fl_seq (flog_at m (next_slot fr)) ∧
  fl_lba (flog_at x (next_slot fr)) < a_external_nlba a.
Proof using G Hf Ho Hfr Hl Hbuf.
  intros Hx. pose proof slot_facts as (Hs & Hs1 & Hs2). pose proof block_facts.
  pose proof (geo_mapoff G).
  assert (fl_lba (flog_at m (next_slot fr)) < a_external_nlba a) as Hlba.
  { destruct (proj2 Hf _ _ Hfr). by destruct Hs as [[_ ->]|[_ ->]]. }
  rewrite !flog_at_fields in *. cbn [fl_seq fl_lba] in *. split.
  - apply rd32_ext. intros p Hp. apply (os_out _ Hx); lia.
  - destruct (os_slot _ Hx) as [E|E].
    + rewrite (rd32_ext _ m); [done|]. intros p Hp. apply E. lia.
    + rewrite (rd32_ext _ w_m2) by (intros p Hp; apply E; lia).
      unfold w_m2. rewrite wr_app, rd32_wr_out by (rewrite !length_le_bytes; lia).
      change (rd32 (wr32 w_m1 (next_slot fr) l) (next_slot fr) < a_external_nlba a).
      rewrite rd32_wr32, u32_id; [lia|]. destruct G. lia.
Qed.

Lemma old_flogs x : old_state x → flogs_ok nfree a x (a_flogs a).
Proof using G Hf Ho Hfr Hl Hbuf.
  intros Hx. pose proof slot_facts as (Hs & Hs1 & Hs2). split; [apply Hf|].
  intros i f Hi. pose proof (proj2 Hf _ _ Hi) as [He Hv Hq H0 H1].
  pose proof (lookupZ_Some _ _ _ Hi).
  assert (0 ≤ i) by lia. assert (a_flogoff a ≤ flog_off a i) by (unfold flog_off; lia).
  destruct (decide (i = lane)) as [->|Hne].
  - assert (f = fr) as -> by congruence. destruct (old_slot x Hx) as [Hseq Hlba].
    pose proof (get_valid_part _ _ _ _ (flog_at x (next_slot fr)) Hv) as Hp.
    destruct Hs as [[Hn Hs]|[Hn Hs]]; rewrite Hn, Hs in *; simpl in Hp.
    + rewrite <- (old_flog_out x (flog_off a lane + 16)) in Hp, H1 by (done || lia).
      split; rewrite ?Hn; auto.
    + rewrite <- (old_flog_out x (flog_off a lane)) in Hp, H0 by (done || lia).
      split; rewrite ?Hn; auto.
  - assert (flog_off a i + 32 ≤ next_slot fr ∨ next_slot fr + 16 ≤ flog_off a i).
    { unfold flog_off in *. lia. }
    rewrite <- (old_flog_out x (flog_off a i)) in Hv, H0 by (done || lia).
    rewrite <- (old_flog_out x (flog_off a i + 16)) in Hv, H1 by (done || lia). by split.
Qed.

Lemma owned_ext x frs : (∀ l', 0 ≤ l' < a_external_nlba a → target a x l' = target a m l') →
  owned a m frs → owned a x frs.
Proof.
  intros He [H1 H2 H3 H4 H5]. split; [|done| |done|].
  - intros l' Hl'. rewrite He by done. auto.
  - intros l1 l2 Hl1 Hl2. rewrite !He by done. auto.
  - intros l' i f Hl' Hi. rewrite He by done. eauto.
Qed.

Lemma old_owned x : old_state x → owned a x (a_flogs a).
Proof using G Hf Ho Hfr.
  intros Hx. apply owned_ext; [|done]. intros l' Hl'. by apply target_ext, old_map.
Qed.

Lemma old_view x l' : old_state x → 0 ≤ l' < a_external_nlba a →
  arena_view lbasize a x l' = arena_view lbasize a m l'.
Proof using G Hf Ho Hfr.
  intros Hx Hl'. pose proof (old_map x l' Hx Hl') as Hm.
  eapply arena_view_ext; [exact G|done|]. rewrite (target_ext _ _ _ _ Hm).
  apply old_data; [done| |].
  - split; [apply target_range|by apply Ho].
  - by eapply ow_disj.
Qed.

(** *** After the flog has switched *)

Lemma ws_ranges :
  map_off a l + 4 ≤ next_slot fr ∧ block_off a (free_block fr) + lbasize ≤ map_off a l ∧
  0 ≤ map_off a l ∧ next_slot fr + 16 ≤ arena_end nfree a ∧
  a_startoff a + 4096 ≤ block_off a (free_block fr).
Proof using G Hf Ho Hfr Hl.
  clear Hbuf. pose proof slot_facts. pose proof block_facts. pose proof (geo_map G l Hl).
  pose proof (geo_mapoff G). unfold map_off in *. lia.
Qed.

Lemma w_m3_out p :
  ¬ (block_off a (free_block fr) ≤ p < block_off a (free_block fr) + lbasize) →
  ¬ (next_slot fr ≤ p < next_slot fr + 16) → rd w_m3 p = rd m p.
Proof using Hbuf.
  intros H1 H2. unfold w_m3, w_m2, w_m1.
  rewrite !rd_wr_out; [done|..]; rewrite ?length_app, ?length_le_bytes, ?Hbuf; lia.
Qed.

Lemma w_m4_out p :
  ¬ (map_off a l ≤ p < map_off a l + 4) → rd w_m4 p = rd w_m3 p.
Proof using. intros H. unfold w_m4. apply rd_wr_out. rewrite length_le_bytes. lia. Qed.

Lemma w_m3_map l' : 0 ≤ l' < a_external_nlba a →
  eq_on w_m3 m (map_off a l') (map_off a l' + 4).
Proof using G Hf Ho Hfr Hbuf.
  intros Hl' p Hp. pose proof slot_facts. pose proof block_facts.
  pose proof (geo_map G l' Hl'). apply w_m3_out; unfold map_off in *; lia.
Qed.

Lemma w_m4_map l' : 0 ≤ l' < a_external_nlba a → l' ≠ l →
  eq_on w_m4 m (map_off a l') (map_off a l' + 4).
Proof using G Hf Ho Hfr Hbuf.
  intros Hl' Hne p Hp. rewrite w_m4_out by (unfold map_off in *; lia). by apply (w_m3_map l').
Qed.

Lemma w_m4_entry : rd32 w_m4 (map_off a l) = free_entry fr.
Proof using.
  unfold w_m4. change (wr w_m3 (map_off a l) (le_bytes 4 (free_entry fr)))
    with (wr32 w_m3 (map_off a l) (free_entry fr)).
  rewrite rd32_wr32, u32_id; [done|]. rewrite free_entry_eq.
  pose proof (free_block_range fr). lia.
Qed.

Lemma free_entry_flags : map_entry_flags (free_entry fr) = 3 * 2 ^ 30.
Proof using. rewrite free_entry_eq. apply entry_flags; [apply free_block_range|by split]. Qed.

Lemma w_m4_target l' : 0 ≤ l' < a_external_nlba a →
  target a w_m4 l' = if decide (l' = l) then free_block fr else target a m l'.
Proof using G Hf Ho Hfr Hbuf.
  intros Hl'. case_decide as Hd; [subst l'|by apply target_ext, w_m4_map].
  rewrite target_entry; rewrite w_m4_entry; [apply free_entry_lba|].
  unfold map_entry_is_initial. by rewrite free_entry_flags.
Qed.

(** The new entry of the lane and the old ones of the others. *)
Lemma new_flogs x : (∀ p, a_flogoff a ≤ p → rd x p = rd w_m3 p) →
  flogs_ok nfree a x (a_flogs (write_arena a m lane l fr)).
Proof using G Hf Ho Hfr Hl Hbuf.
  intros Hx. pose proof slot_facts as (Hs & Hs1 & Hs2). pose proof block_facts.
  pose proof (geo_flog G lane lane_range) as [Hfo _].
  pose proof (geo_mapoff G). pose proof (map_entry_range a m l ltac:(destruct G; lia)).
  pose proof (free_block_range fr).
  assert (∀ off, a_flogoff a ≤ off → off + 16 ≤ next_slot fr ∨ next_slot fr + 16 ≤ off →
    flog_at x off = flog_at m off) as Hout.
  { intros off H3 H4. apply flog_at_ext. intros p Hp. rewrite Hx by lia. apply w_m3_out; lia. }
  assert (1 ≤ fl_seq (fr_flog fr) ≤ 3) as Hq by (by apply (proj2 Hf _ _ Hfr)).
  pose proof (NSEQ_range _ Hq).
  assert (flog_at x (next_slot fr) = new_flog a m l fr) as Hnew.
  { rewrite (flog_at_ext _ w_m3) by (intros p Hp; apply Hx; lia).
    unfold w_m3, w_m2. apply flog_at_write; rewrite ?free_entry_eq; destruct G; lia. }
  split; [simpl; rewrite length_updZ; apply Hf|].
  intros i f Hi. simpl in Hi. change (flog_ok a x i f).
  apply lookupZ_updZ in Hi as [[<- ->]|[Hne Hi]].
  - pose proof (proj2 Hf _ _ Hfr) as [He Hv _ Hz0 Hz1].
    pose proof (get_valid_new _ _ _ _ (new_flog a m l fr) Hv Hq eq_refl) as Hg.
    unfold new_runtime. destruct Hs as [[Hn Hs]|[Hn Hs]]; rewrite Hn, Hs in *; simpl in Hg.
    + rewrite <- (Hout (flog_off a lane + 16)) in Hg, Hz1 by lia.
      split; cbn [fr_entries fr_flog fr_next]; rewrite ?Hnew; cbn [fl_lba fl_seq new_flog]; auto; lia.
    + rewrite <- (Hout (flog_off a lane)) in Hg, Hz0 by lia.
      split; cbn [fr_entries fr_flog fr_next]; rewrite ?Hnew; cbn [fl_lba fl_seq new_flog]; auto; lia.
  - pose proof (proj2 Hf _ _ Hi) as [He Hv Hq' Hz0 Hz1]. pose proof (lookupZ_Some _ _ _ Hi).
    assert (a_flogoff a ≤ flog_off a i) by (unfold flog_off; lia).
    assert (flog_off a i + 32 ≤ next_slot fr ∨ next_slot fr + 16 ≤ flog_off a i).
    { unfold flog_off in *. lia. }
    rewrite <- (Hout (flog_off a i)) in Hv, Hz0 by lia.
    rewrite <- (Hout (flog_off a i + 16)) in Hv, Hz1 by lia. by split.
Qed.

Lemma new_free_block : free_block (new_runtime a m l fr) = target a m l.
Proof using. done. Qed.

(** The block of the entry and the free block have changed places. *)
Lemma new_owned : owned a w_m4 (a_flogs (write_arena a m lane l fr)).
Proof using G Hf Ho Hfr Hl Hbuf.
  pose proof w_m4_target as Ht. destruct Ho as [H1 H2 H3 H4 H5]. simpl.
  split.
  - intros l' Hl'. rewrite Ht by done. case_decide; eauto.
  - intros i f [[_ ->]|[_ Hi]]%lookupZ_updZ; [by apply H1|eauto].
  - intros l1 l2 Hl1 Hl2. rewrite !Ht by done. repeat case_decide; subst; auto.
    + intros E. by destruct (H5 l2 lane fr Hl2 Hfr).
    + intros E. by destruct (H5 l1 lane fr Hl1 Hfr).
  - intros i j fi fj Hi Hj.
    apply lookupZ_updZ in Hi as [[<- ->]|[Hni Hi]], Hj as [[<- ->]|[Hnj Hj]];
      rewrite ?new_free_block; eauto.
    + intros E. by destruct (H5 l j fj Hl Hj).
    + intros E. by destruct (H5 l i fi Hl Hi).
  - intros l' i f Hl' Hi. rewrite Ht by done.
    apply lookupZ_updZ in Hi as [[<- ->]|[Hni Hi]]; rewrite ?new_free_block; case_decide; subst; eauto.
    intros E. by destruct (H5 l lane fr Hl Hfr).
Qed.

Lemma new_view : Forall is_byte buf → arena_view lbasize a w_m4 l = BData buf.
Proof using G Hf Ho Hfr Hl Hbuf.
  intros Hb. unfold arena_view. rewrite w_m4_entry.
  unfold map_entry_is_error, map_entry_is_zero_or_initial. rewrite free_entry_flags, free_entry_lba.
  simpl. f_equal. pose proof ws_ranges. pose proof (g_lba _ _ _ G).
  unfold w_m4, w_m3, w_m2. rewrite !rdn_wr_out by (rewrite ?length_app, ?length_le_bytes; lia).
  unfold w_m1. apply rdn_wr_same'; [done|lia].
Qed.

Lemma new_view_other l' : 0 ≤ l' < a_external_nlba a → l' ≠ l →
  arena_view lbasize a w_m4 l' = arena_view lbasize a m l'.
Proof using G Hf Ho Hfr Hl Hbuf.
  intros Hl' Hne. pose proof (w_m4_map l' Hl' Hne) as Hm.
  eapply arena_view_ext; [exact G|done|]. rewrite (target_ext _ _ _ _ Hm).
  assert (0 ≤ target a m l' < a_internal_nlba a) as Hr by (split; [apply target_range|by apply Ho]).
  assert (target a m l' ≠ free_block fr) as Hd by (by eapply ow_disj).
  intros p Hp. pose proof (geo_block G _ Hr). pose proof (geo_block_disj G _ _ Hd).
  pose proof slot_facts. pose proof (geo_mapoff G). pose proof (geo_map G l Hl).
  rewrite w_m4_out by (unfold map_off in *; lia). apply w_m3_out; lia.
Qed.
End write_effect.

(** * Block translation table: the operations refine an array of blocks

    [btt_write], [btt_set_zero] and [btt_set_error] update the block view at their LBA,
    leave it alone elsewhere and keep the invariant; on an arena in error state
    and beyond the last LBA they fail and change nothing. *)

(** ** Changes within one arena *)

(** The part of the arena the operations write to. *)
Definition only_inside (nfree : Z) (a : arena) (m m' : mem) : Prop :=
  ∀ p, ¬ (a_startoff a + 4096 ≤ p < arena_end nfree a) → rd m' p = rd m p.

Lemma arena_view_static lbasize a a' m l : a_static a = a_static a' →
  arena_view lbasize a m l = arena_view lbasize a' m l.
Proof.
  intros H. change (arena_view lbasize (a_static a) m l = arena_view lbasize (a_static a') m l).
  by rewrite H.
Qed.

Lemma arena_view_inside lbasize nfree a m m' frs l :
  arena_geo lbasize nfree a → owned a m frs →
  eq_on m m' (a_startoff a) (arena_end nfree a) → 0 ≤ l < a_external_nlba a →
  arena_view lbasize a m' l = arena_view lbasize a m l.
Proof.
  intros G Ho He Hl. symmetry. eapply arena_view_ext; [exact G|..].
  - pose proof (geo_map G l Hl). pose proof (geo_mapoff G).
    eapply eq_on_sub; [exact He|unfold map_off; lia|lia].
  - pose proof (geo_block G (target a m l) (conj (proj1 (target_range _ _ _)) (ow_map_range _ _ _ Ho l Hl))).
    pose proof (geo_mapoff G). eapply eq_on_sub; [exact He|lia|lia].
Qed.

Lemma arena_inv_inside lbasize nfree a m m' :
  eq_on m m' (a_startoff a) (arena_end nfree a) →
  arena_inv lbasize nfree m a → arena_inv lbasize nfree m' a.
Proof.
  intros He [G Hf Ho Hid]. pose proof (geo_mapoff G). split; [done| |apply (owned_ext (m := m))|done].
  - split; [apply Hf|]. intros i fr Hi. pose proof (lookupZ_Some _ _ _ Hi) as Hir.
    rewrite (proj1 Hf) in Hir. pose proof (geo_flog G i Hir).
    destruct (proj2 Hf _ _ Hi) as [E1 E2 E3 E4 E5].
    assert (∀ off, flog_off a i ≤ off → off + 16 ≤ flog_off a i + 32 →
      flog_at m' off = flog_at m off) as Hat.
    { intros off H1 H2. symmetry. apply flog_at_ext. eapply eq_on_sub; [exact He|lia..]. }
    split; rewrite ?Hat by lia; done.
  - intros l Hl. pose proof (geo_map G l Hl). symmetry. apply target_ext.
    eapply eq_on_sub; [exact He|unfold map_off; lia|lia].
  - done.
Qed.

(** The view depends on the fixed fields of the arenas only. *)
Lemma view_static b b' m lba :
  b_lbasize b' = b_lbasize b → a_static <$> b_arenas b' = a_static <$> b_arenas b →
  btt_view b' m lba = btt_view b m lba.
Proof.
  intros Hbs Hst. unfold btt_view. rewrite Hbs.
  rewrite (lba_to_arena_ext (b_arenas b') (b_arenas b)).
  2: { apply (f_equal (fmap a_external_nlba)) in Hst. by rewrite <- !list_fmap_compose in Hst. }
  destruct (lba_to_arena_loop (b_arenas b) 0 lba) as [[j l]|]; [|done].
  unfold lookupZ. case_decide; [|done].
  apply (f_equal (λ l, l !! Z.to_nat j)) in Hst. rewrite !list_lookup_fmap in Hst.
  destruct (b_arenas b' !! Z.to_nat j) as [a'|], (b_arenas b !! Z.to_nat j) as [a|]; try done.
  apply (inj Some) in Hst. by rewrite (arena_view_static _ _ _ _ _ Hst).
Qed.

Lemma view_same b m m' :
  (∀ j a l, lookupZ (b_arenas b) j = Some a → 0 ≤ l < a_external_nlba a →
    arena_view (b_lbasize b) a m' l = arena_view (b_lbasize b) a m l) →
  ∀ lba, 0 ≤ lba → btt_view b m' lba = btt_view b m lba.
Proof.
  intros H lba Hlba. unfold btt_view.
  destruct (lba_to_arena_loop (b_arenas b) 0 lba) as [[j l]|] eqn:E; [|done].
  destruct (lba_to_arena_spec _ _ _ _ _ Hlba E) as (_ & Hl0 & _ & a & Ha & Hl1).
  rewrite Z.sub_0_r in Ha. rewrite Ha. by rewrite (H j a l).
Qed.

(** The LBAs of the other arenas and of the other blocks keep their view. *)
Lemma view_change b m b' m' ai l a lba v :
  b_lbasize b' = b_lbasize b → a_static <$> b_arenas b' = a_static <$> b_arenas b →
  0 ≤ lba → lba_to_arena_loop (b_arenas b) 0 lba = Some (ai, l) →
  lookupZ (b_arenas b) ai = Some a →
  (∀ j a' l', j ≠ ai → lookupZ (b_arenas b) j = Some a' → 0 ≤ l' < a_external_nlba a' →
    arena_view (b_lbasize b) a' m' l' = arena_view (b_lbasize b) a' m l') →
  (∀ l', 0 ≤ l' < a_external_nlba a → arena_view (b_lbasize b) a m' l' =
    if decide (l' = l) then v else arena_view (b_lbasize b) a m l') →
  ∀ lba', 0 ≤ lba' →
    btt_view b' m' lba' = if decide (lba' = lba) then Some v else btt_view b m lba'.
Proof.
  intros Hbs Hst Hlba Hloop Ha Hother Hthis lba' Hlba'. rewrite (view_static b b') by done.
  unfold btt_view. destruct (lba_to_arena_loop (b_arenas b) 0 lba') as [[j l']|] eqn:E'.
  - destruct (lba_to_arena_spec _ _ _ _ _ Hlba' E') as (_ & Hl0 & Hsum' & a' & Ha' & Hl1).
    destruct (lba_to_arena_spec _ _ _ _ _ Hlba Hloop) as (_ & _ & Hsum & _).
    rewrite !Z.sub_0_r in *. rewrite Ha'. destruct (decide (j = ai)) as [->|Hne].
    + assert (a' = a) as -> by congruence. rewrite Hthis by lia.
      destruct (decide (lba' = lba)) as [->|Hn].
      * rewrite decide_True by lia. done.
      * rewrite decide_False by lia. done.
    + rewrite (Hother j) by (done || lia). rewrite decide_False; [done|].
      intros ->. congruence.
  - rewrite decide_False; [done|]. intros ->. congruence.
Qed.

Lemma sum_nlba_static l1 : ∀ l2,
  a_static <$> l1 = a_static <$> l2 → sum_nlba l1 = sum_nlba l2.
Proof.
  induction l1 as [|x l1 IH]; intros [|y l2] E; try done.
  rewrite !fmap_cons in E. apply (inj2 cons) in E as [E1 E2].
  rewrite !sum_nlba_cons, (IH l2 E2). f_equal. by apply (f_equal a_external_nlba) in E1.
Qed.

Section refine.
Context {NS : Type} (cb : ns_callback NS) `{!NsSpec cb}.
Implicit Types (s : st NS) (n : NS).

Lemma static_updZ arenas ai a a' : lookupZ arenas ai = Some a → a_static a' = a_static a →
  a_static <$> updZ arenas ai a' = a_static <$> arenas.
Proof.
  intros Ha Hs. unfold lookupZ, updZ in *. case_decide; [|done].
  rewrite list_fmap_insert, Hs. apply list_insert_id. by rewrite list_lookup_fmap, Ha.
Qed.

(** Other arenas are untouched. *)
Lemma other_arena s ai a j a' m' : btt_ready cb s →
  lookupZ (b_arenas (s_btt s)) ai = Some a → lookupZ (b_arenas (s_btt s)) j = Some a' → j ≠ ai →
  only_inside (b_nfree (s_btt s)) a (ns_mem (s_ns s)) m' →
  eq_on (ns_mem (s_ns s)) m' (a_startoff a') (arena_end (b_nfree (s_btt s)) a').
Proof.
  intros HR Ha Ha' Hne Hin p Hp. symmetry. apply Hin.
  pose proof (bv_layout _ _ (br_inv _ _ HR)) as HL.
  destruct (decide (j < ai)).
  - pose proof (layout_disj _ _ _ _ _ _ _ j ai a' a (Z.le_refl 0) HL Ha' Ha ltac:(lia)). lia.
  - pose proof (layout_disj _ _ _ _ _ _ _ ai j a a' (Z.le_refl 0) HL Ha Ha' ltac:(lia)). lia.
Qed.

Lemma ready_update s ai a a' n' : btt_ready cb s →
  lookupZ (b_arenas (s_btt s)) ai = Some a → a_static a' = a_static a →
  arena_inv (b_lbasize (s_btt s)) (b_nfree (s_btt s)) (ns_mem n') a' →
  ns_ok n' → ns_size n' = ns_size (s_ns s) →
  only_inside (b_nfree (s_btt s)) a (ns_mem (s_ns s)) (ns_mem n') →
  btt_ready cb (mk s ai a' n').
Proof.
  intros HR Ha Hst Hinv Hok Hsz Hin. pose proof HR as [Hi _ Hrs].
  pose proof (static_updZ _ _ _ _ Ha Hst) as Hsl.
  split; [|done|by simpl; rewrite Hsz]. destruct Hi as [H1 H2 H3 H4 H5 H6 H7 H8].
  split; try done; simpl.
  - by rewrite length_updZ.
  - rewrite H3. symmetry. by apply sum_nlba_static.
  - eapply layout_static; [symmetry; exact Hsl|]. eapply layout_ext; [|exact H7].
    intros j a0 Hj p Hp. symmetry. destruct (decide (j = ai)) as [->|Hne].
    + assert (a0 = a) as -> by congruence. apply Hin. lia.
    + symmetry. apply (other_arena s ai a j a0); [done..|].
      destruct (layout_range _ _ _ _ _ _ _ _ _ (Z.le_refl 0) H7 Hj) as (G & _).
      pose proof (geo_mapoff G). lia.
  - assert (∀ j x, lookupZ (updZ (b_arenas (s_btt s)) ai a') j = Some x →
      arena_inv (b_lbasize (s_btt s)) (b_nfree (s_btt s)) (ns_mem n') x) as Hall.
    { intros j x [[_ ->]|[Hne Hj]]%lookupZ_updZ; [done|].
      eapply arena_inv_inside; [|exact (lookupZ_Forall _ _ _ _ H8 Hj)].
      by eapply (other_arena s ai a j). }
    apply Forall_lookup. intros j x Hj. apply (Hall (Z.of_nat j)). by rewrite lookupZ_nat.
Qed.

Lemma other_view s ai a m' : btt_ready cb s → lookupZ (b_arenas (s_btt s)) ai = Some a →
  only_inside (b_nfree (s_btt s)) a (ns_mem (s_ns s)) m' →
  ∀ j a' l', j ≠ ai → lookupZ (b_arenas (s_btt s)) j = Some a' → 0 ≤ l' < a_external_nlba a' →
  arena_view (b_lbasize (s_btt s)) a' m' l' =
  arena_view (b_lbasize (s_btt s)) a' (ns_mem (s_ns s)) l'.
Proof.
  intros HR Ha Hin j a' l' Hne Hj Hl'.
  destruct (arena_of_lookup cb s j a' HR Hj) as ([G _ Ho _] & _).
  eapply arena_view_inside; [exact G|exact Ho| |done].
  by eapply (other_arena s ai a j).
Qed.

(** *** Block writes *)

Lemma write_inside lbasize nfree a m lane l fr buf :
  arena_geo lbasize nfree a → flogs_ok nfree a m (a_flogs a) → owned a m (a_flogs a) →
  lookupZ (a_flogs a) lane = Some fr → 0 ≤ l < a_external_nlba a → len buf = lbasize →
  only_inside nfree a m (wrs m (write_ws a m l fr buf)).
Proof.
  intros G Hf Ho Hfr Hl Hbuf p Hp. rewrite wrs_m4.
  pose proof (ws_ranges (m := m) G Hf Ho Hfr Hl). pose proof (geo_mapoff G).
  rewrite w_m4_out by lia. apply (w_m3_out Hbuf); lia.
Qed.

Lemma write_arena_static a m lane l fr : a_static (write_arena a m lane l fr) = a_static a.
Proof. by destruct a. Qed.

Lemma write_inv lbasize nfree a m lane l fr buf :
  arena_inv lbasize nfree m a → lookupZ (a_flogs a) lane = Some fr →
  0 ≤ l < a_external_nlba a → len buf = lbasize →
  arena_inv lbasize nfree (wrs m (write_ws a m l fr buf)) (write_arena a m lane l fr).
Proof.
  intros [G Hf Ho Hid] Hfr Hl Hbuf.
  pose proof (new_flogs G Hf Ho Hfr Hl Hbuf (wrs m (write_ws a m l fr buf))) as Hnf.
  pose proof (new_owned G Hf Ho Hfr Hl Hbuf) as Hno.
  split; [by apply geo_write| | |by apply idle_write].
  - destruct Hnf as [H1 H2].
    { intros p Hp. apply w_m4_out. pose proof (geo_map G l Hl). lia. }
    split; [done|]. intros i f Hi. by destruct (H2 i f Hi).
  - by destruct Hno.
Qed.

(** The result of an operation that changes the block at [lba]. *)
Definition arena_failed (b : btt) (lba : Z) : bool :=
  match lba_to_arena_loop (b_arenas b) 0 lba with
  | Some (ai, _) =>
      match lookupZ (b_arenas b) ai with
      | Some a => negb (a_flags a &&& BTTINFO_FLAG_ERROR_MASK =? 0)
      | None => false
      end
  | None => false
  end.

Definition update_result (b : btt) (lba : Z) : res unit :=
  if b_nlba b <=? lba then Fail EINVAL
  else if arena_failed b lba then Fail EIO
  else Ok tt.

Lemma update_result_static b b' lba : b_nlba b' = b_nlba b →
  a_static <$> b_arenas b' = a_static <$> b_arenas b → update_result b' lba = update_result b lba.
Proof.
  intros Hn Hst. unfold update_result, arena_failed. rewrite Hn.
  rewrite (lba_to_arena_ext (b_arenas b') (b_arenas b)).
  2: { apply (f_equal (fmap a_external_nlba)) in Hst. by rewrite <- !list_fmap_compose in Hst. }
  destruct (lba_to_arena_loop (b_arenas b) 0 lba) as [[j l]|]; [|done].
  apply (f_equal (fmap a_flags)) in Hst. rewrite <- !list_fmap_compose in Hst.
  apply (f_equal (λ x, x !! Z.to_nat j)) in Hst. rewrite !list_lookup_fmap in Hst.
  unfold lookupZ. case_decide; [|done].
  destruct (b_arenas b' !! Z.to_nat j) as [a'|], (b_arenas b !! Z.to_nat j) as [a|];
    simpl in Hst; try done. by injection Hst as ->.
Qed.

(** What the handle announces to its users. *)
Definition b_shape (b : btt) : Z * Z * Z * Z * list Z :=
  (b_nlane b, b_nlba b, b_lbasize b, b_rawsize b, b_parent_uuid b).

(** [s'] holds the array of blocks of [s] with [v] at [lba] if the operation succeeds. *)
Definition updates s (lba : Z) (v : block) s' : Prop :=
  btt_ready cb s' ∧ b_shape (s_btt s') = b_shape (s_btt s) ∧ ns_size (s_ns s') = ns_size (s_ns s) ∧
  (∀ lba', update_result (s_btt s') lba' = update_result (s_btt s) lba') ∧
  ∀ lba', 0 ≤ lba' →
    btt_view (s_btt s') (ns_mem (s_ns s')) lba' =
    match update_result (s_btt s) lba with
    | Ok _ => if decide (lba' = lba) then Some v else btt_view (s_btt s) (ns_mem (s_ns s)) lba'
    | _ => btt_view (s_btt s) (ns_mem (s_ns s)) lba'
    end.

(** The three cases of an operation at [lba]. *)
Lemma update_cases s lba : btt_ready cb s → 0 ≤ lba →
  (update_result (s_btt s) lba = Fail EINVAL ∧ invalid_lba lba s = (Fail EINVAL, s)) ∨
  ∃ ai l a, located cb s lba ai l a ∧
    (update_result (s_btt s) lba = Fail EIO ∧ a_flags a &&& BTTINFO_FLAG_ERROR_MASK ≠ 0 ∨
     update_result (s_btt s) lba = Ok tt ∧ a_flags a &&& BTTINFO_FLAG_ERROR_MASK = 0).
Proof.
  intros HR Hlba. unfold update_result, arena_failed. rewrite invalid_lba_run.
  destruct (Z.leb_spec (b_nlba (s_btt s)) lba) as [Hge|Hlt]; [by left|right].
  destruct (locate cb s lba HR ltac:(lia)) as (ai & l & a & L). exists ai, l, a.
  split; [done|]. rewrite (lo_loop _ _ _ _ _ _ L), (lo_lookup _ _ _ _ _ _ L).
  destruct (Z.eqb_spec (a_flags a &&& BTTINFO_FLAG_ERROR_MASK) 0); simpl; auto.
Qed.

Lemma updates_same s lba v : btt_ready cb s → update_result (s_btt s) lba ≠ Ok tt →
  updates s lba v s.
Proof.
  intros HR Hne. split_and!; [done..|]. intros lba' _.
  by destruct (update_result (s_btt s) lba) as [[]| |].
Qed.

(** A block write replaces the block at its LBA and no other, whatever the
    previous state of the block; it fails with [EIO] and changes nothing when
    the block's arena is marked in error, and with [EINVAL] beyond the last LBA.  The
    invariant holds again afterwards. *)
Lemma write_refines s lane lba buf :
  btt_ready cb s → 0 ≤ lane < b_nlane (s_btt s) → 0 ≤ lba →
  len buf = b_lbasize (s_btt s) → Forall is_byte buf →
  ∃ s', btt_write cb lane lba buf s = (update_result (s_btt s) lba, s') ∧
    updates s lba (BData buf) s'.
Proof.
  intros HR Hlane Hlba Hbuf Hbytes.
  destruct (update_cases s lba HR Hlba) as [[Hr Hv]|(ai & l & a & L & [[Hr Hfl]|[Hr Hfl]])].
  - exists s. rewrite Hr. split; [by unfold btt_write; erewrite bind_fail by exact Hv|].
    apply updates_same; [done|by rewrite Hr].
  - exists s. split; [|apply updates_same; [done|by rewrite Hr]]. rewrite Hr.
    unfold btt_write. erewrite bind_ok by apply L.
    erewrite bind_ok by (apply first_write_laidout, (br_inv _ _ HR)).
    erewrite bind_ok by apply L. cbv beta iota zeta. erewrite bind_ok.
    2: { unfold get_arena. by rewrite (lo_lookup _ _ _ _ _ _ L). }
    by rewrite (proj2 (Z.eqb_neq _ _) Hfl).
  - pose proof (lo_lookup _ _ _ _ _ _ L) as Ha. pose proof (lo_l _ _ _ _ _ _ L) as Hl.
    pose proof (lo_inv _ _ _ _ _ _ L) as Hinv. pose proof Hinv as [G Hf Ho Hid].
    destruct (lookupZ_is_Some (a_flogs a) lane) as [fr Hfr].
    { rewrite (proj1 Hf). pose proof (bv_nlane _ _ (br_inv _ _ HR)). lia. }
    destruct (btt_write_run cb s lane lba ai l a fr buf HR L Hlane Hfr Hfl Hbuf)
      as (n' & E & Hok & Hm & Hsz & _).
    assert (only_inside (b_nfree (s_btt s)) a (ns_mem (s_ns s)) (ns_mem n')) as Hin
      by (rewrite Hm; by eapply write_inside).
    eexists. rewrite Hr. split; [exact E|]. split_and!; [|done|done| |].
    + eapply ready_update; [done..|by apply write_arena_static| |done|done|done].
      rewrite Hm. by apply write_inv.
    + intros lba'. apply update_result_static; [done|].
      apply (static_updZ _ _ _ _ Ha), write_arena_static.
    + rewrite Hr.
      apply (view_change _ _ _ _ ai l a); [done| |done|apply L|done|by apply (other_view s ai a)|].
      { apply (static_updZ _ _ _ _ Ha), write_arena_static. }
      intros l' Hl'. simpl. rewrite Hm, wrs_m4. case_decide as Hd.
      * subst l'. by apply (new_view G Hf Ho Hfr Hl Hbuf).
      * by apply (new_view_other G Hf Ho Hfr Hl Hbuf).
Qed.

(** *** Zero and error marks *)

(** The map entry of [l] with its flag bits replaced. *)
Definition set_flag (a : arena) (m : mem) (l k : Z) : mem :=
  wr m (map_off a l) (le_bytes 4 (target a m l + k * 2 ^ 30)).

Lemma set_flag_entry a m l k : 1 ≤ k ≤ 2 →
  rd32 (set_flag a m l k) (map_off a l) = target a m l + k * 2 ^ 30.
Proof.
  intros Hk. pose proof (target_range a m l). etransitivity; [apply rd32_wr32|]. apply u32_id. lia.
Qed.

Lemma set_flag_map a m l k l' : l' ≠ l →
  eq_on (set_flag a m l k) m (map_off a l') (map_off a l' + 4).
Proof.
  intros Hne. apply eq_on_wr_out. rewrite length_le_bytes. unfold map_off. lia.
Qed.

Lemma set_flag_target a m l k l' : 1 ≤ k ≤ 2 → target a (set_flag a m l k) l' = target a m l'.
Proof.
  intros Hk. destruct (decide (l' = l)) as [->|Hne]; [|by apply target_ext, set_flag_map].
  pose proof (target_range a m l).
  rewrite target_entry; rewrite set_flag_entry by done; [by apply entry_lba|].
  unfold map_entry_is_initial. rewrite entry_flags by lia. apply Z.eqb_neq. lia.
Qed.

Lemma set_flag_inside lbasize nfree a m l k : arena_geo lbasize nfree a →
  0 ≤ l < a_external_nlba a → only_inside nfree a m (set_flag a m l k).
Proof.
  intros G Hl p Hp. apply rd_wr_out. rewrite length_le_bytes.
  pose proof (geo_map G l Hl). pose proof (geo_mapoff G). unfold map_off in *. lia.
Qed.

Lemma set_flag_inv lbasize nfree a m l k : arena_inv lbasize nfree m a →
  0 ≤ l < a_external_nlba a → 1 ≤ k ≤ 2 → arena_inv lbasize nfree (set_flag a m l k) a.
Proof.
  intros [G Hf Ho Hid] Hl Hk. split; [done| | |done].
  - split; [apply Hf|]. intros i fr Hi. pose proof (lookupZ_Some _ _ _ Hi) as Hir.
    rewrite (proj1 Hf) in Hir. pose proof (geo_flog G i Hir). pose proof (geo_map G l Hl).
    destruct (proj2 Hf _ _ Hi) as [E1 E2 E3 E4 E5].
    assert (∀ off, a_flogoff a ≤ off → flog_at (set_flag a m l k) off = flog_at m off) as Hat.
    { intros off H1. apply flog_at_ext, eq_on_wr_out. rewrite length_le_bytes. lia. }
    split; rewrite ?Hat by lia; done.
  - eapply owned_ext; [|done]. intros. by apply set_flag_target.
Qed.

Lemma set_flag_view lbasize nfree a m l k l' : arena_inv lbasize nfree m a →
  0 ≤ l < a_external_nlba a → 0 ≤ l' < a_external_nlba a → 1 ≤ k ≤ 2 →
  arena_view lbasize a (set_flag a m l k) l' =
  if decide (l' = l) then (if k =? 1 then BError else BZero) else arena_view lbasize a m l'.
Proof.
  intros [G Hf Ho Hid] Hl Hl' Hk. case_decide as Hd.
  - subst l'. unfold arena_view. rewrite set_flag_entry by done. pose proof (target_range a m l).
    unfold map_entry_is_error, map_entry_is_zero_or_initial. rewrite entry_flags by lia.
    assert (k = 1 ∨ k = 2) as [->| ->] by lia; done.
  - eapply arena_view_ext; [exact G|by apply set_flag_map|]. rewrite set_flag_target by done.
    apply eq_on_wr_out. left. pose proof (geo_map G l Hl).
    pose proof (geo_block G (target a m l')
      (conj (proj1 (target_range _ _ _)) (ow_map_range _ _ _ Ho l' Hl'))).
    destruct G. unfold map_off in *. lia.
Qed.

Definition flag_block (setf : Z) : block :=
  if setf =? BTT_MAP_ENTRY_ERROR then BError else BZero.

(** An entry with the zero flag, or never written, reads as zeros. *)
Lemma zero_view lbasize a m l : 0 ≤ l < 2 ^ 30 →
  map_entry_is_zero_or_initial (map_entry a m l) = true → arena_view lbasize a m l = BZero.
Proof.
  unfold map_entry, arena_view. intros Hl.
  destruct (map_entry_is_initial _) eqn:Ei; intros Hz.
  - exfalso. revert Hz. unfold map_entry_is_zero_or_initial.
    rewrite lor_normal, entry_flags by lia. done.
  - unfold map_entry_is_zero_or_initial, map_entry_is_initial, map_entry_is_error in *.
    rewrite Ei in *. simpl in *. apply Z.eqb_eq in Hz. by rewrite Hz.
Qed.

Lemma lor_flag x setf : 0 ≤ x < 2 ^ 30 → setf = BTT_MAP_ENTRY_ZERO ∨ setf = BTT_MAP_ENTRY_ERROR →
  x ||| setf = x + (if setf =? BTT_MAP_ENTRY_ERROR then 1 else 2) * 2 ^ 30.
Proof. intros Hx [->| ->]; [by apply lor_zero|by apply lor_error]. Qed.

Lemma setf_refines s lane lba setf : btt_ready cb s → 0 ≤ lba →
  setf = BTT_MAP_ENTRY_ZERO ∨ setf = BTT_MAP_ENTRY_ERROR →
  ∃ s', map_entry_setf cb lane lba setf s = (update_result (s_btt s) lba, s') ∧
    updates s lba (flag_block setf) s'.
Proof.
  intros HR Hlba Hsetf. unfold map_entry_setf.
  destruct (update_cases s lba HR Hlba) as [[Hr Hv]|(ai & l & a & L & Hc)].
  { exists s. rewrite Hr. split; [by erewrite bind_fail by exact Hv|].
    apply updates_same; [done|by rewrite Hr]. }
  pose proof (bv_laidout _ _ (br_inv _ _ HR)) as Hlaid.
  erewrite bind_ok by apply L. unfold get_btt. erewrite bind_ok by reflexivity. simpl.
  rewrite Hlaid. simpl. erewrite bind_ok by (by apply first_write_laidout).
  erewrite bind_ok by apply L. cbv beta iota zeta.
  pose proof (lo_lookup _ _ _ _ _ _ L) as Ha. pose proof (lo_l _ _ _ _ _ _ L) as Hl.
  pose proof (lo_inv _ _ _ _ _ _ L) as Hinv. pose proof Hinv as [G Hf Ho Hid].
  pose proof (lookupZ_Some _ _ _ Ha) as Hai. pose proof (lo_end _ _ _ _ _ _ L) as Hend.
  erewrite bind_ok by (unfold get_arena; by rewrite Ha).
  destruct Hc as [[Hr Hfl]|[Hr Hfl]].
  { exists s. split; [|apply updates_same; [done|by rewrite Hr]].
    by rewrite Hr, (proj2 (Z.eqb_neq _ _) Hfl). }
  rewrite Hfl, Hr. simpl.
  assert (map_lock cb lane ai l s = (Ok (map_entry a (ns_mem (s_ns s)) l),
    mk s ai (a_locked l (b_nfree (s_btt s)) a) (s_ns s))) as Hlock.
  { rewrite (mk_id s ai a Ha) at 1. by apply map_lock_run; [..|apply HR| |]. }
  erewrite bind_ok by exact Hlock. cbv zeta.
  destruct ((setf =? BTT_MAP_ENTRY_ZERO) && map_entry_is_zero_or_initial _) eqn:Ez.
  - apply andb_true_iff in Ez as [Es Ez]. apply Z.eqb_eq in Es. subst setf.
    rewrite map_abort_run by (done || destruct G; lia).
    eexists. split; [by rewrite <- (mk_id s ai a Ha)|]. split_and!; [done..|]. intros lba' Hlba'.
    rewrite Hr. case_decide; [subst lba'|done]. rewrite (lo_view _ _ _ _ _ _ L). f_equal.
    apply zero_view; [destruct G; lia|done].
  - set (k := if setf =? BTT_MAP_ENTRY_ERROR then 1 else 2).
    assert (1 ≤ k ≤ 2) as Hk by (unfold k; case_match; lia).
    fold (target a (ns_mem (s_ns s)) l). rewrite lor_flag by (done || apply target_range). fold k.
    destruct (map_unlock_run cb s ai a (s_ns s) lane l (target a (ns_mem (s_ns s)) l + k * 2 ^ 30))
      as (n' & E & Hok & Hm & Hsz & _); [done..|apply HR|done|done|].
    fold (set_flag a (ns_mem (s_ns s)) l k) in Hm.
    assert (only_inside (b_nfree (s_btt s)) a (ns_mem (s_ns s)) (ns_mem n')) as Hin
      by (rewrite Hm; by eapply set_flag_inside).
    eexists. split; [exact E|]. split_and!; [|done|done| |].
    + eapply ready_update; [done..| |done|done|done]. rewrite Hm. by apply set_flag_inv.
    + intros lba'. apply update_result_static; [done|]. by apply (static_updZ _ _ _ _ Ha).
    + rewrite Hr.
      apply (view_change _ _ _ _ ai l a); [done| |done|apply L|done|by apply (other_view s ai a)|].
      { by apply (static_updZ _ _ _ _ Ha). }
      intros l' Hl'. simpl. rewrite Hm. erewrite set_flag_view by done.
      unfold flag_block, k. by destruct (setf =? BTT_MAP_ENTRY_ERROR).
Qed.

(** [btt_set_zero] and [btt_set_error] make the block at their LBA read as zeros or
    fail with an I/O error, and no other block changes; the invariant holds
    again and the map lock is free. *)
Lemma set_refines s lane lba : btt_ready cb s → 0 ≤ lba →
  (∃ s', btt_set_zero cb lane lba s = (update_result (s_btt s) lba, s') ∧ updates s lba BZero s') ∧
  (∃ s', btt_set_error cb lane lba s = (update_result (s_btt s) lba, s') ∧ updates s lba BError s').
Proof.
  intros HR Hlba. split.
  - apply (setf_refines s lane lba BTT_MAP_ENTRY_ZERO HR Hlba). by left.
  - apply (setf_refines s lane lba BTT_MAP_ENTRY_ERROR HR Hlba). by right.
Qed.
End refine.
