(* ===== verification/BttInit.v ===== *)
(** * Block translation table: opening a namespace

    [btt_init] on media that hold a layout: the info blocks are read, every flog pair is loaded
    and an update its map entry has not seen is completed.  The media are described by the
    list of arenas the run-time state will hold. *)

From stdpp Require Import base gmap list numbers.
From S2P Require Import Prelude Memory Pmem Util BttLayout Btt BttSpec BttRun BttRefine.
Local Open Scope Z_scope.

(** ** The recovery step *)

(** What loading flog entry [f] does to the media. *)
Definition recover1 (a : arena) (m : mem) (f : btt_flog) : mem :=
  if fl_old_map f =? fl_new_map f then m
  else if negb (fl_new_map f =? map_entry a m (fl_lba f)) && (fl_old_map f =? map_entry a m (fl_lba f))
       then wr m (map_off a (fl_lba f)) (le_bytes 4 (fl_new_map f))
       else m.

Definition recover_flogs (a : arena) (m : mem) (frs : list flog_runtime) : mem :=
  foldl (λ m fr, recover1 a m (fr_flog fr)) m frs.

Definition recover_arenas (m : mem) (arenas : list arena) : mem :=
  foldl (λ m a, recover_flogs a m (a_flogs a)) m arenas.

Lemma recover1_cases a m f :
  recover1 a m f = m ∨ recover1 a m f = wr m (map_off a (fl_lba f)) (le_bytes 4 (fl_new_map f)).
Proof. unfold recover1. repeat case_match; auto. Qed.

(** The current entry of a pair names an LBA of the arena. *)
Lemma flog_ok_lba a m i fr : flog_ok a m i fr → 0 ≤ fl_lba (fr_flog fr) < a_external_nlba a.
Proof.
  intros [_ Hv _ H0 H1]. rewrite get_valid_pick in Hv. destruct (seq_pick _ _) as [k|] eqn:E; [|done].
  injection Hv as Hf _. rewrite <- Hf.
  destruct (seq_pick_01 _ _ _ E) as [->| ->]; simpl; (split; [apply le_field_range|done]).
Qed.

Section recover.
Context {lbasize nfree : Z} {a : arena} (G : arena_geo lbasize nfree a).

Lemma flogs_ok_ext m m' frs :
  (∀ p, a_flogoff a ≤ p < arena_end nfree a → rd m' p = rd m p) →
  flogs_ok nfree a m frs → flogs_ok nfree a m' frs.
Proof using G.
  intros He [Hlen Hf]. split; [done|]. intros i fr Hi.
  pose proof (lookupZ_Some _ _ _ Hi) as Hir. rewrite Hlen in Hir.
  pose proof (geo_flog G i Hir). destruct (Hf _ _ Hi) as [E1 E2 E3 E4 E5].
  assert (∀ off, a_flogoff a ≤ off → off + 16 ≤ arena_end nfree a →
    flog_at m' off = flog_at m off) as Hat.
  { intros off H1 H2. apply flog_at_ext. intros p Hp. apply He. lia. }
  split; rewrite ?Hat by lia; done.
Qed.

Lemma recover1_out m f p : 0 ≤ fl_lba f < a_external_nlba a →
  ¬ (a_mapoff a ≤ p < a_flogoff a) → rd (recover1 a m f) p = rd m p.
Proof using G.
  intros Hl Hp. destruct (recover1_cases a m f) as [->| ->]; [done|].
  apply rd_wr_out. rewrite length_le_bytes. pose proof (geo_map G _ Hl). unfold map_off in *. lia.
Qed.

Lemma recover_flogs_out frs : ∀ m p, flogs_ok nfree a m frs ∨ Forall (λ fr,
    0 ≤ fl_lba (fr_flog fr) < a_external_nlba a) frs →
  ¬ (a_mapoff a ≤ p < a_flogoff a) → rd (recover_flogs a m frs) p = rd m p.
Proof using G.
  intros m p Hf Hp.
  assert (Forall (λ fr, 0 ≤ fl_lba (fr_flog fr) < a_external_nlba a) frs) as HF.
  { destruct Hf as [[_ Hf]|]; [|done]. apply Forall_lookup. intros i fr Hi.
    eapply (flog_ok_lba a m (Z.of_nat i)), Hf. by rewrite lookupZ_nat. }
  clear Hf. revert m. induction HF as [|fr frs Hfr HF IH]; intros m; [done|].
  cbn [recover_flogs foldl]. fold (recover_flogs a (recover1 a m (fr_flog fr)) frs).
  rewrite IH. by apply recover1_out.
Qed.

(** A completed update is left alone. *)
Lemma recover1_id m fr : (0 ≤ fl_lba (fr_flog fr) < a_external_nlba a) →
  target a m (fl_lba (fr_flog fr)) ≠ free_block fr → recover1 a m (fr_flog fr) = m.
Proof using.
  intros Hl Hne. unfold recover1. case_match; [done|].
  destruct (Z.eqb_spec (fl_old_map (fr_flog fr)) (map_entry a m (fl_lba (fr_flog fr)))) as [E|];
    [|by rewrite andb_false_r].
  destruct Hne. unfold free_block. by rewrite E.
Qed.

Lemma recover_flogs_id m frs : (∀ fr, fr ∈ frs → recover1 a m (fr_flog fr) = m) →
  recover_flogs a m frs = m.
Proof using.
  induction frs as [|fr frs IH]; intros H; [done|].
  cbn [recover_flogs foldl]. rewrite H by constructor.
  apply IH. intros f Hf. apply H. by constructor.
Qed.

Lemma recover_owned m frs : flogs_ok nfree a m frs → owned a m frs →
  recover_flogs a m frs = m.
Proof using.
  intros [_ Hf] Ho. apply recover_flogs_id. intros fr [i Hi]%list_elem_of_lookup.
  rewrite <- lookupZ_nat in Hi. pose proof (flog_ok_lba _ _ _ _ (Hf _ _ Hi)).
  apply recover1_id; [done|]. by eapply ow_disj.
Qed.
End recover.

Lemma recover_arenas_id nfree m arenas :
  Forall (λ a, flogs_ok nfree a m (a_flogs a) ∧ owned a m (a_flogs a)) arenas →
  recover_arenas m arenas = m.
Proof.
  induction 1 as [|a arenas [Hf Ho] _ IH]; [done|].
  cbn [recover_arenas foldl]. rewrite (recover_owned m (a_flogs a) Hf Ho). exact IH.
Qed.

Lemma recover_arenas_inv lbasize nfree m arenas :
  Forall (arena_inv lbasize nfree m) arenas → recover_arenas m arenas = m.
Proof.
  intros H. apply (recover_arenas_id nfree). eapply Forall_impl; [|exact H]. by intros a [].
Qed.

(** ** Loading the flog *)

Lemma lookupZ_app_here {A} (pre : list A) x suf : lookupZ (pre ++ x :: suf) (len pre) = Some x.
Proof. rewrite lookupZ_nat. by apply list_lookup_middle. Qed.

Lemma updZ_app_here {A} (pre : list A) x y suf : updZ (pre ++ x :: suf) (len pre) y = pre ++ y :: suf.
Proof.
  unfold updZ. rewrite decide_True by lia. rewrite Nat2Z.id.
  rewrite insert_app_r_alt by lia. by rewrite Nat.sub_diag.
Qed.

Section load.
Context {NS : Type} (cb : ns_callback NS) `{!NsSpec cb}.
Implicit Types (s : st NS) (n : NS).

Lemma invalid_lba_ok s lba : lba < b_nlba (s_btt s) → invalid_lba lba s = (Ok tt, s).
Proof. intros H. rewrite invalid_lba_run. by rewrite (proj2 (Z.leb_gt _ _)). Qed.

Lemma flog_pair_slices m off :
  btt_flog_convert2h (slice (rdn m off 32) 0 16) = flog_at m off ∧
  btt_flog_convert2h (slice (rdn m off 32) 16 16) = flog_at m (off + 16).
Proof.
  pose proof (rdn_sub m off 32 off 16) as H1. rewrite Z.sub_diag in H1.
  pose proof (rdn_sub m off 32 (off + 16) 16) as H2. replace (off + 16 - off) with 16 in H2 by lia.
  unfold flog_at, slice. by rewrite H1, H2 by lia.
Qed.

Lemma read_flog_pair_run s ai a n lane i fr z :
  let nfree := b_nfree (s_btt s) in
  arena_geo (b_lbasize (s_btt s)) nfree a → 0 ≤ ai < len (b_arenas (s_btt s)) →
  ns_ok n → arena_end nfree a ≤ ns_size n → a_external_nlba a ≤ b_nlba (s_btt s) →
  lane < nfree → 0 ≤ i < nfree → lookupZ (a_flogs a) i = Some z →
  flog_ok a (ns_mem n) i fr →
  ∃ n', read_flog_pair cb lane ai (flog_off a i) i (mk s ai a n) =
        (Ok tt, mk s ai (a_set_flogs (updZ (a_flogs a) i fr) a) n') ∧ ns_ok n' ∧
    ns_mem n' = recover1 a (ns_mem n) (fr_flog fr) ∧ ns_size n' = ns_size n.
Proof.
  intros nfree G Hai Hok Hend Hnlba Hlane Hi Hz Hf.
  pose proof (flog_ok_lba _ _ _ _ Hf) as Hlba. destruct Hf as [He Hv _ H0 H1].
  pose proof (lookupZ_Some _ _ _ Hz) as Hzr. pose proof (geo_flog G i Hi) as Hfo.
  pose proof (geo_mapoff G). pose proof (ns_size_range n Hok) as Hsz.
  pose proof (geo_map G _ Hlba) as Hmo.
  set (fr1 := FlogRuntime (fr_flog z) (flog_off a i, flog_off a i + 16) (fr_next z)).
  set (a1 := a_set_flogs (updZ (a_flogs a) i fr1) a).
  set (a2 := a_set_flogs (updZ (a_flogs a) i fr) a).
  assert (lookupZ (a_flogs a1) i = Some fr1) as Hz1 by (by apply lookupZ_updZ_eq).
  assert (set_flog ai i (FlogRuntime (fr_flog fr) (fr_entries fr1) (fr_next fr)) (mk s ai a1 n)
          = (Ok tt, mk s ai a2 n)) as Hset.
  { rewrite set_flog_mk by (done || by apply lookupZ_Some in Hz1).
    do 2 f_equal. unfold a1, a2, a_set_flogs. simpl. rewrite updZ_updZ. unfold fr1. simpl.
    rewrite <- He. by destruct fr. }
  assert (∃ n', (if fl_old_map (fr_flog fr) =? fl_new_map (fr_flog fr) then mret tt
    else
      a ← get_arena ai;
      let map_entry_off := u64 (a_mapoff a + u32 (BTT_MAP_ENTRY_SIZE * fl_lba (fr_flog fr))) in
      ebs ← ns_read cb lane 4 map_entry_off;
      let entry := le_of ebs in
      let entry := if map_entry_is_initial entry
                   then fl_lba (fr_flog fr) ||| BTT_MAP_ENTRY_NORMAL else entry in
      if negb (fl_new_map (fr_flog fr) =? entry) && (fl_old_map (fr_flog fr) =? entry)
      then ns_write cb lane (le_bytes 4 (fl_new_map (fr_flog fr))) map_entry_off
      else mret tt) (mk s ai a2 n) = (Ok tt, mk s ai a2 n') ∧ ns_ok n' ∧
    ns_mem n' = recover1 a (ns_mem n) (fr_flog fr) ∧ ns_size n' = ns_size n) as (n' & Hrec & Hn').
  { unfold recover1. destruct (_ =? _); [by exists n|].
    erewrite bind_ok by (by apply get_arena_mk). cbv zeta. change (a_mapoff a2) with (a_mapoff a).
    erewrite bind_ok by (eapply (map_read cb _ _ a); [exact G|done..]).
    fold (rd32 (ns_mem n) (map_off a (fl_lba (fr_flog fr)))).
    fold (map_entry a (ns_mem n) (fl_lba (fr_flog fr))).
    destruct (negb _ && _); [|by exists n].
    rewrite (map_entry_off_eq G) by (done || lia).
    destruct (ns_write_mk cb s ai a2 n lane (le_bytes 4 (fl_new_map (fr_flog fr)))
      (map_off a (fl_lba (fr_flog fr)))) as (n' & E & ? & ? & ? & _);
      [done|unfold map_off; lia|done|rewrite length_le_bytes; lia|]. by exists n'. }
  exists n'. split; [|done].
  unfold read_flog_pair. erewrite bind_ok by (by apply get_flog_mk).
  change sizeof_btt_flog with 16. rewrite u64_id by lia. fold fr1.
  erewrite bind_ok by (by apply set_flog_mk). fold a1. unfold get_btt.
  erewrite bind_ok by reflexivity. cbn [compose s_btt mk b_nfree b_set_arenas].
  change (b_nfree (s_btt s)) with nfree. rewrite (proj2 (Z.leb_gt _ _)) by lia.
  assert (0 < flog_off a i) by (destruct G; unfold map_off, block_off in *; nia).
  rewrite (proj2 (Z.eqb_neq _ _)) by lia.
  erewrite bind_ok.
  2: { unfold ns_read. simpl. rewrite ns_read_ok by (done || lia). reflexivity. }
  cbv zeta. change (Z.to_nat (2 * 16)) with 32%nat.
  destruct (flog_pair_slices (ns_mem n) (flog_off a i)) as [-> ->].
  erewrite bind_ok by (apply invalid_lba_ok; exact (Z.lt_le_trans _ _ _ H0 Hnlba)).
  erewrite bind_ok by (apply invalid_lba_ok; exact (Z.lt_le_trans _ _ _ H1 Hnlba)).
  rewrite Hv. erewrite bind_ok by (apply get_flog_mk; [done|exact Hz1]).
  erewrite bind_ok by exact Hset. exact Hrec.
Qed.

Lemma flogs_ok_static nfree a a' m frs : a_static a = a_static a' →
  flogs_ok nfree a m frs → flogs_ok nfree a' m frs.
Proof.
  intros Hs [Hlen Hf]. split; [done|]. intros i fr Hi. destruct (Hf i fr Hi) as [E1 E2 E3 E4 E5].
  assert (∀ i, flog_off a' i = flog_off a i) as Ho.
  { intros j. change (flog_off (a_static a') j = flog_off (a_static a) j). by rewrite Hs. }
  assert (a_external_nlba a' = a_external_nlba a) as Hx.
  { change (a_external_nlba (a_static a') = a_external_nlba (a_static a)). by rewrite Hs. }
  split; rewrite ?Ho, ?Hx; done.
Qed.

Lemma recover_flogs_static a a' m frs : a_static a = a_static a' →
  recover_flogs a m frs = recover_flogs a' m frs.
Proof.
  intros Hs. change (recover_flogs (a_static a) m frs = recover_flogs (a_static a') m frs).
  by rewrite Hs.
Qed.

Lemma read_flogs_loop_run s ai lane suf : ∀ a n pre,
  let nfree := b_nfree (s_btt s) in
  arena_geo (b_lbasize (s_btt s)) nfree a → 0 ≤ ai < len (b_arenas (s_btt s)) →
  ns_ok n → arena_end nfree a ≤ ns_size n → a_external_nlba a ≤ b_nlba (s_btt s) →
  lane < nfree → a_flogs a = pre ++ replicate (length suf) zero_flog_runtime →
  flogs_ok nfree a (ns_mem n) (pre ++ suf) →
  ∃ n', read_flogs_loop cb lane ai (length suf) (len pre) (flog_off a (len pre)) (mk s ai a n) =
        (Ok tt, mk s ai (a_set_flogs (pre ++ suf) a) n') ∧ ns_ok n' ∧
    ns_mem n' = recover_flogs a (ns_mem n) suf ∧ ns_size n' = ns_size n.
Proof.
  induction suf as [|fr suf IH]; intros a n pre nfree G Hai Hok Hend Hnlba Hlane Hfl Hf.
  { exists n. split; [|done]. simpl in *. rewrite <- Hfl. by destruct a. }
  simpl in Hfl. pose proof (proj1 Hf) as Hlen. rewrite length_app in Hlen. simpl in Hlen.
  pose proof (proj2 Hf (len pre) fr (lookupZ_app_here _ _ _)) as Hfr.
  destruct (read_flog_pair_run s ai a n lane (len pre) fr zero_flog_runtime)
    as (n1 & E1 & Hok1 & Hm1 & Hs1); try done; [lia|rewrite Hfl; apply lookupZ_app_here|].
  set (a1 := a_set_flogs (updZ (a_flogs a) (len pre) fr) a) in *.
  assert (a_static a = a_static a1) as Hst by (by destruct a).
  destruct (IH a1 n1 (pre ++ [fr])) as (n2 & E2 & Hok2 & Hm2 & Hs2).
  - by eapply geo_static.
  - done.
  - done.
  - by rewrite Hs1.
  - done.
  - done.
  - simpl. rewrite Hfl, updZ_app_here. by rewrite <- (assoc_L (++)).
  - rewrite <- (assoc_L (++)). apply (flogs_ok_static _ a); [done|]. rewrite Hm1.
    eapply (flogs_ok_ext G); [|exact Hf]. intros p Hp. apply (recover1_out G); [|lia].
    by eapply flog_ok_lba.
  - exists n2. split_and!; [|done| |by rewrite Hs2, Hs1].
    + cbn [length read_flogs_loop]. erewrite bind_ok by (by apply on_fail_ok).
      change (roundup (2 * sizeof_btt_flog) BTT_FLOG_PAIR_ALIGN) with 64.
      pose proof (geo_flog G (len pre) ltac:(unfold nfree in *; lia)). pose proof (geo_mapoff G).
      pose proof (ns_size_range n Hok).
      rewrite u64_id by (unfold nfree in *; lia). rewrite length_app in E2.
      replace (Z.of_nat (length pre + length [fr])) with (len pre + 1) in E2 by (simpl; lia).
      replace (flog_off a (len pre) + 64) with (flog_off a1 (len pre + 1))
        by (unfold flog_off, a1; simpl; lia).
      rewrite E2. do 2 f_equal. rewrite <- (assoc_L (++)). by destruct a.
    + rewrite Hm2, Hm1, <- (recover_flogs_static _ _ _ _ Hst). done.
Qed.

Lemma Malloc_ok s : s_malloc s = [] → Malloc s = (Ok tt, s).
Proof. intros H. unfold Malloc. by rewrite H. Qed.

Lemma read_info_eq puuid bs info : read_info puuid bs = Some info → info = btt_info_convert2h bs.
Proof. unfold read_info. repeat case_match; intros; by simplify_eq. Qed.

(** Loading one arena: [a] is the arena the info block and the flog describe. *)
Lemma read_arena_run s ai lane off puuid info a a0 :
  let nfree := b_nfree (s_btt s) in
  lookupZ (b_arenas (s_btt s)) ai = Some a0 → s_malloc s = [] → ns_ok (s_ns s) →
  0 ≤ off → arena_end nfree a ≤ ns_size (s_ns s) →
  read_info puuid (rdn (ns_mem (s_ns s)) off 4096) = Some info → arena_of info off a = a →
  arena_geo (b_lbasize (s_btt s)) nfree a → arena_idle nfree a →
  flogs_ok nfree a (ns_mem (s_ns s)) (a_flogs a) →
  a_external_nlba a ≤ b_nlba (s_btt s) → lane < nfree →
  ∃ n', read_arena cb lane off ai s = (Ok tt, mk s ai a n') ∧ ns_ok n' ∧
    ns_mem n' = recover_flogs a (ns_mem (s_ns s)) (a_flogs a) ∧ ns_size n' = ns_size (s_ns s).
Proof.
  intros nfree Ha0 Hml Hok Hoff Hend Hinfo Hof G [Hr Hk Hil] Hf Hnlba Hlane.
  pose proof (lookupZ_Some _ _ _ Ha0) as Hai. pose proof (geo_mapoff G).
  assert (a_startoff a = off) as Hst by (rewrite <- Hof; done).
  apply read_info_eq in Hinfo. subst info.
  set (info := btt_info_convert2h (rdn (ns_mem (s_ns s)) off 4096)) in *.
  set (aI := arena_of info off a0).
  set (a1 := a_set_flogs (replicate (Z.to_nat nfree) zero_flog_runtime) aI).
  assert (a_static a = a_static a1) as Hs1 by (rewrite <- Hof; done).
  assert (length (a_flogs a) = Z.to_nat nfree) as Hlf by (destruct Hf as [<- _]; lia).
  destruct (read_flogs_loop_run s ai lane (a_flogs a) a1 (s_ns s) [])
    as (n' & E & Hok' & Hm & Hsz).
  { by eapply geo_static. } { done. } { done. }
  { change (arena_end nfree (a_static a1) ≤ ns_size (s_ns s)). by rewrite <- Hs1. }
  { change (a_external_nlba (a_static a1) ≤ b_nlba (s_btt s)). by rewrite <- Hs1. }
  { done. } { simpl. by rewrite Hlf. } { by apply (flogs_ok_static _ a). }
  replace (flog_off a1 (len [])) with (a_flogoff a1) in E by (unfold flog_off; simpl; lia).
  rewrite Hlf in E.
  exists n'. split_and!; [|done|by rewrite Hm, <- (recover_flogs_static _ _ _ _ Hs1)|done].
  unfold read_arena. erewrite bind_ok.
  2: { unfold ns_read. rewrite ns_read_ok; [reflexivity|done|done|done|].
       change sizeof_btt_info with 4096. lia. }
  change (Z.to_nat sizeof_btt_info) with 4096%nat. rewrite (mk_id s ai a0 Ha0) at 1.
  erewrite bind_ok by (by apply mod_arena_mk).
  unfold read_flogs. erewrite bind_ok.
  2: { unfold get_btt. erewrite bind_ok by reflexivity. cbn [compose s_btt mk b_nfree b_set_arenas].
       erewrite bind_ok by (by apply Malloc_ok). erewrite bind_ok by (by apply mod_arena_mk).
       erewrite bind_ok by (by apply get_arena_mk). exact E. }
  unfold build_rtt. erewrite bind_ok.
  2: { unfold get_btt. erewrite bind_ok by reflexivity. erewrite bind_ok by (by apply Malloc_ok).
       by apply mod_arena_mk. }
  unfold build_map_locks. erewrite bind_ok.
  2: { unfold get_btt. erewrite bind_ok by reflexivity. erewrite bind_ok by (by apply Malloc_ok).
       by apply mod_arena_mk. }
  rewrite mod_arena_mk by done. do 2 f_equal. rewrite <- Hof.
  unfold arena_of. rewrite Hr, Hk, Hil. done.
Qed.

(** The media hold the flogs of these arenas. *)
Definition media_ok (nfree : Z) (m : mem) (a : arena) : Prop :=
  arena_idle nfree a ∧ flogs_ok nfree a m (a_flogs a).

Lemma mk_append s a n pre suf : b_arenas (s_btt s) = pre ++ zero_arena :: suf →
  b_arenas (s_btt (mk s (len pre) a n)) = (pre ++ [a]) ++ suf.
Proof. intros H. simpl. by rewrite H, updZ_app_here, <- (assoc_L (++)). Qed.

Lemma read_arenas_loop_run lane puuid suf : ∀ s pre off rawsize,
  let nfree := b_nfree (s_btt s) in
  b_arenas (s_btt s) = pre ++ replicate (length suf) zero_arena →
  s_malloc s = [] → ns_ok (s_ns s) → 0 ≤ off → off + rawsize ≤ ns_size (s_ns s) →
  suf ≠ [] → layout_ok puuid (b_lbasize (s_btt s)) nfree (ns_mem (s_ns s)) off rawsize suf →
  Forall (media_ok nfree (ns_mem (s_ns s))) suf →
  Forall (λ a, a_external_nlba a ≤ b_nlba (s_btt s)) suf → lane < nfree →
  ∃ n', read_arenas_loop cb lane (length suf) (len pre) off s =
    (Ok tt, St (b_set_arenas (pre ++ suf) (s_btt s)) n' [] (s_uuid s)) ∧
    ns_ok n' ∧ ns_size n' = ns_size (s_ns s) ∧
    ns_mem n' = recover_arenas (ns_mem (s_ns s)) suf.
Proof.
  induction suf as [|a suf IH]; intros s pre off rawsize nfree Hb Hml Hok Hoff Hsz _ HL Hmed Hx Hlane;
    [done|].
  apply Forall_cons_iff in Hmed as [[Hid Hf] Hmed]. apply Forall_cons_iff in Hx as [Hxa Hx].
  pose proof HL as (Hmin & G & (info & Hinfo & _ & _ & Hof & Hnext) & Hrest).
  assert (arena_end nfree a ≤ off + rawsize) as Hend.
  { destruct suf; [done|]. destruct Hrest as (? & ? & _). unfold BTT_MAX_ARENA in *. lia. }
  destruct (read_arena_run s (len pre) lane off puuid info a zero_arena)
    as (n1 & E1 & Hok1 & Hm1 & Hs1); try done; [by rewrite Hb; apply lookupZ_app_here|by etransitivity; [exact Hend|exact Hsz]|].
  pose proof (mk_append s a n1 pre _ Hb) as Hb1.
  assert (0 ≤ len pre < len (b_arenas (s_btt s))) as Hai.
  { rewrite Hb, length_app. simpl. lia. }
  destruct suf as [|a' suf].
  { exists n1. split_and!; [|done|done|done]. cbn [length read_arenas_loop].
    erewrite bind_ok by exact E1. erewrite bind_ok by (by apply get_arena_mk).
    simpl. unfold mk, mret, M_ret. rewrite Hml. do 3 f_equal. unfold mk in Hb1. simpl in Hb1. rewrite Hb1.
    by rewrite app_nil_r. }
  destruct Hrest as (Hmax & Hend' & HL'). unfold BTT_MAX_ARENA in *.
  assert (0 ≤ off + 2 ^ 39) as Hpos by lia.
  assert (∀ p, ¬ (a_mapoff a ≤ p < a_flogoff a) → rd (ns_mem n1) p = rd (ns_mem (s_ns s)) p) as Hout.
  { intros p Hp. rewrite Hm1. eapply (recover_flogs_out G); [by left|done]. }
  assert (∀ j a0 p, lookupZ (a' :: suf) j = Some a0 → a_startoff a0 ≤ p →
    rd (ns_mem n1) p = rd (ns_mem (s_ns s)) p) as Hkeep.
  { intros j a0 p Hj Hp. apply Hout.
    destruct (layout_range _ _ _ _ _ _ _ _ _ Hpos HL' Hj) as (_ & Hs0 & _).
    pose proof (geo_mapoff G). unfold nfree in *. lia. }
  destruct (IH (mk s (len pre) a n1) (pre ++ [a]) (off + 2 ^ 39) (rawsize - 2 ^ 39))
    as (n2 & E2 & Hok2 & Hs2 & Hm2); try done;
    cbn [mk s_ns s_btt b_lbasize b_nfree b_nlba b_set_arenas s_uuid] in *.
  - by rewrite Hs1; lia.
  - eapply layout_ext; [|exact HL']. intros j a0 Hj p Hp. symmetry. apply (Hkeep j a0); [done|lia].
  - apply Forall_lookup. intros j a0 Hj. pose proof (Forall_lookup_1 _ _ _ _ Hmed Hj) as [H1 H2].
    rewrite <- lookupZ_nat in Hj. split; [done|].
    destruct (layout_range _ _ _ _ _ _ _ _ _ Hpos HL' Hj) as (G0 & _ & _).
    apply (flogs_ok_ext G0) with (ns_mem (s_ns s)); [|done]. intros p Hp.
    apply (Hkeep (Z.of_nat j) a0); [done|]. pose proof (geo_mapoff G0). lia.
  - exists n2. split_and!; [|done|by rewrite Hs2|by rewrite Hm2, Hm1].
    change (read_arenas_loop cb lane (S (S (length suf))) (len pre) off s =
      (Ok tt, St (b_set_arenas (pre ++ a :: a' :: suf) (s_btt s)) n2 [] (s_uuid s))).
    remember (S (length suf)) as k. cbn [read_arenas_loop].
    erewrite bind_ok by exact E1. erewrite bind_ok by (by apply get_arena_mk).
    assert (a_nextoff a = off + 2 ^ 39) as ->.
    { rewrite <- Hof. simpl. rewrite Hnext. apply u64_id. pose proof (ns_size_range _ Hok). lia. }
    rewrite length_app in E2.
    replace (Z.of_nat (length pre + length [a])) with (len pre + 1) in E2 by (simpl; lia).
    subst k. etransitivity; [exact E2|]. by rewrite <- (assoc_L (++)).
Qed.

Lemma geo_ext_size lbasize nfree a : arena_geo lbasize nfree a →
  a_external_nlba a ≤ arena_end nfree a - a_startoff a.
Proof.
  intros G. pose proof (geo_mapoff G).
  destruct G. unfold map_off in *. lia.
Qed.

Lemma sum_nlba_bound puuid lbasize nfree m arenas : ∀ off rawsize,
  0 ≤ off → layout_ok puuid lbasize nfree m off rawsize arenas → sum_nlba arenas ≤ rawsize.
Proof.
  induction arenas as [|a arenas IH]; intros off rawsize Hoff HL; [done|].
  destruct HL as (Hmin & G & (info & _ & _ & _ & Hof & _) & Hrest).
  assert (a_startoff a = off) as Hst by (rewrite <- Hof; done).
  pose proof (geo_ext_size _ _ _ G). rewrite sum_nlba_cons.
  destruct arenas as [|a' arenas].
  - change (sum_nlba []) with 0. lia.
  - destruct Hrest as (H1 & H2 & H3). unfold BTT_MAX_ARENA in *.
    apply IH in H3; lia.
Qed.

(** The scan of the info blocks. *)
Lemma read_layout_loop_run lane lbasize nfree arenas s : ∀ fuel off rawsize narena small total,
  b_lbasize (s_btt s) = lbasize → ns_ok (s_ns s) → 0 ≤ off → off + rawsize ≤ ns_size (s_ns s) →
  layout_ok (b_parent_uuid (s_btt s)) lbasize nfree (ns_mem (s_ns s)) off rawsize arenas →
  Z.of_nat fuel = rawsize / BTT_MAX_ARENA + 1 → small = nfree ∨ nfree < small →
  0 ≤ total → total + sum_nlba arenas < 2 ^ 64 →
  read_layout_loop cb lane fuel rawsize narena small total off s =
  (Ok (Some (narena + len arenas, total + sum_nlba arenas, nfree)), s).
Proof.
  induction arenas as [|a arenas IH];
    intros fuel off rawsize narena small total Hls Hok Hoff Hsz HL Hfuel Hsmall Ht Hsum; [done|].
  pose proof HL as HL0. destruct HL as (Hmin & G & (info & Hinfo & Hx & Hnf & Hof & Hnext) & Hrest).
  rewrite sum_nlba_cons in Hsum |- *. pose proof (g_nfree _ _ _ G). pose proof (g_ext _ _ _ G).
  assert (0 ≤ sum_nlba arenas) as Hs0.
  { apply sum_nlba_nonneg, Forall_lookup. intros j a0 Hj.
    destruct (layout_range _ _ _ _ _ off rawsize (Z.of_nat (S j)) a0 Hoff HL0) as (G0 & _).
    { by rewrite lookupZ_nat. }
    pose proof (g_ext _ _ _ G0). lia. }
  assert (bi_external_nlba info = a_external_nlba a) as Hxn by (rewrite <- Hof; done).
  assert (0 ≤ rawsize / BTT_MAX_ARENA).
  { apply Z.div_pos; unfold BTT_MAX_ARENA, BTT_MIN_SIZE in *; lia. }
  destruct fuel as [|fuel]; [lia|]. cbn [read_layout_loop].
  rewrite (proj2 (Z.ltb_ge _ _)) by done. cbv zeta.
  pose proof (geo_mapoff G). assert (a_startoff a = off) as Hst by (rewrite <- Hof; done).
  assert (arena_end nfree a ≤ off + rawsize) as Hend.
  { destruct arenas; [done|]. lia. }
  erewrite bind_ok.
  2: { unfold ns_read. rewrite ns_read_ok; [reflexivity|done|done|done|].
       change sizeof_btt_info with 4096. lia. }
  change (Z.to_nat sizeof_btt_info) with 4096%nat. unfold get_btt. erewrite bind_ok by reflexivity.
  cbn [compose]. rewrite Hinfo, Hls, Hx, Hnf, Hxn, Z.eqb_refl. cbn [negb].
  rewrite (proj2 (Z.eqb_neq nfree 0)), (proj2 (Z.eqb_neq (a_external_nlba a) 0)) by lia.
  assert ((if nfree <? small then nfree else small) = nfree) as ->.
  { destruct (Z.ltb_spec nfree small); lia. }
  rewrite (u64_id (total + _)) by lia. rewrite Hnext. destruct arenas as [|a' arenas].
  { cbn [negb andb Z.eqb]. unfold mret, M_ret. change (sum_nlba []) with 0.
    cbn [length]. by rewrite Z.add_0_r. }
  destruct Hrest as (Hr1 & Hr2 & Hr3).
  change (negb (BTT_MAX_ARENA =? 0) && negb (BTT_MAX_ARENA =? BTT_MAX_ARENA)) with false.
  change (BTT_MAX_ARENA =? 0) with false. cbv iota.
  rewrite (proj2 (Z.ltb_ge _ _)) by done. pose proof (ns_size_range _ Hok).
  rewrite u64_id by (unfold BTT_MAX_ARENA in *; lia).
  rewrite IH; [..|exact Hr3| |by left| |]; try done; try (unfold BTT_MAX_ARENA in *; lia).
  - do 4 f_equal. f_equal; [cbn [length]; lia|lia].
  - replace (rawsize - BTT_MAX_ARENA) with (rawsize + (-1) * BTT_MAX_ARENA) by lia.
    rewrite Z.div_add by done. lia.
Qed.

(** The handle [btt_init] builds. *)
Definition init_btt (rawsize lbasize : Z) (puuid : list Z) (maxlane nfree : Z)
    (arenas : list arena) : btt :=
  Btt (if negb (maxlane =? 0) && (maxlane <? nfree) then maxlane else nfree)
    false true (zeros 16) puuid rawsize lbasize nfree (sum_nlba arenas) (len arenas) arenas.

Lemma ext_le_sum puuid lbasize nfree m off rawsize arenas : 0 ≤ off →
  layout_ok puuid lbasize nfree m off rawsize arenas →
  Forall (λ a, a_external_nlba a ≤ sum_nlba arenas) arenas.
Proof.
  intros Hoff HL.
  assert (Forall (λ a, 0 ≤ a_external_nlba a) arenas) as Hpos.
  { apply Forall_lookup. intros j a Hj. rewrite <- lookupZ_nat in Hj.
    destruct (layout_range _ _ _ _ _ _ _ _ _ Hoff HL Hj) as (G & _). destruct G. lia. }
  clear HL. induction Hpos as [|a arenas Ha Hpos IH]; [done|]. rewrite sum_nlba_cons.
  pose proof (sum_nlba_nonneg _ Hpos). constructor; [lia|].
  eapply Forall_impl; [|exact IH]. simpl. lia.
Qed.

Lemma btt_init_run s rawsize lbasize puuid maxlane nfree arenas :
  s_malloc s = [] → ns_ok (s_ns s) → rawsize ≤ ns_size (s_ns s) →
  layout_ok puuid lbasize nfree (ns_mem (s_ns s)) 0 rawsize arenas →
  Forall (media_ok nfree (ns_mem (s_ns s))) arenas → nfree ≤ BTT_DEFAULT_NFREE →
  ∃ n', btt_init cb rawsize lbasize puuid maxlane s =
    (Ok tt, St (init_btt rawsize lbasize puuid maxlane nfree arenas) n' [] (s_uuid s)) ∧
    ns_ok n' ∧ ns_size n' = ns_size (s_ns s) ∧
    ns_mem n' = recover_arenas (ns_mem (s_ns s)) arenas.
Proof.
  intros Hml Hok Hsz HL Hmed Hnf. unfold BTT_DEFAULT_NFREE in Hnf.
  assert (BTT_MIN_SIZE ≤ rawsize ∧ 0 < nfree ∧ arenas ≠ []) as (Hmin & Hnf0 & Hne).
  { destruct arenas; [done|]. destruct HL as (? & G & _). by destruct G. }
  pose proof (sum_nlba_bound _ _ _ _ _ _ _ (Z.le_refl 0) HL) as Hsb.
  pose proof (ns_size_range _ Hok) as Hns.
  set (b1 := Btt 0 false false (zeros 16) puuid rawsize lbasize 256 0 0 []).
  set (s1 := St b1 (s_ns s) [] (s_uuid s)).
  pose proof (read_layout_loop_run 0 lbasize nfree arenas s1
    (Z.to_nat (rawsize / BTT_MAX_ARENA + 1)) 0 rawsize 0 (2 ^ 32 - 1) 0) as Hloop.
  rewrite !Z.add_0_l in Hloop.
  assert (0 ≤ rawsize / BTT_MAX_ARENA).
  { apply Z.div_pos; unfold BTT_MAX_ARENA, BTT_MIN_SIZE in *; lia. }
  specialize (Hloop eq_refl Hok (Z.le_refl 0) Hsz HL ltac:(lia) ltac:(right; lia) (Z.le_refl 0) ltac:(lia)).
  set (b2 := Btt 0 false false (zeros 16) puuid rawsize lbasize nfree (sum_nlba arenas) (len arenas)
    (replicate (length arenas) zero_arena)).
  destruct (read_arenas_loop_run 0 puuid arenas (St b2 (s_ns s) [] (s_uuid s)) [] 0 rawsize)
    as (n' & Earena & Hok' & Hs' & Hm'); try done.
  { by apply (ext_le_sum puuid lbasize nfree (ns_mem (s_ns s)) 0 rawsize). }
  exists n'. split; [|done]. unfold btt_init.
  rewrite (proj2 (Z.ltb_ge _ _)) by done. erewrite bind_ok by (by apply Malloc_ok).
  erewrite bind_ok by reflexivity. rewrite Hml.
  erewrite bind_ok; cycle 1.
  { apply on_fail_ok. unfold read_layout. erewrite bind_ok by reflexivity.
    cbn [compose s_btt b_rawsize]. erewrite bind_ok by reflexivity.
    cbn [s_btt s_ns s_malloc s_uuid]. change (b_set_nfree BTT_DEFAULT_NFREE _) with b1. fold s1.
    erewrite bind_ok by exact Hloop. cbv beta iota.
    do 3 erewrite bind_ok by reflexivity. unfold compose. cbn -[Z.ltb].
    assert (∀ S, (if nfree <? 256 then mod_btt (b_set_nfree nfree) else mret tt)
      (St (Btt 0 false false (zeros 16) puuid rawsize lbasize 256 (sum_nlba arenas) (len arenas) [])
         (s_ns s) [] S)
      = (Ok tt, St (Btt 0 false false (zeros 16) puuid rawsize lbasize nfree (sum_nlba arenas)
           (len arenas) []) (s_ns s) [] S)) as Hset.
    { intros S. destruct (Z.ltb_spec nfree 256); [done|]. by replace nfree with 256 by lia. }
    erewrite bind_ok by apply Hset. unfold read_arenas. rewrite Nat2Z.id.
    apply on_fail_ok. erewrite bind_ok by reflexivity. erewrite bind_ok by reflexivity.
    erewrite bind_ok by exact Earena. reflexivity. }
  reflexivity.
Qed.
End load.
