(* ===== verification/BttCrash.v ===== *)
(** * Block translation table: power failures

    A power failure at any point of a block write, tearing the write in progress at
    word boundaries, is repaired by the next [btt_init]: the block holds its
    old or its new contents and every other block is unchanged. *)

From stdpp Require Import base gmap list numbers.
From S2P Require Import Prelude Memory Pmem Util BttLayout Btt BttSpec BttRun BttRefine BttInit.
Local Open Scope Z_scope.

Lemma list_split_at {A} (l : list A) i x : lookupZ l i = Some x →
  ∃ pre suf, l = pre ++ x :: suf ∧ i = len pre.
Proof.
  intros H. pose proof (lookupZ_Some _ _ _ H). unfold lookupZ in H. rewrite decide_True in H by lia.
  exists (take (Z.to_nat i) l), (drop (S (Z.to_nat i)) l). split.
  - symmetry. by apply take_drop_middle.
  - rewrite length_take. lia.
Qed.

Lemma mem_eq_on m m' lo hi : mem_eq m m' → eq_on m m' lo hi.
Proof. intros H p _. apply H. Qed.

(** ** Recovery of a pending write *)

Section pending.
Context {lbasize nfree : Z} {a : arena} {m : mem} {lane l : Z} {fr : flog_runtime} {buf : list Z}.
Context (G : arena_geo lbasize nfree a) (Hf : flogs_ok nfree a m (a_flogs a)).
Context (Ho : owned a m (a_flogs a)) (Hfr : lookupZ (a_flogs a) lane = Some fr).
Context (Hl : 0 ≤ l < a_external_nlba a) (Hbuf : len buf = lbasize).
Let m4 : mem := wrs m (write_ws a m l fr buf).
Let a' : arena := write_arena a m lane l fr.

Lemma m4_flogs x : mem_eq x m4 → flogs_ok nfree a' x (a_flogs a') ∧ owned a' x (a_flogs a').
Proof using G Hf Ho Hfr Hl Hbuf.
  intros Hx. pose proof (new_flogs G Hf Ho Hfr Hl Hbuf x) as H1.
  pose proof (new_owned G Hf Ho Hfr Hl Hbuf) as H2. split.
  - apply (flogs_ok_static _ a); [by destruct a|]. apply H1. intros p Hp.
    rewrite Hx. apply w_m4_out. pose proof (geo_map G l Hl). lia.
  - apply (owned_ext (m := m4)); [intros l' _; by apply target_ext, mem_eq_on|].
    by destruct H2.
Qed.

(** The state with the new flog entry and the old map entry is repaired. *)
Lemma recover_pending x : mem_eq x (w_m3 (a := a) (m := m) (l := l) (fr := fr) (buf := buf)) →
  mem_eq (recover_flogs a' x (a_flogs a')) m4.
Proof using G Hf Ho Hfr Hl Hbuf.
  intros Hx. destruct (list_split_at _ _ _ Hfr) as (pre & suf & Hsplit & Hlane).
  assert (a_flogs a' = pre ++ new_runtime a m l fr :: suf) as Hfl.
  { simpl. rewrite Hsplit, Hlane. apply updZ_app_here. }
  assert (∀ l', 0 ≤ l' < a_external_nlba a → target a' x l' = target a m l') as Htx.
  { intros l' Hl'. apply (target_ext a). intros p Hp. rewrite Hx.
    by apply (w_m3_map G Hf Ho Hfr Hbuf l'). }
  assert (∀ f i, lookupZ (a_flogs a) i = Some f → 0 ≤ fl_lba (fr_flog f) < a_external_nlba a) as Hlba.
  { intros f i Hi. by eapply flog_ok_lba, Hf. }
  rewrite Hfl. unfold recover_flogs. rewrite foldl_app. cbn [foldl].
  fold (recover_flogs a' x pre). rewrite recover_flogs_id.
  2: { intros f [i Hi]%list_elem_of_lookup.
       assert (lookupZ (a_flogs a) (Z.of_nat i) = Some f) as Hi'.
       { rewrite lookupZ_nat, Hsplit. by apply lookup_app_l_Some. }
       apply recover1_id; [by eapply Hlba|]. rewrite Htx by (by eapply Hlba).
       eapply ow_disj; [exact Ho| |exact Hi']. by eapply Hlba. }
  set (y := recover1 a' x (fr_flog (new_runtime a m l fr))).
  assert (mem_eq y m4) as Hy.
  { unfold y, recover1. cbn [new_runtime fr_flog new_flog fl_old_map fl_new_map fl_lba].
    assert (map_entry a' x l = map_entry a m l) as ->.
    { unfold map_entry. change (map_off a' l) with (map_off a l).
      rewrite (rd32_ext x m); [done|]. intros p Hp. rewrite Hx.
      by apply (w_m3_map G Hf Ho Hfr Hbuf l). }
    assert (map_entry a m l ≠ free_entry fr) as Hne.
    { intros E. destruct (ow_disj _ _ _ Ho l lane fr Hl Hfr).
      unfold target. rewrite E. apply free_entry_lba. }
    rewrite (proj2 (Z.eqb_neq _ _)) by done.
    rewrite (proj2 (Z.eqb_neq (free_entry fr) _)) by done. rewrite Z.eqb_refl. simpl.
    unfold m4. rewrite wrs_m4. by apply wr_mem_eq. }
  fold (recover_flogs a' y suf). rewrite recover_flogs_id; [done|].
  intros f [i Hi]%list_elem_of_lookup. destruct (m4_flogs y Hy) as [_ Hoy].
  assert (lookupZ (a_flogs a') (len pre + 1 + Z.of_nat i) = Some f) as Hi'.
  { rewrite Hfl. replace (len pre + 1 + Z.of_nat i) with (Z.of_nat (length pre + S i)) by lia.
    by rewrite lookupZ_nat, lookup_app_r, Nat.add_sub' by lia. }
  assert (0 ≤ fl_lba (fr_flog f) < a_external_nlba a) as Hr.
  { apply (Hlba f (len pre + 1 + Z.of_nat i)). rewrite Hsplit.
    replace (len pre + 1 + Z.of_nat i) with (Z.of_nat (length pre + S i)) by lia.
    by rewrite lookupZ_nat, lookup_app_r, Nat.add_sub' by lia. }
  apply recover1_id; [done|]. by apply (ow_disj _ _ _ Hoy _ (len pre + 1 + Z.of_nat i)).
Qed.
End pending.

(** ** Opening the namespace after a power failure *)

Section crash.
Context {NS : Type} (cb : ns_callback NS) `{!NsSpec cb}.
Implicit Types (s : st NS) (n : NS).

(** A fresh process opens the namespace whose memory is [x]. *)
Record reopened s s0 (x : mem) : Prop := Reopened {
  ro_malloc : s_malloc s0 = [];
  ro_ok : ns_ok (s_ns s0);
  ro_mem : ns_mem (s_ns s0) = x;
  ro_size : ns_size (s_ns s0) = ns_size (s_ns s)
}.

Definition reopen s maxlane s0 : res unit * st NS :=
  btt_init cb (b_rawsize (s_btt s)) (b_lbasize (s_btt s)) (b_parent_uuid (s_btt s)) maxlane s0.

(** The namespace is open again with the parameters it had. *)
Definition opened s s1 : Prop :=
  btt_ready cb s1 ∧ s_malloc s1 = [] ∧ ns_size (s_ns s1) = ns_size (s_ns s) ∧
  b_nlba (s_btt s1) = b_nlba (s_btt s) ∧ b_lbasize (s_btt s1) = b_lbasize (s_btt s) ∧
  b_rawsize (s_btt s1) = b_rawsize (s_btt s) ∧ b_parent_uuid (s_btt s1) = b_parent_uuid (s_btt s).

(** Opening when recovery turns [x] into [y], both equal to the old memory outside
    arena [ai], and the run-time state of the arenas will be [arenas]. *)
Lemma reopen_run s s0 x y maxlane ai a arenas :
  btt_ready cb s → lookupZ (b_arenas (s_btt s)) ai = Some a → reopened s s0 x → 0 ≤ maxlane →
  a_static <$> arenas = a_static <$> b_arenas (s_btt s) →
  only_inside (b_nfree (s_btt s)) a (ns_mem (s_ns s)) x →
  only_inside (b_nfree (s_btt s)) a (ns_mem (s_ns s)) y →
  Forall (media_ok (b_nfree (s_btt s)) x) arenas →
  mem_eq (recover_arenas x arenas) y →
  Forall (arena_inv (b_lbasize (s_btt s)) (b_nfree (s_btt s)) y) arenas →
  ∃ s1, reopen s maxlane s0 = (Ok tt, s1) ∧ opened s s1 ∧
    b_lbasize (s_btt s1) = b_lbasize (s_btt s) ∧ b_arenas (s_btt s1) = arenas ∧
    mem_eq (ns_mem (s_ns s1)) y.
Proof.
  intros HR Ha [Hml Hok Hmem Hsz] Hmax Hst Hinx Hiny Hmed Hrec Hinv.
  pose proof HR as [Hi _ Hrs]. pose proof (bv_layout _ _ Hi) as HL.
  assert (∀ z, only_inside (b_nfree (s_btt s)) a (ns_mem (s_ns s)) z →
    layout_ok (b_parent_uuid (s_btt s)) (b_lbasize (s_btt s)) (b_nfree (s_btt s)) z 0
      (b_rawsize (s_btt s)) arenas) as Hlay.
  { intros z Hz. eapply layout_static; [symmetry; exact Hst|]. eapply layout_ext; [|exact HL].
    intros j a0 Hj p Hp. destruct (decide (j = ai)) as [->|Hne].
    - assert (a0 = a) as -> by congruence. symmetry. apply Hz. lia.
    - apply (other_arena cb s ai a j a0); [done..|].
      destruct (layout_range _ _ _ _ _ _ _ _ _ (Z.le_refl 0) HL Hj) as (G0 & _).
      pose proof (geo_mapoff G0). lia. }
  pose proof (bv_nlane _ _ Hi) as Hnl.
  destruct (btt_init_run cb s0 (b_rawsize (s_btt s)) (b_lbasize (s_btt s)) (b_parent_uuid (s_btt s))
    maxlane (b_nfree (s_btt s)) arenas) as (n' & E & Hok' & Hsz' & Hm'); try done.
  { by rewrite Hsz. } { rewrite Hmem. by apply Hlay. } { by rewrite Hmem. } { apply Hi. }
  rewrite Hmem in Hm'. assert (mem_eq (ns_mem n') y) as Hy by (by rewrite Hm').
  eexists. split; [exact E|]. split; [|done].
  assert (sum_nlba arenas = b_nlba (s_btt s)) as Hsum.
  { rewrite (bv_nlba _ _ Hi). by apply sum_nlba_static. }
  split; [|by simpl; rewrite Hsz', Hsz, Hsum].
  split; [|done|by simpl; rewrite Hsz', Hsz]. simpl.
  split; try done; simpl; [|apply Hi|apply Hi|..].
  - case_match; [|lia]. apply andb_true_iff in H as [H1%negb_true_iff%Z.eqb_neq H2%Z.ltb_lt]. lia.
  - eapply layout_ext; [|exact (Hlay y Hiny)]. intros j a0 _ p Hp. by rewrite Hy.
  - eapply Forall_impl; [|exact Hinv]. intros a0 H0. eapply arena_inv_inside; [|exact H0].
    intros p _. by rewrite Hy.
Qed.

(** The arenas other than [ai] after a change inside [ai]. *)
Lemma others_inv s ai a x a' : btt_ready cb s → lookupZ (b_arenas (s_btt s)) ai = Some a →
  only_inside (b_nfree (s_btt s)) a (ns_mem (s_ns s)) x →
  arena_inv (b_lbasize (s_btt s)) (b_nfree (s_btt s)) x a' →
  Forall (arena_inv (b_lbasize (s_btt s)) (b_nfree (s_btt s)) x) (updZ (b_arenas (s_btt s)) ai a').
Proof.
  intros HR Ha Hin Ha'. apply Forall_lookup. intros j a0 Hj. rewrite <- lookupZ_nat in Hj.
  apply lookupZ_updZ in Hj as [[_ ->]|[Hne Hj]]; [done|].
  destruct (arena_of_lookup cb s _ _ HR Hj) as [Hi _].
  eapply arena_inv_inside; [|exact Hi]. by eapply (other_arena cb s ai a).
Qed.

Lemma inv_media lbasize nfree m arenas : Forall (arena_inv lbasize nfree m) arenas →
  Forall (media_ok nfree m) arenas ∧ recover_arenas m arenas = m.
Proof.
  intros H. split.
  - eapply Forall_impl; [|exact H]. by intros a [].
  - by eapply recover_arenas_inv.
Qed.

(** Opening after a change inside arena [ai] that left the invariant intact. *)
Lemma reopen_clean s s0 x maxlane ai a a' :
  btt_ready cb s → lookupZ (b_arenas (s_btt s)) ai = Some a → reopened s s0 x → 0 ≤ maxlane →
  a_static a' = a_static a →
  only_inside (b_nfree (s_btt s)) a (ns_mem (s_ns s)) x →
  arena_inv (b_lbasize (s_btt s)) (b_nfree (s_btt s)) x a' →
  ∃ s1, reopen s maxlane s0 = (Ok tt, s1) ∧ opened s s1 ∧
    b_lbasize (s_btt s1) = b_lbasize (s_btt s) ∧
    b_arenas (s_btt s1) = updZ (b_arenas (s_btt s)) ai a' ∧ mem_eq (ns_mem (s_ns s1)) x.
Proof.
  intros HR Ha Hro Hmax Hst Hin Hinv.
  pose proof (others_inv s ai a x a' HR Ha Hin Hinv) as Hall.
  destruct (inv_media _ _ _ _ Hall) as [Hmed Hrec].
  eapply (reopen_run s s0 x x maxlane ai a); try done; [by eapply static_updZ|by rewrite Hrec].
Qed.

Lemma arena_view_mem_eq lbasize a m m' l : mem_eq m m' →
  arena_view lbasize a m l = arena_view lbasize a m' l.
Proof.
  intros H. unfold arena_view. rewrite (rd32_ext m m') by (by apply mem_eq_on).
  by rewrite (rdn_mem_eq m m' _ _ H).
Qed.

Lemma only_inside_mem_eq nfree a m x y : mem_eq y x → only_inside nfree a m x →
  only_inside nfree a m y.
Proof. intros He Hin p Hp. rewrite He. by apply Hin. Qed.

(** Recovery of the arenas when the update of arena [ai] is pending. *)
Lemma recover_arenas_at nfree x y pre a suf :
  Forall (λ a, flogs_ok nfree a x (a_flogs a) ∧ owned a x (a_flogs a)) pre →
  Forall (λ a, flogs_ok nfree a y (a_flogs a) ∧ owned a y (a_flogs a)) suf →
  recover_flogs a x (a_flogs a) = y →
  recover_arenas x (pre ++ a :: suf) = y.
Proof.
  intros Hpre Hsuf Hy. unfold recover_arenas. rewrite foldl_app. cbn [foldl].
  fold (recover_arenas x pre). rewrite (recover_arenas_id nfree x pre) by done.
  rewrite Hy. by apply (recover_arenas_id nfree).
Qed.

Lemma reopen_pending s s0 x maxlane ai a lane l fr buf :
  btt_ready cb s → lookupZ (b_arenas (s_btt s)) ai = Some a → reopened s s0 x → 0 ≤ maxlane →
  lookupZ (a_flogs a) lane = Some fr → 0 ≤ l < a_external_nlba a →
  len buf = b_lbasize (s_btt s) →
  let m := ns_mem (s_ns s) in
  mem_eq x (w_m3 (a := a) (m := m) (l := l) (fr := fr) (buf := buf)) →
  ∃ s1, reopen s maxlane s0 = (Ok tt, s1) ∧ opened s s1 ∧
    b_lbasize (s_btt s1) = b_lbasize (s_btt s) ∧
    b_arenas (s_btt s1) = updZ (b_arenas (s_btt s)) ai (write_arena a m lane l fr) ∧
    mem_eq (ns_mem (s_ns s1)) (wrs m (write_ws a m l fr buf)).
Proof.
  intros HR Ha Hro Hmax Hfr Hl Hbuf m Hx.
  destruct (arena_of_lookup cb s ai a HR Ha) as [Hinv _]. pose proof Hinv as [G Hf Ho Hid].
  set (a' := write_arena a m lane l fr).
  assert (only_inside (b_nfree (s_btt s)) a m x) as Hinx.
  { intros p Hp. rewrite Hx. pose proof (ws_ranges (m := m) G Hf Ho Hfr Hl).
    apply (w_m3_out Hbuf); pose proof (geo_mapoff G); lia. }
  set (y := recover_flogs a' x (a_flogs a')).
  pose proof (recover_pending G Hf Ho Hfr Hl Hbuf x Hx) as Hy. fold a' in Hy. fold y in Hy.
  assert (only_inside (b_nfree (s_btt s)) a m y) as Hiny.
  { eapply only_inside_mem_eq; [exact Hy|]. by eapply write_inside. }
  assert (∀ z, only_inside (b_nfree (s_btt s)) a m z → ∀ j a0, j ≠ ai →
    lookupZ (b_arenas (s_btt s)) j = Some a0 →
    arena_inv (b_lbasize (s_btt s)) (b_nfree (s_btt s)) z a0) as Hothers.
  { intros z Hz j a0 Hne Hj. destruct (arena_of_lookup cb s j a0 HR Hj) as [Hi0 _].
    eapply arena_inv_inside; [|exact Hi0]. by eapply (other_arena cb s ai a). }
  assert (arena_inv (b_lbasize (s_btt s)) (b_nfree (s_btt s)) y a') as Hinv'.
  { eapply arena_inv_inside; [|by apply (write_inv _ _ _ m lane l fr buf Hinv Hfr Hl Hbuf)].
    intros p _. by rewrite Hy. }
  destruct (reopen_run s s0 x y maxlane ai a (updZ (b_arenas (s_btt s)) ai a')) as (s1 & E & H1 & H2 & H3 & H4);
    try done.
  { eapply static_updZ; [done|apply write_arena_static]. }
  { apply Forall_lookup. intros j a0 Hj. rewrite <- lookupZ_nat in Hj.
    apply lookupZ_updZ in Hj as [[_ ->]|[Hne Hj]].
    - split; [by apply idle_write|]. apply (flogs_ok_static _ a); [by destruct a|].
      apply (new_flogs G Hf Ho Hfr Hl Hbuf). intros p _. apply Hx.
    - destruct (Hothers x Hinx (Z.of_nat j) a0) as [_ Hf0 _ Hid0]; [done..|]. by split. }
  { destruct (list_split_at _ _ _ Ha) as (pre & suf & Hs & Hpre).
    rewrite Hs, Hpre, updZ_app_here. rewrite (recover_arenas_at (b_nfree (s_btt s)) x y); [done|..|done].
    - apply Forall_lookup. intros j a0 Hj. rewrite <- lookupZ_nat in Hj.
      pose proof (lookupZ_Some _ _ _ Hj). destruct (Hothers x Hinx (Z.of_nat j) a0) as [_ ? ? _]; [lia| |done].
      rewrite Hs. rewrite lookupZ_nat in Hj |- *. by apply lookup_app_l_Some.
    - apply Forall_lookup. intros j a0 Hj.
      destruct (Hothers y Hiny (len pre + 1 + Z.of_nat j) a0) as [_ ? ? _]; [lia| |done].
      rewrite Hs. replace (len pre + 1 + Z.of_nat j) with (Z.of_nat (length pre + S j)) by lia.
      by rewrite lookupZ_nat, lookup_app_r, Nat.add_sub' by lia. }
  { by apply others_inv with a. }
  exists s1. split_and!; [done..|]. by rewrite H4.
Qed.

(** Nothing was written. *)
Lemma reopen_same s s0 x maxlane : btt_ready cb s → reopened s s0 x → mem_eq x (ns_mem (s_ns s)) →
  0 ≤ maxlane →
  ∃ s1, reopen s maxlane s0 = (Ok tt, s1) ∧ opened s s1 ∧
    ∀ lba', 0 ≤ lba' → btt_view (s_btt s1) (ns_mem (s_ns s1)) lba' =
      btt_view (s_btt s) (ns_mem (s_ns s)) lba'.
Proof.
  intros HR Hro Hx Hmax.
  assert (∃ a, lookupZ (b_arenas (s_btt s)) 0 = Some a) as [a Ha].
  { pose proof (bv_layout _ _ (br_inv _ _ HR)) as HL. destruct (b_arenas (s_btt s)); [done|eauto]. }
  destruct (arena_of_lookup cb s 0 a HR Ha) as [Hinv _].
  destruct (reopen_clean s s0 x maxlane 0 a a) as (s1 & E & H1 & H2 & H3 & H4); try done.
  { intros p _. apply Hx. }
  { eapply arena_inv_inside; [|exact Hinv]. intros p _. by rewrite Hx. }
  exists s1. split_and!; [done..|]. intros lba' Hlba'.
  rewrite (view_static (s_btt s)) by (done || by rewrite H3, (updZ_id _ _ _ Ha)).
  apply view_same; [|done]. intros j a0 l _ _. apply arena_view_mem_eq. by rewrite H4.
Qed.

(** The states a failure during the four writes can leave. *)
Lemma write_crash_cases s lba ai l a lane fr buf x s0 maxlane :
  btt_ready cb s → located cb s lba ai l a → lookupZ (a_flogs a) lane = Some fr →
  0 ≤ lba → len buf = b_lbasize (s_btt s) → Forall is_byte buf →
  ws_crash (ns_mem (s_ns s)) (write_ws a (ns_mem (s_ns s)) l fr buf) x →
  reopened s s0 x → 0 ≤ maxlane →
  ∃ s1, reopen s maxlane s0 = (Ok tt, s1) ∧ opened s s1 ∧
    ((∀ lba', 0 ≤ lba' → btt_view (s_btt s1) (ns_mem (s_ns s1)) lba' =
        btt_view (s_btt s) (ns_mem (s_ns s)) lba') ∨
     (∀ lba', 0 ≤ lba' → btt_view (s_btt s1) (ns_mem (s_ns s1)) lba' =
        if decide (lba' = lba) then Some (BData buf)
        else btt_view (s_btt s) (ns_mem (s_ns s)) lba')).
Proof.
  intros HR L Hfr Hlba Hbuf Hbytes Hc Hro Hmax. set (m := ns_mem (s_ns s)) in *.
  pose proof (lo_lookup _ _ _ _ _ _ L) as Ha. pose proof (lo_l _ _ _ _ _ _ L) as Hl.
  pose proof (lo_inv _ _ _ _ _ _ L) as Hinv. pose proof Hinv as [G Hf Ho Hid]. fold m in Hinv, Hf, Ho.
  assert (∀ s1, b_lbasize (s_btt s1) = b_lbasize (s_btt s) →
    b_arenas (s_btt s1) = updZ (b_arenas (s_btt s)) ai (write_arena a m lane l fr) →
    mem_eq (ns_mem (s_ns s1)) (wrs m (write_ws a m l fr buf)) →
    ∀ lba', 0 ≤ lba' → btt_view (s_btt s1) (ns_mem (s_ns s1)) lba' =
      if decide (lba' = lba) then Some (BData buf) else btt_view (s_btt s) m lba') as Hnew.
  { intros s1 H2 H3 H4. apply (view_change _ _ _ _ ai l a); [done| |done|apply L|done| |].
    - rewrite H3. by apply (static_updZ _ _ _ _ Ha), write_arena_static.
    - apply (other_view cb s ai a _ HR Ha). eapply only_inside_mem_eq; [exact H4|].
      by eapply write_inside.
    - intros l' Hl'. rewrite (arena_view_mem_eq _ _ _ _ _ H4), wrs_m4. case_decide as Hd.
      + subst l'. by apply (new_view G Hf Ho Hfr Hl Hbuf).
      + by apply (new_view_other G Hf Ho Hfr Hl Hbuf). }
  destruct (w_crash_cases G Hf Ho Hfr Hl Hbuf x Hc) as [Hold|[H3|H4]].
  - assert (only_inside (b_nfree (s_btt s)) a m x) as Hin.
    { intros p Hp. pose proof (ws_ranges (m := m) G Hf Ho Hfr Hl). pose proof (geo_mapoff G).
      apply (os_out _ Hold); lia. }
    destruct (reopen_clean s s0 x maxlane ai a a) as (s1 & E & H1 & H2 & H3 & H4); try done.
    { split; [done|by apply (old_flogs G Hf Ho Hfr Hl Hbuf)|exact (old_owned G Hf Ho Hfr x Hold)|done]. }
    exists s1. split_and!; [done..|left]. intros lba' Hlba'.
    rewrite (view_static (s_btt s)) by (done || by rewrite H3, (updZ_id _ _ _ Ha)).
    apply view_same; [|done]. intros j a0 l' Hj Hl'. rewrite (arena_view_mem_eq _ _ _ _ _ H4).
    destruct (decide (j = ai)) as [->|Hne]; [|by apply (other_view cb s ai a x HR Ha Hin j)].
    assert (a0 = a) as -> by congruence. exact (old_view G Hf Ho Hfr x l' Hold Hl').
  - destruct (reopen_pending s s0 x maxlane ai a lane l fr buf) as (s1 & E & H1 & H2 & H5 & H6); try done.
    exists s1. split_and!; [done..|right]. by apply Hnew.
  - destruct (reopen_clean s s0 x maxlane ai a (write_arena a m lane l fr))
      as (s1 & E & H1 & H2 & H5 & H6); try done.
    { eapply only_inside_mem_eq; [exact H4|]. by eapply write_inside. }
    { eapply arena_inv_inside; [|by apply (write_inv _ _ _ m lane l fr buf Hinv Hfr Hl Hbuf)].
      intros p _. by rewrite H4. }
    exists s1. split_and!; [done..|right]. apply Hnew; [done..|]. by rewrite H6.
Qed.

(** The atomicity of a block write.  Whatever state a power failure
    leaves during [btt_write] (any prefix of its writes complete and the next
    one torn at 8-byte words), [btt_init] succeeds on it, re-establishes the
    invariant, and the array of blocks is either the old one or the old one with
    the new block in place. *)
Lemma write_crash_atomic s lane lba buf r s' :
  btt_ready cb s → 0 ≤ lane < b_nlane (s_btt s) → 0 ≤ lba →
  len buf = b_lbasize (s_btt s) → Forall is_byte buf →
  btt_write cb lane lba buf s = (r, s') →
  ∃ ws, ns_trace (s_ns s') = ns_trace (s_ns s) ++ ws ∧
    ∀ x s0 maxlane, ws_crash (ns_mem (s_ns s)) ws x → reopened s s0 x → 0 ≤ maxlane →
    ∃ s1, reopen s maxlane s0 = (Ok tt, s1) ∧ opened s s1 ∧
      ((∀ lba', 0 ≤ lba' → btt_view (s_btt s1) (ns_mem (s_ns s1)) lba' =
          btt_view (s_btt s) (ns_mem (s_ns s)) lba') ∨
       (∀ lba', 0 ≤ lba' → btt_view (s_btt s1) (ns_mem (s_ns s1)) lba' =
          if decide (lba' = lba) then Some (BData buf)
          else btt_view (s_btt s) (ns_mem (s_ns s)) lba')).
Proof.
  intros HR Hlane Hlba Hbuf Hbytes Hrun.
  destruct (update_cases cb s lba HR Hlba) as [[Hr Hv]|(ai & l & a & L & [[Hr Hfl]|[Hr Hfl]])].
  - unfold btt_write in Hrun. erewrite bind_fail in Hrun by exact Hv. injection Hrun as <- <-.
    exists []. split; [by rewrite app_nil_r|]. intros x s0 maxlane Hc%ws_crash_nil Hro Hmax.
    destruct (reopen_same s s0 x maxlane HR Hro Hc Hmax) as (s1 & ? & ? & ?). eauto.
  - assert (btt_write cb lane lba buf s = (Fail EIO, s)) as E.
    { unfold btt_write. erewrite bind_ok by apply L.
      erewrite bind_ok by (apply first_write_laidout, (br_inv _ _ HR)).
      erewrite bind_ok by apply L. cbv beta iota zeta. erewrite bind_ok.
      2: { unfold get_arena. by rewrite (lo_lookup _ _ _ _ _ _ L). }
      by rewrite (proj2 (Z.eqb_neq _ _) Hfl). }
    rewrite E in Hrun. injection Hrun as <- <-. exists []. split; [by rewrite app_nil_r|].
    intros x s0 maxlane Hc%ws_crash_nil Hro Hmax.
    destruct (reopen_same s s0 x maxlane HR Hro Hc Hmax) as (s1 & ? & ? & ?). eauto.
  - pose proof (lo_lookup _ _ _ _ _ _ L) as Ha. pose proof (lo_l _ _ _ _ _ _ L) as Hl.
    pose proof (lo_inv _ _ _ _ _ _ L) as Hinv. pose proof Hinv as [G Hf Ho Hid].
    destruct (lookupZ_is_Some (a_flogs a) lane) as [fr Hfr].
    { rewrite (proj1 Hf). pose proof (bv_nlane _ _ (br_inv _ _ HR)). lia. }
    destruct (btt_write_run cb s lane lba ai l a fr buf HR L Hlane Hfr Hfl Hbuf)
      as (n' & E & _ & _ & _ & Htr). rewrite E in Hrun. injection Hrun as <- <-.
    eexists. split; [exact Htr|]. intros x s0 maxlane Hc Hro Hmax.
    by eapply write_crash_cases.
Qed.
End crash.
