(* ===== verification/BttFresh.v ===== *)
(** * Block translation table: a new layout

    The first write to a namespace without a layout runs [write_layout], which writes
    the metadata of every arena and loads them.  The result satisfies the invariant and
    reads as zeros everywhere. *)

From stdpp Require Import base gmap list numbers.
From S2P Require Import Prelude Memory Pmem Util BttLayout Btt BttSpec BttRun BttRefine BttInit.
Local Open Scope Z_scope.

(** ** The info block on the media *)

Definition set_csum (v : Z) (i : btt_info) : btt_info :=
  BttInfo (bi_sig i) (bi_uuid i) (bi_parent_uuid i) (bi_flags i) (bi_major i) (bi_minor i)
    (bi_external_lbasize i) (bi_external_nlba i) (bi_internal_lbasize i) (bi_internal_nlba i)
    (bi_nfree i) (bi_infosize i) (bi_nextoff i) (bi_dataoff i) (bi_mapoff i) (bi_flogoff i)
    (bi_infooff i) (bi_unused i) v.

Lemma info_split i : ∃ X, ∀ v, btt_info_convert2le (set_csum v i) = X ++ le_bytes 8 v.
Proof.
  exists (bi_sig i ++ bi_uuid i ++ bi_parent_uuid i ++
    le_bytes 4 (bi_flags i) ++ le_bytes 2 (bi_major i) ++ le_bytes 2 (bi_minor i) ++
    le_bytes 4 (bi_external_lbasize i) ++ le_bytes 4 (bi_external_nlba i) ++
    le_bytes 4 (bi_internal_lbasize i) ++ le_bytes 4 (bi_internal_nlba i) ++
    le_bytes 4 (bi_nfree i) ++ le_bytes 4 (bi_infosize i) ++
    le_bytes 8 (bi_nextoff i) ++ le_bytes 8 (bi_dataoff i) ++ le_bytes 8 (bi_mapoff i) ++
    le_bytes 8 (bi_flogoff i) ++ le_bytes 8 (bi_infooff i) ++ bi_unused i).
  intros v. by rewrite <- !(assoc_L (++)).
Qed.

Lemma info_wf_csum v i : 0 ≤ v < 2 ^ 64 → info_wf i → info_wf (set_csum v i).
Proof. intros Hv []. by split. Qed.

Lemma info_checksum i : info_wf i →
  ∃ v, 0 ≤ v < 2 ^ 64 ∧
    util_checksum (btt_info_convert2le i) 4088 true 0 =
      Ok (true, btt_info_convert2le (set_csum v i)) ∧
    util_checksum (btt_info_convert2le (set_csum v i)) 4088 false 0 =
      Ok (true, btt_info_convert2le (set_csum v i)).
Proof.
  intros Hwf. set (bs := btt_info_convert2le i). set (v := checksum_value bs 4088 0).
  pose proof (length_info_2le i Hwf) as Hlen. fold bs in Hlen.
  exists v. pose proof (checksum_value_range bs 4088 0) as Hv. fold v in Hv. split; [done|].
  assert (len bs = 4096) as Hl by lia.
  assert (splice bs 4088 (le_bytes 8 v) = btt_info_convert2le (set_csum v i)) as E.
  { destruct (info_split i) as [X HX]. rewrite HX.
    assert (bs = X ++ le_bytes 8 (bi_checksum i)) as Hbs by (rewrite <- HX; by destruct i).
    assert (length X = 4088%nat) as HXl.
    { apply (f_equal length) in Hbs. rewrite length_app, length_le_bytes in Hbs. lia. }
    unfold splice. rewrite length_le_bytes. rewrite drop_ge by lia. rewrite app_nil_r.
    rewrite Hbs. f_equal. apply take_app_length'. lia. }
  rewrite <- E. split.
  - apply checksum_insert_ok. by rewrite Hl.
  - apply checksum_splice_ok; rewrite ?Hl; done || lia.
Qed.

Lemma info_bytes i : Forall is_byte (bi_sig i) → Forall is_byte (bi_uuid i) →
  Forall is_byte (bi_parent_uuid i) → Forall is_byte (bi_unused i) →
  Forall is_byte (btt_info_convert2le i).
Proof. intros. unfold btt_info_convert2le. rewrite !Forall_app. auto 30 with pmdk. Qed.

(** ** The metadata of one arena *)

Definition fresh_entry (e : Z) : Z := e ||| BTT_MAP_ENTRY_ZERO.

Definition fresh_flog (ext i : Z) : btt_flog :=
  BttFlog i (fresh_entry (ext + i)) (fresh_entry (ext + i)) 1.

Definition put_ns {NS} (s : st NS) (n : NS) : st NS := St (s_btt s) n (s_malloc s) (s_uuid s).

Section fresh.
Context {NS : Type} (cb : ns_callback NS) `{!NsSpec cb} `{!NsZeroSpec cb}.
Implicit Types (s : st NS) (n : NS).

Lemma ns_write_put s n lane bs off :
  ns_ok n → 0 ≤ off → bs ≠ [] → off + len bs ≤ ns_size n →
  ∃ n', ns_write cb lane bs off (put_ns s n) = (Ok tt, put_ns s n') ∧ ns_ok n' ∧
    ns_mem n' = wr (ns_mem n) off bs ∧ ns_size n' = ns_size n.
Proof.
  intros H1 H2 H3 H4. destruct (ns_write_ok n lane bs off H1 H2 H3 H4) as (n' & E & ? & ? & ? & _).
  exists n'. split; [|done]. unfold ns_write. simpl. by rewrite E.
Qed.

Lemma flog_at_here m off f : flog_wf f → flog_at (wr m off (btt_flog_convert2le f)) off = f.
Proof.
  intros Hf. unfold flog_at.
  rewrite rdn_wr_same' by (apply flog_2le_bytes || apply length_flog_2le).
  by apply flog_convert2h_2le.
Qed.

Lemma write_flogs_run s lane ext k : ∀ n i off,
  ns_ok n → 0 ≤ off → off mod 64 = 0 → off + 64 * Z.of_nat k ≤ ns_size n →
  0 ≤ i → 0 ≤ ext → ext + i + Z.of_nat k < 2 ^ 30 →
  ∃ n', write_flogs_loop cb lane k i off (ext + i) (put_ns s n) = (Ok tt, put_ns s n') ∧
    ns_ok n' ∧ ns_size n' = ns_size n ∧
    (∀ p, ¬ (off ≤ p < off + 64 * Z.of_nat k) → rd (ns_mem n') p = rd (ns_mem n) p) ∧
    ∀ j, 0 ≤ j < Z.of_nat k →
      flog_at (ns_mem n') (off + 64 * j) = fresh_flog ext (i + j) ∧
      flog_at (ns_mem n') (off + 64 * j + 16) = Zflog.
Proof.
  induction k as [|k IH]; intros n i off Hok Hoff Hal Hsz Hi He Hb.
  { exists n. split_and!; try done. intros j Hj. lia. }
  pose proof (ns_size_range n Hok).
  assert (flog_wf (fresh_flog ext i)) as Hwf.
  { unfold flog_wf, fresh_flog, fresh_entry. simpl. rewrite lor_zero by lia. lia. }
  destruct (ns_write_put s n lane (btt_flog_convert2le (fresh_flog ext i)) off)
    as (n1 & E1 & Hok1 & Hm1 & Hs1); [done|done|done|rewrite length_flog_2le; lia|].
  destruct (ns_write_put s n1 lane (btt_flog_convert2le Zflog) (off + 16))
    as (n2 & E2 & Hok2 & Hm2 & Hs2); [done|lia|done|rewrite length_flog_2le; lia|].
  apply Z.mod_divide in Hal as [q Hq]; [|lia].
  destruct (IH n2 (i + 1) (off + 64)) as (n3 & E3 & Hok3 & Hs3 & Hout & Hin); try done; try lia.
  { rewrite Hq. replace (q * 64 + 64) with ((q + 1) * 64) by lia. by rewrite Z.mod_mul. }
  exists n3. split_and!; [|done|by rewrite Hs3, Hs2| |].
  - cbn [write_flogs_loop]. cbv zeta. fold (fresh_entry (ext + i)). fold (fresh_flog ext i).
    erewrite bind_ok by exact E1. change sizeof_btt_flog with 16. rewrite (u64_id (off + 16)) by lia.
    erewrite bind_ok by exact E2. rewrite (u64_id (off + 16 + 16)) by lia.
    assert (roundup (off + 16 + 16) BTT_FLOG_PAIR_ALIGN = off + 64) as ->.
    { unfold roundup, BTT_FLOG_PAIR_ALIGN. rewrite Hq.
      replace (q * 64 + 16 + 16 + (64 - 1)) with (31 + (q + 1) * 64) by lia.
      rewrite Z.div_add by lia. change (31 / 64) with 0. lia. }
    rewrite (u64_id (off + 64)), (u32_id (ext + i + 1)) by lia.
    rewrite <- E3. f_equal. lia.
  - intros p Hp. rewrite Hout by lia. rewrite Hm2, Hm1.
    rewrite !rd_wr_out; [done|rewrite length_flog_2le; lia..].
  - intros j Hj. destruct (decide (j = 0)) as [->|Hne].
    + rewrite Z.mul_0_r, !Z.add_0_r. split.
      * rewrite (flog_at_ext _ (ns_mem n1)).
        { rewrite Hm1. by apply flog_at_here. }
        intros p Hp. rewrite Hout by lia. rewrite Hm2. apply rd_wr_out. rewrite length_flog_2le. lia.
      * rewrite (flog_at_ext _ (ns_mem n2)).
        { rewrite Hm2. apply flog_at_here. unfold flog_wf. simpl. lia. }
        intros p Hp. apply Hout. lia.
    + destruct (Hin (j - 1) ltac:(lia)) as [H1 H2].
      replace (off + 64 + 64 * (j - 1)) with (off + 64 * j) in H1, H2 by lia.
      replace (i + 1 + (j - 1)) with (i + j) in H1 by lia. done.
Qed.

(** The run-time state of the new arena. *)
Definition fresh_runtime (flogoff ext i : Z) : flog_runtime :=
  FlogRuntime (fresh_flog ext i) (flogoff + 64 * i, flogoff + 64 * i + 16) 1.

Definition fresh_arena (nfree : Z) (info : btt_info) (off : Z) : arena :=
  arena_of info off
    (Arena 0 0 0 0 0 0 0 0 0
      (fresh_runtime (off + bi_flogoff info) (bi_external_nlba info) <$> seqZ 0 nfree)
      (replicate (Z.to_nat nfree) BTT_MAP_ENTRY_ERROR) (replicate (Z.to_nat nfree) false) false).

(** The info block [write_layout] writes, without its checksum. *)
Definition final_info (b : btt) (info : btt_info) : btt_info :=
  BttInfo Sig (b_uuid b) (b_parent_uuid b) (bi_flags info)
    BTTINFO_MAJOR_VERSION BTTINFO_MINOR_VERSION
    (bi_external_lbasize info) (bi_external_nlba info) (bi_internal_lbasize info)
    (bi_internal_nlba info) (bi_nfree info) (bi_infosize info) (bi_nextoff info)
    (bi_dataoff info) (bi_mapoff info) (bi_flogoff info) (bi_infooff info)
    (bi_unused info) (bi_checksum info).

(** What is true of an arena just laid out on [off, off + size). *)
Record fresh_ok (b : btt) (m : mem) (off size : Z) (info : btt_info) (a : arena) : Prop := FreshOk {
  fk_info : ∃ info', read_info (b_parent_uuid b) (rdn m off 4096) = Some info' ∧
    bi_external_lbasize info' = b_lbasize b ∧ bi_nfree info' = b_nfree b ∧
    arena_of info' off a = a ∧ bi_nextoff info' = bi_nextoff info;
  fk_end : arena_end (b_nfree b) a + 4096 ≤ off + size;
  fk_inv : arena_inv (b_lbasize b) (b_nfree b) m a;
  fk_ext : a_external_nlba a = bi_external_nlba info;
  fk_flags : a_flags a = 0;
  fk_start : a_startoff a = off;
  fk_zero : ∀ l, 0 ≤ l < a_external_nlba a → rd32 m (map_off a l) = 0
}.

Lemma fresh_ok_ext b m m' off size info a : 0 ≤ off → eq_on m m' off (off + size) →
  fresh_ok b m off size info a → fresh_ok b m' off size info a.
Proof.
  intros Hoff He [(info' & Hi & H1 & H2 & H3 & H4) Hend Hinv Hx Hfl Hst Hz].
  pose proof (ai_geo _ _ _ _ Hinv) as G. pose proof (geo_mapoff G).
  split; try done.
  - exists info'. split_and!; try done. rewrite <- Hi. f_equal. symmetry. apply rdn_ext.
    intros p Hp. apply He. lia.
  - eapply arena_inv_inside; [|done]. eapply eq_on_sub; [done|lia..].
  - intros l Hl. rewrite <- (Hz l Hl). symmetry. apply rd32_ext. pose proof (geo_map G l Hl).
    eapply eq_on_sub; [done| |lia]. unfold map_off. lia.
Qed.

(** Flog and map of an arena just laid out. *)
Lemma fresh_media lbasize nfree m a ext flogoff : arena_geo lbasize nfree a →
  a_external_nlba a = ext → a_flogoff a = flogoff →
  a_flogs a = fresh_runtime flogoff ext <$> seqZ 0 nfree →
  a_external_nlba a + nfree ≤ a_internal_nlba a → nfree ≤ a_external_nlba a →
  (∀ j, 0 ≤ j < nfree → flog_at m (flogoff + 64 * j) = fresh_flog ext j ∧
    flog_at m (flogoff + 64 * j + 16) = Zflog) →
  (∀ l, 0 ≤ l < ext → rd32 m (map_off a l) = 0) →
  flogs_ok nfree a m (a_flogs a) ∧ owned a m (a_flogs a).
Proof.
  intros G Hx Hfo Hfl Hint Hmin Hflog Hz. pose proof (g_nfree _ _ _ G). pose proof (g_nlba _ _ _ G).
  assert (∀ i fr, lookupZ (a_flogs a) i = Some fr → 0 ≤ i < nfree ∧ fr = fresh_runtime flogoff ext i) as Hlk.
  { intros i fr Hi. rewrite Hfl in Hi. unfold lookupZ in Hi. case_decide; [|done].
    apply list_lookup_fmap_Some_1 in Hi as (x & -> & Hi). apply lookup_seqZ in Hi as [-> ?].
    split; [lia|]. f_equal. lia. }
  assert (∀ i, 0 ≤ i < nfree → free_block (fresh_runtime flogoff ext i) = ext + i) as Hfb.
  { intros i Hi. unfold free_block, fresh_runtime, fresh_flog, fresh_entry. simpl.
    rewrite lor_zero by lia. apply entry_lba. lia. }
  assert (∀ l, 0 ≤ l < a_external_nlba a → target a m l = l) as Htg.
  { intros l Hl. unfold target, map_entry. rewrite Hz by lia.
    change (map_entry_is_initial 0) with true. cbv iota. rewrite lor_normal by lia.
    apply entry_lba. lia. }
  split.
  - split; [rewrite Hfl, length_fmap, length_seqZ; lia|]. intros i fr Hi.
    destruct (Hlk i fr Hi) as [Hir ->]. destruct (Hflog i Hir) as [H1 H2].
    unfold flog_off. rewrite <- Hfo in H1, H2.
    split; unfold flog_off; rewrite ?H1, ?H2; cbn [fresh_runtime fr_entries fr_flog fr_next fresh_flog
      fl_seq fl_lba Zflog]; try (rewrite Hfo; done); try lia; done.
  - split.
    + intros l Hl. rewrite Htg by done. lia.
    + intros i fr Hi. destruct (Hlk i fr Hi) as [Hir ->]. rewrite Hfb by done. lia.
    + intros l l' Hl Hl'. by rewrite !Htg.
    + intros i j fi fj Hi Hj. destruct (Hlk i fi Hi) as [Hir ->]. destruct (Hlk j fj Hj) as [Hjr ->].
      rewrite !Hfb by done. lia.
    + intros l i fr Hl Hi. destruct (Hlk i fr Hi) as [Hir ->]. rewrite Htg, Hfb by done. lia.
Qed.

Lemma set_fields lbasize nfree size left info :
  btt_info_set zero_info lbasize nfree size left = Some info →
  bi_flags info = 0 ∧ bi_unused info = zeros 3968 ∧ bi_external_lbasize info = lbasize ∧
  bi_nfree info = nfree ∧ bi_infosize info = 4096 ∧ bi_checksum info = 0 ∧
  bi_internal_lbasize info = internal_lbasize lbasize ∧ internal_lbasize lbasize ≠ 0 ∧
  bi_nextoff info = if BTT_MIN_SIZE <=? left then size else 0.
Proof.
  unfold btt_info_set. destruct (Z.eqb_spec (internal_lbasize lbasize) 0); [done|].
  unfold btt_info_set_params. destruct (_ <? _); [done|]. intros [= <-].
  split_and!; done || reflexivity.
Qed.

(** The conditions under which an arena is laid out. *)
Record fresh_pre (b : btt) (off size left : Z) (info : btt_info) : Prop := FreshPre {
  fp_set : btt_info_set zero_info (b_lbasize b) (b_nfree b) size left = Some info;
  fp_lba : 0 < b_lbasize b < 2 ^ 32;
  fp_nfree : 0 < b_nfree b ≤ BTT_DEFAULT_NFREE;
  fp_size : BTT_MIN_SIZE ≤ size ≤ BTT_MAX_ARENA;
  fp_align : size mod 64 = 0;
  fp_off : 0 ≤ off ∧ off mod 64 = 0;
  fp_left : 0 ≤ left;
  fp_uuid : length (b_uuid b) = 16%nat ∧ Forall is_byte (b_uuid b);
  fp_puuid : length (b_parent_uuid b) = 16%nat ∧ Forall is_byte (b_parent_uuid b)
}.

Lemma fresh_geometry b off size left info : fresh_pre b off size left info →
  arena_geometry info size (b_nfree b).
Proof.
  intros [Hset Hlba Hnf Hsz _ _ _ _ _]. unfold BTT_DEFAULT_NFREE in Hnf.
  eapply set_geometry; [| | |exact Hset]; [lia|lia|done].
Qed.

Lemma final_info_wf b off size left info : fresh_pre b off size left info →
  info_wf (final_info b info).
Proof.
  intros P. pose proof (fresh_geometry _ _ _ _ _ P) as A.
  destruct P as [Hset Hlba Hnf Hsz _ _ Hleft [Hu _] [Hp _]].
  destruct (set_fields _ _ _ _ _ Hset) as (F1 & F2 & F3 & F4 & F5 & F6 & F7 & F8 & F9).
  destruct (internal_lbasize_range (b_lbasize b) ltac:(lia) F8) as (Hil & _).
  unfold BTT_MIN_SIZE, BTT_MAX_ARENA, BTT_DEFAULT_NFREE in *.
  destruct A. split; simpl; rewrite ?F1, ?F2, ?F3, ?F4, ?F5, ?F6, ?F7, ?F9;
    unfold BTTINFO_MAJOR_VERSION, BTTINFO_MINOR_VERSION; try done; try lia.
  - case_match; lia.
  - nia.
  - nia.
Qed.

Lemma fresh_geo b off size left info : fresh_pre b off size left info →
  off + size < 2 ^ 64 →
  let a := fresh_arena (b_nfree b) info off in
  arena_geo (b_lbasize b) (b_nfree b) a ∧ arena_end (b_nfree b) a + 4096 ≤ off + size ∧
  a_mapoff a = off + bi_mapoff info ∧ a_flogoff a = off + bi_flogoff info ∧
  a_dataoff a = off + bi_dataoff info.
Proof.
  intros P Hend a. pose proof (fresh_geometry _ _ _ _ _ P) as A.
  destruct P as [Hset Hlba Hnf Hsz Hal [Hoff Hoal] Hleft [Hu _] [Hp _]].
  destruct (set_fields _ _ _ _ _ Hset) as (F1 & F2 & F3 & F4 & F5 & F6 & F7 & F8 & F9).
  destruct (internal_lbasize_range (b_lbasize b) ltac:(lia) F8) as (Hil & Hle & _).
  unfold BTT_MIN_SIZE, BTT_MAX_ARENA, BTT_DEFAULT_NFREE in *.
  destruct A as [A1 A2 A3 A4 A5 A6 A7 A8 A9 A10 A11 A12 A13].
  assert (0 ≤ bi_internal_nlba info * bi_internal_lbasize info) by nia.
  assert (a_mapoff a = off + bi_mapoff info) as Hm by (apply u64_id; lia).
  assert (a_flogoff a = off + bi_flogoff info) as Hf by (apply u64_id; lia).
  assert (a_dataoff a = off + bi_dataoff info) as Hd by (apply u64_id; lia).
  apply Z.mod_divide in Hoal as [q Hq]; [|lia].
  specialize (A12 Hal). specialize (A13 Hal).
  apply Z.mod_divide in A12 as [q1 Hq1]; [|lia]. apply Z.mod_divide in A13 as [q2 Hq2]; [|lia].
  split; [|split_and!; try done; unfold arena_end, flog_off; rewrite Hf; lia].
  split; unfold block_off, map_off; rewrite ?Hm, ?Hf, ?Hd; cbn [fresh_arena arena_of a
    a_startoff a_internal_lbasize a_internal_nlba a_external_nlba]; try lia.
  - rewrite Hq, Hq1. replace (q * 64 + q1 * 64) with ((q * 8 + q1 * 8) * 8) by lia. by rewrite Z.mod_mul.
  - rewrite Hq, Hq2. replace (q * 64 + q2 * 64) with ((q * 8 + q2 * 8) * 8) by lia. by rewrite Z.mod_mul.
Qed.

(** The namespace is zero-initialised, or [nszero] clears the only map. *)
Definition map_cleared (m : mem) (off size : Z) : Prop :=
  (ns_is_zeroed cb = true ∧ ∀ p, off ≤ p < off + size → rd m p = 0) ∨
  (ns_is_zeroed cb = false ∧ off = 0).

Lemma rd32_zero m off : (∀ p, off ≤ p < off + 4 → rd m p = 0) → rd32 m off = 0.
Proof.
  intros H. unfold rd32. assert (rdn m off 4 = [0; 0; 0; 0]) as ->; [|done].
  unfold rdn. rewrite !H by lia. done.
Qed.

Lemma rd_wr_zeros m off k p : 0 ≤ k → off ≤ p < off + k → rd (wr m off (zeros k)) p = 0.
Proof.
  intros Hk Hp. rewrite rd_wr, length_zeros, decide_True by lia.
  unfold zeros. by rewrite nth_repeat.
Qed.

Lemma zero_map_run s n lane off size left info : fresh_pre (s_btt s) off size left info →
  ns_ok n → off + size ≤ ns_size n → map_cleared (ns_mem n) off size →
  ∃ n', (if ns_is_zeroed cb then mret tt
         else ns_zero cb lane (btt_map_size (bi_external_nlba info)) (bi_mapoff info)) (put_ns s n)
        = (Ok tt, put_ns s n') ∧ ns_ok n' ∧ ns_size n' = ns_size n ∧
    (∀ p, ¬ (off ≤ p < off + size) → rd (ns_mem n') p = rd (ns_mem n) p) ∧
    ∀ p, off + bi_mapoff info ≤ p < off + bi_flogoff info → rd (ns_mem n') p = 0.
Proof.
  intros P Hok Hsz Hz. pose proof (fresh_geometry _ _ _ _ _ P) as [A1 A2 A3 A4 A5 A6 A7 A8 A9 A10 A11 A12 A13].
  assert (0 ≤ bi_internal_nlba info * bi_internal_lbasize info).
  { destruct P. unfold BTT_DEFAULT_NFREE in *. nia. }
  assert (0 ≤ b_nfree (s_btt s)) by (destruct P; lia).
  destruct Hz as [[-> Hz]|[-> ->]].
  - exists n. split_and!; try done. intros p Hp. apply Hz. lia.
  - destruct (ns_zero_ok n lane (btt_map_size (bi_external_nlba info)) (bi_mapoff info))
      as (n' & E & Hok' & Hm & Hs); [done|lia| |lia|].
    { unfold btt_map_size. apply u64_range. }
    assert (0 ≤ btt_map_size (bi_external_nlba info)) as Hms by (apply u64_range).
    exists n'. split_and!; [|done|done| |].
    + unfold ns_zero. simpl. by rewrite E.
    + intros p Hp. rewrite Hm. apply rd_wr_out. rewrite length_zeros by done. lia.
    + intros p Hp. rewrite Hm. apply rd_wr_zeros; [done|lia].
Qed.

Lemma arena_metadata_run s n lane off size left info : fresh_pre (s_btt s) off size left info →
  ns_ok n → off + size ≤ ns_size n → map_cleared (ns_mem n) off size →
  ∃ n', write_arena_metadata cb lane info off (put_ns s n) = (Ok tt, put_ns s n') ∧
    ns_ok n' ∧ ns_size n' = ns_size n ∧
    (∀ p, ¬ (off ≤ p < off + size) → rd (ns_mem n') p = rd (ns_mem n) p) ∧
    fresh_ok (s_btt s) (ns_mem n') off size info (fresh_arena (b_nfree (s_btt s)) info off).
Proof.
  intros P Hok Hsz Hz. pose proof (ns_size_range n Hok) as Hns. set (b := s_btt s) in *.
  destruct (zero_map_run s n lane off size left info P Hok Hsz Hz) as (n0 & E0 & Hok0 & Hs0 & Hout0 & Hz0).
  pose proof (fresh_geometry _ _ _ _ _ P) as [A1 A2 A3 A4 A5 A6 A7 A8 A9 A10 A11 A12 A13].
  destruct (fresh_geo b off size left info P ltac:(lia)) as (G & Hend & Hmo & Hfo & Hdo).
  pose proof (final_info_wf _ _ _ _ _ P) as Hwf.
  destruct (info_checksum _ Hwf) as (v & Hv & Hins & Hver).
  set (fi := set_csum v (final_info b info)) in *. set (bs := btt_info_convert2le fi) in *.
  assert (length bs = 4096%nat) as Hbl by (by apply length_info_2le, info_wf_csum).
  pose proof P as [Hset Hlba Hnf Hrs Hal [Hoff Hoal] Hleft [Hu Hub] [Hp Hpb]].
  destruct (set_fields _ _ _ _ _ Hset) as (F1 & F2 & F3 & F4 & F5 & F6 & F7 & F8 & F9).
  assert (Forall is_byte bs) as Hbb.
  { apply info_bytes; simpl; [|done|done|rewrite F2; apply zeros_bytes].
    repeat constructor; unfold is_byte; lia. }
  assert (0 ≤ bi_internal_nlba info * bi_internal_lbasize info).
  { unfold BTT_DEFAULT_NFREE in *. nia. }
  specialize (A13 Hal). apply Z.mod_divide in A13 as [q2 Hq2]; [|lia].
  apply Z.mod_divide in Hoal as [q Hq]; [|lia].
  destruct (write_flogs_run s lane (bi_external_nlba info) (Z.to_nat (b_nfree b)) n0 0
    (off + bi_flogoff info)) as (n1 & E1 & Hok1 & Hs1 & Hout1 & Hin1); try done; try lia.
  { rewrite Hq, Hq2. replace (q * 64 + q2 * 64) with ((q + q2) * 64) by lia. by rewrite Z.mod_mul. }
  destruct (ns_write_put s n1 lane bs off) as (n2 & E2 & Hok2 & Hm2 & Hs2);
    [done|done|by destruct bs|rewrite Hbl; lia|].
  destruct (ns_write_put s n2 lane bs (off + bi_infooff info)) as (n3 & E3 & Hok3 & Hm3 & Hs3);
    [done|lia|by destruct bs|rewrite Hbl; lia|].
  assert (∀ p, off + 4096 ≤ p < off + bi_infooff info → rd (ns_mem n3) p = rd (ns_mem n1) p) as Hmid.
  { intros p Hpp. rewrite Hm3, rd_wr_out, Hm2, rd_wr_out by (rewrite Hbl; lia). done. }
  exists n3. split_and!; [|done|by rewrite Hs3, Hs2, Hs1| |].
  - unfold write_arena_metadata. erewrite bind_ok by reflexivity. cbn [compose].
    erewrite bind_ok by exact E0. change (s_btt (put_ns s n)) with b.
    rewrite (u64_id (off + bi_flogoff info)) by lia. rewrite Z.add_0_r in E1.
    erewrite bind_ok by exact E1. cbv zeta. fold (final_info b info). rewrite Hins.
    cbv beta iota. erewrite bind_ok by exact E2.
    rewrite (u64_id (off + bi_infooff (final_info b info))) by (simpl; lia). exact E3.
  - intros p Hpp. rewrite Hm3, rd_wr_out, Hm2, rd_wr_out by (rewrite Hbl; lia).
    rewrite Hout1 by lia. apply Hout0. lia.
  - set (a := fresh_arena (b_nfree b) info off) in *.
    destruct (fresh_media (b_lbasize b) (b_nfree b) (ns_mem n3) a (bi_external_nlba info)
      (off + bi_flogoff info)) as [Hfl Hown]; try done; simpl; try lia.
    { intros j Hj. destruct (Hin1 j ltac:(lia)) as [H1 H2]. rewrite Z.add_0_l in H1.
      rewrite <- H1, <- H2. split; apply flog_at_ext; intros p Hpp; apply Hmid; lia. }
    { intros l Hl. apply rd32_zero. intros p Hpp. unfold map_off in Hpp. rewrite Hmo in Hpp.
      rewrite Hmid, Hout1 by lia. apply Hz0. lia. }
    split; try done.
    + exists fi. split_and!; try done.
      assert (rdn (ns_mem n3) off 4096 = bs) as ->.
      { rewrite Hm3, rdn_wr_out, Hm2 by lia. by apply rdn_wr_same'. }
      assert (btt_info_convert2h bs = fi) as Hc by (apply info_convert2h_2le, info_wf_csum; done).
      unfold read_info. rewrite Hc, Hver, !bool_decide_true by done. done.
    + intros l Hl. apply rd32_zero. intros p Hpp. unfold map_off in Hpp. rewrite Hmo in Hpp.
      simpl in Hl. rewrite Hmid, Hout1 by lia. apply Hz0. lia.
Qed.

(** ** All arenas *)

Definition arena_rawsize (rawsize : Z) : Z :=
  if BTT_MAX_ARENA <? rawsize then BTT_MAX_ARENA else rawsize.

(** The info blocks [write_layout] computes for [rawsize] bytes. *)
Fixpoint plan (lbasize nfree : Z) (fuel : nat) (rawsize : Z) : option (list btt_info) :=
  if rawsize <? BTT_MIN_SIZE then Some []
  else match fuel with
  | O => None
  | S fuel =>
      let size := arena_rawsize rawsize in
      match btt_info_set zero_info lbasize nfree size (rawsize - size) with
      | None => None
      | Some info =>
          match plan lbasize nfree fuel (rawsize - size) with
          | None => None
          | Some rest => Some (info :: rest)
          end
      end
  end.

Definition sum_ext (infos : list btt_info) : Z :=
  foldr (λ i t, bi_external_nlba i + t) 0 infos.

Lemma arena_rawsize_spec rawsize : BTT_MIN_SIZE ≤ rawsize →
  BTT_MIN_SIZE ≤ arena_rawsize rawsize ≤ BTT_MAX_ARENA ∧ arena_rawsize rawsize ≤ rawsize ∧
  (BTT_MIN_SIZE ≤ rawsize - arena_rawsize rawsize → arena_rawsize rawsize = BTT_MAX_ARENA) ∧
  (rawsize mod 64 = 0 → arena_rawsize rawsize mod 64 = 0 ∧ (rawsize - arena_rawsize rawsize) mod 64 = 0).
Proof.
  intros H. unfold arena_rawsize, BTT_MIN_SIZE, BTT_MAX_ARENA in *.
  destruct (Z.ltb_spec (2 ^ 39) rawsize); split_and!; try lia.
  - intros [q Hq]%Z.mod_divide; [|lia]. split; [done|]. apply Z.mod_divide; [lia|].
    exists (q - 2 ^ 33). lia.
  - intros Hm. split; [done|]. by rewrite Z.sub_diag.
Qed.

Lemma set_params_eq lbasize nfree size left : internal_lbasize lbasize ≠ 0 →
  btt_info_set zero_info lbasize nfree size left =
  match btt_info_set_params zero_info lbasize (internal_lbasize lbasize) nfree size with
  | None => None
  | Some info => Some (btt_info_set_offs info size left)
  end.
Proof. intros H. unfold btt_info_set. by rewrite (proj2 (Z.eqb_neq _ _) H). Qed.

(** Without writing, the loop only counts. *)
Lemma dry_loop_run s lane fuel : ∀ rawsize num off total r s',
  internal_lbasize (b_lbasize (s_btt s)) ≠ 0 →
  write_layout_loop cb lane false (internal_lbasize (b_lbasize (s_btt s))) fuel rawsize num off total s
    = (Ok r, s') →
  s' = s ∧ ∃ infos, plan (b_lbasize (s_btt s)) (b_nfree (s_btt s)) fuel rawsize = Some infos ∧
    (0 ≤ total → Forall (λ i, 0 ≤ bi_external_nlba i) infos → total + sum_ext infos < 2 ^ 64 →
     r = (num + len infos, total + sum_ext infos)).
Proof.
  induction fuel as [|fuel IH]; intros rawsize num off total r s' Hil H; cbn [write_layout_loop plan] in *.
  { destruct (rawsize <? BTT_MIN_SIZE); [|done]. injection H as <- <-. split; [done|].
    exists []. split; [done|]. intros. simpl. f_equal; lia. }
  destruct (rawsize <? BTT_MIN_SIZE).
  { injection H as <- <-. split; [done|]. exists []. split; [done|]. intros. simpl. f_equal; lia. }
  cbv zeta in H. fold (arena_rawsize rawsize) in H. cbv zeta.
  unfold get_btt in H. erewrite bind_ok in H by reflexivity. cbn [compose] in H.
  rewrite set_params_eq by done.
  destruct (btt_info_set_params _ _ _ _ _) as [info|]; [|done]. cbn [negb] in H.
  apply IH in H as (-> & infos & Hp & Hr); [|done]. split; [done|]. rewrite Hp.
  eexists. split; [done|]. intros Ht HF Hs.
  assert (bi_external_nlba (btt_info_set_offs info (arena_rawsize rawsize)
    (rawsize - arena_rawsize rawsize)) = bi_external_nlba info) as Hx by done.
  apply Forall_cons_iff in HF as [H0 HF].
  change (sum_ext (?i :: infos)) with (bi_external_nlba info + sum_ext infos) in *.
  assert (0 ≤ sum_ext infos).
  { clear -HF. induction HF; simpl; [done|]. unfold sum_ext in *. simpl. lia. }
  rewrite Hx in H0. rewrite u64_id in Hr by lia.
  rewrite Hr by (done || lia). f_equal; [cbn [length]; lia|lia].
Qed.

Definition cleared (m : mem) (off rawsize : Z) : Prop :=
  (ns_is_zeroed cb = true ∧ ∀ p, off ≤ p < off + rawsize → rd m p = 0) ∨
  (ns_is_zeroed cb = false ∧ off = 0 ∧ rawsize < BTT_MAX_ARENA + BTT_MIN_SIZE).

Definition fresh_arena_ok (b : btt) (m : mem) (a : arena) : Prop :=
  arena_inv (b_lbasize b) (b_nfree b) m a ∧ a_flags a = 0 ∧
  ∀ l, 0 ≤ l < a_external_nlba a → rd32 m (map_off a l) = 0.

(** What the handle must provide for the layout to be written. *)
Record plan_pre (b : btt) : Prop := PlanPre {
  pp_lba : 0 < b_lbasize b < 2 ^ 32;
  pp_nfree : 0 < b_nfree b ≤ BTT_DEFAULT_NFREE;
  pp_uuid : length (b_uuid b) = 16%nat ∧ Forall is_byte (b_uuid b);
  pp_puuid : length (b_parent_uuid b) = 16%nat ∧ Forall is_byte (b_parent_uuid b)
}.

Lemma sum_ext_cons i infos : sum_ext (i :: infos) = bi_external_nlba i + sum_ext infos.
Proof. done. Qed.

Lemma layout_loop_end s lane write il fuel rawsize num off total : rawsize < BTT_MIN_SIZE →
  write_layout_loop cb lane write il fuel rawsize num off total s = (Ok (num, total), s).
Proof. intros H%Z.ltb_lt. destruct fuel; simpl; by rewrite H. Qed.

Lemma plan_end lbasize nfree fuel rawsize : rawsize < BTT_MIN_SIZE →
  plan lbasize nfree fuel rawsize = Some [].
Proof. intros H%Z.ltb_lt. destruct fuel; simpl; by rewrite H. Qed.

Lemma fresh_arena_of b m off size info a : fresh_ok b m off size info a → fresh_arena_ok b m a.
Proof. by intros []. Qed.

(** One arena followed by the ones laid out after it. *)
Lemma layout_cons b m off size rawsize info a arenas :
  fresh_ok b m off size info a → BTT_MIN_SIZE ≤ rawsize → size ≤ rawsize →
  bi_nextoff info = match arenas with [] => 0 | _ => BTT_MAX_ARENA end →
  (arenas ≠ [] → size = BTT_MAX_ARENA ∧
    layout_ok (b_parent_uuid b) (b_lbasize b) (b_nfree b) m (off + BTT_MAX_ARENA)
      (rawsize - BTT_MAX_ARENA) arenas) →
  layout_ok (b_parent_uuid b) (b_lbasize b) (b_nfree b) m off rawsize (a :: arenas).
Proof.
  intros [(info' & H1 & H2 & H3 & H4 & H5) Hend Hinv _ _ _ _] Hge Hle Hnext Hrest.
  split; [done|]. split; [apply Hinv|]. split.
  - exists info'. by rewrite H5, Hnext.
  - destruct arenas as [|a' arenas]; [lia|].
    destruct (Hrest ltac:(done)) as [-> HL]. split_and!; [done|lia|exact HL].
Qed.

Lemma layout_loop_run s lane fuel : ∀ n off rawsize num total infos,
  let b := s_btt s in
  plan (b_lbasize b) (b_nfree b) fuel rawsize = Some infos → plan_pre b →
  0 ≤ off → off mod 64 = 0 → rawsize mod 64 = 0 → BTT_MIN_SIZE ≤ rawsize →
  ns_ok n → off + rawsize ≤ ns_size n → cleared (ns_mem n) off rawsize →
  0 ≤ total → total + rawsize < 2 ^ 64 →
  ∃ n' arenas,
    write_layout_loop cb lane true (internal_lbasize (b_lbasize b)) fuel rawsize num off total (put_ns s n)
      = (Ok (num + len infos, total + sum_ext infos), put_ns s n') ∧
    ns_ok n' ∧ ns_size n' = ns_size n ∧
    (∀ p, ¬ (off ≤ p < off + rawsize) → rd (ns_mem n') p = rd (ns_mem n) p) ∧
    len arenas = len infos ∧ sum_nlba arenas = sum_ext infos ∧
    layout_ok (b_parent_uuid b) (b_lbasize b) (b_nfree b) (ns_mem n') off rawsize arenas ∧
    Forall (fresh_arena_ok b (ns_mem n')) arenas.
Proof.
  induction fuel as [|fuel IH]; intros n off rawsize num total infos b Hp Hpre Hoff Hoal Hral Hge Hok Hsz Hcl Ht Hts;
    cbn [plan write_layout_loop] in *; rewrite (proj2 (Z.ltb_ge _ _) Hge) in *; [done|].
  cbv zeta in *. destruct (arena_rawsize_spec rawsize Hge) as (Hs1 & Hs2 & Hs3 & Hs4).
  destruct (Hs4 Hral) as [Hal1 Hal2]. fold (arena_rawsize rawsize). set (size := arena_rawsize rawsize) in *.
  destruct (btt_info_set _ _ _ _ _) as [info|] eqn:Hset; [|done].
  destruct (plan _ _ fuel _) as [rest|] eqn:Hrest; [|done]. injection Hp as <-.
  pose proof Hpre as [P1 P2 P3 P4].
  assert (fresh_pre b off size (rawsize - size) info) as FP by (split; try done; lia).
  pose proof (fresh_geometry _ _ _ _ _ FP) as A.
  assert (0 ≤ bi_external_nlba info ≤ size) as Hext.
  { destruct A. unfold BTT_DEFAULT_NFREE in *. nia. }
  destruct (set_fields _ _ _ _ _ Hset) as (_ & _ & _ & _ & _ & _ & _ & Hil & Hnext).
  pose proof (ns_size_range n Hok) as Hns.
  destruct (arena_metadata_run s n lane off size (rawsize - size) info)
    as (n1 & E1 & Hok1 & Hsz1 & Hout1 & Hfk); try done; [lia| |].
  { destruct Hcl as [[Hz1 Hz2]|(Hz1 & -> & _)]; [left|by right]. split; [done|].
    intros p Hpp. apply Hz2. lia. }
  fold b in Hfk. set (a := fresh_arena (b_nfree b) info off) in *.
  rewrite set_params_eq in Hset by done.
  destruct (btt_info_set_params _ _ _ _ _) as [info0|] eqn:Hpar; [|done]. injection Hset as Hset.
  assert (bi_external_nlba info0 = bi_external_nlba info) as Hx by (rewrite <- Hset; done).
  unfold get_btt. erewrite bind_ok by reflexivity. cbn [compose].
  change (s_btt (put_ns s n)) with b. rewrite Hpar, Hx. cbn [negb]. rewrite Hset.
  erewrite bind_ok by exact E1. rewrite (u64_id (total + _)) by lia. rewrite sum_ext_cons.
  destruct (decide (rawsize - size < BTT_MIN_SIZE)) as [Hsmall|Hbig].
  - rewrite plan_end in Hrest by done. injection Hrest as <-.
    exists n1, [a]. rewrite layout_loop_end by done.
    rewrite (proj2 (Z.leb_gt _ _) Hsmall) in Hnext.
    split_and!; [do 3 f_equal; cbn [length sum_ext foldr]; lia|done|done| |done| | |].
    + intros p Hpp. apply Hout1. lia.
    + rewrite sum_nlba_cons, (fk_ext _ _ _ _ _ _ Hfk). done.
    + by eapply layout_cons.
    + by repeat constructor; eapply fresh_arena_of.
  - assert (BTT_MIN_SIZE ≤ rawsize - size) as Hb by lia. pose proof (Hs3 Hb) as Hmax.
    rewrite (proj2 (Z.leb_le _ _) Hb) in Hnext. rewrite Hnext.
    unfold BTT_MIN_SIZE in *.
    destruct (IH n1 (off + size) (rawsize - size) (num + 1) (total + bi_external_nlba info) rest)
      as (n2 & arenas & E2 & Hok2 & Hsz2 & Hout2 & Hlen & Hsum & Hlay & Hall); try done; try lia.
    { apply Z.mod_divide in Hoal as [q Hq]; [|lia]. apply Z.mod_divide in Hal1 as [q1 Hq1]; [|lia].
      rewrite Hq, Hq1. replace (q * 64 + q1 * 64) with ((q + q1) * 64) by lia. by rewrite Z.mod_mul. }
    { destruct Hcl as [[Hz1 Hz2]|(Hz1 & Ho0 & Hsm)]; [left|unfold BTT_MAX_ARENA, BTT_MIN_SIZE in *; lia].
      split; [done|]. intros p Hpp. rewrite Hout1 by lia. apply Hz2. lia. }
    rewrite (u64_id (off + size)) by lia. fold b in E2, Hlay, Hall.
    assert (fresh_ok b (ns_mem n2) off size info a) as Hfk2.
    { eapply fresh_ok_ext; [done| |exact Hfk]. intros p Hpp. symmetry. apply Hout2. lia. }
    exists n2, (a :: arenas). split_and!; [|done|by rewrite Hsz2| | | | |].
    + rewrite E2. do 2 f_equal. cbn [length]. f_equal; lia.
    + intros p Hpp. rewrite Hout2 by lia. apply Hout1. lia.
    + cbn [length]. lia.
    + by rewrite sum_nlba_cons, (fk_ext _ _ _ _ _ _ Hfk), Hsum.
    + rewrite Hmax in *. eapply layout_cons; [exact Hfk2|done|done| |done].
      rewrite Hnext. by destruct arenas.
    + constructor; [by eapply fresh_arena_of|done].
Qed.

(** The number of arenas computed from the size is the number laid out. *)
Lemma plan_length lbasize nfree fuel : ∀ rawsize infos, 0 ≤ rawsize < 2 ^ 64 →
  plan lbasize nfree fuel rawsize = Some infos → len infos = arena_count rawsize.
Proof.
  assert (∀ r, 0 ≤ r < 2 ^ 64 → arena_count r =
    r / BTT_MAX_ARENA + if BTT_MIN_SIZE <=? r mod BTT_MAX_ARENA then 1 else 0) as Hc.
  { intros r Hr. unfold arena_count. rewrite u32_id; [done|]. unfold BTT_MAX_ARENA.
    split; [apply Z.div_pos; lia|]. apply Z.div_lt_upper_bound; lia. }
  induction fuel as [|fuel IH]; intros rawsize infos Hr Hp; rewrite Hc by done; cbn [plan] in Hp;
    destruct (Z.ltb_spec rawsize BTT_MIN_SIZE) as [Hlt|Hge]; simplify_eq;
    try (unfold BTT_MIN_SIZE, BTT_MAX_ARENA in *; rewrite Z.div_small, Z.mod_small by lia;
         by rewrite (proj2 (Z.leb_gt _ _)) by lia).
  cbv zeta in Hp. destruct (btt_info_set _ _ _ _ _); [|done].
  destruct (plan _ _ fuel _) as [rest|] eqn:Hrest; [|done]. simplify_eq.
  destruct (arena_rawsize_spec rawsize Hge) as (Hs1 & Hs2 & Hs3 & _).
  assert (0 ≤ rawsize - arena_rawsize rawsize < 2 ^ 64) as Hl by (unfold BTT_MIN_SIZE in *; lia).
  apply IH in Hrest; [|done]. rewrite Hc in Hrest by done.
  cbn [length]. rewrite Nat2Z.inj_succ, Hrest. unfold arena_rawsize in *.
  destruct (Z.ltb_spec BTT_MAX_ARENA rawsize) as [Hm|Hm].
  - replace (rawsize - BTT_MAX_ARENA) with (rawsize + (-1) * BTT_MAX_ARENA) by lia.
    rewrite Z.div_add, Z.mod_add by done. lia.
  - rewrite Z.sub_diag. unfold BTT_MIN_SIZE, BTT_MAX_ARENA in *.
    change (0 / 2 ^ 39) with 0. change (0 mod 2 ^ 39) with 0. cbn [Z.leb Z.compare].
    destruct (decide (rawsize = 2 ^ 39)) as [->|]; [done|].
    rewrite Z.div_small, Z.mod_small by lia.
    change (2 ^ 20 * 16 <=? 0) with false. destruct (Z.leb_spec (2 ^ 20 * 16) rawsize); lia.
Qed.

Lemma plan_ext_bound lbasize nfree fuel : ∀ rawsize infos, 0 < lbasize < 2 ^ 32 →
  0 < nfree ≤ BTT_DEFAULT_NFREE → 0 ≤ rawsize →
  plan lbasize nfree fuel rawsize = Some infos →
  Forall (λ i, 0 ≤ bi_external_nlba i) infos ∧ sum_ext infos ≤ rawsize.
Proof.
  induction fuel as [|fuel IH]; intros rawsize infos Hl Hn Hr Hp; cbn [plan] in Hp;
    destruct (Z.ltb_spec rawsize BTT_MIN_SIZE) as [Hlt|Hge]; simplify_eq; try done.
  cbv zeta in Hp. destruct (btt_info_set _ _ _ _ _) as [info|] eqn:Hset; [|done].
  destruct (plan _ _ fuel _) as [rest|] eqn:Hrest; [|done]. simplify_eq.
  destruct (arena_rawsize_spec rawsize Hge) as (Hs1 & Hs2 & _).
  apply IH in Hrest as [HF Hs]; [|done|done|lia]. unfold BTT_DEFAULT_NFREE in Hn.
  destruct (set_geometry zero_info lbasize nfree _ _ _ ltac:(lia) ltac:(lia) Hs1 Hset).
  rewrite sum_ext_cons. split; [constructor; [lia|done]|]. nia.
Qed.

(** The handle after [write_layout]. *)
Definition laid_out (b : btt) (uuid : list Z) (arenas : list arena) : btt :=
  Btt (b_nlane b) (b_layout_write_mutex b) true uuid (b_parent_uuid b) (b_rawsize b)
    (b_lbasize b) (b_nfree b) (sum_nlba arenas) (len arenas) arenas.

Lemma write_layout_run s lane u infos :
  let b := s_btt s in
  plan (b_lbasize b) (b_nfree b) (Z.to_nat (b_rawsize b / BTT_MAX_ARENA + 1)) (b_rawsize b) = Some infos →
  s_uuid s = Some u → plan_pre (b_set_uuid u b) → internal_lbasize (b_lbasize b) ≠ 0 →
  b_rawsize b mod 64 = 0 → BTT_MIN_SIZE ≤ b_rawsize b → s_malloc s = [] →
  ns_ok (s_ns s) → b_rawsize b ≤ ns_size (s_ns s) → cleared (ns_mem (s_ns s)) 0 (b_rawsize b) →
  lane < b_nfree b →
  ∃ n' arenas,
    write_layout cb lane true s = (Ok tt, St (laid_out b u arenas) n' [] (s_uuid s)) ∧
    ns_ok n' ∧ ns_size n' = ns_size (s_ns s) ∧ sum_nlba arenas = sum_ext infos ∧
    layout_ok (b_parent_uuid b) (b_lbasize b) (b_nfree b) (ns_mem n') 0 (b_rawsize b) arenas ∧
    Forall (fresh_arena_ok b (ns_mem n')) arenas.
Proof.
  intros b Hp Hu Hpre Hil Hral Hge Hml Hok Hsz Hcl Hlane.
  pose proof (ns_size_range _ Hok) as Hns.
  assert (0 ≤ b_rawsize b) as Hr0 by (unfold BTT_MIN_SIZE in *; lia).
  pose proof (plan_length _ _ _ (b_rawsize b) _ ltac:(lia) Hp) as Hcount.
  set (b1 := b_set_narena (len infos) (b_set_uuid u b)).
  set (s1 := St b1 (s_ns s) [] (s_uuid s)).
  destruct (layout_loop_run s1 lane (Z.to_nat (b_rawsize b / BTT_MAX_ARENA + 1)) (s_ns s) 0
    (b_rawsize b) 0 0 infos) as (n1 & arenas & E1 & Hok1 & Hsz1 & _ & Hlen & Hsum & HL & Hall); try done.
  { by destruct Hpre. } { lia. }
  rewrite !Z.add_0_l in E1.
  pose proof (sum_nlba_bound _ _ _ _ _ _ _ (Z.le_refl 0) HL) as Hsb.
  set (s2 := St (b_set_arenas (replicate (length arenas) zero_arena) (b_set_nlba (sum_ext infos) b1)) n1 [] (s_uuid s)).
  destruct (read_arenas_loop_run cb lane (b_parent_uuid b) arenas s2 [] 0 (b_rawsize b))
    as (n2 & E2 & Hok2 & Hsz2 & Hm2); try done.
  { simpl. rewrite Hsz1. done. }
  { intros ->. done. }
  { eapply Forall_impl; [|exact Hall]. intros a0 ([_ H1 _ H2] & _). by split. }
  { simpl. rewrite <- Hsum. by apply (ext_le_sum _ _ _ _ _ _ _ (Z.le_refl 0) HL). }
  rewrite (recover_arenas_inv (b_lbasize b) (b_nfree b)) in Hm2.
  2: { eapply Forall_impl; [|exact Hall]. by intros a0 []. }
  exists n2, arenas. simpl in Hsz2, Hm2. rewrite Hm2. split_and!; try done; [|by rewrite Hsz2, Hsz1].
  unfold write_layout. erewrite bind_ok.
  2: { erewrite bind_ok; [reflexivity|]. unfold util_uuid_generate. by rewrite Hu. }
  erewrite bind_ok by reflexivity. cbn [compose s_btt b_rawsize b_set_uuid mod_btt modify].
  erewrite bind_ok by reflexivity. erewrite bind_ok by reflexivity.
  cbn [compose s_btt s_ns s_malloc s_uuid b_lbasize b_set_narena b_set_uuid mod_btt modify].
  fold b. rewrite (proj2 (Z.eqb_neq _ _) Hil), Hml. rewrite <- Hcount.
  erewrite bind_ok by exact E1. erewrite bind_ok by reflexivity. erewrite bind_ok by reflexivity.
  cbn [compose s_btt b_narena b_set_nlba put_ns b1 s1 b_set_narena snd].
  unfold read_arenas. apply on_fail_ok. erewrite bind_ok by reflexivity.
  erewrite bind_ok by reflexivity.
  assert (Z.to_nat (len infos) = length arenas) as -> by lia.
  erewrite bind_ok by exact E2. unfold laid_out, mod_btt, modify. simpl. by rewrite Hsum, Hlen.
Qed.

(** [btt_init] on media without a layout only computes the sizes. *)
Lemma btt_init_empty s rawsize lbasize puuid maxlane s1 :
  s_malloc s = [] → ns_ok (s_ns s) → rawsize ≤ ns_size (s_ns s) → 0 < lbasize < 2 ^ 32 →
  read_info puuid (rdn (ns_mem (s_ns s)) 0 4096) = None → 0 ≤ maxlane →
  btt_init cb rawsize lbasize puuid maxlane s = (Ok tt, s1) →
  internal_lbasize lbasize ≠ 0 ∧ BTT_MIN_SIZE ≤ rawsize ∧
  ∃ infos, plan lbasize BTT_DEFAULT_NFREE (Z.to_nat (rawsize / BTT_MAX_ARENA + 1)) rawsize = Some infos ∧
    s1 = St (Btt (if negb (maxlane =? 0) && (maxlane <? BTT_DEFAULT_NFREE) then maxlane
                  else BTT_DEFAULT_NFREE)
               false false (zeros 16) puuid rawsize lbasize BTT_DEFAULT_NFREE (sum_ext infos)
               (arena_count rawsize) []) (s_ns s) [] (s_uuid s).
Proof.
  intros Hml Hok Hsz Hlba Hnone Hmax H. unfold btt_init in H.
  destruct (Z.ltb_spec rawsize BTT_MIN_SIZE) as [|Hge]; [done|].
  pose proof (ns_size_range _ Hok) as Hns.
  erewrite bind_ok in H by (by apply Malloc_ok). erewrite bind_ok in H by reflexivity.
  rewrite Hml in H. apply bind_inv_ok in H as ([] & sr & Hrl & H).
  unfold on_fail in Hrl. destruct (read_layout _ _ _) as [[[]| |] s'] eqn:El; [|done|done].
  injection Hrl as ->. unfold read_layout in El. erewrite bind_ok in El by reflexivity.
  cbn [compose s_btt b_rawsize] in El. erewrite bind_ok in El by reflexivity.
  cbn [s_btt s_ns s_malloc s_uuid] in El.
  set (b1 := b_set_nfree BTT_DEFAULT_NFREE (Btt 0 false false (zeros 16) puuid rawsize lbasize 0 0 0 [])) in El.
  assert (read_layout_loop cb 0 (Z.to_nat (rawsize / BTT_MAX_ARENA + 1)) rawsize 0 (2 ^ 32 - 1) 0 0
    (St b1 (s_ns s) [] (s_uuid s)) = (Ok None, St b1 (s_ns s) [] (s_uuid s))) as Hloop.
  { assert (0 ≤ rawsize / BTT_MAX_ARENA).
    { apply Z.div_pos; unfold BTT_MAX_ARENA, BTT_MIN_SIZE in *; lia. }
    destruct (Z.to_nat (rawsize / BTT_MAX_ARENA + 1)) as [|k] eqn:Ek; [lia|].
    cbn [read_layout_loop]. rewrite (proj2 (Z.ltb_ge _ _)) by done. cbv zeta.
    erewrite bind_ok.
    2: { unfold ns_read. rewrite ns_read_ok; [reflexivity|done|done|done|].
         change sizeof_btt_info with 4096. unfold BTT_MIN_SIZE in *. simpl. lia. }
    unfold get_btt. erewrite bind_ok by reflexivity.
    replace (read_info _ _) with (@None btt_info) by (symmetry; exact Hnone). done. }
  erewrite bind_ok in El by exact Hloop. cbv beta iota in El. unfold write_layout in El.
  erewrite bind_ok in El by reflexivity. erewrite bind_ok in El by reflexivity.
  erewrite bind_ok in El by reflexivity. erewrite bind_ok in El by reflexivity.
  cbn [compose s_btt s_ns s_malloc s_uuid b1 b_set_nfree b_lbasize b_rawsize] in El.
  change (b_lbasize (b_set_narena _ b1)) with lbasize in El.
  destruct (Z.eqb_spec (internal_lbasize lbasize) 0) as [|Hil]; [done|].
  apply bind_inv_ok in El as (r & sd & Hdry & El).
  destruct (dry_loop_run (St (b_set_narena (arena_count rawsize) b1) (s_ns s) [] (s_uuid s)) _ _ _ _ _ _ _ _ Hil Hdry)
    as (-> & infos & Hp & Hr).
  change (plan lbasize BTT_DEFAULT_NFREE (Z.to_nat (rawsize / BTT_MAX_ARENA + 1)) rawsize = Some infos) in Hp.
  assert (0 ≤ rawsize) as Hr0 by (unfold BTT_MIN_SIZE in *; lia).
  assert (0 < BTT_DEFAULT_NFREE ≤ BTT_DEFAULT_NFREE) as Hnf by done.
  destruct (plan_ext_bound lbasize BTT_DEFAULT_NFREE _ rawsize infos Hlba Hnf Hr0 Hp) as [HF Hs].
  rewrite Hr in El by (done || lia). injection El as <-. injection H as <-.
  split_and!; [done..|]. by exists infos.
Qed.

Lemma first_write_unlaid s lane s' :
  b_laidout (s_btt s) = false → b_layout_write_mutex (s_btt s) = false →
  write_layout cb lane true (St (b_set_mutex true (s_btt s)) (s_ns s) (s_malloc s) (s_uuid s)) = (Ok tt, s') →
  first_write cb lane s =
  (Ok tt, St (b_set_mutex false (s_btt s')) (s_ns s') (s_malloc s') (s_uuid s')).
Proof.
  intros Hl Hm E. unfold first_write, get_btt.
  erewrite bind_ok by reflexivity. simpl. rewrite Hl.
  erewrite bind_ok by reflexivity. simpl. rewrite Hm.
  erewrite bind_ok by reflexivity. erewrite bind_ok by reflexivity. simpl. rewrite Hl.
  by erewrite bind_ok by (apply on_fail_ok; exact E).
Qed.

(** A namespace without a layout.  Opening it does not write; the first
    write lays out all arenas, after which the invariant holds, no arena is in error, the
    number of blocks is the one announced by [btt_init] and every block reads
    as zeros. *)
Lemma fresh_namespace s rawsize lbasize puuid maxlane u s1 lane :
  s_malloc s = [] → s_uuid s = Some u → length u = 16%nat → Forall is_byte u →
  length puuid = 16%nat → Forall is_byte puuid →
  ns_ok (s_ns s) → rawsize ≤ ns_size (s_ns s) → rawsize mod 64 = 0 → 0 < lbasize < 2 ^ 32 →
  cleared (ns_mem (s_ns s)) 0 rawsize →
  read_info puuid (rdn (ns_mem (s_ns s)) 0 4096) = None → 0 ≤ maxlane →
  btt_init cb rawsize lbasize puuid maxlane s = (Ok tt, s1) →
  0 ≤ lane < b_nlane (s_btt s1) →
  s_ns s1 = s_ns s ∧ b_laidout (s_btt s1) = false ∧ b_lbasize (s_btt s1) = lbasize ∧
  ∃ s2, first_write cb lane s1 = (Ok tt, s2) ∧ btt_ready cb s2 ∧
    b_shape (s_btt s2) = b_shape (s_btt s1) ∧ ns_size (s_ns s2) = ns_size (s_ns s) ∧
    ∀ lba, 0 ≤ lba < b_nlba (s_btt s1) →
      btt_view (s_btt s2) (ns_mem (s_ns s2)) lba = Some BZero ∧
      update_result (s_btt s2) lba = Ok tt.
Proof.
  intros Hml Hu Hul Hub Hpl Hpb Hok Hsz Hral Hlba Hcl Hnone Hmax Hinit Hlane.
  destruct (btt_init_empty _ _ _ _ _ _ Hml Hok Hsz Hlba Hnone Hmax Hinit) as (Hil & Hge & infos & Hp & ->).
  split_and!; [done..|]. simpl in Hlane. unfold BTT_DEFAULT_NFREE in Hlane.
  assert (lane < 256 ∧ 0 < (if negb (maxlane =? 0) && (maxlane <? 256) then maxlane else 256) ≤ 256) as [Hl256 Hnl].
  { destruct (_ && _) eqn:E; [|lia]. apply andb_true_iff in E as [E1%negb_true_iff%Z.eqb_neq E2%Z.ltb_lt]. lia. }
  set (b1 := Btt _ false false _ _ _ _ _ _ _ _).
  set (s1 := St (b_set_mutex true b1) (s_ns s) [] (s_uuid s)).
  destruct (write_layout_run s1 lane u infos) as (n' & arenas & E & Hok' & Hsz' & Hsum & HL & Hall); try done.
  exists (St (b_set_mutex false (laid_out (b_set_mutex true b1) u arenas)) n' [] (s_uuid s)).
  split_and!; try done; [| |by unfold b_shape; simpl; rewrite Hsum|].
  { by apply (first_write_unlaid (St b1 (s_ns s) [] (s_uuid s)) lane _ eq_refl eq_refl E). }
  { split; [|done|simpl; by rewrite Hsz'].
    split; simpl; try done; [pose proof (ns_size_range _ Hok); lia|].
    eapply Forall_impl; [|exact Hall]. by intros a0 []. }
  intros lba Hlb. simpl in Hlb. rewrite <- Hsum in Hlb.
  destruct (lba_to_arena_total arenas 0 lba Hlb) as [[ai l] Eloop].
  destruct (lba_to_arena_spec _ _ _ _ _ (proj1 Hlb) Eloop) as (_ & Hl0 & _ & a & Ha & Hl1).
  rewrite Z.sub_0_r in Ha. pose proof (lookupZ_Forall _ _ _ _ Hall Ha) as (_ & Hfl & Hz).
  unfold btt_view, update_result, arena_failed. cbn [s_btt s_ns laid_out b_set_mutex b_arenas b_nlba b_lbasize].
  rewrite Eloop, Ha, Hfl, (proj2 (Z.leb_gt _ _)) by lia. split; [|done].
  unfold arena_view. by rewrite Hz.
Qed.
End fresh.
