(* ===== verification/BttCheck.v ===== *)
(** * Block translation table: the consistency check

    [btt_check] scans the map and the flogs of every arena with a bitmap of
    internal blocks.  It decides exactly whether every internal block is
    owned once, by a map entry or by a flog. *)

From stdpp Require Import base gmap list numbers.
From S2P Require Import Prelude Memory Pmem Util BttLayout Btt BttSpec BttRun BttRefine BttInit.
Local Open Scope Z_scope.

(** ** The bitmap as a set *)

Definition scan (st : list Z * bool) (x : Z) : list Z * bool :=
  let dup := util_isset st.1 x in
  (if dup then st.1 else util_setbit st.1 x, st.2 && negb dup).

(** [B] has exactly the bits of [S]. *)
Definition rep (B : list Z) (S : list Z) : Prop :=
  ∀ x, 0 ≤ x < 8 * len B → util_isset B x = bool_decide (x ∈ S).

Lemma scan_length st x : length (scan st x).1 = length st.1.
Proof. unfold scan. simpl. case_match; [done|apply length_setbit]. Qed.

Lemma scan_rep B c S x : rep B S → 0 ≤ x < 8 * len B → rep (scan (B, c) x).1 (S ++ [x]).
Proof.
  intros HR Hx y Hy. rewrite scan_length in Hy. simpl in Hy. unfold scan. simpl.
  rewrite (HR x Hx). case_bool_decide as Hin.
  - rewrite (HR y Hy). apply bool_decide_ext. clear -Hin. set_solver.
  - rewrite isset_setbit, (HR y Hy) by lia. clear. repeat case_bool_decide; set_solver.
Qed.

Lemma scan_spec xs : ∀ B c S, rep B S → Forall (λ x, 0 ≤ x < 8 * len B) xs →
  let r := foldl scan (B, c) xs in
  length r.1 = length B ∧ rep r.1 (S ++ xs) ∧
  (r.2 = true ↔ c = true ∧ NoDup xs ∧ ∀ x, x ∈ xs → x ∉ S).
Proof.
  induction xs as [|x xs IH]; intros B c S HR HF.
  { simpl. rewrite app_nil_r. split_and!; [done|done|]. split; [|naive_solver].
    intros ->. split_and!; [done|constructor|]. by intros x ?%not_elem_of_nil. }
  apply Forall_cons_iff in HF as [Hx HF].
  pose proof (scan_rep B c S x HR Hx) as HR'. pose proof (scan_length (B, c) x) as Hlen.
  cbn [foldl]. destruct (scan (B, c) x) as [B' c'] eqn:Es. simpl in HR', Hlen.
  destruct (IH B' c' (S ++ [x]) HR') as (H1 & H2 & H3); [by rewrite Hlen|].
  split; [by rewrite H1|]. split; [by rewrite <- (assoc_L (++)) in H2|]. rewrite H3.
  assert (c' = c && negb (bool_decide (x ∈ S))) as ->.
  { unfold scan in Es. simpl in Es. rewrite (HR x Hx) in Es. by injection Es as _ <-. }
  clear. split.
  - intros ([Hc Hx]%andb_true_iff & Hn & Hd). apply negb_true_iff, bool_decide_eq_false in Hx.
    split_and!; [done|constructor; [|done]; set_solver|set_solver].
  - intros (-> & Hn & Hd). inversion Hn as [|?? Hx Hn']; subst.
    split_and!; [|done|set_solver]. apply andb_true_iff. split; [done|].
    apply negb_true_iff, bool_decide_eq_false. set_solver.
Qed.

Lemma rep_zeros k : 0 ≤ k → rep (zeros k) [].
Proof.
  intros Hk x Hx. rewrite length_zeros in Hx by done. rewrite bool_decide_false by apply not_elem_of_nil.
  rewrite testbit_isset by lia. unfold lookupZ, zeros. rewrite decide_True by (apply Z.div_pos; lia).
  assert (repeat 0 (Z.to_nat k) !! Z.to_nat (x / 8) = Some 0) as ->.
  { assert (x / 8 < k) by (apply Z.div_lt_upper_bound; lia).
    destruct (repeat 0 (Z.to_nat k) !! Z.to_nat (x / 8)) as [y|] eqn:E.
    - apply list_elem_of_lookup_2, list_elem_of_In, repeat_spec in E. by subst.
    - apply lookup_ge_None in E. rewrite repeat_length in E. lia. }
  apply Z.bits_0.
Qed.

Lemma all_set_spec B L n : ∀ i, rep B L → 0 ≤ i → i + Z.of_nat n ≤ 8 * len B →
  all_set B n i = true ↔ Forall (λ x, x ∈ L) (seqZ i (Z.of_nat n)).
Proof.
  induction n as [|n IH]; intros i HR Hi Hn; [done|].
  cbn [all_set]. rewrite seqZ_cons by lia. rewrite Forall_cons_iff, andb_true_iff.
  replace (Z.pred (Z.of_nat (S n))) with (Z.of_nat n) by lia.
  replace (Z.succ i) with (i + 1) by lia. rewrite IH by (done || lia).
  unfold util_isclr. rewrite negb_involutive, (HR i), bool_decide_eq_true by lia. done.
Qed.

(** ** The scans *)

Section check.
Context {NS : Type} (cb : ns_callback NS) `{!NsSpec cb}.
Implicit Types (s : st NS) (n : NS).

Definition targets (a : arena) (m : mem) : list Z := target a m <$> seqZ 0 (a_external_nlba a).
Definition frees (nfree : Z) (a : arena) : list Z :=
  free_block <$> take (Z.to_nat nfree) (a_flogs a).

(** Every internal block of the arena has exactly one owner. *)
Definition consistent (nfree : Z) (m : mem) (a : arena) : Prop :=
  NoDup (targets a m ++ frees nfree a) ∧
  Forall (λ x, x ∈ targets a m ++ frees nfree a) (seqZ 0 (a_internal_nlba a)).

#[global] Instance consistent_dec nfree m a : Decision (consistent nfree m a).
Proof. unfold consistent. apply _. Defined.

Lemma ptr_rd32_eq (p : Z → Z) m off i k : 0 ≤ i → 4 * i + 4 ≤ k →
  (∀ j, 0 ≤ j < k → p j = rd m (off + j)) → ptr_rd32 p i = rd32 m (off + 4 * i).
Proof.
  intros Hi Hk Hp. unfold ptr_rd32, rd32. rewrite !Hp by lia. f_equal. unfold rdn.
  replace (off + (4 * i + 1)) with (off + 4 * i + 1) by lia.
  replace (off + (4 * i + 2)) with (off + 4 * i + 1 + 1) by lia.
  by replace (off + (4 * i + 3)) with (off + 4 * i + 1 + 1 + 1) by lia.
Qed.

Lemma check_map_mapped s ai a p B0 : ∀ k i c B off,
  lookupZ (b_arenas (s_btt s)) ai = Some a → a_internal_nlba a < 2 ^ 30 →
  0 ≤ i → i + Z.of_nat k = a_external_nlba a → a_external_nlba a < 2 ^ 30 →
  (∀ j, 0 ≤ j < 4 * a_external_nlba a → p j = rd (ns_mem (s_ns s)) (a_mapoff a + j)) →
  Forall (λ l, target a (ns_mem (s_ns s)) l < a_internal_nlba a) (seqZ i (Z.of_nat k)) →
  length B = B0 →
  check_map_loop cb ai k i off p i (4 * Z.of_nat k) B c s =
  (Ok (foldl scan (B, c) (target a (ns_mem (s_ns s)) <$> seqZ i (Z.of_nat k))), s).
Proof.
  induction k as [|k IH]; intros i c B off Ha Hin Hi Hk Hext Hp HF HB; [done|].
  rewrite seqZ_cons in HF |- * by lia. apply Forall_cons_iff in HF as [Ht HF].
  replace (Z.pred (Z.of_nat (S k))) with (Z.of_nat k) in * by lia.
  replace (Z.succ i) with (i + 1) in * by lia.
  cbn [check_map_loop]. erewrite bind_ok by (unfold get_arena; by rewrite Ha).
  rewrite (proj2 (Z.eqb_neq _ _)) by lia. erewrite bind_ok by reflexivity. cbv beta iota zeta.
  rewrite (ptr_rd32_eq p (ns_mem (s_ns s)) (a_mapoff a) i (4 * a_external_nlba a)) by (done || lia).
  fold (map_off a i).
  assert ((if map_entry_is_initial (rd32 (ns_mem (s_ns s)) (map_off a i)) then i
    else rd32 (ns_mem (s_ns s)) (map_off a i) &&& BTT_MAP_ENTRY_LBA_MASK) = target a (ns_mem (s_ns s)) i) as ->.
  { unfold target, map_entry. destruct (map_entry_is_initial _); [|done].
    rewrite lor_normal by lia. symmetry. apply entry_lba. lia. }
  rewrite (proj2 (Z.leb_gt _ _)) by done. rewrite (u64_id (_ - 4)) by lia.
  replace (4 * Z.of_nat (S k) - 4) with (4 * Z.of_nat k) by lia.
  rewrite IH; try done; try lia.
  case_match; [done|]. by rewrite length_setbit.
Qed.

Lemma check_flogs_run frs : ∀ B c, Forall (λ fr, free_block fr < 8 * len B) frs →
  check_flog_loop frs B c = Some (foldl scan (B, c) (free_block <$> frs)).
Proof.
  induction frs as [|fr frs IH]; intros B c HF; [done|].
  apply Forall_cons_iff in HF as [Hf HF]. cbn [check_flog_loop]. cbv zeta. fold (free_block fr).
  pose proof (free_block_range fr).
  rewrite (proj2 (Z.leb_gt _ _)) by (apply Z.div_lt_upper_bound; lia).
  rewrite IH; [done|]. case_match; by rewrite ?length_setbit.
Qed.

Lemma howmany8 k : 0 ≤ k → 0 ≤ howmany k 8 ∧ k ≤ 8 * howmany k 8.
Proof. intros. pose proof (howmany_spec k 8 ltac:(lia) ltac:(lia)). lia. Qed.

Lemma check_arena_run s ai a :
  let b := s_btt s in let m := ns_mem (s_ns s) in
  lookupZ (b_arenas b) ai = Some a → arena_geo (b_lbasize b) (b_nfree b) a →
  s_malloc s = [] → ns_ok (s_ns s) → arena_end (b_nfree b) a ≤ ns_size (s_ns s) →
  Forall (λ x, x < a_internal_nlba a) (targets a m ++ frees (b_nfree b) a) →
  check_arena cb ai s = (Ok (bool_decide (consistent (b_nfree b) m a)), s).
Proof.
  intros b m Ha G Hml Hok Hend [HT HFr]%Forall_app.
  assert (get_arena ai s = (Ok a, s)) as Hga by (unfold get_arena; fold b; by rewrite Ha).
  pose proof (geo_mapoff G) as Hmo. pose proof (ns_size_range _ Hok) as Hns.
  destruct (howmany8 (a_internal_nlba a)) as [Hb1 Hb2]; [destruct G; lia|].
  set (B := zeros (howmany (a_internal_nlba a) 8)).
  assert (len B = howmany (a_internal_nlba a) 8) as HBl by (by apply length_zeros).
  destruct (ns_map_ok (s_ns s) 0 (4 * a_external_nlba a) (a_mapoff a)) as (p & Emap & Hp); try done; try lia.
  { destruct G. lia. } { destruct G. unfold map_off in *. lia. }
  set (r := foldl scan (B, true) (targets a m)).
  assert (check_map_loop cb ai (Z.to_nat (a_external_nlba a)) 0 (a_mapoff a) (λ _, 0) 0 0 B true s = (Ok r, s)) as Hmap.
  { pose proof (g_ext _ _ _ G) as Hext. unfold r, targets.
    pose proof (check_map_mapped s ai a p (length B) (Z.to_nat (a_external_nlba a)) 0 true B (a_mapoff a))
      as Hm. rewrite !Z2Nat.id in Hm by lia. etransitivity; [|apply Hm]; try done; try (destruct G; lia).
    - destruct (Z.to_nat (a_external_nlba a)) as [|k] eqn:Ek; [lia|]. cbn [check_map_loop].
      rewrite !(bind_ok _ _ _ _ _ Hga).
      rewrite (proj2 (Z.eqb_neq (4 * a_external_nlba a) 0)) by lia. cbn [Z.eqb].
      erewrite bind_ok.
      2: { erewrite bind_ok; [reflexivity|]. unfold ns_map. rewrite Z.sub_0_r, u32_id by (destruct G; lia).
           rewrite Z.mul_comm, Emap. reflexivity. }
      erewrite (bind_ok (mret _)) by reflexivity. cbv beta iota zeta. cbn [fst snd].
      done.
    - by apply Forall_fmap in HT. }
  destruct (scan_spec (targets a m) B true [] (rep_zeros _ Hb1)) as (Hl1 & Hr1 & Hc1).
  { apply Forall_lookup. intros i x Hx. pose proof (Forall_lookup_1 _ _ _ _ HT Hx) as Hlt.
    apply list_lookup_fmap_Some_1 in Hx as (l & -> & _). pose proof (target_range a m l). simpl in Hlt.
    fold B. rewrite HBl. lia. }
  fold r in Hl1, Hr1, Hc1. destruct r as [B1 c1] eqn:Er. cbn [fst snd app] in *.
  assert (Forall (λ x, 0 ≤ x < 8 * len B1) (frees (b_nfree b) a)) as HF1.
  { apply Forall_fmap in HFr. apply Forall_fmap. eapply Forall_impl; [|exact HFr].
    intros fr H1. simpl in *. pose proof (free_block_range fr). rewrite Hl1, HBl. lia. }
  destruct (scan_spec (frees (b_nfree b) a) B1 c1 _ Hr1 HF1) as (Hl2 & Hr2 & Hc2).
  unfold check_arena. erewrite bind_ok by exact Hga.
  erewrite bind_ok by (by apply Malloc_ok). fold B. erewrite bind_ok by exact Hmap. cbv beta iota.
  unfold get_btt. erewrite bind_ok by reflexivity. cbn [compose]. fold b.
  rewrite check_flogs_run.
  2: { apply Forall_fmap in HF1. eapply Forall_impl; [|exact HF1]. simpl. lia. }
  fold (frees (b_nfree b) a). destruct (foldl scan (B1, c1) (frees (b_nfree b) a)) as [B2 c2] eqn:E2.
  cbn [fst snd] in *. unfold mret, M_ret. do 2 f_equal. apply eq_true_iff_eq.
  rewrite andb_true_iff, bool_decide_eq_true.
  rewrite (all_set_spec B2 (targets a m ++ frees (b_nfree b) a)) by (done || (destruct G; lia)).
  rewrite Z2Nat.id by (destruct G; lia). rewrite Hc2, Hc1. unfold consistent.
  rewrite list.NoDup_app. split.
  - intros (((_ & N1 & _) & N2 & D) & C). split_and!; [done| |done|done]. intros x H1 H2. by apply (D x).
  - intros ((N1 & D & N2) & C). split_and!; try done; [by intros x _ ?%not_elem_of_nil|].
    intros x H1 H2. by apply (D x).
Qed.

Lemma check_loop_run s k : ∀ ai c,
  let b := s_btt s in let m := ns_mem (s_ns s) in
  0 ≤ ai → ai + Z.of_nat k = len (b_arenas b) →
  s_malloc s = [] → ns_ok (s_ns s) →
  Forall (λ a, arena_geo (b_lbasize b) (b_nfree b) a ∧ arena_end (b_nfree b) a ≤ ns_size (s_ns s) ∧
    Forall (λ x, x < a_internal_nlba a) (targets a m ++ frees (b_nfree b) a)) (b_arenas b) →
  btt_check_loop cb k ai c s =
  (Ok (c && bool_decide (Forall (consistent (b_nfree b) m) (drop (Z.to_nat ai) (b_arenas b)))), s).
Proof.
  induction k as [|k IH]; intros ai c b m Hai Hk Hml Hok HF.
  - cbn [btt_check_loop]. rewrite drop_ge by lia. rewrite bool_decide_true by constructor.
    by rewrite andb_true_r.
  - cbn [btt_check_loop]. destruct (lookupZ_is_Some (b_arenas b) ai) as [a Ha]; [lia|].
    destruct (lookupZ_Forall _ _ _ _ HF Ha) as (G & He & Hx).
    erewrite bind_ok by (by apply check_arena_run).
    rewrite IH; [|lia|fold b; lia|done..]. do 2 f_equal. rewrite <- andb_assoc. f_equal.
    unfold lookupZ in Ha. rewrite decide_True in Ha by lia.
    rewrite (drop_S _ _ _ Ha), <- bool_decide_and. apply bool_decide_ext.
    rewrite Forall_cons_iff. by replace (Z.to_nat (ai + 1)) with (S (Z.to_nat ai)) by lia.
Qed.

Lemma inv_blocks_range lbasize nfree m a : arena_inv lbasize nfree m a →
  Forall (λ x, x < a_internal_nlba a) (targets a m ++ frees nfree a).
Proof.
  intros [G Hf Ho _]. apply Forall_app. split; apply Forall_fmap, Forall_lookup.
  - intros i l Hi. apply lookup_seqZ in Hi as [-> ?]. apply Ho. lia.
  - intros i fr Hi. apply lookup_take_Some in Hi as [Hi _]. rewrite <- lookupZ_nat in Hi. by eapply Ho.
Qed.

(** Pigeonhole: as many distinct block numbers as there are blocks. *)
Lemma nodup_covers (L : list Z) k : 0 ≤ k → NoDup L → Forall (λ x, 0 ≤ x < k) L → len L = k →
  Forall (λ x, x ∈ L) (seqZ 0 k).
Proof.
  intros Hk HN HF Hlen.
  assert (L ≡ₚ seqZ 0 k) as Hperm.
  { apply submseteq_length_Permutation; [|rewrite length_seqZ; lia].
    apply NoDup_submseteq; [done|]. intros x [i Hx]%list_elem_of_lookup.
    apply elem_of_seqZ. pose proof (Forall_lookup_1 _ _ _ _ HF Hx). simpl in *. lia. }
  apply Forall_lookup. intros i x Hx. rewrite Hperm. by eapply list_elem_of_lookup_2.
Qed.

Lemma inv_consistent lbasize nfree m a : arena_inv lbasize nfree m a →
  a_external_nlba a + nfree = a_internal_nlba a → consistent nfree m a.
Proof.
  intros Hinv Hcount. pose proof (inv_blocks_range _ _ _ _ Hinv) as HR.
  destruct Hinv as [G Hf Ho _]. destruct Ho as [O1 O2 O3 O4 O5].
  assert (take (Z.to_nat nfree) (a_flogs a) = a_flogs a) as Htake.
  { apply take_ge. destruct Hf as [<- _]. lia. }
  assert (NoDup (targets a m ++ frees nfree a)) as HN.
  { apply list.NoDup_app. unfold targets, frees. rewrite Htake. split_and!.
    - apply NoDup_fmap_2_strong; [|apply NoDup_seqZ].
      intros x y [? ?]%elem_of_seqZ [? ?]%elem_of_seqZ. apply O3; lia.
    - intros x (l & -> & Hl%elem_of_seqZ)%list_elem_of_fmap (fr & He & [i Hi]%list_elem_of_lookup)%list_elem_of_fmap.
      rewrite <- lookupZ_nat in Hi. by apply (O5 l (Z.of_nat i) fr); [lia|done|].
    - apply NoDup_alt. intros i j x Hi Hj.
      apply list_lookup_fmap_Some_1 in Hi as (fi & -> & Hi), Hj as (fj & He & Hj).
      rewrite <- lookupZ_nat in Hi, Hj. apply Nat2Z.inj. by eapply O4. }
  split; [done|]. apply nodup_covers; [destruct G; lia|done| |].
  - apply Forall_app in HR as [H1 H2]. apply Forall_app.
    apply Forall_fmap in H1, H2. split; apply Forall_fmap.
    + eapply Forall_impl; [|exact H1]. intros l Hl. pose proof (target_range a m l). simpl in *. lia.
    + eapply Forall_impl; [|exact H2]. intros fr Hl. pose proof (free_block_range fr). simpl in *. lia.
  - unfold targets, frees. rewrite Htake, length_app, !length_fmap, length_seqZ.
    rewrite Nat2Z.inj_add, (proj1 Hf). destruct G. lia.
Qed.

Lemma ready_in_range s : btt_ready cb s →
  Forall (λ a, arena_geo (b_lbasize (s_btt s)) (b_nfree (s_btt s)) a ∧
    arena_end (b_nfree (s_btt s)) a ≤ ns_size (s_ns s) ∧
    Forall (λ x, x < a_internal_nlba a)
      (targets a (ns_mem (s_ns s)) ++ frees (b_nfree (s_btt s)) a)) (b_arenas (s_btt s)).
Proof.
  intros HR. apply Forall_lookup. intros i a Ha. rewrite <- lookupZ_nat in Ha.
  destruct (arena_of_lookup cb s _ _ HR Ha) as [Hinv He].
  split_and!; [apply Hinv|done|by eapply inv_blocks_range].
Qed.

(** C32: on a loaded namespace whose map entries and flog entries are in range, [btt_check]
    answers "consistent" exactly when in every arena each internal block is owned by
    one map entry or one flog, and it changes nothing. *)
Theorem btt_check_decides s :
  let b := s_btt s in let m := ns_mem (s_ns s) in
  b_laidout b = true → b_narena b = len (b_arenas b) → s_malloc s = [] → ns_ok (s_ns s) →
  Forall (λ a, arena_geo (b_lbasize b) (b_nfree b) a ∧ arena_end (b_nfree b) a ≤ ns_size (s_ns s) ∧
    Forall (λ x, x < a_internal_nlba a) (targets a m ++ frees (b_nfree b) a)) (b_arenas b) →
  btt_check cb s = (Ok (bool_decide (Forall (consistent (b_nfree b) m) (b_arenas b))), s).
Proof.
  intros b m Hl Hn Hml Hok HF. unfold btt_check, get_btt. erewrite bind_ok by reflexivity.
  cbn [compose]. fold b. rewrite Hl, Hn, Nat2Z.id. cbn [negb].
  rewrite check_loop_run; [|lia|fold b; lia|done..]. fold b m. by rewrite drop_0.
Qed.

(** in every state that satisfies the invariant the check succeeds: what the
    operations maintain is what the offline check tests. *)
Theorem btt_check_invariant s : btt_ready cb s → s_malloc s = [] →
  btt_check cb s = (Ok true, s).
Proof.
  intros HR Hml. pose proof HR as [Hi Hok _]. unfold btt_check, get_btt.
  erewrite bind_ok by reflexivity. cbn [compose].
  rewrite (bv_laidout _ _ Hi), (bv_narena _ _ Hi), Nat2Z.id. cbn [negb].
  rewrite check_loop_run; [|lia|lia|done|done|].
  - rewrite drop_0, bool_decide_true; [done|]. apply Forall_lookup. intros i a Ha.
    eapply inv_consistent; [by eapply (Forall_lookup_1 _ _ _ _ (bv_arenas _ _ Hi))|].
    apply (g_free _ _ _ (ai_geo _ _ _ _ (Forall_lookup_1 _ _ _ _ (bv_arenas _ _ Hi) Ha))).
  - by apply ready_in_range.
Qed.
End check.
