(* ===== verification/Blk.v ===== *)
(** * libpmemblk: pools of atomically writable blocks

    Models [libpmemblk/blk.c] and [libpmemblk/blk.h]: the namespace callbacks handed to the BTT, the
    lanes, the pool descriptor, and the entry points [pmemblk_*].  The pool is two
    memories: the header page with the descriptor after it, addressed from the
    start of the pool, and the data area, addressed from [pbp->data], which is
    aligned to 4096 bytes so that words, cache lines and pages are the same in both
    numberings.  Mapping the pool files ([util_pool_create], [util_pool_open]) is the argument
    [rep] of the functions that call them: [None] when the call fails. *)

From stdpp Require Import base gmap list numbers.
From S2P Require Import Prelude Memory Pmem Util BttLayout Btt.
Local Open Scope Z_scope.

(** ** Constants and state *)

Definition sizeof_pool_hdr : Z := 4096.
Definition off_poolset_uuid : Z := 24.
Definition off_bsize : Z := 4096.
Definition off_is_zeroed : Z := 4100.
Definition sizeof_pmemblk : Z := 4216.
Definition BLK_FORMAT_DATA_ALIGN : Z := 4096.
Definition UINT32_MAX : Z := 2 ^ 32 - 1.

(** What the callbacks use of [struct pmemblk]: the data area, its size, its kind. *)
Record blk_ns : Type := BlkNs {
  n_data : pmem;
  n_datasize : Z;
  n_is_pmem : bool
}.

Record pmemblk : Type := Pmemblk {
  k_hdr : pmem;              (* header page and descriptor *)
  k_size : Z;
  k_rdonly : bool;
  k_st : st blk_ns;          (* [bttp] and the data area *)
  k_nlane : Z;
  k_next_lane : Z;
  k_locks : list bool;
  k_cb_zeroed : bool         (* [ns_cb.ns_is_zeroed], a global *)
}.

Definition k_is_pmem (k : pmemblk) : bool := n_is_pmem (s_ns (k_st k)).
Definition k_bsize (k : pmemblk) : Z := rd32 (pm_mem (k_hdr k)) off_bsize.
Definition k_is_zeroed (k : pmemblk) : bool := negb (rd32 (pm_mem (k_hdr k)) off_is_zeroed =? 0).
Definition k_poolset_uuid (k : pmemblk) : list Z := rdn (pm_mem (k_hdr k)) off_poolset_uuid 16.

Definition k_set_hdr (x : pmem) (k : pmemblk) : pmemblk :=
  Pmemblk x (k_size k) (k_rdonly k) (k_st k) (k_nlane k) (k_next_lane k) (k_locks k) (k_cb_zeroed k).
Definition k_set_rdonly (x : bool) (k : pmemblk) : pmemblk :=
  Pmemblk (k_hdr k) (k_size k) x (k_st k) (k_nlane k) (k_next_lane k) (k_locks k) (k_cb_zeroed k).
Definition k_set_st (x : st blk_ns) (k : pmemblk) : pmemblk :=
  Pmemblk (k_hdr k) (k_size k) (k_rdonly k) x (k_nlane k) (k_next_lane k) (k_locks k) (k_cb_zeroed k).
Definition k_set_nlane (x : Z) (k : pmemblk) : pmemblk :=
  Pmemblk (k_hdr k) (k_size k) (k_rdonly k) (k_st k) x (k_next_lane k) (k_locks k) (k_cb_zeroed k).
Definition k_set_next_lane (x : Z) (k : pmemblk) : pmemblk :=
  Pmemblk (k_hdr k) (k_size k) (k_rdonly k) (k_st k) (k_nlane k) x (k_locks k) (k_cb_zeroed k).
Definition k_set_locks (x : list bool) (k : pmemblk) : pmemblk :=
  Pmemblk (k_hdr k) (k_size k) (k_rdonly k) (k_st k) (k_nlane k) (k_next_lane k) x (k_cb_zeroed k).
Definition k_set_cb_zeroed (x : bool) (k : pmemblk) : pmemblk :=
  Pmemblk (k_hdr k) (k_size k) (k_rdonly k) (k_st k) (k_nlane k) (k_next_lane k) (k_locks k) x.

(** A mapped pool set, as [util_pool_create] and [util_pool_open] leave it. *)
Record replica : Type := Replica {
  r_hdr : pmem;
  r_data : pmem;
  r_repsize : Z;
  r_is_pmem : bool;
  r_nreplicas : Z;
  r_zeroed : bool;
  r_rdonly : bool;
  r_chmod_ok : bool
}.

Section blk.
Context (Funcs : pmem_funcs).

(** ** Namespace callbacks *)

Definition blk_nsread (n : blk_ns) (lane count off : Z) : res (list Z) :=
  if n_datasize n <? u64 (off + count) then Fail EINVAL
  else Ok (rdn (pm_mem (n_data n)) off (Z.to_nat count)).

Definition blk_nswrite (n : blk_ns) (lane : Z) (buf : list Z) (off : Z) : res unit * blk_ns :=
  let count := len buf in
  if n_datasize n <? u64 (off + count) then (Fail EINVAL, n)
  else
    let p := if n_is_pmem n then pmem_memcpy_nodrain Funcs (n_data n) off buf
             else pm_store (n_data n) off buf in
    let p := if n_is_pmem n then pmem_drain Funcs p else pmem_msync p off count in
    (Ok tt, BlkNs p (n_datasize n) (n_is_pmem n)).

Definition blk_nsmap (n : blk_ns) (lane length off : Z) : res (Z * (Z → Z)) :=
  if n_datasize n <=? u64 (off + length) then Fail EINVAL
  else Ok (length, λ i, rd (pm_mem (n_data n)) (off + i)).

Definition blk_nssync (n : blk_ns) (lane addr length : Z) : blk_ns :=
  BlkNs (if n_is_pmem n then pmem_persist Funcs (n_data n) addr length
         else pmem_msync (n_data n) addr length) (n_datasize n) (n_is_pmem n).

Definition blk_nszero (n : blk_ns) (lane count off : Z) : res unit * blk_ns :=
  if n_datasize n <? u64 (off + count) then (Fail EINVAL, n)
  else (Ok tt, BlkNs (pmem_memset_persist Funcs (n_data n) off 0 count)
                 (n_datasize n) (n_is_pmem n)).

Definition ns_cb (is_zeroed : bool) : ns_callback blk_ns :=
  NsCallback blk_ns blk_nsread blk_nswrite blk_nszero blk_nsmap blk_nssync is_zeroed.

(** A call into the BTT. *)
Definition lift {A} (op : ns_callback blk_ns → M (st blk_ns) A) : M pmemblk A := λ k,
  let '(r, s) := op (ns_cb (k_cb_zeroed k)) (k_st k) in (r, k_set_st s k).

(** ** Lanes *)

Definition lane_enter : M pmemblk Z := λ k,
  let mylane := k_next_lane k mod k_nlane k in
  let k := k_set_next_lane (u32 (k_next_lane k + 1)) k in
  match lookupZ (k_locks k) mylane with
  | Some false => (Ok mylane, k_set_locks (updZ (k_locks k) mylane true) k)
  | _ => (Undef, k)
  end.

Definition lane_exit (mylane : Z) : M pmemblk unit := λ k,
  match lookupZ (k_locks k) mylane with
  | Some true => (Ok tt, k_set_locks (updZ (k_locks k) mylane false) k)
  | _ => (Undef, k)
  end.

(** [lane_enter; err = op(lane); lane_exit; return err] *)
Definition on_lane {A} (op : Z → M pmemblk A) : M pmemblk A :=
  lane ← lane_enter;
  r ← on_fail (op lane) (λ e, lane_exit lane;; fail e);
  lane_exit lane;; mret r.

(** ** The descriptor *)

Definition hdr_write (off : Z) (bs : list Z) : M pmemblk unit :=
  modify (λ k, k_set_hdr (util_persist Funcs (k_is_pmem k) (pm_store (k_hdr k) off bs) off (len bs)) k).

Definition blk_descr_create (bsize : Z) (zeroed : bool) : M pmemblk unit :=
  hdr_write off_bsize (le_bytes 4 bsize);;
  hdr_write off_is_zeroed (le_bytes 4 (if zeroed then 1 else 0)).

(** Returns the block size of the header when the caller asks for it with 0. *)
Definition blk_descr_check (bsize : Z) : M pmemblk Z :=
  hdr_bsize ← gets k_bsize;
  if negb (bsize =? 0) && negb (bsize =? hdr_bsize) then fail EINVAL else mret hdr_bsize.

(** ** Run-time initialisation *)

Definition set_data_area : M pmemblk unit := modify (λ k,
  let datasize := u64 (k_size k - roundup sizeof_pmemblk BLK_FORMAT_DATA_ALIGN) in
  let s := k_st k in
  k_set_st (St (s_btt s) (BlkNs (n_data (s_ns s)) datasize (n_is_pmem (s_ns s)))
              (s_malloc s) (s_uuid s)) k).

Definition blk_runtime_init (bsize : Z) (rdonly : bool) (ncpus : Z) : M pmemblk unit :=
  modify (k_set_rdonly rdonly);;
  set_data_area;;
  k ← gets (λ k, k);
  let ncpus := if ncpus <? 1 then 1 else ncpus in
  modify (k_set_cb_zeroed (k_is_zeroed k));;
  lift (λ cb, btt_init cb (n_datasize (s_ns (k_st k))) (u32 bsize) (k_poolset_uuid k)
                (u32 (u32 ncpus * 2)));;
  nlane ← lift (λ _, btt_nlane);
  modify (k_set_nlane nlane);;
  modify (k_set_next_lane 0);;
  on_fail (lift (λ _, Malloc)) (λ e, lift (λ _, btt_fini);; fail e);;
  modify (k_set_locks (replicate (Z.to_nat nlane) false)).

(** The handle overlaid on the mapped pool. *)
Definition map_pool (rep : replica) (k : pmemblk) : pmemblk :=
  Pmemblk (r_hdr rep) (r_repsize rep) false
    (St zero_btt (BlkNs (r_data rep) 0 (r_is_pmem rep)) (s_malloc (k_st k)) (s_uuid (k_st k)))
    0 0 [] (k_cb_zeroed k).

(** ** Entry points *)

Definition pmemblk_create (rep : option replica) (pool_errno bsize ncpus : Z) : M pmemblk unit :=
  if bsize =? 0 then fail EINVAL
  else if UINT32_MAX <? bsize then fail EINVAL
  else match rep with
  | None => fail pool_errno
  | Some rep =>
      modify (map_pool rep);;
      blk_descr_create (u32 bsize) (r_zeroed rep);;
      blk_runtime_init bsize false ncpus;;
      if r_chmod_ok rep then mret tt else fail pool_errno
  end.

Definition blk_open_common (rep : option replica) (pool_errno bsize ncpus : Z) : M pmemblk unit :=
  match rep with
  | None => fail pool_errno
  | Some rep =>
      modify (map_pool rep);;
      if 1 <? r_nreplicas rep then fail ENOTSUP
      else
        bsize ← blk_descr_check bsize;
        blk_runtime_init bsize (r_rdonly rep) ncpus
  end.

Definition pmemblk_open (rep : option replica) (pool_errno bsize ncpus : Z) : M pmemblk unit :=
  blk_open_common rep pool_errno bsize ncpus.

Definition pmemblk_close : M pmemblk unit :=
  lift (λ _, btt_fini);; modify (k_set_locks []).

Definition pmemblk_bsize : M pmemblk Z := gets k_bsize.
Definition pmemblk_nblock : M pmemblk Z := lift (λ _, btt_nlba).

Definition pmemblk_read (blockno : Z) : M pmemblk (list Z) :=
  if blockno <? 0 then fail EINVAL
  else on_lane (λ lane, lift (λ cb, btt_read cb lane blockno)).

Definition pmemblk_write (buf : list Z) (blockno : Z) : M pmemblk unit :=
  rdonly ← gets k_rdonly;
  if (rdonly : bool) then fail EROFS
  else if blockno <? 0 then fail EINVAL
  else on_lane (λ lane, lift (λ cb, btt_write cb lane blockno buf)).

Definition pmemblk_set_zero (blockno : Z) : M pmemblk unit :=
  rdonly ← gets k_rdonly;
  if (rdonly : bool) then fail EROFS
  else if blockno <? 0 then fail EINVAL
  else on_lane (λ lane, lift (λ cb, btt_set_zero cb lane blockno)).

Definition pmemblk_set_error (blockno : Z) : M pmemblk unit :=
  rdonly ← gets k_rdonly;
  if (rdonly : bool) then fail EROFS
  else if blockno <? 0 then fail EINVAL
  else on_lane (λ lane, lift (λ cb, btt_set_error cb lane blockno)).

(** The pool is mapped copy-on-write, so its changes are dropped by the caller. *)
Definition pmemblk_check (rep : option replica) (pool_errno bsize ncpus : Z) : M pmemblk bool :=
  blk_open_common rep pool_errno bsize ncpus;;
  r ← on_fail (lift (λ cb, btt_check cb)) (λ e, pmemblk_close;; fail e);
  pmemblk_close;; mret r.
End blk.
