(* ===== verification/BlkSpec.v ===== *)
(** * libpmemblk: the pool as an array of blocks

    [blk_nsspec] discharges the contract [NsSpec] of the BTT by the callbacks of
    [blk.c]; with a base memory it also records that every event since the base
    belongs to a durable write, which turns the crash theorem of the BTT
    into one about stores, flushes and fences.  The entry points are then shown to
    implement an array of blocks. *)

From stdpp Require Import base gmap list numbers.
From S2P Require Import Prelude Memory Pmem Util BttLayout Btt BttSpec BttRun BttRefine.
From S2P Require Import BttCrash Blk.
Local Open Scope Z_scope.

(** ** The callbacks implement the contract of the BTT *)

Definition stores (es : list ev) : list (Z * list Z) :=
  omap (λ e, match e with EvStore off bs => Some (off, bs) | _ => None end) es.

Lemma stores_app es1 es2 : stores (es1 ++ es2) = stores es1 ++ stores es2.
Proof. apply omap_app. Qed.

Lemma replay_stores m es : replay m es = wrs m (stores es).
Proof. revert m. induction es as [|[] es IH]; intros; simpl; auto. Qed.

(** The events since the base [p0] are those of durable writes. *)
Definition tracked (p0 p : pmem) : Prop :=
  ∃ es, pm_evs p = pm_evs p0 ++ es ∧ durable_writes (stores es) es ∧
    pm_mem p = wrs (pm_mem p0) (stores es).

Definition blk_ok (base : option pmem) (n : blk_ns) : Prop :=
  0 ≤ n_datasize n < 2 ^ 64 ∧
  match base with Some p0 => tracked p0 (n_data n) | None => True end.

Lemma tracked_refl p : tracked p p.
Proof. exists []. rewrite app_nil_r. repeat split. constructor. Qed.

Lemma tracked_write p0 p off bs ls :
  (∀ a, off ≤ a < off + len bs → a / 64 ∈ ls) → tracked p0 p →
  tracked p0 (emit (pm_store p off bs) [EvFlush ls; EvDrain]).
Proof.
  intros Hls (es & He & Hd & Hm). exists (es ++ [EvStore off bs; EvFlush ls; EvDrain]).
  simpl. rewrite stores_app. simpl. split_and!.
  - rewrite He. by rewrite <- !(assoc_L (++)).
  - constructor; [done|]. by constructor.
  - by rewrite Hm, wrs_app.
Qed.

Section blk_spec.
Context (env : pmem_env) (Henv : flushing_env env) (zeroed : bool).
Local Abbreviation F := (pmem_init_funcs env).

(** A write is the store, the flush of lines that cover it and a fence, on both paths. *)
Lemma blk_nswrite_run n lane bs off :
  0 ≤ n_datasize n < 2 ^ 64 → 0 ≤ off → bs ≠ [] → off + len bs ≤ n_datasize n →
  ∃ ls, (∀ a, off ≤ a < off + len bs → a / 64 ∈ ls) ∧
    blk_nswrite F n lane bs off =
    (Ok tt, BlkNs (emit (pm_store (n_data n) off bs) [EvFlush ls; EvDrain])
              (n_datasize n) (n_is_pmem n)).
Proof using Henv.
  intros Hn Hoff Hbs Hle. unfold blk_nswrite. rewrite u64_id by lia.
  rewrite (proj2 (Z.ltb_ge _ _)) by lia. destruct (n_is_pmem n).
  - eexists. rewrite memcpy_nodrain_drain_events by done. split; [|done].
    intros a Ha. apply flush_nolog_covers; lia.
  - eexists. split; [|done]. intros a Ha.
    pose proof (Z.mod_pos_bound off 4096 ltac:(lia)). pose proof (Z.div_mod off 4096 ltac:(lia)).
    pose proof (Z.div_pos off 4096 ltac:(lia) ltac:(lia)).
    rewrite ALIGN_DOWN_4096 by lia.
    apply flush_nolog_covers; lia.
Qed.

#[global] Program Instance blk_nsspec (base : option pmem) : NsSpec (ns_cb F zeroed) := {|
  ns_mem n := pm_mem (n_data n);
  ns_size := n_datasize;
  ns_trace n := stores (pm_evs (n_data n));
  ns_ok := blk_ok base
|}.
Next Obligation. intros base n [H _]. exact H. Qed.
Next Obligation.
  intros base n lane count off [Hn _] Hoff Hc Hle. unfold nsread, ns_cb, blk_nsread.
  rewrite u64_id by lia. by rewrite (proj2 (Z.ltb_ge _ _)) by lia.
Qed.
Next Obligation.
  intros base n lane bs off [Hn Hb] Hoff Hbs Hle.
  destruct (blk_nswrite_run n lane bs off Hn Hoff Hbs Hle) as (ls & Hls & E).
  eexists. split; [exact E|]. split_and!; [split; [done|]|done|done|].
  - destruct base; [by apply tracked_write|done].
  - simpl. rewrite !stores_app. simpl. by rewrite app_nil_r.
Qed.
Next Obligation.
  intros base n lane length off [Hn _] Hoff Hl Hle. eexists. unfold nsmap, ns_cb, blk_nsmap.
  rewrite u64_id by lia. by rewrite (proj2 (Z.leb_gt _ _)) by lia.
Qed.

#[global] Instance blk_nszerospec : @NsZeroSpec _ (ns_cb F zeroed) (blk_nsspec None).
Proof using Henv.
  intros n lane count off [Hn _] Hoff Hc Hle. unfold nszero, ns_cb, blk_nszero. simpl in *.
  rewrite u64_id by lia. rewrite (proj2 (Z.ltb_ge _ _)) by lia. eexists. split; [done|].
  split; [by split|]. split; [|done]. simpl.
  unfold pmem_memset_persist, pmem_memset, memmove_nodrain, zeros. simpl.
  rewrite repeat_length, Z2Nat.id by lia.
  destruct (Z.eqb_spec count 0) as [->|]; [done|]. done.
Qed.
End blk_spec.

(** ** Pools *)

(** What [blk_updates] needs of the result of an operation on block [blockno]. *)
Definition blk_result (k : pmemblk) (blockno : Z) : res unit :=
  if k_rdonly k then Fail EROFS
  else if blockno <? 0 then Fail EINVAL
  else update_result (s_btt (k_st k)) blockno.

Definition k_view (k : pmemblk) (blockno : Z) : option block :=
  btt_view (s_btt (k_st k)) (pm_mem (n_data (s_ns (k_st k)))) blockno.

Section pool.
Context (env : pmem_env) (Henv : flushing_env env).
Local Abbreviation F := (pmem_init_funcs env).
Implicit Types (k : pmemblk) (base : option pmem).

Definition data_size k : Z := u64 (k_size k - roundup sizeof_pmemblk BLK_FORMAT_DATA_ALIGN).

(** An open pool no thread is using: the BTT is ready, the lanes are free and the
    handle agrees with the descriptor. *)
Record blk_ready base k : Prop := BlkReady {
  kr_btt : @btt_ready _ _ (blk_nsspec env Henv (k_cb_zeroed k) base) (k_st k);
  kr_nlane : k_nlane k = b_nlane (s_btt (k_st k));
  kr_locks : k_locks k = replicate (Z.to_nat (k_nlane k)) false;
  kr_bsize : b_lbasize (s_btt (k_st k)) = k_bsize k;
  kr_uuid : b_parent_uuid (s_btt (k_st k)) = k_poolset_uuid k;
  kr_rawsize : b_rawsize (s_btt (k_st k)) = data_size k;
  kr_datasize : n_datasize (s_ns (k_st k)) = data_size k;
  kr_zeroed : k_cb_zeroed k = k_is_zeroed k
}.

(** The state after an operation that took a lane. *)
Definition after_lane k (s : st blk_ns) : pmemblk :=
  k_set_st s (k_set_next_lane (u32 (k_next_lane k + 1)) k).

Definition lanes_free k : Prop :=
  0 < k_nlane k ∧ k_locks k = replicate (Z.to_nat (k_nlane k)) false.

Lemma ready_lanes base k : blk_ready base k → lanes_free k.
Proof.
  intros HR. pose proof (bv_nlane _ _ (br_inv _ _ (kr_btt _ _ HR))) as Hnl.
  split; [rewrite (kr_nlane _ _ HR); lia|apply HR].
Qed.

(** A call made on a lane gets one in range and gives it back, on success and on failure. *)
Lemma on_lane_run {A} k (op : ns_callback blk_ns → Z → M (st blk_ns) A) r s' :
  lanes_free k →
  op (ns_cb F (k_cb_zeroed k)) (k_next_lane k mod k_nlane k) (k_st k) = (r, s') → r ≠ Undef →
  on_lane (λ lane, lift F (λ cb, op cb lane)) k = (r, after_lane k s').
Proof.
  intros [Hnl Hl] Hop Hr. set (lane := k_next_lane k mod k_nlane k) in *.
  assert (0 ≤ lane < k_nlane k) as Hlane by (apply Z.mod_pos_bound; lia).
  assert (lookupZ (k_locks k) lane = Some false) as Hlk
    by (rewrite Hl; apply lookupZ_replicate; lia).
  assert (lookupZ (updZ (k_locks k) lane true) lane = Some true) as Hlk'.
  { apply lookupZ_updZ_eq. rewrite Hl, length_replicate. lia. }
  unfold on_lane. erewrite bind_ok.
  2: { unfold lane_enter. cbn [k_set_next_lane k_locks]. fold lane. rewrite Hlk. done. }
  assert (∀ s, lane_exit lane (k_set_st s (k_set_locks (updZ (k_locks k) lane true)
    (k_set_next_lane (u32 (k_next_lane k + 1)) k))) = (Ok tt, after_lane k s)) as Hexit.
  { intros s. unfold lane_exit. cbn [k_set_st k_set_locks k_locks]. rewrite Hlk'.
    rewrite updZ_updZ, (updZ_id _ _ _ Hlk). by destruct k. }
  destruct r as [a|e|]; [| |done].
  - erewrite bind_ok.
    2: { apply on_fail_ok. unfold lift. cbn [k_set_locks k_set_next_lane k_cb_zeroed k_st].
         rewrite Hop. done. }
    by erewrite bind_ok by apply Hexit.
  - erewrite bind_fail; [done|]. erewrite on_fail_fail.
    2: { unfold lift. cbn [k_set_locks k_set_next_lane k_cb_zeroed k_st]. rewrite Hop. done. }
    by erewrite bind_ok by apply Hexit.
Qed.

(** [k'] holds the array of blocks of [k], with [v] at [blockno] if the operation succeeds. *)
Definition blk_updates base k (blockno : Z) (v : block) k' : Prop :=
  blk_ready base k' ∧ k_hdr k' = k_hdr k ∧ k_rdonly k' = k_rdonly k ∧
  (∀ b, blk_result k' b = blk_result k b) ∧
  ∀ b, 0 ≤ b → k_view k' b =
    match blk_result k blockno with
    | Ok _ => if decide (b = blockno) then Some v else k_view k b
    | _ => k_view k b
    end.

Lemma blk_updates_same base k blockno v : blk_ready base k → blk_result k blockno ≠ Ok tt →
  blk_updates base k blockno v k.
Proof.
  intros HR Hne. split_and!; [done..|]. intros b _. by destruct (blk_result k blockno) as [[]| |].
Qed.

Lemma update_result_def b lba : update_result b lba ≠ Undef.
Proof. unfold update_result. by repeat case_match. Qed.

(** The state after a BTT operation that keeps the shape of the handle. *)
Lemma after_lane_ready base k s : blk_ready base k →
  @btt_ready _ _ (blk_nsspec env Henv (k_cb_zeroed k) base) s →
  b_shape (s_btt s) = b_shape (s_btt (k_st k)) → n_datasize (s_ns s) = n_datasize (s_ns (k_st k)) →
  blk_ready base (after_lane k s).
Proof.
  intros [H1 H2 H3 H4 H5 H6 H7 H8] HR Hsh Hsz. unfold b_shape in Hsh.
  injection Hsh as E1 E2 E3 E4 E5.
  unfold data_size, k_bsize, k_poolset_uuid, k_is_zeroed in *.
  split; unfold data_size, k_bsize, k_poolset_uuid, k_is_zeroed; simpl; first [done | congruence].
Qed.

(** The three update operations run their BTT operation on a lane. *)
Lemma update_run base k blockno v (op : ns_callback blk_ns → Z → M (st blk_ns) unit) :
  blk_ready base k → k_rdonly k = false → 0 ≤ blockno →
  (∃ s', op (ns_cb F (k_cb_zeroed k)) (k_next_lane k mod k_nlane k) (k_st k) =
      (update_result (s_btt (k_st k)) blockno, s') ∧
    @updates _ _ (blk_nsspec env Henv (k_cb_zeroed k) base) (k_st k) blockno v s') →
  ∃ k', on_lane (λ lane, lift F (λ cb, op cb lane)) k = (blk_result k blockno, k') ∧
    blk_updates base k blockno v k'.
Proof.
  intros HR Hro Hb (s' & Hop & HR' & Hsh & Hsz & Hur & Hv).
  assert (blk_result k blockno = update_result (s_btt (k_st k)) blockno) as Hres.
  { unfold blk_result. by rewrite Hro, (proj2 (Z.ltb_ge _ _)). }
  exists (after_lane k s'). rewrite Hres. split.
  - eapply on_lane_run; [by eapply ready_lanes|exact Hop|apply update_result_def].
  - split_and!; [by apply after_lane_ready|done|done| |].
    + intros b. unfold blk_result. simpl. by rewrite Hur.
    + intros b Hb0. rewrite Hres. by apply Hv.
Qed.

Lemma blk_lane_range base k : blk_ready base k →
  0 ≤ k_next_lane k mod k_nlane k < b_nlane (s_btt (k_st k)).
Proof.
  intros HR. rewrite <- (kr_nlane _ _ HR). apply Z.mod_pos_bound. rewrite (kr_nlane _ _ HR).
  apply (bv_nlane _ _ (br_inv _ _ (kr_btt _ _ HR))).
Qed.

(** The guards of the update operations, in the order of the code. *)
Lemma guarded_run base k blockno v (op : ns_callback blk_ns → Z → M (st blk_ns) unit) :
  blk_ready base k →
  (0 ≤ blockno → ∃ s', op (ns_cb F (k_cb_zeroed k)) (k_next_lane k mod k_nlane k) (k_st k) =
      (update_result (s_btt (k_st k)) blockno, s') ∧
    @updates _ _ (blk_nsspec env Henv (k_cb_zeroed k) base) (k_st k) blockno v s') →
  ∃ k', (rdonly ← gets k_rdonly;
         if (rdonly : bool) then fail EROFS
         else if blockno <? 0 then fail EINVAL
         else on_lane (λ lane, lift F (λ cb, op cb lane))) k = (blk_result k blockno, k') ∧
    blk_updates base k blockno v k'.
Proof.
  intros HR Hop. erewrite bind_ok by reflexivity. destruct (k_rdonly k) eqn:Hro.
  - assert (blk_result k blockno = Fail EROFS) as Hres by (unfold blk_result; by rewrite Hro).
    rewrite Hres. exists k. split; [done|]. apply blk_updates_same; [done|by rewrite Hres].
  - destruct (Z.ltb_spec blockno 0) as [Hlt|Hge].
    + assert (blk_result k blockno = Fail EINVAL) as Hres.
      { unfold blk_result. by rewrite Hro, (proj2 (Z.ltb_lt _ _)). }
      rewrite Hres. exists k. split; [done|]. apply blk_updates_same; [done|by rewrite Hres].
    + by apply update_run; [..|apply Hop].
Qed.

Lemma blk_write_refines base k buf blockno :
  blk_ready base k → len buf = k_bsize k → Forall is_byte buf →
  ∃ k', pmemblk_write F buf blockno k = (blk_result k blockno, k') ∧
    blk_updates base k blockno (BData buf) k'.
Proof.
  intros HR Hbuf Hbytes. apply (guarded_run base k blockno (BData buf)
    (λ cb lane, btt_write cb lane blockno buf) HR). intros Hb.
  apply write_refines; [apply HR|by eapply blk_lane_range|done| |done].
  rewrite Hbuf. symmetry. apply HR.
Qed.

Lemma blk_set_refines base k blockno : blk_ready base k →
  (∃ k', pmemblk_set_zero F blockno k = (blk_result k blockno, k') ∧
     blk_updates base k blockno BZero k') ∧
  (∃ k', pmemblk_set_error F blockno k = (blk_result k blockno, k') ∧
     blk_updates base k blockno BError k').
Proof.
  intros HR. split.
  - apply (guarded_run base k blockno BZero (λ cb lane, btt_set_zero cb lane blockno) HR).
    intros Hb. by apply set_refines; [apply HR|].
  - apply (guarded_run base k blockno BError (λ cb lane, btt_set_error cb lane blockno) HR).
    intros Hb. by apply set_refines; [apply HR|].
Qed.

(** What a read of a block returns. *)
Definition read_result (bsize : Z) (v : option block) : res (list Z) :=
  match v with
  | None => Fail EINVAL
  | Some BError => Fail EIO
  | Some BZero => Ok (zeros bsize)
  | Some (BData d) => Ok d
  end.

Lemma blk_read_view base k blockno : blk_ready base k →
  pmemblk_read F blockno k =
  if blockno <? 0 then (Fail EINVAL, k)
  else (read_result (k_bsize k) (k_view k blockno), after_lane k (k_st k)).
Proof.
  intros HR. unfold pmemblk_read. destruct (Z.ltb_spec blockno 0); [done|].
  eapply on_lane_run; [by eapply ready_lanes| |].
  - rewrite <- (kr_bsize _ _ HR).
    rewrite (@read_view _ _ (blk_nsspec env Henv (k_cb_zeroed k) base));
      [done|apply HR|by apply (blk_lane_range base)|done].
  - unfold read_result. by repeat case_match.
Qed.

(** The base of the trace can be moved to the present. *)
Lemma ready_now k : blk_ready None k → blk_ready (Some (n_data (s_ns (k_st k)))) k.
Proof.
  intros [[Hi [Hok _] Hsz] H2 H3 H4 H5 H6 H7 H8]. split; try done. split; [done| |done].
  by split; [|apply tracked_refl].
Qed.

Lemma ready_forget base k : blk_ready base k → blk_ready None k.
Proof. intros [[Hi [Hok _] Hsz] H2 H3 H4 H5 H6 H7 H8]. by split. Qed.

(** Only the contents of the data area matter. *)
Lemma ready_rebase k p ml : blk_ready None k → pm_mem p = pm_mem (n_data (s_ns (k_st k))) →
  blk_ready None (k_set_st (St (s_btt (k_st k)) (BlkNs p (n_datasize (s_ns (k_st k)))
    (n_is_pmem (s_ns (k_st k)))) ml (s_uuid (k_st k))) k).
Proof.
  intros [[Hi [Hok _] Hsz] H2 H3 H4 H5 H6 H7 H8] Hp. split; try done. split; [|done|done].
  cbn in *. by rewrite Hp.
Qed.

(** ** Opening a pool *)

(** The pool of [k] with data area [x], as the next [pmemblk_open] finds it. *)
Definition on_media k (x : mem) (rep : replica) : Prop :=
  pm_mem (r_hdr rep) = pm_mem (k_hdr k) ∧ pm_mem (r_data rep) = x ∧
  r_repsize rep = k_size k ∧ r_nreplicas rep = 1.

Definition data_area k : blk_ns :=
  BlkNs (n_data (s_ns (k_st k))) (data_size k) (n_is_pmem (s_ns (k_st k))).

Definition nlanes (ncpus : Z) : Z := u32 (u32 (if ncpus <? 1 then 1 else ncpus) * 2).

Lemma runtime_init_run k bsize rdonly ncpus s1 :
  btt_init (ns_cb F (k_is_zeroed k)) (data_size k) (u32 bsize) (k_poolset_uuid k) (nlanes ncpus)
    (St (s_btt (k_st k)) (data_area k) (s_malloc (k_st k)) (s_uuid (k_st k))) = (Ok tt, s1) →
  s_malloc s1 = [] →
  blk_runtime_init F bsize rdonly ncpus k =
  (Ok tt, Pmemblk (k_hdr k) (k_size k) rdonly s1 (b_nlane (s_btt s1)) 0
            (replicate (Z.to_nat (b_nlane (s_btt s1))) false) (k_is_zeroed k)).
Proof.
  intros E Hml. unfold blk_runtime_init. do 3 erewrite bind_ok by reflexivity.
  cbv zeta. erewrite bind_ok by reflexivity. erewrite bind_ok.
  2: { unfold lift. cbn [k_set_cb_zeroed k_cb_zeroed k_st].
       match goal with |- (let '(_, _) := ?x in _) = _ => replace x with (Ok tt, s1) end.
       reflexivity. }
  erewrite bind_ok by reflexivity. erewrite bind_ok by reflexivity.
  erewrite bind_ok by reflexivity. erewrite bind_ok.
  2: { apply on_fail_ok. unfold lift, Malloc. simpl. rewrite Hml. reflexivity. }
  unfold modify. destruct s1. simpl in *. by subst.
Qed.

Lemma k_bsize_range k : 0 ≤ k_bsize k < 2 ^ 32.
Proof. apply rd32_range. Qed.

Lemma open_run k x rep k0 err ncpus (P : st blk_ns → Prop) :
  blk_ready None k → on_media k x rep → s_malloc (k_st k0) = [] →
  (∀ s0 maxlane, @reopened _ _ (blk_nsspec env Henv (k_cb_zeroed k) None) (k_st k) s0 x →
    0 ≤ maxlane → ∃ s1, reopen (ns_cb F (k_cb_zeroed k)) (k_st k) maxlane s0 = (Ok tt, s1) ∧
      @opened _ _ (blk_nsspec env Henv (k_cb_zeroed k) None) (k_st k) s1 ∧ P s1) →
  ∃ k1, pmemblk_open F (Some rep) err 0 ncpus k0 = (Ok tt, k1) ∧ blk_ready None k1 ∧
    k_rdonly k1 = r_rdonly rep ∧ P (k_st k1).
Proof.
  intros HR (Hh & Hd & Hs & Hn) Hml Hre. pose proof HR as [Hb H2 H3 H4 H5 H6 H7 H8].
  set (k2 := map_pool rep k0).
  assert (k_bsize k2 = k_bsize k ∧ k_poolset_uuid k2 = k_poolset_uuid k ∧
    k_is_zeroed k2 = k_is_zeroed k ∧ data_size k2 = data_size k) as (E1 & E2 & E3 & E4).
  { unfold k2, k_bsize, k_poolset_uuid, k_is_zeroed, data_size. simpl. by rewrite Hh, Hs. }
  set (s0 := St (s_btt (k_st k2)) (data_area k2) (s_malloc (k_st k2)) (s_uuid (k_st k2))).
  assert (0 ≤ nlanes ncpus) as Hmax by apply u32_range.
  assert (@reopened _ _ (blk_nsspec env Henv (k_cb_zeroed k) None) (k_st k) s0 x) as Hro.
  { split; [done| |done|by simpl; rewrite H7]. split; [|done]. cbn. rewrite E4, <- H7.
    apply (proj1 (br_ok _ _ Hb)). }
  destruct (Hre s0 (nlanes ncpus) Hro Hmax) as (s1 & E & (Hr1 & Hm1 & Hz1 & _ & Hl1 & Hw1 & Hu1) & HP).
  pose proof (runtime_init_run k2 (k_bsize k2) (r_rdonly rep) ncpus s1) as Hrun.
  rewrite E1, u32_id, E2, E4 in Hrun by apply k_bsize_range. unfold reopen in E.
  rewrite H4, H5, H6, H8, <- E3 in E. specialize (Hrun E Hm1).
  eexists. split.
  - unfold pmemblk_open, blk_open_common. erewrite bind_ok by reflexivity. fold k2.
    rewrite Hn. cbn [Z.ltb Z.compare Pos.compare Pos.compare_cont].
    erewrite bind_ok by (unfold blk_descr_check; by erewrite bind_ok by reflexivity).
    rewrite E1. exact Hrun.
  - split; [|by split]. rewrite H8, <- E3 in Hr1. split; try done; simpl.
    + exact (eq_trans (eq_trans Hl1 H4) (eq_sym E1)).
    + exact (eq_trans (eq_trans Hu1 H5) (eq_sym E2)).
    + exact (eq_trans (eq_trans Hw1 H6) (eq_sym E4)).
    + exact (eq_trans (eq_trans Hz1 H7) (eq_sym E4)).
Qed.

(** ** Power failures *)

Local Abbreviation data k := (n_data (s_ns (k_st k))).

Lemma persisted_tracked m0 p p' : persisted m0 p → tracked p p' → persisted m0 p'.
Proof.
  intros [Hr Hs] (es & He & Hd & Hm). unfold persisted. rewrite He, replay_app, Hr, Hm, replay_stores.
  split; [done|]. apply settled_app; [done|]. rewrite Hr. by apply (durable_writes_settled (stores es)).
Qed.

(** Failures between two states of a pool are failures of the write sequence. *)
Lemma persisted_crash m0 p p' j x : persisted m0 p → tracked p p' →
  (length (pm_evs p) ≤ j ≤ length (pm_evs p'))%nat → crash_at m0 (take j (pm_evs p')) x →
  ∃ ws, stores (pm_evs p') = stores (pm_evs p) ++ ws ∧ ws_crash (pm_mem p) ws x.
Proof.
  intros [Hr Hs] (es & He & Hd & Hm) Hj Hc. exists (stores es). rewrite He in *.
  split; [apply stores_app|]. rewrite <- Hr. eapply crash_ws; [exact Hd|]. by eapply crash_settled.
Qed.

(** A pool whose contents are persisted survives a failure unchanged. *)
Lemma blk_reopen_same k x rep k0 err ncpus :
  blk_ready None k → mem_eq x (pm_mem (data k)) → on_media k x rep → s_malloc (k_st k0) = [] →
  ∃ k1, pmemblk_open F (Some rep) err 0 ncpus k0 = (Ok tt, k1) ∧ blk_ready None k1 ∧
    k_rdonly k1 = r_rdonly rep ∧ ∀ b, 0 ≤ b → k_view k1 b = k_view k b.
Proof.
  intros HR Hx Hm Hml.
  apply (open_run k x rep k0 err ncpus (λ s1, ∀ b, 0 ≤ b →
    btt_view (s_btt s1) (pm_mem (n_data (s_ns s1))) b = k_view k b) HR Hm Hml).
  intros s0 maxlane Hro Hmax.
  destruct (reopen_same _ _ _ _ _ (kr_btt _ _ HR) Hro Hx Hmax) as (s1 & ? & ? & ?). eauto.
Qed.

Lemma blk_write_persisted m0 k buf blockno r k' :
  blk_ready None k → persisted m0 (data k) → len buf = k_bsize k → Forall is_byte buf →
  pmemblk_write F buf blockno k = (r, k') → persisted m0 (data k').
Proof.
  intros HR Hp Hbuf Hb Hrun. eapply persisted_tracked; [exact Hp|].
  destruct (blk_write_refines _ k buf blockno (ready_now k HR) Hbuf Hb) as (k2 & E & Hu & _).
  rewrite E in Hrun. injection Hrun as _ <-. exact (proj2 (br_ok _ _ (kr_btt _ _ Hu))).
Qed.

(** A write that reaches the BTT. *)
Lemma blk_write_inner k buf blockno r k' : blk_ready None k → k_rdonly k = false → 0 ≤ blockno →
  len buf = k_bsize k → Forall is_byte buf → pmemblk_write F buf blockno k = (r, k') →
  ∃ s', btt_write (ns_cb F (k_cb_zeroed k)) (k_next_lane k mod k_nlane k) blockno buf (k_st k) =
    (r, s') ∧ k' = after_lane k s'.
Proof.
  intros HR Hro Hb Hbuf Hby Hrun.
  destruct (@write_refines _ _ (blk_nsspec env Henv (k_cb_zeroed k) None) (k_st k)
    (k_next_lane k mod k_nlane k) blockno buf) as (s' & E & _);
    [apply HR|by eapply blk_lane_range|done|by rewrite Hbuf, (kr_bsize _ _ HR)|done|].
  exists s'. unfold pmemblk_write in Hrun. erewrite bind_ok in Hrun by reflexivity.
  rewrite Hro, (proj2 (Z.ltb_ge _ _)) in Hrun by done.
  erewrite (on_lane_run k (λ cb lane, btt_write cb lane blockno buf)) in Hrun;
    [|by eapply ready_lanes|exact E|apply update_result_def]. by injection Hrun as <- <-.
Qed.

Lemma blk_write_crash m0 k buf blockno r k' j x rep k0 err ncpus :
  blk_ready None k → persisted m0 (data k) → len buf = k_bsize k → Forall is_byte buf →
  pmemblk_write F buf blockno k = (r, k') →
  (length (pm_evs (data k)) ≤ j ≤ length (pm_evs (data k')))%nat →
  crash_at m0 (take j (pm_evs (data k'))) x →
  on_media k x rep → s_malloc (k_st k0) = [] →
  ∃ k1, pmemblk_open F (Some rep) err 0 ncpus k0 = (Ok tt, k1) ∧ blk_ready None k1 ∧
    k_rdonly k1 = r_rdonly rep ∧
    ((∀ b, 0 ≤ b → k_view k1 b = k_view k b) ∨
     (∀ b, 0 ≤ b → k_view k1 b = if decide (b = blockno) then Some (BData buf) else k_view k b)).
Proof.
  intros HR Hp Hbuf Hby Hrun Hj Hc Hm Hml.
  destruct (blk_write_refines _ k buf blockno (ready_now k HR) Hbuf Hby) as (k2 & E & Hu & _).
  rewrite E in Hrun. injection Hrun as <- <-.
  pose proof (proj2 (br_ok _ _ (kr_btt _ _ Hu))) as Htr. simpl in Htr.
  destruct (persisted_crash _ _ _ _ _ Hp Htr Hj Hc) as (ws & Hws & Hwc).
  destruct (decide (k_rdonly k = false ∧ 0 ≤ blockno)) as [[Hro Hb]|Hno].
  - destruct (blk_write_inner k buf blockno _ _ HR Hro Hb Hbuf Hby E) as (s' & Ew & ->).
    apply (open_run k x rep k0 err ncpus (λ s1,
      (∀ b, 0 ≤ b → btt_view (s_btt s1) (pm_mem (n_data (s_ns s1))) b = k_view k b) ∨
      (∀ b, 0 ≤ b → btt_view (s_btt s1) (pm_mem (n_data (s_ns s1))) b =
         if decide (b = blockno) then Some (BData buf) else k_view k b)) HR Hm Hml).
    intros s0 maxlane Hre Hmax.
    destruct (@write_crash_atomic _ _ (blk_nsspec env Henv (k_cb_zeroed k) None) (k_st k)
      (k_next_lane k mod k_nlane k) blockno buf (blk_result k blockno) s') as (ws' & Hws' & Hat);
      [apply HR|by eapply blk_lane_range|done|by rewrite Hbuf, (kr_bsize _ _ HR)|done|exact Ew|].
    assert (ws' = ws) as -> by (apply (app_inv_head (stores (pm_evs (data k)))); by rewrite <- Hws).
    by apply (Hat x).
  - assert (k2 = k) as ->.
    { unfold pmemblk_write in E. erewrite bind_ok in E by reflexivity.
      destruct (k_rdonly k); [by injection E as _ <-|].
      destruct (Z.ltb_spec blockno 0); [by injection E as _ <-|]. exfalso. naive_solver. }
    assert (ws = []) as -> by (by apply (app_inv_head (stores (pm_evs (data k)))); rewrite <- Hws, app_nil_r).
    apply ws_crash_nil in Hwc.
    destruct (blk_reopen_same k x rep k0 err ncpus HR Hwc Hm Hml) as (k1 & ? & ? & ? & ?).
    exists k1. auto.
Qed.
End pool.
