(* ===== verification/BlkCreate.v ===== *)
(** * libpmemblk: creating a pool and writing to it for the first time

    [pmemblk_create] writes the descriptor and opens the BTT without laying it
    out; reads return zeros until the first write lays out the arenas.  At the end, a concrete pool. *)

From stdpp Require Import base gmap list numbers.
From S2P Require Import Prelude Memory Pmem Util BttLayout Btt BttSpec BttRun BttRefine BttCrash BttFresh Blk BlkSpec.
Local Open Scope Z_scope.

Section unlaid.
Context {NS : Type} (cb : ns_callback NS).
Implicit Types s : st NS.

(** The first write continues as a write to the namespace just laid out. *)
Lemma btt_write_first s1 s2 lane lba buf :
  first_write cb lane s1 = (Ok tt, s2) → b_laidout (s_btt s2) = true →
  b_nlba (s_btt s2) = b_nlba (s_btt s1) → lba < b_nlba (s_btt s1) →
  btt_write cb lane lba buf s1 = btt_write cb lane lba buf s2.
Proof.
  intros Hf Hl Hn Hlt. unfold btt_write.
  erewrite (bind_ok _ _ s1) by (rewrite invalid_lba_run; by rewrite (proj2 (Z.leb_gt _ _))).
  erewrite (bind_ok _ _ s2) by (rewrite invalid_lba_run, Hn; by rewrite (proj2 (Z.leb_gt _ _))).
  erewrite (bind_ok _ _ s1) by exact Hf.
  symmetry. by erewrite (bind_ok _ _ s2) by (by apply first_write_laidout).
Qed.

Lemma btt_read_unlaid s lane lba : b_laidout (s_btt s) = false →
  btt_read cb lane lba s =
  (if b_nlba (s_btt s) <=? lba then Fail EINVAL else Ok (zeros (b_lbasize (s_btt s))), s).
Proof.
  intros Hl. unfold btt_read. destruct (b_nlba (s_btt s) <=? lba) eqn:E.
  - erewrite bind_fail; [done|]. by rewrite invalid_lba_run, E.
  - erewrite bind_ok by (by rewrite invalid_lba_run, E). unfold get_btt.
    erewrite bind_ok by reflexivity. cbn [compose]. by rewrite Hl.
Qed.
End unlaid.

Section create.
Context (env : pmem_env) (Henv : flushing_env env).
Local Abbreviation F := (pmem_init_funcs env).
Local Abbreviation spec z := (blk_nsspec env Henv z None).
Implicit Types (k : pmemblk).

Lemma runtime_init_inv k bsize rdonly ncpus k1 :
  blk_runtime_init F bsize rdonly ncpus k = (Ok tt, k1) →
  ∃ s1, btt_init (ns_cb F (k_is_zeroed k)) (data_size k) (u32 bsize) (k_poolset_uuid k)
    (nlanes ncpus) (St (s_btt (k_st k)) (data_area k) (s_malloc (k_st k)) (s_uuid (k_st k))) =
    (Ok tt, s1).
Proof.
  unfold blk_runtime_init. do 3 erewrite bind_ok by reflexivity. cbv zeta.
  erewrite bind_ok by reflexivity. intros ([] & ? & H & _)%bind_inv_ok. unfold lift in H.
  cbn [k_set_cb_zeroed k_cb_zeroed k_st] in H.
  match type of H with (let '(_, _) := ?x in _) = _ => destruct x as [r s1] eqn:E end.
  injection H as -> _. by exists s1.
Qed.

(** The pool after [blk_descr_create]. *)
Definition described (bsize : Z) (rep : replica) k : pmemblk :=
  (blk_descr_create F (u32 bsize) (r_zeroed rep) (map_pool rep k)).2.

(** The descriptor holds what [blk_descr_check] and the accessors look for. *)
Lemma described_fields bsize rep k : 0 < bsize < 2 ^ 32 →
  let k2 := described bsize rep k in
  k_bsize k2 = bsize ∧ k_is_zeroed k2 = r_zeroed rep ∧
  k_poolset_uuid k2 = rdn (pm_mem (r_hdr rep)) off_poolset_uuid 16 ∧
  k_size k2 = r_repsize rep ∧ k_st k2 = k_st (map_pool rep k).
Proof.
  intros Hb k2.
  assert (pm_mem (k_hdr k2) = wr (wr (pm_mem (r_hdr rep)) off_bsize (le_bytes 4 (u32 bsize)))
    off_is_zeroed (le_bytes 4 (if r_zeroed rep then 1 else 0))) as Hm.
  { unfold k2, described, blk_descr_create, hdr_write. simpl.
    unfold util_persist, k_is_pmem. simpl. by destruct (r_is_pmem rep). }
  unfold k_bsize, k_is_zeroed, k_poolset_uuid. rewrite Hm.
  unfold off_bsize, off_is_zeroed, off_poolset_uuid. split_and!; try done.
  - rewrite rd32_wr_out by (rewrite length_le_bytes; lia).
    fold (wr32 (pm_mem (r_hdr rep)) 4096 (u32 bsize)). rewrite rd32_wr32, !u32_id; [done|lia|].
    rewrite u32_id; lia.
  - fold (wr32 (wr (pm_mem (r_hdr rep)) 4096 (le_bytes 4 (u32 bsize))) 4100 (if r_zeroed rep then 1 else 0)).
    rewrite rd32_wr32. by destruct (r_zeroed rep).
  - rewrite !rdn_wr_out; [done|..]; rewrite length_le_bytes; lia.
Qed.

(** A new pool set: its data area has no BTT layout, and it reads as zeros or is small
    enough for a single arena, whose map [write_layout] clears. *)
Record new_pool (rep : replica) (bsize : Z) k : Prop := NewPool {
  np_bsize : 0 < bsize < 2 ^ 32;
  np_malloc : s_malloc (k_st k) = [];
  np_uuid : ∃ u, s_uuid (k_st k) = Some u ∧ length u = 16%nat ∧ Forall is_byte u;
  np_size : 8192 ≤ r_repsize rep < 2 ^ 64;
  np_align : r_repsize rep mod 64 = 0;
  np_clear : cleared (ns_cb F (r_zeroed rep)) (pm_mem (r_data rep)) 0 (r_repsize rep - 8192);
  np_none : read_info (rdn (pm_mem (r_hdr rep)) off_poolset_uuid 16)
              (rdn (pm_mem (r_data rep)) 0 4096) = None
}.

Definition created (bsize : Z) (rep : replica) k (s1 : st blk_ns) : pmemblk :=
  Pmemblk (k_hdr (described bsize rep k)) (r_repsize rep) false s1 (b_nlane (s_btt s1)) 0
    (replicate (Z.to_nat (b_nlane (s_btt s1))) false) (r_zeroed rep).

Lemma create_inv rep err bsize ncpus k k1 : new_pool rep bsize k →
  pmemblk_create F (Some rep) err bsize ncpus k = (Ok tt, k1) →
  ∃ s1, btt_init (ns_cb F (r_zeroed rep)) (r_repsize rep - 8192) bsize
      (rdn (pm_mem (r_hdr rep)) off_poolset_uuid 16) (nlanes ncpus)
      (St zero_btt (BlkNs (r_data rep) (r_repsize rep - 8192) (r_is_pmem rep)) [] (s_uuid (k_st k)))
      = (Ok tt, s1) ∧ (s_malloc s1 = [] → k1 = created bsize rep k s1).
Proof.
  intros [Hb Hml _ Hsz _ _ _] H. unfold pmemblk_create in H.
  rewrite (proj2 (Z.eqb_neq _ _)), (proj2 (Z.ltb_ge _ _)) in H by (unfold UINT32_MAX; lia).
  erewrite bind_ok in H by reflexivity.
  erewrite bind_ok in H by (unfold blk_descr_create; by erewrite bind_ok by reflexivity).
  apply bind_inv_ok in H as ([] & k3 & Hrun & Hch).
  destruct (r_chmod_ok rep); [|done]. injection Hch as ->.
  destruct (described_fields bsize rep k Hb) as (E1 & E2 & E3 & E4 & E5).
  change (blk_runtime_init F bsize false ncpus (described bsize rep k) = (Ok tt, k1)) in Hrun.
  destruct (runtime_init_inv _ _ _ _ _ Hrun) as [s1 Hinit]. exists s1.
  pose proof (runtime_init_run env _ _ false _ _ Hinit) as Hrun'.
  assert (data_size (described bsize rep k) = r_repsize rep - 8192) as Hds.
  { unfold data_size. rewrite E4. change (roundup sizeof_pmemblk BLK_FORMAT_DATA_ALIGN) with 8192.
    apply u64_id. lia. }
  split.
  - unfold data_area in Hinit. rewrite E2, E3, Hds, E5, u32_id in Hinit by lia.
    by rewrite <- Hml.
  - intros Hm1. rewrite (Hrun' Hm1) in Hrun. injection Hrun as <-. unfold created. by rewrite E2.
Qed.

(** The pool after creation, and the namespace its first write lays out. *)
Lemma create_run rep err bsize ncpus k k1 : new_pool rep bsize k →
  pmemblk_create F (Some rep) err bsize ncpus k = (Ok tt, k1) →
  ∃ s1 s2, k1 = created bsize rep k s1 ∧ 0 < b_nlane (s_btt s1) ∧
    b_laidout (s_btt s1) = false ∧ b_lbasize (s_btt s1) = bsize ∧
    b_rawsize (s_btt s1) = r_repsize rep - 8192 ∧
    b_parent_uuid (s_btt s1) = rdn (pm_mem (r_hdr rep)) off_poolset_uuid 16 ∧
    first_write (ns_cb F (r_zeroed rep)) 0 s1 = (Ok tt, s2) ∧
    @btt_ready _ _ (spec (r_zeroed rep)) s2 ∧ b_shape (s_btt s2) = b_shape (s_btt s1) ∧
    n_datasize (s_ns s2) = r_repsize rep - 8192 ∧
    ∀ lba, 0 ≤ lba < b_nlba (s_btt s1) →
      btt_view (s_btt s2) (pm_mem (n_data (s_ns s2))) lba = Some BZero ∧
      update_result (s_btt s2) lba = Ok tt.
Proof.
  intros Hnp H. destruct (create_inv _ _ _ _ _ _ Hnp H) as (s1 & Hinit & Hk1).
  destruct Hnp as [Hb Hml (u & Hu & Hul & Hub) Hsz Hal Hcl Hnone].
  assert (0 ≤ nlanes ncpus) as Hmax by apply u32_range.
  assert (@ns_ok _ _ (spec (r_zeroed rep))
    (BlkNs (r_data rep) (r_repsize rep - 8192) (r_is_pmem rep))) as Hok by (split; simpl; [lia|done]).
  set (s0 := St zero_btt _ _ _) in Hinit.
  destruct (@btt_init_empty _ _ (spec (r_zeroed rep)) s0 _ _ _ _ _ eq_refl Hok (Z.le_refl _) Hb Hnone Hmax Hinit)
    as (_ & _ & infos & _ & Hs1).
  assert (0 < b_nlane (s_btt s1)) as Hnl.
  { rewrite Hs1. cbn. destruct (_ && _) eqn:E; [|done].
    apply andb_true_iff in E as [E1%negb_true_iff%Z.eqb_neq _]. lia. }
  assert ((r_repsize rep - 8192) mod 64 = 0) as Hal' by (by rewrite Zminus_mod, Hal).
  destruct (@fresh_namespace _ _ (spec (r_zeroed rep)) (blk_nszerospec env Henv (r_zeroed rep))
    s0 _ _ _ _ u s1 0 eq_refl Hu Hul Hub (length_rdn _ _ _) (rdn_bytes _ _ _) Hok (Z.le_refl _)
    Hal' Hb Hcl Hnone Hmax Hinit (conj (Z.le_refl 0) Hnl))
    as (_ & Hlaid & Hlba & s2 & Hfw & HR2 & Hsh & Hsz2 & Hview).
  exists s1, s2. split_and!; try done; [apply Hk1|..]; by rewrite Hs1.
Qed.

Lemma created_lanes bsize rep k s1 : 0 < b_nlane (s_btt s1) → lanes_free (created bsize rep k s1).
Proof. by split. Qed.

(** Until the first write every block reads as zeros. *)
Lemma blk_create_read rep err bsize ncpus k k1 blockno : new_pool rep bsize k →
  pmemblk_create F (Some rep) err bsize ncpus k = (Ok tt, k1) → 0 ≤ blockno →
  pmemblk_read F blockno k1 =
  (if b_nlba (s_btt (k_st k1)) <=? blockno then Fail EINVAL else Ok (zeros bsize),
   after_lane k1 (k_st k1)).
Proof.
  intros Hnp H Hb.
  destruct (create_run _ _ _ _ _ _ Hnp H) as (s1 & s2 & -> & Hnl & Hlaid & Hlba & _).
  unfold pmemblk_read. rewrite (proj2 (Z.ltb_ge _ _)) by done.
  apply (on_lane_run env _ (λ cb lane, btt_read cb lane blockno)); [by apply created_lanes| |by case_match].
  simpl. rewrite btt_read_unlaid by done. by rewrite Hlba.
Qed.

Lemma blk_create_write rep err bsize ncpus k k1 buf blockno : new_pool rep bsize k →
  pmemblk_create F (Some rep) err bsize ncpus k = (Ok tt, k1) →
  len buf = bsize → Forall is_byte buf → 0 ≤ blockno < b_nlba (s_btt (k_st k1)) →
  ∃ k2, pmemblk_write F buf blockno k1 = (Ok tt, k2) ∧ blk_ready env Henv None k2 ∧
    k_bsize k2 = bsize ∧
    ∀ b, 0 ≤ b < b_nlba (s_btt (k_st k1)) → blk_result k2 b = Ok tt ∧
      k_view k2 b = Some (if decide (b = blockno) then BData buf else BZero).
Proof.
  intros Hnp H Hbuf Hby Hb. pose proof (np_bsize _ _ _ Hnp) as Hbs. pose proof (np_size _ _ _ Hnp) as Hrs.
  destruct (create_run _ _ _ _ _ _ Hnp H)
    as (s1 & s2 & -> & Hnl & Hlaid & Hlba & Hraw & Hpu & Hfw & HR2 & Hsh & Hsz2 & Hview).
  pose proof Hsh as Hsh'. unfold b_shape in Hsh'. injection Hsh' as Hn2 Hb2 Hl2 Hr2 Hu2.
  cbn [created k_st] in Hb |- *. set (z := r_zeroed rep) in *.
  destruct (@write_refines _ _ (spec z) s2 0 blockno buf HR2) as (s3 & Ew & HR3 & Hsh3 & Hsz3 & Hur3 & Hv3);
    [rewrite Hn2; lia|lia|by rewrite Hl2, Hlba|done|].
  pose proof (Hview blockno Hb) as [_ Hres]. rewrite Hres in Ew, Hv3.
  exists (after_lane (created bsize rep k s1) s3).
  destruct (described_fields bsize rep k Hbs) as (E1 & E2 & E3 & E4 & E5). split_and!; try done.
  - unfold pmemblk_write. erewrite bind_ok by reflexivity. cbn [created k_rdonly].
    rewrite (proj2 (Z.ltb_ge _ _)) by lia.
    apply (on_lane_run env _ (λ cb lane, btt_write cb lane blockno buf)); [by apply created_lanes| |done].
    cbn [created k_cb_zeroed k_next_lane k_nlane k_st]. rewrite Zmod_0_l.
    rewrite (btt_write_first _ s1 s2); [exact Ew|exact Hfw|apply (br_inv _ _ HR2)|done|lia].
  - assert (data_size (after_lane (created bsize rep k s1) s3) = r_repsize rep - 8192) as Hds.
    { unfold data_size. simpl. apply u64_id. lia. }
    rewrite Hsh in Hsh3. unfold b_shape in Hsh3. injection Hsh3 as F1 F2 F3 F4 F5.
    split.
    + exact HR3.
    + exact (eq_sym F1).
    + done.
    + exact (eq_trans (eq_trans F3 Hlba) (eq_sym E1)).
    + exact (eq_trans (eq_trans F5 Hpu) (eq_sym E3)).
    + exact (eq_trans (eq_trans F4 Hraw) (eq_sym Hds)).
    + exact (eq_trans (eq_trans Hsz3 Hsz2) (eq_sym Hds)).
    + exact (eq_sym E2).
  - intros b Hbb. destruct (Hview b Hbb) as [Hvb Hub]. split.
    + unfold blk_result. cbn [after_lane k_set_st k_rdonly created k_st k_set_next_lane].
      by rewrite (proj2 (Z.ltb_ge _ _)), Hur3 by lia.
    + unfold k_view. cbn [after_lane k_set_st k_st]. rewrite Hv3 by lia. by case_decide.
Qed.
End create.

(** * A concrete pool

    A 16 MiB pool of 512-byte blocks on persistent memory, created and written to
    once: the instance on which the theorems on libpmemblk and its BTT are exercised. *)

Definition ex_rep : replica :=
  Replica (Pmem ∅ []) (Pmem ∅ []) (BTT_MIN_SIZE + 8192) true 1 true false true.

Definition ex_buf : list Z := replicate 512 7.

(** The state of a process that has no pool open. *)
Definition ex_idle : pmemblk :=
  Pmemblk (Pmem ∅ []) 0 false
    (St zero_btt (BlkNs (Pmem ∅ []) 0 true) [] (Some (replicate 16 5))) 0 0 [] false.

Lemma ex_env : flushing_env default_env.
Proof. repeat split; discriminate. Qed.

Local Abbreviation F := (pmem_init_funcs default_env).

Lemma ex_new_pool : new_pool default_env ex_rep 512 ex_idle.
Proof.
  split; [done|done| |done|done| |vm_compute; reflexivity].
  - exists (replicate 16 5). split_and!; [done..|]. repeat constructor; unfold is_byte; lia.
  - left. split; [done|]. intros p _. reflexivity.
Qed.

Lemma ex_created : ∃ k1, pmemblk_create F (Some ex_rep) 0 512 4 ex_idle = (Ok tt, k1) ∧
  b_nlba (s_btt (k_st k1)) = 32202.
Proof. eexists. split; vm_compute; reflexivity. Qed.

Lemma ex_buf_bytes : Forall is_byte ex_buf.
Proof. apply Forall_replicate. unfold is_byte. lia. Qed.

Definition no_events (k : pmemblk) : pmemblk :=
  k_set_st (St (s_btt (k_st k)) (BlkNs (Pmem (pm_mem (n_data (s_ns (k_st k)))) [])
    (n_datasize (s_ns (k_st k))) (n_is_pmem (s_ns (k_st k)))) [] (s_uuid (k_st k))) k.

(** An open pool in which block 3 holds data. *)
Lemma ex_ready : ∃ k, blk_ready default_env ex_env None k ∧ k_bsize k = 512 ∧
  s_malloc (k_st k) = [] ∧ pm_evs (n_data (s_ns (k_st k))) = [] ∧
  (∀ b, 0 ≤ b < 100 → blk_result k b = Ok tt) ∧
  k_view k 3 = Some (BData ex_buf) ∧ k_view k 4 = Some BZero.
Proof.
  destruct ex_created as (k1 & E & Hn).
  destruct (blk_create_write default_env ex_env _ _ _ _ _ _ ex_buf 3 ex_new_pool E)
    as (k2 & _ & HR & Hb & Hv); [done|apply ex_buf_bytes|lia|].
  pose proof (proj2 (Hv 3 ltac:(lia))) as H3. pose proof (proj2 (Hv 4 ltac:(lia))) as H4.
  exists (no_events k2).
  split; [|split; [exact Hb|split; [reflexivity|split; [reflexivity|split; [|split]]]]].
  - by apply ready_rebase.
  - intros b Hbb. apply (Hv b). lia.
  - exact H3.
  - exact H4.
Qed.

Lemma ex_update_result k b : blk_result k b = Ok tt → update_result (s_btt (k_st k)) b = Ok tt.
Proof. unfold blk_result. by repeat case_match. Qed.

Lemma ex_lane k : blk_ready default_env ex_env None k → 0 ≤ 0 < b_nlane (s_btt (k_st k)).
Proof. intros HR. pose proof (bv_nlane _ _ (br_inv _ _ (kr_btt _ _ _ _ HR))). lia. Qed.

Lemma ex_persisted k : pm_evs (n_data (s_ns (k_st k))) = [] →
  persisted (pm_mem (n_data (s_ns (k_st k)))) (n_data (s_ns (k_st k))).
Proof. intros E. unfold persisted. rewrite E. split; [done|apply settled_nil]. Qed.

(** The pool set of [k] whose data area holds [x]. *)
Definition ex_media (k : pmemblk) (x : mem) : replica :=
  Replica (k_hdr k) (Pmem x []) (k_size k) true 1 true false true.

Lemma ex_on_media k x : on_media k x (ex_media k x).
Proof. by repeat split. Qed.
