(* ===== verification/BlkTheorems.v ===== *)
(** * What libpmemblk guarantees

    The theorems on the BTT hold for every namespace that fulfils its contract;
    the theorems on the pool are about [blk.c] on top of the BTT and of
    libpmem.  Each is exercised on the pool of [BlkCreate]. *)

From stdpp Require Import base gmap list numbers.
From S2P Require Import Prelude Memory Pmem Util BttLayout Btt BttSpec BttRun BttRefine BttCrash BttFresh BttCheck Blk BlkSpec BlkCreate.
Local Open Scope Z_scope.

(** ** The block translation table *)

Section btt.
Context {NS : Type} (cb : ns_callback NS) `{!NsSpec cb}.
Implicit Types s : st NS.

(** on every external LBA [btt_read] returns what the block view holds
    there: the data, a block of zeros, or [EIO] for a block in error; beyond the last LBA it
    fails with [EINVAL].  The read tracking table is left as it was. *)
Theorem btt_read_view s lane lba :
  btt_ready cb s → 0 ≤ lane < b_nlane (s_btt s) → 0 ≤ lba →
  btt_read cb lane lba s =
    (match btt_view (s_btt s) (ns_mem (s_ns s)) lba with
     | None => Fail EINVAL
     | Some BError => Fail EIO
     | Some BZero => Ok (zeros (b_lbasize (s_btt s)))
     | Some (BData d) => Ok d
     end, s).
Proof. apply read_view. Qed.

(** a block write replaces the block at its LBA and no other, whatever the
    previous state of the block; it fails with [EIO] and changes nothing when
    the block's arena is marked in error, and with [EINVAL] beyond the last LBA.  The
    invariant holds again afterwards. *)
Theorem btt_write_refines s lane lba buf :
  btt_ready cb s → 0 ≤ lane < b_nlane (s_btt s) → 0 ≤ lba →
  len buf = b_lbasize (s_btt s) → Forall is_byte buf →
  ∃ s', btt_write cb lane lba buf s = (update_result (s_btt s) lba, s') ∧
    updates cb s lba (BData buf) s'.
Proof. apply write_refines. Qed.

(** [btt_set_zero] and [btt_set_error] make the block at their LBA read as zeros or
    fail with an I/O error, and no other block changes; the invariant holds
    again and the map lock is free. *)
Theorem btt_set_refines s lane lba : btt_ready cb s → 0 ≤ lba →
  (∃ s', btt_set_zero cb lane lba s = (update_result (s_btt s) lba, s') ∧ updates cb s lba BZero s') ∧
  (∃ s', btt_set_error cb lane lba s = (update_result (s_btt s) lba, s') ∧ updates cb s lba BError s').
Proof. apply set_refines. Qed.

(** the atomicity of a block write.  Whatever state a power failure
    leaves during [btt_write] (any prefix of its writes complete and the next
    one torn at 8-byte words), [btt_init] succeeds on it, re-establishes the
    invariant, and the array of blocks is either the old one or the old one with
    the new block in place. *)
Theorem btt_write_crash_atomic s lane lba buf r s' :
  btt_ready cb s → 0 ≤ lane < b_nlane (s_btt s) → 0 ≤ lba →
  len buf = b_lbasize (s_btt s) → Forall is_byte buf →
  btt_write cb lane lba buf s = (r, s') →
  ∃ ws, ns_trace (s_ns s') = ns_trace (s_ns s) ++ ws ∧
    ∀ x s0 maxlane, ws_crash (ns_mem (s_ns s)) ws x → reopened cb s s0 x → 0 ≤ maxlane →
    ∃ s1, reopen cb s maxlane s0 = (Ok tt, s1) ∧ opened cb s s1 ∧
      ((∀ lba', 0 ≤ lba' → btt_view (s_btt s1) (ns_mem (s_ns s1)) lba' =
          btt_view (s_btt s) (ns_mem (s_ns s)) lba') ∨
       (∀ lba', 0 ≤ lba' → btt_view (s_btt s1) (ns_mem (s_ns s1)) lba' =
          if decide (lba' = lba) then Some (BData buf)
          else btt_view (s_btt s) (ns_mem (s_ns s)) lba')).
Proof. apply write_crash_atomic. Qed.

(** a namespace without a layout.  Opening it does not write; the first
    write lays out all arenas, after which the invariant holds, no arena is in error, the
    parameters are those announced by [btt_init] and every block reads as zeros. *)
Theorem btt_fresh_namespace `{!NsZeroSpec cb} s rawsize lbasize puuid maxlane u s1 lane :
  s_malloc s = [] → s_uuid s = Some u → length u = 16%nat → Forall is_byte u →
  length puuid = 16%nat → Forall is_byte puuid →
  ns_ok (s_ns s) → rawsize ≤ ns_size (s_ns s) → rawsize mod 64 = 0 → 0 < lbasize < 2 ^ 32 →
  cleared cb (ns_mem (s_ns s)) 0 rawsize →
  read_info puuid (rdn (ns_mem (s_ns s)) 0 4096) = None → 0 ≤ maxlane →
  btt_init cb rawsize lbasize puuid maxlane s = (Ok tt, s1) →
  0 ≤ lane < b_nlane (s_btt s1) →
  s_ns s1 = s_ns s ∧ b_laidout (s_btt s1) = false ∧ b_lbasize (s_btt s1) = lbasize ∧
  ∃ s2, first_write cb lane s1 = (Ok tt, s2) ∧ btt_ready cb s2 ∧
    b_shape (s_btt s2) = b_shape (s_btt s1) ∧ ns_size (s_ns s2) = ns_size (s_ns s) ∧
    ∀ lba, 0 ≤ lba < b_nlba (s_btt s1) →
      btt_view (s_btt s2) (ns_mem (s_ns s2)) lba = Some BZero ∧
      update_result (s_btt s2) lba = Ok tt.
Proof. apply fresh_namespace; exact _. Qed.
End btt.

(** ** The pool *)

Section pool.
Context (env : pmem_env) (Henv : flushing_env env).
Local Abbreviation F := (pmem_init_funcs env).
Local Abbreviation data k := (n_data (s_ns (k_st k))).
Implicit Types (k : pmemblk).

(** C4: [pmemblk_write] implements an update of the array of blocks.  It fails with
    [EROFS] on a read-only pool, [EINVAL] for a block number that is negative or too
    large and [EIO] in a failed arena, without effect; otherwise it replaces
    that block only.  The lane taken is released on every path.  The pool is laid out; for the first write, which lays it out, see [pmemblk_create_fresh]. *)
Theorem pmemblk_write_refines k buf blockno :
  blk_ready env Henv None k → len buf = k_bsize k → Forall is_byte buf →
  ∃ k', pmemblk_write F buf blockno k = (blk_result k blockno, k') ∧
    blk_updates env Henv None k blockno (BData buf) k'.
Proof. apply blk_write_refines. Qed.

(** [pmemblk_set_zero] and [pmemblk_set_error] update the array of blocks with a zero
    block and an unreadable block, under the same guards. *)
Theorem pmemblk_set_refines k blockno : blk_ready env Henv None k →
  (∃ k', pmemblk_set_zero F blockno k = (blk_result k blockno, k') ∧
     blk_updates env Henv None k blockno BZero k') ∧
  (∃ k', pmemblk_set_error F blockno k = (blk_result k blockno, k') ∧
     blk_updates env Henv None k blockno BError k').
Proof. apply blk_set_refines. Qed.

(** [pmemblk_read] reads the array of blocks and changes nothing but the lane counter. *)
Theorem pmemblk_read_view k blockno : blk_ready env Henv None k →
  pmemblk_read F blockno k =
  if blockno <? 0 then (Fail EINVAL, k)
  else (read_result (k_bsize k) (k_view k blockno), after_lane k (k_st k)).
Proof. apply blk_read_view. Qed.

(** C1: the contract of libpmemblk.  Let a power failure strike at any point
    during [pmemblk_write], between any two of the stores, flushes and fences it issues, with any
    subset of the 8-byte words not yet written back lost.  Then [pmemblk_open]
    succeeds and the array of blocks is the one before the call, or the one with the
    new block; every other block is intact.  The pool is laid out before the call; a failure during the first write, which lays it out, is not covered. *)
Theorem pmemblk_write_crash_atomic m0 k buf blockno r k' j x rep k0 err ncpus :
  blk_ready env Henv None k → persisted m0 (data k) → len buf = k_bsize k → Forall is_byte buf →
  pmemblk_write F buf blockno k = (r, k') →
  (length (pm_evs (data k)) ≤ j ≤ length (pm_evs (data k')))%nat →
  crash_at m0 (take j (pm_evs (data k'))) x →
  on_media k x rep → s_malloc (k_st k0) = [] →
  ∃ k1, pmemblk_open F (Some rep) err 0 ncpus k0 = (Ok tt, k1) ∧ blk_ready env Henv None k1 ∧
    k_rdonly k1 = r_rdonly rep ∧
    ((∀ b, 0 ≤ b → k_view k1 b = k_view k b) ∨
     (∀ b, 0 ≤ b → k_view k1 b = if decide (b = blockno) then Some (BData buf) else k_view k b)).
Proof. apply blk_write_crash. Qed.

(** C16: durability.  When [pmemblk_write] has returned, a power failure loses nothing:
    the pool opens with exactly the blocks it had on return.  The pool is laid out before the call. *)
Theorem pmemblk_write_durable m0 k buf blockno r k' x rep k0 err ncpus :
  blk_ready env Henv None k → persisted m0 (data k) → len buf = k_bsize k → Forall is_byte buf →
  pmemblk_write F buf blockno k = (r, k') → crash_at m0 (pm_evs (data k')) x →
  on_media k' x rep → s_malloc (k_st k0) = [] →
  persisted m0 (data k') ∧
  ∃ k1, pmemblk_open F (Some rep) err 0 ncpus k0 = (Ok tt, k1) ∧ blk_ready env Henv None k1 ∧
    ∀ b, 0 ≤ b → k_view k1 b = k_view k' b.
Proof.
  intros HR Hp Hbuf Hby Hrun Hc Hm Hml.
  pose proof (blk_write_persisted _ _ _ _ _ _ _ _ HR Hp Hbuf Hby Hrun) as Hp'. split; [done|].
  destruct (blk_write_refines env Henv None k buf blockno HR Hbuf Hby) as (k2 & E & Hu & _).
  rewrite E in Hrun. injection Hrun as <- <-. destruct Hp' as [Hr Hs].
  destruct (blk_reopen_same env Henv k2 x rep k0 err ncpus Hu) as (k1 & ? & ? & _ & ?); try done.
  - rewrite <- Hr. by apply Hs.
  - eauto.
Qed.

(** C40: the first write.  A pool just created by [pmemblk_create] has the block size asked for and every block reads as zeros; its first write, at any block, lays it
    out (write_layout of btt.c) and leaves a pool that meets the invariant of the other theorems, in which that block holds the data, all others read as zeros and all can be written.  The data of the replica has no BTT layout and
    is all zeros, or is not taken to be zeroed and fits in one arena; its size is a multiple of 64; the volatile allocations succeed. *)
Theorem pmemblk_create_fresh rep err bsize ncpus k k1 buf blockno : new_pool env rep bsize k →
  pmemblk_create F (Some rep) err bsize ncpus k = (Ok tt, k1) →
  len buf = bsize → Forall is_byte buf → 0 ≤ blockno < b_nlba (s_btt (k_st k1)) →
  pmemblk_read F blockno k1 = (Ok (zeros bsize), after_lane k1 (k_st k1)) ∧
  ∃ k2, pmemblk_write F buf blockno k1 = (Ok tt, k2) ∧ blk_ready env Henv None k2 ∧
    k_bsize k2 = bsize ∧
    ∀ b, 0 ≤ b < b_nlba (s_btt (k_st k1)) → blk_result k2 b = Ok tt ∧
      k_view k2 b = Some (if decide (b = blockno) then BData buf else BZero).
Proof.
  intros Hnp Hc Hbuf Hby Hb. split; [|by eapply blk_create_write].
  erewrite (blk_create_read env Henv) by (done || lia). by rewrite (proj2 (Z.leb_gt _ _)) by lia.
Qed.
End pool.

(** ** The theorems at work *)

Local Abbreviation F := (pmem_init_funcs default_env).
Local Abbreviation spec k := (blk_nsspec default_env ex_env (k_cb_zeroed k) None).

Lemma btt_read_view_witness : ∃ k,
  btt_read (ns_cb F (k_cb_zeroed k)) 0 3 (k_st k) = (Ok ex_buf, k_st k).
Proof.
  destruct ex_ready as (k & HR & Hb & Hml & Hev & Hres & H3 & H4). exists k.
  rewrite (@btt_read_view _ _ (spec k) (k_st k) 0 3 (kr_btt _ _ _ _ HR) (ex_lane k HR) ltac:(lia)).
  unfold k_view in H3. simpl. by rewrite H3.
Defined.

Lemma btt_write_refines_witness : ∃ k s',
  btt_write (ns_cb F (k_cb_zeroed k)) 0 4 ex_buf (k_st k) = (Ok tt, s') ∧
  btt_view (s_btt s') (pm_mem (n_data (s_ns s'))) 4 = Some (BData ex_buf) ∧
  btt_view (s_btt s') (pm_mem (n_data (s_ns s'))) 3 = Some (BData ex_buf).
Proof.
  destruct ex_ready as (k & HR & Hb & Hml & Hev & Hres & H3 & H4). exists k.
  pose proof (ex_update_result k 4 (Hres 4 ltac:(lia))) as Hu.
  destruct (@btt_write_refines _ _ (spec k) (k_st k) 0 4 ex_buf (kr_btt _ _ _ _ HR) (ex_lane k HR)
    ltac:(lia) (eq_trans (eq_sym Hb) (eq_sym (kr_bsize _ _ _ _ HR))) ex_buf_bytes)
    as (s' & E & _ & _ & _ & _ & Hv).
  exists s'. rewrite Hu in E, Hv. split; [exact E|].
  pose proof (Hv 4 ltac:(lia)) as V4. pose proof (Hv 3 ltac:(lia)) as V3. simpl in V3, V4.
  split; [exact V4|]. rewrite V3. exact H3.
Defined.

Lemma btt_set_refines_witness : ∃ k s',
  btt_set_zero (ns_cb F (k_cb_zeroed k)) 0 3 (k_st k) = (Ok tt, s') ∧
  btt_view (s_btt s') (pm_mem (n_data (s_ns s'))) 3 = Some BZero.
Proof.
  destruct ex_ready as (k & HR & Hb & Hml & Hev & Hres & H3 & H4). exists k.
  pose proof (ex_update_result k 3 (Hres 3 ltac:(lia))) as Hu.
  destruct (@btt_set_refines _ _ (spec k) (k_st k) 0 3 (kr_btt _ _ _ _ HR) ltac:(lia))
    as ((s' & E & _ & _ & _ & _ & Hv) & _).
  exists s'. rewrite Hu in E, Hv. split; [exact E|]. exact (Hv 3 ltac:(lia)).
Defined.

(** A failure before the first store. *)
Lemma btt_write_crash_atomic_witness : ∃ k s1,
  btt_init (ns_cb F (k_cb_zeroed k)) (b_rawsize (s_btt (k_st k))) (b_lbasize (s_btt (k_st k)))
    (b_parent_uuid (s_btt (k_st k))) 8 (k_st k) = (Ok tt, s1) ∧
  (btt_view (s_btt s1) (pm_mem (n_data (s_ns s1))) 3 = Some (BData ex_buf)).
Proof.
  destruct ex_ready as (k & HR & Hb & Hml & Hev & Hres & H3 & H4). exists k.
  destruct (btt_write (ns_cb F (k_cb_zeroed k)) 0 4 ex_buf (k_st k)) as [r s'] eqn:E.
  destruct (@btt_write_crash_atomic _ _ (spec k) (k_st k) 0 4 ex_buf r s' (kr_btt _ _ _ _ HR)
    (ex_lane k HR) ltac:(lia) (eq_trans (eq_sym Hb) (eq_sym (kr_bsize _ _ _ _ HR))) ex_buf_bytes E)
    as (ws & _ & Hat).
  destruct (Hat (pm_mem (n_data (s_ns (k_st k)))) (k_st k) 8) as (s1 & E1 & _ & Hv).
  - by constructor.
  - split; [done|apply HR|done|done].
  - lia.
  - exists s1. split; [exact E1|].
    destruct Hv as [Hv|Hv]; pose proof (Hv 3 ltac:(lia)) as V3; simpl in V3; rewrite V3; exact H3.
Defined.

Lemma btt_fresh_namespace_witness : ∃ s1 s2,
  btt_init (ns_cb F true) BTT_MIN_SIZE 512 (replicate 16 9) 8
    (St zero_btt (BlkNs (Pmem ∅ []) BTT_MIN_SIZE true) [] (Some (replicate 16 5))) = (Ok tt, s1) ∧
  first_write (ns_cb F true) 2 s1 = (Ok tt, s2) ∧
  btt_view (s_btt s2) (pm_mem (n_data (s_ns s2))) 100 = Some BZero.
Proof.
  set (s := St zero_btt (BlkNs (Pmem ∅ []) BTT_MIN_SIZE true) [] (Some (replicate 16 5))).
  destruct (btt_init (ns_cb F true) BTT_MIN_SIZE 512 (replicate 16 9) 8 s) as [r s1] eqn:E.
  assert (r = Ok tt ∧ b_nlane (s_btt s1) = 8 ∧ b_nlba (s_btt s1) = 32202) as (-> & Hn & Hb).
  { vm_compute in E. injection E as <- <-. by vm_compute. }
  destruct (@btt_fresh_namespace _ _ (blk_nsspec default_env ex_env true None)
    (blk_nszerospec default_env ex_env true) s BTT_MIN_SIZE 512 (replicate 16 9) 8 (replicate 16 5) s1 2)
    as (_ & _ & _ & s2 & Ef & _ & _ & _ & Hv).
  - reflexivity.
  - reflexivity.
  - reflexivity.
  - apply Forall_replicate. unfold is_byte. lia.
  - reflexivity.
  - apply Forall_replicate. unfold is_byte. lia.
  - split; [vm_compute; split; congruence|exact I].
  - apply Z.le_refl.
  - reflexivity.
  - lia.
  - left. split; [reflexivity|]. intros p _. reflexivity.
  - vm_compute. reflexivity.
  - lia.
  - exact E.
  - lia.
  - exists s1, s2. split; [reflexivity|]. split; [exact Ef|]. apply (Hv 100). lia.
Defined.

Lemma btt_check_decides_witness : ∃ k r,
  btt_check (ns_cb F (k_cb_zeroed k)) (k_st k) = (Ok r, k_st k).
Proof.
  destruct ex_ready as (k & HR & Hb & Hml & Hev & Hres & H3 & H4). exists k. eexists.
  pose proof (kr_btt _ _ _ _ HR) as HB. pose proof (br_inv _ _ HB) as Hi.
  apply (@btt_check_decides _ _ (spec k) (k_st k)).
  - apply Hi.
  - apply Hi.
  - exact Hml.
  - apply HB.
  - exact (ready_in_range _ _ HB).
Defined.

Lemma btt_check_invariant_witness : ∃ k,
  btt_check (ns_cb F (k_cb_zeroed k)) (k_st k) = (Ok true, k_st k).
Proof.
  destruct ex_ready as (k & HR & Hb & Hml & Hev & Hres & H3 & H4). exists k.
  exact (@btt_check_invariant _ _ (spec k) (k_st k) (kr_btt _ _ _ _ HR) Hml).
Defined.

Lemma pmemblk_write_refines_witness : ∃ k k',
  pmemblk_write F ex_buf 4 k = (Ok tt, k') ∧ k_view k' 4 = Some (BData ex_buf).
Proof.
  destruct ex_ready as (k & HR & Hb & Hml & Hev & Hres & H3 & H4). exists k.
  destruct (pmemblk_write_refines default_env ex_env k ex_buf 4 HR (eq_sym Hb) ex_buf_bytes)
    as (k' & E & _ & _ & _ & _ & Hv).
  exists k'. rewrite (Hres 4 ltac:(lia)) in E, Hv. split; [exact E|]. exact (Hv 4 ltac:(lia)).
Defined.

Lemma pmemblk_set_refines_witness : ∃ k k',
  pmemblk_set_error F 3 k = (Ok tt, k') ∧ k_view k' 3 = Some BError ∧ k_view k' 4 = Some BZero.
Proof.
  destruct ex_ready as (k & HR & Hb & Hml & Hev & Hres & H3 & H4). exists k.
  destruct (pmemblk_set_refines default_env ex_env k 3 HR) as (_ & k' & E & _ & _ & _ & _ & Hv).
  exists k'. rewrite (Hres 3 ltac:(lia)) in E, Hv. split; [exact E|].
  pose proof (Hv 3 ltac:(lia)) as V3. pose proof (Hv 4 ltac:(lia)) as V4. simpl in V3, V4.
  split; [exact V3|]. rewrite V4. exact H4.
Defined.

Lemma pmemblk_read_view_witness : ∃ k k', pmemblk_read F 3 k = (Ok ex_buf, k').
Proof.
  destruct ex_ready as (k & HR & Hb & Hml & Hev & Hres & H3 & H4). exists k. eexists.
  rewrite (pmemblk_read_view default_env ex_env k 3 HR). simpl (3 <? 0). cbv iota. by rewrite H3.
Defined.

(** The failure strikes when the call has returned and nothing is lost. *)
Lemma pmemblk_write_crash_atomic_witness : ∃ k x k1,
  pmemblk_open F (Some (ex_media k x)) 0 0 2 ex_idle = (Ok tt, k1) ∧
  k_view k1 3 = Some (BData ex_buf).
Proof.
  destruct ex_ready as (k & HR & Hb & Hml & Hev & Hres & H3 & H4). exists k.
  destruct (pmemblk_write F ex_buf 4 k) as [r k'] eqn:E.
  set (m0 := pm_mem (n_data (s_ns (k_st k)))). set (es := pm_evs (n_data (s_ns (k_st k')))).
  exists (replay m0 es).
  destruct (pmemblk_write_crash_atomic default_env ex_env m0 k ex_buf 4 r k' (length es) (replay m0 es)
    (ex_media k (replay m0 es)) ex_idle 0 2 HR (ex_persisted k Hev) (eq_sym Hb) ex_buf_bytes E)
    as (k1 & E1 & _ & _ & Hv).
  - rewrite Hev. simpl. fold es. lia.
  - fold es. rewrite take_ge by lia. apply crash_at_replay.
  - apply ex_on_media.
  - reflexivity.
  - exists k1. split; [exact E1|].
    destruct Hv as [Hv|Hv]; pose proof (Hv 3 ltac:(lia)) as V3; simpl in V3; rewrite V3; exact H3.
Defined.

Lemma pmemblk_write_durable_witness : ∃ k k' x k1,
  pmemblk_write F ex_buf 4 k = (Ok tt, k') ∧
  pmemblk_open F (Some (ex_media k' x)) 0 0 2 ex_idle = (Ok tt, k1) ∧ k_view k1 4 = k_view k' 4.
Proof.
  destruct ex_ready as (k & HR & Hb & Hml & Hev & Hres & H3 & H4). exists k.
  destruct (blk_write_refines default_env ex_env None k ex_buf 4 HR (eq_sym Hb) ex_buf_bytes) as (k' & E & _).
  rewrite (Hres 4 ltac:(lia)) in E. exists k'.
  set (m0 := pm_mem (n_data (s_ns (k_st k)))). set (es := pm_evs (n_data (s_ns (k_st k')))).
  exists (replay m0 es).
  destruct (pmemblk_write_durable default_env ex_env m0 k ex_buf 4 (Ok tt) k' (replay m0 es)
    (ex_media k' (replay m0 es)) ex_idle 0 2 HR (ex_persisted k Hev) (eq_sym Hb) ex_buf_bytes E)
    as (_ & k1 & E1 & _ & Hv).
  - apply crash_at_replay.
  - apply ex_on_media.
  - reflexivity.
  - exists k1. split; [exact E|]. split; [exact E1|]. exact (Hv 4 ltac:(lia)).
Defined.

Lemma pmemblk_create_fresh_witness : ∃ k1 k2,
  pmemblk_create F (Some ex_rep) 0 512 4 ex_idle = (Ok tt, k1) ∧
  pmemblk_write F ex_buf 3 k1 = (Ok tt, k2) ∧ k_view k2 3 = Some (BData ex_buf) ∧
  k_view k2 4 = Some BZero.
Proof.
  destruct ex_created as (k1 & E & Hn). exists k1.
  destruct (pmemblk_create_fresh default_env ex_env ex_rep 0 512 4 ex_idle k1 ex_buf 3 ex_new_pool E)
    as (_ & k2 & E2 & _ & _ & Hv).
  - reflexivity.
  - apply ex_buf_bytes.
  - lia.
  - exists k2. split; [exact E|]. split; [exact E2|].
    split; [exact (proj2 (Hv 3 ltac:(lia)))|exact (proj2 (Hv 4 ltac:(lia)))].
Defined.
