(* ===== verification/Log.v ===== *)
(** * libpmemlog: the append-only log

    Models [libpmemlog/log.c] and the descriptor of [libpmemlog/log.h].  The pool is one
    persistent memory addressed from its start: header page, descriptor, data
    from offset 8192.  The fields of [struct pmemlog] that live on the media are
    read from that memory; the run-time fields are a record.  Mapping the pool files is the
    argument [rep], [None] when the call fails.  Protection of the mapping ([RANGE_RO] and
    the like, debug builds only) is not modelled. *)

From stdpp Require Import base gmap list numbers.
From S2P Require Import Prelude Memory Pmem Util.
Local Open Scope Z_scope.

(** ** State *)

Definition LOG_FORMAT_DATA_ALIGN : Z := 4096.
Definition sizeof_pmemlog : Z := 4176.
Definition off_start_offset : Z := 4096.
Definition off_end_offset : Z := 4104.
Definition off_write_offset : Z := 4112.

Inductive rwlock : Type := unlocked | rdlocked | wrlocked.

Record pmemlog : Type := Pmemlog {
  l_pm : pmem;               (* [addr]: the mapped pool *)
  l_size : Z;
  l_is_pmem : bool;
  l_rdonly : bool;
  l_rwlock : rwlock
}.

Definition l_start_offset (l : pmemlog) : Z := rd64 (pm_mem (l_pm l)) off_start_offset.
Definition l_end_offset (l : pmemlog) : Z := rd64 (pm_mem (l_pm l)) off_end_offset.
Definition l_write_offset (l : pmemlog) : Z := rd64 (pm_mem (l_pm l)) off_write_offset.

Definition l_set_pm (x : pmem) (l : pmemlog) : pmemlog :=
  Pmemlog x (l_size l) (l_is_pmem l) (l_rdonly l) (l_rwlock l).
Definition l_set_rdonly (x : bool) (l : pmemlog) : pmemlog :=
  Pmemlog (l_pm l) (l_size l) (l_is_pmem l) x (l_rwlock l).
Definition l_set_rwlock (x : rwlock) (l : pmemlog) : pmemlog :=
  Pmemlog (l_pm l) (l_size l) (l_is_pmem l) (l_rdonly l) x.

(** A mapped pool set. *)
Record log_replica : Type := LogReplica {
  lr_pm : pmem;
  lr_repsize : Z;
  lr_is_pmem : bool;
  lr_nreplicas : Z;
  lr_rdonly : bool;
  lr_chmod_ok : bool
}.

Section log.
Context (Funcs : pmem_funcs).
Local Abbreviation ML A := (M pmemlog A).

Definition on_pm (f : pmem → pmem) : ML unit := modify (λ l, l_set_pm (f (l_pm l)) l).

(** *** Locks *)

Definition os_rwlock_rdlock : ML unit := λ l,
  match l_rwlock l with
  | unlocked => (Ok tt, l_set_rwlock rdlocked l)
  | _ => (Undef, l)
  end.
Definition os_rwlock_wrlock : ML unit := λ l,
  match l_rwlock l with
  | unlocked => (Ok tt, l_set_rwlock wrlocked l)
  | _ => (Undef, l)
  end.
Definition util_rwlock_unlock : ML unit := λ l,
  match l_rwlock l with
  | unlocked => (Undef, l)
  | _ => (Ok tt, l_set_rwlock unlocked l)
  end.

(** *** The descriptor *)

Definition log_descr_create (poolsize : Z) : ML unit :=
  on_pm (λ p, pm_store p off_start_offset
                (le_bytes 8 (roundup sizeof_pmemlog LOG_FORMAT_DATA_ALIGN)));;
  on_pm (λ p, pm_store p off_end_offset (le_bytes 8 poolsize));;
  start ← gets l_start_offset;
  on_pm (λ p, pm_store p off_write_offset (le_bytes 8 start));;
  is_pmem ← gets l_is_pmem;
  on_pm (λ p, util_persist Funcs is_pmem p off_start_offset 24).

Definition log_descr_check (poolsize : Z) : ML unit :=
  hdr ← gets (λ l, l);
  if negb (l_start_offset hdr =? roundup sizeof_pmemlog LOG_FORMAT_DATA_ALIGN)
     || negb (l_end_offset hdr =? poolsize)
     || (l_end_offset hdr <? l_start_offset hdr)
  then fail EINVAL
  else if (l_end_offset hdr <? l_write_offset hdr) || (l_write_offset hdr <? l_start_offset hdr)
  then fail EINVAL
  else mret tt.

(** [malloc_ok]: the allocation of the lock; [init_errno]: the result of [os_rwlock_init]. *)
Definition log_runtime_init (rdonly malloc_ok : bool) (init_errno : Z) : ML unit :=
  modify (l_set_rdonly rdonly);;
  if negb malloc_ok then fail ENOMEM
  else if negb (init_errno =? 0) then fail init_errno
  else modify (l_set_rwlock unlocked).

Definition log_map_pool (rep : log_replica) (l : pmemlog) : pmemlog :=
  Pmemlog (lr_pm rep) (lr_repsize rep) (lr_is_pmem rep) false (l_rwlock l).

Definition pmemlog_create (rep : option log_replica) (pool_errno : Z)
    (malloc_ok : bool) (init_errno : Z) : ML unit :=
  match rep with
  | None => fail pool_errno
  | Some rep =>
      modify (log_map_pool rep);;
      log_descr_create (lr_repsize rep);;
      log_runtime_init false malloc_ok init_errno;;
      if lr_chmod_ok rep then mret tt else fail pool_errno
  end.

Definition log_open_common (rep : option log_replica) (pool_errno : Z)
    (malloc_ok : bool) (init_errno : Z) : ML unit :=
  match rep with
  | None => fail pool_errno
  | Some rep =>
      modify (log_map_pool rep);;
      if 1 <? lr_nreplicas rep then fail ENOTSUP
      else
        log_descr_check (lr_repsize rep);;
        log_runtime_init (lr_rdonly rep) malloc_ok init_errno
  end.

Definition pmemlog_open (rep : option log_replica) (pool_errno : Z)
    (malloc_ok : bool) (init_errno : Z) : ML unit :=
  log_open_common rep pool_errno malloc_ok init_errno.

(** The lock is destroyed; only the mapping is left, which the caller drops. *)
Definition pmemlog_close : ML unit := λ l,
  match l_rwlock l with
  | unlocked => (Ok tt, l)
  | _ => (Undef, l)
  end.

(** *** Reading *)

Definition pmemlog_nbyte : ML Z :=
  os_rwlock_rdlock;;
  size ← gets (λ l, u64 (l_end_offset l - l_start_offset l));
  util_rwlock_unlock;; mret size.

(** The result is a [long long]. *)
Definition pmemlog_tell : ML Z :=
  os_rwlock_rdlock;;
  wp ← gets (λ l, u64 (l_write_offset l - l_start_offset l));
  util_rwlock_unlock;; mret (if 2 ^ 63 <=? wp then wp - 2 ^ 64 else wp).

(** *** Appending *)

Definition log_persist (new_write_offset : Z) : ML unit :=
  old_write_offset ← gets l_write_offset;
  let length := u64 (new_write_offset - old_write_offset) in
  is_pmem ← gets l_is_pmem;
  on_pm (λ p, if (is_pmem : bool) then pmem_drain Funcs p else pmem_msync p old_write_offset length);;
  on_pm (λ p, pm_store p off_write_offset (le_bytes 8 new_write_offset));;
  on_pm (λ p, util_persist Funcs is_pmem p off_write_offset 8).

Definition copy_data (write_offset : Z) (buf : list Z) : ML unit :=
  is_pmem ← gets l_is_pmem;
  on_pm (λ p, if (is_pmem : bool) then pmem_memcpy_nodrain Funcs p write_offset buf
              else pm_store p write_offset buf).

Definition pmemlog_append (buf : list Z) : ML unit :=
  rdonly ← gets l_rdonly;
  if (rdonly : bool) then fail EROFS
  else
    os_rwlock_wrlock;;
    l ← gets (λ l, l);
    let end_offset := l_end_offset l in
    let write_offset := l_write_offset l in
    if end_offset <=? write_offset then util_rwlock_unlock;; fail ENOSPC
    else if u64 (end_offset - write_offset) <? len buf then util_rwlock_unlock;; fail ENOSPC
    else
      copy_data write_offset buf;;
      log_persist (u64 (write_offset + len buf));;
      util_rwlock_unlock.

(** [for (i = 0; i < iovcnt; ++i) count += iov[i].iov_len;] *)
Definition iov_count (iov : list (list Z)) : Z :=
  foldl (λ count b, u64 (count + len b)) 0 iov.

(** The copies of [pmemlog_appendv]; returns the new write offset. *)
Fixpoint copy_iov (write_offset : Z) (iov : list (list Z)) : ML Z :=
  match iov with
  | [] => mret write_offset
  | buf :: iov =>
      copy_data write_offset buf;;
      copy_iov (u64 (write_offset + len buf)) iov
  end.

(** [iov] is the array; entries beyond [iovcnt] are not looked at. *)
Definition pmemlog_appendv (iov : list (list Z)) (iovcnt : Z) : ML unit :=
  let iov := take (Z.to_nat iovcnt) iov in
  if iovcnt <? 0 then fail EINVAL
  else
    rdonly ← gets l_rdonly;
    if (rdonly : bool) then fail EROFS
    else
      os_rwlock_wrlock;;
      l ← gets (λ l, l);
      let end_offset := l_end_offset l in
      let write_offset := l_write_offset l in
      if end_offset <=? write_offset then util_rwlock_unlock;; fail ENOSPC
      else if u64 (end_offset - write_offset) <? iov_count iov then util_rwlock_unlock;; fail ENOSPC
      else
        write_offset ← copy_iov write_offset iov;
        log_persist write_offset;;
        util_rwlock_unlock.

(** [errno] is all the caller can see of a failure. *)
Definition pmemlog_rewind : ML unit :=
  rdonly ← gets l_rdonly;
  if (rdonly : bool) then fail EROFS
  else
    os_rwlock_wrlock;;
    start ← gets l_start_offset;
    on_pm (λ p, pm_store p off_write_offset (le_bytes 8 start));;
    is_pmem ← gets l_is_pmem;
    on_pm (λ p, util_persist Funcs is_pmem p off_write_offset 8);;
    util_rwlock_unlock.

(** *** Walking *)

Section walk.
Context {A : Type} (process_chunk : list Z → A → bool * A).

(** The loop over the chunks.  [None]: still running after [fuel] chunks. *)
Fixpoint walk_loop (fuel : nat) (m : mem) (chunksize write_offset data_offset : Z) (arg : A)
    : option A :=
  match fuel with
  | O => if data_offset <? write_offset then None else Some arg
  | S fuel =>
      if data_offset <? write_offset then
        let len := Z.min chunksize (write_offset - data_offset) in
        let '(continue, arg) := process_chunk (rdn m data_offset (Z.to_nat len)) arg in
        if (continue : bool)
        then walk_loop fuel m chunksize write_offset (u64 (data_offset + chunksize)) arg
        else Some arg
      else Some arg
  end.

(** The walker does not change the log; its effects are those on [arg].  The offset only
    goes up, or, when [chunksize] is so large that the addition wraps around, only
    down until it wraps upwards: [write_offset + 1] rounds are enough. *)
Definition pmemlog_walk (chunksize : Z) (arg : A) : ML A :=
  os_rwlock_rdlock;;
  l ← gets (λ l, l);
  let m := pm_mem (l_pm l) in
  let write_offset := l_write_offset l in
  let data_offset := l_start_offset l in
  arg ← (if chunksize =? 0 then
           let len := u64 (write_offset - data_offset) in
           mret (process_chunk (rdn m data_offset (Z.to_nat len)) arg).2
         else
           match walk_loop (S (Z.to_nat write_offset)) m chunksize
                   write_offset data_offset arg with
           | Some arg => mret arg
           | None => undef
           end);
  util_rwlock_unlock;; mret arg.
End walk.

(** *** Checking *)

(** The pool is opened copy-on-write, so the caller keeps its state. *)
Definition pmemlog_check (rep : option log_replica) (pool_errno : Z)
    (malloc_ok : bool) (init_errno : Z) : ML bool :=
  log_open_common rep pool_errno malloc_ok init_errno;;
  l ← gets (λ l, l);
  let hdr_start := l_start_offset l in
  let hdr_end := l_end_offset l in
  let hdr_write := l_write_offset l in
  let consistent :=
    (hdr_start =? roundup sizeof_pmemlog LOG_FORMAT_DATA_ALIGN) && (hdr_end =? l_size l)
    && negb (hdr_end <? hdr_start) && negb (hdr_write <? hdr_start)
    && negb (hdr_end <? hdr_write) in
  pmemlog_close;; mret consistent.
End log.
