(* ===== verification/LogSpec.v ===== *)
(** * libpmemlog: the log as a sequence of bytes

    The abstract state of a pool is the sequence of bytes appended since the
    last rewind.  The operations implement that sequence, and an append is atomic and durable with
    respect to power failures. *)

From stdpp Require Import base gmap list numbers.
From S2P Require Import Prelude Memory Pmem Util Log.
Local Open Scope Z_scope.

(** ** Representation *)

Definition media_log (size : Z) (m : mem) : Prop :=
  rd64 m off_start_offset = 8192 ∧ rd64 m off_end_offset = size ∧
  8192 ≤ rd64 m off_write_offset ≤ size.

Definition media_bytes (m : mem) : list Z :=
  rdn m 8192 (Z.to_nat (rd64 m off_write_offset - 8192)).

(** An open pool nobody is using. *)
Record log_inv (l : pmemlog) : Prop := LogInv {
  li_media : media_log (l_size l) (pm_mem (l_pm l));
  li_size : l_size l < 2 ^ 63;
  li_lock : l_rwlock l = unlocked
}.

Definition log_view (l : pmemlog) : list Z := media_bytes (pm_mem (l_pm l)).

Definition append_result (l : pmemlog) (n : Z) : res unit :=
  if l_rdonly l then Fail EROFS
  else if l_size l <=? l_write_offset l then Fail ENOSPC
  else if l_size l - l_write_offset l <? n then Fail ENOSPC
  else Ok tt.

(** ** Copying the data *)

Section copy.
Context (env : pmem_env) (Henv : flushing_env env).
Local Abbreviation F := (pmem_init_funcs env).
Implicit Types (l : pmemlog) (p : pmem).

(** The events of the copies to persistent memory. *)
Definition copied (es : list ev) : Prop :=
  flushed es ∧ (deep_flush F = flush_clflush → ∃ ws, durable_writes ws es).

Lemma copied_nil : copied [].
Proof. split; [constructor|]. intros _. exists []. constructor. Qed.

Lemma copied_step es off bs : 0 ≤ off → off + len bs < 2 ^ 64 → copied es →
  copied (es ++ EvStore off bs :: run_flush (deep_flush F) off (len bs)).
Proof using Henv.
  intros Hoff Hlt [Hf Hd]. destruct (init_flushing env Henv) as (_ & Hk).
  assert (∀ a, off ≤ a < off + len bs → a / 64 ∈ flush_nolog off (len bs)) as Hcov
    by (intros; apply flush_nolog_covers; lia).
  destruct (deep_flush F) eqn:E; simpl.
  - split.
    + change [EvStore off bs; EvFlush (flush_nolog off (len bs)); EvDrain]
        with ([EvStore off bs; EvFlush (flush_nolog off (len bs))] ++ [EvDrain]).
      rewrite (assoc_L (++)). by repeat constructor.
    + intros _. destruct (Hd eq_refl) as [ws Hws]. exists (ws ++ [(off, bs)]).
      by repeat constructor.
  - split; [by constructor|]. congruence.
  - split; [by constructor|]. congruence.
  - destruct Hk as [[? _]|[[?|?] _]]; done.
Qed.

(** The fence of [log_persist] completes the copies. *)
Lemma copied_settled es m : copied es → settled m (es ++ run_fence (predrain_fence F)).
Proof using Henv.
  intros [Hf Hd]. destruct (init_flushing env Henv) as (_ & [(E & ->)|(_ & ->)]).
  - destruct (Hd E) as [ws Hws]. simpl. rewrite app_nil_r. by apply (durable_writes_settled ws).
  - by apply flushed_settled.
Qed.

(** What the copies of a list of buffers do, on both paths. *)
Definition copies (is_pmem : bool) (w : Z) (bs : list Z) (es : list ev) : Prop :=
  (∀ m, replay m es = wr m w bs) ∧
  (∀ a, ¬ (w ≤ a < w + len bs) → untouched es a) ∧
  (is_pmem = true → copied es).

Lemma copies_app is_pmem w b1 b2 es1 es2 : copies is_pmem w b1 es1 →
  copies is_pmem (w + len b1) b2 es2 → (is_pmem = true → copied (es1 ++ es2)) →
  copies is_pmem w (b1 ++ b2) (es1 ++ es2).
Proof.
  intros (R1 & U1 & _) (R2 & U2 & _) Hc. split_and!; [| |done].
  - intros m. by rewrite replay_app, R1, R2, wr_app.
  - intros a Ha. rewrite length_app in Ha. apply untouched_app. split; [apply U1|apply U2]; lia.
Qed.

Lemma untouched_store off bs a : ¬ (off ≤ a < off + len bs) →
  untouched [EvStore off bs] a.
Proof. intros H o b. rewrite elem_of_cons, elem_of_nil. by intros [[= -> ->]|[]]. Qed.

Lemma untouched_flush f addr n a : untouched (run_flush f addr n) a.
Proof. intros o b. destruct f; simpl; rewrite ?elem_of_cons, elem_of_nil; intuition discriminate. Qed.

(** One buffer. *)
Lemma copy_data_run l w buf : 0 ≤ w → w + len buf < 2 ^ 64 →
  ∃ es, copy_data F w buf l =
      (Ok tt, l_set_pm (Pmem (wr (pm_mem (l_pm l)) w buf) (pm_evs (l_pm l) ++ es)) l) ∧
    copies (l_is_pmem l) w buf es ∧
    (l_is_pmem l = true → ∀ es0, copied es0 → copied (es0 ++ es)).
Proof using Henv.
  intros Hw Hlt. unfold copy_data, mbind, M_bind, gets, on_pm, modify. destruct (l_is_pmem l).
  - unfold pmem_memcpy_nodrain, pmem_memcpy, pmem_memmove, memmove_nodrain.
    destruct (Z.eqb_spec (len buf) 0) as [Hz|_]; simpl.
    + destruct buf; [|simpl in Hz; lia]. exists []. rewrite app_nil_r. split; [by destruct (l_pm l)|].
      split; [split_and!; [done| |intros _; apply copied_nil]|].
      * intros a _ o b. by rewrite elem_of_nil.
      * intros _ es0. by rewrite app_nil_r.
    + exists (EvStore w buf :: run_flush (deep_flush F) w (len buf)). split.
      { unfold emit. simpl. by rewrite <- (assoc_L (++)). }
      assert (∀ es0, copied es0 → copied (es0 ++ EvStore w buf :: run_flush (deep_flush F) w (len buf)))
        as Hstep by (intros; by apply copied_step).
      split; [|by intros _]. split_and!.
      * intros m. simpl. by destruct (deep_flush F).
      * intros a Ha. apply (untouched_app [EvStore w buf]). split; [by apply untouched_store|].
        apply untouched_flush.
      * intros _. apply (Hstep []), copied_nil.
  - exists [EvStore w buf]. split; [done|]. split; [|done]. split_and!; [done| |done].
    intros a Ha. by apply untouched_store.
Qed.

Lemma copy_iov_run iov : ∀ l w, 0 ≤ w → w + len (concat iov) < 2 ^ 64 →
  ∃ es, copy_iov F w iov l = (Ok (w + len (concat iov)),
      l_set_pm (Pmem (wr (pm_mem (l_pm l)) w (concat iov)) (pm_evs (l_pm l) ++ es)) l) ∧
    copies (l_is_pmem l) w (concat iov) es ∧
    (l_is_pmem l = true → ∀ es0, copied es0 → copied (es0 ++ es)).
Proof using Henv.
  induction iov as [|buf iov IH]; intros l w Hw Hlt; simpl.
  - exists []. rewrite Z.add_0_r, app_nil_r. split; [by destruct l as [[]]|].
    split; [split_and!; [done| |intros _; apply copied_nil]|].
    + intros a _ o b. by rewrite elem_of_nil.
    + intros _ es0. by rewrite app_nil_r.
  - simpl in Hlt. rewrite length_app in Hlt. rewrite Nat2Z.inj_add in Hlt.
    destruct (copy_data_run l w buf Hw ltac:(lia)) as (es1 & E1 & C1 & K1).
    erewrite bind_ok by exact E1. rewrite u64_id by lia.
    match goal with |- context [copy_iov F _ iov ?l1] =>
      destruct (IH l1 (w + len buf) ltac:(lia) ltac:(lia)) as (es2 & E2 & C2 & K2) end.
    simpl in E2, C2, K2. exists (es1 ++ es2). split.
    { rewrite E2, wr_app, length_app, (assoc_L (++)). do 2 f_equal. lia. }
    split.
    + apply copies_app; [done..|]. intros Hp. apply K2; [done|]. by apply C1.
    + intros Hp es0 H0. rewrite (assoc_L (++)). by apply K2, K1.
Qed.
End copy.

(** ** Appending *)

Section append.
Context (env : pmem_env) (Henv : flushing_env env).
Local Abbreviation F := (pmem_init_funcs env).
Implicit Types (l : pmemlog) (p : pmem).

(** The store of the new write offset and its write-back. *)
Definition meta_events (w : Z) (ls : list Z) : list ev :=
  [EvStore off_write_offset (le_bytes 8 w); EvFlush ls; EvDrain].

Definition covers_meta (ls : list Z) : Prop :=
  ∀ a, off_write_offset ≤ a < off_write_offset + 8 → a / 64 ∈ ls.

(** [util_persist] of the write offset just stored. *)
Lemma persist_meta is_pmem p w : ∃ ls, covers_meta ls ∧
  util_persist F is_pmem (pm_store p off_write_offset (le_bytes 8 w)) off_write_offset 8 =
  Pmem (wr (pm_mem p) off_write_offset (le_bytes 8 w)) (pm_evs p ++ meta_events w ls).
Proof using Henv.
  destruct is_pmem; simpl.
  - exists (flush_nolog off_write_offset 8). split.
    + intros a Ha. by apply flush_nolog_covers.
    + rewrite persist_events by done. unfold emit, meta_events. simpl. by rewrite <- (assoc_L (++)).
  - eexists. split; [|unfold pmem_msync, emit, meta_events; simpl; by rewrite <- (assoc_L (++))].
    intros a Ha. by apply (msync_covers off_write_offset 8).
Qed.

(** The data and its write-back, before the write offset is touched. *)
Record data_events (w : Z) (bs : list Z) (es : list ev) : Prop := DataEvents {
  de_replay m : replay m es = wr m w bs;
  de_untouched a : ¬ (w ≤ a < w + len bs) → untouched es a;
  de_settled m : settled m es
}.

Lemma persist_data l w bs es : 0 ≤ w → w + len bs < 2 ^ 64 →
  copies env (l_is_pmem l) w bs es → ∀ m evs, ∃ es',
  (if l_is_pmem l then pmem_drain F (Pmem m (evs ++ es)) else pmem_msync (Pmem m (evs ++ es)) w (len bs)) =
  Pmem m (evs ++ es') ∧ data_events w bs es'.
Proof using Henv.
  intros Hw Hlt (R & U & C) m evs. destruct (l_is_pmem l).
  - exists (es ++ run_fence (predrain_fence F)). split; [unfold pmem_drain, emit; simpl; by rewrite (assoc_L (++))|].
    split.
    + intros m'. rewrite replay_app, R. by destruct (predrain_fence F).
    + intros a Ha. apply untouched_app. split; [by apply U|].
      intros o b. destruct (predrain_fence F); simpl; rewrite ?elem_of_cons, elem_of_nil; intuition discriminate.
    + intros m'. apply copied_settled; auto.
  - eexists. split; [unfold pmem_msync, emit; simpl; by rewrite <- (assoc_L (++))|]. split.
    + intros m'. by rewrite replay_app, R.
    + intros a Ha. apply untouched_app. split; [by apply U|].
      intros o b. rewrite !elem_of_cons, elem_of_nil. intuition discriminate.
    + intros m'. apply settled_batch. intros a Ha. apply msync_covers; [lia..|].
      destruct (decide (w ≤ a < w + len bs)); [done|]. destruct Ha. by apply U.
Qed.

Lemma iov_count_eq iov : len (concat iov) < 2 ^ 64 → iov_count iov = len (concat iov).
Proof.
  unfold iov_count. intros Hlt.
  assert (∀ n, 0 ≤ n → n + len (concat iov) < 2 ^ 64 →
    foldl (λ count b, u64 (count + len b)) n iov = n + len (concat iov)) as H; [|apply H; lia].
  clear Hlt. induction iov as [|b iov IH]; intros n Hn Hlt; simpl; [lia|].
  simpl in Hlt. rewrite length_app in *. rewrite u64_id, IH by lia. lia.
Qed.

(** The pool after an append that found room. *)
Definition appended l (bs : list Z) (es : list ev) : pmemlog :=
  let w := l_write_offset l in
  l_set_pm (Pmem (wr (wr (pm_mem (l_pm l)) w bs) off_write_offset (le_bytes 8 (w + len bs)))
              (pm_evs (l_pm l) ++ es)) l.

Lemma media_write_offset size m w bs : media_log size m → 8192 ≤ w →
  rd64 (wr m w bs) off_write_offset = rd64 m off_write_offset.
Proof. intros _ Hw. apply rd64_wr_out. unfold off_write_offset. lia. Qed.

Lemma log_persist_run l w bs es evs : l_write_offset l = w → pm_evs (l_pm l) = evs ++ es →
  0 ≤ w → w + len bs < 2 ^ 64 → copies env (l_is_pmem l) w bs es →
  ∃ es' ls, covers_meta ls ∧ data_events w bs es' ∧
    log_persist F (w + len bs) l =
    (Ok tt, l_set_pm (Pmem (wr (pm_mem (l_pm l)) off_write_offset (le_bytes 8 (w + len bs)))
              (evs ++ es' ++ meta_events (w + len bs) ls)) l).
Proof using Henv.
  intros Hwo He Hw Hlt C.
  destruct (persist_data l w bs es Hw Hlt C (pm_mem (l_pm l)) evs) as (es' & Ed & Hd).
  destruct (persist_meta (l_is_pmem l) (Pmem (pm_mem (l_pm l)) (evs ++ es')) (w + len bs))
    as (ls & Hls & Em).
  exists es', ls. split; [done|]. split; [done|].
  assert (l_pm l = Pmem (pm_mem (l_pm l)) (evs ++ es)) as Hpm by (rewrite <- He; by destruct (l_pm l)).
  unfold log_persist, mbind, M_bind, gets, on_pm, modify. rewrite Hwo.
  replace (w + len bs - w) with (len bs) by lia. rewrite u64_id by lia.
  cbn [l_set_pm l_pm l_is_pmem l_size l_rdonly l_rwlock]. rewrite Hpm.
  cbn [pm_mem pm_evs] in *. rewrite Ed, Em. cbn [pm_mem pm_evs]. unfold l_set_pm.
  by rewrite <- (assoc_L (++)).
Qed.

(** The guards passed, the data is copied and the write offset moved. *)
Lemma appendv_ok l iov iovcnt bs : log_inv l → 0 ≤ iovcnt → concat (take (Z.to_nat iovcnt) iov) = bs →
  append_result l (len bs) = Ok tt →
  ∃ es ls, covers_meta ls ∧ data_events (l_write_offset l) bs es ∧
    pmemlog_appendv F iov iovcnt l =
    (Ok tt, appended l bs (es ++ meta_events (l_write_offset l + len bs) ls)).
Proof using Henv.
  intros [(Hst & Hen & Hwr) Hsz Hlk] Hcnt Hbs Hres. unfold append_result in Hres.
  destruct (l_rdonly l) eqn:Hro; [done|].
  destruct (Z.leb_spec (l_size l) (l_write_offset l)) as [|Hroom]; [done|].
  destruct (Z.ltb_spec (l_size l - l_write_offset l) (len bs)) as [|Hfit]; [done|]. clear Hres.
  set (w := l_write_offset l) in *. change (8192 ≤ w ≤ l_size l) in Hwr.
  unfold pmemlog_appendv. rewrite (proj2 (Z.ltb_ge _ _)) by done.
  erewrite bind_ok by reflexivity. rewrite Hro. erewrite bind_ok by (unfold os_rwlock_wrlock; by rewrite Hlk).
  erewrite bind_ok by reflexivity. cbv zeta.
  change (l_end_offset (l_set_rwlock wrlocked l)) with (l_end_offset l).
  change (l_write_offset (l_set_rwlock wrlocked l)) with w.
  change (rd64 (pm_mem (l_pm l)) off_end_offset) with (l_end_offset l) in Hen. rewrite Hen.
  rewrite (proj2 (Z.leb_gt _ _)), u64_id by lia.
  rewrite iov_count_eq by (rewrite Hbs; lia). rewrite Hbs, (proj2 (Z.ltb_ge _ _)) by lia.
  destruct (copy_iov_run env Henv (take (Z.to_nat iovcnt) iov) (l_set_rwlock wrlocked l) w)
    as (es & E & C & _); [lia|rewrite Hbs; lia|]. rewrite Hbs in E, C.
  erewrite bind_ok by exact E.
  match type of E with _ = (_, ?l1) =>
    destruct (log_persist_run l1 w bs es (pm_evs (l_pm l))) as (es' & ls & Hls & Hd & Ep) end;
    [|done|lia|lia|done|].
  { unfold l_write_offset. simpl. apply rd64_wr_out. unfold off_write_offset. lia. }
  exists es', ls. split; [done|]. split; [done|]. erewrite bind_ok by exact Ep.
  unfold util_rwlock_unlock, appended. simpl. fold w. destruct l. simpl in *. by subst.
Qed.

(** When the guards fail nothing changes. *)
Lemma appendv_fail l iov iovcnt bs : log_inv l → 0 ≤ iovcnt → concat (take (Z.to_nat iovcnt) iov) = bs →
  len bs < 2 ^ 64 → append_result l (len bs) ≠ Ok tt →
  pmemlog_appendv F iov iovcnt l = (append_result l (len bs), l).
Proof.
  intros [(Hst & Hen & Hwr) Hsz Hlk] Hcnt Hbs Hlt. unfold append_result. intros Hres.
  set (w := l_write_offset l) in *. change (8192 ≤ w ≤ l_size l) in Hwr.
  unfold pmemlog_appendv. rewrite (proj2 (Z.ltb_ge _ _)) by done.
  erewrite bind_ok by reflexivity. destruct (l_rdonly l) eqn:Hro; [done|].
  erewrite bind_ok by (unfold os_rwlock_wrlock; by rewrite Hlk).
  erewrite bind_ok by reflexivity. cbv zeta.
  change (l_end_offset (l_set_rwlock wrlocked l)) with (l_end_offset l).
  change (l_write_offset (l_set_rwlock wrlocked l)) with w.
  change (rd64 (pm_mem (l_pm l)) off_end_offset) with (l_end_offset l) in Hen. rewrite Hen.
  assert (l_set_rwlock unlocked (l_set_rwlock wrlocked l) = l) as Hl by (destruct l; simpl in *; by subst).
  destruct (Z.leb_spec (l_size l) w).
  - erewrite bind_ok by reflexivity. unfold fail. by rewrite Hl.
  - rewrite u64_id by lia. rewrite iov_count_eq by (by rewrite Hbs). rewrite Hbs.
    destruct (l_size l - w <? len bs); [|done].
    erewrite bind_ok by reflexivity. unfold fail. by rewrite Hl.
Qed.

(** [pmemlog_append] is [pmemlog_appendv] of one buffer. *)
Lemma append_appendv l buf : len buf < 2 ^ 64 →
  pmemlog_append F buf l = pmemlog_appendv F [buf] 1 l.
Proof.
  intros Hlt. unfold pmemlog_append, pmemlog_appendv. cbv zeta. change (take (Z.to_nat 1) [buf]) with [buf].
  change (iov_count [buf]) with (u64 (0 + len buf)). rewrite Z.add_0_l, u64_id by lia.
  cbn [Z.ltb Z.compare copy_iov]. unfold mbind, M_bind, gets, mret, M_ret.
  repeat case_match; simplify_eq; done.
Qed.
End append.

(** ** The bytes of the log *)

(** Only the descriptor and the bytes before the write offset matter. *)
Lemma media_ext size m x : media_log size m →
  (∀ a, 4096 ≤ a < rd64 m off_write_offset → rd x a = rd m a) →
  media_log size x ∧ media_bytes x = media_bytes m.
Proof.
  intros (H1 & H2 & H3) Hx.
  assert (∀ off, 4096 ≤ off → off + 8 ≤ 8192 → rd64 x off = rd64 m off) as Hr.
  { intros off ??. apply rd64_ext. intros a Ha. apply Hx. lia. }
  unfold off_start_offset, off_end_offset, off_write_offset in *.
  unfold media_log, media_bytes, off_start_offset, off_end_offset, off_write_offset.
  rewrite !Hr by lia. split; [done|]. apply rdn_ext. intros a Ha. apply Hx. lia.
Qed.

Lemma media_move size m w : media_log size m → 8192 ≤ w ≤ size → size < 2 ^ 63 →
  let m' := wr m off_write_offset (le_bytes 8 w) in
  media_log size m' ∧ media_bytes m' = rdn m 8192 (Z.to_nat (w - 8192)).
Proof.
  intros (H1 & H2 & H3) Hw Hs m'.
  assert (rd64 m' off_write_offset = w) as Hrd.
  { unfold m'. etransitivity; [apply (rd64_wr64 m off_write_offset w)|]. apply u64_id. lia. }
  unfold media_log, media_bytes. rewrite Hrd. unfold m', off_start_offset, off_end_offset, off_write_offset in *.
  split.
  - rewrite !rd64_wr_out by (rewrite length_le_bytes; lia). done.
  - apply rdn_wr_out. rewrite length_le_bytes. lia.
Qed.

Lemma media_appended size m bs : media_log size m → size < 2 ^ 63 → Forall is_byte bs →
  let w := rd64 m off_write_offset in w + len bs ≤ size →
  let m' := wr (wr m w bs) off_write_offset (le_bytes 8 (w + len bs)) in
  media_log size m' ∧ media_bytes m' = media_bytes m ++ bs.
Proof.
  intros Hm Hs Hb w Hfit m'. pose proof Hm as (H1 & H2 & H3). fold w in H3.
  destruct (media_ext size m (wr m w bs) Hm) as [Hm1 _].
  { intros a Ha. apply rd_wr_out. fold w in Ha. lia. }
  destruct (media_move size (wr m w bs) (w + len bs) Hm1 ltac:(lia) Hs) as [Hm2 Hb2].
  split; [exact Hm2|]. etransitivity; [exact Hb2|]. unfold media_bytes. fold w.
  replace (Z.to_nat (w + len bs - 8192)) with (Z.to_nat (w - 8192) + length bs)%nat by lia.
  rewrite rdn_app. f_equal; [apply rdn_wr_out; lia|].
  replace (8192 + Z.of_nat (Z.to_nat (w - 8192))) with w by lia. by apply rdn_wr_same.
Qed.

(** The store of the write offset is a single word: it happens or it does not. *)
Lemma meta_crash m w ls x : covers_meta ls → crash m (meta_events w ls) x →
  mem_eq x m ∨ mem_eq x (wr m off_write_offset (le_bytes 8 w)).
Proof.
  intros Hls Hc.
  apply (crash_ws [(off_write_offset, le_bytes 8 w)]) in Hc.
  2: { apply (dws_snoc [] []); [constructor|]. constructor. by rewrite length_le_bytes. }
  apply ws_crash_cons in Hc as [Hc|[Ht|Hc%ws_crash_nil]]; [by left| |by right].
  destruct (Ht (off_write_offset / 8)) as [Hold|Hnew]; [left|right]; intros a.
  - destruct (decide (a / 8 = off_write_offset / 8)) as [E|Hne]; [by apply Hold|].
    destruct (Ht (a / 8)) as [H|H]; rewrite (H a eq_refl); [done|]. apply rd_wr_out.
    rewrite length_le_bytes. intros Hr. apply Hne. unfold off_write_offset in *.
    change (4112 / 8) with 514. symmetry. apply (Z.div_unique a 8 514 (a - 4112)); lia.
  - destruct (decide (a / 8 = off_write_offset / 8)) as [E|Hne]; [by apply Hnew|].
    destruct (Ht (a / 8)) as [H|H]; rewrite (H a eq_refl); [|done]. symmetry. apply rd_wr_out.
    rewrite length_le_bytes. intros Hr. apply Hne. unfold off_write_offset in *.
    change (4112 / 8) with 514. symmetry. apply (Z.div_unique a 8 514 (a - 4112)); lia.
Qed.

Lemma append_crash_cases m w bs es ls x : data_events w bs es → covers_meta ls →
  crash m (es ++ meta_events (w + len bs) ls) x →
  (∀ a, a < w → rd x a = rd m a) ∨
  mem_eq x (wr (wr m w bs) off_write_offset (le_bytes 8 (w + len bs))).
Proof.
  intros [R U S] Hls (k & Hk & Hc). destruct (decide (k ≤ length es)%nat) as [Hle|Hgt].
  - left. intros a Ha. rewrite take_app_le in Hc by lia.
    apply (crash_untouched _ _ _ _ Hc). apply untouched_take, U. lia.
  - rewrite take_app_ge in Hc by lia. apply crash_at_settled in Hc; [|done]. rewrite R in Hc.
    destruct (meta_crash (wr m w bs) (w + len bs) ls x Hls) as [He|He]; [|left|by right].
    + exists (k - length es)%nat. rewrite length_app in Hk. split; [lia|done].
    + intros a Ha. rewrite He. apply rd_wr_out. lia.
Qed.

Lemma meta_settled m w ls : covers_meta ls → settled m (meta_events w ls).
Proof.
  intros Hls. eapply durable_write_settled. apply dw_flushed. by rewrite length_le_bytes.
Qed.

(** ** Operations on an open pool *)

Section ops.
Context (env : pmem_env) (Henv : flushing_env env).
Local Abbreviation F := (pmem_init_funcs env).
Implicit Types (l : pmemlog).

Definition opened_log (rep : log_replica) : pmemlog :=
  Pmemlog (lr_pm rep) (lr_repsize rep) (lr_is_pmem rep) (lr_rdonly rep) unlocked.

Lemma log_open_run rep err l : media_log (lr_repsize rep) (pm_mem (lr_pm rep)) →
  lr_nreplicas rep = 1 → pmemlog_open (Some rep) err true 0 l = (Ok tt, opened_log rep).
Proof.
  intros (H1 & H2 & H3) Hn. unfold pmemlog_open, log_open_common, log_descr_check.
  erewrite bind_ok by reflexivity. rewrite Hn. cbn [Z.ltb Z.compare Pos.compare Pos.compare_cont].
  rewrite (bind_ok _ _ _ tt (log_map_pool rep l)); [reflexivity|]. erewrite bind_ok by reflexivity.
  unfold l_start_offset, l_end_offset, l_write_offset. simpl. rewrite H1, H2.
  change (roundup sizeof_pmemlog LOG_FORMAT_DATA_ALIGN) with 8192.
  rewrite !Z.eqb_refl, !(proj2 (Z.ltb_ge _ _)) by lia. done.
Qed.

Lemma appended_inv l bs es : log_inv l → Forall is_byte bs → append_result l (len bs) = Ok tt →
  log_inv (appended l bs es) ∧ log_view (appended l bs es) = log_view l ++ bs.
Proof.
  intros [Hm Hs Hlk] Hb Hres. unfold append_result in Hres.
  assert (l_write_offset l + len bs ≤ l_size l) as Hfit.
  { destruct (l_rdonly l); [done|].
    destruct (Z.leb_spec (l_size l) (l_write_offset l)); [done|].
    destruct (Z.ltb_spec (l_size l - l_write_offset l) (len bs)); [done|]. lia. }
  destruct (media_appended _ _ bs Hm Hs Hb Hfit) as [Hm' Hv']. by split.
Qed.

Lemma appendv_spec l iov iovcnt : log_inv l → 0 ≤ iovcnt →
  let bs := concat (take (Z.to_nat iovcnt) iov) in len bs < 2 ^ 64 → Forall is_byte bs →
  ∃ l', pmemlog_appendv F iov iovcnt l = (append_result l (len bs), l') ∧ log_inv l' ∧
    log_view l' = match append_result l (len bs) with Ok _ => log_view l ++ bs | _ => log_view l end.
Proof using Henv.
  intros Hi Hc bs Hlt Hb. destruct (decide (append_result l (len bs) = Ok tt)) as [Hr|Hr].
  - destruct (appendv_ok env Henv l iov iovcnt bs Hi Hc eq_refl Hr) as (es & ls & _ & _ & E).
    rewrite Hr. eexists. split; [exact E|]. by apply appended_inv.
  - exists l. rewrite (appendv_fail env l iov iovcnt bs) by done. split; [done|]. split; [done|].
    by destruct (append_result l (len bs)) as [[]| |].
Qed.

(** A pool set with [x] on the media. *)
Definition log_on_media l (x : mem) (rep : log_replica) : Prop :=
  pm_mem (lr_pm rep) = x ∧ lr_repsize rep = l_size l ∧ lr_nreplicas rep = 1.

Lemma reopened_log l x rep err l0 : media_log (l_size l) x → l_size l < 2 ^ 63 →
  log_on_media l x rep →
  pmemlog_open (Some rep) err true 0 l0 = (Ok tt, opened_log rep) ∧ log_inv (opened_log rep) ∧
  log_view (opened_log rep) = media_bytes x.
Proof.
  intros Hm Hs (Hx & Hr & Hn). rewrite <- Hx, <- Hr in Hm. split; [by apply log_open_run|].
  split; [split; [done|simpl; lia|done]|]. unfold log_view. simpl. by rewrite Hx.
Qed.

Lemma media_mem_eq size m x : media_log size m → mem_eq x m →
  media_log size x ∧ media_bytes x = media_bytes m.
Proof. intros Hm He. apply media_ext; [done|]. intros a _. apply He. Qed.

Lemma appendv_crash m0 l iov iovcnt r l' j x rep err l0 :
  let bs := concat (take (Z.to_nat iovcnt) iov) in
  log_inv l → persisted m0 (l_pm l) → 0 ≤ iovcnt → len bs < 2 ^ 64 → Forall is_byte bs →
  pmemlog_appendv F iov iovcnt l = (r, l') →
  (length (pm_evs (l_pm l)) ≤ j ≤ length (pm_evs (l_pm l')))%nat →
  crash_at m0 (take j (pm_evs (l_pm l'))) x → log_on_media l x rep →
  ∃ l1, pmemlog_open (Some rep) err true 0 l0 = (Ok tt, l1) ∧ log_inv l1 ∧
    (log_view l1 = log_view l ∨ log_view l1 = log_view l ++ bs) ∧
    (j = length (pm_evs (l_pm l')) → log_view l1 = log_view l').
Proof using Henv.
  intros bs Hi [Hr Hs] Hc Hlt Hb Hrun Hj Hx Hom. pose proof Hi as [Hm Hsz _].
  exists (opened_log rep).
  assert (∀ y, media_log (l_size l) x ∧ media_bytes x = y →
    pmemlog_open (Some rep) err true 0 l0 = (Ok tt, opened_log rep) ∧ log_inv (opened_log rep) ∧
    log_view (opened_log rep) = y) as Hopen.
  { intros y [Hmx <-]. by apply reopened_log with l. }
  destruct (decide (append_result l (len bs) = Ok tt)) as [Hres|Hres].
  - destruct (appendv_ok env Henv l iov iovcnt bs Hi Hc eq_refl Hres) as (es & ls & Hls & Hd & E).
    rewrite E in Hrun. injection Hrun as <- <-.
    destruct (appended_inv l bs (es ++ meta_events (l_write_offset l + len bs) ls) Hi Hb Hres) as [Hi' Hv'].
    cbn [appended l_set_pm l_pm pm_evs] in Hj, Hx.
    pose proof (crash_settled _ _ _ _ _ Hs Hj Hx) as Hcr. rewrite Hr in Hcr.
    destruct (append_crash_cases _ _ _ _ _ _ Hd Hls Hcr) as [Hold|Hnew].
    + destruct (Hopen (log_view l)) as (Ho & Hi1 & Hv1).
      { apply media_ext; [done|]. intros a Ha. apply Hold, Ha. }
      split; [done|]. split; [done|]. split; [by left|]. intros ->.
      rewrite firstn_all in Hx. apply crash_at_settled in Hx; [|done]. rewrite Hr in Hx.
      assert (settled (pm_mem (l_pm l)) (es ++ meta_events (l_write_offset l + len bs) ls)) as Hst.
      { apply settled_app; [apply Hd|by apply meta_settled]. }
      apply Hst in Hx. rewrite replay_app, (de_replay _ _ _ Hd) in Hx. simpl in Hx.
      destruct (media_mem_eq _ _ x (li_media _ Hi') Hx) as [_ Hxv]. rewrite Hv1.
      etransitivity; [|exact Hxv]. unfold log_view. symmetry.
      refine (proj2 (media_ext (l_size l) _ x Hm _)). intros a Ha. apply Hold, Ha.
    + destruct (Hopen (log_view l ++ bs)) as (Ho & Hi1 & Hv1).
      { destruct (media_mem_eq _ _ x (li_media _ Hi') Hnew) as [H1 H2]. split; [exact H1|].
        etransitivity; [exact H2|exact Hv']. }
      split; [done|]. split; [done|]. split; [by right|]. intros _. by rewrite Hv1, Hv'.
  - rewrite (appendv_fail env l iov iovcnt bs) in Hrun by done. injection Hrun as <- <-.
    assert (take j (pm_evs (l_pm l)) = pm_evs (l_pm l)) as Htk by (apply take_ge; lia).
    rewrite Htk in Hx. apply Hs in Hx. rewrite Hr in Hx.
    destruct (Hopen (log_view l)) as (Ho & Hi1 & Hv1); [by apply media_mem_eq|].
    split; [done|]. split; [done|]. split; [by left|done].
Qed.
End ops.
