(* ===== verification/LogTheorems.v ===== *)
(** * What libpmemlog guarantees

    Creation, rewinding and walking, and the theorems on the log with the pool
    on which they are exercised. *)

From stdpp Require Import base gmap list numbers.
From S2P Require Import Prelude Memory Pmem Util Log LogSpec.
Local Open Scope Z_scope.

(** ** Walking in chunks *)

(** The log cut in pieces of [n] bytes, the last one possibly shorter. *)
Fixpoint chunk_list (fuel n : nat) (bs : list Z) : list (list Z) :=
  match fuel, bs with
  | S fuel, _ :: _ => take n bs :: chunk_list fuel n (drop n bs)
  | _, _ => []
  end.

Fixpoint walk_chunks {A} (process_chunk : list Z → A → bool * A) (cs : list (list Z)) (arg : A) : A :=
  match cs with
  | [] => arg
  | c :: cs =>
      let '(continue, arg) := process_chunk c arg in
      if (continue : bool) then walk_chunks process_chunk cs arg else arg
  end.

Lemma concat_chunk_list n : (0 < n)%nat → ∀ fuel bs, (length bs ≤ fuel)%nat →
  concat (chunk_list fuel n bs) = bs.
Proof.
  intros Hn. induction fuel as [|fuel IH]; intros bs Hf; [by destruct bs; [|simpl in Hf; lia]|].
  destruct bs as [|b bs]; [done|]. simpl. rewrite IH.
  - apply take_drop.
  - rewrite length_drop. simpl in *. lia.
Qed.

Lemma chunk_list_le n fuel bs : Forall (λ c, (0 < length c ≤ n)%nat ∨ n = 0%nat) (chunk_list fuel n bs).
Proof.
  revert bs. induction fuel as [|fuel IH]; intros bs; [constructor|].
  destruct bs as [|b bs]; [constructor|]. simpl. constructor; [|apply IH].
  destruct n; [by right|left]. simpl. rewrite length_take. lia.
Qed.

Lemma chunk_list_fuel n : (0 < n)%nat → ∀ fuel fuel' bs, (length bs ≤ fuel)%nat → (length bs ≤ fuel')%nat →
  chunk_list fuel n bs = chunk_list fuel' n bs.
Proof.
  intros Hn. induction fuel as [|fuel IH]; intros fuel' bs Hf Hf'.
  - destruct bs; [|simpl in Hf; lia]. by destruct fuel'.
  - destruct bs as [|b bs]; [by destruct fuel'|]. destruct fuel' as [|fuel']; [simpl in Hf'; lia|].
    simpl. f_equal. simpl in *. apply IH; rewrite length_drop; simpl; lia.
Qed.

Lemma take_rdn m off n k : take k (rdn m off n) = rdn m off (min k n).
Proof.
  destruct (decide (k ≤ n)%nat).
  - rewrite Nat.min_l by done. replace n with (k + (n - k))%nat by lia. rewrite rdn_app.
    apply take_app_length'. by rewrite length_rdn.
  - rewrite Nat.min_r by lia. apply take_ge. rewrite length_rdn. lia.
Qed.

Lemma drop_rdn m off n k : drop k (rdn m off n) = rdn m (off + Z.of_nat k) (n - k).
Proof.
  destruct (decide (k ≤ n)%nat).
  - replace n with (k + (n - k))%nat at 1 by lia. rewrite rdn_app. apply drop_app_length'.
    by rewrite length_rdn.
  - rewrite drop_ge by (rewrite length_rdn; lia). by replace (n - k)%nat with 0%nat by lia.
Qed.

Section walk.
Context {A : Type} (process_chunk : list Z → A → bool * A).

Lemma walk_loop_chunks m cs w : 1 ≤ cs → w + cs < 2 ^ 64 → ∀ fuel off arg,
  0 ≤ off → w - off < Z.of_nat fuel →
  walk_loop process_chunk fuel m cs w off arg =
  Some (walk_chunks process_chunk
          (chunk_list fuel (Z.to_nat cs) (rdn m off (Z.to_nat (w - off)))) arg).
Proof.
  intros Hcs Hlt. induction fuel as [|fuel IH]; intros off arg Hoff Hf; simpl.
  - by rewrite (proj2 (Z.ltb_ge _ _)) by lia.
  - destruct (Z.ltb_spec off w) as [Hl|Hge].
    + destruct (rdn m off (Z.to_nat (w - off))) as [|b bs] eqn:Eb.
      { apply (f_equal length) in Eb. rewrite length_rdn in Eb. simpl in Eb. lia. }
      rewrite <- Eb, take_rdn. cbn [walk_chunks].
      replace (Z.to_nat (Z.min cs (w - off))) with (min (Z.to_nat cs) (Z.to_nat (w - off))) by lia.
      destruct (process_chunk _ arg) as [[] arg']; [|done].
      rewrite u64_id by lia. rewrite IH by lia. f_equal. f_equal. f_equal.
      rewrite drop_rdn. f_equal; lia.
    + replace (Z.to_nat (w - off)) with 0%nat by lia. done.
Qed.
End walk.

Section log.
Context (env : pmem_env) (Henv : flushing_env env).
Local Abbreviation F := (pmem_init_funcs env).
Implicit Types (l : pmemlog).

(** ** Rewinding and creating *)

Lemma rewind_run l : log_inv l → l_rdonly l = false → ∃ ls, covers_meta ls ∧
  pmemlog_rewind F l =
  (Ok tt, l_set_pm (Pmem (wr (pm_mem (l_pm l)) off_write_offset (le_bytes 8 8192))
            (pm_evs (l_pm l) ++ meta_events 8192 ls)) l).
Proof using Henv.
  intros [(Hst & _) _ Hlk] Hro.
  destruct (persist_meta env Henv (l_is_pmem l) (l_pm l) 8192) as (ls & Hls & E). exists ls. split; [done|].
  unfold pmemlog_rewind. erewrite bind_ok by reflexivity. rewrite Hro.
  erewrite bind_ok by (unfold os_rwlock_wrlock; by rewrite Hlk).
  erewrite bind_ok by reflexivity. erewrite bind_ok by reflexivity. erewrite bind_ok by reflexivity.
  erewrite bind_ok by reflexivity. unfold l_start_offset. cbn [l_pm l_set_pm l_set_rwlock l_is_pmem].
  rewrite Hst, E. unfold util_rwlock_unlock. simpl. destruct l. simpl in *. by subst.
Qed.

Lemma rewound_media l : log_inv l →
  let m' := wr (pm_mem (l_pm l)) off_write_offset (le_bytes 8 8192) in
  media_log (l_size l) m' ∧ media_bytes m' = [].
Proof.
  intros [Hm Hs _]. pose proof Hm as (_ & _ & H3). by apply (media_move (l_size l)); [done|lia|].
Qed.

Lemma create_media m size : 8192 ≤ size < 2 ^ 63 →
  let m' := wr (wr (wr m off_start_offset (le_bytes 8 8192)) off_end_offset (le_bytes 8 size))
              off_write_offset (le_bytes 8 8192) in
  media_log size m' ∧ media_bytes m' = [].
Proof.
  intros Hs m'.
  assert (rd64 m' off_start_offset = 8192) as H1.
  { unfold m', off_start_offset, off_end_offset, off_write_offset.
    rewrite !rd64_wr_out by (rewrite length_le_bytes; lia). apply (rd64_wr64 m 4096 8192). }
  assert (rd64 m' off_end_offset = size) as H2.
  { unfold m'. rewrite rd64_wr_out by (rewrite length_le_bytes; unfold off_end_offset, off_write_offset; lia).
    etransitivity; [apply (rd64_wr64 _ off_end_offset size)|]. apply u64_id. lia. }
  assert (rd64 m' off_write_offset = 8192) as H3 by (apply (rd64_wr64 _ off_write_offset 8192)).
  unfold media_log, media_bytes. rewrite H1, H2, H3. split; [lia|done].
Qed.

(** The pool after [pmemlog_create]. *)
Lemma log_create_run rep err l : 8192 ≤ lr_repsize rep < 2 ^ 63 → lr_chmod_ok rep = true →
  ∃ p, pmemlog_create F (Some rep) err true 0 l =
      (Ok tt, Pmemlog p (lr_repsize rep) (lr_is_pmem rep) false unlocked) ∧
    media_log (lr_repsize rep) (pm_mem p) ∧ media_bytes (pm_mem p) = [] ∧
    ∀ m0, persisted m0 (lr_pm rep) → persisted m0 p.
Proof using Henv.
  intros Hs Hch. set (m := pm_mem (lr_pm rep)).
  set (m' := wr (wr (wr m off_start_offset (le_bytes 8 8192)) off_end_offset (le_bytes 8 (lr_repsize rep)))
               off_write_offset (le_bytes 8 8192)).
  set (st := [EvStore off_start_offset (le_bytes 8 8192); EvStore off_end_offset (le_bytes 8 (lr_repsize rep));
              EvStore off_write_offset (le_bytes 8 8192)]).
  assert (∃ ls, (∀ a, 4096 ≤ a < 4120 → a / 64 ∈ ls) ∧ ∀ evs,
    util_persist F (lr_is_pmem rep) (Pmem m' (evs ++ st)) off_start_offset 24 =
    Pmem m' (evs ++ st ++ [EvFlush ls; EvDrain])) as (ls & Hls & E).
  { destruct (lr_is_pmem rep); simpl.
    - exists (flush_nolog off_start_offset 24). split; [intros; by apply flush_nolog_covers|].
      intros evs. rewrite persist_events by done. unfold emit. simpl. by rewrite <- (assoc_L (++)).
    - eexists. split; [|intros evs; unfold pmem_msync, emit; simpl; by rewrite <- (assoc_L (++))].
      intros a Ha. by apply (msync_covers off_start_offset 24). }
  exists (Pmem m' (pm_evs (lr_pm rep) ++ st ++ [EvFlush ls; EvDrain])).
  destruct (create_media m (lr_repsize rep) Hs) as [Hm Hv]. fold m' in Hm, Hv.
  split; [|split; [exact Hm|]; split; [exact Hv|]].
  - unfold pmemlog_create. erewrite bind_ok by reflexivity.
    erewrite (bind_ok (log_descr_create _ _)).
    2: { unfold log_descr_create. erewrite bind_ok by reflexivity. erewrite bind_ok by reflexivity.
         erewrite bind_ok by reflexivity. erewrite bind_ok by reflexivity. erewrite bind_ok by reflexivity.
         unfold on_pm, modify. cbn [l_pm l_set_pm log_map_pool l_is_pmem].
         unfold l_start_offset, pm_store. cbn [pm_mem pm_evs l_pm l_set_pm log_map_pool].
         change (roundup sizeof_pmemlog LOG_FORMAT_DATA_ALIGN) with 8192. fold m.
         rewrite rd64_wr_out by (rewrite length_le_bytes; unfold off_end_offset, off_start_offset; lia).
         change (wr m off_start_offset (le_bytes 8 8192)) with (wr64 m off_start_offset 8192).
         rewrite rd64_wr64, <- !(assoc_L (++)). change (u64 8192) with 8192. simpl.
         change (wr64 m off_start_offset 8192) with (wr m off_start_offset (le_bytes 8 8192)). fold m' st.
         rewrite (E (pm_evs (lr_pm rep))). reflexivity. }
    erewrite bind_ok by reflexivity. by rewrite Hch.
  - intros m0 [Hr Hst]. unfold persisted. cbn [pm_mem pm_evs]. split.
    + by rewrite replay_app, Hr.
    + apply settled_app; [done|]. apply settled_batch. intros a Ha. apply Hls.
      destruct (decide (4096 ≤ a < 4120)); [done|]. destruct Ha.
      intros o b. unfold st. rewrite !elem_of_cons, elem_of_nil.
      unfold off_start_offset, off_end_offset, off_write_offset.
      intros [[= -> ->]|[[= -> ->]|[[= -> ->]|[]]]]; rewrite length_le_bytes; lia.
Qed.

(** ** Theorems *)

(** C33: [pmemlog_appendv] appends the concatenation of its buffers to the log as a
    whole or, on a read-only pool ([EROFS]) or for lack of space ([ENOSPC]), not at all;
    a negative count is [EINVAL].  The lock is released on every path. *)
Theorem pmemlog_appendv_refines l iov iovcnt :
  let bs := concat (take (Z.to_nat iovcnt) iov) in
  log_inv l → len bs < 2 ^ 64 → Forall is_byte bs →
  if iovcnt <? 0 then pmemlog_appendv F iov iovcnt l = (Fail EINVAL, l)
  else ∃ l', pmemlog_appendv F iov iovcnt l = (append_result l (len bs), l') ∧ log_inv l' ∧
    log_view l' = match append_result l (len bs) with Ok _ => log_view l ++ bs | _ => log_view l end.
Proof using Henv.
  intros bs Hi Hlt Hb. destruct (Z.ltb_spec iovcnt 0) as [Hneg|Hpos].
  - unfold pmemlog_appendv. by rewrite (proj2 (Z.ltb_lt _ _)).
  - by apply appendv_spec.
Qed.

(** [pmemlog_append] behaves exactly as [pmemlog_appendv] of a single buffer. *)
Theorem pmemlog_append_equiv l buf : len buf < 2 ^ 64 →
  pmemlog_append F buf l = pmemlog_appendv F [buf] 1 l.
Proof. apply append_appendv. Qed.

(** C2: an append is atomic and durable.  Wherever a power failure strikes
    during [pmemlog_appendv], the pool opens and holds the old log or the old log
    followed by all the new data; after the call has returned it holds what the
    call left. *)
Theorem pmemlog_appendv_crash_atomic m0 l iov iovcnt r l' j x rep err l0 :
  let bs := concat (take (Z.to_nat iovcnt) iov) in
  log_inv l → persisted m0 (l_pm l) → 0 ≤ iovcnt → len bs < 2 ^ 64 → Forall is_byte bs →
  pmemlog_appendv F iov iovcnt l = (r, l') →
  (length (pm_evs (l_pm l)) ≤ j ≤ length (pm_evs (l_pm l')))%nat →
  crash_at m0 (take j (pm_evs (l_pm l'))) x → log_on_media l x rep →
  ∃ l1, pmemlog_open (Some rep) err true 0 l0 = (Ok tt, l1) ∧ log_inv l1 ∧
    (log_view l1 = log_view l ∨ log_view l1 = log_view l ++ bs) ∧
    (j = length (pm_evs (l_pm l')) → log_view l1 = log_view l').
Proof using Henv. by apply appendv_crash. Qed.

(** [pmemlog_rewind] empties the log, atomically with respect to power
    failures; on a read-only pool it sets [EROFS] and does nothing. *)
Theorem pmemlog_rewind_atomic m0 l r l' j x rep err l0 :
  log_inv l → persisted m0 (l_pm l) → pmemlog_rewind F l = (r, l') →
  (length (pm_evs (l_pm l)) ≤ j ≤ length (pm_evs (l_pm l')))%nat →
  crash_at m0 (take j (pm_evs (l_pm l'))) x → log_on_media l x rep →
  (if l_rdonly l then r = Fail EROFS ∧ l' = l else r = Ok tt ∧ log_inv l' ∧ log_view l' = []) ∧
  ∃ l1, pmemlog_open (Some rep) err true 0 l0 = (Ok tt, l1) ∧ log_inv l1 ∧
    (log_view l1 = log_view l ∨ log_view l1 = []).
Proof using Henv.
  intros Hi [Hr Hs] Hrun Hj Hx Hom. pose proof Hi as [Hm Hsz Hlk]. destruct (l_rdonly l) eqn:Hro.
  - unfold pmemlog_rewind in Hrun. erewrite bind_ok in Hrun by reflexivity. rewrite Hro in Hrun.
    injection Hrun as <- <-. split; [done|]. rewrite take_ge in Hx by lia. apply Hs in Hx.
    rewrite Hr in Hx. destruct (media_mem_eq _ _ x Hm Hx) as [Hmx Hbx].
    destruct (reopened_log l x rep err l0 Hmx Hsz Hom) as (E & Hi1 & Hv1). rewrite Hbx in Hv1. eauto.
  - destruct (rewind_run l Hi Hro) as (ls & Hls & E). rewrite E in Hrun. injection Hrun as <- <-.
    destruct (rewound_media l Hi) as [Hm' Hb']. split; [split_and!; [done|by split|done]|].
    cbn [l_set_pm l_pm pm_evs] in Hj, Hx. pose proof (crash_settled _ _ _ _ _ Hs Hj Hx) as Hcr.
    rewrite Hr in Hcr. destruct (meta_crash _ _ _ _ Hls Hcr) as [He|He].
    + destruct (media_mem_eq _ _ x Hm He) as [Hmx Hbx].
      destruct (reopened_log l x rep err l0 Hmx Hsz Hom) as (E1 & Hi1 & Hv1). rewrite Hbx in Hv1. eauto.
    + destruct (media_mem_eq _ _ x Hm' He) as [Hmx Hbx].
      destruct (reopened_log l x rep err l0 Hmx Hsz Hom) as (E1 & Hi1 & Hv1).
      rewrite Hbx, Hb' in Hv1. eauto.
Qed.

(** [pmemlog_walk] hands the log to the walker: in one piece when the chunk
    size is 0, otherwise in consecutive chunks of that size, the last one possibly
    shorter, until the walker returns 0.  The walk terminates and changes nothing. *)
Theorem pmemlog_walk_chunks {A} (process_chunk : list Z → A → bool * A) l chunksize arg :
  log_inv l → 0 ≤ chunksize → chunksize + l_write_offset l < 2 ^ 64 →
  ∃ cs, pmemlog_walk process_chunk chunksize arg l = (Ok (walk_chunks process_chunk cs arg), l) ∧
    concat cs = log_view l ∧
    (0 < chunksize → Forall (λ c, 0 < len c ≤ chunksize) cs) ∧
    (chunksize = 0 → cs = [log_view l]).
Proof.
  intros [Hm Hsz Hlk] Hcs Hlt. pose proof Hm as (H1 & H2 & H3).
  assert (l_set_rwlock unlocked (l_set_rwlock rdlocked l) = l) as Hl by (destruct l; simpl in *; by subst).
  assert (l_start_offset l = 8192) as Hst by exact H1.
  assert (8192 ≤ l_write_offset l ≤ l_size l) as Hwr by exact H3.
  exists (if chunksize =? 0 then [log_view l]
          else chunk_list (S (Z.to_nat (l_write_offset l))) (Z.to_nat chunksize) (log_view l)).
  unfold pmemlog_walk. erewrite bind_ok by (unfold os_rwlock_rdlock; by rewrite Hlk).
  erewrite bind_ok by reflexivity. cbv zeta.
  change (l_start_offset (l_set_rwlock rdlocked l)) with (l_start_offset l).
  change (l_write_offset (l_set_rwlock rdlocked l)) with (l_write_offset l).
  change (l_pm (l_set_rwlock rdlocked l)) with (l_pm l). rewrite Hst.
  destruct (Z.eqb_spec chunksize 0) as [->|Hne].
  - rewrite u64_id by lia. split_and!; [|apply app_nil_r|lia|done].
    erewrite bind_ok by reflexivity. erewrite bind_ok by reflexivity. simpl. rewrite Hl.
    unfold log_view, media_bytes. change (rd64 (pm_mem (l_pm l)) off_write_offset) with (l_write_offset l).
    by destruct (process_chunk _ arg) as [[] ?].
  - rewrite walk_loop_chunks by lia.
    change (rdn (pm_mem (l_pm l)) 8192 (Z.to_nat (l_write_offset l - 8192))) with (log_view l).
    split_and!; [| | |lia].
    + erewrite bind_ok by reflexivity. erewrite bind_ok by reflexivity. by rewrite Hl.
    + apply concat_chunk_list; [lia|]. unfold log_view, media_bytes. rewrite length_rdn.
      change (rd64 (pm_mem (l_pm l)) off_write_offset) with (l_write_offset l). lia.
    + intros _. eapply Forall_impl; [|apply chunk_list_le]. simpl. intros c. lia.
Qed.

(** a log just created is empty, has all of the pool behind the descriptor to
    store data in, is on the media when the call returns, and passes [pmemlog_check]. *)
Theorem pmemlog_create_empty rep err l : 8192 ≤ lr_repsize rep < 2 ^ 63 → lr_chmod_ok rep = true →
  ∃ l', pmemlog_create F (Some rep) err true 0 l = (Ok tt, l') ∧ log_inv l' ∧ log_view l' = [] ∧
    pmemlog_tell l' = (Ok 0, l') ∧ pmemlog_nbyte l' = (Ok (lr_repsize rep - 8192), l') ∧
    (∀ m0, persisted m0 (lr_pm rep) → persisted m0 (l_pm l')) ∧
    ∀ x rep' l0, mem_eq x (pm_mem (l_pm l')) → log_on_media l' x rep' →
      (pmemlog_check (Some rep') err true 0 l0).1 = Ok true.
Proof using Henv.
  intros Hs Hch. destruct (log_create_run rep err l Hs Hch) as (p & E & Hm & Hv & Hp).
  eexists. split; [exact E|]. pose proof Hm as (H1 & H2 & H3).
  assert (rd64 (pm_mem p) off_write_offset = 8192) as H4.
  { apply (f_equal length) in Hv. unfold media_bytes in Hv. rewrite length_rdn in Hv. simpl in Hv. lia. }
  split_and!; [by split; [|simpl; lia|]|done| | |done|].
  - unfold pmemlog_tell, mbind, M_bind, gets, os_rwlock_rdlock, util_rwlock_unlock,
      l_write_offset, l_start_offset. simpl. by rewrite H1, H4.
  - unfold pmemlog_nbyte, mbind, M_bind, gets, os_rwlock_rdlock, util_rwlock_unlock,
      l_end_offset, l_start_offset. simpl. rewrite H1, H2, u64_id by lia. done.
  - intros x rep' l0 Hx Hom. destruct (media_mem_eq _ _ x Hm Hx) as [Hmx _].
    pose proof Hom as (Hx' & Hr' & Hn'). simpl in Hr'. rewrite <- Hx', <- Hr' in Hmx.
    unfold pmemlog_check. pose proof (log_open_run rep' err l0 Hmx Hn') as Ho.
    unfold pmemlog_open in Ho. erewrite bind_ok by exact Ho.
    erewrite bind_ok by reflexivity. cbv zeta. erewrite bind_ok by reflexivity.
    destruct Hmx as (G1 & G2 & G3). unfold l_start_offset, l_end_offset, l_write_offset. simpl.
    rewrite G1, G2. change (roundup sizeof_pmemlog LOG_FORMAT_DATA_ALIGN) with 8192.
    rewrite !Z.eqb_refl, !(proj2 (Z.ltb_ge _ _)) by lia. done.
Qed.
End log.

(** ** A concrete log *)

Definition log_rep (p : pmem) : log_replica := LogReplica p (2 ^ 21) true 1 false true.
Definition log_idle : pmemlog := Pmemlog (Pmem ∅ []) 0 false false unlocked.
Local Abbreviation F := (pmem_init_funcs default_env).

(** A new 2 MiB pool to which three bytes were appended. *)
Definition ex_log : pmemlog :=
  (pmemlog_append F [1; 2; 3] (pmemlog_create F (Some (log_rep (Pmem ∅ []))) 0 true 0 log_idle).2).2.

Lemma log_env : flushing_env default_env.
Proof. repeat split; discriminate. Qed.

Lemma ex_log_inv : log_inv ex_log.
Proof.
  assert (rd64 (pm_mem (l_pm ex_log)) off_start_offset = 8192) as H1 by (vm_compute; reflexivity).
  assert (rd64 (pm_mem (l_pm ex_log)) off_end_offset = 2 ^ 21) as H2 by (vm_compute; reflexivity).
  assert (rd64 (pm_mem (l_pm ex_log)) off_write_offset = 8195) as H3 by (vm_compute; reflexivity).
  split; [|vm_compute; reflexivity|vm_compute; reflexivity].
  replace (l_size ex_log) with (2 ^ 21) by (vm_compute; reflexivity).
  unfold media_log. rewrite H1, H2, H3. lia.
Qed.

Lemma ex_log_view : log_view ex_log = [1; 2; 3].
Proof. vm_compute. reflexivity. Qed.

Lemma small_bytes bs : forallb (λ b, (0 <=? b) && (b <? 256)) bs = true → Forall is_byte bs.
Proof.
  induction bs as [|b bs IH]; simpl; [constructor|].
  intros [[H1 H2]%andb_true_iff H3]%andb_true_iff. constructor; [|auto]. unfold is_byte. lia.
Qed.

(** The pool with its trace starting now. *)
Definition no_log_events (l : pmemlog) : pmemlog := l_set_pm (Pmem (pm_mem (l_pm l)) []) l.

Lemma no_log_events_inv l : log_inv l → log_inv (no_log_events l).
Proof. intros [Hm Hs Hl]. by split. Qed.

Lemma no_log_events_persisted l : persisted (pm_mem (l_pm l)) (l_pm (no_log_events l)).
Proof. split; [done|apply settled_nil]. Qed.

Definition ex_log0 : pmemlog := no_log_events ex_log.

Lemma ex_log0_inv : log_inv ex_log0.
Proof. apply no_log_events_inv, ex_log_inv. Qed.

Lemma no_log_events_view l : log_view (no_log_events l) = log_view l.
Proof. done. Qed.

Lemma ex_log0_view : log_view ex_log0 = [1; 2; 3].
Proof. unfold ex_log0. rewrite no_log_events_view. exact ex_log_view. Qed.

Lemma ex_log0_persisted : persisted (pm_mem (l_pm ex_log)) (l_pm ex_log0).
Proof. apply no_log_events_persisted. Qed.

Lemma pmemlog_appendv_refines_witness : ∃ l',
  pmemlog_appendv F [[4]; []; [5; 6]] 3 ex_log = (Ok tt, l') ∧ log_view l' = [1; 2; 3; 4; 5; 6].
Proof.
  destruct (pmemlog_appendv_refines default_env log_env ex_log [[4]; []; [5; 6]] 3)
    as (l' & E & _ & Hv).
  - exact ex_log_inv.
  - vm_compute. reflexivity.
  - apply small_bytes. reflexivity.
  - exists l'. split; [exact E|]. rewrite Hv, ex_log_view. reflexivity.
Defined.

Lemma pmemlog_append_equiv_witness :
  pmemlog_append F [9; 8] ex_log = pmemlog_appendv F [[9; 8]] 1 ex_log.
Proof. apply (pmemlog_append_equiv default_env ex_log [9; 8]). vm_compute. reflexivity. Defined.

(** The failure strikes when the call has returned. *)
Lemma pmemlog_appendv_crash_atomic_witness : ∃ x l1,
  pmemlog_open (Some (log_rep (Pmem x []))) 0 true 0 log_idle = (Ok tt, l1) ∧
  log_view l1 = [1; 2; 3; 4; 5; 6].
Proof.
  destruct (appendv_spec default_env log_env ex_log0 [[4]; [5; 6]] 2)
    as (l' & E & _ & Hv); [exact ex_log0_inv|lia|vm_compute; reflexivity|apply small_bytes; reflexivity|].
  change (concat (take (Z.to_nat 2) [[4]; [5; 6]])) with [4; 5; 6] in E, Hv.
  assert (append_result ex_log0 (len [4; 5; 6]) = Ok tt) as Hr by (vm_compute; reflexivity).
  rewrite Hr in E, Hv.
  set (m0 := pm_mem (l_pm ex_log)). exists (replay m0 (pm_evs (l_pm l'))).
  destruct (pmemlog_appendv_crash_atomic default_env log_env m0 ex_log0 [[4]; [5; 6]] 2 (Ok tt) l'
    (length (pm_evs (l_pm l'))) (replay m0 (pm_evs (l_pm l')))
    (log_rep (Pmem (replay m0 (pm_evs (l_pm l'))) [])) 0 log_idle
    ex_log0_inv ex_log0_persisted) as (l1 & E1 & _ & _ & Hd).
  - lia.
  - vm_compute. reflexivity.
  - apply small_bytes. reflexivity.
  - exact E.
  - simpl. lia.
  - rewrite firstn_all. apply crash_at_replay.
  - repeat split.
  - exists l1. split; [exact E1|]. rewrite (Hd eq_refl), Hv.
    rewrite ex_log0_view. reflexivity.
Defined.

Lemma pmemlog_rewind_atomic_witness : ∃ l', pmemlog_rewind F ex_log0 = (Ok tt, l') ∧ log_view l' = [].
Proof.
  destruct (pmemlog_rewind F ex_log0) as [r l'] eqn:E. exists l'.
  set (m0 := pm_mem (l_pm ex_log)).
  destruct (pmemlog_rewind_atomic default_env log_env m0 ex_log0 r l'
    (length (pm_evs (l_pm l'))) (replay m0 (pm_evs (l_pm l')))
    (log_rep (Pmem (replay m0 (pm_evs (l_pm l'))) [])) 0 log_idle
    ex_log0_inv ex_log0_persisted E) as [Hr _].
  - simpl. lia.
  - rewrite firstn_all. apply crash_at_replay.
  - repeat split.
  - assert (l_rdonly ex_log0 = false) as Hro by (vm_compute; reflexivity).
    rewrite Hro in Hr. destruct Hr as (-> & _ & Hv). split; [reflexivity|exact Hv].
Defined.

(** A walker that collects the chunks. *)
Definition collect (c : list Z) (acc : list (list Z)) : bool * list (list Z) := (true, acc ++ [c]).

Lemma pmemlog_walk_chunks_witness : ∃ cs,
  pmemlog_walk collect 2 [] ex_log = (Ok (walk_chunks collect cs []), ex_log) ∧ concat cs = [1; 2; 3].
Proof.
  destruct (pmemlog_walk_chunks collect ex_log 2 []) as (cs & E & Hc & _).
  - exact ex_log_inv.
  - lia.
  - replace (l_write_offset ex_log) with 8195 by (vm_compute; reflexivity). lia.
  - exists cs. split; [exact E|]. rewrite Hc. exact ex_log_view.
Defined.

Example walk_in_twos : (pmemlog_walk collect 2 [] ex_log).1 = Ok [[1; 2]; [3]].
Proof. vm_compute. reflexivity. Qed.

Lemma pmemlog_create_empty_witness : ∃ l',
  pmemlog_create F (Some (log_rep (Pmem ∅ []))) 0 true 0 log_idle = (Ok tt, l') ∧ log_view l' = [].
Proof.
  destruct (pmemlog_create_empty default_env log_env (log_rep (Pmem ∅ [])) 0 log_idle)
    as (l' & E & _ & Hv & _).
  - simpl. lia.
  - reflexivity.
  - exists l'. split; [exact E|exact Hv].
Defined.

(** A walker that records the sizes of its chunks. *)
Definition sizes (c : list Z) (acc : list Z) : bool * list Z := (true, acc ++ [len c]).

(** without the bound on the chunk size the walk is wrong.  With a chunk size of 2^64 - 4096,
    on a log of three bytes that fits into one chunk, the offset wraps around and the
    walker is called twice more, on bytes in front of the log. *)
Theorem pmemlog_walk_overflow :
  log_view ex_log = [1; 2; 3] ∧
  (pmemlog_walk sizes 3 [] ex_log).1 = Ok [3] ∧
  (pmemlog_walk sizes (2 ^ 64 - 4096) [] ex_log).1 = Ok [3; 4099; 8195].
Proof. split_and!; vm_compute; reflexivity. Qed.
