(* ===== verification/Ulog.v ===== *)
(** * libpmemobj: the unified log

    Models [libpmemobj/ulog.c] and [ulog.h], the log in which transactions and atomic
    operations record the changes they make, and the table of persistence functions it
    writes through: [libpmemobj/pmemops.h] and its implementation in [obj.c] for a pool without
    replicas.  Addresses are relative to [p_ops->base].  A walk over a log takes
    fuel, an upper bound on the number of entries and on that of log extensions:
    a damaged log can make the walk loop forever, which is [Undef]. *)

From stdpp Require Import base gmap list numbers.
From S2P Require Import Prelude Memory Pmem Util.
Local Open Scope Z_scope.

(** ** Persistence functions of a pool *)

Record pmem_ops : Type := PmemOps {
  op_persist : pmem → Z → Z → Z → pmem;             (* addr len flags *)
  op_flush : pmem → Z → Z → Z → pmem;
  op_drain : pmem → pmem;
  op_memcpy : pmem → Z → list Z → Z → pmem;         (* dest src flags *)
  op_memset : pmem → Z → Z → Z → Z → pmem           (* dest c len flags *)
}.

Definition PMEMOBJ_F_MEM_NODRAIN : Z := Z.shiftl 1 0.
Definition PMEMOBJ_F_MEM_NONTEMPORAL : Z := Z.shiftl 1 1.
Definition PMEMOBJ_F_MEM_WC : Z := Z.shiftl 1 3.
Definition PMEMOBJ_F_MEM_NOFLUSH : Z := Z.shiftl 1 5.
Definition PMEMOBJ_F_RELAXED : Z := Z.shiftl 1 31.
Definition PMEM_F_MEM_VALID_FLAGS : Z := 63.

(** The functions of a local replica ([obj_replica_init_local]). *)
Record local_ops : Type := LocalOps {
  persist_local : pmem → Z → Z → pmem;
  flush_local : pmem → Z → Z → pmem;
  drain_local : pmem → pmem;
  memcpy_local : pmem → Z → list Z → Z → pmem;
  memset_local : pmem → Z → Z → Z → Z → pmem
}.

Section local.
Context (Funcs : pmem_funcs).

Definition obj_drain_empty (p : pmem) : pmem := p.
Definition obj_nopmem_memcpy (p : pmem) (dest : Z) (src : list Z) (flags : Z) : pmem :=
  pmem_msync (pmem_memcpy Funcs p dest src PMEM_F_MEM_NOFLUSH) dest (len src).
Definition obj_nopmem_memset (p : pmem) (dest c length flags : Z) : pmem :=
  pmem_msync (pmem_memset Funcs p dest c length PMEM_F_MEM_NOFLUSH) dest length.

Definition obj_replica_init_local (is_pmem : bool) : local_ops :=
  if is_pmem then
    LocalOps (pmem_persist Funcs) (pmem_flush Funcs) (pmem_drain Funcs) (pmem_memcpy Funcs)
      (pmem_memset Funcs)
  else
    LocalOps pmem_msync pmem_msync obj_drain_empty obj_nopmem_memcpy obj_nopmem_memset.
End local.

Section norep.
Context (pop : local_ops).

Definition obj_norep_memcpy (p : pmem) (dest : Z) (src : list Z) (flags : Z) : pmem :=
  memcpy_local pop p dest src (flags &&& PMEM_F_MEM_VALID_FLAGS).
Definition obj_norep_memset (p : pmem) (dest c length flags : Z) : pmem :=
  memset_local pop p dest c length (flags &&& PMEM_F_MEM_VALID_FLAGS).
Definition obj_norep_persist (p : pmem) (addr length flags : Z) : pmem :=
  persist_local pop p addr length.
Definition obj_norep_flush (p : pmem) (addr length flags : Z) : pmem :=
  flush_local pop p addr length.
Definition obj_norep_drain (p : pmem) : pmem := drain_local pop p.

Definition norep_ops : pmem_ops :=
  PmemOps obj_norep_persist obj_norep_flush obj_norep_drain obj_norep_memcpy obj_norep_memset.
End norep.

(** ** Layout *)

Definition CACHELINE_SIZE : Z := 64.
Definition CACHELINE_ALIGN (size : Z) : Z := ALIGN_UP size CACHELINE_SIZE.

Definition ULOG_OPERATION_SET : Z := Z.shiftl 0 61.
Definition ULOG_OPERATION_AND : Z := Z.shiftl 1 61.
Definition ULOG_OPERATION_OR : Z := Z.shiftl 2 61.
Definition ULOG_OPERATION_BUF_SET : Z := Z.shiftl 5 61.
Definition ULOG_OPERATION_BUF_CPY : Z := Z.shiftl 6 61.
Definition ULOG_OPERATION_MASK : Z := Z.shiftl 7 61.
Definition ULOG_OFFSET_MASK : Z := u64 (Z.lnot ULOG_OPERATION_MASK).

Definition sizeof_ulog : Z := 64.
Definition sizeof_ulog_entry_base : Z := 8.
Definition sizeof_ulog_entry_val : Z := 16.
Definition sizeof_ulog_entry_buf : Z := 24.

(** The fields of [struct ulog] at address [u] ... *)
Definition ulog_f_next (m : mem) (u : Z) : Z := rd64 m (u + 8).
Definition ulog_f_capacity (m : mem) (u : Z) : Z := rd64 m (u + 16).
Definition ulog_data (u : Z) : Z := u + 64.
(** ... and of the entries at address [e]. *)
Definition entry_f_offset (m : mem) (e : Z) : Z := rd64 m e.
Definition entry_f_value (m : mem) (e : Z) : Z := rd64 m (e + 8).
Definition entry_f_size (m : mem) (e : Z) : Z := rd64 m (e + 16).
Definition entry_data (e : Z) : Z := e + 24.

Definition SIZEOF_ULOG (base_capacity : Z) : Z := u64 (sizeof_ulog + base_capacity).
Definition SIZEOF_ALIGNED_ULOG (base_capacity : Z) : Z := u64 (SIZEOF_ULOG base_capacity + CACHELINE_SIZE).

(** [NULL] is [None]. *)
Definition ulog_by_offset (offset : Z) : option Z :=
  if offset =? 0 then None else Some (CACHELINE_ALIGN offset).

Definition ulog_next (m : mem) (u : Z) : option Z := ulog_by_offset (ulog_f_next m u).

(** ** Entries *)

Definition ULOG_OPERATION_FROM_OFFSET (off : Z) : Z := off &&& ULOG_OPERATION_MASK.

Definition ulog_entry_type (m : mem) (e : Z) : Z := ULOG_OPERATION_FROM_OFFSET (entry_f_offset m e).
Definition ulog_entry_offset (m : mem) (e : Z) : Z := entry_f_offset m e &&& ULOG_OFFSET_MASK.

Definition ulog_entry_size (m : mem) (e : Z) : Z :=
  let t := ulog_entry_type m e in
  if (t =? ULOG_OPERATION_AND) || (t =? ULOG_OPERATION_OR) || (t =? ULOG_OPERATION_SET)
  then sizeof_ulog_entry_val
  else if (t =? ULOG_OPERATION_BUF_SET) || (t =? ULOG_OPERATION_BUF_CPY)
  then CACHELINE_ALIGN (u64 (sizeof_ulog_entry_buf + entry_f_size m e))
  else 0.

Definition ulog_entry_valid (m : mem) (e : Z) : res bool :=
  if entry_f_offset m e =? 0 then Ok false
  else
    let t := ulog_entry_type m e in
    if (t =? ULOG_OPERATION_BUF_CPY) || (t =? ULOG_OPERATION_BUF_SET) then
      match util_checksum (rdn m e (Z.to_nat (ulog_entry_size m e))) 8 false 0 with
      | Ok (b, _) => Ok b
      | Fail err => Fail err
      | Undef => Undef
      end
    else Ok true.

(** ** Operations *)

Section ulog.
Context (p_ops : pmem_ops).
Local Abbreviation MU A := (M pmem A).

Definition in_mem {A} (f : mem → A) : MU A := gets (f ∘ pm_mem).
Definition store_bytes (off : Z) (bs : list Z) : MU unit := modify (λ p, pm_store p off bs).
Definition try_mem {A} (f : mem → res A) : MU A := λ p, (f (pm_mem p), p).
Definition entry_valid (e : Z) : MU bool := try_mem (λ m, ulog_entry_valid m e).

Definition ulog_construct (offset capacity : Z) (flush : bool) : MU unit :=
  match ulog_by_offset offset with
  | None => undef
  | Some u =>
      store_bytes (u + 16) (le_bytes 8 capacity);;
      store_bytes u (le_bytes 8 0);;
      store_bytes (u + 8) (le_bytes 8 0);;
      store_bytes (u + 24) (zeros 40);;
      if flush then
        modify (λ p, op_flush p_ops p u sizeof_ulog PMEMOBJ_F_RELAXED);;
        modify (λ p, op_memset p_ops p (ulog_data u) 0 capacity
                  (PMEMOBJ_F_MEM_NONTEMPORAL ||| PMEMOBJ_F_MEM_NODRAIN ||| PMEMOBJ_F_RELAXED))
      else store_bytes (ulog_data u) (zeros capacity)
  end.

(** *** Walking over the entries *)

Section foreach.
Context (cb : Z → MU Z).

(** The inner loop; the flag says that the function returns. *)
Fixpoint foreach_in (fuel : nat) (r offset ret : Z) : MU (Z * bool) :=
  capacity ← in_mem (λ m, ulog_f_capacity m r);
  if offset <? capacity then
    match fuel with
    | O => undef
    | S fuel =>
        let e := ulog_data r + offset in
        valid ← entry_valid e;
        if negb valid then mret (ret, true)
        else
          ret ← cb e;
          if negb (ret =? 0) then mret (ret, true)
          else
            size ← in_mem (λ m, ulog_entry_size m e);
            foreach_in fuel r (u64 (offset + size)) ret
    end
  else mret (ret, false).

Fixpoint foreach_logs (nlogs fuel : nat) (r : option Z) (ret : Z) : MU Z :=
  match r with
  | None => mret ret
  | Some r =>
      match nlogs with
      | O => undef
      | S nlogs =>
          x ← foreach_in fuel r 0 ret;
          if (x.2 : bool) then mret x.1
          else
            next ← in_mem (λ m, ulog_next m r);
            foreach_logs nlogs fuel next x.1
      end
  end.
End foreach.

Definition ulog_foreach_entry (fuel : nat) (u : Z) (cb : Z → MU Z) : MU Z :=
  foreach_logs cb fuel fuel (Some u) 0.

(** *** Capacity *)

Fixpoint capacity_loop (fuel : nat) (u : option Z) (capacity : Z) : MU Z :=
  match u with
  | None => mret capacity
  | Some u =>
      match fuel with
      | O => undef
      | S fuel =>
          c ← in_mem (λ m, ulog_f_capacity m u);
          next ← in_mem (λ m, ulog_next m u);
          capacity_loop fuel next (u64 (capacity + c))
      end
  end.

Definition ulog_capacity (fuel : nat) (u ulog_base_bytes : Z) : MU Z :=
  next ← in_mem (λ m, ulog_next m u);
  capacity_loop fuel next ulog_base_bytes.

(** Offsets are pushed at the end of the vector [next]. *)
Fixpoint ulog_rebuild_next_vec (fuel : nat) (u : Z) (next : list Z) : MU (list Z) :=
  match fuel with
  | O => undef
  | S fuel =>
      off ← in_mem (λ m, ulog_f_next m u);
      let next := if off =? 0 then next else next ++ [off] in
      n ← in_mem (λ m, ulog_next m u);
      match n with
      | None => mret next
      | Some u => ulog_rebuild_next_vec fuel u next
      end
  end.

(** [VEC_FOREACH(offset, next)]: the last log of the vector and the capacity. *)
Fixpoint reserve_scan (next : list Z) (u capacity : Z) : MU (Z * Z) :=
  match next with
  | [] => mret (u, capacity)
  | off :: next =>
      match ulog_by_offset off with
      | None => undef
      | Some u =>
          c ← in_mem (λ m, ulog_f_capacity m u);
          reserve_scan next u (u64 (capacity + c))
      end
  end.

(** [extend] allocates a log and stores its offset at the address it is given.  The result: the error number if it fails, the
    capacity, and the logs, with those that were added before a failure. *)
Fixpoint reserve_loop (extend : Z → MU unit) (fuel : nat) (u capacity new_capacity : Z)
    (next : list Z) : MU (option Z * (Z * list Z)) :=
  if capacity <? new_capacity then
    match fuel with
    | O => undef
    | S fuel =>
        e ← errno_of (extend (u + 8));
        match e with
        | Some e => mret (Some e, (capacity, next))
        | None =>
            off ← in_mem (λ m, ulog_f_next m u);
            match ulog_by_offset off with
            | None => undef
            | Some u' =>
                c ← in_mem (λ m, ulog_f_capacity m u');
                reserve_loop extend fuel u' (u64 (capacity + c)) new_capacity (next ++ [off])
            end
        end
    end
  else mret (None, (capacity, next)).

Definition ulog_reserve (extend : Z → MU unit) (fuel : nat)
    (u ulog_base_nbytes new_capacity : Z) (next : list Z) : MU (option Z * (Z * list Z)) :=
  x ← reserve_scan next u ulog_base_nbytes;
  reserve_loop extend fuel x.1 x.2 new_capacity next.

(** *** Storing a log *)

Definition ulog_checksum (m : mem) (u ulog_base_bytes : Z) (insert : bool) : res (bool * mem) :=
  match util_checksum (rdn m u (Z.to_nat (SIZEOF_ULOG ulog_base_bytes))) 0 insert 0 with
  | Ok (b, bs) => Ok (b, if insert then wr m u bs else m)
  | Fail err => Fail err
  | Undef => Undef
  end.

(** The part beyond the base capacity goes to the logs of [next]; reading the vector out of
    range is [Undef]. *)
Fixpoint store_next (next : list Z) (src : mem) (s offset next_nbytes : Z) : MU unit :=
  if 0 <? next_nbytes then
    match next with
    | [] => undef
    | off :: next =>
        match ulog_by_offset off with
        | None => undef
        | Some u =>
            c ← in_mem (λ m, ulog_f_capacity m u);
            let copy_nbytes := Z.min next_nbytes c in
            modify (λ p, op_memcpy p_ops p (ulog_data u)
                      (rdn src (ulog_data s + offset) (Z.to_nat copy_nbytes))
                      (PMEMOBJ_F_MEM_WC ||| PMEMOBJ_F_MEM_NODRAIN ||| PMEMOBJ_F_RELAXED));;
            store_next next src s (u64 (offset + copy_nbytes)) (next_nbytes - copy_nbytes)
        end
    end
  else mret tt.

(** [src] is the transient memory that holds the source log at address [s]; the
    call updates its next field and its checksum and returns it. *)
Definition ulog_store (dest : Z) (src : mem) (s nbytes ulog_base_nbytes : Z) (next : list Z)
    : MU mem :=
  let checksum_nbytes := Z.min ulog_base_nbytes nbytes in
  let nbytes := CACHELINE_ALIGN (u64 (nbytes + sizeof_ulog_entry_base)) in
  let base_nbytes := Z.min ulog_base_nbytes nbytes in
  let next_nbytes := nbytes - base_nbytes in
  store_next next src s ulog_base_nbytes next_nbytes;;
  modify (λ p, if 0 <? next_nbytes then op_drain p_ops p else p);;
  let src := wr64 src (s + 8) (match next with [] => 0 | off :: _ => off end) in
  x ← try_mem (λ _, ulog_checksum src s checksum_nbytes true);
  let src := x.2 in
  modify (λ p, op_memcpy p_ops p dest (rdn src s (Z.to_nat (SIZEOF_ULOG base_nbytes)))
                 PMEMOBJ_F_MEM_WC);;
  mret src.

(** *** Creating entries *)

Definition ulog_entry_val_create (u offset dest value type : Z) : MU Z :=
  let e := ulog_data u + offset in
  let data := le_bytes 8 (dest ||| type) ++ le_bytes 8 value ++ le_bytes 8 0 in
  modify (λ p, op_memcpy p_ops p e data (PMEMOBJ_F_MEM_NOFLUSH ||| PMEMOBJ_F_RELAXED));;
  mret e.

Definition ulog_entry_buf_create (u offset dest : Z) (src : list Z) (type : Z) : MU Z :=
  let size := len src in
  let e := ulog_data u + offset in
  let bdatasize := CACHELINE_SIZE - sizeof_ulog_entry_buf in
  let ncopy := Z.min size bdatasize in
  let b csum := le_bytes 8 (dest ||| type) ++ le_bytes 8 csum ++ le_bytes 8 size ++
                take (Z.to_nat ncopy) src ++ zeros (bdatasize - ncopy) in
  let remaining_size := if size <? ncopy then 0 else size - ncopy in
  let srcof := drop (Z.to_nat ncopy) src in
  let rcopy := ALIGN_DOWN remaining_size CACHELINE_SIZE in
  let lcopy := remaining_size - rcopy in
  let rdata := take (Z.to_nat rcopy) srcof in
  let last_cacheline :=
    take (Z.to_nat lcopy) (drop (Z.to_nat rcopy) srcof) ++ zeros (CACHELINE_SIZE - lcopy) in
  let flags := PMEMOBJ_F_MEM_NODRAIN ||| PMEMOBJ_F_MEM_NONTEMPORAL in
  modify (λ p, if rcopy =? 0 then p else op_memcpy p_ops p (entry_data e + ncopy) rdata flags);;
  modify (λ p, if lcopy =? 0 then p
               else op_memcpy p_ops p (entry_data e + ncopy + rcopy) last_cacheline flags);;
  csum ← try_mem (λ _, util_checksum_seq (b 0) 0);
  csum ← (if rcopy =? 0 then mret csum else try_mem (λ _, util_checksum_seq rdata csum));
  csum ← (if lcopy =? 0 then mret csum else try_mem (λ _, util_checksum_seq last_cacheline csum));
  modify (λ p, op_memcpy p_ops p e (b csum) flags);;
  modify (op_drain p_ops);;
  mret e.

(** *** Applying entries *)

Definition ulog_entry_apply (e : Z) (persist : bool) : MU unit :=
  t ← in_mem (λ m, ulog_entry_type m e);
  dst ← in_mem (λ m, ulog_entry_offset m e);
  let f p := if persist then op_persist p_ops p dst 8 PMEMOBJ_F_RELAXED
             else op_flush p_ops p dst 8 PMEMOBJ_F_RELAXED in
  if t =? ULOG_OPERATION_AND then
    v ← in_mem (λ m, rd64 m dst &&& entry_f_value m e);
    store_bytes dst (le_bytes 8 v);; modify f
  else if t =? ULOG_OPERATION_OR then
    v ← in_mem (λ m, rd64 m dst ||| entry_f_value m e);
    store_bytes dst (le_bytes 8 v);; modify f
  else if t =? ULOG_OPERATION_SET then
    v ← in_mem (λ m, entry_f_value m e);
    store_bytes dst (le_bytes 8 v);; modify f
  else if t =? ULOG_OPERATION_BUF_SET then
    c ← in_mem (λ m, rd m (entry_data e));
    size ← in_mem (λ m, entry_f_size m e);
    modify (λ p, op_memset p_ops p dst c size (PMEMOBJ_F_RELAXED ||| PMEMOBJ_F_MEM_NODRAIN))
  else if t =? ULOG_OPERATION_BUF_CPY then
    size ← in_mem (λ m, entry_f_size m e);
    data ← in_mem (λ m, rdn m (entry_data e) (Z.to_nat size));
    modify (λ p, op_memcpy p_ops p dst data (PMEMOBJ_F_RELAXED ||| PMEMOBJ_F_MEM_NODRAIN))
  else mret tt.

Definition ulog_process_entry (e : Z) : MU Z := ulog_entry_apply e false;; mret 0.

Definition ulog_process (fuel : nat) (u : Z) : MU unit :=
  ulog_foreach_entry fuel u ulog_process_entry;; mret tt.

(** *** Clearing *)

(** [next]: the vector, or [None] for [NULL]. *)
Definition ulog_clobber (dest : Z) (next : option (list Z)) : MU unit :=
  n ← in_mem (λ m, match next with
                   | Some [] => 0
                   | Some (off :: _) => off
                   | None => ulog_f_next m dest
                   end);
  modify (λ p, op_memcpy p_ops p dest (zeros 8 ++ le_bytes 8 n ++ zeros 48) PMEMOBJ_F_MEM_WC).

(** The logs past the first extension, as the addresses of the fields that point to them.
    [push_ok i]: the [i]-th push to the vector succeeds. *)
Fixpoint past_first (fuel : nat) (push_ok : nat → bool) (i : nat) (u : option Z) (logs : list Z)
    : MU (option (list Z)) :=
  match u with
  | None => mret (Some logs)
  | Some u =>
      match fuel with
      | O => undef
      | S fuel =>
          off ← in_mem (λ m, ulog_f_next m u);
          if off =? 0 then mret (Some logs)
          else if push_ok i then past_first fuel push_ok (S i) (ulog_by_offset off) (logs ++ [u + 8])
          else mret None
      end
  end.

Fixpoint free_logs (ulog_free : Z → MU unit) (logs : list Z) : MU unit :=
  match logs with
  | [] => mret tt
  | l :: logs => ulog_free l;; free_logs ulog_free logs
  end.

Definition ulog_clobber_data (dest nbytes ulog_base_nbytes : Z) (next : list Z)
    (ulog_free : Z → MU unit) (push_ok : nat → bool) (fuel : nat) : MU unit :=
  let nzero := Z.min nbytes ulog_base_nbytes in
  modify (λ p, op_memset p_ops p (ulog_data dest) 0 nzero PMEMOBJ_F_MEM_WC);;
  let nbytes := nbytes - nzero in
  (if nbytes =? 0 then mret tt
   else
     match next with
     | [] => undef
     | off :: _ =>
         match ulog_by_offset off with
         | None => undef
         | Some r =>
             rcapacity ← in_mem (λ m, ulog_f_capacity m r);
             modify (λ p, op_memset p_ops p (ulog_data r) 0 (Z.min nbytes rcapacity)
                            PMEMOBJ_F_MEM_WC)
         end
     end);;
  off ← in_mem (λ m, ulog_f_next m dest);
  match ulog_by_offset off with
  | None => mret tt
  | Some u =>
      logs ← past_first fuel push_ok 0 (Some u) [];
      match logs with
      | None => mret tt
      | Some logs => free_logs ulog_free (reverse logs)
      end
  end.

(** *** Recovery *)

Fixpoint base_nbytes_loop (fuel : nat) (u offset : Z) : MU Z :=
  capacity ← in_mem (λ m, ulog_f_capacity m u);
  if offset <? capacity then
    match fuel with
    | O => undef
    | S fuel =>
        let e := ulog_data u + offset in
        valid ← entry_valid e;
        if negb valid then mret offset
        else
          size ← in_mem (λ m, ulog_entry_size m e);
          base_nbytes_loop fuel u (u64 (offset + size))
    end
  else mret offset.

Definition ulog_base_nbytes (fuel : nat) (u : Z) : MU Z := base_nbytes_loop fuel u 0.

Definition ulog_recovery_needed (fuel : nat) (u : Z) (verify_checksum : bool) : MU bool :=
  n ← ulog_base_nbytes fuel u;
  capacity ← in_mem (λ m, ulog_f_capacity m u);
  let nbytes := Z.min n capacity in
  if nbytes =? 0 then mret false
  else if verify_checksum then
    x ← try_mem (λ m, ulog_checksum m u nbytes false);
    mret x.1
  else mret true.

Definition ulog_recover (fuel : nat) (u : Z) : MU unit :=
  needed ← ulog_recovery_needed fuel u true;
  if (needed : bool) then ulog_process fuel u;; ulog_clobber u None else mret tt.

(** *** Checking *)

Definition ulog_check_entry (check : Z → bool) (e : Z) : MU Z :=
  offset ← in_mem (λ m, ulog_entry_offset m e);
  if negb (check offset) then mret (-1)
  else mret (if offset =? 0 then -1 else 0).

Definition ulog_check (fuel : nat) (u : Z) (check : Z → bool) : MU Z :=
  ulog_foreach_entry fuel u (ulog_check_entry check).
End ulog.
