(* ===== verification/UlogSpec.v ===== *)
(** * libpmemobj: replaying a log

    What the entries of a log mean, that [ulog_process] performs exactly these
    changes, and that it may be interrupted by a power failure and started again: every
    operation sets bits or leaves them alone, whatever they were, so replaying a log over
    any mixture of earlier states gives the same result. *)

From stdpp Require Import base gmap list numbers.
From S2P Require Import Prelude Memory Pmem Util Ulog.
Local Open Scope Z_scope.

(** ** Meaning of the entries *)

Inductive uop : Type :=
| UAnd (dst v : Z)
| UOr (dst v : Z)
| USet (dst v : Z)
| UFill (dst c n : Z)
| UCopy (dst : Z) (bs : list Z)
| UNone.

(** The entry at address [e]. *)
Definition uop_at (m : mem) (e : Z) : uop :=
  let t := ulog_entry_type m e in
  let dst := ulog_entry_offset m e in
  if t =? ULOG_OPERATION_AND then UAnd dst (entry_f_value m e)
  else if t =? ULOG_OPERATION_OR then UOr dst (entry_f_value m e)
  else if t =? ULOG_OPERATION_SET then USet dst (entry_f_value m e)
  else if t =? ULOG_OPERATION_BUF_SET then UFill dst (rd m (entry_data e)) (entry_f_size m e)
  else if t =? ULOG_OPERATION_BUF_CPY
  then UCopy dst (rdn m (entry_data e) (Z.to_nat (entry_f_size m e)))
  else UNone.

(** Where it writes and what. *)
Definition uop_write (m : mem) (op : uop) : Z * list Z :=
  match op with
  | UAnd dst v => (dst, le_bytes 8 (rd64 m dst &&& v))
  | UOr dst v => (dst, le_bytes 8 (rd64 m dst ||| v))
  | USet dst v => (dst, le_bytes 8 v)
  | UFill dst c n => (dst, repeat (u8 c) (Z.to_nat n))
  | UCopy dst bs => (dst, bs)
  | UNone => (0, [])
  end.

Definition uop_apply (m : mem) (op : uop) : mem :=
  let '(dst, bs) := uop_write m op in wr m dst bs.

Definition uops_apply (m : mem) (ops : list uop) : mem := foldl uop_apply m ops.

(** The bytes it can change. *)
Definition uop_range (op : uop) : Z * Z :=
  match op with
  | UAnd dst _ | UOr dst _ | USet dst _ => (dst, 8)
  | UFill dst _ n => (dst, Z.max 0 n)
  | UCopy dst bs => (dst, len bs)
  | UNone => (0, 0)
  end.

Definition uop_touches (op : uop) (a : Z) : Prop :=
  (uop_range op).1 ≤ a < (uop_range op).1 + (uop_range op).2.

(** *** Every bit is forced to a value or left alone *)

Definition word_bit (v dst a i : Z) : bool := Z.testbit v (8 * (a - dst) + i).

Definition uop_bit (op : uop) (a i : Z) : option bool :=
  match op with
  | UAnd dst v => if decide (dst ≤ a < dst + 8 ∧ word_bit v dst a i = false) then Some false else None
  | UOr dst v => if decide (dst ≤ a < dst + 8 ∧ word_bit v dst a i = true) then Some true else None
  | USet dst v => if decide (dst ≤ a < dst + 8) then Some (word_bit v dst a i) else None
  | UFill dst c n => if decide (dst ≤ a < dst + Z.max 0 n) then Some (Z.testbit c i) else None
  | UCopy dst bs =>
      if decide (dst ≤ a < dst + len bs) then Some (Z.testbit (nth (Z.to_nat (a - dst)) bs 0) i)
      else None
  | UNone => None
  end.

Lemma byte_of_word n : ∀ v k i, 0 ≤ i < 8 → (k < n)%nat →
  Z.testbit (nth k (le_bytes n v) 0) i = Z.testbit v (8 * Z.of_nat k + i).
Proof.
  induction n as [|n IH]; intros v k i Hi Hk; [lia|]. unfold le_bytes; fold le_bytes.
  destruct k as [|k]; simpl.
  - change 256 with (2 ^ 8). rewrite Z.mod_pow2_bits_low by lia. f_equal.
  - rewrite IH by lia. change 256 with (2 ^ 8). rewrite Z.div_pow2_bits by lia. f_equal. lia.
Qed.

Lemma rd64_bit m dst a i : 0 ≤ i < 8 → dst ≤ a < dst + 8 →
  word_bit (rd64 m dst) dst a i = Z.testbit (rd m a) i.
Proof.
  intros Hi Ha. unfold word_bit.
  pose proof (byte_of_word 8 (rd64 m dst) (Z.to_nat (a - dst)) i Hi ltac:(lia)) as H.
  replace (8 * Z.of_nat (Z.to_nat (a - dst)) + i) with (8 * (a - dst) + i) in H by lia.
  rewrite <- H. unfold rd64.
  pose proof (le_bytes_le_of (rdn m dst 8) (rdn_bytes _ _ _)) as E. rewrite length_rdn in E.
  rewrite E, nth_rdn by lia. do 2 f_equal. lia.
Qed.

Lemma rd_wr_word m dst v a i : 0 ≤ i < 8 → dst ≤ a < dst + 8 →
  Z.testbit (rd (wr m dst (le_bytes 8 v)) a) i = word_bit v dst a i.
Proof.
  intros Hi Ha. rewrite rd_wr, length_le_bytes, decide_True by lia.
  rewrite nth_mod_byte by auto with pmdk. rewrite byte_of_word by lia. unfold word_bit. f_equal. lia.
Qed.

Lemma mod_byte_bit b i : 0 ≤ i < 8 → Z.testbit (b mod 256) i = Z.testbit b i.
Proof. intros. change 256 with (2 ^ 8). apply Z.mod_pow2_bits_low. lia. Qed.

Lemma uop_apply_out m op a : ¬ uop_touches op a → rd (uop_apply m op) a = rd m a.
Proof.
  unfold uop_touches, uop_apply.
  destruct op; simpl; intros H; try apply rd_wr_out; rewrite ?length_le_bytes, ?repeat_length; try lia.
  done.
Qed.

Lemma uop_apply_bit m op a i : 0 ≤ i < 8 →
  Z.testbit (rd (uop_apply m op) a) i = default (Z.testbit (rd m a) i) (uop_bit op a i).
Proof.
  intros Hi. destruct (decide (uop_touches op a)) as [Ht|Ht].
  - unfold uop_touches in Ht. destruct op as [dst v|dst v|dst v|dst c n|dst bs|]; simpl in *;
      unfold uop_apply; simpl.
    + rewrite rd_wr_word by lia. unfold word_bit at 1. rewrite Z.land_spec.
      fold (word_bit (rd64 m dst) dst a i). fold (word_bit v dst a i). rewrite rd64_bit by lia.
      destruct (word_bit v dst a i) eqn:E.
      * rewrite decide_False by (intros [_ ?]; congruence). apply andb_true_r.
      * rewrite decide_True by done. apply andb_false_r.
    + rewrite rd_wr_word by lia. unfold word_bit at 1. rewrite Z.lor_spec.
      fold (word_bit (rd64 m dst) dst a i). fold (word_bit v dst a i). rewrite rd64_bit by lia.
      destruct (word_bit v dst a i) eqn:E.
      * rewrite decide_True by done. apply orb_true_r.
      * rewrite decide_False by (intros [_ ?]; congruence). apply orb_false_r.
    + by rewrite rd_wr_word, decide_True by lia.
    + rewrite rd_wr, repeat_length, !decide_True by lia. simpl. rewrite mod_byte_bit by done.
      rewrite nth_repeat_lt by lia. unfold u8. by apply (mod_byte_bit c).
    + rewrite rd_wr, !decide_True by lia. simpl. by rewrite mod_byte_bit.
    + lia.
  - rewrite uop_apply_out by done. unfold uop_touches in Ht.
    destruct op; simpl in *; try (rewrite decide_False by lia); done.
Qed.

(** *** Sequences of operations *)

Definition uops_bit (ops : list uop) (a i : Z) : option bool :=
  foldl (λ b op, match uop_bit op a i with Some b' => Some b' | None => b end) None ops.

Lemma uops_bit_snoc ops op a i :
  uops_bit (ops ++ [op]) a i =
  match uop_bit op a i with Some b => Some b | None => uops_bit ops a i end.
Proof. unfold uops_bit. by rewrite foldl_app. Qed.

Lemma uops_apply_bit ops : ∀ m a i, 0 ≤ i < 8 →
  Z.testbit (rd (uops_apply m ops) a) i = default (Z.testbit (rd m a) i) (uops_bit ops a i).
Proof.
  induction ops as [|op ops IH] using rev_ind; intros m a i Hi; [done|].
  unfold uops_apply. rewrite foldl_app. simpl. fold (uops_apply m ops).
  rewrite uop_apply_bit, IH, uops_bit_snoc by done. by destruct (uop_bit op a i).
Qed.

Lemma uops_bit_None ops j a i : uops_bit ops a i = None → uops_bit (take j ops) a i = None.
Proof.
  revert j. induction ops as [|op ops IH] using rev_ind; intros j; [by rewrite take_nil|].
  rewrite uops_bit_snoc. destruct (uop_bit op a i) eqn:E; [done|]. intros H.
  destruct (decide (j ≤ length ops)%nat).
  - rewrite take_app_le by lia. auto.
  - rewrite take_ge by (rewrite length_app; simpl; lia). by rewrite uops_bit_snoc, E.
Qed.

Lemma byte_eq b c : 0 ≤ b < 256 → 0 ≤ c < 256 →
  (∀ i, 0 ≤ i < 8 → Z.testbit b i = Z.testbit c i) → b = c.
Proof.
  intros Hb Hc H. apply Z.bits_inj'. intros i Hi. destruct (decide (i < 8)); [apply H; lia|].
  assert (2 ^ 8 ≤ 2 ^ i) by (apply Z.pow_le_mono_r; lia). change (2 ^ 8) with 256 in *.
  rewrite !Z.testbit_eqb by lia. rewrite !Z.div_small by lia. done.
Qed.

(** [x] is a mixture of the states the operations went through. *)
Definition mixture (m : mem) (ops : list uop) (x : mem) : Prop :=
  ∀ a, ∃ j, rd x a = rd (uops_apply m (take j ops)) a.

(** Replaying the operations over such a mixture gives the final state. *)
Lemma replay_mixture m ops x : mixture m ops x → mem_eq (uops_apply x ops) (uops_apply m ops).
Proof.
  intros Hx a. apply byte_eq; [apply rd_range..|]. intros i Hi. rewrite !uops_apply_bit by done.
  destruct (uops_bit ops a i) eqn:E; [done|]. simpl. destruct (Hx a) as [j ->].
  by rewrite uops_apply_bit, (uops_bit_None ops j a i E).
Qed.

Lemma uops_apply_mem_eq ops m m' : mem_eq m m' → mem_eq (uops_apply m ops) (uops_apply m' ops).
Proof.
  intros H a. apply byte_eq; [apply rd_range..|]. intros i Hi. rewrite !uops_apply_bit by done. by rewrite H.
Qed.

Lemma uops_apply_out ops : ∀ m a, Forall (λ op, ¬ uop_touches op a) ops → rd (uops_apply m ops) a = rd m a.
Proof.
  induction ops as [|op ops IH]; intros m a H; [done|]. inversion H; subst.
  unfold uops_apply. simpl. fold (uops_apply (uop_apply m op) ops). rewrite IH by done.
  by apply uop_apply_out.
Qed.

(** ** Contract of the persistence functions *)

Definition quiet (es : list ev) : Prop :=
  Forall (λ e, match e with EvStore _ _ => False | _ => True end) es.

Lemma quiet_replay es m : quiet es → replay m es = m.
Proof. intros H. revert m. induction H as [|[] es He _ IH]; intros m; simpl; auto; done. Qed.

Lemma quiet_untouched es a : quiet es → untouched es a.
Proof.
  intros H off bs Hin. apply list_elem_of_lookup in Hin as [i Hi].
  by pose proof (Forall_lookup_1 _ _ _ _ H Hi).
Qed.

Lemma quiet_take es j : quiet es → quiet (take j es).
Proof. apply Forall_take. Qed.

(** A call that stores [bs] at [d], once or not at all, and flushes. *)
Record one_write (p p' : pmem) (d : Z) (bs : list Z) : Prop := OneWrite {
  ow_mem : pm_mem p' = wr (pm_mem p) d bs;
  ow_evs : ∃ es, pm_evs p' = pm_evs p ++ es ∧
    (∀ m, replay m es = wr m d bs) ∧
    (∀ m j, replay m (take j es) = m ∨ replay m (take j es) = wr m d bs) ∧
    (∀ a, ¬ (d ≤ a < d + len bs) → untouched es a)
}.

Class OpsSpec (o : pmem_ops) : Prop := {
  ops_persist p a n f : ∃ es, op_persist o p a n f = emit p es ∧ quiet es;
  ops_flush p a n f : ∃ es, op_flush o p a n f = emit p es ∧ quiet es;
  ops_drain p : ∃ es, op_drain o p = emit p es ∧ quiet es;
  ops_memcpy p d bs f : one_write p (op_memcpy o p d bs f) d bs;
  ops_memset p d c n f : one_write p (op_memset o p d c n f) d (repeat (u8 c) (Z.to_nat n))
}.

Lemma one_write_nil p d : one_write p p d [].
Proof.
  split; [done|]. exists []. rewrite app_nil_r. split_and!; [done..| |].
  - intros m j. rewrite take_nil. by left.
  - intros a _ o b Hin. by apply not_elem_of_nil in Hin.
Qed.

(** A store followed by flushes and fences. *)
Lemma one_write_emit p d bs es : quiet es → one_write p (emit (pm_store p d bs) es) d bs.
Proof.
  intros Hq. split; [done|]. exists (EvStore d bs :: es). simpl. rewrite <- (assoc_L (++)). split_and!.
  - done.
  - intros m. by rewrite (quiet_replay es).
  - intros m [|j]; [by left|right]. simpl. by rewrite quiet_replay by by apply quiet_take.
  - intros a Ha o b Hin. apply elem_of_cons in Hin as [[= -> ->]|Hin]; [done|].
    by apply (quiet_untouched es a).
Qed.

Lemma quiet_run_flush f a n : quiet (run_flush f a n).
Proof. destruct f; repeat constructor. Qed.

Lemma quiet_run_fence f : quiet (run_fence f).
Proof. destruct f; repeat constructor. Qed.

Lemma memmove_nodrain_write F p d bs f : one_write p (memmove_nodrain F p d bs f) d bs.
Proof.
  unfold memmove_nodrain. destruct (Z.eqb_spec (len bs) 0) as [Hz|_].
  - destruct bs; [apply one_write_nil|simpl in Hz; lia].
  - destruct (Z.testbit f 5).
    + replace (pm_store p d bs) with (emit (pm_store p d bs) [])
        by (unfold emit, pm_store; simpl; by rewrite app_nil_r).
      apply one_write_emit. constructor.
    + apply one_write_emit, quiet_run_flush.
Qed.

Lemma one_write_then p p1 d bs es : one_write p p1 d bs → quiet es → one_write p (emit p1 es) d bs.
Proof.
  intros [Hm (es1 & He & R & P & U)] Hq. split; [done|]. exists (es1 ++ es). simpl.
  rewrite He, <- (assoc_L (++)). split_and!; [done|..].
  - intros m. by rewrite replay_app, R, quiet_replay.
  - intros m j. destruct (decide (j ≤ length es1)%nat).
    + rewrite take_app_le by lia. apply P.
    + rewrite take_app_ge, replay_app, R by lia. right. by apply quiet_replay, quiet_take.
  - intros a Ha. apply untouched_app. split; [by apply U|by apply quiet_untouched].
Qed.

#[global] Instance norep_spec F is_pmem : OpsSpec (norep_ops (obj_replica_init_local F is_pmem)).
Proof.
  assert (∀ p d bs f, one_write p (pmem_memmove F p d bs f) d bs) as Hmove.
  { intros. unfold pmem_memmove. destruct (_ =? 0); apply memmove_nodrain_write. }
  assert (∀ p d c n f, one_write p (pmem_memset F p d c n f) d (repeat (u8 c) (Z.to_nat n))) as Hset.
  { intros. unfold pmem_memset. destruct (_ =? 0); apply memmove_nodrain_write. }
  assert (∀ p a n, ∃ es, pmem_msync p a n = emit p es ∧ quiet es) as Hsync.
  { intros. eexists. split; [done|]. repeat constructor. }
  destruct is_pmem; split; simpl.
  - intros p a n f. eexists. split.
    + unfold obj_norep_persist, pmem_persist, pmem_drain, pmem_flush, emit. simpl.
      rewrite <- (assoc_L (++)). reflexivity.
    + apply Forall_app. split; [apply quiet_run_flush|apply quiet_run_fence].
  - intros p a n f. eexists. split; [done|apply quiet_run_flush].
  - intros p. eexists. split; [done|apply quiet_run_fence].
  - intros. apply Hmove.
  - intros. apply Hset.
  - intros. apply Hsync.
  - intros. apply Hsync.
  - intros p. exists []. split; [|constructor]. unfold obj_norep_drain, emit. simpl.
    rewrite app_nil_r. by destruct p.
  - intros. apply one_write_then; [apply Hmove|repeat constructor].
  - intros. apply one_write_then; [apply Hset|repeat constructor].
Qed.

(** ** The entries of a log *)

Fixpoint parse_in (fuel : nat) (m : mem) (r offset : Z) : res (list Z * bool) :=
  if offset <? ulog_f_capacity m r then
    match fuel with
    | O => Undef
    | S fuel =>
        let e := ulog_data r + offset in
        match ulog_entry_valid m e with
        | Ok true =>
            match parse_in fuel m r (u64 (offset + ulog_entry_size m e)) with
            | Ok (es, stop) => Ok (e :: es, stop)
            | x => x
            end
        | Ok false => Ok ([], true)
        | Fail err => Fail err
        | Undef => Undef
        end
    end
  else Ok ([], false).

Fixpoint parse_logs (nlogs fuel : nat) (m : mem) (r : option Z) : res (list Z) :=
  match r with
  | None => Ok []
  | Some r =>
      match nlogs with
      | O => Undef
      | S nlogs =>
          match parse_in fuel m r 0 with
          | Ok (es, true) => Ok es
          | Ok (es, false) =>
              match parse_logs nlogs fuel m (ulog_next m r) with
              | Ok es' => Ok (es ++ es')
              | x => x
              end
          | Fail err => Fail err
          | Undef => Undef
          end
      end
  end.

(** The addresses of the entries of the log at [u] and its extensions. *)
Definition ulog_entries (fuel : nat) (m : mem) (u : Z) : res (list Z) :=
  parse_logs fuel fuel m (Some u).

Definition is_buf (m : mem) (e : Z) : bool :=
  (ulog_entry_type m e =? ULOG_OPERATION_BUF_SET) || (ulog_entry_type m e =? ULOG_OPERATION_BUF_CPY).

(** The bytes that decide what an entry is. *)
Definition entry_reads (m : mem) (e a : Z) : Prop :=
  e ≤ a < e + 16 ∨
  is_buf m e = true ∧ (e ≤ a < e + Z.max 25 (ulog_entry_size m e) ∨
                       e + 24 ≤ a < e + 24 + entry_f_size m e).

(** [R] contains every byte the walk over the log looks at. *)
Fixpoint covers_in (R : Z → Prop) (fuel : nat) (m : mem) (r offset : Z) : Prop :=
  (∀ a, r ≤ a < r + 64 → R a) ∧
  (offset < ulog_f_capacity m r →
   match fuel with
   | O => True
   | S fuel =>
       let e := ulog_data r + offset in
       (∀ a, entry_reads m e a → R a) ∧
       (ulog_entry_valid m e = Ok true →
        covers_in R fuel m r (u64 (offset + ulog_entry_size m e)))
   end).

Fixpoint covers_logs (R : Z → Prop) (nlogs fuel : nat) (m : mem) (r : option Z) : Prop :=
  match r, nlogs with
  | Some r, S nlogs =>
      covers_in R fuel m r 0 ∧
      (∀ es, parse_in fuel m r 0 = Ok (es, false) → covers_logs R nlogs fuel m (ulog_next m r))
  | _, _ => True
  end.

(** *** Only the bytes of the log matter *)

Section frame.
Context (m m' : mem) (R : Z → Prop) (Hag : ∀ a, R a → rd m' a = rd m a).

Lemma rd64_frame off : (∀ a, off ≤ a < off + 8 → R a) → rd64 m' off = rd64 m off.
Proof using Hag. intros H. apply rd64_ext. intros a Ha. by apply Hag, H. Qed.

Lemma rdn_frame off n : (∀ a, off ≤ a < off + Z.of_nat n → R a) → rdn m' off n = rdn m off n.
Proof using Hag. intros H. apply rdn_ext. intros a Ha. by apply Hag, H. Qed.

Section entry.
Context (e : Z) (Hr : ∀ a, entry_reads m e a → R a).

Lemma offset_frame : entry_f_offset m' e = entry_f_offset m e.
Proof using Hag Hr. apply rd64_frame. intros a Ha. apply Hr. left. lia. Qed.

Lemma type_frame : ulog_entry_type m' e = ulog_entry_type m e.
Proof using Hag Hr. unfold ulog_entry_type. by rewrite offset_frame. Qed.

Lemma size_field_frame : is_buf m e = true → entry_f_size m' e = entry_f_size m e.
Proof using Hag Hr. intros Hb. apply rd64_frame. intros a Ha. apply Hr. right. split; [done|]. lia. Qed.

Lemma size_frame : ulog_entry_size m' e = ulog_entry_size m e.
Proof using Hag Hr.
  unfold ulog_entry_size. rewrite type_frame. destruct (_ || _); [done|].
  destruct (_ || _) eqn:E; [|done]. by rewrite size_field_frame.
Qed.

Lemma valid_frame : ulog_entry_valid m' e = ulog_entry_valid m e.
Proof using Hag Hr.
  unfold ulog_entry_valid. rewrite offset_frame, type_frame, size_frame.
  destruct (_ =? 0); [done|]. destruct (_ || _) eqn:E; [|done].
  rewrite rdn_frame; [done|]. intros a Ha. apply Hr. right.
  split; [unfold is_buf; by rewrite orb_comm|]. lia.
Qed.

Lemma uop_frame : uop_at m' e = uop_at m e.
Proof using Hag Hr.
  unfold uop_at, ulog_entry_offset. rewrite type_frame, offset_frame.
  assert (entry_f_value m' e = entry_f_value m e) as ->.
  { apply rd64_frame. intros a Ha. apply Hr. left. lia. }
  destruct (_ =? ULOG_OPERATION_AND); [done|]. destruct (_ =? ULOG_OPERATION_OR); [done|].
  destruct (_ =? ULOG_OPERATION_SET); [done|].
  destruct (ulog_entry_type m e =? ULOG_OPERATION_BUF_SET) eqn:E5.
  { assert (is_buf m e = true) as Hb by (unfold is_buf; by rewrite E5).
    rewrite size_field_frame by done. f_equal. apply Hag, Hr. right. split; [done|].
    unfold entry_data. lia. }
  destruct (ulog_entry_type m e =? ULOG_OPERATION_BUF_CPY) eqn:E6; [|done].
  assert (is_buf m e = true) as Hb by (unfold is_buf; by rewrite E6, orb_true_r).
  rewrite size_field_frame by done. f_equal. apply rdn_frame. intros a Ha. apply Hr. right.
  split; [done|]. unfold entry_data in Ha. lia.
Qed.
End entry.

Lemma header_frame r : (∀ a, r ≤ a < r + 64 → R a) →
  ulog_f_capacity m' r = ulog_f_capacity m r ∧ ulog_next m' r = ulog_next m r.
Proof using Hag.
  intros H. unfold ulog_f_capacity, ulog_next, ulog_f_next.
  rewrite !rd64_frame; [done|intros; apply H; lia..].
Qed.
End frame.

(** ** Processing a log *)

(** The changes [ops] were made in order, with the stores they consist of. *)
Record applied (p : pmem) (ops : list uop) (p' : pmem) : Prop := Applied {
  ap_mem : pm_mem p' = uops_apply (pm_mem p) ops;
  ap_evs : ∃ es, pm_evs p' = pm_evs p ++ es ∧ replay (pm_mem p) es = pm_mem p' ∧
    (∀ j, ∃ i, replay (pm_mem p) (take j es) = uops_apply (pm_mem p) (take i ops)) ∧
    (∀ a, Forall (λ op, ¬ uop_touches op a) ops → untouched es a)
}.

Lemma applied_nil p : applied p [] p.
Proof.
  split; [done|]. exists []. rewrite app_nil_r. split_and!; [done..| |].
  - intros j. exists 0%nat. by rewrite take_nil.
  - intros a _ o b Hin. by apply not_elem_of_nil in Hin.
Qed.

Lemma uop_write_range m op a : ¬ uop_touches op a →
  ¬ ((uop_write m op).1 ≤ a < (uop_write m op).1 + len (uop_write m op).2).
Proof.
  unfold uop_touches. destruct op; simpl; rewrite ?length_le_bytes, ?repeat_length; lia.
Qed.

Lemma applied_cons p op p1 ops p2 :
  one_write p p1 (uop_write (pm_mem p) op).1 (uop_write (pm_mem p) op).2 →
  applied p1 ops p2 → applied p (op :: ops) p2.
Proof.
  intros [Hm (es1 & E1 & R1 & P1 & U1)] [Hm2 (es2 & E2 & R2 & P2 & U2)].
  assert (pm_mem p1 = uop_apply (pm_mem p) op) as Hm1.
  { rewrite Hm. unfold uop_apply. by destruct (uop_write (pm_mem p) op). }
  split; [by rewrite Hm2, Hm1|]. exists (es1 ++ es2). split_and!.
  - by rewrite E2, E1, (assoc_L (++)).
  - by rewrite replay_app, R1, <- Hm.
  - intros j. destruct (decide (j ≤ length es1)%nat).
    + rewrite take_app_le by lia. destruct (P1 (pm_mem p) j) as [->| ->].
      * by exists 0%nat.
      * exists 1%nat. rewrite <- Hm, Hm1. done.
    + rewrite take_app_ge, replay_app, R1, <- Hm by lia.
      destruct (P2 (j - length es1)%nat) as [i ->]. exists (S i). simpl. by rewrite Hm1.
  - intros a Ha. inversion Ha; subst. apply untouched_app. split; [|by apply U2].
    apply U1. by apply uop_write_range.
Qed.

Lemma applied_app p ops1 p1 ops2 p2 : applied p ops1 p1 → applied p1 ops2 p2 →
  applied p (ops1 ++ ops2) p2.
Proof.
  intros [Hm (es1 & E1 & R1 & P1 & U1)] [Hm2 (es2 & E2 & R2 & P2 & U2)].
  assert (∀ i, uops_apply (pm_mem p) (ops1 ++ take i ops2) = uops_apply (pm_mem p1) (take i ops2)) as Happ.
  { intros i. unfold uops_apply. rewrite foldl_app. fold (uops_apply (pm_mem p) ops1). by rewrite <- Hm. }
  split; [unfold uops_apply; rewrite foldl_app; fold (uops_apply (pm_mem p) ops1); by rewrite <- Hm|].
  exists (es1 ++ es2). split_and!.
  - by rewrite E2, E1, (assoc_L (++)).
  - by rewrite replay_app, R1.
  - intros j. destruct (decide (j ≤ length es1)%nat).
    + rewrite take_app_le by lia. destruct (P1 j) as [i ->]. exists (min i (length ops1)).
      rewrite take_app_le by lia. destruct (decide (i ≤ length ops1)%nat).
      * by rewrite Nat.min_l.
      * rewrite Nat.min_r, !take_ge by lia. done.
    + rewrite take_app_ge, replay_app, R1 by lia. destruct (P2 (j - length es1)%nat) as [i ->].
      exists (length ops1 + i)%nat. rewrite take_app_add. by rewrite Happ.
  - intros a [H1 H2]%Forall_app. apply untouched_app. auto.
Qed.

Section process.
Context (o : pmem_ops) `{!OpsSpec o}.
Implicit Types p : pmem.

Lemma entry_apply_run e persist p : ∃ p',
  ulog_entry_apply o e persist p = (Ok tt, p') ∧
  one_write p p' (uop_write (pm_mem p) (uop_at (pm_mem p) e)).1
                 (uop_write (pm_mem p) (uop_at (pm_mem p) e)).2.
Proof using Type*.
  set (m := pm_mem p). set (dst := ulog_entry_offset m e).
  assert (∀ v, ∃ p', modify (λ q, if persist then op_persist o q dst 8 PMEMOBJ_F_RELAXED
      else op_flush o q dst 8 PMEMOBJ_F_RELAXED) (pm_store p dst v) = (Ok tt, p') ∧
    one_write p p' dst v) as Hst.
  { intros v. eexists. split; [done|]. destruct persist.
    - destruct (ops_persist (pm_store p dst v) dst 8 PMEMOBJ_F_RELAXED) as (es & -> & Hq).
      by apply one_write_emit.
    - destruct (ops_flush (pm_store p dst v) dst 8 PMEMOBJ_F_RELAXED) as (es & -> & Hq).
      by apply one_write_emit. }
  unfold ulog_entry_apply. erewrite bind_ok by reflexivity. erewrite bind_ok by reflexivity.
  cbv zeta. unfold uop_at. fold m dst. cbn [compose]. fold m dst.
  destruct (_ =? ULOG_OPERATION_AND).
  { erewrite bind_ok by reflexivity. erewrite bind_ok by reflexivity. apply Hst. }
  destruct (_ =? ULOG_OPERATION_OR).
  { erewrite bind_ok by reflexivity. erewrite bind_ok by reflexivity. apply Hst. }
  destruct (_ =? ULOG_OPERATION_SET).
  { erewrite bind_ok by reflexivity. erewrite bind_ok by reflexivity. apply Hst. }
  destruct (_ =? ULOG_OPERATION_BUF_SET).
  { erewrite bind_ok by reflexivity. erewrite bind_ok by reflexivity. eexists. split; [done|].
    apply ops_memset. }
  destruct (_ =? ULOG_OPERATION_BUF_CPY).
  { erewrite bind_ok by reflexivity. erewrite bind_ok by reflexivity. eexists. split; [done|].
    apply ops_memcpy. }
  exists p. split; [done|apply one_write_nil].
Qed.

Context (m : mem) (R : Z → Prop).

Lemma one_write_frame p p' op : one_write p p' (uop_write (pm_mem p) op).1 (uop_write (pm_mem p) op).2 →
  (∀ a, uop_touches op a → ¬ R a) → (∀ a, R a → rd (pm_mem p) a = rd m a) →
  ∀ a, R a → rd (pm_mem p') a = rd m a.
Proof.
  intros [Hm _] Hno Hag a Ha. rewrite Hm, rd_wr_out; [auto|]. apply uop_write_range. intros Ht. by apply (Hno a).
Qed.

Lemma process_in fuel : ∀ r offset es stop p,
  parse_in fuel m r offset = Ok (es, stop) → covers_in R fuel m r offset →
  Forall (λ op, ∀ a, uop_touches op a → ¬ R a) (uop_at m <$> es) →
  (∀ a, R a → rd (pm_mem p) a = rd m a) →
  ∃ p', foreach_in (ulog_process_entry o) fuel r offset 0 p = (Ok (0, stop), p') ∧
    applied p (uop_at m <$> es) p' ∧ (∀ a, R a → rd (pm_mem p') a = rd m a).
Proof using Type*.
  induction fuel as [|fuel IH]; intros r offset es stop p Hp Hc Hno Hag; simpl in Hp;
    destruct Hc as [Hh Hc]; destruct (header_frame m (pm_mem p) R Hag r Hh) as [Hcap _];
    simpl; (erewrite bind_ok by reflexivity); cbn [compose]; rewrite Hcap.
  - destruct (offset <? ulog_f_capacity m r); [done|]. injection Hp as <- <-.
    exists p. split_and!; [done|apply applied_nil|done].
  - destruct (Z.ltb_spec offset (ulog_f_capacity m r)) as [Hlt|_].
    2: { injection Hp as <- <-. exists p. split_and!; [done|apply applied_nil|done]. }
    destruct (Hc Hlt) as [Hre Hrest]. set (e := ulog_data r + offset) in *.
    unfold entry_valid, try_mem. unfold mbind at 1, M_bind at 1. cbv beta.
    rewrite (valid_frame m (pm_mem p) R Hag e Hre).
    destruct (ulog_entry_valid m e) as [[]| |] eqn:Ev; [| |done|done].
    2: { injection Hp as <- <-. exists p. split_and!; [done|apply applied_nil|done]. }
    destruct (parse_in fuel m r _) as [[es' stop']| |] eqn:Ep; [|done|done]. injection Hp as <- <-.
    inversion Hno as [|op ops Hno1 Hno2]; subst.
    destruct (entry_apply_run e false p) as (p1 & E1 & Hw).
    rewrite (uop_frame m (pm_mem p) R Hag e Hre) in Hw.
    pose proof (one_write_frame _ _ _ Hw Hno1 Hag) as Hag1.
    destruct (IH r _ es' stop' p1 Ep (Hrest eq_refl) Hno2 Hag1) as (p2 & E2 & Ha2 & Hag2).
    exists p2. split; [|split; [by eapply applied_cons|done]].
    simpl. erewrite bind_ok by (unfold ulog_process_entry; by erewrite bind_ok by exact E1).
    simpl. erewrite bind_ok by reflexivity. cbn [compose].
    rewrite (size_frame m (pm_mem p1) R Hag1 e Hre). exact E2.
Qed.

Lemma process_logs nlogs fuel : ∀ r es p,
  parse_logs nlogs fuel m r = Ok es → covers_logs R nlogs fuel m r →
  Forall (λ op, ∀ a, uop_touches op a → ¬ R a) (uop_at m <$> es) →
  (∀ a, R a → rd (pm_mem p) a = rd m a) →
  ∃ p', foreach_logs (ulog_process_entry o) nlogs fuel r 0 p = (Ok 0, p') ∧
    applied p (uop_at m <$> es) p' ∧ (∀ a, R a → rd (pm_mem p') a = rd m a).
Proof using Type*.
  induction nlogs as [|nlogs IH]; intros [r|] es p Hp Hc Hno Hag; simpl in *; try done.
  - injection Hp as <-. exists p. split_and!; [done|apply applied_nil|done].
  - destruct Hc as [Hc Hcn]. destruct (parse_in fuel m r 0) as [[es1 stop]| |] eqn:Ep; [|done|done].
    destruct stop.
    + injection Hp as <-. destruct (process_in fuel r 0 es1 true p Ep Hc Hno Hag) as (p1 & E1 & Ha & Hag1).
      exists p1. split_and!; [|done|done]. by erewrite bind_ok by exact E1.
    + destruct (parse_logs nlogs fuel m (ulog_next m r)) as [es2| |] eqn:Ep2; [|done|done].
      injection Hp as <-. rewrite fmap_app in Hno. apply Forall_app in Hno as [Hno1 Hno2].
      destruct (process_in fuel r 0 es1 false p Ep Hc Hno1 Hag) as (p1 & E1 & Ha1 & Hag1).
      destruct (IH (ulog_next m r) es2 p1 Ep2 (Hcn es1 eq_refl) Hno2 Hag1) as (p2 & E2 & Ha2 & Hag2).
      exists p2. split; [|split; [rewrite fmap_app; by eapply applied_app|done]].
      erewrite bind_ok by exact E1. simpl. erewrite bind_ok by reflexivity. cbn [compose].
      assert (∀ a, r ≤ a < r + 64 → R a) as Hh by (destruct fuel; apply Hc).
      destruct (header_frame m (pm_mem p1) R Hag1 r Hh) as [_ ->]. exact E2.
  - injection Hp as <-. exists p. split_and!; [done|apply applied_nil|done].
Qed.
End process.
