(* ===== verification/UlogEntry.v ===== *)
(** * libpmemobj: creating log entries

    What the entry constructors of [ulog.c] leave in memory is what the walk over the log
    recognises: the encoding of type and offset in one word, and the checksum of buffer
    entries, computed piecewise and verified as a whole. *)

From stdpp Require Import base gmap list numbers.
From S2P Require Import Prelude Memory Pmem Util Ulog UlogSpec.
Local Open Scope Z_scope.

(** ** Type and offset *)

Lemma shiftl_bit k n i : 0 ≤ n → 0 ≤ i → Z.testbit (Z.shiftl k n) i = Z.testbit k (i - n).
Proof. intros. by rewrite Z.shiftl_spec. Qed.

Lemma high_bit_false x n i : 0 ≤ x < 2 ^ n → 0 ≤ n ≤ i → Z.testbit x i = false.
Proof.
  intros Hx Hi. assert (2 ^ n ≤ 2 ^ i) by (apply Z.pow_le_mono_r; lia).
  rewrite Z.testbit_eqb by lia. by rewrite Z.div_small by lia.
Qed.

Definition is_type (k : Z) : Prop := k = 0 ∨ k = 1 ∨ k = 2 ∨ k = 5 ∨ k = 6.

Lemma encode_type off k : 0 ≤ off < 2 ^ 61 → 0 ≤ k < 8 →
  ULOG_OPERATION_FROM_OFFSET (off ||| Z.shiftl k 61) = Z.shiftl k 61.
Proof.
  intros Hoff Hk. unfold ULOG_OPERATION_FROM_OFFSET, ULOG_OPERATION_MASK.
  apply Z.bits_inj'. intros i Hi. rewrite Z.land_spec, Z.lor_spec, !shiftl_bit by lia.
  destruct (decide (i < 61)).
  - rewrite (Z.testbit_neg_r k), (Z.testbit_neg_r 7) by lia. by rewrite andb_false_r.
  - rewrite (high_bit_false off 61) by lia. simpl. destruct (decide (i - 61 < 3)).
    + assert (i - 61 = 0 ∨ i - 61 = 1 ∨ i - 61 = 2) as [->|[->| ->]] by lia; apply andb_true_r.
    + by rewrite (high_bit_false k 3) by lia.
Qed.

Lemma encode_offset off k : 0 ≤ off < 2 ^ 61 → 0 ≤ k < 8 →
  (off ||| Z.shiftl k 61) &&& ULOG_OFFSET_MASK = off.
Proof.
  intros Hoff Hk. change ULOG_OFFSET_MASK with (Z.ones 61).
  apply Z.bits_inj'. intros i Hi. rewrite Z.land_spec, Z.lor_spec, shiftl_bit by lia.
  destruct (decide (i < 61)).
  - rewrite (Z.testbit_neg_r k) by lia. rewrite Z.ones_spec_low by lia. by rewrite orb_false_r, andb_true_r.
  - rewrite Z.ones_spec_high by lia. rewrite (high_bit_false off 61) by lia. apply andb_false_r.
Qed.

Lemma encode_range off k : 0 ≤ off < 2 ^ 61 → 0 ≤ k < 8 → 0 ≤ off ||| Z.shiftl k 61 < 2 ^ 64.
Proof.
  intros Hoff Hk. assert (0 ≤ off ||| Z.shiftl k 61).
  { apply Z.lor_nonneg. split; [lia|]. apply Z.shiftl_nonneg. lia. }
  split; [done|]. apply Z.nle_gt. intros Hge.
  set (x := off ||| Z.shiftl k 61) in *.
  assert (0 ≤ Z.log2 x) by apply Z.log2_nonneg.
  assert (64 ≤ Z.log2 x) as Hlog by (apply Z.log2_le_pow2; lia).
  pose proof (Z.bit_log2 x ltac:(lia)) as Hb. unfold x in Hb at 1.
  rewrite Z.lor_spec, shiftl_bit in Hb by lia.
  rewrite (high_bit_false off 61), (high_bit_false k 3) in Hb by lia. done.
Qed.

(** What is read at an entry whose first word is known. *)
Lemma first_word m e off k : 0 ≤ off < 2 ^ 61 → 0 ≤ k < 8 →
  rd64 m e = off ||| Z.shiftl k 61 →
  ulog_entry_type m e = Z.shiftl k 61 ∧ ulog_entry_offset m e = off.
Proof.
  intros Hoff Hk Hm. unfold ulog_entry_type, ulog_entry_offset, entry_f_offset. rewrite Hm.
  split; [by apply encode_type|by apply encode_offset].
Qed.

Lemma rd64_wr_sub m e bs k v : Forall is_byte bs → 0 ≤ k → k + 8 ≤ len bs → 0 ≤ v < 2 ^ 64 →
  take 8 (drop (Z.to_nat k) bs) = le_bytes 8 v → rd64 (wr m e bs) (e + k) = v.
Proof.
  intros Hb Hk Hl Hv Ht. unfold rd64. rewrite rdn_wr_sub by (done || lia).
  replace (e + k - e) with k by lia. rewrite Ht, le_of_le_bytes. by apply Z.mod_small.
Qed.

(** ** The image of a buffer entry *)

Section image.
Context (dest k : Z) (src : list Z).
Context (Hd : 0 < dest < 2 ^ 61) (Hk : k = 5 ∨ k = 6).
Context (Hsrc : Forall is_byte src) (Hsz : len src < 2 ^ 61).

Definition ncopy : Z := Z.min (len src) 40.
Definition remaining : Z := len src - ncopy.
Definition rcopy : Z := remaining / 64 * 64.
Definition lcopy : Z := remaining mod 64.
Definition head_line (csum : Z) : list Z :=
  le_bytes 8 (dest ||| Z.shiftl k 61) ++ le_bytes 8 csum ++ le_bytes 8 (len src) ++
  take (Z.to_nat ncopy) src ++ zeros (40 - ncopy).
Definition middle : list Z := take (Z.to_nat rcopy) (drop (Z.to_nat ncopy) src).
Definition last_line : list Z :=
  take (Z.to_nat lcopy) (drop (Z.to_nat rcopy) (drop (Z.to_nat ncopy) src)) ++ zeros (64 - lcopy).
Definition image (csum : Z) : list Z :=
  head_line csum ++ middle ++ (if lcopy =? 0 then [] else last_line).

Lemma copies_eq : 0 ≤ ncopy ≤ 40 ∧ ncopy ≤ len src ∧ 0 ≤ remaining ∧ 0 ≤ rcopy ≤ remaining ∧
  0 ≤ lcopy < 64 ∧ remaining = rcopy + lcopy ∧ (remaining = 0 ∨ ncopy = 40).
Proof.
  unfold rcopy, lcopy. pose proof (Z.div_mod remaining 64 ltac:(lia)).
  pose proof (Z.mod_pos_bound remaining 64 ltac:(lia)).
  assert (0 ≤ remaining) by (unfold remaining, ncopy; lia).
  pose proof (Z.div_pos remaining 64 ltac:(lia) ltac:(lia)).
  unfold remaining, ncopy in *. lia.
Qed.

Lemma length_head csum : len (head_line csum) = 64.
Proof.
  pose proof copies_eq. unfold head_line. rewrite !length_app, !length_le_bytes, length_take.
  pose proof (length_zeros (40 - ncopy) ltac:(lia)). lia.
Qed.

Lemma length_middle : len middle = rcopy.
Proof. pose proof copies_eq. unfold middle. rewrite length_take, length_drop. unfold remaining in *. lia. Qed.

Lemma length_last : len last_line = 64.
Proof.
  pose proof copies_eq. unfold last_line. rewrite length_app, length_take, !length_drop.
  pose proof (length_zeros (64 - lcopy) ltac:(lia)). unfold remaining in *. lia.
Qed.

Lemma rcopy_mod : rcopy mod 64 = 0.
Proof. unfold rcopy. apply Z.mod_mul. lia. Qed.

Lemma length_image csum : len (image csum) = CACHELINE_ALIGN (u64 (24 + len src)).
Proof using Hsz.
  pose proof copies_eq as Hc. pose proof (length_head csum). pose proof length_middle. pose proof length_last.
  unfold image. rewrite !length_app. rewrite u64_id by lia.
  unfold CACHELINE_ALIGN, CACHELINE_SIZE. rewrite ALIGN_UP_64 by lia. unfold roundup.
  assert (∀ q, 24 + len src ≤ 64 * q → 64 * (q - 1) < 24 + len src →
    (24 + len src + (64 - 1)) / 64 * 64 = 64 * q) as Hq.
  { intros q Hq1 Hq2. rewrite (Z.div_unique_pos (24 + len src + (64 - 1)) 64 q (24 + len src + 63 - 64 * q)); lia. }
  pose proof rcopy_mod as Hrm. pose proof (Z.div_mod rcopy 64 ltac:(lia)).
  unfold remaining in *. destruct (Z.eqb_spec lcopy 0) as [Hz|Hz].
  - rewrite (Hq (1 + rcopy / 64)); cbn [length]; lia.
  - rewrite (Hq (2 + rcopy / 64)); lia.
Qed.

Lemma image_bytes csum : Forall is_byte (image csum).
Proof using Hsrc.
  assert (∀ n n', Forall is_byte (take n (drop n' src))) as Htd
    by (intros; by apply Forall_take, Forall_drop).
  unfold image, head_line, middle, last_line. rewrite !Forall_app, drop_drop. split_and!; auto with pmdk.
  - by apply Forall_take.
  - destruct (_ =? 0); [constructor|]. apply Forall_app. auto with pmdk.
Qed.

(** The checksum field is the only difference between two images. *)
Lemma image_splice csum : image csum = splice (image 0) 8 (le_bytes 8 csum).
Proof.
  unfold splice, image, head_line. rewrite <- !(assoc_L (++)).
  rewrite take_app_length' by (by rewrite length_le_bytes). by f_equal.
Qed.

Lemma image_mod4 csum : len (image csum) mod 4 = 0.
Proof.
  pose proof (length_head csum). pose proof length_middle. pose proof length_last. pose proof rcopy_mod as Hr.
  unfold image. rewrite !length_app.
  pose proof (Z.div_mod rcopy 64 ltac:(lia)).
  destruct (lcopy =? 0); cbn [length].
  - apply Z.mod_divide; [lia|]. exists (16 + 16 * (rcopy / 64)). lia.
  - apply Z.mod_divide; [lia|]. exists (32 + 16 * (rcopy / 64)). lia.
Qed.

Lemma image_field : slice (image 0) 8 8 = zeros 8.
Proof.
  unfold slice, image, head_line. rewrite <- !(assoc_L (++)).
  rewrite drop_app_length' by (by rewrite length_le_bytes).
  rewrite take_app_length' by (by rewrite length_le_bytes). done.
Qed.

Lemma image_valid : util_checksum (image (checksum_value (image 0) 8 0)) 8 false 0 =
  Ok (true, image (checksum_value (image 0) 8 0)).
Proof.
  rewrite (image_splice (checksum_value _ _ _)). apply checksum_splice_ok; [apply image_mod4|done|lia|].
  unfold image. rewrite length_app. pose proof (length_head 0). lia.
Qed.

(** The data, read back. *)
Lemma image_data csum : take (length src) (drop 24 (image csum)) = src.
Proof.
  pose proof copies_eq as Hc. unfold image, head_line. rewrite <- !(assoc_L (++)).
  assert (∀ x y z X, drop 24 (le_bytes 8 x ++ le_bytes 8 y ++ le_bytes 8 z ++ X) = X) as -> by done.
  destruct (decide (remaining = 0)) as [Hz|Hz].
  - assert (take (Z.to_nat ncopy) src = src) as -> by (apply take_ge; unfold remaining in Hz; lia).
    by apply take_app_length.
  - assert (ncopy = 40) as Hn by lia. rewrite Hn. change (zeros (40 - 40)) with (@nil Z). simpl.
    unfold middle, last_line. rewrite Hn. change (Z.to_nat 40) with 40%nat.
    set (rest := drop 40 src). assert (src = take 40 src ++ rest) as Hs by (symmetry; apply take_drop).
    assert (length rest = Z.to_nat remaining) as Hlr by (unfold rest, remaining; rewrite length_drop; lia).
    assert (length src = (40 + length rest)%nat) as Hls.
    { unfold rest. rewrite length_drop. unfold remaining in *. lia. }
    rewrite Hls, take_app_add'.
    2: { rewrite length_take. unfold remaining in *. lia. }
    transitivity (take 40 src ++ rest); [f_equal|by symmetry].
    assert (length rest = (length (take (Z.to_nat rcopy) rest) + Z.to_nat lcopy)%nat) as Hl2
      by (rewrite length_take; lia).
    rewrite Hl2, take_app_add.
    transitivity (take (Z.to_nat rcopy) rest ++ drop (Z.to_nat rcopy) rest); [f_equal|apply take_drop].
    destruct (Z.eqb_spec lcopy 0) as [H0|H0].
    + rewrite H0. simpl. rewrite drop_ge by lia. done.
    + rewrite (take_ge (drop _ _)) by (rewrite length_drop; lia).
      apply take_app_length'. rewrite length_drop. lia.
Qed.

Definition buf_op : uop :=
  if k =? 5 then UFill dest (nth 0 src 0) (len src) else UCopy dest src.

(** The entry the image stands for; a fill takes its byte from the data. *)
Lemma image_entry m e : src ≠ [] →
  let csum := checksum_value (image 0) 8 0 in
  rdn m e (length (image csum)) = image csum →
  ulog_entry_valid m e = Ok true ∧ ulog_entry_size m e = len (image csum) ∧ uop_at m e = buf_op.
Proof using Hd Hk Hsrc Hsz.
  intros Hne csum Hm.
  assert (64 ≤ len (image csum)) as Hl64.
  { unfold image. rewrite length_app. pose proof (length_head csum). lia. }
  assert (∀ i n, (i + n ≤ length (image csum))%nat →
    rdn m (e + Z.of_nat i) n = take n (drop i (image csum))) as Hsub.
  { intros i n Hin. rewrite <- Hm. rewrite <- (rdn_sub m e (length (image csum))) by lia.
    do 2 f_equal. lia. }
  pose proof (encode_range dest k ltac:(lia) ltac:(lia)) as Hr.
  assert (∀ v, 0 ≤ v < 2 ^ 64 → le_of (le_bytes 8 v) = v) as Hle.
  { intros v Hv. rewrite le_of_le_bytes. by apply Z.mod_small. }
  assert (rd64 m e = dest ||| Z.shiftl k 61) as H0.
  { unfold rd64. pose proof (Hsub 0%nat 8%nat ltac:(lia)) as E0. rewrite Z.add_0_r in E0. rewrite E0.
    rewrite <- (Hle (dest ||| Z.shiftl k 61)) by done. done. }
  assert (rd64 m (e + 16) = len src) as H16.
  { unfold rd64. change (e + 16) with (e + Z.of_nat 16). rewrite (Hsub 16%nat 8%nat) by lia. rewrite <- (Hle (len src)) by lia. done. }
  destruct (first_word m e dest k ltac:(lia) ltac:(lia) H0) as [Ht Ho].
  assert (ulog_entry_size m e = len (image csum)) as Hsize.
  { unfold ulog_entry_size. rewrite Ht, length_image. unfold entry_f_size. rewrite H16.
    by destruct Hk as [-> | ->]. }
  assert (rdn m (e + 24) (length src) = src) as Hdata.
  { change (e + 24) with (e + Z.of_nat 24). rewrite (Hsub 24%nat); [by rewrite image_data|].
    pose proof (image_data csum) as E. apply (f_equal length) in E. rewrite length_take, length_drop in E. lia. }
  split_and!; [|done|].
  - unfold ulog_entry_valid, entry_f_offset. rewrite H0.
    rewrite (proj2 (Z.eqb_neq _ _)).
    2: { intros Hz. unfold ulog_entry_offset, entry_f_offset in Ho.
         rewrite H0, Hz, Z.land_0_l in Ho. lia. }
    rewrite Ht, Hsize, Nat2Z.id, Hm. unfold csum. rewrite image_valid. by destruct Hk as [-> | ->].
  - unfold uop_at, buf_op. rewrite Ht, Ho. unfold entry_f_size, entry_data. rewrite H16.
    destruct Hk as [-> | ->]; simpl.
    + change (UFill dest (rd m (e + 24)) (len src) = UFill dest (nth 0 src 0) (len src)). f_equal.
      transitivity (nth 0 (rdn m (e + 24) (length src)) 0); [|by rewrite Hdata].
      rewrite nth_rdn; [f_equal; lia|]. destruct src; [done|simpl; lia].
    + change (UCopy dest (rdn m (e + 24) (Z.to_nat (len src))) = UCopy dest src).
      by rewrite Nat2Z.id, Hdata.
Qed.
End image.

(** ** Value entries *)

Definition val_op (k dest value : Z) : uop :=
  if k =? 0 then USet dest value else if k =? 1 then UAnd dest value else UOr dest value.

(** The two words of a value entry at [e]. *)
Definition val_entry_at (m : mem) (e dest value k : Z) : Prop :=
  rd64 m e = dest ||| Z.shiftl k 61 ∧ rd64 m (e + 8) = value.

Lemma val_entry_reads m e dest value k : 0 < dest < 2 ^ 61 → 0 ≤ k ≤ 2 → val_entry_at m e dest value k →
  ulog_entry_type m e = Z.shiftl k 61 ∧ ulog_entry_offset m e = dest ∧
  ulog_entry_valid m e = Ok true ∧ ulog_entry_size m e = 16 ∧ uop_at m e = val_op k dest value.
Proof.
  intros Hd Hk [H0 H8]. destruct (first_word m e dest k ltac:(lia) ltac:(lia) H0) as [Ht Ho].
  assert (k = 0 ∨ k = 1 ∨ k = 2) as Hk3 by lia. split_and!; [done..| | |].
  - unfold ulog_entry_valid, entry_f_offset. rewrite H0, Ht.
    rewrite (proj2 (Z.eqb_neq _ _)).
    2: { intros Hz. unfold ulog_entry_offset, entry_f_offset in Ho.
         rewrite H0, Hz, Z.land_0_l in Ho. lia. }
    by destruct Hk3 as [->|[->| ->]].
  - unfold ulog_entry_size. rewrite Ht. by destruct Hk3 as [->|[->| ->]].
  - unfold uop_at. rewrite Ht, Ho. unfold entry_f_value. rewrite H8. by destruct Hk3 as [->|[->| ->]].
Qed.

(** What [ulog_entry_val_create] copies: the entry and the word that ends the log. *)
Definition val_bytes (dest value k : Z) : list Z :=
  le_bytes 8 (dest ||| Z.shiftl k 61) ++ le_bytes 8 value ++ le_bytes 8 0.

Lemma length_val_bytes dest value k : len (val_bytes dest value k) = 24.
Proof. unfold val_bytes. rewrite !length_app, !length_le_bytes. done. Qed.

Lemma val_bytes_bytes dest value k : Forall is_byte (val_bytes dest value k).
Proof. unfold val_bytes. rewrite !Forall_app. auto with pmdk. Qed.
#[local] Hint Resolve val_bytes_bytes : pmdk.

Lemma val_bytes_read m e dest value k : 0 < dest < 2 ^ 61 → 0 ≤ value < 2 ^ 64 → 0 ≤ k ≤ 2 →
  let m' := wr m e (val_bytes dest value k) in
  val_entry_at m' e dest value k ∧ rd64 m' (e + 16) = 0.
Proof.
  intros Hd Hv Hk m'. pose proof (encode_range dest k ltac:(lia) ltac:(lia)) as Hr.
  pose proof (length_val_bytes dest value k) as Hl. split; [split|].
  - replace e with (e + 0) at 1 by lia. apply rd64_wr_sub; [auto with pmdk|lia..|].
    apply (take_app_length' _ _ 8). by rewrite length_le_bytes.
  - apply rd64_wr_sub; [auto with pmdk|lia..|]. unfold val_bytes.
    rewrite drop_app_length' by (by rewrite length_le_bytes). apply take_app_length'. by rewrite length_le_bytes.
  - apply rd64_wr_sub; [auto with pmdk|lia..|]. unfold val_bytes.
    rewrite (assoc_L (++)), drop_app_length' by (by rewrite length_app, !length_le_bytes).
    apply take_ge. by rewrite length_le_bytes.
Qed.

Section create.
Context (o : pmem_ops) `{!OpsSpec o}.
Implicit Types p : pmem.

Lemma val_create_run u offset dest value k p :
  0 < dest < 2 ^ 61 → 0 ≤ value < 2 ^ 64 → 0 ≤ k ≤ 2 →
  let e := ulog_data u + offset in
  ∃ p', ulog_entry_val_create o u offset dest value (Z.shiftl k 61) p = (Ok e, p') ∧
    ulog_entry_valid (pm_mem p') e = Ok true ∧ ulog_entry_size (pm_mem p') e = 16 ∧
    uop_at (pm_mem p') e = val_op k dest value ∧
    ulog_entry_valid (pm_mem p') (e + 16) = Ok false ∧
    ∀ a, ¬ (e ≤ a < e + 24) → rd (pm_mem p') a = rd (pm_mem p) a.
Proof using Type*.
  intros Hd Hv Hk e. unfold ulog_entry_val_create. erewrite bind_ok by reflexivity.
  fold (val_bytes dest value k). eexists. split; [reflexivity|]. fold e.
  destruct (ops_memcpy p e (val_bytes dest value k) (PMEMOBJ_F_MEM_NOFLUSH ||| PMEMOBJ_F_RELAXED)) as [-> _].
  destruct (val_bytes_read (pm_mem p) e dest value k Hd Hv Hk) as [Hat H16].
  destruct (val_entry_reads _ _ _ _ _ Hd Hk Hat) as (_ & _ & H1 & H2 & H3). split_and!; [done..| |].
  - unfold ulog_entry_valid, entry_f_offset. by rewrite H16.
  - intros a Ha. apply rd_wr_out. rewrite length_val_bytes. lia.
Qed.

(** ** Buffer entries *)

Lemma seq_piece bs lohi : len bs mod 4 = 0 → 0 ≤ lohi.1 < 2 ^ 32 → 0 ≤ lohi.2 < 2 ^ 32 →
  util_checksum_seq bs (csum_of lohi) = Ok (csum_of (checksum_seq_loop (words bs) lohi.1 lohi.2)).
Proof.
  intros Hm H1 H2. unfold util_checksum_seq. rewrite mod4_eqb by done.
  by destruct (csum_of_halves lohi H1 H2) as [-> ->].
Qed.

(** The checksum of the pieces is that of the image. *)
Lemma image_checksum dest k src : ∃ c0 c1,
  util_checksum_seq (head_line dest k src 0) 0 = Ok c0 ∧
  (if rcopy src =? 0 then Ok c0 else util_checksum_seq (middle src) c0) = Ok c1 ∧
  (if lcopy src =? 0 then Ok c1 else util_checksum_seq (last_line src) c1) =
    Ok (checksum_value (image dest k src 0) 8 0).
Proof.
  pose proof (length_head dest k src 0) as Hh. pose proof (length_middle src) as Hm.
  pose proof (length_last src) as Hl. pose proof (rcopy_mod src) as Hr.
  assert (len (head_line dest k src 0) mod 4 = 0) as Hh4 by (by rewrite Hh).
  assert (len (last_line src) mod 4 = 0) as Hl4 by (by rewrite Hl).
  assert (len (middle src) mod 4 = 0) as Hm4.
  { rewrite Hm. pose proof (Z.div_mod (rcopy src) 64 ltac:(lia)). apply Z.mod_divide; [lia|].
    exists (16 * (rcopy src / 64)). lia. }
  set (l0 := checksum_seq_loop (words (head_line dest k src 0)) 0 0).
  destruct (checksum_seq_range (words (head_line dest k src 0)) 0 0) as [A0 B0]; [lia..|]. fold l0 in A0, B0.
  set (l1 := checksum_seq_loop (words (middle src)) l0.1 l0.2).
  destruct (checksum_seq_range (words (middle src)) l0.1 l0.2 A0 B0) as [A1 B1]. fold l1 in A1, B1.
  exists (csum_of l0), (csum_of l1). split_and!.
  - exact (seq_piece (head_line dest k src 0) (0, 0) Hh4 ltac:(simpl; lia) ltac:(simpl; lia)).
  - destruct (Z.eqb_spec (rcopy src) 0) as [Hz|_]; [|by apply seq_piece].
    unfold l1. destruct (middle src); [by destruct l0|]. rewrite Hz in Hm. simpl in Hm. lia.
  - rewrite checksum_value_seq; [|apply image_mod4|done|lia|].
    2: { unfold image. rewrite length_app. lia. }
    assert (splice (image dest k src 0) 8 (zeros 8) = image dest k src 0) as ->.
    { symmetry. exact (image_splice dest k src 0). }
    unfold image. rewrite words_app, checksum_seq_app by done. fold l0.
    rewrite words_app, checksum_seq_app by done. fold l1.
    destruct (lcopy src =? 0); [by destruct l1|]. by apply seq_piece.
Qed.

Lemma buf_create_run u offset dest src k p :
  0 < dest < 2 ^ 61 → k = 5 ∨ k = 6 → Forall is_byte src → len src < 2 ^ 61 → src ≠ [] →
  let e := ulog_data u + offset in
  ∃ p', ulog_entry_buf_create o u offset dest src (Z.shiftl k 61) p = (Ok e, p') ∧
    ulog_entry_valid (pm_mem p') e = Ok true ∧
    ulog_entry_size (pm_mem p') e = CACHELINE_ALIGN (24 + len src) ∧
    uop_at (pm_mem p') e = buf_op dest k src ∧
    ∀ a, ¬ (e ≤ a < e + CACHELINE_ALIGN (24 + len src)) → rd (pm_mem p') a = rd (pm_mem p) a.
Proof using Type*.
  intros Hd Hk Hb Hs Hne e. pose proof (copies_eq src) as Hc.
  unfold ulog_entry_buf_create. cbv zeta.
  change (CACHELINE_SIZE - sizeof_ulog_entry_buf) with 40. fold (ncopy src).
  rewrite (proj2 (Z.ltb_ge (len src) (ncopy src))) by lia. fold (remaining src).
  unfold CACHELINE_SIZE.
  assert (remaining src < 2 ^ 64) by (unfold remaining; lia).
  rewrite ALIGN_DOWN_64 by lia. fold (rcopy src).
  assert (remaining src - rcopy src = lcopy src) as -> by lia.
  fold (middle src) (last_line src). set (flags := PMEMOBJ_F_MEM_NODRAIN ||| PMEMOBJ_F_MEM_NONTEMPORAL).
  fold (head_line dest k src 0). fold e.
  destruct (image_checksum dest k src) as (c0 & c1 & E0 & E1 & E2).
  set (csum := checksum_value (image dest k src 0) 8 0) in *.
  set (p1 := if rcopy src =? 0 then p else op_memcpy o p (entry_data e + ncopy src) (middle src) flags).
  set (p2 := if lcopy src =? 0 then p1
             else op_memcpy o p1 (entry_data e + ncopy src + rcopy src) (last_line src) flags).
  set (p3 := op_memcpy o p2 e (head_line dest k src csum) flags).
  exists (op_drain o p3). split.
  { erewrite bind_ok by reflexivity. fold p1. erewrite bind_ok by reflexivity. fold p2.
    erewrite bind_ok by (unfold try_mem; rewrite E0; reflexivity).
    erewrite (bind_ok _ _ p2 c1 p2) by (destruct (rcopy src =? 0); unfold try_mem; rewrite <- E1; done).
    erewrite (bind_ok _ _ p2 csum p2) by (destruct (lcopy src =? 0); unfold try_mem; rewrite <- E2; done).
    fold (head_line dest k src csum). by erewrite bind_ok by reflexivity. }
  set (last := if lcopy src =? 0 then [] else last_line src).
  pose proof (length_middle src) as Hlm. pose proof (length_last src) as Hll.
  assert (pm_mem p1 = wr (pm_mem p) (e + 64) (middle src)) as M1.
  { unfold p1. destruct (Z.eqb_spec (rcopy src) 0) as [Hz|Hz].
    - destruct (middle src); [done|]. simpl in Hlm. lia.
    - destruct (ops_memcpy p (entry_data e + ncopy src) (middle src) flags) as [-> _].
      f_equal. unfold entry_data. lia. }
  assert (pm_mem p2 = wr (pm_mem p1) (e + 64 + rcopy src) last) as M2.
  { unfold p2, last. destruct (Z.eqb_spec (lcopy src) 0) as [Hz|Hz]; [done|].
    destruct (ops_memcpy p1 (entry_data e + ncopy src + rcopy src) (last_line src) flags) as [-> _].
    f_equal. unfold entry_data. lia. }
  assert (pm_mem (op_drain o p3) = wr (pm_mem p2) e (head_line dest k src csum)) as M3.
  { destruct (ops_drain p3) as (es & -> & _). simpl. apply ops_memcpy. }
  pose proof (length_head dest k src csum) as Hlh. pose proof (image_bytes dest k src Hb csum) as Hib.
  unfold image in Hib. fold last in Hib. apply Forall_app in Hib as [Hib1 Hib2].
  apply Forall_app in Hib2 as [Hib2 Hib3].
  pose proof (length_image dest k src Hs csum) as Hli. rewrite u64_id in Hli by lia.
  assert (length (image dest k src csum) = (64 + (Z.to_nat (rcopy src) + length last))%nat) as Hlen.
  { unfold image. fold last. rewrite !length_app. lia. }
  assert (rdn (pm_mem (op_drain o p3)) e (length (image dest k src csum)) = image dest k src csum) as Himg.
  { rewrite Hlen, !rdn_app. unfold image. fold last. rewrite M3. f_equal; [|f_equal].
    - apply rdn_wr_same'; [done|lia].
    - rewrite rdn_wr_out by lia. rewrite M2, rdn_wr_out by lia. rewrite M1. apply rdn_wr_same'; [done|lia].
    - rewrite rdn_wr_out by lia. rewrite M2.
      replace (e + Z.of_nat 64 + Z.of_nat (Z.to_nat (rcopy src))) with (e + 64 + rcopy src) by lia.
      by apply rdn_wr_same'. }
  destruct (image_entry dest k src Hd Hk Hb Hs (pm_mem (op_drain o p3)) e Hne Himg) as (V & S & U).
  fold csum in S. rewrite Hli in S. split_and!; [done..|].
  intros a Ha. rewrite M3, rd_wr_out by lia. rewrite M2, rd_wr_out by lia. rewrite M1. apply rd_wr_out. lia.
Qed.
End create.
