(* ===== verification/UlogTheorems.v ===== *)
(** * What the unified log guarantees *)

From stdpp Require Import base gmap list numbers.
From S2P Require Import Prelude Memory Pmem Util Ulog UlogSpec UlogEntry.
Local Open Scope Z_scope.

Section theorems.
Context (o : pmem_ops) `{!OpsSpec o}.
Implicit Types p : pmem.

(** A log that can be replayed: its entries are [ops], and [R] holds the bytes they are
    read from, which none of them overwrites. *)
Record replayable (fuel : nat) (m : mem) (u : Z) (ops : list uop) (R : Z → Prop) : Prop := Replayable {
  rp_entries : ∃ es, ulog_entries fuel m u = Ok es ∧ ops = uop_at m <$> es;
  rp_covers : covers_logs R fuel fuel m (Some u);
  rp_apart : Forall (λ op, ∀ a, uop_touches op a → ¬ R a) ops
}.

Lemma process_run fuel m u ops R p : replayable fuel m u ops R →
  (∀ a, R a → rd (pm_mem p) a = rd m a) →
  ∃ p', ulog_process o fuel u p = (Ok tt, p') ∧ applied p ops p'.
Proof using Type*.
  intros [(es & He & ->) Hc Ha] Hag. unfold ulog_process, ulog_foreach_entry.
  destruct (process_logs o m R fuel fuel (Some u) es p He Hc Ha Hag) as (p' & E & Hap & _).
  exists p'. split; [|done]. by erewrite bind_ok by exact E.
Qed.

(** [ulog_process] makes exactly the changes its entries describe, in order,
    each with at most one store, and touches nothing else. *)
Theorem ulog_process_applies fuel u ops R p : replayable fuel (pm_mem p) u ops R →
  ∃ p', ulog_process o fuel u p = (Ok tt, p') ∧ applied p ops p'.
Proof using Type*. intros H. by apply (process_run fuel (pm_mem p) u ops R). Qed.

Lemma applied_crash p ops p' m0 j x : persisted m0 p → applied p ops p' →
  (length (pm_evs p) ≤ j ≤ length (pm_evs p'))%nat → crash_at m0 (take j (pm_evs p')) x →
  mixture (pm_mem p) ops x ∧
  ∀ a, Forall (λ op, ¬ uop_touches op a) ops → rd x a = rd (pm_mem p) a.
Proof.
  intros [Hr Hs] [_ (es & He & _ & P & U)] Hj Hc. rewrite He in *.
  destruct (crash_settled _ _ _ _ _ Hs Hj Hc) as (k & _ & Hk). rewrite Hr in Hk. split.
  - intros a. destruct (Hk (a / 8)) as (i & _ & Ha). rewrite (Ha a eq_refl), take_take.
    destruct (P (min i k)) as [i' ->]. by exists i'.
  - intros a Ha. by apply (crash_untouched _ _ _ _ Hk), untouched_take, U.
Qed.

(** C3: recovery can be restarted.  If a power failure interrupts [ulog_process] at any
    point, losing any part of what was not written back, processing the log again from what is left on the
    media ends in the same memory as the uninterrupted run. *)
Theorem ulog_process_restart fuel u ops R p m0 p' j x :
  replayable fuel (pm_mem p) u ops R → persisted m0 p →
  ulog_process o fuel u p = (Ok tt, p') →
  (length (pm_evs p) ≤ j ≤ length (pm_evs p'))%nat → crash_at m0 (take j (pm_evs p')) x →
  ∃ p2, ulog_process o fuel u (Pmem x []) = (Ok tt, p2) ∧ mem_eq (pm_mem p2) (pm_mem p').
Proof using Type*.
  intros Hrp Hps Hrun Hj Hc.
  destruct (process_run fuel (pm_mem p) u ops R p Hrp) as (p1 & E & Hap); [done|].
  rewrite E in Hrun. injection Hrun as ->.
  destruct (applied_crash p ops p' m0 j x Hps Hap Hj Hc) as [Hmix Hout].
  destruct (process_run fuel (pm_mem p) u ops R (Pmem x []) Hrp) as (p2 & E2 & Hap2).
  { intros a Ha. apply Hout. eapply Forall_impl; [|exact (rp_apart _ _ _ _ _ Hrp)].
    intros op Hop Ht. by apply (Hop a). }
  exists p2. split; [exact E2|]. rewrite (ap_mem _ _ _ Hap2), (ap_mem _ _ _ Hap). by apply replay_mixture.
Qed.

Lemma clobber_run u next p : ∃ p', ulog_clobber o u next p = (Ok tt, p') ∧
  ulog_f_capacity (pm_mem p') u = 0.
Proof using Type*.
  unfold ulog_clobber. erewrite bind_ok by reflexivity. eexists. split; [done|].
  match goal with |- context [op_memcpy o ?p ?d ?bs ?f] => destruct (ops_memcpy p d bs f) as [-> _] end.
  set (n := (_ ∘ _) p). unfold ulog_f_capacity, rd64.
  rewrite rdn_wr_sub; [|..].
  - replace (Z.to_nat (u + 16 - u)) with 16%nat by lia.
    rewrite (assoc_L (++)), drop_app_length' by (rewrite length_app, length_le_bytes; done). done.
  - rewrite !Forall_app. auto with pmdk.
  - lia.
  - rewrite !length_app, length_le_bytes. simpl. lia.
Qed.

(** Only the header changes. *)
Lemma clobber_frame u next p : ∃ p', ulog_clobber o u next p = (Ok tt, p') ∧
  ∀ a, ¬ (u ≤ a < u + 64) → rd (pm_mem p') a = rd (pm_mem p) a.
Proof using Type*.
  unfold ulog_clobber. erewrite bind_ok by reflexivity. eexists. split; [done|]. intros a Ha.
  match goal with |- context [op_memcpy o ?p ?d ?bs ?f] => destruct (ops_memcpy p d bs f) as [-> _] end.
  apply rd_wr_out. rewrite !length_app, length_le_bytes. simpl. lia.
Qed.

Lemma not_needed fuel u p : ulog_f_capacity (pm_mem p) u = 0 →
  ulog_recovery_needed fuel u true p = (Ok false, p).
Proof.
  intros Hc. unfold ulog_recovery_needed, ulog_base_nbytes.
  erewrite bind_ok.
  2: { destruct fuel; simpl; (erewrite bind_ok by reflexivity); cbn [compose]; rewrite Hc; reflexivity. }
  erewrite bind_ok by reflexivity. cbn [compose]. by rewrite Hc.
Qed.

(** a recovered log needs no recovery: [ulog_recover] a second time does nothing. *)
Theorem ulog_recover_once fuel u p p1 : ulog_recover o fuel u p = (Ok tt, p1) →
  ulog_recover o fuel u p1 = (Ok tt, p1).
Proof using Type*.
  unfold ulog_recover at 1. intros (needed & p2 & Hn & H)%bind_inv_ok.
  assert (p2 = p) as ->.
  { assert (∀ fuel off p r p', base_nbytes_loop fuel u off p = (Ok r, p') → p' = p) as Hloop.
    { clear. induction fuel as [|fuel IH]; intros off p r p' H; simpl in H;
        (erewrite bind_ok in H by reflexivity); cbn [compose] in H;
        (destruct (off <? _); [|by injection H as _ <-]); [done|].
      apply bind_inv_ok in H as (v & p1 & [= Hv <-] & H). destruct v; simpl in H; [|by injection H as _ <-].
      erewrite bind_ok in H by reflexivity. by apply IH in H. }
    unfold ulog_recovery_needed in Hn. apply bind_inv_ok in Hn as (n & q & Hb & Hn).
    apply Hloop in Hb as ->. erewrite bind_ok in Hn by reflexivity.
    destruct (_ =? 0); [by injection Hn as _ <-|].
    apply bind_inv_ok in Hn as (v & q & [= Hv <-] & Hn). by injection Hn as _ <-. }
  destruct needed.
  - apply bind_inv_ok in H as ([] & p3 & _ & H).
    destruct (clobber_run u None p3) as (p4 & E & Hc). rewrite E in H. injection H as ->.
    unfold ulog_recover. by erewrite bind_ok by (by apply not_needed).
  - injection H as <-. unfold ulog_recover. by erewrite bind_ok by exact Hn.
Qed.

(** a value entry, once created, is what the walk over the log finds at its
    place: a valid entry of 16 bytes with the operation asked for, and nothing after it. *)
Theorem ulog_entry_val_create_spec u offset dest value k p :
  0 < dest < 2 ^ 61 → 0 ≤ value < 2 ^ 64 → 0 ≤ k ≤ 2 →
  let e := ulog_data u + offset in
  ∃ p', ulog_entry_val_create o u offset dest value (Z.shiftl k 61) p = (Ok e, p') ∧
    ulog_entry_valid (pm_mem p') e = Ok true ∧ ulog_entry_size (pm_mem p') e = 16 ∧
    uop_at (pm_mem p') e = val_op k dest value ∧
    ulog_entry_valid (pm_mem p') (e + 16) = Ok false ∧
    ∀ a, ¬ (e ≤ a < e + 24) → rd (pm_mem p') a = rd (pm_mem p) a.
Proof using Type*. by apply val_create_run. Qed.

(** a buffer entry, written with up to three copies and a checksum computed
    piece by piece, passes the checksum test of recovery and holds the data; only
    whole cache lines from its start on are written. *)
Theorem ulog_entry_buf_create_spec u offset dest src k p :
  0 < dest < 2 ^ 61 → k = 5 ∨ k = 6 → Forall is_byte src → len src < 2 ^ 61 → src ≠ [] →
  let e := ulog_data u + offset in
  ∃ p', ulog_entry_buf_create o u offset dest src (Z.shiftl k 61) p = (Ok e, p') ∧
    ulog_entry_valid (pm_mem p') e = Ok true ∧
    ulog_entry_size (pm_mem p') e = CACHELINE_ALIGN (24 + len src) ∧
    uop_at (pm_mem p') e = buf_op dest k src ∧
    ∀ a, ¬ (e ≤ a < e + CACHELINE_ALIGN (24 + len src)) → rd (pm_mem p') a = rd (pm_mem p) a.
Proof using Type*. by apply buf_create_run. Qed.
End theorems.

(** ** A concrete log *)

Definition ulog_ops : pmem_ops := norep_ops (obj_replica_init_local (pmem_init_funcs default_env) true).

(** A transient log with one entry, [*(uint64_t * )(base + 4096) = 7] ... *)
Definition ex_src : mem :=
  pm_mem (ulog_entry_val_create ulog_ops 0 0 4096 7 ULOG_OPERATION_SET (Pmem (wr64 ∅ 16 128) [])).2.

(** ... stored at 1024 in a pool. *)
Definition ex_pool : pmem := Pmem (pm_mem (ulog_store ulog_ops 1024 ex_src 0 16 128 [] (Pmem ∅ [])).2) [].

Definition in_ex_log (a : Z) : Prop := 1024 ≤ a < 1216.

Lemma ex_recovery_needed : (ulog_recovery_needed 10 1024 true ex_pool).1 = Ok true.
Proof. vm_compute. reflexivity. Qed.

Lemma ex_entry_reads e : e = 1088 ∨ e = 1104 → ∀ a, entry_reads (pm_mem ex_pool) e a → in_ex_log a.
Proof.
  intros He a [Ha|[Hb _]].
  - unfold in_ex_log. lia.
  - exfalso. destruct He as [-> | ->]; vm_compute in Hb; discriminate.
Qed.

Lemma ex_replayable : replayable 10 (pm_mem ex_pool) 1024 [USet 4096 7] in_ex_log.
Proof.
  assert (ulog_f_capacity (pm_mem ex_pool) 1024 = 128) as Hcap by (vm_compute; reflexivity).
  assert (ulog_entry_valid (pm_mem ex_pool) 1104 = Ok false) as Hv by (vm_compute; reflexivity).
  assert (u64 (0 + ulog_entry_size (pm_mem ex_pool) 1088) = 16) as Hs by (vm_compute; reflexivity).
  assert (parse_in 10 (pm_mem ex_pool) 1024 0 = Ok ([1088], true)) as Hp by (vm_compute; reflexivity).
  split.
  - exists [1088]. split; vm_compute; reflexivity.
  - cbn [covers_logs]. split; [|rewrite Hp; intros es [=]].
    cbn [covers_in]. split; [unfold in_ex_log; lia|]. intros _. split; [apply ex_entry_reads; by left|].
    intros _. change (ulog_data 1024 + 0) with 1088. rewrite Hs.
    split; [unfold in_ex_log; lia|]. intros _. split; [apply ex_entry_reads; by right|].
    change (ulog_data 1024 + 16) with 1104. rewrite Hv. intros [=].
  - repeat constructor. unfold uop_touches, in_ex_log. simpl. lia.
Qed.

Lemma ex_pool_persisted : persisted (pm_mem ex_pool) ex_pool.
Proof. split; [reflexivity|apply settled_nil]. Qed.

Lemma ulog_process_applies_witness : ∃ p',
  ulog_process ulog_ops 10 1024 ex_pool = (Ok tt, p') ∧
  pm_mem p' = wr (pm_mem ex_pool) 4096 (le_bytes 8 7).
Proof.
  destruct (ulog_process_applies ulog_ops 10 1024 [USet 4096 7] in_ex_log ex_pool ex_replayable)
    as (p' & E & Ha).
  exists p'. split; [exact E|]. exact (ap_mem _ _ _ Ha).
Defined.

Lemma ulog_process_restart_witness : ∃ p' p2,
  ulog_process ulog_ops 10 1024 ex_pool = (Ok tt, p') ∧
  ulog_process ulog_ops 10 1024 (Pmem (pm_mem p') []) = (Ok tt, p2) ∧ mem_eq (pm_mem p2) (pm_mem p').
Proof.
  destruct (process_run ulog_ops 10 (pm_mem ex_pool) 1024 [USet 4096 7] in_ex_log ex_pool ex_replayable)
    as (p' & E & Ha); [reflexivity|].
  destruct (ap_evs _ _ _ Ha) as (es & He & Hr & _).
  exists p'. destruct (ulog_process_restart ulog_ops 10 1024 [USet 4096 7] in_ex_log ex_pool (pm_mem ex_pool) p'
    (length (pm_evs p')) (pm_mem p') ex_replayable ex_pool_persisted E) as (p2 & E2 & Hm).
  - rewrite He, length_app. lia.
  - rewrite firstn_all, He. change (pm_evs ex_pool) with (@nil ev). rewrite <- Hr. apply crash_at_replay.
  - exists p2. split; [exact E|]. split; [exact E2|exact Hm].
Defined.

Lemma ulog_recover_once_witness : ∃ p1, ulog_recover ulog_ops 10 1024 ex_pool = (Ok tt, p1) ∧
  ulog_recover ulog_ops 10 1024 p1 = (Ok tt, p1).
Proof.
  assert ((ulog_recover ulog_ops 10 1024 ex_pool).1 = Ok tt) as Hr by (vm_compute; reflexivity).
  destruct (ulog_recover ulog_ops 10 1024 ex_pool) as [r p1] eqn:E. simpl in Hr. subst r.
  exists p1. split; [reflexivity|]. exact (ulog_recover_once ulog_ops 10 1024 ex_pool p1 E).
Defined.

Lemma ulog_entry_val_create_spec_witness : ∃ p',
  ulog_entry_val_create ulog_ops 1024 0 4096 5 ULOG_OPERATION_OR (Pmem ∅ []) = (Ok 1088, p') ∧
  uop_at (pm_mem p') 1088 = UOr 4096 5.
Proof.
  destruct (ulog_entry_val_create_spec ulog_ops 1024 0 4096 5 2 (Pmem ∅ [])) as (p' & E & _ & _ & U & _).
  - lia.
  - lia.
  - lia.
  - exists p'. split; [exact E|exact U].
Defined.

Lemma ulog_entry_buf_create_spec_witness : ∃ p',
  ulog_entry_buf_create ulog_ops 1024 0 4096 (replicate 100 3) ULOG_OPERATION_BUF_CPY (Pmem ∅ []) =
    (Ok 1088, p') ∧ ulog_entry_valid (pm_mem p') 1088 = Ok true ∧
  uop_at (pm_mem p') 1088 = UCopy 4096 (replicate 100 3).
Proof.
  destruct (ulog_entry_buf_create_spec ulog_ops 1024 0 4096 (replicate 100 3) 6 (Pmem ∅ []))
    as (p' & E & V & _ & U & _).
  - lia.
  - right. reflexivity.
  - apply Forall_replicate. unfold is_byte. lia.
  - simpl. lia.
  - discriminate.
  - exists p'. split; [exact E|]. split; [exact V|exact U].
Defined.

(** ** The order of replay and invalidation *)

Lemma no_drain_durable es w : Forall (λ e, e ≠ EvDrain) es → durable_upto es w = 0%nat.
Proof.
  unfold durable_upto. intros H. assert (∀ i fl, durable_from i fl 0 es w = 0%nat) as Hg; [|apply Hg].
  induction H as [|[] es He _ IH]; intros i fl; simpl; auto. done.
Qed.

Lemma rd_wr_inside m m' off bs a : off ≤ a < off + len bs → rd (wr m off bs) a = rd (wr m' off bs) a.
Proof. intros H. by rewrite !rd_wr, !decide_True. Qed.

(** with [clwb] or [clflushopt], [ulog_recover] leaves a window in which the log is
    lost.  Nothing orders the write-back of the changes before the store that
    invalidates the log, so a power failure right after recovery can leave a pool in which
    the change was not made and the log does not ask for recovery any more. *)
Theorem ulog_recover_unfenced : ∃ p' x,
  ulog_recover ulog_ops 10 1024 ex_pool = (Ok tt, p') ∧
  rd64 (pm_mem p') 4096 = 7 ∧
  crash_at (pm_mem ex_pool) (pm_evs p') x ∧
  rd64 x 4096 = 0 ∧ (ulog_recovery_needed 10 1024 true (Pmem x [])).1 = Ok false.
Proof.
  set (hdr := zeros 8 ++ le_bytes 8 0 ++ zeros 48).
  assert ((ulog_recover ulog_ops 10 1024 ex_pool).1 = Ok tt) as Hr by (vm_compute; reflexivity).
  assert (pm_evs (ulog_recover ulog_ops 10 1024 ex_pool).2 =
    [EvStore 4096 (le_bytes 8 7); EvFlush [64]; EvStore 1024 hdr; EvFlush [16]]) as Hev
    by (vm_compute; reflexivity).
  assert (rd64 (pm_mem (ulog_recover ulog_ops 10 1024 ex_pool).2) 4096 = 7) as H7 by (vm_compute; reflexivity).
  destruct (ulog_recover ulog_ops 10 1024 ex_pool) as [r p'] eqn:E. simpl in Hr, Hev, H7. subst r.
  exists p', (wr (pm_mem ex_pool) 1024 hdr).
  split; [reflexivity|]. split; [exact H7|]. split; [|split; vm_compute; reflexivity].
  - rewrite Hev. intros w. destruct (decide (128 ≤ w < 136)) as [Hw|Hw].
    + exists 4%nat. rewrite no_drain_durable by (repeat constructor; discriminate). split; [simpl; lia|].
      intros a Ha. simpl. pose proof (Z.div_mod a 8 ltac:(lia)). pose proof (Z.mod_pos_bound a 8 ltac:(lia)).
      apply rd_wr_inside. change (len hdr) with 64. lia.
    + exists 0%nat. rewrite no_drain_durable by (repeat constructor; discriminate). split; [simpl; lia|].
      intros a Ha. simpl. pose proof (Z.div_mod a 8 ltac:(lia)). pose proof (Z.mod_pos_bound a 8 ltac:(lia)).
      apply rd_wr_out. change (len hdr) with 64. lia.
Qed.
