(* ===== verification/Ravl.v ===== *)
(** * Relaxed AVL trees

    Models [libpmemobj/ravl.c]: a binary search tree with parent pointers and ranks, rebalanced
    by rotations after an insertion and not at all after a removal.  The nodes live in
    a heap indexed by their addresses, 0 is [NULL], and every access through a pointer that is not
    an allocated node is undefined.  [compare], the callback of [struct ravl], is a parameter;
    it is given what the addresses it receives point to. *)

From stdpp Require Import base gmap list numbers.
From S2P Require Import Prelude Memory.
Local Open Scope Z_scope.

(** ** Data *)

Inductive ravl_slot_type : Type := RAVL_LEFT | RAVL_RIGHT | RAVL_ROOT.

#[global] Instance ravl_slot_type_eq_dec : EqDecision ravl_slot_type.
Proof. solve_decision. Defined.

Record ravl_node : Type := RavlNode {
  parent : Z;
  slot_left : Z;
  slot_right : Z;
  rank : Z;
  pointer_based : bool;
  data : list Z
}.

Definition n_set_parent (x : Z) (n : ravl_node) : ravl_node :=
  RavlNode x (slot_left n) (slot_right n) (rank n) (pointer_based n) (data n).
Definition n_set_rank (x : Z) (n : ravl_node) : ravl_node :=
  RavlNode (parent n) (slot_left n) (slot_right n) x (pointer_based n) (data n).
Definition n_set_data (x : list Z) (n : ravl_node) : ravl_node :=
  RavlNode (parent n) (slot_left n) (slot_right n) (rank n) (pointer_based n) x.
Definition n_slot (t : ravl_slot_type) (n : ravl_node) : Z :=
  match t with RAVL_LEFT => slot_left n | _ => slot_right n end.
Definition n_set_slot (t : ravl_slot_type) (x : Z) (n : ravl_node) : ravl_node :=
  match t with
  | RAVL_LEFT => RavlNode (parent n) x (slot_right n) (rank n) (pointer_based n) (data n)
  | _ => RavlNode (parent n) (slot_left n) x (rank n) (pointer_based n) (data n)
  end.

(** [struct ravl] and the heap its nodes are allocated from.  [r_malloc] says which of the next
    calls of [Malloc] fail (none, when it is empty); [r_brk] is the address the next successful
    one returns. *)
Record ravl : Type := Ravl {
  r_root : Z;
  r_data_size : Z;
  r_heap : gmap Z ravl_node;
  r_brk : Z;
  r_malloc : list bool
}.

Definition r_set_root (x : Z) (r : ravl) : ravl :=
  Ravl x (r_data_size r) (r_heap r) (r_brk r) (r_malloc r).
Definition r_set_heap (x : gmap Z ravl_node) (r : ravl) : ravl :=
  Ravl (r_root r) (r_data_size r) x (r_brk r) (r_malloc r).

(** What a data pointer points to: an object of the caller, or the bytes inside of a node. *)
Inductive dref : Type := Ptr (a : Z) | Own (bs : list Z).

#[global] Instance dref_eq_dec : EqDecision dref.
Proof. solve_decision. Defined.

(** The two constructors of the source; the argument is an address with the bytes found there. *)
Inductive ravl_constr : Type := ravl_node_insert_constructor | ravl_node_copy_constructor.

(** [struct ravl_node **]: [&ravl->root] or [&n->slots[t]]. *)
Inductive ravl_ref : Type := RefRoot | RefSlot (n : Z) (t : ravl_slot_type).

(** [ravl_data] *)
Definition ravl_data (n : ravl_node) : dref :=
  if pointer_based n then Ptr (le_of (take 8 (data n))) else Own (data n).

Definition RAVL_DEFAULT_DATA_SIZE : Z := 8.

Section ravl.
Context (compare : dref → dref → Z).
Local Abbreviation MR A := (M ravl A).

(** ** Memory *)

Definition node_get (p : Z) : MR ravl_node := λ r,
  match r_heap r !! p with
  | Some n => (Ok n, r)
  | None => (Undef, r)
  end.
Definition node_mod (p : Z) (f : ravl_node → ravl_node) : MR unit :=
  n ← node_get p; modify (λ r, r_set_heap (<[p := f n]> (r_heap r)) r).
Definition Free_node (p : Z) : MR unit :=
  node_get p;; modify (λ r, r_set_heap (delete p (r_heap r)) r).
(** The next [Malloc]. *)
Definition Malloc_node (n : ravl_node) : MR Z := λ r,
  match r_malloc r with
  | false :: t => (Fail ENOMEM, Ravl (r_root r) (r_data_size r) (r_heap r) (r_brk r) t)
  | t => (Ok (r_brk r),
          Ravl (r_root r) (r_data_size r) (<[r_brk r := n]> (r_heap r)) (r_brk r + 1) (tail t))
  end.

(** [p->slots[t]]; the array has no slot for [RAVL_ROOT]. *)
Definition get_slot (p : Z) (t : ravl_slot_type) : MR Z :=
  if decide (t = RAVL_ROOT) then undef else n ← node_get p; mret (n_slot t n).
Definition set_slot (p : Z) (t : ravl_slot_type) (x : Z) : MR unit :=
  if decide (t = RAVL_ROOT) then undef else node_mod p (n_set_slot t x).
Definition get_parent (p : Z) : MR Z := n ← node_get p; mret (parent n).
Definition set_parent (p x : Z) : MR unit := node_mod p (n_set_parent x).

Definition get_ref (d : ravl_ref) : MR Z :=
  match d with RefRoot => gets r_root | RefSlot n t => get_slot n t end.
Definition set_ref (d : ravl_ref) (x : Z) : MR unit :=
  match d with RefRoot => modify (r_set_root x) | RefSlot n t => set_slot n t x end.

(** Every loop of the module follows a path of distinct nodes. *)
Definition path_fuel (r : ravl) : nat := S (size (r_heap r)).

(** ** Creation and destruction *)

(** [None]: [NULL], when the handle cannot be allocated. *)
Definition ravl_new_sized (data_size : Z) (malloc : list bool) : option ravl :=
  match malloc with
  | false :: _ => None
  | t => Some (Ravl 0 data_size ∅ 1 (tail t))
  end.
Definition ravl_new (malloc : list bool) : option ravl :=
  ravl_new_sized RAVL_DEFAULT_DATA_SIZE malloc.

(** The recursion goes down the tree; [cb] collects what it is called on: the data in the node, also when that is a pointer to the object. *)
Fixpoint ravl_clear_node (fuel : nat) (n : Z) : MR (list dref) :=
  if n =? 0 then mret []
  else match fuel with
  | O => undef
  | S fuel =>
      x ← node_get n;
      l1 ← ravl_clear_node fuel (slot_left x);
      x ← node_get n;
      let called := Own (data x) in
      l2 ← ravl_clear_node fuel (slot_right x);
      Free_node n;;
      mret (l1 ++ called :: l2)
  end.

Definition ravl_clear : MR unit :=
  root ← gets r_root; fuel ← gets path_fuel;
  ravl_clear_node fuel root;; modify (r_set_root 0).

(** The data the callback is called on, in order. *)
Definition ravl_delete_cb : MR (list dref) :=
  root ← gets r_root; fuel ← gets path_fuel; ravl_clear_node fuel root.
Definition ravl_delete : MR unit := ravl_delete_cb;; mret tt.

Definition ravl_empty : MR bool := gets (λ r, r_root r =? 0).

(** The data of a new node.  What the constructor does not write is never read. *)
Definition run_constr (constr : ravl_constr) (data_size : Z) (a : Z) (bs : list Z)
    : option (list Z) :=
  match constr with
  | ravl_node_insert_constructor =>
      if data_size <? 8 then None else Some (le_bytes 8 a ++ zeros (data_size - 8))
  | ravl_node_copy_constructor =>
      if len bs <? data_size then None else Some (take (Z.to_nat data_size) bs)
  end.

Definition ravl_new_node (constr : ravl_constr) (a : Z) (bs : list Z) : MR Z :=
  data_size ← gets r_data_size;
  match run_constr constr data_size a bs with
  | None => undef
  | Some d =>
      Malloc_node (RavlNode 0 0 0 0
        (match constr with ravl_node_insert_constructor => true | _ => false end) d)
  end.

(** ** Navigation *)

Definition ravl_slot_opposite (t : ravl_slot_type) : ravl_slot_type :=
  if decide (t = RAVL_LEFT) then RAVL_RIGHT else RAVL_LEFT.

Definition ravl_node_slot_type (n : Z) : MR ravl_slot_type :=
  p ← get_parent n;
  if p =? 0 then mret RAVL_ROOT
  else
    l ← get_slot p RAVL_LEFT;
    mret (if l =? n then RAVL_LEFT else RAVL_RIGHT).

Definition ravl_node_sibling (n : Z) : MR Z :=
  t ← ravl_node_slot_type n;
  if decide (t = RAVL_ROOT) then mret 0
  else
    p ← get_parent n;
    get_slot p (if decide (t = RAVL_LEFT) then RAVL_RIGHT else RAVL_LEFT).

Definition ravl_node_ref (n : Z) : MR ravl_ref :=
  t ← ravl_node_slot_type n;
  if decide (t = RAVL_ROOT) then mret RefRoot
  else p ← get_parent n; mret (RefSlot p t).

Definition ravl_rotate (n : Z) : MR unit :=
  p ← get_parent n;
  pref ← ravl_node_ref p;
  t ← ravl_node_slot_type n;
  let t_opposite := ravl_slot_opposite t in
  pp ← get_parent p;
  set_parent n pp;;
  set_parent p n;;
  set_ref pref n;;
  c ← get_slot n t_opposite;
  set_slot p t c;;
  (if c =? 0 then mret tt else set_parent c p);;
  set_slot n t_opposite p.

(** ** Ranks *)

Definition ravl_node_rank (n : Z) : MR Z :=
  if n =? 0 then mret (-1) else x ← node_get n; mret (rank x).

Definition ravl_node_rank_difference_parent (p n : Z) : MR Z :=
  rp ← ravl_node_rank p; rn ← ravl_node_rank n; mret (rp - rn).

Definition ravl_node_rank_difference (n : Z) : MR Z :=
  p ← get_parent n; ravl_node_rank_difference_parent p n.

Definition ravl_node_is_i_j (n i j : Z) : MR bool :=
  l ← get_slot n RAVL_LEFT;
  dl ← ravl_node_rank_difference_parent n l;
  if dl =? i then
    r ← get_slot n RAVL_RIGHT;
    dr ← ravl_node_rank_difference_parent n r;
    mret (dr =? j)
  else mret false.

Definition ravl_node_is (n i j : Z) : MR bool :=
  b ← ravl_node_is_i_j n i j;
  if (b : bool) then mret true else ravl_node_is_i_j n j i.

(** The rank is an [int32_t]: the increment must not overflow. *)
Definition ravl_node_promote (n : Z) : MR unit :=
  x ← node_get n;
  if 2 ^ 31 - 1 <=? rank x then undef else node_mod n (n_set_rank (rank x + 1)).

Definition ravl_node_demote (n : Z) : MR unit :=
  x ← node_get n;
  if rank x <=? 0 then undef else node_mod n (n_set_rank (rank x - 1)).

(** [while (n->parent && ravl_node_is(n->parent, 0, 1))] *)
Fixpoint promote_loop (fuel : nat) (n : Z) : MR Z :=
  p ← get_parent n;
  if p =? 0 then mret n
  else
    b ← ravl_node_is p 0 1;
    if negb b then mret n
    else match fuel with
    | O => undef
    | S fuel =>
        p ← get_parent n;
        ravl_node_promote p;;
        n ← get_parent n;
        promote_loop fuel n
    end.

Definition ravl_balance (n : Z) : MR unit :=
  fuel ← gets path_fuel;
  n ← promote_loop fuel n;
  s ← ravl_node_sibling n;
  dn ← ravl_node_rank_difference n;
  p ← get_parent n;
  go ← (if dn =? 0 then ds ← ravl_node_rank_difference_parent p s; mret (1 <? ds)
        else mret false);
  if negb go then mret tt
  else
    y ← get_parent n;
    t ← ravl_node_slot_type n;
    let t := ravl_slot_opposite t in
    z ← get_slot n t;
    two ← (if z =? 0 then mret true else d ← ravl_node_rank_difference z; mret (d =? 2));
    if (two : bool) then
      ravl_rotate n;;
      ravl_node_demote y
    else
      d ← ravl_node_rank_difference z;
      if d =? 1 then
        ravl_rotate z;;
        ravl_rotate z;;
        ravl_node_promote z;;
        ravl_node_demote n;;
        ravl_node_demote y
      else mret tt.

(** ** Insertion *)

Definition node_data (n : Z) : MR dref := x ← node_get n; mret (ravl_data x).

Definition slot_of (c : Z) : ravl_slot_type := if 0 <? c then RAVL_RIGHT else RAVL_LEFT.

(** The walk down the tree; [None] when the element is there already. *)
Fixpoint walk_down (fuel : nat) (n : Z) (dstp : ravl_ref) (dst : Z) : MR (option (ravl_ref * Z)) :=
  p ← get_ref dstp;
  if p =? 0 then mret (Some (dstp, dst))
  else
    dn ← node_data n;
    dd ← node_data p;
    let cmp_result := compare dn dd in
    if cmp_result =? 0 then mret None
    else match fuel with
    | O => undef
    | S fuel => walk_down fuel n (RefSlot p (slot_of cmp_result)) p
    end.

Definition EEXIST : Z := 17.

Definition ravl_emplace (constr : ravl_constr) (a : Z) (bs : list Z) : MR unit :=
  n ← ravl_new_node constr a bs;
  fuel ← gets path_fuel;
  d ← walk_down fuel n RefRoot 0;
  match d with
  | None => Free_node n;; fail EEXIST
  | Some (dstp, dst) =>
      set_parent n dst;;
      set_ref dstp n;;
      ravl_balance n
  end.

Definition ravl_insert (a : Z) : MR unit := ravl_emplace ravl_node_insert_constructor a [].
Definition ravl_emplace_copy (bs : list Z) : MR unit :=
  ravl_emplace ravl_node_copy_constructor 0 bs.

(** ** Searching *)

Fixpoint ravl_node_type_most (fuel : nat) (n : Z) (t : ravl_slot_type) : MR Z :=
  c ← get_slot n t;
  if c =? 0 then mret n
  else match fuel with
  | O => undef
  | S fuel => ravl_node_type_most fuel c t
  end.

(** [while (n->parent != NULL && n == n->parent->slots[t]) n = n->parent; return n->parent;] *)
Fixpoint first_parent (fuel : nat) (n : Z) (t : ravl_slot_type) : MR Z :=
  p ← get_parent n;
  if p =? 0 then mret p
  else
    c ← get_slot p t;
    if negb (n =? c) then mret p
    else match fuel with
    | O => undef
    | S fuel => first_parent fuel p t
    end.

Definition ravl_node_cessor (n : Z) (t : ravl_slot_type) : MR Z :=
  fuel ← gets path_fuel;
  c ← get_slot n t;
  if negb (c =? 0) then ravl_node_type_most fuel c (ravl_slot_opposite t)
  else first_parent fuel n t.

Definition ravl_node_successor (n : Z) : MR Z := ravl_node_cessor n RAVL_RIGHT.
Definition ravl_node_predecessor (n : Z) : MR Z := ravl_node_cessor n RAVL_LEFT.

Definition RAVL_PREDICATE_EQUAL : Z := Z.shiftl 1 0.
Definition RAVL_PREDICATE_GREATER : Z := Z.shiftl 1 1.
Definition RAVL_PREDICATE_LESS : Z := Z.shiftl 1 2.
Definition RAVL_PREDICATE_LESS_EQUAL : Z := RAVL_PREDICATE_EQUAL ||| RAVL_PREDICATE_LESS.
Definition RAVL_PREDICATE_GREATER_EQUAL : Z := RAVL_PREDICATE_EQUAL ||| RAVL_PREDICATE_GREATER.

Definition has_flag (flags f : Z) : bool := negb ((flags &&& f) =? 0).

(** Returns whether to stop, and the new value of [*ret]. *)
Definition ravl_predicate_holds (result ret n flags : Z) : MR (bool * Z) :=
  if has_flag flags RAVL_PREDICATE_EQUAL && (result =? 0) then mret (true, n)
  else if has_flag flags RAVL_PREDICATE_GREATER && (result <? 0) then mret (false, n)
  else if has_flag flags RAVL_PREDICATE_GREATER && (result =? 0) then
    r ← ravl_node_successor n; mret (true, r)
  else if has_flag flags RAVL_PREDICATE_LESS && (0 <? result) then mret (false, n)
  else if has_flag flags RAVL_PREDICATE_LESS && (result =? 0) then
    r ← ravl_node_predecessor n; mret (true, r)
  else mret (false, ret).

Fixpoint find_loop (fuel : nat) (d : dref) (flags n r : Z) : MR Z :=
  if n =? 0 then mret r
  else
    dn ← node_data n;
    let result := compare d dn in
    hr ← ravl_predicate_holds result r n flags;
    let '(holds, r) := hr in
    if (holds : bool) then mret r
    else match fuel with
    | O => undef
    | S fuel =>
        n ← get_slot n (slot_of result);
        find_loop fuel d flags n r
    end.

Definition ravl_find (d : dref) (flags : Z) : MR Z :=
  root ← gets r_root; fuel ← gets path_fuel; find_loop fuel d flags root 0.

(** ** Removal *)

(** The recursive call is on a node without a left child. *)
Fixpoint ravl_remove_rec (fuel : nat) (n : Z) : MR unit :=
  l ← get_slot n RAVL_LEFT;
  r ← get_slot n RAVL_RIGHT;
  if negb (l =? 0) && negb (r =? 0) then
    s ← ravl_node_successor n;
    x ← node_get s;
    data_size ← gets r_data_size;
    node_mod n (λ y, n_set_data (take (Z.to_nat data_size) (data x)) y);;
    match fuel with
    | O => undef
    | S fuel => ravl_remove_rec fuel s
    end
  else
    let c := if negb (l =? 0) then l else r in
    (if c =? 0 then mret tt else p ← get_parent n; set_parent c p);;
    d ← ravl_node_ref n;
    set_ref d c;;
    Free_node n.

Definition ravl_remove (n : Z) : MR unit := ravl_remove_rec 1 n.
End ravl.
