(* ===== verification/RavlTree.v ===== *)
(** * Search trees: the functional view of a RAVL tree

    A pointer structure of [Ravl] is read as a binary tree whose nodes carry their address.  A
    position in it is a context, the way from the position up to the root, as the parent pointers
    give it.  This file relates heaps and trees ([tree_at], [ctx_at], [focus]) and proves what the
    rotations do to the order of the elements and to the ranks. *)

From stdpp Require Import base gmap list numbers sorting.
From S2P Require Import Prelude Memory Ravl.
Local Open Scope Z_scope.

(** ** Trees and contexts *)

(** Equality of lists up to the grouping of concatenations. *)
Ltac app_norm := simpl; repeat (rewrite <- app_assoc; simpl); try done; rewrite ?app_nil_r; try done.

Inductive tree : Type :=
| Leaf
| Node (p rk : Z) (x : bool * list Z) (l r : tree).

#[global] Instance tree_eq_dec : EqDecision tree.
Proof. solve_decision. Defined.

Inductive side : Type := L | R.
Definition slot (s : side) : ravl_slot_type := match s with L => RAVL_LEFT | R => RAVL_RIGHT end.

(** The node whose child on side [s] is [a] and whose other child is [b]. *)
Definition mk (s : side) (p rk : Z) (x : bool * list Z) (a b : tree) : tree :=
  match s with L => Node p rk x a b | R => Node p rk x b a end.

Record frame : Type := Fr { f_side : side; f_ptr : Z; f_rank : Z; f_data : bool * list Z; f_sib : tree }.

Definition plug1 (f : frame) (t : tree) : tree :=
  mk (f_side f) (f_ptr f) (f_rank f) (f_data f) t (f_sib f).
Definition plug (c : list frame) (t : tree) : tree := foldl (λ t f, plug1 f t) t c.

Definition tptr (t : tree) : Z := match t with Leaf => 0 | Node p _ _ _ _ => p end.
Definition trank (t : tree) : Z := match t with Leaf => -1 | Node _ rk _ _ _ => rk end.
Definition cpar (c : list frame) : Z := match c with [] => 0 | f :: _ => f_ptr f end.
Fixpoint croot (c : list frame) (q : Z) : Z :=
  match c with [] => q | f :: c => croot c (f_ptr f) end.

Definition key_of (x : bool * list Z) : dref := if x.1 then Ptr (le_of (take 8 x.2)) else Own x.2.

(** The elements in order, with the addresses of their nodes. *)
Fixpoint entries (t : tree) : list (Z * dref) :=
  match t with
  | Leaf => []
  | Node p _ x l r => entries l ++ (p, key_of x) :: entries r
  end.
Definition keys (t : tree) : list dref := (entries t).*2.

Fixpoint tsize (t : tree) : nat :=
  match t with Leaf => 0 | Node _ _ _ l r => S (tsize l + tsize r) end.
Fixpoint height (t : tree) : nat :=
  match t with Leaf => 0 | Node _ _ _ l r => S (height l `max` height r) end.

Fixpoint tdom (t : tree) : gset Z :=
  match t with Leaf => ∅ | Node p _ _ l r => {[p]} ∪ tdom l ∪ tdom r end.
Fixpoint cdom (c : list frame) : gset Z :=
  match c with [] => ∅ | f :: c => {[f_ptr f]} ∪ tdom (f_sib f) ∪ cdom c end.

Fixpoint distinct (t : tree) : Prop :=
  match t with
  | Leaf => True
  | Node p _ _ l r => p ∉ (tdom l ∪ tdom r) ∧ tdom l ## tdom r ∧ distinct l ∧ distinct r
  end.
Fixpoint cdistinct (c : list frame) : Prop :=
  match c with
  | [] => True
  | f :: c => f_ptr f ∉ (tdom (f_sib f) ∪ cdom c) ∧ tdom (f_sib f) ## cdom c ∧
              distinct (f_sib f) ∧ cdistinct c
  end.

(** ** The heap of a tree *)

Fixpoint tree_at (h : gmap Z ravl_node) (par : Z) (t : tree) : Prop :=
  match t with
  | Leaf => True
  | Node p rk x l r =>
      h !! p = Some (RavlNode par (tptr l) (tptr r) rk x.1 x.2) ∧ p ≠ 0 ∧
      tree_at h p l ∧ tree_at h p r
  end.

Definition frame_node (f : frame) (par q : Z) : ravl_node :=
  match f_side f with
  | L => RavlNode par q (tptr (f_sib f)) (f_rank f) (f_data f).1 (f_data f).2
  | R => RavlNode par (tptr (f_sib f)) q (f_rank f) (f_data f).1 (f_data f).2
  end.

Fixpoint ctx_at (h : gmap Z ravl_node) (c : list frame) (q : Z) : Prop :=
  match c with
  | [] => True
  | f :: c =>
      h !! f_ptr f = Some (frame_node f (cpar c) q) ∧ f_ptr f ≠ 0 ∧
      tree_at h (f_ptr f) (f_sib f) ∧ ctx_at h c (f_ptr f)
  end.

(** The tree of [r] is [plug c t], seen from [t]; the heap holds the nodes in [X] besides. *)
Record focus (r : ravl) (X : gset Z) (c : list frame) (t : tree) : Prop := {
  fo_root : r_root r = croot c (tptr t);
  fo_ctx : ctx_at (r_heap r) c (tptr t);
  fo_tree : tree_at (r_heap r) (cpar c) t;
  fo_dom : dom (r_heap r) = X ∪ cdom c ∪ tdom t;
  fo_extra : X ## (cdom c ∪ tdom t);
  fo_apart : cdom c ## tdom t;
  fo_distinct : distinct t;
  fo_cdistinct : cdistinct c
}.

Lemma tdom_mk s p rk x a b : tdom (mk s p rk x a b) = {[p]} ∪ tdom a ∪ tdom b.
Proof. destruct s; simpl; [done|set_solver]. Qed.

Lemma distinct_mk s p rk x a b : distinct (mk s p rk x a b) ↔
  p ∉ (tdom a ∪ tdom b) ∧ tdom a ## tdom b ∧ distinct a ∧ distinct b.
Proof. destruct s; simpl; [done|]. split; intros (?&?&?&?); set_solver. Qed.

Lemma tptr_mk s p rk x a b : tptr (mk s p rk x a b) = p.
Proof. by destruct s. Qed.
Lemma trank_mk s p rk x a b : trank (mk s p rk x a b) = rk.
Proof. by destruct s. Qed.
Lemma tptr_plug1 f t : tptr (plug1 f t) = f_ptr f.
Proof. apply tptr_mk. Qed.

Lemma tree_at_mk h par s p rk x a b : tree_at h par (mk s p rk x a b) ↔
  h !! p = Some (frame_node (Fr s p rk x b) par (tptr a)) ∧ p ≠ 0 ∧ tree_at h p a ∧ tree_at h p b.
Proof. destruct s; simpl; [done|]. split; intros (?&?&?&?); done. Qed.

(** Moving the focus one step along the path to the root. *)
Lemma focus_step r X f c t : focus r X (f :: c) t ↔ focus r X c (plug1 f t).
Proof.
  destruct f as [s p rk x sib]. unfold plug1; simpl. split.
  - intros [Hr [Hp [Hp0 [Hs Hc]]] Ht Hd HX Ha Hdi [Hc1 [Hc2 [Hc3 Hc4]]]]; simpl in *. split.
    + by rewrite tptr_mk.
    + by rewrite tptr_mk.
    + by rewrite tree_at_mk.
    + rewrite tdom_mk, Hd. set_solver.
    + rewrite tdom_mk. set_solver.
    + rewrite tdom_mk. set_solver.
    + rewrite distinct_mk. set_solver.
    + done.
  - intros [Hr Hc Ht Hd HX Ha Hdi Hcd]. rewrite tptr_mk in *.
    apply tree_at_mk in Ht as (H1 & H2 & H3 & H4). rewrite tdom_mk in *.
    apply distinct_mk in Hdi as (?&?&?&?). split; simpl; try done.
    + rewrite Hd. set_solver.
    + set_solver.
    + set_solver.
    + set_solver.
Qed.

Lemma focus_plug r X c t : focus r X c t ↔ focus r X [] (plug c t).
Proof.
  revert t. induction c as [|f c IH]; intros t; [done|]. by rewrite focus_step, IH.
Qed.

Lemma focus_app r X c1 c2 t : focus r X (c1 ++ c2) t ↔ focus r X c2 (plug c1 t).
Proof.
  revert t. induction c1 as [|f c IH]; intros t; [done|]. simpl app. by rewrite focus_step, IH.
Qed.

Lemma plug_app c1 c2 t : plug (c1 ++ c2) t = plug c2 (plug c1 t).
Proof. apply foldl_app. Qed.

(** *** Framing *)

Lemma tree_at_insert h par t p n : p ∉ tdom t → tree_at (<[p := n]> h) par t ↔ tree_at h par t.
Proof.
  revert par. induction t as [|q rk x l IHl r IHr]; intros par Hp; simpl in *; [done|].
  rewrite lookup_insert_ne, IHl, IHr by set_solver. done.
Qed.
Lemma tree_at_delete h par t p : p ∉ tdom t → tree_at (delete p h) par t ↔ tree_at h par t.
Proof.
  revert par. induction t as [|q rk x l IHl r IHr]; intros par Hp; simpl in *; [done|].
  rewrite lookup_delete_ne, IHl, IHr by set_solver. done.
Qed.
Lemma ctx_at_insert h c q p n : p ∉ cdom c → ctx_at (<[p := n]> h) c q ↔ ctx_at h c q.
Proof.
  revert q. induction c as [|f c IH]; intros q Hp; simpl in *; [done|].
  rewrite lookup_insert_ne, tree_at_insert, IH by set_solver. done.
Qed.
Lemma ctx_at_delete h c q p : p ∉ cdom c → ctx_at (delete p h) c q ↔ ctx_at h c q.
Proof.
  revert q. induction c as [|f c IH]; intros q Hp; simpl in *; [done|].
  rewrite lookup_delete_ne, tree_at_delete, IH by set_solver. done.
Qed.

Lemma tree_at_dom h par t : tree_at h par t → tdom t ⊆ dom h.
Proof.
  revert par. induction t as [|q rk x l IHl r IHr]; intros par; simpl; [set_solver|].
  intros (Hq & _ & Hl%IHl & Hr%IHr). apply elem_of_dom_2 in Hq. set_solver.
Qed.

Lemma tree_at_nonzero h par t : tree_at h par t → 0 ∉ tdom t.
Proof.
  revert par. induction t as [|q rk x l IHl r IHr]; intros par; simpl; [set_solver|].
  intros (Hq & ? & Hl%IHl & Hr%IHr). set_solver.
Qed.

Lemma ctx_at_nonzero h c q : ctx_at h c q → 0 ∉ cdom c.
Proof.
  revert q. induction c as [|f c IH]; intros q; simpl; [set_solver|].
  intros (_ & ? & ?%tree_at_nonzero & ?%IH). set_solver.
Qed.

Lemma tptr_dom t : t = Leaf ∨ tptr t ∈ tdom t.
Proof. destruct t; simpl; [by left|right; set_solver]. Qed.

Lemma tptr_nonzero h par t : tree_at h par t → t ≠ Leaf → (tptr t =? 0) = false.
Proof.
  destruct t as [|p rk x l r]; cbn [tptr tree_at]; [done|]. intros (_ & ? & _) _. by apply Z.eqb_neq.
Qed.

(** *** Counting *)

Lemma tsize_tdom t : distinct t → size (tdom t) = tsize t.
Proof.
  induction t as [|p rk x l IHl r IHr]; simpl; [done|]. intros (? & ? & ? & ?).
  rewrite !size_union by set_solver. rewrite size_singleton, IHl, IHr by done. lia.
Qed.

Lemma height_tsize t : (height t ≤ tsize t)%nat.
Proof. induction t; simpl; lia. Qed.

Lemma length_cdom c : cdistinct c → (length c ≤ size (cdom c))%nat.
Proof.
  induction c as [|f c IH]; simpl; [lia|]. intros (? & ? & ? & Hc%IH).
  rewrite !size_union by set_solver. rewrite size_singleton. lia.
Qed.

Lemma focus_fuel r X c t : focus r X c t → (length c + tsize t < path_fuel r)%nat.
Proof.
  intros [Hr Hc Ht Hd HX Ha Hdi Hcd]. unfold path_fuel.
  rewrite <- size_dom, Hd, !size_union, (tsize_tdom t) by set_solver.
  pose proof (length_cdom c Hcd). lia.
Qed.

(** ** Order *)

Fixpoint lefts (c : list frame) : list (Z * dref) :=
  match c with
  | [] => []
  | f :: c => lefts c ++ (match f_side f with
                          | L => []
                          | R => entries (f_sib f) ++ [(f_ptr f, key_of (f_data f))]
                          end)
  end.
Fixpoint rights (c : list frame) : list (Z * dref) :=
  match c with
  | [] => []
  | f :: c => (match f_side f with
               | L => (f_ptr f, key_of (f_data f)) :: entries (f_sib f)
               | R => []
               end) ++ rights c
  end.

Lemma entries_plug c t : entries (plug c t) = lefts c ++ entries t ++ rights c.
Proof.
  revert t. induction c as [|f c IH]; intros t; simpl; [by rewrite app_nil_r|].
  rewrite IH. destruct f as [[] p rk x sib]; app_norm.
Qed.

(** A rotation keeps the order. *)
Lemma entries_rotate s p rp xp n rn xn a b sib rp' rn' :
  entries (mk s n rn' xn a (mk s p rp' xp b sib)) = entries (mk s p rp xp (mk s n rn xn a b) sib).
Proof. destruct s; app_norm. Qed.

Lemma entries_double s y ry xy n rn xn z rz xz a zs zo sib ry' rn' rz' :
  entries (mk s z rz' xz (mk s n rn' xn a zs) (mk s y ry' xy zo sib)) =
  entries (mk s y ry xy (mk s n rn xn a (mk s z rz xz zs zo)) sib).
Proof. destruct s; app_norm. Qed.

(** ** Ranks *)

(** The rank rule: all rank differences are positive. *)
Fixpoint rank_ok (t : tree) : Prop :=
  match t with
  | Leaf => True
  | Node _ rk _ l r => trank l < rk ∧ trank r < rk ∧ rank_ok l ∧ rank_ok r
  end.

(** The stronger rule of AVL trees: no difference exceeds 2, one of them is 1. *)
Definition avl_at (rk dl dr : Z) : Prop :=
  rk - dl ≤ 2 ∧ rk - dr ≤ 2 ∧ (rk - dl = 1 ∨ rk - dr = 1).
Fixpoint avl (t : tree) : Prop :=
  match t with
  | Leaf => True
  | Node _ rk _ l r => avl_at rk (trank l) (trank r) ∧ avl l ∧ avl r
  end.

Lemma rank_ok_mk s p rk x a b :
  rank_ok (mk s p rk x a b) ↔ trank a < rk ∧ trank b < rk ∧ rank_ok a ∧ rank_ok b.
Proof. destruct s; simpl; [done|]. split; intros (?&?&?&?); done. Qed.
Lemma avl_mk s p rk x a b :
  avl (mk s p rk x a b) ↔ avl_at rk (trank a) (trank b) ∧ avl a ∧ avl b.
Proof. destruct s; simpl; [done|]. unfold avl_at. split; intros (?&?&?); split_and!; try done; lia. Qed.

Lemma trank_ge t : rank_ok t → -1 ≤ trank t.
Proof.
  induction t as [|p rk x l IHl r IHr]; simpl; [lia|]. intros (? & ? & ?%IHl & ?%IHr). lia.
Qed.

Lemma height_rank t : rank_ok t → Z.of_nat (height t) ≤ trank t + 1.
Proof.
  induction t as [|p rk x l IHl r IHr]; simpl; [lia|]. intros (? & ? & ?%IHl & ?%IHr). lia.
Qed.

Lemma avl_height t : rank_ok t → avl t → trank t + 1 = Z.of_nat (height t).
Proof.
  induction t as [|p rk x l IHl r IHr]; simpl; [lia|].
  intros (? & ? & Hl & Hr) ((? & ? & ?) & Al & Ar).
  specialize (IHl Hl Al). specialize (IHr Hr Ar). lia.
Qed.

Lemma avl_size t : rank_ok t → avl t → 2 ^ ((trank t + 1) / 2) ≤ Z.of_nat (tsize t) + 1.
Proof.
  induction t as [|p rk x l IHl r IHr]; simpl; [intros; done|].
  intros (? & ? & Hl & Hr) ((? & ? & ?) & Al & Ar).
  specialize (IHl Hl Al). specialize (IHr Hr Ar).
  pose proof (trank_ge l Hl). pose proof (trank_ge r Hr).
  assert (∀ t, -1 ≤ trank t → rk - trank t ≤ 2 →
    2 ^ ((trank t + 1) / 2) ≤ Z.of_nat (tsize t) + 1 →
    2 ^ ((rk - 1) / 2) ≤ Z.of_nat (tsize t) + 1) as Hle.
  { intros t ? ? Ht. etrans; [|exact Ht]. apply Z.pow_le_mono_r; [lia|].
    apply Z.div_le_mono; lia. }
  pose proof (Hle l ltac:(lia) ltac:(lia) IHl). pose proof (Hle r ltac:(lia) ltac:(lia) IHr).
  destruct (decide (rk = 0)) as [->|]; [change (2 ^ ((0 + 1) / 2)) with 1; lia|].
  replace (rk + 1) with (rk - 1 + 1 * 2) by lia. rewrite Z.div_add by lia.
  rewrite Z.pow_add_r by (try apply Z.div_pos; lia). lia.
Qed.
