(* ===== verification/RavlBalance.v ===== *)
(** * Rebalancing after an insertion, on trees

    The functional counterpart of [ravl_balance], and why it restores the rank rule: the focus of
    the loop is the only node whose rank difference to its parent may be 0, and then it
    is either a new leaf or a node whose own differences are 1 and 2. *)

From stdpp Require Import base gmap list numbers.
From S2P Require Import Prelude Memory Ravl RavlTree.
Local Open Scope Z_scope.

(** ** Definition *)

Definition is01 (rk a b : Z) : bool :=
  ((rk - a =? 0) && (rk - b =? 1)) || ((rk - a =? 1) && (rk - b =? 0)).

Definition set_rank (k : Z) (f : frame) : frame := Fr (f_side f) (f_ptr f) k (f_data f) (f_sib f).

Fixpoint t_promote (c : list frame) (t : tree) : list frame * tree :=
  match c with
  | [] => ([], t)
  | f :: c' =>
      if is01 (f_rank f) (trank t) (trank (f_sib f))
      then t_promote c' (plug1 (set_rank (f_rank f + 1) f) t)
      else (c, t)
  end.

(** The child of a node on side [s], and the other one. *)
Definition child (s : side) (l r : tree) : tree := match s with L => l | R => r end.
Definition other (s : side) (l r : tree) : tree := match s with L => r | R => l end.

Definition single (s : side) (y ry : Z) xy (n rn : Z) xn (a z sib : tree) : tree :=
  mk s n rn xn a (mk s y (ry - 1) xy z sib).
Definition double (s : side) (y ry : Z) xy (n rn : Z) xn (z rz : Z) xz (a zs zo sib : tree) : tree :=
  mk s z (rz + 1) xz (mk s n (rn - 1) xn a zs) (mk s y (ry - 1) xy zo sib).

Definition t_rotate (f : frame) (t : tree) : tree :=
  match f, t with
  | Fr s y ry xy sib, Node n rn xn l r =>
      if (ry - rn =? 0) && (1 <? ry - trank sib) then
        match other s l r with
        | Leaf => single s y ry xy n rn xn (child s l r) Leaf sib
        | Node z rz xz zl zr =>
            if rn - rz =? 2 then single s y ry xy n rn xn (child s l r) (other s l r) sib
            else if rn - rz =? 1
            then double s y ry xy n rn xn z rz xz (child s l r) (child s zl zr) (other s zl zr) sib
            else plug1 f t
        end
      else plug1 f t
  | _, _ => plug1 f t
  end.

Definition t_balance (c : list frame) (t : tree) : tree :=
  match t_promote c t with
  | ([], t) => t
  | (f :: c, t) => plug c (t_rotate f t)
  end.

Lemma Node_mk s p rk x l r : Node p rk x l r = mk s p rk x (child s l r) (other s l r).
Proof. by destruct s. Qed.

Lemma is01_comm rk a b : is01 rk a b = is01 rk b a.
Proof. unfold is01. destruct (rk - a =? 0), (rk - a =? 1), (rk - b =? 0), (rk - b =? 1); done. Qed.

(** ** The elements stay *)

Lemma t_promote_entries c t c' t' : t_promote c t = (c', t') →
  entries (plug c' t') = entries (plug c t).
Proof.
  revert t. induction c as [|f c IH]; intros t; simpl; [by intros [= <- <-]|].
  case_match; [|by intros [= <- <-]]. intros ->%IH. rewrite !entries_plug. do 2 f_equal.
  destruct f as [[] ? ? ? ?]; done.
Qed.

Lemma t_rotate_entries f t : entries (t_rotate f t) = entries (plug1 f t).
Proof.
  destruct f as [s y ry xy sib], t as [|n rn xn l r]; [done|]. simpl.
  case_match; [|done]. unfold plug1; simpl. rewrite (Node_mk s n).
  destruct (other s l r) as [|z rz xz zl zr] eqn:Ho; [apply entries_rotate|].
  case_match; [apply entries_rotate|]. case_match; [|done].
  rewrite (Node_mk s z). apply entries_double.
Qed.

Lemma t_balance_entries c t : entries (t_balance c t) = entries (plug c t).
Proof.
  unfold t_balance. destruct (t_promote c t) as [[|f c'] t'] eqn:E;
    rewrite <- (t_promote_entries _ _ _ _ E); [done|].
  change (plug (f :: c') t') with (plug c' (plug1 f t')). by rewrite !entries_plug, t_rotate_entries.
Qed.

(** ** The rank rule *)

(** The ranks along a context grow strictly, from [k] on. *)
Fixpoint cok (c : list frame) (k : Z) : Prop :=
  match c with
  | [] => True
  | f :: c => k < f_rank f ∧ trank (f_sib f) < f_rank f ∧ rank_ok (f_sib f) ∧ cok c (f_rank f)
  end.

Lemma rank_ok_plug c t : rank_ok (plug c t) ↔ rank_ok t ∧ cok c (trank t).
Proof.
  revert t. induction c as [|f c IH]; intros t; simpl; [tauto|].
  rewrite IH. unfold plug1. rewrite rank_ok_mk, trank_mk. tauto.
Qed.

Lemma cok_weaken c k k' : cok c k → k' ≤ k → cok c k'.
Proof. destruct c as [|f c]; simpl; [done|]. intros (? & ? & ? & ?) ?. split_and!; try done; lia. Qed.

Definition fresh (t : tree) : Prop :=
  match t with
  | Leaf => False
  | Node _ rk _ l r =>
      rk = 0 ∨ (rk - trank l = 1 ∧ rk - trank r = 2) ∨ (rk - trank l = 2 ∧ rk - trank r = 1)
  end.

(** The state of the loop. *)
Definition pending (c : list frame) (t : tree) : Prop :=
  rank_ok t ∧ t ≠ Leaf ∧
  match c with
  | [] => True
  | f :: c =>
      trank (f_sib f) < f_rank f ∧ rank_ok (f_sib f) ∧ cok c (f_rank f) ∧
      (trank t < f_rank f ∨ trank t = f_rank f ∧ fresh t)
  end.

Lemma is01_true rk a b : is01 rk a b = true → (rk = a ∧ rk = b + 1) ∨ (rk = a + 1 ∧ rk = b).
Proof. unfold is01. intros [H|H]%orb_true_iff; bool_hyps; lia. Qed.
Lemma is01_false rk a b : is01 rk a b = false → rk = a → rk ≠ b + 1.
Proof. unfold is01. intros [H _]%orb_false_iff ->. apply andb_false_iff in H. lia. Qed.

Lemma pending_step f c t : pending (f :: c) t → is01 (f_rank f) (trank t) (trank (f_sib f)) = true →
  pending c (plug1 (set_rank (f_rank f + 1) f) t) ∧ trank t = f_rank f ∧ trank (f_sib f) = f_rank f - 1.
Proof.
  intros (Ht & Hl & Hs & Hso & Hc & Hv) H01%is01_true.
  assert (trank t = f_rank f ∧ trank (f_sib f) = f_rank f - 1) as [E1 E2] by lia.
  split; [|done]. unfold pending, plug1; simpl. rewrite rank_ok_mk, trank_mk.
  split_and!; try done; [lia|lia|by destruct f as [[] ? ? ? ?]|].
  destruct c as [|g c]; [done|]. simpl in Hc. destruct Hc as (? & ? & ? & ?).
  split_and!; try done.
  destruct (decide (f_rank f + 1 = f_rank g)); [right|left; lia]. split; [done|].
  destruct f as [[] ? ? ? ?]; simpl in *; lia.
Qed.

Lemma t_promote_pending c t c' t' : pending c t → t_promote c t = (c', t') →
  pending c' t' ∧
  match c' with [] => True | f :: _ => is01 (f_rank f) (trank t') (trank (f_sib f)) = false end.
Proof.
  revert t. induction c as [|f c IH]; intros t Hp; simpl; [by intros [= <- <-]|].
  destruct (is01 _ _ _) eqn:E; [|by intros [= <- <-]].
  intros H. eapply IH; [|exact H]. by apply pending_step.
Qed.

Lemma fresh_other s n rn xn l r : rank_ok (Node n rn xn l r) → fresh (Node n rn xn l r) → 0 < rn →
  (trank (child s l r) = rn - 1 ∧ trank (other s l r) = rn - 2) ∨
  (trank (child s l r) = rn - 2 ∧ trank (other s l r) = rn - 1).
Proof. intros Hr [?|[?|?]] ?; destruct s; simpl in *; lia. Qed.

(** One rotation is enough, and the new root of the subtree has the rank of the old one. *)
Lemma t_rotate_ok f c t : pending (f :: c) t →
  is01 (f_rank f) (trank t) (trank (f_sib f)) = false →
  rank_ok (t_rotate f t) ∧ trank (t_rotate f t) = f_rank f.
Proof.
  intros (Ht & Hl & Hs & Hso & Hc & Hv) H01.
  destruct f as [s y ry xy sib], t as [|n rn xn l r]; [done|]. simpl in *.
  pose proof (is01_false _ _ _ H01) as H01'.
  pose proof (trank_ge sib Hso) as Hsg.
  destruct (_ && _) eqn:Hg; cycle 1.
  { unfold plug1; simpl. rewrite rank_ok_mk, trank_mk. split_and!; try done; simpl; lia. }
  bool_hyps. destruct Hv as [?|[_ Hf]]; [lia|].
  assert (0 < rn) as Hrn by lia.
  assert (rank_ok (child s l r) ∧ rank_ok (other s l r)) as [Ha Hz].
  { by destruct Ht as (_ & _ & ? & ?); destruct s. }
  pose proof (fresh_other s n rn xn l r Ht Hf Hrn) as Hd.
  destruct (other s l r) as [|z rz xz zl zr].
  - unfold single. rewrite !rank_ok_mk, !trank_mk. simpl in *. split_and!; try done; lia.
  - simpl in Hd. case_match; bool_hyps; [|case_match; bool_hyps; [|lia]].
    + unfold single. rewrite !rank_ok_mk, !trank_mk. simpl in *. split_and!; try tauto; lia.
    + destruct Hz as (? & ? & ? & ?). unfold double. rewrite !rank_ok_mk, !trank_mk.
      destruct s; simpl in *; split_and!; try done; lia.
Qed.

Lemma t_balance_ok c t : pending c t → rank_ok (t_balance c t).
Proof.
  intros Hp. unfold t_balance. destruct (t_promote c t) as [c' t'] eqn:E.
  destruct (t_promote_pending _ _ _ _ Hp E) as [Hp' H01]. destruct c' as [|f c']; [apply Hp'|].
  destruct (t_rotate_ok f c' t' Hp' H01) as [Hr Hk]. apply rank_ok_plug. split; [done|].
  rewrite Hk. apply Hp'.
Qed.

(** ** The rule of AVL trees, kept as long as nothing is removed *)

(** [d] is the rank the subtree at the focus had before it changed. *)
Fixpoint cavl (c : list frame) (d : Z) : Prop :=
  match c with
  | [] => True
  | f :: c => avl_at (f_rank f) d (trank (f_sib f)) ∧ avl (f_sib f) ∧ cavl c (f_rank f)
  end.

Lemma avl_plug c t : avl (plug c t) ↔ avl t ∧ cavl c (trank t).
Proof.
  revert t. induction c as [|f c IH]; intros t; simpl; [tauto|].
  rewrite IH. unfold plug1. rewrite avl_mk, trank_mk. tauto.
Qed.

(** The rank of the focus has grown by one since the rule held. *)
Definition avl_pending (c : list frame) (t : tree) : Prop := avl t ∧ cavl c (trank t - 1).

Lemma avl_pending_step f c t : pending (f :: c) t → avl_pending (f :: c) t →
  is01 (f_rank f) (trank t) (trank (f_sib f)) = true →
  avl_pending c (plug1 (set_rank (f_rank f + 1) f) t).
Proof.
  intros Hp [Ha (Hf & Has & Hc)] H01.
  destruct (pending_step _ _ _ Hp H01) as (_ & Ht & Hs).
  split; unfold plug1; simpl; [|by rewrite trank_mk, Z.add_simpl_r].
  rewrite avl_mk. split_and!; try done. unfold avl_at in *. lia.
Qed.

Lemma t_promote_avl c t c' t' : pending c t → avl_pending c t → t_promote c t = (c', t') →
  avl_pending c' t'.
Proof.
  revert t. induction c as [|f c IH]; intros t Hp Ha; simpl; [by intros [= <- <-]|].
  destruct (is01 _ _ _) eqn:E; [|by intros [= <- <-]].
  intros H. eapply IH; [| |exact H]; [by apply pending_step|by apply avl_pending_step].
Qed.

Lemma t_rotate_avl f c t : pending (f :: c) t → avl_pending (f :: c) t →
  is01 (f_rank f) (trank t) (trank (f_sib f)) = false → avl (t_rotate f t).
Proof.
  intros (Ht & Hl & Hs & Hso & Hc & Hv) [Ha (Hf & Has & _)] H01.
  destruct f as [s y ry xy sib], t as [|n rn xn l r]; [done|]. simpl in *.
  pose proof (is01_false _ _ _ H01) as H01'. pose proof (trank_ge sib Hso) as Hsg.
  destruct (_ && _) eqn:Hg; cycle 1.
  { unfold plug1; simpl. rewrite avl_mk. split_and!; try done; simpl.
    apply andb_false_iff in Hg. unfold avl_at in *. lia. }
  bool_hyps. destruct Hv as [?|[_ Hfr]]; [lia|].
  assert (0 < rn) as Hrn by lia.
  assert (avl (child s l r) ∧ avl (other s l r)) as [Hac Haz].
  { by destruct Ha as (_ & ? & ?); destruct s. }
  pose proof (fresh_other s n rn xn l r Ht Hfr Hrn) as Hd.
  destruct (other s l r) as [|z rz xz zl zr].
  - unfold single. rewrite !avl_mk, !trank_mk. unfold avl_at in *. simpl in *.
    split_and!; try done; lia.
  - simpl in Hd. case_match; bool_hyps; [|case_match; bool_hyps; [|lia]].
    + unfold single. rewrite !avl_mk, !trank_mk. unfold avl_at in *. simpl in *.
      split_and!; try tauto; lia.
    + destruct Haz as (? & ? & ?). unfold double. rewrite !avl_mk, !trank_mk.
      unfold avl_at in *. destruct s; simpl in *; split_and!; try done; lia.
Qed.

Lemma t_balance_avl c t : pending c t → avl_pending c t → avl (t_balance c t).
Proof.
  intros Hp Ha. unfold t_balance. destruct (t_promote c t) as [c' t'] eqn:E.
  destruct (t_promote_pending _ _ _ _ Hp E) as [Hp' H01].
  pose proof (t_promote_avl _ _ _ _ Hp Ha E) as Ha'. destruct c' as [|f c']; [apply Ha'|].
  apply avl_plug. split; [by eapply t_rotate_avl|].
  rewrite (proj2 (t_rotate_ok f c' t' Hp' H01)). apply Ha'.
Qed.

(** ** Growth of the rank *)

Lemma trank_plug_ge c t : cok c (trank t) → trank t ≤ trank (plug c t).
Proof.
  revert t. induction c as [|f c IH]; intros t; simpl; [lia|]. intros (? & ? & ? & Hc).
  assert (trank (plug1 f t) = f_rank f) as E by (unfold plug1; by rewrite trank_mk).
  etrans; [|apply IH; by rewrite E]. lia.
Qed.

Lemma cok_frames c t : cok c (trank t) → Forall (λ f, f_rank f ≤ trank (plug c t)) c.
Proof.
  revert t. induction c as [|f c IH]; intros t; simpl; [constructor|]. intros (? & ? & ? & Hc).
  assert (trank (plug1 f t) = f_rank f) as E by (unfold plug1; by rewrite trank_mk).
  constructor.
  - rewrite <- E. apply trank_plug_ge. by rewrite E.
  - apply IH. by rewrite E.
Qed.

Lemma trank_plug_cons f c t t' : trank (plug (f :: c) t) = trank (plug (f :: c) t').
Proof.
  revert f t t'. induction c as [|g c IH]; intros f t t'.
  - simpl. unfold plug1. by rewrite !trank_mk.
  - change (trank (plug (g :: c) (plug1 f t)) = trank (plug (g :: c) (plug1 f t'))). apply IH.
Qed.

Lemma t_promote_rank c t c' t' : pending c t → t_promote c t = (c', t') →
  trank (plug c' t') ≤ trank (plug c t) + 1.
Proof.
  revert t. induction c as [|f c IH]; intros t Hp; simpl; [intros [= <- <-]; unfold plug; simpl; lia|].
  destruct (is01 _ _ _) eqn:E; [|intros [= <- <-]; unfold plug; simpl; lia].
  pose proof (pending_step _ _ _ Hp E) as (Hp' & _ & _).
  intros H. pose proof (IH _ Hp' H) as Hle. destruct c as [|g c].
  - simpl in H. injection H as <- <-. cbn. unfold plug1. rewrite !trank_mk. cbn. lia.
  - by rewrite (trank_plug_cons g c (plug1 f t) (plug1 (set_rank (f_rank f + 1) f) t)).
Qed.

Lemma t_balance_rank c t : pending c t → trank (t_balance c t) ≤ trank (plug c t) + 1.
Proof.
  intros Hp. unfold t_balance. destruct (t_promote c t) as [c' t'] eqn:E.
  pose proof (t_promote_rank _ _ _ _ Hp E) as Hle.
  destruct (t_promote_pending _ _ _ _ Hp E) as [Hp' H01]. destruct c' as [|f c']; [done|].
  etrans; [|exact Hle]. change (plug (f :: c') t') with (plug c' (plug1 f t')).
  destruct c' as [|g c'].
  - simpl. rewrite (proj2 (t_rotate_ok f [] t' Hp' H01)). unfold plug1. by rewrite trank_mk.
  - by rewrite (trank_plug_cons g c' _ (plug1 f t')).
Qed.
