(* ===== verification/RavlRun.v ===== *)
(** * Running the tree operations

    Each operation of [Ravl] on pointers, run on a heap that holds a tree, computes the
    operation of [RavlTree] and [RavlBalance] on that tree and leaves a heap that holds the
    result: no access is undefined and every loop ends. *)

From stdpp Require Import base gmap list numbers.
From S2P Require Import Prelude Memory Ravl RavlTree RavlBalance.
Local Open Scope Z_scope.

(** ** Reading *)

Lemma node_get_run r p n : r_heap r !! p = Some n → node_get p r = (Ok n, r).
Proof. intros H. unfold node_get. by rewrite H. Qed.

Lemma node_mod_run r p f n : r_heap r !! p = Some n →
  node_mod p f r = (Ok tt, r_set_heap (<[p := f n]> (r_heap r)) r).
Proof. intros H. unfold node_mod. by erewrite bind_ok by by apply node_get_run. Qed.

Lemma get_parent_run r p n : r_heap r !! p = Some n → get_parent p r = (Ok (parent n), r).
Proof. intros H. unfold get_parent. by erewrite bind_ok by by apply node_get_run. Qed.

Lemma slot_not_root s : slot s ≠ RAVL_ROOT.
Proof. by destruct s. Qed.

Lemma get_slot_run r p s n : r_heap r !! p = Some n →
  get_slot p (slot s) r = (Ok (n_slot (slot s) n), r).
Proof.
  intros H. unfold get_slot. rewrite decide_False by apply slot_not_root.
  by erewrite bind_ok by by apply node_get_run.
Qed.

Lemma set_slot_run r p s x n : r_heap r !! p = Some n →
  set_slot p (slot s) x r = (Ok tt, r_set_heap (<[p := n_set_slot (slot s) x n]> (r_heap r)) r).
Proof.
  intros H. unfold set_slot. rewrite decide_False by apply slot_not_root. by apply node_mod_run.
Qed.

Definition flip (s : side) : side := match s with L => R | R => L end.

Lemma opposite_slot s : ravl_slot_opposite (slot s) = slot (flip s).
Proof. by destruct s. Qed.

Lemma focus_node r X c p rk x l rt : focus r X c (Node p rk x l rt) →
  r_heap r !! p = Some (RavlNode (cpar c) (tptr l) (tptr rt) rk x.1 x.2) ∧ p ≠ 0.
Proof. intros [_ _ (? & ? & _) _ _ _ _ _]. done. Qed.

Lemma focus_frame r X f c t : focus r X (f :: c) t →
  r_heap r !! f_ptr f = Some (frame_node f (cpar c) (tptr t)) ∧ f_ptr f ≠ 0.
Proof. intros [_ (? & ? & _) _ _ _ _ _ _]. done. Qed.

Lemma focus_ptr r X c t : focus r X c t → t ≠ Leaf →
  ∃ n, r_heap r !! tptr t = Some n ∧ parent n = cpar c ∧ tptr t ≠ 0.
Proof. destruct t; [done|]. intros [??]%focus_node _. eauto. Qed.

Lemma focus_parent r X c t : focus r X c t → t ≠ Leaf → get_parent (tptr t) r = (Ok (cpar c), r).
Proof.
  intros Hf Ht. destruct (focus_ptr _ _ _ _ Hf Ht) as (n & Hn & <- & _). by apply get_parent_run.
Qed.

Lemma cpar_nonzero r X f c t : focus r X (f :: c) t → (cpar (f :: c) =? 0) = false.
Proof. intros [_ ?]%focus_frame. by apply Z.eqb_neq. Qed.

Lemma focus_slot_type r X f c t : focus r X (f :: c) t → t ≠ Leaf →
  ravl_node_slot_type (tptr t) r = (Ok (slot (f_side f)), r).
Proof.
  intros Hf Ht. pose proof (focus_frame _ _ _ _ _ Hf) as [Hp Hp0].
  unfold ravl_node_slot_type. erewrite bind_ok by by eapply focus_parent.
  rewrite (cpar_nonzero _ _ _ _ _ Hf).
  erewrite bind_ok by by apply (get_slot_run _ _ L).
  destruct Hf as [_ _ Hta _ _ Ha _ _]. destruct f as [[] p rk x sib]; simpl in *.
  - by rewrite Z.eqb_refl.
  - rewrite (proj2 (Z.eqb_neq _ _)); [done|]. intros E.
    pose proof (tree_at_nonzero _ _ _ Hta).
    destruct (tptr_dom t) as [?|Ht1]; [done|].
    destruct (tptr_dom sib) as [->|Hs1]; [simpl in E; by rewrite <- E in Ht1|].
    rewrite E in Hs1. set_solver.
Qed.

Lemma focus_slot_root r X t : focus r X [] t → t ≠ Leaf →
  ravl_node_slot_type (tptr t) r = (Ok RAVL_ROOT, r).
Proof.
  intros Hf Ht. unfold ravl_node_slot_type. by erewrite bind_ok by by eapply focus_parent.
Qed.

(** The place a focused subtree hangs at. *)
Definition cref (c : list frame) : ravl_ref :=
  match c with [] => RefRoot | f :: _ => RefSlot (f_ptr f) (slot (f_side f)) end.

Lemma focus_ref r X c t : focus r X c t → t ≠ Leaf → ravl_node_ref (tptr t) r = (Ok (cref c), r).
Proof.
  intros Hf Ht. unfold ravl_node_ref. destruct c as [|f c].
  - by erewrite bind_ok by by eapply focus_slot_root.
  - erewrite bind_ok by by eapply focus_slot_type.
    rewrite decide_False by apply slot_not_root. by erewrite bind_ok by by eapply focus_parent.
Qed.

Lemma focus_sibling r X f c t : focus r X (f :: c) t → t ≠ Leaf →
  ravl_node_sibling (tptr t) r = (Ok (tptr (f_sib f)), r).
Proof.
  intros Hf Ht. pose proof (focus_frame _ _ _ _ _ Hf) as [Hp _].
  unfold ravl_node_sibling. erewrite bind_ok by by eapply focus_slot_type.
  rewrite decide_False by apply slot_not_root. erewrite bind_ok by by eapply focus_parent.
  destruct f as [[] p rk x sib]; simpl in *.
  - by apply (get_slot_run _ _ R _ Hp).
  - by apply (get_slot_run _ _ L _ Hp).
Qed.

Lemma rank_run r par t : tree_at (r_heap r) par t → ravl_node_rank (tptr t) r = (Ok (trank t), r).
Proof.
  destruct t as [|p rk x l rt]; [done|]. intros (Hp & Hp0 & _). unfold ravl_node_rank. simpl.
  rewrite (proj2 (Z.eqb_neq _ _)) by done. by erewrite bind_ok by by apply node_get_run.
Qed.

Lemma rank_node_run r p n : r_heap r !! p = Some n → p ≠ 0 → ravl_node_rank p r = (Ok (rank n), r).
Proof.
  intros H Hp0. unfold ravl_node_rank. rewrite (proj2 (Z.eqb_neq _ _)) by done.
  by erewrite bind_ok by by apply node_get_run.
Qed.

Lemma difference_run r p n par t : r_heap r !! p = Some n → p ≠ 0 → tree_at (r_heap r) par t →
  ravl_node_rank_difference_parent p (tptr t) r = (Ok (rank n - trank t), r).
Proof.
  intros Hp Hp0 Ht. unfold ravl_node_rank_difference_parent.
  erewrite bind_ok by by apply rank_node_run. by erewrite bind_ok by by eapply rank_run.
Qed.

Lemma rank_frame_node f par q : rank (frame_node f par q) = f_rank f.
Proof. by destruct f as [[] ? ? ? ?]. Qed.

Lemma focus_difference r X f c t : focus r X (f :: c) t → t ≠ Leaf →
  ravl_node_rank_difference (tptr t) r = (Ok (f_rank f - trank t), r) ∧
  ravl_node_rank_difference_parent (f_ptr f) (tptr (f_sib f)) r = (Ok (f_rank f - trank (f_sib f)), r).
Proof.
  intros Hf Ht. pose proof (focus_frame _ _ _ _ _ Hf) as [Hp Hp0].
  pose proof (fo_tree _ _ _ _ Hf) as Hta. destruct (fo_ctx _ _ _ _ Hf) as (_ & _ & Hs & _).
  split.
  - unfold ravl_node_rank_difference. erewrite bind_ok by by eapply focus_parent.
    erewrite (difference_run _ _ _ _ t) by done. by rewrite rank_frame_node.
  - erewrite (difference_run _ _ _ _ (f_sib f)) by done. by rewrite rank_frame_node.
Qed.

Lemma is_i_j_run r X c p rk x l rt i j : focus r X c (Node p rk x l rt) →
  ravl_node_is_i_j p i j r = (Ok ((rk - trank l =? i) && (rk - trank rt =? j)), r).
Proof.
  intros Hf. pose proof (focus_node _ _ _ _ _ _ _ _ Hf) as [Hp Hp0].
  destruct (fo_tree _ _ _ _ Hf) as (_ & _ & Hl & Hr).
  unfold ravl_node_is_i_j. erewrite bind_ok by by apply (get_slot_run _ _ L).
  erewrite bind_ok by by eapply (difference_run _ _ _ _ l). simpl.
  destruct (rk - trank l =? i); [|done].
  erewrite bind_ok by by apply (get_slot_run _ _ R).
  by erewrite bind_ok by by eapply (difference_run _ _ _ _ rt).
Qed.

Lemma focus_is01 r X f c t : focus r X (f :: c) t →
  ravl_node_is (f_ptr f) 0 1 r = (Ok (is01 (f_rank f) (trank t) (trank (f_sib f))), r).
Proof.
  intros Hf%focus_step. unfold ravl_node_is. destruct f as [s p rk x sib]. unfold plug1 in *; simpl in *.
  destruct s; simpl in *; erewrite bind_ok by by eapply is_i_j_run.
  - unfold is01. destruct (_ && _) eqn:E; [done|]. by erewrite is_i_j_run.
  - rewrite is01_comm. unfold is01. destruct (_ && _) eqn:E; [done|]. by erewrite is_i_j_run.
Qed.

(** ** Writing *)

(** What no operation on an existing tree changes. *)
Definition same (r r' : ravl) : Prop :=
  r_data_size r' = r_data_size r ∧ r_brk r' = r_brk r ∧ r_malloc r' = r_malloc r.

Lemma same_refl r : same r r.
Proof. done. Qed.
Lemma same_trans r1 r2 r3 : same r1 r2 → same r2 r3 → same r1 r3.
Proof. intros (?&?&?) (?&?&?). split_and!; congruence. Qed.

Lemma tree_at_ext h h' par t : (∀ q, q ∈ tdom t → h' !! q = h !! q) →
  tree_at h par t → tree_at h' par t.
Proof.
  revert par. induction t as [|p rk x l IHl r IHr]; intros par Hq; simpl in *; [done|].
  intros (Hp & ? & ? & ?). rewrite (Hq p) by set_solver.
  split_and!; [done|done|apply IHl|apply IHr]; try done; intros; apply Hq; set_solver.
Qed.
Lemma ctx_at_ext h h' c q : (∀ p, p ∈ cdom c → h' !! p = h !! p) → ctx_at h c q → ctx_at h' c q.
Proof.
  revert q. induction c as [|f c IH]; intros q Hq; simpl in *; [done|].
  intros (Hp & ? & Hs & ?). rewrite (Hq (f_ptr f)) by set_solver.
  split_and!; [done|done|eapply tree_at_ext; [|exact Hs]|apply IH; [|done]];
    intros; apply Hq; set_solver.
Qed.

(** The same subtree under another parent. *)
Lemma tree_at_reparent h h' par par' t : distinct t →
  (∀ q, q ∈ tdom t → q ≠ tptr t → h' !! q = h !! q) →
  (∀ n, t ≠ Leaf → h !! tptr t = Some n → h' !! tptr t = Some (n_set_parent par' n)) →
  tree_at h par t → tree_at h' par' t.
Proof.
  destruct t as [|p rk x l r]; simpl; [done|]. intros (Hd & Hd2 & _) Hq Hr (Hp & ? & Hl & Hrt).
  rewrite (Hr _ ltac:(done) Hp). split_and!; [done|done| |].
  - eapply tree_at_ext; [|exact Hl]. intros q Hqt. apply Hq; set_solver.
  - eapply tree_at_ext; [|exact Hrt]. intros q Hqt. apply Hq; set_solver.
Qed.

Lemma focus_update r X c p rk x l rt k y : focus r X c (Node p rk x l rt) →
  focus (r_set_heap (<[p := RavlNode (cpar c) (tptr l) (tptr rt) k y.1 y.2]> (r_heap r)) r)
    X c (Node p k y l rt).
Proof.
  intros [Hr Hc (Hp & Hp0 & Hl & Hrt) Hd HX Ha (Hd1 & Hd2 & Hd3) Hcd]. simpl in *.
  split; simpl in *; try done.
  - apply ctx_at_insert; [set_solver|done].
  - rewrite lookup_insert_eq, !tree_at_insert by set_solver. done.
  - rewrite dom_insert_L, Hd. set_solver.
Qed.

Lemma promote_run r X c s p rk x a b : focus r X c (mk s p rk x a b) → rk < 2 ^ 31 - 1 →
  ∃ r', ravl_node_promote p r = (Ok tt, r') ∧ focus r' X c (mk s p (rk + 1) x a b) ∧ same r r'.
Proof.
  intros Hf Hk. unfold ravl_node_promote.
  destruct s; simpl in *; pose proof (focus_node _ _ _ _ _ _ _ _ Hf) as [Hp _];
    (erewrite bind_ok by by apply node_get_run); cbn [rank];
    (rewrite (proj2 (Z.leb_gt _ _)) by lia);
    (erewrite node_mod_run by done); (eexists; split_and!; [done|exact (focus_update _ _ _ _ _ _ _ _ _ _ Hf)|done..]).
Qed.

Lemma demote_run r X c s p rk x a b : focus r X c (mk s p rk x a b) → 0 < rk →
  ∃ r', ravl_node_demote p r = (Ok tt, r') ∧ focus r' X c (mk s p (rk - 1) x a b) ∧ same r r'.
Proof.
  intros Hf Hk. unfold ravl_node_demote.
  destruct s; simpl in *; pose proof (focus_node _ _ _ _ _ _ _ _ Hf) as [Hp _];
    (erewrite bind_ok by by apply node_get_run); cbn [rank];
    (rewrite (proj2 (Z.leb_gt _ _)) by lia);
    (erewrite node_mod_run by done); (eexists; split_and!; [done|exact (focus_update _ _ _ _ _ _ _ _ _ _ Hf)|done..]).
Qed.

(** [*ref = q], for the place where the focus hangs. *)
Definition hole_set (c : list frame) (q : Z) (r : ravl) : ravl :=
  match c with
  | [] => r_set_root q r
  | f :: c => r_set_heap (<[f_ptr f := frame_node f (cpar c) q]> (r_heap r)) r
  end.

Lemma set_slot_frame f par q q' :
  n_set_slot (slot (f_side f)) q' (frame_node f par q) = frame_node f par q'.
Proof. by destruct f as [[] ? ? ? ?]. Qed.

Lemma set_ref_run r c q q' : ctx_at (r_heap r) c q →
  set_ref (cref c) q' r = (Ok tt, hole_set c q' r).
Proof.
  destruct c as [|f c]; [done|]. intros (Hp & _). simpl.
  erewrite set_slot_run by done. by rewrite set_slot_frame.
Qed.

Lemma get_ref_run r X c t : focus r X c t → get_ref (cref c) r = (Ok (tptr t), r).
Proof.
  intros [Hr Hc _ _ _ _ _ _]. destruct c as [|f c]; simpl in *; [unfold gets; by rewrite Hr|].
  destruct Hc as (Hp & _). erewrite get_slot_run by done. by destruct f as [[] ? ? ? ?].
Qed.

Lemma hole_set_out c q r p : p ∉ cdom c → r_heap (hole_set c q r) !! p = r_heap r !! p.
Proof. destruct c as [|f c]; simpl; [done|]. intros. apply lookup_insert_ne. set_solver. Qed.

Lemma hole_set_root c q0 q r : r_root r = croot c q0 → r_root (hole_set c q r) = croot c q.
Proof. by destruct c. Qed.

Lemma hole_set_ctx c q0 q r : cdistinct c → ctx_at (r_heap r) c q0 → ctx_at (r_heap (hole_set c q r)) c q.
Proof.
  destruct c as [|f c]; simpl; [done|]. intros (? & ? & ? & ?) (? & ? & ? & ?).
  rewrite lookup_insert_eq, tree_at_insert, ctx_at_insert by set_solver. done.
Qed.

Lemma hole_set_dom c q0 q r : ctx_at (r_heap r) c q0 → dom (r_heap (hole_set c q r)) = dom (r_heap r).
Proof.
  destruct c as [|f c]; simpl; [done|]. intros (Hp%elem_of_dom_2 & _). rewrite dom_insert_L. set_solver.
Qed.

Lemma hole_set_same c q r : same r (hole_set c q r).
Proof. by destruct c. Qed.

(** *** Rotation *)

Ltac lookups := repeat first
  [ rewrite lookup_insert_eq | rewrite lookup_insert_ne by set_solver
  | rewrite hole_set_out by set_solver; simpl ].

Definition reparent (b : tree) (p : Z) (r : ravl) : ravl :=
  if tptr b =? 0 then r
  else match r_heap r !! tptr b with
       | Some n => r_set_heap (<[tptr b := n_set_parent p n]> (r_heap r)) r
       | None => r
       end.

Lemma reparent_run r b p par : tree_at (r_heap r) par b →
  (if tptr b =? 0 then mret tt else set_parent (tptr b) p) r = (Ok tt, reparent b p r).
Proof.
  intros Hb. unfold reparent. destruct (tptr b =? 0) eqn:E; [done|].
  destruct b as [|q rk x l rt]; [done|]. destruct Hb as (Hq & _). simpl.
  unfold set_parent. erewrite node_mod_run by done. by rewrite Hq.
Qed.

Lemma reparent_out r b p q : q ∉ tdom b → r_heap (reparent b p r) !! q = r_heap r !! q.
Proof.
  intros Hq. unfold reparent. case_match; [done|]. destruct b as [|q' ????]; [done|]. simpl in *.
  case_match; [|done]. apply lookup_insert_ne. set_solver.
Qed.

Lemma reparent_tree r b p par : distinct b → tree_at (r_heap r) par b →
  tree_at (r_heap (reparent b p r)) p b.
Proof.
  intros Hd Hb. unfold reparent. destruct b as [|q rk x l rt]; [done|].
  pose proof Hb as (Hq & Hq0 & _). cbn [tptr]. rewrite (proj2 (Z.eqb_neq _ _)), Hq by done.
  eapply tree_at_reparent; [done| | |exact Hb]; cbn [tptr r_heap r_set_heap].
  - intros. by apply lookup_insert_ne.
  - intros n _ Hn. rewrite lookup_insert_eq. congruence.
Qed.

Lemma reparent_dom r b p : dom (r_heap (reparent b p r)) = dom (r_heap r).
Proof.
  unfold reparent. repeat case_match; try done. simpl.
  rewrite dom_insert_L. apply elem_of_dom_2 in H0. set_solver.
Qed.

Lemma reparent_root r b p : r_root (reparent b p r) = r_root r.
Proof. unfold reparent. by repeat case_match. Qed.
Lemma reparent_same r b p : same r (reparent b p r).
Proof. unfold reparent. by repeat case_match. Qed.

Lemma mk_focus_node r X c s n rn xn a b : focus r X c (mk s n rn xn a b) →
  r_heap r !! n = Some (frame_node (Fr s n rn xn b) (cpar c) (tptr a)) ∧ n ≠ 0.
Proof. destruct s; apply focus_node. Qed.

(** The heap a rotation leaves. *)
Definition rotated (c : list frame) (s : side) n N p P (b : tree) (r : ravl) : ravl :=
  let r := r_set_heap (<[n := n_set_parent (cpar c) N]> (r_heap r)) r in
  let r := r_set_heap (<[p := n_set_parent n P]> (r_heap r)) r in
  let r := hole_set c n r in
  let r := r_set_heap (<[p := n_set_slot (slot s) (tptr b) (n_set_parent n P)]> (r_heap r)) r in
  let r := reparent b p r in
  r_set_heap (<[n := n_set_slot (slot (flip s)) p (n_set_parent (cpar c) N)]> (r_heap r)) r.

Lemma rotate_exec r X c s p rp xp sib n rn xn a b :
  focus r X (Fr s p rp xp sib :: c) (mk s n rn xn a b) →
  ravl_rotate n r =
    (Ok tt, rotated c s n (frame_node (Fr s n rn xn b) p (tptr a))
              p (frame_node (Fr s p rp xp sib) (cpar c) n) b r).
Proof.
  intros Hf. pose proof (mk_focus_node _ _ _ _ _ _ _ _ _ Hf) as [Hn Hn0].
  pose proof (focus_frame _ _ _ _ _ Hf) as [Hp Hp0]. cbn [f_ptr cpar] in *. rewrite tptr_mk in Hp.
  assert (mk s n rn xn a b ≠ Leaf) as Hne by by destruct s.
  pose proof (focus_parent _ _ _ _ Hf Hne) as E1.
  pose proof (focus_slot_type _ _ _ _ _ Hf Hne) as E3. rewrite tptr_mk in *.
  pose proof (proj1 (focus_step _ _ _ _ _) Hf) as Hf'. unfold plug1 in Hf'; cbn in Hf'.
  assert (mk s p rp xp (mk s n rn xn a b) sib ≠ Leaf) as Hne' by by destruct s.
  pose proof (focus_ref _ _ _ _ Hf' Hne') as E2.
  pose proof (focus_parent _ _ _ _ Hf' Hne') as E4. rewrite tptr_mk in *.
  destruct Hf as [Hr (_ & _ & Hs & Hc) Ht Hd HX Ha Hdi (Hd1 & Hd2 & _ & Hcd)].
  cbn [f_ptr f_sib f_side cdom] in *.
  apply tree_at_mk in Ht as (_ & _ & Hta & Htb). apply distinct_mk in Hdi as (Hd3 & Hd4 & _ & Hdb).
  rewrite tdom_mk in *. assert (n ≠ p) as Hnp by set_solver.
  unfold ravl_rotate. do 4 (erewrite bind_ok by done). cbn [f_side] in *. unfold set_parent.
  erewrite bind_ok by by apply node_mod_run.
  erewrite bind_ok by (apply node_mod_run; simpl; by lookups).
  erewrite bind_ok.
  2:{ eapply set_ref_run. simpl. rewrite !ctx_at_insert by set_solver. exact Hc. }
  rewrite opposite_slot.
  erewrite bind_ok.
  2:{ apply get_slot_run. lookups. simpl. by lookups. }
  replace (n_slot (slot (flip s)) _) with (tptr b) by by destruct s.
  erewrite bind_ok by (apply set_slot_run; lookups; simpl; by lookups).
  erewrite bind_ok.
  2:{ eapply reparent_run. simpl. eapply tree_at_ext; [|exact Htb].
      intros q Hq. lookups. simpl. by lookups. }
  erewrite set_slot_run; [reflexivity|].
  rewrite reparent_out by set_solver. simpl. lookups. simpl. by lookups.
Qed.

Lemma rotate_run r X c s p rp xp sib n rn xn a b :
  focus r X (Fr s p rp xp sib :: c) (mk s n rn xn a b) →
  ∃ r', ravl_rotate n r = (Ok tt, r') ∧ same r r' ∧
    focus r' X c (mk s n rn xn a (mk s p rp xp b sib)).
Proof.
  intros Hf. eexists. split; [by eapply rotate_exec|].
  split.
  { unfold rotated. eapply same_trans; [|apply reparent_same]. cbn.
    eapply same_trans; [|apply hole_set_same]. done. }
  destruct Hf as [Hr (Hp & Hp0 & Hs & Hc) Ht Hd HX Ha Hdi (Hd1 & Hd2 & Hds & Hcd)].
  cbn [f_ptr f_sib f_side cdom cpar croot] in *.
  apply tree_at_mk in Ht as (Hn & Hn0 & Hta & Htb). apply distinct_mk in Hdi as (Hd3 & Hd4 & Hda & Hdb).
  rewrite tdom_mk in *. assert (n ≠ p) as Hnp by set_solver.
  unfold rotated. split.
  - cbn [r_root r_set_heap]. rewrite reparent_root. cbn [r_root r_set_heap]. rewrite tptr_mk.
    eapply hole_set_root. exact Hr.
  - cbn [r_heap r_set_heap]. rewrite tptr_mk. apply ctx_at_insert; [set_solver|].
    eapply ctx_at_ext; [intros q Hq; apply reparent_out; set_solver|]. cbn [r_heap r_set_heap].
    apply ctx_at_insert; [set_solver|]. eapply hole_set_ctx; [done|]. cbn [r_heap r_set_heap].
    apply ctx_at_insert; [set_solver|]. apply ctx_at_insert; [set_solver|exact Hc].
  - cbn [r_heap r_set_heap]. rewrite !tree_at_mk. split_and!; try done.
    + lookups. by destruct s.
    + eapply tree_at_ext; [|exact Hta]. intros q Hq. lookups.
      rewrite reparent_out by set_solver. cbn [r_heap r_set_heap]. lookups. simpl. by lookups.
    + lookups. rewrite reparent_out by set_solver. cbn [r_heap r_set_heap]. lookups. by destruct s.
    + apply tree_at_insert; [set_solver|]. eapply reparent_tree; [done|]. cbn [r_heap r_set_heap].
      eapply tree_at_ext; [|exact Htb]. intros q Hq. lookups. simpl. by lookups.
    + eapply tree_at_ext; [|exact Hs]. intros q Hq. lookups.
      rewrite reparent_out by set_solver. cbn [r_heap r_set_heap]. lookups. simpl. by lookups.
  - cbn [r_heap r_set_heap]. rewrite dom_insert_L, reparent_dom. cbn [r_heap r_set_heap].
    rewrite dom_insert_L. erewrite hole_set_dom.
    2:{ cbn [r_heap r_set_heap]. apply ctx_at_insert; [set_solver|]. apply ctx_at_insert; [set_solver|exact Hc]. }
    cbn [r_heap r_set_heap]. rewrite !dom_insert_L, Hd, !tdom_mk. set_solver.
  - rewrite !tdom_mk. set_solver.
  - rewrite !tdom_mk. set_solver.
  - rewrite !distinct_mk, !tdom_mk. set_solver.
  - done.
Qed.
