(* ===== verification/RavlSearch.v ===== *)
(** * Insertion, search and removal in RAVL trees

    The loops and the entry points of [Ravl], run on heaps that hold trees: rebalancing; the search paths of [ravl_emplace] and [ravl_find] on a tree whose
    elements are sorted (class [CompareOk] of comparison callbacks); linking, unlinking and freeing nodes. *)

From stdpp Require Import base gmap list numbers sorting.
From S2P Require Import Prelude Memory Ravl RavlTree RavlBalance RavlRun.
Local Open Scope Z_scope.

(** ** Rebalancing *)

Definition ranks_fit (c : list frame) : Prop := Forall (λ f, f_rank f < 2 ^ 31 - 1) c.

Lemma mk_flip s p rk x a b : mk (flip s) p rk x a b = mk s p rk x b a.
Proof. by destruct s. Qed.
Lemma mk_not_Leaf s p rk x a b : mk s p rk x a b ≠ Leaf.
Proof. by destruct s. Qed.

Lemma promote_loop_run fuel X c t r c' t' : focus r X c t → pending c t → ranks_fit c →
  (length c ≤ fuel)%nat → t_promote c t = (c', t') →
  ∃ r', promote_loop fuel (tptr t) r = (Ok (tptr t'), r') ∧ same r r' ∧ focus r' X c' t'.
Proof.
  revert fuel t r. induction c as [|f c IH]; intros fuel t r Hf Hp Hk Hl E.
  - injection E as <- <-. exists r. split_and!; try done.
    destruct fuel; simpl; by erewrite bind_ok by (eapply focus_parent; [done|apply Hp]).
  - assert (t ≠ Leaf) as Ht by apply Hp. destruct fuel as [|fuel]; [simpl in Hl; lia|].
    cbn [promote_loop t_promote] in *. erewrite bind_ok by by eapply focus_parent.
    rewrite (cpar_nonzero _ _ _ _ _ Hf). cbn [cpar].
    erewrite bind_ok by by eapply focus_is01.
    destruct (is01 _ _ _) eqn:E01; cbn [negb].
    2:{ injection E as <- <-. by exists r. }
    apply Forall_cons_iff in Hk as [Hk1 Hk]. destruct (pending_step _ _ _ Hp E01) as (Hp' & _ & _).
    erewrite bind_ok by by eapply focus_parent. cbn [cpar].
    pose proof (proj1 (focus_step _ _ _ _ _) Hf) as Hf'.
    destruct (promote_run _ _ _ _ _ _ _ _ _ Hf' Hk1) as (r1 & E1 & Hf1 & Hs1).
    erewrite bind_ok by done.
    pose proof (proj2 (focus_step _ _ (set_rank (f_rank f + 1) f) _ _) Hf1) as Hf2.
    erewrite bind_ok by by eapply focus_parent. cbn [cpar set_rank f_ptr].
    destruct (IH fuel _ r1 Hf1 Hp' Hk ltac:(simpl in Hl; lia) E) as (r2 & E2 & Hs2 & Hf3).
    rewrite tptr_mk in E2. exists r2. split_and!; [done|by eapply same_trans|done].
Qed.

(** The single rotation. *)
Lemma single_run r X c s y ry xy sib n rn xn a z :
  focus r X (Fr s y ry xy sib :: c) (mk s n rn xn a z) → 0 < ry →
  ∃ r', (ravl_rotate n;; ravl_node_demote y) r = (Ok tt, r') ∧ same r r' ∧
    focus r' X c (single s y ry xy n rn xn a z sib).
Proof.
  intros Hf Hry. destruct (rotate_run _ _ _ _ _ _ _ _ _ _ _ _ _ Hf) as (r1 & E1 & Hs1 & Hf1).
  erewrite bind_ok by done. rewrite <- mk_flip in Hf1.
  pose proof (proj2 (focus_step _ _ (Fr (flip s) n rn xn a) _ _) Hf1) as Hf2.
  destruct (demote_run _ _ _ _ _ _ _ _ _ Hf2 Hry) as (r2 & E2 & Hf3 & Hs2).
  exists r2. split_and!; [done|by eapply same_trans|].
  apply focus_step in Hf3. unfold plug1 in Hf3; cbn in Hf3. by rewrite mk_flip in Hf3.
Qed.

Lemma double_run r X c s y ry xy sib n rn xn z rz xz a zs zo :
  focus r X (Fr s y ry xy sib :: c) (mk s n rn xn a (mk s z rz xz zs zo)) →
  0 < ry → 0 < rn → rz < 2 ^ 31 - 1 →
  ∃ r', (ravl_rotate z;; ravl_rotate z;; ravl_node_promote z;; ravl_node_demote n;;
         ravl_node_demote y) r = (Ok tt, r') ∧ same r r' ∧
    focus r' X c (double s y ry xy n rn xn z rz xz a zs zo sib).
Proof.
  intros Hf Hry Hrn Hrz. rewrite <- (mk_flip s n), <- (mk_flip s z) in Hf.
  apply (focus_step _ _ (Fr (flip s) n rn xn a)) in Hf.
  destruct (rotate_run _ _ _ _ _ _ _ _ _ _ _ _ _ Hf) as (r1 & E1 & Hs1 & Hf1).
  erewrite bind_ok by done. rewrite !mk_flip in Hf1.
  destruct (rotate_run _ _ _ _ _ _ _ _ _ _ _ _ _ Hf1) as (r2 & E2 & Hs2 & Hf2).
  erewrite bind_ok by done.
  destruct (promote_run _ _ _ _ _ _ _ _ _ Hf2 Hrz) as (r3 & E3 & Hf3 & Hs3).
  erewrite bind_ok by done.
  apply (focus_step _ _ (Fr s z (rz + 1) xz _)) in Hf3.
  destruct (demote_run _ _ _ _ _ _ _ _ _ Hf3 Hrn) as (r4 & E4 & Hf4 & Hs4).
  erewrite bind_ok by done.
  apply focus_step in Hf4. unfold plug1 in Hf4; cbn in Hf4. rewrite <- mk_flip in Hf4.
  apply (focus_step _ _ (Fr (flip s) z (rz + 1) xz _)) in Hf4.
  destruct (demote_run _ _ _ _ _ _ _ _ _ Hf4 Hry) as (r5 & E5 & Hf5 & Hs5).
  exists r5. split; [done|]. split; [by repeat (eapply same_trans; [eassumption|])|].
  apply focus_step in Hf5. unfold plug1 in Hf5; cbn in Hf5. by rewrite mk_flip in Hf5.
Qed.

Lemma other_slot s par rk x l r :
  n_slot (slot (flip s)) (RavlNode par (tptr l) (tptr r) rk x.1 x.2) = tptr (other s l r).
Proof. by destruct s. Qed.

(** What follows the loop of [ravl_balance]. *)
Definition finish_balance (n : Z) : M ravl unit :=
  s ← ravl_node_sibling n;
  dn ← ravl_node_rank_difference n;
  p ← get_parent n;
  go ← (if dn =? 0 then ds ← ravl_node_rank_difference_parent p s; mret (1 <? ds)
        else mret false);
  if negb go then mret tt
  else
    y ← get_parent n;
    t ← ravl_node_slot_type n;
    let t := ravl_slot_opposite t in
    z ← get_slot n t;
    two ← (if z =? 0 then mret true else d ← ravl_node_rank_difference z; mret (d =? 2));
    if (two : bool) then
      ravl_rotate n;;
      ravl_node_demote y
    else
      d ← ravl_node_rank_difference z;
      if d =? 1 then
        ravl_rotate z;;
        ravl_rotate z;;
        ravl_node_promote z;;
        ravl_node_demote n;;
        ravl_node_demote y
      else mret tt.

Lemma finish_root r X t : focus r X [] t → t ≠ Leaf → rank_ok t →
  finish_balance (tptr t) r = (Ok tt, r).
Proof.
  intros Hf Ht Hr. unfold finish_balance, ravl_node_sibling, ravl_node_rank_difference.
  erewrite bind_ok.
  2:{ erewrite bind_ok by by eapply focus_slot_root. reflexivity. }
  erewrite bind_ok.
  2:{ erewrite bind_ok by by eapply focus_parent. unfold ravl_node_rank_difference_parent.
      erewrite bind_ok by reflexivity. erewrite bind_ok by (eapply rank_run; apply Hf). reflexivity. }
  erewrite bind_ok by by eapply focus_parent.
  pose proof (trank_ge t Hr). destruct t as [|p rk x l rt]; [done|]. destruct Hr as (?&?&?&?).
  pose proof (trank_ge l ltac:(done)). cbn [trank] in *.
  rewrite (proj2 (Z.eqb_neq _ _)) by lia. done.
Qed.

Lemma finish_run r X f c t : focus r X (f :: c) t → pending (f :: c) t → ranks_fit (f :: c) →
  is01 (f_rank f) (trank t) (trank (f_sib f)) = false →
  ∃ r', finish_balance (tptr t) r = (Ok tt, r') ∧ same r r' ∧ focus r' X c (t_rotate f t).
Proof.
  intros Hf Hp Hk H01. assert (t ≠ Leaf) as Ht by apply Hp.
  unfold finish_balance. erewrite bind_ok by by eapply focus_sibling.
  destruct (focus_difference _ _ _ _ _ Hf Ht) as [Ed1 Ed2]. erewrite bind_ok by done.
  pose proof (focus_parent _ _ _ _ Hf Ht) as Epar. erewrite bind_ok by done. cbn [cpar] in *.
  erewrite (bind_ok _ _ _ ((f_rank f - trank t =? 0) && (1 <? f_rank f - trank (f_sib f)))).
  2:{ destruct (_ =? 0); [|done]. by erewrite bind_ok by done. }
  destruct f as [s y ry xy sib], t as [|n rn xn l rt]; [done|]. cbn [t_rotate trank f_rank f_sib] in *.
  destruct (_ && _) eqn:Hg; cbn [negb]; [|exists r; split_and!; [done..|by apply focus_step]].
  pose proof Hp as (Hrk & _ & Hs & Hso & _ & Hv). cbn in Hv, Hs.
  assert (0 < rn ∧ ry = rn) as [Hrn ->].
  { pose proof (trank_ge sib Hso). apply andb_true_iff in Hg as [?%Z.eqb_eq ?%Z.ltb_lt]. lia. }
  destruct Hv as [?|[_ Hfr]]; [lia|]. apply Forall_cons_iff in Hk as [Hk1 _]. cbn in Hk1.
  erewrite bind_ok by done.
  erewrite bind_ok by by eapply focus_slot_type. cbn [f_side tptr] in *. rewrite opposite_slot.
  pose proof (focus_node _ _ _ _ _ _ _ _ Hf) as [Hn Hn0].
  erewrite bind_ok by by apply get_slot_run. rewrite other_slot.
  rewrite (Node_mk s) in Hf. pose proof (fresh_other s _ _ _ _ _ Hrk Hfr Hrn) as Hd.
  destruct (other s l rt) as [|z rz xz zl zr] eqn:Ho; cbn [tptr].
  { by apply single_run. }
  pose proof Hf as Hfz. rewrite <- mk_flip in Hfz.
  apply (focus_step _ _ (Fr (flip s) n rn xn _)) in Hfz.
  pose proof (focus_node _ _ _ _ _ _ _ _ Hfz) as [_ Hz0].
  destruct (focus_difference _ _ _ _ _ Hfz ltac:(done)) as [Edz _]. cbn [tptr f_rank trank] in *.
  rewrite (proj2 (Z.eqb_neq z 0)) by done.
  erewrite (bind_ok _ _ _ (rn - rz =? 2)) by by erewrite bind_ok by done.
  destruct (rn - rz =? 2) eqn:E2; [by apply single_run|].
  erewrite bind_ok by done.
  destruct (rn - rz =? 1) eqn:E1; [|exists r; split_and!; [done..|]].
  - rewrite (Node_mk s z) in Hf. apply double_run; [done..|bool_hyps; lia].
  - bool_hyps. lia.
Qed.

Lemma balance_run r X c t : focus r X c t → pending c t → ranks_fit c →
  ∃ r', ravl_balance (tptr t) r = (Ok tt, r') ∧ same r r' ∧ focus r' X [] (t_balance c t).
Proof.
  intros Hf Hp Hk. unfold t_balance. destruct (t_promote c t) as [c' t'] eqn:E.
  pose proof (focus_fuel _ _ _ _ Hf) as Hfu.
  destruct (promote_loop_run (path_fuel r) _ _ _ _ _ _ Hf Hp Hk ltac:(lia) E)
    as (r1 & E1 & Hs1 & Hf1).
  destruct (t_promote_pending _ _ _ _ Hp E) as [Hp' H01].
  assert (ravl_balance (tptr t) r = finish_balance (tptr t') r1) as ->.
  { unfold ravl_balance. erewrite bind_ok by reflexivity. by erewrite bind_ok by done. }
  destruct c' as [|f c'].
  - exists r1. split_and!; [|done|done]. eapply finish_root; [exact Hf1|apply Hp'|apply Hp'].
  - assert (ranks_fit (f :: c')) as Hk'.
    { clear -Hk E. revert t E. induction c as [|g c IH]; intros t E; simpl in E; [done|].
      apply Forall_cons_iff in Hk as [Hk1 Hk].
      destruct (is01 _ _ _); [by eapply IH|]. simplify_eq. by constructor. }
    destruct (finish_run _ _ _ _ _ Hf1 Hp' Hk' H01) as (r2 & E2 & Hs2 & Hf2).
    exists r2. split_and!; [done|by eapply same_trans|]. by apply (proj1 (focus_plug _ _ _ _)).
Qed.

(** * Order: walking down and finding

    The search paths of [ravl_emplace] and [ravl_find] on a tree whose elements are sorted. *)

(** What the callback must be: a total preorder, given by signs. *)
Class CompareOk (compare : dref → dref → Z) : Prop := {
  cmp_antisym a b : compare a b < 0 ↔ 0 < compare b a;
  cmp_trans a b c : compare a b ≤ 0 → compare b c ≤ 0 → compare a c ≤ 0
}.

Section search.
Context (compare : dref → dref → Z) `{!CompareOk compare}.

Definition lt (a b : dref) : Prop := compare a b < 0.

Lemma cmp_refl a : compare a a = 0.
Proof. pose proof (cmp_antisym a a). lia. Qed.

Lemma lt_trans a b c : lt a b → lt b c → lt a c.
Proof.
  unfold lt. intros H1 H2. pose proof (cmp_antisym b c). pose proof (cmp_antisym a c).
  pose proof (cmp_trans a b c). pose proof (cmp_trans c a b). pose proof (cmp_antisym c a).
  pose proof (cmp_antisym c b). lia.
Qed.

(** Elements that compare equal are interchangeable. *)
Lemma eq_lt a b c : compare a b = 0 → lt b c → lt a c.
Proof.
  unfold lt. intros H1 H2. pose proof (cmp_antisym b c). pose proof (cmp_antisym a c).
  pose proof (cmp_trans a b c). pose proof (cmp_trans c a b). pose proof (cmp_antisym c a).
  pose proof (cmp_antisym c b). lia.
Qed.
Lemma lt_eq a b c : compare b c = 0 → lt a b → lt a c.
Proof.
  unfold lt. intros H1 H2. pose proof (cmp_antisym a b). pose proof (cmp_antisym a c).
  pose proof (cmp_trans a b c). pose proof (cmp_trans b c a). pose proof (cmp_antisym c a).
  pose proof (cmp_antisym b c). pose proof (cmp_antisym c b). lia.
Qed.

(** ** Sorted entries *)

Definition elt (a b : Z * dref) : Prop := lt a.2 b.2.
Definition sorted (es : list (Z * dref)) : Prop := StronglySorted elt es.

Lemma sorted_app es1 es2 : sorted (es1 ++ es2) ↔
  sorted es1 ∧ sorted es2 ∧ ∀ a b, a ∈ es1 → b ∈ es2 → elt a b.
Proof using compare. clear CompareOk0.
  unfold sorted. induction es1 as [|a es1 IH]; simpl.
  { split; [intros H; split_and!; [constructor|done|set_solver]|tauto]. }
  split.
  - intros [H1 H2]%StronglySorted_inv. apply IH in H1 as (? & ? & ?).
    rewrite Forall_app in H2. destruct H2 as [H2 H3]. split_and!; [by constructor|done|].
    intros a' b [->|?]%elem_of_cons ?; [by eapply Forall_forall in H3|eauto].
  - intros ([H1 H2]%StronglySorted_inv & H3 & H4). constructor.
    + apply IH. split_and!; [done..|]. intros. apply H4; [by right|done].
    + rewrite Forall_app. split; [done|]. apply Forall_forall. intros. apply H4; [by left|done].
Qed.

Lemma sorted_cons a es : sorted (a :: es) ↔ sorted es ∧ ∀ b, b ∈ es → elt a b.
Proof using compare. clear CompareOk0.
  unfold sorted. split.
  - intros [? H]%StronglySorted_inv. split; [done|]. by apply Forall_forall.
  - intros [? ?]. constructor; [done|]. by apply Forall_forall.
Qed.

(** The elements around a position are those before and those after the key looked for. *)
Definition between (k : dref) (c : list frame) : Prop :=
  (∀ e, e ∈ lefts c → lt e.2 k) ∧ (∀ e, e ∈ rights c → lt k e.2).

Lemma between_step k c s p rk x l rt : sorted (entries (plug c (Node p rk x l rt))) → between k c →
  (match s with L => lt k (key_of x) | R => lt (key_of x) k end) →
  between k (Fr s p rk x (other s l rt) :: c).
Proof.
  rewrite entries_plug. simpl. rewrite !sorted_app, !sorted_cons. setoid_rewrite elem_of_app.
  setoid_rewrite elem_of_cons.
  intros (Hl & ((Hs1 & (Hs2 & H1) & H2) & Hr & H3) & H4) [B1 B2] Hs.
  destruct s; split; simpl; intros e He.
  - apply B1. set_solver.
  - assert (e = (p, key_of x) ∨ e ∈ entries rt ∨ e ∈ rights c) as [->|[?|?]] by set_solver;
      [done| |auto]. eapply lt_trans; [exact Hs|]. by apply (H1 e).
  - assert (e = (p, key_of x) ∨ e ∈ entries l ∨ e ∈ lefts c) as [->|[?|?]] by set_solver;
      [done| |auto]. eapply lt_trans; [|exact Hs]. apply (H2 e (p, key_of x)); auto.
  - apply B2. set_solver.
Qed.

(** ** Walking down to a free slot *)

Lemma node_data_run r p n : r_heap r !! p = Some n → node_data p r = (Ok (ravl_data n), r).
Proof using. intros H. unfold node_data. by erewrite bind_ok by by apply node_get_run. Qed.


(** The way a comparison goes. *)
Definition dir (c : Z) : side := if 0 <? c then R else L.
Lemma slot_of_dir c : slot_of c = slot (dir c).
Proof using. unfold slot_of, dir. by destruct (0 <? c). Qed.

Lemma focus_child r X c s p rk x l rt : focus r X c (Node p rk x l rt) →
  focus r X (Fr s p rk x (other s l rt) :: c) (child s l rt).
Proof using. intros H. rewrite focus_step. unfold plug1; simpl. by destruct s. Qed.

Lemma between_dir k c p rk x l rt : sorted (entries (plug c (Node p rk x l rt))) → between k c →
  compare k (key_of x) ≠ 0 →
  between k (Fr (dir (compare k (key_of x))) p rk x
               (other (dir (compare k (key_of x))) l rt) :: c).
Proof.
  intros Hs Hb Hne. eapply between_step; [done..|]. unfold dir, lt.
  pose proof (cmp_antisym (key_of x) k). destruct (0 <? _) eqn:E; bool_hyps; lia.
Qed.

Lemma plug_child c s p rk x l rt :
  plug (Fr s p rk x (other s l rt) :: c) (child s l rt) = plug c (Node p rk x l rt).
Proof using. by destruct s. Qed.

Lemma height_child s l rt : (height (child s l rt) ≤ height l `max` height rt)%nat.
Proof using. clear compare CompareOk0. destruct s; simpl; lia. Qed.

Lemma walk_down_run fuel r X n N k : r_heap r !! n = Some N → ravl_data N = k →
  ∀ c t, focus r X c t → sorted (entries (plug c t)) → between k c → (height t ≤ fuel)%nat →
  ∃ o, walk_down compare fuel n (cref c) (cpar c) r = (Ok o, r) ∧
    match o with
    | None => ∃ e, e ∈ entries (plug c t) ∧ compare k e.2 = 0
    | Some (d, p) => ∃ c', d = cref c' ∧ p = cpar c' ∧ plug c' Leaf = plug c t ∧
        focus r X c' Leaf ∧ between k c'
    end.
Proof.
  intros Hn Hk. induction fuel as [|fuel IH]; intros c t Hf Hs Hb Hh;
    cbn [walk_down]; (erewrite bind_ok by by eapply get_ref_run);
    (destruct t as [|p rk x l rt]; cbn [tptr];
      [eexists; split; [done|]; exists c; split_and!; done|]); [simpl in Hh; lia|].
  pose proof (focus_node _ _ _ _ _ _ _ _ Hf) as [Hp Hp0].
  rewrite (proj2 (Z.eqb_neq _ _)) by done.
  erewrite bind_ok by by apply node_data_run. erewrite bind_ok by by apply node_data_run.
  rewrite Hk. change (ravl_data _) with (key_of x).
  destruct (compare k (key_of x) =? 0) eqn:E; bool_hyps.
  { eexists. split; [done|]. exists (p, key_of x). split; [|done].
    rewrite entries_plug. simpl. set_solver. }
  rewrite slot_of_dir. set (s := dir (compare k (key_of x))).
  rewrite <- (plug_child c s) in Hs |- *.
  apply (IH (Fr s p rk x (other s l rt) :: c) (child s l rt)).
  - by apply focus_child.
  - done.
  - rewrite plug_child in Hs. by apply between_dir.
  - pose proof (height_child s l rt). simpl in Hh. lia.
Qed.

(** ** Successor and predecessor *)

Definition outs (s : side) (c : list frame) : list (Z * dref) :=
  match s with L => lefts c | R => rights c end.
Definition cat (s : side) (a b : list (Z * dref)) : list (Z * dref) :=
  match s with L => b ++ a | R => a ++ b end.
(** The address of the entry closest to the position on side [s]; [NULL] when there is none. *)
Definition near (s : side) (es : list (Z * dref)) : Z :=
  from_option fst 0 (match s with L => last es | R => head es end).

Lemma near_cat s a b : a ≠ [] → near s (cat s a b) = near s a.
Proof using.
  intros Ha. unfold near, cat. destruct s.
  - rewrite last_app. destruct (last a) eqn:E; [done|]. by apply last_None in E.
  - by destruct a.
Qed.
Lemma near_nil s b : near s (cat s [] b) = near s b.
Proof using. destruct s; simpl; [by rewrite app_nil_r|done]. Qed.

Lemma entries_nil t : t ≠ Leaf → entries t ≠ [].
Proof using. destruct t; simpl; [done|]. intros _ H. by destruct (entries t1). Qed.

Lemma entries_cat s p rk x l rt :
  entries (Node p rk x l rt) = cat s (entries (other s l rt)) (cat s [(p, key_of x)] (entries (child s l rt))).
Proof using. destruct s; simpl; by rewrite <- ?app_assoc. Qed.

Lemma type_most_run r s : ∀ t par fuel, tree_at (r_heap r) par t → t ≠ Leaf →
  (height t ≤ S fuel)%nat → ravl_node_type_most fuel (tptr t) (slot (flip s)) r = (Ok (near s (entries t)), r).
Proof using. clear compare CompareOk0.
  induction t as [|p rk x l IHl rt IHr]; intros par fuel Ht Hne Hh; [done|].
  pose proof Ht as (Hp & Hp0 & Hl & Hr).
  assert (tree_at (r_heap r) p (other s l rt)) as Hto by by destruct s.
  assert (height (other s l rt) ≤ fuel)%nat as Hho by (simpl in Hh; destruct s; simpl; lia).
  rewrite (entries_cat s).
  assert (ravl_node_type_most fuel p (slot (flip s)) r =
    (if tptr (other s l rt) =? 0 then (Ok p, r)
     else match fuel with
          | O => (Undef, r)
          | S fuel => ravl_node_type_most fuel (tptr (other s l rt)) (slot (flip s)) r
          end)) as E.
  { destruct fuel; cbn [ravl_node_type_most]; (erewrite bind_ok by by apply get_slot_run);
      replace (n_slot _ _) with (tptr (other s l rt)) by (by destruct s);
      by destruct (_ =? 0). }
  cbn [tptr]. rewrite E. destruct (decide (other s l rt = Leaf)) as [Eo|Ho].
  - rewrite Eo. rewrite near_nil, near_cat by done. by destruct s.
  - rewrite (tptr_nonzero _ _ _ Hto Ho). rewrite near_cat by by apply entries_nil.
    destruct fuel as [|fuel]; [destruct (other s l rt); simpl in *; [done|lia]|].
    destruct s; simpl in *; [by eapply IHr|by eapply IHl].
Qed.

Lemma frame_slot f par q s :
  n_slot (slot s) (frame_node f par q) =
    match f_side f, s with L, L | R, R => q | _, _ => tptr (f_sib f) end.
Proof using. by destruct f as [[] ? ? ? ?], s. Qed.

Lemma sibling_differs r X f c t : focus r X (f :: c) t → t ≠ Leaf → tptr t ≠ tptr (f_sib f).
Proof using. clear compare CompareOk0.
  intros [_ (_ & _ & Hs & _) Ht _ _ Ha _ _] Hne E. pose proof (tree_at_nonzero _ _ _ Ht).
  destruct (tptr_dom t) as [?|Ht1]; [done|]. simpl in Ha.
  destruct (tptr_dom (f_sib f)) as [E'|Hs1]; [|rewrite <- E in Hs1; set_solver].
  rewrite E' in E. simpl in E. by rewrite E in Ht1.
Qed.

Lemma first_parent_run r X s : ∀ c t fuel, focus r X c t → t ≠ Leaf → (length c ≤ fuel)%nat →
  first_parent fuel (tptr t) (slot s) r = (Ok (near s (outs s c)), r).
Proof using. clear compare CompareOk0.
  induction c as [|f c IH]; intros t fuel Hf Ht Hl.
  - destruct fuel; cbn [first_parent]; (erewrite bind_ok by by eapply focus_parent); by destruct s.
  - destruct fuel as [|fuel]; [simpl in Hl; lia|]. cbn [first_parent].
    erewrite bind_ok by by eapply focus_parent. rewrite (cpar_nonzero _ _ _ _ _ Hf). cbn [cpar].
    pose proof (focus_frame _ _ _ _ _ Hf) as [Hp _].
    erewrite bind_ok by by apply get_slot_run. rewrite frame_slot.
    pose proof (sibling_differs _ _ _ _ _ Hf Ht) as Hd%Z.eqb_neq.
    assert (first_parent fuel (f_ptr f) (slot s) r = (Ok (near s (outs s c)), r)) as IH'.
    { rewrite <- (tptr_plug1 f t). apply IH; [by apply focus_step|by destruct f as [[] ????]|simpl in Hl; lia]. }
    destruct (f_side f) eqn:Ef, s; rewrite ?Z.eqb_refl, ?Hd; cbn [negb];
      rewrite ?IH'; unfold near, outs; simpl; rewrite Ef; rewrite ?app_nil_r; try done.
    by rewrite last_app, last_snoc.
Qed.

Lemma cessor_run r X c p rk x l rt s : focus r X c (Node p rk x l rt) →
  ravl_node_cessor p (slot s) r = (Ok (near s (cat s (entries (child s l rt)) (outs s c))), r).
Proof using. clear compare CompareOk0.
  intros Hf. pose proof (focus_node _ _ _ _ _ _ _ _ Hf) as [Hp Hp0].
  pose proof (focus_fuel _ _ _ _ Hf) as Hfu. pose proof (height_tsize (Node p rk x l rt)) as Hh.
  unfold ravl_node_cessor. erewrite bind_ok by reflexivity.
  erewrite bind_ok by by apply get_slot_run.
  replace (n_slot _ _) with (tptr (child s l rt)) by (by destruct s).
  pose proof (focus_child _ _ _ s _ _ _ _ _ Hf) as Hfc.
  destruct (decide (child s l rt = Leaf)) as [Ec|Hc].
  - rewrite Ec. cbn [tptr negb]. change (0 =? 0) with true. cbn [negb]. rewrite near_nil.
    by eapply (first_parent_run r X s c (Node p rk x l rt)); [| |lia].
  - rewrite (tptr_nonzero _ _ _ (fo_tree _ _ _ _ Hfc) Hc). cbn [negb].
    rewrite opposite_slot, near_cat by by apply entries_nil.
    eapply type_most_run; [apply Hfc|done|]. pose proof (height_child s l rt). simpl in *. lia.
Qed.

(** ** Finding *)

Definition predicates : list Z :=
  [RAVL_PREDICATE_EQUAL; RAVL_PREDICATE_GREATER; RAVL_PREDICATE_LESS;
   RAVL_PREDICATE_LESS_EQUAL; RAVL_PREDICATE_GREATER_EQUAL].

(** The neighbour of the key that the predicate asks for. *)
Definition neighbour (flags : Z) (before after : list (Z * dref)) : Z :=
  if has_flag flags RAVL_PREDICATE_GREATER then near R after
  else if has_flag flags RAVL_PREDICATE_LESS then near L before
  else 0.

(** The node to be found among the entries [es]: one that is equal to the key, if that will do, or
    the closest one on the side asked for. *)
Definition found (flags : Z) (k : dref) (es : list (Z * dref)) : Z :=
  let others := neighbour flags (filter (λ e, 0 < compare k e.2) es) (filter (λ e, compare k e.2 < 0) es) in
  match filter (λ e, compare k e.2 = 0) es with
  | e :: _ => if has_flag flags RAVL_PREDICATE_EQUAL then e.1 else others
  | [] => others
  end.

Lemma filter_all {A} (P : A → Prop) `{∀ x, Decision (P x)} (l : list A) : (∀ x, x ∈ l → P x) → filter P l = l.
Proof using.
  induction l as [|x l IH]; [done|]. intros H1. rewrite filter_cons_True by (apply H1; by left).
  f_equal. apply IH. intros y Hy. apply H1. by right.
Qed.
Lemma filter_none {A} (P : A → Prop) `{∀ x, Decision (P x)} (l : list A) : (∀ x, x ∈ l → ¬ P x) → filter P l = [].
Proof using.
  induction l as [|x l IH]; [done|]. intros H1. rewrite filter_cons_False by (apply H1; by left).
  apply IH. intros y Hy. apply H1. by right.
Qed.

(** Entries that are split by the key: those before it, those equal to it, those after it. *)
Lemma found_split flags k before equal after :
  (∀ e, e ∈ before → lt e.2 k) → (∀ e, e ∈ equal → compare k e.2 = 0) → (∀ e, e ∈ after → lt k e.2) →
  found flags k (before ++ equal ++ after) =
    match equal with
    | e :: _ => if has_flag flags RAVL_PREDICATE_EQUAL then e.1 else neighbour flags before after
    | [] => neighbour flags before after
    end.
Proof.
  intros Hb He Ha. unfold found, lt in *.
  assert (∀ e, e ∈ before → 0 < compare k e.2) as Hb'.
  { intros e Hin. pose proof (cmp_antisym e.2 k). by apply H, Hb. }
  rewrite !filter_app.
  rewrite (filter_all (λ e, 0 < compare k e.2) before) by done.
  rewrite (filter_none (λ e, 0 < compare k e.2) equal) by (intros e ?%He; lia).
  rewrite (filter_none (λ e, 0 < compare k e.2) after) by (intros e ?%Ha; lia).
  rewrite (filter_none (λ e, compare k e.2 < 0) before) by (intros e ?%Hb'; lia).
  rewrite (filter_none (λ e, compare k e.2 < 0) equal) by (intros e ?%He; lia).
  rewrite (filter_all (λ e, compare k e.2 < 0) after) by done.
  rewrite (filter_none (λ e, compare k e.2 = 0) before) by (intros e ?%Hb'; lia).
  rewrite (filter_all (λ e, compare k e.2 = 0) equal) by done.
  rewrite (filter_none (λ e, compare k e.2 = 0) after) by (intros e ?%Ha; lia).
  simpl. rewrite !app_nil_r. by destruct equal.
Qed.

Lemma equal_split k c p rk x l rt : sorted (entries (plug c (Node p rk x l rt))) → between k c →
  compare k (key_of x) = 0 →
  (∀ e, e ∈ lefts c ++ entries l → lt e.2 k) ∧ (∀ e, e ∈ entries rt ++ rights c → lt k e.2).
Proof.
  rewrite entries_plug. simpl. rewrite !sorted_app, !sorted_cons.
  intros (Hl & ((Hs1 & (Hs2 & H1) & H2) & Hr & H3) & H4) [B1 B2] Hk. split.
  - intros e [?|?]%elem_of_app; [auto|]. eapply lt_eq.
    + pose proof (cmp_antisym k (key_of x)). pose proof (cmp_antisym (key_of x) k).
      instantiate (1 := key_of x). lia.
    + apply (H2 e (p, key_of x)); [done|by left].
  - intros e [?|?]%elem_of_app; [|auto]. eapply eq_lt; [exact Hk|]. by apply (H1 e).
Qed.

Ltac each_predicate H :=
  unfold predicates in H; rewrite !elem_of_cons, elem_of_nil in H;
  destruct H as [->|[->|[->|[->|[->|[]]]]]];
  repeat match goal with
  | |- context [has_flag ?a ?b] =>
      let v := eval vm_compute in (has_flag a b) in change (has_flag a b) with v
  end.

(** The test at one node of the search path. *)
Lemma predicate_run r X c p rk x l rt k flags : focus r X c (Node p rk x l rt) →
  flags ∈ predicates →
  let res := compare k (key_of x) in
  let best := neighbour flags (lefts c) (rights c) in
  ravl_predicate_holds res best p flags r =
    (Ok (if decide (res = 0) then
           (true, if has_flag flags RAVL_PREDICATE_EQUAL then p
                  else neighbour flags (lefts c ++ entries l) (entries rt ++ rights c))
         else (false, let f := Fr (dir res) p rk x (other (dir res) l rt) in
                      neighbour flags (lefts (f :: c)) (rights (f :: c)))), r).
Proof.
  intros Hf Hfl res best. unfold ravl_predicate_holds.
  pose proof (cessor_run _ _ _ _ _ _ _ _ R Hf) as Hsucc.
  pose proof (cessor_run _ _ _ _ _ _ _ _ L Hf) as Hpred. simpl in Hsucc, Hpred.
  assert (Hlast : near L (lefts c ++ entries l ++ [(p, key_of x)]) = p).
  { unfold near. by rewrite app_assoc, last_snoc. }
  unfold dir, best, neighbour. clear best.
  destruct (decide (res = 0)) as [E|E].
  - rewrite E. each_predicate Hfl; cbn -[ravl_node_cessor near]; try done;
      unfold ravl_node_successor, ravl_node_predecessor, mbind, M_bind;
      rewrite ?Hsucc, ?Hpred; done.
  - destruct (0 <? res) eqn:E1; bool_hyps;
      each_predicate Hfl; cbn;
      rewrite ?(proj2 (Z.eqb_neq res 0)) by lia; cbn;
      rewrite ?(proj2 (Z.ltb_ge res 0)), ?(proj2 (Z.ltb_lt 0 res)),
        ?(proj2 (Z.ltb_lt res 0)), ?(proj2 (Z.ltb_ge 0 res)) by lia; cbn;
      rewrite ?app_nil_r, ?Hlast; try done; unfold near in Hlast; by rewrite Hlast.
Qed.

Lemma find_loop_run fuel r X k flags : flags ∈ predicates →
  ∀ c t, focus r X c t → sorted (entries (plug c t)) → between k c → (height t ≤ fuel)%nat →
  find_loop compare fuel k flags (tptr t) (neighbour flags (lefts c) (rights c)) r =
    (Ok (found flags k (entries (plug c t))), r).
Proof.
  intros Hfl. induction fuel as [|fuel IH]; intros c t Hf Hs Hb Hh;
    (destruct t as [|p rk x l rt];
      [rewrite entries_plug; cbn [entries]; rewrite found_split by (apply Hb || set_solver); done|]);
    [simpl in Hh; lia|].
  pose proof (focus_node _ _ _ _ _ _ _ _ Hf) as [Hp Hp0]. cbn [find_loop tptr].
  rewrite (proj2 (Z.eqb_neq _ _)) by done. erewrite bind_ok by by apply node_data_run.
  change (ravl_data _) with (key_of x).
  erewrite bind_ok by by apply (predicate_run _ _ _ _ _ _ _ _ k flags Hf Hfl). cbn zeta.
  destruct (decide _) as [E|E].
  - destruct (equal_split _ _ _ _ _ _ _ Hs Hb E) as [H1 H2]. rewrite entries_plug. simpl.
    rewrite <- app_assoc. simpl. rewrite app_assoc.
    change ((p, key_of x) :: entries rt ++ rights c) with ([(p, key_of x)] ++ entries rt ++ rights c).
    rewrite (found_split flags k (lefts c ++ entries l) [(p, key_of x)]); [done..| |done].
    intros e [->|Hn%elem_of_nil]%elem_of_cons; done.
  - erewrite bind_ok.
    2:{ rewrite slot_of_dir. by apply get_slot_run. }
    set (s := dir (compare k (key_of x))).
    replace (n_slot _ _) with (tptr (child s l rt)) by (by destruct s).
    rewrite <- (plug_child c s) in Hs |- *. apply IH.
    + by apply focus_child.
    + done.
    + rewrite plug_child in Hs. by apply between_dir.
    + pose proof (height_child s l rt). simpl in Hh. lia.
Qed.

Lemma find_run r X t k flags : focus r X [] t → sorted (entries t) → flags ∈ predicates →
  ravl_find compare k flags r = (Ok (found flags k (entries t)), r).
Proof.
  intros Hf Hs Hfl. unfold ravl_find. do 2 (erewrite bind_ok by reflexivity).
  rewrite (fo_root _ _ _ _ Hf). pose proof (focus_fuel _ _ _ _ Hf). pose proof (height_tsize t).
  replace 0 with (neighbour flags (lefts []) (rights [])).
  - apply (find_loop_run _ _ _ _ _ Hfl [] t Hf Hs); [by split; intros ? ?%elem_of_nil|simpl in *; lia].
  - unfold neighbour. by repeat case_match.
Qed.
End search.

(** * Linking, unlinking and freeing nodes *)

(** ** Linking a new node *)

Lemma link_run r X n d c : focus r ({[n]} ∪ X) c Leaf → n ∉ X → n ≠ 0 →
  r_heap r !! n = Some (RavlNode 0 0 0 0 d.1 d.2) →
  ∃ r', (set_parent n (cpar c);; set_ref (cref c) n) r = (Ok tt, r') ∧ same r r' ∧
    focus r' X c (Node n 0 d Leaf Leaf).
Proof.
  intros [Hr Hc _ Hd HX Ha _ Hcd] Hn Hn0 Hl. unfold set_parent.
  erewrite bind_ok by by apply node_mod_run.
  eexists. split; [|split].
  - eapply set_ref_run. simpl. apply ctx_at_insert; [set_solver|exact Hc].
  - eapply same_trans; [|apply hole_set_same]. done.
  - assert (ctx_at (<[n:=n_set_parent (cpar c) (RavlNode 0 0 0 0 d.1 d.2)]> (r_heap r)) c (tptr Leaf)) as Hc'.
    { apply ctx_at_insert; [set_solver|exact Hc]. }
    split.
    + by eapply hole_set_root.
    + by eapply hole_set_ctx.
    + simpl. rewrite hole_set_out by set_solver. simpl. by rewrite lookup_insert_eq.
    + erewrite hole_set_dom by exact Hc'. simpl. rewrite dom_insert_L, Hd. set_solver.
    + set_solver.
    + set_solver.
    + set_solver.
    + done.
Qed.

(** ** Unlinking a node with at most one child *)

Definition only_child (l rt : tree) : tree := match l with Leaf => rt | _ => l end.

Lemma unlink_run fuel r X c p rk x l rt : focus r X c (Node p rk x l rt) → l = Leaf ∨ rt = Leaf →
  ∃ r', ravl_remove_rec fuel p r = (Ok tt, r') ∧ same r r' ∧ focus r' X c (only_child l rt).
Proof.
  intros Hf Hone. pose proof (focus_node _ _ _ _ _ _ _ _ Hf) as [Hp Hp0].
  pose proof Hf as [Hr Hc (_ & _ & Hl & Hrt) Hd HX Ha (Hd1 & Hd2 & Hd3 & Hd4) Hcd]. simpl in HX, Ha, Hd.
  set (b := only_child l rt).
  assert (tree_at (r_heap r) p b ∧ distinct b ∧ tdom b = tdom l ∪ tdom rt) as (Hb & Hdb & Hdom).
  { unfold b, only_child. destruct l; [|destruct Hone as [?| ->]; [done|]]; split_and!; try done; set_solver. }
  assert (ravl_remove_rec fuel p r =
    ((if tptr b =? 0 then mret tt else q ← get_parent p; set_parent (tptr b) q);;
     d ← ravl_node_ref p; set_ref d (tptr b);; Free_node p) r) as ->.
  { destruct fuel; cbn [ravl_remove_rec]; (erewrite bind_ok by by apply (get_slot_run _ _ L));
      (erewrite bind_ok by by apply (get_slot_run _ _ R)); cbn [n_slot slot slot_left slot_right];
      unfold b, only_child; (destruct l as [|pl ????]; cbn [tptr]; [done|]);
      destruct Hone as [?| ->]; try done; destruct Hl as (_ & ? & _);
      cbn zeta; (assert (pl =? 0 = false) as E by (by apply Z.eqb_neq)); rewrite !E;
      cbn [negb andb tptr]; change (0 =? 0) with true; cbn [negb]; by rewrite !E. }
  erewrite (bind_ok _ _ _ tt (reparent b (cpar c) r)).
  2:{ erewrite <- reparent_run by done. destruct (tptr b =? 0); [done|].
      erewrite bind_ok by by apply get_parent_run. done. }
  assert (r_heap (reparent b (cpar c) r) !! p = Some (RavlNode (cpar c) (tptr l) (tptr rt) rk x.1 x.2)) as Hp'
    by (rewrite reparent_out by set_solver; done).
  assert (ctx_at (r_heap (reparent b (cpar c) r)) c p) as Hc'.
  { eapply ctx_at_ext; [|exact Hc]. intros q Hq. apply reparent_out. set_solver. }
  assert (ravl_node_ref p (reparent b (cpar c) r) = (Ok (cref c), reparent b (cpar c) r)) as Href.
  { unfold ravl_node_ref, ravl_node_slot_type. destruct c as [|f c]; simpl in *.
    - erewrite bind_ok; [|by erewrite bind_ok by by apply get_parent_run]. done.
    - destruct Hc' as (Hq & Hq0 & Hs & _).
      erewrite bind_ok.
      2:{ erewrite bind_ok by by apply get_parent_run. simpl. rewrite (proj2 (Z.eqb_neq _ _)) by done.
          erewrite bind_ok by by apply (get_slot_run _ _ L). reflexivity. }
      pose proof (sibling_differs _ _ _ _ _ Hf ltac:(done)) as Hsib. simpl in Hsib.
      rewrite decide_False by (by case_match).
      erewrite bind_ok by by apply get_parent_run. simpl. do 3 f_equal.
      destruct f as [[] ? ? ? ?]; simpl in *; [by rewrite Z.eqb_refl|].
      by rewrite (proj2 (Z.eqb_neq _ _)) by done. }
  erewrite bind_ok by done. erewrite bind_ok by by eapply set_ref_run.
  set (r2 := hole_set c (tptr b) (reparent b (cpar c) r)).
  assert (r_heap r2 !! p = Some (RavlNode (cpar c) (tptr l) (tptr rt) rk x.1 x.2)) as Hp2
    by (unfold r2; rewrite hole_set_out by set_solver; done).
  unfold Free_node. erewrite bind_ok by by apply node_get_run.
  eexists. split; [done|]. split.
  { eapply same_trans; [apply reparent_same|]. eapply same_trans; [apply hole_set_same|]. done. }
  unfold r2. split; simpl.
  - eapply hole_set_root. by rewrite reparent_root.
  - apply ctx_at_delete; [set_solver|]. by eapply hole_set_ctx.
  - apply tree_at_delete; [set_solver|]. eapply tree_at_ext; [|by eapply reparent_tree].
    intros q Hq. apply hole_set_out. set_solver.
  - rewrite dom_delete_L. erewrite hole_set_dom by done. rewrite reparent_dom, Hd. set_solver.
  - set_solver.
  - set_solver.
  - done.
  - done.
Qed.

(** ** Removing *)

(** The leftmost node of a tree, with the way to it. *)
Lemma leftmost t : t ≠ Leaf → ∃ c p rk x rt, t = plug c (Node p rk x Leaf rt) ∧ lefts c = [] ∧
  entries t = (p, key_of x) :: entries rt ++ rights c.
Proof.
  induction t as [|p rk x l IHl rt IHr]; [done|]. intros _.
  destruct (decide (l = Leaf)) as [->|Hl].
  { exists [], p, rk, x, rt. split_and!; [done..|]. simpl. by rewrite app_nil_r. }
  destruct (IHl Hl) as (c & q & rq & xq & rl & -> & Hlc & He).
  exists (c ++ [Fr L p rk x rt]), q, rq, xq, rl. split_and!.
  - by rewrite plug_app.
  - clear -Hlc. induction c as [|f c IH]; simpl in *; [done|].
    apply app_eq_nil in Hlc as [Hlc ->]. by rewrite IH.
  - simpl. rewrite He. simpl. f_equal. rewrite <- app_assoc. f_equal.
    clear. induction c as [|f c IH]; simpl; [by rewrite app_nil_r|]. by rewrite <- app_assoc, IH.
Qed.

(** The tree after the removal of the node at the focus. *)
Inductive removed (c : list frame) : tree → tree → Prop :=
| removed_one p rk x l rt : l = Leaf ∨ rt = Leaf →
    removed c (Node p rk x l rt) (plug c (only_child l rt))
| removed_two p rk x l c1 q rq xq rr : l ≠ Leaf → lefts c1 = [] →
    removed c (Node p rk x l (plug c1 (Node q rq xq Leaf rr))) (plug c (Node p rk (x.1, xq.2) l (plug c1 rr))).

Fixpoint tall (P : bool * list Z → Prop) (t : tree) : Prop :=
  match t with Leaf => True | Node _ _ x l r => P x ∧ tall P l ∧ tall P r end.
Fixpoint call (P : bool * list Z → Prop) (c : list frame) : Prop :=
  match c with [] => True | f :: c => P (f_data f) ∧ tall P (f_sib f) ∧ call P c end.
Lemma tall_plug P c t : tall P (plug c t) ↔ tall P t ∧ call P c.
Proof.
  revert t. induction c as [|f c IH]; intros t; simpl; [tauto|]. rewrite IH.
  destruct f as [[] ? ? ? ?]; simpl; tauto.
Qed.

Lemma remove_run r X c t : focus r X c t → t ≠ Leaf → tall (λ x, len x.2 = r_data_size r) t →
  ∃ r' t', ravl_remove (tptr t) r = (Ok tt, r') ∧ same r r' ∧ removed c t t' ∧ focus r' X [] t'.
Proof.
  intros Hf Hne Hall. destruct t as [|p rk x l rt]; [done|]. cbn [tptr]. unfold ravl_remove.
  destruct (decide (l = Leaf ∨ rt = Leaf)) as [Hone|Htwo].
  { destruct (unlink_run 1 _ _ _ _ _ _ _ _ Hf Hone) as (r' & E & Hs & Hf').
    exists r', (plug c (only_child l rt)). split_and!; [done|done|by constructor|by apply (proj1 (focus_plug _ _ _ _))]. }
  assert (l ≠ Leaf ∧ rt ≠ Leaf) as [Hl Hrt] by tauto.
  pose proof (focus_node _ _ _ _ _ _ _ _ Hf) as [Hp Hp0].
  pose proof (fo_tree _ _ _ _ Hf) as (_ & _ & Htl & Htr).
  destruct (leftmost rt Hrt) as (c1 & q & rq & xq & rr & -> & Hlc & He).
  set (rt := plug c1 (Node q rq xq Leaf rr)) in *.
  set (d := (x.1, xq.2)).
  assert (focus (r_set_heap (<[p := RavlNode (cpar c) (tptr l) (tptr rt) rk d.1 d.2]> (r_heap r)) r)
            X c (Node p rk d l rt)) as Hf1 by by eapply focus_update.
  pose proof (focus_child _ _ _ R _ _ _ _ _ Hf) as Hfr. cbn [child other] in Hfr.
  apply (focus_app _ _ c1) in Hfr. pose proof (focus_node _ _ _ _ _ _ _ _ Hfr) as [Hq _].
  pose proof (focus_child _ _ _ R _ _ _ _ _ Hf1) as Hf2. cbn [child other] in Hf2.
  apply (focus_app _ _ c1) in Hf2.
  destruct (unlink_run 0 _ _ _ _ _ _ _ _ Hf2 (or_introl eq_refl)) as (r' & E & Hs & Hf').
  exists r', (plug c (Node p rk d l (plug c1 rr))). split_and!.
  - cbn [ravl_remove_rec]. erewrite bind_ok by by apply (get_slot_run _ _ L).
    erewrite bind_ok by by apply (get_slot_run _ _ R). cbn [n_slot slot slot_left slot_right].
    rewrite (tptr_nonzero _ _ _ Htl Hl), (tptr_nonzero _ _ _ Htr Hrt). cbn [negb andb].
    erewrite bind_ok.
    2:{ pose proof (cessor_run _ _ _ _ _ _ _ _ R Hf) as Hsucc. exact Hsucc. }
    rewrite near_cat by by apply entries_nil. cbn [child]. rewrite He. cbn [near head from_option fst].
    erewrite bind_ok by by apply node_get_run. erewrite bind_ok by reflexivity.
    erewrite bind_ok by by apply node_mod_run.
    cbn [data n_set_data parent slot_left slot_right rank pointer_based].
    rewrite take_ge; [exact E|]. destruct Hall as (_ & _ & Har).
    apply tall_plug in Har as [(Hxq & _) _]. lia.
  - eapply same_trans; [|exact Hs]. done.
  - by constructor.
  - cbn [only_child] in Hf'. apply focus_app in Hf'. apply focus_step in Hf'.
    by apply (proj1 (focus_plug _ _ _ _)).
Qed.

(** ** Freeing a whole tree *)

(** The data of the nodes, in order. *)
Fixpoint objects (t : tree) : list dref :=
  match t with Leaf => [] | Node _ _ x l r => objects l ++ Own x.2 :: objects r end.
Lemma objects_keys t : tall (λ x, x.1 = false) t → objects t = keys t.
Proof.
  induction t as [|p rk x l IHl r IHr]; [done|]. intros (Hx & Hl & Hr). cbn [objects]. unfold keys. cbn [entries].
  rewrite fmap_app, fmap_cons, IHl, IHr by done. cbn [snd]. unfold key_of at 1. by rewrite Hx.
Qed.
Lemma tall_impl (P Q : bool * list Z → Prop) t : (∀ x, P x → Q x) → tall P t → tall Q t.
Proof. intros H. induction t as [|p rk x l IHl r IHr]; [done|]. intros (Hx & Hl & Hr). cbn. auto. Qed.

Lemma clear_run r par t fuel : tree_at (r_heap r) par t → distinct t → (height t ≤ fuel)%nat →
  ∃ r', ravl_clear_node fuel (tptr t) r = (Ok (objects t), r') ∧ same r r' ∧ r_root r' = r_root r ∧
    ∀ q, r_heap r' !! q = if decide (q ∈ tdom t) then None else r_heap r !! q.
Proof.
  revert r par fuel. induction t as [|p rk x l IHl rt IHr]; intros r par fuel Ht Hd Hh.
  { exists r. split; [by destruct fuel|]. split; [done|]. split; [done|].
    intros q. by rewrite decide_False by set_solver. }
  destruct fuel as [|fuel]; [simpl in Hh; lia|]. destruct Ht as (Hp & Hp0 & Htl & Htr).
  destruct Hd as (Hd1 & Hd2 & Hdl & Hdr). cbn [ravl_clear_node tptr]. simpl in Hh.
  rewrite (proj2 (Z.eqb_neq _ _)) by done. erewrite bind_ok by by apply node_get_run.
  destruct (IHl r p fuel Htl Hdl ltac:(lia)) as (r1 & E1 & Hs1 & Hr1 & H1).
  erewrite bind_ok by exact E1.
  erewrite bind_ok by (apply node_get_run; rewrite H1, decide_False by set_solver; exact Hp).
  destruct (IHr r1 p fuel) as (r2 & E2 & Hs2 & Hr2 & H2); [|done|lia|].
  { eapply tree_at_ext; [|exact Htr]. intros q Hq. by rewrite H1, decide_False by set_solver. }
  erewrite bind_ok by exact E2. unfold Free_node. rewrite (bind_ok _ _ r2 tt (r_set_heap (delete p (r_heap r2)) r2)).
  2:{ erewrite bind_ok; [done|]. apply node_get_run.
      rewrite H2, decide_False, H1, decide_False by set_solver. exact Hp. }
  exists (r_set_heap (delete p (r_heap r2)) r2). split; [|split; [|split; [simpl; congruence|]]].
  - done.
  - by repeat (eapply same_trans; [eassumption|]).
  - intros q. simpl. destruct (decide (q = p)) as [->|Hqp].
    { rewrite lookup_delete_eq, decide_True by set_solver. done. }
    rewrite lookup_delete_ne, H2 by done. destruct (decide (q ∈ tdom rt)).
    { by rewrite decide_True by set_solver. }
    rewrite H1. destruct (decide (q ∈ tdom l)); [by rewrite decide_True by set_solver|].
    by rewrite decide_False by set_solver.
Qed.
