(* ===== verification/RavlTheorems.v ===== *)
(** * RAVL trees as sorted lists

    The contract of the tree with its users: the elements form a sorted list without
    duplicates; [ravl_emplace] inserts into it, [ravl_remove] deletes from it, [ravl_find]
    searches it and [ravl_clear] empties it.  The theorems are at the end, with concrete trees. *)

From stdpp Require Import base gmap list numbers sorting.
From S2P Require Import Prelude Memory Ravl RavlTree RavlBalance RavlRun RavlSearch.
Local Open Scope Z_scope.

Definition constr_pointer (constr : ravl_constr) : bool :=
  match constr with ravl_node_insert_constructor => true | _ => false end.

Section spec.
Context (compare : dref → dref → Z) `{!CompareOk compare}.
Local Abbreviation lt := (lt compare).
Local Abbreviation sorted := (sorted compare).

(** ** The invariant *)

(** [r] holds the tree [t], all of whose nodes were made by the same constructor. *)
Record ravl_inv (pointers : bool) (r : ravl) (t : tree) : Prop := {
  ri_focus : focus r ∅ [] t;
  ri_sorted : sorted (entries t);
  ri_rank : rank_ok t;
  ri_data : tall (λ x, x.1 = pointers ∧ len x.2 = r_data_size r) t;
  ri_brk : 0 < r_brk r ∧ ∀ p, p ∈ tdom t → p < r_brk r
}.

(** ** Reference operations *)

Definition member (k : dref) (ks : list dref) : bool := existsb (λ e, compare k e =? 0) ks.

Fixpoint ins (k : dref) (ks : list dref) : list dref :=
  match ks with
  | [] => [k]
  | e :: ks' => if compare k e <? 0 then k :: ks else e :: ins k ks'
  end.

Definition del (k : dref) (ks : list dref) : list dref := filter (λ e, compare k e ≠ 0) ks.

Definition emplace_result (malloc : list bool) (k : dref) (ks : list dref) : res unit :=
  match malloc with
  | false :: _ => Fail ENOMEM
  | _ => if member k ks then Fail EEXIST else Ok tt
  end.

Lemma ins_between k es1 es2 : (∀ e : Z * dref, e ∈ es1 → lt e.2 k) → (∀ e : Z * dref, e ∈ es2 → lt k e.2) →
  ins k ((es1 ++ es2).*2) = es1.*2 ++ k :: es2.*2.
Proof.
  intros H1 H2. unfold RavlSearch.lt in *. induction es1 as [|e es1 IH]; simpl.
  - destruct es2 as [|e es2]; simpl; [done|].
    rewrite (proj2 (Z.ltb_lt _ _)); [done|]. apply H2. by left.
  - rewrite (proj2 (Z.ltb_ge _ _)).
    + f_equal. apply IH. intros e' He'. apply H1. by right.
    + pose proof (H1 e ltac:(by left)). pose proof (cmp_antisym e.2 k). lia.
Qed.

Lemma member_between k es1 es2 : (∀ e : Z * dref, e ∈ es1 → lt e.2 k) → (∀ e : Z * dref, e ∈ es2 → lt k e.2) →
  member k ((es1 ++ es2).*2) = false.
Proof.
  intros H1 H2. unfold member, RavlSearch.lt in *. apply not_true_iff_false. rewrite existsb_exists.
  intros (x & (e & -> & [He|He]%elem_of_app)%list_elem_of_In%list_elem_of_fmap & E%Z.eqb_eq).
  - pose proof (H1 e He). pose proof (cmp_antisym e.2 k). lia.
  - pose proof (H2 e He). lia.
Qed.

Lemma member_true k t e : e ∈ entries t → compare k e.2 = 0 → member k (keys t) = true.
Proof.
  intros He E. unfold member. apply existsb_exists. exists e.2. split; [|by apply Z.eqb_eq].
  apply list_elem_of_In, list_elem_of_fmap. eauto.
Qed.

(** ** Insertion *)

Lemma inv_irrelevant pb r r' t : ravl_inv pb r t → r_root r' = r_root r → r_heap r' = r_heap r →
  r_data_size r' = r_data_size r → r_brk r ≤ r_brk r' → ravl_inv pb r' t.
Proof using compare. clear CompareOk0.
  intros [[Hr Hc Ht Hd HX Ha Hdi Hcd] Hs Hrk Hda [Hb0 Hb]] E1 E2 E3 E4.
  split; [split|..]; rewrite ?E1, ?E2, ?E3; try done.
  split; [lia|]. intros p ?%Hb. lia.
Qed.

(** The state after a successful [Malloc]. *)
Definition allocated (n : ravl_node) (r : ravl) : ravl :=
  Ravl (r_root r) (r_data_size r) (<[r_brk r := n]> (r_heap r)) (r_brk r + 1) (tail (r_malloc r)).

Lemma malloc_focus pb r t n : ravl_inv pb r t →
  focus (allocated n r) ({[r_brk r]} ∪ ∅) [] t ∧ r_brk r ≠ 0 ∧ r_heap r !! r_brk r = None.
Proof using compare. clear CompareOk0.
  intros [[Hr Hc Ht Hd HX Ha Hdi Hcd] _ _ _ [Hb0 Hb]].
  simpl in *. assert (r_brk r ∉ tdom t) as Hn by (intros ?%Hb; lia). split_and!.
  - split; simpl; try done; [by apply tree_at_insert|rewrite dom_insert_L, Hd|]; set_solver.
  - lia.
  - apply not_elem_of_dom. rewrite Hd. set_solver.
Qed.

Lemma tsize_entries t : length (entries t) = tsize t.
Proof using. clear compare CompareOk0. induction t as [|p rk x l IHl rt IHr]; simpl; [done|]. rewrite length_app. simpl. lia. Qed.

Lemma tdom_entries t p : p ∈ tdom t ↔ p ∈ (entries t).*1.
Proof using. clear compare CompareOk0.
  induction t as [|q rk x l IHl rt IHr]; simpl; [set_solver|].
  rewrite fmap_app, elem_of_app, fmap_cons, elem_of_cons, <- IHl, <- IHr. set_solver.
Qed.

Lemma fresh_pending c n d : rank_ok (plug c Leaf) → pending c (Node n 0 d Leaf Leaf).
Proof using. clear compare CompareOk0.
  intros [_ Hc]%rank_ok_plug. unfold pending. simpl. split_and!; [lia|lia|done|done|done|].
  destruct c as [|f c]; [done|]. simpl in *. destruct Hc as (? & ? & ? & ?).
  split_and!; try done. destruct (decide (f_rank f = 0)); [right; split; [done|by left]|left; lia].
Qed.

Lemma fresh_ranks c : rank_ok (plug c Leaf) → trank (plug c Leaf) < 2 ^ 31 - 1 → ranks_fit c.
Proof using. clear compare CompareOk0.
  intros [_ Hc]%rank_ok_plug Hlt. eapply Forall_impl; [by apply (cok_frames c Leaf)|].
  intros f. simpl. lia.
Qed.

Lemma run_constr_length constr size a bs d : run_constr constr size a bs = Some d → 0 ≤ size → len d = size.
Proof using. clear compare CompareOk0.
  unfold run_constr. destruct constr; case_match; intros; simplify_eq; bool_hyps.
  - rewrite length_app, length_le_bytes. unfold zeros. rewrite repeat_length. lia.
  - rewrite length_take. lia.
Qed.

Lemma sorted_insert c n k : sorted (lefts c ++ rights c) → between compare k c →
  sorted (lefts c ++ (n, k) :: rights c).
Proof.
  rewrite !sorted_app, sorted_cons. intros (? & ? & H3) [B1 B2]. split_and!; [done|done|intros b Hb; by apply B2|].
  intros a b Ha [->|Hb]%elem_of_cons; [by apply B1|by apply H3].
Qed.

Lemma tall_mk P s p rk x a b : tall P (mk s p rk x a b) ↔ P x ∧ tall P a ∧ tall P b.
Proof using. clear compare CompareOk0. destruct s; simpl; tauto. Qed.

Lemma t_promote_tall P c t c' t' : t_promote c t = (c', t') → tall P (plug c t) → tall P (plug c' t').
Proof using. clear compare CompareOk0.
  revert t. induction c as [|f c IH]; intros t; simpl; [by intros [= <- <-]|].
  destruct (is01 _ _ _); [|by intros [= <- <-]]. intros H1 H2. eapply IH; [exact H1|].
  apply tall_plug in H2 as [H2 ?]. apply tall_plug. split; [|done].
  by destruct f as [[] ? ? ? ?].
Qed.

Lemma t_balance_tall P c t : tall P (plug c t) → tall P (t_balance c t).
Proof using. clear compare CompareOk0.
  intros H. unfold t_balance. destruct (t_promote c t) as [[|f c'] t'] eqn:E;
    pose proof (t_promote_tall P _ _ _ _ E H) as H'; [done|].
  change (plug (f :: c') t') with (plug c' (plug1 f t')) in H'.
  apply tall_plug in H' as [H1 H2]. apply tall_plug. split; [|done]. clear -H1.
  destruct f as [s y ry xy sib], t' as [|n rn xn l r]; [done|]. simpl.
  case_match; [|done]. pose proof H1 as H0.
  unfold plug1 in H1; simpl in H1. rewrite (Node_mk s n), !tall_mk in H1.
  destruct (other s l r) as [|z rz xz zl zr]; [unfold single; rewrite !tall_mk; tauto|].
  case_match; [unfold single; rewrite !tall_mk; tauto|].
  case_match; [|exact H0].
  rewrite (Node_mk s z), !tall_mk in H1. unfold double. rewrite !tall_mk. tauto.
Qed.

Lemma inserted_inv constr r r3 t c d : ravl_inv (constr_pointer constr) r t → plug c Leaf = t →
  let t' := t_balance c (Node (r_brk r) 0 (constr_pointer constr, d) Leaf Leaf) in
  focus r3 ∅ [] t' → r_data_size r3 = r_data_size r → r_brk r3 = r_brk r + 1 →
  between compare (key_of (constr_pointer constr, d)) c → len d = r_data_size r → rank_ok t' →
  ravl_inv (constr_pointer constr) r3 t'.
Proof.
  intros [_ Hs _ Hda [Hb0 Hb]] <- t' Hf Hds Hbk Hbt Hlen Hrk.
  assert (entries t' = lefts c ++ (r_brk r, key_of (constr_pointer constr, d)) :: rights c) as He
    by (unfold t'; by rewrite t_balance_entries, entries_plug).
  split; [done| |done| |].
  - rewrite He. rewrite entries_plug in Hs. by apply sorted_insert.
  - rewrite Hds. apply t_balance_tall. apply tall_plug in Hda as [_ Hda]. apply tall_plug. by split_and!.
  - rewrite Hbk. split; [lia|]. intros p Hp%tdom_entries. rewrite He, fmap_app, fmap_cons in Hp.
    apply elem_of_app in Hp. rewrite elem_of_cons in Hp. simpl in Hp.
    assert (p = r_brk r ∨ p ∈ tdom (plug c Leaf)) as [->|?%Hb]; [|lia|lia].
    rewrite tdom_entries, entries_plug, !fmap_app, !elem_of_app. tauto.
Qed.

Lemma emplace_spec constr r t a bs d : ravl_inv (constr_pointer constr) r t → 0 ≤ r_data_size r →
  run_constr constr (r_data_size r) a bs = Some d → trank t < 2 ^ 31 - 1 →
  let k := key_of (constr_pointer constr, d) in
  ∃ r' t', ravl_emplace compare constr a bs r = (emplace_result (r_malloc r) k (keys t), r') ∧
    ravl_inv (constr_pointer constr) r' t' ∧ r_data_size r' = r_data_size r ∧
    r_malloc r' = tail (r_malloc r) ∧
    keys t' = (if emplace_result (r_malloc r) k (keys t) is Ok _ then ins k (keys t) else keys t) ∧
    (avl t → avl t') ∧ (tsize t' ≤ S (tsize t))%nat ∧ trank t' ≤ trank t + 1.
Proof.
  intros Hi Hsz Hd Hrk k. pose proof Hi as [Hf Hs Hr Ht [Hb0 Hb]].
  set (N := RavlNode 0 0 0 0 (constr_pointer constr) d).
  assert (ravl_new_node constr a bs r = Malloc_node N r) as En.
  { unfold ravl_new_node. erewrite bind_ok by reflexivity. by rewrite Hd. }
  unfold ravl_emplace. unfold Malloc_node in En.
  destruct (decide (head (r_malloc r) = Some false)) as [Em|Em].
  { destruct (r_malloc r) as [|[] m]; simplify_eq/=. erewrite bind_fail by done.
    eexists _, t. split_and!; try done; [|lia..]. by eapply inv_irrelevant. }
  assert (ravl_new_node constr a bs r = (Ok (r_brk r), allocated N r)) as En'.
  { rewrite En. unfold allocated. by destruct (r_malloc r) as [|[] m]. }
  assert (emplace_result (r_malloc r) k (keys t) = if member k (keys t) then Fail EEXIST else Ok tt) as ->.
  { unfold emplace_result. by destruct (r_malloc r) as [|[] m]. }
  erewrite bind_ok by done. clear En En'.
  destruct (malloc_focus (constr_pointer constr) r t N Hi) as (Hf1 & Hn0 & Hnone).
  set (r1 := allocated N r) in *. erewrite bind_ok by reflexivity.
  assert (r_heap r1 !! r_brk r = Some N) as HN by apply lookup_insert_eq.
  pose proof (focus_fuel _ _ _ _ Hf1) as Hfu. pose proof (height_tsize t). simpl in Hfu.
  destruct (walk_down_run compare (path_fuel r1) r1 _ _ _ _ HN eq_refl [] t Hf1 Hs) as (o & Eo & Ho);
    [by split; intros ? ?%elem_of_nil|lia|].
  erewrite bind_ok by exact Eo. change (ravl_data N) with k in *. destruct o as [[dstp dst]|].
  - destruct Ho as (c' & -> & -> & Hpl & Hfc & Hbt). simpl in Hpl.
    assert (keys t = (lefts c' ++ rights c').*2) as Hk by (unfold keys; by rewrite <- Hpl, entries_plug).
    rewrite Hk, (member_between k) by apply Hbt.
    destruct (link_run r1 ∅ (r_brk r) (constr_pointer constr, d) c' Hfc) as (r2 & E2 & Hs2 & Hf2);
      [set_solver|done|done|].
    rewrite <- Hpl in Hr, Hrk.
    pose proof (fresh_pending c' (r_brk r) (constr_pointer constr, d) Hr) as Hpd.
    destruct (balance_run _ _ _ _ Hf2 Hpd) as (r3 & E3 & Hs3 & Hf3); [by apply fresh_ranks|].
    assert (entries (t_balance c' (Node (r_brk r) 0 (constr_pointer constr, d) Leaf Leaf)) =
      lefts c' ++ (r_brk r, k) :: rights c') as He by (by rewrite t_balance_entries, entries_plug).
    eexists r3, _. split.
    { unfold mbind at 1, M_bind at 1. unfold mbind, M_bind in E2.
      destruct (set_parent _ _ r1) as [[]]; [|done..]. unfold mbind, M_bind. by rewrite E2. }
    destruct (same_trans _ _ _ Hs2 Hs3) as (Hds & Hbk & Hml).
    split_and!.
    + apply (inserted_inv constr r r3 t c' d Hi Hpl Hf3 Hds Hbk Hbt); [|by apply t_balance_ok].
      by eapply run_constr_length.
    + done.
    + done.
    + unfold keys. rewrite He, fmap_app. simpl. by rewrite (ins_between k) by apply Hbt.
    + intros Ha. apply t_balance_avl; [done|]. rewrite <- Hpl in Ha. apply avl_plug in Ha as [_ Ha].
      split; [by split_and!; try done; unfold avl_at; simpl; lia|done].
    + rewrite <- !tsize_entries, He, <- Hpl, entries_plug, !length_app. simpl. lia.
    + rewrite <- Hpl. clear -Hpd. destruct c' as [|f c']; [done|]. pose proof (t_balance_rank _ _ Hpd) as Hb'.
      by rewrite (trank_plug_cons f c' _ Leaf) in Hb'.
  - destruct Ho as (e & He & Ek). rewrite (member_true k t e) by done.
    unfold Free_node. erewrite bind_ok.
    2:{ by erewrite bind_ok by by apply node_get_run. }
    eexists _, t. split_and!; [done| |done|done|done|done|lia|lia].
    eapply (inv_irrelevant _ r); simpl; try done; [by rewrite delete_insert_id|lia].
Qed.

(** ** Removal *)

Lemma focus_at t p k : (p, k) ∈ entries t →
  ∃ c rk x l rt, t = plug c (Node p rk x l rt) ∧ key_of x = k.
Proof using. clear compare CompareOk0.
  induction t as [|q rk x l IHl rt IHr]; simpl; [by intros ?%elem_of_nil|].
  intros [H|[[= -> ->]|H]%elem_of_cons]%elem_of_app.
  - destruct (IHl H) as (c & rk' & x' & l' & rt' & -> & ?).
    exists (c ++ [Fr L q rk x rt]), rk', x', l', rt'. by rewrite plug_app.
  - by exists [], rk, x, l, rt.
  - destruct (IHr H) as (c & rk' & x' & l' & rt' & -> & ?).
    exists (c ++ [Fr R q rk x l]), rk', x', l', rt'. by rewrite plug_app.
Qed.

Lemma sorted_keys es : sorted es ↔ StronglySorted lt (es.*2).
Proof using compare. clear CompareOk0.
  unfold RavlSearch.sorted. induction es as [|e es IH]; simpl; [split; constructor|]. split.
  - intros [? H]%StronglySorted_inv. constructor; [by apply IH|]. by rewrite Forall_fmap.
  - intros [? H]%StronglySorted_inv. constructor; [by apply IH|]. by rewrite Forall_fmap in H.
Qed.

(** What a removal does to the elements, the ranks and the addresses. *)
Lemma removed_spec pb size c t t' : removed c t t' → rank_ok (plug c t) →
  tall (λ x, x.1 = pb ∧ len x.2 = size) (plug c t) → ∃ p rk x l rt, t = Node p rk x l rt ∧
  keys t' = (lefts c).*2 ++ keys l ++ keys rt ++ (rights c).*2 ∧
  rank_ok t' ∧ tall (λ x, x.1 = pb ∧ len x.2 = size) t' ∧ tdom t' ⊆ tdom (plug c t).
Proof using. clear compare CompareOk0.
  intros Hrm Hrk Hall. apply rank_ok_plug in Hrk as [Hrk Hc]. apply tall_plug in Hall as [Hall Hcall].
  destruct Hrm as [p rk x l rt Hone|p rk x l c1 q rq xq rr Hl Hlc].
  - exists p, rk, x, l, rt. destruct Hrk as (? & ? & ? & ?), Hall as (? & ? & ?).
    assert (entries (only_child l rt) = entries l ++ entries rt ∧ trank (only_child l rt) < rk ∧
      rank_ok (only_child l rt) ∧ tall (λ x, x.1 = pb ∧ len x.2 = size) (only_child l rt)) as (E & ? & ? & ?).
    { destruct l; simpl; [done|]. destruct Hone as [?| ->]; [done|]. simpl. by rewrite app_nil_r. }
    split_and!; [done| | | |].
    + unfold keys. rewrite entries_plug, E, !fmap_app. by rewrite <- !app_assoc.
    + apply rank_ok_plug. split; [done|]. simpl in Hc. eapply cok_weaken; [done|]. lia.
    + by apply tall_plug.
    + intros y. rewrite !tdom_entries, !entries_plug, E. simpl. rewrite !fmap_app, fmap_cons, !elem_of_app, elem_of_cons. tauto.
  - exists p, rk, x, l, (plug c1 (Node q rq xq Leaf rr)).
    destruct Hrk as (? & Hr1 & ? & Hr2), Hall as ([Hx1 Hx2] & ? & Ht2).
    apply rank_ok_plug in Hr2 as [(? & ? & _ & ?) Hc1]. apply tall_plug in Ht2 as [([Hq1 Hq2] & _ & ?) Ht2].
    assert (key_of (x.1, xq.2) = key_of xq) as Ek by (unfold key_of; simpl; by rewrite Hx1, Hq1).
    simpl in Hc1. assert (rank_ok (plug c1 rr)) as Hrr.
    { apply rank_ok_plug. split; [done|]. eapply cok_weaken; [done|]. lia. }
    assert (trank (plug c1 rr) < rk) as Hlt.
    { destruct c1 as [|f c1]; [simpl in *; lia|]. by rewrite (trank_plug_cons f c1 rr (Node q rq xq Leaf rr)). }
    split_and!; [done| | | |].
    + unfold keys. rewrite !entries_plug. simpl. rewrite !entries_plug, Hlc, Ek. simpl.
      repeat (rewrite fmap_app; simpl). app_norm.
    + apply rank_ok_plug. split; [|done]. simpl. done.
    + apply tall_plug. split; [|done]. simpl. split_and!; try done. by apply tall_plug.
    + intros y. rewrite !tdom_entries, !entries_plug. simpl. rewrite !entries_plug. simpl.
      repeat (rewrite ?fmap_app, ?elem_of_app, ?elem_of_cons; simpl). tauto.
Qed.

Lemma del_between k es1 es2 : (∀ e, e ∈ es1 → lt e k) → (∀ e, e ∈ es2 → lt k e) →
  del k (es1 ++ k :: es2) = es1 ++ es2.
Proof.
  intros H1 H2. unfold del, RavlSearch.lt in *. rewrite filter_app, filter_cons.
  rewrite decide_False by (pose proof (cmp_refl compare k); lia).
  rewrite !filter_all; [done|intros e ?%H2; lia|].
  intros e He%H1. pose proof (cmp_antisym e k). lia.
Qed.

Lemma ssorted_app ks1 k ks2 : StronglySorted lt (ks1 ++ k :: ks2) →
  StronglySorted lt (ks1 ++ ks2) ∧ (∀ e, e ∈ ks1 → lt e k) ∧ (∀ e, e ∈ ks2 → lt k e).
Proof using compare. clear CompareOk0.
  induction ks1 as [|e ks1 IH]; simpl.
  - intros [? H]%StronglySorted_inv. rewrite Forall_forall in H. split_and!; [done|by intros ? ?%elem_of_nil|done].
  - intros [(Hs & H1 & H2)%IH HF]%StronglySorted_inv. rewrite Forall_app, Forall_cons in HF.
    destruct HF as (HF1 & HF2 & HF3). split_and!; [|intros e' [->|?]%elem_of_cons; auto|done].
    constructor; [done|]. by apply Forall_app.
Qed.

Lemma remove_spec pb r t p k : ravl_inv pb r t → (p, k) ∈ entries t →
  ∃ r' t', ravl_remove p r = (Ok tt, r') ∧ ravl_inv pb r' t' ∧ same r r' ∧ keys t' = del k (keys t).
Proof.
  intros [Hf Hs Hr Ht [Hb0 Hb]] (c & rk & x & l & rt & -> & <-)%focus_at.
  pose proof (proj2 (focus_plug _ _ _ _) Hf) as Hf1.
  destruct (remove_run r ∅ c (Node p rk x l rt) Hf1 ltac:(done)) as (r' & t' & E & Hsm & Hrm & Hf').
  { apply tall_plug in Ht as [Ht _]. revert Ht. generalize (Node p rk x l rt). clear.
    induction t; simpl; tauto. }
  exists r', t'. pose proof Hsm as (Hds & Hbk & _).
  destruct (removed_spec pb (r_data_size r) _ _ _ Hrm Hr Ht) as (? & ? & ? & ? & ? & [= <- <- <- <- <-] & Hk & Hrk & Hda & Hdm).
  assert (keys (plug c (Node p rk x l rt)) =
    ((lefts c).*2 ++ keys l) ++ key_of x :: keys rt ++ (rights c).*2) as Hkeys.
  { unfold keys. rewrite entries_plug. simpl. rewrite !fmap_app. simpl. by rewrite <- !app_assoc. }
  apply sorted_keys in Hs. change ((entries (plug c (Node p rk x l rt))).*2) with (keys (plug c (Node p rk x l rt))) in Hs.
  rewrite Hkeys in Hs. apply ssorted_app in Hs as (Hs & H1 & H2).
  assert (keys t' = ((lefts c).*2 ++ keys l) ++ keys rt ++ (rights c).*2) as Hk' by (rewrite Hk; by rewrite <- !app_assoc).
  split_and!; [done| |done|].
  - split; [done| |done|by rewrite Hds|rewrite Hbk; split; [done|]].
    + apply sorted_keys. change ((entries t').*2) with (keys t'). by rewrite Hk'.
    + intros q Hq. apply Hb. by apply Hdm.
  - by rewrite Hkeys, del_between, Hk'.
Qed.

(** ** Search *)

Lemma find_spec pb r t k flags : ravl_inv pb r t → flags ∈ predicates →
  ravl_find compare k flags r = (Ok (found compare flags k (entries t)), r).
Proof. intros [Hf Hs _ _ _] Hfl. by apply (find_run _ _ ∅). Qed.

(** ** Clearing *)

Lemma delete_spec pb r t : ravl_inv pb r t →
  ∃ r', ravl_delete_cb r = (Ok (objects t), r') ∧ r_heap r' = ∅ ∧ same r r'.
Proof.
  intros [Hf _ _ _ _]. unfold ravl_delete_cb. do 2 (erewrite bind_ok by reflexivity).
  pose proof (focus_fuel _ _ _ _ Hf). pose proof (height_tsize t).
  destruct (clear_run r 0 t (path_fuel r)) as (r' & E & Hs & _ & Hl); [apply Hf|apply Hf|simpl in *; lia|].
  exists r'. rewrite (fo_root _ _ _ _ Hf). split_and!; [done| |done].
  apply map_eq. intros q. rewrite Hl, lookup_empty. destruct (decide _) as [|Hq]; [done|].
  apply not_elem_of_dom. rewrite (fo_dom _ _ _ _ Hf). simpl. set_solver.
Qed.

Lemma clear_spec pb r t : ravl_inv pb r t →
  ∃ r', ravl_clear r = (Ok tt, r') ∧ ravl_inv pb r' Leaf ∧ same r r' ∧ r_heap r' = ∅.
Proof.
  intros Hi. destruct (delete_spec pb r t Hi) as (r' & E & Hh & Hs).
  unfold ravl_clear. do 2 (erewrite bind_ok by reflexivity).
  erewrite bind_ok by exact E. exists (r_set_root 0 r'). split_and!; try done.
  destruct Hs as (Hds & Hbk & _). destruct Hi as [_ _ _ _ [Hb0 _]].
  split; [|constructor|done|done|].
  - split; simpl; try done; rewrite ?Hh; set_solver.
  - split; [simpl; lia|]. simpl. set_solver.
Qed.

Lemma new_spec size malloc r : ravl_new_sized size malloc = Some r →
  ∀ pb, ravl_inv pb r Leaf ∧ r_data_size r = size ∧ r_heap r = ∅ ∧ r_malloc r = tail malloc.
Proof.
  unfold ravl_new_sized. intros H pb.
  assert (r = Ravl 0 size ∅ 1 (tail malloc)) as ->.
  { destruct malloc as [|[] m]; by simplify_eq/=. }
  split_and!; try done. split; [|constructor|done|done|].
  - split; simpl; try done; set_solver.
  - split; [simpl; lia|]. simpl. set_solver.
Qed.
End spec.

(** * RAVL trees: the theorems, with concrete trees *)

Section theorems.
Context (compare : dref → dref → Z) `{!CompareOk compare}.
Local Abbreviation ravl_inv := (ravl_inv compare).

(** C34: [ravl_emplace] inserts into the sorted list of elements.  It fails with [ENOMEM] when no
    node can be allocated and with [EEXIST] when an equal element is there, without effect
    on the elements and without leaking the node; otherwise the element is in its place.  The links, the
    order and the rank rule hold again, and no walk leaves the tree or runs for ever. *)
Theorem ravl_emplace_refines constr r t a bs d : ravl_inv (constr_pointer constr) r t →
  0 ≤ r_data_size r → run_constr constr (r_data_size r) a bs = Some d → trank t < 2 ^ 31 - 1 →
  let k := key_of (constr_pointer constr, d) in
  let res := emplace_result compare (r_malloc r) k (keys t) in
  ∃ r' t', ravl_emplace compare constr a bs r = (res, r') ∧
    ravl_inv (constr_pointer constr) r' t' ∧
    keys t' = (if res is Ok _ then ins compare k (keys t) else keys t).
Proof.
  intros Hi Hs Hd Hr k res.
  destruct (emplace_spec compare constr r t a bs d Hi Hs Hd Hr) as (r' & t' & ? & ? & _ & _ & ? & _).
  by exists r', t'.
Qed.

(** C35: [ravl_remove] deletes the element of the node it is given from the sorted list, whether the
    node has no, one or two children (then its successor's data moves into it), and
    frees one node.  The invariant holds again. *)
Theorem ravl_remove_refines pointers r t p k : ravl_inv pointers r t → (p, k) ∈ entries t →
  ∃ r' t', ravl_remove p r = (Ok tt, r') ∧ ravl_inv pointers r' t' ∧
    keys t' = del compare k (keys t).
Proof.
  intros Hi He. destruct (remove_spec compare pointers r t p k Hi He) as (r' & t' & ? & ? & _ & ?).
  by exists r', t'.
Qed.

(** [ravl_find] returns the node asked for by each of the five predicates: one equal
    to the key, the smallest greater one, the greatest smaller one, or the combinations; [NULL] when there is
    none.  It changes nothing. *)
Theorem ravl_find_finds pointers r t k flags : ravl_inv pointers r t → flags ∈ predicates →
  ravl_find compare k flags r = (Ok (found compare flags k (entries t)), r).
Proof. by apply find_spec. Qed.

(** deleting a tree frees every node, and its callback sees the data of the nodes in order, each once; these are the elements when the tree
    keeps the elements themselves and not pointers to them. *)
Theorem ravl_delete_cb_order pointers r t : ravl_inv pointers r t →
  ∃ r', ravl_delete_cb r = (Ok (objects t), r') ∧ r_heap r' = ∅ ∧ (pointers = false → objects t = keys t).
Proof.
  intros Hi. destruct (delete_spec compare pointers r t Hi) as (r' & ? & ? & _). exists r'. split_and!; [done..|]. intros ->.
  apply objects_keys. eapply tall_impl; [|exact (ri_data _ _ _ _ Hi)]. by intros x [].
Qed.

(** A tree filled by insertions only; what they return is not looked at. *)
Definition insert_all (ptrs : list Z) (r : ravl) : ravl :=
  foldl (λ r a, (ravl_insert compare a r).2) r ptrs.

Lemma avl_rank_bound t n : rank_ok t → avl t → (tsize t ≤ n)%nat → Z.of_nat n < 2 ^ 60 → trank t < 2 ^ 31 - 1.
Proof using. clear compare CompareOk0.
  intros Hr Ha Hs Hn. pose proof (avl_size t Hr Ha) as H. destruct (decide (trank t < 2 ^ 31 - 1)); [done|].
  assert (2 ^ 61 ≤ 2 ^ ((trank t + 1) / 2)); [|lia].
  apply Z.pow_le_mono_r; [lia|]. apply Z.div_le_lower_bound; lia.
Qed.

Lemma insert_all_inv ptrs : ∀ r t, ravl_inv true r t → r_data_size r = 8 → avl t →
  Z.of_nat (tsize t + length ptrs) < 2 ^ 60 →
  ∃ t', ravl_inv true (insert_all ptrs r) t' ∧ avl t' ∧ (tsize t' ≤ tsize t + length ptrs)%nat.
Proof.
  induction ptrs as [|a ptrs IH]; intros r t Hi Hs Ha Hn; simpl in *; [exists t; split_and!; [done..|lia]|].
  destruct (emplace_spec compare ravl_node_insert_constructor r t a []
              (le_bytes 8 a ++ zeros 0) Hi ltac:(lia)) as (r' & t' & E & Hi' & Hds & _ & _ & Ha' & Hts).
  { simpl. by rewrite Hs. }
  { eapply avl_rank_bound; [apply Hi|done|done|lia]. }
  unfold ravl_insert. rewrite E. simpl.
  destruct (IH r' t' Hi' ltac:(congruence) (Ha' Ha) ltac:(lia)) as (t'' & ? & ? & ?).
  exists t''. split_and!; [done..|lia].
Qed.

(** C36: a tree into which elements are only inserted is balanced: its height, and with it the number of
    steps of a search, is logarithmic in the number of its elements. *)
Theorem ravl_insertions_balanced malloc r ptrs : ravl_new malloc = Some r → Z.of_nat (length ptrs) < 2 ^ 60 →
  ∃ t, ravl_inv true (insert_all ptrs r) t ∧
    Z.of_nat (height t) ≤ 2 * Z.log2 (Z.of_nat (length (keys t)) + 1) + 1.
Proof.
  intros Hnew Hn. destruct (new_spec compare _ _ _ Hnew true) as (Hi & Hds & _).
  destruct (insert_all_inv ptrs r Leaf Hi Hds I Hn) as (t & Ht & Ha & _).
  exists t. split; [done|]. pose proof (avl_size t (ri_rank _ _ _ _ Ht) Ha) as Hs.
  rewrite (avl_height t (ri_rank _ _ _ _ Ht) Ha) in Hs.
  unfold keys. rewrite length_fmap, tsize_entries.
  pose proof (Z.div_mod (Z.of_nat (height t)) 2 ltac:(lia)).
  pose proof (Z.mod_pos_bound (Z.of_nat (height t)) 2 ltac:(lia)).
  assert (Z.of_nat (height t) / 2 ≤ Z.log2 (Z.of_nat (tsize t) + 1)); [|lia].
  apply Z.log2_le_pow2; lia.
Qed.
End theorems.

(** ** A concrete tree: addresses compared as numbers *)

Definition number (d : dref) : Z := match d with Ptr a => a | Own bs => le_of bs end.
Definition compare_numbers (a b : dref) : Z := number a - number b.

#[global] Instance compare_numbers_ok : CompareOk compare_numbers.
Proof. split; unfold compare_numbers; lia. Qed.

(** 20 at the root, 10 and 30 below it. *)
Definition ex_ravl_tree : tree :=
  Node 1 1 (true, le_bytes 8 20) (Node 2 0 (true, le_bytes 8 10) Leaf Leaf)
    (Node 3 0 (true, le_bytes 8 30) Leaf Leaf).
Definition ex_ravl : ravl :=
  insert_all compare_numbers [20; 10; 30] (Ravl 0 8 ∅ 1 []).

Lemma ex_ravl_holds : ravl_inv compare_numbers true ex_ravl ex_ravl_tree.
Proof.
  split.
  - split; [done|done|split_and!; done|by vm_compute|set_solver|set_solver|simpl; set_solver|done].
  - repeat (constructor; [|repeat constructor]); constructor.
  - simpl. lia.
  - simpl. done.
  - split; [done|]. change (r_brk ex_ravl) with 4. simpl. set_solver by lia.
Qed.

Lemma ravl_emplace_refines_witness : ∃ r' t',
  ravl_emplace compare_numbers ravl_node_insert_constructor 25 [] ex_ravl = (Ok tt, r') ∧
  ravl_inv compare_numbers true r' t' ∧ keys t' = [Ptr 10; Ptr 20; Ptr 25; Ptr 30].
Proof.
  assert (r_data_size ex_ravl = 8) as Hs by (vm_compute; reflexivity).
  destruct (ravl_emplace_refines compare_numbers ravl_node_insert_constructor ex_ravl ex_ravl_tree
              25 [] (le_bytes 8 25) ex_ravl_holds) as (r' & t' & E & Hi & Hk);
    [rewrite Hs; lia|rewrite Hs; reflexivity|simpl; lia|].
  exists r', t'. split; [rewrite E; f_equal; vm_compute; reflexivity|].
  split; [exact Hi|]. rewrite Hk. vm_compute. reflexivity.
Defined.

Lemma ravl_remove_refines_witness : ∃ r' t', ravl_remove 1 ex_ravl = (Ok tt, r') ∧
  ravl_inv compare_numbers true r' t' ∧ keys t' = [Ptr 10; Ptr 30].
Proof.
  exact (ravl_remove_refines compare_numbers true ex_ravl ex_ravl_tree 1 (Ptr 20) ex_ravl_holds
           ltac:(simpl; set_solver)).
Defined.

Lemma ravl_find_finds_witness :
  ravl_find compare_numbers (Ptr 20) RAVL_PREDICATE_GREATER ex_ravl = (Ok 3, ex_ravl).
Proof.
  exact (ravl_find_finds compare_numbers true ex_ravl ex_ravl_tree (Ptr 20) RAVL_PREDICATE_GREATER
           ex_ravl_holds ltac:(unfold predicates; set_solver)).
Defined.

Lemma ravl_delete_cb_order_witness : ∃ r',
  ravl_delete_cb ex_ravl = (Ok [Own (le_bytes 8 10); Own (le_bytes 8 20); Own (le_bytes 8 30)], r') ∧ r_heap r' = ∅.
Proof.
  destruct (ravl_delete_cb_order compare_numbers true ex_ravl ex_ravl_tree ex_ravl_holds) as (r' & E & Hh & _).
  exists r'. split; [exact E|exact Hh].
Defined.

Lemma ravl_insertions_balanced_witness : ∃ t,
  ravl_inv compare_numbers true (insert_all compare_numbers [20; 10; 30] (Ravl 0 8 ∅ 1 [])) t ∧
  Z.of_nat (height t) ≤ 2 * Z.log2 (Z.of_nat (length (keys t)) + 1) + 1.
Proof.
  exact (ravl_insertions_balanced compare_numbers [] (Ravl 0 8 ∅ 1 []) [20; 10; 30] eq_refl ltac:(done)).
Defined.

(** The comment of [struct ravl_node] says that a rank cannot be greater than the height of the
    subtree.  That holds until something is removed: here the root keeps its rank when its
    only child goes. *)
Example ravl_rank_above_height :
  let r := insert_all compare_numbers [1; 2] (Ravl 0 8 ∅ 1 []) in
  r_heap (ravl_remove 2 r).2 !! 1 = Some (RavlNode 0 0 0 1 true (le_bytes 8 1)).
Proof. vm_compute. reflexivity. Qed.
