(* ===== verification/Vecq.v ===== *)
(** * The vector queue

    Models [common/vecq.h], a first-in first-out queue in a ring buffer whose capacity is a power of
    two.  Two of its users are modelled: the list of merge candidates of an operation and the
    segregated lists of the allocator.  A cell of the buffer that was never written is [None];
    reading it is undefined.  [front] and [back] are [size_t] and wrap around.

    The queue is first-in first-out as long as it grows only in a state whose [front] is a multiple of
    twice the capacity (in particular before anything was taken out): [vecq_grow] reallocates the
    buffer without moving the elements. *)

From stdpp Require Import base gmap list numbers.
From S2P Require Import Prelude.
Local Open Scope Z_scope.

Definition VECQ_INIT_SIZE : Z := 64.

Record vecq (A : Type) : Type := Vecq {
  buffer : list (option A);
  capacity : Z;
  front : Z;
  back : Z
}.
Arguments Vecq {A} buffer capacity front back.
Arguments buffer {A} v.
Arguments capacity {A} v.
Arguments front {A} v.
Arguments back {A} v.

Section vecq.
Context {A : Type}.
Implicit Types (q : vecq A) (e : A).
Local Abbreviation MQ B := (M (vecq A) B).

Definition VECQ_INIT : vecq A := Vecq [] 0 0 0.
Definition VECQ_REINIT q : vecq A := Vecq (buffer q) (capacity q) 0 0.

(** [i & ((vec)->capacity - 1)] *)
Definition vecq_pos q (i : Z) : Z := i &&& u64 (capacity q - 1).
Definition VECQ_FRONT_POS q : Z := vecq_pos q (front q).
Definition VECQ_BACK_POS q : Z := vecq_pos q (back q).

(** A read of [buffer[i & (capacity - 1)]]. *)
Definition vecq_read (i : Z) : MQ A := λ q,
  match lookupZ (buffer q) (vecq_pos q i) with
  | Some (Some e) => (Ok e, q)
  | _ => (Undef, q)
  end.
Definition VECQ_FRONT : MQ A := i ← gets front; vecq_read i.
Definition VECQ_BACK : MQ A := i ← gets back; vecq_read i.

Definition VECQ_DEQUEUE : MQ A :=
  i ← gets front;
  modify (λ q, Vecq (buffer q) (capacity q) (u64 (front q + 1)) (back q));;
  vecq_read i.

Definition VECQ_SIZE q : Z := u64 (back q - front q).
Definition VECQ_CAPACITY q : Z := capacity q.

(** [ok]: whether [Realloc] succeeds. *)
Definition vecq_grow (ok : bool) : MQ unit :=
  c ← gets capacity;
  let ncapacity := if c =? 0 then VECQ_INIT_SIZE else u64 (c * 2) in
  if negb ok then fail ENOMEM
  else modify (λ q, Vecq (resize (Z.to_nat ncapacity) None (buffer q)) ncapacity (front q) (back q)).

Definition VECQ_INSERT e : MQ unit :=
  i ← gets VECQ_BACK_POS;
  b ← gets buffer;
  if bool_decide (0 ≤ i < Z.of_nat (length b)) then
    modify (λ q, Vecq (updZ (buffer q) i (Some e)) (capacity q) (front q) (u64 (back q + 1)))
  else undef.

Definition VECQ_ENQUEUE (ok : bool) e : MQ unit :=
  full ← gets (λ q, capacity q =? VECQ_SIZE q);
  if (full : bool) then vecq_grow ok;; VECQ_INSERT e else VECQ_INSERT e.

(** The loops over the elements; [body] returns [Some] when it leaves the loop. *)
Section foreach.
Context {B : Type} (body : A → option B).

Definition visit q (i : Z) (continue : res (option B)) : res (option B) :=
  match lookupZ (buffer q) (vecq_pos q i) with
  | Some (Some e) => match body e with Some r => Ok (Some r) | None => continue end
  | _ => Undef
  end.

Fixpoint foreach_loop q (n : nat) (i : Z) : res (option B) :=
  match n with
  | O => Ok None
  | S n => visit q i (foreach_loop q n (i + 1))
  end.
Definition VECQ_FOREACH q : res (option B) := foreach_loop q (Z.to_nat (VECQ_SIZE q)) 0.

Fixpoint foreach_reverse_loop q (i : nat) : res (option B) :=
  match i with
  | O => Ok None
  | S i => visit q (Z.of_nat i) (foreach_reverse_loop q i)
  end.
Definition VECQ_FOREACH_REVERSE q : res (option B) := foreach_reverse_loop q (Z.to_nat (VECQ_SIZE q)).
End foreach.

Definition VECQ_CLEAR q : vecq A := Vecq (buffer q) (capacity q) 0 0.
Definition VECQ_DELETE q : vecq A := Vecq [] 0 0 0.

(** ** The queue as a list *)

Definition pow2_cap (c : Z) : Prop := ∃ k, 0 ≤ k ≤ 62 ∧ c = 2 ^ k.

(** [q] holds the elements [l], the oldest first. *)
Record vecq_inv q (l : list A) : Prop := VecqInv {
  vq_length : Z.of_nat (length (buffer q)) = capacity q;
  vq_capacity : capacity q = 0 ∨ pow2_cap (capacity q);
  vq_front : 0 ≤ front q < 2 ^ 64;
  vq_back : back q = u64 (front q + Z.of_nat (length l));
  vq_fits : Z.of_nat (length l) ≤ capacity q;
  vq_cells (i : nat) e : l !! i = Some e →
    lookupZ (buffer q) ((front q + Z.of_nat i) mod capacity q) = Some (Some e)
}.

Lemma mask_mod c i : pow2_cap c → i &&& u64 (c - 1) = i mod c.
Proof.
  intros (k & Hk & ->). assert (0 < 2 ^ k ≤ 2 ^ 62).
  { split; [by apply Z.pow_pos_nonneg; lia|by apply Z.pow_le_mono_r; lia]. }
  rewrite u64_id by lia. replace (2 ^ k - 1) with (Z.ones k) by (rewrite Z.ones_equiv; lia).
  by rewrite Z.land_ones by lia.
Qed.

(** The mask sees the position through the wrap of the counters. *)
Lemma wrap_mod c i : pow2_cap c → u64 i mod c = i mod c.
Proof.
  intros (k & Hk & ->). unfold u64.
  replace (2 ^ 64) with (2 ^ (64 - k) * 2 ^ k) by (rewrite <- Z.pow_add_r by lia; f_equal; lia).
  assert (0 < 2 ^ k) by (apply Z.pow_pos_nonneg; lia).
  assert (0 < 2 ^ (64 - k)) by (apply Z.pow_pos_nonneg; lia).
  rewrite (Z.mul_comm (2 ^ (64 - k))), Z.rem_mul_r, Z.mul_comm, Z_mod_plus_full by lia.
  by rewrite Z.mod_mod by lia.
Qed.

Lemma pow2_pos c : pow2_cap c → 0 < c ≤ 2 ^ 62.
Proof.
  intros (k & Hk & ->). split; [by apply Z.pow_pos_nonneg; lia|by apply Z.pow_le_mono_r; lia].
Qed.

Lemma size_length q l : vecq_inv q l → VECQ_SIZE q = Z.of_nat (length l).
Proof.
  intros [_ Hc Hf Hb Hs _]. unfold VECQ_SIZE. rewrite Hb. unfold u64.
  rewrite Zminus_mod_idemp_l. replace (front q + _ - front q) with (Z.of_nat (length l)) by lia.
  apply Z.mod_small. destruct Hc as [Hc|Hc%pow2_pos]; lia.
Qed.

Lemma init_inv : vecq_inv VECQ_INIT [].
Proof. split; simpl; [done|by left|lia|done|lia|done]. Qed.

Lemma clear_inv q l : vecq_inv q l → vecq_inv (VECQ_CLEAR q) [] ∧ front (VECQ_CLEAR q) = 0.
Proof.
  intros [Hl Hc _ _ _ _]. split; [|done]. split; simpl; try done.
  destruct Hc as [-> |Hc%pow2_pos]; lia.
Qed.

(** Two elements of the queue are in different cells. *)
Lemma cells_apart q l (i j : nat) : vecq_inv q l → (i < length l)%nat → (j < i)%nat ∨ (i < j < Z.to_nat (capacity q))%nat →
  (front q + Z.of_nat i) mod capacity q ≠ (front q + Z.of_nat j) mod capacity q.
Proof.
  intros [_ Hc _ _ Hs _] Hi Hj He. assert (0 < capacity q) as Hpos by (destruct Hc as [Hc|Hc%pow2_pos]; lia).
  set (c := capacity q) in *.
  pose proof (Z.div_mod (front q + Z.of_nat i) c ltac:(lia)).
  pose proof (Z.div_mod (front q + Z.of_nat j) c ltac:(lia)). rewrite He in *.
  set (a := (front q + Z.of_nat i) / c) in *. set (b := (front q + Z.of_nat j) / c) in *.
  assert (Z.of_nat i - Z.of_nat j = c * (a - b)) by lia.
  destruct (Z.eq_dec a b); [lia|]. nia.
Qed.

Lemma dequeue_run q e l : vecq_inv q (e :: l) →
  ∃ q', VECQ_DEQUEUE q = (Ok e, q') ∧ vecq_inv q' l ∧ capacity q' = capacity q ∧
    front q' = u64 (front q + 1).
Proof.
  intros Hi. pose proof Hi as [Hl Hc Hf Hb Hs Hcells]. simpl in Hs.
  destruct Hc as [Hc|Hc]; [lia|]. pose proof (pow2_pos _ Hc).
  unfold VECQ_DEQUEUE. do 2 (erewrite bind_ok by reflexivity). unfold vecq_read, vecq_pos. simpl.
  rewrite mask_mod by done. pose proof (Hcells 0%nat e eq_refl) as H0. rewrite Z.add_0_r in H0. rewrite H0.
  eexists. split_and!; [done| |done|done].
  split; simpl; [done|by right|apply u64_range| |lia|].
  - rewrite Hb. unfold u64. rewrite Zplus_mod_idemp_l. f_equal. simpl. lia.
  - intros i e' He'. pose proof (Hcells (S i) e' He') as Hi'.
    rewrite <- (Zplus_mod_idemp_l (u64 _)), wrap_mod, Zplus_mod_idemp_l by done.
    rewrite <- Hi'. do 2 f_equal. lia.
Qed.

Lemma insert_run q l e : vecq_inv q l → Z.of_nat (length l) < capacity q →
  ∃ q', VECQ_INSERT e q = (Ok tt, q') ∧ vecq_inv q' (l ++ [e]) ∧ capacity q' = capacity q ∧ front q' = front q.
Proof.
  intros Hi Hlt. pose proof Hi as [Hl Hc Hf Hb Hs Hcells].
  destruct Hc as [Hc|Hc]; [lia|]. pose proof (pow2_pos _ Hc).
  set (pos := (front q + Z.of_nat (length l)) mod capacity q).
  assert (VECQ_BACK_POS q = pos) as Hpos.
  { unfold VECQ_BACK_POS, vecq_pos. by rewrite mask_mod, Hb, wrap_mod. }
  assert (0 ≤ pos < capacity q) by (by apply Z.mod_pos_bound; lia).
  unfold VECQ_INSERT. do 2 (erewrite bind_ok by reflexivity). rewrite Hpos, bool_decide_true by lia.
  eexists. split_and!; [reflexivity| |done|done].
  split; simpl; [by rewrite length_updZ|by right|done| |rewrite length_app; simpl; lia|].
  - rewrite Hb. unfold u64. rewrite Zplus_mod_idemp_l, length_app. simpl. f_equal. lia.
  - intros i e' He'. destruct (decide (i < length l)%nat) as [Hil|Hil].
    + rewrite lookup_app_l in He' by done. rewrite lookupZ_updZ_ne; [by apply Hcells|].
      intros Heq. symmetry in Heq. revert Heq. apply (cells_apart q l); [done|done|lia].
    + apply lookup_lt_Some in He' as Hi'. rewrite length_app in Hi'. simpl in Hi'.
      assert (i = length l) as -> by lia. rewrite lookup_app_r, Nat.sub_diag in He' by done.
      simplify_eq/=. apply lookupZ_updZ_eq. lia.
Qed.

Definition grown_capacity q : Z := if capacity q =? 0 then VECQ_INIT_SIZE else u64 (capacity q * 2).

(** When growing does not lose the elements. *)
Definition grows_well q : Prop := (2 * capacity q | front q).

Lemma grow_run q l : vecq_inv q l → capacity q = Z.of_nat (length l) → grows_well q → capacity q < 2 ^ 62 →
  ∃ q', vecq_grow true q = (Ok tt, q') ∧ vecq_inv q' l ∧ Z.of_nat (length l) < capacity q' ∧ front q' = front q ∧
    capacity q' = grown_capacity q.
Proof.
  intros Hi Hfull Hg Hlim. pose proof Hi as [Hl Hc Hf Hb Hs Hcells].
  unfold vecq_grow. erewrite bind_ok by reflexivity. simpl. unfold grows_well in Hg.
  set (nc := if capacity q =? 0 then VECQ_INIT_SIZE else u64 (capacity q * 2)).
  assert (pow2_cap nc ∧ Z.of_nat (length l) < nc ∧ (capacity q ≠ 0 → nc = 2 * capacity q)) as (Hnc & Hlt & Hne).
  { unfold nc. destruct (Z.eqb_spec (capacity q) 0) as [H0|H0].
    - split_and!; [by exists 6|unfold VECQ_INIT_SIZE; lia|done].
    - destruct Hc as [Hc|(k & Hk & Hck)]; [done|]. rewrite Hck in *.
      assert (k < 62). { destruct (decide (k < 62)); [done|]. assert (k = 62) as -> by lia. lia. }
      assert (0 < 2 ^ k) by (apply Z.pow_pos_nonneg; lia).
      rewrite u64_id by lia. split_and!; [exists (k + 1); split; [lia|by rewrite Z.pow_add_r by lia]|lia|lia]. }
  eexists. split_and!; [reflexivity| |done|done|done]. pose proof (pow2_pos _ Hnc).
  split; simpl; [rewrite length_resize; lia|by right|done|done|lia|].
  intros i e He. pose proof (lookup_lt_Some _ _ _ He) as Hil.
  destruct (decide (capacity q = 0)) as [H0|H0]; [lia|]. rewrite (Hne H0).
  pose proof (Hcells i e He) as Hcell. destruct Hg as [g Hg]. rewrite Hg in Hcell |- *.
  rewrite Z.add_comm, Z_mod_plus_full, Z.mod_small by lia.
  replace (g * (2 * capacity q) + Z.of_nat i) with (Z.of_nat i + (2 * g) * capacity q) in Hcell by lia.
  rewrite Z_mod_plus_full, Z.mod_small in Hcell by lia.
  rewrite lookupZ_nat in *. rewrite lookup_resize by lia. done.
Qed.

(** What [VECQ_ENQUEUE] returns and the elements after it. *)
Definition enqueue_result (ok : bool) q : res unit :=
  if (capacity q =? VECQ_SIZE q) && negb ok then Fail ENOMEM else Ok tt.

Lemma enqueue_run ok q l e : vecq_inv q l → (capacity q = VECQ_SIZE q → grows_well q) → capacity q < 2 ^ 62 →
  ∃ q', VECQ_ENQUEUE ok e q = (enqueue_result ok q, q') ∧ front q' = front q ∧
    vecq_inv q' (if enqueue_result ok q is Ok _ then l ++ [e] else l) ∧
    capacity q' = (if (capacity q =? VECQ_SIZE q) && ok then grown_capacity q else capacity q).
Proof.
  intros Hi Hg Hlim. unfold VECQ_ENQUEUE, enqueue_result. erewrite bind_ok by reflexivity.
  pose proof (size_length q l Hi) as Hsz. destruct (Z.eqb_spec (capacity q) (VECQ_SIZE q)) as [He|He]; simpl.
  - destruct ok; simpl.
    + destruct (grow_run q l Hi) as (q1 & E1 & Hi1 & Hlt & Hf1 & Hc1); [lia|auto|done|].
      erewrite bind_ok by exact E1. destruct (insert_run q1 l e Hi1 Hlt) as (q2 & E2 & Hi2 & Hc2 & Hf2).
      exists q2. split_and!; [done|congruence|done|congruence].
    + erewrite bind_fail by done. by exists q.
  - pose proof (vq_fits _ _ Hi). destruct (insert_run q l e Hi) as (q1 & E1 & Hi1 & Hc1 & Hf1); [lia|].
    by exists q1.
Qed.

(** The loop that goes backwards finds what a search of the list from its end finds, as long as
    nothing was taken out. *)
Fixpoint search {B} (body : A → option B) (l : list A) : option B :=
  match l with
  | [] => None
  | e :: l => match body e with Some r => Some r | None => search body l end
  end.

Lemma foreach_reverse_run {B} (body : A → option B) q l : vecq_inv q l → front q = 0 →
  VECQ_FOREACH_REVERSE body q = Ok (search body (reverse l)).
Proof.
  intros Hi Hf. unfold VECQ_FOREACH_REVERSE. rewrite (size_length q l Hi), Nat2Z.id.
  pose proof Hi as [_ Hc _ _ Hs Hcells]. assert (∀ l1 l2, l = l1 ++ l2 →
    foreach_reverse_loop body q (length l1) = Ok (search body (reverse l1))) as H.
  { induction l1 as [|e l1 IH] using rev_ind; intros l2 ->; [done|].
    rewrite length_app, Nat.add_1_r. cbn [foreach_reverse_loop]. unfold visit, vecq_pos.
    rewrite !length_app in Hs. simpl in Hs.
    destruct Hc as [Hc|Hc]; [lia|]. rewrite mask_mod by done.
    pose proof (Hcells (length l1) e) as He. rewrite Hf, Z.add_0_l in He.
    rewrite He by (rewrite <- app_assoc; by apply list_lookup_middle).
    rewrite reverse_snoc. simpl. destruct (body e); [done|]. eapply IH. by rewrite <- app_assoc. }
  apply (H l []). by rewrite app_nil_r.
Qed.
End vecq.
#[export] Hint Resolve init_inv : pmdk.
