(* ===== verification/Container.v ===== *)
(** * Memory blocks and their containers

    [struct memory_block] of [libpmemobj/memblock.h], the addresses of huge blocks in the layout of
    [heap_layout.h], and the interface [struct block_container_ops] of [container.h], through which a
    bucket stores the free blocks it hands out.  The class [BlockContainer] states what every
    container promises: it holds a collection of blocks, and [get_rm_bestfit] takes out one of the
    smallest that are large enough. *)

From stdpp Require Import base gmap list numbers.
From S2P Require Import Prelude.
Local Open Scope Z_scope.

(** ** Data *)

Inductive header_type : Type := HEADER_LEGACY | HEADER_COMPACT | HEADER_NONE.
Inductive memory_block_type : Type := MEMORY_BLOCK_HUGE | MEMORY_BLOCK_RUN.

#[global] Instance header_type_eq_dec : EqDecision header_type.
Proof. solve_decision. Defined.
#[global] Instance memory_block_type_eq_dec : EqDecision memory_block_type.
Proof. solve_decision. Defined.

(** [m_ops] is determined by the type and [heap] is the one heap of the pool; both are left out. *)
Record memory_block : Type := MemoryBlock {
  chunk_id : Z;
  zone_id : Z;
  size_idx : Z;
  block_off : Z;
  mb_header_type : header_type;
  mb_type : memory_block_type
}.

#[global] Instance memory_block_eq_dec : EqDecision memory_block.
Proof. solve_decision. Defined.

(** [MEMORY_BLOCK_NONE] with the size that is looked for. *)
Definition request (size : Z) : memory_block :=
  MemoryBlock 0 0 size 0 HEADER_LEGACY MEMORY_BLOCK_HUGE.

(** The fields are [uint32_t]. *)
Record block_range (m : memory_block) : Prop := {
  br_chunk : 0 ≤ chunk_id m < 2 ^ 32;
  br_zone : 0 ≤ zone_id m < 2 ^ 32;
  br_size : 0 ≤ size_idx m < 2 ^ 32;
  br_off : 0 ≤ block_off m < 2 ^ 32
}.

(** ** Addresses *)

Definition MAX_CHUNK : Z := 65535 - 7.
Definition CHUNKSIZE : Z := 1024 * 256.
Definition sizeof_heap_header : Z := 1024.
(** The zone header and [MAX_CHUNK] chunk headers of 8 bytes. *)
Definition sizeof_zone : Z := 64 + 8 * MAX_CHUNK.
Definition ZONE_MAX_SIZE : Z := sizeof_zone + CHUNKSIZE * MAX_CHUNK.

Definition header_type_to_size (t : header_type) : Z :=
  match t with HEADER_LEGACY => 64 | HEADER_COMPACT => 16 | HEADER_NONE => 0 end.

Definition ZID_TO_ZONE (layout zone : Z) : Z := layout + sizeof_heap_header + ZONE_MAX_SIZE * zone.
Definition GET_CHUNK_HDR (layout zone chunk : Z) : Z := ZID_TO_ZONE layout zone + 64 + 8 * chunk.
Definition GET_CHUNK (layout zone chunk : Z) : Z := ZID_TO_ZONE layout zone + sizeof_zone + CHUNKSIZE * chunk.

Definition huge_get_real_data (layout : Z) (m : memory_block) : Z :=
  GET_CHUNK layout (zone_id m) (chunk_id m).

(** [get_real_data] is the method of the block. *)
Definition block_get_user_data (get_real_data : memory_block → Z) (m : memory_block) : Z :=
  get_real_data m + header_type_to_size (mb_header_type m).

(** Huge blocks that start in different chunks have different user data. *)
Lemma huge_user_data_inj layout m m' :
  0 ≤ chunk_id m < MAX_CHUNK → 0 ≤ chunk_id m' < MAX_CHUNK → mb_header_type m = mb_header_type m' →
  block_get_user_data (huge_get_real_data layout) m = block_get_user_data (huge_get_real_data layout) m' →
  chunk_id m = chunk_id m' ∧ zone_id m = zone_id m'.
Proof.
  unfold block_get_user_data, huge_get_real_data, GET_CHUNK, ZID_TO_ZONE, ZONE_MAX_SIZE, sizeof_zone,
    sizeof_heap_header, CHUNKSIZE, MAX_CHUNK.
  intros H1 H2 ->. destruct (Z.lt_trichotomy (zone_id m) (zone_id m')) as [H|[H|H]]; lia.
Qed.

(** ** The interface *)

Record block_container_ops (S : Type) : Type := BlockContainerOps {
  bc_insert : memory_block → M S unit;
  bc_get_rm_exact : option (memory_block → M S unit);
  bc_get_rm_bestfit : memory_block → M S memory_block;
  bc_get_exact : option (memory_block → M S unit);
  bc_is_empty : M S bool;
  bc_rm_all : M S unit;
  bc_destroy : M S unit
}.
Arguments BlockContainerOps {S}.
Arguments bc_insert {S}.
Arguments bc_get_rm_exact {S}.
Arguments bc_get_rm_bestfit {S}.
Arguments bc_get_exact {S}.
Arguments bc_is_empty {S}.
Arguments bc_rm_all {S}.
Arguments bc_destroy {S}.

(** [b] is a best fit for a request of [n] units among [X]. *)
Definition best_fit (n : Z) (X : list memory_block) (b : memory_block) : Prop :=
  b ∈ X ∧ n ≤ size_idx b ∧ ∀ c, c ∈ X → n ≤ size_idx c → size_idx b ≤ size_idx c.

(** A container in state [s] holds the blocks [X], in any order. *)
Class BlockContainer {S} (ops : block_container_ops S) := {
  holds : S → list memory_block → Prop;
  can_insert : S → memory_block → Prop;
  max_request : Z;
  holds_perm s :: Proper ((≡ₚ) ==> iff) (holds s);
  insert_ok s X m : holds s X → can_insert s m → ∃ r s', bc_insert ops m s = (r, s') ∧
    ((r = Ok tt ∧ holds s' (m :: X)) ∨ ((∃ e, r = Fail e) ∧ holds s' X));
  bestfit_ok s X n : holds s X → 0 < n ≤ max_request →
    (Forall (λ b, size_idx b < n) X ∧ bc_get_rm_bestfit ops (request n) s = (Fail ENOMEM, s)) ∨
    ∃ b X' s', bc_get_rm_bestfit ops (request n) s = (Ok b, s') ∧ X ≡ₚ b :: X' ∧
      best_fit n X b ∧ holds s' X';
  is_empty_ok s X : holds s X → bc_is_empty ops s = (Ok (bool_decide (X = [])), s);
  rm_all_ok s X : holds s X → ∃ s', bc_rm_all ops s = (Ok tt, s') ∧ holds s' []
}.

(** The size a container returns depends on the blocks it holds only. *)
Lemma best_fit_size n X X' b b' : X ≡ₚ X' → best_fit n X b → best_fit n X' b' → size_idx b = size_idx b'.
Proof.
  intros HX (H1 & H2 & H3) (H1' & H2' & H3'). rewrite <- HX in H1'.
  pose proof (H3 b' H1' H2'). assert (b ∈ X') as Hb by (by rewrite <- HX). pose proof (H3' b Hb H2). lia.
Qed.
