(* ===== verification/ContainerSeglists.v ===== *)
(** * Segregated lists

    Models [libpmemobj/container_seglists.c]: one queue of block offsets for each of 64 sizes and a
    bitmap of the queues that are not empty.  All blocks are of one run; their other fields are
    kept once. *)

From stdpp Require Import base gmap list numbers.
From S2P Require Import Prelude Vecq Container.
Local Open Scope Z_scope.

Definition SEGLIST_BLOCK_LISTS : Z := 64.

(** [__builtin_ctzll], undefined on 0: the index of the lowest of [n] bits that is set. *)
Fixpoint ctz (n : nat) (i v : Z) : Z :=
  match n with
  | O => i
  | S n => if Z.testbit v i then i else ctz n (i + 1) v
  end.
Definition util_lssb_index64 (v : Z) : Z := ctz 64 0 v.

(** [sl_realloc]: which of the next calls of [Realloc] fail (none, when it is empty). *)
Record block_container_seglists : Type := Seglists {
  sl_m : memory_block;
  sl_blocks : list (vecq Z);
  sl_nonempty_lists : Z;
  sl_realloc : list bool
}.

Local Abbreviation MS A := (M block_container_seglists A).

(** A call on the queue [i]. *)
Definition on_list {A} (i : Z) (f : M (vecq Z) A) : MS A := λ s,
  match lookupZ (sl_blocks s) i with
  | None => (Undef, s)
  | Some q =>
      let '(r, q') := f q in
      (r, Seglists (sl_m s) (updZ (sl_blocks s) i q') (sl_nonempty_lists s) (sl_realloc s))
  end.

(** Whether the next [Realloc] succeeds; the call is made when the queue is full. *)
Definition next_realloc (i : Z) : MS bool := λ s,
  match lookupZ (sl_blocks s) i with
  | Some q =>
      if capacity q =? VECQ_SIZE q then
        (Ok (default true (head (sl_realloc s))),
         Seglists (sl_m s) (sl_blocks s) (sl_nonempty_lists s) (tail (sl_realloc s)))
      else (Ok true, s)
  | None => (Undef, s)
  end.

Definition sl_set_m (m : memory_block) (s : block_container_seglists) : block_container_seglists :=
  Seglists m (sl_blocks s) (sl_nonempty_lists s) (sl_realloc s).
Definition sl_set_nonempty (v : Z) (s : block_container_seglists) : block_container_seglists :=
  Seglists (sl_m s) (sl_blocks s) v (sl_realloc s).

(** An assertion that fails is undefined. *)
Definition assert_sl (b : bool) : MS unit := if b then mret tt else undef.

Definition container_seglists_insert_block (m : memory_block) : MS unit :=
  assert_sl (chunk_id m <? MAX_CHUNK);;
  assert_sl (zone_id m <? 65535);;
  assert_sl (negb (size_idx m =? 0));;
  v ← gets sl_nonempty_lists;
  (if v =? 0 then modify (sl_set_m m) else mret tt);;
  cm ← gets sl_m;
  assert_sl (size_idx m <=? SEGLIST_BLOCK_LISTS);;
  assert_sl (chunk_id m =? chunk_id cm);;
  assert_sl (zone_id m =? zone_id cm);;
  ok ← next_realloc (size_idx m - 1);
  on_list (size_idx m - 1) (VECQ_ENQUEUE ok (block_off m));;
  modify (λ s, sl_set_nonempty (sl_nonempty_lists s ||| Z.shiftl 1 (size_idx m - 1)) s).

(** A shift by [size_idx - 1] is undefined for the size 0, whose predecessor is [UINT32_MAX]. *)
Definition container_seglists_get_rm_block_bestfit (m : memory_block) : MS memory_block :=
  assert_sl (size_idx m <=? SEGLIST_BLOCK_LISTS);;
  if size_idx m =? 0 then undef
  else
    let size_mask := Z.shiftl 1 (size_idx m - 1) - 1 in
    v ← gets (λ s, sl_nonempty_lists s &&& u64 (Z.lnot size_mask));
    if v =? 0 then fail ENOMEM
    else
      let i := util_lssb_index64 v in
      block_offset ← on_list i VECQ_DEQUEUE;
      n ← on_list i (gets VECQ_SIZE);
      (if n =? 0
       then modify (λ s, sl_set_nonempty (sl_nonempty_lists s &&& u64 (Z.lnot (Z.shiftl 1 i))) s)
       else mret tt);;
      cm ← gets sl_m;
      mret (MemoryBlock (chunk_id cm) (zone_id cm) (i + 1) block_offset (mb_header_type cm) (mb_type cm)).

Definition container_seglists_is_empty : MS bool := gets (λ s, sl_nonempty_lists s =? 0).

Definition container_seglists_rm_all : MS unit :=
  modify (λ s, Seglists (sl_m s) (VECQ_CLEAR <$> sl_blocks s) 0 (sl_realloc s)).

(** The queues are deleted and the structure is freed. *)
Definition container_seglists_destroy : MS unit :=
  modify (λ s, Seglists (sl_m s) (VECQ_DELETE <$> sl_blocks s) (sl_nonempty_lists s) (sl_realloc s)).

Definition container_seglists_ops : block_container_ops block_container_seglists :=
  BlockContainerOps container_seglists_insert_block None container_seglists_get_rm_block_bestfit None
    container_seglists_is_empty container_seglists_rm_all container_seglists_destroy.

(** [m] is what [Malloc] left in the field; [None]: [NULL]. *)
Definition container_new_seglists (malloc_ok : bool) (m : memory_block) (realloc : list bool)
    : option block_container_seglists :=
  if malloc_ok
  then Some (Seglists m (replicate (Z.to_nat SEGLIST_BLOCK_LISTS) VECQ_INIT) 0 realloc)
  else None.

(** ** The blocks in the container *)

(** The block of the run of [cm] at [off] with the size of list [i]. *)
Definition block_of (cm : memory_block) (i : nat) (off : Z) : memory_block :=
  MemoryBlock (chunk_id cm) (zone_id cm) (Z.of_nat i + 1) off (mb_header_type cm) (mb_type cm).

Definition blocks_of (cm : memory_block) (ls : list (list Z)) : list memory_block :=
  concat (imap (λ i l, block_of cm i <$> l) ls).

Record lists_inv (s : block_container_seglists) (ls : list (list Z)) : Prop := {
  li_length : length ls = 64%nat;
  li_queues : Forall2 vecq_inv (sl_blocks s) ls;
  li_range : 0 ≤ sl_nonempty_lists s < 2 ^ 64;
  li_bits (i : nat) l : ls !! i = Some l → Z.testbit (sl_nonempty_lists s) (Z.of_nat i) = bool_decide (l ≠ [])
}.

Definition seglists_holds (s : block_container_seglists) (X : list memory_block) : Prop :=
  ∃ ls, lists_inv s ls ∧ X ≡ₚ blocks_of (sl_m s) ls.

(** When a block may be inserted: it belongs to the run of the others, and its queue can grow
    without losing what it holds. *)
Record seglists_can_insert (s : block_container_seglists) (m : memory_block) : Prop := {
  ci_size : 0 < size_idx m ≤ 64;
  ci_chunk : chunk_id m < MAX_CHUNK;
  ci_zone : zone_id m < 65535;
  ci_run : sl_nonempty_lists s = 0 ∨
    (chunk_id m = chunk_id (sl_m s) ∧ zone_id m = zone_id (sl_m s) ∧
     mb_header_type m = mb_header_type (sl_m s) ∧ mb_type m = mb_type (sl_m s));
  ci_grow q : lookupZ (sl_blocks s) (size_idx m - 1) = Some q →
    (capacity q = VECQ_SIZE q → grows_well q) ∧ capacity q < 2 ^ 62
}.

(** The condition as a test. *)
Definition seglists_can_insertb (s : block_container_seglists) (m : memory_block) : bool :=
  (0 <? size_idx m) && (size_idx m <=? 64) && (chunk_id m <? MAX_CHUNK) && (zone_id m <? 65535) &&
  ((sl_nonempty_lists s =? 0) ||
   bool_decide (chunk_id m = chunk_id (sl_m s) ∧ zone_id m = zone_id (sl_m s) ∧
     mb_header_type m = mb_header_type (sl_m s) ∧ mb_type m = mb_type (sl_m s))) &&
  match lookupZ (sl_blocks s) (size_idx m - 1) with
  | Some q => (negb (capacity q =? VECQ_SIZE q) || (front q =? front q / (2 * capacity q) * (2 * capacity q))) &&
              (capacity q <? 2 ^ 62)
  | None => true
  end.

Lemma seglists_can_insertb_ok s m : seglists_can_insertb s m = true → seglists_can_insert s m.
Proof.
  unfold seglists_can_insertb. intros H. bool_hyps. split; [lia|done|done| |].
  - match goal with H : _ || _ = true |- _ => apply orb_true_iff in H as [H|H]; bool_hyps; [by left|by right] end.
  - intros q Hq. rewrite Hq in *. bool_hyps. split; [|done]. intros Hc.
    match goal with H : _ || _ = true |- _ => apply orb_true_iff in H as [H|H] end.
    + apply negb_true_iff in H0. bool_hyps. done.
    + bool_hyps. by exists (front q / (2 * capacity q)).
Qed.

Lemma ctz_spec n : ∀ i v, 0 ≤ i → (∃ j, i ≤ j < i + Z.of_nat n ∧ Z.testbit v j = true) →
  i ≤ ctz n i v < i + Z.of_nat n ∧ Z.testbit v (ctz n i v) = true ∧
  ∀ j, i ≤ j < ctz n i v → Z.testbit v j = false.
Proof.
  induction n as [|n IH]; intros i v Hi (j & Hj & Hb); [lia|]. cbn [ctz].
  destruct (Z.testbit v i) eqn:E; [split_and!; [lia|lia|done|lia]|].
  destruct (IH (i + 1) v) as (H1 & H2 & H3); [lia| |].
  - exists j. split; [|done]. destruct (decide (i = j)); [congruence|lia].
  - split_and!; [lia|lia|done|]. intros k Hk. destruct (decide (k = i)) as [->|]; [done|]. apply H3. lia.
Qed.

Lemma concat_update {A B} (f : nat → list A → list B) ls i l : (∀ k, f k [] = []) → ls !! i = Some l →
  concat (imap f ls) ≡ₚ f i l ++ concat (imap f (<[i := []]> ls)).
Proof.
  intros Hf. revert f i Hf. induction ls as [|l' ls IH]; intros f i Hf Hi; [done|].
  destruct i as [|i]; simplify_eq/=; [by rewrite Hf|].
  rewrite (IH (f ∘ S) i) by (done || by intros; apply Hf). simpl. rewrite !(assoc_L (++)).
  by rewrite (Permutation_app_comm (f 0%nat l')).
Qed.

Lemma blocks_update cm ls i l l' : ls !! i = Some l →
  blocks_of cm (<[i := l']> ls) ≡ₚ (block_of cm i <$> l') ++ blocks_of cm (<[i := []]> ls).
Proof.
  intros Hi%lookup_lt_Some. unfold blocks_of. rewrite (concat_update _ _ i l') by (done || by apply list_lookup_insert_eq).
  by rewrite list_insert_insert_eq.
Qed.

Lemma blocks_same cm ls i l : ls !! i = Some l →
  blocks_of cm ls ≡ₚ (block_of cm i <$> l) ++ blocks_of cm (<[i := []]> ls).
Proof. intros Hi. rewrite <- (blocks_update cm ls i l l Hi). by rewrite list_insert_id. Qed.

Lemma elem_of_blocks cm ls b : b ∈ blocks_of cm ls ↔
  ∃ i l off, ls !! i = Some l ∧ off ∈ l ∧ b = block_of cm i off.
Proof.
  unfold blocks_of. rewrite list_elem_of_In, in_concat. split.
  - intros (x & Hx%list_elem_of_In & Hb%list_elem_of_In).
    apply elem_of_lookup_imap in Hx as (i & l & -> & Hi). apply list_elem_of_fmap in Hb as (off & -> & Ho).
    by exists i, l, off.
  - intros (i & l & off & Hi & Ho & ->). exists (block_of cm i <$> l). rewrite <- !list_elem_of_In. split.
    + apply elem_of_lookup_imap. eauto.
    + apply list_elem_of_fmap. eauto.
Qed.

Lemma no_lists s ls : lists_inv s ls → sl_nonempty_lists s = 0 → ∀ cm, blocks_of cm ls = [].
Proof.
  intros Hi H0 cm. destruct (blocks_of cm ls) as [|b X] eqn:E; [done|].
  assert (b ∈ blocks_of cm ls) as (i & l & off & Hl & Ho & _)%elem_of_blocks by (rewrite E; left).
  pose proof (li_bits _ _ Hi i l Hl) as Hb. rewrite H0, Z.bits_0 in Hb.
  symmetry in Hb. apply bool_decide_eq_false in Hb. destruct l; [set_solver|]. by destruct Hb.
Qed.

(** A change of one queue and its bit. *)
Lemma lists_update s ls (i : nat) q l v m o : lists_inv s ls → (i < 64)%nat → vecq_inv q l → 0 ≤ v < 2 ^ 64 →
  (∀ j, 0 ≤ j < 64 → Z.testbit v j =
     if decide (j = Z.of_nat i) then bool_decide (l ≠ []) else Z.testbit (sl_nonempty_lists s) j) →
  lists_inv (Seglists m (updZ (sl_blocks s) (Z.of_nat i) q) v o) (<[i := l]> ls).
Proof.
  intros [Hl Hq Hr Hb] Hi Hql Hv Hbits. split; simpl; [by rewrite length_insert| |done|].
  - unfold updZ. rewrite decide_True, Nat2Z.id by lia. by apply Forall2_insert.
  - intros j l' Hj. pose proof (lookup_lt_Some _ _ _ Hj) as Hlt. rewrite length_insert in Hlt.
    rewrite Hbits by lia. destruct (decide (i = j)) as [->|Hne].
    + rewrite decide_True by done. rewrite list_lookup_insert_eq in Hj by lia. by simplify_eq.
    + rewrite decide_False by lia. rewrite list_lookup_insert_ne in Hj by done. by apply Hb.
Qed.

Lemma set_bit v (i : nat) : (i < 64)%nat → 0 ≤ v < 2 ^ 64 →
  0 ≤ v ||| Z.shiftl 1 (Z.of_nat i) < 2 ^ 64 ∧ ∀ j, 0 ≤ j →
  Z.testbit (v ||| Z.shiftl 1 (Z.of_nat i)) j = if decide (j = Z.of_nat i) then true else Z.testbit v j.
Proof.
  intros Hi Hv. rewrite Z.shiftl_1_l. split.
  - assert (0 < 2 ^ Z.of_nat i < 2 ^ 64) by (split; [apply Z.pow_pos_nonneg; lia|apply Z.pow_lt_mono_r; lia]).
    rewrite Z.lor_nonneg. split; [lia|].
    destruct (decide (v ||| 2 ^ Z.of_nat i = 0)); [lia|].
    apply Z.log2_lt_pow2; [apply Z.le_neq; split; [rewrite Z.lor_nonneg; lia|done]|].
    rewrite Z.log2_lor by lia. apply Z.max_lub_lt.
    + destruct (decide (v = 0)) as [->|]; [done|]. apply Z.log2_lt_pow2; lia.
    + rewrite Z.log2_pow2 by lia. lia.
  - intros j Hj. rewrite Z.lor_spec. case_decide as H; [subst; rewrite Z.pow2_bits_true by lia; apply orb_true_r|].
    rewrite Z.pow2_bits_false by lia. apply orb_false_r.
Qed.

Lemma clear_bits_u64 v x : 0 ≤ v < 2 ^ 64 → 0 ≤ v &&& u64 x < 2 ^ 64 ∧
  ∀ j, 0 ≤ j < 64 → Z.testbit (v &&& u64 x) j = Z.testbit v j && Z.testbit x j.
Proof.
  intros Hv. split.
  - pose proof (u64_range x). assert (0 ≤ v &&& u64 x) by (apply Z.land_nonneg; lia). split; [done|].
    destruct (decide (v &&& u64 x = 0)) as [->|]; [done|]. apply Z.log2_lt_pow2; [lia|].
    eapply Z.le_lt_trans; [apply Z.log2_land; lia|]. apply Z.min_lt_iff. left.
    destruct (decide (v = 0)) as [->|]; [done|]. apply Z.log2_lt_pow2; lia.
  - intros j Hj. rewrite Z.land_spec. unfold u64. by rewrite Z.mod_pow2_bits_low by lia.
Qed.

(** ** The operations *)

Lemma on_list_run {A} s (i : nat) q (f : M (vecq Z) A) r q' : sl_blocks s !! i = Some q → f q = (r, q') →
  on_list (Z.of_nat i) f s = (r, Seglists (sl_m s) (updZ (sl_blocks s) (Z.of_nat i) q') (sl_nonempty_lists s) (sl_realloc s)).
Proof. intros Hq Hf. unfold on_list. rewrite lookupZ_nat, Hq, Hf. done. Qed.

Lemma queue_at s ls (i : nat) : lists_inv s ls → (i < 64)%nat →
  ∃ q l, sl_blocks s !! i = Some q ∧ ls !! i = Some l ∧ vecq_inv q l.
Proof.
  intros [Hl Hq _ _] Hi. destruct (lookup_lt_is_Some_2 ls i ltac:(lia)) as [l El].
  destruct (Forall2_lookup_r _ _ _ _ _ Hq El) as (q & Eq & Hql). eauto.
Qed.

(** [c->m = *m] when the container is empty. *)
Definition first_block (m : memory_block) (s : block_container_seglists) : block_container_seglists :=
  if sl_nonempty_lists s =? 0 then sl_set_m m s else s.

Lemma first_block_ok s ls X m : lists_inv s ls → X ≡ₚ blocks_of (sl_m s) ls → seglists_can_insert s m →
  let s1 := first_block m s in
  lists_inv s1 ls ∧ sl_blocks s1 = sl_blocks s ∧ X ≡ₚ blocks_of (sl_m s1) ls ∧
  block_of (sl_m s1) (Z.to_nat (size_idx m - 1)) (block_off m) = m.
Proof.
  intros Hi HX [Hs _ _ Hrun _] s1. unfold s1, first_block.
  assert (∀ cm, chunk_id m = chunk_id cm → zone_id m = zone_id cm → mb_header_type m = mb_header_type cm →
    mb_type m = mb_type cm → block_of cm (Z.to_nat (size_idx m - 1)) (block_off m) = m) as Hm.
  { intros cm E1 E2 E3 E4. unfold block_of. rewrite <- E1, <- E2, <- E3, <- E4, Z2Nat.id by lia.
    replace (size_idx m - 1 + 1) with (size_idx m) by lia. by destruct m. }
  destruct (Z.eqb_spec (sl_nonempty_lists s) 0) as [H0|H0].
  - rewrite (no_lists s ls Hi H0) in HX. split_and!; [by destruct Hi|done| |by apply Hm].
    by rewrite (no_lists s ls Hi H0).
  - destruct Hrun as [?|(? & ? & ? & ?)]; [done|]. split_and!; [done..|by apply Hm].
Qed.

Lemma realloc_run s (i : nat) q : sl_blocks s !! i = Some q →
  ∃ ok rest, next_realloc (Z.of_nat i) s = (Ok ok, Seglists (sl_m s) (sl_blocks s) (sl_nonempty_lists s) rest).
Proof.
  intros Eq. unfold next_realloc. rewrite lookupZ_nat, Eq. destruct s. case_match; eauto.
Qed.

(** The last two steps of an insertion. *)
Lemma enqueue_block s ls X (i : nat) m ok rest q : lists_inv s ls → X ≡ₚ blocks_of (sl_m s) ls → (i < 64)%nat →
  block_of (sl_m s) i (block_off m) = m → sl_blocks s !! i = Some q →
  (capacity q = VECQ_SIZE q → grows_well q) → capacity q < 2 ^ 62 →
  ∃ r s', (on_list (Z.of_nat i) (VECQ_ENQUEUE ok (block_off m));;
     modify (λ s, sl_set_nonempty (sl_nonempty_lists s ||| Z.shiftl 1 (Z.of_nat i)) s))
       (Seglists (sl_m s) (sl_blocks s) (sl_nonempty_lists s) rest) = (r, s') ∧
    ((r = Ok tt ∧ seglists_holds s' (m :: X)) ∨ ((∃ e, r = Fail e) ∧ seglists_holds s' X)).
Proof.
  intros Hi HX Hlt Hm Eq Hg Hlim. destruct (queue_at s ls i Hi Hlt) as (q0 & l & Eq0 & El & Hql). simplify_eq.
  destruct (enqueue_run ok q l (block_off m) Hql Hg Hlim) as (q' & E & _ & Hq' & _).
  set (s2 := Seglists _ _ _ rest). pose proof (on_list_run s2 i q _ _ _ Eq E) as Eo.
  destruct (set_bit (sl_nonempty_lists s) i Hlt (li_range _ _ Hi)) as [Hr' Hbits].
  destruct (enqueue_result ok q) as [[]|e|] eqn:Eres; [| |unfold enqueue_result in Eres; by case_match].
  - erewrite bind_ok by exact Eo. eexists _, _. split; [reflexivity|]. left. split; [done|].
    exists (<[i := l ++ [block_off m]]> ls). split.
    + apply (lists_update s ls i q'); [done|lia|done|done|]. intros j Hj.
      rewrite Hbits by lia. case_decide; [|done]. symmetry. apply bool_decide_eq_true_2. by destruct l.
    + simpl. rewrite (blocks_update (sl_m s) ls i l), fmap_app, HX, (blocks_same (sl_m s) ls i l El) by done.
      simpl. rewrite Hm, <- (assoc_L (++)). apply Permutation_middle.
  - erewrite bind_fail by exact Eo. eexists _, _. split; [reflexivity|]. right. split; [eauto|].
    exists (<[i := l]> ls). split; [|by rewrite list_insert_id].
    apply (lists_update s ls i q'); [done|lia|done|apply (li_range _ _ Hi)|]. intros j Hj.
    case_decide; [subst|done]. by apply (li_bits _ _ Hi).
Qed.

Lemma seglists_insert_ok s X m : seglists_holds s X → seglists_can_insert s m →
  ∃ r s', container_seglists_insert_block m s = (r, s') ∧
    ((r = Ok tt ∧ seglists_holds s' (m :: X)) ∨ ((∃ e, r = Fail e) ∧ seglists_holds s' X)).
Proof.
  intros (ls & Hi & HX) Hci. pose proof Hci as [Hs Hc Hz _ Hgrow].
  destruct (first_block_ok s ls X m Hi HX Hci) as (Hi1 & Eb & HX1 & Hm).
  unfold container_seglists_insert_block, assert_sl.
  rewrite (proj2 (Z.ltb_lt _ _) Hc), (proj2 (Z.ltb_lt _ _) Hz).
  rewrite (proj2 (Z.eqb_neq (size_idx m) 0)) by lia. simpl negb.
  do 4 (erewrite bind_ok by reflexivity).
  erewrite (bind_ok _ _ _ tt (first_block m s)) by (unfold first_block; by destruct (sl_nonempty_lists s =? 0)).
  set (s1 := first_block m s) in *. clearbody s1. erewrite bind_ok by reflexivity.
  rewrite (proj2 (Z.leb_le (size_idx m) SEGLIST_BLOCK_LISTS)) by apply Hs.
  assert (chunk_id m = chunk_id (sl_m s1) ∧ zone_id m = zone_id (sl_m s1)) as [<- <-] by (by rewrite <- Hm).
  rewrite !Z.eqb_refl. do 3 (erewrite bind_ok by reflexivity).
  replace (size_idx m - 1) with (Z.of_nat (Z.to_nat (size_idx m - 1))) in * by lia.
  set (i := Z.to_nat (size_idx m - 1)) in *. rewrite Nat2Z.id in Hm.
  destruct (queue_at s1 ls i Hi1 ltac:(lia)) as (q & l & Eq & El & Hql).
  destruct (Hgrow q) as [Hg Hlim]; [by rewrite <- Eb, lookupZ_nat|].
  destruct (realloc_run s1 i q Eq) as (ok & rest & Er). erewrite bind_ok by exact Er.
  apply (enqueue_block s1 ls X i m ok rest q); [done|done|lia|done..].
Qed.

(** The lists a request of [n] units can be served from. *)
Lemma applicable s ls n : lists_inv s ls → 0 < n ≤ 64 →
  let v := sl_nonempty_lists s &&& u64 (Z.lnot (Z.shiftl 1 (n - 1) - 1)) in
  0 ≤ v < 2 ^ 64 ∧ ∀ (i : nat) l, ls !! i = Some l →
    Z.testbit v (Z.of_nat i) = bool_decide (n ≤ Z.of_nat i + 1 ∧ l ≠ []).
Proof.
  intros Hi Hn. pose proof (li_range _ _ Hi) as Hr.
  destruct (clear_bits_u64 (sl_nonempty_lists s) (Z.lnot (Z.shiftl 1 (n - 1) - 1)) Hr) as [Hv Hbits].
  split; [done|]. intros i l Hl. pose proof (lookup_lt_Some _ _ _ Hl) as Hlt. rewrite (li_length _ _ Hi) in Hlt.
  rewrite Hbits, (li_bits _ _ Hi i l Hl), Z.lnot_spec by lia.
  replace (Z.shiftl 1 (n - 1) - 1) with (Z.ones (n - 1)) by (rewrite Z.ones_equiv, Z.shiftl_1_l; lia).
  rewrite Z.testbit_ones_nonneg, bool_decide_and by lia. rewrite andb_comm. f_equal.
  destruct (Z.ltb_spec (Z.of_nat i) (n - 1)); symmetry; [apply bool_decide_eq_false_2|apply bool_decide_eq_true_2]; lia.
Qed.

Lemma nonzero_bit v : 0 ≤ v < 2 ^ 64 → v ≠ 0 → ∃ j, 0 ≤ j < 64 ∧ Z.testbit v j = true.
Proof.
  intros Hv H0. exists (Z.log2 v). split; [|apply Z.bit_log2; lia].
  split; [apply Z.log2_nonneg|]. apply Z.log2_lt_pow2; lia.
Qed.

(** Taking the first offset of a list out of the container. *)
Lemma dequeue_block s ls (i : nat) off l : lists_inv s ls → ls !! i = Some (off :: l) →
  ∃ s', (block_offset ← on_list (Z.of_nat i) VECQ_DEQUEUE;
         n ← on_list (Z.of_nat i) (gets VECQ_SIZE);
         (if n =? 0
          then modify (λ s, sl_set_nonempty (sl_nonempty_lists s &&& u64 (Z.lnot (Z.shiftl 1 (Z.of_nat i)))) s)
          else mret tt);;
         cm ← gets sl_m;
         mret (MemoryBlock (chunk_id cm) (zone_id cm) (Z.of_nat i + 1) block_offset (mb_header_type cm) (mb_type cm))) s
      = (Ok (block_of (sl_m s) i off), s') ∧ sl_m s' = sl_m s ∧ lists_inv s' (<[i := l]> ls).
Proof.
  intros Hi El. pose proof (lookup_lt_Some _ _ _ El) as Hlt. rewrite (li_length _ _ Hi) in Hlt.
  destruct (queue_at s ls i Hi Hlt) as (q & l0 & Eq & El0 & Hql). simplify_eq.
  destruct (dequeue_run q off l Hql) as (q' & E & Hq' & _). pose proof (on_list_run s i q _ _ _ Eq E) as Eo.
  erewrite bind_ok by exact Eo. set (s1 := Seglists _ _ _ _).
  assert (sl_blocks s1 !! i = Some q') as Eq1.
  { unfold s1. simpl. rewrite <- lookupZ_nat. apply lookupZ_updZ_eq. apply lookup_lt_Some in Eq. lia. }
  pose proof (on_list_run s1 i q' (gets VECQ_SIZE) _ _ Eq1 eq_refl) as Eo1. erewrite bind_ok by exact Eo1.
  rewrite (size_length q' l Hq'). set (s2 := Seglists _ _ _ _).
  assert (s2 = s1) as ->. { unfold s2, s1. simpl. by rewrite updZ_updZ. }
  pose proof (li_range _ _ Hi) as Hr.
  destruct (clear_bits_u64 (sl_nonempty_lists s) (Z.lnot (Z.shiftl 1 (Z.of_nat i))) Hr) as [Hv Hbits].
  assert (∀ v, 0 ≤ v < 2 ^ 64 → (∀ j, 0 ≤ j < 64 → Z.testbit v j = if decide (j = Z.of_nat i)
    then bool_decide (l ≠ []) else Z.testbit (sl_nonempty_lists s) j) →
    lists_inv (sl_set_nonempty v s1) (<[i := l]> ls)) as Hup.
  { intros v Hv' Hb'. by apply lists_update. }
  destruct l as [|o l]; simpl Z.eqb; cbn iota.
  - do 2 (erewrite bind_ok by reflexivity). eexists. split; [reflexivity|]. split; [done|].
    apply Hup; [done|]. intros j Hj. rewrite Hbits, Z.lnot_spec, Z.shiftl_1_l by lia. case_decide.
    + subst j. rewrite Z.pow2_bits_true by lia. apply andb_false_r.
    + rewrite Z.pow2_bits_false by lia. apply andb_true_r.
  - do 2 (erewrite bind_ok by reflexivity). eexists. split; [reflexivity|]. split; [done|].
    assert (s1 = sl_set_nonempty (sl_nonempty_lists s) s1) as -> by done.
    apply Hup; [done|]. intros j Hj. case_decide; [subst j|done]. by apply (li_bits _ _ Hi i (off :: o :: l)).
Qed.

Lemma seglists_bestfit_ok s X n : seglists_holds s X → 0 < n ≤ 64 →
  (Forall (λ b, size_idx b < n) X ∧ container_seglists_get_rm_block_bestfit (request n) s = (Fail ENOMEM, s)) ∨
  ∃ b X' s', container_seglists_get_rm_block_bestfit (request n) s = (Ok b, s') ∧ X ≡ₚ b :: X' ∧
    best_fit n X b ∧ seglists_holds s' X'.
Proof.
  intros (ls & Hi & HX) Hn. destruct (applicable s ls n Hi Hn) as [Hv Hbits].
  unfold container_seglists_get_rm_block_bestfit, assert_sl. simpl size_idx.
  rewrite (proj2 (Z.leb_le n SEGLIST_BLOCK_LISTS)) by (unfold SEGLIST_BLOCK_LISTS; lia).
  erewrite bind_ok by reflexivity. rewrite (proj2 (Z.eqb_neq n 0)) by lia.
  erewrite bind_ok by reflexivity. cbv zeta. set (v := sl_nonempty_lists s &&& _) in *.
  assert (∀ (i : nat) l off, ls !! i = Some l → off ∈ l → n ≤ Z.of_nat i + 1 → Z.testbit v (Z.of_nat i) = true) as Htrue.
  { intros i l off Hl Ho Hle. rewrite (Hbits i l Hl). apply bool_decide_eq_true_2. split; [done|]. intros ->. by apply elem_of_nil in Ho. }
  assert (∀ b, b ∈ X → b ∈ blocks_of (sl_m s) ls) as Hin by (intros b; by rewrite HX).
  destruct (Z.eqb_spec v 0) as [H0|H0].
  - left. split; [|done]. apply Forall_forall. intros b Hb%list_elem_of_In. apply Hin, elem_of_blocks in Hb as (i & l & off & Hl & Ho & ->). simpl.
    destruct (decide (n ≤ Z.of_nat i + 1)) as [Hle|]; [|lia].
    pose proof (Htrue i l off Hl Ho Hle) as Ht. by rewrite H0, Z.bits_0 in Ht.
  - right. destruct (ctz_spec 64 0 v) as (Hj & Hbit & Hlow); [lia|by apply nonzero_bit|].
    unfold util_lssb_index64. set (j := ctz 64 0 v) in *. clearbody j.
    replace j with (Z.of_nat (Z.to_nat j)) in * by lia. set (i := Z.to_nat j) in *.
    destruct (lookup_lt_is_Some_2 ls i) as [l Hl]; [rewrite (li_length _ _ Hi); lia|].
    rewrite (Hbits i l Hl) in Hbit. apply bool_decide_eq_true in Hbit as [Hle Hne].
    destruct l as [|off l]; [done|]. destruct (dequeue_block s ls i off l Hi Hl) as (s' & E & Em & Hi').
    exists (block_of (sl_m s) i off), (blocks_of (sl_m s) (<[i := l]> ls)), s'.
    assert (X ≡ₚ block_of (sl_m s) i off :: blocks_of (sl_m s) (<[i := l]> ls)) as HX'.
    { by rewrite HX, (blocks_same _ ls i (off :: l)), (blocks_update _ ls i (off :: l) l) by done. }
    split_and!; [exact E|done| |by exists (<[i := l]> ls); rewrite Em].
    split_and!; [rewrite HX'; left|simpl; lia|]. intros c Hc. apply Hin, elem_of_blocks in Hc as (k & lk & o & Hk & Ho & ->). simpl. intros Hnk.
    destruct (decide (i ≤ k)%nat); [lia|]. pose proof (Htrue k lk o Hk Ho Hnk) as Ht.
    rewrite Hlow in Ht by lia. done.
Qed.

Lemma seglists_is_empty_ok s X : seglists_holds s X →
  container_seglists_is_empty s = (Ok (bool_decide (X = [])), s).
Proof.
  intros (ls & Hi & HX). unfold container_seglists_is_empty, gets. do 2 f_equal.
  destruct (Z.eqb_spec (sl_nonempty_lists s) 0) as [H0|H0].
  - rewrite (no_lists s ls Hi H0) in HX. apply Permutation_nil_r in HX as ->. done.
  - symmetry. apply bool_decide_eq_false_2. intros ->. apply Permutation_nil_l in HX.
    destruct (nonzero_bit _ (li_range _ _ Hi) H0) as (j & Hj & Hb).
    destruct (lookup_lt_is_Some_2 ls (Z.to_nat j)) as [l Hl]; [rewrite (li_length _ _ Hi); lia|].
    pose proof (li_bits _ _ Hi _ _ Hl) as Hbl. rewrite Z2Nat.id, Hb in Hbl by lia.
    symmetry in Hbl. apply bool_decide_eq_true in Hbl. destruct l as [|off l]; [done|].
    assert (block_of (sl_m s) (Z.to_nat j) off ∈ blocks_of (sl_m s) ls) as Hin.
    { apply elem_of_blocks. exists (Z.to_nat j), (off :: l), off. split_and!; [done|left|done]. }
    rewrite <- HX in Hin. by apply elem_of_nil in Hin.
Qed.

Lemma empty_lists_inv m qs o : length qs = 64%nat → Forall (λ q, vecq_inv q []) qs →
  lists_inv (Seglists m qs 0 o) (replicate 64 []).
Proof.
  intros Hl Hq. split; [done| |done|].
  - change (replicate 64 []) with (replicate 64 (@nil Z)). rewrite <- Hl. clear Hl.
    induction Hq; simpl; constructor; done.
  - intros i l [-> _]%lookup_replicate. simpl. rewrite Z.bits_0. done.
Qed.

Lemma blocks_replicate m n : blocks_of m (replicate n []) = [].
Proof.
  destruct (blocks_of m (replicate n [])) as [|b X] eqn:E; [done|].
  assert (b ∈ blocks_of m (replicate n [])) as (i & l & off & [-> _]%lookup_replicate & Ho & _)%elem_of_blocks by (rewrite E; left).
  by apply elem_of_nil in Ho.
Qed.

Lemma seglists_rm_all_ok s X : seglists_holds s X →
  ∃ s', container_seglists_rm_all s = (Ok tt, s') ∧ seglists_holds s' [].
Proof.
  intros (ls & Hi & _). eexists. split; [reflexivity|]. exists (replicate 64 []). split.
  - apply empty_lists_inv.
    + rewrite length_fmap, (Forall2_length (li_queues _ _ Hi)). apply Hi.
    + rewrite Forall_fmap. apply Forall_forall. intros q (i & Hq)%list_elem_of_In%list_elem_of_lookup. simpl.
      destruct (Forall2_lookup_l _ _ _ _ _ (li_queues _ _ Hi) Hq) as (l & _ & Hql).
      by destruct (clear_inv q l Hql).
  - by rewrite blocks_replicate.
Qed.

#[global] Instance seglists_holds_perm s : Proper ((≡ₚ) ==> iff) (seglists_holds s).
Proof.
  intros X X' HX. split; intros (ls & Hi & H); exists ls; (split; [done|]); [by rewrite <- HX|by rewrite HX].
Qed.

#[global] Instance seglists_container : BlockContainer container_seglists_ops.
Proof.
  refine {| holds := seglists_holds; can_insert := seglists_can_insert; max_request := 64 |}.
  - exact seglists_insert_ok.
  - exact seglists_bestfit_ok.
  - exact seglists_is_empty_ok.
  - exact seglists_rm_all_ok.
Defined.

Lemma new_seglists_holds m realloc s : container_new_seglists true m realloc = Some s → seglists_holds s [].
Proof.
  intros [= <-]. exists (replicate 64 []). split; [|by rewrite blocks_replicate].
  apply empty_lists_inv; [done|]. repeat (constructor; [apply init_inv|]). constructor.
Qed.
