(* ===== verification/ContainerRavl.v ===== *)
(** * Blocks in a search tree

    Models [libpmemobj/container_ravl.c]: the free blocks of a bucket in a tree ordered by size, then
    by address.  The tree holds pointers; the block a pointer stands for is written into the
    user data of the block itself, and the comparison reads it there.  [user_data] is the method
    [m_ops->get_user_data] of the blocks.  The block that a caller passes to a search is a variable
    of the caller, whose address is [ARG] here. *)

From stdpp Require Import base gmap list numbers sorting.
From S2P Require Import Prelude Memory Ravl RavlTree RavlRun RavlSearch RavlTheorems Container.
Local Open Scope Z_scope.

(** [blocks]: the [struct memory_block] stored at an address. *)
Record block_container_ravl : Type := ContainerRavl {
  cr_tree : ravl;
  cr_blocks : gmap Z memory_block
}.

Definition container_compare_memblocks (l r : memory_block) : Z :=
  let diff := size_idx l - size_idx r in
  if negb (diff =? 0) then if 0 <? diff then 1 else -1
  else
    let diff := zone_id l - zone_id r in
    if negb (diff =? 0) then if 0 <? diff then 1 else -1
    else
      let diff := chunk_id l - chunk_id r in
      if negb (diff =? 0) then if 0 <? diff then 1 else -1
      else
        let diff := block_off l - block_off r in
        if negb (diff =? 0) then if 0 <? diff then 1 else -1
        else 0.

Definition ARG : Z := -1.

(** What a pointer points to; the invariant below says that pointers in the tree point to a block. *)
Definition deref (blocks : gmap Z memory_block) (d : dref) : memory_block :=
  match d with
  | Ptr a => default (request 0) (blocks !! a)
  | Own _ => request 0
  end.
Definition compare_at (blocks : gmap Z memory_block) (a b : dref) : Z :=
  container_compare_memblocks (deref blocks a) (deref blocks b).

Local Abbreviation MC A := (M block_container_ravl A).

Definition on_tree {A} (f : M ravl A) : MC A := λ s,
  let '(r, t) := f (cr_tree s) in (r, ContainerRavl t (cr_blocks s)).

(** [ravl_find(c->tree, m, predicate)] *)
Definition find_block (m : memory_block) (predicate : Z) : MC Z :=
  blocks ← gets cr_blocks;
  on_tree (ravl_find (compare_at (<[ARG := m]> blocks)) (Ptr ARG) predicate).

Section container.
Context (user_data : memory_block → Z).

Definition container_ravl_insert_block (m : memory_block) : MC unit :=
  let e := user_data m in
  modify (λ s, ContainerRavl (cr_tree s) (<[e := m]> (cr_blocks s)));;
  blocks ← gets cr_blocks;
  on_tree (ravl_insert (compare_at blocks) e).

Definition container_ravl_get_rm_block_bestfit (m : memory_block) : MC memory_block :=
  n ← find_block m RAVL_PREDICATE_GREATER_EQUAL;
  if n =? 0 then fail ENOMEM
  else
    e ← on_tree (node_data n);
    m ← gets (λ s, deref (cr_blocks s) e);
    on_tree (ravl_remove n);;
    mret m.

Definition container_ravl_get_rm_block_exact (m : memory_block) : MC unit :=
  n ← find_block m RAVL_PREDICATE_EQUAL;
  if n =? 0 then fail ENOMEM else on_tree (ravl_remove n).

Definition container_ravl_get_block_exact (m : memory_block) : MC unit :=
  n ← find_block m RAVL_PREDICATE_EQUAL;
  if n =? 0 then fail ENOMEM else mret tt.

Definition container_ravl_is_empty : MC bool := on_tree ravl_empty.
Definition container_ravl_rm_all : MC unit := on_tree ravl_clear.
Definition container_ravl_destroy : MC unit := on_tree ravl_delete.

Definition container_ravl_ops : block_container_ops block_container_ravl :=
  BlockContainerOps container_ravl_insert_block (Some container_ravl_get_rm_block_exact)
    container_ravl_get_rm_block_bestfit (Some container_ravl_get_block_exact)
    container_ravl_is_empty container_ravl_rm_all container_ravl_destroy.

(** [malloc]: which of the calls of [Malloc] fail; the first one is for the container itself. *)
Definition container_new_ravl (malloc : list bool) (blocks : gmap Z memory_block)
    : option block_container_ravl :=
  match malloc with
  | false :: _ => None
  | _ => match ravl_new (tail malloc) with
         | Some t => Some (ContainerRavl t blocks)
         | None => None
         end
  end.
End container.

(** ** The order of blocks *)

Ltac compare_cases :=
  repeat match goal with
  | |- context [negb (?x =? ?y)] => destruct (Z.eqb_spec x y); cbn [negb]
  | |- context [if ?x <? ?y then _ else _] => destruct (Z.ltb_spec x y)
  | H : context [negb (?x =? ?y)] |- _ => destruct (Z.eqb_spec x y); cbn [negb] in H
  | H : context [if ?x <? ?y then _ else _] |- _ => destruct (Z.ltb_spec x y)
  end.

(** The result is the sign of the first difference. *)
Definition lex_le (l r : memory_block) : Prop :=
  size_idx l < size_idx r ∨ (size_idx l = size_idx r ∧
  (zone_id l < zone_id r ∨ (zone_id l = zone_id r ∧
  (chunk_id l < chunk_id r ∨ (chunk_id l = chunk_id r ∧ block_off l ≤ block_off r))))).

Lemma compare_le l r : container_compare_memblocks l r ≤ 0 ↔ lex_le l r.
Proof. unfold container_compare_memblocks, lex_le. cbv zeta. compare_cases; lia. Qed.

Lemma compare_sign l r : container_compare_memblocks l r < 0 ↔ 0 < container_compare_memblocks r l.
Proof. unfold container_compare_memblocks. cbv zeta. compare_cases; lia. Qed.

#[global] Instance compare_at_ok blocks : CompareOk (compare_at blocks).
Proof.
  split; unfold compare_at.
  - intros a b. apply compare_sign.
  - intros a b c. rewrite !compare_le. unfold lex_le. lia.
Qed.

(** ** Lemmas on trees *)

Lemma inv_compare_ext cmp cmp' pb r t : (∀ k1 k2, k1 ∈ keys t → k2 ∈ keys t → cmp k1 k2 = cmp' k1 k2) →
  ravl_inv cmp pb r t → ravl_inv cmp' pb r t.
Proof.
  intros He [Hf Hs Hr Hd Hb]. split; try done. rewrite sorted_keys in Hs |- *.
  change ((entries t).*2) with (keys t) in *. revert He Hs. generalize (keys t). clear.
  induction l as [|k ks IH]; intros He Hs; [constructor|]. apply StronglySorted_inv in Hs as [Hs Hk].
  constructor.
  - apply IH; [|done]. intros k1 k2 H1 H2. apply He; by right.
  - apply Forall_forall. intros k' Hk'. rewrite Forall_forall in Hk. unfold lt in *.
    rewrite <- He; [by apply Hk|by left|by right].
Qed.

Lemma entry_data h par t p k : tree_at h par t → (p, k) ∈ entries t →
  p ≠ 0 ∧ ∃ n, h !! p = Some n ∧ ravl_data n = k.
Proof.
  revert par. induction t as [|q rk x l IHl rt IHr]; simpl; intros par Ht Hin; [by apply elem_of_nil in Hin|].
  destruct Ht as (Hq & Hq0 & Hl & Hr).
  apply elem_of_app in Hin as [Hin|[[= -> ->]|Hin]%elem_of_cons]; [by eapply IHl| |by eapply IHr].
  split; [done|]. eexists. split; [exact Hq|]. by destruct x as [[] ?].
Qed.

Lemma data_entry h par t p n : tree_at h par t → p ∈ tdom t → h !! p = Some n → (p, ravl_data n) ∈ entries t.
Proof.
  revert par. induction t as [|q rk x l IHl rt IHr]; simpl; intros par Ht Hin Hn; [set_solver|].
  destruct Ht as (Hq & Hq0 & Hl & Hr). rewrite elem_of_app, elem_of_cons.
  rewrite !elem_of_union, elem_of_singleton in Hin. destruct Hin as [[->|Hin]|Hin]; [|left; by eapply IHl|].
  - right. left. rewrite Hq in Hn. injection Hn as <-. by destruct x as [[] ?].
  - right. right. by eapply IHr.
Qed.

Section lists.
Context (cmp : dref → dref → Z) `{!CompareOk cmp}.

Lemma ins_perm k ks : ins cmp k ks ≡ₚ k :: ks.
Proof using. clear CompareOk0.
  induction ks as [|e ks IH]; simpl; [done|]. case_match; [done|]. rewrite IH. apply Permutation_swap.
Qed.

Lemma del_perm k ks : StronglySorted (lt cmp) ks → k ∈ ks → ks ≡ₚ k :: del cmp k ks.
Proof.
  intros Hs Hk. apply list_elem_of_split in Hk as (ks1 & ks2 & ->).
  pose proof (ssorted_app cmp _ _ _ Hs) as (_ & H1 & H2). rewrite del_between by done.
  symmetry. apply Permutation_middle.
Qed.

Lemma found_ge k es : sorted cmp es →
  (found cmp RAVL_PREDICATE_GREATER_EQUAL k es = 0 ∧ ∀ e, e ∈ es → 0 < cmp k e.2) ∨
  ∃ e, e ∈ es ∧ found cmp RAVL_PREDICATE_GREATER_EQUAL k es = e.1 ∧ cmp k e.2 ≤ 0 ∧
    ∀ e', e' ∈ es → cmp k e'.2 ≤ 0 → cmp e.2 e'.2 ≤ 0.
Proof.
  intros Hs. unfold found. destruct (filter (λ e, cmp k e.2 = 0) es) as [|e l] eqn:E.
  - assert (∀ e, e ∈ es → cmp k e.2 ≠ 0) as Hne.
    { intros e He H0. assert (e ∈ filter (λ e, cmp k e.2 = 0) es) as H by (by apply list_elem_of_filter).
      rewrite E in H. by apply elem_of_nil in H. }
    unfold neighbour. change (has_flag _ RAVL_PREDICATE_GREATER) with true. cbv iota.
    clear E. induction es as [|e es IH]; [left; split; [done|by intros ? ?%elem_of_nil]|].
    apply sorted_cons in Hs as [Hs Hlt]. rewrite filter_cons. case_decide as Hd.
    + right. exists e. split_and!; [by left|done|lia|]. intros e' [->|He']%elem_of_cons _; [by rewrite cmp_refl|].
      pose proof (Hlt e' He'). unfold elt, lt in *. lia.
    + destruct IH as [[-> H]|(e1 & He1 & -> & H1 & H2)]; [done|intros; apply Hne; by right| |].
      * left. split; [done|]. intros e' [->|He']%elem_of_cons; [|by apply H]. pose proof (Hne e ltac:(by left)). lia.
      * right. exists e1. split_and!; [by right|done|done|]. intros e' [->|He']%elem_of_cons Hk; [|by apply H2].
        pose proof (Hne e ltac:(by left)). lia.
  - right. exists e. assert (e ∈ filter (λ e, cmp k e.2 = 0) es) as [H0 He]%list_elem_of_filter by (rewrite E; left).
    split_and!; [done|done|lia|]. intros e' _ Hk. apply (cmp_trans e.2 k e'.2); [|done].
    pose proof (cmp_antisym k e.2). pose proof (cmp_antisym e.2 k). lia.
Qed.

Lemma found_eq k es :
  (found cmp RAVL_PREDICATE_EQUAL k es = 0 ∧ ∀ e, e ∈ es → cmp k e.2 ≠ 0) ∨
  ∃ e, e ∈ es ∧ found cmp RAVL_PREDICATE_EQUAL k es = e.1 ∧ cmp k e.2 = 0.
Proof using. clear CompareOk0.
  unfold found. destruct (filter (λ e, cmp k e.2 = 0) es) as [|e l] eqn:E.
  - left. split; [done|]. intros e He H0.
    assert (e ∈ filter (λ e, cmp k e.2 = 0) es) as H by (by apply list_elem_of_filter).
    rewrite E in H. by apply elem_of_nil in H.
  - right. exists e. assert (e ∈ filter (λ e, cmp k e.2 = 0) es) as [H0 He]%list_elem_of_filter by (rewrite E; left).
    done.
Qed.
End lists.

(** ** The blocks in the container *)

Section spec.
Context (user_data : memory_block → Z).

(** The pointer [k] is to the user data of a block, which is stored there. *)
Definition points (blocks : gmap Z memory_block) (k : dref) : Prop :=
  ∃ b, k = Ptr (user_data b) ∧ blocks !! user_data b = Some b ∧ user_data b ≠ ARG.

Record container_tree (s : block_container_ravl) (t : tree) : Prop := {
  ct_inv : ravl_inv (compare_at (cr_blocks s)) true (cr_tree s) t;
  ct_size : r_data_size (cr_tree s) = 8;
  ct_points : Forall (points (cr_blocks s)) (keys t)
}.

Definition ravl_holds (s : block_container_ravl) (X : list memory_block) : Prop :=
  ∃ t, container_tree s t ∧ X ≡ₚ (deref (cr_blocks s) <$> keys t).

Definition root_rank (r : ravl) : Z :=
  match r_heap r !! r_root r with Some n => rank n | None => -1 end.

(** When a block may be inserted: its user data is not that of another block of the tree. *)
Record ravl_can_insert (s : block_container_ravl) (m : memory_block) : Prop := {
  rci_addr : 0 ≤ user_data m < 2 ^ 64;
  rci_apart p n : r_heap (cr_tree s) !! p = Some n → ravl_data n = Ptr (user_data m) →
    cr_blocks s !! user_data m = Some m;
  rci_rank : root_rank (cr_tree s) < 2 ^ 31 - 1
}.

#[global] Instance ravl_holds_perm s : Proper ((≡ₚ) ==> iff) (ravl_holds s).
Proof.
  intros X X' HX. split; intros (t & Ht & H); exists t; (split; [done|]); [by rewrite <- HX|by rewrite HX].
Qed.

Lemma on_tree_run {A} (f : M ravl A) s r t' : f (cr_tree s) = (r, t') →
  on_tree f s = (r, ContainerRavl t' (cr_blocks s)).
Proof. intros E. unfold on_tree. by rewrite E. Qed.

Lemma points_addr blocks k : points blocks k → k ≠ Ptr ARG.
Proof. intros (b & -> & _ & Hb) [=]. done. Qed.

(** A store that leaves the blocks of the tree alone. *)
Lemma store_apart s t a m : container_tree s t →
  (Ptr a ∈ keys t → cr_blocks s !! a = Some m) →
  ravl_inv (compare_at (<[a := m]> (cr_blocks s))) true (cr_tree s) t ∧
  (∀ k, k ∈ keys t → deref (<[a := m]> (cr_blocks s)) k = deref (cr_blocks s) k) ∧
  (a ≠ ARG → Forall (points (<[a := m]> (cr_blocks s))) (keys t)).
Proof.
  intros [Hi _ Hp] Ha. rewrite Forall_forall in Hp.
  assert (∀ k, k ∈ keys t → deref (<[a := m]> (cr_blocks s)) k = deref (cr_blocks s) k) as Hd.
  { intros k Hk. destruct (Hp k Hk) as (b & -> & Hb & _). simpl. destruct (decide (user_data b = a)) as [E|].
    - rewrite E in *. by rewrite lookup_insert_eq, (Ha Hk).
    - by rewrite lookup_insert_ne. }
  split_and!; [|done|].
  - apply (inv_compare_ext (compare_at (cr_blocks s))); [|done]. intros k1 k2 H1 H2.
    unfold compare_at. by rewrite !Hd.
  - intros Harg. apply Forall_forall. intros k Hk. destruct (Hp k Hk) as (b & -> & Hb & Hne).
    exists b. split_and!; [done| |done]. destruct (decide (user_data b = a)) as [E|].
    + rewrite E in *. rewrite lookup_insert_eq. rewrite (Ha Hk) in Hb. done.
    + by rewrite lookup_insert_ne.
Qed.

Lemma find_block_run s t m flags : container_tree s t → flags ∈ predicates →
  let cmp := compare_at (<[ARG := m]> (cr_blocks s)) in
  find_block m flags s = (Ok (found cmp flags (Ptr ARG) (entries t)), s) ∧ sorted cmp (entries t) ∧
  (∀ k, k ∈ keys t → cmp (Ptr ARG) k = container_compare_memblocks m (deref (cr_blocks s) k)) ∧
  ∀ k k', k ∈ keys t → k' ∈ keys t →
    cmp k k' = container_compare_memblocks (deref (cr_blocks s) k) (deref (cr_blocks s) k').
Proof.
  intros Ht Hfl cmp. destruct (store_apart s t ARG m Ht) as (Hi & Hd & _).
  { intros Hk. pose proof (ct_points _ _ Ht) as Hp. rewrite Forall_forall in Hp. by apply Hp, points_addr in Hk. }
  split_and!.
  - unfold find_block. erewrite bind_ok by reflexivity.
    pose proof (find_spec _ true (cr_tree s) t (Ptr ARG) flags Hi Hfl) as E.
    rewrite (on_tree_run _ _ _ _ E). by destruct s.
  - apply Hi.
  - intros k Hk. unfold cmp, compare_at. rewrite (Hd k) by done. simpl. by rewrite lookup_insert_eq.
  - intros k k' Hk Hk'. unfold cmp, compare_at. by rewrite !Hd.
Qed.

(** Removing the node of a pointer takes its block out. *)
Lemma remove_block s t p k : container_tree s t → (p, k) ∈ entries t →
  ∃ s' t', on_tree (ravl_remove p) s = (Ok tt, s') ∧ container_tree s' t' ∧ cr_blocks s' = cr_blocks s ∧
    keys t ≡ₚ k :: keys t'.
Proof.
  intros [Hi Hs Hp] Hin. destruct (remove_spec _ true _ _ _ _ Hi Hin) as (r' & t' & E & Hi' & Hsm & Hk').
  eexists _, t'. split; [by apply on_tree_run|].
  assert (keys t ≡ₚ k :: keys t') as Hperm.
  { rewrite Hk'. apply del_perm; [apply _|apply sorted_keys, Hi|]. apply list_elem_of_fmap. by exists (p, k). }
  split_and!; [|done|done]. destruct Hsm as (Hds & _). split; simpl; [done|by rewrite Hds|].
  rewrite Hperm in Hp. by apply Forall_cons in Hp as [_ Hp].
Qed.

(** [get_rm_bestfit] for any request: the smallest block, in the order of sizes and then of
    addresses, that is not smaller than the request. *)
Lemma ravl_bestfit_lowest s X m : ravl_holds s X →
  (Forall (λ b, ¬ lex_le m b) X ∧ container_ravl_get_rm_block_bestfit m s = (Fail ENOMEM, s)) ∨
  ∃ b X' s', container_ravl_get_rm_block_bestfit m s = (Ok b, s') ∧ X ≡ₚ b :: X' ∧ lex_le m b ∧
    (∀ c, c ∈ X → lex_le m c → lex_le b c) ∧ ravl_holds s' X'.
Proof.
  intros (t & Ht & HX). assert (∀ c, c ∈ X → ∃ k, k ∈ keys t ∧ c = deref (cr_blocks s) k) as HXk.
  { intros c Hc. rewrite HX in Hc. apply list_elem_of_In, in_map_iff in Hc as (k & <- & Hk).
    exists k. split; [by apply list_elem_of_In|done]. }
  destruct (find_block_run s t m RAVL_PREDICATE_GREATER_EQUAL Ht ltac:(set_solver)) as (E & Hs & Hc & Hcc).
  unfold container_ravl_get_rm_block_bestfit. erewrite bind_ok by exact E.
  set (cmp := compare_at _) in *. destruct (found_ge cmp (Ptr ARG) (entries t) Hs) as [[-> Hall]|(e & He & -> & Hle & Hmin)].
  - left. split; [|done]. apply Forall_forall. intros c Hcx. apply HXk in Hcx as (k & Hk & ->).
    rewrite <- compare_le, <- Hc by done. apply list_elem_of_fmap in Hk as (e & -> & He). pose proof (Hall e He). lia.
  - right. assert (e.2 ∈ keys t) as Hek by (apply list_elem_of_fmap; eauto).
    destruct e as [p k]. simpl in *. pose proof (ct_inv _ _ Ht) as Hi.
    destruct (entry_data _ _ _ p k (fo_tree _ _ _ _ (ri_focus _ _ _ _ Hi)) He) as (Hp0 & n & Hn & Hdn).
    rewrite (proj2 (Z.eqb_neq p 0) Hp0).
    erewrite (bind_ok (on_tree (node_data p)) _ s k s).
    2: { unfold on_tree, node_data. erewrite bind_ok by (by apply node_get_run). rewrite Hdn. by destruct s. }
    erewrite bind_ok by reflexivity. destruct (remove_block s t p k Ht He) as (s' & t' & Er & Ht' & Eb & Hperm).
    erewrite bind_ok by exact Er.
    exists (deref (cr_blocks s) k), (deref (cr_blocks s) <$> keys t'), s'. split_and!.
    + done.
    + by rewrite HX, Hperm.
    + by rewrite <- compare_le, <- Hc.
    + intros c Hcx. apply HXk in Hcx as (k' & Hk' & ->). rewrite <- !compare_le, <- Hc by done. intros Hlek.
      rewrite <- Hcc by done. apply list_elem_of_fmap in Hk' as (e' & -> & He'). by apply (Hmin e').
    + exists t'. by rewrite Eb.
Qed.

Lemma ravl_bestfit_ok s X n : ravl_holds s X → Forall block_range X → 0 < n →
  (Forall (λ b, size_idx b < n) X ∧ container_ravl_get_rm_block_bestfit (request n) s = (Fail ENOMEM, s)) ∨
  ∃ b X' s', container_ravl_get_rm_block_bestfit (request n) s = (Ok b, s') ∧ X ≡ₚ b :: X' ∧
    best_fit n X b ∧ ravl_holds s' X'.
Proof.
  intros Hh Hr Hn. rewrite Forall_forall in Hr.
  assert (∀ c, c ∈ X → lex_le (request n) c ↔ n ≤ size_idx c) as Hle.
  { intros c Hc. destruct (Hr c Hc). unfold lex_le. simpl. lia. }
  destruct (ravl_bestfit_lowest s X (request n) Hh) as [[HF E]|(b & X' & s' & E & HX & Hb & Hmin & Hh')].
  - left. split; [|done]. rewrite Forall_forall in HF |- *. intros c Hc. pose proof (HF c Hc) as H.
    rewrite Hle in H by done. lia.
  - right. exists b, X', s'. assert (b ∈ X) as Hin by (rewrite HX; left).
    split_and!; [done|done| |done]. split_and!; [done|by apply Hle|].
    intros c Hc Hnc. apply Hle in Hnc; [|done]. pose proof (Hmin c Hc Hnc) as H. unfold lex_le in H. lia.
Qed.

(** [get_rm_exact] takes out the block with the size and the position of the argument. *)
Lemma ravl_exact_ok s X m : ravl_holds s X →
  (Forall (λ b, container_compare_memblocks m b ≠ 0) X ∧
     container_ravl_get_rm_block_exact m s = (Fail ENOMEM, s) ∧
     container_ravl_get_block_exact m s = (Fail ENOMEM, s)) ∨
  ∃ b X' s', container_ravl_get_rm_block_exact m s = (Ok tt, s') ∧
    container_ravl_get_block_exact m s = (Ok tt, s) ∧ X ≡ₚ b :: X' ∧
    container_compare_memblocks m b = 0 ∧ ravl_holds s' X'.
Proof.
  intros (t & Ht & HX).
  destruct (find_block_run s t m RAVL_PREDICATE_EQUAL Ht ltac:(set_solver)) as (E & Hs & Hc & _).
  unfold container_ravl_get_rm_block_exact, container_ravl_get_block_exact.
  erewrite !bind_ok by exact E. set (cmp := compare_at _) in *.
  destruct (found_eq cmp (Ptr ARG) (entries t)) as [[-> Hall]|([p k] & He & -> & H0)].
  - left. split_and!; [|done|done]. rewrite HX, Forall_fmap. apply Forall_forall. intros k Hk.
    simpl. rewrite <- Hc by done. apply list_elem_of_fmap in Hk as (e & -> & He). by apply Hall.
  - right. pose proof (ct_inv _ _ Ht) as Hi. simpl in *.
    destruct (entry_data _ _ _ p k (fo_tree _ _ _ _ (ri_focus _ _ _ _ Hi)) He) as (Hp0 & _).
    rewrite (proj2 (Z.eqb_neq p 0) Hp0). destruct (remove_block s t p k Ht He) as (s' & t' & Er & Ht' & Eb & Hperm).
    exists (deref (cr_blocks s) k), (deref (cr_blocks s) <$> keys t'), s'.
    split_and!; [done|done|by rewrite HX, Hperm| |exists t'; by rewrite Eb].
    rewrite <- Hc; [done|]. apply list_elem_of_fmap. by exists (p, k).
Qed.

Lemma root_rank_tree cmp pb r t : ravl_inv cmp pb r t → root_rank r = trank t.
Proof.
  intros [Hf _ _ _ _]. unfold root_rank. rewrite (fo_root _ _ _ _ Hf). simpl.
  pose proof (fo_tree _ _ _ _ Hf) as Ht. destruct t as [|p rk x l rt]; simpl in *.
  - assert (r_heap r !! 0 = None) as ->; [|done]. apply not_elem_of_dom. rewrite (fo_dom _ _ _ _ Hf). simpl. set_solver.
  - destruct Ht as [-> _]. done.
Qed.

Lemma ravl_insert_ok s X m : ravl_holds s X → ravl_can_insert s m →
  ∃ r s', container_ravl_insert_block user_data m s = (r, s') ∧
    ((r = Ok tt ∧ ravl_holds s' (m :: X)) ∨ ((∃ e, r = Fail e) ∧ ravl_holds s' X)).
Proof.
  intros (t & Ht & HX) [Ha Hap Hr]. unfold container_ravl_insert_block. set (e := user_data m) in *.
  destruct (store_apart s t e m Ht) as (Hi & Hd & Hp).
  { intros Hk. pose proof (ct_inv _ _ Ht) as Hi. pose proof (fo_tree _ _ _ _ (ri_focus _ _ _ _ Hi)) as Hat.
    apply list_elem_of_fmap in Hk as ([p k] & Ek & Hin). simpl in Ek. subst k.
    destruct (entry_data _ _ _ p _ Hat Hin) as (_ & n & Hn & Hdn). by apply (Hap p n). }
  do 2 (erewrite bind_ok by reflexivity). simpl cr_blocks. set (bs := <[e := m]> (cr_blocks s)) in *.
  pose proof (ct_size _ _ Ht) as Hsz. rewrite (root_rank_tree _ _ _ _ Hi) in Hr.
  destruct (emplace_spec (compare_at bs) ravl_node_insert_constructor (cr_tree s) t e [] (le_bytes 8 e ++ zeros 0) Hi)
    as (r' & t' & E & Hi' & Hsz' & _ & Hk & _ & _); [lia|by rewrite Hsz|done|].
  assert (key_of (constr_pointer ravl_node_insert_constructor, le_bytes 8 e ++ zeros 0) = Ptr e) as Hkey.
  { unfold key_of. simpl fst. cbv iota. change (zeros 0) with (@nil Z). rewrite app_nil_r. f_equal.
    unfold snd. rewrite take_ge by (rewrite length_le_bytes; lia).
    rewrite le_of_le_bytes. change (256 ^ Z.of_nat 8) with (2 ^ 64). apply Z.mod_small. lia. }
  rewrite Hkey in *. set (res := emplace_result _ _ _ _) in *.
  eexists res, _. split; [by apply on_tree_run|].
  assert (e ≠ ARG) as Harg by (unfold ARG; lia).
  assert (X ≡ₚ (deref bs <$> keys t)) as HX'.
  { rewrite HX. rewrite (list_fmap_ext (deref (cr_blocks s)) (deref bs) (keys t)); [done|].
    intros i k Hik. symmetry. apply Hd. by eapply list_elem_of_lookup_2. }
  assert ((∃ err, res = Fail err) ∨ res = Ok tt) as [[err Eres]|Eres].
  { unfold res, emplace_result. repeat case_match; eauto. }
  - right. split; [eauto|]. rewrite Eres in Hk. exists t'. rewrite Hk. split; [|done].
    split; simpl; [done|congruence|]. rewrite Hk. by apply Hp.
  - left. split; [done|]. rewrite Eres in Hk. exists t'. split.
    + split; simpl; [done|congruence|]. rewrite Hk, ins_perm. constructor; [|by apply Hp].
      exists m. split_and!; [done|apply lookup_insert_eq|done].
    + rewrite Hk, ins_perm, HX'. simpl. unfold bs at 2. by rewrite lookup_insert_eq.
Qed.

Lemma ravl_is_empty_ok s X : ravl_holds s X → container_ravl_is_empty s = (Ok (bool_decide (X = [])), s).
Proof.
  intros (t & Ht & HX). unfold container_ravl_is_empty.
  rewrite (on_tree_run ravl_empty s (Ok (r_root (cr_tree s) =? 0)) (cr_tree s) eq_refl).
  replace (r_root (cr_tree s) =? 0) with (bool_decide (X = [])); [by destruct s|].
  pose proof (ct_inv _ _ Ht) as [Hf _ _ _ _]. rewrite (fo_root _ _ _ _ Hf). simpl.
  destruct t as [|p rk x l rt]; simpl in *.
  - apply Permutation_nil_r in HX as ->. done.
  - pose proof (fo_tree _ _ _ _ Hf) as (_ & H0 & _). rewrite (proj2 (Z.eqb_neq p 0) H0).
    apply bool_decide_eq_false_2. intros ->. apply Permutation_length in HX.
    unfold keys in HX. simpl in HX. rewrite !length_fmap, length_app in HX. simpl in HX. lia.
Qed.

Lemma ravl_rm_all_ok s X : ravl_holds s X → ∃ s', container_ravl_rm_all s = (Ok tt, s') ∧ ravl_holds s' [].
Proof.
  intros (t & [Hi Hs _] & _). destruct (clear_spec _ true _ _ Hi) as (r' & E & Hi' & (Hds & _) & _).
  eexists. split; [by apply on_tree_run|]. exists Leaf. split; [|done].
  split; simpl; [done|congruence|constructor].
Qed.

Lemma new_ravl_holds malloc blocks s : container_new_ravl malloc blocks = Some s → ravl_holds s [].
Proof.
  unfold container_new_ravl. intros H.
  destruct (ravl_new (tail malloc)) as [t|] eqn:E; [|by repeat case_match].
  assert (s = ContainerRavl t blocks) as -> by (repeat case_match; congruence).
  exists Leaf. split; [|done]. destruct (new_spec (compare_at blocks) _ _ _ E true) as (Hi & Hs & _).
  split; simpl; [done|done|constructor].
Qed.

(** The container holds blocks with 32-bit fields. *)
Definition ravl_container_holds (s : block_container_ravl) (X : list memory_block) : Prop :=
  ravl_holds s X ∧ Forall block_range X.
Definition ravl_container_can_insert (s : block_container_ravl) (m : memory_block) : Prop :=
  ravl_can_insert s m ∧ block_range m.

#[global] Instance ravl_container_holds_perm s : Proper ((≡ₚ) ==> iff) (ravl_container_holds s).
Proof. intros X X' HX. unfold ravl_container_holds. by rewrite HX. Qed.

#[global] Instance ravl_container : BlockContainer (container_ravl_ops user_data).
Proof.
  refine {| holds := ravl_container_holds; can_insert := ravl_container_can_insert; max_request := 2 ^ 32 - 1 |}.
  - intros s X m [Hh Hr] [Hc Hm]. destruct (ravl_insert_ok s X m Hh Hc) as (r & s' & E & [[-> H]|[He H]]).
    + exists (Ok tt), s'. split; [done|]. left. split; [done|]. split; [done|by constructor].
    + exists r, s'. split; [done|]. right. done.
  - intros s X n [Hh Hr] Hn. destruct (ravl_bestfit_ok s X n Hh Hr) as [H|(b & X' & s' & E & HX & Hb & H)]; [lia|by left|].
    right. exists b, X', s'. split_and!; [done|done|done|]. split; [done|]. rewrite HX in Hr. by apply Forall_cons in Hr as [_ Hr].
  - intros s X [Hh _]. by apply ravl_is_empty_ok.
  - intros s X [Hh _]. destruct (ravl_rm_all_ok s X Hh) as (s' & E & H). exists s'. by split_and!.
Defined.
End spec.
