(* ===== verification/Bucket.v ===== *)
(** * Buckets

    Models [libpmemobj/bucket.c] over any container, and states what the two containers promise to the
    heap.  The theorems on sequences of operations are proved against the interface
    [BlockContainer]; both implementations discharge it. *)

From stdpp Require Import base gmap list numbers sorting.
From S2P Require Import Prelude Memory Ravl RavlTree RavlRun RavlSearch RavlTheorems Vecq Container ContainerSeglists ContainerRavl.
Local Open Scope Z_scope.

(** ** [bucket.c] *)

(** [enum alloc_class_type] of [alloc_class.h]. *)
Inductive alloc_class_type : Type := CLASS_UNKNOWN | CLASS_HUGE | CLASS_RUN.

#[global] Instance alloc_class_type_eq_dec : EqDecision alloc_class_type.
Proof. solve_decision. Defined.

Record memory_block_reserved : Type := MemoryBlockReserved { mr_m : memory_block; mr_nresv : Z }.

Record bucket (S : Type) : Type := Bucket {
  bk_aclass : option alloc_class_type;
  bk_container : S;
  bk_c_ops : block_container_ops S;
  bk_active_memory_block : option memory_block_reserved;
  bk_is_active : bool
}.
Arguments Bucket {S}.
Arguments bk_aclass {S}.
Arguments bk_container {S}.
Arguments bk_c_ops {S}.
Arguments bk_active_memory_block {S}.
Arguments bk_is_active {S}.

(** [CALC_SIZE_IDX] of [bucket.h]. *)
Definition CALC_SIZE_IDX (unit_size size : Z) : Z :=
  if size =? 0 then 0 else u32 ((size - 1) / unit_size + 1).

Section bucket.
Context {S : Type}.

(** [c]: the container with its methods, [None] for [NULL].  [malloc] and [zalloc] say whether the two
    allocations succeed. *)
Definition bucket_new (c : option (S * block_container_ops S)) (aclass : option alloc_class_type)
    (malloc zalloc : bool) : option (bucket S) :=
  match c with
  | None => None
  | Some (c, c_ops) =>
      if negb malloc then None
      else if decide (aclass = Some CLASS_RUN) then
        if negb zalloc then None
        else Some (Bucket aclass c c_ops (Some (MemoryBlockReserved (request 0) 0)) false)
      else Some (Bucket aclass c c_ops None false)
  end.

Definition on_container {A} (f : block_container_ops S → M S A) : M (bucket S) A := λ b,
  let '(r, c) := f (bk_c_ops b) (bk_container b) in
  (r, Bucket (bk_aclass b) c (bk_c_ops b) (bk_active_memory_block b) (bk_is_active b)).

Definition bucket_insert_block (m : memory_block) : M (bucket S) unit :=
  on_container (λ ops, bc_insert ops m).

(** The bucket is freed after the call. *)
Definition bucket_delete : M (bucket S) unit := on_container bc_destroy.

(** The counter the result points to, [None] for [NULL]. *)
Definition bucket_current_resvp (b : bucket S) : option Z := mr_nresv <$> bk_active_memory_block b.

(** ** Sequences of operations *)

(** What a heap does to a bucket: insert a block, take a best fit for a number of units, empty it. *)
Inductive bucket_op : Type := BInsert (m : memory_block) | BTake (n : Z) | BClear.

(** The blocks that went in, the blocks that came out, and what was thrown away. *)
Inductive bucket_ev : Type :=
| Accepted (m : memory_block)
| HandedOut (n : Z) (m : memory_block)
| Refused
| NoFit (n : Z)
| Emptied.

#[global] Instance bucket_ev_eq_dec : EqDecision bucket_ev.
Proof. solve_decision. Defined.

Definition bucket_do (op : bucket_op) : M (bucket S) bucket_ev := λ b,
  match op with
  | BInsert m =>
      match bucket_insert_block m b with
      | (Ok _, b') => (Ok (Accepted m), b')
      | (Fail _, b') => (Ok Refused, b')
      | (Undef, b') => (Undef, b')
      end
  | BTake n =>
      match on_container (λ ops, bc_get_rm_bestfit ops (request n)) b with
      | (Ok m, b') => (Ok (HandedOut n m), b')
      | (Fail _, b') => (Ok (NoFit n), b')
      | (Undef, b') => (Undef, b')
      end
  | BClear =>
      match on_container bc_rm_all b with
      | (Ok _, b') => (Ok Emptied, b')
      | (Fail e, b') => (Fail e, b')
      | (Undef, b') => (Undef, b')
      end
  end.

Fixpoint bucket_run (ops : list bucket_op) : M (bucket S) (list bucket_ev) :=
  match ops with
  | [] => mret []
  | op :: ops => ev ← bucket_do op; evs ← bucket_run ops; mret (ev :: evs)
  end.

(** The abstract bucket: a collection of blocks. *)
Inductive bucket_spec : list memory_block → bucket_op → bucket_ev → list memory_block → Prop :=
| spec_in X m : bucket_spec X (BInsert m) (Accepted m) (m :: X)
| spec_refused X m : bucket_spec X (BInsert m) Refused X
| spec_out X X' n b : X ≡ₚ b :: X' → best_fit n X b → bucket_spec X (BTake n) (HandedOut n b) X'
| spec_nofit X n : Forall (λ b, size_idx b < n) X → bucket_spec X (BTake n) (NoFit n) X
| spec_clear X : bucket_spec X BClear Emptied [].

Inductive bucket_specs : list memory_block → list bucket_op → list bucket_ev → list memory_block → Prop :=
| specs_nil X : bucket_specs X [] [] X
| specs_cons X op ev X1 ops evs X2 : bucket_spec X op ev X1 → bucket_specs X1 ops evs X2 →
    bucket_specs X (op :: ops) (ev :: evs) X2.

Context (ops : block_container_ops S) `{!BlockContainer ops}.

Definition bucket_holds (b : bucket S) (X : list memory_block) : Prop :=
  bk_c_ops b = ops ∧ holds (bk_container b) X.

(** The conditions of the container are met whenever an operation starts. *)
Definition op_allowed (b : bucket S) (op : bucket_op) : Prop :=
  match op with
  | BInsert m => can_insert (bk_container b) m
  | BTake n => 0 < n ≤ max_request
  | BClear => True
  end.
Fixpoint run_allowed (b : bucket S) (l : list bucket_op) : Prop :=
  match l with
  | [] => True
  | op :: l => op_allowed b op ∧ run_allowed (bucket_do op b).2 l
  end.

Lemma on_container_run {A} (f : block_container_ops S → M S A) b r c : bk_c_ops b = ops →
  f ops (bk_container b) = (r, c) →
  on_container f b = (r, Bucket (bk_aclass b) c ops (bk_active_memory_block b) (bk_is_active b)).
Proof. intros E H. unfold on_container. by rewrite E, H. Qed.

Lemma bucket_step b X op : bucket_holds b X → op_allowed b op →
  ∃ ev b' X', bucket_do op b = (Ok ev, b') ∧ bucket_spec X op ev X' ∧ bucket_holds b' X'.
Proof.
  intros [E Hh] Ha. destruct op as [m|n|]; simpl in *.
  - destruct (insert_ok _ _ m Hh Ha) as (r & c & H & [[-> H']|[[e ->] H']]);
      unfold bucket_insert_block; rewrite (on_container_run (λ ops, bc_insert ops m) _ _ _ E H);
      (eexists _, _, _; split; [done|]); split; [constructor|done|constructor|done].
  - destruct (bestfit_ok _ _ n Hh Ha) as [[HF H]|(m & X' & c & H & HX & Hb & H')];
      rewrite (on_container_run (λ ops, bc_get_rm_bestfit ops (request n)) _ _ _ E H).
    + eexists _, _, X. split; [done|]. split; [by constructor|done].
    + eexists _, _, X'. split; [done|]. split; [by constructor|done].
  - destruct (rm_all_ok _ _ Hh) as (c & H & H'). rewrite (on_container_run bc_rm_all _ _ _ E H).
    eexists _, _, []. split; [done|]. split; [constructor|done].
Qed.

Lemma bucket_steps l : ∀ b X, bucket_holds b X → run_allowed b l →
  ∃ evs b' X', bucket_run l b = (Ok evs, b') ∧ bucket_specs X l evs X' ∧ bucket_holds b' X'.
Proof.
  induction l as [|op l IH]; intros b X Hb Ha; simpl in *; [by exists [], b, X; split_and!; [|constructor|]|].
  destruct Ha as [Ha Hr]. destruct (bucket_step b X op Hb Ha) as (ev & b1 & X1 & E & Hs & Hb1).
  rewrite E in Hr. destruct (IH b1 X1 Hb1 Hr) as (evs & b2 & X2 & E2 & Hs2 & Hb2).
  exists (ev :: evs), b2, X2. split_and!; [|by econstructor|done].
  erewrite bind_ok by exact E. by erewrite bind_ok by exact E2.
Qed.
End bucket.

(** ** No block is lost or handed out twice *)

Definition ins_of (evs : list bucket_ev) : list memory_block :=
  omap (λ ev, match ev with Accepted m => Some m | _ => None end) evs.
Definition outs_of (evs : list bucket_ev) : list memory_block :=
  omap (λ ev, match ev with HandedOut _ m => Some m | _ => None end) evs.

Lemma specs_conserve X l evs X' : bucket_specs X l evs X' → Emptied ∉ evs →
  X ++ ins_of evs ≡ₚ outs_of evs ++ X'.
Proof.
  induction 1 as [X|X op ev X1 l evs X2 H1 H2 IH]; intros He; simpl; [by rewrite app_nil_r|].
  apply not_elem_of_cons in He as [Hne He]. specialize (IH He).
  destruct H1; simpl in *; [|done| |done|done].
  - rewrite <- IH. rewrite <- Permutation_middle. done.
  - rewrite H, <- IH. done.
Qed.

(** C38: buckets conserve blocks.  In every sequence of insertions and requests in which each call meets the condition of the
    container, on either container, every call returns, and the blocks that were handed out together with those that
    are left are those that were there with those that were accepted, each as often: none is
    lost, none handed out twice.  Each one handed out is one of the smallest that fit.  The conditions ([run_allowed]): a request is for at least one unit and at most what the container can be asked for (64 units for segregated
    lists); no other block of the tree is at the address of one put into it, and the rank of its root is below 2^31 - 1; a block put into segregated lists has 1 to 64 units and is of the same run as those that are there, and when the queue for its size is full its front is at a multiple of twice
    the capacity.  A queue that is full elsewhere is grown by [vecq_grow] with a loss of blocks, see [seglists_growth_loses]; that case is left out. *)
Theorem bucket_conserves {S} (ops : block_container_ops S) `{!BlockContainer ops} b X l :
  bucket_holds ops b X → run_allowed ops b l →
  ∃ evs b' X', bucket_run l b = (Ok evs, b') ∧ bucket_specs X l evs X' ∧ bucket_holds ops b' X' ∧
    (Emptied ∉ evs → X ++ ins_of evs ≡ₚ outs_of evs ++ X').
Proof.
  intros Hb Ha. destruct (bucket_steps ops l b X Hb Ha) as (evs & b' & X' & E & Hs & Hb').
  exists evs, b', X'. split_and!; [done..|]. intros He. by apply (specs_conserve X l).
Qed.

(** the two containers are interchangeable for a request: holding the same blocks, either
    both have none that is large enough, or both hand out one of the same size. *)
Theorem containers_agree {S1 S2} (ops1 : block_container_ops S1) (ops2 : block_container_ops S2)
    `{!BlockContainer ops1} `{!BlockContainer ops2} s1 s2 X1 X2 n :
  holds s1 X1 → holds s2 X2 → X1 ≡ₚ X2 →
  0 < n → n ≤ max_request (ops := ops1) → n ≤ max_request (ops := ops2) →
  match (bc_get_rm_bestfit ops1 (request n) s1).1, (bc_get_rm_bestfit ops2 (request n) s2).1 with
  | Ok b1, Ok b2 => size_idx b1 = size_idx b2
  | Fail e1, Fail e2 => e1 = e2
  | _, _ => False
  end.
Proof.
  intros H1 H2 HX Hn Hn1 Hn2.
  destruct (bestfit_ok _ _ n H1 ltac:(lia)) as [[HF1 ->]|(b1 & Y1 & t1 & -> & _ & Hb1 & _)];
  destruct (bestfit_ok _ _ n H2 ltac:(lia)) as [[HF2 ->]|(b2 & Y2 & t2 & -> & _ & Hb2 & _)]; simpl.
  - done.
  - destruct Hb2 as (Hin & Hle & _). rewrite <- HX in Hin. rewrite Forall_forall in HF1.
    pose proof (HF1 b2 Hin). lia.
  - destruct Hb1 as (Hin & Hle & _). rewrite HX in Hin. rewrite Forall_forall in HF2.
    pose proof (HF2 b1 Hin). lia.
  - by apply (best_fit_size n X1 X2).
Qed.

(** the container of huge blocks hands out, of the blocks that are not smaller than the request in the
    order of sizes and then of positions, the first: a best fit at the lowest address. *)
Theorem container_ravl_lowest user_data s X m : ravl_holds user_data s X →
  (Forall (λ b, ¬ lex_le m b) X ∧ container_ravl_get_rm_block_bestfit m s = (Fail ENOMEM, s)) ∨
  ∃ b X' s', container_ravl_get_rm_block_bestfit m s = (Ok b, s') ∧ X ≡ₚ b :: X' ∧ lex_le m b ∧
    (∀ c, c ∈ X → lex_le m c → lex_le b c) ∧ ravl_holds user_data s' X'.
Proof. apply ravl_bestfit_lowest. Qed.

(** ** Concrete buckets *)

(** A block of a run in chunk 5. *)
Definition run_block (size off : Z) : memory_block := MemoryBlock 5 0 size off HEADER_COMPACT MEMORY_BLOCK_RUN.

Definition ex_seglists : block_container_seglists :=
  Seglists (request 0) (replicate 64 VECQ_INIT) 0 [].
Definition ex_bucket : bucket block_container_seglists :=
  Bucket (Some CLASS_RUN) ex_seglists container_seglists_ops (Some (MemoryBlockReserved (request 0) 0)) false.

Lemma ex_bucket_new :
  bucket_new ((λ c, (c, container_seglists_ops)) <$> container_new_seglists true (request 0) [])
    (Some CLASS_RUN) true true = Some ex_bucket.
Proof. reflexivity. Qed.

Lemma ex_seglists_holds : seglists_holds ex_seglists [].
Proof. by apply (new_seglists_holds (request 0) []). Qed.

Definition ex_bucket_ops : list bucket_op :=
  [BInsert (run_block 2 10); BInsert (run_block 7 20); BTake 3; BTake 1; BTake 1].

Lemma bucket_conserves_witness : ∃ b' X',
  bucket_run ex_bucket_ops ex_bucket =
    (Ok [Accepted (run_block 2 10); Accepted (run_block 7 20); HandedOut 3 (run_block 7 20);
         HandedOut 1 (run_block 2 10); NoFit 1], b') ∧
  [] ++ [run_block 2 10; run_block 7 20] ≡ₚ [run_block 7 20; run_block 2 10] ++ X'.
Proof.
  destruct (bucket_conserves container_seglists_ops ex_bucket [] ex_bucket_ops) as (evs & b' & X' & E & _ & _ & H).
  - split; [reflexivity|exact ex_seglists_holds].
  - split; [apply seglists_can_insertb_ok; vm_compute; reflexivity|].
    split; [apply seglists_can_insertb_ok; vm_compute; reflexivity|].
    split; [split; vm_compute; congruence|]. split; [split; vm_compute; congruence|].
    split; [split; vm_compute; congruence|exact I].
  - exists b', X'.
    assert ((bucket_run ex_bucket_ops ex_bucket).1 =
      Ok [Accepted (run_block 2 10); Accepted (run_block 7 20); HandedOut 3 (run_block 7 20);
         HandedOut 1 (run_block 2 10); NoFit 1]) as Er by (vm_compute; reflexivity).
    rewrite E in Er. injection Er as ->. split; [exact E|]. apply H.
    apply (bool_decide_unpack _). vm_compute. exact I.
Defined.

(** Blocks of 3 and 5 units: in a run ... *)
Definition ex_lists : block_container_seglists :=
  (container_seglists_insert_block (run_block 5 8) (container_seglists_insert_block (run_block 3 4) ex_seglists).2).2.
(** ... and in a tree, given the user data of blocks. *)
Definition ex_tree0 : block_container_ravl := ContainerRavl (Ravl 0 8 ∅ 1 []) ∅.
Definition ex_tree (ud : memory_block → Z) (b1 b2 : memory_block) : block_container_ravl :=
  (container_ravl_insert_block ud b2 (container_ravl_insert_block ud b1 ex_tree0).2).2.

Definition huge_user_data : memory_block → Z := block_get_user_data (huge_get_real_data 4096).
Definition ex_huge (size chunk : Z) : memory_block := MemoryBlock chunk 0 size 0 HEADER_NONE MEMORY_BLOCK_HUGE.
(** A run of units of 64 bytes at 2^20. *)
Definition run_user_data (m : memory_block) : Z := 2 ^ 20 + 64 * block_off m.

(** A successful insertion into a container that holds [X]. *)
Lemma inserted {S} (ops : block_container_ops S) `{!BlockContainer ops} s X m :
  holds s X → can_insert s m → (bc_insert ops m s).1 = Ok tt → holds (bc_insert ops m s).2 (m :: X).
Proof.
  intros Hh Hc E. destruct (insert_ok s X m Hh Hc) as (r & s' & E' & [[-> H]|[[e ->] _]]); rewrite E' in *; done.
Qed.

Lemma ex_lists_holds : seglists_holds ex_lists [run_block 5 8; run_block 3 4].
Proof.
  refine (inserted container_seglists_ops
    (container_seglists_insert_block (run_block 3 4) ex_seglists).2 [run_block 3 4] (run_block 5 8) _ _ _);
    [|apply seglists_can_insertb_ok; vm_compute; reflexivity|vm_compute; reflexivity].
  refine (inserted container_seglists_ops ex_seglists [] (run_block 3 4) _ _ _);
    [exact ex_seglists_holds|apply seglists_can_insertb_ok; vm_compute; reflexivity|vm_compute; reflexivity].
Qed.

Lemma ex_tree_holds ud b1 b2 : block_range b1 → block_range b2 → 0 ≤ ud b1 < 2 ^ 64 → 0 ≤ ud b2 < 2 ^ 64 →
  ud b1 ≠ ud b2 → (container_ravl_insert_block ud b1 ex_tree0).1 = Ok tt →
  (container_ravl_insert_block ud b2 (container_ravl_insert_block ud b1 ex_tree0).2).1 = Ok tt →
  r_root (cr_tree (container_ravl_insert_block ud b1 ex_tree0).2) = 1 →
  r_heap (cr_tree (container_ravl_insert_block ud b1 ex_tree0).2) =
    {[1 := RavlNode 0 0 0 0 true (le_bytes 8 (ud b1))]} →
  ravl_container_holds ud (ex_tree ud b1 b2) [b2; b1].
Proof.
  intros Hr1 Hr2 Hu1 Hu2 Hne E1 E2 Hroot Hh.
  refine (inserted (container_ravl_ops ud) (container_ravl_insert_block ud b1 ex_tree0).2 [b1] b2 _ _ E2); [|split; [|done]].
  - refine (inserted (container_ravl_ops ud) ex_tree0 [] b1 _ _ E1).
    + split; [by apply (new_ravl_holds ud [] ∅)|constructor].
    + split; [|done]. split; [done|intros p n H; cbn in H; by rewrite lookup_empty in H|done].
  - split; [done| |unfold root_rank; by rewrite Hh, Hroot, lookup_singleton_eq].
    intros p n H Hd. rewrite Hh in H. apply lookup_singleton_Some in H as [_ <-].
    assert (∀ a b, Ptr a = Ptr b → a = b) as Hinj by (intros a b [=]; done). apply Hinj in Hd. cbn [data] in Hd.
    rewrite take_ge in Hd by (rewrite length_le_bytes; lia). rewrite le_of_le_bytes in Hd.
    change (256 ^ Z.of_nat 8) with (2 ^ 64) in Hd. rewrite Z.mod_small in Hd by lia. done.
Qed.

Ltac ex_tree_ok := apply ex_tree_holds;
  [split; simpl; lia|split; simpl; lia|vm_compute; split; congruence|vm_compute; split; congruence
  |vm_compute; congruence|vm_compute; reflexivity..].

Lemma ex_huge_tree_holds : ravl_container_holds huge_user_data
  (ex_tree huge_user_data (ex_huge 3 4) (ex_huge 3 2)) [ex_huge 3 2; ex_huge 3 4].
Proof. ex_tree_ok. Qed.

Lemma ex_run_tree_holds : ravl_container_holds run_user_data
  (ex_tree run_user_data (run_block 3 4) (run_block 5 8)) [run_block 5 8; run_block 3 4].
Proof. ex_tree_ok. Qed.

(** Of two blocks of 3 chunks the one at the lower address serves a request for 2. *)
Lemma container_ravl_lowest_witness : ∃ s', container_ravl_get_rm_block_bestfit (request 2)
  (ex_tree huge_user_data (ex_huge 3 4) (ex_huge 3 2)) = (Ok (ex_huge 3 2), s').
Proof.
  destruct (container_ravl_lowest huge_user_data _ _ (request 2) (proj1 ex_huge_tree_holds))
    as [[HF _]|(b & X' & s' & E & _)].
  - exfalso. inversion HF as [|? ? Hb _]. apply Hb. left. simpl. lia.
  - exists s'. assert ((container_ravl_get_rm_block_bestfit (request 2)
      (ex_tree huge_user_data (ex_huge 3 4) (ex_huge 3 2))).1 = Ok (ex_huge 3 2)) as Er by (vm_compute; reflexivity).
    rewrite E in Er. injection Er as ->. exact E.
Defined.

Lemma containers_agree_witness :
  match (container_seglists_get_rm_block_bestfit (request 4) ex_lists).1,
        (container_ravl_get_rm_block_bestfit (request 4) (ex_tree run_user_data (run_block 3 4) (run_block 5 8))).1 with
  | Ok b1, Ok b2 => size_idx b1 = size_idx b2
  | Fail e1, Fail e2 => e1 = e2
  | _, _ => False
  end.
Proof.
  exact (containers_agree container_seglists_ops (container_ravl_ops run_user_data) ex_lists
    (ex_tree run_user_data (run_block 3 4) (run_block 5 8)) _ _ 4 ex_lists_holds ex_run_tree_holds
    (Permutation_refl _) ltac:(lia) ltac:(simpl; lia) ltac:(simpl; lia)).
Defined.

Lemma fst_inv {A B} (x : A * B) a : x.1 = a → ∃ b, x = (a, b).
Proof. destruct x as [y b]. simpl. intros ->. by exists b. Qed.

(** ** A list that has been used loses blocks when it grows *)

(** 64 blocks of one unit are put in and one is taken, which leaves the queue rotated; two more
    are put in, and the second makes it grow. *)
Definition grow_rotated : list bucket_op :=
  ((λ i, BInsert (run_block 1 (Z.of_nat i))) <$> seq 0 64) ++
  [BTake 1; BInsert (run_block 1 64); BInsert (run_block 1 65)].

(** [vecq_grow] loses blocks.  The bucket above accepts 66 blocks and hands out one.  Of the 65 that are
    left, 63 more can be taken; the next request reads a cell of the reallocated buffer that was
    never written and would hand out whatever offset is there, while block 64 is gone. *)
Theorem seglists_growth_loses : ∃ evs b',
  bucket_run grow_rotated ex_bucket = (Ok evs, b') ∧ length (ins_of evs) = 66%nat ∧ length (outs_of evs) = 1%nat ∧
  (∃ b'', bucket_run (replicate 63 (BTake 1)) b' =
     (Ok ((λ i, HandedOut 1 (run_block 1 (Z.of_nat i))) <$> seq 1 63), b'')) ∧
  (bucket_run (replicate 64 (BTake 1)) b').1 = Undef.
Proof.
  assert ((bucket_run grow_rotated ex_bucket).1 =
    Ok (((λ i, Accepted (run_block 1 (Z.of_nat i))) <$> seq 0 64) ++
        [HandedOut 1 (run_block 1 0); Accepted (run_block 1 64); Accepted (run_block 1 65)])) as E1
    by (vm_compute; reflexivity).
  assert ((bucket_run (replicate 63 (BTake 1)) (bucket_run grow_rotated ex_bucket).2).1 =
    Ok ((λ i, HandedOut 1 (run_block 1 (Z.of_nat i))) <$> seq 1 63)) as E2 by (vm_compute; reflexivity).
  assert ((bucket_run (replicate 64 (BTake 1)) (bucket_run grow_rotated ex_bucket).2).1 = Undef) as E3
    by (vm_compute; reflexivity).
  apply fst_inv in E1 as [b' E1]. rewrite E1 in E2, E3. cbn [snd] in E2, E3.
  eexists _, b'. split; [exact E1|]. split; [reflexivity|]. split; [reflexivity|]. split; [|exact E3].
  by apply fst_inv.
Qed.
