(* ===== verification/Cuckoo.v ===== *)
(** * libpmemobj: the cuckoo hash table

    Models [libpmemobj/cuckoo.c], the table that maps the identifiers of pools to per-thread data.  A
    slot is empty when its value is [NULL] (0 here).  [ce_alloc] has the outcomes of the next
    allocations; when it is exhausted an allocation fails. *)

From stdpp Require Import base gmap list numbers.
From S2P Require Import Prelude.
Local Open Scope Z_scope.

Definition INITIAL_SIZE : Z := 8.
Definition MAX_INSERTS : nat := 8.
Definition MAX_GROWS : nat := 32.
Definition EAGAIN : Z := 11.

Record cuckoo_slot : Type := CuckooSlot { sl_key : Z; sl_value : Z }.
Record cuckoo : Type := Cuckoo { ck_size : Z; ck_tab : list cuckoo_slot }.
Record cuckoo_env : Type := CuckooEnv { ce_table : cuckoo; ce_alloc : list bool }.

Definition null_slot : cuckoo_slot := CuckooSlot 0 0.

(** ** Hash functions *)

Definition hash_mod (c : cuckoo) (key : Z) : Z := key mod ck_size c.

Definition hash_mixer (c : cuckoo) (key : Z) : Z :=
  let key := Z.lxor key (Z.shiftr key 33) in
  let key := u64 (key * 0xff51afd7ed558ccd) in
  let key := Z.lxor key (Z.shiftr key 33) in
  let key := u64 (key * 0xc4ceb9fe1a85ec53) in
  let key := Z.lxor key (Z.shiftr key 33) in
  key mod ck_size c.

(** ** Growth in single precision *)

(** The significand of [x], rounded to 24 bits, to nearest and ties to even. *)
Definition round24 (x : Z) : Z :=
  let s := Z.log2 x - 23 in
  if s <=? 0 then x
  else
    let q := Z.shiftr x s in
    let r := x - Z.shiftl q s in
    let half := Z.shiftl 1 (s - 1) in
    Z.shiftl (if (half <? r) || ((r =? half) && Z.odd q) then q + 1 else q) s.

(** [(size_t)((float)size * GROWTH_FACTOR)]: the [float] next to 1.2 is 10066330 / 2^23. *)
Definition GROWTH_FACTOR : Z := 10066330.
Definition grown_size (size : Z) : Z := Z.shiftr (round24 (round24 size * GROWTH_FACTOR)) 23.

(** ** Operations *)

Local Abbreviation MC A := (M cuckoo A).

Definition slot_at (h : Z) : MC cuckoo_slot := λ c,
  match lookupZ (ck_tab c) h with Some s => (Ok s, c) | None => (Undef, c) end.
Definition set_slot (h : Z) (s : cuckoo_slot) : MC unit := λ c,
  match lookupZ (ck_tab c) h with
  | Some _ => (Ok tt, Cuckoo (ck_size c) (updZ (ck_tab c) h s))
  | None => (Undef, c)
  end.

(** [INITIAL_SIZE] slots, unless one of the two allocations fails. *)
Definition cuckoo_new (malloc zalloc : bool) : option cuckoo :=
  if negb malloc then None
  else if negb zalloc then None
  else Some (Cuckoo INITIAL_SIZE (repeat null_slot (Z.to_nat INITIAL_SIZE))).

(** The error code and what [src] holds at the end. *)
Fixpoint insert_loop (n : nat) (src : cuckoo_slot) : MC (Z * cuckoo_slot) :=
  match n with
  | O => mret (EAGAIN, src)
  | S n =>
      h0 ← gets (λ c, hash_mod c (sl_key src));
      s0 ← slot_at h0;
      if sl_value s0 =? 0 then set_slot h0 src;; mret (0, src)
      else if sl_key s0 =? sl_key src then mret (EINVAL, src)
      else
        h1 ← gets (λ c, hash_mixer c (sl_key src));
        s1 ← slot_at h1;
        if sl_value s1 =? 0 then set_slot h1 src;; mret (0, src)
        else if sl_key s1 =? sl_key src then mret (EINVAL, src)
        else
          set_slot h0 src;;
          insert_loop n s0
  end.
Definition cuckoo_insert_try (src : cuckoo_slot) : MC (Z * cuckoo_slot) := insert_loop MAX_INSERTS src.

(** Whether all of the old table could be inserted. *)
Fixpoint rehash (oldtab : list cuckoo_slot) : MC bool :=
  match oldtab with
  | [] => mret true
  | s :: oldtab =>
      if sl_value s =? 0 then rehash oldtab
      else
        x ← cuckoo_insert_try s;
        if x.1 =? 0 then rehash oldtab else mret false
  end.

Definition on_table {A} (f : MC A) : M cuckoo_env A := λ e,
  let '(r, c) := f (ce_table e) in (r, CuckooEnv c (ce_alloc e)).
Definition zalloc_ok : M cuckoo_env bool := λ e,
  match ce_alloc e with
  | b :: l => (Ok b, CuckooEnv (ce_table e) l)
  | [] => (Ok false, e)
  end.

Fixpoint grow_loop (n : nat) (oldsize : Z) (oldtab : list cuckoo_slot) : M cuckoo_env Z :=
  match n with
  | O => on_table (modify (λ _, Cuckoo oldsize oldtab));; mret EINVAL
  | S n =>
      size ← on_table (gets ck_size);
      let nsize := grown_size size in
      ok ← zalloc_ok;
      if negb ok then on_table (modify (λ c, Cuckoo (ck_size c) oldtab));; mret ENOMEM
      else
        on_table (modify (λ _, Cuckoo nsize (repeat null_slot (Z.to_nat nsize))));;
        all ← on_table (rehash oldtab);
        if (all : bool) then mret 0 else grow_loop n oldsize oldtab
  end.
Definition cuckoo_grow : M cuckoo_env Z :=
  c ← on_table (gets id); grow_loop MAX_GROWS (ck_size c) (ck_tab c).

Fixpoint cuckoo_insert_loop (n : nat) (src : cuckoo_slot) : M cuckoo_env Z :=
  match n with
  | O => mret EINVAL
  | S n =>
      x ← on_table (cuckoo_insert_try src);
      if negb (x.1 =? EAGAIN) then mret x.1
      else
        err ← cuckoo_grow;
        if negb (err =? 0) then mret err else cuckoo_insert_loop n x.2
  end.
Definition cuckoo_insert (key value : Z) : M cuckoo_env Z := cuckoo_insert_loop MAX_GROWS (CuckooSlot key value).

(** The index of the slot, [None] for [NULL]. *)
Definition cuckoo_find_slot (key : Z) : MC (option Z) :=
  h0 ← gets (λ c, hash_mod c key);
  s0 ← slot_at h0;
  if sl_key s0 =? key then mret (Some h0)
  else
    h1 ← gets (λ c, hash_mixer c key);
    s1 ← slot_at h1;
    if sl_key s1 =? key then mret (Some h1) else mret None.

Definition cuckoo_remove (key : Z) : MC Z :=
  h ← cuckoo_find_slot key;
  match h with
  | None => mret 0
  | Some h => s ← slot_at h; set_slot h null_slot;; mret (sl_value s)
  end.

Definition cuckoo_get (key : Z) : MC Z :=
  h ← cuckoo_find_slot key;
  match h with None => mret 0 | Some h => s ← slot_at h; mret (sl_value s) end.

Definition cuckoo_get_size : MC Z := gets ck_size.

(** The table is freed. *)
Definition cuckoo_delete : MC unit := modify (λ _, Cuckoo 0 []).
