(* ===== verification/CuckooTheorems.v ===== *)
(** * libpmemobj: the cuckoo hash table is a map

    A table in order represents a finite map; the operations act on the map.  An insertion that gives
    up has dropped one of the entries. *)

From stdpp Require Import base gmap list numbers.
From S2P Require Import Prelude Cuckoo.
Local Open Scope Z_scope.

(** ** The map a table represents *)

Record tab_rep (n : Z) (tab : list cuckoo_slot) (m : gmap Z Z) : Prop := {
  tr_len : Z.of_nat (length tab) = n;
  tr_pos : 0 < n;
  tr_place i s : lookupZ tab i = Some s → sl_value s ≠ 0 →
    i = hash_mod (Cuckoo n []) (sl_key s) ∨ i = hash_mixer (Cuckoo n []) (sl_key s);
  tr_empty i s : lookupZ tab i = Some s → sl_value s = 0 → s = null_slot;
  tr_unique i j s s' : lookupZ tab i = Some s → lookupZ tab j = Some s' → sl_value s ≠ 0 → sl_value s' ≠ 0 →
    sl_key s = sl_key s' → i = j;
  tr_map k v : m !! k = Some v ↔ ∃ i, lookupZ tab i = Some (CuckooSlot k v) ∧ v ≠ 0
}.
Abbreviation rep c m := (tab_rep (ck_size c) (ck_tab c) m).

Lemma hash_ranges c k : 0 < ck_size c → 0 ≤ hash_mod c k < ck_size c ∧ 0 ≤ hash_mixer c k < ck_size c.
Proof. intros H. split; apply Z.mod_pos_bound; lia. Qed.

Lemma lookup_range tab i (s : cuckoo_slot) : lookupZ tab i = Some s → 0 ≤ i < Z.of_nat (length tab).
Proof. apply lookupZ_Some. Qed.

(** A new table. *)
Lemma rep_new n : 0 < n → tab_rep n (repeat null_slot (Z.to_nat n)) ∅.
Proof.
  intros Hn. assert (∀ i s, lookupZ (repeat null_slot (Z.to_nat n)) i = Some s → s = null_slot) as H0.
  { intros i s H. unfold lookupZ in H. case_decide; [|done]. apply list_elem_of_lookup_2 in H.
    apply list_elem_of_In in H. by apply repeat_spec in H. }
  split.
  - rewrite repeat_length. lia.
  - done.
  - intros i s H Hv. apply H0 in H as ->. done.
  - intros i s H _. by apply H0 in H.
  - intros i j s s' H _ Hv. apply H0 in H as ->. done.
  - intros k v. rewrite lookup_empty. split; [done|]. intros (i & H & Hv). apply H0 in H. by injection H as -> ->.
Qed.

(** Emptying a slot removes its entry. *)
Lemma rep_drop n tab m i s : tab_rep n tab m → lookupZ tab i = Some s →
  tab_rep n (updZ tab i null_slot) (if sl_value s =? 0 then m else delete (sl_key s) m).
Proof.
  intros [Hl Hp Hpl He Hu Hm] Hi. split.
  - by rewrite length_updZ.
  - done.
  - intros j s' [[-> ->]|[_ H]]%lookupZ_updZ Hv; [done|by apply (Hpl j)].
  - intros j s' [[-> ->]|[_ H]]%lookupZ_updZ Hv; [done|by apply (He j)].
  - intros j k s1 s2 [[-> ->]|[_ H1]]%lookupZ_updZ [[-> ->]|[_ H2]]%lookupZ_updZ; try done. by apply Hu.
  - intros k v. destruct (Z.eqb_spec (sl_value s) 0) as [Hz|Hz].
    + rewrite Hm. split; intros (j & Hj & Hv); exists j.
      * rewrite lookupZ_updZ_ne; [done|]. intros ->. rewrite Hi in Hj. injection Hj as ->. done.
      * apply lookupZ_updZ in Hj as [[-> Hj]|[_ Hj]]; [|done]. by injection Hj as -> ->.
    + rewrite lookup_delete_Some, Hm. split.
      * intros [Hk (j & Hj & Hv)]. exists j. split; [|done]. rewrite lookupZ_updZ_ne; [done|].
        intros ->. rewrite Hi in Hj. injection Hj as ->. done.
      * intros (j & Hj & Hv). apply lookupZ_updZ in Hj as [[-> Hj]|[Hne Hj]]; [by injection Hj as -> ->|].
        split; [|eauto]. intros Hk. apply Hne. by apply (Hu i j s (CuckooSlot k v)).
Qed.

(** Filling an empty slot adds an entry. *)
Lemma rep_put n tab m i k v : tab_rep n tab m → lookupZ tab i = Some null_slot → m !! k = None → v ≠ 0 →
  i = hash_mod (Cuckoo n []) k ∨ i = hash_mixer (Cuckoo n []) k →
  tab_rep n (updZ tab i (CuckooSlot k v)) (<[k := v]> m).
Proof.
  intros [Hl Hp Hpl He Hu Hm] Hi Hk Hv Hh. pose proof (lookup_range _ _ _ Hi) as Hr.
  assert (∀ j s, lookupZ tab j = Some s → sl_value s ≠ 0 → sl_key s ≠ k) as Hfresh.
  { intros j [k' v'] Hj Hv' Hkk. simpl in *. subst k'. assert (m !! k = Some v') by (apply Hm; eauto). congruence. }
  split.
  - by rewrite length_updZ.
  - done.
  - intros j s' [[-> ->]|[_ H]]%lookupZ_updZ Hv'; [done|by apply (Hpl j)].
  - intros j s' [[-> ->]|[_ H]]%lookupZ_updZ Hv'; [done|by apply (He j)].
  - intros j1 j2 s1 s2 [[-> ->]|[_ H1]]%lookupZ_updZ [[<- ->]|[_ H2]]%lookupZ_updZ Hv1 Hv2 E; simpl in *; try done.
    + by apply (Hfresh _ _ H2) in Hv2.
    + by apply (Hfresh _ _ H1) in Hv1.
    + by apply (Hu j1 j2 s1 s2).
  - intros k' v'. rewrite lookup_insert_Some, Hm. split.
    + intros [[-> ->]|[Hne (j & Hj & Hv')]].
      * exists i. by rewrite lookupZ_updZ_eq.
      * exists j. split; [|done]. rewrite lookupZ_updZ_ne; [done|]. intros ->. rewrite Hi in Hj. by injection Hj as <- <-.
    + intros (j & [[-> Hj]|[Hne Hj]]%lookupZ_updZ & Hv').
      * injection Hj as -> ->. by left.
      * right. split; [|eauto]. intros ->. by apply (Hfresh _ _ Hj).
Qed.

(** ** Inserting into a table *)

Lemma slot_run c m h : rep c m → 0 ≤ h < ck_size c → ∃ s, lookupZ (ck_tab c) h = Some s ∧ slot_at h c = (Ok s, c).
Proof.
  intros Hr Hh. destruct (lookupZ_is_Some (ck_tab c) h) as [s Hs]; [by rewrite (tr_len _ _ _ Hr)|].
  exists s. split; [done|]. unfold slot_at. by rewrite Hs.
Qed.

Lemma set_run c h s s0 : lookupZ (ck_tab c) h = Some s0 → set_slot h s c = (Ok tt, Cuckoo (ck_size c) (updZ (ck_tab c) h s)).
Proof. intros H. unfold set_slot. by rewrite H. Qed.

(** A slot of the new key is empty or holds another key. *)
Lemma other_key c m h s k : rep c m → lookupZ (ck_tab c) h = Some s → m !! k = None → sl_value s ≠ 0 → sl_key s ≠ k.
Proof.
  intros Hr Hs Hk Hv <-. assert (m !! sl_key s = Some (sl_value s)) as E; [|congruence].
  apply (tr_map _ _ _ Hr). exists h. by destruct s.
Qed.

(** What is left to be inserted: [src] into a table that represents [m], together [m0]. *)
Record pending (m0 : gmap Z Z) (c : cuckoo) (m : gmap Z Z) (src : cuckoo_slot) : Prop := {
  pd_rep : rep c m;
  pd_fresh : m !! sl_key src = None;
  pd_value : sl_value src ≠ 0;
  pd_all : <[sl_key src := sl_value src]> m = m0
}.

Lemma pending_put m0 c m src h : pending m0 c m src → lookupZ (ck_tab c) h = Some null_slot →
  h = hash_mod c (sl_key src) ∨ h = hash_mixer c (sl_key src) →
  rep (Cuckoo (ck_size c) (updZ (ck_tab c) h src)) m0.
Proof.
  intros [Hr Hf Hv <-] Hh Hp. destruct src as [k v]. by apply rep_put.
Qed.

(** The occupant of the slot is taken out and comes next. *)
Lemma pending_swap m0 c m src s : pending m0 c m src → lookupZ (ck_tab c) (hash_mod c (sl_key src)) = Some s → sl_value s ≠ 0 →
  ∃ m', pending m0 (Cuckoo (ck_size c) (updZ (ck_tab c) (hash_mod c (sl_key src)) src)) m' s.
Proof.
  intros [Hr Hf Hv <-] Hs Hvs. set (h := hash_mod c (sl_key src)) in *.
  pose proof (other_key c m h s _ Hr Hs Hf Hvs) as Hne.
  pose proof (rep_drop _ _ _ _ _ Hr Hs) as Hd. rewrite (proj2 (Z.eqb_neq _ _) Hvs) in Hd.
  pose proof (lookup_range _ _ _ Hs) as Hrg.
  assert (m !! sl_key s = Some (sl_value s)) as Em by (apply (tr_map _ _ _ Hr); exists h; by destruct s).
  exists (<[sl_key src := sl_value src]> (delete (sl_key s) m)). split; cbn [ck_size ck_tab].
  - rewrite <- (updZ_updZ _ h null_slot). destruct src as [k v]. apply rep_put; [done| | |done|by left].
    + by apply lookupZ_updZ_eq.
    + by rewrite lookup_delete_ne.
  - rewrite lookup_insert_ne by done. apply lookup_delete_eq.
  - done.
  - rewrite insert_insert_ne by done. f_equal. by apply insert_delete_id.
Qed.

Lemma insert_loop_ok m0 n : ∀ c m src, pending m0 c m src →
  ∃ r src' c', insert_loop n src c = (Ok (r, src'), c') ∧ ck_size c' = ck_size c ∧
    ((r = 0 ∧ rep c' m0) ∨ (r = EAGAIN ∧ ∃ m', pending m0 c' m' src')).
Proof.
  induction n as [|n IH]; intros c m src Hp; cbn [insert_loop].
  { exists EAGAIN, src, c. split; [done|]. split; [done|]. right. eauto. }
  pose proof (pd_rep _ _ _ _ Hp) as Hr. destruct (hash_ranges c (sl_key src) (tr_pos _ _ _ Hr)) as [H0 H1].
  erewrite bind_ok by reflexivity. destruct (slot_run c m _ Hr H0) as (s0 & Hs0 & E0). erewrite bind_ok by exact E0.
  destruct (Z.eqb_spec (sl_value s0) 0) as [Hz0|Hz0].
  { erewrite bind_ok by (by eapply set_run). eexists _, _, _. split; [reflexivity|]. split; [done|]. left. split; [done|].
    apply (pending_put _ _ m); [done| |by left]. by rewrite <- (tr_empty _ _ _ Hr _ _ Hs0 Hz0). }
  rewrite (proj2 (Z.eqb_neq _ _) (other_key c m _ s0 _ Hr Hs0 (pd_fresh _ _ _ _ Hp) Hz0)).
  erewrite bind_ok by reflexivity. destruct (slot_run c m _ Hr H1) as (s1 & Hs1 & E1). erewrite bind_ok by exact E1.
  destruct (Z.eqb_spec (sl_value s1) 0) as [Hz1|Hz1].
  { erewrite bind_ok by (by eapply set_run). eexists _, _, _. split; [reflexivity|]. split; [done|]. left. split; [done|].
    apply (pending_put _ _ m); [done| |by right]. by rewrite <- (tr_empty _ _ _ Hr _ _ Hs1 Hz1). }
  rewrite (proj2 (Z.eqb_neq _ _) (other_key c m _ s1 _ Hr Hs1 (pd_fresh _ _ _ _ Hp) Hz1)).
  erewrite bind_ok by (by eapply set_run).
  destruct (pending_swap m0 c m src s0 Hp Hs0 Hz0) as [m' Hp'].
  destruct (IH _ m' s0 Hp') as (r & src' & c' & E & Hs & H). by exists r, src', c'.
Qed.

(** ** Growing *)

Lemma round24_ge x : 0 < x → x * (2 ^ 23 - 1) ≤ round24 x * 2 ^ 23.
Proof.
  intros Hx. unfold round24. destruct (Z.leb_spec (Z.log2 x - 23) 0) as [Hs|Hs]; [lia|].
  set (s := Z.log2 x - 23) in *. set (q := Z.shiftr x s).
  assert (x < Z.shiftl q s + 2 ^ s) as Hq.
  { unfold q. rewrite Z.shiftl_mul_pow2, Z.shiftr_div_pow2 by lia.
    pose proof (Z.div_mod x (2 ^ s) ltac:(lia)). pose proof (Z.mod_pos_bound x (2 ^ s) ltac:(lia)). lia. }
  assert (2 ^ s * 2 ^ 23 ≤ x) as Hlog.
  { rewrite <- Z.pow_add_r by lia. unfold s. rewrite Z.sub_add. by apply Z.log2_spec. }
  rewrite !Z.shiftl_mul_pow2 in * by lia. assert (0 < 2 ^ s) by lia. case_match; nia.
Qed.

(** The table does not shrink. *)
Lemma grown_size_ge n : 0 < n → n ≤ grown_size n.
Proof.
  intros Hn. unfold grown_size, GROWTH_FACTOR. pose proof (round24_ge n Hn) as H1.
  pose proof (round24_ge (round24 n * 10066330) ltac:(lia)) as H2.
  rewrite Z.shiftr_div_pow2 by lia. apply Z.div_le_lower_bound; [lia|]. nia.
Qed.

Fixpoint add_slots (m : gmap Z Z) (l : list cuckoo_slot) : gmap Z Z :=
  match l with
  | [] => m
  | s :: l => add_slots (if sl_value s =? 0 then m else <[sl_key s := sl_value s]> m) l
  end.

(** The keys of [l] are new and differ from each other. *)
Definition fresh_slots (m : gmap Z Z) (l : list cuckoo_slot) : Prop :=
  (∀ s, s ∈ l → sl_value s ≠ 0 → m !! sl_key s = None) ∧
  ∀ i j s s', l !! i = Some s → l !! j = Some s' → sl_value s ≠ 0 → sl_value s' ≠ 0 → sl_key s = sl_key s' → i = j.

Lemma fresh_tail m s l : fresh_slots m (s :: l) →
  fresh_slots (if sl_value s =? 0 then m else <[sl_key s := sl_value s]> m) l.
Proof.
  intros [H1 H2]. split.
  - intros s' Hs' Hv. destruct (Z.eqb_spec (sl_value s) 0) as [Hz|Hz]; [apply H1; [by right|done]|].
    rewrite lookup_insert_ne; [apply H1; [by right|done]|]. intros E.
    apply list_elem_of_lookup in Hs' as [j Hj]. by apply (H2 0%nat (S j) s s') in E.
  - intros i j s1 s2 Hi Hj Hv1 Hv2 E. by apply (H2 (S i) (S j) s1 s2) in E as [= ].
Qed.

Lemma add_slots_lookup l : ∀ m k v, fresh_slots m l →
  add_slots m l !! k = Some v ↔ m !! k = Some v ∨ (CuckooSlot k v ∈ l ∧ v ≠ 0).
Proof.
  induction l as [|s l IH]; intros m k v Hf; cbn [add_slots].
  - split; [by left|]. intros [H|[H _]]; [done|by apply not_elem_of_nil in H].
  - rewrite (IH _ k v (fresh_tail m s l Hf)), elem_of_cons. destruct Hf as [Hf _]. destruct s as [k' v']; simpl.
    destruct (Z.eqb_spec v' 0) as [->|Hz].
    + split; [intros [H|[H1 H2]]; auto|]. intros [H|[[H|H] Hv]]; auto. by injection H as -> ->.
    + rewrite lookup_insert_Some. split.
      * intros [[[-> ->]|[Hne H]]|[H Hv]]; auto.
      * intros [H|[[H|H] Hv]]; [|injection H as -> ->; auto|auto]. left. right. split; [|done]. intros <-.
        specialize (Hf (CuckooSlot k' v') ltac:(left) Hz). simpl in Hf. congruence.
Qed.

(** All of a table, inserted one by one, is its map. *)
Lemma add_slots_rep n tab m : tab_rep n tab m → fresh_slots ∅ tab ∧ add_slots ∅ tab = m.
Proof.
  intros Hr. assert (fresh_slots ∅ tab) as Hf.
  { split; [intros; apply lookup_empty|]. intros i j s s' Hi Hj Hv Hv' E. rewrite <- lookupZ_nat in Hi, Hj.
    apply Nat2Z.inj. by apply (tr_unique _ _ _ Hr _ _ s s'). }
  split; [done|]. apply map_eq. intros k. apply option_eq. intros v. rewrite (add_slots_lookup _ _ k v Hf), lookup_empty.
  rewrite (tr_map _ _ _ Hr). split.
  - intros [H|[H Hv]]; [done|]. apply list_elem_of_lookup in H as [i Hi]. exists (Z.of_nat i). by rewrite lookupZ_nat.
  - intros (i & Hi & Hv). right. split; [|done]. unfold lookupZ in Hi. case_decide; [|done]. by eapply list_elem_of_lookup_2.
Qed.

Lemma rehash_ok l : ∀ c m, rep c m → fresh_slots m l →
  ∃ b c', rehash l c = (Ok b, c') ∧ ck_size c' = ck_size c ∧ (b = true → rep c' (add_slots m l)).
Proof.
  induction l as [|s l IH]; intros c m Hr Hf; cbn [rehash add_slots]; [by exists true, c|].
  pose proof (fresh_tail m s l Hf) as Hf'. destruct (Z.eqb_spec (sl_value s) 0) as [Hz|Hz]; [by apply IH|].
  destruct (insert_loop_ok (<[sl_key s := sl_value s]> m) MAX_INSERTS c m s) as (r & src & c' & E & Hs & H).
  { split; [done| |done|done]. apply (proj1 Hf s); [by left|done]. }
  erewrite bind_ok by exact E. destruct H as [[-> H]|[-> _]]; cbn [fst].
  - rewrite Z.eqb_refl. destruct (IH c' _ H Hf') as (b & c'' & E' & Hs' & H'). exists b, c''. split; [done|]. split; [congruence|done].
  - exists false, c'. by split.
Qed.

(** What is left of the outcomes of allocations when the last growth has made [j] tables and found no memory for the next. *)
Definition ran_out (j : nat) (l l' : list bool) : Prop := l = repeat true j ++ false :: l' ∨ l = repeat true j ∧ l' = [].

(** The outcomes of growing; out of memory after a first attempt the size is not restored. *)
Lemma grow_loop_ok m oldsize oldtab n : tab_rep oldsize oldtab m → ∀ e, 0 < ck_size (ce_table e) →
  ∃ r e', grow_loop n oldsize oldtab e = (Ok r, e') ∧ (∃ used, ce_alloc e = used ++ ce_alloc e') ∧
    ((r = 0 ∧ rep (ce_table e') m) ∨ (r = EINVAL ∧ ce_table e' = Cuckoo oldsize oldtab) ∨
     (r = ENOMEM ∧ ∃ j, ce_table e' = Cuckoo (Nat.iter j grown_size (ck_size (ce_table e))) oldtab ∧ ran_out j (ce_alloc e) (ce_alloc e'))).
Proof.
  intros Hr. destruct (add_slots_rep _ _ _ Hr) as [Hf Em]. induction n as [|n IH]; intros e He; cbn [grow_loop].
  { eexists _, _. split; [by erewrite bind_ok by reflexivity|]. split; [by exists []|]. right. by left. }
  erewrite bind_ok by reflexivity. pose proof (grown_size_ge _ He) as Hg. destruct e as [c l]. cbn [ce_table ce_alloc] in *. change (id c) with c.
  set (nsize := grown_size (ck_size c)) in *. destruct l as [|[] l].
  - erewrite bind_ok by reflexivity. cbn [negb]. eexists _, _. split; [by erewrite bind_ok by reflexivity|]. split; [by exists []|]. right. right. split; [done|]. exists 0%nat. split; [done|by right].
  - erewrite bind_ok by reflexivity. cbn [negb]. erewrite bind_ok by reflexivity.
    destruct (rehash_ok oldtab (Cuckoo nsize (repeat null_slot (Z.to_nat nsize))) ∅ (rep_new nsize ltac:(lia)) Hf)
      as (all & c' & E & Hs & H). cbn [ck_size] in Hs.
    erewrite bind_ok by (unfold on_table; cbn [ce_table]; rewrite E; reflexivity). destruct all.
    { eexists _, _. split; [done|]. split; [by exists [true]|]. left. rewrite <- Em. split; [done|]. by apply H. }
    destruct (IH (CuckooEnv c' l) ltac:(cbn; lia)) as (r & e' & E' & (used & Hu) & H'). cbn [ce_table ce_alloc] in *. exists r, e'.
    split; [done|]. split; [exists (true :: used); by rewrite Hu|]. destruct H' as [H'|[H'|(-> & j & Ht & Ho)]]; [by left|by right; left|]. right. right. split; [done|].
    exists (S j). rewrite Hs in Ht. split; [rewrite Ht; by rewrite Nat.iter_succ_r|]. unfold ran_out in *. cbn [repeat app]. destruct Ho as [->|[-> ->]]; auto.
  - erewrite bind_ok by reflexivity. cbn [negb]. eexists _, _. split; [by erewrite bind_ok by reflexivity|]. split; [by exists [false]|]. right. right. split; [done|]. exists 0%nat. split; [done|by left].
Qed.

Lemma cuckoo_grow_run m e : rep (ce_table e) m → ∃ r e', cuckoo_grow e = (Ok r, e') ∧ (∃ used, ce_alloc e = used ++ ce_alloc e') ∧
  ((r = 0 ∧ rep (ce_table e') m) ∨ (r = EINVAL ∧ ce_table e' = ce_table e) ∨
   (r = ENOMEM ∧ ∃ j, ce_table e' = Cuckoo (Nat.iter j grown_size (ck_size (ce_table e))) (ck_tab (ce_table e)) ∧ ran_out j (ce_alloc e) (ce_alloc e'))).
Proof.
  intros Hr. unfold cuckoo_grow. erewrite bind_ok by reflexivity. cbn [id].
  destruct (grow_loop_ok m (ck_size (ce_table e)) (ck_tab (ce_table e)) MAX_GROWS Hr
    (CuckooEnv (ce_table e) (ce_alloc e)) (tr_pos _ _ _ Hr)) as (r & e' & E & H).
  exists r, e'. split; [exact E|]. by destruct (ce_table e).
Qed.

(** ** The operations on the map *)

(** An insertion that fails has left out one entry of [m0]: the new one, or one that it has displaced.  The slots are in order for their number [n]; the
    size of the table is [n], enlarged [j] times. *)
Definition one_dropped (m0 : gmap Z Z) (c : cuckoo) (j : nat) : Prop :=
  ∃ n lost, is_Some (m0 !! lost) ∧ tab_rep n (ck_tab c) (delete lost m0) ∧ ck_size c = Nat.iter j grown_size n.

Lemma pending_dropped m0 c m src j c' : pending m0 c m src → c' = Cuckoo (Nat.iter j grown_size (ck_size c)) (ck_tab c) → one_dropped m0 c' j.
Proof.
  intros [Hr Hf Hv <-] ->. exists (ck_size c), (sl_key src). rewrite lookup_insert_eq, delete_insert_id by done. by split_and!; [eexists| |].
Qed.

Lemma insert_loops_ok m0 n : ∀ src m e, pending m0 (ce_table e) m src →
  ∃ r e', cuckoo_insert_loop n src e = (Ok r, e') ∧
    ((r = 0 ∧ rep (ce_table e') m0) ∨ (r = EINVAL ∧ one_dropped m0 (ce_table e') 0) ∨
     (r = ENOMEM ∧ ∃ j used rest, ce_alloc e = used ++ rest ∧ ran_out j rest (ce_alloc e') ∧ one_dropped m0 (ce_table e') j)).
Proof.
  induction n as [|n IH]; intros src m e Hp; cbn [cuckoo_insert_loop].
  { exists EINVAL, e. split; [done|]. right. left. split; [done|]. eapply pending_dropped; [exact Hp|]. by destruct (ce_table e). }
  destruct (insert_loop_ok m0 MAX_INSERTS (ce_table e) m src Hp) as (r & src' & c' & E & Hs & H).
  erewrite bind_ok by (unfold on_table, cuckoo_insert_try; rewrite E; reflexivity). cbn [fst snd].
  destruct H as [[-> H]|[-> [m' Hp']]].
  { eexists _, _. split; [done|]. by left. }
  cbn [negb Z.eqb EAGAIN Pos.eqb].
  destruct (cuckoo_grow_run m' (CuckooEnv c' (ce_alloc e)) (pd_rep _ _ _ _ Hp')) as (r & e' & E' & (used & Hu) & H).
  erewrite bind_ok by exact E'. cbn [ce_table ce_alloc] in *.
  destruct H as [[-> H]|[[-> H]|(-> & j & H & Ho)]].
  - rewrite Z.eqb_refl. cbn [negb]. destruct Hp' as [_ Hf' Hv' Ha']. destruct (IH src' m' e') as (r & e2 & E2 & H2); [by split|].
    exists r, e2. split; [done|]. destruct H2 as [H2|[H2|(-> & j & used' & rest & Hu' & H2)]]; [by left|by right; left|]. right. right. split; [done|].
    exists j, (used ++ used'), rest. split; [by rewrite Hu, Hu', (assoc_L (++))|done].
  - eexists _, _. split; [done|]. right. left. split; [done|]. eapply pending_dropped; [exact Hp'|]. rewrite H. by destruct c'.
  - eexists _, _. split; [done|]. right. right. split; [done|]. exists j, [], (ce_alloc e). split_and!; [done|done|]. by eapply pending_dropped.
Qed.

(** C37: inserting a new key into the hash table.  On success the table represents the map with the new entry, however many entries were displaced and
    however often the table grew.  With [EINVAL] (the limit of attempts) one entry, the new one or one that was displaced, is missing, and the table represents the others.  With [ENOMEM]
    one entry is missing as well; the slots still represent the others for their number [n], but the size of the table is [n] enlarged as many times as tables were
    allocated in the last growth before memory ran out: lookups work only when that is none. *)
Theorem cuckoo_insert_refines e m k v : rep (ce_table e) m → m !! k = None → v ≠ 0 →
  ∃ r e', cuckoo_insert k v e = (Ok r, e') ∧
    ((r = 0 ∧ rep (ce_table e') (<[k := v]> m)) ∨
     (r = EINVAL ∧ ∃ lost, is_Some (<[k := v]> m !! lost) ∧ rep (ce_table e') (delete lost (<[k := v]> m))) ∨
     (r = ENOMEM ∧ ∃ j used rest, ce_alloc e = used ++ rest ∧ ran_out j rest (ce_alloc e') ∧ one_dropped (<[k := v]> m) (ce_table e') j)).
Proof.
  intros Hr Hk Hv. destruct (insert_loops_ok (<[k := v]> m) MAX_GROWS (CuckooSlot k v) m e) as (r & e' & E & H); [by split|].
  exists r, e'. split; [exact E|]. destruct H as [H|[(-> & n & lost & H1 & H2 & H3)|H]]; [by left| |by right; right].
  right. left. split; [done|]. exists lost. split; [done|]. by rewrite H3.
Qed.

(** Zero, the key of empty slots, has one place. *)
Lemma hash_zero c : hash_mixer c 0 = hash_mod c 0.
Proof. reflexivity. Qed.

(** The slot of a key: the first of its two places whose key is the one looked for. *)
Lemma find_slot_run c m k : rep c m → ∃ h, cuckoo_find_slot k c = (Ok h, c) ∧
  match h with
  | None => m !! k = None
  | Some h => ∃ s, lookupZ (ck_tab c) h = Some s ∧ default 0 (m !! k) = sl_value s ∧ (sl_value s = 0 ∨ sl_key s = k)
  end.
Proof.
  intros Hr. destruct (hash_ranges c k (tr_pos _ _ _ Hr)) as [H0 H1].
  destruct (slot_run c m _ Hr H0) as (s0 & Hs0 & E0). destruct (slot_run c m _ Hr H1) as (s1 & Hs1 & E1).
  assert (∀ h s, lookupZ (ck_tab c) h = Some s → sl_value s ≠ 0 → sl_key s = k → m !! k = Some (sl_value s)) as Hfound.
  { intros h s Hs Hv <-. apply (tr_map _ _ _ Hr). exists h. by destruct s. }
  assert (∀ v, m !! k = Some v → (sl_key s0 = k ∧ sl_value s0 = v) ∨ (sl_key s1 = k ∧ sl_value s1 = v)) as Hplace.
  { intros v Hv. apply (tr_map _ _ _ Hr) in Hv as (i & Hi & Hv). destruct (tr_place _ _ _ Hr _ _ Hi Hv) as [-> | ->]; [left|right];
      cbn [sl_key] in Hi; [change (hash_mod (Cuckoo (ck_size c) []) k) with (hash_mod c k) in Hi|
        change (hash_mixer (Cuckoo (ck_size c) []) k) with (hash_mixer c k) in Hi]; simplify_eq; done. }
  unfold cuckoo_find_slot. erewrite bind_ok by reflexivity. erewrite bind_ok by exact E0.
  destruct (Z.eqb_spec (sl_key s0) k) as [Hk0|Hk0].
  { exists (Some (hash_mod c k)). split; [done|]. exists s0. split; [done|]. split; [|by right].
    destruct (decide (sl_value s0 = 0)) as [Hz|Hz]; [|by rewrite (Hfound _ _ Hs0 Hz Hk0)].
    pose proof (tr_empty _ _ _ Hr _ _ Hs0 Hz) as ->. simpl in Hk0. subst k.
    destruct (m !! 0) as [v|] eqn:Em; [|done].
    assert (s1 = null_slot) as -> by (rewrite (hash_zero c) in Hs1; congruence).
    by destruct (Hplace v eq_refl) as [[_ <-]|[_ <-]]. }
  erewrite bind_ok by reflexivity. erewrite bind_ok by exact E1.
  destruct (Z.eqb_spec (sl_key s1) k) as [Hk1|Hk1].
  - exists (Some (hash_mixer c k)). split; [done|]. exists s1. split; [done|]. split; [|by right].
    destruct (decide (sl_value s1 = 0)) as [Hz|Hz]; [|by rewrite (Hfound _ _ Hs1 Hz Hk1)].
    pose proof (tr_empty _ _ _ Hr _ _ Hs1 Hz) as ->. simpl in Hk1. subst k. rewrite (hash_zero c) in Hs1. simplify_eq.
  - exists None. split; [done|]. destruct (m !! k) as [v|] eqn:Em; [|done]. destruct (Hplace v eq_refl) as [[? _]|[? _]]; done.
Qed.

(** looking a key up gives the value it maps to ([NULL] for none), and removing it gives that value and takes the key out of the
    map. *)
Theorem cuckoo_get_remove c m k : rep c m →
  cuckoo_get k c = (Ok (default 0 (m !! k)), c) ∧
  ∃ c', cuckoo_remove k c = (Ok (default 0 (m !! k)), c') ∧ rep c' (delete k m).
Proof.
  intros Hr. destruct (find_slot_run c m k Hr) as ([h|] & E & H); unfold cuckoo_get, cuckoo_remove.
  - destruct H as (s & Hs & Hv & Hk). pose proof (rep_drop _ _ _ _ _ Hr Hs) as Hd.
    assert (slot_at h c = (Ok s, c)) as Es by (unfold slot_at; by rewrite Hs). split.
    + erewrite bind_ok by exact E. cbv beta iota. erewrite bind_ok by exact Es. by rewrite Hv.
    + eexists. split.
      * erewrite bind_ok by exact E. cbv beta iota. erewrite bind_ok by exact Es. erewrite bind_ok by (by eapply set_run). by rewrite Hv.
      * cbn [ck_size ck_tab]. destruct (Z.eqb_spec (sl_value s) 0) as [Hz|Hz]; [|destruct Hk as [?|<-]; done].
        rewrite delete_id; [done|]. destruct (m !! k) as [v|] eqn:Em; [|done]. simpl in Hv. subst v.
        apply (tr_map _ _ _ Hr) in Em as (i & _ & Hne). done.
  - rewrite H. split; [by erewrite bind_ok by exact E|]. exists c. split; [by erewrite bind_ok by exact E|]. by rewrite delete_id.
Qed.

(** ** Witnesses, and what a failure leaves *)

Definition ex_cuckoo : cuckoo := default (Cuckoo 0 []) (cuckoo_new true true).

Lemma ex_cuckoo_rep : rep ex_cuckoo ∅.
Proof. exact (rep_new 8 ltac:(lia)). Qed.

(** An insertion that succeeds. *)
Lemma insert_succeeds e m k v : rep (ce_table e) m → m !! k = None → v ≠ 0 → (cuckoo_insert k v e).1 = Ok 0 → rep (ce_table (cuckoo_insert k v e).2) (<[k := v]> m).
Proof.
  intros Hr Hk Hv E0. destruct (insert_loops_ok (<[k := v]> m) MAX_GROWS (CuckooSlot k v) m e) as (r & e' & E & H); [by split|].
  change (cuckoo_insert k v e = (Ok r, e')) in E. rewrite E in *. injection E0 as ->. destruct H as [[_ H]|[[? _]|[? _]]]; [exact H|discriminate|discriminate].
Qed.
Definition ex_two : cuckoo_env := (cuckoo_insert 182 2 (cuckoo_insert 110 1 (CuckooEnv ex_cuckoo [true; false])).2).2.
Lemma ex_two_rep : rep (ce_table ex_two) (<[182 := 2]> (<[110 := 1]> ∅)).
Proof.
  apply insert_succeeds; [|reflexivity|discriminate|vm_compute; reflexivity].
  apply insert_succeeds; [exact ex_cuckoo_rep|reflexivity|discriminate|vm_compute; reflexivity].
Qed.

(** The third key does not fit, a first larger table is rejected and there is no memory for a second one. *)
Lemma cuckoo_insert_refines_witness : ∃ e', cuckoo_insert 158 3 ex_two = (Ok ENOMEM, e') ∧
  ∃ j, one_dropped (<[158 := 3]> (<[182 := 2]> (<[110 := 1]> ∅))) (ce_table e') j.
Proof.
  destruct (cuckoo_insert_refines ex_two (<[182 := 2]> (<[110 := 1]> ∅)) 158 3) as (r & e' & E & H); [exact ex_two_rep|reflexivity|discriminate|].
  assert ((cuckoo_insert 158 3 ex_two).1 = Ok ENOMEM) as E0 by (vm_compute; reflexivity). rewrite E in E0. injection E0 as ->.
  exists e'. split; [exact E|]. clear E. revert H. generalize ex_two. intros e [[H _]|[[H _]|[_ H]]]; [discriminate H|discriminate H|].
  destruct H as (j & _ & _ & _ & _ & H). exists j. exact H.
Defined.

Lemma cuckoo_get_remove_witness : cuckoo_get 99 ex_cuckoo = (Ok 0, ex_cuckoo).
Proof. exact (proj1 (cuckoo_get_remove ex_cuckoo ∅ 99 ex_cuckoo_rep)). Defined.

Fixpoint inserts (l : list (Z * Z)) : M cuckoo_env (list Z) :=
  match l with
  | [] => mret []
  | (k, v) :: l => r ← cuckoo_insert k v; rs ← inserts l; mret (r :: rs)
  end.

(** an insertion that runs out of memory damages the table.  Inserting 191 after 99 and 171 displaces
    171, fails to grow and reports [ENOMEM]: 171 is gone although nothing was added for the caller.
    Inserting 158 after 110 and 182, when the second attempt to grow fails, leaves the size
    of the larger table with the old slots: looking up 8 reads past them. *)
Theorem cuckoo_insert_out_of_memory :
  (∃ e1 e2, inserts [(99, 1); (171, 2); (191, 3)] (CuckooEnv ex_cuckoo []) = (Ok [0; 0; ENOMEM], e1) ∧
     on_table (cuckoo_get 171) e1 = (Ok 0, e2)) ∧
  (∃ e1 e2, inserts [(110, 1); (182, 2); (158, 3)] (CuckooEnv ex_cuckoo [true; false]) = (Ok [0; 0; ENOMEM], e1) ∧
     on_table (cuckoo_get 8) e1 = (Undef, e2)).
Proof. split; eexists _, _; (split; [vm_compute; reflexivity|vm_compute; reflexivity]). Qed.
