(* ===== verification/Memops.v ===== *)
(** * libpmemobj: aggregated memory operations

    Models [libpmemobj/memops.c]: an operation context collects changes in a shadow log in volatile
    memory and makes them all at once, through the persistent log when there is more
    than one (redo), or records old contents in the persistent log as they are overwritten
    (undo).  Addresses are relative to [p_ops->base]; volatile memory has addresses outside of the pool, and a
    store to it leaves no event in the trace of the pool. *)

From stdpp Require Import base gmap list numbers.
From S2P Require Import Prelude Memory Pmem Util Ulog Vecq.
Local Open Scope Z_scope.

Definition ULOG_BASE_SIZE : Z := 1024.
Definition OP_MERGE_SEARCH : Z := 64.

(** ** Data *)

Inductive operation_log_type : Type := LOG_PERSISTENT | LOG_TRANSIENT.
Inductive log_type : Type := LOG_TYPE_UNDO | LOG_TYPE_REDO.

#[global] Instance operation_log_type_eq_dec : EqDecision operation_log_type.
Proof. solve_decision. Defined.
#[global] Instance log_type_eq_dec : EqDecision log_type.
Proof. solve_decision. Defined.

Record operation_log : Type := OperationLog {
  ol_capacity : Z;
  ol_offset : Z;
  ol_ulog : Z                     (* address of the log in volatile memory *)
}.

(** [extend], [ulog_free] and [p_ops] are arguments of the operations. *)
Record operation_context : Type := OperationContext {
  oc_type : log_type;
  oc_ulog_curr_offset : Z;
  oc_ulog_curr_capacity : Z;
  oc_ulog_curr : option Z;        (* [None]: [NULL] *)
  oc_total_logged : Z;
  oc_ulog : Z;
  oc_ulog_base_nbytes : Z;
  oc_ulog_capacity : Z;
  oc_next : list Z;
  oc_in_progress : bool;
  oc_pshadow_ops : operation_log;
  oc_transient_ops : operation_log;
  oc_merge_entries : vecq Z       (* addresses of entries of the shadow log *)
}.

(** [me_alloc]: the results of the next allocations, [None] for [NULL]. *)
Record menv : Type := MEnv { me_pm : pmem; me_alloc : list (option Z) }.
Record mstate : Type := MState { ms_env : menv; ms_ctx : operation_context }.

Definition set_pshadow (l : operation_log) (c : operation_context) : operation_context :=
  OperationContext (oc_type c) (oc_ulog_curr_offset c) (oc_ulog_curr_capacity c) (oc_ulog_curr c)
    (oc_total_logged c) (oc_ulog c) (oc_ulog_base_nbytes c) (oc_ulog_capacity c) (oc_next c)
    (oc_in_progress c) l (oc_transient_ops c) (oc_merge_entries c).
Definition set_transient (l : operation_log) (c : operation_context) : operation_context :=
  OperationContext (oc_type c) (oc_ulog_curr_offset c) (oc_ulog_curr_capacity c) (oc_ulog_curr c)
    (oc_total_logged c) (oc_ulog c) (oc_ulog_base_nbytes c) (oc_ulog_capacity c) (oc_next c)
    (oc_in_progress c) (oc_pshadow_ops c) l (oc_merge_entries c).
Definition set_merge (q : vecq Z) (c : operation_context) : operation_context :=
  OperationContext (oc_type c) (oc_ulog_curr_offset c) (oc_ulog_curr_capacity c) (oc_ulog_curr c)
    (oc_total_logged c) (oc_ulog c) (oc_ulog_base_nbytes c) (oc_ulog_capacity c) (oc_next c)
    (oc_in_progress c) (oc_pshadow_ops c) (oc_transient_ops c) q.
Definition set_curr (u : option Z) (offset capacity total : Z) (c : operation_context) : operation_context :=
  OperationContext (oc_type c) offset capacity u total (oc_ulog c) (oc_ulog_base_nbytes c)
    (oc_ulog_capacity c) (oc_next c) (oc_in_progress c) (oc_pshadow_ops c) (oc_transient_ops c)
    (oc_merge_entries c).
Definition set_next (next : list Z) (capacity : Z) (c : operation_context) : operation_context :=
  OperationContext (oc_type c) (oc_ulog_curr_offset c) (oc_ulog_curr_capacity c) (oc_ulog_curr c)
    (oc_total_logged c) (oc_ulog c) (oc_ulog_base_nbytes c) capacity next
    (oc_in_progress c) (oc_pshadow_ops c) (oc_transient_ops c) (oc_merge_entries c).
Definition set_in_progress (b : bool) (c : operation_context) : operation_context :=
  OperationContext (oc_type c) (oc_ulog_curr_offset c) (oc_ulog_curr_capacity c) (oc_ulog_curr c)
    (oc_total_logged c) (oc_ulog c) (oc_ulog_base_nbytes c) (oc_ulog_capacity c) (oc_next c)
    b (oc_pshadow_ops c) (oc_transient_ops c) (oc_merge_entries c).

(** ** Volatile memory *)

Definition dram_store (p : pmem) (a : Z) (bs : list Z) : pmem :=
  Pmem (wr (pm_mem p) a bs) (pm_evs p).

Definition operation_transient_clean (p : pmem) (addr length flags : Z) : pmem := p.
Definition operation_transient_memcpy (p : pmem) (dest : Z) (src : list Z) (flags : Z) : pmem :=
  dram_store p dest src.

(** [t_ops] and [s_ops]: the other functions are [NULL] and not called for entries with a value. *)
Definition shadow_ops : pmem_ops :=
  PmemOps operation_transient_clean operation_transient_clean (λ p, p) operation_transient_memcpy
    (λ p dest c length _, dram_store p dest (repeat (u8 c) (Z.to_nat length))).

(** ** Lifting *)

Definition on_pm {A} (f : M pmem A) : M menv A := λ e,
  let '(r, p) := f (me_pm e) in (r, MEnv p (me_alloc e)).
Definition on_env {A} (f : M menv A) : M mstate A := λ s,
  let '(r, e) := f (ms_env s) in (r, MState e (ms_ctx s)).
Definition lift_pm {A} (f : M pmem A) : M mstate A := on_env (on_pm f).
Definition get_ctx {A} (f : operation_context → A) : M mstate A := gets (f ∘ ms_ctx).
Definition mod_ctx (f : operation_context → operation_context) : M mstate unit :=
  modify (λ s, MState (ms_env s) (f (ms_ctx s))).
Definition on_merge {A} (f : M (vecq Z) A) : M mstate A := λ s,
  let '(r, q) := f (oc_merge_entries (ms_ctx s)) in (r, MState (ms_env s) (set_merge q (ms_ctx s))).

(** The next allocation. *)
Definition Alloc : M menv (option Z) := λ e,
  match me_alloc e with
  | x :: t => (Ok x, MEnv (me_pm e) t)
  | [] => (Ok None, e)
  end.

Definition Zalloc (n : Z) : M menv (option Z) :=
  a ← Alloc;
  match a with
  | None => mret None
  | Some a => on_pm (modify (λ p, dram_store p a (zeros n)));; mret (Some a)
  end.

(** The first [n] bytes of the old object are moved. *)
Definition Realloc (old n : Z) : M menv (option Z) :=
  a ← Alloc;
  match a with
  | None => mret None
  | Some a => on_pm (modify (λ p, dram_store p a (rdn (pm_mem p) old (Z.to_nat n))));; mret (Some a)
  end.

(** ** Creation *)

Definition operation_log_init (capacity : Z) : M menv (option operation_log) :=
  src ← Zalloc (sizeof_ulog + ULOG_BASE_SIZE);
  match src with
  | None => mret None
  | Some src =>
      on_pm (modify (λ p, dram_store p (src + 16) (le_bytes 8 capacity)));;
      mret (Some (OperationLog ULOG_BASE_SIZE 0 src))
  end.
Definition operation_log_transient_init : M menv (option operation_log) :=
  operation_log_init ULOG_BASE_SIZE.
Definition operation_log_persistent_init (ulog_base_nbytes : Z) : M menv (option operation_log) :=
  operation_log_init ulog_base_nbytes.

(** [fuel] bounds the number of logs linked to [ulog].  [None]: [NULL]. *)
Definition operation_new (fuel : nat) (ulog ulog_base_nbytes : Z) (type : log_type)
    : M menv (option operation_context) :=
  ctx ← Alloc;
  match ctx with
  | None => mret None
  | Some _ =>
      capacity ← on_pm (ulog_capacity fuel ulog ulog_base_nbytes);
      next ← on_pm (ulog_rebuild_next_vec fuel ulog []);
      tlog ← operation_log_transient_init;
      match tlog with
      | None => mret None
      | Some tlog =>
          plog ← operation_log_persistent_init ulog_base_nbytes;
          match plog with
          | None => mret None
          | Some plog =>
              mret (Some (OperationContext type 0 0 None 0 ulog ulog_base_nbytes capacity next false
                            plog tlog VECQ_INIT))
          end
      end
  end.

(** The two logs and the context are freed. *)
Definition operation_delete : M mstate unit :=
  mod_ctx (λ c, set_merge (VECQ_DELETE (oc_merge_entries c)) (set_next [] (oc_ulog_capacity c) c)).

(** ** Collecting value entries *)

Definition operation_merge (entry value type : Z) : M pmem unit :=
  v ← in_mem (λ m, entry_f_value m entry);
  if type =? ULOG_OPERATION_AND then modify (λ p, dram_store p (entry + 8) (le_bytes 8 (v &&& value)))
  else if type =? ULOG_OPERATION_OR then modify (λ p, dram_store p (entry + 8) (le_bytes 8 (v ||| value)))
  else if type =? ULOG_OPERATION_SET then modify (λ p, dram_store p (entry + 8) (le_bytes 8 value))
  else undef.

(** The entry to merge with: the loop stops at the first entry for the same address, and merges when
    that has the same type. *)
Definition merge_candidate (m : mem) (offset type e : Z) : option (option Z) :=
  if ulog_entry_offset m e =? offset
  then Some (if ulog_entry_type m e =? type then Some e else None)
  else None.

Definition operation_try_merge_entry (ptr value type : Z) : M mstate bool := λ s,
  let m := pm_mem (me_pm (ms_env s)) in
  match VECQ_FOREACH_REVERSE (merge_candidate m ptr type) (oc_merge_entries (ms_ctx s)) with
  | Ok (Some (Some e)) => (lift_pm (operation_merge e value type);; mret true) s
  | Ok _ => (Ok false, s)
  | Fail e => (Fail e, s)
  | Undef => (Undef, s)
  end.

Definition operation_merge_entry_add (entry : Z) : M mstate unit :=
  n ← get_ctx (λ c, VECQ_SIZE (oc_merge_entries c));
  (if n =? OP_MERGE_SEARCH then ignore (on_merge VECQ_DEQUEUE) else mret tt);;
  full ← get_ctx (λ c, capacity (oc_merge_entries c) =? VECQ_SIZE (oc_merge_entries c));
  ok ← (if (full : bool) then a ← on_env Alloc; mret (bool_decide (is_Some a)) else mret true);
  ignore (on_merge (VECQ_ENQUEUE ok entry)).

Definition oplog (t : operation_log_type) (c : operation_context) : operation_log :=
  match t with LOG_PERSISTENT => oc_pshadow_ops c | LOG_TRANSIENT => oc_transient_ops c end.
Definition set_oplog (t : operation_log_type) (l : operation_log) : operation_context → operation_context :=
  match t with LOG_PERSISTENT => set_pshadow l | LOG_TRANSIENT => set_transient l end.

(** The log is reallocated when only the spare cache line is left. *)
Definition grow_oplog (t : operation_log_type) : M mstate unit :=
  l ← get_ctx (oplog t);
  if ol_offset l + CACHELINE_SIZE =? ol_capacity l then
    a ← on_env (Realloc (ol_ulog l) (SIZEOF_ULOG (ol_capacity l)));
    match a with
    | None => fail ENOMEM
    | Some a =>
        mod_ctx (set_oplog t (OperationLog (ol_capacity l + ULOG_BASE_SIZE) (ol_offset l) a));;
        mod_ctx (λ c, set_merge (VECQ_CLEAR (oc_merge_entries c)) c)
    end
  else mret tt.

Definition operation_add_typed_entry (ptr value type : Z) (t : operation_log_type) : M mstate unit :=
  grow_oplog t;;
  merged ← (if decide (t = LOG_PERSISTENT) then operation_try_merge_entry ptr value type else mret false);
  if (merged : bool) then mret tt
  else
    l ← get_ctx (oplog t);
    entry ← lift_pm (ulog_entry_val_create shadow_ops (ol_ulog l) (ol_offset l) ptr value type);
    (if decide (t = LOG_PERSISTENT) then operation_merge_entry_add entry else mret tt);;
    size ← lift_pm (in_mem (λ m, ulog_entry_size m entry));
    mod_ctx (set_oplog t (OperationLog (ol_capacity l) (ol_offset l + size) (ol_ulog l))).

(** [OBJ_OFF_IS_VALID] of [obj.h], on the fields of the pool that it reads. *)
Record pool_layout : Type := PoolLayout {
  pl_heap_offset : Z;
  pl_heap_size : Z;
  pl_lanes_offset : Z;
  pl_nlanes : Z;
  pl_root_offset : Z;             (* offset of the field [root_offset] *)
  pl_root_size : Z                (* offset of the field [root_size] *)
}.
Definition sizeof_lane_layout : Z := 3072.
Definition OBJ_OFF_FROM_HEAP (pop : pool_layout) (off : Z) : bool :=
  (pl_heap_offset pop <=? off) && (off <? u64 (pl_heap_offset pop + pl_heap_size pop)).
Definition OBJ_OFF_FROM_LANES (pop : pool_layout) (off : Z) : bool :=
  (pl_lanes_offset pop <=? off) &&
  (off <? u64 (pl_lanes_offset pop + pl_nlanes pop * sizeof_lane_layout)).
Definition OBJ_OFF_IS_VALID (pop : pool_layout) (off : Z) : bool :=
  OBJ_OFF_FROM_HEAP pop off || (pl_root_offset pop =? off) || (pl_root_size pop =? off) ||
  OBJ_OFF_FROM_LANES pop off.

Definition operation_add_entry (pop : pool_layout) (ptr value type : Z) : M mstate unit :=
  operation_add_typed_entry ptr value type
    (if OBJ_OFF_IS_VALID pop (u64 ptr) then LOG_PERSISTENT else LOG_TRANSIENT).

(** ** Runtime state *)

Definition operation_init : M mstate unit :=
  mod_ctx (λ c,
    let plog := oc_pshadow_ops c in
    let tlog := oc_transient_ops c in
    set_curr None 0 0 0
      (set_merge (VECQ_REINIT (oc_merge_entries c))
        (set_pshadow (OperationLog (ol_capacity plog) 0 (ol_ulog plog))
          (set_transient (OperationLog (ol_capacity tlog) 0 (ol_ulog tlog)) c)))).

(** [ASSERTeq(ctx->in_progress, b)] *)
Definition assert_in_progress (b : bool) : M mstate unit :=
  c ← get_ctx oc_in_progress; if bool_decide (c = b) then mret tt else undef.

Definition operation_start : M mstate unit :=
  operation_init;; assert_in_progress false;; mod_ctx (set_in_progress true).

Definition operation_resume (fuel : nat) : M mstate unit :=
  operation_init;;
  assert_in_progress false;;
  mod_ctx (set_in_progress true);;
  u ← get_ctx oc_ulog;
  n ← lift_pm (ulog_base_nbytes fuel u);
  mod_ctx (λ c, set_curr (oc_ulog_curr c) (oc_ulog_curr_offset c) (oc_ulog_curr_capacity c) n c).

Definition operation_cancel : M mstate unit :=
  assert_in_progress true;; mod_ctx (set_in_progress false).

(** ** Writing to the persistent log *)

Section persistent.
Context (p_ops : pmem_ops).
(** [extend]: [None] for [NULL].  [fuel] bounds the logs and the entries of a log; [push_ok] as in
    [ulog_clobber_data]. *)
Context (extend : option (Z → M pmem unit)) (ulog_free : Z → M pmem unit).
Context (push_ok : nat → bool) (fuel : nat).

Definition operation_reserve (new_capacity : Z) : M mstate unit :=
  c ← get_ctx id;
  if oc_ulog_capacity c <? new_capacity then
    match extend with
    | None => fail 0                (* [errno] is not set *)
    | Some extend =>
        x ← lift_pm (ulog_reserve extend fuel (oc_ulog c) (oc_ulog_base_nbytes c) new_capacity (oc_next c));
        match x.1 with
        | Some e => mod_ctx (set_next x.2.2 (oc_ulog_capacity c));; fail e
        | None => mod_ctx (set_next x.2.2 x.2.1)
        end
    end
  else mret tt.

(** The log the next buffer entry goes to. *)
Definition next_buffer_log (real_size : Z) : M mstate unit :=
  c ← get_ctx id;
  if oc_ulog_curr_capacity c =? 0 then
    operation_reserve (u64 (oc_total_logged c + real_size));;
    curr ← (match oc_ulog_curr c with
            | None => mret (Some (oc_ulog c))
            | Some u => lift_pm (in_mem (λ m, ulog_next m u))
            end);
    match curr with
    | None => undef
    | Some u =>
        capacity ← lift_pm (in_mem (λ m, ulog_f_capacity m u));
        mod_ctx (λ c, set_curr (Some u) 0 capacity (oc_total_logged c) c)
    end
  else mret tt.

(** [src]: the [size] bytes the source points to.  The recursion is on what is left of them. *)
Fixpoint operation_add_buffer (n : nat) (dest : Z) (src : list Z) (type : Z) : M mstate unit :=
  match n with
  | O => undef
  | S n =>
      let size := len src in
      let real_size := u64 (size + sizeof_ulog_entry_buf) in
      next_buffer_log real_size;;
      c ← get_ctx id;
      match oc_ulog_curr c with
      | None => undef
      | Some u =>
          let curr_size := Z.min real_size (oc_ulog_curr_capacity c) in
          let data_size := u64 (curr_size - sizeof_ulog_entry_buf) in
          e ← lift_pm (ulog_entry_buf_create p_ops u (oc_ulog_curr_offset c) dest
                         (take (Z.to_nat data_size) src) type);
          let entry_size := ALIGN_UP curr_size CACHELINE_SIZE in
          esize ← lift_pm (in_mem (λ m, ulog_entry_size m e));
          if negb (entry_size =? esize) || (oc_ulog_curr_capacity c <? entry_size) then undef
          else
            mod_ctx (λ c, set_curr (oc_ulog_curr c) (u64 (oc_ulog_curr_offset c + entry_size))
                            (oc_ulog_curr_capacity c - entry_size)
                            (u64 (oc_total_logged c + entry_size)) c);;
            if u64 (size - data_size) =? 0 then mret tt
            else operation_add_buffer n (dest + data_size) (drop (Z.to_nat data_size) src) type
      end
  end.

(** ** Processing *)

(** [ulog_store] changes the header of the shadow log as well. *)
Definition operation_process_persistent_redo : M mstate unit :=
  c ← get_ctx id;
  let plog := oc_pshadow_ops c in
  if negb (ol_capacity plog mod CACHELINE_SIZE =? 0) then undef
  else
    m ← lift_pm (in_mem id);
    src ← lift_pm (ulog_store p_ops (oc_ulog c) m (ol_ulog plog) (ol_offset plog)
                     (oc_ulog_base_nbytes c) (oc_next c));
    lift_pm (modify (λ p, dram_store p (ol_ulog plog) (rdn src (ol_ulog plog) 64)));;
    lift_pm (ulog_process p_ops fuel (ol_ulog plog));;
    lift_pm (ulog_clobber p_ops (oc_ulog c) (Some (oc_next c))).

Definition operation_process_persistent_undo : M mstate unit :=
  c ← get_ctx id;
  if negb (ol_capacity (oc_pshadow_ops c) mod CACHELINE_SIZE =? 0) then undef
  else lift_pm (ulog_process p_ops fuel (oc_ulog c)).

(** Whether there is one entry, which is then applied on its own. *)
Definition single_entry (m : mem) (plog : operation_log) : bool :=
  let t := ulog_entry_type m (ulog_data (ol_ulog plog)) in
  (ol_offset plog =? sizeof_ulog_entry_val) &&
  ((t =? ULOG_OPERATION_SET) || (t =? ULOG_OPERATION_AND) || (t =? ULOG_OPERATION_OR)).

Definition operation_process : M mstate unit :=
  c ← get_ctx id;
  m ← lift_pm (in_mem id);
  let plog := oc_pshadow_ops c in
  let redo_process := bool_decide (oc_type c = LOG_TYPE_REDO) && negb (ol_offset plog =? 0) in
  let single := redo_process && single_entry m plog in
  (if single then lift_pm (ulog_entry_apply p_ops (ulog_data (ol_ulog plog)) true) else mret tt);;
  let redo_process := redo_process && negb single in
  (if redo_process then operation_process_persistent_redo
   else if decide (oc_type c = LOG_TYPE_UNDO) then operation_process_persistent_undo
   else mret tt);;
  c ← get_ctx id;
  if negb (ol_offset (oc_transient_ops c) =? 0)
  then lift_pm (ulog_process shadow_ops fuel (ol_ulog (oc_transient_ops c)))
  else mret tt.

Definition operation_finish : M mstate unit :=
  assert_in_progress true;;
  mod_ctx (set_in_progress false);;
  c ← get_ctx id;
  if bool_decide (oc_type c = LOG_TYPE_REDO) && negb (ol_offset (oc_pshadow_ops c) =? 0)
  then operation_process
  else if bool_decide (oc_type c = LOG_TYPE_UNDO) && negb (oc_total_logged c =? 0) then
    lift_pm (ulog_clobber_data p_ops (oc_ulog c) (oc_total_logged c) (oc_ulog_base_nbytes c) (oc_next c)
               ulog_free push_ok fuel);;
    capacity ← lift_pm (ulog_capacity fuel (oc_ulog c) (oc_ulog_base_nbytes c));
    next ← lift_pm (ulog_rebuild_next_vec fuel (oc_ulog c) []);
    mod_ctx (set_next next capacity)
  else mret tt.
End persistent.
