(* ===== verification/MemopsMerge.v ===== *)
(** * libpmemobj: merging the entries of an operation

    An operation may ask for several changes of the same word; [operation_try_merge_entry]
    folds a change into an earlier entry for that word when nothing in between touches it.  This
    file shows that the shadow log always means what was asked for: replaying it has the
    effect of the requested changes made one after the other. *)

From stdpp Require Import base gmap list numbers.
From S2P Require Import Prelude Memory Pmem Util Ulog UlogSpec UlogEntry Vecq Memops.
Local Open Scope Z_scope.

(** ** Sequences of changes with the same effect *)

Definition uops_equiv (ops1 ops2 : list uop) : Prop :=
  ∀ a i, 0 ≤ i < 8 → uops_bit ops1 a i = uops_bit ops2 a i.

Lemma uops_bit_app ops1 ops2 a i :
  uops_bit (ops1 ++ ops2) a i = match uops_bit ops2 a i with Some b => Some b | None => uops_bit ops1 a i end.
Proof.
  induction ops2 as [|op ops2 IH] using rev_ind; [by rewrite app_nil_r|].
  rewrite (assoc_L (++)), !uops_bit_snoc, IH. by destruct (uop_bit op a i).
Qed.

Lemma uops_bit_cons op ops a i :
  uops_bit (op :: ops) a i = match uops_bit ops a i with Some b => Some b | None => uop_bit op a i end.
Proof. rewrite (uops_bit_app [op] ops). unfold uops_bit at 2. simpl. by destruct (uop_bit op a i). Qed.

#[global] Instance uops_equiv_equivalence : Equivalence uops_equiv.
Proof.
  split; intros ?; unfold uops_equiv; [done|intros y H a i Hi; by rewrite H|].
  intros y z H1 H2 a i Hi. by rewrite H1, H2.
Qed.

#[global] Instance uops_equiv_app : Proper (uops_equiv ==> uops_equiv ==> uops_equiv) (++).
Proof. intros A A' HA B B' HB a i Hi. by rewrite !uops_bit_app, HA, HB. Qed.

(** Equivalent sequences have the same effect on every memory. *)
Lemma uops_equiv_apply ops1 ops2 m : uops_equiv ops1 ops2 → mem_eq (uops_apply m ops1) (uops_apply m ops2).
Proof.
  intros H a. apply byte_eq; [apply rd_range..|]. intros i Hi. by rewrite !uops_apply_bit, H.
Qed.

(** ** Requests *)

(** A change of the aligned word at [ve_ptr]; the type is [ve_k] shifted by 61. *)
Record vent : Type := VEnt { ve_ptr : Z; ve_val : Z; ve_k : Z }.

Record vent_ok (e : vent) : Prop := {
  vo_ptr : 0 < ve_ptr e < 2 ^ 61;
  vo_align : (8 | ve_ptr e);
  vo_val : 0 ≤ ve_val e < 2 ^ 64;
  vo_k : 0 ≤ ve_k e ≤ 2
}.

Definition vent_op (e : vent) : uop := val_op (ve_k e) (ve_ptr e) (ve_val e).

(** The value [operation_merge] computes. *)
Definition merge_val (k v w : Z) : Z := if k =? 1 then v &&& w else if k =? 2 then v ||| w else w.

Lemma val_op_bit_out k p v a i : ¬ (p ≤ a < p + 8) → uop_bit (val_op k p v) a i = None.
Proof.
  intros H. unfold val_op. repeat case_match; simpl; (rewrite decide_False; [done|]); [done|intros [? _]; done..].
Qed.

Lemma others_bit p es a i : (8 | p) → Forall (λ e, (8 | ve_ptr e) ∧ ve_ptr e ≠ p) es → p ≤ a < p + 8 →
  uops_bit (vent_op <$> es) a i = None.
Proof.
  intros [x Hx] Hes Ha. induction Hes as [|e es [[y Hy] Hne] _ IH]; [done|].
  rewrite fmap_cons, uops_bit_cons, IH. apply val_op_bit_out. lia.
Qed.

Lemma merge_bit k p v w a i : 0 ≤ k ≤ 2 → p ≤ a < p + 8 →
  uop_bit (val_op k p (merge_val k v w)) a i =
  match uop_bit (val_op k p w) a i with Some b => Some b | None => uop_bit (val_op k p v) a i end.
Proof.
  intros Hk Ha. assert (k = 0 ∨ k = 1 ∨ k = 2) as [->|[->| ->]] by lia; unfold val_op, merge_val; simpl.
  - by rewrite !decide_True by done.
  - unfold word_bit. rewrite Z.land_spec. destruct (Z.testbit v _), (Z.testbit w _); simpl;
      repeat case_decide; naive_solver.
  - unfold word_bit. rewrite Z.lor_spec. destruct (Z.testbit v _), (Z.testbit w _); simpl;
      repeat case_decide; naive_solver.
Qed.

(** A change folded into an earlier one of the same kind, when those in between are of other words. *)
Lemma merge_equiv A p v k B w : 0 ≤ k ≤ 2 → (8 | p) → Forall (λ e, (8 | ve_ptr e) ∧ ve_ptr e ≠ p) B →
  uops_equiv (A ++ val_op k p (merge_val k v w) :: (vent_op <$> B))
             ((A ++ val_op k p v :: (vent_op <$> B)) ++ [val_op k p w]).
Proof.
  intros Hk Hp HB a i Hi. rewrite uops_bit_snoc, !uops_bit_app, !uops_bit_cons.
  destruct (decide (p ≤ a < p + 8)) as [Ha|Ha].
  - rewrite (others_bit p B a i Hp HB Ha), merge_bit by done.
    destruct (uop_bit (val_op k p w) a i); done.
  - rewrite !val_op_bit_out by done. done.
Qed.

Lemma merge_val_range k v w : 0 ≤ v < 2 ^ 64 → 0 ≤ w < 2 ^ 64 → 0 ≤ merge_val k v w < 2 ^ 64.
Proof.
  intros Hv Hw. unfold merge_val. repeat case_match; [| |done].
  - assert (v &&& w = (v &&& w) mod 2 ^ 64) as ->; [|apply Z.mod_pos_bound; lia].
    rewrite <- Z.land_ones by lia. rewrite <- Z.land_assoc, (Z.land_ones w), (Z.mod_small w) by lia. done.
  - assert (v ||| w = (v ||| w) mod 2 ^ 64) as ->; [|apply Z.mod_pos_bound; lia].
    rewrite <- Z.land_ones, Z.land_lor_distr_l, !Z.land_ones, !Z.mod_small by lia. done.
Qed.

(** ** The shadow log *)

Definition slot_addr (u : Z) (i : nat) : Z := ulog_data u + 16 * Z.of_nat i.

Definition entries_at (m : mem) (u : Z) (es : list vent) : Prop :=
  ∀ i e, es !! i = Some e → val_entry_at m (slot_addr u i) (ve_ptr e) (ve_val e) (ve_k e).

Local Abbreviation smem s := (pm_mem (me_pm (ms_env s))).
Local Abbreviation plog s := (oc_pshadow_ops (ms_ctx s)).
Local Abbreviation queue s := (oc_merge_entries (ms_ctx s)).

(** The shadow log of [s] holds [es]; the last [t] of them are merge candidates.  The bound on [t] keeps the
    queue of candidates from wrapping around. *)
Record shadow_inv (s : mstate) (es : list vent) (t : nat) : Prop := {
  sh_ok : Forall vent_ok es;
  sh_offset : ol_offset (plog s) = 16 * Z.of_nat (length es);
  sh_entries : entries_at (smem s) (ol_ulog (plog s)) es;
  sh_end : es ≠ [] → rd64 (smem s) (slot_addr (ol_ulog (plog s)) (length es)) = 0;
  sh_queue : vecq_inv (queue s) (slot_addr (ol_ulog (plog s)) <$> seq (length es - t) t);
  sh_front : front (queue s) = 0;
  sh_qcap : capacity (queue s) = 0 ∨ capacity (queue s) = 64;
  sh_tracked : (t ≤ length es)%nat;
  sh_window : 16 * Z.of_nat t + (ol_capacity (plog s) - 64 - ol_offset (plog s)) ≤ 1024;
  sh_room : ol_offset (plog s) + 64 ≤ ol_capacity (plog s);
  sh_cap : (64 | ol_capacity (plog s));
  sh_header : ulog_f_capacity (smem s) (ol_ulog (plog s)) = oc_ulog_base_nbytes (ms_ctx s)
}.

(** The words that [es] changes. *)
Definition changes (es : list vent) (a : Z) : Prop := ∃ e, e ∈ es ∧ ve_ptr e = a.

Lemma changes_app_l es es' a : changes es a → changes (es ++ es') a.
Proof. intros (e & He & Ha). exists e. split; [apply elem_of_app; by left|done]. Qed.

Lemma changes_app es1 es2 es a : (∀ a, changes es1 a → changes es2 a) → changes (es1 ++ es) a → changes (es2 ++ es) a.
Proof.
  intros H (e & [He|He]%elem_of_app & Ha); [apply changes_app_l, H; by exists e|].
  exists e. split; [apply elem_of_app; by right|done].
Qed.

(** A step on the shadow log: it changes volatile memory, at [D] and above, the log and the queue. *)
Record shadow_step (D : Z) (s s' : mstate) : Prop := {
  ss_ctx : ∃ q l, ms_ctx s' = set_merge q (set_pshadow l (ms_ctx s));
  ss_evs : pm_evs (me_pm (ms_env s')) = pm_evs (me_pm (ms_env s));
  ss_pool a : a < D → rd (smem s') a = rd (smem s) a;
  ss_alloc x : x ∈ me_alloc (ms_env s') → x ∈ me_alloc (ms_env s);
  ss_ulog : D ≤ ol_ulog (plog s) → D ≤ ol_ulog (plog s');
  ss_capacity : ol_capacity (plog s) ≤ ol_capacity (plog s')
}.

(** Allocations return volatile memory. *)
Definition alloc_ok (D : Z) (s : mstate) : Prop := ∀ a, Some a ∈ me_alloc (ms_env s) → D ≤ a.

Lemma step_refl D s : shadow_step D s s.
Proof. split; try done. exists (queue s), (plog s). by destruct s as [? []]. Qed.

Lemma step_trans D s1 s2 s3 : shadow_step D s1 s2 → shadow_step D s2 s3 → shadow_step D s1 s3.
Proof.
  intros [(q1 & l1 & C1) E1 P1 A1 U1 K1] [(q2 & l2 & C2) E2 P2 A2 U2 K2]. split; [|congruence|..].
  - exists q2, l2. by rewrite C2, C1.
  - intros a Ha. by rewrite P2, P1.
  - auto.
  - auto.
  - lia.
Qed.

Lemma step_alloc D s s' : shadow_step D s s' → alloc_ok D s → alloc_ok D s'.
Proof. intros [_ _ _ A _ _] H a Ha. by apply H, A. Qed.

Lemma val_entry_ext m m' e p v k : (∀ a, e ≤ a < e + 16 → rd m' a = rd m a) →
  val_entry_at m e p v k → val_entry_at m' e p v k.
Proof.
  intros H [H1 H2]. split.
  - rewrite <- H1. apply rd64_ext. intros a Ha. apply H. lia.
  - rewrite <- H2. apply rd64_ext. intros a Ha. apply H. lia.
Qed.

Lemma entries_ext m m' u es : (∀ a, ulog_data u ≤ a < slot_addr u (length es) → rd m' a = rd m a) →
  entries_at m u es → entries_at m' u es.
Proof.
  intros H He i e Hi. pose proof (lookup_lt_Some _ _ _ Hi) as Hlt. unfold slot_addr in *.
  eapply val_entry_ext; [|by apply He]. intros a Ha. apply H. lia.
Qed.

(** ** Growing the shadow log *)

Lemma rd64_copy m u a n k : 0 ≤ k → k + 8 ≤ Z.of_nat n → rd64 (wr m a (rdn m u n)) (a + k) = rd64 m (u + k).
Proof.
  intros Hk Hn. unfold rd64. f_equal. rewrite rdn_wr_sub by (auto with pmdk || rewrite ?length_rdn; lia).
  replace (a + k - a) with (u + k - u) by lia. by rewrite rdn_sub by lia.
Qed.

(** The log moved to [a]. *)
Lemma entries_copy m u a n es : 64 + 16 * Z.of_nat (length es) ≤ Z.of_nat n →
  entries_at m u es → entries_at (wr m a (rdn m u n)) a es.
Proof.
  intros Hn He i e Hie. pose proof (lookup_lt_Some _ _ _ Hie). destruct (He i e Hie) as [H1 H2].
  unfold slot_addr, ulog_data in *. split.
  - rewrite <- H1, <- (Z.add_assoc a), <- (Z.add_assoc u). apply rd64_copy; lia.
  - rewrite <- H2, <- (Z.add_assoc a), <- (Z.add_assoc u), <- (Z.add_assoc a), <- (Z.add_assoc u). apply rd64_copy; lia.
Qed.

Section steps.
Context (D : Z).

Lemma grow_moved p a al c es t : let s := MState (MEnv p (Some a :: al)) c in
  let l := oc_pshadow_ops c in
  let s' := MState (MEnv (dram_store p a (rdn (pm_mem p) (ol_ulog l) (Z.to_nat (SIZEOF_ULOG (ol_capacity l))))) al)
              (set_merge (VECQ_CLEAR (oc_merge_entries c))
                 (set_pshadow (OperationLog (ol_capacity l + ULOG_BASE_SIZE) (ol_offset l) a) c)) in
  shadow_inv s es t → alloc_ok D s → Z.of_nat (length es) < 2 ^ 59 → ol_offset l + 64 = ol_capacity l →
  shadow_step D s s' ∧ shadow_inv s' es 0.
Proof.
  intros s l s' [Hok Ho He Hend Hq Hf Hqc Ht Hw Hr Hc Hh] Ha Hn Heq. subst s'. simpl in *. fold l in Ho, He, Hend, Hq, Hw, Hr, Hc, Hh.
  set (N := Z.to_nat _). assert (Z.of_nat N = 64 + ol_capacity l) as HN.
  { unfold N, SIZEOF_ULOG. rewrite u64_id; unfold sizeof_ulog; lia. }
  assert (D ≤ a) as HDa by (apply Ha; left). destruct (clear_inv _ _ Hq) as [Hq0 Hf0]. split.
  - split; simpl; [by eexists _, _|done| |intros; by right|done|fold l; unfold ULOG_BASE_SIZE; lia].
    intros x Hx. apply rd_wr_out. lia.
  - split; simpl; try done; unfold ULOG_BASE_SIZE; [|intros Hne| |lia..| |].
    + apply entries_copy; [lia|done].
    + rewrite <- (Hend Hne). unfold slot_addr, ulog_data.
      rewrite <- (Z.add_assoc a), <- (Z.add_assoc (ol_ulog l)). apply rd64_copy; lia.
    + lia.
    + destruct Hc as [x Hx]. exists (x + 16). lia.
    + rewrite <- Hh. unfold ulog_f_capacity. apply rd64_copy; lia.
Qed.

Lemma grow_ok s es t : shadow_inv s es t → alloc_ok D s → Z.of_nat (length es) < 2 ^ 59 →
  ∃ r s', grow_oplog LOG_PERSISTENT s = (r, s') ∧ shadow_step D s s' ∧
    ((r = Ok tt ∧ (∃ t', shadow_inv s' es t') ∧ ol_offset (plog s') + 64 < ol_capacity (plog s')) ∨
     (r = Fail ENOMEM ∧ shadow_inv s' es t ∧ ol_offset (plog s) + 64 = ol_capacity (plog s))).
Proof.
  intros Hi Ha Hn. unfold grow_oplog. erewrite bind_ok by reflexivity.
  change ((oplog LOG_PERSISTENT ∘ ms_ctx) s) with (plog s). unfold CACHELINE_SIZE.
  destruct (Z.eqb_spec (ol_offset (plog s) + 64) (ol_capacity (plog s))) as [Heq|Hne].
  2: { eexists _, s. split; [reflexivity|]. split; [apply step_refl|]. left. split; [done|].
       split; [eauto|]. pose proof (sh_room _ _ _ Hi). lia. }
  destruct s as [[p al] c]. destruct al as [|[a|] al].
  - eexists _, _. split; [reflexivity|]. split; [apply step_refl|]. right. done.
  - destruct (grow_moved p a al c es t Hi Ha Hn Heq) as [Hs Hi'].
    eexists _, _. split; [reflexivity|]. split; [exact Hs|]. left. split; [done|]. split; [eauto|].
    cbn. unfold ULOG_BASE_SIZE. cbn in Heq. lia.
  - eexists _, _. split; [reflexivity|]. split; [|right; split_and!; [done|by destruct Hi|done]].
    split; simpl; try done; [|intros; by right]. exists (oc_merge_entries c), (oc_pshadow_ops c). by destruct c.
Qed.

(** ** Merging *)

(** The search among the candidates [B]: when it finds an entry, those after it are of other words. *)
Lemma search_candidate m u ptr k B : ∀ A C x, 0 ≤ k ≤ 2 → Forall vent_ok (A ++ B ++ C) →
  entries_at m u (A ++ B ++ C) → Forall (λ e, ve_ptr e ≠ ptr) C →
  search (merge_candidate m ptr (Z.shiftl k 61)) (reverse (slot_addr u <$> seq (length A) (length B))) = Some (Some x) →
  ∃ A' e B', A ++ B ++ C = A' ++ e :: B' ∧ x = slot_addr u (length A') ∧ ve_ptr e = ptr ∧ ve_k e = k ∧
    Forall (λ e, ve_ptr e ≠ ptr) B'.
Proof.
  induction B as [|e B IH] using rev_ind; intros A C x Hk Hok He HC Hs; [done|].
  rewrite length_app, Nat.add_1_r, seq_S, fmap_app, reverse_app in Hs. cbn [fmap list_fmap reverse app] in Hs.
  assert (A ++ (B ++ [e]) ++ C = A ++ B ++ e :: C) as Heq by (by rewrite <- (app_assoc B)).
  rewrite Heq in *.
  assert ((A ++ B ++ e :: C) !! (length A + length B)%nat = Some e) as Hl.
  { rewrite (assoc_L (++)). rewrite <- length_app. by apply list_lookup_middle. }
  pose proof (Forall_lookup_1 _ _ _ _ Hok Hl) as [Hp _ _ Hke].
  destruct (val_entry_reads _ _ _ _ _ Hp Hke (He _ _ Hl)) as (Ety & Eo & _).
  simpl in Hs. unfold merge_candidate at 1 in Hs. rewrite Eo, Ety in Hs.
  destruct (Z.eqb_spec (ve_ptr e) ptr) as [Hpe|Hpe].
  - destruct (Z.eqb_spec (Z.shiftl (ve_k e) 61) (Z.shiftl k 61)) as [Hty|Hty]; [|done].
    injection Hs as <-. exists (A ++ B), e, C. rewrite length_app. split_and!; [by rewrite <- (assoc_L (++))|done|done| |done].
    rewrite !Z.shiftl_mul_pow2 in Hty by lia. lia.
  - apply (IH A (e :: C) x); [done..|by constructor|]. done.
Qed.

Lemma merge_value_run e v w k p : 0 ≤ k ≤ 2 → entry_f_value (pm_mem p) e = v →
  operation_merge e w (Z.shiftl k 61) p = (Ok tt, dram_store p (e + 8) (le_bytes 8 (merge_val k v w))).
Proof.
  intros Hk Hv. unfold operation_merge. erewrite bind_ok by reflexivity.
  change ((_ ∘ pm_mem) p) with (entry_f_value (pm_mem p) e). rewrite Hv.
  by assert (k = 0 ∨ k = 1 ∨ k = 2) as [->|[->| ->]] by lia.
Qed.

(** The entry [i] with another value. *)
Lemma merged_entries m u A e B v : entries_at m u (A ++ e :: B) → Forall vent_ok (A ++ e :: B) → 0 ≤ v < 2 ^ 64 →
  entries_at (wr m (slot_addr u (length A) + 8) (le_bytes 8 v)) u (A ++ VEnt (ve_ptr e) v (ve_k e) :: B).
Proof.
  intros He Hok Hv i e' Hi. set (x := slot_addr u (length A)).
  assert (∀ j, j ≠ length A → slot_addr u j + 16 ≤ x ∨ x + 16 ≤ slot_addr u j) as Hap
    by (intros j Hj; unfold x, slot_addr; lia).
  destruct (decide (i = length A)) as [->|Hne].
  - rewrite list_lookup_middle in Hi by done. injection Hi as <-. simpl.
    destruct (He (length A) e) as [H1 H2]; [by apply list_lookup_middle|]. split.
    + rewrite <- H1. apply rd64_wr_out. rewrite length_le_bytes. fold x. lia.
    + fold x. change (wr m (x + 8) (le_bytes 8 v)) with (wr64 m (x + 8) v). rewrite rd64_wr64. by apply u64_id.
  - apply (val_entry_ext m); [|apply He].
    + intros a Ha. apply rd_wr_out. rewrite length_le_bytes. destruct (Hap i Hne); lia.
    + destruct (decide (i < length A)%nat).
      * by rewrite lookup_app_l in Hi |- * by lia.
      * rewrite lookup_app_r in Hi |- * by lia.
        destruct (i - length A)%nat as [|j] eqn:Ej; [lia|]. exact Hi.
Qed.

Lemma step_store p al c a bs : D ≤ a → shadow_step D (MState (MEnv p al) c) (MState (MEnv (dram_store p a bs) al) c).
Proof.
  intros Ha. split; simpl; try done.
  - exists (oc_merge_entries c), (oc_pshadow_ops c). by destruct c.
  - intros x Hx. apply rd_wr_out. lia.
Qed.

(** A merge leaves a log with the effect of the old one followed by the request. *)
Lemma try_merge_ok s es t r : shadow_inv s es t → vent_ok r → D ≤ ol_ulog (plog s) →
  operation_try_merge_entry (ve_ptr r) (ve_val r) (Z.shiftl (ve_k r) 61) s = (Ok false, s) ∨
  ∃ s' es', operation_try_merge_entry (ve_ptr r) (ve_val r) (Z.shiftl (ve_k r) 61) s = (Ok true, s') ∧
    shadow_step D s s' ∧ shadow_inv s' es' t ∧ length es' = length es ∧ (∀ a, changes es' a → changes es a) ∧
    uops_equiv (vent_op <$> es') ((vent_op <$> es) ++ [vent_op r]).
Proof.
  intros Hi Hr HD. pose proof Hi as [Hok Ho He Hend Hq Hf Hqc Ht Hw Hrm Hc Hh].
  unfold operation_try_merge_entry. rewrite (foreach_reverse_run _ _ _ Hq Hf).
  destruct (search _ _) as [[x|]|] eqn:Es; [|by left..]. right.
  assert (∃ A e B, es = A ++ e :: B ∧ x = slot_addr (ol_ulog (plog s)) (length A) ∧ ve_ptr e = ve_ptr r ∧
    ve_k e = ve_k r ∧ Forall (λ e, ve_ptr e ≠ ve_ptr r) B) as (A & e & B & -> & -> & Hp & Hk & HB).
  { pose proof (take_drop (length es - t) es) as Etd.
    destruct (search_candidate (smem s) (ol_ulog (plog s)) (ve_ptr r) (ve_k r) (drop (length es - t) es)
      (take (length es - t) es) [] x) as (A & e & B & E & H);
      rewrite ?app_nil_r, ?Etd; [apply Hr|done|done|constructor| |].
    - rewrite length_take, length_drop, <- Es.
      replace ((length es - t) `min` length es)%nat with (length es - t)%nat by lia.
      by replace (length es - (length es - t))%nat with t by lia.
    - rewrite app_nil_r, Etd in E. exists A, e, B. by split. }
  destruct s as [[p al] c]. cbn [ms_env ms_ctx me_pm] in *. set (u := ol_ulog (oc_pshadow_ops c)) in *.
  destruct (He (length A) e) as [_ Hv]; [by apply list_lookup_middle|].
  pose proof (merge_value_run (slot_addr u (length A)) (ve_val e) (ve_val r) (ve_k r) p (vo_k _ Hr) Hv) as Em.
  set (v := merge_val _ _ _) in *. set (x := slot_addr u (length A)) in *.
  assert (vent_ok e) as Hoke by (apply (Forall_lookup_1 _ _ (length A) e Hok); by apply list_lookup_middle).
  assert (0 ≤ v < 2 ^ 64) as Hvr by (apply merge_val_range; [apply Hoke|apply Hr]).
  set (e' := VEnt (ve_ptr e) v (ve_k e)).
  eexists (MState (MEnv (dram_store p (x + 8) (le_bytes 8 v)) al) c), (A ++ e' :: B). split_and!.
  - erewrite bind_ok; [reflexivity|]. unfold lift_pm, on_env, on_pm. cbn [me_pm ms_env]. by rewrite Em.
  - apply step_store. unfold x, slot_addr, ulog_data. lia.
  - assert (length (A ++ e' :: B) = length (A ++ e :: B)) as Hlen by (by rewrite !length_app).
    split; cbn [ms_env ms_ctx me_pm pm_mem dram_store]; rewrite ?Hlen; try done.
    + apply Forall_app in Hok as [H1 H2]. apply Forall_cons_1 in H2 as [H2 H3].
      apply Forall_app. split; [done|]. constructor; [|done]. destruct H2. by split.
    + by apply merged_entries.
    + intros _. rewrite rd64_wr_out; [apply Hend; by destruct A|]. rewrite length_le_bytes.
      unfold x, u, slot_addr. rewrite length_app. cbn [length]. lia.
    + rewrite <- Hh. apply rd64_wr_out. rewrite length_le_bytes. unfold x, u, slot_addr, ulog_data. lia.
  - by rewrite !length_app.
  - intros a (y & Hy & <-). apply elem_of_app in Hy as [Hy|[->|Hy]%elem_of_cons].
    + exists y. split; [apply elem_of_app; by left|done].
    + exists e. split; [apply elem_of_app; right; left|done].
    + exists y. split; [apply elem_of_app; right; by right|done].
  - rewrite !fmap_app, !fmap_cons. unfold vent_op at 2 4 5. unfold e'. cbn [ve_k ve_ptr ve_val]. rewrite Hk, Hp.
    apply merge_equiv; [apply Hr|apply Hr|]. apply Forall_app in Hok as [_ HokB]. apply Forall_cons_1 in HokB as [_ HokB].
    rewrite Forall_forall in HB, HokB |- *. intros y Hy. split; [by apply HokB|by apply HB].
Qed.

(** ** Appending an entry *)

Lemma created_entries m u es r : entries_at m u es → Forall vent_ok es → vent_ok r →
  let m' := wr m (slot_addr u (length es)) (val_bytes (ve_ptr r) (ve_val r) (ve_k r)) in
  entries_at m' u (es ++ [r]) ∧ rd64 m' (slot_addr u (length (es ++ [r]))) = 0.
Proof.
  intros He Hok [Hp _ Hv Hk] m'.
  destruct (val_bytes_read m (slot_addr u (length es)) _ _ _ Hp Hv Hk) as [Hat H16]. split.
  - intros i e Hi. destruct (decide (i < length es)%nat) as [Hlt|Hge].
    + rewrite lookup_app_l in Hi by done. eapply val_entry_ext; [|by apply He].
      intros a Ha. apply rd_wr_out. unfold slot_addr in *. rewrite length_val_bytes. lia.
    + pose proof (lookup_lt_Some _ _ _ Hi) as Hl. rewrite length_app in Hl. simpl in Hl.
      assert (i = length es) as -> by lia. rewrite list_lookup_middle in Hi by done. by injection Hi as <-.
  - rewrite length_app. unfold slot_addr in *. rewrite <- H16. unfold m'. f_equal. simpl. lia.
Qed.

(** The queue takes the new entry, or stays empty when its buffer cannot be allocated. *)
Lemma track_ok p al c x l : vecq_inv (oc_merge_entries c) l → front (oc_merge_entries c) = 0 →
  capacity (oc_merge_entries c) = 0 ∨ capacity (oc_merge_entries c) = 64 → (length l < 64)%nat →
  ∃ q al' l', operation_merge_entry_add x (MState (MEnv p al) c) =
      (Ok tt, MState (MEnv p al') (set_merge q c)) ∧
    vecq_inv q l' ∧ front q = 0 ∧ (capacity q = 0 ∨ capacity q = 64) ∧
    (l' = l ++ [x] ∨ (l' = [] ∧ l = [])) ∧ (∀ y, y ∈ al' → y ∈ al).
Proof using.
  intros Hq Hf Hc Hl. pose proof (size_length _ _ Hq) as Hs. pose proof (vq_fits _ _ Hq) as Hfit.
  unfold operation_merge_entry_add. erewrite bind_ok by reflexivity.
  change ((_ ∘ ms_ctx) (MState (MEnv p al) c)) with (VECQ_SIZE (oc_merge_entries c)) at 1.
  rewrite Hs, (proj2 (Z.eqb_neq (len l) OP_MERGE_SEARCH)) by (unfold OP_MERGE_SEARCH; lia).
  do 2 (erewrite bind_ok by reflexivity).
  change ((_ ∘ ms_ctx) (MState (MEnv p al) c)) with (capacity (oc_merge_entries c) =? VECQ_SIZE (oc_merge_entries c)).
  set (full := capacity _ =? _).
  assert (∃ ok al', (if full then a ← on_env Alloc; mret (bool_decide (is_Some a)) else mret true) (MState (MEnv p al) c) =
    (Ok ok, MState (MEnv p al') c) ∧ (∀ y, y ∈ al' → y ∈ al)) as (ok & al' & E & Hal).
  { destruct full; [|by exists true, al]. destruct al as [|a al0]; [eexists _, []; split; [reflexivity|done]|].
    eexists _, al0. split; [reflexivity|]. intros y Hy. by right. }
  erewrite bind_ok by exact E.
  destruct (enqueue_run ok (oc_merge_entries c) l x Hq) as (q & Eq & Hfq & Hq' & Hcq);
    [intros _; exists 0; lia|destruct Hc as [-> | ->]; lia|].
  exists q, al', (if enqueue_result ok (oc_merge_entries c) is Ok _ then l ++ [x] else l).
  split_and!; [|done|congruence| | |done].
  - unfold ignore, on_merge. cbn [ms_ctx ms_env]. rewrite Eq. unfold enqueue_result.
    destruct (capacity _ =? _), ok; reflexivity.
  - rewrite Hcq. fold full. unfold grown_capacity. destruct full eqn:Ef, ok; simpl; try done.
    destruct Hc as [-> | Hc]; [by right|]. unfold full in Ef. bool_hyps. lia.
  - unfold enqueue_result. fold full. destruct full eqn:Ef, ok; simpl; auto. right.
    unfold full in Ef. bool_hyps. destruct l; [done|]. destruct Hc as [Hc|Hc]; rewrite Hc in *; simpl in *; lia.
Qed.

(** A new entry at the end of the log, with its place in the queue. *)
Lemma append_ok s es t r : shadow_inv s es t → vent_ok r → D ≤ ol_ulog (plog s) →
  ol_offset (plog s) + 64 < ol_capacity (plog s) →
  ∃ s' t', (l ← get_ctx (oplog LOG_PERSISTENT);
      entry ← lift_pm (ulog_entry_val_create shadow_ops (ol_ulog l) (ol_offset l) (ve_ptr r) (ve_val r) (Z.shiftl (ve_k r) 61));
      (if decide (LOG_PERSISTENT = LOG_PERSISTENT) then operation_merge_entry_add entry else mret tt);;
      size ← lift_pm (in_mem (λ m, ulog_entry_size m entry));
      mod_ctx (set_oplog LOG_PERSISTENT (OperationLog (ol_capacity l) (ol_offset l + size) (ol_ulog l)))) s = (Ok tt, s') ∧
    shadow_step D s s' ∧ shadow_inv s' (es ++ [r]) t'.
Proof.
  intros Hi Hr HD Hroom. pose proof Hi as [Hok Ho He Hend Hq Hf Hqc Ht Hw Hrm Hc Hh].
  destruct s as [[p al] c]. cbn [ms_env ms_ctx me_pm] in *. set (l := oc_pshadow_ops c) in *. set (u := ol_ulog l) in *.
  set (x := slot_addr u (length es)). set (bs := val_bytes (ve_ptr r) (ve_val r) (ve_k r)).
  destruct (created_entries (pm_mem p) u es r He Hok Hr) as [He' Hend']. fold x bs in He', Hend'.
  erewrite bind_ok by reflexivity. change ((oplog LOG_PERSISTENT ∘ ms_ctx) _) with l.
  assert (ulog_data u + ol_offset l = x) as Ex by (unfold x, slot_addr; lia).
  erewrite (bind_ok _ _ _ x (MState (MEnv (dram_store p x bs) al) c)).
  2: { unfold lift_pm, on_env, on_pm, ulog_entry_val_create. cbn [me_pm ms_env]. fold u. by rewrite Ex. }
  rewrite decide_True by done.
  assert (t < 64)%nat as Ht64. { destruct Hc as [y Hy]. lia. }
  destruct (track_ok (dram_store p x bs) al c x _ Hq Hf Hqc) as (q & al' & l' & Et & Hq' & Hf' & Hqc' & Hl' & Hal);
    [by rewrite length_fmap, length_seq|].
  erewrite bind_ok by exact Et.
  assert (vent_ok r ∧ (es ++ [r]) !! length es = Some r) as [[Hp _ _ Hk] Hlast] by (split; [done|by apply list_lookup_middle]).
  destruct (val_entry_reads _ _ _ _ _ Hp Hk (He' _ _ Hlast)) as (_ & _ & _ & Hsz & _).
  erewrite (bind_ok _ _ _ 16).
  2: { unfold lift_pm, on_env, on_pm, in_mem, gets. cbn. fold x in Hsz. by rewrite Hsz. }
  set (t' := if decide (l' = [] ∧ t = 0%nat) then 0%nat else S t).
  eexists _, t'. split; [reflexivity|]. split.
  - split; simpl; [by eexists _, _|done| |done|done|done].
    intros a Ha. apply rd_wr_out. unfold x, slot_addr, ulog_data. lia.
  - assert (length (es ++ [r]) = S (length es)) as Hlen by (rewrite length_app; simpl; lia).
    assert (l' = slot_addr u <$> seq (length (es ++ [r]) - t') t') as El.
    { unfold t'. destruct Hl' as [-> |[-> Hz]].
      - rewrite decide_False by (intros [?%app_eq_nil _]; naive_solver). rewrite Hlen, seq_S, fmap_app. simpl.
        replace (length es - t + t)%nat with (length es) by lia. done.
      - rewrite decide_True; [done|]. split; [done|]. apply fmap_nil_inv in Hz. by destruct t. }
    assert (t' ≤ S t)%nat by (unfold t'; case_decide; lia).
    split; cbn [ms_env ms_ctx me_pm pm_mem dram_store set_oplog set_pshadow set_merge oc_pshadow_ops oc_merge_entries
      ol_offset ol_capacity ol_ulog]; rewrite ?Hlen; try done; fold u.
    + apply Forall_app. split; [done|by constructor].
    + rewrite Ho. lia.
    + intros _. by rewrite <- Hlen.
    + rewrite <- Hlen. by rewrite <- El.
    + unfold t'. case_decide; lia.
    + lia.
    + destruct Hc as [y Hy]. lia.
    + etransitivity; [|exact Hh]. apply rd64_wr_out. unfold x, slot_addr, ulog_data, bs. rewrite length_val_bytes. lia.
Qed.

(** ** [operation_add_typed_entry] *)

Lemma add_entry_ok s es t r : shadow_inv s es t → vent_ok r → alloc_ok D s → D ≤ ol_ulog (plog s) →
  Z.of_nat (length es) < 2 ^ 59 →
  ∃ res s', operation_add_typed_entry (ve_ptr r) (ve_val r) (Z.shiftl (ve_k r) 61) LOG_PERSISTENT s = (res, s') ∧
    shadow_step D s s' ∧
    ((res = Ok tt ∧ ∃ es' t', shadow_inv s' es' t' ∧ (length es' ≤ S (length es))%nat ∧
        (∀ a, changes es' a → changes (es ++ [r]) a) ∧
        uops_equiv (vent_op <$> es') ((vent_op <$> es) ++ [vent_op r])) ∨
     (res = Fail ENOMEM ∧ shadow_inv s' es t ∧ ol_offset (plog s) + 64 = ol_capacity (plog s))).
Proof.
  intros Hi Hr Ha HD Hn. unfold operation_add_typed_entry.
  destruct (grow_ok s es t Hi Ha Hn) as (res & s1 & E1 & Hs1 & [(-> & (t1 & Hi1) & Hroom)|[-> Hi1]]).
  2: { erewrite bind_fail by exact E1. eexists _, s1. split; [done|]. split; [done|]. by right. }
  erewrite bind_ok by exact E1. rewrite decide_True by done.
  assert (D ≤ ol_ulog (plog s1)) as HD1 by (by apply (ss_ulog _ _ _ Hs1)).
  destruct (try_merge_ok s1 es t1 r Hi1 Hr HD1) as [E2|(s2 & es2 & E2 & Hs2 & Hi2 & Hl2 & Hc2 & He2)].
  - erewrite bind_ok by exact E2. cbv iota.
    destruct (append_ok s1 es t1 r Hi1 Hr HD1 Hroom) as (s2 & t2 & E3 & Hs2 & Hi2).
    eexists _, s2. split; [exact E3|]. split; [by eapply step_trans|]. left. split; [done|].
    exists (es ++ [r]), t2. split_and!; [done|rewrite length_app; simpl; lia|done|]. by rewrite fmap_app.
  - erewrite bind_ok by exact E2. eexists _, s2. split; [done|]. split; [by eapply step_trans|]. left. split; [done|].
    exists es2, t1. split_and!; [done|lia| |done]. intros a Hca. by apply changes_app_l, Hc2.
Qed.

(** Requests made one after the other, until one fails. *)
Fixpoint add_all (rs : list vent) : M mstate unit :=
  match rs with
  | [] => mret tt
  | r :: rs => operation_add_typed_entry (ve_ptr r) (ve_val r) (Z.shiftl (ve_k r) 61) LOG_PERSISTENT;; add_all rs
  end.

Lemma add_all_ok rs : ∀ s es t, shadow_inv s es t → Forall vent_ok rs → alloc_ok D s → D ≤ ol_ulog (plog s) →
  Z.of_nat (length es + length rs) < 2 ^ 59 →
  ∃ res s' done rest es' t', add_all rs s = (res, s') ∧ rs = done ++ rest ∧
    (res = Ok tt ∧ rest = [] ∨ res = Fail ENOMEM ∧ ol_capacity (plog s) < 16 * Z.of_nat (length es + length rs) + 64) ∧ shadow_step D s s' ∧ shadow_inv s' es' t' ∧
    (length es' ≤ length es + length done)%nat ∧ (∀ a, changes es' a → changes (es ++ done) a) ∧
    uops_equiv (vent_op <$> es') ((vent_op <$> es) ++ (vent_op <$> done)).
Proof.
  induction rs as [|r rs IH]; intros s es t Hi Hr Ha HD Hn; cbn [add_all length] in *.
  { exists (Ok tt), s, [], [], es, t. split_and!; [done|done|by left|apply step_refl|done|lia|by rewrite app_nil_r|]. simpl. by rewrite app_nil_r. }
  apply Forall_cons_1 in Hr as [Hr Hrs].
  destruct (add_entry_ok s es t r Hi Hr Ha HD ltac:(lia)) as (res & s1 & E1 & Hs1 & [(-> & es1 & t1 & Hi1 & Hl1 & Hc1 & He1)|(-> & Hi1 & Hfull)]).
  - erewrite bind_ok by exact E1. pose proof (ss_capacity _ _ _ Hs1) as Hcap.
    destruct (IH s1 es1 t1 Hi1 Hrs (step_alloc _ _ _ Hs1 Ha) (ss_ulog _ _ _ Hs1 HD) ltac:(lia))
      as (res & s2 & dn & rest & es2 & t2 & E2 & -> & Hres & Hs2 & Hi2 & Hl2 & Hc2 & He2).
    exists res, s2, (r :: dn), rest, es2, t2. split_and!; [done|done|destruct Hres as [?|[? ?]]; [by left|right; split; [done|lia]]|by eapply step_trans|done|cbn [length]; lia| |].
    { intros a Hca. rewrite cons_middle, (assoc_L (++)). apply (changes_app _ (es ++ [r]) _ _ Hc1), Hc2, Hca. }
    rewrite He2, He1, fmap_cons, <- (assoc_L (++)). done.
  - erewrite bind_fail by exact E1. exists (Fail ENOMEM), s1, [], (r :: rs), es, t.
    rewrite (sh_offset _ _ _ Hi) in Hfull. split_and!; [done|done|right; split; [done|lia]|done|done|lia|by rewrite app_nil_r|]. simpl. by rewrite app_nil_r.
Qed.
End steps.
