(* ===== verification/MemopsRedo.v ===== *)
(** * libpmemobj: redo logs of value entries

    What the walk over a log of value entries finds, what [ulog_store] writes and that recovery
    recognises it, and what [operation_process_persistent_redo] does to the memory. *)

From stdpp Require Import base gmap list numbers.
From S2P Require Import Prelude Memory Pmem Util Ulog UlogSpec UlogEntry UlogTheorems Vecq Memops MemopsMerge.
Local Open Scope Z_scope.

(** ** Logs of value entries *)

Record value_log (m : mem) (u : Z) (es : list vent) : Prop := {
  vl_ok : Forall vent_ok es;
  vl_entries : entries_at m u es;
  vl_end : rd64 m (slot_addr u (length es)) = 0;
  vl_cap : 16 * Z.of_nat (length es) < ulog_f_capacity m u
}.

(** The bytes of the log that are looked at. *)
Definition log_bytes (u : Z) (es : list vent) (a : Z) : Prop := u ≤ a < slot_addr u (length es) + 16.

(** No entry changes the log. *)
Definition log_apart (u : Z) (es : list vent) : Prop :=
  Forall (λ e, ∀ a, ve_ptr e ≤ a < ve_ptr e + 8 → ¬ log_bytes u es a) es.

(** Only the capacity and the slots matter. *)
Lemma value_log_body m m' u es : (∀ a, ulog_data u ≤ a < slot_addr u (length es) + 16 → rd m' a = rd m a) →
  ulog_f_capacity m' u = ulog_f_capacity m u → value_log m u es → value_log m' u es.
Proof.
  intros H Ec [Hok He Hend Hc]. unfold slot_addr, ulog_data in *. split; [done| | |by rewrite Ec].
  - apply (entries_ext m); [|done]. intros a Ha. apply H. unfold slot_addr, ulog_data in *. lia.
  - rewrite <- Hend. apply rd64_ext. intros a Ha. apply H. unfold slot_addr, ulog_data in *. lia.
Qed.

Lemma value_log_ext m m' u es : (∀ a, log_bytes u es a → rd m' a = rd m a) → value_log m u es → value_log m' u es.
Proof.
  intros H. unfold log_bytes, slot_addr, ulog_data in *. apply value_log_body.
  - intros a Ha. apply H. unfold slot_addr, ulog_data in *. lia.
  - unfold ulog_f_capacity. apply rd64_ext. intros a Ha. apply H. lia.
Qed.

Lemma slot_next u i : slot_addr u i = ulog_data u + 16 * Z.of_nat i.
Proof. done. Qed.

Section value_log.
Context (m : mem) (u : Z) (es : list vent) (Hl : value_log m u es) (Hn : Z.of_nat (length es) < 2 ^ 59).

(** The entry in a slot, and its effect. *)
Lemma slot_entry i e : es !! i = Some e →
  ulog_entry_valid m (slot_addr u i) = Ok true ∧ ulog_entry_size m (slot_addr u i) = 16 ∧
  uop_at m (slot_addr u i) = vent_op e ∧ is_buf m (slot_addr u i) = false.
Proof using Hl.
  intros Hi. pose proof (Forall_lookup_1 _ _ _ _ (vl_ok _ _ _ Hl) Hi) as [Hp _ _ Hk].
  destruct (val_entry_reads _ _ _ _ _ Hp Hk (vl_entries _ _ _ Hl i e Hi)) as (Ht & _ & Hv & Hs & Ho).
  split_and!; [done..|]. unfold is_buf. rewrite Ht. by assert (ve_k e = 0 ∨ ve_k e = 1 ∨ ve_k e = 2) as [-> |[-> | ->]] by lia.
Qed.

Lemma end_slot : ulog_entry_valid m (slot_addr u (length es)) = Ok false ∧ is_buf m (slot_addr u (length es)) = false.
Proof using Hl.
  split; unfold ulog_entry_valid, is_buf, ulog_entry_type, entry_f_offset; by rewrite (vl_end _ _ _ Hl).
Qed.

Lemma parse_values fuel : ∀ i, (i ≤ length es)%nat → (length es - i < fuel)%nat →
  parse_in fuel m u (16 * Z.of_nat i) = Ok (slot_addr u <$> seq i (length es - i), true).
Proof using Hl Hn.
  pose proof (vl_cap _ _ _ Hl) as Hc. induction fuel as [|fuel IH]; intros i Hi Hf; [lia|]. cbn [parse_in].
  rewrite (proj2 (Z.ltb_lt _ _)) by lia. rewrite <- slot_next. destruct (decide (i = length es)) as [->|Hne].
  - rewrite (proj1 end_slot), Nat.sub_diag. done.
  - destruct (lookup_lt_is_Some_2 es i ltac:(lia)) as [e He].
    destruct (slot_entry i e He) as (-> & -> & _). rewrite u64_id by lia.
    replace (16 * Z.of_nat i + 16) with (16 * Z.of_nat (S i)) by lia. rewrite IH by lia.
    by replace (length es - i)%nat with (S (length es - S i)) by lia.
Qed.

Lemma slot_reads i a : (i ≤ length es)%nat → entry_reads m (slot_addr u i) a → log_bytes u es a.
Proof using Hl.
  intros Hi Ha. assert (is_buf m (slot_addr u i) = false) as Hb.
  { destruct (decide (i = length es)) as [->|Hne]; [apply end_slot|].
    destruct (lookup_lt_is_Some_2 es i ltac:(lia)) as [e He]. by destruct (slot_entry i e He) as (_ & _ & _ & ?). }
  destruct Ha as [Ha|[Hb' _]]; [|congruence]. unfold log_bytes, slot_addr, ulog_data in *. lia.
Qed.

Lemma covers_values fuel : ∀ i, (i ≤ length es)%nat → covers_in (log_bytes u es) fuel m u (16 * Z.of_nat i).
Proof using Hl Hn.
  induction fuel as [|fuel IH]; intros i Hi; cbn [covers_in].
  all: split; [intros a Ha; unfold log_bytes, slot_addr, ulog_data; lia|intros _; try done].
  rewrite <- slot_next. split; [intros a; by apply slot_reads|]. intros Hv.
  destruct (decide (i = length es)) as [->|Hne]; [rewrite (proj1 end_slot) in Hv; done|].
  destruct (lookup_lt_is_Some_2 es i ltac:(lia)) as [e He]. destruct (slot_entry i e He) as (_ & -> & _).
  rewrite u64_id by lia. replace (16 * Z.of_nat i + 16) with (16 * Z.of_nat (S i)) by lia. apply IH. lia.
Qed.

Lemma values_replayable fuel : log_apart u es → (length es < fuel)%nat →
  replayable fuel m u (vent_op <$> es) (log_bytes u es).
Proof using Hl Hn.
  intros Ha Hf. pose proof (parse_values fuel 0 ltac:(lia) ltac:(lia)) as Hp. rewrite Nat.sub_0_r in Hp.
  change (16 * Z.of_nat 0) with 0 in Hp. split.
  - exists (slot_addr u <$> seq 0 (length es)). split.
    + unfold ulog_entries. destruct fuel as [|fuel]; [lia|]. cbn [parse_logs]. by rewrite Hp.
    + apply list_eq. intros i. rewrite !list_lookup_fmap. destruct (es !! i) as [e|] eqn:He.
      * rewrite lookup_seq_lt by (by eapply lookup_lt_Some). simpl. by destruct (slot_entry i e He) as (_ & _ & -> & _).
      * rewrite lookup_seq_ge; [done|]. by apply lookup_ge_None.
  - destruct fuel as [|fuel]; [lia|]. cbn [covers_logs]. split; [apply (covers_values (S fuel) 0); lia|].
    rewrite Hp. by intros es' [=].
  - apply Forall_fmap. eapply Forall_impl; [|exact Ha]. intros e He a Ht. apply He.
    unfold uop_touches, vent_op, val_op in Ht. simpl in Ht. repeat case_match; done.
Qed.

Lemma base_nbytes_values fuel evs : ∀ i, (i ≤ length es)%nat → (length es - i < fuel)%nat →
  base_nbytes_loop fuel u (16 * Z.of_nat i) (Pmem m evs) = (Ok (16 * Z.of_nat (length es)), Pmem m evs).
Proof using Hl Hn.
  pose proof (vl_cap _ _ _ Hl) as Hc. induction fuel as [|fuel IH]; intros i Hi Hf; [lia|]. cbn [base_nbytes_loop].
  erewrite bind_ok by reflexivity. cbn [compose pm_mem]. rewrite (proj2 (Z.ltb_lt _ _)) by lia. rewrite <- slot_next.
  destruct (decide (i = length es)) as [->|Hne].
  - erewrite (bind_ok _ _ _ false); [done|]. unfold entry_valid, try_mem. cbn [pm_mem]. by rewrite (proj1 end_slot).
  - destruct (lookup_lt_is_Some_2 es i ltac:(lia)) as [e He]. destruct (slot_entry i e He) as (Hv & Hs & _).
    erewrite (bind_ok _ _ _ true).
    2: { unfold entry_valid, try_mem. cbn [pm_mem]. by rewrite Hv. }
    cbn [negb]. erewrite bind_ok by reflexivity. cbn [compose pm_mem]. rewrite Hs, u64_id by lia.
    replace (16 * Z.of_nat i + 16) with (16 * Z.of_nat (S i)) by lia. apply IH; lia.
Qed.
End value_log.

(** ** Storing the shadow log *)

(** The aligned size of a log with its end mark. *)
Definition stored_nbytes (es : list vent) : Z := CACHELINE_ALIGN (u64 (16 * Z.of_nat (length es) + 8)).
Definition next_field (next : list Z) : Z := match next with [] => 0 | off :: _ => off end.

(** The header that [ulog_store] completes in the shadow log. *)
Definition stored_src (m : mem) (u : Z) (es : list vent) (next : list Z) : mem :=
  let m1 := wr64 m (u + 8) (next_field next) in
  let bs := rdn m1 u (Z.to_nat (64 + 16 * Z.of_nat (length es))) in
  wr m1 u (splice bs 0 (le_bytes 8 (checksum_value bs 0 0))).
Definition stored_image (m : mem) (u : Z) (es : list vent) (next : list Z) : list Z :=
  rdn (stored_src m u es next) u (Z.to_nat (64 + stored_nbytes es)).

Lemma stored_nbytes_eq es : Z.of_nat (length es) < 2 ^ 59 →
  stored_nbytes es = roundup (16 * Z.of_nat (length es) + 8) 64 ∧
  16 * Z.of_nat (length es) + 8 ≤ stored_nbytes es < 16 * Z.of_nat (length es) + 72.
Proof.
  intros Hn. unfold stored_nbytes, CACHELINE_ALIGN, CACHELINE_SIZE. rewrite u64_id, ALIGN_UP_64 by lia.
  split; [done|]. pose proof (roundup_bounds (16 * Z.of_nat (length es) + 8) 64 ltac:(lia)). lia.
Qed.

Section store.
Context (m : mem) (u : Z) (es : list vent) (next : list Z) (Hn : Z.of_nat (length es) < 2 ^ 59).
Local Abbreviation nb := (16 * Z.of_nat (length es)).
Local Abbreviation m1 := (wr64 m (u + 8) (next_field next)).
Local Abbreviation bs := (rdn m1 u (Z.to_nat (64 + nb))).

Lemma header_bytes : len bs = 64 + nb ∧ len bs mod 4 = 0 ∧ Forall is_byte (splice bs 0 (le_bytes 8 (checksum_value bs 0 0))) ∧
  len (splice bs 0 (le_bytes 8 (checksum_value bs 0 0))) = 64 + nb.
Proof using Hn.
  assert (len bs = 64 + nb) as Hb by (rewrite length_rdn; lia).
  split_and!; [done| | |].
  - rewrite Hb. replace (64 + nb) with ((16 + 4 * Z.of_nat (length es)) * 4) by lia. apply Z_mod_mult.
  - unfold splice. rewrite !Forall_app. split_and!; [by apply Forall_take, rdn_bytes|auto with pmdk|by apply Forall_drop, rdn_bytes].
  - rewrite length_splice; [done|lia|]. rewrite length_le_bytes. lia.
Qed.

(** Outside of the two words of the header the source is as before. *)
Lemma stored_src_out a : ¬ (u ≤ a < u + 16) → rd (stored_src m u es next) a = rd m a.
Proof using Hn.
  intros Ha. destruct header_bytes as (Hb & _ & HB & Hs). unfold stored_src. cbv zeta.
  rewrite rd_wr, Hs. case_decide as Hd.
  - rewrite nth_mod_byte by done. rewrite nth_lookup, lookup_splice_out by (rewrite ?length_le_bytes; lia).
    rewrite <- nth_lookup, nth_rdn by lia. unfold wr64. rewrite rd_wr_out by (rewrite length_le_bytes; lia). f_equal. lia.
  - unfold wr64. apply rd_wr_out. rewrite length_le_bytes. lia.
Qed.

Lemma stored_src_sum : rdn (stored_src m u es next) u (Z.to_nat (64 + nb)) = splice bs 0 (le_bytes 8 (checksum_value bs 0 0)).
Proof using Hn.
  destruct header_bytes as (Hb & _ & HB & Hs). unfold stored_src. cbv zeta. apply rdn_wr_same'; [done|]. lia.
Qed.

Lemma store_run o d B p : stored_nbytes es ≤ B → B < 2 ^ 64 →
  ulog_store o d m u nb B next p =
    (Ok (stored_src m u es next), op_memcpy o p d (stored_image m u es next) PMEMOBJ_F_MEM_WC).
Proof using Hn.
  intros HB HB'. destruct (stored_nbytes_eq es Hn) as [_ Hsn]. destruct header_bytes as (Hb & Hm4 & _ & _).
  unfold ulog_store, sizeof_ulog_entry_base. fold (stored_nbytes es).
  rewrite (Z.min_r B (stored_nbytes es)), Z.sub_diag by lia.
  erewrite (bind_ok _ _ _ tt p) by (by destruct next). rewrite Z.ltb_irrefl.
  erewrite bind_ok by reflexivity. rewrite (Z.min_r B nb) by lia. fold (next_field next).
  set (x := try_mem _). assert (x p = (Ok (true, stored_src m u es next), p)) as Ex.
  { unfold x, try_mem, ulog_checksum, SIZEOF_ULOG, sizeof_ulog. rewrite u64_id by lia.
    rewrite checksum_insert_ok by done. done. }
  erewrite bind_ok by exact Ex. erewrite bind_ok by reflexivity. cbn [snd].
  unfold SIZEOF_ULOG, sizeof_ulog. by rewrite u64_id by lia.
Qed.
End store.

(** ** The stored log is what recovery looks for *)

Section recognised.
Context (m : mem) (u : Z) (es : list vent) (next : list Z) (Hn : Z.of_nat (length es) < 2 ^ 59).
Context (Hl : value_log m u es).

(** [x] holds the image of the shadow log at [d]. *)
Definition image_at (x : mem) (d : Z) : Prop :=
  ∀ k, 0 ≤ k < 64 + stored_nbytes es → rd x (d + k) = rd (stored_src m u es next) (u + k).

Lemma image_word x d k : image_at x d → 0 ≤ k → k + 8 ≤ 64 + stored_nbytes es →
  rd64 x (d + k) = rd64 (stored_src m u es next) (u + k).
Proof using.
  intros Hx Hk Hk'. unfold rd64. f_equal. apply (nth_ext _ _ 0 0); [by rewrite !length_rdn|].
  intros i Hi. rewrite length_rdn in Hi. rewrite !nth_rdn by done.
  rewrite <- !Z.add_assoc. apply Hx. lia.
Qed.

Lemma image_word_out x d k : image_at x d → 16 ≤ k → k + 8 ≤ 64 + stored_nbytes es → rd64 x (d + k) = rd64 m (u + k).
Proof using Hn.
  intros Hx Hk Hk'. rewrite (image_word x d k) by (done || lia). apply rd64_ext. intros a Ha.
  apply stored_src_out; [done|lia].
Qed.

Lemma image_log x d : image_at x d → value_log x d es.
Proof using Hn Hl.
  intros Hx. destruct (stored_nbytes_eq es Hn) as [_ Hsn]. destruct Hl as [Hok He Hend Hc].
  split; [done| | |].
  - intros i e Hi. pose proof (lookup_lt_Some _ _ _ Hi). destruct (He i e Hi) as [H1 H2].
    unfold slot_addr, ulog_data in *. rewrite <- !Z.add_assoc in *.
    split; rewrite <- ?Z.add_assoc, image_word_out by (done || lia); done.
  - rewrite <- Hend. unfold slot_addr, ulog_data in *. rewrite <- !Z.add_assoc. apply image_word_out; [done|lia..].
  - unfold ulog_f_capacity in *. rewrite image_word_out; [done|done|lia|lia].
Qed.

Lemma image_needed fuel x d evs : image_at x d → es ≠ [] → (length es < fuel)%nat →
  ulog_recovery_needed fuel d true (Pmem x evs) = (Ok true, Pmem x evs).
Proof using Hn Hl.
  intros Hx Hne Hf. pose proof (image_log x d Hx) as Hlx. destruct (stored_nbytes_eq es Hn) as [_ Hsn].
  pose proof (base_nbytes_values x d es Hlx Hn fuel evs 0 ltac:(lia) ltac:(lia)) as Eb.
  unfold ulog_recovery_needed, ulog_base_nbytes. erewrite bind_ok by exact Eb.
  erewrite bind_ok by reflexivity. cbn [compose pm_mem]. pose proof (vl_cap _ _ _ Hlx) as Hc.
  rewrite Z.min_l by lia. assert (16 * Z.of_nat (length es) ≠ 0) as H0 by (destruct es; [done|simpl; lia]).
  rewrite (proj2 (Z.eqb_neq _ _) H0). erewrite (bind_ok _ _ _ (true, x)); [done|].
  unfold try_mem, ulog_checksum, SIZEOF_ULOG, sizeof_ulog. cbn [pm_mem]. rewrite u64_id by lia.
  assert (rdn x d (Z.to_nat (64 + 16 * Z.of_nat (length es))) =
    rdn (stored_src m u es next) u (Z.to_nat (64 + 16 * Z.of_nat (length es)))) as ->.
  { apply (nth_ext _ _ 0 0); [by rewrite !length_rdn|]. intros i Hi. rewrite length_rdn in Hi.
    rewrite !nth_rdn by done. apply Hx. lia. }
  rewrite stored_src_sum by done. destruct (header_bytes m u es next Hn) as (Hb & Hm4 & _).
  rewrite checksum_splice_ok; [done|done|done|done|lia].
Qed.
End recognised.

(** ** Recovery of a log of value entries *)

Section recover.
Context (o : pmem_ops) `{!OpsSpec o} (fuel : nat).

Lemma needed_values x d es evs : value_log x d es → Z.of_nat (length es) < 2 ^ 59 → (length es < fuel)%nat →
  ∃ b, ulog_recovery_needed fuel d true (Pmem x evs) = (Ok b, Pmem x evs).
Proof using.
  intros Hl Hn Hf. pose proof (base_nbytes_values x d es Hl Hn fuel evs 0 ltac:(lia) ltac:(lia)) as Eb.
  unfold ulog_recovery_needed, ulog_base_nbytes. erewrite bind_ok by exact Eb.
  erewrite bind_ok by reflexivity. cbn [compose pm_mem]. pose proof (vl_cap _ _ _ Hl) as Hc. rewrite Z.min_l by lia.
  destruct (_ =? 0); [by eexists|].
  set (k := 64 + 16 * Z.of_nat (length es)).
  assert (∃ b bs, util_checksum (rdn x d (Z.to_nat (SIZEOF_ULOG (16 * Z.of_nat (length es))))) 0 false 0 = Ok (b, bs)) as (b & bs & E).
  { unfold util_checksum. rewrite mod4_eqb; [eauto|]. rewrite length_rdn. unfold SIZEOF_ULOG, sizeof_ulog.
    rewrite u64_id, Z2Nat.id by lia. replace (64 + 16 * Z.of_nat (length es)) with ((16 + 4 * Z.of_nat (length es)) * 4) by lia.
    apply Z_mod_mult. }
  exists b. erewrite (bind_ok _ _ _ (b, x)); [done|]. unfold try_mem, ulog_checksum. cbn [pm_mem]. by rewrite E.
Qed.

(** Recovery replays the log when it decides that it must, and changes nothing but the header otherwise. *)
Lemma recover_values x d es : value_log x d es → log_apart d es → Z.of_nat (length es) < 2 ^ 59 → (length es < fuel)%nat →
  ∃ b p', ulog_recovery_needed fuel d true (Pmem x []) = (Ok b, Pmem x []) ∧
    ulog_recover o fuel d (Pmem x []) = (Ok tt, p') ∧
    ∀ a, ¬ (d ≤ a < d + 64) → rd (pm_mem p') a = rd (if b then uops_apply x (vent_op <$> es) else x) a.
Proof using Type*.
  intros Hl Ha Hn Hf. destruct (needed_values x d es [] Hl Hn Hf) as [b Eb].
  unfold ulog_recover. exists b. destruct b.
  - destruct (process_run o fuel x d (vent_op <$> es) (log_bytes d es) (Pmem x [])) as (p1 & E1 & Hap);
      [by apply values_replayable|done|].
    destruct (clobber_frame o d None p1) as (p2 & E2 & Hp2).
    exists p2. split; [done|]. split.
    + erewrite bind_ok by exact Eb. cbv iota. by erewrite bind_ok by exact E1.
    + intros a Hna. rewrite Hp2 by done. by rewrite (ap_mem _ _ _ Hap).
  - exists (Pmem x []). split; [done|]. split; [by erewrite bind_ok by exact Eb|done].
Qed.
End recover.
