(* ===== verification/MemopsCrash.v ===== *)
(** * libpmemobj: power failures during a redo operation

    On a platform that writes back in the order of the calls ([clflush], or [msync] when the pool is not
    persistent memory) the stores of a redo operation are: the log, every change, the
    invalidation of the log.  This file follows a failure at any of them and the recovery after it. *)

From stdpp Require Import base gmap list numbers strings.
From S2P Require Import Prelude Memory Pmem Util Ulog UlogSpec UlogEntry UlogTheorems Vecq Memops MemopsMerge MemopsRedo.
Local Open Scope Z_scope.

(** ** Persistence functions that complete in order *)

Class OrderedOps (o : pmem_ops) : Prop := {
  oo_spec :: OpsSpec o;
  oo_flush p a n f : 0 ≤ a → 0 ≤ n → a + n < 2 ^ 64 →
    ∃ ls, op_flush o p a n f = emit p [EvFlush ls; EvDrain] ∧ ∀ x, a ≤ x < a + n → x / 64 ∈ ls;
  oo_persist p a n f : 0 ≤ a → 0 ≤ n → a + n < 2 ^ 64 →
    ∃ ls, op_persist o p a n f = emit p [EvFlush ls; EvDrain] ∧ ∀ x, a ≤ x < a + n → x / 64 ∈ ls;
  oo_memcpy p d bs : 0 ≤ d → d + len bs < 2 ^ 64 → bs ≠ [] →
    ∃ es, op_memcpy o p d bs PMEMOBJ_F_MEM_WC = Pmem (wr (pm_mem p) d bs) (pm_evs p ++ es) ∧
      durable_write d bs es
}.

(** [clflush]: what [pmem_init_funcs] selects without [clflushopt] and [clwb]. *)
Definition clflush_funcs (F : pmem_funcs) : Prop :=
  flush F = flush_clflush ∧ deep_flush F = flush_clflush ∧ predrain_fence F = predrain_fence_empty.

Lemma clflush_init env : is_str "1" (PMEM_NO_CLFLUSHOPT env) = true → cpu_clwb env = false →
  is_str "1" (PMEM_NO_FLUSH env) = false → auto_flush env = false → clflush_funcs (pmem_init_funcs env).
Proof.
  intros H1 H2 H3 H4. unfold clflush_funcs, pmem_init_funcs, pmem_cpuinfo_to_funcs. rewrite H1, H2, H3, H4.
  by destruct (is_str "0" _), (is_str "1" (PMEM_NO_FENCE env)).
Qed.

Lemma pmem_ordered F : clflush_funcs F → OrderedOps (norep_ops (obj_replica_init_local F true)).
Proof.
  intros (E1 & E2 & E3). split; [apply _|..].
  - intros p a n f Ha Hn Hlt. exists (flush_nolog a n). split; [|intros x Hx; by apply flush_nolog_covers].
    simpl. unfold obj_norep_flush. simpl. unfold pmem_flush. by rewrite E1.
  - intros p a n f Ha Hn Hlt. exists (flush_nolog a n). split; [|intros x Hx; by apply flush_nolog_covers].
    simpl. unfold obj_norep_persist. simpl. unfold pmem_persist, pmem_drain, pmem_flush. rewrite E1, E3.
    unfold emit. simpl. by rewrite app_nil_r.
  - intros p d bs Hd Hlt Hne. eexists. split; [|by apply (dw_flushed d bs (flush_nolog d (len bs))); intros; apply flush_nolog_covers].
    simpl. unfold obj_norep_memcpy. simpl. unfold pmem_memcpy, pmem_memmove, memmove_nodrain.
    rewrite (proj2 (Z.eqb_neq (len bs) 0)) by (destruct bs; simpl; [done|lia]). simpl. rewrite E2.
    unfold emit, pm_store. simpl. by rewrite <- (assoc_L (++)).
Qed.

Lemma nopmem_ordered F : OrderedOps (norep_ops (obj_replica_init_local F false)).
Proof.
  split; [apply _|..].
  1,2: intros p a n f Ha Hn Hlt; eexists; split; [reflexivity|]; intros x Hx; by apply msync_covers.
  intros p d bs Hd Hlt Hne. eexists.
  split; [|by apply (dw_flushed d bs (flush_nolog (ALIGN_DOWN d 4096) (len bs + d mod 4096))); intros; apply msync_covers; lia].
  simpl. unfold obj_norep_memcpy. simpl. unfold obj_nopmem_memcpy, pmem_memcpy, pmem_memmove, memmove_nodrain.
  rewrite (proj2 (Z.eqb_neq (len bs) 0)) by (destruct bs; simpl; [done|lia]). simpl.
  unfold pmem_msync, emit, pm_store. simpl. by rewrite <- (assoc_L (++)).
Qed.

(** ** Write sequences *)

Lemma durable_writes_app ws1 es1 ws2 es2 : durable_writes ws1 es1 → durable_writes ws2 es2 →
  durable_writes (ws1 ++ ws2) (es1 ++ es2).
Proof.
  intros H1 H2. induction H2 as [|ws es off bs es' _ IH Hw]; [by rewrite !app_nil_r|].
  rewrite !(assoc_L (++)). by constructor.
Qed.

Lemma durable_writes_one d bs es : durable_write d bs es → durable_writes [(d, bs)] es.
Proof. intros H. apply (dws_snoc [] [] d bs es); [constructor|done]. Qed.

(** The writes that the changes [ops] consist of, from memory [m] on. *)
Fixpoint writes_of (m : mem) (ops : list uop) : list (Z * list Z) :=
  match ops with
  | [] => []
  | op :: ops => uop_write m op :: writes_of (uop_apply m op) ops
  end.

Lemma wrs_writes ops : ∀ m, wrs m (writes_of m ops) = uops_apply m ops.
Proof.
  induction ops as [|op ops IH]; intros m; [done|]. cbn [writes_of wrs].
  destruct (uop_write m op) as [d bs] eqn:E. assert (uop_apply m op = wr m d bs) as Ea by (unfold uop_apply; by rewrite E).
  rewrite <- Ea, IH. done.
Qed.

(** What a failure during the changes leaves: a mixture, and nothing new elsewhere. *)
Lemma writes_crash ops : ∀ m ws x, ws_crash m (writes_of m ops ++ ws) x →
  (mixture m ops x ∧ ∀ a, Forall (λ op, ¬ uop_touches op a) ops → rd x a = rd m a) ∨
  ws_crash (uops_apply m ops) ws x.
Proof.
  induction ops as [|op ops IH]; intros m ws x Hx; [by right|]. cbn [writes_of app] in Hx.
  destruct (uop_write m op) as [d bs] eqn:E. assert (uop_apply m op = wr m d bs) as Ea by (unfold uop_apply; by rewrite E).
  apply ws_crash_cons in Hx as [Hx|[Hx|Hx]]; rewrite <- ?Ea in Hx.
  - left. split; [intros a; exists 0%nat; apply Hx|]. intros a _. apply Hx.
  - left. split.
    + intros a. destruct (Hx (a / 8)) as [H|H]; [exists 0%nat|exists 1%nat]; by apply H.
    + intros a Ha. apply Forall_cons_1 in Ha as [Ha _].
      destruct (Hx (a / 8)) as [H|H]; rewrite H by done; [done|]. by apply uop_apply_out.
  - apply IH in Hx as [[H1 H2]|Hx]; [left|by right]. split.
    + intros a. destruct (H1 a) as [j Hj]. by exists (S j).
    + intros a Ha. apply Forall_cons_1 in Ha as [Ha1 Ha2]. rewrite H2 by done. by apply uop_apply_out.
Qed.

(** ** The shadow log is replayed in order *)

Lemma vent_touches e a : uop_touches (vent_op e) a ↔ ve_ptr e ≤ a < ve_ptr e + 8.
Proof. unfold uop_touches, vent_op, val_op. repeat case_match; done. Qed.

Section ordered.
Context (o : pmem_ops) `{!OrderedOps o}.

Lemma apply_ordered e x persist p : vent_ok e → val_entry_at (pm_mem p) x (ve_ptr e) (ve_val e) (ve_k e) →
  ∃ evs, ulog_entry_apply o x persist p =
      (Ok tt, Pmem (uop_apply (pm_mem p) (vent_op e)) (pm_evs p ++ evs)) ∧
    durable_write (uop_write (pm_mem p) (vent_op e)).1 (uop_write (pm_mem p) (vent_op e)).2 evs.
Proof using Type*.
  intros [Hp _ _ Hk] Hat. destruct (val_entry_reads _ _ _ _ _ Hp Hk Hat) as (Ht & Ho & _). destruct Hat as [_ Hv].
  assert (∀ v, ∃ evs, modify (λ p, if persist then op_persist o p (ve_ptr e) 8 PMEMOBJ_F_RELAXED
      else op_flush o p (ve_ptr e) 8 PMEMOBJ_F_RELAXED) (pm_store p (ve_ptr e) (le_bytes 8 v)) =
      (Ok tt, Pmem (wr (pm_mem p) (ve_ptr e) (le_bytes 8 v)) (pm_evs p ++ evs)) ∧
      durable_write (ve_ptr e) (le_bytes 8 v) evs) as Hst.
  { intros v. unfold modify. destruct persist.
    - destruct (oo_persist (pm_store p (ve_ptr e) (le_bytes 8 v)) (ve_ptr e) 8 PMEMOBJ_F_RELAXED) as (ls & -> & Hls); [lia..|].
      eexists. unfold emit. simpl. rewrite <- (assoc_L (++)). split; [reflexivity|].
      apply dw_flushed. by rewrite length_le_bytes.
    - destruct (oo_flush (pm_store p (ve_ptr e) (le_bytes 8 v)) (ve_ptr e) 8 PMEMOBJ_F_RELAXED) as (ls & -> & Hls); [lia..|].
      eexists. unfold emit. simpl. rewrite <- (assoc_L (++)). split; [reflexivity|].
      apply dw_flushed. by rewrite length_le_bytes. }
  unfold ulog_entry_apply. do 2 (erewrite bind_ok by reflexivity). cbn [compose]. rewrite Ht, Ho.
  unfold vent_op, val_op, uop_apply.
  assert (ve_k e = 0 ∨ ve_k e = 1 ∨ ve_k e = 2) as [-> |[-> | ->]] by lia; simpl;
    do 2 (erewrite bind_ok by reflexivity); unfold entry_f_value; cbn [compose]; rewrite Hv; apply Hst.
Qed.

(** A change outside of the log leaves the log alone. *)
Lemma apply_log m u es e : value_log m u es → (∀ a, ve_ptr e ≤ a < ve_ptr e + 8 → ¬ log_bytes u es a) →
  value_log (uop_apply m (vent_op e)) u es.
Proof using.
  intros Hl Ha. apply (value_log_ext m); [|done]. intros a Hla. apply uop_apply_out.
  rewrite vent_touches. intros Ht. by apply (Ha a).
Qed.

Lemma process_slots u es : log_apart u es → Z.of_nat (length es) < 2 ^ 59 → ∀ k i fuel p, (i + k = length es)%nat →
  (k < fuel)%nat → value_log (pm_mem p) u es →
  ∃ evs, foreach_in (ulog_process_entry o) fuel u (16 * Z.of_nat i) 0 p =
      (Ok (0, true), Pmem (uops_apply (pm_mem p) (vent_op <$> drop i es)) (pm_evs p ++ evs)) ∧
    durable_writes (writes_of (pm_mem p) (vent_op <$> drop i es)) evs.
Proof using Type*.
  intros Hap Hn. induction k as [|k IH]; intros i fuel p Hi Hf Hl; (destruct fuel as [|fuel]; [lia|]);
    pose proof (vl_cap _ _ _ Hl) as Hc; cbn [foreach_in]; (erewrite bind_ok by reflexivity); cbn [compose];
    (rewrite (proj2 (Z.ltb_lt _ _)) by lia); rewrite <- slot_next.
  - assert (i = length es) as -> by lia. exists []. rewrite drop_all, app_nil_r. split; [|constructor].
    erewrite (bind_ok _ _ _ false); [by destruct p|]. unfold entry_valid, try_mem. by rewrite (proj1 (end_slot _ _ _ Hl)).
  - destruct (lookup_lt_is_Some_2 es i ltac:(lia)) as [e He]. destruct (slot_entry _ _ _ Hl i e He) as (Hv & Hs & _).
    rewrite (drop_S es e i He).
    erewrite (bind_ok _ _ _ true).
    2: { unfold entry_valid, try_mem. by rewrite Hv. }
    cbn [negb]. pose proof (Forall_lookup_1 _ _ _ _ (vl_ok _ _ _ Hl) He) as Hok.
    destruct (apply_ordered e (slot_addr u i) false p Hok (vl_entries _ _ _ Hl i e He)) as (ev1 & E1 & W1).
    set (p1 := Pmem _ _) in E1.
    assert (value_log (pm_mem p1) u es) as Hl1.
    { apply apply_log; [done|]. by apply (Forall_lookup_1 _ _ _ _ Hap He). }
    erewrite (bind_ok _ _ _ 0 p1).
    2: { unfold ulog_process_entry. by erewrite bind_ok by exact E1. }
    rewrite Z.eqb_refl. cbn [negb]. erewrite bind_ok by reflexivity. cbn [compose].
    destruct (slot_entry _ _ _ Hl1 i e He) as (_ & Hs1 & _). rewrite Hs1, u64_id by lia.
    replace (16 * Z.of_nat i + 16) with (16 * Z.of_nat (S i)) by lia.
    destruct (IH (S i) fuel p1 ltac:(lia) ltac:(lia) Hl1) as (ev2 & E2 & W2).
    exists (ev1 ++ ev2). split; [rewrite E2; by rewrite (assoc_L (++))|].
    rewrite fmap_cons. cbn [writes_of]. destruct (uop_write (pm_mem p) (vent_op e)) as [d bs].
    apply (durable_writes_app [(d, bs)] ev1); [by apply durable_writes_one|done].
Qed.

Lemma process_ordered fuel u es p : log_apart u es → Z.of_nat (length es) < 2 ^ 59 → (length es < fuel)%nat →
  value_log (pm_mem p) u es →
  ∃ evs, ulog_process o fuel u p = (Ok tt, Pmem (uops_apply (pm_mem p) (vent_op <$> es)) (pm_evs p ++ evs)) ∧
    durable_writes (writes_of (pm_mem p) (vent_op <$> es)) evs.
Proof using Type*.
  intros Hap Hn Hf Hl. destruct (process_slots u es Hap Hn (length es) 0 fuel p eq_refl Hf Hl) as (evs & E & W).
  exists evs. split; [|exact W]. unfold ulog_process, ulog_foreach_entry. destruct fuel as [|fuel]; [lia|].
  cbn [foreach_logs]. erewrite bind_ok; [reflexivity|]. change (16 * Z.of_nat 0) with 0 in E. by erewrite bind_ok by exact E.
Qed.

(** ** The whole redo sequence *)

Local Abbreviation smem s := (pm_mem (me_pm (ms_env s))).
Local Abbreviation sevs s := (pm_evs (me_pm (ms_env s))).
Local Abbreviation plog s := (oc_pshadow_ops (ms_ctx s)).

(** The shadow log is in volatile memory, at [D] and above; the log at [d] with its capacity [B] and the
    words to be changed are in the pool, apart from each other. *)
Record redo_pre (D : Z) (s : mstate) (es : list vent) : Prop := {
  rp_D : D < 2 ^ 63;
  rp_shadow : D ≤ ol_ulog (plog s);
  rp_log : 0 ≤ oc_ulog (ms_ctx s) ∧ oc_ulog (ms_ctx s) + 64 + oc_ulog_base_nbytes (ms_ctx s) ≤ D;
  rp_fits : roundup (16 * Z.of_nat (length es) + 8) 64 ≤ oc_ulog_base_nbytes (ms_ctx s);
  rp_pool : Forall (λ e, ve_ptr e + 8 ≤ D) es;
  rp_clear : Forall (λ e, ve_ptr e + 8 ≤ oc_ulog (ms_ctx s) ∨
    oc_ulog (ms_ctx s) + 64 + oc_ulog_base_nbytes (ms_ctx s) ≤ ve_ptr e) es
}.

(** The context with another pool memory. *)
Definition with_pm (s : mstate) (p : pmem) : mstate := MState (MEnv p (me_alloc (ms_env s))) (ms_ctx s).

Lemma lift_run {A} (f : M pmem A) s r p : f (me_pm (ms_env s)) = (r, p) → lift_pm f s = (r, with_pm s p).
Proof using. intros E. unfold lift_pm, on_env, on_pm. by rewrite E. Qed.

(** What [ulog_clobber] writes. *)
Definition idle_header (next : list Z) : list Z := zeros 8 ++ le_bytes 8 (next_field next) ++ zeros 48.

Lemma length_idle next : len (idle_header next) = 64.
Proof using. unfold idle_header. rewrite !length_app, length_le_bytes. done. Qed.

Lemma idle_capacity m d next : ulog_f_capacity (wr m d (idle_header next)) d = 0.
Proof using.
  unfold ulog_f_capacity, rd64, idle_header. rewrite rdn_wr_sub; [|rewrite !Forall_app; auto with pmdk|lia|].
  - replace (Z.to_nat (d + 16 - d)) with 16%nat by lia.
    by rewrite (assoc_L (++)), drop_app_length' by (by rewrite length_app, length_le_bytes).
  - rewrite !length_app, length_le_bytes. simpl. lia.
Qed.

Section redo.
Context (D : Z) (s : mstate) (es : list vent) (t fuel : nat).
Context (Hsh : shadow_inv s es t) (Hpre : redo_pre D s es) (Hne : es ≠ []) (Hf : (length es < fuel)%nat).
Local Abbreviation d := (oc_ulog (ms_ctx s)).
Local Abbreviation u := (ol_ulog (plog s)).
Local Abbreviation next := (oc_next (ms_ctx s)).
Local Abbreviation B := (oc_ulog_base_nbytes (ms_ctx s)).
Local Abbreviation ops := (vent_op <$> es).

(** The log as it is stored. *)
Definition redo_image : list Z := stored_image (smem s) u es next.

(** The memory when the changes are made: the log is stored, the shadow header completed. *)
Definition redo_mem : mem :=
  wr (wr (smem s) d redo_image) u (rdn (stored_src (smem s) u es next) u 64).

Lemma few_entries : Z.of_nat (length es) < 2 ^ 59 ∧ stored_nbytes es ≤ B ∧ 16 * Z.of_nat (length es) < B ∧
  len redo_image = 64 + stored_nbytes es ∧ d + 64 + B ≤ D ≤ u ∧ 0 ≤ d ∧ D < 2 ^ 63.
Proof using Hpre.
  clear Hf. destruct Hpre as [HD HS [Hd Hd'] Hfit _ _].
  pose proof (roundup_bounds (16 * Z.of_nat (length es) + 8) 64 ltac:(lia)).
  assert (Z.of_nat (length es) < 2 ^ 59) as Hn by lia. destruct (stored_nbytes_eq es Hn) as [E ?].
  split_and!; try lia. unfold redo_image, stored_image. rewrite length_rdn. lia.
Qed.

Lemma shadow_log : value_log (smem s) u es.
Proof using Hsh Hpre Hne.
  clear Hf. destruct few_entries as (_ & _ & Hc & _). destruct Hsh. split; auto. by rewrite sh_header.
Qed.

(** The words to be changed are neither in the log nor in the shadow log. *)
Lemma shadow_apart : log_apart u es.
Proof using Hpre.
  clear Hf. destruct few_entries as (_ & _ & _ & _ & HD & _). unfold log_apart, log_bytes.
  eapply Forall_impl; [exact (rp_pool _ _ _ Hpre)|]. simpl. intros e He a Ha. lia.
Qed.

Lemma ops_clear a : d ≤ a < d + 64 + B → Forall (λ op, ¬ uop_touches op a) ops.
Proof using Hpre.
  clear Hf. intros Ha. apply Forall_fmap. eapply Forall_impl; [exact (rp_clear _ _ _ Hpre)|].
  intros e He Ht%vent_touches. simpl in He. lia.
Qed.

Lemma media_apart : log_apart d es.
Proof using Hpre.
  clear Hf. destruct few_entries as (Hn & HB & _). destruct (stored_nbytes_eq es Hn) as [E Hs]. unfold log_apart, log_bytes.
  unfold roundup in E.
  eapply Forall_impl; [exact (rp_clear _ _ _ Hpre)|]. unfold slot_addr, ulog_data. simpl. intros e He a Ha. lia.
Qed.

Lemma redo_mem_image : image_at (smem s) u es next redo_mem u.
Proof using Hpre.
  clear Hf. destruct few_entries as (Hn & HB & _ & Hl & HD & Hd & _). intros k Hk. unfold redo_mem. rewrite rd_wr, length_rdn.
  case_decide as Hin.
  - rewrite nth_mod_byte by auto with pmdk. rewrite nth_rdn by lia. f_equal. lia.
  - rewrite rd_wr_out by lia. symmetry. apply stored_src_out; [done|]. change (Z.of_nat (Z.to_nat 64)) with 64 in Hin. lia.
Qed.

Lemma redo_image_bytes : Forall is_byte redo_image.
Proof using. apply rdn_bytes. Qed.

(** What is on the media once the log is stored. *)
Lemma stored_media M : image_at (smem s) u es next (wr M d redo_image) d.
Proof using Hpre.
  clear Hf. destruct few_entries as (Hn & HB & _ & Hl & _). intros k Hk. rewrite rd_wr, Hl, decide_True by lia.
  rewrite nth_mod_byte by apply redo_image_bytes. unfold redo_image, stored_image. rewrite nth_rdn by lia. f_equal. lia.
Qed.

(** The writes that reach the pool. *)
Definition redo_writes (M : mem) : list (Z * list Z) :=
  (d, redo_image) :: writes_of (wr M d redo_image) ops ++ [(d, idle_header next)].

Lemma writes_agree l : ∀ m m', Forall (λ e, ve_ptr e + 8 ≤ D) l → (∀ a, a < D → rd m a = rd m' a) →
  writes_of m (vent_op <$> l) = writes_of m' (vent_op <$> l).
Proof using.
  clear Hf. induction l as [|e l IH]; intros m m' Hl Hm; [done|]. apply Forall_cons_1 in Hl as [He Hl]. rewrite !fmap_cons. cbn [writes_of].
  assert (uop_write m (vent_op e) = uop_write m' (vent_op e)) as Ew.
  { assert (rd64 m (ve_ptr e) = rd64 m' (ve_ptr e)) as E by (apply rd64_ext; intros a Ha; apply Hm; lia).
    unfold vent_op, val_op. repeat case_match; simpl; by rewrite ?E. }
  rewrite Ew. f_equal. apply IH; [done|]. intros a Ha. unfold uop_apply. rewrite Ew.
  destruct (uop_write m' (vent_op e)) as [x bs]. rewrite !rd_wr. case_decide; [done|by apply Hm].
Qed.

(** The log is stored and the shadow header completed, then the changes are made. *)
Lemma redo_steps : operation_process_persistent_redo o fuel s =
  (lift_pm (ulog_process o fuel u);; lift_pm (ulog_clobber o d (Some next)))
    (with_pm s (dram_store (op_memcpy o (me_pm (ms_env s)) d redo_image PMEMOBJ_F_MEM_WC) u
                  (rdn (stored_src (smem s) u es next) u 64))).
Proof using Hsh Hpre.
  clear Hf. destruct few_entries as (Hn & HB & _ & _ & HD & Hd & HD63).
  unfold operation_process_persistent_redo. erewrite bind_ok by reflexivity. cbn [compose id].
  destruct (sh_cap _ _ _ Hsh) as [y Hy]. rewrite Hy. unfold CACHELINE_SIZE. rewrite Z_mod_mult, Z.eqb_refl. cbn [negb].
  erewrite bind_ok by (by apply lift_run). cbn [compose]. rewrite (sh_offset _ _ _ Hsh).
  erewrite bind_ok by (apply lift_run; apply (store_run _ _ es _ Hn); [done|lia]).
  by erewrite bind_ok by (by apply lift_run).
Qed.

(** Storing the log, making the changes and invalidating the log. *)
Lemma redo_run : ∃ s' evs, operation_process_persistent_redo o fuel s = (Ok tt, s') ∧ ms_ctx s' = ms_ctx s ∧
  sevs s' = sevs s ++ evs ∧ smem s' = wr (uops_apply redo_mem ops) d (idle_header next) ∧
  ∀ M, (∀ a, a < D → rd M a = rd (smem s) a) → durable_writes (redo_writes M) evs.
Proof using Type*.
  destruct few_entries as (Hn & HB & Hlt & Hl & HD & Hd & HD63). destruct (stored_nbytes_eq es Hn) as [_ Hs].
  pose proof (image_log (smem s) u es next Hn shadow_log redo_mem u redo_mem_image) as Hlog.
  set (p := me_pm (ms_env s)). rewrite redo_steps. fold p.
  destruct (oo_memcpy p d redo_image) as (ev1 & E1 & W1); [done|lia|by intros E; rewrite E in Hl; simpl in Hl; lia|].
  rewrite E1. change (dram_store _ _ _) with (Pmem redo_mem (pm_evs p ++ ev1)).
  destruct (process_ordered fuel u es (Pmem redo_mem (pm_evs p ++ ev1)) shadow_apart Hn Hf Hlog) as (ev2 & E2 & W2).
  erewrite bind_ok by (by apply lift_run). cbn [with_pm ms_env me_pm ms_ctx pm_mem pm_evs] in *.
  destruct (oo_memcpy (Pmem (uops_apply redo_mem ops) ((pm_evs p ++ ev1) ++ ev2)) d (idle_header next)) as (ev3 & E3 & W3);
    [done|rewrite length_idle; lia|done|].
  eexists (with_pm s (Pmem _ _)), (ev1 ++ ev2 ++ ev3). split.
  { erewrite lift_run; [reflexivity|]. unfold ulog_clobber. erewrite bind_ok by reflexivity. unfold modify.
    cbn [with_pm ms_env me_pm compose]. by etransitivity; [|apply (f_equal (pair (Ok tt)) E3)]. }
  cbn [with_pm ms_env me_pm ms_ctx pm_mem pm_evs]. split_and!; [done|by rewrite !(assoc_L (++))|done|].
  intros M HM. unfold redo_writes. apply (durable_writes_app [(d, redo_image)] ev1); [by apply durable_writes_one|].
  apply durable_writes_app; [|by apply durable_writes_one].
  rewrite (writes_agree es _ redo_mem); [done|apply Hpre|]. intros a Ha. unfold redo_mem.
  rewrite (rd_wr_out _ u) by (rewrite length_rdn; lia). rewrite !rd_wr. case_decide; [done|by apply HM].
Qed.

(** ** Recovery after a failure *)

(** A partly written log does not pass for a complete one. *)
Definition torn_detected (M : mem) : Prop := ∀ x, torn M (wr M d redo_image) x →
  ulog_recovery_needed fuel d true (Pmem x []) = (Ok false, Pmem x []) ∨ image_at (smem s) u es next x d.

(** After recovery the pool is as in [m], the log aside. *)
Definition recovers_to (x m : mem) : Prop := ∃ p', ulog_recover o fuel d (Pmem x []) = (Ok tt, p') ∧
  ∀ a, ¬ (d ≤ a < d + 64 + B) → rd (pm_mem p') a = rd m a.

Lemma apply_at x y a : rd x a = rd y a → rd (uops_apply x ops) a = rd (uops_apply y ops) a.
Proof using. intros E. apply byte_eq; [apply rd_range..|]. intros i Hi. by rewrite !uops_apply_bit, E. Qed.

Lemma recovers_needless x m : ulog_recovery_needed fuel d true (Pmem x []) = (Ok false, Pmem x []) →
  (∀ a, ¬ (d ≤ a < d + 64 + B) → rd x a = rd m a) → recovers_to x m.
Proof using.
  intros E Hx. exists (Pmem x []). split; [|exact Hx]. unfold ulog_recover. by erewrite bind_ok by exact E.
Qed.

Lemma recovers_image x : image_at (smem s) u es next x d → recovers_to x (uops_apply x ops).
Proof using Type*.
  intros Hx. destruct few_entries as (Hn & HB & Hlt & _). destruct (stored_nbytes_eq es Hn) as [_ Hs].
  destruct (recover_values o fuel x d es) as (b & p' & Eb & E & Hp');
    [by apply (image_log (smem s) u es next Hn shadow_log)|apply media_apart|done..|].
  rewrite (image_needed (smem s) u es next Hn shadow_log fuel x d [] Hx Hne Hf) in Eb. injection Eb as <-.
  exists p'. split; [done|]. intros a Ha. apply Hp'. lia.
Qed.

(** The log is complete on the media until it is invalidated. *)
Lemma image_kept M x : (∀ a, Forall (λ op, ¬ uop_touches op a) ops → rd x a = rd (wr M d redo_image) a) →
  image_at (smem s) u es next x d.
Proof using Hpre.
  clear Hf. intros Hx k Hk. destruct few_entries as (_ & HB & _). rewrite Hx; [by apply stored_media|].
  apply ops_clear. lia.
Qed.

(** The changes over a mixture of old and new words. *)
Lemma recovers_mixture M x : mixture (wr M d redo_image) ops x →
  (∀ a, Forall (λ op, ¬ uop_touches op a) ops → rd x a = rd (wr M d redo_image) a) →
  recovers_to x (uops_apply M ops).
Proof using Type*.
  intros Hm Hx. destruct few_entries as (_ & HB & _ & Hl & _).
  destruct (recovers_image x (image_kept M x Hx)) as (p' & E & Hp'). exists p'. split; [done|].
  intros a Ha. rewrite Hp' by done. rewrite (replay_mixture _ _ _ Hm). apply apply_at, rd_wr_out. lia.
Qed.

(** The invalidation of the log, complete or torn. *)
Lemma recovers_clobbered M x : torn (uops_apply (wr M d redo_image) ops) (wr (uops_apply (wr M d redo_image) ops) d (idle_header next)) x →
  (8 | d) → recovers_to x (uops_apply M ops).
Proof using Type*.
  intros Ht Hal. destruct few_entries as (Hn & HB & Hlt & Hl & _). destruct (stored_nbytes_eq es Hn) as [_ Hs].
  set (m1 := uops_apply (wr M d redo_image) ops) in *. pose proof (length_idle next) as Hli.
  assert (∀ a, ¬ (d ≤ a < d + 64) → rd x a = rd m1 a) as Hx.
  { intros a Ha. destruct (Ht (a / 8)) as [H|H]; rewrite H by done; [done|]. apply rd_wr_out. lia. }
  assert (∀ a, ¬ (d ≤ a < d + 64 + B) → rd m1 a = rd (uops_apply M ops) a) as Hm1
    by (intros a Ha; apply apply_at, rd_wr_out; lia).
  assert (ulog_f_capacity x d = 0 ∨ ulog_f_capacity x d = ulog_f_capacity m1 d) as [Hc|Hc].
  { destruct Hal as [w Hw]. assert (∀ a, d + 16 ≤ a < d + 16 + 8 → a / 8 = w + 2) as Hwd
      by (intros a Ha; symmetry; apply (Z.div_unique a 8 _ (a - (d + 16))); lia).
    destruct (Ht (w + 2)) as [H|H]; [right|left; rewrite <- (idle_capacity m1 d next)]; apply rd64_ext; intros a Ha; apply H, Hwd; lia. }
  - apply recovers_needless; [by apply not_needed|]. intros a Ha. rewrite Hx by lia. by apply Hm1.
  - assert (value_log x d es) as Hlx.
    { apply (value_log_body m1); [intros a Ha; apply Hx; unfold ulog_data in Ha; lia|done|].
      apply (image_log (smem s) u es next Hn shadow_log), (image_kept M). intros a Ha. by apply uops_apply_out. }
    destruct (recover_values o fuel x d es Hlx media_apart Hn Hf) as (b & p' & _ & E & Hp').
    exists p'. split; [done|]. intros a Ha. rewrite Hp' by lia. destruct b; [|by rewrite Hx by lia; apply Hm1].
    rewrite (apply_at x m1) by (apply Hx; lia). rewrite (replay_mixture (wr M d redo_image)); [by apply Hm1|].
    intros y. exists (length ops). by rewrite firstn_all.
Qed.

(** All cases together: a failure leaves all of the changes to be made, or none of them. *)
Lemma redo_crash M x : torn_detected M → (8 | d) → ws_crash M (redo_writes M) x →
  recovers_to x M ∨ recovers_to x (uops_apply M ops).
Proof using Type*.
  intros Htd Hal Hx. destruct few_entries as (_ & HB & _ & Hl & _).
  assert (torn M (wr M d redo_image) x → recovers_to x M ∨ recovers_to x (uops_apply M ops)) as Htorn.
  { intros Ht. assert (∀ a, ¬ (d ≤ a < d + 64 + B) → rd x a = rd M a) as Ho.
    { intros a Ha. destruct (Ht (a / 8)) as [H|H]; rewrite H by done; [done|]. apply rd_wr_out. lia. }
    destruct (Htd x Ht) as [H|H]; [left; by apply recovers_needless|right].
    destruct (recovers_image x H) as (p' & E & Hp'). exists p'. split; [done|]. intros a Ha.
    rewrite Hp' by done. by apply apply_at, Ho. }
  unfold redo_writes in Hx. apply ws_crash_cons in Hx as [Hx|[Hx|Hx]]; [apply Htorn; intros w; left; intros; apply Hx|by apply Htorn|].
  right. apply writes_crash in Hx as [[H1 H2]|Hx]; [by apply recovers_mixture|].
  apply recovers_clobbered; [|done]. apply ws_crash_cons in Hx as [Hx|[Hx|Hx%ws_crash_nil]]; [|done|];
    intros w; [left|right]; intros; apply Hx.
Qed.
End redo.

(** ** A single change needs no log *)

(** An aligned word is written as a whole. *)
Lemma word_torn m e x : vent_ok e → torn m (uop_apply m (vent_op e)) x → mem_eq x m ∨ mem_eq x (uop_apply m (vent_op e)).
Proof using.
  intros [_ [w Hw] _ _] Ht.
  assert (∀ a, a / 8 ≠ w → rd (uop_apply m (vent_op e)) a = rd m a) as Hout.
  { intros a Ha. apply uop_apply_out. rewrite vent_touches. intros Hr. apply Ha.
    symmetry. apply (Z.div_unique a 8 _ (a - ve_ptr e)); lia. }
  destruct (Ht w) as [H|H]; [left|right]; intros a; (destruct (decide (a / 8 = w)) as [E|E]; [by apply H|]);
    (destruct (Ht (a / 8)) as [H'|H']; rewrite H' by done); rewrite ?Hout by done; done.
Qed.

Lemma single_change_run e s t : shadow_inv s [e] t →
  ∃ evs, lift_pm (ulog_entry_apply o (ulog_data (ol_ulog (plog s))) true) s =
      (Ok tt, with_pm s (Pmem (uop_apply (smem s) (vent_op e)) (sevs s ++ evs))) ∧
    durable_writes (writes_of (smem s) [vent_op e]) evs.
Proof using Type*.
  intros Hsh. pose proof (Forall_cons_1 _ _ _ (sh_ok _ _ _ Hsh)) as [He _].
  destruct (apply_ordered e (ulog_data (ol_ulog (plog s))) true (me_pm (ms_env s)) He) as (evs & E & W).
  { pose proof (sh_entries _ _ _ Hsh 0%nat e eq_refl) as H. unfold slot_addr in H. by rewrite Z.add_0_r in H. }
  exists evs. split; [by apply lift_run|]. cbn [writes_of]. destruct (uop_write _ _). by apply durable_writes_one.
Qed.

(** The log of an operation is told apart from a single change by its length. *)
Lemma single_entry_spec s es t : shadow_inv s es t →
  single_entry (smem s) (plog s) = bool_decide (length es = 1%nat).
Proof using.
  intros Hsh. unfold single_entry, sizeof_ulog_entry_val. rewrite (sh_offset _ _ _ Hsh).
  destruct es as [|e [|e' es]]; [done| |].
  - pose proof (Forall_cons_1 _ _ _ (sh_ok _ _ _ Hsh)) as [[Hp _ _ Hk] _].
    pose proof (sh_entries _ _ _ Hsh 0%nat e eq_refl) as H. unfold slot_addr in H. rewrite Z.add_0_r in H.
    destruct (val_entry_reads _ _ _ _ _ Hp Hk H) as (-> & _).
    by assert (ve_k e = 0 ∨ ve_k e = 1 ∨ ve_k e = 2) as [-> |[-> | ->]] by lia.
  - rewrite (proj2 (Z.eqb_neq _ _)); [done|]. cbn [length]. lia.
Qed.
End ordered.
