(* ===== verification/MemopsExample.v ===== *)
(** * libpmemobj: a concrete redo operation

    The states a torn write of a log can leave are finitely many; this file enumerates them, which decides
    whether the checksum tells them apart, and sets up the operation that the
    theorems about memory operations are instantiated with. *)

From stdpp Require Import base gmap list numbers strings.
From S2P Require Import Prelude Memory Pmem Util Ulog UlogSpec UlogEntry UlogTheorems Vecq Memops MemopsMerge MemopsRedo MemopsCrash.
Local Open Scope Z_scope.

Local Abbreviation smem s := (pm_mem (me_pm (ms_env s))).
Local Abbreviation plog s := (oc_pshadow_ops (ms_ctx s)).

(** ** The states of a torn write *)

(** The memories where each of the words [ws] at [d] has been written or not. *)
Fixpoint mixtures (M : mem) (d : Z) (ws : list Z) : list mem :=
  match ws with
  | [] => [M]
  | w :: ws =>
      let ms := mixtures M (d + 8) ws in
      if rd64 M d =? w then ms else ms ++ ((λ m, wr64 m d w) <$> ms)
  end.

Lemma word_bytes m m' d : rd64 m d = rd64 m' d → ∀ a, d ≤ a < d + 8 → rd m a = rd m' a.
Proof.
  intros E a Ha. apply byte_eq; [apply rd_range..|]. intros i Hi.
  by rewrite <- (rd64_bit m d a i), <- (rd64_bit m' d a i), E.
Qed.

Lemma mixtures_complete ws : ∀ M d x, (∀ a, ¬ (d ≤ a < d + 8 * len ws) → rd x a = rd M a) →
  (∀ i w, ws !! i = Some w → rd64 x (d + 8 * Z.of_nat i) = rd64 M (d + 8 * Z.of_nat i) ∨ rd64 x (d + 8 * Z.of_nat i) = w) →
  ∃ m, m ∈ mixtures M d ws ∧ mem_eq x m.
Proof.
  induction ws as [|w ws IH]; intros M d x Hout Hws.
  { exists M. split; [left|]. intros a. apply Hout. simpl. lia. }
  set (x' := wr64 x d (rd64 M d)).
  assert (∀ a, ¬ (d ≤ a < d + 8) → rd x' a = rd x a) as Hx' by (intros a Ha; apply rd_wr_out; rewrite length_le_bytes; lia).
  assert (∀ a, d ≤ a < d + 8 → rd x' a = rd M a) as Hd.
  { apply word_bytes. unfold x'. rewrite rd64_wr64. apply u64_id, rd64_range. }
  destruct (IH M (d + 8) x') as (m & Hm & Heq).
  - intros a Ha. destruct (decide (d ≤ a < d + 8)); [by apply Hd|]. rewrite Hx' by done. apply Hout. cbn [length]. lia.
  - intros i v Hi. specialize (Hws (S i) v Hi). replace (d + 8 + 8 * Z.of_nat i) with (d + 8 * Z.of_nat (S i)) by lia.
    rewrite (rd64_ext x' x); [done|]. intros a Ha. apply Hx'. lia.
  - specialize (Hws 0%nat w eq_refl). rewrite Z.add_0_r in Hws. cbn [mixtures].
    destruct (decide (rd64 x d = rd64 M d)) as [E|E].
    + exists m. split.
      * destruct (_ =? w); [done|]. apply elem_of_app. by left.
      * intros a. rewrite <- (Heq a). destruct (decide (d ≤ a < d + 8)) as [Ha|Ha]; [|by rewrite Hx'].
        rewrite Hd by done. by apply (word_bytes _ _ d E).
    + destruct Hws as [Hw|Hw]; [done|]. subst w. rewrite (proj2 (Z.eqb_neq _ _)) by done. exists (wr64 m d (rd64 x d)). split.
      * apply elem_of_app. right. apply list_elem_of_fmap. by exists m.
      * intros a. destruct (decide (d ≤ a < d + 8)) as [Ha|Ha].
        -- apply (word_bytes _ _ d); [|done]. rewrite rd64_wr64, u64_id; [done|apply rd64_range].
        -- unfold wr64. rewrite rd_wr_out by (rewrite length_le_bytes; lia). by rewrite <- (Heq a), Hx'.
Qed.

(** ** Recovery depends on the contents of the memory only *)

Lemma base_nbytes_eq fuel m m' u : mem_eq m m' → ∀ offset,
  (base_nbytes_loop fuel u offset (Pmem m [])).1 = (base_nbytes_loop fuel u offset (Pmem m' [])).1 ∧
  (base_nbytes_loop fuel u offset (Pmem m [])).2 = Pmem m [].
Proof.
  intros Hm. assert (ulog_f_capacity m u = ulog_f_capacity m' u) as Hc by (apply rd64_ext; intros a _; apply Hm).
  induction fuel as [|fuel IH]; intros offset; cbn [base_nbytes_loop]; do 2 (erewrite bind_ok by reflexivity);
    cbn [compose pm_mem]; rewrite Hc; destruct (_ <? _); try done.
  pose proof (valid_frame m' m (λ _, True) (λ a _, Hm a) (ulog_data u + offset) (λ _ _, I)) as Hv.
  pose proof (size_frame m' m (λ _, True) (λ a _, Hm a) (ulog_data u + offset) (λ _ _, I)) as Hs.
  unfold mbind, M_bind, entry_valid, try_mem. cbn [pm_mem]. rewrite Hv.
  destruct (ulog_entry_valid m' _) as [[]| |]; try done. cbn [negb]. unfold in_mem, gets. cbn [compose pm_mem]. rewrite Hs. apply IH.
Qed.

Lemma needed_eq fuel m m' u : mem_eq m m' →
  (ulog_recovery_needed fuel u true (Pmem m [])).1 = (ulog_recovery_needed fuel u true (Pmem m' [])).1 ∧
  (ulog_recovery_needed fuel u true (Pmem m [])).2 = Pmem m [].
Proof.
  intros Hm. assert (ulog_f_capacity m u = ulog_f_capacity m' u) as Hc by (apply rd64_ext; intros a _; apply Hm).
  destruct (base_nbytes_eq fuel m m' u Hm 0) as [E1 E2].
  assert ((base_nbytes_loop fuel u 0 (Pmem m' [])).2 = Pmem m' []) as E3 by (apply (base_nbytes_eq fuel m' m'); done).
  unfold ulog_recovery_needed, ulog_base_nbytes, mbind, M_bind.
  destruct (base_nbytes_loop fuel u 0 (Pmem m [])) as [r p], (base_nbytes_loop fuel u 0 (Pmem m' [])) as [r' p'].
  cbn in E1, E2, E3. subst r p p'. destruct r' as [n| |]; try done. unfold in_mem, gets. cbn [compose pm_mem]. rewrite Hc.
  destruct (_ =? 0); [done|]. unfold try_mem, ulog_checksum. cbn [pm_mem]. rewrite (rdn_mem_eq m m') by done.
  by destruct (util_checksum _ _ _ _) as [[]| |].
Qed.

(** ** Deciding whether torn logs are detected *)

(** The words at [d] after a write of [image] there. *)
Definition image_words (M : mem) (d : Z) (image : list Z) : list Z :=
  (λ i, rd64 (wr M d image) (d + 8 * Z.of_nat i)) <$> seq 0 (length image / 8).

Definition not_taken (fuel : nat) (d : Z) (image : list Z) (m : mem) : bool :=
  match (ulog_recovery_needed fuel d true (Pmem m [])).1 with Ok false => true | _ => false end ||
  bool_decide (rdn m d (length image) = image).

Lemma torn_mixture M d bs x : (8 | d) → (8 | len bs) → torn M (wr M d bs) x →
  ∃ m, m ∈ mixtures M d (image_words M d bs) ∧ mem_eq x m.
Proof.
  intros [y Hy] [z Hz] Ht. assert (length bs / 8 = Z.to_nat z)%nat as Hn 
    by (apply Nat2Z.inj; rewrite Nat2Z.inj_div, Hz; change (Z.of_nat 8) with 8; rewrite Z.div_mul; lia).
  apply mixtures_complete; unfold image_words; rewrite Hn.
  - intros a Ha. rewrite length_fmap, length_seq in Ha. destruct (Ht (a / 8)) as [H|H]; rewrite H by done; [done|].
    apply rd_wr_out. lia.
  - intros i w Hi. apply list_lookup_fmap_Some in Hi as (k & -> & Hk). apply lookup_seq in Hk as [-> _].
    assert (∀ a, d + 8 * Z.of_nat i ≤ a < d + 8 * Z.of_nat i + 8 → a / 8 = y + Z.of_nat i) as Hw
      by (intros a Ha; symmetry; apply (Z.div_unique a 8 _ (a - (d + 8 * Z.of_nat i))); lia).
    destruct (Ht (y + Z.of_nat i)) as [H|H]; [left|right]; apply rd64_ext; intros a Ha; by apply H, Hw.
Qed.

Lemma torn_decided D s es fuel M : redo_pre D s es → (8 | oc_ulog (ms_ctx s)) →
  forallb (not_taken fuel (oc_ulog (ms_ctx s)) (redo_image s es))
    (mixtures M (oc_ulog (ms_ctx s)) (image_words M (oc_ulog (ms_ctx s)) (redo_image s es))) = true →
  torn_detected s es fuel M.
Proof.
  intros Hpre Hal Hall x Ht. destruct (few_entries D s es Hpre) as (Hn & HB & _ & Hl & _).
  destruct (stored_nbytes_eq es Hn) as [Es _].
  assert (8 | len (redo_image s es)) as H8.
  { rewrite Hl, Es. unfold roundup. set (q := _ / 64). exists (8 + q * 8). lia. }
  destruct (torn_mixture M _ _ x Hal H8 Ht) as (m & Hm & Heq).
  rewrite forallb_forall in Hall. specialize (Hall m (proj1 (list_elem_of_In _ _) Hm)). unfold not_taken in Hall.
  apply orb_prop in Hall as [H|H%bool_decide_eq_true].
  - left. destruct (needed_eq fuel x m (oc_ulog (ms_ctx s)) Heq) as [E1 E2].
    destruct (ulog_recovery_needed fuel _ true (Pmem x [])) as [r p]. cbn in E1, E2. subst p r.
    by destruct (ulog_recovery_needed fuel _ true (Pmem m [])) as [[[]| |] ?].
  - right. intros k Hk. rewrite (Heq _). rewrite <- (stored_media D s es Hpre M k Hk), rd_wr, Hl, decide_True by lia.
    rewrite nth_mod_byte by apply redo_image_bytes. rewrite <- H at 1. rewrite nth_rdn by lia. f_equal. lia.
Qed.

(** ** Memories that are mostly zero *)

Lemma zero_outside (m : mem) (f : Z → bool) : forallb (λ x, f x.1 || (x.2 mod 256 =? 0)) (map_to_list m) = true →
  ∀ a, f a = false → rd m a = 0.
Proof.
  intros H a Ha. unfold rd. destruct (m !! a) as [b|] eqn:E; [|done]. rewrite forallb_forall in H.
  specialize (H (a, b) (proj1 (list_elem_of_In _ _) (proj2 (elem_of_map_to_list _ _ _) E))). simpl in H.
  rewrite Ha in H. simpl in *. by apply Z.eqb_eq.
Qed.

(** ** The operation *)

Definition ex_env : menv := MEnv (Pmem ∅ []) [Some 1900000; Some 2000000; Some 2100000; Some 2200000].
Definition no_ctx : operation_context :=
  OperationContext LOG_TYPE_REDO 0 0 None 0 0 0 0 [] false (OperationLog 0 0 0) (OperationLog 0 0 0) VECQ_INIT.

(** A new context for the log at 1024. *)
Definition ex_new : mstate :=
  match operation_new 3 1024 640 LOG_TYPE_REDO ex_env with
  | (Ok (Some c), e) => MState e c
  | (_, e) => MState e no_ctx
  end.

Lemma ex_new_run : operation_new 3 1024 640 LOG_TYPE_REDO ex_env = (Ok (Some (ms_ctx ex_new)), ms_env ex_new).
Proof.
  unfold ex_new. assert (match (operation_new 3 1024 640 LOG_TYPE_REDO ex_env).1 with Ok (Some _) => true | _ => false end = true) as H
    by (vm_compute; reflexivity).
  by destruct (operation_new 3 1024 640 LOG_TYPE_REDO ex_env) as [[[c|]| |] e].
Qed.

(** Two words are changed, the first one twice. *)
Definition ex_requests : list vent := [VEnt 4096 5 0; VEnt 4104 3 2; VEnt 4096 7 0].
Definition ex_entries : list vent := [VEnt 4096 7 0; VEnt 4104 3 2].

Definition ex_started : mstate := ((operation_start;; add_all ex_requests) ex_new).2.

Lemma ex_vent_ok : Forall vent_ok ex_requests ∧ Forall vent_ok ex_entries.
Proof. split; repeat constructor; try (simpl; lia); (by exists 512) || (by exists 513). Qed.

Lemma ex_alloc : alloc_ok 1048576 ex_new.
Proof.
  assert (me_alloc (ms_env ex_new) = [Some 2200000]) as E by (vm_compute; reflexivity).
  intros a Ha. rewrite E in Ha. apply list_elem_of_singleton in Ha. injection Ha as ->. lia.
Qed.

Lemma ex_layout s es : ol_ulog (plog s) = 2100000 → oc_ulog (ms_ctx s) = 1024 → oc_ulog_base_nbytes (ms_ctx s) = 640 →
  (length es ≤ 3)%nat → Forall (λ e, 4096 ≤ ve_ptr e ≤ 8192) es → redo_pre 1048576 s es.
Proof.
  intros E1 E2 E3 Hl He. split; rewrite ?E1, ?E2, ?E3; try lia.
  - pose proof (roundup_bounds (16 * Z.of_nat (length es) + 8) 64 ltac:(lia)). lia.
  - eapply Forall_impl; [exact He|]. simpl. lia.
  - eapply Forall_impl; [exact He|]. simpl. lia.
Qed.

Lemma ex_pre_new : redo_pre 1048576 ex_new ex_requests.
Proof. apply ex_layout; [vm_compute; reflexivity..|simpl; lia|repeat constructor; simpl; lia]. Qed.

(** The state before the operation is finished. *)
Lemma ex_pre : redo_pre 1048576 ex_started ex_entries.
Proof. apply ex_layout; [vm_compute; reflexivity..|simpl; lia|repeat constructor; simpl; lia]. Qed.

Lemma ex_shadow : shadow_inv ex_started ex_entries 2.
Proof.
  split; [apply ex_vent_ok|vm_compute; reflexivity|..].
  - intros [|[|i]] e [=]; subst e; split; vm_compute; reflexivity.
  - intros _. vm_compute. reflexivity.
  - assert (slot_addr (ol_ulog (plog ex_started)) <$> seq (length ex_entries - 2) 2 = [2100064; 2100080]) as ->
      by (vm_compute; reflexivity).
    split; try (vm_compute; intuition congruence).
    + right. exists 6. split; [lia|]. vm_compute. reflexivity.
    + intros [|[|i]] e [=]; subst e; vm_compute; reflexivity.
  - vm_compute. reflexivity.
  - right. vm_compute. reflexivity.
  - simpl. lia.
  - vm_compute. intuition congruence.
  - vm_compute. intuition congruence.
  - exists 16. vm_compute. reflexivity.
  - vm_compute. reflexivity.
Qed.

(** Nothing has been stored in the pool so far. *)
Lemma ex_pool_zero a : a < 1048576 → rd ∅ a = rd (smem ex_started) a.
Proof.
  intros Ha. rewrite (zero_outside (smem ex_started) (λ k, 1048576 <=? k)); [|vm_compute; reflexivity|lia].
  unfold rd. by rewrite lookup_empty.
Qed.

(** No torn write of the log passes for the log. *)
Lemma ex_torn : torn_detected ex_started ex_entries 10 ∅.
Proof.
  apply (torn_decided 1048576); [apply ex_pre|exists 128; vm_compute; reflexivity|vm_compute; reflexivity].
Qed.

(** [clflush] is used. *)
Definition clflush_env : pmem_env := PmemEnv (Some "1"%string) (Some "1"%string) None None false false.
Definition clflush_ops : pmem_ops := norep_ops (obj_replica_init_local (pmem_init_funcs clflush_env) true).
#[global] Instance clflush_ordered : OrderedOps clflush_ops.
Proof. apply pmem_ordered, clflush_init; reflexivity. Qed.
