(* ===== verification/MemopsTheorems.v ===== *)
(** * libpmemobj: theorems about memory operations

    An operation started on a context as [operation_new] makes it, given any requests and finished, has
    the effect of the requests made one after the other; a power failure while it is finished leaves all
    of its changes or none. *)

From stdpp Require Import base gmap list numbers strings.
From S2P Require Import Prelude Memory Pmem Util Ulog UlogSpec UlogEntry UlogTheorems Vecq Memops MemopsMerge MemopsRedo MemopsCrash MemopsExample.
Local Open Scope Z_scope.

Local Abbreviation smem s := (pm_mem (me_pm (ms_env s))).
Local Abbreviation sevs s := (pm_evs (me_pm (ms_env s))).
Local Abbreviation plog s := (oc_pshadow_ops (ms_ctx s)).

(** ** Contexts *)

(** A context between operations whose shadow log has not been reallocated. *)
Record ctx_ready (s : mstate) : Prop := {
  cr_idle : oc_in_progress (ms_ctx s) = false;
  cr_capacity : ol_capacity (plog s) = ULOG_BASE_SIZE;
  cr_header : ulog_f_capacity (smem s) (ol_ulog (plog s)) = oc_ulog_base_nbytes (ms_ctx s);
  cr_queue : ∃ l, vecq_inv (oc_merge_entries (ms_ctx s)) l;
  cr_qcap : capacity (oc_merge_entries (ms_ctx s)) = 0 ∨ capacity (oc_merge_entries (ms_ctx s)) = 64
}.

(** The context after [operation_start]. *)
Definition started (s : mstate) : mstate :=
  let c := ms_ctx s in
  MState (ms_env s) (set_in_progress true (set_curr None 0 0 0 (set_merge (VECQ_REINIT (oc_merge_entries c))
    (set_pshadow (OperationLog (ol_capacity (oc_pshadow_ops c)) 0 (ol_ulog (oc_pshadow_ops c)))
      (set_transient (OperationLog (ol_capacity (oc_transient_ops c)) 0 (ol_ulog (oc_transient_ops c))) c))))).

Lemma start_run s : oc_in_progress (ms_ctx s) = false → operation_start s = (Ok tt, started s).
Proof.
  intros Hr. unfold operation_start, operation_init. erewrite bind_ok by reflexivity.
  unfold assert_in_progress. erewrite bind_ok.
  2: { erewrite bind_ok by reflexivity. cbn. by rewrite Hr. }
  done.
Qed.

Lemma started_inv s : ctx_ready s → shadow_inv (started s) [] 0.
Proof.
  intros [_ Hc Hh [l Hq] Hqc]. destruct (clear_inv _ _ Hq) as [Hq0 Hf0].
  split; cbn; try done; rewrite ?Hc; unfold ULOG_BASE_SIZE; [lia..|by exists 16].
Qed.

(** [operation_new] makes such a context. *)
Lemma new_ready fuel u n type e c e' : 0 ≤ n < 2 ^ 64 → operation_new fuel u n type e = (Ok (Some c), e') →
  ctx_ready (MState e' c) ∧ oc_type c = type.
Proof.
  intros Hn H. unfold operation_new in H.
  apply bind_inv_ok in H as ([x|] & e1 & _ & H); [|by injection H].
  apply bind_inv_ok in H as (cap & e2 & _ & H). apply bind_inv_ok in H as (next & e3 & _ & H).
  apply bind_inv_ok in H as ([tl|] & e4 & _ & H); [|by injection H].
  apply bind_inv_ok in H as ([pl|] & e5 & Hp & H); [|by injection H]. injection H as <- <-. split; [|done].
  unfold operation_log_persistent_init, operation_log_init in Hp.
  apply bind_inv_ok in Hp as ([src|] & e6 & _ & Hp); [|by injection Hp].
  injection Hp as <- <-. split; cbn; [done..| |exists []; apply init_inv|by left].
  unfold ulog_f_capacity. change (wr (pm_mem (me_pm e6)) (src + 16) (le_bytes 8 n)) with (wr64 (pm_mem (me_pm e6)) (src + 16) n).
  rewrite rd64_wr64. by apply u64_id.
Qed.

(** ** Finishing *)

Definition finished (s : mstate) : mstate := MState (ms_env s) (set_in_progress false (ms_ctx s)).

Lemma finished_inv s es t : shadow_inv s es t → shadow_inv (finished s) es t.
Proof. intros []. by split. Qed.

Lemma finished_pre D s es : redo_pre D s es → redo_pre D (finished s) es.
Proof. intros []. by split. Qed.

Section finish.
Context (o : pmem_ops) (ulog_free : Z → M pmem unit) (push_ok : nat → bool) (fuel : nat).

(** What is done with the entries of the shadow log. *)
Definition process_log (es : list vent) (u : Z) : M mstate unit :=
  match es with
  | [] => mret tt
  | [_] => lift_pm (ulog_entry_apply o (ulog_data u) true)
  | _ => operation_process_persistent_redo o fuel
  end.

(** [operation_finish] of a redo operation without volatile changes. *)
Lemma redo_finish_run s es t s' : shadow_inv s es t → oc_type (ms_ctx s) = LOG_TYPE_REDO → oc_in_progress (ms_ctx s) = true →
  ol_offset (oc_transient_ops (ms_ctx s)) = 0 →
  process_log es (ol_ulog (plog s)) (finished s) = (Ok tt, s') → ms_ctx s' = ms_ctx (finished s) →
  operation_finish o ulog_free push_ok fuel s = (Ok tt, s').
Proof.
  intros Hsh Ht Hp Htr E Hc. unfold operation_finish, assert_in_progress.
  erewrite (bind_ok _ _ _ tt s).
  2: { erewrite bind_ok by reflexivity. cbn. by rewrite Hp. }
  erewrite bind_ok by reflexivity. erewrite bind_ok by reflexivity. fold (finished s). cbn [compose id].
  change (oc_type (ms_ctx (finished s))) with (oc_type (ms_ctx s)).
  change (oc_pshadow_ops (ms_ctx (finished s))) with (plog s).
  rewrite Ht, bool_decide_true, (sh_offset _ _ _ Hsh) by done. cbn [andb].
  destruct es as [|e es]; [simpl in *; congruence|]. rewrite (proj2 (Z.eqb_neq _ _)) by (cbn [length]; lia). cbn [negb].
  unfold operation_process. do 2 (erewrite bind_ok by reflexivity). cbn [compose id].
  change (oc_pshadow_ops (ms_ctx (finished s))) with (plog s). change (oc_type (ms_ctx (finished s))) with (oc_type (ms_ctx s)).
  rewrite Ht, bool_decide_true, (sh_offset _ _ _ Hsh) by done. cbn [andb].
  rewrite (proj2 (Z.eqb_neq _ _)) by (cbn [length]; lia). cbn [negb andb].
  change (smem (finished s)) with (smem s). rewrite (single_entry_spec s _ t Hsh), decide_False by done.
  set (f := MState _ _). assert (f = finished s) as -> by (by destruct s as [[] ?]).
  destruct es as [|e' es]; cbn [process_log] in E.
  - rewrite bool_decide_true by done. cbn [negb]. erewrite bind_ok by exact E. do 2 (erewrite bind_ok by reflexivity).
    cbn [compose id]. rewrite Hc. cbn. by rewrite Htr.
  - rewrite bool_decide_false by done. cbn [negb]. erewrite bind_ok by reflexivity. erewrite bind_ok by exact E.
    erewrite bind_ok by reflexivity. cbn [compose id]. rewrite Hc. cbn. by rewrite Htr.
Qed.

(** The memory after the redo sequence, on any platform. *)
Lemma redo_applies `{!OpsSpec o} D s es t : shadow_inv s es t → redo_pre D s es → es ≠ [] → (length es < fuel)%nat →
  ∃ s', operation_process_persistent_redo o fuel s = (Ok tt, s') ∧ ms_ctx s' = ms_ctx s ∧
    ∀ a, a < D → ¬ (oc_ulog (ms_ctx s) ≤ a < oc_ulog (ms_ctx s) + 64 + oc_ulog_base_nbytes (ms_ctx s)) →
      rd (smem s') a = rd (uops_apply (smem s) (vent_op <$> es)) a.
Proof using Type*.
  intros Hsh Hpre Hne Hf. destruct (few_entries D s es Hpre) as (Hn & HB & Hlt & Hl & HD & Hd & HD63).
  pose proof (image_log _ _ _ _ Hn (shadow_log D s es t Hsh Hpre Hne) _ _ (redo_mem_image D s es Hpre)) as Hlog.
  rewrite (redo_steps o D s es t fuel Hsh Hpre).
  set (p0 := op_memcpy _ _ _ _ _). assert (pm_mem p0 = wr (smem s) (oc_ulog (ms_ctx s)) (redo_image s es)) as Ep0
    by apply ops_memcpy.
  destruct (process_run o fuel (redo_mem s es) (ol_ulog (plog s)) (vent_op <$> es) (log_bytes (ol_ulog (plog s)) es)
    (dram_store p0 (ol_ulog (plog s)) (rdn (stored_src (smem s) (ol_ulog (plog s)) es (oc_next (ms_ctx s))) (ol_ulog (plog s)) 64)))
    as (p1 & E1 & Hap).
  { apply values_replayable; [done|done|by eapply shadow_apart|done]. }
  { intros a _. cbn. by rewrite Ep0. }
  destruct (clobber_frame o (oc_ulog (ms_ctx s)) (Some (oc_next (ms_ctx s))) p1) as (p2 & E2 & Hp2).
  exists (with_pm s p2). split; [|split; [done|]].
  - erewrite bind_ok by (by apply lift_run). by erewrite lift_run by exact E2.
  - intros a Ha Hna. cbn [with_pm ms_env me_pm]. rewrite Hp2 by lia. rewrite (ap_mem _ _ _ Hap). apply apply_at.
    cbn. rewrite Ep0, !rd_wr_out; [done|rewrite Hl; lia|rewrite length_rdn; lia].
Qed.

(** The log of the operation is in the pool and apart from the words to be changed. *)
Local Abbreviation in_log s a := (oc_ulog (ms_ctx s) ≤ a < oc_ulog (ms_ctx s) + 64 + oc_ulog_base_nbytes (ms_ctx s)).

Lemma finish_applies `{!OpsSpec o} D s es t : shadow_inv s es t → redo_pre D s es → (length es < fuel)%nat →
  oc_type (ms_ctx s) = LOG_TYPE_REDO → oc_in_progress (ms_ctx s) = true → ol_offset (oc_transient_ops (ms_ctx s)) = 0 →
  ∃ s', operation_finish o ulog_free push_ok fuel s = (Ok tt, s') ∧
    ∀ a, a < D → ¬ in_log s a → rd (smem s') a = rd (uops_apply (smem s) (vent_op <$> es)) a.
Proof using Type*.
  intros Hsh Hpre Hf Ht Hp Htr.
  assert (∃ s', process_log es (ol_ulog (plog s)) (finished s) = (Ok tt, s') ∧ ms_ctx s' = ms_ctx (finished s) ∧
    ∀ a, a < D → ¬ in_log s a → rd (smem s') a = rd (uops_apply (smem s) (vent_op <$> es)) a) as (s' & E & Hc & Hm).
  { destruct es as [|e [|e' es]]; cbn [process_log].
    - by exists (finished s).
    - assert (uop_at (smem s) (ulog_data (ol_ulog (plog s))) = vent_op e) as Ho.
      { pose proof (Forall_cons_1 _ _ _ (sh_ok _ _ _ Hsh)) as [[Hpt _ _ Hk] _].
        pose proof (sh_entries _ _ _ Hsh 0%nat e eq_refl) as H. unfold slot_addr in H. rewrite Z.add_0_r in H.
        by destruct (val_entry_reads _ _ _ _ _ Hpt Hk H) as (_ & _ & _ & _ & ->). }
      destruct (entry_apply_run o (ulog_data (ol_ulog (plog s))) true (me_pm (ms_env s))) as (p' & E & W).
      exists (with_pm (finished s) p'). split; [apply lift_run; exact E|]. split; [done|]. intros a _ _. cbn [with_pm ms_env me_pm].
      rewrite (ow_mem _ _ _ _ W), Ho. unfold uops_apply. cbn [fmap list_fmap foldl]. unfold uop_apply. by destruct (uop_write (smem s) (vent_op e)).
    - apply (redo_applies D (finished s) _ t); [by apply finished_inv|by apply finished_pre|done|done]. }
  exists s'. split; [|done]. by eapply redo_finish_run.
Qed.

(** The requirements on requests hold for the entries they become. *)
Lemma pre_entries D s s' rs es : redo_pre D s rs → shadow_step D s s' → (length es ≤ length rs)%nat →
  (∀ a, changes es a → changes rs a) → redo_pre D s' es.
Proof.
  intros [HD HS Hlog Hfit Hpool Hclear] Hst Hlen Hch. destruct (ss_ctx _ _ _ Hst) as (q & l & Ec).
  assert (∀ P : Z → Prop, Forall (λ e, P (ve_ptr e)) rs → Forall (λ e, P (ve_ptr e)) es) as Hall.
  { intros P HP. rewrite Forall_forall in HP |- *. intros e He.
    destruct (Hch (ve_ptr e)) as (e0 & He0 & <-); [by exists e|]. by apply HP. }
  assert (oc_ulog (ms_ctx s') = oc_ulog (ms_ctx s) ∧ oc_ulog_base_nbytes (ms_ctx s') = oc_ulog_base_nbytes (ms_ctx s))
    as [E1 E2] by (by rewrite Ec).
  split; rewrite ?E1, ?E2; [done|by apply (ss_ulog _ _ _ Hst)|done| |by apply (Hall (λ a, a + 8 ≤ D))|by apply (Hall (λ a, a + 8 ≤ _ ∨ _ ≤ a))].
  etransitivity; [|exact Hfit]. unfold roundup. apply Z.mul_le_mono_nonneg_r; [lia|]. apply Z.div_le_mono; lia.
Qed.

(** From the start of an operation to its end. *)
Lemma redo_applied `{!OpsSpec o} D s rs : ctx_ready s → oc_type (ms_ctx s) = LOG_TYPE_REDO → alloc_ok D s →
  Forall vent_ok rs → redo_pre D s rs → (length rs < fuel)%nat →
  ∃ r s', (operation_start;; add_all rs;; operation_finish o ulog_free push_ok fuel) s = (r, s') ∧
    (r = Ok tt ∧ (∀ a, a < D → ¬ in_log s a → rd (smem s') a = rd (uops_apply (smem s) (vent_op <$> rs)) a) ∨
     r = Fail ENOMEM ∧ ol_capacity (plog s) < 16 * len rs + 64 ∧ sevs s' = sevs s ∧ ∀ a, a < D → rd (smem s') a = rd (smem s) a).
Proof using Type*.
  intros Hr Ht Ha Hok Hpre Hf. erewrite bind_ok by (by apply start_run, Hr).
  assert (redo_pre D (started s) rs) as Hpre1 by (destruct Hpre; by split).
  destruct (few_entries _ _ _ Hpre1) as (Hn & _).
  destruct (add_all_ok D rs (started s) [] 0 (started_inv s Hr) Hok Ha (rp_shadow _ _ _ Hpre1) Hn)
    as (res & s1 & dn & rest & es & t & E & Hrs & Hres & Hst & Hsh & Hlen & Hch & Heq).
  destruct Hres as [[-> ->]|[-> Hfull]].
  - erewrite bind_ok by exact E. rewrite app_nil_r in Hrs. subst dn. cbn [length app] in *.
    destruct (ss_ctx _ _ _ Hst) as (q & l & Ec).
    destruct (finish_applies D s1 es t Hsh) as (s' & E' & Hm); [by eapply pre_entries|lia|by rewrite Ec..|].
    exists (Ok tt), s'. split; [done|]. left. split; [done|]. intros a Hlt Hna. rewrite Hm; [|done|by rewrite Ec].
    rewrite (uops_equiv_apply _ _ (smem s1) Heq a). simpl. apply apply_at. by apply (ss_pool _ _ _ Hst).
  - erewrite bind_fail by exact E. exists (Fail ENOMEM), s1. split; [done|]. right.
    split_and!; [done|done|apply (ss_evs _ _ _ Hst)|apply (ss_pool _ _ _ Hst)].
Qed.

(** C15: a redo operation has the effect of its requests.  Start an operation on a context as
    [operation_new] makes it, ask for changes of words (set, and, or; the same word may be changed several times) and finish it: outside of the log, the memory is the one the changes give when they are made one after the
    other.  The words are aligned to 8 bytes, in the pool and apart from the log, and the entries, 16 bytes each with no merging counted, fit in the base buffer of the log: operations that need a chained log are
    not covered.  When the shadow log is too small for the requests and cannot be enlarged the result is [ENOMEM], nothing is written to the pool and it is as before. *)
Theorem operation_redo_applies `{!OpsSpec o} D s rs : ctx_ready s → oc_type (ms_ctx s) = LOG_TYPE_REDO → alloc_ok D s →
  Forall vent_ok rs → redo_pre D s rs → (length rs < fuel)%nat →
  ∃ r s', (operation_start;; add_all rs;; operation_finish o ulog_free push_ok fuel) s = (r, s') ∧
    (r = Ok tt ∧ (∀ a, a < D → ¬ in_log s a → rd (smem s') a = rd (uops_apply (smem s) (vent_op <$> rs)) a) ∨
     r = Fail ENOMEM ∧ ol_capacity (plog s) < 16 * len rs + 64 ∧ sevs s' = sevs s ∧ ∀ a, a < D → rd (smem s') a = rd (smem s) a).
Proof using Type*. apply redo_applied. Qed.

(** The writes of [process_log] that reach the pool. *)
Definition pool_writes (s : mstate) (es : list vent) (M : mem) : list (Z * list Z) :=
  match es with
  | [] => []
  | [e] => writes_of M [vent_op e]
  | _ => redo_writes s es M
  end.

Lemma process_writes `{!OrderedOps o} D s es t : shadow_inv s es t → redo_pre D s es → (length es < fuel)%nat →
  ∃ s' evs, process_log es (ol_ulog (plog s)) s = (Ok tt, s') ∧ ms_ctx s' = ms_ctx s ∧ sevs s' = sevs s ++ evs ∧
    ∀ M, (∀ a, a < D → rd M a = rd (smem s) a) → durable_writes (pool_writes s es M) evs.
Proof using Type*.
  intros Hsh Hpre Hf. destruct es as [|e [|e' es]]; cbn [process_log pool_writes].
  - exists s, []. rewrite app_nil_r. split_and!; [done..|]. intros; constructor.
  - destruct (single_change_run o e s t Hsh) as (evs & E & W). eexists _, evs. split_and!; [exact E|done..|].
    intros M HM. change [vent_op e] with (vent_op <$> [e]). by rewrite (writes_agree D [e] M (smem s)); [|apply Hpre|].
  - destruct (redo_run o D s (e :: e' :: es) t fuel Hsh Hpre) as (s' & evs & E & Hc & Hev & _ & W); [done..|]. by exists s', evs.
Qed.

(** A failure during a single change. *)
Lemma single_crash D s e M x : redo_pre D s [e] → vent_ok e → ulog_f_capacity M (oc_ulog (ms_ctx s)) = 0 →
  ws_crash M (writes_of M [vent_op e]) x →
  recovers_to o s fuel x M ∨ recovers_to o s fuel x (uops_apply M [vent_op e]).
Proof using.
  intros Hpre He Hidle Hx. destruct (few_entries _ _ _ Hpre) as (_ & _ & Hlt & _).
  assert (mem_eq x M ∨ mem_eq x (uop_apply M (vent_op e))) as Hor.
  { cbn [writes_of] in Hx. destruct (uop_write M (vent_op e)) as [d bs] eqn:Ew.
    assert (uop_apply M (vent_op e) = wr M d bs) as Ea by (unfold uop_apply; by rewrite Ew).
    apply ws_crash_cons in Hx as [Hx|[Hx|Hx%ws_crash_nil]]; [by left| |right; by rewrite Ea].
    apply word_torn; [done|]. by rewrite Ea. }
  assert (∀ a, in_log s a → rd (uop_apply M (vent_op e)) a = rd M a) as Hlog.
  { intros a Ha. apply uop_apply_out. apply (Forall_inv (ops_clear D s [e] Hpre a Ha)). }
  destruct Hor as [Hx1|Hx1]; [left|right]; (apply recovers_needless; [apply not_needed|by intros a _; apply Hx1]);
    rewrite <- Hidle; apply rd64_ext; intros a Ha; rewrite Hx1; [done|]; apply Hlog; simpl in Hlt; lia.
Qed.

(** A failure at any point of [operation_finish]. *)
Lemma finish_crash `{!OrderedOps o} D m0 s es t :
  shadow_inv s es t → redo_pre D s es → (length es < fuel)%nat →
  oc_type (ms_ctx s) = LOG_TYPE_REDO → oc_in_progress (ms_ctx s) = true → ol_offset (oc_transient_ops (ms_ctx s)) = 0 →
  (8 | oc_ulog (ms_ctx s)) →
  let M := replay m0 (sevs s) in
  settled m0 (sevs s) → (∀ a, a < D → rd M a = rd (smem s) a) →
  ulog_f_capacity M (oc_ulog (ms_ctx s)) = 0 → torn_detected s es fuel M →
  ∃ s', operation_finish o ulog_free push_ok fuel s = (Ok tt, s') ∧
    ∀ j x, (length (sevs s) ≤ j ≤ length (sevs s'))%nat → crash_at m0 (take j (sevs s')) x →
      recovers_to o s fuel x M ∨ recovers_to o s fuel x (uops_apply M (vent_op <$> es)).
Proof using Type*.
  intros Hsh Hpre Hf Ht Hp Htr Hal M Hs HM Hidle Htd.
  destruct (process_writes D (finished s) es t) as (s' & evs & E & Hc & Hev & W); [by apply finished_inv|by apply finished_pre|done|].
  exists s'. split; [by eapply redo_finish_run|]. intros j x Hj Hx. change (sevs (finished s)) with (sevs s) in Hev. rewrite Hev in Hj, Hx.
  pose proof (crash_ws _ _ (W M HM) _ _ (crash_settled _ _ _ _ _ Hs Hj Hx)) as Hws.
  destruct es as [|e [|e' es]]; cbn [pool_writes] in Hws.
  - left. apply recovers_needless; [apply not_needed; rewrite <- Hidle; apply rd64_ext; intros a _|intros a _];
      apply (ws_crash_nil _ _ Hws).
  - apply (single_crash D); [done|apply (Forall_inv (sh_ok _ _ _ Hsh))|done..].
  - by apply (redo_crash o D s (e :: e' :: es) t fuel Hsh Hpre).
Qed.

(** C14: a redo operation is atomic across power failures.  On a platform that writes back in
    the order of the calls, and with a checksum that tells a torn log from a complete one, cut [operation_finish] at any point and
    keep any part of what was in flight: recovery succeeds and then either none of the changes
    has been made or all of them have, wherever the log is not.  The conditions: an operation is in progress on an idle log that starts at a multiple of 8; its entries, for words of the pool apart from the log, fit in the base
    buffer of the log (16 bytes for each), so no log is chained to it and [ulog_reserve] is not needed; there are no transient entries; what was written before is durable. *)
Theorem operation_finish_crash_atomic `{!OrderedOps o} D m0 s es t :
  shadow_inv s es t → redo_pre D s es → (length es < fuel)%nat →
  oc_type (ms_ctx s) = LOG_TYPE_REDO → oc_in_progress (ms_ctx s) = true → ol_offset (oc_transient_ops (ms_ctx s)) = 0 →
  (8 | oc_ulog (ms_ctx s)) →
  let M := replay m0 (sevs s) in
  settled m0 (sevs s) → (∀ a, a < D → rd M a = rd (smem s) a) →
  ulog_f_capacity M (oc_ulog (ms_ctx s)) = 0 → torn_detected s es fuel M →
  ∃ s', operation_finish o ulog_free push_ok fuel s = (Ok tt, s') ∧
    ∀ j x, (length (sevs s) ≤ j ≤ length (sevs s'))%nat → crash_at m0 (take j (sevs s')) x →
      recovers_to o s fuel x M ∨ recovers_to o s fuel x (uops_apply M (vent_op <$> es)).
Proof using Type*. apply finish_crash. Qed.
End finish.

(** ** Witnesses *)

Definition no_free : Z → M pmem unit := λ _, mret tt.
Definition no_push : nat → bool := λ _, true.

Lemma operation_redo_applies_witness : ∃ r s',
  (operation_start;; add_all ex_requests;; operation_finish clflush_ops no_free no_push 10) ex_new = (r, s') ∧
  (r = Ok tt ∧ rd (smem s') 4096 = rd (uops_apply (smem ex_new) (vent_op <$> ex_requests)) 4096 ∨
   r = Fail ENOMEM ∧ rd (smem s') 4096 = rd (smem ex_new) 4096).
Proof.
  destruct (new_ready 3 1024 640 LOG_TYPE_REDO ex_env (ms_ctx ex_new) (ms_env ex_new) ltac:(lia) ex_new_run) as [Hr Ht].
  destruct (operation_redo_applies clflush_ops no_free no_push 10 1048576 ex_new ex_requests)
    as (r & s' & E & H).
  - revert Hr. by destruct ex_new.
  - exact Ht.
  - apply ex_alloc.
  - apply ex_vent_ok.
  - apply ex_pre_new.
  - simpl. lia.
  - exists r, s'. split; [exact E|]. destruct H as [[-> H]|[-> [_ H]]]; [left|right]; (split; [reflexivity|apply H; [lia|..]]).
    assert (oc_ulog (ms_ctx ex_new) + 64 + oc_ulog_base_nbytes (ms_ctx ex_new) = 1728) as -> by (vm_compute; reflexivity). lia.
Defined.

Lemma operation_finish_crash_atomic_witness : ∃ s',
  operation_finish clflush_ops no_free no_push 10 ex_started = (Ok tt, s') ∧
  ∀ x, crash_at ∅ (pm_evs (me_pm (ms_env s'))) x →
    recovers_to clflush_ops ex_started 10 x ∅ ∨
    recovers_to clflush_ops ex_started 10 x (uops_apply ∅ (vent_op <$> ex_entries)).
Proof.
  assert (sevs ex_started = []) as E0 by (vm_compute; reflexivity).
  destruct (operation_finish_crash_atomic clflush_ops no_free no_push 10 1048576 ∅ ex_started ex_entries 2)
    as (s' & E & H).
  - apply ex_shadow.
  - apply ex_pre.
  - simpl. lia.
  - vm_compute. reflexivity.
  - vm_compute. reflexivity.
  - vm_compute. reflexivity.
  - exists 128. vm_compute. reflexivity.
  - rewrite E0. apply settled_nil.
  - rewrite E0. apply ex_pool_zero.
  - rewrite E0. assert (oc_ulog (ms_ctx ex_started) = 1024) as -> by (vm_compute; reflexivity). reflexivity.
  - rewrite E0. apply ex_torn.
  - rewrite E0 in H. exists s'. split; [exact E|]. intros x Hx. apply (H (length (pm_evs (me_pm (ms_env s'))))).
    + split; [simpl; lia|reflexivity].
    + by rewrite firstn_all.
Defined.

(** ** A shadow log that was reallocated *)

Definition ex_env_long : menv := MEnv (Pmem ∅ []) (Some <$> [1900000; 2000000; 2100000; 2200000; 2300000]).
Definition ex_long : mstate :=
  match operation_new 3 1024 2048 LOG_TYPE_REDO ex_env_long with
  | (Ok (Some c), e) => MState e c
  | (_, e) => MState e no_ctx
  end.

(** Changes of [n] words. *)
Definition ex_words (n : nat) : list vent := (λ i, VEnt (4096 + 8 * Z.of_nat i) (Z.of_nat i + 1) 0) <$> seq 0 n.

(** Sixty-four words, then an [or] and a [set] of the sixth. *)
Definition ex_wrapped : list vent := ex_words 64 ++ [VEnt 4136 256 2; VEnt 4136 77 0].

(** Sixty-one words, cancelled, and then those. *)
Definition ex_reused : M mstate unit :=
  operation_start;; add_all (ex_words 61);; operation_cancel;;
  operation_start;; add_all ex_wrapped;; operation_finish clflush_ops no_free no_push 100.

(** once the shadow log of a context has been enlarged, the search for an
    entry to merge with can miss the latest one.  A context is used for 61
    changes, cancelled, and used again for 64 changes, an [or] and a [set] of the same word: the queue of candidates wraps around,
    [VECQ_FOREACH_REVERSE] visits it out of order, and the [set] is merged with an entry older than the [or].
    The operation stores 333 where the requests end with 77. *)
Theorem operation_merge_out_of_order : ∃ c e s',
  operation_new 3 1024 2048 LOG_TYPE_REDO ex_env_long = (Ok (Some c), e) ∧ ex_reused (MState e c) = (Ok tt, s') ∧
  rd64 (smem s') 4136 = 333 ∧ rd64 (uops_apply (pm_mem (me_pm e)) (vent_op <$> ex_wrapped)) 4136 = 77.
Proof.
  assert (match (operation_new 3 1024 2048 LOG_TYPE_REDO ex_env_long).1 with Ok (Some _) => true | _ => false end = true) as H0
    by (vm_compute; reflexivity).
  assert ((ex_reused ex_long).1 = Ok tt) as H1 by (vm_compute; reflexivity).
  assert (rd64 (smem (ex_reused ex_long).2) 4136 = 333) as H2 by (vm_compute; reflexivity).
  assert (rd64 (uops_apply (smem ex_long) (vent_op <$> ex_wrapped)) 4136 = 77) as H3 by (vm_compute; reflexivity).
  unfold ex_long in H1, H2, H3. destruct (operation_new 3 1024 2048 LOG_TYPE_REDO ex_env_long) as [[[c|]| |] e]; try done.
  exists c, e, (ex_reused (MState e c)).2. split; [done|]. split; [|done]. rewrite <- H1. by destruct (ex_reused _).
Qed.
