(* ===== verification/MemopsTx.v ===== *)
(** * libpmemobj: undo operations

    Before a transaction changes a range it copies the old contents to the persistent log with
    [operation_add_buffer]; [operation_process] of an undo context copies them back.  The first part has
    the log of snapshots, that adding a snapshot extends it, and what processing it does; the second, programs of snapshots and stores that are
    rolled back or committed. *)

From stdpp Require Import base gmap list numbers.
From S2P Require Import Prelude Memory Pmem Util Ulog UlogSpec UlogEntry UlogTheorems Vecq Memops MemopsMerge MemopsCrash MemopsExample MemopsTheorems.
Local Open Scope Z_scope.

Local Abbreviation smem s := (pm_mem (me_pm (ms_env s))).

(** ** Snapshots *)

Record snap : Type := Snap { sn_dst : Z; sn_data : list Z }.

Record snap_ok (s : snap) : Prop := {
  so_dst : 0 < sn_dst s < 2 ^ 61;
  so_some : sn_data s ≠ [];
  so_len : len (sn_data s) < 2 ^ 61;
  so_bytes : Forall is_byte (sn_data s)
}.

(** The space a snapshot takes in the log. *)
Definition snap_size (s : snap) : Z := roundup (24 + len (sn_data s)) 64.
Fixpoint log_size (ss : list snap) : Z := match ss with [] => 0 | s :: ss => snap_size s + log_size ss end.
Definition snap_op (s : snap) : uop := UCopy (sn_dst s) (sn_data s).
Definition snap_covers (s : snap) (a : Z) : Prop := sn_dst s ≤ a < sn_dst s + len (sn_data s).

(** The entry at [e] is the snapshot. *)
Definition snap_at (m : mem) (e : Z) (s : snap) : Prop :=
  ulog_entry_valid m e = Ok true ∧ ulog_entry_size m e = snap_size s ∧ uop_at m e = snap_op s.

Fixpoint snaps_at (m : mem) (u off : Z) (ss : list snap) : Prop :=
  match ss with
  | [] => True
  | s :: ss => snap_at m (ulog_data u + off) s ∧ snaps_at m u (off + snap_size s) ss
  end.

(** The log at [u] holds [ss] and nothing else. *)
Record undo_log (m : mem) (u cap : Z) (ss : list snap) : Prop := {
  ul_cap : ulog_f_capacity m u = cap;
  ul_next : ulog_f_next m u = 0;
  ul_snaps : snaps_at m u 0 ss;
  ul_fits : log_size ss ≤ cap;
  ul_rest a : ulog_data u + log_size ss ≤ a < ulog_data u + cap → rd m a = 0;
  ul_range : cap < 2 ^ 62;
  ul_align : (64 | cap)
}.

Lemma snap_size_bounds s : 24 + len (sn_data s) ≤ snap_size s ∧ 64 ≤ snap_size s ∧ (64 | snap_size s).
Proof.
  unfold snap_size. pose proof (roundup_bounds (24 + len (sn_data s)) 64 ltac:(lia)).
  pose proof (roundup_divide (24 + len (sn_data s)) 64) as H64. split_and!; [lia| |done].
  destruct H64 as [q Hq]; lia.
Qed.

Lemma log_size_bounds ss : 0 ≤ log_size ss ∧ (64 | log_size ss).
Proof.
  induction ss as [|s ss [IH1 [q IH2]]]; simpl; [split; [lia|by exists 0]|].
  destruct (snap_size_bounds s) as (_ & H & [r Hr]). split; [lia|]. exists (r + q). lia.
Qed.

Lemma log_size_app ss1 ss2 : log_size (ss1 ++ ss2) = log_size ss1 + log_size ss2.
Proof. induction ss1; simpl; lia. Qed.

Lemma snaps_at_app m u ss1 ss2 : ∀ off, snaps_at m u off (ss1 ++ ss2) ↔ snaps_at m u off ss1 ∧ snaps_at m u (off + log_size ss1) ss2.
Proof.
  induction ss1 as [|s ss1 IH]; intros off; simpl; [rewrite Z.add_0_r; tauto|]. rewrite IH, Z.add_assoc. tauto.
Qed.

Lemma snap_fields m e s : snap_at m e s → is_buf m e = true ∧ entry_f_size m e = len (sn_data s).
Proof.
  intros (_ & _ & H). unfold uop_at, snap_op in H. unfold is_buf.
  destruct (_ =? ULOG_OPERATION_AND); [done|]. destruct (_ =? ULOG_OPERATION_OR); [done|].
  destruct (_ =? ULOG_OPERATION_SET); [done|]. destruct (_ =? ULOG_OPERATION_BUF_SET); [done|].
  destruct (_ =? ULOG_OPERATION_BUF_CPY); [|done]. injection H as _ H. split; [done|].
  apply (f_equal length) in H. rewrite length_rdn in H. pose proof (rd64_range m (e + 16)) as Hr. unfold entry_f_size in *. lia.
Qed.

(** Everything about the entry is in its own cache lines. *)
Lemma snap_reads m e s a : snap_at m e s → entry_reads m e a → e ≤ a < e + snap_size s.
Proof.
  intros H Ha. destruct (snap_fields m e s H) as [_ Hf]. destruct H as (_ & Hs & _).
  destruct (snap_size_bounds s) as (H1 & H2 & _). unfold entry_reads in Ha. rewrite Hs, Hf in Ha. lia.
Qed.

Lemma snap_frame m m' e s : (∀ a, e ≤ a < e + snap_size s → rd m' a = rd m a) → snap_at m e s → snap_at m' e s.
Proof.
  intros Hm H. set (R := λ a, e ≤ a < e + snap_size s).
  assert (∀ a, entry_reads m e a → R a) as HR by (intros a; by apply snap_reads).
  destruct H as (H1 & H2 & H3). split_and!.
  - by rewrite (valid_frame m m' R Hm e HR).
  - by rewrite (size_frame m m' R Hm e HR).
  - by rewrite (uop_frame m m' R Hm e HR).
Qed.

Lemma snaps_frame m m' u ss : ∀ off, (∀ a, ulog_data u + off ≤ a < ulog_data u + off + log_size ss → rd m' a = rd m a) →
  snaps_at m u off ss → snaps_at m' u off ss.
Proof.
  induction ss as [|s ss IH]; intros off Hm; [done|]. intros [H1 H2]. cbn [log_size] in Hm.
  pose proof (log_size_bounds ss) as [H0 _]. destruct (snap_size_bounds s) as (_ & H64 & _). split.
  - apply (snap_frame m); [|done]. intros a Ha. apply Hm. lia.
  - apply IH; [|done]. intros a Ha. apply Hm. lia.
Qed.

Lemma undo_log_ext m m' u cap ss : (∀ a, u ≤ a < u + 64 + cap → rd m' a = rd m a) → undo_log m u cap ss → undo_log m' u cap ss.
Proof.
  intros H [Hc Hn Hs Hf Hr Hs62 Hal]. pose proof (log_size_bounds ss) as [Hl _]. unfold ulog_data in *. split; try done.
  - rewrite <- Hc. apply rd64_ext. intros a Ha. apply H. lia.
  - rewrite <- Hn. apply rd64_ext. intros a Ha. apply H. lia.
  - apply (snaps_frame m); [|done]. intros a Ha. unfold ulog_data in *. apply H. lia.
  - intros a Ha. unfold ulog_data in *. rewrite H by lia. apply Hr. lia.
Qed.

(** ** Processing the log *)

Section replay.
Context (m : mem) (u cap : Z).
Context (Hcap : ulog_f_capacity m u = cap) (Hsmall : cap < 2 ^ 62).
Definition in_undo_log (a : Z) : Prop := u ≤ a < u + 64 + cap.

(** The addresses of the entries. *)
Fixpoint snap_addrs (off : Z) (ss : list snap) : list Z :=
  match ss with [] => [] | s :: ss => (ulog_data u + off) :: snap_addrs (off + snap_size s) ss end.

Lemma snaps_ops ss : ∀ off, snaps_at m u off ss → uop_at m <$> snap_addrs off ss = snap_op <$> ss.
Proof using.
  induction ss as [|s ss IH]; intros off; [done|]. intros [(_ & _ & H) H2]. cbn [snap_addrs]. rewrite !fmap_cons, H. f_equal. by apply IH.
Qed.

(** The walk ends behind the last snapshot. *)
Definition ends_at (off : Z) : Prop := off = cap ∨ off + 16 ≤ cap ∧ rd64 m (ulog_data u + off) = 0.

Lemma ends_cap off ss : 0 ≤ off → ends_at (off + log_size ss) → 0 ≤ cap.
Proof using. intros Hoff He. pose proof (log_size_bounds ss) as [H _]. destruct He as [He|[He _]]; lia. Qed.

Lemma end_invalid off : rd64 m (ulog_data u + off) = 0 →
  ulog_entry_valid m (ulog_data u + off) = Ok false ∧ is_buf m (ulog_data u + off) = false.
Proof using. intros H. split; unfold ulog_entry_valid, is_buf, ulog_entry_type, entry_f_offset; by rewrite H. Qed.

Lemma parse_snaps ss : ∀ off fuel, 0 ≤ off → snaps_at m u off ss → ends_at (off + log_size ss) → (length ss < fuel)%nat →
  parse_in fuel m u off = Ok (snap_addrs off ss, bool_decide (off + log_size ss < cap)).
Proof using Hcap Hsmall.
  induction ss as [|s ss IH]; intros off fuel Hoff Hs He Hf; (destruct fuel as [|fuel]; [simpl in Hf; lia|]); cbn [parse_in log_size snap_addrs] in *;
    rewrite Hcap.
  - rewrite Z.add_0_r in *. destruct He as [-> |[Hlt H0]]; [by rewrite Z.ltb_irrefl, bool_decide_false by lia|].
    rewrite (proj2 (Z.ltb_lt _ _)) by lia. by rewrite (proj1 (end_invalid off H0)), bool_decide_true by lia.
  - destruct Hs as [Hs1 Hs2]. destruct (snap_size_bounds s) as (_ & H64 & _). pose proof (log_size_bounds ss) as [Hl _].
    assert (off + snap_size s + log_size ss ≤ cap) by (destruct He as [He|[He _]]; lia).
    rewrite (proj2 (Z.ltb_lt _ _)) by lia. destruct Hs1 as (-> & -> & _). rewrite u64_id by lia.
    rewrite (IH (off + snap_size s) fuel); [by rewrite Z.add_assoc|lia|done|by rewrite <- Z.add_assoc|simpl in Hf; lia].
Qed.

Lemma covers_snaps ss : ∀ off fuel, 0 ≤ off → snaps_at m u off ss → ends_at (off + log_size ss) →
  covers_in in_undo_log fuel m u off.
Proof using Hcap Hsmall.
  induction ss as [|s ss IH]; intros off fuel Hoff Hs He; pose proof (ends_cap _ _ Hoff He) as H0c;
    (destruct fuel as [|fuel]); cbn [covers_in log_size] in *;
    (split; [intros a Ha; unfold in_undo_log; lia|]);
    rewrite Hcap; intros Hlt; try done.
  - rewrite Z.add_0_r in He. destruct He as [He|[Hl H0]]; [lia|]. destruct (end_invalid off H0) as [Hv Hb]. split.
    + intros a [Ha|[Hb' _]]; [|congruence]. unfold in_undo_log, ulog_data in *. lia.
    + by rewrite Hv.
  - destruct Hs as [Hs1 Hs2]. destruct (snap_size_bounds s) as (_ & H64 & _). pose proof (log_size_bounds ss) as [Hl _].
    assert (off + snap_size s + log_size ss ≤ cap) by (destruct He as [He|[He _]]; lia). split.
    + intros a Ha. pose proof (snap_reads m _ s a Hs1 Ha). unfold in_undo_log, ulog_data in *. lia.
    + intros _. destruct Hs1 as (_ & -> & _). rewrite u64_id by lia. apply IH; [lia|done|]. by rewrite <- Z.add_assoc.
Qed.
End replay.

Lemma rd64_zero m e : (∀ a, e ≤ a < e + 8 → rd m a = 0) → rd64 m e = 0.
Proof.
  intros H. unfold rd64. assert (rdn m e 8 = zeros 8) as ->; [|done].
  apply (nth_ext _ _ 0 0); [by rewrite length_rdn|]. intros i Hi. rewrite length_rdn in Hi. rewrite nth_rdn, H by lia.
  unfold zeros. rewrite nth_repeat. done.
Qed.

Lemma undo_ends m u cap ss : undo_log m u cap ss → ends_at m u cap (0 + log_size ss).
Proof.
  intros [_ _ _ Hf Hr _ [q Hq]]. destruct (log_size_bounds ss) as [Hl [r Hlr]]. rewrite Z.add_0_l.
  destruct (decide (log_size ss = cap)) as [E|E]; [by left|right]. split; [lia|]. apply rd64_zero. intros a Ha. apply Hr. lia.
Qed.

(** No snapshot is of the log itself. *)
Definition snaps_apart (u cap : Z) (ss : list snap) : Prop :=
  Forall (λ s, ∀ a, snap_covers s a → ¬ in_undo_log u cap a) ss.

Lemma undo_replayable m u cap ss fuel : undo_log m u cap ss → snaps_apart u cap ss → (length ss < fuel)%nat →
  replayable fuel m u (snap_op <$> ss) (in_undo_log u cap).
Proof.
  intros Hu Ha Hf. pose proof (undo_ends m u cap ss Hu) as He. destruct Hu as [Hc Hn Hs _ _ Hr _].
  pose proof (parse_snaps m u cap Hc Hr ss 0 fuel ltac:(lia) Hs He Hf) as Hp.
  assert (ulog_next m u = None) as Hnx by (unfold ulog_next, ulog_by_offset; by rewrite Hn). split.
  - exists (snap_addrs u 0 ss). split; [|symmetry; by apply snaps_ops].
    unfold ulog_entries. destruct fuel as [|fuel]; [lia|]. cbn [parse_logs]. rewrite Hp.
    destruct (bool_decide _); [done|]. rewrite Hnx. destruct fuel; cbn [parse_logs]; by rewrite app_nil_r.
  - destruct fuel as [|fuel]; [lia|]. cbn [covers_logs]. split; [by apply (covers_snaps m u cap Hc Hr ss)|].
    rewrite Hnx. intros es _. by destruct fuel.
  - apply Forall_fmap. eapply Forall_impl; [|exact Ha]. intros s Hs' a Ht. apply Hs', Ht.
Qed.

(** Every snapshot of a byte holds the value it has in [m0]. *)
Definition snaps_of (m0 : mem) (ss : list snap) : Prop :=
  Forall (λ s, ∀ a, snap_covers s a → nth (Z.to_nat (a - sn_dst s)) (sn_data s) 0 = rd m0 a) ss.

(** Copying back: a byte that still has its value or has a snapshot ends up with its value. *)
Lemma restore_byte m0 ss : snaps_of m0 ss → Forall snap_ok ss → ∀ m a, rd m a = rd m0 a ∨ Exists (λ s, snap_covers s a) ss →
  rd (uops_apply m (snap_op <$> ss)) a = rd m0 a.
Proof.
  intros Hof Hok. induction Hof as [|s ss Hs _ IH]; intros m a Ha.
  - destruct Ha as [Ha|Ha]; [done|by apply Exists_nil in Ha].
  - apply Forall_cons_1 in Hok as [[_ _ _ Hb] Hok]. rewrite fmap_cons. unfold uops_apply. cbn [foldl].
    fold (uops_apply (uop_apply m (snap_op s)) (snap_op <$> ss)). apply IH; [done|].
    change (uop_apply m (snap_op s)) with (wr m (sn_dst s) (sn_data s)).
    destruct (decide (sn_dst s ≤ a < sn_dst s + len (sn_data s))) as [Hc|Hc].
    + left. rewrite rd_wr, decide_True by done. rewrite nth_mod_byte by done. by apply Hs.
    + rewrite rd_wr_out by done. destruct Ha as [Ha|Ha]; [by left|]. apply Exists_cons in Ha as [Ha|Ha]; [done|by right].
Qed.

(** ** Taking a snapshot *)

(** The cursor of the context is behind the last snapshot. *)
Record undo_inv (s : mstate) (u cap : Z) (ss : list snap) : Prop := {
  ui_ulog : oc_ulog (ms_ctx s) = u;
  ui_capacity : cap ≤ oc_ulog_capacity (ms_ctx s);
  ui_curr : (ss = [] ∧ oc_ulog_curr (ms_ctx s) = None ∧ oc_ulog_curr_capacity (ms_ctx s) = 0) ∨
    (oc_ulog_curr (ms_ctx s) = Some u ∧ oc_ulog_curr_offset (ms_ctx s) = log_size ss ∧
     oc_ulog_curr_capacity (ms_ctx s) = cap - log_size ss);
  ui_total : oc_total_logged (ms_ctx s) = log_size ss;
  ui_log : undo_log (smem s) u cap ss;
  ui_ok : Forall snap_ok ss
}.

(** What a step on the log leaves alone. *)
Record undo_step (s s' : mstate) : Prop := {
  us_type : oc_type (ms_ctx s') = oc_type (ms_ctx s);
  us_progress : oc_in_progress (ms_ctx s') = oc_in_progress (ms_ctx s);
  us_shadow : oc_pshadow_ops (ms_ctx s') = oc_pshadow_ops (ms_ctx s);
  us_transient : oc_transient_ops (ms_ctx s') = oc_transient_ops (ms_ctx s);
  us_nbytes : oc_ulog_base_nbytes (ms_ctx s') = oc_ulog_base_nbytes (ms_ctx s);
  us_alloc : me_alloc (ms_env s') = me_alloc (ms_env s)
}.

Lemma undo_step_refl s : undo_step s s.
Proof. by split. Qed.
Lemma undo_step_trans s1 s2 s3 : undo_step s1 s2 → undo_step s2 s3 → undo_step s1 s3.
Proof. intros [] []. split; congruence. Qed.

Section add.
Context (o : pmem_ops) `{!OpsSpec o} (extend : option (Z → M pmem unit)) (fuel : nat).

(** The log to write to. *)
Lemma buffer_log_run s u cap ss n : undo_inv s u cap ss → 0 ≤ n → log_size ss < cap → n ≤ cap →
  ∃ c, next_buffer_log extend fuel n s = (Ok tt, MState (ms_env s) c) ∧
    undo_step s (MState (ms_env s) c) ∧ oc_ulog c = u ∧ oc_ulog_capacity c = oc_ulog_capacity (ms_ctx s) ∧
    oc_ulog_curr c = Some u ∧ oc_ulog_curr_offset c = log_size ss ∧ oc_ulog_curr_capacity c = cap - log_size ss ∧
    oc_total_logged c = log_size ss.
Proof using.
  intros [Hu Hc Hcur Ht Hlog Hok] Hn Hlt Hle. pose proof (ul_range _ _ _ _ Hlog). unfold next_buffer_log. erewrite bind_ok by reflexivity.
  cbn [compose id]. destruct Hcur as [(-> & H1 & H2)|(H1 & H2 & H3)].
  - rewrite H2, Z.eqb_refl. cbn [log_size] in *. rewrite Ht, Z.add_0_l, u64_id by lia.
    erewrite (bind_ok _ _ _ tt s).
    2: { unfold operation_reserve. erewrite bind_ok by reflexivity. cbn [compose id].
         by rewrite (proj2 (Z.ltb_ge _ _)) by lia. }
    rewrite H1. erewrite bind_ok by reflexivity. cbv beta iota.
    erewrite bind_ok by (by apply lift_run). cbn [compose with_pm]. rewrite Hu, (ul_cap _ _ _ _ Hlog).
    eexists. split; [unfold mod_ctx, modify; cbn; by destruct s as [[] ?]|]. split; [by split|]. cbn.
    rewrite Ht. split_and!; try done. lia.
  - rewrite H3, (proj2 (Z.eqb_neq _ _)) by lia. exists (ms_ctx s). split; [by destruct s|]. split; [by destruct s; split|].
    by split_and!.
Qed.

Lemma snapshot_log m m' u cap ss sn : undo_log m u cap ss → log_size ss + snap_size sn ≤ cap →
  snap_at m' (ulog_data u + log_size ss) sn →
  (∀ a, ¬ (ulog_data u + log_size ss ≤ a < ulog_data u + log_size ss + snap_size sn) → rd m' a = rd m a) →
  undo_log m' u cap (ss ++ [sn]).
Proof using.
  intros [Hc Hn Hs Hf Hr Hs62 Hal] Hfit Hsn Hm. destruct (log_size_bounds ss) as [Hl _]. destruct (snap_size_bounds sn) as (_ & H64 & _).
  unfold ulog_data in *. split.
  - rewrite <- Hc. apply rd64_ext. intros a Ha. apply Hm. lia.
  - rewrite <- Hn. apply rd64_ext. intros a Ha. apply Hm. lia.
  - apply snaps_at_app. split; [|split; [|done]].
    + apply (snaps_frame m); [|done]. intros a Ha. unfold ulog_data in *. apply Hm. lia.
    + unfold ulog_data. by rewrite Z.add_0_l.
  - rewrite log_size_app. cbn [log_size]. lia.
  - rewrite log_size_app. cbn [log_size]. intros a Ha. unfold ulog_data in Ha. rewrite Hm by lia. apply Hr. lia.
  - done.
  - done.
Qed.

Lemma snapshot_run s u cap ss sn n : undo_inv s u cap ss → snap_ok sn → log_size ss + snap_size sn ≤ cap →
  ∃ s', operation_add_buffer o extend fuel (S n) (sn_dst sn) (sn_data sn) ULOG_OPERATION_BUF_CPY s = (Ok tt, s') ∧
    undo_inv s' u cap (ss ++ [sn]) ∧ undo_step s s' ∧
    ∀ a, ¬ in_undo_log u cap a → rd (smem s') a = rd (smem s) a.
Proof using Type*.
  intros Hi Hsn Hfit. pose proof Hi as [Hu Hc Hcur Ht Hlog Hok]. destruct Hsn as [Hd Hne Hlen Hb].
  pose proof (ul_range _ _ _ _ Hlog) as Hcap. destruct (log_size_bounds ss) as [Hl _].
  destruct (snap_size_bounds sn) as (H24 & H64 & _).
  remember (sn_data sn) as data eqn:Ed. cbn [operation_add_buffer]. unfold sizeof_ulog_entry_buf. rewrite (u64_id (len data + 24)) by lia.
  destruct (buffer_log_run s u cap ss (len data + 24) Hi ltac:(lia) ltac:(lia) ltac:(lia)) as (c & E1 & Hst & Ec1 & Ec2 & Ec3 & Ec4 & Ec5 & Ec6).
  erewrite bind_ok by exact E1. erewrite bind_ok by reflexivity. cbn [compose id ms_ctx]. rewrite Ec3. cbv beta iota.
  rewrite Ec5, Z.min_l by lia. replace (len data + 24 - 24) with (len data) by lia. rewrite (u64_id (len data)), Nat2Z.id, firstn_all by lia.
  rewrite Ec4. destruct (buf_create_run o u (log_size ss) (sn_dst sn) data 6 (me_pm (ms_env s)) Hd (or_intror eq_refl) Hb Hlen Hne)
    as (p' & E2 & Hv & Hsz & Hop & Hfr).
  assert (CACHELINE_ALIGN (24 + len data) = snap_size sn) as Eal by (unfold CACHELINE_ALIGN, CACHELINE_SIZE; unfold snap_size; rewrite ALIGN_UP_64 by lia; by rewrite Ed).
  rewrite Eal in Hsz, Hfr. change (ULOG_OPERATION_BUF_CPY) with (Z.shiftl 6 61).
  erewrite bind_ok by (apply lift_run; exact E2). erewrite bind_ok by (by apply lift_run). cbn [compose with_pm ms_env me_pm ms_ctx].
  rewrite Hsz. replace (len data + 24) with (24 + len data) by lia. change (ALIGN_UP _ CACHELINE_SIZE) with (CACHELINE_ALIGN (24 + len data)).
  rewrite Eal, Z.eqb_refl, (proj2 (Z.ltb_ge _ _)) by lia. cbn [negb orb]. erewrite bind_ok by reflexivity.
  rewrite Z.sub_diag. change (u64 0 =? 0) with true. cbv iota.
  eexists. split; [reflexivity|]. cbn [with_pm ms_env me_pm ms_ctx]. split; [|split].
  - split; cbn.
    + done.
    + lia.
    + right. rewrite Ec3, Ec4, Ec5, log_size_app. cbn [log_size]. rewrite u64_id by lia. split_and!; [done|lia..].
    + rewrite Ec6, log_size_app. cbn [log_size]. rewrite u64_id by lia. lia.
    + apply (snapshot_log (smem s)); [done|done| |done]. unfold snap_at, snap_op. rewrite <- Ed. by split_and!.
    + apply Forall_app. split; [done|]. repeat constructor; rewrite <- ?Ed; lia || done.
  - destruct Hst. by split.
  - intros a Ha. cbn. apply Hfr. unfold in_undo_log, ulog_data in *. lia.
Qed.
End add.

(** ** Rolling back *)

Lemma base_nbytes_snaps p u cap ss : ulog_f_capacity (pm_mem p) u = cap → cap < 2 ^ 62 → ∀ off fuel, 0 ≤ off →
  snaps_at (pm_mem p) u off ss → ends_at (pm_mem p) u cap (off + log_size ss) → (length ss < fuel)%nat →
  base_nbytes_loop fuel u off p = (Ok (off + log_size ss), p).
Proof.
  destruct p as [m evs]. cbn [pm_mem]. intros Hc Hcap. induction ss as [|s ss IH]; intros off fuel Hoff Hs He Hf; (destruct fuel as [|fuel]; [simpl in Hf; lia|]);
    cbn [base_nbytes_loop log_size] in *; (erewrite bind_ok by reflexivity); cbn [compose pm_mem]; rewrite Hc.
  - rewrite Z.add_0_r in *. destruct He as [-> |[Hlt H0]]; [by rewrite Z.ltb_irrefl|].
    rewrite (proj2 (Z.ltb_lt _ _)) by lia. erewrite (bind_ok _ _ _ false); [done|].
    unfold entry_valid, try_mem. cbn [pm_mem]. by rewrite (proj1 (end_invalid m u off H0)).
  - destruct Hs as [(Hv & Hz & _) Hs2]. destruct (snap_size_bounds s) as (_ & H64 & _). pose proof (log_size_bounds ss) as [Hl _].
    assert (off + snap_size s + log_size ss ≤ cap) by (destruct He as [He|[He _]]; lia).
    rewrite (proj2 (Z.ltb_lt _ _)) by lia. erewrite (bind_ok _ _ _ true) by (unfold entry_valid, try_mem; cbn [pm_mem]; by rewrite Hv).
    cbn [negb]. erewrite bind_ok by reflexivity. cbn [compose pm_mem]. rewrite Hz, u64_id by lia.
    rewrite IH; [by rewrite Z.add_assoc|lia|done|by rewrite <- Z.add_assoc|simpl in Hf; lia].
Qed.

(** A context for the log at [u], between operations. *)
Record undo_ready (s : mstate) (u cap : Z) : Prop := {
  ur_type : oc_type (ms_ctx s) = LOG_TYPE_UNDO;
  ur_idle : oc_in_progress (ms_ctx s) = false;
  ur_ulog : oc_ulog (ms_ctx s) = u;
  ur_nbytes : oc_ulog_base_nbytes (ms_ctx s) = cap;
  ur_capacity : cap ≤ oc_ulog_capacity (ms_ctx s);
  ur_shadow : ol_capacity (oc_pshadow_ops (ms_ctx s)) = ULOG_BASE_SIZE
}.

(** The log with [n] bytes in use, whatever they are. *)
Record undo_space (m : mem) (u cap n : Z) : Prop := {
  up_cap : ulog_f_capacity m u = cap;
  up_next : ulog_f_next m u = 0;
  up_fits : 0 ≤ n ≤ cap;
  up_rest a : ulog_data u + n ≤ a < ulog_data u + cap → rd m a = 0;
  up_range : cap < 2 ^ 62;
  up_align : (64 | cap)
}.
Lemma log_space m u cap ss : undo_log m u cap ss → undo_space m u cap (log_size ss).
Proof. intros []. destruct (log_size_bounds ss) as [Hl _]. by split. Qed.
Lemma space_log m u cap : undo_space m u cap 0 → undo_log m u cap [].
Proof. intros []. split; try done. cbn [log_size]. lia. Qed.

Section rollback.
Context (o : pmem_ops) `{!OpsSpec o} (ulog_free : Z → M pmem unit) (push_ok : nat → bool) (fuel : nat).

Lemma clobber_data_run p u cap n next : undo_space (pm_mem p) u cap n →
  ∃ p', ulog_clobber_data o u n cap next ulog_free push_ok fuel p = (Ok tt, p') ∧
    undo_log (pm_mem p') u cap [] ∧ ∀ a, ¬ in_undo_log u cap a → rd (pm_mem p') a = rd (pm_mem p) a.
Proof using OpsSpec0.
  intros [Hc Hn [Hl Hf] Hr Hs62 Hal]. unfold ulog_clobber_data. rewrite Z.min_l by lia.
  erewrite bind_ok by reflexivity. rewrite Z.sub_diag, Z.eqb_refl. do 2 (erewrite bind_ok by reflexivity). cbn [compose].
  destruct (ops_memset p (ulog_data u) 0 n PMEMOBJ_F_MEM_WC) as [Em _]. change (u8 0) with 0 in Em.
  set (p' := op_memset _ _ _ _ _ _) in *.
  assert (∀ a, ¬ (ulog_data u ≤ a < ulog_data u + n) → rd (pm_mem p') a = rd (pm_mem p) a) as Hout
    by (intros a Ha; rewrite Em; apply rd_wr_out; rewrite repeat_length; lia).
  assert (∀ a, ulog_data u ≤ a < ulog_data u + cap → rd (pm_mem p') a = 0) as Hz.
  { intros a Ha. destruct (decide (a < ulog_data u + n)) as [Hlt|Hge].
    - rewrite Em, rd_wr, repeat_length, decide_True by lia. by rewrite nth_repeat.
    - rewrite Hout by lia. apply Hr. lia. }
  unfold ulog_data in *.
  assert (ulog_f_next (pm_mem p') u = 0) as Hn' by (rewrite <- Hn; apply rd64_ext; intros a Ha; apply Hout; lia).
  rewrite Hn'. exists p'. split; [done|]. split; [|intros a Ha; apply Hout; unfold in_undo_log in Ha; lia].
  split; cbn [log_size]; try done; [|lia|intros a Ha; unfold ulog_data in Ha; apply Hz; lia].
  etransitivity; [|exact Hc]. apply rd64_ext. intros a Ha. apply Hout. lia.
Qed.

(** [operation_finish] empties the log. *)
Lemma undo_clear_run s u cap n : undo_space (smem s) u cap n → oc_type (ms_ctx s) = LOG_TYPE_UNDO →
  oc_in_progress (ms_ctx s) = true → oc_ulog (ms_ctx s) = u → oc_ulog_base_nbytes (ms_ctx s) = cap →
  oc_total_logged (ms_ctx s) = n → (0 < fuel)%nat →
  ∃ s', operation_finish o ulog_free push_ok fuel s = (Ok tt, s') ∧ me_alloc (ms_env s') = me_alloc (ms_env s) ∧
    undo_log (smem s') u cap [] ∧ ∀ a, ¬ in_undo_log u cap a → rd (smem s') a = rd (smem s) a.
Proof using Type*.
  intros Hlog Ht Hp Hu Hn Htot Hf. unfold operation_finish, assert_in_progress.
  erewrite (bind_ok _ _ _ tt s).
  2: { erewrite bind_ok by reflexivity. cbn. by rewrite Hp. }
  erewrite bind_ok by reflexivity. erewrite bind_ok by reflexivity. cbn [compose id].
  cbn [ms_ctx set_in_progress oc_type oc_total_logged oc_ulog oc_ulog_base_nbytes oc_next].
  rewrite Ht, Hu, Hn, Htot, bool_decide_false, bool_decide_true by done. cbn [andb].
  destruct (Z.eqb_spec n 0) as [->|Hz]; cbn [negb].
  - eexists. split; [reflexivity|]. split; [done|]. split; [by apply space_log|done].
  - destruct (clobber_data_run (me_pm (ms_env s)) u cap n (oc_next (ms_ctx s)) Hlog) as (p' & E & Hlog' & Hp').
    erewrite bind_ok by (apply lift_run; exact E). cbn [with_pm].
    assert (ulog_next (pm_mem p') u = None) as Hnx by (unfold ulog_next, ulog_by_offset; by rewrite (ul_next _ _ _ _ Hlog')).
    destruct fuel as [|n']; [lia|].
    erewrite bind_ok.
    2: { apply lift_run. unfold ulog_capacity. erewrite bind_ok by reflexivity. cbn [compose with_pm ms_env me_pm]. rewrite Hnx. reflexivity. }
    erewrite bind_ok.
    2: { apply lift_run. cbn [ulog_rebuild_next_vec]. do 2 (erewrite bind_ok by reflexivity). cbn [compose with_pm ms_env me_pm]. rewrite Hnx. reflexivity. }
    eexists. split; [reflexivity|]. done.
Qed.

Lemma undo_finish_run s u cap ss : undo_log (smem s) u cap ss → oc_type (ms_ctx s) = LOG_TYPE_UNDO →
  oc_in_progress (ms_ctx s) = true → oc_ulog (ms_ctx s) = u → oc_ulog_base_nbytes (ms_ctx s) = cap →
  oc_total_logged (ms_ctx s) = log_size ss → (0 < fuel)%nat →
  ∃ s', operation_finish o ulog_free push_ok fuel s = (Ok tt, s') ∧ me_alloc (ms_env s') = me_alloc (ms_env s) ∧
    undo_log (smem s') u cap [] ∧ ∀ a, ¬ in_undo_log u cap a → rd (smem s') a = rd (smem s) a.
Proof using Type*. intros Hlog. apply undo_clear_run. by apply log_space. Qed.

(** The old contents are copied back. *)
Lemma undo_process_run s u cap ss : undo_log (smem s) u cap ss → snaps_apart u cap ss → oc_type (ms_ctx s) = LOG_TYPE_UNDO →
  oc_ulog (ms_ctx s) = u → ol_capacity (oc_pshadow_ops (ms_ctx s)) = ULOG_BASE_SIZE →
  ol_offset (oc_transient_ops (ms_ctx s)) = 0 → (length ss < fuel)%nat →
  ∃ p', operation_process o fuel s = (Ok tt, with_pm s p') ∧ pm_mem p' = uops_apply (smem s) (snap_op <$> ss).
Proof using Type*.
  intros Hlog Hap Ht Hu Hsh Htr Hf.
  destruct (process_run o fuel (smem s) u (snap_op <$> ss) (in_undo_log u cap) (me_pm (ms_env s))) as (p' & E & Happ);
    [by apply undo_replayable|done|].
  exists p'. split; [|apply (ap_mem _ _ _ Happ)].
  unfold operation_process. erewrite bind_ok by reflexivity. erewrite bind_ok by (by apply lift_run).
  cbn [compose id]. rewrite Ht, bool_decide_false, decide_True by done. cbn [andb]. erewrite bind_ok by reflexivity.
  erewrite bind_ok.
  2: { unfold operation_process_persistent_undo. erewrite bind_ok by reflexivity. cbn [compose id with_pm ms_ctx].
       rewrite Hsh, Hu. change (ULOG_BASE_SIZE mod CACHELINE_SIZE =? 0) with true. cbn [negb]. apply lift_run. exact E. }
  erewrite bind_ok by reflexivity. cbn [compose id with_pm ms_ctx]. by rewrite Htr.
Qed.

(** The steps of lane recovery on an undo log. *)
Definition undo_recovery : M mstate unit :=
  operation_resume fuel;; operation_process o fuel;; operation_finish o ulog_free push_ok fuel.

(** The context after [operation_resume]: the size of the log is counted. *)
Definition resumed (s : mstate) (n : Z) : mstate :=
  MState (ms_env s) (set_curr None 0 0 n (ms_ctx (started s))).

Lemma resume_run s u cap ss : undo_ready s u cap → undo_log (smem s) u cap ss → (length ss < fuel)%nat →
  operation_resume fuel s = (Ok tt, resumed s (log_size ss)).
Proof using.
  intros Hr Hlog Hf. unfold operation_resume. erewrite bind_ok by reflexivity.
  unfold assert_in_progress. erewrite bind_ok.
  2: { erewrite bind_ok by reflexivity. cbn. by rewrite (ur_idle _ _ _ Hr). }
  do 2 (erewrite bind_ok by reflexivity). cbn [compose]. change (oc_ulog (ms_ctx _)) with (oc_ulog (ms_ctx s)). rewrite (ur_ulog _ _ _ Hr).
  erewrite bind_ok.
  2: { apply lift_run. unfold ulog_base_nbytes. cbn [ms_env].
       apply (base_nbytes_snaps _ u cap ss); [apply Hlog|apply Hlog|lia|apply Hlog|by apply undo_ends|done]. }
  unfold mod_ctx, modify, resumed. cbn. by destruct s as [[] ?].
Qed.

Lemma undo_recovery_run s u cap ss : undo_ready s u cap → undo_log (smem s) u cap ss → snaps_apart u cap ss →
  (length ss < fuel)%nat →
  ∃ s', undo_recovery s = (Ok tt, s') ∧ me_alloc (ms_env s') = me_alloc (ms_env s) ∧ undo_log (smem s') u cap [] ∧
    ∀ a, ¬ in_undo_log u cap a → rd (smem s') a = rd (uops_apply (smem s) (snap_op <$> ss)) a.
Proof using Type*.
  intros Hr Hlog Hap Hf. pose proof Hr as [Ht Hi Hu Hn Hc Hsh]. unfold undo_recovery. erewrite bind_ok by (by eapply resume_run).
  destruct (undo_process_run (resumed s (log_size ss)) u cap ss) as (p' & E & Hm); [done..|].
  erewrite bind_ok by exact E. change (smem (resumed s (log_size ss))) with (smem s) in Hm.
  destruct (undo_finish_run (with_pm (resumed s (log_size ss)) p') u cap ss) as (s' & E' & Hal & Hlog' & Hm'); [|done..|lia|].
  - cbn [with_pm ms_env me_pm]. rewrite Hm. apply (undo_log_ext (smem s)); [|done]. intros a Ha. apply uops_apply_out.
    apply Forall_fmap. eapply Forall_impl; [|exact Hap]. intros sn Hsn Ht'. by apply (Hsn a).
  - exists s'. split; [done|]. split; [by rewrite Hal|]. split; [done|]. intros a Ha. rewrite Hm' by done. cbn [with_pm ms_env me_pm]. by rewrite Hm.
Qed.
End rollback.

(** * libpmemobj: rolling back and committing changes under an undo log

    The program of a transaction, as far as its undo log is concerned: ranges are snapshot before they are
    changed ([pmemobj_tx_add_snapshot] of [tx.c]), the changes are plain stores.  Recovery of the log
    ([lane_recover_and_section_boot] of [lane.c]) restores the state at the start, whatever the power failure
    has left in the ranges; finishing the operation keeps the changes. *)

Inductive tx_step : Type := TxSnapshot (dst : Z) (n : nat) | TxStore (dst : Z) (bs : list Z).

(** Ranges with a snapshot. *)
Definition covered (rs : list (Z * nat)) (a : Z) : Prop := Exists (λ r, r.1 ≤ a < r.1 + Z.of_nat r.2) rs.
Definition range_of (s : snap) : Z * nat := (sn_dst s, length (sn_data s)).
Fixpoint ranges_size (rs : list (Z * nat)) : Z :=
  match rs with [] => 0 | r :: rs => roundup (24 + Z.of_nat r.2) 64 + ranges_size rs end.
Fixpoint tx_ranges (steps : list tx_step) : list (Z * nat) :=
  match steps with
  | [] => []
  | TxSnapshot dst n :: steps => (dst, n) :: tx_ranges steps
  | TxStore _ _ :: steps => tx_ranges steps
  end.

(** The stores of a transaction. *)
Fixpoint tx_stores (m : mem) (steps : list tx_step) : mem :=
  match steps with
  | [] => m
  | TxSnapshot _ _ :: steps => tx_stores m steps
  | TxStore dst bs :: steps => tx_stores (wr m dst bs) steps
  end.

(** A range is snapshot at most once and before it is changed, the log has room. *)
Fixpoint tx_ok (u cap : Z) (rs : list (Z * nat)) (steps : list tx_step) : Prop :=
  match steps with
  | [] => True
  | TxSnapshot dst n :: steps =>
      0 < dst ∧ dst + Z.of_nat n < 2 ^ 61 ∧ (0 < n)%nat ∧
      (∀ a, dst ≤ a < dst + Z.of_nat n → ¬ in_undo_log u cap a ∧ ¬ covered rs a) ∧
      ranges_size (rs ++ [(dst, n)]) ≤ cap ∧ tx_ok u cap (rs ++ [(dst, n)]) steps
  | TxStore dst bs :: steps =>
      (∀ a, dst ≤ a < dst + len bs → covered rs a) ∧ tx_ok u cap rs steps
  end.

Lemma ranges_log ss : ranges_size (range_of <$> ss) = log_size ss.
Proof. induction ss as [|s ss IH]; [done|]. rewrite fmap_cons. simpl. by rewrite IH. Qed.

Lemma covered_snaps ss a : covered (range_of <$> ss) a ↔ Exists (λ s, snap_covers s a) ss.
Proof. unfold covered. by rewrite Exists_fmap. Qed.

(** The stores act on each byte alone. *)
Lemma tx_stores_at steps : ∀ m m' a, rd m a = rd m' a → rd (tx_stores m steps) a = rd (tx_stores m' steps) a.
Proof.
  induction steps as [|[dst n|dst bs] steps IH]; intros m m' a H; cbn [tx_stores]; [done|by apply IH|].
  apply IH. rewrite !rd_wr. by case_decide.
Qed.

Section tx.
Context (o : pmem_ops) `{!OpsSpec o} (extend : option (Z → M pmem unit)).
Context (ulog_free : Z → M pmem unit) (push_ok : nat → bool) (fuel : nat) (u cap : Z).

Definition tx_do (st : tx_step) : M mstate unit :=
  match st with
  | TxSnapshot dst n =>
      m ← lift_pm (in_mem id);
      operation_add_buffer o extend fuel (S n) dst (rdn m dst n) ULOG_OPERATION_BUF_CPY
  | TxStore dst bs => lift_pm (modify (λ p, pm_store p dst bs))
  end.
Fixpoint tx_run (steps : list tx_step) : M mstate unit :=
  match steps with [] => mret tt | st :: steps => tx_do st;; tx_run steps end.

(** [m0]: the memory at the start. *)
Record tx_inv (m0 : mem) (s : mstate) (ss : list snap) : Prop := {
  ti_undo : undo_inv s u cap ss;
  ti_apart : snaps_apart u cap ss;
  ti_old : snaps_of m0 ss;
  ti_mem a : ¬ in_undo_log u cap a → rd (smem s) a = rd m0 a ∨ covered (range_of <$> ss) a
}.

Lemma snapshot_ok m dst n : 0 < dst → dst + Z.of_nat n < 2 ^ 61 → (0 < n)%nat → snap_ok (Snap dst (rdn m dst n)).
Proof using.
  intros H1 H2 H3. split; cbn; rewrite ?length_rdn; [lia| |lia|apply rdn_bytes]. by destruct n; [lia|].
Qed.

(** A snapshot taken now is one of the memory at the start. *)
Lemma tx_snapshot m0 s ss dst n : tx_inv m0 s ss → 0 < dst → dst + Z.of_nat n < 2 ^ 61 → (0 < n)%nat →
  (∀ a, dst ≤ a < dst + Z.of_nat n → ¬ in_undo_log u cap a ∧ ¬ covered (range_of <$> ss) a) →
  ranges_size ((range_of <$> ss) ++ [(dst, n)]) ≤ cap →
  ∃ s', tx_do (TxSnapshot dst n) s = (Ok tt, s') ∧ undo_step s s' ∧
    tx_inv m0 s' (ss ++ [Snap dst (rdn (smem s) dst n)]) ∧ ∀ a, ¬ in_undo_log u cap a → rd (smem s') a = rd (smem s) a.
Proof using Type*.
  intros [Hi Hap Hold Hmem] Hd Hdn Hn Hfree Hfit. set (sn := Snap dst (rdn (smem s) dst n)).
  assert (range_of sn = (dst, n)) as Hr by (unfold range_of, sn; cbn; by rewrite length_rdn).
  assert (∀ a, snap_covers sn a ↔ dst ≤ a < dst + Z.of_nat n) as Hcov by (intros a; unfold snap_covers, sn; cbn; by rewrite length_rdn).
  destruct (snapshot_run o extend fuel s u cap ss sn n Hi) as (s' & E & Hi' & Hst & Hm).
  { by apply snapshot_ok. }
  { assert (range_of <$> (ss ++ [sn]) = (range_of <$> ss) ++ [(dst, n)]) as E by (rewrite fmap_app; cbn [fmap list_fmap]; by rewrite Hr).
    rewrite <- E, ranges_log, log_size_app in Hfit. cbn [log_size] in Hfit. lia. }
  exists s'. split; [|split; [done|split; [|done]]].
  - unfold tx_do. erewrite bind_ok by (by apply lift_run). cbn [compose id]. rewrite <- E. f_equal. by destruct s as [[] ?].
  - split; [done|..].
    + apply Forall_app. split; [done|]. constructor; [|done]. intros a Ha. by apply Hfree, Hcov.
    + apply Forall_app. split; [done|]. constructor; [|done]. intros a Ha. pose proof (proj1 (Hcov a) Ha) as Ha'.
      unfold sn. cbn [sn_data sn_dst]. rewrite nth_rdn by lia.
      destruct (Hfree a Ha') as [H1 H2]. destruct (Hmem a H1) as [<-|?]; [|done]. f_equal. lia.
    + intros a Ha. rewrite Hm by done. destruct (Hmem a Ha) as [H|H]; [by left|right].
      rewrite fmap_app. apply Exists_app. by left.
Qed.

Lemma tx_store m0 s ss dst bs : tx_inv m0 s ss → (∀ a, dst ≤ a < dst + len bs → covered (range_of <$> ss) a) →
  ∃ s', tx_do (TxStore dst bs) s = (Ok tt, s') ∧ undo_step s s' ∧ tx_inv m0 s' ss ∧ smem s' = wr (smem s) dst bs.
Proof using.
  intros [Hi Hap Hold Hmem] Hc. eexists. split; [by apply lift_run|]. split; [by split|]. split; [|done].
  assert (∀ a, in_undo_log u cap a → rd (wr (smem s) dst bs) a = rd (smem s) a) as Hlog.
  { intros a Ha. apply rd_wr_out. intros Hr. apply Hc, covered_snaps, Exists_exists in Hr as (sn & Hin & Hs).
    unfold snaps_apart in Hap. rewrite Forall_forall in Hap. by apply (Hap sn Hin a). }
  split; [|done|done|].
  - destruct Hi as [H1 H2 H3 H4 H5 H6]. split; cbn; try done. by apply (undo_log_ext (smem s)).
  - intros a Ha. cbn. destruct (decide (dst ≤ a < dst + len bs)) as [Hr|Hr]; [right; by apply Hc|].
    rewrite rd_wr_out by done. by apply Hmem.
Qed.

Lemma tx_run_ok m0 steps : ∀ s ss, tx_inv m0 s ss → tx_ok u cap (range_of <$> ss) steps →
  ∃ s' ss', tx_run steps s = (Ok tt, s') ∧ undo_step s s' ∧ tx_inv m0 s' ss' ∧
    range_of <$> ss' = (range_of <$> ss) ++ tx_ranges steps ∧
    ∀ a, ¬ in_undo_log u cap a → rd (smem s') a = rd (tx_stores (smem s) steps) a.
Proof using Type*.
  induction steps as [|[dst n|dst bs] steps IH]; intros s ss Hi Hok; cbn [tx_run tx_ok tx_ranges tx_stores] in *.
  - exists s, ss. rewrite app_nil_r. split_and!; try done.
  - destruct Hok as (H1 & H2 & H3 & H4 & H5 & Hok). destruct (tx_snapshot m0 s ss dst n Hi H1 H2 H3 H4 H5) as (s1 & E1 & Hst1 & Hi1 & Hm1).
    erewrite bind_ok by exact E1. set (sn := Snap dst _) in *.
    assert (range_of <$> (ss ++ [sn]) = (range_of <$> ss) ++ [(dst, n)]) as Hr.
    { rewrite fmap_app. f_equal. unfold range_of, sn. cbn. by rewrite length_rdn. }
    destruct (IH s1 (ss ++ [sn]) Hi1) as (s' & ss' & E & Hst & Hi' & Hr' & Hm'); [by rewrite Hr|].
    exists s', ss'. split_and!; [done|by eapply undo_step_trans|done|by rewrite Hr', Hr, <- (assoc_L (++))|].
    intros a Ha. rewrite Hm' by done. by apply tx_stores_at, Hm1.
  - destruct Hok as [Hc Hok]. destruct (tx_store m0 s ss dst bs Hi Hc) as (s1 & E1 & Hst1 & Hi1 & Hm1).
    erewrite bind_ok by exact E1. destruct (IH s1 ss Hi1 Hok) as (s' & ss' & E & Hst & Hi' & Hr' & Hm').
    exists s', ss'. split_and!; [done|by eapply undo_step_trans|done|done|]. intros a Ha. rewrite Hm' by done. by rewrite Hm1.
Qed.

Lemma tx_start s : undo_ready s u cap → undo_log (smem s) u cap [] → tx_inv (smem s) (started s) [].
Proof using.
  intros [H1 H2 H3 H4 H5 H6] Hlog. split; [|constructor|constructor|by left].
  split; cbn; try done. by left.
Qed.

Lemma ready_started s s' : undo_ready s u cap → undo_step (started s) s' → oc_type (ms_ctx s') = LOG_TYPE_UNDO ∧
  oc_in_progress (ms_ctx s') = true ∧ oc_ulog_base_nbytes (ms_ctx s') = cap.
Proof using. intros [] []. split_and!; etransitivity; eauto. Qed.

(** C17: an undo operation can be rolled back.  Start an operation on an empty undo log, snapshot
    ranges and change them, in any order that snapshots a byte before it is changed.  The ranges are not empty, pairwise disjoint and apart from the log, and their snapshots fit in its base buffer, with no chained logs.  Stop
    after any step (within a step is not covered) and let the ranges hold anything at all (a power failure that kept any part of the changes, say), while the bytes of the log and all others are as the steps left them.
    Recovery of the log, on a new context, gives back the memory at the start and an empty log. *)
Theorem operation_undo_rolls_back s steps : undo_ready s u cap → undo_log (smem s) u cap [] →
  tx_ok u cap [] steps → (length (tx_ranges steps) < fuel)%nat →
  ∃ s1, (operation_start;; tx_run steps) s = (Ok tt, s1) ∧
    ∀ s2, undo_ready s2 u cap →
      (∀ a, in_undo_log u cap a ∨ ¬ covered (tx_ranges steps) a → rd (smem s2) a = rd (smem s1) a) →
      ∃ s3, undo_recovery o ulog_free push_ok fuel s2 = (Ok tt, s3) ∧ undo_log (smem s3) u cap [] ∧
        ∀ a, ¬ in_undo_log u cap a → rd (smem s3) a = rd (smem s) a.
Proof using Type*.
  intros Hr Hlog Hok Hf. destruct (tx_run_ok (smem s) steps (started s) [] (tx_start s Hr Hlog) Hok)
    as (s1 & ss & E & Hst & [Hi Hap Hold Hmem] & Hrs & _). cbn [fmap list_fmap app] in Hrs.
  exists s1. split; [by erewrite bind_ok by (apply start_run, Hr)|]. intros s2 Hr2 Hm2.
  assert (length ss < fuel)%nat as Hf' by (apply (f_equal length) in Hrs; rewrite length_fmap in Hrs; lia).
  destruct (undo_recovery_run o ulog_free push_ok fuel s2 u cap ss Hr2) as (s3 & E3 & _ & Hlog3 & Hm3); [|done|done|].
  { apply (undo_log_ext (smem s1)); [|apply Hi]. intros a Ha. apply Hm2. by left. }
  exists s3. split; [done|]. split; [done|]. intros a Ha. rewrite Hm3 by done. apply restore_byte; [done|apply Hi|].
  destruct (decide (Exists (λ sn, snap_covers sn a) ss)) as [Hc|Hc]; [by right|left].
  rewrite Hm2; [|right; by rewrite <- Hrs, covered_snaps]. destruct (Hmem a Ha) as [H|H]; [done|]. by apply covered_snaps in H.
Qed.

(** finishing an undo operation commits it: the stores stay, and the log is empty. *)
Theorem operation_undo_commits s steps : undo_ready s u cap → undo_log (smem s) u cap [] →
  tx_ok u cap [] steps → (0 < fuel)%nat →
  ∃ s', (operation_start;; tx_run steps;; operation_finish o ulog_free push_ok fuel) s = (Ok tt, s') ∧
    undo_log (smem s') u cap [] ∧
    ∀ a, ¬ in_undo_log u cap a → rd (smem s') a = rd (tx_stores (smem s) steps) a.
Proof using Type*.
  intros Hr Hlog Hok Hf. destruct (tx_run_ok (smem s) steps (started s) [] (tx_start s Hr Hlog) Hok)
    as (s1 & ss & E & Hst & [Hi _ _ _] & _ & Hm). destruct (ready_started s s1 Hr Hst) as (Ht & Hp & Hn).
  erewrite bind_ok by (apply start_run, Hr). erewrite bind_ok by exact E.
  destruct (undo_finish_run o ulog_free push_ok fuel s1 u cap ss) as (s' & E' & _ & Hlog' & Hm');
    [apply Hi|done|done|apply Hi|done|apply Hi|done|].
  exists s'. split; [done|]. split; [done|]. intros a Ha. rewrite Hm' by done. by rewrite Hm.
Qed.
End tx.

(** ** Witnesses *)

Definition ex_undo_env : menv := MEnv (Pmem (wr64 ∅ 1040 640) []) (Some <$> [1900000; 2000000; 2100000]).
Definition ex_undo : mstate :=
  match operation_new 3 1024 640 LOG_TYPE_UNDO ex_undo_env with
  | (Ok (Some c), e) => MState e c
  | (_, e) => MState e no_ctx
  end.
Definition ex_steps : list tx_step := [TxSnapshot 4096 100; TxStore 4100 [1; 2; 3]; TxSnapshot 8192 8; TxStore 8192 [9]].

Lemma ex_undo_ready : undo_ready ex_undo 1024 640.
Proof. split; vm_compute; (reflexivity || discriminate). Qed.

Lemma ex_undo_log : undo_log (smem ex_undo) 1024 640 [].
Proof.
  split; [vm_compute; reflexivity..|done|done| |lia|by exists 10]. intros a Ha. unfold ulog_data in Ha. cbn [log_size] in Ha.
  apply (zero_outside (smem ex_undo) (λ k, (k <? 1088) || (1728 <=? k))); [vm_compute; reflexivity|].
  apply orb_false_iff. lia.
Qed.

Lemma ex_steps_ok : tx_ok 1024 640 [] ex_steps.
Proof.
  unfold ex_steps. cbn [tx_ok app length]. unfold in_undo_log, covered. split_and!; try lia; try done; try (vm_compute; discriminate).
  - intros a Ha. split; [lia|]. by intros H%Exists_nil.
  - intros a Ha. apply Exists_cons. left. simpl. lia.
  - intros a Ha. split; [lia|]. intros [H|H]%Exists_cons; [simpl in H; lia|by apply Exists_nil in H].
  - intros a Ha. apply Exists_cons. right. apply Exists_cons. left. simpl. lia.
Qed.

Lemma operation_undo_rolls_back_witness : ∃ s1 s3,
  (operation_start;; tx_run clflush_ops None 10 ex_steps) ex_undo = (Ok tt, s1) ∧
  undo_recovery clflush_ops no_free no_push 10 (MState (ms_env s1) (ms_ctx ex_undo)) = (Ok tt, s3) ∧
  rd (smem s3) 4100 = rd (smem ex_undo) 4100.
Proof.
  destruct (operation_undo_rolls_back clflush_ops None no_free no_push 10 1024 640 ex_undo ex_steps
    ex_undo_ready ex_undo_log ex_steps_ok ltac:(simpl; lia)) as (s1 & E & H).
  destruct (H (MState (ms_env s1) (ms_ctx ex_undo))) as (s3 & E3 & _ & Hm).
  - destruct ex_undo_ready as [H1 H2 H3 H4 H5 H6]. split; assumption.
  - reflexivity.
  - exists s1, s3. split; [exact E|]. split; [exact E3|]. apply Hm. unfold in_undo_log. lia.
Defined.

Lemma operation_undo_commits_witness : ∃ s',
  (operation_start;; tx_run clflush_ops None 10 ex_steps;; operation_finish clflush_ops no_free no_push 10) ex_undo = (Ok tt, s') ∧
  rd (smem s') 4100 = rd (tx_stores (smem ex_undo) ex_steps) 4100.
Proof.
  destruct (operation_undo_commits clflush_ops None no_free no_push 10 1024 640 ex_undo ex_steps
    ex_undo_ready ex_undo_log ex_steps_ok ltac:(lia)) as (s' & E & _ & Hm).
  exists s'. split; [exact E|]. apply Hm. unfold in_undo_log. lia.
Defined.
