(* ===== verification/Lane.v ===== *)
(** * libpmemobj: lanes

    Models the pool side of [libpmemobj/lane.c]: every lane has an internal and an external redo log and
    an undo log in the pool, and an operation context for each of them in volatile memory.  The way
    threads get hold of a lane is in [LaneHold.v]. *)

From stdpp Require Import base gmap list numbers.
From S2P Require Import Prelude Memory Pmem Util Ulog Vecq Memops.
Local Open Scope Z_scope.

Definition LANE_UNDO_SIZE : Z := 2048.
Definition LANE_REDO_EXTERNAL_SIZE : Z := 640.
Definition LANE_REDO_INTERNAL_SIZE : Z := 192.
Definition LANE_TOTAL_SIZE : Z := 3072.

(** [struct lane_layout]: the offsets of the three logs. *)
Definition lane_internal (layout : Z) : Z := layout.
Definition lane_external (layout : Z) : Z := layout + (sizeof_ulog + LANE_REDO_INTERNAL_SIZE).
Definition lane_undo (layout : Z) : Z := lane_external layout + (sizeof_ulog + LANE_REDO_EXTERNAL_SIZE).

Record lane : Type := Lane {
  ln_layout : Z;
  ln_internal : operation_context;
  ln_external : operation_context;
  ln_undo : operation_context
}.

(** [None]: [NULL]. *)
Record lane_descriptor : Type := LaneDescriptor {
  ld_runtime_nlanes : Z;
  ld_next_lane_idx : Z;
  ld_lane_locks : option (list Z);
  ld_lane : option (list lane)
}.

(** The fields of the pool that are used. *)
Record lane_pool : Type := LanePool { lp_lanes_offset : Z; lp_nlanes : nat }.

Section lane.
Context (p_ops : pmem_ops) (fuel : nat) (pop : lane_pool).

Definition lane_get_layout (lane_idx : Z) : Z := lp_lanes_offset pop + LANE_TOTAL_SIZE * lane_idx.

(** The extensions of a log are allocated by [pmalloc_construct], given the address of the offset, the size and the
    constructor, which gets the address and the usable size of the allocation. *)
Section extend.
Context (pmalloc_construct : Z → Z → (Z → Z → M pmem Z) → M pmem Z).

Definition lane_ulog_constructor (ptr usable_size : Z) : M pmem Z :=
  let capacity := ALIGN_DOWN (u64 (usable_size - sizeof_ulog)) CACHELINE_SIZE in
  ulog_construct p_ops ptr capacity true;; mret 0.
Definition ulog_extend (capacity redo : Z) : M pmem unit :=
  err ← pmalloc_construct redo (SIZEOF_ALIGNED_ULOG capacity) lane_ulog_constructor;
  if err =? 0 then mret tt else fail err.
Definition lane_undo_extend (cache_size redo : Z) : M pmem unit := ulog_extend cache_size redo.
Definition lane_redo_extend (redo : Z) : M pmem unit := ulog_extend LANE_REDO_EXTERNAL_SIZE redo.
End extend.

(** [None]: -1.  The contexts made so far are freed again. *)
Definition lane_init (layout : Z) : M menv (option lane) :=
  internal ← operation_new fuel (lane_internal layout) LANE_REDO_INTERNAL_SIZE LOG_TYPE_REDO;
  match internal with
  | None => mret None
  | Some internal =>
      external ← operation_new fuel (lane_external layout) LANE_REDO_EXTERNAL_SIZE LOG_TYPE_REDO;
      match external with
      | None => mret None
      | Some external =>
          undo ← operation_new fuel (lane_undo layout) LANE_UNDO_SIZE LOG_TYPE_UNDO;
          match undo with
          | None => mret None
          | Some undo => mret (Some (Lane layout internal external undo))
          end
      end
  end.

(** Lanes [i] up to [i + n]. *)
Fixpoint lane_init_loop (n : nat) (i : Z) (lanes : list lane) : M menv (option (list lane)) :=
  match n with
  | O => mret (Some lanes)
  | S n =>
      l ← lane_init (lane_get_layout i);
      match l with
      | None => mret None
      | Some l => lane_init_loop n (i + 1) (lanes ++ [l])
      end
  end.

(** The error code, and the descriptor that was [d].  [err] is still 0 when the locks cannot be allocated. *)
Definition lane_boot (d : lane_descriptor) : M menv (Z * lane_descriptor) :=
  let err := 0 in
  lanes ← Alloc;
  match lanes with
  | None => mret (ENOMEM, LaneDescriptor (ld_runtime_nlanes d) (ld_next_lane_idx d) (ld_lane_locks d) None)
  | Some _ =>
      locks ← Alloc;
      match locks with
      | None => mret (err, LaneDescriptor (ld_runtime_nlanes d) 0 None None)
      | Some _ =>
          l ← lane_init_loop (lp_nlanes pop) 0 [];
          match l with
          | None => mret (-1, LaneDescriptor (ld_runtime_nlanes d) 0 None None)
          | Some l =>
              mret (err, LaneDescriptor (ld_runtime_nlanes d) 0 (Some (repeat 0 (lp_nlanes pop))) (Some l))
          end
      end
  end.

Fixpoint init_data_loop (n : nat) (i : Z) : M pmem unit :=
  match n with
  | O => mret tt
  | S n =>
      let layout := lane_get_layout i in
      ulog_construct p_ops (lane_internal layout) LANE_REDO_INTERNAL_SIZE false;;
      ulog_construct p_ops (lane_external layout) LANE_REDO_EXTERNAL_SIZE false;;
      ulog_construct p_ops (lane_undo layout) LANE_UNDO_SIZE false;;
      init_data_loop n (i + 1)
  end.
Definition lane_init_data : M pmem unit :=
  init_data_loop (lp_nlanes pop) 0;;
  modify (λ p, op_persist p_ops p (lane_get_layout 0) (Z.of_nat (lp_nlanes pop) * LANE_TOTAL_SIZE) PMEMOBJ_F_RELAXED).

(** ** Recovery *)

(** [pmalloc_boot]: the boot of the heap. *)
Context (pmalloc_boot : M pmem Z) (pfree : Z → M pmem unit) (push_ok : nat → bool).

Fixpoint recover_redo (n : nat) (i : Z) : M pmem unit :=
  match n with
  | O => mret tt
  | S n =>
      let layout := lane_get_layout i in
      ulog_recover p_ops fuel (lane_internal layout);;
      ulog_recover p_ops fuel (lane_external layout);;
      recover_redo n (i + 1)
  end.

(** An operation on a context that is deleted afterwards. *)
Definition on_ctx {A} (c : operation_context) (f : M mstate A) : M menv A := λ e,
  let '(r, s) := f (MState e c) in (r, ms_env s).

Fixpoint recover_undo (n : nat) (i err : Z) : M menv Z :=
  match n with
  | O => mret 0
  | S n =>
      let layout := lane_get_layout i in
      ctx ← operation_new fuel (lane_undo layout) LANE_UNDO_SIZE LOG_TYPE_UNDO;
      match ctx with
      | None => mret err
      | Some ctx =>
          on_ctx ctx (operation_resume fuel;; operation_process p_ops fuel;;
                      operation_finish p_ops pfree push_ok fuel;; operation_delete);;
          recover_undo n (i + 1) err
      end
  end.

Definition lane_recover_and_section_boot : M menv Z :=
  let err := 0 in
  on_pm (recover_redo (lp_nlanes pop) 0);;
  err ← on_pm pmalloc_boot;
  if negb (err =? 0) then mret err else recover_undo (lp_nlanes pop) 0 err.

Definition lane_section_cleanup (pmalloc_cleanup : M pmem Z) : M pmem Z := pmalloc_cleanup.

(** [check]: [OBJ_OFF_IS_VALID_FROM_CTX] of the pool. *)
Fixpoint check_loop (check : Z → bool) (n : nat) (j err : Z) : M pmem Z :=
  match n with
  | O => mret 0
  | S n =>
      r ← ulog_check fuel (lane_internal (lane_get_layout j)) check;
      if negb (r =? 0) then mret err else check_loop check n (j + 1) err
  end.
Definition lane_check (check : Z → bool) : M pmem Z := check_loop check (lp_nlanes pop) 0 0.
End lane.
