(* ===== verification/LaneTheorems.v ===== *)
(** * libpmemobj: recovery of the lanes

    [lane_recover_and_section_boot] rolls back the transaction of every lane.  Some of the errors of this
    file of the library are lost on the way to the caller. *)

From stdpp Require Import base gmap list numbers.
From S2P Require Import Prelude Memory Pmem Util Ulog UlogSpec UlogEntry UlogTheorems Vecq Memops MemopsMerge MemopsCrash MemopsExample MemopsTheorems MemopsTx Lane.
Local Open Scope Z_scope.

(** ** A context for an undo log *)

Lemma new_undo_run fuel D p x a b al u n : (0 < fuel)%nat → ulog_f_next (pm_mem p) u = 0 → D ≤ a → D ≤ b →
  ∃ c p', operation_new fuel u n LOG_TYPE_UNDO (MEnv p (Some x :: Some a :: Some b :: al)) = (Ok (Some c), MEnv p' al) ∧
    undo_ready (MState (MEnv p' al) c) u n ∧ ∀ y, y < D → rd (pm_mem p') y = rd (pm_mem p) y.
Proof.
  intros Hf Hn Ha Hb. assert (ulog_next (pm_mem p) u = None) as Hnx by (unfold ulog_next, ulog_by_offset; by rewrite Hn).
  destruct fuel as [|fuel]; [lia|]. unfold operation_new.
  erewrite (bind_ok _ _ _ (Some x) (MEnv p (Some a :: Some b :: al))) by reflexivity. cbv beta iota.
  erewrite (bind_ok _ _ _ n (MEnv p (Some a :: Some b :: al))).
  2: { unfold on_pm, ulog_capacity. erewrite bind_ok by reflexivity. cbn [compose me_pm]. by rewrite Hnx. }
  erewrite (bind_ok _ _ _ [] (MEnv p (Some a :: Some b :: al))).
  2: { unfold on_pm. cbn [ulog_rebuild_next_vec me_pm]. do 2 (erewrite bind_ok by reflexivity). cbn [compose]. rewrite Hnx, Hn. reflexivity. }
  eexists _, _. split; [reflexivity|]. split; [split; cbn; try done; lia|].
  intros y Hy. cbn. rewrite !rd_wr_out; [done|lia..].
Qed.

(** ** Rolling back all lanes *)

Section recover.
Context (o : pmem_ops) `{!OpsSpec o} (fuel : nat) (pop : lane_pool).
Context (pmalloc_boot : M pmem Z) (pfree : Z → M pmem unit) (push_ok : nat → bool) (D : Z).

Definition in_lanes (a : Z) : Prop :=
  lp_lanes_offset pop ≤ a < lp_lanes_offset pop + LANE_TOTAL_SIZE * Z.of_nat (lp_nlanes pop).
Definition undo_of (j : nat) : Z := lane_undo (lane_get_layout pop (Z.of_nat j)).
Definition redos_of (j : nat) : list Z :=
  [lane_internal (lane_get_layout pop (Z.of_nat j)); lane_external (lane_get_layout pop (Z.of_nat j))].

(** The snapshots of a lane are of the memory [m0] and not of lanes. *)
Record lane_snaps (m0 : mem) (ss : list snap) : Prop := {
  ls_ok : Forall snap_ok ss;
  ls_old : snaps_of m0 ss;
  ls_apart : Forall (λ s, ∀ a, snap_covers s a → ¬ in_lanes a) ss;
  ls_fuel : (length ss < fuel)%nat
}.

(** Lanes from [i] on are still to be rolled back. *)
Record rolling (m0 m : mem) (ss : nat → list snap) (i : nat) : Prop := {
  ro_done j : (j < i)%nat → undo_log m (undo_of j) LANE_UNDO_SIZE [];
  ro_todo j : (i ≤ j < lp_nlanes pop)%nat → undo_log m (undo_of j) LANE_UNDO_SIZE (ss j);
  ro_mem a : a < D → ¬ in_lanes a →
    rd m a = rd m0 a ∨ ∃ j, (i ≤ j < lp_nlanes pop)%nat ∧ Exists (λ s, snap_covers s a) (ss j)
}.

Lemma undo_in_lanes j a : (j < lp_nlanes pop)%nat → in_undo_log (undo_of j) LANE_UNDO_SIZE a → in_lanes a.
Proof using.
  intros Hj. unfold in_undo_log, undo_of, in_lanes, lane_undo, lane_external, lane_get_layout, LANE_UNDO_SIZE,
    LANE_REDO_EXTERNAL_SIZE, LANE_REDO_INTERNAL_SIZE, LANE_TOTAL_SIZE, sizeof_ulog. lia.
Qed.

Lemma undos_apart i j a : i ≠ j → in_undo_log (undo_of i) LANE_UNDO_SIZE a → ¬ in_undo_log (undo_of j) LANE_UNDO_SIZE a.
Proof using.
  unfold in_undo_log, undo_of, lane_undo, lane_external, lane_get_layout, LANE_UNDO_SIZE,
    LANE_REDO_EXTERNAL_SIZE, LANE_REDO_INTERNAL_SIZE, LANE_TOTAL_SIZE, sizeof_ulog. lia.
Qed.

(** [operation_delete] after the recovery of a log. *)
Lemma recovery_then {A} (k : M mstate A) s s' : undo_recovery o pfree push_ok fuel s = (Ok tt, s') →
  (operation_resume fuel;; operation_process o fuel;; operation_finish o pfree push_ok fuel;; k) s = k s'.
Proof using.
  intros E. apply bind_inv_ok in E as ([] & s1 & E1 & E). apply bind_inv_ok in E as ([] & s2 & E2 & E3).
  erewrite bind_ok by exact E1. erewrite bind_ok by exact E2. by erewrite bind_ok by exact E3.
Qed.

(** One lane. *)
Lemma roll_back_lane m0 p x a b al ss i : lane_snaps m0 (ss i) → rolling m0 (pm_mem p) ss i → (i < lp_nlanes pop)%nat →
  D ≤ a → D ≤ b → (∀ y, in_lanes y → y < D) →
  ∃ c p1 p', operation_new fuel (undo_of i) LANE_UNDO_SIZE LOG_TYPE_UNDO (MEnv p (Some x :: Some a :: Some b :: al)) =
      (Ok (Some c), MEnv p1 al) ∧
    on_ctx c (operation_resume fuel;; operation_process o fuel;; operation_finish o pfree push_ok fuel;; operation_delete)
      (MEnv p1 al) = (Ok tt, MEnv p' al) ∧
    rolling m0 (pm_mem p') ss (S i).
Proof using Type*.
  intros [Hok Hold Hap Hf] Hro Hi Ha Hb HD. pose proof (ro_todo _ _ _ _ Hro i ltac:(lia)) as Hlog.
  destruct (new_undo_run fuel D p x a b al (undo_of i) LANE_UNDO_SIZE ltac:(lia) (ul_next _ _ _ _ Hlog) Ha Hb)
    as (c & p1 & E1 & Hready & Hp1).
  assert (undo_log (pm_mem p1) (undo_of i) LANE_UNDO_SIZE (ss i)) as Hlog1.
  { apply (undo_log_ext (pm_mem p)); [|done]. intros y Hy. by apply Hp1, HD, (undo_in_lanes i). }
  destruct (undo_recovery_run o pfree push_ok fuel (MState (MEnv p1 al) c) (undo_of i) LANE_UNDO_SIZE (ss i) Hready Hlog1)
    as (s' & E & Hal & Hlog' & Hm); [|done|].
  { eapply Forall_impl; [|exact Hap]. intros sn Hsn y Hy Hin. by apply (Hsn y Hy), (undo_in_lanes i). }
  exists c, p1, (me_pm (ms_env s')). split; [done|]. split.
  { unfold on_ctx. rewrite (recovery_then operation_delete _ _ E). cbn in Hal.
    change ((Ok tt, ms_env s') = (Ok tt, MEnv (me_pm (ms_env s')) al)). by rewrite <- Hal; destruct (ms_env s'). }
  cbn [ms_env me_pm] in Hm.
  assert (∀ y, in_lanes y → ¬ in_undo_log (undo_of i) LANE_UNDO_SIZE y → rd (pm_mem (me_pm (ms_env s'))) y = rd (pm_mem p) y) as Hlanes.
  { intros y Hy Hny. rewrite Hm by done. rewrite uops_apply_out; [by apply Hp1, HD|]. apply Forall_fmap.
    eapply Forall_impl; [|exact Hap]. intros sn Hsn Ht. by apply (Hsn y). }
  assert (∀ j l, j ≠ i → (j < lp_nlanes pop)%nat → undo_log (pm_mem p) (undo_of j) LANE_UNDO_SIZE l →
    undo_log (pm_mem (me_pm (ms_env s'))) (undo_of j) LANE_UNDO_SIZE l) as Hothers.
  { intros j l Hne Hj. apply undo_log_ext. intros y Hy. apply Hlanes; [by apply (undo_in_lanes j)|]. by apply (undos_apart j i). }
  split.
  - intros j Hj. destruct (decide (j = i)) as [->|Hne]; [done|]. apply Hothers; [done|lia|]. apply (ro_done _ _ _ _ Hro). lia.
  - intros j Hj. apply Hothers; [lia|lia|]. apply (ro_todo _ _ _ _ Hro). lia.
  - intros y Hy Hny. assert (¬ in_undo_log (undo_of i) LANE_UNDO_SIZE y) as Hnu by (intros H; by apply Hny, (undo_in_lanes i)).
    rewrite Hm by done. destruct (ro_mem _ _ _ _ Hro y Hy Hny) as [H|(j & Hj & H)].
    + left. apply restore_byte; [done..|]. left. by rewrite Hp1.
    + destruct (decide (j = i)) as [->|Hne]; [left; apply restore_byte; [done..|by right]|].
      right. exists j. split; [lia|done].
Qed.

(** All of them. *)
Lemma recover_undo_run m0 ss n : ∀ i p l al, (∀ j, (j < lp_nlanes pop)%nat → lane_snaps m0 (ss j)) →
  rolling m0 (pm_mem p) ss i → (i + n = lp_nlanes pop)%nat → length l = (3 * n)%nat → Forall (λ a, D ≤ a) l →
  (∀ y, in_lanes y → y < D) →
  ∃ p', recover_undo o fuel pop pfree push_ok n (Z.of_nat i) 0 (MEnv p ((Some <$> l) ++ al)) = (Ok 0, MEnv p' al) ∧
    rolling m0 (pm_mem p') ss (lp_nlanes pop).
Proof using Type*.
  induction n as [|n IH]; intros i p l al Hs Hro Hi Hl HlD HD; cbn [recover_undo].
  - destruct l; [|done]. rewrite Nat.add_0_r in Hi. subst i. by exists p.
  - destruct l as [|x [|a [|b l]]]; [simpl in Hl; lia..|]. rewrite !fmap_cons. cbn [app].
    apply Forall_cons_1 in HlD as [_ HlD]. apply Forall_cons_1 in HlD as [Ha HlD]. apply Forall_cons_1 in HlD as [Hb HlD].
    destruct (roll_back_lane m0 p x a b ((Some <$> l) ++ al) ss i (Hs i ltac:(lia)) Hro ltac:(lia) Ha Hb HD)
      as (c & p1 & p2 & E1 & E2 & Hro2).
    fold (undo_of i). erewrite bind_ok by exact E1. cbv beta iota. erewrite bind_ok by exact E2.
    replace (Z.of_nat i + 1) with (Z.of_nat (S i)) by lia. apply (IH (S i) p2 l al); [done|done|lia|simpl in Hl; lia|done|done].
Qed.

(** Redo logs without pending changes are left alone. *)
Lemma recover_redo_run n : ∀ i p, (i + n = lp_nlanes pop)%nat →
  (∀ j u, (j < lp_nlanes pop)%nat → u ∈ redos_of j → ulog_recovery_needed fuel u true p = (Ok false, p)) →
  recover_redo o fuel pop n (Z.of_nat i) p = (Ok tt, p).
Proof using.
  induction n as [|n IH]; intros i p Hi Hr; cbn [recover_redo]; [done|].
  assert (∀ u, u ∈ redos_of i → ulog_recover o fuel u p = (Ok tt, p)) as Hrec.
  { intros u Hu. unfold ulog_recover. by erewrite bind_ok by (apply (Hr i); [lia|done]). }
  erewrite bind_ok by (apply Hrec; left). erewrite bind_ok by (apply Hrec; right; left).
  replace (Z.of_nat i + 1) with (Z.of_nat (S i)) by lia. apply IH; [lia|done].
Qed.

(** C18: opening a pool rolls back every lane.  Let the undo logs of the lanes hold snapshots of a
    memory [m0], and let the pool agree with [m0] except where there is a snapshot and in the lanes; when the redo logs
    are idle, the heap boots and the contexts can be allocated, recovery returns 0, the pool is [m0] again and
    all undo logs are empty. *)
Theorem lane_recovery_rolls_back m0 ss p p1 l al :
  (∀ j u, (j < lp_nlanes pop)%nat → u ∈ redos_of j → ulog_recovery_needed fuel u true p = (Ok false, p)) →
  pmalloc_boot p = (Ok 0, p1) → (∀ a, a < D → rd (pm_mem p1) a = rd (pm_mem p) a) →
  (∀ j, (j < lp_nlanes pop)%nat → lane_snaps m0 (ss j)) → rolling m0 (pm_mem p) ss 0 →
  length l = (3 * lp_nlanes pop)%nat → Forall (λ a, D ≤ a) l → (∀ y, in_lanes y → y < D) →
  ∃ p', lane_recover_and_section_boot o fuel pop pmalloc_boot pfree push_ok (MEnv p ((Some <$> l) ++ al)) = (Ok 0, MEnv p' al) ∧
    (∀ a, a < D → ¬ in_lanes a → rd (pm_mem p') a = rd m0 a) ∧
    ∀ j, (j < lp_nlanes pop)%nat → undo_log (pm_mem p') (undo_of j) LANE_UNDO_SIZE [].
Proof using Type*.
  intros Hredo Hboot Hp1 Hs [Hd Ht Hm] Hl HlD HD.
  assert (rolling m0 (pm_mem p1) ss 0) as Hro.
  { split; [lia|..].
    - intros j Hj. apply (undo_log_ext (pm_mem p)); [|by apply Ht]. intros a Ha. apply Hp1, HD, (undo_in_lanes j); [lia|done].
    - intros a Ha Hna. rewrite Hp1 by done. by apply Hm. }
  destruct (recover_undo_run m0 ss (lp_nlanes pop) 0 p1 l al Hs Hro eq_refl Hl HlD HD) as (p' & E & [Hd' _ Hm']).
  exists p'. split; [|split; [|done]].
  - unfold lane_recover_and_section_boot. erewrite bind_ok.
    2: { unfold on_pm. cbn [me_pm]. pose proof (recover_redo_run (lp_nlanes pop) 0 p eq_refl Hredo) as E0. change (Z.of_nat 0) with 0 in E0. by rewrite E0. }
    erewrite bind_ok by (unfold on_pm; cbn [me_pm]; by rewrite Hboot). exact E.
  - intros a Ha Hna. destruct (Hm' a Ha Hna) as [H|(j & Hj & _)]; [done|lia].
Qed.
End recover.

(** ** Witness: a pool with two lanes *)

Definition ex_pop : lane_pool := LanePool 8192 2.
Definition ex_lanes : pmem := (lane_init_data clflush_ops ex_pop (Pmem ∅ [])).2.

(** The transaction of lane 0 has changed a word after taking its snapshot. *)
Definition ex_tx : M menv unit :=
  ctx ← operation_new 3 (undo_of ex_pop 0) LANE_UNDO_SIZE LOG_TYPE_UNDO;
  match ctx with
  | None => mret tt
  | Some ctx => on_ctx ctx (operation_start;; tx_run clflush_ops None 10 [TxSnapshot 65536 8; TxStore 65536 (le_bytes 8 7)])
  end.
Definition ex_torn_pool : pmem := Pmem (pm_mem (me_pm (ex_tx (MEnv ex_lanes (Some <$> [1900000; 2000000; 2100000]))).2)) [].
Definition ex_snaps (j : nat) : list snap := if decide (j = 0%nat) then [Snap 65536 (zeros 8)] else [].

Lemma ex_tx_changed : rd64 (pm_mem ex_torn_pool) 65536 = 7.
Proof. vm_compute. reflexivity. Qed.

Lemma ex_two j : (j < lp_nlanes ex_pop)%nat → j = 0%nat ∨ j = 1%nat.
Proof. simpl. lia. Qed.

Lemma ex_lane_snaps j : (j < lp_nlanes ex_pop)%nat → lane_snaps 10 ex_pop ∅ (ex_snaps j).
Proof.
  intros [-> | ->]%ex_two; [|split; [constructor..|simpl; lia]].
  assert (∀ a, snap_covers (Snap 65536 (zeros 8)) a → 65536 ≤ a < 65544) as Hc by (unfold snap_covers; simpl; lia).
  split; [| | |simpl; lia]; (constructor; [|constructor]).
  - split; [simpl; lia|done|simpl; lia|change (Forall is_byte (zeros 8)); auto with pmdk].
  - intros a _. unfold rd. rewrite lookup_empty. change (nth (Z.to_nat (a - 65536)) (repeat 0 8) 0 = 0). apply nth_repeat.
  - intros a Ha%Hc. unfold in_lanes. simpl. unfold LANE_TOTAL_SIZE. lia.
Qed.

Lemma ex_rolling : rolling ex_pop 1048576 ∅ (pm_mem ex_torn_pool) ex_snaps 0.
Proof.
  split; [lia|..].
  - intros j Hj. destruct (ex_two j ltac:(lia)) as [-> | ->].
    + split; [vm_compute; reflexivity|vm_compute; reflexivity| |vm_compute; discriminate| |vm_compute; reflexivity|by exists 32].
      * split; [|done]. split_and!; vm_compute; reflexivity.
      * intros a Ha. apply (zero_outside _ (λ k, (k <? 9280) || (11264 <=? k))); [vm_compute; reflexivity|].
        change (9216 + 64 ≤ a < 9216 + 2048) in Ha. apply orb_false_iff. lia.
    + split; [vm_compute; reflexivity|vm_compute; reflexivity|done|vm_compute; discriminate| |vm_compute; reflexivity|by exists 32].
      intros a Ha. apply (zero_outside _ (λ k, (k <? 12288) || (14336 <=? k))); [vm_compute; reflexivity|].
      change (12288 + 0 ≤ a < 12288 + 2048) in Ha. apply orb_false_iff. lia.
  - intros a Ha Hna. destruct (decide (65536 ≤ a < 65544)) as [Hc|Hc].
    + right. exists 0%nat. split; [simpl; lia|]. constructor. unfold snap_covers. simpl. lia.
    + left. unfold in_lanes in Hna. simpl in Hna. unfold LANE_TOTAL_SIZE in Hna.
      rewrite (zero_outside _ (λ k, ((8192 <=? k) && (k <? 14336)) || ((65536 <=? k) && (k <? 65544)) || (1048576 <=? k)));
        [unfold rd; by rewrite lookup_empty|vm_compute; reflexivity|].
      cbv beta. lia.
Qed.

Lemma needed_idle fuel m u : (ulog_recovery_needed fuel u true (Pmem m [])).1 = Ok false →
  ulog_recovery_needed fuel u true (Pmem m []) = (Ok false, Pmem m []).
Proof.
  intros E. destruct (needed_eq fuel m m u (λ a, eq_refl)) as [_ E2].
  destruct (ulog_recovery_needed fuel u true (Pmem m [])) as [r p]. simpl in *. by subst.
Qed.

Lemma ex_redos_idle j u : (j < lp_nlanes ex_pop)%nat → u ∈ redos_of ex_pop j →
  ulog_recovery_needed 10 u true ex_torn_pool = (Ok false, ex_torn_pool).
Proof.
  intros [-> | ->]%ex_two [-> |[-> |[]%not_elem_of_nil]%elem_of_cons]%elem_of_cons; apply needed_idle; vm_compute; reflexivity.
Qed.

Lemma lane_recovery_rolls_back_witness : ∃ p',
  lane_recover_and_section_boot clflush_ops 10 ex_pop (λ p, (Ok 0, p)) no_free no_push
    (MEnv ex_torn_pool ((Some <$> [1900000; 2000000; 2100000; 1900000; 2000000; 2100000]) ++ [])) = (Ok 0, MEnv p' []) ∧
  rd64 (pm_mem p') 65536 = 0.
Proof.
  destruct (lane_recovery_rolls_back clflush_ops 10 ex_pop (λ p, (Ok 0, p)) no_free no_push 1048576 ∅ ex_snaps
    ex_torn_pool ex_torn_pool [1900000; 2000000; 2100000; 1900000; 2000000; 2100000] []) as (p' & E & Hm & _).
  - exact ex_redos_idle.
  - reflexivity.
  - reflexivity.
  - exact ex_lane_snaps.
  - exact ex_rolling.
  - reflexivity.
  - repeat constructor; lia.
  - intros y Hy. unfold in_lanes in Hy. simpl in Hy. unfold LANE_TOTAL_SIZE in Hy. lia.
  - exists p'. split; [exact E|]. apply rd64_zero. intros a Ha. rewrite Hm; [|lia|].
    + unfold rd. by rewrite lookup_empty.
    + unfold in_lanes. simpl. unfold LANE_TOTAL_SIZE. lia.
Defined.

(** ** Errors that get lost *)

(** A log whose first entry is at an offset that is not valid. *)
Definition ex_bad_log : pmem := Pmem (wr64 (pm_mem ex_lanes) 8256 123456789) [].
Definition ex_valid (off : Z) : bool := off <? 1000000.

(** three errors of [lane.c] are reported as success: [lane_boot] when it cannot allocate the locks (the descriptor has
    neither lanes nor locks), [lane_check] when a log fails the check, and recovery when the context of an undo log
    cannot be allocated (the lane is not rolled back). *)
Theorem lane_errors_lost :
  (∀ d x al, lane_boot 10 ex_pop d (MEnv ex_lanes (Some x :: None :: al)) =
     (Ok (0, LaneDescriptor (ld_runtime_nlanes d) 0 None None), MEnv ex_lanes al)) ∧
  ((ulog_check 10 (lane_internal (lane_get_layout ex_pop 0)) ex_valid ex_bad_log).1 = Ok (-1) ∧
   (lane_check 10 ex_pop ex_valid ex_bad_log).1 = Ok 0) ∧
  (∃ p', lane_recover_and_section_boot clflush_ops 10 ex_pop (λ p, (Ok 0, p)) no_free no_push (MEnv ex_torn_pool [None]) =
     (Ok 0, MEnv p' []) ∧ rd64 (pm_mem p') 65536 = 7).
Proof.
  split; [done|]. split; [split; vm_compute; reflexivity|].
  exists ex_torn_pool. split; [|exact ex_tx_changed]. unfold lane_recover_and_section_boot. erewrite bind_ok.
  2: { unfold on_pm. cbn [me_pm]. pose proof (recover_redo_run clflush_ops 10 ex_pop 2 0 ex_torn_pool eq_refl ex_redos_idle) as E0.
       change (Z.of_nat 0) with 0 in E0. change (lp_nlanes ex_pop) with 2%nat. rewrite E0. reflexivity. }
  reflexivity.
Qed.
