(* ===== verification/LaneHold.v ===== *)
(** * libpmemobj: how threads take lanes

    Models the thread side of [libpmemobj/lane.c].  A thread keeps, for every pool, a record with the lane it
    holds; the records are found through a cuckoo table and a one-entry cache.  A lane is taken by a
    compare-and-swap on its lock.  [FATAL] and a failing assertion are [Undef].

    One turn of the loop that takes a lane is a definition of its own ([get_lane_turn]): it has the one
    compare-and-swap, so that [LaneHoldTheorems.v] can follow every interleaving of threads. *)

From stdpp Require Import base gmap list numbers.
From S2P Require Import Prelude Memory Ulog Vecq Cuckoo Memops Lane.
Local Open Scope Z_scope.

Definition LANE_JUMP : Z := 64 / 8.
Definition LANE_PRIMARY_ATTEMPTS : Z := 128.
Definition RLANE_DEFAULT : Z := 0.
Definition UINT64_MAX : Z := 2 ^ 64 - 1.

(** Records are in volatile memory; [prev] and [next] are addresses, 0 for [NULL]. *)
Record lane_info : Type := LaneInfo {
  li_pop_uuid_lo : Z;
  li_lane_idx : Z;
  li_nest_count : Z;
  li_primary : Z;
  li_primary_attempts : Z;
  li_prev : Z;
  li_next : Z
}.

(** The thread-local variables, and the outcomes of the next allocations (of the table, of records). *)
Record thread : Type := Thread {
  th_ht : option cuckoo;
  th_records : Z;
  th_cache : Z;
  th_infos : gmap Z lane_info;
  th_zalloc : list bool;
  th_malloc : list Z
}.

Definition set_ht (ht : option cuckoo) (t : thread) : thread :=
  Thread ht (th_records t) (th_cache t) (th_infos t) (th_zalloc t) (th_malloc t).
Definition set_records (a : Z) (t : thread) : thread :=
  Thread (th_ht t) a (th_cache t) (th_infos t) (th_zalloc t) (th_malloc t).
Definition set_cache (a : Z) (t : thread) : thread :=
  Thread (th_ht t) (th_records t) a (th_infos t) (th_zalloc t) (th_malloc t).
Definition set_infos (m : gmap Z lane_info) (t : thread) : thread :=
  Thread (th_ht t) (th_records t) (th_cache t) m (th_zalloc t) (th_malloc t).

Local Abbreviation MT A := (M thread A).

(** Access through a pointer. *)
Definition get_info (a : Z) : MT lane_info := λ t,
  match th_infos t !! a with Some i => (Ok i, t) | None => (Undef, t) end.
Definition put_info (a : Z) (i : lane_info) : MT unit := modify (λ t, set_infos (<[a := i]> (th_infos t)) t).
Definition upd_info (a : Z) (f : lane_info → lane_info) : MT unit := i ← get_info a; put_info a (f i).
Definition free_info (a : Z) : MT unit := modify (λ t, set_infos (delete a (th_infos t)) t).

Definition set_prev (p : Z) (i : lane_info) : lane_info :=
  LaneInfo (li_pop_uuid_lo i) (li_lane_idx i) (li_nest_count i) (li_primary i) (li_primary_attempts i) p (li_next i).
Definition set_next_info (n : Z) (i : lane_info) : lane_info :=
  LaneInfo (li_pop_uuid_lo i) (li_lane_idx i) (li_nest_count i) (li_primary i) (li_primary_attempts i) (li_prev i) n.

(** An operation on the table. *)
Definition on_ht {A} (f : M cuckoo_env A) : MT A := λ t,
  match th_ht t with
  | None => (Undef, t)
  | Some c =>
      let '(r, e) := f (CuckooEnv c (th_zalloc t)) in
      (r, Thread (Some (ce_table e)) (th_records t) (th_cache t) (th_infos t) (ce_alloc e) (th_malloc t))
  end.

Definition Malloc : MT Z := λ t,
  match th_malloc t with
  | a :: l => (Ok a, Thread (th_ht t) (th_records t) (th_cache t) (th_infos t) (th_zalloc t) l)
  | [] => (Ok 0, t)
  end.

(** ** The records of a thread *)

(** [malloc] and [zalloc]: the outcomes of the two allocations of [cuckoo_new]. *)
Definition lane_info_create (malloc zalloc : bool) : MT unit :=
  match cuckoo_new malloc zalloc with
  | None => undef
  | Some c => modify (set_ht (Some c))
  end.

(** The list of the records is walked to free them. *)
Fixpoint free_records (fuel : nat) (head : Z) : MT unit :=
  if head =? 0 then mret tt
  else
    match fuel with
    | O => undef
    | S fuel => i ← get_info head; free_info head;; free_records fuel (li_next i)
    end.
Definition lane_info_delete (fuel : nat) : MT unit :=
  ht ← gets th_ht;
  match ht with
  | None => mret tt
  | Some _ =>
      head ← gets th_records;
      free_records fuel head;;
      modify (set_ht None);; modify (set_records 0);; modify (set_cache 0)
  end.

(** [tls_ok]: [os_tls_set] succeeds. *)
Definition lane_info_ht_boot (malloc zalloc tls_ok : bool) : MT unit :=
  lane_info_create malloc zalloc;; if tls_ok then mret tt else undef.

Definition lane_info_cleanup (uuid : Z) : MT unit :=
  ht ← gets th_ht;
  match ht with
  | None => mret tt
  | Some _ =>
      info ← on_ht (on_table (cuckoo_remove uuid));
      if info =? 0 then mret tt
      else
        i ← get_info info;
        (if li_prev i =? 0 then mret tt else upd_info (li_prev i) (set_next_info (li_next i)));;
        i ← get_info info;
        (if li_next i =? 0 then mret tt else upd_info (li_next i) (set_prev (li_prev i)));;
        cache ← gets th_cache;
        (if cache =? info then modify (set_cache 0) else mret tt);;
        records ← gets th_records;
        (if records =? info then modify (set_records (li_next i)) else mret tt);;
        free_info info
  end.

(** The descriptor of the pool and the thread of the caller; the records of other threads stay. *)
Definition lane_cleanup (nlanes : nat) (uuid : Z) : M (lane_descriptor * thread) unit := λ '(d, t),
  match nlanes, ld_lane d with
  | S _, None => (Undef, (d, t))
  | _, _ =>
      let '(r, t) := lane_info_cleanup uuid t in
      (r, (LaneDescriptor (ld_runtime_nlanes d) (ld_next_lane_idx d) None None, t))
  end.

(** Leaving the process or a thread. *)
Definition lane_info_ht_destroy (fuel : nat) : MT unit := lane_info_delete fuel.
Definition lane_info_destroy (fuel : nat) : MT unit := lane_info_delete fuel.

Section record.
(** The outcomes of the first allocation of the table. *)
Context (malloc zalloc tls_ok : bool).

Definition new_lane_info (uuid : Z) : MT Z :=
  info ← Malloc;
  if info =? 0 then undef
  else
    records ← gets th_records;
    put_info info (LaneInfo uuid UINT64_MAX 0 0 LANE_PRIMARY_ATTEMPTS 0 records);;
    (if records =? 0 then mret tt else upd_info records (set_prev info));;
    modify (set_records info);;
    err ← on_ht (cuckoo_insert uuid info);
    if negb (err =? 0) then undef else mret info.

Definition get_lane_info_record (uuid : Z) : MT Z :=
  cache ← gets th_cache;
  hit ← (if cache =? 0 then mret false else i ← get_info cache; mret (li_pop_uuid_lo i =? uuid));
  if (hit : bool) then mret cache
  else
    ht ← gets th_ht;
    (match ht with None => lane_info_ht_boot malloc zalloc tls_ok | Some _ => mret tt end);;
    info ← on_ht (on_table (cuckoo_get uuid));
    info ← (if info =? 0 then new_lane_info uuid else mret info);
    modify (set_cache info);;
    mret info.
End record.

(** ** Taking a lane *)

(** What the threads of a process share. *)
Record lane_shared : Type := LaneShared { lk_locks : list Z; lk_next_lane_idx : Z; lk_runtime_nlanes : Z }.

Definition upd_lane (idx : Z) (nest : Z) (primary attempts : Z) (i : lane_info) : lane_info :=
  LaneInfo (li_pop_uuid_lo i) idx nest primary attempts (li_prev i) (li_next i).

(** [util_bool_compare_and_swap64] *)
Definition cas (locks : list Z) (idx old new : Z) : res (bool * list Z) :=
  match lookupZ locks idx with
  | None => Undef
  | Some v => if v =? old then Ok (true, updZ locks idx new) else Ok (false, locks)
  end.

(** One turn of the inner loop of [get_lane]: whether a lane was taken. *)
Definition get_lane_turn (nlocks : Z) (locks : list Z) (i : lane_info) : res (bool * list Z * lane_info) :=
  let idx := li_lane_idx i mod nlocks in
  match cas locks idx 0 1 with
  | Ok (true, locks) =>
      Ok (true, locks,
        if idx =? li_primary i then upd_lane idx (li_nest_count i) (li_primary i) LANE_PRIMARY_ATTEMPTS i
        else if li_primary_attempts i =? 0 then upd_lane idx (li_nest_count i) idx LANE_PRIMARY_ATTEMPTS i
        else upd_lane idx (li_nest_count i) (li_primary i) (li_primary_attempts i) i)
  | Ok (false, locks) =>
      let attempts := if (idx =? li_primary i) && (0 <? li_primary_attempts i)
                      then li_primary_attempts i - 1 else li_primary_attempts i in
      Ok (false, locks, upd_lane (u64 (idx + 1)) (li_nest_count i) (li_primary i) attempts i)
  | Fail e => Fail e
  | Undef => Undef
  end.

(** The two loops: the outer one continues where the inner one ends, at [nlocks], which is lane 0. *)
Fixpoint get_lane_loop (fuel : nat) (nlocks : Z) (locks : list Z) (i : lane_info) : res (list Z * lane_info) :=
  match fuel with
  | O => Undef
  | S fuel =>
      match get_lane_turn nlocks locks i with
      | Ok (true, locks, i) => Ok (locks, i)
      | Ok (false, locks, i) => get_lane_loop fuel nlocks locks i
      | Fail e => Fail e
      | Undef => Undef
      end
  end.
Definition get_lane (fuel : nat) (nlocks : Z) (locks : list Z) (i : lane_info) : res (list Z * lane_info) :=
  get_lane_loop fuel nlocks locks (upd_lane (li_primary i) (li_nest_count i) (li_primary i) (li_primary_attempts i) i).

(** The first lane to try. *)
Definition first_lane (sh : lane_shared) (i : lane_info) : lane_shared * lane_info :=
  if li_lane_idx i =? UINT64_MAX then
    let next := lk_next_lane_idx sh in
    (LaneShared (lk_locks sh) (u32 (next + LANE_JUMP)) (lk_runtime_nlanes sh),
     upd_lane next (li_nest_count i) next (li_primary_attempts i) i)
  else (sh, i).

(** A thread, the shared data and the lanes of the pool. *)
Record hold_state : Type := HoldState { hs_thread : thread; hs_shared : lane_shared; hs_lanes : list lane }.

Definition on_thread {A} (f : MT A) : M hold_state A := λ s,
  let '(r, t) := f (hs_thread s) in (r, HoldState t (hs_shared s) (hs_lanes s)).
Definition set_shared (sh : lane_shared) : M hold_state unit :=
  modify (λ s, HoldState (hs_thread s) sh (hs_lanes s)).

(** [operation_init] of a context. *)
Definition reinit (c : operation_context) : operation_context :=
  ms_ctx (operation_init (MState (MEnv (Pmem.Pmem ∅ []) []) c)).2.
Definition reinit_lane (l : lane) : lane :=
  Lane (ln_layout l) (reinit (ln_internal l)) (reinit (ln_external l)) (reinit (ln_undo l)).

Section hold.
Context (malloc zalloc tls_ok : bool) (fuel : nat) (uuid : Z) (has_remote_replicas : bool).

(** [lanep]: whether the caller wants the lane. *)
Definition lane_hold (lanep : bool) : M hold_state Z :=
  n ← gets (lk_runtime_nlanes ∘ hs_shared);
  if n =? 0 then (if negb has_remote_replicas || lanep then undef else mret RLANE_DEFAULT)
  else
    a ← on_thread (get_lane_info_record malloc zalloc tls_ok uuid);
    i ← on_thread (get_info a);
    sh ← gets hs_shared;
    let '(sh, i) := first_lane sh i in
    set_shared sh;;
    let outermost := li_nest_count i =? 0 in
    let i := upd_lane (li_lane_idx i) (u64 (li_nest_count i + 1)) (li_primary i) (li_primary_attempts i) i in
    i ← (if outermost then
           match get_lane fuel n (lk_locks sh) i with
           | Ok (locks, i) => set_shared (LaneShared locks (lk_next_lane_idx sh) n);; mret i
           | Fail e => fail e
           | Undef => undef
           end
         else mret i);
    on_thread (put_info a i);;
    lanes ← gets hs_lanes;
    match lookupZ lanes (li_lane_idx i) with
    | None => undef
    | Some l =>
        (if lanep && (li_nest_count i =? 1)
         then modify (λ s, HoldState (hs_thread s) (hs_shared s) (updZ lanes (li_lane_idx i) (reinit_lane l)))
         else mret tt);;
        mret (u32 (li_lane_idx i))
    end.

Definition lane_attach (lane : Z) : MT unit :=
  a ← get_lane_info_record malloc zalloc tls_ok uuid;
  upd_info a (λ i, upd_lane lane 1 (li_primary i) (li_primary_attempts i) i).

Definition lane_detach : MT Z :=
  a ← get_lane_info_record malloc zalloc tls_ok uuid;
  i ← get_info a;
  let nest := u64 (li_nest_count i - 1) in
  put_info a (upd_lane (li_lane_idx i) nest (li_primary i) (li_primary_attempts i) i);;
  if nest =? 0 then mret (u32 (li_lane_idx i)) else undef.

Definition lane_release : M hold_state unit :=
  n ← gets (lk_runtime_nlanes ∘ hs_shared);
  if n =? 0 then (if has_remote_replicas then mret tt else undef)
  else
    a ← on_thread (get_lane_info_record malloc zalloc tls_ok uuid);
    i ← on_thread (get_info a);
    if li_lane_idx i =? UINT64_MAX then undef
    else if li_nest_count i =? 0 then undef
    else
      let nest := li_nest_count i - 1 in
      on_thread (put_info a (upd_lane (li_lane_idx i) nest (li_primary i) (li_primary_attempts i) i));;
      if nest =? 0 then
        sh ← gets hs_shared;
        match cas (lk_locks sh) (li_lane_idx i) 1 0 with
        | Ok (true, locks) => set_shared (LaneShared locks (lk_next_lane_idx sh) (lk_runtime_nlanes sh))
        | _ => undef
        end
      else mret tt.
End hold.
