(* ===== verification/LaneHoldTheorems.v ===== *)
(** * libpmemobj: a lane has one holder

    The threads of a process as a system of steps, the compare-and-swap of [get_lane] being one step, and what
    every interleaving keeps: a locked lane has exactly one holder, so that two threads never share a lane and
    [lane_release] never finds its lane unlocked.  [lane_hold] and [lane_release] are runs of these steps, and
    [lane_hold] ends within as many turns as there are lanes when one of them is free. *)

From stdpp Require Import base gmap sets list numbers.
From S2P Require Import Prelude Memory Ulog Vecq Cuckoo Memops Lane LaneHold.
Local Open Scope Z_scope.

(** ** The system of threads *)

(** A record and whether its thread is in the loop of [get_lane]; the lanes that are detached from every thread. *)
Record sys : Type := Sys {
  sy_shared : lane_shared;
  sy_threads : gmap nat (bool * lane_info);
  sy_detached : gset Z
}.

Definition set_locks (locks : list Z) (sh : lane_shared) : lane_shared :=
  LaneShared locks (lk_next_lane_idx sh) (lk_runtime_nlanes sh).
Definition set_nest (nest : Z) (i : lane_info) : lane_info :=
  upd_lane (li_lane_idx i) nest (li_primary i) (li_primary_attempts i) i.

Inductive lane_step : sys → sys → Prop :=
  | step_record sh ths d t i : ths !! t = None → li_nest_count i = 0 →
      lane_step (Sys sh ths d) (Sys sh (<[t := (false, i)]> ths) d)
  | step_enter sh ths d t i sh' i' : ths !! t = Some (false, i) → li_nest_count i = 0 → first_lane sh i = (sh', i') →
      lane_step (Sys sh ths d)
        (Sys sh' (<[t := (true, upd_lane (li_primary i') 1 (li_primary i') (li_primary_attempts i') i')]> ths) d)
  | step_turn sh ths d t i b locks i' : ths !! t = Some (true, i) →
      get_lane_turn (lk_runtime_nlanes sh) (lk_locks sh) i = Ok (b, locks, i') →
      lane_step (Sys sh ths d) (Sys (set_locks locks sh) (<[t := (negb b, i')]> ths) d)
  | step_nest sh ths d t i nest : ths !! t = Some (false, i) → 0 < li_nest_count i → 0 < nest →
      lane_step (Sys sh ths d) (Sys sh (<[t := (false, set_nest nest i)]> ths) d)
  | step_release sh ths d t i locks : ths !! t = Some (false, i) → li_nest_count i = 1 →
      cas (lk_locks sh) (li_lane_idx i) 1 0 = Ok (true, locks) →
      lane_step (Sys sh ths d) (Sys (set_locks locks sh) (<[t := (false, set_nest 0 i)]> ths) d)
  | step_detach sh ths d t i : ths !! t = Some (false, i) → li_nest_count i = 1 →
      lane_step (Sys sh ths d) (Sys sh (<[t := (false, set_nest 0 i)]> ths) ({[li_lane_idx i]} ∪ d))
  | step_attach sh ths d t i k : ths !! t = Some (false, i) → li_nest_count i = 0 → k ∈ d →
      lane_step (Sys sh ths d)
        (Sys sh (<[t := (false, upd_lane k 1 (li_primary i) (li_primary_attempts i) i)]> ths) (d ∖ {[k]})).

(** What [lane_boot] leaves: no thread, all lanes unlocked. *)
Definition sys_boot (next n : Z) : sys := Sys (LaneShared (replicate (Z.to_nat n) 0) next n) ∅ ∅.

(** ** Who holds a lane *)

(** The lane a thread holds outside of the loop of [get_lane]. *)
Definition thread_lane (x : bool * lane_info) : option Z :=
  if (fst x : bool) then None
  else if 0 <? li_nest_count (snd x) then Some (li_lane_idx (snd x)) else None.

(** [None] as the holder of a lane that is detached. *)
Definition holds (s : sys) (o : option nat) (k : Z) : Prop :=
  match o with
  | Some t => (sy_threads s !! t) ≫= thread_lane = Some k
  | None => k ∈ sy_detached s
  end.

Record lanes_inv (s : sys) : Prop := {
  ln_len : Z.of_nat (length (lk_locks (sy_shared s))) = lk_runtime_nlanes (sy_shared s);
  ln_bits : Forall (λ v, v = 0 ∨ v = 1) (lk_locks (sy_shared s));
  ln_locked o k : holds s o k → lookupZ (lk_locks (sy_shared s)) k = Some 1;
  ln_unique o o' k : holds s o k → holds s o' k → o = o';
  ln_held k : lookupZ (lk_locks (sy_shared s)) k = Some 1 → ∃ o, holds s o k
}.

Lemma holds_insert sh sh' ths d d' t x o k :
  holds (Sys sh' (<[t := x]> ths) d') (Some o) k ↔
  (o = t ∧ thread_lane x = Some k) ∨ (o ≠ t ∧ holds (Sys sh ths d) (Some o) k).
Proof.
  unfold holds. cbn [sy_threads]. destruct (decide (o = t)) as [->|].
  - rewrite lookup_insert_eq. cbn. naive_solver.
  - rewrite lookup_insert_ne by done. naive_solver.
Qed.

Lemma holds_old sh ths d t x k : ths !! t = Some x → holds (Sys sh ths d) (Some t) k ↔ thread_lane x = Some k.
Proof. intros Ht. unfold holds. cbn [sy_threads]. by rewrite Ht. Qed.

(** A step that gives a lane to a holder, or to none, and one that moves no lane. *)
Lemma inv_moved s s' k (new : option (option nat)) v w :
  lanes_inv s → lk_runtime_nlanes (sy_shared s') = lk_runtime_nlanes (sy_shared s) →
  lookupZ (lk_locks (sy_shared s)) k = Some w →
  v = (if new is Some _ then 1 else 0) → lk_locks (sy_shared s') = updZ (lk_locks (sy_shared s)) k v →
  (∀ o j, holds s' o j ↔ (j = k ∧ new = Some o) ∨ (j ≠ k ∧ holds s o j)) →
  lanes_inv s'.
Proof.
  intros Hi Hn Hk -> Hl Hh. pose proof (lookupZ_Some _ _ _ Hk) as Hr. split; rewrite ?Hl, ?Hn.
  - rewrite length_updZ. apply Hi.
  - apply Forall_updZ; [apply Hi|]. destruct new; auto.
  - intros o j [[-> ->]|[Hj Ho]]%Hh; [by apply lookupZ_updZ_eq|].
    rewrite lookupZ_updZ_ne by done. by apply (ln_locked _ Hi) in Ho.
  - intros o o' j [[-> ->]|[Hj Ho]]%Hh [[? ?]|[? Ho']]%Hh; [congruence|done|done|]. by eapply (ln_unique _ Hi).
  - intros j [[<- ?]|[? Hj]]%lookupZ_updZ.
    + destruct new as [o|]; [|done]. exists o. apply Hh. auto.
    + destruct (ln_held _ Hi j Hj) as [o Ho]. exists o. apply Hh. auto.
Qed.

Lemma inv_same s s' : lanes_inv s → lk_runtime_nlanes (sy_shared s') = lk_runtime_nlanes (sy_shared s) →
  lk_locks (sy_shared s') = lk_locks (sy_shared s) → (∀ o j, holds s' o j ↔ holds s o j) → lanes_inv s'.
Proof.
  intros [Hl Hb Ho Hu He] Hn Hk Hh. split; rewrite ?Hk, ?Hn; [done|done|..].
  - intros o k ?%Hh. eauto.
  - intros o o' k ?%Hh ?%Hh. eauto.
  - intros k (o & Hok)%He. exists o. by apply Hh.
Qed.

Lemma turn_inv n locks i b locks' i' : get_lane_turn n locks i = Ok (b, locks', i') →
  li_nest_count i' = li_nest_count i ∧
  if (b : bool) then li_lane_idx i' = li_lane_idx i mod n ∧ lookupZ locks (li_lane_idx i mod n) = Some 0 ∧
                     locks' = updZ locks (li_lane_idx i mod n) 1
  else locks' = locks.
Proof.
  unfold get_lane_turn, cas. destruct (lookupZ locks _) as [v|] eqn:Hv; [|done]. destruct (Z.eqb_spec v 0) as [->|].
  - intros [= <- <- <-]. repeat case_match; by auto.
  - intros [= <- <- <-]. by auto.
Qed.

Lemma thread_lane_nest k nest p at_ i : 0 < nest → thread_lane (false, upd_lane k nest p at_ i) = Some k.
Proof. intros. unfold thread_lane. cbn. by rewrite (proj2 (Z.ltb_lt _ _)). Qed.

Lemma first_lane_inv sh i sh' i' : first_lane sh i = (sh', i') →
  lk_locks sh' = lk_locks sh ∧ lk_runtime_nlanes sh' = lk_runtime_nlanes sh ∧ li_nest_count i' = li_nest_count i.
Proof. unfold first_lane. case_match; intros [= <- <-]; auto. Qed.

(** A step of thread [t] that keeps what the thread holds. *)
Lemma inv_thread sh sh' ths d t x x' : lanes_inv (Sys sh ths d) → (ths !! t) ≫= thread_lane = thread_lane x' →
  lk_locks sh' = lk_locks sh → lk_runtime_nlanes sh' = lk_runtime_nlanes sh → x = x' →
  lanes_inv (Sys sh' (<[t := x]> ths) d).
Proof.
  intros Hi Hx Hl Hn ->. apply (inv_same _ _ Hi); [done..|]. intros [o|] j; [|done].
  rewrite (holds_insert sh _ _ d). unfold holds. cbn [sy_threads]. destruct (decide (o = t)) as [->|]; [|naive_solver].
  rewrite Hx. naive_solver.
Qed.

(** A step of thread [t] that moves lane [k] to or from the thread. *)
Lemma inv_thread_moved sh sh' ths d d' t x x' k new v w : lanes_inv (Sys sh ths d) →
  ths !! t = Some x → lookupZ (lk_locks sh) k = Some w → lk_locks sh' = updZ (lk_locks sh) k v →
  lk_runtime_nlanes sh' = lk_runtime_nlanes sh → v = (if new is Some _ then 1 else 0) →
  (∀ j, thread_lane x = Some j → j = k) → (∀ o, holds (Sys sh ths d) (Some o) k → o = t) →
  thread_lane x' = (if new is Some (Some _) then Some k else None) → (∀ o, new = Some (Some o) → o = t) →
  (∀ j, j ∈ d' ↔ (j = k ∧ new = Some None) ∨ (j ≠ k ∧ j ∈ d)) →
  lanes_inv (Sys sh' (<[t := x']> ths) d').
Proof.
  intros Hi Ht Hw Hl Hn Hv Hx Hk Hx' Hnew Hd. eapply (inv_moved _ _ k new v w Hi); [done..|].
  intros [o|] j; [|apply Hd]. rewrite (holds_insert sh sh' ths d d'), Hx'. destruct (decide (o = t)) as [->|Hne].
  - rewrite (holds_old _ _ _ _ _ j Ht). destruct new as [[o|]|]; naive_solver.
  - split; [|naive_solver]. intros [?|[_ Ho]]; [naive_solver|]. right. split; [|done]. intros ->. by apply Hne, Hk.
Qed.

Lemma cas_taken locks k old new locks' : cas locks k old new = Ok (true, locks') →
  lookupZ locks k = Some old ∧ locks' = updZ locks k new.
Proof. unfold cas. case_match; [|done]. case_match; intros [= <-]; bool_hyps; by subst. Qed.

(** A thread in the loop counts the hold it is about to get. *)
Definition seeking_inv (s : sys) : Prop :=
  map_Forall (λ _ x, (fst x : bool) = true → li_nest_count (snd x) = 1) (sy_threads s).

Lemma seeking_step s s' : lane_step s s' → seeking_inv s → seeking_inv s'.
Proof.
  unfold seeking_inv. destruct 1 as [| |sh ths d t i b locks i' Ht Hc| | | |]; intros Hs; cbn in *;
    apply map_Forall_insert_2; try done.
  apply turn_inv in Hc as [Hn _]. intros _. cbn. rewrite Hn. by apply (Hs _ _ Ht).
Qed.

Lemma outermost_holder sh ths d t i : lanes_inv (Sys sh ths d) → ths !! t = Some (false, i) → li_nest_count i = 1 →
  lookupZ (lk_locks sh) (li_lane_idx i) = Some 1 ∧ (∀ j, thread_lane (false, i) = Some j → j = li_lane_idx i) ∧
  (∀ o, holds (Sys sh ths d) (Some o) (li_lane_idx i) → o = t) ∧ li_lane_idx i ∉ d.
Proof.
  intros Hi Ht Hn. assert (thread_lane (false, i) = Some (li_lane_idx i)) as Htl by (unfold thread_lane; cbn; by rewrite Hn).
  assert (holds (Sys sh ths d) (Some t) (li_lane_idx i)) as Hh by by apply (holds_old _ _ _ _ _ _ Ht).
  split_and!; [apply (ln_locked _ Hi _ _ Hh)|congruence| |].
  - intros o Ho. pose proof (ln_unique _ Hi _ _ _ Hh Ho). congruence.
  - intros Hd. by pose proof (ln_unique _ Hi None _ _ Hd Hh).
Qed.

Lemma free_lane_unheld s k o : lanes_inv s → lookupZ (lk_locks (sy_shared s)) k = Some 0 → ¬ holds s o k.
Proof. intros Hi H0 H1%(ln_locked _ Hi). congruence. Qed.

Lemma lane_step_inv s s' : lane_step s s' → seeking_inv s → lanes_inv s → lanes_inv s'.
Proof.
  destruct 1 as [sh ths d t i Ht Hn|sh ths d t i sh' i' Ht Hn Hf|sh ths d t i b locks i' Ht Hc|sh ths d t i nest Ht Hn Hp
    |sh ths d t i locks Ht Hn Hc|sh ths d t i Ht Hn|sh ths d t i k Ht Hn Hk]; intros Hs Hi.
  - eapply (inv_thread sh); [done| |done..]. rewrite Ht. unfold thread_lane. cbn. by rewrite Hn.
  - apply first_lane_inv in Hf as (? & ? & ?). eapply (inv_thread sh); [done| |done..].
    rewrite Ht. unfold thread_lane. cbn. by rewrite Hn.
  - apply turn_inv in Hc as [Hn Hb]. destruct b; [|subst; eapply (inv_thread sh); [done| |done..]; by rewrite Ht].
    destruct Hb as (Hidx & H0 & ->). pose proof (Hs _ _ Ht eq_refl) as H1. cbn in H1.
    eapply (inv_thread_moved sh _ _ _ _ _ _ _ _ (Some (Some t)) 1); try done; [| |naive_solver|].
    + intros o []%(free_lane_unheld _ _ _ Hi H0).
    + unfold thread_lane. cbn. rewrite Hn, H1. cbn. congruence.
    + intros j. pose proof (free_lane_unheld _ _ None Hi H0). naive_solver.
  - eapply (inv_thread sh); [done| |done..]. rewrite Ht. cbn [mbind option_bind].
    unfold set_nest. rewrite thread_lane_nest by done. unfold thread_lane. cbn. by rewrite (proj2 (Z.ltb_lt _ _)).
  - apply cas_taken in Hc as [_ ->]. destruct (outermost_holder _ _ _ _ _ Hi Ht Hn) as (H1 & Hj & Ho & Hd).
    eapply (inv_thread_moved sh _ _ _ _ _ _ _ _ None 0); try done. naive_solver.
  - destruct (outermost_holder _ _ _ _ _ Hi Ht Hn) as (H1 & Hj & Ho & Hd).
    eapply (inv_thread_moved sh _ _ _ _ _ _ _ (li_lane_idx i) (Some None) 1); try done; [by rewrite updZ_id|].
    intros j. rewrite elem_of_union, elem_of_singleton. destruct (decide (j = li_lane_idx i)); naive_solver.
  - pose proof (ln_locked _ Hi None _ Hk) as H1. cbn in H1.
    eapply (inv_thread_moved sh _ _ _ _ _ _ _ k (Some (Some t)) 1); try done; [by rewrite updZ_id|..].
    + unfold thread_lane. cbn. by rewrite Hn.
    + intros o Ho. by pose proof (ln_unique _ Hi None _ _ Hk Ho).
    + naive_solver.
    + set_solver.
Qed.

Lemma step_nlanes s s' : lane_step s s' → lk_runtime_nlanes (sy_shared s') = lk_runtime_nlanes (sy_shared s).
Proof. destruct 1; try done. by eapply first_lane_inv. Qed.

Lemma reachable_inv next n s : 0 ≤ n → rtc lane_step (sys_boot next n) s →
  lanes_inv s ∧ seeking_inv s ∧ lk_runtime_nlanes (sy_shared s) = n.
Proof.
  intros Hn. apply (rtc_ind_r (λ s, lanes_inv s ∧ seeking_inv s ∧ lk_runtime_nlanes (sy_shared s) = n)).
  - split_and!; [|apply map_Forall_empty|done]. split; cbn.
    + rewrite length_replicate. lia.
    + apply Forall_replicate. by left.
    + intros [o|] k Hk; [|set_solver]. unfold holds in Hk. cbn in Hk. by rewrite lookup_empty in Hk.
    + intros [o|] o' k Hk; [|set_solver]. unfold holds in Hk. cbn in Hk. by rewrite lookup_empty in Hk.
    + intros k Hk. apply (lookupZ_Forall (λ x, x = 0)) in Hk; [done|]. by apply Forall_replicate.
  - intros s1 s2 _ Hst (Hi & Hs & Hl). split_and!; [by eapply lane_step_inv|by eapply seeking_step|].
    by rewrite (step_nlanes _ _ Hst).
Qed.

(** ** One call of [lane_hold] *)

Lemma upd_lane_upd k nest p at_ k' nest' p' at' i :
  upd_lane k nest p at_ (upd_lane k' nest' p' at' i) = upd_lane k nest p at_ i.
Proof. done. Qed.

(** What the loop leaves of a record. *)
Definition same_record (i i' : lane_info) : Prop :=
  i' = upd_lane (li_lane_idx i') (li_nest_count i) (li_primary i') (li_primary_attempts i') i.

Lemma turn_same n locks i b locks' i' : get_lane_turn n locks i = Ok (b, locks', i') → same_record i i'.
Proof.
  unfold get_lane_turn. case_match; try done. case_match; subst. case_match; intros [= <- <- <-]; [|done].
  repeat case_match; done.
Qed.

Lemma loop_steps fuel sh ths d t i locks' i' :
  get_lane_loop fuel (lk_runtime_nlanes sh) (lk_locks sh) i = Ok (locks', i') → ths !! t = Some (true, i) →
  same_record i i' ∧ rtc lane_step (Sys sh ths d) (Sys (set_locks locks' sh) (<[t := (false, i')]> ths) d).
Proof.
  revert sh ths i. induction fuel as [|fuel IH]; [done|]. intros sh ths i Hl Ht. cbn in Hl.
  destruct (get_lane_turn _ _ i) as [[[b locks] i1]|e|] eqn:Hturn; try done.
  pose proof (turn_same _ _ _ _ _ _ Hturn) as Hsame. pose proof (step_turn sh ths d t i _ _ _ Ht Hturn) as Hst.
  destruct b; [simplify_eq; split; [done|by apply rtc_once]|].
  destruct (IH (set_locks locks sh) (<[t := (true, i1)]> ths) i1) as [Hr Hrtc]; [done|apply lookup_insert_eq|].
  rewrite insert_insert_eq in Hrtc. split; [|by eapply rtc_l].
  unfold same_record in *. rewrite Hr at 1. rewrite Hsame. done.
Qed.

(** The turns try the lanes in turn, so that a free one is reached. *)
Lemma loop_takes n locks f : 0 < n < 2 ^ 64 → Z.of_nat (length locks) = n → lookupZ locks f = Some 0 →
  ∀ fuel i, (f - li_lane_idx i) mod n < Z.of_nat fuel →
  ∃ i', get_lane_loop fuel n locks i = Ok (updZ locks (li_lane_idx i') 1, i') ∧ lookupZ locks (li_lane_idx i') = Some 0.
Proof.
  intros Hn Hlen Hf. pose proof (lookupZ_Some _ _ _ Hf) as Hfr. induction fuel as [|fuel IH]; intros i Hd.
  { pose proof (Z.mod_pos_bound (f - li_lane_idx i) n). lia. }
  pose proof (Z.mod_pos_bound (li_lane_idx i) n ltac:(lia)) as Hk. set (k := li_lane_idx i mod n) in *.
  destruct (lookupZ_is_Some locks k) as [v Hv]; [lia|]. cbn [get_lane_loop]. unfold get_lane_turn, cas. fold k.
  rewrite Hv. destruct (Z.eqb_spec v 0) as [->|Hv0].
  { repeat case_match; match goal with |- ∃ i', Ok (_, ?x) = _ ∧ _ => by exists x end. }
  apply IH. cbn. assert (k ≠ f) by congruence. unfold u64. rewrite (Z.mod_small (k + 1)) by lia.
  assert ((f - li_lane_idx i) mod n = (f - k) mod n) as He by (unfold k; by rewrite Zminus_mod_idemp_r).
  rewrite He in Hd. replace (f - (k + 1)) with (f - k - 1) by lia.
  rewrite <-(Zminus_mod_idemp_l (f - k)). pose proof (Z.mod_pos_bound (f - k) n ltac:(lia)).
  assert ((f - k) mod n ≠ 0).
  { intros Hz. apply Z.mod_divide in Hz as [q Hq]; [|lia]. assert (q = 0) by nia. lia. }
  rewrite Z.mod_small; lia.
Qed.

(** The record of the pool is the one that was used last. *)
Definition cached (t : thread) (uuid a : Z) (i : lane_info) : Prop :=
  th_cache t = a ∧ a ≠ 0 ∧ th_infos t !! a = Some i ∧ li_pop_uuid_lo i = uuid.

Section hold.
Context (malloc zalloc tls_ok : bool) (uuid : Z) (has_remote : bool).

Lemma get_cached t a i : cached t uuid a i → get_lane_info_record malloc zalloc tls_ok uuid t = (Ok a, t).
Proof.
  intros (<- & Ha & Hi & Hu). unfold get_lane_info_record. erewrite bind_ok by reflexivity.
  rewrite (proj2 (Z.eqb_neq _ _)) by done. unfold get_info.
  erewrite bind_ok; [|erewrite bind_ok; [reflexivity|rewrite Hi; reflexivity]].
  by rewrite Hu, Z.eqb_refl.
Qed.

Lemma put_cached t a i i' : cached t uuid a i → li_pop_uuid_lo i' = uuid →
  cached (set_infos (<[a := i']> (th_infos t)) t) uuid a i'.
Proof. intros (Hc & Ha & Hi & Hu) ?. split_and!; [done..| |done]. cbn. apply lookup_insert_eq. Qed.

(** The record and the locks after the hold. *)
Definition hold_result (fuel : nat) (sh : lane_shared) (i : lane_info) : res (lane_shared * lane_info) :=
  let '(sh1, i1) := first_lane sh i in
  let i2 := set_nest (u64 (li_nest_count i1 + 1)) i1 in
  if li_nest_count i1 =? 0 then
    match get_lane fuel (lk_runtime_nlanes sh) (lk_locks sh1) i2 with
    | Ok (locks, i3) => Ok (LaneShared locks (lk_next_lane_idx sh1) (lk_runtime_nlanes sh), i3)
    | Fail e => Fail e
    | Undef => Undef
    end
  else Ok (sh1, i2).

(** The lanes after it: the contexts of a lane that has just been taken are started again. *)
Definition hold_lanes (lanep : bool) (i : lane_info) (lanes : list lane) : list lane :=
  match lookupZ lanes (li_lane_idx i) with
  | Some l => if lanep && (li_nest_count i =? 1) then updZ lanes (li_lane_idx i) (reinit_lane l) else lanes
  | None => lanes
  end.

Lemma hold_run fuel lanep s a i sh' i' : cached (hs_thread s) uuid a i → lk_runtime_nlanes (hs_shared s) ≠ 0 →
  hold_result fuel (hs_shared s) i = Ok (sh', i') → is_Some (lookupZ (hs_lanes s) (li_lane_idx i')) →
  lane_hold malloc zalloc tls_ok fuel uuid has_remote lanep s =
    (Ok (u32 (li_lane_idx i')), HoldState (set_infos (<[a := i']> (th_infos (hs_thread s))) (hs_thread s)) sh' (hold_lanes lanep i' (hs_lanes s))).
Proof.
  intros Hc Hn Hr [l Hl]. destruct s as [t sh lanes]. cbn [hs_thread hs_shared hs_lanes] in *.
  assert (th_infos t !! a = Some i) as Hai by apply Hc.
  unfold lane_hold. erewrite (bind_ok _ _ _ (lk_runtime_nlanes sh)) by reflexivity. cbv beta.
  rewrite (proj2 (Z.eqb_neq _ _)) by done.
  erewrite (bind_ok _ _ _ a) by (unfold on_thread; cbn [hs_thread]; by rewrite (get_cached _ _ _ Hc)).
  erewrite (bind_ok _ _ _ i) by (unfold on_thread, get_info; cbn [hs_thread]; by rewrite Hai).
  erewrite (bind_ok _ _ _ sh) by reflexivity. cbv beta. unfold hold_result in Hr.
  destruct (first_lane sh i) as [sh1 i1] eqn:Hf. erewrite (bind_ok _ _ _ tt) by reflexivity.
  cbn [hs_thread hs_shared hs_lanes]. cbv zeta.
  erewrite (bind_ok _ _ _ i' (HoldState t sh' lanes)).
  2: { unfold set_nest in Hr. destruct (li_nest_count i1 =? 0); [|by simplify_eq].
       destruct (get_lane _ _ _ _) as [[locks i3]| |]; by simplify_eq. }
  erewrite (bind_ok _ _ _ tt) by reflexivity. erewrite (bind_ok _ _ _ lanes) by reflexivity. cbv beta. rewrite Hl.
  unfold hold_lanes. rewrite Hl. destruct (lanep && (li_nest_count i' =? 1)); (erewrite (bind_ok _ _ _ tt) by reflexivity); reflexivity.
Qed.

Lemma release_run s a i : cached (hs_thread s) uuid a i → lk_runtime_nlanes (hs_shared s) ≠ 0 →
  li_lane_idx i ≠ UINT64_MAX → 0 < li_nest_count i → lookupZ (lk_locks (hs_shared s)) (li_lane_idx i) = Some 1 →
  lane_release malloc zalloc tls_ok uuid has_remote s =
    (Ok tt, HoldState (set_infos (<[a := set_nest (li_nest_count i - 1) i]> (th_infos (hs_thread s))) (hs_thread s))
      (if li_nest_count i =? 1 then set_locks (updZ (lk_locks (hs_shared s)) (li_lane_idx i) 0) (hs_shared s)
       else hs_shared s) (hs_lanes s)).
Proof.
  intros Hc Hn Hm Hp H1. destruct s as [t sh lanes]. cbn [hs_thread hs_shared hs_lanes] in *.
  assert (th_infos t !! a = Some i) as Hai by apply Hc.
  unfold lane_release. erewrite (bind_ok _ _ _ (lk_runtime_nlanes sh)) by reflexivity. cbv beta.
  rewrite (proj2 (Z.eqb_neq _ _)) by done.
  erewrite (bind_ok _ _ _ a) by (unfold on_thread; cbn [hs_thread]; by rewrite (get_cached _ _ _ Hc)).
  erewrite (bind_ok _ _ _ i) by (unfold on_thread, get_info; cbn [hs_thread]; by rewrite Hai).
  rewrite (proj2 (Z.eqb_neq _ _) Hm), (proj2 (Z.eqb_neq (li_nest_count i) 0)) by lia.
  cbv zeta. erewrite (bind_ok _ _ _ tt) by reflexivity.
  destruct (Z.eqb_spec (li_nest_count i) 1) as [->|Hne]; [|by rewrite (proj2 (Z.eqb_neq _ _)) by lia].
  change (1 - 1 =? 0) with true. cbv iota. erewrite (bind_ok _ _ _ sh) by reflexivity. cbv beta.
  unfold cas. by rewrite H1.
Qed.
End hold.

(** ** The threads of a process *)

(** The outermost hold takes a lane that is free. *)
Lemma hold_result_outer fuel sh ths d t i f : 0 < lk_runtime_nlanes sh < 2 ^ 64 →
  Z.of_nat (length (lk_locks sh)) = lk_runtime_nlanes sh → lk_runtime_nlanes sh ≤ Z.of_nat fuel →
  lookupZ (lk_locks sh) f = Some 0 → ths !! t = Some (false, i) → li_nest_count i = 0 →
  ∃ sh' i', hold_result fuel sh i = Ok (sh', i') ∧ lookupZ (lk_locks sh) (li_lane_idx i') = Some 0 ∧
    lk_locks sh' = updZ (lk_locks sh) (li_lane_idx i') 1 ∧ li_nest_count i' = 1 ∧ li_pop_uuid_lo i' = li_pop_uuid_lo i ∧
    rtc lane_step (Sys sh ths d) (Sys sh' (<[t := (false, i')]> ths) d).
Proof.
  intros Hn Hlen Hfuel Hf Ht H0. unfold hold_result. destruct (first_lane sh i) as [sh1 i1] eqn:Hfl.
  pose proof (first_lane_inv _ _ _ _ Hfl) as (Hl1 & Hn1 & Hi1). rewrite Hi1, H0. cbn [Z.eqb]. change (u64 (0 + 1)) with 1.
  set (i2 := upd_lane (li_primary i1) 1 (li_primary i1) (li_primary_attempts i1) i1).
  destruct (loop_takes _ _ f Hn Hlen Hf fuel i2) as (i3 & Hloop & Hfree).
  { pose proof (Z.mod_pos_bound (f - li_lane_idx i2) (lk_runtime_nlanes sh)). lia. }
  rewrite Hl1. unfold get_lane. change (upd_lane _ _ _ _ (set_nest 1 i1)) with i2. rewrite Hloop.
  destruct (loop_steps fuel sh1 (<[t := (true, i2)]> ths) d t i2 (updZ (lk_locks sh) (li_lane_idx i3) 1) i3) as [Hs Hrtc].
  { by rewrite Hn1, Hl1. } { apply lookup_insert_eq. }
  rewrite insert_insert_eq in Hrtc. unfold set_locks in Hrtc. rewrite Hn1 in Hrtc.
  eexists _, i3. split_and!; [done..| | |].
  - by rewrite Hs.
  - rewrite Hs. unfold first_lane in Hfl. by case_match; simplify_eq.
  - eapply rtc_l; [|done]. by apply step_enter with (i := i).
Qed.

Lemma hold_result_nested fuel sh ths d t i : 0 < li_nest_count i < UINT64_MAX → li_lane_idx i ≠ UINT64_MAX →
  ths !! t = Some (false, i) →
  hold_result fuel sh i = Ok (sh, set_nest (li_nest_count i + 1) i) ∧
  rtc lane_step (Sys sh ths d) (Sys sh (<[t := (false, set_nest (li_nest_count i + 1) i)]> ths) d).
Proof.
  intros Hn Hm Ht. unfold hold_result, first_lane. rewrite (proj2 (Z.eqb_neq _ _) Hm), (proj2 (Z.eqb_neq _ 0)) by lia.
  unfold u64. rewrite Z.mod_small by (unfold UINT64_MAX in Hn; lia). split; [done|].
  apply rtc_once, step_nest; [done|lia..].
Qed.

Lemma holder_holds s t i : sy_threads s !! t = Some (false, i) → 0 < li_nest_count i → holds s (Some t) (li_lane_idx i).
Proof. intros Ht Hp. unfold holds. rewrite Ht. cbn. unfold thread_lane. cbn. by rewrite (proj2 (Z.ltb_lt _ _)). Qed.

Lemma holder_range s t i : lanes_inv s → sy_threads s !! t = Some (false, i) → 0 < li_nest_count i →
  0 ≤ li_lane_idx i < lk_runtime_nlanes (sy_shared s) ∧ lookupZ (lk_locks (sy_shared s)) (li_lane_idx i) = Some 1.
Proof.
  intros Hi Ht Hp. pose proof (ln_locked _ Hi _ _ (holder_holds _ _ _ Ht Hp)) as H1.
  pose proof (lookupZ_Some _ _ _ H1). rewrite (ln_len _ Hi) in *. done.
Qed.

(** C19: In every state the threads of a process reach from [lane_boot], whatever the interleaving of their
    compare-and-swaps, two threads never hold the same lane; a holder's lane is one of the pool and its lock is set, so
    that the compare-and-swap of [lane_release] succeeds; and no lane stays locked without a holder. *)
Theorem lanes_exclusive next n s : 0 ≤ n → rtc lane_step (sys_boot next n) s →
  (∀ t t' i i', sy_threads s !! t = Some (false, i) → sy_threads s !! t' = Some (false, i') →
     0 < li_nest_count i → 0 < li_nest_count i' → li_lane_idx i = li_lane_idx i' → t = t') ∧
  (∀ t i, sy_threads s !! t = Some (false, i) → 0 < li_nest_count i → 0 ≤ li_lane_idx i < n ∧
     cas (lk_locks (sy_shared s)) (li_lane_idx i) 1 0 = Ok (true, updZ (lk_locks (sy_shared s)) (li_lane_idx i) 0)) ∧
  (∀ k, lookupZ (lk_locks (sy_shared s)) k = Some 1 → ∃ o, holds s o k).
Proof.
  intros Hn Hs. destruct (reachable_inv _ _ _ Hn Hs) as (Hi & _ & Hl).
  split_and!; [| |apply Hi].
  - intros t t' i i' Ht Ht' Hp Hp' He. pose proof (holder_holds _ _ _ Ht Hp) as H1. rewrite He in H1.
    pose proof (ln_unique _ Hi _ _ _ H1 (holder_holds _ _ _ Ht' Hp')). congruence.
  - intros t i Ht Hp. destruct (holder_range _ _ _ Hi Ht Hp) as [Hk H1]. unfold cas. rewrite H1, <-Hl. done.
Qed.

(** What a hold does, the lanes included. *)
Lemma hold_returns malloc zalloc tls_ok fuel uuid has_remote lanep next n s ths d t a i : 0 < n < 2 ^ 32 →
  rtc lane_step (sys_boot next n) (Sys (hs_shared s) ths d) → Z.of_nat (length (hs_lanes s)) = n → n ≤ Z.of_nat fuel →
  cached (hs_thread s) uuid a i → ths !! t = Some (false, i) → 0 ≤ li_nest_count i < UINT64_MAX →
  (li_nest_count i = 0 → ∃ f, lookupZ (lk_locks (hs_shared s)) f = Some 0) →
  ∃ i' s', lane_hold malloc zalloc tls_ok fuel uuid has_remote lanep s = (Ok (li_lane_idx i'), s') ∧
    0 ≤ li_lane_idx i' < n ∧ cached (hs_thread s') uuid a i' ∧ hs_lanes s' = hold_lanes lanep i' (hs_lanes s) ∧ li_nest_count i' = li_nest_count i + 1 ∧
    rtc lane_step (Sys (hs_shared s) ths d) (Sys (hs_shared s') (<[t := (false, i')]> ths) d) ∧
    if li_nest_count i =? 0
    then lookupZ (lk_locks (hs_shared s)) (li_lane_idx i') = Some 0 ∧
         lk_locks (hs_shared s') = updZ (lk_locks (hs_shared s)) (li_lane_idx i') 1
    else li_lane_idx i' = li_lane_idx i ∧ hs_shared s' = hs_shared s.
Proof.
  intros Hn Hs Hlanes Hfuel Hc Ht Hnest Hfree. destruct (reachable_inv next n _ ltac:(lia) Hs) as (Hi & _ & Hl).
  cbn in Hl. pose proof (ln_len _ Hi) as Hlen. cbn in Hlen. rewrite Hl in Hlen.
  assert (∀ sh' i', hold_result fuel (hs_shared s) i = Ok (sh', i') → 0 ≤ li_lane_idx i' < n → li_pop_uuid_lo i' = uuid →
    ∃ s', lane_hold malloc zalloc tls_ok fuel uuid has_remote lanep s = (Ok (li_lane_idx i'), s') ∧
      hs_shared s' = sh' ∧ hs_lanes s' = hold_lanes lanep i' (hs_lanes s) ∧ cached (hs_thread s') uuid a i') as Hrun.
  { intros sh' i' Hr Hk Hu. erewrite (hold_run malloc zalloc tls_ok uuid has_remote fuel lanep);
      [|done|lia|done|apply lookupZ_is_Some; lia]. unfold u32. rewrite Z.mod_small by lia.
    eexists. split_and!; [done..|]. by eapply put_cached. }
  assert (li_pop_uuid_lo i = uuid) as Hu by apply Hc.
  destruct (Z.eqb_spec (li_nest_count i) 0) as [H0|H0].
  - destruct (Hfree H0) as [f Hf].
    destruct (hold_result_outer fuel (hs_shared s) ths d t i f) as (sh' & i' & Hr & Hf' & Hl' & Hn' & Hu' & Hst); [lia..|done|done|done|].
    pose proof (lookupZ_Some _ _ _ Hf') as Hk. destruct (Hrun _ _ Hr) as (s' & Heq & <- & Hla & Hc'); [lia|congruence|].
    exists i', s'. split_and!; try done; lia.
  - destruct (holder_range _ _ _ Hi Ht) as [Hk _]; [lia|]. cbn in Hk. rewrite Hl in Hk.
    destruct (hold_result_nested fuel (hs_shared s) ths d t i) as [Hr Hst]; [split; [lia|apply Hnest]|unfold UINT64_MAX; lia|done|].
    destruct (Hrun _ _ Hr) as (s' & Heq & Hsh & Hla & Hc'); [done..|]. rewrite <-Hsh in Hst at 2.
    exists (set_nest (li_nest_count i + 1) i), s'. split_and!; try done; cbn; lia.
Qed.

(** C20: In every reachable state, when a lane is free or the thread already holds one, [lane_hold] returns (the turns
    of its loop are at most the lanes); an outermost hold locks a lane that was free, a nested one keeps the lane and
    the locks; and the call is a run of the steps of the system. *)
Theorem lane_hold_returns malloc zalloc tls_ok fuel uuid has_remote lanep next n s ths d t a i : 0 < n < 2 ^ 32 →
  rtc lane_step (sys_boot next n) (Sys (hs_shared s) ths d) → Z.of_nat (length (hs_lanes s)) = n → n ≤ Z.of_nat fuel →
  cached (hs_thread s) uuid a i → ths !! t = Some (false, i) → 0 ≤ li_nest_count i < UINT64_MAX →
  (li_nest_count i = 0 → ∃ f, lookupZ (lk_locks (hs_shared s)) f = Some 0) →
  ∃ i' s', lane_hold malloc zalloc tls_ok fuel uuid has_remote lanep s = (Ok (li_lane_idx i'), s') ∧
    0 ≤ li_lane_idx i' < n ∧ cached (hs_thread s') uuid a i' ∧ li_nest_count i' = li_nest_count i + 1 ∧
    rtc lane_step (Sys (hs_shared s) ths d) (Sys (hs_shared s') (<[t := (false, i')]> ths) d) ∧
    if li_nest_count i =? 0
    then lookupZ (lk_locks (hs_shared s)) (li_lane_idx i') = Some 0 ∧
         lk_locks (hs_shared s') = updZ (lk_locks (hs_shared s)) (li_lane_idx i') 1
    else li_lane_idx i' = li_lane_idx i ∧ hs_shared s' = hs_shared s.
Proof.
  intros Hn Hs Hlanes Hfuel Hc Ht Hnest Hfree. edestruct (hold_returns malloc zalloc tls_ok fuel uuid has_remote lanep next n s) as (i' & s' & H); try done.
  exists i', s'. naive_solver.
Qed.

(** In every reachable state, [lane_release] by a thread that holds a lane returns: it unlocks the lane when the
    hold is the outermost one and otherwise only counts down; and the call is a step of the system. *)
Theorem lane_release_returns malloc zalloc tls_ok uuid has_remote next n s ths d t a i : 0 < n < 2 ^ 32 →
  rtc lane_step (sys_boot next n) (Sys (hs_shared s) ths d) →
  cached (hs_thread s) uuid a i → ths !! t = Some (false, i) → 0 < li_nest_count i →
  ∃ s', lane_release malloc zalloc tls_ok uuid has_remote s = (Ok tt, s') ∧
    cached (hs_thread s') uuid a (set_nest (li_nest_count i - 1) i) ∧
    lane_step (Sys (hs_shared s) ths d)
      (Sys (hs_shared s') (<[t := (false, set_nest (li_nest_count i - 1) i)]> ths) d) ∧
    lk_locks (hs_shared s') =
      if li_nest_count i =? 1 then updZ (lk_locks (hs_shared s)) (li_lane_idx i) 0 else lk_locks (hs_shared s).
Proof.
  intros Hn Hs Hc Ht Hp. destruct (reachable_inv next n _ ltac:(lia) Hs) as (Hi & _ & Hl). cbn in Hl.
  destruct (holder_range _ _ _ Hi Ht Hp) as [Hk H1]. cbn in Hk, H1. rewrite Hl in Hk.
  rewrite (release_run _ _ _ _ _ _ a i Hc); [|lia|unfold UINT64_MAX; lia|done|done].
  eexists. split_and!; [done|apply (put_cached _ _ _ i); [done|apply Hc]| |].
  - cbn [hs_shared]. destruct (Z.eqb_spec (li_nest_count i) 1) as [H2|H2]; [|apply step_nest; [done|lia..]].
    rewrite H2. apply step_release; [done..|]. unfold cas. by rewrite H1.
  - cbn [hs_shared]. by case_match.
Qed.

(** ** Two threads and two lanes *)

Definition ex_record : lane_info := LaneInfo 7 UINT64_MAX 0 0 LANE_PRIMARY_ATTEMPTS 0 0.
Definition ex_thread (i : lane_info) : thread := Thread None 1 1 {[1 := i]} [] [].
Definition ex_context : operation_context :=
  OperationContext LOG_TYPE_REDO 0 0 None 0 64 640 640 [] false (OperationLog 0 0 0) (OperationLog 0 0 0) (Vecq [] 0 0 0).
Definition ex_lane : lane := Lane 64 ex_context ex_context ex_context.

(** The first thread takes lane 0; the second one tries lane 8 mod 2 and goes on to lane 1. *)
Definition ex_first : lane_info := LaneInfo 7 0 1 0 LANE_PRIMARY_ATTEMPTS 0 0.
Definition ex_second : lane_info := LaneInfo 7 1 1 8 LANE_PRIMARY_ATTEMPTS 0 0.

Lemma ex_first_ready : rtc lane_step (sys_boot 0 2) (Sys (LaneShared [0; 0] 0 2) {[0%nat := (false, ex_record)]} ∅).
Proof. eapply rtc_l; [by apply (step_record _ _ _ 0%nat ex_record)|]. apply rtc_refl. Qed.

Lemma ex_held : rtc lane_step (sys_boot 0 2) (Sys (LaneShared [1; 0] 8 2) {[0%nat := (false, ex_first)]} ∅).
Proof.
  etrans; [apply ex_first_ready|].
  eapply rtc_l; [by apply (step_enter _ _ _ 0%nat ex_record)|].
  eapply rtc_l; [eapply (step_turn _ _ _ 0%nat); [apply lookup_insert_eq|reflexivity]|].
  vm_compute. apply rtc_refl.
Qed.

Lemma ex_both : rtc lane_step (sys_boot 0 2)
  (Sys (LaneShared [1; 1] 16 2) (<[1%nat := (false, ex_second)]> {[0%nat := (false, ex_first)]}) ∅).
Proof.
  etrans; [apply ex_held|].
  eapply rtc_l; [by apply (step_record _ _ _ 1%nat ex_record)|].
  eapply rtc_l; [by apply (step_enter _ _ _ 1%nat ex_record)|].
  eapply rtc_l; [eapply (step_turn _ _ _ 1%nat); [apply lookup_insert_eq|reflexivity]|].
  eapply rtc_l; [eapply (step_turn _ _ _ 1%nat); [apply lookup_insert_eq|reflexivity]|].
  vm_compute. apply rtc_refl.
Qed.

(** Two threads that hold the lanes of a pool with two of them. *)
Lemma lanes_exclusive_witness : cas [1; 1] 1 1 0 = Ok (true, updZ [1; 1] 1 0).
Proof.
  destruct (lanes_exclusive 0 2 _ ltac:(lia) ex_both) as (_ & Hc & _).
  apply (Hc 1%nat ex_second); vm_compute; reflexivity.
Defined.

Lemma ex_cached i : li_pop_uuid_lo i = 7 → cached (ex_thread i) 7 1 i.
Proof. intros. split_and!; try done. Qed.

(** The first hold of a thread. *)
Lemma lane_hold_returns_witness : ∃ i' s',
  lane_hold true true true 2 7 false true (HoldState (ex_thread ex_record) (LaneShared [0; 0] 0 2) [ex_lane; ex_lane]) =
    (Ok (li_lane_idx i'), s').
Proof.
  destruct (lane_hold_returns true true true 2 7 false true 0 2
    (HoldState (ex_thread ex_record) (LaneShared [0; 0] 0 2) [ex_lane; ex_lane]) {[0%nat := (false, ex_record)]} ∅ 0%nat 1
    ex_record) as (i' & s' & Heq & _); [lia|apply ex_first_ready|done|lia|by apply ex_cached|done|vm_compute; split; [done|reflexivity]|by exists 0|].
  by exists i', s'.
Defined.

(** The release of the lane by the first thread. *)
Lemma lane_release_returns_witness : ∃ s',
  lane_release true true true 7 false (HoldState (ex_thread ex_first) (LaneShared [1; 0] 8 2) [ex_lane; ex_lane]) =
    (Ok tt, s') ∧ lk_locks (hs_shared s') = [0; 0].
Proof.
  destruct (lane_release_returns true true true 7 false 0 2
    (HoldState (ex_thread ex_first) (LaneShared [1; 0] 8 2) [ex_lane; ex_lane]) {[0%nat := (false, ex_first)]} ∅ 0%nat 1
    ex_first) as (s' & Heq & _ & _ & Hl); [lia|apply ex_held|by apply ex_cached|done|done|].
  by exists s'.
Defined.
