(* ===== verification/Memblock.v ===== *)
(** * libpmemobj: memory blocks

    Models [libpmemobj/memblock.c] over the layout of [heap_layout.h].  A huge block is a sequence of chunks described
    by the chunk header of the first one; a run is divided into units, one bit of its bitmap for each.  The methods of
    a block are chosen by its type.  Addresses are relative to the base of the pool, which is taken to be a
    multiple of every alignment of runs.  Calls that only tell Valgrind about memory are left out. *)

From stdpp Require Import base gmap list numbers.
From S2P Require Import Prelude Memory Pmem Util Ulog Container ContainerSeglists Bucket Vecq Memops.
Local Open Scope Z_scope.

(** ** Layout *)

Definition RUN_BITS_PER_VALUE : Z := 64.
Definition RUN_BASE_METADATA_SIZE : Z := 16.
Definition RUN_BASE_METADATA_VALUES : Z := RUN_BASE_METADATA_SIZE / 8.
Definition RUN_CONTENT_SIZE : Z := CHUNKSIZE - RUN_BASE_METADATA_SIZE.
Definition RUN_CONTENT_SIZE_BYTES (size_idx : Z) : Z := u64 (RUN_CONTENT_SIZE + u32 (size_idx - 1) * CHUNKSIZE).
Definition RUN_DEFAULT_METADATA_VALUES : Z := 40.
Definition RUN_DEFAULT_BITMAP_VALUES : Z := RUN_DEFAULT_METADATA_VALUES - RUN_BASE_METADATA_VALUES.
Definition RUN_DEFAULT_BITMAP_SIZE : Z := 8 * RUN_DEFAULT_BITMAP_VALUES.
Definition RUN_DEFAULT_BITMAP_NBITS : Z := RUN_BITS_PER_VALUE * RUN_DEFAULT_BITMAP_VALUES.
Definition RUN_DEFAULT_SIZE : Z := CHUNKSIZE - RUN_BASE_METADATA_SIZE - RUN_DEFAULT_BITMAP_SIZE.
Definition RUN_DEFAULT_SIZE_BYTES (size_idx : Z) : Z := u64 (RUN_DEFAULT_SIZE + u32 (size_idx - 1) * CHUNKSIZE).

Definition CHUNK_FLAG_COMPACT_HEADER : Z := 1.
Definition CHUNK_FLAG_HEADER_NONE : Z := 2.
Definition CHUNK_FLAG_ALIGNED : Z := 4.
Definition CHUNK_FLAG_FLEX_BITMAP : Z := 8.

(** [enum chunk_type], as stored in a chunk header. *)
Definition CHUNK_TYPE_UNKNOWN : Z := 0.
Definition CHUNK_TYPE_FOOTER : Z := 1.
Definition CHUNK_TYPE_FREE : Z := 2.
Definition CHUNK_TYPE_USED : Z := 3.
Definition CHUNK_TYPE_RUN : Z := 4.
Definition CHUNK_TYPE_RUN_DATA : Z := 5.

Definition ALLOC_HDR_SIZE_SHIFT : Z := 48.
Definition ALLOC_HDR_FLAGS_MASK : Z := u64 (Z.shiftl 1 ALLOC_HDR_SIZE_SHIFT - 1).
Definition ALLOC_HDR_COMPACT_SIZE : Z := 16.

Definition header_type_to_flag (t : header_type) : Z :=
  match t with
  | HEADER_LEGACY => 0
  | HEADER_COMPACT => CHUNK_FLAG_COMPACT_HEADER
  | HEADER_NONE => CHUNK_FLAG_HEADER_NONE
  end.

Definition GET_CHUNK_RUN (layout zone chunk : Z) : Z := GET_CHUNK layout zone chunk.

(** The fields of [struct chunk_header] at [a], of [struct chunk_run] ... *)
Definition hdr_type (m : mem) (a : Z) : Z := rd16 m a.
Definition hdr_flags (m : mem) (a : Z) : Z := rd16 m (a + 2).
Definition hdr_size_idx (m : mem) (a : Z) : Z := rd32 m (a + 4).
Definition run_f_block_size (m : mem) (run : Z) : Z := rd64 m run.
Definition run_f_alignment (m : mem) (run : Z) : Z := rd64 m (run + 8).
Definition run_content (run : Z) : Z := run + RUN_BASE_METADATA_SIZE.

(** ... and a chunk header as bytes. *)
Definition hdr_bytes (type flags size_idx : Z) : list Z := le_bytes 2 type ++ le_bytes 2 flags ++ le_bytes 4 size_idx.

(** [flags & f] *)
Definition has_flag (flags f : Z) : bool := negb (Z.land flags f =? 0).
(** [BIT_IS_CLR] of [heap.h] *)
Definition BIT_IS_CLR (a i : Z) : bool := Z.land a (Z.shiftl 1 i) =? 0.

(** [util_popcount64]: the set bits from [i] on. *)
Fixpoint popcount (n : nat) (i v : Z) : Z :=
  match n with
  | O => 0
  | S n => (if Z.testbit v i then 1 else 0) + popcount n (i + 1) v
  end.
Definition util_popcount64 (v : Z) : Z := popcount 64 0 v.

(** ** Data *)

Inductive memblock_state : Type := MEMBLOCK_STATE_UNKNOWN | MEMBLOCK_ALLOCATED | MEMBLOCK_FREE.

#[global] Instance memblock_state_eq_dec : EqDecision memblock_state.
Proof. solve_decision. Defined.

Record run_bitmap : Type := RunBitmap {
  rb_nvalues : Z;
  rb_nbits : Z;
  rb_size : Z;
  rb_values : Z                    (* address *)
}.

(** [MEMORY_BLOCK_NONE] at a position, before its state is rebuilt. *)
Definition block_at (chunk zone size : Z) : memory_block := MemoryBlock chunk zone size 0 HEADER_LEGACY MEMORY_BLOCK_HUGE.
Definition set_size_idx (n : Z) (m : memory_block) : memory_block :=
  MemoryBlock (chunk_id m) (zone_id m) n (block_off m) (mb_header_type m) (mb_type m).
Definition set_block (off n : Z) (m : memory_block) : memory_block :=
  MemoryBlock (chunk_id m) (zone_id m) n off (mb_header_type m) (mb_type m).
Definition set_chunk_id (c : Z) (m : memory_block) : memory_block :=
  MemoryBlock c (zone_id m) (size_idx m) (block_off m) (mb_header_type m) (mb_type m).
Definition set_state (h : header_type) (t : memory_block_type) (m : memory_block) : memory_block :=
  MemoryBlock (chunk_id m) (zone_id m) (size_idx m) (block_off m) h t.

(** ** Functions that only read

    They run on the memory itself; [look] makes them part of any computation whose state has a memory. *)

Class HasMem (S : Type) : Type := mem_of : S → mem.
#[global] Instance pmem_has_mem : HasMem pmem := pm_mem.
#[global] Instance menv_has_mem : HasMem menv := λ e, pm_mem (me_pm e).
#[global] Instance mstate_has_mem : HasMem mstate := λ s, pm_mem (me_pm (ms_env s)).

Local Abbreviation MR A := (M mem A).
Definition look {S} `{!HasMem S} {A} (f : MR A) : M S A := λ s, ((f (mem_of s)).1, s).

(** ** Bitmaps of runs *)

(** The number of units and of chunks; [fuel] bounds the chunks. *)
Fixpoint default_nallocs_loop (fuel : nat) (size_idx unit_size nallocs : Z) : res (Z * Z) :=
  if RUN_DEFAULT_BITMAP_NBITS <? nallocs then
    match fuel with
    | O => Undef
    | S fuel =>
        if 1 <? size_idx then
          let size_idx := size_idx - 1 in
          default_nallocs_loop fuel size_idx unit_size (u32 (RUN_DEFAULT_SIZE_BYTES size_idx / unit_size))
        else default_nallocs_loop fuel size_idx unit_size RUN_DEFAULT_BITMAP_NBITS
    end
  else Ok (nallocs, size_idx).
Definition memblock_run_default_nallocs (size_idx unit_size alignment : Z) : res (Z * Z) :=
  match default_nallocs_loop (Z.to_nat size_idx + 1) size_idx unit_size (u32 (RUN_DEFAULT_SIZE_BYTES size_idx / unit_size)) with
  | Ok (nallocs, size_idx) => Ok (u32 (nallocs - (if alignment =? 0 then 0 else 1)), size_idx)
  | Fail e => Fail e
  | Undef => Undef
  end.

(** [ALIGN_UP(x, 8U)] on [unsigned] *)
Definition align_up_8U (x : Z) : Z := u32 (x + 8 - 1) &&& u32 (Z.lnot 7).

(** The bitmap, and the number of chunks, that can become smaller.  A division by 0 is undefined. *)
Definition memblock_run_bitmap (size_idx flags unit_size alignment content : Z) : res (run_bitmap * Z) :=
  if size_idx =? 0 then Undef
  else if unit_size =? 0 then Undef
  else if has_flag flags CHUNK_FLAG_FLEX_BITMAP then
    let content_size := RUN_CONTENT_SIZE_BYTES size_idx in
    let nbits := u32 (content_size / unit_size) in
    let nvalues := util_div_ceil nbits RUN_BITS_PER_VALUE in
    let nvalues := u32 (align_up_8U (u32 (nvalues + RUN_BASE_METADATA_VALUES)) - RUN_BASE_METADATA_VALUES) in
    let size := nvalues * 8 in
    let nbits := u32 (u32 (u64 (content_size - size) / unit_size) - (if alignment =? 0 then 0 else 1)) in
    let unused_bits := u32 (u32 (nvalues * RUN_BITS_PER_VALUE) - nbits) in
    let unused_values := unused_bits / RUN_BITS_PER_VALUE in
    Ok (RunBitmap (u32 (nvalues - unused_values)) nbits size content, size_idx)
  else
    match memblock_run_default_nallocs size_idx unit_size alignment with
    | Ok (nbits, size_idx) =>
        let unused_bits := u32 (RUN_DEFAULT_BITMAP_NBITS - nbits) in
        let unused_values := unused_bits / RUN_BITS_PER_VALUE in
        Ok (RunBitmap (u32 (RUN_DEFAULT_BITMAP_VALUES - unused_values)) nbits RUN_DEFAULT_BITMAP_SIZE content, size_idx)
    | Fail e => Fail e
    | Undef => Undef
    end.

Section memblock.
(** [padding]: the bytes of a header that are written without being set. *)
Context (p_ops : pmem_ops) (layout : Z) (padding : list Z).

Definition heap_get_chunk_hdr (m : memory_block) : Z := GET_CHUNK_HDR layout (zone_id m) (chunk_id m).
Definition heap_get_chunk (m : memory_block) : Z := GET_CHUNK layout (zone_id m) (chunk_id m).
Definition heap_get_chunk_run (m : memory_block) : Z := GET_CHUNK_RUN layout (zone_id m) (chunk_id m).

(** ** Runtime state of a block *)

Definition memblock_header_type (m : memory_block) : MR header_type :=
  flags ← gets (λ x, hdr_flags x (heap_get_chunk_hdr m));
  mret (if has_flag flags CHUNK_FLAG_COMPACT_HEADER then HEADER_COMPACT
        else if has_flag flags CHUNK_FLAG_HEADER_NONE then HEADER_NONE
        else HEADER_LEGACY).

Definition memblock_detect_type (m : memory_block) : MR memory_block_type :=
  t ← gets (λ x, hdr_type x (heap_get_chunk_hdr m));
  if (t =? CHUNK_TYPE_RUN) || (t =? CHUNK_TYPE_RUN_DATA) then mret MEMORY_BLOCK_RUN
  else if (t =? CHUNK_TYPE_FREE) || (t =? CHUNK_TYPE_USED) || (t =? CHUNK_TYPE_FOOTER) then mret MEMORY_BLOCK_HUGE
  else undef.

Definition memblock_rebuild_state (m : memory_block) : MR memory_block :=
  h ← memblock_header_type m;
  t ← memblock_detect_type m;
  mret (set_state h t m).

(** ** Addresses and sizes *)

Definition run_get_bitmap (m : memory_block) : MR run_bitmap :=
  let hdr := heap_get_chunk_hdr m in
  let run := heap_get_chunk_run m in
  x ← gets id;
  match memblock_run_bitmap (hdr_size_idx x hdr) (hdr_flags x hdr) (run_f_block_size x run) (run_f_alignment x run)
          (run_content run) with
  | Ok (b, size_idx) => if size_idx =? hdr_size_idx x hdr then mret b else undef
  | Fail e => fail e
  | Undef => undef
  end.

Definition huge_block_size (m : memory_block) : MR Z := mret CHUNKSIZE.
Definition run_block_size (m : memory_block) : MR Z := gets (λ x, run_f_block_size x (heap_get_chunk_run m)).

Definition run_get_data_start (m : memory_block) : MR Z :=
  x ← gets id;
  b ← run_get_bitmap m;
  let run := heap_get_chunk_run m in
  if has_flag (hdr_flags x (heap_get_chunk_hdr m)) CHUNK_FLAG_ALIGNED then
    let hsize := header_type_to_size (mb_header_type m) in
    let base := u64 (run_content run + rb_size b + hsize) in
    mret (u64 (ALIGN_UP base (run_f_alignment x run) - hsize))
  else mret (u64 (run_content run + rb_size b)).

Definition run_get_data_offset (m : memory_block) : MR Z :=
  start ← run_get_data_start m;
  mret (u64 (start - run_content (heap_get_chunk_run m))).

Definition run_get_real_data (m : memory_block) : MR Z :=
  unit ← run_block_size m;
  if unit =? 0 then undef
  else
    start ← run_get_data_start m;
    mret (u64 (start + u64 (unit * block_off m))).

(** The methods of a block. *)
Definition mop_block_size (m : memory_block) : MR Z :=
  match mb_type m with MEMORY_BLOCK_HUGE => huge_block_size m | MEMORY_BLOCK_RUN => run_block_size m end.
Definition mop_get_real_data (m : memory_block) : MR Z :=
  match mb_type m with MEMORY_BLOCK_HUGE => mret (huge_get_real_data layout m) | MEMORY_BLOCK_RUN => run_get_real_data m end.
Definition mop_get_user_data (m : memory_block) : MR Z :=
  data ← mop_get_real_data m; mret (block_get_user_data (λ _, data) m).

(** ** Headers of allocations *)

Definition memblock_header_legacy_get_size (m : memory_block) : MR Z :=
  hdr ← mop_get_real_data m; gets (λ x, rd64 x (hdr + 8)).
Definition memblock_header_compact_get_size (m : memory_block) : MR Z :=
  hdr ← mop_get_real_data m; gets (λ x, rd64 x hdr &&& ALLOC_HDR_FLAGS_MASK).
Definition memblock_header_none_get_size (m : memory_block) : MR Z := mop_block_size m.

Definition memblock_header_legacy_get_extra (m : memory_block) : MR Z :=
  hdr ← mop_get_real_data m; gets (λ x, rd64 x (hdr + 56)).
Definition memblock_header_compact_get_extra (m : memory_block) : MR Z :=
  hdr ← mop_get_real_data m; gets (λ x, rd64 x (hdr + 8)).
Definition memblock_header_none_get_extra (m : memory_block) : MR Z := mret 0.

Definition memblock_header_legacy_get_flags (m : memory_block) : MR Z :=
  hdr ← mop_get_real_data m; gets (λ x, u16 (Z.shiftr (rd64 x (hdr + 48)) ALLOC_HDR_SIZE_SHIFT)).
Definition memblock_header_compact_get_flags (m : memory_block) : MR Z :=
  hdr ← mop_get_real_data m; gets (λ x, u16 (Z.shiftr (rd64 x hdr) ALLOC_HDR_SIZE_SHIFT)).
Definition memblock_header_none_get_flags (m : memory_block) : MR Z := mret 0.

Definition header_write_flags : Z := PMEMOBJ_F_MEM_WC ||| PMEMOBJ_F_MEM_NODRAIN ||| PMEMOBJ_F_RELAXED.

Definition memblock_header_legacy_write (m : memory_block) (size extra flags : Z) : M pmem unit :=
  hdrp ← look (mop_get_real_data m);
  let hdr := take 8 padding ++ le_bytes 8 size ++ take 32 (drop 8 padding) ++
             le_bytes 8 (u64 (Z.shiftl flags ALLOC_HDR_SIZE_SHIFT)) ++ le_bytes 8 extra in
  modify (λ p, op_memcpy p_ops p hdrp hdr header_write_flags).

Definition memblock_header_compact_write (m : memory_block) (size extra flags : Z) : M pmem unit :=
  hdrp ← look (mop_get_real_data m);
  let padded := le_bytes 8 (size ||| u64 (Z.shiftl flags ALLOC_HDR_SIZE_SHIFT)) ++ le_bytes 8 extra ++ take 48 padding in
  let hdr_size := if (hdrp mod CACHELINE_SIZE =? 0) && (CACHELINE_SIZE <=? size)
                  then CACHELINE_SIZE else ALLOC_HDR_COMPACT_SIZE in
  modify (λ p, op_memcpy p_ops p hdrp (take (Z.to_nat hdr_size) padded) header_write_flags).

Definition memblock_header_none_write (m : memory_block) (size extra flags : Z) : M pmem unit := mret tt.

(** [memblock_header_ops[t]] *)
Definition header_get_size (t : header_type) : memory_block → MR Z :=
  match t with
  | HEADER_LEGACY => memblock_header_legacy_get_size
  | HEADER_COMPACT => memblock_header_compact_get_size
  | HEADER_NONE => memblock_header_none_get_size
  end.
Definition header_get_extra (t : header_type) : memory_block → MR Z :=
  match t with
  | HEADER_LEGACY => memblock_header_legacy_get_extra
  | HEADER_COMPACT => memblock_header_compact_get_extra
  | HEADER_NONE => memblock_header_none_get_extra
  end.
Definition header_get_flags (t : header_type) : memory_block → MR Z :=
  match t with
  | HEADER_LEGACY => memblock_header_legacy_get_flags
  | HEADER_COMPACT => memblock_header_compact_get_flags
  | HEADER_NONE => memblock_header_none_get_flags
  end.
Definition header_write (t : header_type) : memory_block → Z → Z → Z → M pmem unit :=
  match t with
  | HEADER_LEGACY => memblock_header_legacy_write
  | HEADER_COMPACT => memblock_header_compact_write
  | HEADER_NONE => memblock_header_none_write
  end.

Definition block_get_real_size (m : memory_block) : MR Z :=
  if negb (size_idx m =? 0) then
    unit ← mop_block_size m; mret (u64 (unit * size_idx m))
  else header_get_size (mb_header_type m) m.
Definition block_get_user_size (m : memory_block) : MR Z :=
  size ← block_get_real_size m; mret (u64 (size - header_type_to_size (mb_header_type m))).
Definition block_write_header (m : memory_block) (extra_field flags : Z) : M pmem unit :=
  size ← look (block_get_real_size m);
  header_write (mb_header_type m) m size extra_field flags.
Definition block_get_extra (m : memory_block) : MR Z := header_get_extra (mb_header_type m) m.
Definition block_get_flags (m : memory_block) : MR Z := header_get_flags (mb_header_type m) m.

(** ** Changing the state of a block *)

(** [pop]: which addresses are in the pool, for [operation_add_entry]. *)
Context (pop : pool_layout).

Definition chunk_get_chunk_hdr_value (type flags size_idx : Z) : Z := le_of (hdr_bytes type flags size_idx).

Definition prepared_value (m : memory_block) (op : memblock_state) (x : mem) : Z :=
  chunk_get_chunk_hdr_value (if decide (op = MEMBLOCK_ALLOCATED) then CHUNK_TYPE_USED else CHUNK_TYPE_FREE)
    (hdr_flags x (heap_get_chunk_hdr m)) (size_idx m).
Definition footer_addr (m : memory_block) : Z := heap_get_chunk_hdr m + 8 * (size_idx m - 1).
Definition footer_value (m : memory_block) : Z := chunk_get_chunk_hdr_value CHUNK_TYPE_FOOTER 0 (size_idx m).

(** With [ctx == NULL] ... *)
Definition huge_prep_now (m : memory_block) (op : memblock_state) : M pmem unit :=
  let hdr := heap_get_chunk_hdr m in
  val ← gets (λ p, prepared_value m op (pm_mem p));
  modify (λ p, pm_store p hdr (le_bytes 8 val));;
  modify (λ p, op_persist p_ops p hdr 8 0);;
  if size_idx m =? 1 then mret tt
  else modify (λ p, pm_store p (footer_addr m) (le_bytes 8 (footer_value m))).
(** ... and with an operation; the results of adding entries are not looked at. *)
Definition huge_prep_operation_hdr (m : memory_block) (op : memblock_state) : M mstate unit :=
  let hdr := heap_get_chunk_hdr m in
  val ← gets (λ s, prepared_value m op (mem_of s));
  ignore (operation_add_entry pop hdr val ULOG_OPERATION_SET);;
  if size_idx m =? 1 then mret tt
  else ignore (operation_add_typed_entry (footer_addr m) (footer_value m) ULOG_OPERATION_SET LOG_TRANSIENT).

Definition run_prep_operation_hdr (m : memory_block) (op : memblock_state) : M mstate unit :=
  if negb (size_idx m <=? RUN_BITS_PER_VALUE) then undef
  else
    let bit := block_off m mod RUN_BITS_PER_VALUE in
    if (size_idx m =? RUN_BITS_PER_VALUE) && negb (bit =? 0) then undef
    else
      let bmask := if size_idx m =? RUN_BITS_PER_VALUE then 2 ^ 64 - 1
                   else u64 (Z.shiftl (Z.shiftl 1 (size_idx m) - 1) bit) in
      let bpos := block_off m / RUN_BITS_PER_VALUE in
      b ← look (run_get_bitmap m);
      match op with
      | MEMBLOCK_ALLOCATED => ignore (operation_add_entry pop (rb_values b + 8 * bpos) bmask ULOG_OPERATION_OR)
      | MEMBLOCK_FREE => ignore (operation_add_entry pop (rb_values b + 8 * bpos) (u64 (Z.lnot bmask)) ULOG_OPERATION_AND)
      | MEMBLOCK_STATE_UNKNOWN => undef
      end.

Definition mop_prep_hdr (m : memory_block) : memblock_state → M mstate unit :=
  match mb_type m with MEMORY_BLOCK_HUGE => huge_prep_operation_hdr m | MEMORY_BLOCK_RUN => run_prep_operation_hdr m end.

(** The lock of a run, by its number; [None] for [NULL]. *)
Definition heap_get_run_lock (nlocks chunk : Z) : Z := chunk mod nlocks.
Definition huge_get_lock (m : memory_block) : option Z := None.
Definition run_get_lock (nlocks : Z) (m : memory_block) : option Z := Some (heap_get_run_lock nlocks (chunk_id m)).

Definition huge_get_state (m : memory_block) : MR memblock_state :=
  t ← gets (λ x, hdr_type x (heap_get_chunk_hdr m));
  mret (if t =? CHUNK_TYPE_USED then MEMBLOCK_ALLOCATED
        else if t =? CHUNK_TYPE_FREE then MEMBLOCK_FREE
        else MEMBLOCK_STATE_UNKNOWN).

Fixpoint any_set (n : nat) (bitmap i : Z) : bool :=
  match n with
  | O => false
  | S n => if negb (BIT_IS_CLR bitmap i) then true else any_set n bitmap (i + 1)
  end.
Definition run_get_state (m : memory_block) : MR memblock_state :=
  b ← run_get_bitmap m;
  bitmap ← gets (λ x, rd64 x (rb_values b + 8 * (block_off m / RUN_BITS_PER_VALUE)));
  let bit := block_off m mod RUN_BITS_PER_VALUE in
  if negb (bit + size_idx m <=? RUN_BITS_PER_VALUE) then undef
  else mret (if any_set (Z.to_nat (size_idx m)) bitmap bit then MEMBLOCK_ALLOCATED else MEMBLOCK_FREE).

Definition mop_get_state (m : memory_block) : MR memblock_state :=
  match mb_type m with MEMORY_BLOCK_HUGE => huge_get_state m | MEMORY_BLOCK_RUN => run_get_state m end.

Definition huge_ensure_header_type (m : memory_block) (t : header_type) : M pmem unit :=
  let hdr := heap_get_chunk_hdr m in
  x ← gets pm_mem;
  if negb (hdr_type x hdr =? CHUNK_TYPE_FREE) then undef
  else if Z.land (hdr_flags x hdr) (header_type_to_flag t) =? 0 then
    modify (λ p, pm_store p (hdr + 2) (le_bytes 2 (hdr_flags x hdr ||| header_type_to_flag t)));;
    modify (λ p, op_persist p_ops p hdr 8 0)
  else mret tt.
Definition run_ensure_header_type (m : memory_block) (t : header_type) : M pmem unit :=
  let hdr := heap_get_chunk_hdr m in
  x ← gets pm_mem;
  if negb (hdr_type x hdr =? CHUNK_TYPE_RUN) then undef
  else if negb (Z.land (hdr_flags x hdr) (header_type_to_flag t) =? header_type_to_flag t) then undef
  else mret tt.
Definition mop_ensure_header_type (m : memory_block) : header_type → M pmem unit :=
  match mb_type m with MEMORY_BLOCK_HUGE => huge_ensure_header_type m | MEMORY_BLOCK_RUN => run_ensure_header_type m end.

(** ** Iteration *)

Section iterate.
Context {St : Type} `{!HasMem St} (cb : memory_block → M St Z).

(** [s] is the block of the last turn.  Every turn moves past at least one bit; [fuel] is more than the bits of a value. *)
Fixpoint process_value_loop (fuel : nat) (s : memory_block) (value base_offset shift : Z) : M St Z :=
  match fuel with
  | O => undef
  | S fuel =>
      let shifted := Z.shiftr value shift in
      if shifted =? 0 then
        ret ← cb (set_block (u32 (base_offset + shift)) (u32 (RUN_BITS_PER_VALUE - shift)) s);
        if negb (ret =? 0) then mret ret else mret 0
      else if shifted =? 2 ^ 64 - 1 then mret 0
      else
        let off := util_lssb_index64 (u64 (Z.lnot shifted)) in
        let size := util_lssb_index64 shifted in
        let shift := shift + (off + size) in
        let next s := if shift =? RUN_BITS_PER_VALUE then mret 0 else process_value_loop fuel s value base_offset shift in
        if negb (size =? 0) then
          s ← look (memblock_rebuild_state (set_block (u32 (base_offset + (shift - size))) size s));
          ret ← cb s;
          if negb (ret =? 0) then mret ret else next s
        else next s
  end.
Definition run_process_bitmap_value (m : memory_block) (value base_offset : Z) : M St Z :=
  process_value_loop 65 m value base_offset 0.

(** Values [i] up to [i + n]. *)
Fixpoint iterate_free_loop (n : nat) (b : run_bitmap) (m : memory_block) (i : Z) : M St Z :=
  match n with
  | O => mret 0
  | S n =>
      v ← look (gets (λ x, rd64 x (rb_values b + 8 * i)));
      if negb (RUN_BITS_PER_VALUE * i <=? 2 ^ 32 - 1) then undef
      else
        ret ← run_process_bitmap_value m v (RUN_BITS_PER_VALUE * i);
        if negb (ret =? 0) then mret ret else iterate_free_loop n b m (i + 1)
  end.
Definition run_iterate_free (m : memory_block) : M St Z :=
  b ← look (run_get_bitmap m);
  iterate_free_loop (Z.to_nat (rb_nvalues b)) b m 0.

(** The bits from [j] on of the value [v]; whether the callback stopped the iteration. *)
Fixpoint used_bits_loop (fuel : nat) (b : run_bitmap) (m : memory_block) (v off j : Z) : M St bool :=
  if negb (j <? RUN_BITS_PER_VALUE) then mret false
  else if rb_nbits b <=? u32 (off + j) then mret false
  else
    match fuel with
    | O => undef
    | S fuel =>
        if negb (BIT_IS_CLR v j) then
          let iter := set_block (u32 (off + j)) 0 m in
          ret ← cb iter;
          if negb (ret =? 0) then mret true
          else
            unit ← look (run_block_size m);
            size ← look (block_get_real_size iter);
            used_bits_loop fuel b m v off (u32 (j + CALC_SIZE_IDX unit size))
        else used_bits_loop fuel b m v off (j + 1)
    end.
Fixpoint iterate_used_loop (n : nat) (b : run_bitmap) (m : memory_block) (i block_start : Z) : M St Z :=
  match n with
  | O => mret 0
  | S n =>
      v ← look (gets (λ x, rd64 x (rb_values b + 8 * i)));
      stop ← used_bits_loop 64 b m v (u32 (RUN_BITS_PER_VALUE * i)) block_start;
      if (stop : bool) then mret 1 else iterate_used_loop n b m (i + 1) 0
  end.
Definition run_iterate_used (m : memory_block) : M St Z :=
  b ← look (run_get_bitmap m);
  let i := block_off m / RUN_BITS_PER_VALUE in
  iterate_used_loop (Z.to_nat (rb_nvalues b - i)) b m i (block_off m mod RUN_BITS_PER_VALUE).

Definition huge_iterate_free (m : memory_block) : M St Z :=
  t ← look (gets (λ x, hdr_type x (heap_get_chunk_hdr m)));
  if t =? CHUNK_TYPE_FREE then cb m else mret 0.
Definition huge_iterate_used (m : memory_block) : M St Z :=
  t ← look (gets (λ x, hdr_type x (heap_get_chunk_hdr m)));
  if t =? CHUNK_TYPE_USED then cb m else mret 0.

Definition mop_iterate_free (m : memory_block) : M St Z :=
  match mb_type m with MEMORY_BLOCK_HUGE => huge_iterate_free m | MEMORY_BLOCK_RUN => run_iterate_free m end.
Definition mop_iterate_used (m : memory_block) : M St Z :=
  match mb_type m with MEMORY_BLOCK_HUGE => huge_iterate_used m | MEMORY_BLOCK_RUN => run_iterate_used m end.
End iterate.

(** The number of turns until [value] is 0. *)
Fixpoint shrink_loop (fuel : nat) (value n : Z) : res Z :=
  if value =? 0 then Ok n
  else
    match fuel with
    | O => Undef
    | S fuel => shrink_loop fuel (value &&& u64 (Z.shiftl value 1)) (u16 (n + 1))
    end.
(** One value of the bitmap, given the units and the largest block found so far. *)
Definition calc_free_value (v : Z) (free_space max_free_block : Z) : res (Z * Z) :=
  let value := u64 (Z.lnot v) in
  if value =? 0 then Ok (free_space, max_free_block)
  else
    let free_in_value := util_popcount64 value in
    let free_space := u32 (free_space + free_in_value) in
    if free_in_value <? max_free_block then Ok (free_space, max_free_block)
    else if free_in_value =? RUN_BITS_PER_VALUE then Ok (free_space, RUN_BITS_PER_VALUE)
    else if max_free_block =? RUN_BITS_PER_VALUE then Ok (free_space, max_free_block)
    else
      match shrink_loop 64 value 0 with
      | Ok n => Ok (free_space, if max_free_block <? n then n else max_free_block)
      | Fail e => Fail e
      | Undef => Undef
      end.
Fixpoint calc_free_loop (n : nat) (x : mem) (values i free_space max_free_block : Z) : res (Z * Z) :=
  match n with
  | O => Ok (free_space, max_free_block)
  | S n =>
      match calc_free_value (rd64 x (values + 8 * i)) free_space max_free_block with
      | Ok (f, mx) => calc_free_loop n x values (i + 1) f mx
      | Fail e => Fail e
      | Undef => Undef
      end
  end.
Definition run_calc_free (m : memory_block) (free_space max_free_block : Z) : MR (Z * Z) :=
  b ← run_get_bitmap m;
  x ← gets id;
  match calc_free_loop (Z.to_nat (rb_nvalues b)) x (rb_values b) 0 free_space max_free_block with
  | Ok r => mret r
  | Fail e => fail e
  | Undef => undef
  end.

(** ** Creation *)

Definition huge_write_footer (hdr size_idx : Z) : M pmem unit :=
  if size_idx =? 1 then mret tt
  else
    flags ← gets (λ p, hdr_flags (pm_mem p) hdr);
    modify (λ p, pm_store p (hdr + 8 * (size_idx - 1)) (hdr_bytes CHUNK_TYPE_FOOTER flags size_idx)).
Definition huge_reinit_chunk (m : memory_block) : M pmem unit :=
  let hdr := heap_get_chunk_hdr m in
  x ← gets pm_mem;
  if hdr_type x hdr =? CHUNK_TYPE_USED then huge_write_footer hdr (hdr_size_idx x hdr) else mret tt.
Definition run_reinit_chunk (m : memory_block) : M pmem unit := mret tt.
Definition mop_reinit_chunk (m : memory_block) : M pmem unit :=
  match mb_type m with MEMORY_BLOCK_HUGE => huge_reinit_chunk m | MEMORY_BLOCK_RUN => run_reinit_chunk m end.

Definition memblock_huge_init (chunk zone size_idx : Z) : M pmem memory_block :=
  let m := block_at chunk zone size_idx in
  let hdr := heap_get_chunk_hdr m in
  modify (λ p, pm_store p hdr (hdr_bytes CHUNK_TYPE_FREE 0 size_idx));;
  modify (λ p, op_persist p_ops p hdr 8 0);;
  huge_write_footer hdr size_idx;;
  look (memblock_rebuild_state m).

(** The headers of the chunks after the first one. *)
Fixpoint run_data_loop (n : nat) (hdr i : Z) : M pmem unit :=
  match n with
  | O => mret tt
  | S n => modify (λ p, pm_store p (hdr + 8 * i) (hdr_bytes CHUNK_TYPE_RUN_DATA 0 i));; run_data_loop n hdr (i + 1)
  end.
(** A bitmap without values is written in front of it, which is undefined. *)
Definition memblock_run_init (chunk zone size_idx flags unit_size alignment : Z) : M pmem memory_block :=
  let m := block_at chunk zone size_idx in
  let run := heap_get_chunk_run m in
  let hdr := heap_get_chunk_hdr m in
  modify (λ p, pm_store p run (le_bytes 8 unit_size));;
  modify (λ p, pm_store p (run + 8) (le_bytes 8 alignment));;
  match memblock_run_bitmap size_idx flags unit_size alignment (run_content run) with
  | Ok (b, size_idx) =>
      if rb_nvalues b =? 0 then undef
      else
        modify (λ p, pm_store p (rb_values b) (repeat 255 (Z.to_nat (rb_size b))));;
        modify (λ p, pm_store p (rb_values b) (zeros (8 * (rb_nvalues b - 1))));;
        let trailing_bits := rb_nbits b mod RUN_BITS_PER_VALUE in
        let last_value := u64 (Z.shiftl (2 ^ 64 - 1) trailing_bits) in
        modify (λ p, pm_store p (rb_values b + 8 * (rb_nvalues b - 1)) (le_bytes 8 last_value));;
        modify (λ p, op_flush p_ops p run (RUN_BASE_METADATA_SIZE + rb_size b) 0);;
        run_data_loop (Z.to_nat (size_idx - 1)) hdr 1;;
        modify (λ p, op_persist p_ops p (hdr + 8) (8 * u32 (size_idx - 1)) 0);;
        x ← gets pm_mem;
        if negb (hdr_type x hdr =? CHUNK_TYPE_FREE) then undef
        else
          modify (λ p, pm_store p hdr (hdr_bytes CHUNK_TYPE_RUN flags (hdr_size_idx x hdr)));;
          modify (λ p, op_persist p_ops p hdr 8 0);;
          look (memblock_rebuild_state m)
  | Fail e => fail e
  | Undef => undef
  end.

(** ** From an address to a block *)

Definition memblock_from_offset_opt (off : Z) (size : bool) : MR memory_block :=
  let off := u64 (off - (layout + sizeof_heap_header)) in
  let zone := u32 (off / ZONE_MAX_SIZE) in
  let off := u64 (off - (ZONE_MAX_SIZE * zone + sizeof_zone)) in
  let chunk := u32 (off / CHUNKSIZE) in
  x ← gets id;
  let hdr := GET_CHUNK_HDR layout zone chunk in
  let chunk := if hdr_type x hdr =? CHUNK_TYPE_RUN_DATA then u32 (chunk - hdr_size_idx x hdr) else chunk in
  let off := u64 (off - CHUNKSIZE * chunk) in
  let m := block_at chunk zone 0 in
  h ← memblock_header_type m;
  let off := u64 (off - header_type_to_size h) in
  let type := if negb (off =? 0) then MEMORY_BLOCK_RUN else MEMORY_BLOCK_HUGE in
  t ← memblock_detect_type m;
  if bool_decide (t = type) then
    let m := set_state h type m in
    unit_size ← mop_block_size m;
    r ← (if negb (off =? 0) then
           if unit_size =? 0 then undef
           else
             o ← run_get_data_offset m;
             let off := u64 (u64 (off - o) - RUN_BASE_METADATA_SIZE) in
             let b := u16 (off / unit_size) in
             mret (set_block b 0 m, u64 (off - u64 (b * unit_size)))
         else mret (m, off));
    n ← (if size then s ← header_get_size h (fst r); mret (CALC_SIZE_IDX unit_size s) else mret 0);
    if snd r =? 0 then mret (set_size_idx n (fst r)) else undef
  else undef.
Definition memblock_from_offset (off : Z) : MR memory_block := memblock_from_offset_opt off true.
End memblock.
