(* ===== verification/MemblockFree.v ===== *)
(** * libpmemobj: the free blocks of a run

    What [run_iterate_free] passes to its callback and what [run_calc_free] counts, against one reference: the
    maximal intervals of clear bits of the values of the bitmap. *)

From stdpp Require Import base gmap list numbers.
From S2P Require Import Prelude Memory Pmem Util Ulog UlogEntry Container ContainerSeglists Bucket Vecq Memops Memblock.
Local Open Scope Z_scope.

(** ** Maximal intervals *)

(** The maximal intervals on which [f] is false among [n] positions from [i] on, as position and length; [o] positions
    just before [i] belong to the first one. *)
Fixpoint gaps (n : nat) (f : Z → bool) (i o : Z) : list (Z * Z) :=
  match n with
  | O => if o =? 0 then [] else [(i - o, o)]
  | S n => if f i then (if o =? 0 then [] else [(i - o, o)]) ++ gaps n f (i + 1) 0 else gaps n f (i + 1) (o + 1)
  end.

Lemma gaps_used n f : ∀ k i, (k ≤ n)%nat → (∀ j, i ≤ j < i + Z.of_nat k → f j = true) →
  gaps n f i 0 = gaps (n - k) f (i + Z.of_nat k) 0.
Proof.
  induction n as [|n IH]; intros k i Hk Hf.
  - assert (k = 0%nat) as -> by lia. by rewrite Z.add_0_r.
  - destruct k as [|k]; [by rewrite Z.add_0_r|]. cbn [gaps]. rewrite (Hf i) by lia. cbn [Z.eqb app].
    rewrite (IH k (i + 1)); [|lia|intros; apply Hf; lia]. cbn [Nat.sub]. f_equal. lia.
Qed.

Lemma gaps_free n f : ∀ k i o, (k ≤ n)%nat → (∀ j, i ≤ j < i + Z.of_nat k → f j = false) →
  gaps n f i o = gaps (n - k) f (i + Z.of_nat k) (o + Z.of_nat k).
Proof.
  induction n as [|n IH]; intros k i o Hk Hf.
  - assert (k = 0%nat) as -> by lia. by rewrite !Z.add_0_r.
  - destruct k as [|k]; [by rewrite !Z.add_0_r|]. cbn [gaps]. rewrite (Hf i) by lia.
    rewrite (IH k (i + 1) (o + 1)); [|lia|intros; apply Hf; lia]. cbn [Nat.sub]. f_equal; lia.
Qed.

(** Closing an interval at a position that is used. *)
Lemma gaps_close n f i o : 0 < o → f i = true → (0 < n)%nat → gaps n f i o = (i - o, o) :: gaps n f i 0.
Proof.
  intros Ho Hf Hn. destruct n as [|n]; [lia|]. cbn [gaps]. rewrite Hf, (proj2 (Z.eqb_neq _ _)) by lia. done.
Qed.

(** An interval of the result lies on free positions and cannot be extended. *)
Definition maximal (n : nat) (f : Z → bool) (i : Z) (g : Z * Z) : Prop :=
  0 < g.2 ∧ i ≤ g.1 ∧ g.1 + g.2 ≤ i + Z.of_nat n ∧ (∀ j, g.1 ≤ j < g.1 + g.2 → f j = false) ∧
  (g.1 = i ∨ f (g.1 - 1) = true) ∧ (g.1 + g.2 = i + Z.of_nat n ∨ f (g.1 + g.2) = true).

Lemma gaps_spec n f : ∀ i o g, 0 ≤ o → (∀ j, i - o ≤ j < i → f j = false) → g ∈ gaps n f i o →
  0 < g.2 ∧ i - o ≤ g.1 ∧ g.1 + g.2 ≤ i + Z.of_nat n ∧ (∀ j, g.1 ≤ j < g.1 + g.2 → f j = false) ∧
  (g.1 = i - o ∨ f (g.1 - 1) = true) ∧ (g.1 + g.2 = i + Z.of_nat n ∨ f (g.1 + g.2) = true).
Proof.
  induction n as [|n IH]; intros i o g Ho Hf; cbn [gaps].
  - destruct (Z.eqb_spec o 0) as [->|]; [by intros ?%elem_of_nil|]. intros ->%list_elem_of_singleton. cbn [fst snd].
    split_and!; [lia..|intros; apply Hf; lia|by left|left; lia].
  - destruct (f i) eqn:Hi.
    + intros [Hg|Hg]%elem_of_app.
      * destruct (Z.eqb_spec o 0) as [->|]; [by apply elem_of_nil in Hg|]. apply list_elem_of_singleton in Hg as ->. cbn [fst snd].
        split_and!; [lia..|intros; apply Hf; lia|by left|right]. by replace (i - o + o) with i by lia.
      * apply IH in Hg as (H1 & H2 & H3 & H4 & H5 & H6); [|lia|intros; lia].
        split_and!; [lia..|done| |destruct H6 as [H6|]; [left; lia|by right]].
        right. destruct H5 as [->|]; [|done]. by replace (i + 1 - 0 - 1) with i by lia.
    + intros Hg. apply IH in Hg as (H1 & H2 & H3 & H4 & H5 & H6); [|lia|].
      * split_and!; [lia..|done| |destruct H6 as [H6|]; [left; lia|by right]]. destruct H5 as [->|]; [left; lia|by right].
      * intros j Hj. destruct (decide (j = i)) as [->|]; [done|]. apply Hf. lia.
Qed.

Lemma gaps_maximal n f i g : g ∈ gaps n f i 0 → maximal n f i g.
Proof.
  intros Hg. apply gaps_spec in Hg as (H1 & H2 & H3 & H4 & H5 & H6); [|lia|intros; lia]. split_and!; try done; [lia|].
  destruct H5 as [H5|]; [left; lia|by right].
Qed.

(** Every free position is in one. *)
Lemma gaps_cover n f : ∀ i o j, 0 ≤ o → i - o ≤ j < i + Z.of_nat n → (i ≤ j → f j = false) →
  ∃ g, g ∈ gaps n f i o ∧ g.1 ≤ j < g.1 + g.2.
Proof.
  induction n as [|n IH]; intros i o j Ho Hj Hf; cbn [gaps].
  - rewrite (proj2 (Z.eqb_neq _ _)) by lia. exists (i - o, o). split; [by left|cbn; lia].
  - destruct (f i) eqn:Hi.
    + destruct (decide (j < i)) as [Hlt|Hge].
      * rewrite (proj2 (Z.eqb_neq _ _)) by lia. exists (i - o, o). split; [by left|cbn; lia].
      * assert (j ≠ i) by (intros ->; rewrite Hf in Hi by lia; done).
        destruct (IH (i + 1) 0 j) as (g & Hg & Hr); [lia|lia|intros; apply Hf; lia|].
        exists g. split; [|done]. apply elem_of_app. by right.
    + apply IH; [lia|lia|]. intros. apply Hf. lia.
Qed.

(** The total length counts the free positions. *)
Definition total (l : list (Z * Z)) : Z := foldr (λ g t, g.2 + t) 0 l.
Definition longest (l : list (Z * Z)) : Z := foldr (λ g t, Z.max g.2 t) 0 l.

Lemma total_app l l' : total (l ++ l') = total l + total l'.
Proof. induction l as [|g l IH]; [done|]. cbn [app total foldr]. unfold total in *. lia. Qed.

Lemma longest_nonneg l : 0 ≤ longest l.
Proof. induction l; unfold longest in *; cbn [foldr]; lia. Qed.

Lemma longest_app l l' : longest (l ++ l') = Z.max (longest l) (longest l').
Proof.
  pose proof (longest_nonneg l'). induction l as [|g l IH]; unfold longest in *; cbn [app foldr]; lia.
Qed.

Lemma longest_ge l g : g ∈ l → g.2 ≤ longest l.
Proof. induction 1; unfold longest in *; cbn [foldr]; lia. Qed.

Lemma longest_in l : 0 < longest l → ∃ g, g ∈ l ∧ g.2 = longest l.
Proof.
  induction l as [|g l IH]; cbn; [lia|]. intros H. destruct (decide (g.2 ≤ longest l)) as [Hle|].
  - unfold longest in *. rewrite Z.max_r in H |- * by done. destruct (IH H) as (g' & Hin & Hg'). exists g'. split; [by right|done].
  - exists g. split; [by left|]. unfold longest in *. lia.
Qed.

Lemma longest_total l : Forall (λ g, 0 < g.2) l → longest l ≤ total l.
Proof.
  induction 1 as [|g l Hg _ IH]; [done|]. pose proof (longest_nonneg l). unfold longest, total in *. cbn [foldr]. lia.
Qed.

(** ** The bits of a value *)

Lemma lnot_bit v j : 0 ≤ j → Z.testbit (u64 (Z.lnot v)) j = (j <? 64) && negb (Z.testbit v j).
Proof.
  intros Hj. unfold u64. destruct (Z.ltb_spec j 64).
  - rewrite Z.mod_pow2_bits_low, Z.lnot_spec by lia. done.
  - by rewrite Z.mod_pow2_bits_high by lia.
Qed.

Lemma lnot_value v : 0 ≤ v < 2 ^ 64 → u64 (Z.lnot v) = 2 ^ 64 - 1 - v.
Proof. intros Hv. unfold u64, Z.lnot. rewrite <-(Z.mod_add _ 1) by lia. rewrite Z.mod_small; lia. Qed.

Lemma shifted_range v s : 0 ≤ v < 2 ^ 64 → 0 ≤ s → 0 ≤ Z.shiftr v s < 2 ^ 64.
Proof.
  intros Hv Hs. rewrite Z.shiftr_div_pow2 by done. split; [apply Z.div_pos; lia|].
  pose proof (Z.div_le_upper_bound v (2 ^ s) v). pose proof (Z.pow_pos_nonneg 2 s). nia.
Qed.

Lemma ctz_zero v : Z.testbit v 0 = true → util_lssb_index64 v = 0.
Proof. intros H. unfold util_lssb_index64. cbn [ctz]. by rewrite H. Qed.

Section bits.
Context (v s : Z) (Hv : 0 ≤ v < 2 ^ 64) (Hs : 0 ≤ s < 64).
Let shifted := Z.shiftr v s.

Lemma shifted_bit j : 0 ≤ j → Z.testbit shifted j = Z.testbit v (s + j).
Proof using Hs. intros. unfold shifted. rewrite Z.shiftr_spec by done. f_equal. lia. Qed.

Lemma next_used : Z.testbit v s = true → shifted ≠ 2 ^ 64 - 1 →
  let off := util_lssb_index64 (u64 (Z.lnot shifted)) in
  util_lssb_index64 shifted = 0 ∧ 1 ≤ off ≤ 64 - s ∧ ∀ j, s ≤ j < s + off → Z.testbit v j = true.
Proof using Hv Hs.
  intros Hb Hne off. pose proof (shifted_range v s Hv ltac:(lia)) as Hr. fold shifted in Hr.
  pose proof (shifted_bit 0 ltac:(lia)) as H0. rewrite Z.add_0_r, Hb in H0.
  destruct (ctz_spec 64 0 (u64 (Z.lnot shifted)) ltac:(lia)) as (H1 & H2 & H3).
  { apply nonzero_bit; [apply u64_range|]. rewrite lnot_value by done. lia. }
  fold (util_lssb_index64 (u64 (Z.lnot shifted))) in H1, H2, H3. fold off in H1, H2, H3.
  rewrite lnot_bit in H2 by lia. apply andb_true_iff in H2 as [_ H2%negb_true_iff].
  assert (∀ j, 0 ≤ j < off → Z.testbit shifted j = true) as Hset.
  { intros j Hj. specialize (H3 j Hj). rewrite lnot_bit in H3 by lia. rewrite (proj2 (Z.ltb_lt _ _)) in H3 by lia.
    by apply negb_false_iff in H3. }
  split; [by apply ctz_zero|]. split.
  - split; [destruct (decide (off = 0)) as [E|]; [|lia]; rewrite E in H2; congruence|].
    destruct (decide (off ≤ 64 - s)) as [|Hgt]; [done|]. specialize (Hset (64 - s) ltac:(lia)).
    rewrite shifted_bit, Zplus_minus, (high_bit_false v 64) in Hset; [done|done|lia|lia].
  - intros j Hj. specialize (Hset (j - s) ltac:(lia)). rewrite shifted_bit in Hset by lia. by rewrite Zplus_minus in Hset.
Qed.

Lemma next_free : Z.testbit v s = false → shifted ≠ 0 →
  let size := util_lssb_index64 shifted in
  util_lssb_index64 (u64 (Z.lnot shifted)) = 0 ∧ 1 ≤ size < 64 - s ∧ (∀ j, s ≤ j < s + size → Z.testbit v j = false) ∧
    Z.testbit v (s + size) = true.
Proof using Hv Hs.
  intros Hb Hne size. pose proof (shifted_range v s Hv ltac:(lia)) as Hr. fold shifted in Hr.
  pose proof (shifted_bit 0 ltac:(lia)) as H0. rewrite Z.add_0_r, Hb in H0.
  destruct (ctz_spec 64 0 shifted ltac:(lia)) as (H1 & H2 & H3); [by apply nonzero_bit|].
  fold (util_lssb_index64 shifted) in H1, H2, H3. fold size in H1, H2, H3.
  assert (Z.testbit v (s + size) = true) as Hend by (rewrite <-shifted_bit by lia; done).
  split; [apply ctz_zero; rewrite lnot_bit by lia; by rewrite H0|]. split_and!; [| | |done].
  - destruct (decide (size = 0)) as [E|]; [rewrite E in H2; congruence|lia].
  - destruct (decide (size < 64 - s)) as [|]; [done|]. rewrite (high_bit_false v 64) in Hend; [done|done|lia].
  - intros j Hj. rewrite <-(Zplus_minus s j), <-shifted_bit by lia. apply H3. lia.
Qed.

Lemma rest_free : shifted = 0 → ∀ j, s ≤ j → Z.testbit v j = false.
Proof using Hs. intros H j Hj. rewrite <-(Zplus_minus s j), <-shifted_bit, H by lia. apply Z.bits_0. Qed.
End bits.

(** ** Calling back *)

Section calls.
Context {St : Type} `{!HasMem St} (cb : memory_block → M St Z).

(** The callback is called on one block after the other until it returns something else than 0. *)
Fixpoint call_all (ms : list memory_block) : M St Z :=
  match ms with
  | [] => mret 0
  | m :: ms => ret ← cb m; if negb (ret =? 0) then mret ret else call_all ms
  end.

Lemma call_all_app ms ms' s :
  call_all (ms ++ ms') s = (ret ← call_all ms; if negb (ret =? 0) then mret ret else call_all ms') s.
Proof.
  revert s. induction ms as [|m ms IH]; intros s; [done|]. cbn [call_all app]. unfold mbind, M_bind.
  destruct (cb m s) as [[ret|e|] s']; [|done|done]. destruct (Z.eqb_spec ret 0) as [->|Hne]; cbn [negb]; [apply IH|].
  cbn. by rewrite (proj2 (Z.eqb_neq _ _)).
Qed.
End calls.

Definition blocks_at (m : memory_block) (base : Z) (l : list (Z * Z)) : list memory_block :=
  (λ g, set_block (base + g.1) g.2 m) <$> l.

(** The free blocks of a value, and of the [n] values of a bitmap from the one at [a] on. *)
Definition value_gaps (v : Z) : list (Z * Z) := gaps 64 (Z.testbit v) 0 0.
Fixpoint free_blocks (x : mem) (m : memory_block) (a : Z) (n : nat) (i : Z) : list memory_block :=
  match n with
  | O => []
  | S n => blocks_at m (RUN_BITS_PER_VALUE * i) (value_gaps (rd64 x (a + 8 * i))) ++ free_blocks x m a n (i + 1)
  end.

Lemma rebuild_set_block layout x m o n : memblock_rebuild_state layout m x = (Ok m, x) →
  memblock_rebuild_state layout (set_block o n m) x = (Ok (set_block o n m), x).
Proof.
  destruct m as [c z sz off h t]. unfold memblock_rebuild_state, memblock_header_type, memblock_detect_type, heap_get_chunk_hdr,
    set_block, set_state. cbn. unfold mbind, M_bind, gets, mret, M_ret, undef. cbn. repeat case_match; intros; simplify_eq; done.
Qed.

Section iterate.
Context {St : Type} `{!HasMem St} (cb : memory_block → M St Z) (layout : Z) (m : memory_block).
(** The callback does not change the memory. *)
Context (cb_mem : ∀ b s, mem_of (cb b s).2 = mem_of s).

Definition rebuilt (s : St) : Prop := memblock_rebuild_state layout m (mem_of s) = (Ok m, mem_of s).

Lemma value_loop_spec v base : 0 ≤ v < 2 ^ 64 → 0 ≤ base → base + 64 ≤ 2 ^ 32 → ∀ fuel shift s, 0 ≤ shift < 64 →
  64 - shift < Z.of_nat fuel → rebuilt s → ∀ blk, (∀ o n, set_block o n blk = set_block o n m) →
  process_value_loop layout cb fuel blk v base shift s =
    call_all cb (blocks_at m base (gaps (Z.to_nat (64 - shift)) (Z.testbit v) shift 0)) s.
Proof using cb_mem.
  intros Hv Hb0 Hb. induction fuel as [|fuel IH]; intros shift s Hs Hf Hr blk Hblk; [lia|]. cbn [process_value_loop]. rewrite !Hblk.
  destruct (Z.eqb_spec (Z.shiftr v shift) 0) as [E0|E0].
  { rewrite (gaps_free _ _ (Z.to_nat (64 - shift)) shift 0); [|lia|intros; apply (rest_free v shift); [lia|done|lia]].
    rewrite Nat.sub_diag. cbn [gaps]. rewrite (proj2 (Z.eqb_neq _ _)) by lia. cbn [blocks_at fmap list_fmap fst snd call_all].
    unfold u32, RUN_BITS_PER_VALUE. rewrite !Z.mod_small by lia. do 3 f_equal; lia. }
  destruct (Z.eqb_spec (Z.shiftr v shift) (2 ^ 64 - 1)) as [E1|E1].
  { rewrite (gaps_used _ _ (Z.to_nat (64 - shift)) shift); [by rewrite Nat.sub_diag|lia|]. intros j Hj.
    rewrite <-(Zplus_minus shift j), <-(shifted_bit v shift) by lia. rewrite E1. change (2 ^ 64 - 1) with (Z.ones 64).
    apply Z.ones_spec_low. lia. }
  destruct (Z.testbit v shift) eqn:Ebit.
  - destruct (next_used v shift Hv Hs Ebit E1) as (Hz & Ho & Hset). rewrite Hz, Z.add_0_r. cbn [Z.eqb negb].
    set (off := util_lssb_index64 (u64 (Z.lnot (Z.shiftr v shift)))) in *. clearbody off.
    rewrite (gaps_used _ _ (Z.to_nat off) shift); [|lia|intros; apply Hset; lia].
    replace (Z.to_nat (64 - shift) - Z.to_nat off)%nat with (Z.to_nat (64 - (shift + off))) by lia.
    rewrite Z2Nat.id by lia. destruct (Z.eqb_spec (shift + off) RUN_BITS_PER_VALUE) as [E|E]; unfold RUN_BITS_PER_VALUE in E.
    + rewrite E. done.
    + apply IH; [lia|lia|done|done].
  - destruct (next_free v shift Hv Hs Ebit E0) as (Hz & Ho & Hclr & Hend). rewrite Hz. cbn [Z.add].
    set (size := util_lssb_index64 (Z.shiftr v shift)) in *. clearbody size.
    rewrite (proj2 (Z.eqb_neq size 0)) by lia. cbn [negb].
    rewrite (gaps_free _ _ (Z.to_nat size) shift 0); [|lia|intros; apply Hclr; lia]. rewrite Z2Nat.id, Z.add_0_l by lia.
    rewrite gaps_close by (done || lia). cbn [blocks_at fmap list_fmap fst snd call_all].
    unfold u32. rewrite Z.mod_small by lia.
    erewrite bind_ok by (unfold look; rewrite rebuild_set_block by exact Hr; reflexivity).
    replace (shift + size - size) with shift by lia. unfold mbind, M_bind.
    pose proof (cb_mem (set_block (base + shift) size m) s) as Hm.
    destruct (cb (set_block (base + shift) size m) s) as [[ret|e|] s']; [|done|done]. cbn in Hm.
    destruct (Z.eqb_spec ret 0) as [->|]; [|done]. cbn [negb].
    rewrite (proj2 (Z.eqb_neq (shift + size) RUN_BITS_PER_VALUE)) by (unfold RUN_BITS_PER_VALUE; lia).
    replace (Z.to_nat (64 - shift) - Z.to_nat size)%nat with (Z.to_nat (64 - (shift + size))) by lia.
    apply IH; [lia|lia|unfold rebuilt; by rewrite Hm|done].
Qed.

Lemma call_all_mem ms s : mem_of (call_all cb ms s).2 = mem_of s.
Proof using cb_mem.
  revert s. induction ms as [|b ms IH]; intros s; [done|]. cbn [call_all]. unfold mbind, M_bind.
  pose proof (cb_mem b s) as Hm. destruct (cb b s) as [[ret|e|] s']; [|done|done]. cbn in Hm.
  destruct (Z.eqb_spec ret 0); [|done]. cbn [negb]. by rewrite IH.
Qed.

Lemma iterate_free_loop_spec b n : ∀ i s, rebuilt s → 0 ≤ i → 64 * (i + Z.of_nat n) ≤ 2 ^ 32 →
  iterate_free_loop layout cb n b m i s = call_all cb (free_blocks (mem_of s) m (rb_values b) n i) s.
Proof using cb_mem.
  induction n as [|n IH]; intros i s Hr Hi Hn; [done|]. cbn [iterate_free_loop free_blocks].
  erewrite bind_ok by reflexivity. cbn [fst gets]. unfold RUN_BITS_PER_VALUE at 1. rewrite (proj2 (Z.leb_le _ _)) by lia. cbn [negb].
  set (v := rd64 (mem_of s) (rb_values b + 8 * i)). rewrite call_all_app. unfold run_process_bitmap_value, mbind, M_bind.
  rewrite (value_loop_spec v (RUN_BITS_PER_VALUE * i)) by (done || apply rd64_range || (unfold RUN_BITS_PER_VALUE; lia)).
  unfold value_gaps. change (Z.to_nat (64 - 0)) with 64%nat. generalize (blocks_at m (RUN_BITS_PER_VALUE * i) (gaps 64 (Z.testbit v) 0 0)).
  intros ms. pose proof (call_all_mem ms s) as Hm.
  destruct (call_all cb ms s) as [[ret|e|] s']; [|done|done]. cbn in Hm.
  destruct (Z.eqb_spec ret 0); [|done]. cbn [negb]. rewrite <-Hm. apply IH; [|lia|lia]. unfold rebuilt. by rewrite Hm.
Qed.

Lemma run_iterate_free_spec b s : rebuilt s → run_get_bitmap layout m (mem_of s) = (Ok b, mem_of s) →
  0 ≤ rb_nvalues b ≤ 2 ^ 26 →
  run_iterate_free layout cb m s = call_all cb (free_blocks (mem_of s) m (rb_values b) (Z.to_nat (rb_nvalues b)) 0) s.
Proof using cb_mem.
  intros Hr Hb Hn. unfold run_iterate_free. erewrite bind_ok by (unfold look; rewrite Hb; reflexivity).
  apply iterate_free_loop_spec; [done|lia|lia].
Qed.
End iterate.

(** ** Counting *)

Lemma popcount_gaps n v : ∀ i o, 0 ≤ i → i + Z.of_nat n ≤ 64 →
  popcount n i (u64 (Z.lnot v)) + o = total (gaps n (Z.testbit v) i o).
Proof.
  induction n as [|n IH]; intros i o Hi Hn; cbn [popcount gaps].
  - destruct (Z.eqb_spec o 0) as [->|]; [done|]. unfold total. cbn [foldr snd]. lia.
  - rewrite lnot_bit, (proj2 (Z.ltb_lt _ _)) by lia. cbn [andb]. destruct (Z.testbit v i); cbn [negb].
    + rewrite total_app, <-(IH (i + 1) 0) by lia. destruct (Z.eqb_spec o 0) as [->|]; unfold total; cbn [foldr snd]; lia.
    + rewrite <-(IH (i + 1) (o + 1)) by lia. lia.
Qed.

Lemma popcount_total v : util_popcount64 (u64 (Z.lnot v)) = total (value_gaps v).
Proof. unfold util_popcount64, value_gaps. rewrite <-popcount_gaps by lia. lia. Qed.

Lemma popcount_le n : ∀ i w, popcount n i w ≤ Z.of_nat n.
Proof. induction n as [|n IH]; intros i w; cbn [popcount]; [lia|]. specialize (IH (i + 1) w). case_match; lia. Qed.

Lemma popcount_all n : ∀ i w, popcount n i w = Z.of_nat n → ∀ j, i ≤ j < i + Z.of_nat n → Z.testbit w j = true.
Proof.
  induction n as [|n IH]; intros i w Hp j Hj; [lia|]. cbn [popcount] in Hp. pose proof (popcount_le n (i + 1) w).
  destruct (Z.testbit w i) eqn:E; [|lia]. destruct (decide (j = i)) as [->|]; [done|]. apply (IH (i + 1)); lia.
Qed.

Lemma popcount_full v : util_popcount64 (u64 (Z.lnot v)) = 64 → ∀ j, 0 ≤ j < 64 → Z.testbit v j = false.
Proof.
  intros Hp j Hj. pose proof (popcount_all 64 0 _ Hp j ltac:(lia)) as Hb. rewrite lnot_bit in Hb by lia.
  apply andb_true_iff in Hb as [_ Hb]. by apply negb_true_iff.
Qed.

Lemma value_gaps_maximal v g : g ∈ value_gaps v → maximal 64 (Z.testbit v) 0 g.
Proof. unfold value_gaps. apply gaps_maximal. Qed.

Lemma value_gaps_cover v j : 0 ≤ j < 64 → Z.testbit v j = false → ∃ g, g ∈ value_gaps v ∧ g.1 ≤ j < g.1 + g.2.
Proof. intros Hj Hb. unfold value_gaps. apply gaps_cover; [lia|lia|done]. Qed.

#[global] Opaque value_gaps.

(** The value after [k] turns: a bit is set when it and the [k] bits below it were. *)
Fixpoint shrunk (k : nat) (value : Z) : Z :=
  match k with
  | O => value
  | S k => let w := shrunk k value in w &&& u64 (Z.shiftl w 1)
  end.

Lemma shrunk_range k value : 0 ≤ value < 2 ^ 64 → 0 ≤ shrunk k value < 2 ^ 64.
Proof.
  intros Hv. induction k as [|k IH]; [done|]. cbn [shrunk]. set (w := shrunk k value) in *.
  assert (w &&& u64 (Z.shiftl w 1) = (w &&& u64 (Z.shiftl w 1)) mod 2 ^ 64) as ->; [|apply Z.mod_pos_bound; lia].
  rewrite <-Z.land_ones, <-Z.land_assoc, (Z.land_ones (u64 _)), (Z.mod_small (u64 _)) by (apply u64_range || lia). done.
Qed.

Lemma shrunk_bit k value j : 0 ≤ value < 2 ^ 64 → j < 64 →
  Z.testbit (shrunk k value) j = true ↔ ∀ t, 0 ≤ t ≤ Z.of_nat k → Z.testbit value (j - t) = true.
Proof.
  intros Hv. revert j. induction k as [|k IH]; intros j Hj.
  - split; [|intros H; specialize (H 0 ltac:(lia)); by rewrite Z.sub_0_r in H].
    intros H t Ht. assert (t = 0) as -> by lia. by rewrite Z.sub_0_r.
  - cbn [shrunk]. destruct (decide (j < 0)) as [Hneg|].
    { rewrite Z.testbit_neg_r by done. split; [done|]. intros H. specialize (H 0 ltac:(lia)). by rewrite Z.testbit_neg_r in H by lia. }
    rewrite Z.land_spec, andb_true_iff. unfold u64. rewrite Z.mod_pow2_bits_low, shiftl_bit by lia.
    rewrite (IH j), (IH (j - 1)) by lia. split.
    + intros [H1 H2] t Ht. destruct (decide (t = 0)) as [->|]; [apply H1; lia|].
      specialize (H2 (t - 1) ltac:(lia)). by replace (j - 1 - (t - 1)) with (j - t) in H2 by lia.
    + intros H. split; [intros; apply H; lia|]. intros t Ht. specialize (H (t + 1) ltac:(lia)).
      by replace (j - (t + 1)) with (j - 1 - t) in H by lia.
Qed.

Lemma shrunk_zero k v : 0 ≤ v < 2 ^ 64 → shrunk k (u64 (Z.lnot v)) = 0 ↔ longest (value_gaps v) ≤ Z.of_nat k.
Proof.
  intros Hv. pose proof (u64_range (Z.lnot v)) as Hw. split.
  - intros H0. destruct (decide (longest (value_gaps v) ≤ Z.of_nat k)) as [|Hgt]; [done|exfalso].
    destruct (longest_in (value_gaps v)) as (g & Hg & HL); [lia|].
    destruct (value_gaps_maximal _ _ Hg) as (H1 & H2 & H3 & H4 & _).
    assert (Z.testbit (shrunk k (u64 (Z.lnot v))) (g.1 + Z.of_nat k) = true) as Hb; [|by rewrite H0, Z.bits_0 in Hb].
    apply shrunk_bit; [done|lia|]. intros t Ht. rewrite lnot_bit by lia. rewrite (H4 (g.1 + Z.of_nat k - t)) by lia.
    by rewrite (proj2 (Z.ltb_lt _ _)) by lia.
  - intros HL. destruct (decide (shrunk k (u64 (Z.lnot v)) = 0)) as [|Hne]; [done|exfalso].
    destruct (nonzero_bit _ (shrunk_range k _ Hw) Hne) as (j & Hj & Hb). rewrite shrunk_bit in Hb by (done || lia).
    assert (∀ t, 0 ≤ t ≤ Z.of_nat k → 0 ≤ j - t ∧ Z.testbit v (j - t) = false) as Hclr.
    { intros t Ht. specialize (Hb t Ht). destruct (decide (j - t < 0)); [by rewrite Z.testbit_neg_r in Hb by done|].
      split; [lia|]. rewrite lnot_bit in Hb by lia. apply andb_true_iff in Hb as [_ Hb]. by apply negb_true_iff. }
    destruct (Hclr (Z.of_nat k)) as [Hk Hkb]; [lia|].
    destruct (value_gaps_cover v (j - Z.of_nat k)) as (g & Hg & Hin); [lia|done|].
    pose proof (longest_ge _ _ Hg). destruct (value_gaps_maximal _ _ Hg) as (_ & _ & _ & _ & _ & Hend). destruct Hend as [Hend|Hend]; [lia|].
    destruct (Hclr (j - (g.1 + g.2))) as [_ Hb']; [lia|]. replace (j - (j - (g.1 + g.2))) with (g.1 + g.2) in Hb' by lia. congruence.
Qed.

Lemma total_range v : 0 ≤ longest (value_gaps v) ≤ total (value_gaps v) ∧ total (value_gaps v) ≤ 64.
Proof.
  split_and!; [apply longest_nonneg|apply longest_total|].
  - apply Forall_forall. intros g Hg%list_elem_of_In. apply (value_gaps_maximal _ _ Hg).
  - rewrite <-popcount_total. apply (popcount_le 64).
Qed.

Lemma shrink_loop_spec v fuel : ∀ k, 0 ≤ v < 2 ^ 64 → Z.of_nat k ≤ longest (value_gaps v) ≤ Z.of_nat (k + fuel) →
  shrink_loop fuel (shrunk k (u64 (Z.lnot v))) (Z.of_nat k) = Ok (longest (value_gaps v)).
Proof.
  induction fuel as [|fuel IH]; intros k Hv Hk; cbn [shrink_loop].
  - rewrite (proj2 (shrunk_zero k v Hv)) by lia. cbn. f_equal. lia.
  - destruct (Z.eqb_spec (shrunk k (u64 (Z.lnot v))) 0) as [E|E].
    + apply shrunk_zero in E; [|done]. f_equal. lia.
    + rewrite shrunk_zero in E by done. pose proof (total_range v). specialize (IH (S k) Hv ltac:(lia)).
      cbn [shrunk] in IH. rewrite <-IH. f_equal. unfold u16. rewrite Z.mod_small; lia.
Qed.

Lemma calc_free_value_spec v f mx : 0 ≤ v < 2 ^ 64 → 0 ≤ f → f + total (value_gaps v) < 2 ^ 32 → 0 ≤ mx ≤ 64 →
  calc_free_value v f mx = Ok (f + total (value_gaps v), Z.max mx (longest (value_gaps v))).
Proof.
  intros Hv Hf Ht Hm. pose proof (total_range v) as [HL HT]. unfold calc_free_value.
  rewrite popcount_total. unfold u32. rewrite Z.mod_small by lia.
  destruct (Z.eqb_spec (u64 (Z.lnot v)) 0) as [E|E].
  { assert (total (value_gaps v) = 0) as E0 by (rewrite <-popcount_total, E; reflexivity). do 2 f_equal; lia. }
  destruct (Z.ltb_spec (total (value_gaps v)) mx); [do 2 f_equal; lia|].
  destruct (Z.eqb_spec (total (value_gaps v)) RUN_BITS_PER_VALUE) as [E1|E1]; unfold RUN_BITS_PER_VALUE in *.
  { assert (longest (value_gaps v) = 64) as ->; [|do 2 f_equal; lia].
    destruct (decide (longest (value_gaps v) = 64)) as [|Hne]; [done|exfalso].
    assert (∀ j, 0 ≤ j < 64 → Z.testbit v j = false) as Hall.
    { apply popcount_full. by rewrite popcount_total. }
    destruct (value_gaps_cover v 0) as (g & Hg & Hin); [lia|apply Hall; lia|].
    destruct (value_gaps_maximal _ _ Hg) as (_ & H2 & H3 & _ & _ & H6). pose proof (longest_ge _ _ Hg).
    destruct H6 as [H6|H6]; [lia|]. destruct (decide (g.1 + g.2 < 64)); [|lia]. rewrite Hall in H6; [done|lia]. }
  destruct (Z.eqb_spec mx 64); [do 2 f_equal; lia|].
  pose proof (shrink_loop_spec v 64 0 Hv ltac:(lia)) as Hs. cbn [shrunk] in Hs. change (Z.of_nat 0) with 0 in Hs. rewrite Hs.
  destruct (Z.ltb_spec mx (longest (value_gaps v))); do 2 f_equal; lia.
Qed.

(** ** All values of a bitmap *)

Definition sum_sizes (ms : list memory_block) : Z := foldr (λ m t, size_idx m + t) 0 ms.
Definition max_size (ms : list memory_block) : Z := foldr (λ m t, Z.max (size_idx m) t) 0 ms.

Lemma sum_sizes_app ms ms' : sum_sizes (ms ++ ms') = sum_sizes ms + sum_sizes ms'.
Proof. unfold sum_sizes. induction ms as [|m ms IH]; cbn [app foldr]; lia. Qed.
Lemma max_size_nonneg ms : 0 ≤ max_size ms.
Proof. unfold max_size. induction ms as [|m ms IH]; cbn [foldr]; lia. Qed.
Lemma max_size_app ms ms' : max_size (ms ++ ms') = Z.max (max_size ms) (max_size ms').
Proof. pose proof (max_size_nonneg ms'). unfold max_size in *. induction ms as [|m ms IH]; cbn [app foldr]; lia. Qed.
Lemma sum_blocks_at m base l : sum_sizes (blocks_at m base l) = total l.
Proof. unfold sum_sizes, total, blocks_at. induction l as [|g l IH]; [done|]. cbn [fmap list_fmap foldr set_block size_idx]. by f_equal. Qed.
Lemma max_blocks_at m base l : max_size (blocks_at m base l) = longest l.
Proof. unfold max_size, longest, blocks_at. induction l as [|g l IH]; [done|]. cbn [fmap list_fmap foldr set_block size_idx]. by f_equal. Qed.

Lemma calc_free_loop_spec x m a n : ∀ i f mx, 0 ≤ f → f + 64 * Z.of_nat n < 2 ^ 32 → 0 ≤ mx ≤ 64 →
  calc_free_loop n x a i f mx = Ok (f + sum_sizes (free_blocks x m a n i), Z.max mx (max_size (free_blocks x m a n i))).
Proof.
  induction n as [|n IH]; intros i f mx Hf Hn Hm; cbn [calc_free_loop free_blocks].
  { cbn. do 2 f_equal; lia. }
  pose proof (total_range (rd64 x (a + 8 * i))) as [HL HT].
  rewrite calc_free_value_spec by (apply rd64_range || lia). rewrite IH by lia.
  rewrite sum_sizes_app, max_size_app, sum_blocks_at, max_blocks_at. do 2 f_equal; lia.
Qed.

(** Bit [k] of the bitmap at [a]. *)
Definition bitmap_bit (x : mem) (a k : Z) : bool := Z.testbit (rd64 x (a + 8 * (k / 64))) (k mod 64).

Lemma elem_of_blocks_at b m base l : b ∈ blocks_at m base l ↔ ∃ g, g ∈ l ∧ b = set_block (base + g.1) g.2 m.
Proof. unfold blocks_at. rewrite list_elem_of_fmap. naive_solver. Qed.

Lemma free_blocks_in x m a n : ∀ i b, 0 ≤ i → b ∈ free_blocks x m a n i →
  ∃ j g, i ≤ j < i + Z.of_nat n ∧ g ∈ value_gaps (rd64 x (a + 8 * j)) ∧ b = set_block (64 * j + g.1) g.2 m.
Proof.
  induction n as [|n IH]; intros i b Hi; cbn [free_blocks]; [by intros ?%elem_of_nil|].
  intros [(g & Hg & ->)%elem_of_blocks_at|Hb]%elem_of_app.
  - exists i, g. split_and!; [lia|lia|done|done].
  - destruct (IH (i + 1) b) as (j & g & ? & ? & ?); [lia|done|]. exists j, g. split_and!; [lia|lia|done|done].
Qed.

Lemma free_blocks_elem x m a n : ∀ i j g, i ≤ j < i + Z.of_nat n → g ∈ value_gaps (rd64 x (a + 8 * j)) →
  set_block (64 * j + g.1) g.2 m ∈ free_blocks x m a n i.
Proof.
  induction n as [|n IH]; intros i j g Hj Hg; cbn [free_blocks]; [lia|]. apply elem_of_app.
  destruct (decide (j = i)) as [->|]; [left|right; apply IH; [lia|done]]. apply elem_of_blocks_at. by exists g.
Qed.

(** The blocks are the clear bits, within values. *)
Lemma free_blocks_bits x m a n k : 0 ≤ k < 64 * Z.of_nat n →
  bitmap_bit x a k = false ↔ ∃ b, b ∈ free_blocks x m a n 0 ∧ block_off b ≤ k < block_off b + size_idx b.
Proof.
  intros Hk. pose proof (Z.div_mod k 64 ltac:(lia)) as Hd. pose proof (Z.mod_pos_bound k 64 ltac:(lia)) as Hm.
  unfold bitmap_bit. split.
  - intros Hb. destruct (value_gaps_cover _ _ Hm Hb) as (g & Hg & Hin).
    exists (set_block (64 * (k / 64) + g.1) g.2 m). split; [|cbn; lia]. apply free_blocks_elem; [|done].
    split; [apply Z.div_pos; lia|]. apply Z.div_lt_upper_bound; lia.
  - intros (b & Hb & Hin). apply free_blocks_in in Hb as (j & g & Hj & Hg & ->); [|lia]. cbn in Hin.
    destruct (value_gaps_maximal _ _ Hg) as (_ & H2 & H3 & H4 & _).
    assert (k / 64 = j) as -> by (symmetry; apply (Z.div_unique k 64 j (k - 64 * j)); lia).
    apply H4. rewrite Z.mod_eq by lia. rewrite (Z.div_unique k 64 j (k - 64 * j)) in * by lia. lia.
Qed.

Lemma free_blocks_size x m a n b : b ∈ free_blocks x m a n 0 →
  1 ≤ size_idx b ≤ 64 ∧ block_off b mod 64 + size_idx b ≤ 64 ∧ chunk_id b = chunk_id m ∧ zone_id b = zone_id m.
Proof.
  intros (j & g & Hj & Hg & ->)%free_blocks_in; [|lia]. destruct (value_gaps_maximal _ _ Hg) as (H1 & H2 & H3 & _). cbn.
  replace (64 * j + g.1) with (g.1 + j * 64) by lia. rewrite Z.mod_add by lia. rewrite Z.mod_small by lia. split_and!; lia.
Qed.
