(* ===== verification/MemblockRun.v ===== *)
(** * libpmemobj: the layout of a run

    [memblock_run_bitmap] divides the chunks of a run into a bitmap and units: the bitmap has a bit for every unit, both fit,
    and the first unit starts at a cache line.  [memblock_run_init] leaves exactly the units free, except when their number
    is a multiple of 64. *)

From stdpp Require Import base gmap list numbers.
From S2P Require Import Prelude Memory Pmem Util Ulog UlogSpec UlogEntry Container ContainerSeglists Bucket Vecq Memops Memblock MemblockFree.
Local Open Scope Z_scope.

(** The bytes of a run of [n] chunks after its header. *)
Definition content_bytes (n : Z) : Z := CHUNKSIZE * n - RUN_BASE_METADATA_SIZE.
(** The units that are given up for the alignment. *)
Definition spare (alignment : Z) : Z := if alignment =? 0 then 0 else 1.

Record run_geometry (b : run_bitmap) (chunks unit_size alignment : Z) : Prop := {
  rg_nbits : 1 ≤ rb_nbits b < 2 ^ 32;
  rg_nvalues : 64 * (rb_nvalues b - 1) < rb_nbits b ≤ 64 * rb_nvalues b;
  rg_size : 8 * rb_nvalues b ≤ rb_size b;
  rg_fits : rb_size b + (rb_nbits b + spare alignment) * unit_size ≤ content_bytes chunks;
  rg_line : (RUN_BASE_METADATA_SIZE + rb_size b) mod CACHELINE_SIZE = 0
}.

Lemma content_size_eq n : 1 ≤ n < 2 ^ 32 → RUN_CONTENT_SIZE_BYTES n = content_bytes n.
Proof.
  intros Hn. unfold RUN_CONTENT_SIZE_BYTES, content_bytes, RUN_CONTENT_SIZE, RUN_BASE_METADATA_SIZE, CHUNKSIZE, u32, u64.
  rewrite (Z.mod_small (n - 1)) by lia. rewrite Z.mod_small; lia.
Qed.

Lemma align_up_8U_spec x : 0 ≤ x < 2 ^ 31 → x ≤ align_up_8U x < x + 8 ∧ align_up_8U x mod 8 = 0.
Proof.
  intros Hx. unfold align_up_8U, u32. rewrite (Z.mod_small (x + 8 - 1)) by lia.
  change (Z.lnot 7 mod 2 ^ 32) with (2 ^ 32 - 2 ^ 3).
  assert ((x + 8 - 1) &&& (2 ^ 32 - 2 ^ 3) = (x + 7) / 8 * 8) as ->.
  { replace (x + 8 - 1) with (x + 7) by lia. set (y := x + 7).
    change (2 ^ 32 - 2 ^ 3) with (Z.shiftl (Z.ones 29) 3). change 8 with (2 ^ 3).
    rewrite <-Z.shiftr_div_pow2, <-Z.shiftl_mul_pow2 by lia. apply Z.bits_inj'. intros i Hi.
    rewrite Z.land_spec. destruct (decide (i < 3)).
    - rewrite !Z.shiftl_spec_low by lia. apply andb_false_r.
    - rewrite !Z.shiftl_spec_high, Z.shiftr_spec by lia. replace (i - 3 + 3) with i by lia.
      destruct (decide (i < 32)); [rewrite Z.ones_spec_low by lia; apply andb_true_r|].
      rewrite (high_bit_false y 32 i) by (unfold y; lia). done. }
  split; [|apply Z_mod_mult]. pose proof (Z.div_mod (x + 7) 8 ltac:(lia)). pose proof (Z.mod_pos_bound (x + 7) 8 ltac:(lia)). lia.
Qed.

Lemma div_ceil_64 x : 0 ≤ x < 2 ^ 32 → 64 * util_div_ceil x 64 - 64 < x ≤ 64 * util_div_ceil x 64.
Proof.
  intros Hx. unfold util_div_ceil, u32, u64. rewrite (Z.mod_small (x + 64)), (Z.mod_small (x + 64 - 1)) by lia.
  pose proof (Z.div_mod (x + 64 - 1) 64 ltac:(lia)). pose proof (Z.mod_pos_bound (x + 64 - 1) 64 ltac:(lia)).
  rewrite Z.mod_small by lia. lia.
Qed.

(** The number of values that are needed for [nbits]. *)
Lemma used_values nvalues nbits : 0 ≤ nbits ≤ 64 * nvalues → nvalues < 2 ^ 26 →
  let n := u32 (nvalues - u32 (u32 (nvalues * 64) - nbits) / 64) in 64 * (n - 1) < nbits ≤ 64 * n ∧ n ≤ nvalues.
Proof.
  intros Hb Hn. unfold u32. rewrite (Z.mod_small (nvalues * 64)), (Z.mod_small (nvalues * 64 - nbits)) by lia.
  pose proof (Z.div_mod (nvalues * 64 - nbits) 64 ltac:(lia)). pose proof (Z.mod_pos_bound (nvalues * 64 - nbits) 64 ltac:(lia)).
  rewrite Z.mod_small by lia. lia.
Qed.

(** Flexible bitmaps. *)
Lemma flex_geometry n flags unit_size alignment content : 1 ≤ n ≤ MAX_CHUNK → 16 ≤ unit_size ≤ 65536 * n →
  has_flag flags CHUNK_FLAG_FLEX_BITMAP = true →
  ∃ b, memblock_run_bitmap n flags unit_size alignment content = Ok (b, n) ∧ rb_values b = content ∧
    run_geometry b n unit_size alignment.
Proof.
  intros Hn Hu Hf. unfold MAX_CHUNK in Hn. unfold memblock_run_bitmap. rewrite !(proj2 (Z.eqb_neq _ 0)) by lia. rewrite Hf.
  rewrite content_size_eq by lia. set (C := content_bytes n).
  assert (C = 262144 * n - 16) as HC by (unfold C, content_bytes, RUN_BASE_METADATA_SIZE, CHUNKSIZE; lia). clearbody C.
  assert (0 ≤ C / unit_size ≤ C / 16) as Hq.
  { split; [apply Z.div_pos; lia|]. apply Z.div_le_compat_l; lia. }
  assert (C / 16 < 2 ^ 31) by (apply Z.div_lt_upper_bound; lia).
  assert (16 * (C / 16) ≤ C) by (apply Z.mul_div_le; lia).
  cbv zeta. unfold RUN_BITS_PER_VALUE. rewrite (u32_id (C / unit_size)) by lia.
  pose proof (div_ceil_64 (C / unit_size) ltac:(lia)) as Hv0. set (nv0 := util_div_ceil (C / unit_size) 64) in *. clearbody nv0.
  change RUN_BASE_METADATA_VALUES with 2. rewrite (u32_id (nv0 + 2)) by lia.
  destruct (align_up_8U_spec (nv0 + 2)) as [Hal Hal8]; [lia|]. set (al := align_up_8U (nv0 + 2)) in *. clearbody al.
  rewrite (u32_id (al - 2)) by lia. set (nv := al - 2) in *. assert (nv0 ≤ nv < nv0 + 8) as Hnv by lia.
  rewrite (u64_id (C - nv * 8)) by lia.
  assert (2 ≤ (C - nv * 8) / unit_size) as Hlow.
  { apply Z.div_le_lower_bound; [lia|]. destruct (decide (n = 1)) as [->|]; nia. }
  assert ((C - nv * 8) / unit_size ≤ C / unit_size) as Hhigh by (apply Z.div_le_mono; lia).
  rewrite (u32_id ((C - nv * 8) / unit_size)) by lia. fold (spare alignment).
  set (nb := (C - nv * 8) / unit_size - spare alignment).
  assert (nb + spare alignment = (C - nv * 8) / unit_size ∧ 0 ≤ spare alignment ≤ 1) as [Enb Hsp]
    by (unfold nb, spare; case_match; lia). clearbody nb.
  rewrite (u32_id nb) by lia. destruct (used_values nv nb) as [Hn1 Hn2]; [lia|lia|].
  eexists. split; [reflexivity|]. split; [done|]. split; cbn [rb_nvalues rb_nbits rb_size]; [lia|done|lia| |].
  - pose proof (Z.mul_div_le (C - nv * 8) unit_size ltac:(lia)). rewrite Enb. unfold content_bytes, RUN_BASE_METADATA_SIZE, CHUNKSIZE. lia.
  - unfold RUN_BASE_METADATA_SIZE, CACHELINE_SIZE. apply Z.mod_divide; [lia|]. apply Z.mod_divide in Hal8 as [q Eq]; [|lia].
    exists q. lia.
Qed.

(** The default bitmap of 38 values. *)
Lemma default_size_eq n : 1 ≤ n < 2 ^ 32 → RUN_DEFAULT_SIZE_BYTES n = content_bytes n - 304.
Proof.
  intros Hn. unfold RUN_DEFAULT_SIZE_BYTES, content_bytes, RUN_DEFAULT_SIZE, RUN_BASE_METADATA_SIZE, CHUNKSIZE, u32, u64.
  change RUN_DEFAULT_BITMAP_SIZE with 304. rewrite (Z.mod_small (n - 1)) by lia. rewrite Z.mod_small; lia.
Qed.

Lemma default_units n unit_size : 1 ≤ n ≤ MAX_CHUNK → 16 ≤ unit_size →
  let q := u32 (RUN_DEFAULT_SIZE_BYTES n / unit_size) in q * unit_size ≤ content_bytes n - 304 ∧ 0 ≤ q ∧
    (unit_size ≤ 65536 → 3 ≤ q).
Proof.
  intros Hn Hu. unfold MAX_CHUNK in Hn. rewrite default_size_eq by lia. set (C := content_bytes n - 304).
  assert (C = 262144 * n - 320) as HC by (unfold C, content_bytes, RUN_BASE_METADATA_SIZE, CHUNKSIZE; lia). clearbody C.
  assert (0 ≤ C / unit_size < 2 ^ 32) by (split; [apply Z.div_pos; lia|apply Z.div_lt_upper_bound; lia]).
  rewrite u32_id by done. pose proof (Z.mul_div_le C unit_size ltac:(lia)). split_and!; [lia|lia|].
  intros. apply Z.div_le_lower_bound; lia.
Qed.

(** The loop ends with at most 2432 units that fit into the remaining chunks. *)
Lemma default_loop unit_size : 16 ≤ unit_size ≤ 65536 → ∀ fuel n nallocs, 1 ≤ n ≤ MAX_CHUNK → n < Z.of_nat fuel →
  2 ≤ nallocs → nallocs * unit_size ≤ content_bytes n - 304 →
  ∃ k n', default_nallocs_loop fuel n unit_size nallocs = Ok (k, n') ∧ 1 ≤ n' ≤ n ∧ 2 ≤ k ≤ 2432 ∧
    k * unit_size ≤ content_bytes n' - 304 ∧ (nallocs ≤ 2432 → n' = n ∧ k = nallocs).
Proof.
  intros Hu. induction fuel as [|fuel IH]; intros n nallocs Hn Hf Hal Hfit; [lia|]. cbn [default_nallocs_loop].
  change RUN_DEFAULT_BITMAP_NBITS with 2432. destruct (Z.ltb_spec 2432 nallocs).
  - destruct (Z.ltb_spec 1 n).
    + destruct (default_units (n - 1) unit_size) as (H1 & H2 & H3); [lia|lia|].
      destruct (IH (n - 1) (u32 (RUN_DEFAULT_SIZE_BYTES (n - 1) / unit_size))) as (k & n' & E & ? & ? & ? & _); [lia|lia|lia|done|].
      exists k, n'. split_and!; [done|lia..].
    + exists 2432, n. assert (n = 1) as -> by lia. destruct fuel as [|fuel]; [lia|].
      split_and!; [done|lia|lia|lia|lia|nia|lia].
  - exists nallocs, n. split_and!; [done|lia..].
Qed.

Lemma default_geometry n flags unit_size alignment content : 1 ≤ n ≤ MAX_CHUNK → 16 ≤ unit_size ≤ 65536 →
  has_flag flags CHUNK_FLAG_FLEX_BITMAP = false →
  ∃ b n', memblock_run_bitmap n flags unit_size alignment content = Ok (b, n') ∧ 1 ≤ n' ≤ n ∧ rb_values b = content ∧
    run_geometry b n' unit_size alignment.
Proof.
  intros Hn Hu Hf. unfold memblock_run_bitmap. rewrite !(proj2 (Z.eqb_neq _ 0)) by lia. rewrite Hf.
  unfold memblock_run_default_nallocs. destruct (default_units n unit_size) as (H1 & H2 & H3); [done|lia|]. specialize (H3 ltac:(lia)).
  destruct (default_loop unit_size Hu (Z.to_nat n + 1)%nat n (u32 (RUN_DEFAULT_SIZE_BYTES n / unit_size)))
    as (k & n' & -> & Hn' & Hk & Hfit & _); [done|lia|lia|done|].
  change RUN_DEFAULT_BITMAP_NBITS with 2432. change RUN_DEFAULT_BITMAP_VALUES with 38. change RUN_DEFAULT_BITMAP_SIZE with 304.
  unfold RUN_BITS_PER_VALUE. fold (spare alignment). set (nb := k - spare alignment).
  assert (nb + spare alignment = k ∧ 0 ≤ spare alignment ≤ 1) as [Enb Hsp] by (unfold nb, spare; case_match; lia). clearbody nb.
  rewrite (u32_id nb) by lia. destruct (used_values 38 nb) as [Hn1 Hn2]; [lia|lia|]. change (u32 (38 * 64)) with 2432 in Hn1, Hn2.
  eexists _, n'. split; [reflexivity|]. split; [done|]. split; [done|]. split; cbn [rb_nvalues rb_nbits rb_size]; [lia|done|lia| |done].
  rewrite Enb. lia.
Qed.

(** ** Chunk headers in memory *)

Record hdr_is (x : mem) (a t f n : Z) : Prop := {
  hi_type : hdr_type x a = t;
  hi_flags : hdr_flags x a = f;
  hi_size : hdr_size_idx x a = n
}.

Lemma hdr_is_ext x x' a t f n : (∀ c, a ≤ c < a + 8 → rd x' c = rd x c) → hdr_is x a t f n → hdr_is x' a t f n.
Proof.
  intros He [<- <- <-]. split; unfold hdr_type, hdr_flags, hdr_size_idx, rd16, rd32; f_equal; apply rdn_ext; intros; apply He; lia.
Qed.

Lemma length_hdr_bytes t f n : length (hdr_bytes t f n) = 8%nat.
Proof. done. Qed.

Lemma hdr_bytes_bytes t f n : Forall is_byte (hdr_bytes t f n).
Proof. unfold hdr_bytes. rewrite !Forall_app. auto with pmdk. Qed.

Lemma hdr_is_wr x a t f n : 0 ≤ t < 2 ^ 16 → 0 ≤ f < 2 ^ 16 → 0 ≤ n < 2 ^ 32 → hdr_is (wr x a (hdr_bytes t f n)) a t f n.
Proof.
  intros Ht Hf Hn. split; unfold hdr_type, hdr_flags, hdr_size_idx, rd16, rd32;
    rewrite rdn_wr_sub by (apply hdr_bytes_bytes || rewrite ?length_hdr_bytes; lia).
  - rewrite Z.sub_diag. change (take 2 (drop (Z.to_nat 0) (hdr_bytes t f n))) with (le_bytes 2 t).
    rewrite le_of_le_bytes. by apply Z.mod_small.
  - replace (a + 2 - a) with 2 by lia. change (take 2 (drop (Z.to_nat 2) (hdr_bytes t f n))) with (le_bytes 2 f).
    rewrite le_of_le_bytes. by apply Z.mod_small.
  - replace (a + 4 - a) with 4 by lia. change (take 4 (drop (Z.to_nat 4) (hdr_bytes t f n))) with (le_bytes 4 n).
    rewrite le_of_le_bytes. by apply Z.mod_small.
Qed.

Lemma hdr_is_out x a bs a' t f n : a' + 8 ≤ a ∨ a + len bs ≤ a' → hdr_is x a' t f n → hdr_is (wr x a bs) a' t f n.
Proof. intros Ha. apply hdr_is_ext. intros. apply rd_wr_out. lia. Qed.

(** The value that an operation stores is the header. *)
Lemma hdr_value_bytes t f n : le_bytes 8 (chunk_get_chunk_hdr_value t f n) = hdr_bytes t f n.
Proof. unfold chunk_get_chunk_hdr_value. apply (le_bytes_le_of (hdr_bytes t f n)), hdr_bytes_bytes. Qed.

Lemma hdr_type_range x a : 0 ≤ hdr_type x a < 2 ^ 16.
Proof. unfold hdr_type, rd16. pose proof (le_of_range (rdn x a 2)) as H. by rewrite length_rdn in H. Qed.
Lemma hdr_flags_range x a : 0 ≤ hdr_flags x a < 2 ^ 16.
Proof. unfold hdr_flags, rd16. pose proof (le_of_range (rdn x (a + 2) 2)) as H. by rewrite length_rdn in H. Qed.
Lemma hdr_size_range x a : 0 ≤ hdr_size_idx x a < 2 ^ 32.
Proof. apply rd32_range. Qed.

Section ops.
Context (o : pmem_ops) `{!OpsSpec o}.

Lemma persist_mem p a n f : pm_mem (op_persist o p a n f) = pm_mem p.
Proof using Type*. by destruct (ops_persist p a n f) as (es & -> & _). Qed.
Lemma flush_mem p a n f : pm_mem (op_flush o p a n f) = pm_mem p.
Proof using Type*. by destruct (ops_flush p a n f) as (es & -> & _). Qed.
End ops.

(** The state of a block is read off the header of its chunk. *)
Definition flags_header (f : Z) : header_type :=
  if has_flag f CHUNK_FLAG_COMPACT_HEADER then HEADER_COMPACT
  else if has_flag f CHUNK_FLAG_HEADER_NONE then HEADER_NONE else HEADER_LEGACY.

Lemma rebuild_run layout m x t f n : hdr_is x (heap_get_chunk_hdr layout m) t f n → t = CHUNK_TYPE_RUN ∨ t = CHUNK_TYPE_RUN_DATA →
  memblock_rebuild_state layout m x = (Ok (set_state (flags_header f) MEMORY_BLOCK_RUN m), x).
Proof.
  intros [H1 H2 _] Ht. unfold memblock_rebuild_state, memblock_header_type, memblock_detect_type, mbind, M_bind, gets, mret, M_ret.
  rewrite H1, H2. by destruct Ht as [-> | ->].
Qed.

Lemma rebuild_huge layout m x t f n : hdr_is x (heap_get_chunk_hdr layout m) t f n →
  t = CHUNK_TYPE_FREE ∨ t = CHUNK_TYPE_USED ∨ t = CHUNK_TYPE_FOOTER →
  memblock_rebuild_state layout m x = (Ok (set_state (flags_header f) MEMORY_BLOCK_HUGE m), x).
Proof.
  intros [H1 H2 _] Ht. unfold memblock_rebuild_state, memblock_header_type, memblock_detect_type, mbind, M_bind, gets, mret, M_ret.
  rewrite H1, H2. by destruct Ht as [-> |[-> | ->]].
Qed.

Lemma take_drop_repeat {A} (y : A) k : ∀ j n, (j + k ≤ n)%nat → take k (drop j (repeat y n)) = repeat y k.
Proof.
  induction j as [|j IH]; intros n Hn.
  - rewrite drop_0. revert n Hn. induction k as [|k IHk]; intros [|n] Hn; cbn; [done|done|lia|]. f_equal. apply IHk. lia.
  - destruct n as [|n]; [lia|]. apply IH. lia.
Qed.

(** ** [memblock_run_init] *)

Fixpoint data_hdrs (n : nat) (hdr i : Z) (x : mem) : mem :=
  match n with
  | O => x
  | S n => data_hdrs n hdr (i + 1) (wr x (hdr + 8 * i) (hdr_bytes CHUNK_TYPE_RUN_DATA 0 i))
  end.

Lemma data_hdrs_out n hdr : ∀ i x a, ¬ (hdr + 8 * i ≤ a < hdr + 8 * (i + Z.of_nat n)) → rd (data_hdrs n hdr i x) a = rd x a.
Proof.
  induction n as [|n IH]; intros i x a Ha; [done|]. cbn [data_hdrs]. rewrite IH by lia.
  apply rd_wr_out. rewrite length_hdr_bytes. lia.
Qed.

Lemma data_hdrs_is n hdr : ∀ i x j, 0 ≤ i → i ≤ j < i + Z.of_nat n → i + Z.of_nat n < 2 ^ 32 →
  hdr_is (data_hdrs n hdr i x) (hdr + 8 * j) CHUNK_TYPE_RUN_DATA 0 j.
Proof.
  induction n as [|n IH]; intros i x j Hi Hj Hn; [lia|]. cbn [data_hdrs].
  destruct (decide (j = i)) as [->|]; [|apply IH; lia].
  eapply hdr_is_ext; [intros c Hc; apply data_hdrs_out; lia|]. apply hdr_is_wr; unfold CHUNK_TYPE_RUN_DATA; lia.
Qed.

Lemma run_data_loop_run n hdr : ∀ i p, ∃ p', run_data_loop n hdr i p = (Ok tt, p') ∧ pm_mem p' = data_hdrs n hdr i (pm_mem p).
Proof.
  induction n as [|n IH]; intros i p; [by exists p|]. cbn [run_data_loop data_hdrs]. erewrite bind_ok by reflexivity.
  destruct (IH (i + 1) (pm_store p (hdr + 8 * i) (hdr_bytes CHUNK_TYPE_RUN_DATA 0 i))) as (p' & E & Hm). by exists p'.
Qed.

Definition last_value (b : run_bitmap) : Z := u64 (Z.shiftl (2 ^ 64 - 1) (rb_nbits b mod 64)).
Definition bitmap_init (b : run_bitmap) (x : mem) : mem :=
  wr (wr (wr x (rb_values b) (repeat 255 (Z.to_nat (rb_size b)))) (rb_values b) (zeros (8 * (rb_nvalues b - 1))))
    (rb_values b + 8 * (rb_nvalues b - 1)) (le_bytes 8 (last_value b)).
Definition run_hdr_init (run unit_size alignment : Z) (x : mem) : mem := wr64 (wr64 x run unit_size) (run + 8) alignment.

Lemma bitmap_init_word b c u al x j : run_geometry b c u al → 0 ≤ j < rb_nvalues b →
  rd64 (bitmap_init b x) (rb_values b + 8 * j) = if decide (j = rb_nvalues b - 1) then last_value b else 0.
Proof.
  intros [G1 G2 G3 _ _] Hj. unfold bitmap_init. case_decide as E.
  - subst j. rewrite <-(u64_id (last_value b)) at 2 by apply u64_range. apply rd64_wr64.
  - rewrite rd64_wr_out by (rewrite length_le_bytes; lia). apply rd64_wr_sub; [auto with pmdk|lia|rewrite length_zeros; lia|lia|].
    unfold zeros. by rewrite take_drop_repeat by lia.
Qed.

Lemma last_value_bit b i : 0 ≤ i < 64 → Z.testbit (last_value b) i = (rb_nbits b mod 64 <=? i).
Proof.
  intros Hi. unfold last_value, u64. pose proof (Z.mod_pos_bound (rb_nbits b) 64 ltac:(lia)).
  rewrite Z.mod_pow2_bits_low, shiftl_bit by lia. change (2 ^ 64 - 1) with (Z.ones 64). destruct (Z.leb_spec (rb_nbits b mod 64) i).
  - by rewrite Z.ones_spec_low by lia.
  - by rewrite Z.testbit_neg_r by lia.
Qed.

(** The units that are free after the initialisation. *)
Definition free_units (b : run_bitmap) : Z := if rb_nbits b mod 64 =? 0 then rb_nbits b - 64 else rb_nbits b.

Section init.
Context (o : pmem_ops) `{!OpsSpec o} (layout chunk zone n flags unit_size alignment : Z) (b : run_bitmap) (n' : Z).
Let m := block_at chunk zone n.
Let hdr := heap_get_chunk_hdr layout m.
Let run := heap_get_chunk_run layout m.
Context (Hb : memblock_run_bitmap n flags unit_size alignment (run_content run) = Ok (b, n')).
Context (Hg : run_geometry b n' unit_size alignment) (Hv : rb_values b = run_content run).
Context (Hc : 0 ≤ chunk) (Hn : 1 ≤ n' ≤ n) (Hcn : chunk + n ≤ MAX_CHUNK) (Hu : 16 ≤ unit_size < 2 ^ 64) (Ha : 0 ≤ alignment < 2 ^ 64).
Context (Hfl : 0 ≤ flags < 2 ^ 16).

Definition run_mem (x : mem) : mem :=
  data_hdrs (Z.to_nat (n' - 1)) hdr 1 (bitmap_init b (run_hdr_init run unit_size alignment x)).

(** The headers of the zone are in front of its chunks, and a run stays in its chunks. *)
Lemma hdr_before_run : hdr + 8 * n ≤ run ∧ 0 ≤ rb_size b ≤ content_bytes n'.
Proof using Ha Hc Hcn Hg Hn Hu.
  destruct Hg as [H1 H2 H3 H4 _]. split.
  - unfold hdr, run, heap_get_chunk_hdr, heap_get_chunk_run, GET_CHUNK_RUN, GET_CHUNK_HDR, GET_CHUNK, sizeof_zone, m, block_at, CHUNKSIZE,
      MAX_CHUNK in *. cbn. lia.
  - unfold spare in H4. split; [lia|]. case_match; nia.
Qed.

(** What is written before the header of the first chunk is apart from it. *)
Lemma run_mem_out x a : a < hdr + 8 ∨ run + RUN_BASE_METADATA_SIZE + rb_size b ≤ a ∨ hdr + 8 * n' ≤ a < run →
  rd (run_mem x) a = rd x a.
Proof using Ha Hc Hcn Hg Hn Hu Hv.
  intros Hout. destruct hdr_before_run as [H1 H2]. destruct Hg as [G1 G2 G3 _ _]. unfold RUN_BASE_METADATA_SIZE in Hout.
  assert (rb_values b = run + 16) as Hv' by (rewrite Hv; done).
  unfold run_mem. rewrite data_hdrs_out by lia. unfold bitmap_init, run_hdr_init, wr64.
  rewrite !rd_wr_out; [done|rewrite ?length_le_bytes, ?length_zeros, ?repeat_length by lia; lia..].
Qed.

Lemma run_init_run p f0 n0 : hdr_is (pm_mem p) hdr CHUNK_TYPE_FREE f0 n0 → 0 ≤ n0 < 2 ^ 32 →
  ∃ p', memblock_run_init o layout chunk zone n flags unit_size alignment p =
      (Ok (set_state (flags_header flags) MEMORY_BLOCK_RUN m), p') ∧
    pm_mem p' = wr (run_mem (pm_mem p)) hdr (hdr_bytes CHUNK_TYPE_RUN flags n0).
Proof using Type*.
  intros Hfree Hn0. unfold memblock_run_init. fold m run hdr. do 2 (erewrite bind_ok by reflexivity). rewrite Hb.
  rewrite (proj2 (Z.eqb_neq _ 0)) by (destruct Hg; lia). do 4 (erewrite bind_ok by reflexivity).
  match goal with |- context [run_data_loop ?k ?h ?i;; _] => set (k0 := k) end.
  match goal with |- context [(_ ≫= _) ?q] => set (q0 := q) end.
  assert (pm_mem q0 = bitmap_init b (run_hdr_init run unit_size alignment (pm_mem p))) as Hq0.
  { unfold q0. rewrite flush_mem by done. done. }
  destruct (run_data_loop_run k0 hdr 1 q0) as (q1 & E1 & Hq1). erewrite bind_ok by exact E1. erewrite bind_ok by reflexivity.
  erewrite bind_ok by reflexivity.
  assert (pm_mem q1 = run_mem (pm_mem p)) as Hq by (rewrite Hq1, Hq0; done).
  rewrite persist_mem, Hq by done.
  destruct (hdr_is_ext (pm_mem p) (run_mem (pm_mem p)) hdr CHUNK_TYPE_FREE f0 n0) as [T1 T2 T3]; [|done|].
  { intros a Ha'. apply run_mem_out. lia. }
  rewrite T1, T3. cbn [negb Z.eqb CHUNK_TYPE_FREE Pos.eqb]. do 2 (erewrite bind_ok by reflexivity).
  match goal with |- context [look _ ?q] => set (q2 := q) end.
  assert (pm_mem q2 = wr (run_mem (pm_mem p)) hdr (hdr_bytes CHUNK_TYPE_RUN flags n0)) as Hq2.
  { unfold q2. rewrite persist_mem by done. cbn. by rewrite persist_mem, Hq by done. }
  exists q2. split; [|done]. unfold look. change (mem_of q2) with (pm_mem q2). erewrite rebuild_run; [reflexivity| |by left].
  rewrite Hq2. apply hdr_is_wr; unfold CHUNK_TYPE_RUN; lia.
Qed.

Lemma init_bits x k : 0 ≤ k < 64 * rb_nvalues b →
  bitmap_bit (wr (run_mem x) hdr (hdr_bytes CHUNK_TYPE_RUN flags n)) (rb_values b) k = (free_units b <=? k).
Proof using Ha Hc Hcn Hg Hn Hu Hv.
  intros Hk. destruct hdr_before_run as [H1 H2]. pose proof Hg as [G1 G2 G3 _ _].
  assert (rb_values b = run + 16) as Hv' by (rewrite Hv; done).
  pose proof (Z.div_mod k 64 ltac:(lia)) as Hd. pose proof (Z.mod_pos_bound k 64 ltac:(lia)) as Hm.
  assert (0 ≤ k / 64 < rb_nvalues b) as Hj by (split; [apply Z.div_pos; lia|apply Z.div_lt_upper_bound; lia]).
  unfold bitmap_bit. rewrite rd64_wr_out by (rewrite length_hdr_bytes; lia).
  assert (rd64 (run_mem x) (rb_values b + 8 * (k / 64)) =
    rd64 (bitmap_init b (run_hdr_init run unit_size alignment x)) (rb_values b + 8 * (k / 64))) as ->.
  { apply rd64_ext. intros a Ha'. unfold run_mem. apply data_hdrs_out. lia. }
  rewrite (bitmap_init_word _ _ _ _ _ _ Hg) by done. unfold free_units.
  pose proof (Z.div_mod (rb_nbits b) 64 ltac:(lia)) as Hd'. pose proof (Z.mod_pos_bound (rb_nbits b) 64 ltac:(lia)) as Hm'.
  case_decide as E.
  - rewrite last_value_bit by done. destruct (Z.eqb_spec (rb_nbits b mod 64) 0) as [E0|E0];
      apply Bool.eq_iff_eq_true; rewrite !Z.leb_le; lia.
  - rewrite Z.bits_0. symmetry. apply Z.leb_gt. case_match; lia.
Qed.

Lemma init_bitmap x : n' = n → n < 2 ^ 32 →
  let y := wr (run_mem x) hdr (hdr_bytes CHUNK_TYPE_RUN flags n) in run_get_bitmap layout m y = (Ok b, y).
Proof using Type*.
  intros E Hn32 y. destruct hdr_before_run as [H1 H2]. pose proof Hg as [G1 G2 G3 _ _].
  assert (rb_values b = run + 16) as Hv' by (rewrite Hv; done).
  assert (hdr_is y hdr CHUNK_TYPE_RUN flags n) as [T1 T2 T3] by (apply hdr_is_wr; unfold CHUNK_TYPE_RUN; lia).
  assert (∀ a, run ≤ a < run + 16 → rd y a = rd (run_hdr_init run unit_size alignment x) a) as Hrd.
  { intros a Ha'. unfold y. rewrite rd_wr_out by (rewrite length_hdr_bytes; lia). unfold run_mem. rewrite data_hdrs_out by lia.
    unfold bitmap_init. rewrite !rd_wr_out; [done|rewrite ?length_le_bytes, ?length_zeros, ?repeat_length by lia; lia..]. }
  unfold run_get_bitmap. fold hdr run. erewrite bind_ok by reflexivity. cbn [id]. rewrite T2, T3.
  assert (run_f_block_size y run = unit_size) as ->.
  { unfold run_f_block_size. rewrite (rd64_ext _ (run_hdr_init run unit_size alignment x)) by (intros a Ha'; apply Hrd; lia).
    unfold run_hdr_init. unfold wr64 at 1. rewrite rd64_wr_out by (rewrite length_le_bytes; lia). rewrite rd64_wr64. apply u64_id; lia. }
  assert (run_f_alignment y run = alignment) as ->.
  { unfold run_f_alignment. rewrite (rd64_ext _ (run_hdr_init run unit_size alignment x)) by (intros a Ha'; apply Hrd; lia).
    unfold run_hdr_init. rewrite rd64_wr64. by apply u64_id. }
  rewrite Hb, E, Z.eqb_refl. done.
Qed.
End init.
