(* ===== verification/MemblockAlloc.v ===== *)
(** * libpmemobj: allocating and freeing units of runs

    [run_prep_operation_hdr] adds the change of a bitmap to an operation; with [operation_finish] all the changes of an
    operation are made, and after a power failure all or none of them.  A bit ends as the last request that covers it
    says. *)

From stdpp Require Import base gmap list numbers.
From S2P Require Import Prelude Memory Pmem Util Ulog UlogSpec UlogEntry UlogTheorems Vecq Container ContainerSeglists Bucket Memops.
From S2P Require Import MemopsMerge MemopsRedo MemopsCrash MemopsTheorems Memblock MemblockFree MemblockRun.
Local Open Scope Z_scope.

Local Abbreviation smem s := (pm_mem (me_pm (ms_env s))).
Local Abbreviation plog s := (oc_pshadow_ops (ms_ctx s)).

(** What an operation of the allocator is asked to do: change the state of a block of a run, or store a word (the
    pointer to the new object, for one). *)
Inductive alloc_request : Type :=
| RBlock (m : memory_block) (st : memblock_state)
| RSet (ptr val : Z).

Definition block_mask (m : memory_block) : Z :=
  if size_idx m =? RUN_BITS_PER_VALUE then 2 ^ 64 - 1
  else u64 (Z.shiftl (Z.shiftl 1 (size_idx m) - 1) (block_off m mod RUN_BITS_PER_VALUE)).

Lemma block_mask_bit m j : 0 ≤ size_idx m → 0 ≤ j < 64 → block_off m mod 64 + size_idx m ≤ 64 →
  Z.testbit (block_mask m) j = (block_off m mod 64 <=? j) && (j <? block_off m mod 64 + size_idx m).
Proof.
  intros Hs Hj Hfit. pose proof (Z.mod_pos_bound (block_off m) 64 ltac:(lia)) as Hm. unfold block_mask, RUN_BITS_PER_VALUE.
  set (bit := block_off m mod 64) in *. destruct (Z.eqb_spec (size_idx m) 64) as [E|E].
  - change (2 ^ 64 - 1) with (Z.ones 64). rewrite Z.ones_spec_low by lia. symmetry. apply andb_true_iff. lia.
  - unfold u64. rewrite Z.mod_pow2_bits_low, shiftl_bit by lia. rewrite Z.shiftl_1_l.
    replace (2 ^ size_idx m - 1) with (Z.ones (size_idx m)) by (rewrite Z.ones_equiv; lia).
    destruct (Z.leb_spec bit j); [|by rewrite Z.testbit_neg_r by lia]. rewrite Z.testbit_ones by lia. lia.
Qed.

Lemma block_mask_range m : 0 ≤ block_mask m < 2 ^ 64.
Proof. unfold block_mask. case_match; [lia|apply u64_range]. Qed.

Lemma shiftl_61 k : 0 ≤ k ≤ 2 → Z.shiftl k 61 = (if k =? 0 then ULOG_OPERATION_SET else if k =? 1 then ULOG_OPERATION_AND else ULOG_OPERATION_OR).
Proof. intros Hk. assert (k = 0 ∨ k = 1 ∨ k = 2) as [->|[->| ->]] by lia; done. Qed.

Section requests.
Context (layout : Z) (pop : pool_layout).

Definition bitmap_at (x : mem) (m : memory_block) (b : run_bitmap) : Prop := run_get_bitmap layout m x = (Ok b, x).

(** The change of a word that a request stands for. *)
Definition request_vent (x : mem) (r : alloc_request) : vent :=
  match r with
  | RBlock m st =>
      let a := match (run_get_bitmap layout m x).1 with Ok b => rb_values b | _ => 0 end in
      if decide (st = MEMBLOCK_ALLOCATED) then VEnt (a + 8 * (block_off m / 64)) (block_mask m) 2
      else VEnt (a + 8 * (block_off m / 64)) (u64 (Z.lnot (block_mask m))) 1
  | RSet ptr val => VEnt ptr val 0
  end.

Definition prep_request (r : alloc_request) : M mstate unit :=
  match r with
  | RBlock m st => mop_prep_hdr layout pop m st
  | RSet ptr val => ignore (operation_add_entry pop ptr val ULOG_OPERATION_SET)
  end.
Fixpoint prep_all (rs : list alloc_request) : M mstate unit :=
  match rs with
  | [] => mret tt
  | r :: rs => prep_request r;; prep_all rs
  end.

(** A block is one of a run, it is in one value of the bitmap. *)
Record block_ok (x : mem) (m : memory_block) : Prop := {
  bo_run : mb_type m = MEMORY_BLOCK_RUN;
  bo_bitmap : ∃ b, bitmap_at x m b ∧ block_off m + size_idx m ≤ 64 * rb_nvalues b;
  bo_size : 1 ≤ size_idx m ≤ 64;
  bo_off : 0 ≤ block_off m;
  bo_value : block_off m mod 64 + size_idx m ≤ 64
}.
Definition request_ok (x : mem) (r : alloc_request) : Prop :=
  vent_ok (request_vent x r) ∧ OBJ_OFF_IS_VALID pop (ve_ptr (request_vent x r)) = true ∧
  match r with RBlock m st => block_ok x m ∧ st ≠ MEMBLOCK_STATE_UNKNOWN | RSet _ _ => True end.

(** The headers of a run, from which its bitmap is computed. *)
Definition run_headers (m : memory_block) (a : Z) : Prop :=
  heap_get_chunk_hdr layout m ≤ a < heap_get_chunk_hdr layout m + 8 ∨
  heap_get_chunk_run layout m ≤ a < heap_get_chunk_run layout m + 16.

Lemma bitmap_ext x x' m b : (∀ a, run_headers m a → rd x' a = rd x a) → bitmap_at x m b → bitmap_at x' m b.
Proof.
  intros He. unfold bitmap_at, run_get_bitmap. set (hdr := heap_get_chunk_hdr layout m) in *. set (run := heap_get_chunk_run layout m) in *.
  assert (hdr_is x' hdr (hdr_type x hdr) (hdr_flags x hdr) (hdr_size_idx x hdr)) as [_ E1 E2].
  { apply (hdr_is_ext x); [|done]. intros a Ha. apply He. by left. }
  assert (run_f_block_size x' run = run_f_block_size x run) as E3 by (apply rd64_ext; intros a Ha; apply He; right; fold run; lia).
  assert (run_f_alignment x' run = run_f_alignment x run) as E4 by (apply rd64_ext; intros a Ha; apply He; right; fold run; lia).
  unfold mbind, M_bind, gets, mret, M_ret, fail, undef. cbn [id]. rewrite E1, E2, E3, E4.
  repeat case_match; intros; simplify_eq; done.
Qed.

(** A request is the addition of its entry, whose result is not looked at. *)
Lemma prep_request_run r s : request_ok (smem s) r →
  prep_request r s = ignore (operation_add_typed_entry (ve_ptr (request_vent (smem s) r)) (ve_val (request_vent (smem s) r))
    (Z.shiftl (ve_k (request_vent (smem s) r)) 61) LOG_PERSISTENT) s.
Proof.
  intros (Hv & Hpool & Hm). destruct r as [m st|ptr val].
  2: { cbn in *. unfold ignore, operation_add_entry. rewrite u64_id by (destruct Hv as [? _ _ _]; cbn in *; lia). by rewrite Hpool. }
  destruct Hm as [[Ht (b & Hb & Hfit) Hs Ho Hval] Hst].
  assert ((run_get_bitmap layout m (smem s)).1 = Ok b) as Eb by (by rewrite Hb).
  unfold prep_request, mop_prep_hdr, run_prep_operation_hdr. rewrite Ht. unfold RUN_BITS_PER_VALUE. rewrite (proj2 (Z.leb_le _ _)) by lia. cbn [negb].
  replace ((size_idx m =? 64) && negb (block_off m mod 64 =? 0)) with false.
  2: { symmetry. pose proof (Z.mod_pos_bound (block_off m) 64 ltac:(lia)). destruct (Z.eqb_spec (size_idx m) 64); [|done].
       by rewrite (proj2 (Z.eqb_eq _ _)) by lia. }
  cbv zeta. unfold request_vent in *. rewrite Eb in *. fold (block_mask m).
  erewrite bind_ok by (unfold look; change (mem_of s) with (smem s); by rewrite Hb).
  unfold ignore, operation_add_entry. destruct st; [done|rewrite decide_True in * by done|rewrite decide_False in * by done]; destruct Hv as [Hp _ _ _]; cbn [ve_ptr ve_val ve_k] in *;
    rewrite (u64_id (_ + 8 * _)), Hpool by lia; done.
Qed.

(** Adding entries does not move a bitmap. *)
Lemma request_vent_ext x x' r : request_ok x r →
  match r with RBlock m _ => ∀ a, run_headers m a → rd x' a = rd x a | RSet _ _ => True end →
  request_vent x' r = request_vent x r ∧ request_ok x' r.
Proof.
  intros (Hv & Hpool & Hm) He. assert (request_vent x' r = request_vent x r) as E.
  { destruct r as [m st|ptr val]; [|done]. destruct Hm as [[_ (b & Hb & _) _ _ _] _]. pose proof (bitmap_ext x x' m b He Hb) as Hb'.
    unfold request_vent. unfold bitmap_at in *. by rewrite Hb, Hb'. }
  split; [done|]. unfold request_ok. rewrite E. split_and!; [done|done|].
  destruct r as [m st|ptr val]; [|done]. destruct Hm as [[? (b & Hb & ?) ? ? ?] ?]. split; [|done].
  split; [done| |done..]. exists b. split; [by eapply bitmap_ext|done].
Qed.

(** With room in the shadow log no entry is dropped. *)
Lemma prep_all_run D rs : ∀ s es t, shadow_inv s es t → Forall (request_ok (smem s)) rs → alloc_ok D s → D ≤ ol_ulog (plog s) →
  Z.of_nat (length es + length rs) < 2 ^ 59 → 16 * Z.of_nat (length es + length rs) + 64 ≤ ol_capacity (plog s) →
  (∀ m st a, RBlock m st ∈ rs → run_headers m a → a < D) →
  prep_all rs s = add_all (request_vent (smem s) <$> rs) s.
Proof.
  induction rs as [|r rs IH]; intros s es t Hi Hr Ha HD Hn Hroom Hh; [done|]. cbn [prep_all fmap list_fmap add_all length] in *.
  apply Forall_cons_1 in Hr as [Hr Hrs]. pose proof (prep_request_run r s Hr) as E0.
  destruct (add_entry_ok D s es t (request_vent (smem s) r) Hi (proj1 Hr) Ha HD ltac:(lia)) as (res & s1 & E1 & Hs1 & H1).
  unfold mbind, M_bind. rewrite E0. unfold ignore. rewrite E1. destruct H1 as [(-> & es1 & t1 & Hi1 & Hl1 & _ & _)|(_ & _ & Hfull)].
  2: { exfalso. rewrite (sh_offset _ _ _ Hi) in Hfull. lia. }
  pose proof (ss_capacity _ _ _ Hs1) as Hcap.
  assert (∀ r', r' ∈ rs → request_ok (smem s) r' ∧
    match r' with RBlock m _ => ∀ a, run_headers m a → rd (smem s1) a = rd (smem s) a | RSet _ _ => True end) as Hext.
  { intros r' Hr'. split; [by apply (proj1 (Forall_forall _ _) Hrs), list_elem_of_In|]. destruct r' as [m st|]; [|done]. intros a Hma.
    apply (ss_pool _ _ _ Hs1). apply (Hh m st); [by right|done]. }
  rewrite (IH s1 es1 t1); [|done| |by eapply step_alloc|by apply (ss_ulog _ _ _ Hs1)|lia|lia|].
  - assert (request_vent (smem s1) <$> rs = request_vent (smem s) <$> rs) as ->; [|done].
    apply list_fmap_ext. intros i r' Hr'%list_elem_of_lookup_2. destruct (Hext r' Hr'). by apply request_vent_ext.
  - apply Forall_forall. intros r' Hr'%list_elem_of_In. destruct (Hext r' Hr'). by apply (request_vent_ext (smem s)).
  - intros m st a Hm. apply (Hh m st). by right.
Qed.

(** ** The effect on a bitmap *)

(** What a request says about the unit [k] of the run of [m0] ... *)
Definition request_unit (m0 : memory_block) (k : Z) (r : alloc_request) : option bool :=
  match r with
  | RBlock m st =>
      if decide ((chunk_id m = chunk_id m0 ∧ zone_id m = zone_id m0) ∧ block_off m ≤ k < block_off m + size_idx m)
      then Some (bool_decide (st = MEMBLOCK_ALLOCATED)) else None
  | RSet _ _ => None
  end.
(** ... and the last of [rs] that says something. *)
Fixpoint unit_change (m0 : memory_block) (k : Z) (rs : list alloc_request) : option bool :=
  match rs with
  | [] => None
  | r :: rs => match unit_change m0 k rs with Some b => Some b | None => request_unit m0 k r end
  end.

(** The requests change the bitmap of [m0] only through blocks of its run. *)
Definition only_blocks (x : mem) (m0 : memory_block) (b : run_bitmap) (r : alloc_request) : Prop :=
  match r with RBlock m _ => chunk_id m = chunk_id m0 ∧ zone_id m = zone_id m0 | RSet _ _ => False end ∨
  ve_ptr (request_vent x r) + 8 ≤ rb_values b ∨ rb_values b + 8 * rb_nvalues b ≤ ve_ptr (request_vent x r).

Lemma bitmap_byte x a k : 0 ≤ k → bitmap_bit x a k = Z.testbit (rd x (a + k / 8)) (k mod 8).
Proof.
  intros Hk. unfold bitmap_bit. pose proof (Z.mod_pos_bound k 8 ltac:(lia)). pose proof (Z.mod_pos_bound k 64 ltac:(lia)).
  pose proof (Z.div_mod k 8 ltac:(lia)). pose proof (Z.div_mod k 64 ltac:(lia)).
  rewrite <-(rd64_bit x (a + 8 * (k / 64)) (a + k / 8) (k mod 8)) by lia. unfold word_bit. f_equal. lia.
Qed.

Lemma bitmap_same m m0 x : chunk_id m = chunk_id m0 → zone_id m = zone_id m0 → run_get_bitmap layout m x = run_get_bitmap layout m0 x.
Proof. intros E1 E2. unfold run_get_bitmap, heap_get_chunk_hdr, heap_get_chunk_run. by rewrite E1, E2. Qed.

(** The word of a unit. *)
Lemma unit_word a b p k : 0 ≤ k < 64 * b → p + 8 ≤ a ∨ a + 8 * b ≤ p → ¬ (p ≤ a + k / 8 < p + 8).
Proof. intros Hk Hp. pose proof (Z.mod_pos_bound k 8 ltac:(lia)). pose proof (Z.div_mod k 8 ltac:(lia)). lia. Qed.

Lemma unit_in_word a j k : 0 ≤ k → a + 8 * j ≤ a + k / 8 < a + 8 * j + 8 ↔ k / 64 = j.
Proof.
  intros Hk. pose proof (Z.mod_pos_bound k 8 ltac:(lia)). pose proof (Z.div_mod k 8 ltac:(lia)).
  pose proof (Z.mod_pos_bound k 64 ltac:(lia)). pose proof (Z.div_mod k 64 ltac:(lia)). lia.
Qed.

Lemma unit_word_bit v a k : 0 ≤ k → word_bit v (a + 8 * (k / 64)) (a + k / 8) (k mod 8) = Z.testbit v (k mod 64).
Proof.
  intros Hk. unfold word_bit. f_equal. pose proof (Z.div_mod k 8 ltac:(lia)). pose proof (Z.div_mod k 64 ltac:(lia)). lia.
Qed.

(** The bits of the mask are the units of the block. *)
Lemma mask_unit m k : 0 ≤ k → 0 ≤ block_off m → 1 ≤ size_idx m → block_off m mod 64 + size_idx m ≤ 64 →
  (k / 64 = block_off m / 64 ∧ Z.testbit (block_mask m) (k mod 64) = true) ↔ block_off m ≤ k < block_off m + size_idx m.
Proof.
  intros Hk Ho Hs Hv. pose proof (Z.mod_pos_bound k 64 ltac:(lia)). pose proof (Z.div_mod k 64 ltac:(lia)).
  pose proof (Z.mod_pos_bound (block_off m) 64 ltac:(lia)). pose proof (Z.div_mod (block_off m) 64 ltac:(lia)).
  rewrite block_mask_bit, andb_true_iff, Z.leb_le, Z.ltb_lt by lia. lia.
Qed.

Lemma mask_or a m k : 0 ≤ k → 0 ≤ block_off m → 1 ≤ size_idx m → block_off m mod 64 + size_idx m ≤ 64 →
  let p := a + 8 * (block_off m / 64) in
  (p ≤ a + k / 8 < p + 8 ∧ word_bit (block_mask m) p (a + k / 8) (k mod 8) = true) ↔ block_off m ≤ k < block_off m + size_idx m.
Proof.
  intros Hk Ho Hs Hv p. rewrite <-mask_unit by done. unfold p. rewrite unit_in_word by done.
  split; intros [E H]; (split; [done|]); revert H; by rewrite <-E, unit_word_bit.
Qed.

Lemma mask_and a m k : 0 ≤ k → 0 ≤ block_off m → 1 ≤ size_idx m → block_off m mod 64 + size_idx m ≤ 64 →
  let p := a + 8 * (block_off m / 64) in
  (p ≤ a + k / 8 < p + 8 ∧ word_bit (u64 (Z.lnot (block_mask m))) p (a + k / 8) (k mod 8) = false) ↔
  block_off m ≤ k < block_off m + size_idx m.
Proof.
  intros Hk Ho Hs Hv p. rewrite <-mask_unit by done. unfold p. rewrite unit_in_word by done.
  pose proof (Z.mod_pos_bound k 64 ltac:(lia)).
  split; intros [E H0]; (split; [done|]); revert H0; rewrite <-E, unit_word_bit by done;
    rewrite lnot_bit, (proj2 (Z.ltb_lt _ _)) by lia; cbn [andb]; by destruct (Z.testbit _ _).
Qed.

Lemma request_bit x m0 b r k : request_ok x r → bitmap_at x m0 b → only_blocks x m0 b r → 0 ≤ k < 64 * rb_nvalues b →
  uop_bit (vent_op (request_vent x r)) (rb_values b + k / 8) (k mod 8) = request_unit m0 k r.
Proof.
  intros (_ & _ & Hok) Hb0 Honly Hk. destruct r as [m st|ptr val].
  2: { destruct Honly as [[]|Ho]. cbn [request_unit]. apply val_op_bit_out. by eapply unit_word. }
  destruct Hok as [[_ (b' & Hb' & Hfit) Hs Ho Hv] Hst].
  destruct (decide (chunk_id m = chunk_id m0 ∧ zone_id m = zone_id m0)) as [[E1 E2]|Hne].
  2: { destruct Honly as [Hsame|Hout]; [done|]. cbn [request_unit]. rewrite decide_False by tauto.
       apply val_op_bit_out. by eapply unit_word. }
  assert (b' = b) as -> by (unfold bitmap_at in *; rewrite (bitmap_same m m0) in Hb' by done; congruence). clear Honly.
  assert ((run_get_bitmap layout m x).1 = Ok b) as Eb by (by rewrite Hb').
  pose proof (mask_or (rb_values b) m k ltac:(lia) Ho ltac:(lia) Hv) as Hor.
  pose proof (mask_and (rb_values b) m k ltac:(lia) Ho ltac:(lia) Hv) as Hand. cbv zeta in Hor, Hand.
  unfold request_vent, request_unit. rewrite Eb. destruct st; [done|..]; unfold vent_op, val_op.
  - rewrite (decide_True (P := MEMBLOCK_ALLOCATED = _)) by done. cbn [ve_ptr ve_val ve_k Z.eqb Pos.eqb uop_bit].
    rewrite (decide_ext _ _ _ _ Hor). repeat case_decide; done || tauto.
  - rewrite (decide_False (P := MEMBLOCK_FREE = _)) by done. cbn [ve_ptr ve_val ve_k Z.eqb Pos.eqb uop_bit].
    rewrite (decide_ext _ _ _ _ Hand). repeat case_decide; done || tauto.
Qed.

Lemma unit_change_bits x m0 b rs k : Forall (request_ok x) rs → bitmap_at x m0 b → Forall (only_blocks x m0 b) rs →
  0 ≤ k < 64 * rb_nvalues b →
  uops_bit (vent_op <$> (request_vent x <$> rs)) (rb_values b + k / 8) (k mod 8) = unit_change m0 k rs.
Proof.
  intros Hok Hb Honly Hk. induction rs as [|r rs IH]; [done|]. apply Forall_cons_1 in Hok as [Hr Hrs], Honly as [Ho Hos].
  rewrite !fmap_cons, uops_bit_cons, IH by done. cbn [unit_change]. by rewrite (request_bit x m0 b).
Qed.

(** The bitmap after all the changes. *)
Lemma requests_bitmap x m0 b rs x' k : Forall (request_ok x) rs → bitmap_at x m0 b → Forall (only_blocks x m0 b) rs →
  0 ≤ k < 64 * rb_nvalues b →
  (∀ a, rb_values b ≤ a < rb_values b + 8 * rb_nvalues b → rd x' a = rd (uops_apply x (vent_op <$> (request_vent x <$> rs))) a) →
  bitmap_bit x' (rb_values b) k = default (bitmap_bit x (rb_values b) k) (unit_change m0 k rs).
Proof.
  intros Hok Hb Honly Hk Hx'. pose proof (Z.mod_pos_bound k 8 ltac:(lia)). pose proof (Z.div_mod k 8 ltac:(lia)).
  rewrite !bitmap_byte, Hx', uops_apply_bit, (unit_change_bits x m0 b) by (done || lia). done.
Qed.

(** ** The state of a block *)

Lemma any_set_spec n v : ∀ i, 0 ≤ i → any_set n v i = true ↔ ∃ j, i ≤ j < i + Z.of_nat n ∧ Z.testbit v j = true.
Proof.
  induction n as [|n IH]; intros i Hi; cbn [any_set]; [split; [done|intros (j & ? & _); lia]|].
  assert (negb (BIT_IS_CLR v i) = Z.testbit v i) as ->.
  { unfold BIT_IS_CLR. rewrite Z.shiftl_1_l. destruct (Z.eqb_spec (Z.land v (2 ^ i)) 0) as [E|E]; cbn [negb]; symmetry.
    - assert (Z.testbit (Z.land v (2 ^ i)) i = false) as H by (by rewrite E, Z.bits_0).
      rewrite Z.land_spec, Z.pow2_bits_true in H by done. by rewrite andb_true_r in H.
    - apply not_false_is_true. intros H. apply E. apply Z.bits_inj'. intros j Hj. rewrite Z.land_spec, Z.bits_0, Z.pow2_bits_eqb by done.
      destruct (Z.eqb_spec i j) as [->|]; [by rewrite H|apply andb_false_r]. }
  destruct (Z.testbit v i) eqn:E.
  - split; [|done]. intros _. exists i. split; [lia|done].
  - rewrite IH by lia. split; intros (j & Hj & Hb).
    + exists j. split; [lia|done].
    + exists j. split; [|done]. destruct (decide (j = i)) as [->|]; [congruence|lia].
Qed.

(** A block is allocated when one of its bits is set. *)
Lemma run_state_spec x m b : block_ok x m → bitmap_at x m b → ∃ st, run_get_state layout m x = (Ok st, x) ∧
  (st = MEMBLOCK_ALLOCATED ↔ ∃ k, block_off m ≤ k < block_off m + size_idx m ∧ bitmap_bit x (rb_values b) k = true) ∧
  (st = MEMBLOCK_FREE ↔ ∀ k, block_off m ≤ k < block_off m + size_idx m → bitmap_bit x (rb_values b) k = false).
Proof.
  intros [_ _ Hs Ho Hv] Hb. pose proof (Z.mod_pos_bound (block_off m) 64 ltac:(lia)) as Hm.
  pose proof (Z.div_mod (block_off m) 64 ltac:(lia)) as Hd. unfold run_get_state. erewrite bind_ok by exact Hb.
  erewrite bind_ok by reflexivity. unfold RUN_BITS_PER_VALUE. rewrite (proj2 (Z.leb_le _ _)) by lia. cbn [negb].
  set (v := rd64 x (rb_values b + 8 * (block_off m / 64))).
  assert (any_set (Z.to_nat (size_idx m)) v (block_off m mod 64) = true ↔
    ∃ k, block_off m ≤ k < block_off m + size_idx m ∧ bitmap_bit x (rb_values b) k = true) as Hany.
  { rewrite any_set_spec by lia. rewrite Z2Nat.id by lia. split.
    - intros (j & Hj & Hbit). exists (64 * (block_off m / 64) + j). split; [lia|]. unfold bitmap_bit.
      assert ((64 * (block_off m / 64) + j) / 64 = block_off m / 64) as -> by (symmetry; apply (Z.div_unique _ 64 _ j); lia).
      assert ((64 * (block_off m / 64) + j) mod 64 = j) as -> by (symmetry; apply (Z.mod_unique _ 64 (block_off m / 64)); lia). done.
    - intros (k & Hk & Hbit). exists (k - 64 * (block_off m / 64)). split; [lia|]. unfold bitmap_bit in Hbit.
      assert (k / 64 = block_off m / 64) as E by (symmetry; apply (Z.div_unique k 64 _ (k - 64 * (block_off m / 64))); lia).
      rewrite E in Hbit. fold v in Hbit. pose proof (Z.div_mod k 64 ltac:(lia)). rewrite E in *. replace (k - _) with (k mod 64) by lia. done. }
  eexists. split; [reflexivity|]. destruct (any_set _ v _) eqn:E.
  - split; [tauto|]. split; [done|]. intros Hall. destruct (proj1 Hany eq_refl) as (k & Hk & Hbit). rewrite Hall in Hbit; done.
  - split; [split; [done|]; intros Hex; by apply Hany in Hex|]. split; [|done]. intros _ k Hk. apply not_true_iff_false. intros Hbit.
    assert (false = true); [|done]. apply Hany. by exists k.
Qed.

(** ** A run after the requests *)

(** What holds of the run of [m0] in [x'] when [rs] have been made in [x]: its layout is the same, every unit is as the
    last request for it says, and a block that no later request covers has the requested state. *)
Definition requests_made (x : mem) (rs : list alloc_request) (x' : mem) (m0 : memory_block) (b : run_bitmap) : Prop :=
  bitmap_at x' m0 b ∧
  (∀ k, 0 ≤ k < 64 * rb_nvalues b → bitmap_bit x' (rb_values b) k = default (bitmap_bit x (rb_values b) k) (unit_change m0 k rs)) ∧
  ∀ rs1 m st rs2, rs = rs1 ++ RBlock m st :: rs2 → chunk_id m = chunk_id m0 → zone_id m = zone_id m0 →
    (∀ k, block_off m ≤ k < block_off m + size_idx m → unit_change m0 k rs2 = None) →
    run_get_state layout m x' = (Ok st, x').

(** The bytes of the run of [m0] that matter. *)
Definition run_bytes (m0 : memory_block) (b : run_bitmap) (a : Z) : Prop :=
  run_headers m0 a ∨ rb_values b ≤ a < rb_values b + 8 * rb_nvalues b.

(** The requests reach the run of [m0] through its bitmap only. *)
Record run_apart (x : mem) (rs : list alloc_request) (m0 : memory_block) (b : run_bitmap) : Prop := {
  ra_bitmap : bitmap_at x m0 b;
  ra_only : Forall (only_blocks x m0 b) rs;
  ra_headers : Forall (λ r, ∀ a, run_headers m0 a → ¬ (ve_ptr (request_vent x r) ≤ a < ve_ptr (request_vent x r) + 8)) rs
}.

Lemma unit_change_app m0 k rs1 rs2 :
  unit_change m0 k (rs1 ++ rs2) = match unit_change m0 k rs2 with Some b => Some b | None => unit_change m0 k rs1 end.
Proof. induction rs1 as [|r rs1 IH]; cbn [app unit_change]; [by destruct (unit_change m0 k rs2)|]. rewrite IH. by destruct (unit_change m0 k rs2). Qed.

Lemma requests_final x rs x' m0 b : Forall (request_ok x) rs → run_apart x rs m0 b →
  (∀ a, run_bytes m0 b a → rd x' a = rd (uops_apply x (vent_op <$> (request_vent x <$> rs))) a) →
  requests_made x rs x' m0 b.
Proof.
  intros Hok [Hb Honly Hhdr] Hx'.
  assert (∀ a, run_headers m0 a → rd x' a = rd x a) as Hh.
  { intros a Ha. rewrite Hx' by (by left). apply uops_apply_out. rewrite !Forall_fmap. apply Forall_forall. intros r Hr.
    cbn. rewrite vent_touches. by apply (proj1 (Forall_forall _ _) Hhdr r Hr). }
  assert (bitmap_at x' m0 b) as Hb' by (by eapply bitmap_ext).
  assert (∀ k, 0 ≤ k < 64 * rb_nvalues b →
    bitmap_bit x' (rb_values b) k = default (bitmap_bit x (rb_values b) k) (unit_change m0 k rs)) as Hbits.
  { intros k Hk. apply (requests_bitmap x m0 b); [done..|]. intros a Ha. apply Hx'. by right. }
  split_and!; [done|done|]. intros rs1 m st rs2 -> Ec Ez Hlast.
  apply Forall_app in Hok as [_ Hok]. apply Forall_cons_1 in Hok as [(_ & _ & [Hm Hst]) _].
  assert (bitmap_at x' m b) as Hbm by (unfold bitmap_at; by rewrite (bitmap_same m m0)).
  assert (block_off m + size_idx m ≤ 64 * rb_nvalues b) as Hfit.
  { destruct (bo_bitmap _ _ Hm) as (b' & Hb1 & Hf). unfold bitmap_at in *. rewrite (bitmap_same m m0) in Hb1 by done.
    rewrite Hb in Hb1. by injection Hb1 as <-. }
  assert (block_ok x' m) as Hm'.
  { destruct Hm. split; [done| |done..]. by exists b. }
  assert (∀ k, block_off m ≤ k < block_off m + size_idx m → bitmap_bit x' (rb_values b) k = bool_decide (st = MEMBLOCK_ALLOCATED)) as Hall.
  { intros k Hk. destruct Hm. rewrite Hbits by lia. rewrite unit_change_app. cbn [unit_change]. rewrite Hlast by done.
    cbn [request_unit]. by rewrite decide_True. }
  destruct (run_state_spec x' m b Hm' Hbm) as (st' & -> & H1 & H2). destruct Hm as [_ _ Hs Ho _]. destruct st; [done|..].
  - by rewrite (proj2 H1) by (exists (block_off m); split; [lia|by apply Hall; lia]).
  - by rewrite (proj2 H2) by (intros k Hk; by rewrite Hall).
Qed.
End requests.
