(* ===== verification/MemblockAllocTheorems.v ===== *)
(** * libpmemobj: theorems about allocating and freeing units of runs *)

From stdpp Require Import base gmap list numbers.
From S2P Require Import Prelude Memory Pmem Util Ulog UlogSpec UlogEntry UlogTheorems Vecq Container ContainerSeglists Bucket Memops.
From S2P Require Import MemopsMerge MemopsRedo MemopsCrash MemopsExample MemopsTheorems Memblock MemblockFree MemblockRun MemblockAlloc.
Local Open Scope Z_scope.

Local Abbreviation smem s := (pm_mem (me_pm (ms_env s))).
Local Abbreviation sevs s := (pm_evs (me_pm (ms_env s))).
Local Abbreviation plog s := (oc_pshadow_ops (ms_ctx s)).
Local Abbreviation in_log s a := (oc_ulog (ms_ctx s) ≤ a < oc_ulog (ms_ctx s) + 64 + oc_ulog_base_nbytes (ms_ctx s)).

Section theorems.
Context (o : pmem_ops) (layout : Z) (pop : pool_layout).
Context (ulog_free : Z → M pmem unit) (push_ok : nat → bool) (fuel : nat).

(** A context that is ready for the requests [rs] on a heap at [layout]; volatile memory starts at [D]. *)
Record alloc_ready (D : Z) (s : mstate) (rs : list alloc_request) : Prop := {
  ar_ctx : ctx_ready s;
  ar_redo : oc_type (ms_ctx s) = LOG_TYPE_REDO;
  ar_alloc : alloc_ok D s;
  ar_requests : Forall (request_ok layout pop (smem s)) rs;
  ar_pre : redo_pre D s (request_vent layout (smem s) <$> rs);
  ar_fuel : (length rs < fuel)%nat;
  ar_room : 16 * len rs + 64 ≤ ol_capacity (plog s);
  ar_pool m st a : RBlock m st ∈ rs → run_headers layout m a → a < D
}.

(** The run of [m0] is in the pool and apart from the log. *)
Definition run_in_pool (D : Z) (s : mstate) (m0 : memory_block) (b : run_bitmap) : Prop :=
  ∀ a, run_bytes layout m0 b a → a < D ∧ ¬ in_log s a.

Lemma ready_vents D s rs : alloc_ready D s rs → Forall vent_ok (request_vent layout (smem s) <$> rs).
Proof.
  intros H. apply Forall_fmap, Forall_forall. intros r Hr. apply (proj1 (Forall_forall _ _) (ar_requests _ _ _ H) r Hr).
Qed.

Lemma ready_prep D s rs : alloc_ready D s rs →
  prep_all layout pop rs (started s) = add_all (request_vent layout (smem s) <$> rs) (started s).
Proof.
  intros H. pose proof (few_entries D s _ (ar_pre _ _ _ H)) as (Hn & _). rewrite length_fmap in Hn.
  apply (prep_all_run layout pop D rs (started s) [] 0); [apply started_inv, H|apply H|apply (ar_alloc _ _ _ H)|apply (rp_shadow _ _ _ (ar_pre _ _ _ H))|done|apply (ar_room _ _ _ H)|apply H].
Qed.

(** All the entries are there when the operation is prepared. *)
Lemma prepared_run D s rs : alloc_ready D s rs → ∃ s1 es t, (operation_start;; prep_all layout pop rs) s = (Ok tt, s1) ∧
  shadow_step D (started s) s1 ∧ shadow_inv s1 es t ∧ (length es ≤ length rs)%nat ∧
  (∀ a, changes es a → changes (request_vent layout (smem s) <$> rs) a) ∧
  uops_equiv (vent_op <$> es) (vent_op <$> (request_vent layout (smem s) <$> rs)).
Proof using Type*.
  intros H. pose proof (ready_vents D s rs H) as Hv. pose proof (ready_prep D s rs H) as Ep.
  pose proof (few_entries D s _ (ar_pre _ _ _ H)) as (Hn & _).
  destruct H as [Hc Ht Ha Hok Hpre Hf Hroom _]. set (vs := request_vent layout (smem s) <$> rs) in *.
  assert (length vs = length rs) as Hlv by apply length_fmap.
  assert (redo_pre D (started s) vs) as Hpre1 by (destruct Hpre; by split).
  destruct (add_all_ok D vs (started s) [] 0 (started_inv s Hc) Hv Ha (rp_shadow _ _ _ Hpre1) Hn)
    as (res & s1 & dn & rest & es & t & E & Hrs & Hres & Hst & Hsh & Hlen & Hch & Heq). cbn [length app fmap list_fmap] in *.
  destruct Hres as [[-> ->]|[_ Hfull]]; [|exfalso; change (plog (started s)) with (OperationLog (ol_capacity (plog s)) 0 (ol_ulog (plog s))) in Hfull; cbn in Hfull; lia].
  rewrite app_nil_r in Hrs. subst dn. exists s1, es, t. split_and!; [|done|done|lia|done|done]. erewrite bind_ok by (by apply start_run, Hc). by rewrite Ep.
Qed.

(** an operation of the allocator on runs.  Start an operation, mark blocks of runs as allocated or free and
    store words (the pointers to the objects) with it, as many as fit in the log, and finish it: in every run each bit of the bitmap is as the last request
    that covers it says and all the others are as before, so that every block that no later request covers has exactly the requested state. *)
Theorem run_requests_applied `{!OpsSpec o} D s rs : alloc_ready D s rs →
  ∃ s', (operation_start;; prep_all layout pop rs;; operation_finish o ulog_free push_ok fuel) s = (Ok tt, s') ∧
    ∀ m0 b, run_apart layout (smem s) rs m0 b → run_in_pool D s m0 b → requests_made layout (smem s) rs (smem s') m0 b.
Proof using Type*.
  intros H. pose proof (ready_prep D s rs H) as Eprep. pose proof (ready_vents D s rs H) as Hv.
  destruct H as [Hc Ht Ha Hok Hpre Hf Hroom _].
  destruct (redo_applied o ulog_free push_ok fuel D s (request_vent layout (smem s) <$> rs)) as (r & s' & E & Hr);
    [done..|by rewrite length_fmap|]. destruct Hr as [[-> Hm]|(_ & Hfull & _)]; [|rewrite length_fmap in Hfull; lia].
  exists s'. split.
  - rewrite <-E. unfold mbind, M_bind. rewrite start_run by apply Hc. by rewrite Eprep.
  - intros m0 b Hap Hin. apply (requests_final layout pop); [done..|]. intros a Hrb. destruct (Hin a Hrb). by apply Hm.
Qed.

(** The log of an operation is determined by its context. *)
Lemma shadow_unique s es t es' t' : shadow_inv s es t → shadow_inv s es' t' → es = es'.
Proof using.
  intros H H'. pose proof (sh_offset _ _ _ H) as E1. rewrite (sh_offset _ _ _ H') in E1.
  apply (list_eq_same_length _ _ (length es)); [lia|done|]. intros i e e' _ He He'.
  pose proof (proj1 (Forall_lookup _ _) (sh_ok _ _ _ H) i e He) as [V1 V2 V3 V4].
  pose proof (proj1 (Forall_lookup _ _) (sh_ok _ _ _ H') i e' He') as [W1 W2 W3 W4].
  pose proof (sh_entries _ _ _ H i e He) as Hv. pose proof (sh_entries _ _ _ H' i e' He') as Hw.
  destruct (val_entry_reads _ _ _ _ _ V1 V4 Hv) as (T1 & O1 & _). destruct (val_entry_reads _ _ _ _ _ W1 W4 Hw) as (T2 & O2 & _).
  destruct Hv as [_ Hv], Hw as [_ Hw]. destruct e as [p v k], e' as [p' v' k']. cbn in *. f_equal; [congruence..|].
  rewrite T1 in T2. rewrite !Z.shiftl_mul_pow2 in T2 by lia. lia.
Qed.

(** C21: an operation of the allocator on runs is atomic across power failures.  Start an operation, mark blocks of runs (of up to 64 units in one value of
    the bitmap) as allocated or free, store aligned words of the pool with it, and finish it.  The requests must fit, without merging, in the first log of the context (no log is chained to
    it) and in its shadow log as it is, so that no entry is dropped: the allocator does not look at the result of adding one.  On a platform that writes back in
    the order of the calls, and with a checksum that tells a torn log from a complete one: the calls return, and if the operation is cut at any point and
    any part of what was in flight is kept, recovery succeeds, and then either every run has all of the requested changes or every
    run has none of them. *)
Theorem run_requests_crash_atomic `{!OrderedOps o} D m0 s rs : alloc_ready D s rs → (8 | oc_ulog (ms_ctx s)) →
  let M := replay m0 (sevs s) in let s1 := ((operation_start;; prep_all layout pop rs) s).2 in
  settled m0 (sevs s) → (∀ a, a < D → rd M a = rd (smem s) a) → ulog_f_capacity M (oc_ulog (ms_ctx s)) = 0 →
  (∀ es t, shadow_inv s1 es t → torn_detected s1 es fuel M) →
  ∃ s', (operation_start;; prep_all layout pop rs;; operation_finish o ulog_free push_ok fuel) s = (Ok tt, s') ∧
    ∀ j x, (length (sevs s) ≤ j ≤ length (sevs s'))%nat → crash_at m0 (take j (sevs s')) x →
    ∃ p' rs', ulog_recover o fuel (oc_ulog (ms_ctx s)) (Pmem x []) = (Ok tt, p') ∧ (rs' = [] ∨ rs' = rs) ∧
      ∀ mb b, run_apart layout (smem s) rs mb b → run_in_pool D s mb b → requests_made layout (smem s) rs' (pm_mem p') mb b.
Proof using Type*.
  intros H Hal M. destruct (prepared_run D s rs H) as (s1 & es & t & E1 & Hst & Hsh & Hlen & Hch & Heq).
  rewrite E1. cbn [snd]. intros Hs HM Hidle Htorn. destruct H as [Hc Ht Ha Hok Hpre Hf _ _].
  set (vs := request_vent layout (smem s) <$> rs) in *.
  assert (redo_pre D (started s) vs) as Hpre1 by (destruct Hpre; by split).
  destruct (ss_ctx _ _ _ Hst) as (q & l & Ec). cbn [length app fmap list_fmap] in *.
  assert (sevs s1 = sevs s) as Eev by apply (ss_evs _ _ _ Hst).
  destruct (finish_crash o ulog_free push_ok fuel D m0 s1 es t) as (s' & E' & Hcr); [done|eapply pre_entries; [exact Hpre1|done|unfold vs; by rewrite length_fmap|done]|..].
  { lia. }
  1-4: by rewrite Ec.
  { by rewrite Eev. }
  { intros a Hlt. rewrite Eev. rewrite (ss_pool _ _ _ Hst) by done. by apply HM. }
  { by rewrite Eev, Ec. }
  { rewrite Eev. by apply (Htorn es t). }
  exists s'. split.
  { apply bind_inv_ok in E1 as ([] & s0 & E0 & E1). erewrite bind_ok by exact E0. by erewrite bind_ok by exact E1. }
  intros j x Hj Hx. rewrite <-Eev in Hj. specialize (Hcr j x Hj Hx). rewrite Eev in Hcr. fold M in Hcr.
  assert (∀ rs', (rs' = [] ∨ rs' = rs) → recovers_to o s1 fuel x (uops_apply M (vent_op <$> (request_vent layout (smem s) <$> rs'))) →
    ∃ p' rs', ulog_recover o fuel (oc_ulog (ms_ctx s)) (Pmem x []) = (Ok tt, p') ∧ (rs' = [] ∨ rs' = rs) ∧
      ∀ mb b, run_apart layout (smem s) rs mb b → run_in_pool D s mb b → requests_made layout (smem s) rs' (pm_mem p') mb b) as Hrec.
  { intros rs' Hrs' (p' & Ep & Hm). rewrite Ec in Ep, Hm. exists p', rs'. split_and!; [done|done|]. intros mb b Hap Hin.
    apply (requests_final layout pop); [by destruct Hrs' as [-> | ->]; [constructor|]| |].
    - destruct Hrs' as [-> | ->]; [|done]. split; [apply Hap|constructor..].
    - intros a Hrb. destruct (Hin a Hrb) as [Hlt Hna]. rewrite Hm by done. apply apply_at. by apply HM. }
  destruct Hcr as [(p' & Ep & Hm)|(p' & Ep & Hm)].
  - apply (Hrec []); [by left|]. by exists p'.
  - apply (Hrec rs); [by right|]. exists p'. split; [done|]. intros a Hna. rewrite Hm by done.
    apply (uops_equiv_apply _ _ M Heq a).
Qed.
End theorems.

(** ** Witnesses *)

(** A heap at 4096 whose first chunk is a run of units of 128 bytes, and a new context for the log at 1024. *)
Definition ex_run_mem : mem := pm_mem ((memblock_huge_init clflush_ops 4096 0 0 1;; memblock_run_init clflush_ops 4096 0 0 1 0 128 0) (Pmem ∅ [])).2.
Definition ex_heap_env : menv := MEnv (Pmem ex_run_mem []) [Some 1900000; Some 2000000; Some 2100000; Some 2200000].
Definition ex_heap : mstate :=
  match operation_new 3 1024 640 LOG_TYPE_REDO ex_heap_env with
  | (Ok (Some c), e) => MState e c
  | (_, e) => MState e no_ctx
  end.
Definition ex_pop : pool_layout := PoolLayout 4096 2097152 1024 1 64 72.
(** Three units become allocated and a pointer to them is stored. *)
Definition ex_block : memory_block := MemoryBlock 0 0 3 5 HEADER_LEGACY MEMORY_BLOCK_RUN.
Definition ex_allocate : list alloc_request := [RBlock ex_block MEMBLOCK_ALLOCATED; RSet 8192 530432].
Definition ex_bitmap : run_bitmap := RunBitmap 32 2045 304 529424.

Lemma ex_heap_run : operation_new 3 1024 640 LOG_TYPE_REDO ex_heap_env = (Ok (Some (ms_ctx ex_heap)), ms_env ex_heap).
Proof.
  unfold ex_heap. assert (match (operation_new 3 1024 640 LOG_TYPE_REDO ex_heap_env).1 with Ok (Some _) => true | _ => false end = true) as H
    by (vm_compute; reflexivity).
  by destruct (operation_new 3 1024 640 LOG_TYPE_REDO ex_heap_env) as [[[c|]| |] e].
Qed.

Definition ex_vents : list vent := [VEnt 529424 224 2; VEnt 8192 530432 0].
Lemma ex_allocate_vents : request_vent 4096 (smem ex_heap) <$> ex_allocate = ex_vents.
Proof. vm_compute. reflexivity. Qed.
Lemma ex_vents_ok : Forall vent_ok ex_vents.
Proof. repeat constructor; try (simpl; lia); (by exists 66178) || (by exists 1024). Qed.

Lemma ex_bitmap_at : bitmap_at 4096 (smem ex_heap) ex_block ex_bitmap.
Proof.
  unfold bitmap_at. assert ((run_get_bitmap 4096 ex_block (smem ex_heap)).1 = Ok ex_bitmap) as E by (vm_compute; reflexivity).
  revert E. unfold run_get_bitmap, mbind, M_bind, gets, mret, M_ret, fail, undef. by repeat case_match; intros [= ->].
Qed.

Lemma ex_redo_pre s es : ol_ulog (plog s) = 2100000 → oc_ulog (ms_ctx s) = 1024 → oc_ulog_base_nbytes (ms_ctx s) = 640 →
  es = ex_vents → redo_pre 1048576 s es.
Proof.
  intros E1 E2 E3 ->. split; rewrite ?E1, ?E2, ?E3; try lia; [vm_compute; intuition congruence|repeat constructor; simpl; lia..].
Qed.

Lemma ex_alloc_ready : alloc_ready 4096 ex_pop 10 1048576 ex_heap ex_allocate.
Proof.
  destruct (new_ready 3 1024 640 LOG_TYPE_REDO ex_heap_env (ms_ctx ex_heap) (ms_env ex_heap) ltac:(lia) ex_heap_run) as [Hr Ht].
  assert (me_alloc (ms_env ex_heap) = [Some 2200000]) as Ea by (vm_compute; reflexivity).
  pose proof ex_vents_ok as Hv. rewrite <-ex_allocate_vents in Hv. cbn [fmap list_fmap ex_allocate] in Hv.
  apply Forall_cons_1 in Hv as [Hv1 Hv2%Forall_inv].
  split; [|done| | | | | |].
  - revert Hr. by destruct ex_heap.
  - intros a Ha. rewrite Ea in Ha. apply list_elem_of_singleton in Ha. injection Ha as ->. lia.
  - constructor; [|constructor; [|constructor]]; (split; [done|split; [vm_compute; reflexivity|]]); [|done]. split; [|done].
    split; [done| |simpl; lia|simpl; lia|vm_compute; congruence]. exists ex_bitmap. split; [apply ex_bitmap_at|vm_compute; congruence].
  - apply ex_redo_pre; [vm_compute; reflexivity..|apply ex_allocate_vents].
  - simpl. lia.
  - vm_compute. intuition congruence.
  - intros m st a Hin Ha. apply list_elem_of_In in Hin as [[= <- <-]|[[=]|[]]]. unfold run_headers in Ha.
    change (heap_get_chunk_hdr 4096 ex_block) with 5184 in Ha. change (heap_get_chunk_run 4096 ex_block) with 529408 in Ha. lia.
Qed.

Lemma ex_run_headers a : run_headers 4096 ex_block a → 5184 ≤ a < 5192 ∨ 529408 ≤ a < 529424.
Proof. done. Qed.

Lemma ex_run_apart : run_apart 4096 (smem ex_heap) ex_allocate ex_block ex_bitmap.
Proof.
  assert (request_vent 4096 (smem ex_heap) (RBlock ex_block MEMBLOCK_ALLOCATED) = VEnt 529424 224 2) as E1 by (vm_compute; reflexivity).
  pose proof ex_bitmap_at as Hb. revert E1 Hb. generalize (smem ex_heap). intros x E1 Hb. split; [done|..].
  - constructor; [by left|constructor; [|constructor]]. right. cbn. lia.
  - constructor; [|constructor; [|constructor]]; intros a Ha%ex_run_headers; [rewrite E1|]; cbn; lia.
Qed.

Lemma ex_run_in_pool : run_in_pool 4096 1048576 ex_heap ex_block ex_bitmap.
Proof.
  assert (oc_ulog (ms_ctx ex_heap) + 64 + oc_ulog_base_nbytes (ms_ctx ex_heap) = 1728) as E by (vm_compute; reflexivity).
  intros a Ha. rewrite E. destruct Ha as [Ha%ex_run_headers|Ha]; cbn [rb_values rb_nvalues ex_bitmap] in *; lia.
Qed.

Lemma run_requests_applied_witness : ∃ s',
  (operation_start;; prep_all 4096 ex_pop ex_allocate;; operation_finish clflush_ops no_free no_push 10) ex_heap = (Ok tt, s') ∧
  run_get_state 4096 ex_block (smem s') = (Ok MEMBLOCK_ALLOCATED, smem s').
Proof.
  destruct (run_requests_applied clflush_ops 4096 ex_pop no_free no_push 10 1048576 ex_heap ex_allocate ex_alloc_ready) as (s' & E & H).
  exists s'. split; [exact E|]. destruct (H ex_block ex_bitmap ex_run_apart ex_run_in_pool) as (_ & _ & Hst).
  apply (Hst [] ex_block MEMBLOCK_ALLOCATED [RSet 8192 530432]); [reflexivity|reflexivity|reflexivity|]. reflexivity.
Defined.

Local Abbreviation ex_prepared := (((operation_start;; prep_all 4096 ex_pop ex_allocate) ex_heap).2).

Lemma ex_prepared_shadow : shadow_inv ex_prepared ex_vents 2.
Proof.
  split; [apply ex_vents_ok|vm_compute; reflexivity|..].
  - intros [|[|i]] e [=]; subst e; split; vm_compute; reflexivity.
  - intros _. vm_compute. reflexivity.
  - assert (slot_addr (ol_ulog (plog ex_prepared)) <$> seq (length ex_vents - 2) 2 = [2100064; 2100080]) as ->
      by (vm_compute; reflexivity).
    split; try (vm_compute; intuition congruence).
    + right. exists 6. split; [lia|]. vm_compute. reflexivity.
    + intros [|[|i]] e [=]; subst e; vm_compute; reflexivity.
  - vm_compute. reflexivity.
  - right. vm_compute. reflexivity.
  - simpl. lia.
  - vm_compute. intuition congruence.
  - vm_compute. intuition congruence.
  - exists 16. vm_compute. reflexivity.
  - vm_compute. reflexivity.
Qed.

Lemma ex_prepared_torn es t : shadow_inv ex_prepared es t → torn_detected ex_prepared es 10 ex_run_mem.
Proof.
  intros H. rewrite (shadow_unique _ _ _ _ _ H ex_prepared_shadow).
  apply (torn_decided 1048576); [apply ex_redo_pre; vm_compute; reflexivity|exists 128; vm_compute; reflexivity|vm_compute; reflexivity].
Qed.

(** Two memories agree below [D] when their entries do. *)
Definition agree_below (D : Z) (m m' : mem) : bool :=
  forallb (λ x, (D <=? x.1) || (rd m x.1 =? rd m' x.1)) (map_to_list m ++ map_to_list m').
Lemma agree_below_spec D m m' : agree_below D m m' = true → ∀ a, a < D → rd m a = rd m' a.
Proof.
  intros H a Ha. unfold agree_below in H. rewrite forallb_forall in H.
  assert (∀ b, (a, b) ∈ map_to_list m ++ map_to_list m' → rd m a = rd m' a) as Hin.
  { intros b Hb. specialize (H (a, b) (proj1 (list_elem_of_In _ _) Hb)). cbn in H. rewrite (proj2 (Z.leb_gt _ _)) in H by done. by apply Z.eqb_eq. }
  destruct (m !! a) as [b|] eqn:E; [apply (Hin b), elem_of_app; left; by apply elem_of_map_to_list|].
  destruct (m' !! a) as [b|] eqn:E'; [apply (Hin b), elem_of_app; right; by apply elem_of_map_to_list|]. unfold rd. by rewrite E, E'.
Qed.

(** Creating the context changes volatile memory only. *)
Lemma ex_heap_pool a : a < 1048576 → rd ex_run_mem a = rd (smem ex_heap) a.
Proof. apply agree_below_spec. vm_compute. reflexivity. Qed.

Lemma run_requests_crash_atomic_witness : ∃ s',
  (operation_start;; prep_all 4096 ex_pop ex_allocate;; operation_finish clflush_ops no_free no_push 10) ex_heap = (Ok tt, s') ∧
  ∀ x, crash_at ex_run_mem (sevs s') x → ∃ p' rs', ulog_recover clflush_ops 10 1024 (Pmem x []) = (Ok tt, p') ∧
    (rs' = [] ∨ rs' = ex_allocate) ∧ requests_made 4096 (smem ex_heap) rs' (pm_mem p') ex_block ex_bitmap.
Proof.
  assert (sevs ex_heap = []) as E0 by (vm_compute; reflexivity).
  assert (oc_ulog (ms_ctx ex_heap) = 1024) as Eu by (vm_compute; reflexivity).
  assert (∀ es t, shadow_inv ex_prepared es t → torn_detected ex_prepared es 10 (replay ex_run_mem (sevs ex_heap))) as Ht.
  { rewrite E0. exact ex_prepared_torn. }
  destruct (run_requests_crash_atomic clflush_ops 4096 ex_pop no_free no_push 10 1048576 ex_run_mem ex_heap ex_allocate)
    as (s' & E & H).
  - apply ex_alloc_ready.
  - rewrite Eu. by exists 128.
  - rewrite E0. apply settled_nil.
  - rewrite E0. intros a Ha. apply ex_heap_pool. exact Ha.
  - rewrite E0, Eu. vm_compute. reflexivity.
  - exact Ht.
  - exists s'. split; [exact E|]. intros x Hx. destruct (H (length (sevs s')) x) as (p' & rs' & Ep & Hrs & Hm).
    + rewrite E0. split; [simpl; lia|reflexivity].
    + by rewrite firstn_all.
    + exists p', rs'. rewrite Eu in Ep. split; [exact Ep|]. split; [exact Hrs|]. apply Hm; [apply ex_run_apart|apply ex_run_in_pool].
Defined.
