(* ===== verification/MemblockHdr.v ===== *)
(** * libpmemobj: headers of allocations and the way back from an address

    The size, the extra field and the flags written to the header of a block are read back, and [memblock_from_offset] finds the
    block from the address of its user data. *)

From stdpp Require Import base gmap list numbers.
From S2P Require Import Prelude Memory Pmem Util Ulog UlogSpec UlogEntry Vecq Container ContainerSeglists Bucket Memops.
From S2P Require Import MemopsExample Memblock MemblockFree MemblockRun MemblockAlloc.
Local Open Scope Z_scope.

(** A field of an image. *)
Lemma field_at {A} (l pre mid post : list A) k n : l = pre ++ mid ++ post → length pre = k → length mid = n → take n (drop k l) = mid.
Proof. intros -> <- <-. by rewrite drop_app_length, take_app_length. Qed.

Lemma field_take {A} (l : list A) k n t : (k + n ≤ t)%nat → take n (drop k (take t l)) = take n (drop k l).
Proof. intros Ht. rewrite skipn_firstn_comm, take_take. f_equal. lia. Qed.

Section hdr.
Context (layout : Z).

Lemma get_bitmap_mem m x : (run_get_bitmap layout m x).2 = x.
Proof. unfold run_get_bitmap, mbind, M_bind, gets, mret, M_ret, fail, undef. by repeat case_match. Qed.

(** ** What a block reads *)

Definition real_data_at (x : mem) (m : memory_block) (a : Z) : Prop := mop_get_real_data layout m x = (Ok a, x).

Lemma data_start_ext x x' m st : (∀ a, run_headers layout m a → rd x' a = rd x a) →
  run_get_data_start layout m x = (Ok st, x) → run_get_data_start layout m x' = (Ok st, x').
Proof.
  intros He H. unfold run_get_data_start in *. erewrite bind_ok in H |- * by reflexivity. cbn [id] in *.
  apply bind_inv_ok in H as (b & x1 & Hb & H). pose proof (get_bitmap_mem m x) as Hx. rewrite Hb in Hx. cbn in Hx. subst x1.
  erewrite bind_ok by (by eapply bitmap_ext).
  assert (hdr_is x' (heap_get_chunk_hdr layout m) (hdr_type x (heap_get_chunk_hdr layout m)) (hdr_flags x (heap_get_chunk_hdr layout m))
    (hdr_size_idx x (heap_get_chunk_hdr layout m))) as [_ E1 _].
  { apply (hdr_is_ext x); [|done]. intros a Ha. apply He. by left. }
  assert (run_f_alignment x' (heap_get_chunk_run layout m) = run_f_alignment x (heap_get_chunk_run layout m)) as E4
    by (apply rd64_ext; intros a Ha; apply He; right; lia).
  rewrite E1, E4. case_match; cbn in *; by injection H as <-.
Qed.

Lemma block_size_ext x x' m : (∀ a, run_headers layout m a → rd x' a = rd x a) →
  run_f_block_size x' (heap_get_chunk_run layout m) = run_f_block_size x (heap_get_chunk_run layout m).
Proof. intros He. apply rd64_ext. intros a Ha. apply He. right. lia. Qed.

Lemma real_data_ext x x' m a : (mb_type m = MEMORY_BLOCK_RUN → ∀ a, run_headers layout m a → rd x' a = rd x a) → real_data_at x m a → real_data_at x' m a.
Proof.
  intros He. unfold real_data_at, mop_get_real_data. destruct (mb_type m); [by intros [= <-]|]. specialize (He eq_refl).
  unfold run_get_real_data, run_block_size. erewrite bind_ok by reflexivity. erewrite (bind_ok _ _ x') by reflexivity.
  rewrite (block_size_ext x x') by done. destruct (_ =? 0); [done|]. intros H.
  apply bind_inv_ok in H as (st & x1 & Hst & H). cbn in H. injection H as <- ->.
  by erewrite bind_ok by (by eapply data_start_ext).
Qed.

(** ** Writing and reading a header *)

Context (o : pmem_ops) `{!OpsSpec o} (padding : list Z) (Hpad : length padding = 48%nat) (Hpadb : Forall is_byte padding).

(** The fields are in the header of [m] at [a]. *)
Definition header_holds (x : mem) (m : memory_block) (size extra flags : Z) : Prop :=
  mb_header_type m = HEADER_NONE ∨
  header_get_size layout (mb_header_type m) m x = (Ok size, x) ∧ block_get_extra layout m x = (Ok extra, x) ∧
  block_get_flags layout m x = (Ok flags, x).

Lemma compact_word size flags : 0 ≤ size < 2 ^ 48 → 0 ≤ flags < 2 ^ 16 →
  let w := size ||| u64 (Z.shiftl flags ALLOC_HDR_SIZE_SHIFT) in
  0 ≤ w < 2 ^ 64 ∧ w &&& ALLOC_HDR_FLAGS_MASK = size ∧ u16 (Z.shiftr w ALLOC_HDR_SIZE_SHIFT) = flags.
Proof.
  intros Hs Hf w. change ALLOC_HDR_FLAGS_MASK with (Z.ones 48). unfold ALLOC_HDR_SIZE_SHIFT in *.
  assert (w = size + flags * 2 ^ 48) as Ew.
  { unfold w. rewrite u64_id by (rewrite Z.shiftl_mul_pow2 by lia; lia). rewrite Z.shiftl_mul_pow2 by lia.
    rewrite <-Z.lxor_lor, <-Z.add_nocarry_lxor; try done.
    all: apply Z.bits_inj'; intros i Hi; rewrite Z.land_spec, Z.bits_0; destruct (decide (i < 48));
      [rewrite Z.mul_pow2_bits_low by lia; apply andb_false_r|rewrite (high_bit_false size 48) by lia; done]. }
  split_and!; [lia|lia| |].
  - rewrite Z.land_ones, Ew, Z.mod_add by lia. by apply Z.mod_small.
  - rewrite Z.shiftr_div_pow2, Ew, Z.div_add, (Z.div_small size), Z.add_0_l by lia. unfold u16. by apply Z.mod_small.
Qed.

Section fields.
Context (m : memory_block) (p : pmem) (a size extra flags : Z).
Context (Ha : real_data_at (pm_mem p) m a) (Hs : 0 ≤ size < 2 ^ 48) (He : 0 ≤ extra < 2 ^ 64) (Hf : 0 ≤ flags < 2 ^ 16).
Context (Hap : mb_type m = MEMORY_BLOCK_RUN → ∀ c, run_headers layout m c → ¬ (a ≤ c < a + size)).

Lemma written_real bs q : len bs ≤ size → pm_mem q = wr (pm_mem p) a bs → real_data_at (pm_mem q) m a.
Proof using All.
  intros Hl ->. eapply real_data_ext; [|done]. intros Et c Hc. apply rd_wr_out. specialize (Hap Et c Hc). lia.
Qed.

Lemma look_real : look (mop_get_real_data layout m) p = (Ok a, p).
Proof using Ha. unfold look. change (mem_of p) with (pm_mem p). by rewrite Ha. Qed.

(** Only bytes of the block are written. *)
Definition header_written (h : header_type) (p' : pmem) : Prop :=
  (∀ c, ¬ (a ≤ c < a + size) → rd (pm_mem p') c = rd (pm_mem p) c) ∧
  header_get_size layout h m (pm_mem p') = (Ok size, pm_mem p') ∧ header_get_extra layout h m (pm_mem p') = (Ok extra, pm_mem p') ∧
  header_get_flags layout h m (pm_mem p') = (Ok flags, pm_mem p').

Lemma legacy_written : 64 ≤ size → ∃ p', memblock_header_legacy_write o layout padding m size extra flags p = (Ok tt, p') ∧ header_written HEADER_LEGACY p'.
Proof using Type*.
  intros Hh. pose proof look_real as El. pose proof written_real as Hreal. unfold header_written. cbn [header_get_size header_get_extra header_get_flags].
  set (hdr := take 8 padding ++ le_bytes 8 size ++ take 32 (drop 8 padding) ++
    le_bytes 8 (u64 (Z.shiftl flags ALLOC_HDR_SIZE_SHIFT)) ++ le_bytes 8 extra).
  assert (len hdr = 64) as Hl.
  { unfold hdr. rewrite !length_app, !length_take, length_drop, Hpad. done. }
  assert (Forall is_byte hdr) as Hb.
  { unfold hdr. rewrite !Forall_app. split_and!; auto using Forall_take, Forall_drop with pmdk. }
  unfold memblock_header_legacy_write. erewrite bind_ok by exact El. fold hdr. eexists. split; [reflexivity|].
  pose proof (ow_mem _ _ _ _ (ops_memcpy p a hdr header_write_flags)) as Em.
  split; [intros c Hc; rewrite Em; apply rd_wr_out; lia|].
  pose proof (Hreal hdr _ ltac:(lia) Em) as Hr. unfold memblock_header_legacy_get_size, memblock_header_legacy_get_extra, memblock_header_legacy_get_flags.
  erewrite !bind_ok by exact Hr. unfold gets. rewrite !Em. split_and!.
  - rewrite (rd64_wr_sub _ a hdr 8 size); [done|done|lia|lia|lia|].
    eapply field_at; [unfold hdr; reflexivity|rewrite length_take; lia|done].
  - rewrite (rd64_wr_sub _ a hdr 56 extra); [done|done|lia|lia|lia|].
    apply (field_at _ (take 8 padding ++ le_bytes 8 size ++ take 32 (drop 8 padding) ++ le_bytes 8 (u64 (Z.shiftl flags ALLOC_HDR_SIZE_SHIFT))) _ []);
      [unfold hdr; by rewrite app_nil_r, <-!(assoc_L (++))| |done]. rewrite !length_app, !length_take, length_drop, Hpad. done.
  - rewrite (rd64_wr_sub _ a hdr 48 (u64 (Z.shiftl flags ALLOC_HDR_SIZE_SHIFT))); [|done|lia|lia|apply u64_range|].
    + destruct (compact_word 0 flags) as (_ & _ & Ef); [lia|done|]. rewrite Z.lor_0_l in Ef. by rewrite Ef.
    + apply (field_at _ (take 8 padding ++ le_bytes 8 size ++ take 32 (drop 8 padding)) _ (le_bytes 8 extra));
        [unfold hdr; by rewrite <-!(assoc_L (++))| |done]. rewrite !length_app, !length_take, length_drop, Hpad. done.
Qed.

Lemma compact_written : 16 ≤ size → ∃ p', memblock_header_compact_write o layout padding m size extra flags p = (Ok tt, p') ∧ header_written HEADER_COMPACT p'.
Proof using Type*.
  intros Hh. pose proof look_real as El. pose proof written_real as Hreal. unfold header_written. cbn [header_get_size header_get_extra header_get_flags].
  set (w := size ||| u64 (Z.shiftl flags ALLOC_HDR_SIZE_SHIFT)). destruct (compact_word size flags) as (Hw & E1 & E2); [done..|]. fold w in Hw, E1, E2.
  unfold memblock_header_compact_write. erewrite bind_ok by exact El. fold w. set (n := if _ && _ then CACHELINE_SIZE else ALLOC_HDR_COMPACT_SIZE).
  set (hdr := take (Z.to_nat n) (le_bytes 8 w ++ le_bytes 8 extra ++ take 48 padding)). eexists. split; [reflexivity|].
  assert (16 ≤ n ≤ size ∧ n ≤ 64) as [Hn1 Hn2].
  { unfold n, CACHELINE_SIZE, ALLOC_HDR_COMPACT_SIZE. destruct (_ && _) eqn:E; [|lia]. apply andb_true_iff in E as [_ ?%Z.leb_le]. unfold CACHELINE_SIZE in *. lia. }
  assert (len hdr = n) as Hl.
  { unfold hdr. rewrite length_take, !length_app, length_take, Hpad, !length_le_bytes. lia. }
  assert (Forall is_byte hdr) as Hb.
  { unfold hdr. apply Forall_take. rewrite !Forall_app. split_and!; auto using Forall_take with pmdk. }
  pose proof (ow_mem _ _ _ _ (ops_memcpy p a hdr header_write_flags)) as Em.
  split; [intros c Hc; rewrite Em; apply rd_wr_out; lia|].
  pose proof (Hreal hdr _ ltac:(lia) Em) as Hr. unfold memblock_header_compact_get_size, memblock_header_compact_get_extra, memblock_header_compact_get_flags.
  erewrite !bind_ok by exact Hr. unfold gets. rewrite !Em.
  assert (rd64 (wr (pm_mem p) a hdr) a = w) as Ew.
  { rewrite <-(Z.add_0_r a) at 2. apply rd64_wr_sub; [done|lia|lia|done|]. unfold hdr.
    rewrite field_take by lia. by apply (field_at _ [] _ (le_bytes 8 extra ++ take 48 padding)). }
  rewrite Ew, E1, E2. split_and!; [done| |done].
  rewrite (rd64_wr_sub _ a hdr 8 extra); [done|done|lia|lia|lia|]. unfold hdr.
  rewrite field_take by lia. by apply (field_at _ (le_bytes 8 w) _ (take 48 padding)).
Qed.

Lemma header_write_reads : header_type_to_size (mb_header_type m) ≤ size →
  ∃ p', header_write o layout padding (mb_header_type m) m size extra flags p = (Ok tt, p') ∧
    (∀ c, ¬ (a ≤ c < a + size) → rd (pm_mem p') c = rd (pm_mem p) c) ∧
    header_holds (pm_mem p') m size extra flags.
Proof using Type*.
  unfold header_holds, block_get_extra, block_get_flags. destruct (mb_header_type m); cbn [header_type_to_size header_write]; intros Hh.
  - destruct (legacy_written Hh) as (p' & E & Hout & Hr). exists p'. split_and!; [done|done|by right].
  - destruct (compact_written Hh) as (p' & E & Hout & Hr). exists p'. split_and!; [done|done|by right].
  - exists p. split_and!; [done|done|by left].
Qed.
End fields.
End hdr.

(** ** The block at an address *)

Section offset.
Context (layout : Z).

(** The block of a run, [n] chunks long, with the bitmap [b] and the first unit at [st]. *)
Record run_block_at (x : mem) (m : memory_block) (f n : Z) (b : run_bitmap) (st : Z) : Prop := {
  rk_hdr : hdr_is x (heap_get_chunk_hdr layout m) CHUNK_TYPE_RUN f n;
  rk_state : flags_header f = mb_header_type m;
  rk_data i : 1 ≤ i < n → ∃ f', hdr_is x (heap_get_chunk_hdr layout m + 8 * i) CHUNK_TYPE_RUN_DATA f' i;
  rk_bitmap : bitmap_at layout x m b;
  rk_geometry : run_geometry b n (run_f_block_size x (heap_get_chunk_run layout m)) (run_f_alignment x (heap_get_chunk_run layout m));
  rk_start : run_get_data_start layout m x = (Ok st, x);
  rk_first : 0 ≤ st - (run_content (heap_get_chunk_run layout m) + rb_size b) ≤
    spare (run_f_alignment x (heap_get_chunk_run layout m)) * run_f_block_size x (heap_get_chunk_run layout m);
  rk_units : 0 ≤ block_off m ∧ block_off m + size_idx m ≤ rb_nbits b;
  rk_chunks : chunk_id m + n ≤ MAX_CHUNK;
  rk_count : 1 ≤ n
}.

(** The block of [size_idx m] chunks. *)
Record huge_block_at (x : mem) (m : memory_block) (t f n : Z) : Prop := {
  hk_hdr : hdr_is x (heap_get_chunk_hdr layout m) t f n;
  hk_type : t = CHUNK_TYPE_FREE ∨ t = CHUNK_TYPE_USED;
  hk_state : flags_header f = mb_header_type m;
  hk_off : block_off m = 0;
  hk_chunks : chunk_id m + size_idx m ≤ MAX_CHUNK
}.

Definition unit_bytes (x : mem) (m : memory_block) : Z :=
  match mb_type m with MEMORY_BLOCK_HUGE => CHUNKSIZE | MEMORY_BLOCK_RUN => run_f_block_size x (heap_get_chunk_run layout m) end.

(** A block of the heap, which is within the address space. *)
Record block_placed (x : mem) (m : memory_block) : Prop := {
  bp_heap : 0 ≤ layout ∧ layout + sizeof_heap_header + ZONE_MAX_SIZE * (zone_id m + 1) < 2 ^ 63;
  bp_zone : 0 ≤ zone_id m;
  bp_chunk : 0 ≤ chunk_id m;
  bp_size : 1 ≤ size_idx m;
  bp_header : header_type_to_size (mb_header_type m) < unit_bytes x m * size_idx m;
  bp_none : mb_header_type m = HEADER_NONE → size_idx m = 1;
  bp_type : match mb_type m with
            | MEMORY_BLOCK_HUGE => ∃ t f n, huge_block_at x m t f n
            | MEMORY_BLOCK_RUN => ∃ f n b st, run_block_at x m f n b st
            end
}.

(** The address splits into zone, chunk and the rest. *)
Lemma split_address z c i : 0 ≤ z → 0 ≤ c → 0 ≤ i < CHUNKSIZE → c < MAX_CHUNK →
  layout + sizeof_heap_header + ZONE_MAX_SIZE * (z + 1) < 2 ^ 63 → 0 ≤ layout →
  let a := GET_CHUNK layout z c + i in
  let off := u64 (a - (layout + sizeof_heap_header)) in
  u32 (off / ZONE_MAX_SIZE) = z ∧ u64 (off - (ZONE_MAX_SIZE * z + sizeof_zone)) = CHUNKSIZE * c + i ∧
  u32 ((CHUNKSIZE * c + i) / CHUNKSIZE) = c ∧ 0 ≤ a < 2 ^ 63.
Proof.
  intros Hz Hc Hi Hm Hl Hl0 a off.
  assert (ZONE_MAX_SIZE = 17178296320) as EZ by done. assert (sizeof_zone = 524288) as Es by done.
  assert (off = ZONE_MAX_SIZE * z + (sizeof_zone + CHUNKSIZE * c + i)) as Eo.
  { unfold off, a, GET_CHUNK, ZID_TO_ZONE. unfold CHUNKSIZE, MAX_CHUNK, sizeof_heap_header in *. rewrite u64_id; rewrite ?EZ, ?Es in *; lia. }
  split_and!.
  - assert (off / ZONE_MAX_SIZE = z) as ->.
    { symmetry. apply (Z.div_unique _ _ z (sizeof_zone + CHUNKSIZE * c + i)); unfold CHUNKSIZE, MAX_CHUNK, sizeof_heap_header in *; lia. }
    apply u32_id. unfold sizeof_heap_header in *. lia.
  - rewrite Eo. unfold CHUNKSIZE, MAX_CHUNK, sizeof_heap_header in *. rewrite u64_id; lia.
  - assert ((CHUNKSIZE * c + i) / CHUNKSIZE = c) as -> by (symmetry; apply (Z.div_unique _ _ c i); lia).
    apply u32_id. unfold MAX_CHUNK in *. lia.
  - unfold a, GET_CHUNK, ZID_TO_ZONE. unfold CHUNKSIZE, MAX_CHUNK, sizeof_heap_header in *. lia.
  - unfold a, GET_CHUNK, ZID_TO_ZONE. unfold CHUNKSIZE, MAX_CHUNK, sizeof_heap_header in *. lia.
Qed.

(** The size in the header of a block does not depend on its size index. *)
Lemma get_size_set h k m x : header_get_size layout h (set_size_idx k m) x = header_get_size layout h m x.
Proof. by destruct m, h. Qed.

Lemma header_type_read x m t f n : hdr_is x (heap_get_chunk_hdr layout m) t f n → memblock_header_type layout m x = (Ok (flags_header f), x).
Proof. intros [_ Hf _]. unfold memblock_header_type. erewrite bind_ok by reflexivity. cbn. by rewrite Hf. Qed.

Lemma detect_type_read x m t f n : hdr_is x (heap_get_chunk_hdr layout m) t f n →
  t = CHUNK_TYPE_FREE ∨ t = CHUNK_TYPE_USED ∨ t = CHUNK_TYPE_RUN →
  memblock_detect_type layout m x = (Ok (if t =? CHUNK_TYPE_RUN then MEMORY_BLOCK_RUN else MEMORY_BLOCK_HUGE), x).
Proof.
  intros [Ht _ _] Hty. unfold memblock_detect_type. erewrite bind_ok by reflexivity. cbv beta. rewrite Ht. by destruct Hty as [-> |[-> | ->]].
Qed.

Lemma from_offset_huge x m size : block_placed x m → mb_type m = MEMORY_BLOCK_HUGE →
  header_get_size layout (mb_header_type m) m x = (Ok size, x) → CALC_SIZE_IDX CHUNKSIZE size = size_idx m →
  memblock_from_offset layout (huge_get_real_data layout m + header_type_to_size (mb_header_type m)) x = (Ok m, x).
Proof.
  intros [[Hl0 Hl] Hz Hc Hs Hh _ Hty] Et Hsz Hcalc. rewrite Et in Hty. destruct Hty as (t & f & n & [Hhdr Ht Hst Hoff Hmax]).
  assert (0 ≤ header_type_to_size (mb_header_type m) < CHUNKSIZE) as Hi by (destruct (mb_header_type m); unfold CHUNKSIZE; cbn; lia).
  destruct (split_address (zone_id m) (chunk_id m) _ Hz Hc Hi ltac:(lia) Hl Hl0) as (E1 & E2 & E3 & _).
  unfold memblock_from_offset, memblock_from_offset_opt. unfold huge_get_real_data. cbv zeta. rewrite !E1, !E2, !E3.
  erewrite bind_ok by reflexivity. cbn [id]. fold (heap_get_chunk_hdr layout m).
  assert (hdr_type x (heap_get_chunk_hdr layout m) =? CHUNK_TYPE_RUN_DATA = false) as -> by (rewrite (hi_type _ _ _ _ _ Hhdr); by destruct Ht as [-> | ->]).
  replace (u64 (CHUNKSIZE * chunk_id m + header_type_to_size (mb_header_type m) - CHUNKSIZE * chunk_id m)) with (header_type_to_size (mb_header_type m))
    by (rewrite u64_id; unfold CHUNKSIZE in *; lia).
  set (m' := block_at (chunk_id m) (zone_id m) 0). change (heap_get_chunk_hdr layout m) with (heap_get_chunk_hdr layout m') in Hhdr.
  erewrite bind_ok by (by eapply header_type_read). rewrite Hst, Z.sub_diag. cbn [u64 Z.modulo Z.eqb negb].
  erewrite bind_ok by (eapply detect_type_read; [exact Hhdr|tauto]).
  replace (if t =? CHUNK_TYPE_RUN then MEMORY_BLOCK_RUN else MEMORY_BLOCK_HUGE) with MEMORY_BLOCK_HUGE by (by destruct Ht as [-> | ->]).
  change (u64 0 =? 0) with true. cbn [negb]. rewrite bool_decide_true by done. erewrite bind_ok by reflexivity. erewrite bind_ok by reflexivity. cbn [fst snd].
  assert (set_state (mb_header_type m) MEMORY_BLOCK_HUGE m' = set_size_idx 0 m) as -> by (destruct m; cbn in *; by subst).
  erewrite bind_ok. 2: { erewrite bind_ok by (by rewrite get_size_set). reflexivity. }
  rewrite Hcalc. cbn. by destruct m.
Qed.

(** The units of a run are in its chunks. *)
Lemma run_units_inside x m f n b st : block_placed x m → mb_type m = MEMORY_BLOCK_RUN → run_block_at x m f n b st →
  let u := run_f_block_size x (heap_get_chunk_run layout m) in
  let i := st - heap_get_chunk_run layout m + u * block_off m in
  1 ≤ u < 2 ^ 63 ∧ (16 ≤ st - heap_get_chunk_run layout m ∧ 0 ≤ u * block_off m) ∧ i + u * size_idx m ≤ CHUNKSIZE * n ∧ header_type_to_size (mb_header_type m) < u * size_idx m.
Proof.
  intros [_ _ Hc Hs Hh _ _] Et [_ _ _ _ [G1 G2 G3 G4 _] _ Hfirst [Ho Hu] Hmax] u i. unfold unit_bytes in Hh. rewrite Et in Hh. fold u in Hfirst, G4, Hh.
  set (al := run_f_alignment x (heap_get_chunk_run layout m)) in *.
  assert (0 ≤ header_type_to_size (mb_header_type m)) by (by destruct (mb_header_type m)).
  assert (1 ≤ u) as Hu1 by nia. assert (0 ≤ spare al ≤ 1) as Hsp by (unfold spare; case_match; lia).
  unfold content_bytes, RUN_BASE_METADATA_SIZE, run_content, RUN_BASE_METADATA_SIZE in *.
  assert (u * (block_off m + size_idx m) ≤ u * rb_nbits b) by nia.
  assert (rb_nbits b * u ≤ CHUNKSIZE * n) by nia. unfold CHUNKSIZE, MAX_CHUNK in *.
  split_and!; [done|nia|lia|nia|unfold i; nia|done].
Qed.

Lemma run_chunk_found x m f n b st d : run_block_at x m f n b st → 0 ≤ chunk_id m → 0 ≤ d < n →
  (if hdr_type x (GET_CHUNK_HDR layout (zone_id m) (chunk_id m + d)) =? CHUNK_TYPE_RUN_DATA
   then u32 (chunk_id m + d - hdr_size_idx x (GET_CHUNK_HDR layout (zone_id m) (chunk_id m + d))) else chunk_id m + d) = chunk_id m.
Proof.
  intros [Hhdr _ Hdata _ _ _ _ _ Hmax] Hc Hd. unfold MAX_CHUNK in Hmax.
  assert (GET_CHUNK_HDR layout (zone_id m) (chunk_id m + d) = heap_get_chunk_hdr layout m + 8 * d) as -> by (unfold heap_get_chunk_hdr, GET_CHUNK_HDR; lia).
  destruct (decide (d = 0)) as [->|].
  - rewrite Z.mul_0_r, !Z.add_0_r, (hi_type _ _ _ _ _ Hhdr). done.
  - destruct (Hdata d) as (f' & [-> _ ->]); [lia|]. cbn. rewrite Z.add_simpl_r || replace (chunk_id m + d - d) with (chunk_id m) by lia. apply u32_id. lia.
Qed.

(** The number of the unit is cut to 16 bits; what the cut leaves of the offset is not 0. *)
Lemma unit_found u d o hs : 1 ≤ u → 16 ≤ d → 0 ≤ o → 0 ≤ hs → d + u * o + hs < 2 ^ 63 → 0 ≤ u * o →
  let off := u64 (u64 (d + u * o + hs - hs - u64 (d - RUN_BASE_METADATA_SIZE)) - RUN_BASE_METADATA_SIZE) in
  u16 (off / u) = u16 o ∧ u64 (off - u64 (u16 (off / u) * u)) = u * (o - u16 o).
Proof.
  intros Hu Hd Ho Hh Hlt Hpos. unfold RUN_BASE_METADATA_SIZE. cbv zeta. rewrite (u64_id (d - 16)) by lia.
  rewrite (u64_id (_ - (d - 16))) by lia. replace (d + u * o + hs - hs - (d - 16) - 16) with (u * o) by lia.
  rewrite (u64_id (u * o)) by lia. rewrite (Z.mul_comm u o), Z.div_mul by lia.
  assert (0 ≤ u16 o ≤ o) as Hc by (unfold u16; split; [apply Z.mod_pos_bound; lia|apply Z.mod_le; lia]).
  rewrite (u64_id (u16 o * u)) by nia. split; [done|]. rewrite u64_id by nia. lia.
Qed.

Lemma unit_cut o : 0 ≤ o → o - u16 o = 0 ↔ o < 2 ^ 16.
Proof. intros Ho. unfold u16. pose proof (Z.mod_pos_bound o (2 ^ 16) ltac:(lia)). split; [lia|]. intros Hlt. rewrite Z.mod_small by lia. lia. Qed.

(** The header of any unit of a run can be read. *)
Lemma run_size_reads x m b st h : mb_type m = MEMORY_BLOCK_RUN → run_get_data_start layout m x = (Ok st, x) →
  run_f_block_size x (heap_get_chunk_run layout m) ≠ 0 → ∃ s, header_get_size layout h (set_block b 0 m) x = (Ok s, x).
Proof.
  intros Et Hst Hu. assert (∃ a, mop_get_real_data layout (set_block b 0 m) x = (Ok a, x)) as (a & Ea).
  { unfold mop_get_real_data. cbn [set_block mb_type]. rewrite Et. unfold run_get_real_data. erewrite bind_ok by reflexivity.
    change (heap_get_chunk_run layout (set_block b 0 m)) with (heap_get_chunk_run layout m). rewrite (proj2 (Z.eqb_neq _ 0)) by done.
    eexists. by erewrite bind_ok by exact Hst. }
  destruct h; cbn [header_get_size].
  - eexists. unfold memblock_header_legacy_get_size. by erewrite bind_ok by exact Ea.
  - eexists. unfold memblock_header_compact_get_size. by erewrite bind_ok by exact Ea.
  - eexists. unfold memblock_header_none_get_size, mop_block_size. cbn [set_block mb_type]. rewrite Et. reflexivity.
Qed.

Lemma from_offset_run x m f n b st size : block_placed x m → mb_type m = MEMORY_BLOCK_RUN → run_block_at x m f n b st →
  header_get_size layout (mb_header_type m) m x = (Ok size, x) →
  CALC_SIZE_IDX (run_f_block_size x (heap_get_chunk_run layout m)) size = size_idx m →
  memblock_from_offset layout (st + run_f_block_size x (heap_get_chunk_run layout m) * block_off m + header_type_to_size (mb_header_type m)) x =
    (if block_off m <? 2 ^ 16 then Ok m else Undef, x).
Proof.
  intros Hp Et Hrun Hsz Hcalc. destruct (run_units_inside x m f n b st Hp Et Hrun) as (Hu & [Hi Hb] & Hin & Hh).
  pose proof Hp as [[Hl0 Hl] Hz Hc Hs _ _ _]. pose proof Hrun as [Hhdr Hst _ _ _ Hstart _ [Ho _] Hmax].
  set (u := run_f_block_size x (heap_get_chunk_run layout m)) in *. set (hs := header_type_to_size (mb_header_type m)) in *.
  assert (0 ≤ hs) as Hhs by (unfold hs; by destruct (mb_header_type m)).
  set (i := st - heap_get_chunk_run layout m + u * block_off m + hs).
  assert (0 ≤ i < CHUNKSIZE * n) as Hi0 by (unfold i; lia).
  pose proof (Z.div_mod i CHUNKSIZE ltac:(unfold CHUNKSIZE; lia)) as Hdm. pose proof (Z.mod_pos_bound i CHUNKSIZE ltac:(unfold CHUNKSIZE; lia)) as Hm.
  assert (0 ≤ i / CHUNKSIZE < n) as Hd by (split; [apply Z.div_pos; unfold CHUNKSIZE; lia|apply Z.div_lt_upper_bound; unfold CHUNKSIZE in *; lia]).
  set (d := i / CHUNKSIZE) in *.
  destruct (split_address (zone_id m) (chunk_id m + d) (i mod CHUNKSIZE) Hz ltac:(lia) Hm ltac:(lia) Hl Hl0) as (E1 & E2 & E3 & _).
  assert (st + u * block_off m + hs = GET_CHUNK layout (zone_id m) (chunk_id m + d) + i mod CHUNKSIZE) as Ea.
  { unfold i, heap_get_chunk_run, GET_CHUNK_RUN, GET_CHUNK in *. lia. }
  unfold memblock_from_offset, memblock_from_offset_opt. rewrite Ea. cbv zeta. rewrite !E1, !E2, !E3.
  erewrite bind_ok by reflexivity. cbn [id]. rewrite (run_chunk_found x m f n b st d Hrun Hc Hd).
  replace (u64 (CHUNKSIZE * (chunk_id m + d) + i mod CHUNKSIZE - CHUNKSIZE * chunk_id m)) with i
    by (unfold CHUNKSIZE, MAX_CHUNK in *; rewrite u64_id; lia).
  set (m' := block_at (chunk_id m) (zone_id m) 0). change (heap_get_chunk_hdr layout m) with (heap_get_chunk_hdr layout m') in Hhdr.
  erewrite bind_ok by (by eapply header_type_read). rewrite Hst. fold hs.
  rewrite (u64_id (i - hs)) by (unfold i, CHUNKSIZE, MAX_CHUNK in *; lia). rewrite (proj2 (Z.eqb_neq _ _)) by (unfold i; lia). cbn [negb].
  erewrite bind_ok by (eapply detect_type_read; [exact Hhdr|tauto]). change (CHUNK_TYPE_RUN =? CHUNK_TYPE_RUN) with true. cbv iota.
  rewrite bool_decide_true by done.
  assert (set_state (mb_header_type m) MEMORY_BLOCK_RUN m' = set_block 0 0 m) as ->
    by (unfold set_state, set_block, m', block_at; cbn; by rewrite Et).
  erewrite bind_ok by (unfold mop_block_size; cbn [set_block mb_type]; rewrite Et; reflexivity).
  change (run_f_block_size x (heap_get_chunk_run layout (set_block 0 0 m))) with u. rewrite (proj2 (Z.eqb_neq u 0)) by lia.
  assert (run_get_data_offset layout (set_block 0 0 m) x = (Ok (u64 (st - run_content (heap_get_chunk_run layout m))), x)) as Eo
    by (unfold run_get_data_offset; by erewrite bind_ok by exact Hstart).
  destruct (unit_found u (st - heap_get_chunk_run layout m) (block_off m) hs) as [E4 E5]; [lia|lia|lia|lia|unfold CHUNKSIZE, MAX_CHUNK in *; lia|lia|].
  erewrite bind_ok.
  2: { erewrite bind_ok by exact Eo. cbv zeta. unfold run_content. rewrite Z.sub_add_distr. fold i in E4, E5. rewrite E4 in E5. rewrite E4, E5. reflexivity. }
  cbn [fst snd]. destruct (Z.ltb_spec (block_off m) (2 ^ 16)) as [Hlt|Hge].
  - rewrite (proj2 (unit_cut (block_off m) Ho) Hlt), Z.mul_0_r. unfold u16. rewrite Z.mod_small by lia. erewrite bind_ok.
    2: { erewrite bind_ok; [reflexivity|]. rewrite <-Hsz. by destruct m, mb_header_type. }
    rewrite Hcalc. cbn. by destruct m.
  - destruct (run_size_reads x m (u16 (block_off m)) st (mb_header_type m) Et Hstart ltac:(lia)) as (sz & Es).
    erewrite bind_ok by (by erewrite bind_ok by exact Es). pose proof (unit_cut (block_off m) Ho). by rewrite (proj2 (Z.eqb_neq _ 0)) by nia.
Qed.
End offset.
