(* ===== verification/MemblockTheorems.v ===== *)
(** * libpmemobj: theorems about memory blocks *)

From stdpp Require Import base gmap list numbers.
From S2P Require Import Prelude Memory Pmem Util Ulog UlogSpec UlogEntry Vecq Container ContainerSeglists Bucket Memops.
From S2P Require Import MemopsCrash MemopsExample Memblock MemblockFree MemblockRun MemblockAlloc MemblockHdr.
Local Open Scope Z_scope.

(** ** From a block to its address and back *)

Section offset.
Context (layout : Z).

Lemma block_size_read x m : mop_block_size layout m x = (Ok (unit_bytes layout x m), x).
Proof. unfold mop_block_size, unit_bytes. by destruct (mb_type m). Qed.

Lemma chunk_address z c : GET_CHUNK layout z c = layout + 1024 + 17178296320 * z + 524288 + 262144 * c.
Proof. done. Qed.

(** The address of a unit. *)
Lemma run_data_read x m f n b st : block_placed layout x m → mb_type m = MEMORY_BLOCK_RUN → run_block_at layout x m f n b st →
  let a := st + run_f_block_size x (heap_get_chunk_run layout m) * block_off m in
  real_data_at layout x m a ∧ GET_CHUNK layout (zone_id m) (chunk_id m) + 16 ≤ a < 2 ^ 63.
Proof.
  intros Hp Et Hrun. destruct (run_units_inside layout x m f n b st Hp Et Hrun) as (Hu & [Hi Ho] & Hin & _).
  pose proof Hp as [[Hl0 Hl] Hz Hc Hs _ _ _]. pose proof Hrun as [_ _ _ _ _ Hst _ _ Hmax _]. cbv zeta.
  change (layout + 1024 + 17178296320 * (zone_id m + 1) < 2 ^ 63) in Hl.
  set (u := run_f_block_size x (heap_get_chunk_run layout m)) in *. change (heap_get_chunk_run layout m) with (GET_CHUNK layout (zone_id m) (chunk_id m)) in *.
  rewrite chunk_address in *. unfold MAX_CHUNK, CHUNKSIZE in *. split; [|nia].
  unfold real_data_at, mop_get_real_data, run_get_real_data. rewrite Et. erewrite bind_ok by reflexivity.
  change (run_f_block_size x (heap_get_chunk_run layout m)) with u. rewrite (proj2 (Z.eqb_neq u 0)) by lia. erewrite bind_ok by exact Hst.
  unfold mret, M_ret. rewrite (u64_id (u * block_off m)), u64_id by nia. done.
Qed.

(** Where the data of a block is: behind every header of its zone and behind the headers of its run. *)
Lemma placed_data x m : block_placed layout x m → ∃ a, real_data_at layout x m a ∧
  GET_CHUNK layout (zone_id m) (chunk_id m) ≤ a ∧ 0 ≤ a < 2 ^ 63 ∧
  1 ≤ unit_bytes layout x m ∧ unit_bytes layout x m * size_idx m < 2 ^ 48 ∧
  (mb_type m = MEMORY_BLOCK_RUN → heap_get_chunk_run layout m + 16 ≤ a).
Proof.
  intros Hp. pose proof Hp as [[Hl0 Hl] Hz Hc Hs _ _ Hty]. pose proof (chunk_address (zone_id m) (chunk_id m)) as Eg.
  unfold unit_bytes. destruct (mb_type m) eqn:Et.
  - destruct Hty as (t & f & n & [_ _ _ _ Hmax]). change (layout + 1024 + 17178296320 * (zone_id m + 1) < 2 ^ 63) in Hl. unfold MAX_CHUNK, CHUNKSIZE in *.
    exists (GET_CHUNK layout (zone_id m) (chunk_id m)). split_and!; [|done|lia|lia|lia|lia|done].
    unfold real_data_at, mop_get_real_data. by rewrite Et.
  - destruct Hty as (f & n & b & st & Hrun). destruct (run_units_inside layout x m f n b st Hp Et Hrun) as (Hu & [Hi Ho] & Hin & _).
    destruct (run_data_read x m f n b st Hp Et Hrun) as [Hd Hlow]. pose proof (rk_chunks _ _ _ _ _ _ _ Hrun) as Hmax.
    eexists. split; [exact Hd|]. change (heap_get_chunk_run layout m) with (GET_CHUNK layout (zone_id m) (chunk_id m)) in *.
    unfold MAX_CHUNK, CHUNKSIZE in *. split_and!; [lia|lia|lia|lia|lia|lia].
Qed.

(** The headers of a zone are in front of its chunks. *)
Lemma headers_in_front m i a : 0 ≤ chunk_id m → 0 ≤ i → chunk_id m + i < MAX_CHUNK → GET_CHUNK layout (zone_id m) (chunk_id m) ≤ a →
  heap_get_chunk_hdr layout m + 8 * i + 8 ≤ a.
Proof. unfold heap_get_chunk_hdr, GET_CHUNK_HDR, GET_CHUNK, sizeof_zone, CHUNKSIZE, MAX_CHUNK. lia. Qed.

(** A store to the data of a block leaves the block in place. *)
Lemma placed_stored x x' m a : block_placed layout x m → real_data_at layout x m a →
  GET_CHUNK layout (zone_id m) (chunk_id m) ≤ a → (mb_type m = MEMORY_BLOCK_RUN → heap_get_chunk_run layout m + 16 ≤ a) →
  (∀ c, c < a → rd x' c = rd x c) → block_placed layout x' m ∧ unit_bytes layout x' m = unit_bytes layout x m.
Proof.
  intros [Hl Hz Hc Hs Hh Hnone Hty] Ha Hlow Hrunlow Hext.
  assert (∀ t f n i, 0 ≤ i → chunk_id m + i < MAX_CHUNK → hdr_is x (heap_get_chunk_hdr layout m + 8 * i) t f n →
    hdr_is x' (heap_get_chunk_hdr layout m + 8 * i) t f n) as Hhdrs.
  { intros t f n i Hi Hm. apply hdr_is_ext. intros c Hcc. apply Hext. pose proof (headers_in_front m i a Hc Hi Hm Hlow). lia. }
  assert (∀ t f n, chunk_id m + 1 ≤ MAX_CHUNK → hdr_is x (heap_get_chunk_hdr layout m) t f n → hdr_is x' (heap_get_chunk_hdr layout m) t f n) as Hhdr.
  { intros t f n Hm Hx. specialize (Hhdrs t f n 0 ltac:(lia) ltac:(lia)). rewrite Z.mul_0_r, Z.add_0_r in Hhdrs. by apply Hhdrs. }
  unfold unit_bytes in *. destruct (mb_type m) eqn:Et.
  - split; [|done]. split; unfold unit_bytes; rewrite ?Et; [done..|]. destruct Hty as (t & f & n & [H1 H2 H3 H4 H5]).
    exists t, f, n. split; [apply Hhdr; [lia|done]|done..].
  - specialize (Hrunlow eq_refl). destruct Hty as (f & n & b & st & [K1 K2 K3 K4 K5 K6 K7 K8 K10 Hn]).
    assert (∀ c, run_headers layout m c → rd x' c = rd x c) as Hrh.
    { intros c [Hcc|Hcc]; apply Hext; [|lia]. pose proof (headers_in_front m 0 a Hc ltac:(lia) ltac:(lia) Hlow). lia. }
    assert (run_f_block_size x' (heap_get_chunk_run layout m) = run_f_block_size x (heap_get_chunk_run layout m)) as Eu by (by apply block_size_ext).
    assert (run_f_alignment x' (heap_get_chunk_run layout m) = run_f_alignment x (heap_get_chunk_run layout m)) as Eal
      by (apply rd64_ext; intros c Hcc; apply Hrh; right; lia).
    split; [|done]. split; unfold unit_bytes; rewrite ?Et, ?Eu; [done..|]. exists f, n, b, st.
    split; rewrite ?Eu, ?Eal; [apply Hhdr; [lia|done]|done| |by eapply bitmap_ext|done|by eapply data_start_ext|done..].
    intros i Hi. destruct (K3 i Hi) as (f' & Hd). exists f'. apply Hhdrs; [lia|lia|done].
Qed.

Lemma calc_size_idx u n : 1 ≤ u → 1 ≤ n < 2 ^ 32 → CALC_SIZE_IDX u (u * n) = n.
Proof.
  intros Hu Hn. unfold CALC_SIZE_IDX. rewrite (proj2 (Z.eqb_neq _ _)) by nia.
  assert ((u * n - 1) / u = n - 1) as -> by (symmetry; apply (Z.div_unique _ _ _ (u - 1)); nia). replace (n - 1 + 1) with n by lia. apply u32_id. lia.
Qed.

(** The size in the header of a block, which is the size of a unit when there is no header. *)
Lemma header_size_read x m size extra flags : block_placed layout x m → header_holds layout x m size extra flags →
  size = unit_bytes layout x m * size_idx m → header_get_size layout (mb_header_type m) m x = (Ok size, x).
Proof.
  intros Hp Hh ->. destruct Hh as [Et|(H & _)]; [|done]. rewrite Et, (bp_none _ _ _ Hp Et), Z.mul_1_r. cbn [header_get_size].
  unfold memblock_header_none_get_size, mop_block_size, unit_bytes. by destruct (mb_type m).
Qed.

Lemma placed_size x m : block_placed layout x m → size_idx m < 2 ^ 32.
Proof.
  intros [_ _ Hc _ _ _ Hty]. destruct (mb_type m).
  - destruct Hty as (t & f & n & [_ _ _ _ H]). unfold MAX_CHUNK in *. lia.
  - destruct Hty as (f & n & b & st & [_ _ _ _ [G _ _ _ _] _ _ [? ?] _ _]). lia.
Qed.

Lemma from_offset_placed x m d size extra flags : block_placed layout x m → real_data_at layout x m d →
  header_holds layout x m size extra flags → size = unit_bytes layout x m * size_idx m → 1 ≤ unit_bytes layout x m → 0 ≤ d < 2 ^ 63 →
  memblock_from_offset layout (d + header_type_to_size (mb_header_type m)) x = (if block_off m <? 2 ^ 16 then Ok m else Undef, x).
Proof.
  intros Hp Hd Hh Hsz Hu Hd63. pose proof (header_size_read _ _ _ _ _ Hp Hh Hsz) as Hr. pose proof (placed_size _ _ Hp) as Hn.
  pose proof (bp_size _ _ _ Hp) as Hn1. assert (CALC_SIZE_IDX (unit_bytes layout x m) size = size_idx m) as Hcalc by (rewrite Hsz; apply calc_size_idx; lia).
  unfold real_data_at, mop_get_real_data, unit_bytes in *. destruct (mb_type m) eqn:Et.
  - injection Hd as <-. pose proof (bp_type _ _ _ Hp) as Hty. rewrite Et in Hty. destruct Hty as (t & f & n & Hk). rewrite (hk_off _ _ _ _ _ _ Hk).
    by apply (from_offset_huge layout x m size).
  - pose proof (bp_type _ _ _ Hp) as Hty. rewrite Et in Hty. destruct Hty as (f & n & b & st & Hrun).
    destruct (run_data_read x m f n b st Hp Et Hrun) as [Hd' _]. unfold real_data_at, mop_get_real_data in Hd'. rewrite Et, Hd in Hd'. injection Hd' as ->.
    by apply (from_offset_run layout x m f n b st size).
Qed.

(** C26: the way from an object to its block and back.  Write the header of any block of the heap, huge or a part of a run of any number of
    chunks, with any of the three header formats; then [memblock_from_offset], given the
    address of the user data, returns this block: its zone, its chunk, its first unit, its header type and its size, if it starts in the first 65536 units of its run.  For a block further on, which a run of several chunks with
    small units has, the unit is cut to 16 bits and the assertion at the end of the function fails.  The extra field and the flags
    are read back as well (a block without a header has none). *)
Theorem memblock_offset_roundtrip (o : pmem_ops) `{!OpsSpec o} padding m p extra flags a :
  length padding = 48%nat → Forall is_byte padding → block_placed layout (pm_mem p) m → 0 ≤ extra < 2 ^ 64 → 0 ≤ flags < 2 ^ 16 →
  mop_get_user_data layout m (pm_mem p) = (Ok a, pm_mem p) →
  ∃ p', block_write_header o layout padding m extra flags p = (Ok tt, p') ∧
    memblock_from_offset layout a (pm_mem p') = (if block_off m <? 2 ^ 16 then Ok m else Undef, pm_mem p') ∧
    (mb_header_type m = HEADER_NONE ∨
     block_get_extra layout m (pm_mem p') = (Ok extra, pm_mem p') ∧ block_get_flags layout m (pm_mem p') = (Ok flags, pm_mem p')).
Proof.
  intros Hpad Hpadb Hp He Hf Ha. destruct (placed_data _ _ Hp) as (d & Hd & Hlow & Hd63 & Hu & Hsz & Hrl).
  set (size := unit_bytes layout (pm_mem p) m * size_idx m) in *.
  assert (a = d + header_type_to_size (mb_header_type m)) as ->.
  { unfold mop_get_user_data in Ha. erewrite bind_ok in Ha by exact Hd. by injection Ha as <-. }
  assert (block_get_real_size layout m (pm_mem p) = (Ok size, pm_mem p)) as Esz.
  { unfold block_get_real_size. rewrite (proj2 (Z.eqb_neq _ _)) by (destruct Hp; lia). cbn [negb].
    erewrite bind_ok by apply block_size_read.
    unfold mret, M_ret. rewrite u64_id; [done|]. unfold size in *. destruct Hp. nia. }
  assert (mb_type m = MEMORY_BLOCK_RUN → ∀ c, run_headers layout m c → ¬ (d ≤ c < d + size)) as Hap.
  { intros Et c [Hc|Hc]; [|specialize (Hrl Et); lia]. pose proof (headers_in_front m 0 d) as Hfr.
    destruct Hp as [_ _ Hc0 _ _ _ Hty]. rewrite Et in Hty. destruct Hty as (f & n & b & st & [_ _ _ _ _ _ _ _ ? ?]). lia. }
  destruct (header_write_reads layout o padding Hpad Hpadb m p d size extra flags Hd) as (p' & E & Hout & Hh);
    [unfold size; destruct Hp; nia|done|done|done|destruct Hp; lia|].
  exists p'. split; [|split].
  - unfold block_write_header. erewrite bind_ok by (unfold look; change (mem_of p) with (pm_mem p); by rewrite Esz). done.
  - destruct (placed_stored (pm_mem p) (pm_mem p') m d) as [Hp' Eu]; [done..|by intros c Hc; apply Hout; lia|].
    apply (from_offset_placed _ _ _ size extra flags); [done| |done|by rewrite Eu|by rewrite Eu|done].
    eapply real_data_ext; [|exact Hd]. intros Et c Hc. apply Hout. intros Hin. by apply (Hap Et c Hc).
  - destruct Hh as [Hh|(_ & H1 & H2)]; [by left|by right].
Qed.
End offset.

(** ** The free blocks of a run *)

Section free.
Context (layout : Z) {St : Type} `{!HasMem St} (cb : memory_block → M St Z).
Context (cb_mem : ∀ m s, mem_of (cb m s).2 = mem_of s).

(** C27: the free blocks of a run.  [run_iterate_free] calls back with exactly the maximal sequences of clear bits within the values of the
    bitmap, in order, until a callback returns something else than 0; [run_calc_free] gives the sum and the largest of their sizes; and a unit is in one of
    them exactly when its bit is clear. *)
Theorem run_free_blocks m b s : rebuilt layout m s → bitmap_at layout (mem_of s) m b → 0 ≤ rb_nvalues b < 2 ^ 26 →
  let fb := free_blocks (mem_of s) m (rb_values b) (Z.to_nat (rb_nvalues b)) 0 in
  run_iterate_free layout cb m s = call_all cb fb s ∧
  run_calc_free layout m 0 0 (mem_of s) = (Ok (sum_sizes fb, max_size fb), mem_of s) ∧
  (∀ k, 0 ≤ k < 64 * rb_nvalues b →
    bitmap_bit (mem_of s) (rb_values b) k = false ↔ ∃ f, f ∈ fb ∧ block_off f ≤ k < block_off f + size_idx f) ∧
  ∀ f, f ∈ fb → 1 ≤ size_idx f ≤ 64 ∧ block_off f mod 64 + size_idx f ≤ 64 ∧ chunk_id f = chunk_id m ∧ zone_id f = zone_id m.
Proof using cb_mem.
  intros Hr Hb Hn fb. split_and!.
  - by apply run_iterate_free_spec; [..|lia].
  - unfold run_calc_free. erewrite bind_ok by exact Hb. erewrite bind_ok by reflexivity. cbn [id].
    rewrite (calc_free_loop_spec _ m) by lia. fold fb. rewrite Z.add_0_l, Z.max_r by apply max_size_nonneg. done.
  - intros k Hk. apply free_blocks_bits. lia.
  - intros f Hf. by apply (free_blocks_size (mem_of s) m (rb_values b) (Z.to_nat (rb_nvalues b))).
Qed.
End free.

(** ** A new run *)

(** The chunks and bitmaps for which the layout of a run is known to fit. *)
Definition run_request (n flags unit_size alignment : Z) : Prop :=
  1 ≤ n ∧ 16 ≤ unit_size ∧ (if has_flag flags CHUNK_FLAG_FLEX_BITMAP then unit_size ≤ 65536 * n else unit_size ≤ 65536) ∧
  0 ≤ alignment < 2 ^ 64 ∧ 0 ≤ flags < 2 ^ 16.

Lemma request_geometry n flags unit_size alignment content b : run_request n flags unit_size alignment → n ≤ MAX_CHUNK →
  memblock_run_bitmap n flags unit_size alignment content = Ok (b, n) → rb_values b = content ∧ run_geometry b n unit_size alignment.
Proof.
  intros (Hn & Hu & Hf & _) Hmax E. destruct (has_flag flags CHUNK_FLAG_FLEX_BITMAP) eqn:Ef.
  - destruct (flex_geometry n flags unit_size alignment content) as (b' & E' & H); [lia|lia|done|]. rewrite E in E'. by injection E' as <-.
  - destruct (default_geometry n flags unit_size alignment content) as (b' & n' & E' & _ & H); [lia|lia|done|]. rewrite E in E'.
    by injection E' as <- <-.
Qed.

(** a new run.  [memblock_run_init] on free chunks makes a run whose bitmap and units fit into the chunks, in which exactly the units
    up to [free_units] are free and all other bits of the bitmap are set; the headers of the other chunks say where the run starts.  [free_units] is the number of units, except that when
    this number is a multiple of 64 the last 64 of them are marked as used: the code shifts by the number of bits in the last value, which is then 0. *)
Theorem memblock_run_init_free (o : pmem_ops) `{!OpsSpec o} layout chunk zone n flags unit_size alignment b p f0 :
  let m := block_at chunk zone n in
  0 ≤ chunk → chunk + n ≤ MAX_CHUNK → run_request n flags unit_size alignment →
  memblock_run_bitmap n flags unit_size alignment (run_content (heap_get_chunk_run layout m)) = Ok (b, n) →
  hdr_is (pm_mem p) (heap_get_chunk_hdr layout m) CHUNK_TYPE_FREE f0 n →
  ∃ p', memblock_run_init o layout chunk zone n flags unit_size alignment p = (Ok (set_state (flags_header flags) MEMORY_BLOCK_RUN m), p') ∧
    run_geometry b n unit_size alignment ∧ bitmap_at layout (pm_mem p') m b ∧
    (∀ k, 0 ≤ k < 64 * rb_nvalues b → bitmap_bit (pm_mem p') (rb_values b) k = (free_units b <=? k)) ∧
    hdr_is (pm_mem p') (heap_get_chunk_hdr layout m) CHUNK_TYPE_RUN flags n ∧
    (∀ i, 1 ≤ i < n → hdr_is (pm_mem p') (heap_get_chunk_hdr layout m + 8 * i) CHUNK_TYPE_RUN_DATA 0 i).
Proof.
  intros m Hc Hcn Hreq Hb Hfree. pose proof Hreq as (Hn & Hu & Huf & Hal & Hfl). unfold MAX_CHUNK in Hcn.
  destruct (request_geometry _ _ _ _ _ _ Hreq ltac:(unfold MAX_CHUNK; lia) Hb) as [Hv Hg].
  assert (unit_size < 2 ^ 64) as Hu64 by (case_match; lia).
  destruct (run_init_run o layout chunk zone n flags unit_size alignment b n Hb Hg Hv Hc ltac:(lia) ltac:(unfold MAX_CHUNK; lia) ltac:(lia) Hal Hfl p f0 n Hfree ltac:(lia))
    as (p' & E & Hm).
  exists p'. rewrite Hm. split_and!; [done|done|..].
  - unfold bitmap_at. apply init_bitmap; try done; unfold MAX_CHUNK; lia.
  - intros k Hk. apply init_bits; try done; unfold MAX_CHUNK; lia.
  - apply hdr_is_wr; unfold CHUNK_TYPE_RUN; lia.
  - intros i Hi. unfold m. apply hdr_is_out; [rewrite length_hdr_bytes; lia|]. apply data_hdrs_is; lia.
Qed.

(** ** Witnesses *)

(** Three chunks at 4096 that become a run of eleven units of 64 KiB, with compact headers and a flexible bitmap. *)
Definition ex_run3 : pmem :=
  ((memblock_huge_init clflush_ops 4096 0 0 3;;
    memblock_run_init clflush_ops 4096 0 0 3 (CHUNK_FLAG_COMPACT_HEADER ||| CHUNK_FLAG_FLEX_BITMAP) 65536 0) (Pmem ∅ [])).2.
Definition ex_run3_bitmap : run_bitmap := RunBitmap 1 11 48 529424.
(** Two units, the first one in the second chunk. *)
Definition ex_unit : memory_block := MemoryBlock 0 0 2 7 HEADER_COMPACT MEMORY_BLOCK_RUN.

Lemma data_start_mem layout m x : (run_get_data_start layout m x).2 = x.
Proof.
  unfold run_get_data_start, mbind, M_bind, gets, mret, M_ret. pose proof (get_bitmap_mem layout m x) as H.
  destruct (run_get_bitmap layout m x) as [[b|e|] x']; cbn in H; subst; repeat case_match; simplify_eq; done.
Qed.

Lemma reads_ok {A} (f : M mem A) x v : (f x).2 = x → (f x).1 = Ok v → f x = (Ok v, x).
Proof. destruct (f x) as [r y]. cbn. by intros -> ->. Qed.

Ltac hdr_vm := split; vm_compute; reflexivity.

Lemma ex_unit_run : run_block_at 4096 (pm_mem ex_run3) ex_unit 9 3 ex_run3_bitmap 529472.
Proof.
  assert (run_f_block_size (pm_mem ex_run3) (heap_get_chunk_run 4096 ex_unit) = 65536) as Eu by (vm_compute; reflexivity).
  assert (run_f_alignment (pm_mem ex_run3) (heap_get_chunk_run 4096 ex_unit) = 0) as Ea by (vm_compute; reflexivity).
  split; rewrite ?Eu, ?Ea.
  - hdr_vm.
  - reflexivity.
  - intros i Hi. exists 0. assert (i = 1 ∨ i = 2) as [-> | ->] by lia; hdr_vm.
  - apply reads_ok; [apply get_bitmap_mem|vm_compute; reflexivity].
  - split; vm_compute; intuition congruence.
  - apply reads_ok; [apply data_start_mem|vm_compute; reflexivity].
  - vm_compute. intuition congruence.
  - vm_compute. intuition congruence.
  - vm_compute. congruence.
  - lia.
Qed.

Lemma ex_unit_placed : block_placed 4096 (pm_mem ex_run3) ex_unit.
Proof.
  assert (unit_bytes 4096 (pm_mem ex_run3) ex_unit = 65536) as Eu by (vm_compute; reflexivity).
  split; [vm_compute; intuition congruence|cbn; lia|cbn; lia|cbn; lia|rewrite Eu; cbn; lia|done|].
  cbn. exists 9, 3, ex_run3_bitmap, 529472. apply ex_unit_run.
Qed.

Lemma memblock_offset_roundtrip_witness : ∃ p', block_write_header clflush_ops 4096 (zeros 48) ex_unit 42 3 ex_run3 = (Ok tt, p') ∧
  memblock_from_offset 4096 988240 (pm_mem p') = (Ok ex_unit, pm_mem p') ∧ block_get_extra 4096 ex_unit (pm_mem p') = (Ok 42, pm_mem p').
Proof.
  destruct (memblock_offset_roundtrip 4096 clflush_ops (zeros 48) ex_unit ex_run3 42 3 988240) as (p' & E & H1 & H2).
  - reflexivity.
  - auto with pmdk.
  - apply ex_unit_placed.
  - lia.
  - lia.
  - destruct (run_data_read 4096 (pm_mem ex_run3) ex_unit 9 3 ex_run3_bitmap 529472 ex_unit_placed eq_refl ex_unit_run) as [Hd _].
    unfold mop_get_user_data. erewrite bind_ok by exact Hd.
    assert (run_f_block_size (pm_mem ex_run3) (heap_get_chunk_run 4096 ex_unit) = 65536) as -> by (vm_compute; reflexivity). reflexivity.
  - exists p'. split; [exact E|]. split; [exact H1|]. destruct H2 as [H2|[H2 _]]; [discriminate H2|exact H2].
Defined.

(** Counting the free blocks. *)
Definition count_blocks : memory_block → M (mem * Z) Z := λ _ s, (Ok 0, (s.1, s.2 + 1)).
#[local] Instance pair_has_mem : HasMem (mem * Z) := fst.

Lemma count_blocks_mem m (s : mem * Z) : mem_of (count_blocks m s).2 = mem_of s.
Proof. reflexivity. Qed.

Lemma run_free_blocks_witness :
  run_iterate_free 4096 count_blocks ex_unit (pm_mem ex_run3, 0) =
    call_all count_blocks (free_blocks (pm_mem ex_run3) ex_unit 529424 1 0) (pm_mem ex_run3, 0).
Proof.
  destruct (run_free_blocks 4096 count_blocks count_blocks_mem ex_unit ex_run3_bitmap (pm_mem ex_run3, 0)) as [H _].
  - apply (rebuild_run 4096 ex_unit (pm_mem ex_run3) CHUNK_TYPE_RUN 9 3); [hdr_vm|by left].
  - apply reads_ok; [apply get_bitmap_mem|vm_compute; reflexivity].
  - cbn. lia.
  - exact H.
Defined.

(** Three free chunks. *)
Definition ex_chunks : pmem := (memblock_huge_init clflush_ops 4096 0 0 3 (Pmem ∅ [])).2.

Lemma memblock_run_init_free_witness : ∃ p', memblock_run_init clflush_ops 4096 0 0 3 9 65536 0 ex_chunks =
    (Ok (set_state (flags_header 9) MEMORY_BLOCK_RUN (block_at 0 0 3)), p') ∧
  ∀ k, 0 ≤ k < 64 → bitmap_bit (pm_mem p') 529424 k = (11 <=? k).
Proof.
  destruct (memblock_run_init_free clflush_ops 4096 0 0 3 9 65536 0 ex_run3_bitmap ex_chunks 0) as (p' & E & _ & _ & H & _).
  - lia.
  - unfold MAX_CHUNK. lia.
  - vm_compute. intuition congruence.
  - vm_compute. reflexivity.
  - hdr_vm.
  - exists p'. split; [exact E|]. intros k Hk. apply H. cbn. lia.
Defined.

(** the units that are lost.  A run of one chunk with units of 4064 bytes has 64 units, all of which are marked as used by [memblock_run_init]:
    nothing can ever be allocated from it. *)
Theorem memblock_run_init_loses : ∃ b p', memblock_run_bitmap 1 CHUNK_FLAG_FLEX_BITMAP 4064 0 (run_content (heap_get_chunk_run 4096 (block_at 0 0 1))) = Ok (b, 1) ∧
  rb_nbits b = 64 ∧
  (memblock_huge_init clflush_ops 4096 0 0 1;; memblock_run_init clflush_ops 4096 0 0 1 CHUNK_FLAG_FLEX_BITMAP 4064 0) (Pmem ∅ []) =
    (Ok (set_state HEADER_LEGACY MEMORY_BLOCK_RUN (block_at 0 0 1)), p') ∧
  (run_calc_free 4096 (block_at 0 0 1) 0 0 (pm_mem p')).1 = Ok (0, 0).
Proof.
  set (r := (memblock_huge_init clflush_ops 4096 0 0 1;; memblock_run_init clflush_ops 4096 0 0 1 CHUNK_FLAG_FLEX_BITMAP 4064 0) (Pmem ∅ [])).
  exists (RunBitmap 1 64 48 529424), r.2. split_and!; [vm_compute; reflexivity|reflexivity| |vm_compute; reflexivity].
  assert (r.1 = Ok (set_state HEADER_LEGACY MEMORY_BLOCK_RUN (block_at 0 0 1))) as <- by (vm_compute; reflexivity). by destruct r.
Qed.
