(* ===== verification/AllocClass.v ===== *)
(** * libpmemobj: allocation classes

    Models [libpmemobj/alloc_class.c].  A class is an object in volatile memory; the collection refers to it by its address, from
    the array of identifiers and from the hash table of runs.  [ae_malloc] has the outcomes of the next allocations; when it
    is exhausted an allocation fails. *)

From stdpp Require Import base gmap list numbers.
From S2P Require Import Prelude Memory Util Container ContainerSeglists Bucket Cuckoo Memblock.
Local Open Scope Z_scope.

Definition MAX_ALLOCATION_CLASSES : Z := 255.
Definition DEFAULT_ALLOC_CLASS_ID : Z := 0.
Definition RUN_UNIT_MAX : Z := RUN_BITS_PER_VALUE.

Definition ACLASS_RESERVED : Z := 0xFFFFFFFF.
Definition MAX_RUN_SIZE : Z := CHUNKSIZE * 10.
Definition MAX_RUN_WASTED_BYTES : Z := 1024.
Definition FIRST_GENERATED_CLASS_SIZE : Z := 128.
Definition ALLOC_BLOCK_SIZE_GEN : Z := 64.
Definition MIN_UNIT_SIZE : Z := 128.
Definition RUN_UNIT_MAX_ALLOC : Z := 8.
Definition ALLOC_BLOCK_SIZE : Z := 16.
Definition RUN_MIN_NALLOCS : Z := 200.
Definition RUN_SIZE_IDX_CAP : Z := 16.
Definition ALLOC_CLASS_DEFAULT_FLAGS : Z := CHUNK_FLAG_FLEX_BITMAP.

(** The sizes; the step is 0.05 in all of them. *)
Definition categories : list Z := [FIRST_GENERATED_CLASS_SIZE; 1024; 2048; 4096; 8192; 16384; 32768; 131072; 393216].

Definition SIZE_TO_CLASS_MAP_INDEX (s g : Z) : Z := u64 (1 + u64 (s - 1) / g).
Definition RUN_CLASS_KEY_PACK (map_idx_s flags_s size_idx_s : Z) : Z :=
  u64 (Z.shiftl map_idx_s 32) ||| Z.shiftl flags_s 16 ||| size_idx_s.

(** ** Data *)

Record run_class : Type := RunClass {
  rc_size_idx : Z;
  rc_alignment : Z;
  rc_nallocs : Z
}.
(** [ac_run] is not set in the class of huge blocks. *)
Record alloc_class : Type := AllocClass {
  ac_id : Z;
  ac_flags : Z;
  ac_unit_size : Z;
  ac_header_type : header_type;
  ac_type : alloc_class_type;
  ac_run : option run_class
}.

(** [cc_aclasses]: addresses, 0 for [NULL].  [cc_by_alloc_size]: the bytes of the map, 0xFF where nothing is recorded. *)
Record alloc_class_collection : Type := AllocClassCollection {
  cc_granularity : Z;
  cc_aclasses : list Z;
  cc_last_run_max_size : Z;
  cc_by_alloc_size : gmap Z Z;
  cc_by_unit_size : cuckoo;
  cc_fail_on_missing_class : bool;
  cc_autogenerate_on_missing_class : bool
}.

(** The collection, the classes by address, the next address and the outcomes of allocations. *)
Record aenv : Type := AEnv {
  ae_ac : alloc_class_collection;
  ae_heap : gmap Z alloc_class;
  ae_next : Z;
  ae_malloc : list bool
}.

Local Abbreviation MA A := (M aenv A).

Definition set_ac (f : alloc_class_collection → alloc_class_collection) : MA unit :=
  modify (λ e, AEnv (f (ae_ac e)) (ae_heap e) (ae_next e) (ae_malloc e)).
Definition set_aclasses (l : list Z) (c : alloc_class_collection) : alloc_class_collection :=
  AllocClassCollection (cc_granularity c) l (cc_last_run_max_size c) (cc_by_alloc_size c) (cc_by_unit_size c)
    (cc_fail_on_missing_class c) (cc_autogenerate_on_missing_class c).
Definition set_by_alloc_size (m : gmap Z Z) (c : alloc_class_collection) : alloc_class_collection :=
  AllocClassCollection (cc_granularity c) (cc_aclasses c) (cc_last_run_max_size c) m (cc_by_unit_size c)
    (cc_fail_on_missing_class c) (cc_autogenerate_on_missing_class c).
Definition set_by_unit_size (t : cuckoo) (c : alloc_class_collection) : alloc_class_collection :=
  AllocClassCollection (cc_granularity c) (cc_aclasses c) (cc_last_run_max_size c) (cc_by_alloc_size c) t
    (cc_fail_on_missing_class c) (cc_autogenerate_on_missing_class c).
Definition set_last_run_max_size (n : Z) (c : alloc_class_collection) : alloc_class_collection :=
  AllocClassCollection (cc_granularity c) (cc_aclasses c) n (cc_by_alloc_size c) (cc_by_unit_size c)
    (cc_fail_on_missing_class c) (cc_autogenerate_on_missing_class c).

Definition map_size (granularity : Z) : Z := MAX_RUN_SIZE / granularity + 1.
(** [class_map_by_alloc_size[i]] *)
Definition class_map (i : Z) : MA Z := λ e,
  if (0 <=? i) && (i <? map_size (cc_granularity (ae_ac e)))
  then (Ok (default 255 (cc_by_alloc_size (ae_ac e) !! i)), e) else (Undef, e).

(** [aclasses[i]] *)
Definition aclass_at (i : Z) : MA Z := λ e,
  match lookupZ (cc_aclasses (ae_ac e)) i with Some p => (Ok p, e) | None => (Undef, e) end.
Definition put_aclass (i p : Z) : MA unit :=
  set_ac (λ c, set_aclasses (updZ (cc_aclasses c) i p) c).
(** The object at an address. *)
Definition class_at (p : Z) : MA alloc_class := λ e,
  match ae_heap e !! p with Some c => (Ok c, e) | None => (Undef, e) end.
Definition class_run (c : alloc_class) : MA run_class :=
  match ac_run c with Some r => mret r | None => undef end.

(** 0 for [NULL]; the object is filled in later. *)
Definition Malloc_class : MA Z := λ e,
  match ae_malloc e with
  | true :: l => (Ok (ae_next e), AEnv (ae_ac e) (ae_heap e) (ae_next e + 1) l)
  | false :: l => (Ok 0, AEnv (ae_ac e) (ae_heap e) (ae_next e) l)
  | [] => (Ok 0, e)
  end.
Definition store_class (p : Z) (c : alloc_class) : MA unit :=
  modify (λ e, AEnv (ae_ac e) (<[p := c]> (ae_heap e)) (ae_next e) (ae_malloc e)).
Definition Free_class (p : Z) : MA unit :=
  modify (λ e, AEnv (ae_ac e) (delete p (ae_heap e)) (ae_next e) (ae_malloc e)).

Definition on_class_map {A} (f : M cuckoo_env A) : MA A := λ e,
  let '(r, t) := f (CuckooEnv (cc_by_unit_size (ae_ac e)) (ae_malloc e)) in
  (r, AEnv (set_by_unit_size (ce_table t) (ae_ac e)) (ae_heap e) (ae_next e) (ce_alloc t)).

(** ** Slots *)

(** The slots from [i] on. *)
Fixpoint find_free_loop (n : nat) (i : Z) : MA (option Z) :=
  match n with
  | O => mret None
  | S n =>
      p ← aclass_at i;
      if p =? 0 then put_aclass i ACLASS_RESERVED;; mret (Some (u8 i)) else find_free_loop n (i + 1)
  end.
Definition alloc_class_find_first_free_slot : MA (option Z) := find_free_loop (Z.to_nat MAX_ALLOCATION_CLASSES) 0.

(** [true] for 0. *)
Definition alloc_class_reserve (id : Z) : MA bool :=
  p ← aclass_at id;
  if p =? 0 then put_aclass id ACLASS_RESERVED;; mret true else mret false.
Definition alloc_class_reservation_clear (id : Z) : MA unit :=
  p ← aclass_at id;
  if p =? ACLASS_RESERVED then put_aclass id 0 else undef.

(** ** Creation *)

Definition class_flags (htype : header_type) (alignment : Z) : Z :=
  u16 (header_type_to_flag htype ||| (if alignment =? 0 then 0 else CHUNK_FLAG_ALIGNED)) ||| ALLOC_CLASS_DEFAULT_FLAGS.
Definition run_key (granularity unit_size flags size_idx : Z) : Z :=
  RUN_CLASS_KEY_PACK (u32 (SIZE_TO_CLASS_MAP_INDEX unit_size granularity)) (u16 flags) (u16 size_idx).

(** [error_class_alloc] *)
Definition clear_and_null (id : Z) : MA Z := (if 0 <=? id then alloc_class_reservation_clear id else mret tt);; mret 0.

(** The address of the class, 0 for [NULL].  Without a free slot the object is not freed. *)
Definition alloc_class_new (id : Z) (type : alloc_class_type) (htype : header_type) (unit_size alignment size_idx : Z) : MA Z :=
  c ← Malloc_class;
  if c =? 0 then clear_and_null id
  else
    let flags := class_flags htype alignment in
    let finish (id : Z) (run : option run_class) :=
      store_class c (AllocClass (u8 id) flags unit_size htype type run);; put_aclass (u8 id) c;; mret c in
    match type with
    | CLASS_HUGE => finish DEFAULT_ALLOC_CLASS_ID None
    | CLASS_RUN =>
        match memblock_run_bitmap size_idx flags unit_size alignment 0 with
        | Ok (b, size_idx) =>
            let run := RunClass size_idx alignment (rb_nbits b) in
            slot ← (if id <? 0 then alloc_class_find_first_free_slot else mret (Some (u8 id)));
            match slot with
            | None => clear_and_null id
            | Some id =>
                g ← gets (λ e, cc_granularity (ae_ac e));
                if negb (SIZE_TO_CLASS_MAP_INDEX unit_size g <=? 2 ^ 32 - 1) then undef
                else
                  err ← on_class_map (cuckoo_insert (run_key g unit_size flags size_idx) c);
                  if negb (err =? 0) then Free_class c;; clear_and_null id
                  else finish id (Some run)
            end
        | _ => undef
        end
    | CLASS_UNKNOWN => undef
    end.

Definition alloc_class_delete (p : Z) : MA unit :=
  c ← class_at p; put_aclass (ac_id c) 0;; Free_class p.

(** ** Searching *)

(** The classes from [i] on in the direction [d]; [f] says whether a class is the one. *)
Fixpoint find_class (n : nat) (i d : Z) (f : alloc_class → MA bool) : MA (option Z) :=
  match n with
  | O => mret None
  | S n =>
      p ← aclass_at i;
      if p =? 0 then find_class n (i + d) d f
      else
        c ← class_at p;
        found ← f c;
        if (found : bool) then mret (Some p) else find_class n (i + d) d f
  end.

Definition required_size_idx (n : Z) : Z :=
  let required_size_bytes := u64 (n * RUN_MIN_NALLOCS) in
  if RUN_DEFAULT_SIZE <? required_size_bytes then
    let idx := u32 (1 + CALC_SIZE_IDX CHUNKSIZE (required_size_bytes - RUN_DEFAULT_SIZE)) in
    if RUN_SIZE_IDX_CAP <? idx then RUN_SIZE_IDX_CAP else idx
  else 1.

(** The unit size, enlarged in steps until little is wasted; [fuel] bounds the steps. *)
Fixpoint unit_size_loop (fuel : nat) (required n : Z) : res Z :=
  match fuel with
  | O => Undef
  | S fuel =>
      match memblock_run_bitmap required ALLOC_CLASS_DEFAULT_FLAGS n 0 0 with
      | Ok (b, size_idx) =>
          let runsize_bytes := u64 (RUN_CONTENT_SIZE_BYTES size_idx - rb_size b) in
          if MAX_RUN_WASTED_BYTES <? runsize_bytes mod n
          then if runsize_bytes =? 0 then Undef else unit_size_loop fuel required (u64 (n + ALLOC_BLOCK_SIZE_GEN))
          else Ok n
      | _ => Undef
      end
  end.

Definition alloc_class_find_or_create (n : Z) : MA Z :=
  let required := required_size_idx n in
  found ← find_class (Z.to_nat MAX_ALLOCATION_CLASSES) (MAX_ALLOCATION_CLASSES - 1) (-1) (λ c,
    if decide (ac_type c = CLASS_HUGE) then mret false
    else
      r ← class_run c;
      mret (if rc_size_idx r <? required then false
            else (n mod ac_unit_size c =? 0) && (n / ac_unit_size c <=? RUN_UNIT_MAX_ALLOC)));
  match found with
  | Some p => mret p
  | None =>
      match unit_size_loop 4096 required n with
      | Ok n =>
          found ← find_class (Z.to_nat (MAX_ALLOCATION_CLASSES - 1)) 1 1 (λ c,
            if decide (ac_type c = CLASS_HUGE) then mret false
            else mret (((n / ac_unit_size c <=? RUN_UNIT_MAX_ALLOC) && (n mod ac_unit_size c =? 0)) || (ac_unit_size c =? n)));
          match found with
          | Some p => mret p
          | None => alloc_class_new (-1) CLASS_RUN HEADER_COMPACT n 0 required
          end
      | _ => undef
      end
  end.

(** The waste of a class for [n] bytes: [None] when it cannot be used, and whether it fits exactly. *)
Definition class_waste (n : Z) (c : alloc_class) : MA (option (bool * Z)) :=
  if decide (ac_header_type c = HEADER_NONE) then mret None
  else
    let real_size := u64 (n + header_type_to_size (ac_header_type c)) in
    let units := CALC_SIZE_IDX (ac_unit_size c) real_size in
    if bool_decide (ac_type c = CLASS_RUN) && (RUN_UNIT_MAX_ALLOC <? units) then mret None
    else if u64 (ac_unit_size c * units) =? real_size then mret (Some (true, 0))
    else
      let waste := u64 (u64 (ac_unit_size c * units) - real_size) in
      if decide (ac_type c = CLASS_RUN) then
        r ← class_run c;
        if (units =? 0) || (rc_nallocs r =? 0) then undef
        else
          let wasted_bytes := u64 (rc_nallocs r mod units * ac_unit_size c) in
          mret (Some (false, u64 (waste + wasted_bytes / rc_nallocs r)))
      else mret (Some (false, waste)).

(** The classes from [i] down; [best]: the best one so far and its waste. *)
Fixpoint min_frag_loop (k : nat) (i n : Z) (best : option (Z * Z)) : MA (option Z) :=
  match k with
  | O => mret (fst <$> best)
  | S k =>
      p ← aclass_at i;
      if p =? 0 then min_frag_loop k (i - 1) n best
      else
        c ← class_at p;
        w ← class_waste n c;
        match w with
        | None => min_frag_loop k (i - 1) n best
        | Some (true, _) => mret (Some p)
        | Some (false, w) =>
            min_frag_loop k (i - 1) n
              (match best with
               | None => Some (p, w)
               | Some (_, lowest) => if w <? lowest then Some (p, w) else best
               end)
        end
  end.
Definition alloc_class_find_min_frag (n : Z) : MA Z :=
  if n =? 0 then undef
  else
    best ← min_frag_loop (Z.to_nat MAX_ALLOCATION_CLASSES) (MAX_ALLOCATION_CLASSES - 1) n None;
    match best with Some p => mret p | None => undef end.

Definition alloc_class_assign_by_size (size : Z) : MA Z :=
  g ← gets (λ e, cc_granularity (ae_ac e));
  let i := SIZE_TO_CLASS_MAP_INDEX size g in
  p ← alloc_class_find_min_frag (u64 (i * g));
  c ← class_at p;
  id ← class_map i;
  (if id =? MAX_ALLOCATION_CLASSES then set_ac (λ a, set_by_alloc_size (<[i := ac_id c]> (cc_by_alloc_size a)) a) else mret tt);;
  mret p.

(** 0 for [NULL]. *)
Definition alloc_class_by_alloc_size (size : Z) : MA Z :=
  a ← gets ae_ac;
  if size <? cc_last_run_max_size a then
    class_id ← class_map (SIZE_TO_CLASS_MAP_INDEX size (cc_granularity a));
    if class_id =? MAX_ALLOCATION_CLASSES then
      if cc_fail_on_missing_class a then mret 0
      else if cc_autogenerate_on_missing_class a then alloc_class_assign_by_size size
      else aclass_at DEFAULT_ALLOC_CLASS_ID
    else aclass_at class_id
  else aclass_at DEFAULT_ALLOC_CLASS_ID.

Definition alloc_class_by_run (unit_size flags size_idx : Z) : MA Z :=
  g ← gets (λ e, cc_granularity (ae_ac e));
  if negb (SIZE_TO_CLASS_MAP_INDEX unit_size g <=? 2 ^ 32 - 1) then undef
  else if negb (size_idx <=? 2 ^ 16 - 1) then undef
  else on_class_map (on_table (cuckoo_get (run_key g unit_size flags size_idx))).

Definition alloc_class_by_id (id : Z) : MA Z := aclass_at id.

(** [None] for -1. *)
Definition alloc_class_calc_size_idx (c : alloc_class) (size : Z) : res (option Z) :=
  let size_idx := CALC_SIZE_IDX (ac_unit_size c) (u64 (size + header_type_to_size (ac_header_type c))) in
  if decide (ac_type c = CLASS_RUN) then
    match ac_run c with
    | None => Undef
    | Some r =>
        Ok (if bool_decide (ac_header_type c = HEADER_NONE) && negb (size_idx =? 1) then None
            else if RUN_UNIT_MAX <? size_idx then None
            else if rc_nallocs r <? size_idx then None
            else Some size_idx)
    end
  else Ok (Some size_idx).

(** ** The default collection *)

(** [(float)n * 0.05f], in units of 2^-28: the [float] next to 0.05 is 13421773 / 2^28, and [n] is exact up to 2^24. *)
Definition step_of (n : Z) : Z :=
  let stepf := round24 (n * 13421773) in
  let stepi := Z.shiftr stepf 28 in
  if stepf - Z.shiftl stepi 28 <? 32 then stepi else stepi + 1.

(** The sizes of a category from [n] on; every turn adds at least 64. *)
Fixpoint category_loop (fuel : nat) (n last : Z) : MA bool :=
  match fuel with
  | O => undef
  | S fuel =>
      p ← alloc_class_find_or_create n;
      if p =? 0 then mret false
      else
        let n := u64 (n + ((step_of n + (ALLOC_BLOCK_SIZE_GEN - 1)) &&& u64 (Z.lnot (ALLOC_BLOCK_SIZE_GEN - 1)))) in
        if n <=? last then category_loop fuel n last else mret true
  end.
Fixpoint categories_loop (prev : Z) (sizes : list Z) : MA bool :=
  match sizes with
  | [] => mret true
  | size :: sizes =>
      ok ← category_loop (Z.to_nat (size / ALLOC_BLOCK_SIZE_GEN) + 1) (prev + ALLOC_BLOCK_SIZE_GEN) size;
      if (ok : bool) then categories_loop size sizes else mret false
  end.

(** The last slot up to [i] that is used. *)
Fixpoint largest_slot (n : nat) (i : Z) : MA Z :=
  match n with
  | O => mret i
  | S n => p ← aclass_at i; if (0 <? i) && (p =? 0) then largest_slot n (i - 1) else mret i
  end.

Fixpoint delete_loop (n : nat) (i : Z) : MA unit :=
  match n with
  | O => mret tt
  | S n => p ← aclass_at i; (if p =? 0 then mret tt else alloc_class_delete p);; delete_loop n (i + 1)
  end.
(** The two maps and the collection are freed. *)
Definition alloc_class_collection_delete : MA unit :=
  delete_loop (Z.to_nat MAX_ALLOCATION_CLASSES) 0;; on_class_map (on_table cuckoo_delete).

Definition init_collection : alloc_class_collection :=
  AllocClassCollection ALLOC_BLOCK_SIZE (repeat 0 (Z.to_nat MAX_ALLOCATION_CLASSES)) MAX_RUN_SIZE ∅ (Cuckoo 0 []) false true.

(** The first entries of the map. *)
Definition map_first (n id : Z) (m : gmap Z Z) : gmap Z Z := foldr (λ i m, <[Z.of_nat i := id]> m) m (seq 0 (Z.to_nat n)).

(** What follows the allocation of the two maps; [false] for an error. *)
Definition collection_fill : MA bool :=
  huge ← alloc_class_new (-1) CLASS_HUGE HEADER_COMPACT CHUNKSIZE 0 1;
  if huge =? 0 then mret false
  else
    predefined ← alloc_class_new (-1) CLASS_RUN HEADER_COMPACT MIN_UNIT_SIZE 0 1;
    if predefined =? 0 then mret false
    else
      c ← class_at predefined;
      set_ac (λ a, set_by_alloc_size (map_first (FIRST_GENERATED_CLASS_SIZE / cc_granularity a) (ac_id c) (cc_by_alloc_size a)) a);;
      ok ← categories_loop FIRST_GENERATED_CLASS_SIZE (drop 1 categories);
      if negb ok then mret false
      else
        slot ← largest_slot (Z.to_nat MAX_ALLOCATION_CLASSES) (MAX_ALLOCATION_CLASSES - 1);
        p ← aclass_at slot;
        c ← class_at p;
        r ← class_run c;
        let real_unit_max := if rc_nallocs r <? RUN_UNIT_MAX_ALLOC then rc_nallocs r else RUN_UNIT_MAX_ALLOC in
        let theoretical_run_max_size := u64 (ac_unit_size c * real_unit_max) in
        set_ac (set_last_run_max_size (if theoretical_run_max_size <? MAX_RUN_SIZE then theoretical_run_max_size else MAX_RUN_SIZE));;
        mret true.

(** [false] for [NULL].  The first outcomes of [malloc] are those of the collection, of the map by size and of the two
    objects of the hash table.  When there is no hash table yet, [cuckoo_delete] is called with [NULL], which it dereferences. *)
Definition alloc_class_collection_new : MA bool := λ e,
  match ae_malloc e with
  | true :: true :: m1 :: m2 :: l =>
      match cuckoo_new m1 m2 with
      | Some t =>
          (ok ← collection_fill;
           if (ok : bool) then mret true else alloc_class_collection_delete;; mret false)
          (AEnv (set_by_unit_size t init_collection) (ae_heap e) (ae_next e) l)
      | None => (Undef, e)
      end
  | true :: _ => (Undef, e)
  | _ => (Ok false, e)
  end.
