(* ===== verification/AllocClassTheorems.v ===== *)
(** * libpmemobj: theorems about allocation classes *)

From stdpp Require Import base gmap list numbers.
From S2P Require Import Prelude Memory Util Container ContainerSeglists Bucket Cuckoo Memblock AllocClass.
Local Open Scope Z_scope.

(** ** Classes that fit *)

(** The units of [c] that an object of [size] bytes needs, with its header. *)
Definition units_of (c : alloc_class) (size : Z) : Z := CALC_SIZE_IDX (ac_unit_size c) (size + header_type_to_size (ac_header_type c)).

Record class_ok (c : alloc_class) : Prop := {
  ck_unit : 8 ≤ ac_unit_size c < 2 ^ 35;
  ck_type : ac_type c = CLASS_HUGE ∨ ac_type c = CLASS_RUN ∧ ∃ r, ac_run c = Some r ∧ 1 ≤ rc_nallocs r < 2 ^ 32
}.

(** [c] has a header and is used for objects of up to [n] bytes. *)
Definition serves (c : alloc_class) (n : Z) : Prop :=
  ac_header_type c ≠ HEADER_NONE ∧ (ac_type c = CLASS_RUN → units_of c n ≤ RUN_UNIT_MAX_ALLOC).

(** A collection at rest: slot [i] is empty or has a class with the identifier [i], and what the map by size records serves. *)
Record coll_ok (e : aenv) : Prop := {
  co_gran : cc_granularity (ae_ac e) = ALLOC_BLOCK_SIZE;
  co_slots : length (cc_aclasses (ae_ac e)) = 255%nat;
  co_class i p : lookupZ (cc_aclasses (ae_ac e)) i = Some p → p ≠ 0 → ∃ c, ae_heap e !! p = Some c ∧ class_ok c ∧ ac_id c = i;
  co_default : ∃ p c, lookupZ (cc_aclasses (ae_ac e)) 0 = Some p ∧ p ≠ 0 ∧ ae_heap e !! p = Some c ∧ ac_type c = CLASS_HUGE ∧
    ac_header_type c ≠ HEADER_NONE;
  co_max : 0 ≤ cc_last_run_max_size (ae_ac e) ≤ MAX_RUN_SIZE;
  co_map i id : cc_by_alloc_size (ae_ac e) !! i = Some id → id ≠ 255 → ∃ p c, lookupZ (cc_aclasses (ae_ac e)) id = Some p ∧ p ≠ 0 ∧
    ae_heap e !! p = Some c ∧ serves c (ALLOC_BLOCK_SIZE * i)
}.

Lemma aclass_run e i : coll_ok e → 0 ≤ i < 255 → ∃ p, aclass_at i e = (Ok p, e) ∧ lookupZ (cc_aclasses (ae_ac e)) i = Some p.
Proof.
  intros [_ Hl _ _ _ _] Hi. unfold aclass_at. destruct (lookupZ (cc_aclasses (ae_ac e)) i) as [p|] eqn:E; [by exists p|].
  exfalso. unfold lookupZ in E. rewrite decide_True in E by lia. apply lookup_ge_None in E. lia.
Qed.

Lemma class_run_at e p c : ae_heap e !! p = Some c → class_at p e = (Ok c, e).
Proof. intros E. unfold class_at. by rewrite E. Qed.

(** ** The class with the least waste *)

(** The bytes that an object of [n] bytes wastes in [c], with its share of the rest of a run; [None] when [c] cannot be used. *)
Definition frag (n : Z) (c : alloc_class) : option Z :=
  let units := units_of c n in
  let waste := ac_unit_size c * units - (n + header_type_to_size (ac_header_type c)) in
  if decide (ac_header_type c = HEADER_NONE) then None
  else if bool_decide (ac_type c = CLASS_RUN) && (RUN_UNIT_MAX_ALLOC <? units) then None
  else Some (if waste =? 0 then 0
             else match ac_run c with
                  | Some r => if decide (ac_type c = CLASS_RUN) then waste + rc_nallocs r mod units * ac_unit_size c / rc_nallocs r else waste
                  | None => waste
                  end).

Lemma header_size_range h : 0 ≤ header_type_to_size h ≤ 64.
Proof. destruct h; cbn; lia. Qed.

Lemma units_bounds c n : class_ok c → 0 < n < 2 ^ 34 →
  let size := n + header_type_to_size (ac_header_type c) in
  1 ≤ units_of c n < 2 ^ 32 ∧ size ≤ ac_unit_size c * units_of c n < size + ac_unit_size c.
Proof.
  intros [Hu _] Hn size. pose proof (header_size_range (ac_header_type c)) as Hh. unfold units_of, CALC_SIZE_IDX. fold size.
  rewrite (proj2 (Z.eqb_neq _ _)) by lia.
  pose proof (Z.div_mod (size - 1) (ac_unit_size c) ltac:(lia)) as Hd. pose proof (Z.mod_pos_bound (size - 1) (ac_unit_size c) ltac:(lia)) as Hm.
  assert (0 ≤ (size - 1) / ac_unit_size c < 2 ^ 31 + 8) as Hq by (split; [apply Z.div_pos; lia|apply Z.div_lt_upper_bound; lia]).
  rewrite u32_id by lia. split; [lia|]. lia.
Qed.

Lemma units_mono c n n' : class_ok c → 0 < n ≤ n' → n' < 2 ^ 34 → units_of c n ≤ units_of c n'.
Proof.
  intros Hc Hn Hn'. destruct (units_bounds c n Hc ltac:(lia)) as [H1 H2]. destruct (units_bounds c n' Hc ltac:(lia)) as [H3 H4].
  destruct Hc as [Hu _]. nia.
Qed.

Lemma class_waste_run n c e : class_ok c → 0 < n < 2 ^ 34 → ∃ w, class_waste n c e = (Ok w, e) ∧
  frag n c = (match w with None => None | Some (true, _) => Some 0 | Some (false, w) => Some w end) ∧
  match w with Some (false, w) => 0 ≤ w | _ => True end.
Proof.
  intros Hc Hn. destruct (units_bounds c n Hc Hn) as [H1 H2]. pose proof Hc as [Hu Ht]. pose proof (header_size_range (ac_header_type c)) as Hhs.
  unfold class_waste, frag. destruct (decide (ac_header_type c = HEADER_NONE)) as [|Hh]; [by exists None|].
  rewrite (u64_id (n + _)) by lia. fold (units_of c n). cbv zeta.
  set (units := units_of c n) in *. set (size := n + header_type_to_size (ac_header_type c)) in *.
  destruct (bool_decide (ac_type c = CLASS_RUN) && (RUN_UNIT_MAX_ALLOC <? units)) eqn:Eb; [by exists None|].
  rewrite (u64_id (ac_unit_size c * units)) by lia. destruct (Z.eqb_spec (ac_unit_size c * units) size) as [Ew|Ew].
  { exists (Some (true, 0)). by rewrite Ew, Z.sub_diag. }
  rewrite (proj2 (Z.eqb_neq (_ - size) 0)), (u64_id (_ - size)) by lia.
  destruct Ht as [Ht|[Ht (r & Er & Hr)]].
  - rewrite decide_False by congruence. eexists. split; [done|]. split; [|lia]. destruct (ac_run c); [by rewrite decide_False by congruence|done].
  - rewrite decide_True by done. rewrite bool_decide_true in Eb by done. apply Z.ltb_ge in Eb. unfold RUN_UNIT_MAX_ALLOC in *.
    unfold class_run. rewrite Er. erewrite bind_ok by reflexivity. rewrite !(proj2 (Z.eqb_neq _ 0)) by lia. cbn [orb].
    assert (0 ≤ rc_nallocs r mod units < 8) as Hm by (pose proof (Z.mod_pos_bound (rc_nallocs r) units ltac:(lia)); lia).
    rewrite (u64_id (rc_nallocs r mod units * _)) by nia.
    assert (0 ≤ rc_nallocs r mod units * ac_unit_size c / rc_nallocs r < 2 ^ 39) as Hd.
    { split; [apply Z.div_pos; nia|apply Z.div_lt_upper_bound; nia]. }
    rewrite u64_id by lia. eexists. split; [done|]. split; [by rewrite decide_True|lia].
Qed.

(** [p] is the class with the least waste among the slots [i] of [P]. *)
Definition least_waste (e : aenv) (n : Z) (P : Z → Prop) (p w : Z) : Prop :=
  (∃ i c, P i ∧ lookupZ (cc_aclasses (ae_ac e)) i = Some p ∧ p ≠ 0 ∧ ae_heap e !! p = Some c ∧ frag n c = Some w) ∧
  ∀ i q c w', P i → lookupZ (cc_aclasses (ae_ac e)) i = Some q → q ≠ 0 → ae_heap e !! q = Some c → frag n c = Some w' → w ≤ w'.
Definition no_class (e : aenv) (n : Z) (P : Z → Prop) : Prop :=
  ∀ i q c, P i → lookupZ (cc_aclasses (ae_ac e)) i = Some q → q ≠ 0 → ae_heap e !! q = Some c → frag n c = None.

Lemma frag_nonneg n c w : class_ok c → 0 < n < 2 ^ 34 → frag n c = Some w → 0 ≤ w.
Proof.
  intros Hc Hn E. destruct (class_waste_run n c (AEnv init_collection ∅ 0 []) Hc Hn) as ([[[] w0]|] & _ & Ef & H0); rewrite E in Ef; [|by injection Ef as ->|done].
  injection Ef as ->. lia.
Qed.

(** The result for the slots from [i] on. *)
Definition best_of (e : aenv) (n i : Z) (best : option (Z * Z)) : Prop :=
  match best with
  | None => no_class e n (λ j, i ≤ j < 255)
  | Some (p, w) => least_waste e n (λ j, i ≤ j < 255) p w
  end.

Lemma best_keep e n i best : best_of e n (i + 1) best →
  (∀ q c w, lookupZ (cc_aclasses (ae_ac e)) i = Some q → q ≠ 0 → ae_heap e !! q = Some c → frag n c = Some w →
    match best with Some (_, lowest) => lowest ≤ w | None => False end) →
  best_of e n i best.
Proof.
  intros Hb Hi. destruct best as [[p w]|]; cbn in *.
  - destruct Hb as [(j & c & Hj & H) Hall]. split; [exists j, c; split; [lia|done]|]. intros j' q c' w' Hj' Hq Hq0 Hc' Hf.
    destruct (decide (j' = i)) as [->|]; [by eapply Hi|]. apply (Hall j' q c'); [lia|done..].
  - intros j q c Hj Hq Hq0 Hc. destruct (decide (j = i)) as [->|]; [|apply (Hb j q); [lia|done..]].
    destruct (frag n c) eqn:Ef; [|done]. exfalso. by eapply Hi.
Qed.

Lemma best_new e n i best p c w : best_of e n (i + 1) best → i < 255 → lookupZ (cc_aclasses (ae_ac e)) i = Some p → p ≠ 0 →
  ae_heap e !! p = Some c → frag n c = Some w → match best with Some (_, lowest) => w ≤ lowest | None => True end →
  best_of e n i (Some (p, w)).
Proof.
  intros Hb Hi Hp Hp0 Hc Hf Hw. split; [exists i, c; split_and!; [lia|lia|done..]|]. intros j q c' w' Hj Hq Hq0 Hc' Hf'.
  destruct (decide (j = i)) as [->|].
  - assert (q = p) as -> by congruence. assert (c' = c) as -> by congruence. assert (w' = w) as -> by congruence. lia.
  - destruct best as [[p0 lowest]|]; cbn in Hb.
    + etransitivity; [exact Hw|]. apply (proj2 Hb j q c'); [lia|done..].
    + rewrite (Hb j q c') in Hf' by (done || lia). done.
Qed.

Lemma min_frag_run e n : coll_ok e → 0 < n < 2 ^ 34 → ∀ k i best, i < 255 → Z.of_nat k = i + 1 → best_of e n (i + 1) best →
  ∃ r w, min_frag_loop k i n best e = (Ok r, e) ∧ best_of e n 0 ((λ p, (p, w)) <$> r).
Proof.
  intros Hco Hn. induction k as [|k IH]; intros i best Hi Hk Hbest; cbn [min_frag_loop].
  { assert (i = -1) as -> by lia. exists (fst <$> best), (default 0 (snd <$> best)). split; [done|]. by destruct best as [[p w]|]. }
  assert (i - 1 + 1 = i) as Ei by lia.
  assert (best_of e n i best → ∃ r w, min_frag_loop k (i - 1) n best e = (Ok r, e) ∧ best_of e n 0 ((λ p, (p, w)) <$> r)) as Hskip
    by (intros H; apply IH; [lia|lia|by rewrite Ei]).
  destruct (aclass_run e i Hco ltac:(lia)) as (p & E & Hp). erewrite bind_ok by exact E.
  destruct (Z.eqb_spec p 0) as [->|Hp0]; [apply Hskip, best_keep; [done|congruence]|].
  destruct (co_class _ Hco i p Hp Hp0) as (c & Hc & Hok & _). erewrite bind_ok by (by apply class_run_at).
  destruct (class_waste_run n c e Hok Hn) as (w & Ew & Ef & Hw0). erewrite bind_ok by exact Ew.
  destruct w as [[[] w]|].
  - exists (Some p), 0. split; [done|]. split; [exists i, c; split_and!; [lia|lia|done..]|]. intros j q c' w' _ Hq Hq0 Hc' Hf.
    destruct (co_class _ Hco j q Hq Hq0) as (c0 & Hc0 & Hok0 & _). assert (c0 = c') as -> by congruence. by apply (frag_nonneg n c').
  - apply IH; [lia|lia|]. rewrite Ei. destruct best as [[q lowest]|]; [|by apply (best_new e n i None p c w)].
    destruct (Z.ltb_spec w lowest); [apply (best_new e n i (Some (q, lowest)) p c w); [done..|cbn; lia]|]. apply best_keep; [done|]. intros q' c' w' Hq' _ Hc' Hf'.
    assert (q' = p) as -> by congruence. assert (c' = c) as -> by congruence. assert (w' = w) as -> by congruence. done.
  - apply Hskip, best_keep; [done|]. intros q' c' w' Hq' _ Hc' Hf'.
    assert (q' = p) as -> by congruence. assert (c' = c) as -> by congruence. congruence.
Qed.

(** There is always one: the class of huge blocks can be used for every size. *)
Lemma find_min_frag_run e n : coll_ok e → 0 < n < 2 ^ 34 →
  ∃ p w, alloc_class_find_min_frag n e = (Ok p, e) ∧ least_waste e n (λ j, 0 ≤ j < 255) p w.
Proof.
  intros Hco Hn. unfold alloc_class_find_min_frag. rewrite (proj2 (Z.eqb_neq _ _)) by lia.
  destruct (min_frag_run e n Hco Hn (Z.to_nat MAX_ALLOCATION_CLASSES) (MAX_ALLOCATION_CLASSES - 1) None) as (r & w & E & Hr); [done..| |].
  { intros j q c Hj. exfalso. unfold MAX_ALLOCATION_CLASSES in Hj. cbv beta in Hj. lia. }
  erewrite bind_ok by exact E. destruct r as [p|]; [by exists p, w|exfalso].
  destruct (co_default _ Hco) as (p & c & Hp & Hp0 & Hc & Ht & Hh). assert (0 ≤ 0 < 255) as H0 by lia.
  specialize (Hr 0 p c H0 Hp Hp0 Hc). unfold frag in Hr. rewrite decide_False in Hr by done. by rewrite Ht in Hr.
Qed.

Lemma frag_serves n c w : frag n c = Some w → serves c n.
Proof.
  unfold frag. cbv zeta. case_decide as Hh; [done|]. destruct (bool_decide _ && _) eqn:E; [done|]. intros _. split; [done|]. intros Ht.
  rewrite bool_decide_true in E by done. by apply Z.ltb_ge in E.
Qed.

Lemma serves_mono c n n' : class_ok c → 0 < n ≤ n' → n' < 2 ^ 34 → serves c n' → serves c n.
Proof. intros Hok Hn Hn' [Hh Hs]. split; [done|]. intros Ht. etransitivity; [by apply (units_mono c n n')|by apply Hs]. Qed.

(** ** The class for a size *)

Lemma map_index size : 0 < size ≤ MAX_RUN_SIZE → let i := SIZE_TO_CLASS_MAP_INDEX size ALLOC_BLOCK_SIZE in
  1 ≤ i < map_size ALLOC_BLOCK_SIZE ∧ size ≤ ALLOC_BLOCK_SIZE * i < size + 16.
Proof.
  intros Hs. unfold SIZE_TO_CLASS_MAP_INDEX, ALLOC_BLOCK_SIZE in *. change (map_size 16) with 163841.
  change MAX_RUN_SIZE with 2621440 in Hs. rewrite (u64_id (size - 1)) by lia.
  pose proof (Z.div_mod (size - 1) 16 ltac:(lia)). pose proof (Z.mod_pos_bound (size - 1) 16 ltac:(lia)).
  assert ((size - 1) / 16 < 163840) by (apply Z.div_lt_upper_bound; lia). assert (0 ≤ (size - 1) / 16) by (apply Z.div_pos; lia).
  rewrite u64_id by lia. lia.
Qed.

(** [p] is the address of a class that serves [size]. *)
Definition class_for (e : aenv) (size p : Z) : Prop :=
  ∃ i c, lookupZ (cc_aclasses (ae_ac e)) i = Some p ∧ p ≠ 0 ∧ ae_heap e !! p = Some c ∧ class_ok c ∧ ac_id c = i ∧ serves c size.

Lemma assign_run e size : coll_ok e → 0 < size ≤ MAX_RUN_SIZE → ∃ p e', alloc_class_assign_by_size size e = (Ok p, e') ∧ coll_ok e' ∧
  class_for e' size p ∧ ae_heap e' = ae_heap e ∧ cc_aclasses (ae_ac e') = cc_aclasses (ae_ac e) ∧
  cc_last_run_max_size (ae_ac e') = cc_last_run_max_size (ae_ac e) ∧
  (∃ w, least_waste e (ALLOC_BLOCK_SIZE * SIZE_TO_CLASS_MAP_INDEX size ALLOC_BLOCK_SIZE) (λ j, 0 ≤ j < 255) p w) ∧
  (default 255 (cc_by_alloc_size (ae_ac e) !! SIZE_TO_CLASS_MAP_INDEX size ALLOC_BLOCK_SIZE) = 255 → ∃ c, ae_heap e !! p = Some c ∧
    cc_by_alloc_size (ae_ac e') !! SIZE_TO_CLASS_MAP_INDEX size ALLOC_BLOCK_SIZE = Some (ac_id c)).
Proof.
  intros Hco Hs. destruct (map_index size Hs) as [Hi Hn]. unfold alloc_class_assign_by_size. erewrite bind_ok by reflexivity.
  rewrite (co_gran _ Hco). cbv zeta. set (i := SIZE_TO_CLASS_MAP_INDEX size ALLOC_BLOCK_SIZE) in *.
  change MAX_RUN_SIZE with 2621440 in Hs. rewrite (Z.mul_comm i), u64_id by lia.
  destruct (find_min_frag_run e (ALLOC_BLOCK_SIZE * i) Hco ltac:(lia)) as (p & w & E & Hlw). pose proof Hlw as [(j & c & Hj & Hp & Hp0 & Hc & Hf) _].
  erewrite bind_ok by exact E. erewrite bind_ok by (by apply class_run_at). destruct (co_class _ Hco j p Hp Hp0) as (c0 & Hc0 & Hok & Hid).
  assert (c0 = c) as -> by congruence. pose proof (frag_serves _ _ _ Hf) as Hserve.
  assert (serves c size) as Hss by (apply (serves_mono c size (ALLOC_BLOCK_SIZE * i)); [done|lia|lia|done]).
  assert (class_map i e = (Ok (default 255 (cc_by_alloc_size (ae_ac e) !! i)), e)) as Ecm.
  { unfold class_map. rewrite (co_gran _ Hco). rewrite (proj2 (Z.leb_le _ _)), (proj2 (Z.ltb_lt _ _)) by lia. done. }
  erewrite bind_ok by exact Ecm. change MAX_ALLOCATION_CLASSES with 255.
  destruct (Z.eqb_spec (default 255 (cc_by_alloc_size (ae_ac e) !! i)) 255) as [Ed|Ed].
  - eexists p, _. split; [reflexivity|]. split_and!; try done.
    + destruct Hco as [G1 G2 G3 G4 G5 G6]. split; cbn; [done..|]. intros i' id. destruct (decide (i' = i)) as [->|Hne].
      * rewrite lookup_insert_eq. intros [= <-] _. exists p, c. by rewrite Hid.
      * rewrite lookup_insert_ne by done. apply G6.
    + by exists j, c.
    + by exists w.
    + intros _. exists c. split; [done|]. cbn. by rewrite lookup_insert_eq.
  - exists p, e. split; [done|]. split_and!; [done|by exists j, c|done|done|done|by exists w|done].
Qed.

(** Reading a recorded class. *)
Lemma by_recorded e size id : coll_ok e → 0 < size < cc_last_run_max_size (ae_ac e) →
  cc_by_alloc_size (ae_ac e) !! SIZE_TO_CLASS_MAP_INDEX size ALLOC_BLOCK_SIZE = Some id → id ≠ 255 →
  alloc_class_by_alloc_size size e = aclass_at id e.
Proof.
  intros Hco Hs Hid Hne. destruct (map_index size) as [Hi Hn]; [pose proof (co_max _ Hco); lia|]. unfold alloc_class_by_alloc_size.
  erewrite bind_ok by reflexivity. rewrite (proj2 (Z.ltb_lt _ _)) by lia. rewrite (co_gran _ Hco). erewrite bind_ok.
  2: { unfold class_map. rewrite (co_gran _ Hco), (proj2 (Z.leb_le _ _)), (proj2 (Z.ltb_lt _ _)), Hid by lia. done. }
  change MAX_ALLOCATION_CLASSES with 255. by rewrite (proj2 (Z.eqb_neq _ _)) by done.
Qed.

(** The class that is recorded for a size, 255 without one. *)
Definition recorded (e : aenv) (size : Z) : Z := default 255 (cc_by_alloc_size (ae_ac e) !! SIZE_TO_CLASS_MAP_INDEX size ALLOC_BLOCK_SIZE).

(** A size that runs may serve and for which no class is recorded. *)
Definition missing (e : aenv) (size : Z) : Prop := size < cc_last_run_max_size (ae_ac e) ∧ recorded e size = 255.

Lemma by_unrecorded e size : coll_ok e → 0 < size → missing e size →
  alloc_class_by_alloc_size size e =
    if cc_fail_on_missing_class (ae_ac e) then (Ok 0, e)
    else if cc_autogenerate_on_missing_class (ae_ac e) then alloc_class_assign_by_size size e
    else aclass_at 0 e.
Proof.
  intros Hco Hs [Hlt Hid]. destruct (map_index size) as [Hi Hn]; [pose proof (co_max _ Hco); lia|]. unfold alloc_class_by_alloc_size.
  erewrite bind_ok by reflexivity. rewrite (proj2 (Z.ltb_lt _ _)) by lia. rewrite (co_gran _ Hco). erewrite bind_ok.
  2: { unfold class_map. unfold recorded in Hid. rewrite (co_gran _ Hco), (proj2 (Z.leb_le _ _)), (proj2 (Z.ltb_lt _ _)), Hid by lia. done. }
  change MAX_ALLOCATION_CLASSES with 255. rewrite Z.eqb_refl. by destruct (cc_fail_on_missing_class (ae_ac e)), (cc_autogenerate_on_missing_class (ae_ac e)).
Qed.

Lemma default_for e size : coll_ok e → ∃ p, aclass_at 0 e = (Ok p, e) ∧ class_for e size p.
Proof.
  intros Hco. destruct (co_default _ Hco) as (p & c & Hp & Hp0 & Hc & Ht & Hh). exists p. split; [unfold aclass_at; by rewrite Hp|].
  destruct (co_class _ Hco 0 p Hp Hp0) as (c0 & Hc0 & Hok & Hid). assert (c0 = c) as -> by congruence.
  exists 0, c. split_and!; [done..|]. split; [done|congruence].
Qed.

Lemma by_huge e size : coll_ok e → cc_last_run_max_size (ae_ac e) ≤ size → alloc_class_by_alloc_size size e = aclass_at 0 e.
Proof. intros Hco Hge. unfold alloc_class_by_alloc_size. erewrite bind_ok by reflexivity. by rewrite (proj2 (Z.ltb_ge _ _)) by lia. Qed.

Lemma by_assigned e size : coll_ok e → 0 < size → missing e size →
  cc_fail_on_missing_class (ae_ac e) = false → cc_autogenerate_on_missing_class (ae_ac e) = true →
  ∃ p e', alloc_class_by_alloc_size size e = (Ok p, e') ∧ coll_ok e' ∧ ae_heap e' = ae_heap e ∧ class_for e' size p ∧ alloc_class_by_alloc_size size e' = (Ok p, e') ∧
    ∃ w, least_waste e (ALLOC_BLOCK_SIZE * SIZE_TO_CLASS_MAP_INDEX size ALLOC_BLOCK_SIZE) (λ j, 0 ≤ j < 255) p w.
Proof.
  intros Hco Hs Hm Hf Ha. rewrite by_unrecorded, Hf, Ha by done. destruct Hm as [Hlt Ed].
  destruct (assign_run e size Hco) as (p & e' & E & Hco' & Hcl & Eh & Ec & Em & Hlw & Hrec); [pose proof (co_max _ Hco); lia|].
  exists p, e'. split_and!; [done..| |done]. destruct (Hrec Ed) as (c & Hc & Hm). destruct Hcl as (j & c' & Hj & Hp0 & Hc' & _ & Hid & _).
  assert (c' = c) as -> by congruence. rewrite (by_recorded e' size (ac_id c)); [|done|by rewrite Em|done|].
  - unfold aclass_at. by rewrite Hid, Hj.
  - intros E255. rewrite Hid in E255. subst j. pose proof (co_slots _ Hco') as Hl. unfold lookupZ in Hj. rewrite decide_True in Hj by lia.
    apply lookup_lt_Some in Hj. lia.
Qed.

Lemma by_found e size : coll_ok e → 0 < size < cc_last_run_max_size (ae_ac e) → recorded e size ≠ 255 →
  ∃ p, alloc_class_by_alloc_size size e = (Ok p, e) ∧ class_for e size p.
Proof.
  intros Hco Hs Ed. destruct (map_index size) as [Hi Hn]; [pose proof (co_max _ Hco); lia|]. unfold recorded in Ed.
  set (i := SIZE_TO_CLASS_MAP_INDEX size ALLOC_BLOCK_SIZE) in *. destruct (cc_by_alloc_size (ae_ac e) !! i) as [id|] eqn:Eid; [|done]. cbn in Ed.
  destruct (co_map _ Hco i id Eid Ed) as (p & c & Hp & Hp0 & Hc & Hsv).
  exists p. split; [rewrite (by_recorded e size id) by done; unfold aclass_at; by rewrite Hp|].
  destruct (co_class _ Hco id p Hp Hp0) as (c0 & Hc0 & Hok & Hid). assert (c0 = c) as -> by congruence.
  exists id, c. split_and!; [done..|]. pose proof (co_max _ Hco) as Hm. change MAX_RUN_SIZE with 2621440 in Hm.
  apply (serves_mono c size (ALLOC_BLOCK_SIZE * i)); [done|lia|lia|done].
Qed.

(** A class for a size, with what [alloc_class_calc_size_idx] says of it. *)
Lemma class_for_units e size p : class_for e size p → 0 < size < 2 ^ 34 → ∃ c n, ae_heap e !! p = Some c ∧ p ≠ 0 ∧
  1 ≤ n ∧ size + header_type_to_size (ac_header_type c) ≤ ac_unit_size c * n < size + header_type_to_size (ac_header_type c) + ac_unit_size c ∧
  (ac_type c = CLASS_RUN → n ≤ RUN_UNIT_MAX_ALLOC) ∧
  alloc_class_calc_size_idx c size = Ok (match ac_run c with
    | Some r => if bool_decide (ac_type c = CLASS_RUN) && (rc_nallocs r <? n) then None else Some n
    | None => Some n
    end).
Proof.
  intros (i & c & Hp & Hp0 & Hc & Hok & Hid & Hh & Hsv) Hs. destruct (units_bounds c size Hok Hs) as [H1 H2].
  exists c, (units_of c size). split_and!; [done..|lia|lia|lia|done|].
  unfold alloc_class_calc_size_idx. pose proof (header_size_range (ac_header_type c)). rewrite u64_id by lia. fold (units_of c size).
  destruct (ck_type _ Hok) as [Ht|[Ht (r & Er & Hr)]].
  - rewrite decide_False by congruence. by destruct (ac_run c); [rewrite bool_decide_false by congruence|].
  - rewrite decide_True, Er by done. rewrite (bool_decide_false (_ = HEADER_NONE)), (bool_decide_true (ac_type c = _)) by done. cbn [andb].
    specialize (Hsv Ht). unfold RUN_UNIT_MAX, RUN_BITS_PER_VALUE, RUN_UNIT_MAX_ALLOC in *. by rewrite (proj2 (Z.ltb_ge 64 _)) by lia.
Qed.

(** What a class for the size gives, whatever the way it was found. *)
Definition found_class (e e' : aenv) (size p : Z) : Prop :=
  alloc_class_by_alloc_size size e = (Ok p, e') ∧ coll_ok e' ∧ ae_heap e' = ae_heap e ∧ alloc_class_by_alloc_size size e' = (Ok p, e') ∧
    (p = 0 ↔ missing e size ∧ cc_fail_on_missing_class (ae_ac e) = true) ∧
    (p ≠ 0 → ∃ c n, ae_heap e' !! p = Some c ∧ ac_header_type c ≠ HEADER_NONE ∧ 1 ≤ n ∧
      size + header_type_to_size (ac_header_type c) ≤ ac_unit_size c * n < size + header_type_to_size (ac_header_type c) + ac_unit_size c ∧
      (ac_type c = CLASS_RUN → n ≤ RUN_UNIT_MAX_ALLOC) ∧
      alloc_class_calc_size_idx c size = Ok (match ac_run c with
        | Some r => if bool_decide (ac_type c = CLASS_RUN) && (rc_nallocs r <? n) then None else Some n
        | None => Some n
        end)) ∧
    (missing e size → p ≠ 0 → cc_autogenerate_on_missing_class (ae_ac e) = true →
      ∃ w, least_waste e (ALLOC_BLOCK_SIZE * SIZE_TO_CLASS_MAP_INDEX size ALLOC_BLOCK_SIZE) (λ j, 0 ≤ j < 255) p w).

Lemma served e e' size p : alloc_class_by_alloc_size size e = (Ok p, e') → coll_ok e' → ae_heap e' = ae_heap e → alloc_class_by_alloc_size size e' = (Ok p, e') →
  class_for e' size p → 0 < size < 2 ^ 34 → (missing e size → cc_fail_on_missing_class (ae_ac e) = false) →
  (missing e size → cc_autogenerate_on_missing_class (ae_ac e) = true →
    ∃ w, least_waste e (ALLOC_BLOCK_SIZE * SIZE_TO_CLASS_MAP_INDEX size ALLOC_BLOCK_SIZE) (λ j, 0 ≤ j < 255) p w) →
  ∃ p e', found_class e e' size p.
Proof.
  intros E Hco Eh E' Hcl Hs Hf Hw. destruct (class_for_units e' size p Hcl Hs) as (c & n & Hc & Hp0 & H). exists p, e'. unfold found_class.
  split_and!; [done..| | |].
  - split; [done|]. intros [Hm Ht]. rewrite Hf in Ht by done. done.
  - intros _. exists c, n. split; [done|]. split; [|done]. destruct Hcl as (i & c' & _ & _ & Hc' & _ & _ & Hh & _). congruence.
  - intros Hm _. by apply Hw.
Qed.

Lemma by_size_found e size : coll_ok e → 0 < size < 2 ^ 34 → ∃ p e', found_class e e' size p.
Proof.
  intros Hco Hs. destruct (decide (cc_last_run_max_size (ae_ac e) ≤ size)) as [Hge|Hlt].
  { destruct (default_for e size Hco) as (p & E & Hcl). rewrite <-(by_huge e size) in E by done.
    apply (served e e size p E Hco eq_refl E Hcl Hs); intros [? _]; lia. }
  destruct (decide (recorded e size = 255)) as [Ed|Ed].
  2: { destruct (by_found e size Hco ltac:(lia) Ed) as (p & E & Hcl). apply (served e e size p E Hco eq_refl E Hcl Hs); by intros []. }
  assert (missing e size) as Hm by (split; [lia|done]). pose proof (by_unrecorded e size Hco ltac:(lia) Hm) as E.
  destruct (cc_fail_on_missing_class (ae_ac e)) eqn:Ef.
  { exists 0, e. unfold found_class. rewrite Ef. split_and!; done. }
  destruct (cc_autogenerate_on_missing_class (ae_ac e)) eqn:Ea.
  - destruct (by_assigned e size Hco ltac:(lia) Hm Ef Ea) as (p & e' & E1 & Hco' & Eh & Hcl & E2 & Hw). apply (served e e' size p E1 Hco' Eh E2 Hcl Hs); [by rewrite Ef|done].
  - destruct (default_for e size Hco) as (p & E0 & Hcl). rewrite E0 in E. apply (served e e size p E Hco eq_refl E Hcl Hs); [by rewrite Ef|by rewrite Ea].
Qed.

(** C28: the class for a size.  In a collection at rest (granularity of 16 bytes; unit sizes from 8 to 2^35 bytes; runs of at least one unit; classes without a header may be there), for every size from 1
    up to 2^34, which includes PMEMOBJ_MAX_ALLOC_SIZE, and for all settings of the collection, the call of [alloc_class_by_alloc_size] returns and leaves the collection at rest, and a second call gives the same result.  It returns [NULL] exactly
    when nothing is recorded for a size that runs may serve and the collection is to fail then.  Otherwise the class has a header and its units hold the object with the header, one unit less would not; from a run at most eight units are
    taken; [alloc_class_calc_size_idx] returns that number, or -1 when the runs of the class have fewer units.  When nothing is recorded and the collection makes the assignment itself, the class is the one with the
    least waste for the size rounded up to 16. *)
Theorem alloc_class_by_alloc_size_serves e size : coll_ok e → 0 < size < 2 ^ 34 → ∃ p e', found_class e e' size p.
Proof. apply by_size_found. Qed.

(** ** The default collection *)

Definition class_okb (c : alloc_class) : bool :=
  (8 <=? ac_unit_size c) && (ac_unit_size c <? 2 ^ 35) &&
  (bool_decide (ac_type c = CLASS_HUGE) ||
   bool_decide (ac_type c = CLASS_RUN) && match ac_run c with Some r => (1 <=? rc_nallocs r) && (rc_nallocs r <? 2 ^ 32) | None => false end).
Definition servesb (c : alloc_class) (n : Z) : bool :=
  negb (bool_decide (ac_header_type c = HEADER_NONE)) && (negb (bool_decide (ac_type c = CLASS_RUN)) || (units_of c n <=? RUN_UNIT_MAX_ALLOC)).
Definition slot_okb (e : aenv) (i : nat) (p : Z) : bool :=
  (p =? 0) || match ae_heap e !! p with Some c => class_okb c && (ac_id c =? Z.of_nat i) | None => false end.
Definition map_okb (e : aenv) (x : Z * Z) : bool :=
  (x.2 =? 255) ||
  match lookupZ (cc_aclasses (ae_ac e)) x.2 with
  | Some p => negb (p =? 0) && match ae_heap e !! p with Some c => servesb c (ALLOC_BLOCK_SIZE * x.1) | None => false end
  | None => false
  end.
Definition coll_okb (e : aenv) : bool :=
  let a := ae_ac e in
  (cc_granularity a =? ALLOC_BLOCK_SIZE) && bool_decide (length (cc_aclasses a) = 255%nat) &&
  forallb id (imap (slot_okb e) (cc_aclasses a)) &&
  match lookupZ (cc_aclasses a) 0 with
  | Some p => negb (p =? 0) && match ae_heap e !! p with Some c => bool_decide (ac_type c = CLASS_HUGE) && negb (bool_decide (ac_header_type c = HEADER_NONE)) | None => false end
  | None => false
  end && (0 <=? cc_last_run_max_size a) && (cc_last_run_max_size a <=? MAX_RUN_SIZE) && forallb (map_okb e) (map_to_list (cc_by_alloc_size a)).

Lemma class_okb_ok c : class_okb c = true → class_ok c.
Proof.
  unfold class_okb. rewrite !andb_true_iff, orb_true_iff, !andb_true_iff, !bool_decide_eq_true, Z.leb_le, Z.ltb_lt.
  intros [[U1 U2] H]. split; [done|]. destruct H as [H|[H1 H2]]; [by left|right]. split; [done|]. destruct (ac_run c) as [r|]; [|done].
  exists r. split; [done|]. lia.
Qed.

Lemma coll_okb_ok e : coll_okb e = true → coll_ok e.
Proof.
  unfold coll_okb. cbv zeta. rewrite !andb_true_iff, Z.eqb_eq, bool_decide_eq_true, !Z.leb_le, !forallb_forall.
  intros [[[[[[H1 H2] H3] H4] H5] H6] H7]. split; [done|done| | |lia|].
  - intros i p Hp Hp0. unfold lookupZ in Hp. case_decide; [|done]. assert (slot_okb e (Z.to_nat i) p = true) as Hs.
    { apply (H3 (slot_okb e (Z.to_nat i) p)), list_elem_of_In, (list_elem_of_lookup_2 _ (Z.to_nat i)). rewrite list_lookup_imap, Hp. done. }
    unfold slot_okb in Hs. rewrite (proj2 (Z.eqb_neq _ _)) in Hs by done. cbn in Hs. destruct (ae_heap e !! p) as [c|]; [|done]. apply andb_true_iff in Hs as [Hc Hid%Z.eqb_eq].
    exists c. split_and!; [done|by apply class_okb_ok|lia].
  - destruct (lookupZ (cc_aclasses (ae_ac e)) 0) as [p|]; [|done]. apply andb_true_iff in H4 as [Hp%negb_true_iff%Z.eqb_neq H4].
    destruct (ae_heap e !! p) as [c|] eqn:Ec; [|done]. exists p, c. apply andb_true_iff in H4 as [Ht%bool_decide_eq_true Hh%negb_true_iff%bool_decide_eq_false]. done.
  - intros i id Hid Hne. specialize (H7 (i, id) (proj1 (list_elem_of_In _ _) (proj2 (elem_of_map_to_list _ _ _) Hid))). unfold map_okb in H7. cbn [fst snd] in H7.
    rewrite (proj2 (Z.eqb_neq _ _)) in H7 by done. cbn [orb] in H7. destruct (lookupZ (cc_aclasses (ae_ac e)) id) as [p|]; [|done].
    apply andb_true_iff in H7 as [Hp%negb_true_iff%Z.eqb_neq H7]. destruct (ae_heap e !! p) as [c|] eqn:Ec; [|done]. exists p, c. split_and!; [done..|].
    unfold servesb in H7. apply andb_true_iff in H7 as [Hh%negb_true_iff%bool_decide_eq_false H7]. split; [done|]. intros Ht.
    rewrite bool_decide_true in H7 by done. by apply Z.leb_le.
Qed.

(** Memory for 300 objects. *)
Definition ex_aenv : aenv := AEnv init_collection ∅ 1 (repeat true 300).
Definition ex_default : aenv := (alloc_class_collection_new ex_aenv).2.

Lemma ex_default_ok : coll_ok ex_default.
Proof. apply coll_okb_ok. vm_compute. reflexivity. Qed.

Lemma alloc_class_by_alloc_size_serves_witness : ∃ p e', found_class ex_default e' 3000 p.
Proof. apply (alloc_class_by_alloc_size_serves ex_default 3000); [apply ex_default_ok|lia]. Defined.

(** ** Memory that runs out *)

(** The outcomes of the next allocations in a state. *)
Class Outcomes (S : Type) := {
  outs : S → list bool;
  with_outs : list bool → S → S;
  outs_with l s : outs (with_outs l s) = l;
  with_same s : with_outs (outs s) s = s
}.
#[global] Program Instance cuckoo_outcomes : Outcomes cuckoo_env := {
  outs := ce_alloc;
  with_outs l e := CuckooEnv (ce_table e) l
}.
Next Obligation. done. Qed.
Next Obligation. by intros []. Qed.
#[global] Program Instance aenv_outcomes : Outcomes aenv := {
  outs := ae_malloc;
  with_outs l e := AEnv (ae_ac e) (ae_heap e) (ae_next e) l
}.
Next Obligation. done. Qed.
Next Obligation. by intros []. Qed.

(** When [f] succeeds, all the allocations it made did, and the outcomes of later ones do not matter. *)
Definition strict {S A} `{Outcomes S} (ok : A → bool) (f : M S A) : Prop := ∀ e a e', f e = (Ok a, e') → ok a = true →
  ∃ n, outs e = repeat true n ++ outs e' ∧ ∀ l, f (with_outs (repeat true n ++ l) e) = (Ok a, with_outs l e').

(** [f] makes no allocation. *)
Definition no_alloc {S A} `{Outcomes S} (f : M S A) : Prop := ∀ e l, f (with_outs l e) = ((f e).1, with_outs l (f e).2).

Section Strict.
Context {S : Type} `{Outcomes S}.

Lemma strict_no_alloc {A} ok (f : M S A) : no_alloc f → strict ok f.
Proof.
  intros Hf e a e' E _. exists 0%nat. split; [|intros l; by rewrite Hf, E]. pose proof (Hf e (outs e)) as E'. rewrite with_same, E in E'. cbn [fst snd] in E'.
  injection E' as E'. rewrite E'. by rewrite outs_with.
Qed.

Lemma strict_ret {A} ok (a : A) : strict ok (mret a : M S A).
Proof. by apply strict_no_alloc. Qed.
Lemma strict_undef {A} ok : strict ok (undef : M S A).
Proof. by intros e a e'. Qed.

(** A failure that is seen ends in a failure. *)
Lemma strict_bind {A B} (P : A → bool) (Q : B → bool) (m : M S A) (k : A → M S B) : strict P m →
  (∀ a, P a = true → strict Q (k a)) → (∀ a, P a = false → ∀ e b e', k a e = (Ok b, e') → Q b = false) → strict Q (x ← m; k x).
Proof.
  intros Hm Hk Hn e b e' E HQ. apply bind_inv_ok in E as (a & e1 & E1 & E2). destruct (P a) eqn:EP; [|by rewrite (Hn a EP e1 b e' E2) in HQ].
  destruct (Hm e a e1 E1 EP) as (n1 & L1 & F1). destruct (Hk a EP e1 b e' E2 HQ) as (n2 & L2 & F2).
  exists (n1 + n2)%nat. split; [by rewrite L1, L2, repeat_app, <-app_assoc|]. intros l. rewrite repeat_app, <-app_assoc.
  erewrite bind_ok by apply F1. apply F2.
Qed.
Lemma strict_then {A B} (Q : B → bool) (m : M S A) (k : A → M S B) : strict (λ _, true) m → (∀ a, strict Q (k a)) → strict Q (x ← m; k x).
Proof. intros Hm Hk. apply (strict_bind (λ _, true)); [done|intros a _; apply Hk|done]. Qed.
End Strict.

Lemma strict_table {A} ok (f : M cuckoo A) : strict ok (on_table f).
Proof. apply strict_no_alloc. intros e l. unfold on_table. cbn. by destruct (f (ce_table e)). Qed.

Lemma strict_zalloc : strict id zalloc_ok.
Proof.
  intros [t [|[] l]] a e' E Ha; unfold zalloc_ok in E; cbn in E; injection E as <- <-; cbn in Ha; try done. exists 1%nat. split; [done|]. intros l'. done.
Qed.

Lemma strict_grow n oldsize oldtab : strict (λ err, err =? 0) (grow_loop n oldsize oldtab).
Proof.
  induction n as [|n IH]; cbn [grow_loop]; [apply strict_then; [apply strict_table|intros _; apply strict_ret]|].
  apply strict_then; [apply strict_table|]. intros size. apply (strict_bind id); [apply strict_zalloc| |].
  - intros ok Hok. cbn in Hok. subst ok. cbn [negb]. apply strict_then; [apply strict_table|]. intros _. apply strict_then; [apply strict_table|].
    intros []; [apply strict_ret|done].
  - intros ok Hok e b e' E. cbn in Hok. subst ok. cbn [negb] in E. apply bind_inv_ok in E as (? & ? & _ & E). by injection E as <- _.
Qed.

Lemma strict_cuckoo_insert key value : strict (λ err, err =? 0) (cuckoo_insert key value).
Proof.
  unfold cuckoo_insert. generalize (CuckooSlot key value) as src. induction MAX_GROWS as [|n IH]; intros src; cbn [cuckoo_insert_loop]; [apply strict_ret|].
  apply strict_then; [apply strict_table|]. intros x. destruct (negb (x.1 =? EAGAIN)); [apply strict_ret|].
  apply (strict_bind (λ err, err =? 0)); [unfold cuckoo_grow; apply strict_then; [apply strict_table|intros c; apply strict_grow]| |].
  - intros err ->. apply IH.
  - intros err Herr e b e' E. rewrite Herr in E. cbn [negb] in E. by injection E as <- _.
Qed.

Lemma strict_class_map {A} ok (f : M cuckoo_env A) : strict ok f → strict ok (on_class_map f).
Proof.
  intros Hf e a e' E Ha. unfold on_class_map in E. destruct (f _) as [r t] eqn:Ef. injection E as -> <-. destruct (Hf _ _ _ Ef Ha) as (n & L & F).
  exists n. split; [done|]. intros l. unfold on_class_map. specialize (F l). cbn in F |- *. by rewrite F.
Qed.

Lemma strict_aclass ok i : strict ok (aclass_at i).
Proof. apply strict_no_alloc. intros e l. unfold aclass_at. cbn. by destruct (lookupZ _ i). Qed.
Lemma strict_class ok p : strict ok (class_at p).
Proof. apply strict_no_alloc. intros e l. unfold class_at. cbn. by destruct (ae_heap e !! p). Qed.
Lemma strict_class_run ok c : strict ok (class_run c).
Proof. unfold class_run. destruct (ac_run c); [apply strict_ret|apply strict_undef]. Qed.
Lemma strict_set_ac ok f : strict ok (set_ac f).
Proof. by apply strict_no_alloc. Qed.
Lemma strict_store ok p c : strict ok (store_class p c).
Proof. by apply strict_no_alloc. Qed.
Lemma strict_gets_ac {A} ok (f : alloc_class_collection → A) : strict ok (gets (λ e, f (ae_ac e))).
Proof. by apply strict_no_alloc. Qed.
Lemma strict_Malloc : strict (λ p, negb (p =? 0)) Malloc_class.
Proof.
  intros [a h x [|[] l]] p e' E Hp; unfold Malloc_class in E; cbn in E; injection E as <- <-; cbn in Hp; try done. exists 1%nat. split; [done|]. intros l'. done.
Qed.

Create HintDb strict.
#[export] Hint Resolve strict_ret strict_undef strict_aclass strict_class strict_class_run strict_set_ac strict_store strict_gets_ac : strict.
(** Steps that do not allocate. *)
Ltac strict_step := first [solve [auto with strict] | apply strict_then; [solve [auto with strict]|intros ?]].

Lemma strict_find_free n i : strict (λ _, true) (find_free_loop n i).
Proof. revert i. induction n as [|n IH]; intros i; cbn [find_free_loop]; repeat strict_step. destruct (_ =? 0); [|apply IH]. unfold put_aclass. repeat strict_step. Qed.

Lemma clear_null id e p e' : clear_and_null id e = (Ok p, e') → p = 0.
Proof. unfold clear_and_null. intros E. apply bind_inv_ok in E as (? & ? & _ & E). by injection E as <- _. Qed.

Lemma strict_new id type htype unit_size alignment size_idx : strict (λ p, negb (p =? 0)) (alloc_class_new id type htype unit_size alignment size_idx).
Proof.
  unfold alloc_class_new. apply (strict_bind (λ p, negb (p =? 0))); [apply strict_Malloc| |].
  2: { intros c Hc e b e' E. apply negb_false_iff in Hc. rewrite Hc in E. by rewrite (clear_null _ _ _ _ E). }
  intros c Hc. apply negb_true_iff in Hc. rewrite Hc. cbv zeta.
  assert (∀ id run, strict (λ p, negb (p =? 0)) (store_class c (AllocClass (u8 id) (class_flags htype alignment) unit_size htype type run);; put_aclass (u8 id) c;; mret c)) as Hfin
    by (intros id' run; unfold put_aclass; repeat strict_step).
  destruct type; [apply strict_undef|apply Hfin|].
  destruct (memblock_run_bitmap _ _ _ _ _) as [[b idx]| |]; [|apply strict_undef..].
  apply strict_then; [destruct (id <? 0); [apply strict_find_free|apply strict_ret]|]. intros [id'|].
  - strict_step. destruct (negb _); [apply strict_undef|]. apply (strict_bind (λ err, err =? 0)); [apply strict_class_map, strict_cuckoo_insert| |].
    + intros err ->. apply Hfin.
    + intros err Herr e p e' E. rewrite Herr in E. cbn [negb] in E. apply bind_inv_ok in E as (? & ? & _ & E). by rewrite (clear_null _ _ _ _ E).
  - intros e p e' E Hp. by rewrite (clear_null _ _ _ _ E) in Hp.
Qed.

Lemma strict_find n i d f : (∀ c, strict (λ _, true) (f c)) → strict (λ _, true) (find_class n i d f).
Proof.
  intros Hf. revert i. induction n as [|n IH]; intros i; cbn [find_class]; repeat strict_step. destruct (_ =? 0); [apply IH|]. strict_step.
  apply strict_then; [apply Hf|]. intros []; [apply strict_ret|apply IH].
Qed.

Lemma strict_find_or_create n : strict (λ p, negb (p =? 0)) (alloc_class_find_or_create n).
Proof.
  unfold alloc_class_find_or_create. apply strict_then.
  { apply strict_find. intros c. case_decide; repeat strict_step. }
  intros [p|]; [apply strict_ret|]. destruct (unit_size_loop _ _ _) as [n'| |]; [|apply strict_undef..]. apply strict_then.
  { apply strict_find. intros c. case_decide; apply strict_ret. }
  intros [p|]; [apply strict_ret|apply strict_new].
Qed.

Lemma strict_category fuel n last : strict id (category_loop fuel n last).
Proof.
  revert n. induction fuel as [|fuel IH]; intros n; cbn [category_loop]; [apply strict_undef|].
  apply (strict_bind (λ p, negb (p =? 0))); [apply strict_find_or_create| |].
  - intros p Hp%negb_true_iff. rewrite Hp. cbv zeta. destruct (_ <=? last); [apply IH|apply strict_ret].
  - intros p Hp%negb_false_iff e b e' E. rewrite Hp in E. by injection E as <- _.
Qed.

Lemma strict_categories prev sizes : strict id (categories_loop prev sizes).
Proof.
  revert prev. induction sizes as [|size sizes IH]; intros prev; cbn [categories_loop]; [apply strict_ret|].
  apply (strict_bind id); [apply strict_category| |]; [by intros [] ?|]. intros [] Hb e b e' E; [done|]. by injection E as <- _.
Qed.

Lemma strict_largest n i : strict (λ _, true) (largest_slot n i).
Proof. revert i. induction n as [|n IH]; intros i; cbn [largest_slot]; repeat strict_step. destruct (_ && _); [apply IH|apply strict_ret]. Qed.

Lemma strict_fill : strict id collection_fill.
Proof.
  unfold collection_fill. apply (strict_bind (λ p, negb (p =? 0))); [apply strict_new| |].
  2: { intros p Hp%negb_false_iff e b e' E. rewrite Hp in E. by injection E as <- _. }
  intros huge Hh%negb_true_iff. rewrite Hh. apply (strict_bind (λ p, negb (p =? 0))); [apply strict_new| |].
  2: { intros p Hp%negb_false_iff e b e' E. rewrite Hp in E. by injection E as <- _. }
  intros pre Hp%negb_true_iff. rewrite Hp. repeat strict_step. apply (strict_bind id); [apply strict_categories| |].
  2: { intros [] Hb e b e' E; [done|]. by injection E as <- _. }
  intros [] Hb; [cbn [negb]|done]. apply strict_then; [apply strict_largest|]. intros slot. repeat strict_step.
Qed.

Lemma strict_collection : strict id alloc_class_collection_new.
Proof.
  intros [a h x ms] [] e' E Ha; [|done]. unfold alloc_class_collection_new in E. cbn [ae_malloc ae_heap ae_next] in E.
  destruct ms as [|[] [|[] [|m1 [|m2 l]]]]; try done. destruct (cuckoo_new m1 m2) as [t|] eqn:Et; [|done].
  assert (m1 = true ∧ m2 = true) as [-> ->] by (by destruct m1, m2). apply bind_inv_ok in E as ([] & e1 & E1 & E2).
  2: { apply bind_inv_ok in E2 as (? & ? & _ & E2). done. }
  injection E2 as ->. destruct (strict_fill _ _ _ E1 eq_refl) as (n & L & F). cbn [outs aenv_outcomes ae_malloc] in L. exists (4 + n)%nat.
  split; [by rewrite L|]. intros l'. specialize (F l'). cbn [with_outs aenv_outcomes] in *. change (repeat true (4 + n)) with (true :: true :: true :: true :: repeat true n).
  unfold alloc_class_collection_new. cbn [ae_malloc ae_heap ae_next app]. rewrite Et. cbn [ae_ac ae_heap ae_next] in F. by erewrite bind_ok by exact F.
Qed.

(** The allocations of a whole collection. *)
Definition COLLECTION_MALLOCS : nat := 76.

Lemma default_run a l : alloc_class_collection_new (AEnv a ∅ 1 (repeat true COLLECTION_MALLOCS ++ l)) =
  (Ok true, AEnv (ae_ac ex_default) (ae_heap ex_default) 55 l).
Proof. vm_compute. reflexivity. Qed.

(** The classes of a type, in the order of the slots. *)
Definition classes_of (e : aenv) (type : alloc_class_type) : list alloc_class :=
  filter (λ c, ac_type c = type) (omap (λ p, if p =? 0 then None else ae_heap e !! p) (cc_aclasses (ae_ac e))).
(** The runs of a class have the eight units that an object may take. *)
Definition enough_units (c : alloc_class) : bool :=
  negb (bool_decide (ac_type c = CLASS_RUN)) || match ac_run c with Some r => RUN_UNIT_MAX_ALLOC <=? rc_nallocs r | None => false end.

(** The slots whose class is found by the size, the flags and the number of chunks of its runs. *)
Definition found_by_run (e : aenv) (p : Z) : bool :=
  (p =? 0) ||
  match ae_heap e !! p with
  | Some c =>
      match ac_run c with
      | Some r => match (alloc_class_by_run (ac_unit_size c) (ac_flags c) (rc_size_idx r) e).1 with Ok q => q =? p | _ => false end
      | None => true
      end
  | None => false
  end.

Lemma default_classes : classes_of ex_default CLASS_HUGE = [AllocClass 0 (class_flags HEADER_COMPACT 0) CHUNKSIZE HEADER_COMPACT CLASS_HUGE None] ∧
  length (classes_of ex_default CLASS_RUN) = 53%nat ∧ forallb (found_by_run ex_default) (cc_aclasses (ae_ac ex_default)) = true.
Proof. split_and!; vm_compute; reflexivity. Qed.

Lemma all_units (h : gmap Z alloc_class) p c : forallb (λ x, enough_units x.2) (map_to_list h) = true → h !! p = Some c → enough_units c = true.
Proof. rewrite forallb_forall. intros H E. by apply (H (p, c)), list_elem_of_In, elem_of_map_to_list. Qed.

Lemma coll_ok_rest e x l : coll_ok e → coll_ok (AEnv (ae_ac e) (ae_heap e) x l).
Proof. by intros []. Qed.

(** A collection whose runs have enough units accepts every size. *)
Lemma every_size e size : coll_ok e → (∀ p c, ae_heap e !! p = Some c → enough_units c = true) → cc_fail_on_missing_class (ae_ac e) = false → 0 < size < 2 ^ 34 →
  ∃ p e' c n, alloc_class_by_alloc_size size e = (Ok p, e') ∧ ae_heap e' !! p = Some c ∧ alloc_class_calc_size_idx c size = Ok (Some n) ∧
    size + header_type_to_size (ac_header_type c) ≤ ac_unit_size c * n.
Proof.
  intros Hco Hu Hf Hs. destruct (by_size_found e size Hco Hs) as (p & e' & E & _ & Eh & _ & Hz & Hc & _).
  destruct Hc as (c & n & Hc & _ & Hn & Hb & H8 & Hi); [rewrite Hz, Hf; by intros []|]. exists p, e', c, n. split_and!; [done|done| |lia].
  rewrite Hi. rewrite Eh in Hc. specialize (Hu p c Hc). unfold enough_units in Hu. destruct (ac_run c) as [r|]; [|done].
  destruct (decide (ac_type c = CLASS_RUN)) as [Ht|Ht]; [|by rewrite bool_decide_false]. rewrite bool_decide_true in Hu |- * by done.
  cbn in Hu. apply Z.leb_le in Hu. specialize (H8 Ht). by rewrite (proj2 (Z.ltb_ge _ _)) by lia.
Qed.

(** What a collection with the default classes gives. *)
Definition default_collection (e : aenv) : Prop :=
  coll_ok e ∧ classes_of e CLASS_HUGE = [AllocClass 0 (class_flags HEADER_COMPACT 0) CHUNKSIZE HEADER_COMPACT CLASS_HUGE None] ∧
  length (classes_of e CLASS_RUN) = 53%nat ∧ forallb (found_by_run e) (cc_aclasses (ae_ac e)) = true ∧
  ∀ size, 0 < size < 2 ^ 34 → ∃ p e' c n, alloc_class_by_alloc_size size e = (Ok p, e') ∧ ae_heap e' !! p = Some c ∧
    alloc_class_calc_size_idx c size = Ok (Some n) ∧ size + header_type_to_size (ac_header_type c) ≤ ac_unit_size c * n.

Lemma by_run_rest e x l u f i : (alloc_class_by_run u f i (AEnv (ae_ac e) (ae_heap e) x l)).1 = (alloc_class_by_run u f i e).1.
Proof.
  unfold alloc_class_by_run. erewrite !bind_ok by reflexivity. cbn [ae_ac]. destruct (negb _); [done|]. destruct (negb _); [done|].
  unfold on_class_map, on_table. cbn [ae_ac ce_table]. by destruct (cuckoo_get _ _).
Qed.

Lemma default_rest e x l : coll_ok e → cc_fail_on_missing_class (ae_ac e) = false → forallb (λ y, enough_units y.2) (map_to_list (ae_heap e)) = true →
  classes_of e CLASS_HUGE = [AllocClass 0 (class_flags HEADER_COMPACT 0) CHUNKSIZE HEADER_COMPACT CLASS_HUGE None] ∧
    length (classes_of e CLASS_RUN) = 53%nat ∧ forallb (found_by_run e) (cc_aclasses (ae_ac e)) = true →
  default_collection (AEnv (ae_ac e) (ae_heap e) x l).
Proof.
  intros Hco Hf Hu (C1 & C2 & C3). split; [by apply coll_ok_rest|]. split; [exact C1|]. split; [exact C2|]. split.
  - rewrite forallb_forall in C3 |- *. intros p Hp. rewrite <-(C3 p Hp). unfold found_by_run. cbn [ae_heap]. destruct (p =? 0); [done|].
    destruct (ae_heap e !! p) as [c|]; [|done]. destruct (ac_run c); [|done]. cbn [orb]. by rewrite by_run_rest.
  - intros size Hs. apply every_size; [by apply coll_ok_rest| |done..]. intros p c. by apply all_units.
Qed.

Lemma default_run_ok l : default_collection (AEnv (ae_ac ex_default) (ae_heap ex_default) 55 l).
Proof. apply default_rest; [exact ex_default_ok|vm_compute; reflexivity|vm_compute; reflexivity|exact default_classes]. Qed.

Lemma repeat_prefix (n j : nat) l l' : repeat true n ++ l' = repeat true j ++ false :: l → (n ≤ j)%nat.
Proof. revert j. induction n as [|n IH]; intros [|j] E; cbn in E; try lia; [done|]. injection E as E. specialize (IH j E). lia. Qed.

Lemma same_outs (r r' : res bool) a h x l a' h' x' l' : (r, AEnv a h x l) = (r', AEnv a' h' x' l') → l = l'.
Proof. by intros [= _ _ _ _ ->]. Qed.

(** A collection that was made took all the allocations. *)
Lemma collection_took a j l e : alloc_class_collection_new (AEnv a ∅ 1 (repeat true j ++ false :: l)) = (Ok true, e) → (COLLECTION_MALLOCS ≤ j)%nat.
Proof.
  intros E. destruct (strict_collection _ _ _ E eq_refl) as (n & L & F). cbn [outs aenv_outcomes ae_malloc] in L.
  pose proof (repeat_prefix n j l (ae_malloc e) (eq_sym L)) as Hn. etransitivity; [|exact Hn].
  specialize (F (repeat true (COLLECTION_MALLOCS - n))). cbn [with_outs aenv_outcomes ae_ac ae_heap ae_next] in F.
  destruct (decide (COLLECTION_MALLOCS ≤ n)%nat) as [|Hlt]; [done|exfalso].
  rewrite <-repeat_app in F. replace (n + (COLLECTION_MALLOCS - n))%nat with COLLECTION_MALLOCS in F by lia.
  rewrite <-(app_nil_r (repeat true COLLECTION_MALLOCS)), default_run in F. apply same_outs in F.
  apply (f_equal length) in F. rewrite repeat_length in F. cbn [length] in F. lia.
Qed.

(** C29: the default classes.  [alloc_class_collection_new], run with any outcomes of its allocations of which the first [j] succeed and the next one fails, succeeds exactly when at least 76 succeed: it makes
    that many and hides no failure.  Then the collection is at rest, has one class of huge blocks, in slot 0, and 53 classes of runs, every class is the one that [alloc_class_by_run] finds for its runs, the outcomes
    after the 76th are untouched, and every size from 1 up to 2^34 gets a class from which [alloc_class_calc_size_idx] takes enough units for the object with its header. *)
Theorem alloc_class_collection_new_ok a j l : let '(r, e) := alloc_class_collection_new (AEnv a ∅ 1 (repeat true j ++ false :: l)) in
  (r = Ok true ↔ (COLLECTION_MALLOCS ≤ j)%nat) ∧
  (r = Ok true → ae_malloc e = repeat true (j - COLLECTION_MALLOCS) ++ false :: l ∧ default_collection e).
Proof.
  destruct (decide (COLLECTION_MALLOCS ≤ j)%nat) as [Hj|Hj].
  - assert (repeat true j ++ false :: l = repeat true COLLECTION_MALLOCS ++ repeat true (j - COLLECTION_MALLOCS) ++ false :: l) as ->
      by (rewrite app_assoc, <-repeat_app; do 2 f_equal; lia).
    rewrite default_run. split; [done|]. intros _. split; [done|apply default_run_ok].
  - destruct (alloc_class_collection_new _) as [r e] eqn:E. assert (r ≠ Ok true) as Hr; [|by split].
    intros ->. by apply collection_took in E.
Qed.

(** [alloc_class_delete] leaves the class in the hash table of runs.  After a class has been made and deleted, which is what happens when its
    buckets cannot be created, [alloc_class_by_run] still returns the address of the freed object. *)
Theorem alloc_class_delete_dangles : ∃ p e' e'', alloc_class_new (-1) CLASS_RUN HEADER_NONE 1000 0 1 ex_default = (Ok p, e') ∧ p ≠ 0 ∧
  alloc_class_delete p e' = (Ok tt, e'') ∧ ae_heap e'' !! p = None ∧
  (alloc_class_by_run 1000 (class_flags HEADER_NONE 0) 1 e'').1 = Ok p.
Proof.
  set (r := alloc_class_new (-1) CLASS_RUN HEADER_NONE 1000 0 1 ex_default). set (r' := alloc_class_delete 55 r.2).
  assert (r.1 = Ok 55) as E1 by (vm_compute; reflexivity). assert (r'.1 = Ok tt) as E2 by (vm_compute; reflexivity).
  exists 55, r.2, r'.2. split_and!; [rewrite <-E1; by destruct r|lia|fold r'; rewrite <-E2; by destruct r'|vm_compute; reflexivity|vm_compute; reflexivity].
Qed.

(** running out of memory early in [alloc_class_collection_new] is not an error but undefined: the error path calls
    [cuckoo_delete] with the [NULL] of a table that was not made. *)
Theorem alloc_class_collection_new_oom e l : ae_malloc e = true :: false :: l → (alloc_class_collection_new e).1 = Undef.
Proof. intros E. unfold alloc_class_collection_new. rewrite E. done. Qed.

Lemma alloc_class_collection_new_oom_witness : (alloc_class_collection_new (AEnv init_collection ∅ 1 [true; false])).1 = Undef.
Proof. apply (alloc_class_collection_new_oom _ []). reflexivity. Defined.
