(* ===== verification/Recycler.v ===== *)
(** * libpmemobj: the recycler of runs

    Models [libpmemobj/recycler.c]: the runs of a class that are not in use, ordered by the largest block they can serve.  The score of a run
    is computed from its bitmap; what is freed later is only counted, until the scores are computed again.  Blocks with reservations
    that are not yet fulfilled are kept aside.  The pool is only read. *)

From stdpp Require Import base gmap list numbers.
From S2P Require Import Prelude Memory Pmem Util Container ContainerSeglists Ravl RavlSearch Bucket Memblock MemblockFree MemblockRun.
Local Open Scope Z_scope.

Definition THRESHOLD_MUL : Z := 4.

(** ** Data *)

Record recycler_element : Type := RecyclerElement {
  re_max_free_block : Z;
  re_free_space : Z;
  re_chunk_id : Z;
  re_zone_id : Z
}.

#[global] Instance recycler_element_eq_dec : EqDecision recycler_element.
Proof. solve_decision. Defined.

(** The object in a node of the tree. *)
Definition sizeof_recycler_element : Z := 16.
Definition element_bytes (e : recycler_element) : list Z :=
  le_bytes 4 (re_max_free_block e) ++ le_bytes 4 (re_free_space e) ++ le_bytes 4 (re_chunk_id e) ++ le_bytes 4 (re_zone_id e).
Definition element_of (bs : list Z) : recycler_element :=
  RecyclerElement (le_of (slice bs 0 4)) (le_of (slice bs 4 4)) (le_of (slice bs 8 4)) (le_of (slice bs 12 4)).
Definition element_at (d : dref) : recycler_element :=
  match d with Own bs => element_of bs | Ptr _ => RecyclerElement 0 0 0 0 end.

Definition recycler_element_cmp (l r : recycler_element) : Z :=
  let diff := re_max_free_block l - re_max_free_block r in
  if negb (diff =? 0) then if 0 <? diff then 1 else -1
  else
    let diff := re_free_space l - re_free_space r in
    if negb (diff =? 0) then if 0 <? diff then 1 else -1
    else
      let diff := re_zone_id l - re_zone_id r in
      if negb (diff =? 0) then if 0 <? diff then 1 else -1
      else
        let diff := re_chunk_id l - re_chunk_id r in
        if negb (diff =? 0) then if 0 <? diff then 1 else -1
        else 0.
Definition compare_elements (a b : dref) : Z := recycler_element_cmp (element_at a) (element_at b).

(** [rr_pending]: addresses of blocks with reservations, which are in [rr_reserved]. *)
Record recycler : Type := Recycler {
  rr_runs : ravl;
  rr_unaccounted_units : gmap Z Z;
  rr_unaccounted_total : Z;
  rr_nallocs : Z;
  rr_recalc_threshold : Z;
  rr_pending : list Z;
  rr_reserved : gmap Z memory_block_reserved
}.

Local Abbreviation MY A := (M recycler A).

Definition set_runs (t : ravl) (r : recycler) : recycler :=
  Recycler t (rr_unaccounted_units r) (rr_unaccounted_total r) (rr_nallocs r) (rr_recalc_threshold r) (rr_pending r) (rr_reserved r).
Definition set_unaccounted (u : gmap Z Z) (total : Z) (r : recycler) : recycler :=
  Recycler (rr_runs r) u total (rr_nallocs r) (rr_recalc_threshold r) (rr_pending r) (rr_reserved r).
Definition set_pending (l : list Z) (h : gmap Z memory_block_reserved) (r : recycler) : recycler :=
  Recycler (rr_runs r) (rr_unaccounted_units r) (rr_unaccounted_total r) (rr_nallocs r) (rr_recalc_threshold r) l h.

Definition on_runs {A} (f : M ravl A) : MY A := λ r, let '(x, t) := f (rr_runs r) in (x, set_runs t r).
Definition of_res {S A} (x : res A) : M S A := λ s, (x, s).

Definition find_element (e : recycler_element) (predicate : Z) : MY Z :=
  on_runs (ravl_find compare_elements (Own (element_bytes e)) predicate).
(** The element in the node [n]. *)
Definition node_element (n : Z) : MY recycler_element :=
  x ← on_runs (node_get n); mret (element_at (ravl_data x)).
(** [None] for an error. *)
Definition emplace_element (e : recycler_element) : MY bool := λ r,
  match on_runs (ravl_emplace_copy compare_elements (element_bytes e)) r with
  | (Ok _, r') => (Ok true, r')
  | (Fail _, r') => (Ok false, r')
  | (Undef, r') => (Undef, r')
  end.

(** [malloc]: the outcomes of the allocations of the recycler and of its tree. *)
Definition recycler_new (nallocs : Z) (malloc : list bool) : option recycler :=
  match malloc with
  | true :: l =>
      match ravl_new_sized sizeof_recycler_element l with
      | Some t => Some (Recycler t ∅ 0 nallocs (u64 (nallocs * THRESHOLD_MUL)) [] ∅)
      | None => None
      end
  | _ => None
  end.

(** The pending blocks, the tree and the recycler are freed. *)
Definition recycler_delete : MY unit :=
  modify (λ r, set_pending [] (foldr delete (rr_reserved r) (rr_pending r)) r);; on_runs ravl_delete.

Section recycler.
Context (layout : Z) (x : mem).

Definition recycler_element_new (m : memory_block) : res recycler_element :=
  match (run_calc_free layout m 0 0 x).1 with
  | Ok (free_space, max_free_block) => Ok (RecyclerElement max_free_block free_space (chunk_id m) (zone_id m))
  | Fail e => Fail e
  | Undef => Undef
  end.

(** Whether it succeeded. *)
Definition recycler_put (element : recycler_element) : MY bool := emplace_element element.

(** [VEC_ERASE_BY_POS] *)
Definition erase_by_pos (l : list Z) (pos : nat) : list Z :=
  match l !! (length l - 1)%nat with
  | Some b => take (length l - 1) (<[pos := b]> l)
  | None => l
  end.
(** The positions from [pos] on. *)
Fixpoint pending_loop (fuel : nat) (pos : nat) : MY unit :=
  match fuel with
  | O => mret tt
  | S fuel =>
      r ← gets id;
      match rr_pending r !! pos with
      | None => mret tt
      | Some p =>
          match rr_reserved r !! p with
          | None => undef
          | Some mr =>
              (if mr_nresv mr =? 0 then
                 e ← of_res (recycler_element_new (mr_m mr));
                 emplace_element e;;
                 modify (λ r, set_pending (erase_by_pos (rr_pending r) pos) (delete p (rr_reserved r)) r)
               else mret tt);;
              pending_loop fuel (S pos)
          end
      end
  end.
Definition recycler_pending_check : MY unit := λ r, pending_loop (length (rr_pending r)) 0 r.

(** [m]: the block that says how many units are asked for, and the one that is returned. *)
Definition recycler_get (m : memory_block) : MY memory_block :=
  recycler_pending_check;;
  n ← find_element (RecyclerElement (size_idx m) 0 0 0) RAVL_PREDICATE_GREATER_EQUAL;
  if n =? 0 then fail ENOMEM
  else
    ne ← node_element n;
    on_runs (ravl_remove n);;
    let m := MemoryBlock (re_chunk_id ne) (re_zone_id ne) (size_idx m) (block_off m) (mb_header_type m) (mb_type m) in
    let m := set_size_idx (hdr_size_idx x (heap_get_chunk_hdr layout m)) m in
    of_res (memblock_rebuild_state layout m x).1.

(** [ok]: whether there was memory. *)
Definition recycler_pending_put (ok : bool) (p : Z) (mr : memory_block_reserved) : MY unit :=
  if ok then modify (λ r, set_pending (rr_pending r ++ [p]) (<[p := mr]> (rr_reserved r)) r) else undef.

(** [search_limit] is [None] for [UINT64_MAX] in a forced search.  The result: the runs that are empty, and the elements to put back.  Every turn
    looks at the next element. *)
Fixpoint recalc_loop (fuel : nat) (force : bool) (search_limit : Z) (next : recycler_element) (p : Z) (found_units : Z)
    (runs : list memory_block) (recalc : list recycler_element) : MY (list memory_block * list recycler_element) :=
  match fuel with
  | O => undef
  | S fuel =>
      n ← find_element next p;
      if n =? 0 then mret (runs, recalc)
      else
        ne ← node_element n;
        let again (found_units : Z) runs recalc :=
          if found_units <? search_limit
          then recalc_loop fuel force search_limit ne RAVL_PREDICATE_GREATER found_units runs recalc
          else mret (runs, recalc) in
        chunk_units ← gets (λ r, default 0 (rr_unaccounted_units r !! re_chunk_id ne));
        if negb force && (chunk_units =? 0) then again found_units runs recalc
        else
          nm ← of_res (memblock_rebuild_state layout (block_at (re_chunk_id ne) (re_zone_id ne) 0) x).1;
          e ← of_res (recycler_element_new nm);
          if negb (re_free_space ne <=? re_free_space e) then undef
          else
            let free_space_diff := re_free_space e - re_free_space ne in
            let found_units := u64 (found_units + free_space_diff) in
            if free_space_diff =? 0 then again found_units runs recalc
            else
              nallocs ← gets rr_nallocs;
              modify (λ r, set_unaccounted
                (<[chunk_id nm := u64 (default 0 (rr_unaccounted_units r !! chunk_id nm) -
                     Z.min chunk_units (u64 (free_space_diff + nallocs)))]> (rr_unaccounted_units r)) (rr_unaccounted_total r) r);;
              on_runs (ravl_remove n);;
              if re_free_space e =? nallocs then
                again found_units (runs ++ [nm]) recalc
              else again found_units runs (recalc ++ [e])
  end.

Fixpoint emplace_all (es : list recycler_element) : MY unit :=
  match es with
  | [] => mret tt
  | e :: es => emplace_element e;; emplace_all es
  end.

(** [locked]: whether somebody else has the lock.  There is memory for the two vectors. *)
Definition recycler_recalc (locked force : bool) : MY (list memory_block) :=
  r ← gets id;
  let units := rr_unaccounted_total r in
  if (units =? 0) || (negb force && (units <? rr_recalc_threshold r)) then mret []
  else if locked then mret []
  else
    let search_limit := if force then 2 ^ 64 - 1 else units in
    res ← recalc_loop (S (size (r_heap (rr_runs r)))) force search_limit (RecyclerElement 0 0 0 0) RAVL_PREDICATE_GREATER_EQUAL 0 [] [];
    emplace_all (snd res);;
    modify (λ r, set_unaccounted (rr_unaccounted_units r) (u64 (rr_unaccounted_total r - units)) r);;
    mret (fst res).

Definition recycler_inc_unaccounted (m : memory_block) : MY unit :=
  modify (λ r, set_unaccounted
    (<[chunk_id m := u64 (default 0 (rr_unaccounted_units r !! chunk_id m) + size_idx m)]> (rr_unaccounted_units r))
    (u64 (rr_unaccounted_total r + size_idx m)) r).
End recycler.
