(* ===== verification/RecyclerTheorems.v ===== *)
(** * libpmemobj: theorems about the recycler *)

From stdpp Require Import base gmap list numbers.
From S2P Require Import Prelude Memory Pmem Util Ulog Ravl RavlTree RavlRun RavlSearch RavlTheorems Container ContainerSeglists ContainerRavl Bucket MemopsExample Memblock MemblockFree MemblockRun Recycler.
Local Open Scope Z_scope.

(** ** The order of elements *)


Lemma element_cmp_spec l r : recycler_element_cmp l r ≤ 0 ↔
  re_max_free_block l < re_max_free_block r ∨ re_max_free_block l = re_max_free_block r ∧
  (re_free_space l < re_free_space r ∨ re_free_space l = re_free_space r ∧
   (re_zone_id l < re_zone_id r ∨ re_zone_id l = re_zone_id r ∧ re_chunk_id l ≤ re_chunk_id r)).
Proof.
  unfold recycler_element_cmp. repeat (case_match; rewrite ?negb_true_iff, ?negb_false_iff, ?Z.eqb_neq, ?Z.eqb_eq, ?Z.ltb_lt, ?Z.ltb_ge in *); lia.
Qed.

Lemma element_cmp_opp l r : recycler_element_cmp l r = - recycler_element_cmp r l.
Proof.
  unfold recycler_element_cmp. repeat (case_match; rewrite ?negb_true_iff, ?negb_false_iff, ?Z.eqb_neq, ?Z.eqb_eq, ?Z.ltb_lt, ?Z.ltb_ge in *); lia.
Qed.


#[global] Instance compare_elements_ok : CompareOk compare_elements.
Proof.
  unfold compare_elements. split.
  - intros a b. pose proof (element_cmp_opp (element_at a) (element_at b)). lia.
  - intros a b c. rewrite !element_cmp_spec. lia.
Qed.




(** ** What a recycler holds *)




Section recycler.
Context (layout : Z) (x : mem).



(** ** Blocks that wait for their reservations *)








End recycler.

(** ** Witness *)

(** Two runs, with largest free blocks of 3 and 9 units. *)
Definition ex_recycler0 : recycler := Recycler (Ravl 0 16 ∅ 1 []) ∅ 0 100 400 [] ∅.

Lemma ex_recycler_new : recycler_new 100 [true; true] = Some ex_recycler0.
Proof. reflexivity. Qed.




