(* ===== verification/Heap.v ===== *)
(** * libpmemobj: the heap

    Models [libpmemobj/heap.c]: zones of chunks, the default bucket of free chunks, and the way runs are made from chunks and given
    back.  Locks and the assignment of arenas to threads are left out: an operation has the buckets it uses to itself. *)

From stdpp Require Import base gmap list numbers.
From S2P Require Import Prelude Memory Pmem Util Ulog Container ContainerSeglists Bucket Cuckoo Memops Memblock AllocClass Recycler.
Local Open Scope Z_scope.

(** ** Layout *)

Definition ZONE_HEADER_MAGIC : Z := 0xC3F0A2D2.
Definition ZONE_MIN_SIZE : Z := sizeof_zone + CHUNKSIZE.
Definition HEAP_MIN_SIZE : Z := (sizeof_heap_header + sizeof_zone) + ZONE_MIN_SIZE.
Definition HEAP_MAJOR : Z := 1.
Definition HEAP_MINOR : Z := 0.
(** "MEMORY_HEAP_HDR" and a zero. *)
Definition HEAP_SIGNATURE : list Z := [77; 69; 77; 79; 82; 89; 95; 72; 69; 65; 80; 95; 72; 68; 82; 0].
Definition MAX_CHUNK_TYPE : Z := 6.
Definition CHUNK_FLAGS_ALL_VALID : Z := CHUNK_FLAG_COMPACT_HEADER ||| CHUNK_FLAG_HEADER_NONE ||| CHUNK_FLAG_ALIGNED ||| CHUNK_FLAG_FLEX_BITMAP.
Definition HEAP_DEFAULT_GROW_SIZE : Z := 2 ^ 27.

(** The fields of [struct zone_header] at [z], and a zone header as bytes. *)
Definition zone_magic (x : mem) (z : Z) : Z := rd32 x z.
Definition zone_size_idx (x : mem) (z : Z) : Z := rd32 x (z + 4).
Definition zone_header_bytes (size_idx : Z) : list Z := le_bytes 4 ZONE_HEADER_MAGIC ++ le_bytes 4 size_idx ++ zeros 56.

(** [struct heap_header] with a checksum of 0. *)
Definition heap_header_bytes : list Z :=
  HEAP_SIGNATURE ++ le_bytes 8 HEAP_MAJOR ++ le_bytes 8 HEAP_MINOR ++ le_bytes 8 0 ++ le_bytes 8 CHUNKSIZE ++ le_bytes 8 MAX_CHUNK ++ zeros 960 ++ zeros 8.

(** ** Zones *)

(** [fuel] is more than the zones that fit. *)
Fixpoint max_zone_loop (fuel : nat) (size max_zone : Z) : Z :=
  match fuel with
  | O => max_zone
  | S fuel =>
      if ZONE_MIN_SIZE <=? size
      then max_zone_loop fuel (size - (if size <=? ZONE_MAX_SIZE then size else ZONE_MAX_SIZE)) (u32 (max_zone + 1))
      else max_zone
  end.
Definition heap_max_zone (size : Z) : Z :=
  let size := u64 (size - sizeof_heap_header) in max_zone_loop (Z.to_nat (size / ZONE_MAX_SIZE) + 2) size 0.

Definition zone_calc_size_idx (zone_id max_zone heap_size : Z) : res Z :=
  if max_zone <=? 0 then Undef
  else if zone_id <? max_zone - 1 then Ok MAX_CHUNK
  else if heap_size <? zone_id * ZONE_MAX_SIZE then Undef
  else
    let zone_raw_size := heap_size - zone_id * ZONE_MAX_SIZE in
    if zone_raw_size <? sizeof_zone then Undef
    else
      let zone_size_idx := (zone_raw_size - sizeof_zone) / CHUNKSIZE in
      if zone_size_idx <=? 2 ^ 32 - 1 then Ok zone_size_idx else Undef.

(** ** Data *)

(** The pool, the default bucket with a container of type [C], the classes and the recyclers of their runs, and the counters of [struct heap_rt]. *)
Record heap (C : Type) : Type := Heap {
  h_pm : pmem;
  h_default_bucket : bucket C;
  h_alloc_classes : aenv;
  h_recyclers : gmap Z recycler;
  h_nzones : Z;
  h_zones_exhausted : Z
}.
Arguments Heap {C}.
Arguments h_pm {C}.
Arguments h_default_bucket {C}.
Arguments h_alloc_classes {C}.
Arguments h_recyclers {C}.
Arguments h_nzones {C}.
Arguments h_zones_exhausted {C}.

#[global] Instance heap_has_mem C : HasMem (heap C) := λ h, pm_mem (h_pm h).

(** [None] for an error code. *)
Definition attempt {S A} (f : M S A) : M S (option A) := λ s,
  match f s with
  | (Ok a, s') => (Ok (Some a), s')
  | (Fail _, s') => (Ok None, s')
  | (Undef, s') => (Undef, s')
  end.

Section heap.
Context {C : Type} (p_ops : pmem_ops) (layout sizep : Z).

Local Abbreviation MH A := (M (heap C) A).

Definition on_hpm {A} (f : M pmem A) : MH A := λ h,
  let '(r, p) := f (h_pm h) in
  (r, Heap p (h_default_bucket h) (h_alloc_classes h) (h_recyclers h) (h_nzones h) (h_zones_exhausted h)).
Definition on_default {A} (f : M (bucket C) A) : MH A := λ h,
  let '(r, b) := f (h_default_bucket h) in
  (r, Heap (h_pm h) b (h_alloc_classes h) (h_recyclers h) (h_nzones h) (h_zones_exhausted h)).
Definition on_classes {A} (f : M aenv A) : MH A := λ h,
  let '(r, e) := f (h_alloc_classes h) in
  (r, Heap (h_pm h) (h_default_bucket h) e (h_recyclers h) (h_nzones h) (h_zones_exhausted h)).
(** The recycler of a class; [f] reads the pool. *)
Definition on_recycler {A} (id : Z) (f : mem → M recycler A) : MH A := λ h,
  match h_recyclers h !! id with
  | None => (Undef, h)
  | Some y =>
      let '(r, y) := f (mem_of h) y in
      (r, Heap (h_pm h) (h_default_bucket h) (h_alloc_classes h) (<[id := y]> (h_recyclers h)) (h_nzones h) (h_zones_exhausted h))
  end.
Definition set_zones (nzones exhausted : Z) : MH unit :=
  modify (λ h, Heap (h_pm h) (h_default_bucket h) (h_alloc_classes h) (h_recyclers h) nzones exhausted).

(** [*heap->sizep] *)
Definition heap_size : MH Z := gets (λ h, rd64 (mem_of h) sizep).

Definition heap_zone_init (zone_id first_chunk_id : Z) : MH unit :=
  let z := ZID_TO_ZONE layout zone_id in
  n ← gets h_nzones;
  size ← heap_size;
  size_idx ← of_res (zone_calc_size_idx zone_id n size);
  if u32 (size_idx - first_chunk_id) =? 0 then undef
  else
    on_hpm (memblock_huge_init p_ops layout first_chunk_id zone_id (u32 (size_idx - first_chunk_id)));;
    on_hpm (modify (λ p, pm_store p z (zone_header_bytes size_idx)));;
    on_hpm (modify (λ p, op_persist p_ops p z 64 0)).

(** ** Free chunks *)

(** [None] for [ENOENT]. *)
Definition heap_get_adjacent_free_block (m : memory_block) (prev : bool) : M mem (option memory_block) :=
  x ← gets id;
  let hdr c := GET_CHUNK_HDR layout (zone_id m) c in
  let found (c : Z) : M mem (option memory_block) :=
    if negb (hdr_type x (hdr c) =? CHUNK_TYPE_FREE) then mret None
    else out ← memblock_rebuild_state layout (block_at c (zone_id m) (hdr_size_idx x (hdr c))); mret (Some out) in
  if prev then
    if chunk_id m =? 0 then mret None
    else found (u32 (chunk_id m - hdr_size_idx x (hdr (chunk_id m - 1))))
  else
    let next := u32 (chunk_id m + hdr_size_idx x (hdr (chunk_id m))) in
    if next =? zone_size_idx x (ZID_TO_ZONE layout (zone_id m)) then mret None
    else found next.

Definition block_units (b : option memory_block) : Z := match b with Some b => size_idx b | None => 0 end.

(** The blocks that are not [NULL], merged; the block in the middle is always there. *)
Definition heap_coalesce (prev : option memory_block) (m : memory_block) (next : option memory_block) : M mem memory_block :=
  let b := default m prev in
  memblock_rebuild_state layout
    (MemoryBlock (chunk_id b) (zone_id b) (u32 (block_units prev + size_idx m + block_units next)) (block_off b) HEADER_LEGACY MEMORY_BLOCK_HUGE).

(** Takes a neighbour out of the bucket, if it is there. *)
Definition take_neighbour (m : memory_block) (prev : bool) : MH (option memory_block) :=
  n ← look (heap_get_adjacent_free_block m prev);
  match n with
  | None => mret None
  | Some n =>
      r ← on_default (attempt (on_container (λ ops, match bc_get_rm_exact ops with Some f => f n | None => undef end)));
      mret (match r with Some _ => Some n | None => None end)
  end.
Definition heap_coalesce_huge (m : memory_block) : MH memory_block :=
  prev ← take_neighbour m true;
  next ← take_neighbour m false;
  look (heap_coalesce prev m next).

(** The block that was to be inserted, and the error code of the insertion. *)
Definition heap_free_chunk_reuse (m : memory_block) : MH (memory_block * option Z) :=
  nm ← heap_coalesce_huge m;
  (if negb (size_idx nm =? size_idx m) then
     match mb_type m with
     | MEMORY_BLOCK_HUGE => on_hpm (huge_prep_now p_ops layout nm MEMBLOCK_FREE)
     | MEMORY_BLOCK_RUN => undef
     end
   else mret tt);;
  r ← on_default (errno_of (bucket_insert_block nm));
  mret (nm, r).

(** The free chunk, that may have grown. *)
Definition heap_run_into_free_chunk (m : memory_block) : MH memory_block :=
  n ← look (gets (λ x, hdr_size_idx x (heap_get_chunk_hdr layout m)));
  m ← on_hpm (memblock_huge_init p_ops layout (chunk_id m) (zone_id m) n);
  r ← heap_free_chunk_reuse m;
  mret (fst r).

(** The first part of a block of free chunks; the rest goes to the bucket. *)
Definition heap_split_huge (m : memory_block) (units : Z) : MH memory_block :=
  if negb ((units <=? 2 ^ 16 - 1) && (0 <? units)) then undef
  else
    let new_chunk_id := u32 (chunk_id m + units) in
    let new_size_idx := u32 (size_idx m - units) in
    m ← on_hpm (memblock_huge_init p_ops layout (chunk_id m) (zone_id m) units);
    n ← on_hpm (memblock_huge_init p_ops layout new_chunk_id (zone_id m) new_size_idx);
    on_default (attempt (bucket_insert_block n));;
    mret (set_size_idx units m).

(** ** Runs *)

(** Whether the run is empty and not to be tracked. *)
Definition heap_reclaim_run (m : memory_block) : MH bool :=
  x ← look (gets id);
  p ← on_classes (alloc_class_by_run (run_f_block_size x (heap_get_chunk_run layout m)) (hdr_flags x (heap_get_chunk_hdr layout m)) (size_idx m));
  e ← of_res (recycler_element_new layout x m);
  if p =? 0 then
    b ← look (run_get_bitmap layout m);
    mret (re_free_space e =? rb_nbits b)
  else
    c ← on_classes (class_at p);
    r ← on_classes (class_run c);
    if re_free_space e =? rc_nallocs r then mret true
    else on_recycler (ac_id c) (λ _, recycler_put e);; mret false.

(** The chunks from [i] on. *)
Fixpoint reclaim_loop (fuel : nat) (zone_id i : Z) : MH unit :=
  x ← look (gets id);
  let z := ZID_TO_ZONE layout zone_id in
  let hdr := GET_CHUNK_HDR layout zone_id i in
  if negb (i <? zone_size_idx x z) then mret tt
  else
    match fuel with
    | O => undef
    | S fuel =>
        if hdr_size_idx x hdr =? 0 then undef
        else
          m ← look (memblock_rebuild_state layout (block_at i zone_id (hdr_size_idx x hdr)));
          on_hpm (mop_reinit_chunk layout m);;
          t ← look (gets (λ x, hdr_type x hdr));
          m ← (if t =? CHUNK_TYPE_RUN then
                 r ← heap_reclaim_run m;
                 if (r : bool) then heap_run_into_free_chunk m else mret m
               else if t =? CHUNK_TYPE_FREE then r ← heap_free_chunk_reuse m; mret (fst r)
               else if t =? CHUNK_TYPE_USED then mret m
               else undef);
          reclaim_loop fuel zone_id (u32 (chunk_id m + size_idx m))
    end.
Definition heap_reclaim_zone_garbage (zone_id : Z) : MH unit :=
  n ← look (gets (λ x, zone_size_idx x (ZID_TO_ZONE layout zone_id)));
  reclaim_loop (Z.to_nat n) zone_id 0.

(** [false] for [ENOMEM]. *)
Definition heap_populate_bucket : MH bool :=
  h ← gets id;
  if h_zones_exhausted h =? h_nzones h then mret false
  else
    let zone_id := h_zones_exhausted h in
    set_zones (h_nzones h) (u32 (zone_id + 1));;
    magic ← look (gets (λ x, zone_magic x (ZID_TO_ZONE layout zone_id)));
    (if magic =? ZONE_HEADER_MAGIC then mret tt else heap_zone_init zone_id 0);;
    heap_reclaim_zone_garbage zone_id;;
    mret true.

Fixpoint free_all (ms : list memory_block) : MH unit :=
  match ms with
  | [] => mret tt
  | m :: ms => heap_run_into_free_chunk m;; free_all ms
  end.
(** [locked]: whether the recycler is in use elsewhere. *)
Definition heap_recycle_unused (locked : bool) (id : Z) (force : bool) : MH bool :=
  r ← on_recycler id (λ x, recycler_recalc layout x locked force);
  match r with
  | [] => mret false
  | _ => free_all r;; mret true
  end.

(** The recyclers from [i] on. *)
Fixpoint reclaim_garbage_loop (locked : Z → bool) (n : nat) (i : Z) (ret : bool) : MH bool :=
  match n with
  | O => mret ret
  | S n =>
      y ← gets (λ h, h_recyclers h !! i);
      match y with
      | None => reclaim_garbage_loop locked n (i + 1) ret
      | Some _ => ok ← heap_recycle_unused (locked i) i true; reclaim_garbage_loop locked n (i + 1) (ret || ok)
      end
  end.
Definition heap_reclaim_garbage (locked : Z → bool) : MH bool :=
  reclaim_garbage_loop locked (Z.to_nat MAX_ALLOCATION_CLASSES) 0 false.

(** ** Growing *)

(** [util_pool_extend]: the bytes that were added, [None] for [NULL]. *)
Context (util_pool_extend : Z → M pmem (option Z)).

Inductive extend_result : Type := ExtendFailed | ExtendZone | ExtendChunks.    (* -1, 0, 1 *)

Definition heap_extend (size : Z) : MH extend_result :=
  r ← on_hpm (util_pool_extend size);
  match r with
  | None => mret ExtendFailed
  | Some size =>
      on_hpm (modify (λ p, pm_store p sizep (le_bytes 8 (u64 (rd64 (pm_mem p) sizep + size)))));;
      on_hpm (modify (λ p, op_persist p_ops p sizep 8 0));;
      total ← heap_size;
      let nzones := heap_max_zone total in
      let zone_id := u32 (nzones - 1) in
      h ← gets id;
      let chunk_id := if h_nzones h =? nzones then zone_size_idx (mem_of h) (ZID_TO_ZONE layout zone_id) else 0 in
      heap_zone_init zone_id chunk_id;;
      if negb (h_nzones h =? nzones) then set_zones nzones (h_zones_exhausted h);; mret ExtendZone
      else
        n ← look (gets (λ x, hdr_size_idx x (GET_CHUNK_HDR layout zone_id chunk_id)));
        m ← look (memblock_rebuild_state layout (block_at chunk_id zone_id n));
        heap_free_chunk_reuse m;;
        mret ExtendChunks
  end.

(** The zones from [i] on. *)
Fixpoint zone_update_loop (n : nat) (i : Z) : MH unit :=
  match n with
  | O => mret tt
  | S n =>
      x ← look (gets id);
      let z := ZID_TO_ZONE layout i in
      (if negb (zone_magic x z =? ZONE_HEADER_MAGIC) then mret tt
       else
         nz ← gets h_nzones;
         size ← heap_size;
         size_idx ← of_res (zone_calc_size_idx i nz size);
         if size_idx =? zone_size_idx x z then mret tt else heap_zone_init i (zone_size_idx x z));;
      zone_update_loop n (i + 1)
  end.
Definition heap_zone_update_if_needed : MH unit := n ← gets h_nzones; zone_update_loop (Z.to_nat n) 0.

Definition heap_ensure_huge_bucket_filled (locked : Z → bool) (growsize : Z) : MH bool :=
  r ← heap_reclaim_garbage locked;
  if (r : bool) then mret true
  else
    r ← heap_populate_bucket;
    if (r : bool) then mret true
    else
      e ← heap_extend growsize;
      match e with
      | ExtendFailed => mret false
      | ExtendChunks => mret true
      | ExtendZone => heap_populate_bucket
      end.

(** [heap_get_bestfit_block] on the default bucket, whose class has headers of type [htype].  [fuel] bounds the turns, each of which adds chunks. *)
Fixpoint bestfit_huge_loop (locked : Z → bool) (growsize : Z) (fuel : nat) (m : memory_block) : MH (option memory_block) :=
  r ← on_default (attempt (on_container (λ ops, bc_get_rm_bestfit ops m)));
  match r with
  | Some b => mret (Some b)
  | None =>
      ok ← heap_ensure_huge_bucket_filled locked growsize;
      if (ok : bool) then match fuel with O => undef | S fuel => bestfit_huge_loop locked growsize fuel m end
      else mret None
  end.
Definition heap_get_bestfit_huge (locked : Z → bool) (growsize : Z) (fuel : nat) (htype : header_type) (m : memory_block) : MH memory_block :=
  r ← bestfit_huge_loop locked growsize fuel m;
  match r with
  | None => fail ENOMEM
  | Some b =>
      if negb (size_idx m <=? size_idx b) then undef
      else
        b ← (if size_idx m =? size_idx b then mret b else heap_split_huge b (size_idx m));
        on_hpm (mop_ensure_header_type p_ops layout b htype);;
        mret (set_state htype (mb_type b) b)
  end.

(** The first address after the heap. *)
Definition heap_end : MH Z :=
  n ← gets h_nzones;
  if n <=? 0 then undef
  else look (gets (λ x, GET_CHUNK layout (n - 1) (zone_size_idx x (ZID_TO_ZONE layout (n - 1))))).

Definition heap_memblock_on_free (m : memory_block) : MH unit :=
  match mb_type m with
  | MEMORY_BLOCK_HUGE => mret tt
  | MEMORY_BLOCK_RUN =>
      x ← look (gets id);
      let hdr := heap_get_chunk_hdr layout m in
      if negb (hdr_type x hdr =? CHUNK_TYPE_RUN) then undef
      else
        p ← on_classes (alloc_class_by_run (run_f_block_size x (heap_get_chunk_run layout m)) (hdr_flags x hdr) (hdr_size_idx x hdr));
        if p =? 0 then mret tt
        else c ← on_classes (class_at p); on_recycler (ac_id c) (λ _, recycler_inc_unaccounted m)
  end.
End heap.

(** ** Creation and checks *)

Definition heap_write_header (hdr : Z) : M pmem unit :=
  match util_checksum heap_header_bytes 1016 true 0 with
  | Ok (_, bs) => modify (λ p, pm_store p hdr bs)
  | _ => undef
  end.

(** The zones from [i] on. *)
Fixpoint init_zones (p_ops : pmem_ops) (layout : Z) (n : nat) (i : Z) : M pmem unit :=
  match n with
  | O => mret tt
  | S n =>
      let z := ZID_TO_ZONE layout i in
      modify (λ p, op_memset p_ops p z 0 64 0);;
      modify (λ p, op_memset p_ops p (z + 64) 0 8 0);;
      init_zones p_ops layout n (i + 1)
  end.
Definition heap_init (p_ops : pmem_ops) (layout heap_size sizep : Z) : M pmem unit :=
  if heap_size <? HEAP_MIN_SIZE then fail EINVAL
  else
    heap_write_header layout;;
    modify (λ p, op_persist p_ops p layout sizeof_heap_header 0);;
    init_zones p_ops layout (Z.to_nat (heap_max_zone heap_size)) 0;;
    modify (λ p, pm_store p sizep (le_bytes 8 heap_size));;
    modify (λ p, op_persist p_ops p sizep 8 0).

(** [true] for 0. *)
Definition heap_verify_header (x : mem) (hdr : Z) : res bool :=
  match util_checksum (rdn x hdr 1024) 1016 false 0 with
  | Ok (ok, bs) => Ok (ok && bool_decide (take 16 bs = HEAP_SIGNATURE))
  | Fail e => Fail e
  | Undef => Undef
  end.
Definition heap_verify_zone_header (x : mem) (z : Z) : bool :=
  if negb (zone_magic x z =? ZONE_HEADER_MAGIC) then true else negb (zone_size_idx x z =? 0).
Definition heap_verify_chunk_header (x : mem) (hdr : Z) : bool :=
  if hdr_type x hdr =? CHUNK_TYPE_UNKNOWN then false
  else if MAX_CHUNK_TYPE <=? hdr_type x hdr then false
  else Z.land (hdr_flags x hdr) (Z.lnot CHUNK_FLAGS_ALL_VALID) =? 0.

(** The chunks from [i] on; the index at the end, [None] when a header is not valid.  The chunks are visited in ascending order until one is visited twice; when there are more turns than
    chunks the loop does not end. *)
Fixpoint verify_loop (fuel : nat) (x : mem) (z n i : Z) : res (option Z) :=
  if negb (i <? n) then Ok (Some i)
  else
    match fuel with
    | O => Undef
    | S fuel =>
        let hdr := z + 64 + 8 * i in
        if heap_verify_chunk_header x hdr then verify_loop fuel x z n (u32 (i + hdr_size_idx x hdr)) else Ok None
    end.
Definition heap_verify_zone (x : mem) (z : Z) : res bool :=
  if zone_magic x z =? 0 then Ok true
  else if negb (zone_magic x z =? ZONE_HEADER_MAGIC) then Ok false
  else if negb (heap_verify_zone_header x z) then Ok false
  else
    match verify_loop (Z.to_nat (zone_size_idx x z)) x z (zone_size_idx x z) 0 with
    | Ok (Some i) => Ok (i =? zone_size_idx x z)
    | Ok None => Ok false
    | Fail e => Fail e
    | Undef => Undef
    end.

Fixpoint verify_zones (n : nat) (x : mem) (layout i : Z) : res bool :=
  match n with
  | O => Ok true
  | S n =>
      match heap_verify_zone x (ZID_TO_ZONE layout i) with
      | Ok true => verify_zones n x layout (i + 1)
      | r => r
      end
  end.
Definition heap_check (x : mem) (layout heap_size : Z) : res bool :=
  if heap_size <? HEAP_MIN_SIZE then Ok false
  else
    match heap_verify_header x layout with
    | Ok true => verify_zones (Z.to_nat (heap_max_zone heap_size)) x layout 0
    | r => r
    end.

(** ** Objects *)

Section foreach.
Context {St : Type} `{!HasMem St} (layout : Z) (cb : memory_block → M St Z).

(** The chunks from that of [m] on: whether the callback stopped the iteration, and the block at the end. *)
Fixpoint zone_foreach_loop (fuel : nat) (m : memory_block) : M St (bool * memory_block) :=
  x ← look (gets id);
  if negb (chunk_id m <? zone_size_idx x (ZID_TO_ZONE layout (zone_id m))) then mret (false, m)
  else
    match fuel with
    | O => undef
    | S fuel =>
        m ← look (memblock_rebuild_state layout m);
        let m := set_size_idx (hdr_size_idx x (heap_get_chunk_hdr layout m)) m in
        r ← mop_iterate_used layout cb m;
        if negb (r =? 0) then mret (true, m)
        else zone_foreach_loop fuel (set_block 0 (size_idx m) (set_chunk_id (u32 (chunk_id m + size_idx m)) m))
    end.
Definition heap_zone_foreach_object (m : memory_block) : M St (bool * memory_block) :=
  x ← look (gets id);
  let z := ZID_TO_ZONE layout (zone_id m) in
  if zone_magic x z =? 0 then mret (false, m) else zone_foreach_loop (Z.to_nat (zone_size_idx x z)) m.

Fixpoint foreach_zones (n : nat) (m : memory_block) : M St unit :=
  match n with
  | O => mret tt
  | S n =>
      r ← heap_zone_foreach_object m;
      if (fst r : bool) then mret tt
      else let m := snd r in foreach_zones n (MemoryBlock 0 (zone_id m + 1) (size_idx m) (block_off m) (mb_header_type m) (mb_type m))
  end.
Definition heap_foreach_object (nzones : Z) (m : memory_block) : M St unit := foreach_zones (Z.to_nat (nzones - zone_id m)) m.
End foreach.
