(* ===== verification/HeapZone.v ===== *)
(** * libpmemobj: the chunks of a zone

    A zone is a sequence of segments: free chunks, used chunks and runs.  The header of the first chunk of a segment has its
    size; so has the footer in the header of the last one, from which the previous segment is found.  The invariant of the free chunks
    of a heap, and that merging, splitting and giving back blocks keep it. *)

From stdpp Require Import base gmap list numbers.
From S2P Require Import Prelude Memory Pmem Util Ulog UlogSpec UlogEntry Ravl Container ContainerSeglists ContainerRavl Bucket Memops Memblock MemblockFree MemblockRun Recycler Heap.
From stdpp Require Import list.
Local Open Scope Z_scope.

Record seg : Type := Seg { sg_type : Z; sg_flags : Z; sg_size : Z }.

Definition chunks (l : list seg) : Z := foldr (λ s n, sg_size s + n) 0 l.

Lemma chunks_app l l' : chunks (l ++ l') = chunks l + chunks l'.
Proof. unfold chunks. induction l as [|s l IH]; cbn [app foldr]; lia. Qed.

Section zone.
Context (layout zone : Z).
Local Abbreviation hdr c := (GET_CHUNK_HDR layout zone c).

Lemma hdr_add c n : hdr (c + n) = hdr c + 8 * n.
Proof. unfold GET_CHUNK_HDR. lia. Qed.

(** The headers of a segment that starts at chunk [i]. *)
Record seg_at (x : mem) (i : Z) (s : seg) : Prop := {
  sa_size : 1 ≤ sg_size s;
  sa_type : sg_type s = CHUNK_TYPE_FREE ∨ sg_type s = CHUNK_TYPE_USED ∨ sg_type s = CHUNK_TYPE_RUN;
  sa_flags : Z.land (sg_flags s) (Z.lnot CHUNK_FLAGS_ALL_VALID) = 0;
  sa_hdr : hdr_is x (hdr i) (sg_type s) (sg_flags s) (sg_size s);
  sa_footer : sg_type s ≠ CHUNK_TYPE_RUN → 2 ≤ sg_size s → ∃ f, hdr_is x (hdr (i + sg_size s - 1)) CHUNK_TYPE_FOOTER f (sg_size s);
  sa_data j : sg_type s = CHUNK_TYPE_RUN → 1 ≤ j < sg_size s → ∃ f, hdr_is x (hdr (i + j)) CHUNK_TYPE_RUN_DATA f j
}.

Fixpoint chain (x : mem) (i : Z) (l : list seg) : Prop :=
  match l with
  | [] => True
  | s :: l => seg_at x i s ∧ chain x (i + sg_size s) l
  end.

Record zone_ok (x : mem) (l : list seg) : Prop := {
  zo_magic : zone_magic x (ZID_TO_ZONE layout zone) = ZONE_HEADER_MAGIC;
  zo_size : zone_size_idx x (ZID_TO_ZONE layout zone) = chunks l;
  zo_pos : 0 < chunks l ≤ MAX_CHUNK;
  zo_chain : chain x 0 l
}.

(** ** Frames *)

(** [x'] has the same headers for the chunks [i] to [j - 1]. *)
Definition same_hdrs (x x' : mem) (i j : Z) : Prop := ∀ a, hdr i ≤ a < hdr j → rd x' a = rd x a.

Lemma seg_frame x x' i s : same_hdrs x x' i (i + sg_size s) → seg_at x i s → seg_at x' i s.
Proof.
  intros Hs [H1 H2 H3 H4 H5 H6].
  assert (∀ c t f n, i ≤ c < i + sg_size s → hdr_is x (hdr c) t f n → hdr_is x' (hdr c) t f n) as Hh.
  { intros c t f n Hc. apply hdr_is_ext. intros a Ha. apply Hs. unfold GET_CHUNK_HDR in *. lia. }
  split; [done|done|done|apply Hh; [lia|done]|..].
  - intros Ht Hn. destruct (H5 Ht Hn) as (f & Hf). exists f. apply Hh; [lia|done].
  - intros j Ht Hj. destruct (H6 j Ht Hj) as (f & Hf). exists f. apply Hh; [lia|done].
Qed.

Lemma chain_sizes x l : ∀ i, chain x i l → Forall (λ s, 1 ≤ sg_size s) l.
Proof. induction l as [|s l IH]; intros i H; constructor; [apply H|by eapply IH, H]. Qed.

Lemma chunks_nonneg l : Forall (λ s, 1 ≤ sg_size s) l → 0 ≤ chunks l.
Proof. unfold chunks. induction 1; cbn [foldr]; lia. Qed.

Lemma same_hdrs_sub x x' i j i' j' : same_hdrs x x' i j → i ≤ i' → j' ≤ j → same_hdrs x x' i' j'.
Proof.
  intros H Hi Hj a Ha. apply H. unfold GET_CHUNK_HDR in *. lia.
Qed.

Lemma chain_frame x x' l : ∀ i, same_hdrs x x' i (i + chunks l) → chain x i l → chain x' i l.
Proof.
  induction l as [|s l IH]; intros i Hs H; [done|]. destruct H as [Hseg Hl]. cbn [chunks foldr] in Hs. fold (chunks l) in Hs.
  pose proof (sa_size _ _ _ Hseg) as H1. pose proof (chunks_nonneg l (chain_sizes _ _ _ Hl)) as H0. split.
  - eapply seg_frame; [|done]. eapply same_hdrs_sub; [exact Hs|lia|lia].
  - apply IH; [|done]. eapply same_hdrs_sub; [exact Hs|lia|lia].
Qed.

Lemma chain_app x l l' : ∀ i, chain x i (l ++ l') ↔ chain x i l ∧ chain x (i + chunks l) l'.
Proof.
  induction l as [|s l IH]; intros i; cbn [app chain chunks foldr].
  - rewrite Z.add_0_r. tauto.
  - rewrite IH. fold (chunks l). replace (i + sg_size s + chunks l) with (i + (sg_size s + chunks l)) by lia. tauto.
Qed.

(** The header of the zone is in front of all of them. *)
Lemma zone_hdr_frame x x' : (∀ a, ZID_TO_ZONE layout zone ≤ a < hdr 0 → rd x' a = rd x a) →
  zone_magic x' (ZID_TO_ZONE layout zone) = zone_magic x (ZID_TO_ZONE layout zone) ∧
  zone_size_idx x' (ZID_TO_ZONE layout zone) = zone_size_idx x (ZID_TO_ZONE layout zone).
Proof.
  intros H. unfold zone_magic, zone_size_idx, rd32. unfold GET_CHUNK_HDR in H.
  split; f_equal; apply rdn_ext; intros a Ha; apply H; lia.
Qed.

Lemma zone_frame x x' l : (∀ a, ZID_TO_ZONE layout zone ≤ a < hdr MAX_CHUNK → rd x' a = rd x a) → zone_ok x l → zone_ok x' l.
Proof.
  intros H [Hm Hs Hp Hc]. destruct (zone_hdr_frame x x') as [E1 E2].
  { intros a Ha. apply H. unfold GET_CHUNK_HDR, MAX_CHUNK in *. lia. }
  split; [congruence|congruence|done|]. eapply chain_frame; [|done]. intros a Ha. apply H. unfold GET_CHUNK_HDR in *. lia.
Qed.

(** Replacing some segments by others that are as long. *)
Lemma zone_replace x x' l1 l l' l2 : zone_ok x (l1 ++ l ++ l2) → chunks l' = chunks l → chain x' (chunks l1) l' →
  (∀ a, a < hdr (chunks l1) ∨ hdr (chunks l1 + chunks l) ≤ a → rd x' a = rd x a) → zone_ok x' (l1 ++ l' ++ l2).
Proof.
  intros [Hm Hs Hp Hc] Hl Hch Hout. apply chain_app in Hc as [Hc1 Hc]. apply chain_app in Hc as [Hc Hc2]. rewrite Z.add_0_l in *.
  pose proof (chunks_nonneg l1 (chain_sizes _ _ _ Hc1)) as H1. rewrite !chunks_app in *.
  destruct (zone_hdr_frame x x') as [E1 E2].
  { intros a Ha. apply Hout. left. unfold GET_CHUNK_HDR in *. lia. }
  split; rewrite ?chunks_app, ?Hl; [congruence|congruence|done|].
  apply chain_app. split; [|apply chain_app; split].
  - eapply chain_frame; [|done]. intros a Ha. apply Hout. left. rewrite Z.add_0_l in Ha. lia.
  - by rewrite Z.add_0_l.
  - rewrite Z.add_0_l, Hl. eapply chain_frame; [|done]. intros a Ha. apply Hout. right. lia.
Qed.
End zone.

(** ** Looking up a segment *)

(** The segment that starts at chunk [c]. *)
Fixpoint seg_of (l : list seg) (c : Z) : option seg :=
  match l with
  | [] => None
  | s :: l => if c =? 0 then Some s else seg_of l (c - sg_size s)
  end.

Abbreviation sized := (Forall (λ s, 1 ≤ sg_size s)) (only parsing).

Lemma seg_of_neg l : ∀ c, sized l → c < 0 → seg_of l c = None.
Proof.
  induction l as [|s l IH]; intros c Hl Hc; [done|]. apply Forall_cons_1 in Hl as [Hs Hl]. cbn [seg_of].
  rewrite (proj2 (Z.eqb_neq c 0)) by lia. apply IH; [done|lia].
Qed.

Lemma seg_of_split l : ∀ c s, seg_of l c = Some s → ∃ l1 l2, l = l1 ++ s :: l2 ∧ chunks l1 = c.
Proof.
  induction l as [|t l IH]; intros c s H; [done|]. cbn [seg_of] in H. destruct (Z.eqb_spec c 0) as [->|].
  - injection H as ->. by exists [], l.
  - apply IH in H as (l1 & l2 & -> & H). exists (t :: l1), l2. split; [done|]. unfold chunks in *. cbn [foldr]. lia.
Qed.

Lemma seg_of_app l l' : ∀ c, sized l → sized l' →
  seg_of (l ++ l') c = if c <? chunks l then seg_of l c else seg_of l' (c - chunks l).
Proof.
  induction l as [|t l IH]; intros c Hl Hl'; cbn [app chunks foldr].
  - destruct (Z.ltb_spec c 0) as [?|]; [by apply seg_of_neg|by rewrite Z.sub_0_r].
  - apply Forall_cons_1 in Hl as [Ht Hl]. fold (chunks l). pose proof (chunks_nonneg l Hl). cbn [seg_of]. destruct (Z.eqb_spec c 0) as [->|].
    + rewrite (proj2 (Z.ltb_lt 0 _)) by lia. done.
    + rewrite IH by done. replace (c - sg_size t - chunks l) with (c - (sg_size t + chunks l)) by lia.
      destruct (Z.ltb_spec (c - sg_size t) (chunks l)), (Z.ltb_spec c (sg_size t + chunks l)); done || lia.
Qed.

Lemma seg_of_end l : ∀ c s, sized l → seg_of l c = Some s → c + sg_size s ≤ chunks l.
Proof.
  intros c s Hl H. apply seg_of_split in H as (l1 & l2 & -> & <-). apply Forall_app in Hl as [Hl1 Hl2].
  apply Forall_cons_1 in Hl2 as [_ Hl2]. rewrite chunks_app. cbn [chunks foldr]. fold (chunks l2). pose proof (chunks_nonneg l2 Hl2). lia.
Qed.

(** A replacement leaves the other segments where they are. *)
Lemma seg_of_replace l1 l l' l2 c : sized (l1 ++ l ++ l2) → sized l' → chunks l' = chunks l →
  c < chunks l1 ∨ chunks l1 + chunks l ≤ c → seg_of (l1 ++ l' ++ l2) c = seg_of (l1 ++ l ++ l2) c.
Proof.
  intros Hs Hl' E Hc. apply Forall_app in Hs as [H1 Hs]. apply Forall_app in Hs as [Hl H2].
  rewrite !seg_of_app by (try apply Forall_app; done). rewrite E. destruct (Z.ltb_spec c (chunks l1)); [done|].
  rewrite (proj2 (Z.ltb_ge (c - chunks l1) (chunks l))) by lia. done.
Qed.

Lemma seg_of_at l1 s l2 : sized (l1 ++ s :: l2) → seg_of (l1 ++ s :: l2) (chunks l1) = Some s.
Proof.
  intros Hs. apply Forall_app in Hs as [H1 H2]. rewrite seg_of_app by done. by rewrite Z.ltb_irrefl, Z.sub_diag.
Qed.

(** * libpmemobj: free chunks

    The invariant of the free chunks of a heap: the zones are sequences of segments, and the default bucket has only blocks
    that are free segments, each once.  Initialising, merging and splitting blocks of chunks keep it. *)

(** ** Containers with exact removal *)

Definition same_place (m b : memory_block) : Prop :=
  size_idx m = size_idx b ∧ zone_id m = zone_id b ∧ chunk_id m = chunk_id b ∧ block_off m = block_off b.

Class ExactContainer {S} (ops : block_container_ops S) `{!BlockContainer ops} := {
  rm_exact : memory_block → M S unit;
  rm_exact_eq : bc_get_rm_exact ops = Some rm_exact;
  exact_ok s X m : holds s X →
    (Forall (λ b, ¬ same_place m b) X ∧ rm_exact m s = (Fail ENOMEM, s)) ∨
    ∃ b X' s', rm_exact m s = (Ok tt, s') ∧ X ≡ₚ b :: X' ∧ same_place m b ∧ holds s' X'
}.

Lemma compare_same m b : container_compare_memblocks m b = 0 ↔ same_place m b.
Proof. unfold container_compare_memblocks, same_place. cbv zeta. compare_cases; lia. Qed.

#[global] Instance ravl_exact user_data : ExactContainer (container_ravl_ops user_data).
Proof.
  refine {| rm_exact := container_ravl_get_rm_block_exact |}; [done|]. intros s X m [Hh Hr].
  destruct (ravl_exact_ok user_data s X m Hh) as [(HF & E & _)|(b & X' & s' & E & _ & HX & Hb & H)].
  - left. split; [|done]. rewrite Forall_forall in HF |- *. intros b Hb. rewrite <-compare_same. by apply HF.
  - right. exists b, X', s'. split_and!; [done|done|by apply compare_same|]. split; [done|]. rewrite HX in Hr. by apply Forall_cons_1 in Hr as [_ Hr].
Defined.

(** ** Writing headers *)

Section headers.
Context (o : pmem_ops) `{!OpsSpec o} (layout zone : Z).
Local Abbreviation hdr c := (GET_CHUNK_HDR layout zone c).

Definition FREE (f n : Z) : seg := Seg CHUNK_TYPE_FREE f n.

Record flags_ok (f : Z) : Prop := {
  fo_range : 0 ≤ f < 2 ^ 16;
  fo_valid : Z.land f (Z.lnot CHUNK_FLAGS_ALL_VALID) = 0
}.

(** The headers of the chunks [c] to [c + n - 1] may be written. *)
Definition hdrs_kept (x x' : mem) (c n : Z) : Prop := ∀ a, a < hdr c ∨ hdr (c + n) ≤ a → rd x' a = rd x a.

(** A free segment after its header and its footer are written. *)
Lemma free_written x c f n f' : 1 ≤ n < 2 ^ 32 → flags_ok f → 0 ≤ f' < 2 ^ 16 →
  let x' := wr x (hdr c) (hdr_bytes CHUNK_TYPE_FREE f n) in
  let x'' := if n =? 1 then x' else wr x' (hdr c + 8 * (n - 1)) (hdr_bytes CHUNK_TYPE_FOOTER f' n) in
  seg_at layout zone x'' c (FREE f n) ∧ hdrs_kept x x'' c n.
Proof.
  intros Hn [Hf Hv] Hf' x' x''.
  assert (hdr_is x' (hdr c) CHUNK_TYPE_FREE f n) as Hx by (apply hdr_is_wr; [done|done|lia]).
  split; [split; cbn [sg_type sg_flags sg_size FREE]|].
  - lia.
  - by left.
  - done.
  - subst x''. destruct (Z.eqb_spec n 1); [done|]. apply hdr_is_out; [left; lia|done].
  - intros _ H2. subst x''. rewrite (proj2 (Z.eqb_neq n 1)) by lia. exists f'.
    replace (hdr (c + n - 1)) with (hdr c + 8 * (n - 1)) by (unfold GET_CHUNK_HDR; lia). apply hdr_is_wr; [done|done|lia].
  - intros j [=].
  - intros a Ha. assert (¬ (hdr c ≤ a < hdr c + 8) ∧ ¬ (hdr c + 8 * (n - 1) ≤ a < hdr c + 8 * (n - 1) + 8)) as [H1 H2]
      by (unfold GET_CHUNK_HDR in *; lia).
    subst x'' x'. destruct (Z.eqb_spec n 1); rewrite !rd_wr_out by (rewrite ?length_hdr_bytes; lia); done.
Qed.

Lemma huge_init_run c n p : 1 ≤ n < 2 ^ 32 → ∃ p', memblock_huge_init o layout c zone n p = (Ok (block_at c zone n), p') ∧
  seg_at layout zone (pm_mem p') c (FREE 0 n) ∧ hdrs_kept (pm_mem p) (pm_mem p') c n.
Proof using Type*.
  intros Hn. destruct (free_written (pm_mem p) c 0 n 0 Hn) as [Hs Hk]; [split; done|lia|].
  unfold memblock_huge_init, heap_get_chunk_hdr, huge_write_footer. cbn [zone_id chunk_id block_at].
  do 2 (erewrite bind_ok by reflexivity). set (p1 := op_persist _ _ _ _ _).
  assert (pm_mem p1 = wr (pm_mem p) (hdr c) (hdr_bytes CHUNK_TYPE_FREE 0 n)) as E1 by (unfold p1; by rewrite persist_mem).
  assert (hdr_is (pm_mem p1) (hdr c) CHUNK_TYPE_FREE 0 n) as H1 by (rewrite E1; apply hdr_is_wr; done || lia).
  assert (∀ q, pm_mem q = (if n =? 1 then pm_mem p1 else wr (pm_mem p1) (hdr c + 8 * (n - 1)) (hdr_bytes CHUNK_TYPE_FOOTER 0 n)) →
    look (memblock_rebuild_state layout (block_at c zone n)) q = (Ok (block_at c zone n), q) ∧
    seg_at layout zone (pm_mem q) c (FREE 0 n) ∧ hdrs_kept (pm_mem p) (pm_mem q) c n) as Hq.
  { intros q Eq. rewrite E1 in Eq. rewrite <-Eq in Hs, Hk. split; [|done]. unfold look, mem_of, pmem_has_mem. rewrite (rebuild_huge layout (block_at c zone n) _ _ _ _ (sa_hdr _ _ _ _ _ Hs)); [done|by left]. }
  destruct (Z.eqb_spec n 1).
  - exists p1. erewrite bind_ok by reflexivity. by apply Hq.
  - erewrite bind_ok by (erewrite bind_ok by reflexivity; reflexivity). eexists. apply Hq. cbn [pm_store pm_mem]. by rewrite (hi_flags _ _ _ _ _ H1).
Qed.

(** [prep_hdr] without an operation. *)
Lemma prep_now_run m f n0 p : zone_id m = zone → 1 ≤ size_idx m < 2 ^ 32 → flags_ok f → hdr_is (pm_mem p) (hdr (chunk_id m)) CHUNK_TYPE_FREE f n0 →
  ∃ p', huge_prep_now o layout m MEMBLOCK_FREE p = (Ok tt, p') ∧
    seg_at layout zone (pm_mem p') (chunk_id m) (FREE f (size_idx m)) ∧ hdrs_kept (pm_mem p) (pm_mem p') (chunk_id m) (size_idx m).
Proof using Type*.
  intros Hz Hn Hf Hh. destruct (free_written (pm_mem p) (chunk_id m) f (size_idx m) 0 Hn Hf) as [Hs Hk]; [lia|].
  unfold huge_prep_now, prepared_value, footer_addr, footer_value, heap_get_chunk_hdr. rewrite Hz.
  do 3 (erewrite bind_ok by reflexivity). rewrite !hdr_value_bytes, (hi_flags _ _ _ _ _ Hh). set (p1 := op_persist _ _ _ _ _).
  assert (pm_mem p1 = wr (pm_mem p) (hdr (chunk_id m)) (hdr_bytes CHUNK_TYPE_FREE f (size_idx m))) as E1 by (unfold p1; by rewrite persist_mem).
  destruct (Z.eqb_spec (size_idx m) 1).
  - exists p1. rewrite E1. done.
  - eexists. split; [reflexivity|]. cbn [pm_store pm_mem]. by rewrite E1.
Qed.

(** [ensure_header_type] adds a flag to a free chunk. *)
Lemma header_flag_ok f t : flags_ok f → flags_ok (f ||| header_type_to_flag t).
Proof.
  intros [Hf Hv]. split; [|rewrite Z.land_lor_distr_l, Hv; by destruct t].
  assert (0 ≤ header_type_to_flag t < 2 ^ 16) as Ht by (by destruct t).
  split; [apply Z.lor_nonneg; lia|]. destruct (decide (f ||| header_type_to_flag t = 0)) as [->|]; [done|].
  apply Z.log2_lt_pow2; [assert (0 ≤ f ||| header_type_to_flag t) by (apply Z.lor_nonneg; lia); lia|].
  rewrite Z.log2_lor by lia. apply Z.max_lub_lt.
  - destruct (decide (f = 0)) as [->|]; [done|]. apply Z.log2_lt_pow2; lia.
  - by destruct t.
Qed.

Lemma ensure_header_run m t f p : zone_id m = zone → mb_type m = MEMORY_BLOCK_HUGE → flags_ok f → seg_at layout zone (pm_mem p) (chunk_id m) (FREE f (size_idx m)) →
  ∃ p' f', mop_ensure_header_type o layout m t p = (Ok tt, p') ∧ flags_ok f' ∧
    seg_at layout zone (pm_mem p') (chunk_id m) (FREE f' (size_idx m)) ∧ hdrs_kept (pm_mem p) (pm_mem p') (chunk_id m) (size_idx m).
Proof using Type*.
  intros Hz Ht Hf [S1 S2 S3 S4 S5 S6]. cbn [sg_type sg_flags sg_size FREE] in *. destruct (S4) as [E1 E2 E3].
  unfold mop_ensure_header_type. rewrite Ht. unfold huge_ensure_header_type, heap_get_chunk_hdr. rewrite Hz.
  erewrite bind_ok by reflexivity. rewrite E1, E2. cbn [negb]. change (CHUNK_TYPE_FREE =? CHUNK_TYPE_FREE) with true. cbn [negb].
  destruct (Z.eqb_spec (Z.land f (header_type_to_flag t)) 0) as [E|E].
  - pose proof (header_flag_ok f t Hf) as [Hr Hv]. set (f' := f ||| header_type_to_flag t) in *. erewrite bind_ok by reflexivity. eexists _, f'. split; [reflexivity|].
    rewrite (persist_mem o). cbn [pm_store pm_mem]. set (h := hdr (chunk_id m)) in *.
    assert (∀ a, ¬ (h + 2 ≤ a < h + 4) → rd (wr (pm_mem p) (h + 2) (le_bytes 2 f')) a = rd (pm_mem p) a) as Ho by (intros; apply rd_wr_out; rewrite length_le_bytes; lia).
    split; [by split|]. split.
    + split; cbn [sg_type sg_flags sg_size FREE]; [done|done|done| | |intros j [=]].
      * split; unfold hdr_type, hdr_flags, hdr_size_idx, rd16, rd32 in *.
        -- rewrite <-E1. f_equal. apply rdn_ext. intros a Ha. apply Ho. lia.
        -- rewrite rdn_wr_same' by (done || apply le_bytes_bytes || auto with pmdk). rewrite le_of_le_bytes. by apply Z.mod_small.
        -- rewrite <-E3. f_equal. apply rdn_ext. intros a Ha. apply Ho. lia.
      * intros _ H2. destruct (S5 ltac:(done) H2) as (g & Hg). exists g. eapply hdr_is_ext; [|exact Hg]. intros a Ha. apply Ho. unfold h, GET_CHUNK_HDR in *. lia.
    + intros a Ha. apply Ho. unfold h, GET_CHUNK_HDR in *. lia.
  - exists p, f. split; [reflexivity|]. split; [done|]. by split; [split|].
Qed.
End headers.

(** * libpmemobj: merging and splitting free chunks

    The invariant of the free chunks of a heap and the operations of [heap.c] that change them. *)

(** ** The invariant *)

(** Where a block of chunks starts. *)
Definition place (b : memory_block) : Z * Z := (zone_id b, chunk_id b).

(** [b] is a free segment of its zone. *)
Definition free_at (zs : gmap Z (list seg)) (b : memory_block) : Prop :=
  ∃ l f, zs !! zone_id b = Some l ∧ seg_of l (chunk_id b) = Some (FREE f (size_idx b)).

Definition zones_ok (layout : Z) (x : mem) (zs : gmap Z (list seg)) : Prop :=
  ∀ z l, zs !! z = Some l → 0 ≤ z < 2 ^ 32 ∧ zone_ok layout z x l.

(** The zones of a heap, and the blocks of its default bucket. *)
Record heap_free (layout : Z) (x : mem) (zs : gmap Z (list seg)) (X : list memory_block) : Prop := {
  hf_zones : zones_ok layout x zs;
  hf_free : Forall (free_at zs) X;
  hf_once : NoDup (place <$> X);
  hf_huge : Forall (λ b, mb_type b = MEMORY_BLOCK_HUGE ∧ block_off b = 0) X
}.

Section zones.
Context (layout : Z).

Lemma zones_apart z z' c a : 0 ≤ c → z ≠ z' → GET_CHUNK_HDR layout z c ≤ a < GET_CHUNK_HDR layout z MAX_CHUNK →
  a < ZID_TO_ZONE layout z' ∨ GET_CHUNK_HDR layout z' MAX_CHUNK ≤ a.
Proof.
  unfold GET_CHUNK_HDR, ZID_TO_ZONE, ZONE_MAX_SIZE, sizeof_zone, CHUNKSIZE, MAX_CHUNK. intros Hc Hz Ha.
  destruct (Z.lt_trichotomy z z') as [H|[H|H]]; lia.
Qed.

Lemma zone_sized z x l : zone_ok layout z x l → sized l.
Proof. intros [_ _ _ Hc]. by eapply chain_sizes. Qed.

(** Replacing segments of one zone. *)
Lemma zones_replace x x' zs z l1 l l' l2 : zones_ok layout x zs → zs !! z = Some (l1 ++ l ++ l2) → chunks l' = chunks l →
  chain layout z x' (chunks l1) l' → hdrs_kept layout z x x' (chunks l1) (chunks l) →
  zones_ok layout x' (<[z := l1 ++ l' ++ l2]> zs).
Proof.
  intros Hz Hl El Hc Hk z' k. pose proof (Hz _ _ Hl) as [Hr Hok]. destruct (decide (z' = z)) as [->|Hne].
  - rewrite lookup_insert_eq. intros [= <-]. split; [done|]. by eapply zone_replace.
  - rewrite lookup_insert_ne by done. intros Hk'. destruct (Hz _ _ Hk') as [Hr' Hok']. split; [done|].
    eapply zone_frame; [|done]. intros a Ha. apply Hk.
    pose proof (zone_sized _ _ _ Hok) as Hs. apply Forall_app in Hs as [H1 Hs]. apply Forall_app in Hs as [H2 H3].
    pose proof (zo_pos _ _ _ _ Hok) as Hp. rewrite !chunks_app in Hp. pose proof (chunks_nonneg _ H1). pose proof (chunks_nonneg _ H2). pose proof (chunks_nonneg _ H3).
    destruct (decide (a < GET_CHUNK_HDR layout z (chunks l1))); [by left|].
    destruct (decide (GET_CHUNK_HDR layout z (chunks l1 + chunks l) ≤ a)); [by right|].
    destruct (zones_apart z z' (chunks l1) a) as [Ho|Ho]; [lia|done| |lia|lia].
    unfold GET_CHUNK_HDR in *. lia.
Qed.

(** Other free blocks stay where they are. *)
Lemma free_replace x zs z l1 l l' l2 b : zones_ok layout x zs → zs !! z = Some (l1 ++ l ++ l2) → chunks l' = chunks l → sized l' →
  (zone_id b = z → chunk_id b < chunks l1 ∨ chunks l1 + chunks l ≤ chunk_id b) →
  free_at zs b → free_at (<[z := l1 ++ l' ++ l2]> zs) b.
Proof.
  intros Hz Hl El Hs' Hb (k & f & Hk & Hsg). unfold free_at. destruct (decide (zone_id b = z)) as [E|Hne].
  - rewrite E, lookup_insert_eq. rewrite E in Hk. rewrite Hl in Hk. injection Hk as <-.
    eexists _, f. split; [done|]. rewrite (seg_of_replace _ l); [done| |done|done|by apply Hb].
    destruct (Hz _ _ Hl) as [_ Hok]. by eapply zone_sized.
  - rewrite lookup_insert_ne by done. by exists k, f.
Qed.

(** Segments do not overlap: a segment that starts inside another starts where it does. *)
Lemma seg_of_inside l1 s l2 c t : sized (l1 ++ s :: l2) → seg_of (l1 ++ s :: l2) c = Some t →
  chunks l1 ≤ c < chunks l1 + sg_size s → c = chunks l1 ∧ t = s.
Proof.
  intros Hs Ht Hc. apply Forall_app in Hs as [H1 H2]. rewrite seg_of_app in Ht by done. rewrite (proj2 (Z.ltb_ge _ _)) in Ht by lia.
  cbn [seg_of] in Ht. destruct (Z.eqb_spec (c - chunks l1) 0).
  - split; [lia|]. by injection Ht.
  - apply Forall_cons_1 in H2 as [_ H2]. rewrite seg_of_neg in Ht by (done || lia). done.
Qed.
End zones.

(** ** Neighbours *)

Section neighbours.
Context (layout : Z).

(** The block of a free segment, as [heap_get_adjacent_free_block] returns it. *)
Definition free_block (z c f n : Z) : memory_block := set_state (flags_header f) MEMORY_BLOCK_HUGE (block_at c z n).

(** The segment before one. *)
Lemma last_segment (l : list seg) : l = [] ∨ ∃ l0 s, l = l0 ++ [s].
Proof. destruct l as [|s l] using rev_ind; [by left|right; by exists l, s]. Qed.

(** The size that is read from the last header of a segment leads to its start, if it is free. *)
Lemma prev_header x z i s : seg_at layout z x i s →
  let k := hdr_size_idx x (GET_CHUNK_HDR layout z (i + sg_size s - 1)) in
  (sg_type s = CHUNK_TYPE_RUN ∧ hdr_type x (GET_CHUNK_HDR layout z (i + sg_size s - k)) ≠ CHUNK_TYPE_FREE ∧ 1 ≤ k ≤ sg_size s) ∨ k = sg_size s.
Proof.
  intros [H1 H2 H3 H4 H5 H6] k. destruct (decide (sg_size s = 1)) as [E|].
  - right. unfold k. rewrite E. replace (i + 1 - 1) with i by lia. rewrite (hi_size _ _ _ _ _ H4). lia.
  - destruct (decide (sg_type s = CHUNK_TYPE_RUN)) as [Et|Et].
    + left. split; [done|]. destruct (H6 (sg_size s - 1) Et ltac:(lia)) as (f & Hf). unfold k.
      replace (i + sg_size s - 1) with (i + (sg_size s - 1)) by lia. rewrite (hi_size _ _ _ _ _ Hf).
      destruct (H6 1 Et ltac:(lia)) as (f1 & Hf1). replace (i + sg_size s - (sg_size s - 1)) with (i + 1) by lia.
      rewrite (hi_type _ _ _ _ _ Hf1). split; [done|lia].
    + right. destruct (H5 Et ltac:(lia)) as (f & Hf). unfold k. by rewrite (hi_size _ _ _ _ _ Hf).
Qed.

Definition no_or (P : memory_block → Prop) (r : option memory_block) : Prop := ∀ b, r = Some b → P b.

Lemma look_free x z c f n k : hdr_is x (GET_CHUNK_HDR layout z c) CHUNK_TYPE_FREE f k →
  memblock_rebuild_state layout (block_at c z n) x = (Ok (free_block z c f n), x).
Proof. intros Hh. rewrite (rebuild_huge layout (block_at c z n) _ _ _ _ Hh); [done|by left]. Qed.

Lemma prev_run x z l1 s l2 m : zone_ok layout z x (l1 ++ s :: l2) → zone_id m = z → chunk_id m = chunks l1 →
  ∃ r, heap_get_adjacent_free_block layout m true x = (Ok r, x) ∧
    no_or (λ b, ∃ l0 f n, l1 = l0 ++ [FREE f n] ∧ b = free_block z (chunks l0) f n) r.
Proof.
  intros Hok Hz Hc. pose proof (zone_sized _ _ _ _ Hok) as Hs. destruct Hok as [_ _ Hp Hch]. apply Forall_app in Hs as [Hs1 Hs2].
  apply chain_app in Hch as [Hc1 _]. unfold heap_get_adjacent_free_block. erewrite bind_ok by reflexivity. change (id x) with x. rewrite Hz, Hc.
  destruct (last_segment l1) as [->|(l0 & t & ->)]; [by exists None|].
  apply chain_app in Hc1 as [_ [Ht _]]. rewrite Z.add_0_l in Ht. apply Forall_app in Hs1 as [Hs0 Ht1].
  rewrite !chunks_app in *. assert (chunks [t] = sg_size t) as Et by (unfold chunks; cbn [foldr]; lia). rewrite Et in *.
  pose proof (chunks_nonneg _ Hs0). pose proof (chunks_nonneg _ Hs2). pose proof (sa_size _ _ _ _ _ Ht) as H1.
  rewrite (proj2 (Z.eqb_neq _ 0)) by lia. destruct (prev_header x z _ _ Ht) as [(Er & Hn & Hk)|Ek].
  - rewrite u32_id by (unfold MAX_CHUNK in *; lia). rewrite (proj2 (Z.eqb_neq _ _) Hn). by exists None.
  - rewrite Ek. replace (chunks l0 + sg_size t - sg_size t) with (chunks l0) by lia. rewrite u32_id by (unfold MAX_CHUNK in *; lia).
    pose proof (sa_hdr _ _ _ _ _ Ht) as Hh. rewrite (hi_type _ _ _ _ _ Hh). destruct (Z.eqb_spec (sg_type t) CHUNK_TYPE_FREE) as [Ef|]; [|by exists None].
    cbn [negb]. rewrite Ef in Hh. rewrite (hi_size _ _ _ _ _ Hh). erewrite bind_ok by (eapply look_free; exact Hh).
    eexists. split; [reflexivity|]. intros b [= <-]. exists l0, (sg_flags t), (sg_size t). split; [|done]. f_equal. destruct t; cbn in *. by rewrite Ef.
Qed.

Lemma next_run x z l1 t f n l2 m : zone_ok layout z x (l1 ++ Seg t f n :: l2) → zone_id m = z → chunk_id m = chunks l1 →
  ∃ r, heap_get_adjacent_free_block layout m false x = (Ok r, x) ∧
    no_or (λ b, ∃ g k l3, l2 = FREE g k :: l3 ∧ b = free_block z (chunks l1 + n) g k) r.
Proof.
  intros Hok Hz Hc. pose proof (zone_sized _ _ _ _ Hok) as Hs. destruct Hok as [_ Hzs Hp Hch]. apply Forall_app in Hs as [Hs1 Hs2].
  apply Forall_cons_1 in Hs2 as [H1 Hs2]. apply chain_app in Hch as [_ [Hm Hc2]]. rewrite Z.add_0_l in *. cbn [sg_size] in *.
  pose proof (sa_hdr _ _ _ _ _ Hm) as Hh. unfold heap_get_adjacent_free_block. erewrite bind_ok by reflexivity. change (id x) with x. rewrite Hz, Hc.
  rewrite (hi_size _ _ _ _ _ Hh). cbn [sg_size]. rewrite chunks_app in *. cbn [chunks foldr] in Hzs, Hp. fold (chunks l2) in Hzs, Hp. cbn [sg_size] in *.
  pose proof (chunks_nonneg _ Hs1). pose proof (chunks_nonneg _ Hs2). rewrite Hzs, u32_id by (unfold MAX_CHUNK in *; lia).
  destruct (Z.eqb_spec (chunks l1 + n) (chunks l1 + (n + chunks l2))); [by exists None|].
  destruct l2 as [|s l3]; [unfold chunks in *; cbn [foldr] in *; lia|]. destruct Hc2 as [Ht _].
  pose proof (sa_hdr _ _ _ _ _ Ht) as Hh'. rewrite (hi_type _ _ _ _ _ Hh'). destruct (Z.eqb_spec (sg_type s) CHUNK_TYPE_FREE) as [Ef|]; [|by exists None].
  cbn [negb]. rewrite Ef in Hh'. rewrite (hi_size _ _ _ _ _ Hh').
  apply Forall_cons_1 in Hs2 as [Hs2 Hs3]. pose proof (chunks_nonneg _ Hs3). cbn [chunks foldr] in Hp. fold (chunks l3) in Hp.
  erewrite bind_ok by (eapply look_free; exact Hh').
  eexists. split; [reflexivity|]. intros b [= <-]. exists (sg_flags s), (sg_size s), l3. split; [|done]. f_equal. destruct s; cbn in *. by rewrite Ef.
Qed.
End neighbours.

(** ** Taking neighbours *)

Definition set_bucket {C} (h : heap C) (b : bucket C) : heap C :=
  Heap (h_pm h) b (h_alloc_classes h) (h_recyclers h) (h_nzones h) (h_zones_exhausted h).

Section coalesce.
Context {C : Type} (ops : block_container_ops C) `{!BlockContainer ops} `{!ExactContainer ops} (layout : Z).

Lemma take_run (h : heap C) X m prev r : bucket_holds ops (h_default_bucket h) X →
  heap_get_adjacent_free_block layout m prev (mem_of h) = (Ok r, mem_of h) →
  ∃ t X' bk, take_neighbour layout m prev h = (Ok t, set_bucket h bk) ∧ bucket_holds ops bk X' ∧
    ((t = None ∧ X' = X) ∨ ∃ n b, t = Some n ∧ r = Some n ∧ same_place n b ∧ X ≡ₚ b :: X').
Proof using Type*.
  intros [Eo Hh] Hr. unfold take_neighbour. erewrite bind_ok by (unfold look; rewrite Hr; reflexivity).
  destruct r as [n|].
  - destruct (exact_ok _ _ n Hh) as [[_ E]|(b & X' & s' & E & HX & Hb & Hh')].
    + exists None, X, (h_default_bucket h). split; [|by split; [|left]]. unfold mbind, M_bind, on_default, attempt, on_container.
      rewrite Eo, rm_exact_eq, E. destruct h as [? []]. cbn in Eo |- *. by subst.
    + eexists (Some n), X', _. split; [|split; [|right; by exists n, b]].
      * unfold mbind, M_bind, on_default, attempt, on_container. rewrite Eo, rm_exact_eq, E. reflexivity.
      * by split.
  - exists None, X, (h_default_bucket h). split; [by destruct h|]. by split; [|left].
Qed.

(** The segments that are taken on one side, and their blocks. *)
Definition taken (z c : Z) (l : list seg) (T : list memory_block) : Prop :=
  (l = [] ∧ T = []) ∨ ∃ f n b, l = [FREE f n] ∧ T = [b] ∧ place b = (z, c) ∧ size_idx b = n.

Lemma taken_size z c l T : taken z c l T → chunks l = foldr (λ b n, size_idx b + n) 0 T.
Proof. intros [[-> ->]|(f & n & b & -> & -> & _ & <-)]; done. Qed.

Lemma taken_free z c l T : taken z c l T → Forall (λ s, sg_type s = CHUNK_TYPE_FREE) l.
Proof. intros [[-> _]|(f & n & b & -> & _)]; repeat constructor. Qed.

Lemma coalesce_run h zs X m l1 f l2 : zones_ok layout (mem_of h) zs → bucket_holds ops (h_default_bucket h) X →
  zs !! zone_id m = Some (l1 ++ FREE f (size_idx m) :: l2) → chunk_id m = chunks l1 → block_off m = 0 →
  ∃ nm bk l1' pl nl l2' TP TN X' f', heap_coalesce_huge layout m h = (Ok nm, set_bucket h bk) ∧ bucket_holds ops bk X' ∧
    l1 = l1' ++ pl ∧ l2 = nl ++ l2' ∧ X ≡ₚ TP ++ TN ++ X' ∧
    taken (zone_id m) (chunks l1') pl TP ∧ taken (zone_id m) (chunks l1 + size_idx m) nl TN ∧
    seg_of (l1 ++ FREE f (size_idx m) :: l2) (chunks l1') = Some (FREE f' (if decide (pl = []) then size_idx m else chunks pl)) ∧
    nm = free_block (zone_id m) (chunks l1') f' (chunks pl + size_idx m + chunks nl).
Proof using Type*.
  intros Hz Hb Hl Hc Ho. destruct (Hz _ _ Hl) as [Hzr Hok].
  destruct (prev_run layout _ _ _ _ _ m Hok eq_refl Hc) as (rp & Ep & Hp).
  destruct (take_run h X m true rp Hb Ep) as (tp & X1 & bk1 & Etp & Hb1 & Hcp).
  destruct (next_run layout _ _ _ _ _ _ _ m Hok eq_refl Hc) as (rn & En & Hn).
  destruct (take_run (set_bucket h bk1) X1 m false rn Hb1 En) as (tn & X2 & bk2 & Etn & Hb2 & Hcn).
  unfold heap_coalesce_huge. erewrite bind_ok by exact Etp. erewrite bind_ok by exact Etn.
  assert (∃ l1' pl TP, l1 = l1' ++ pl ∧ X ≡ₚ TP ++ X1 ∧ taken (zone_id m) (chunks l1') pl TP ∧
    ((tp = None ∧ pl = []) ∨ ∃ f n, tp = Some (free_block (zone_id m) (chunks l1') f n) ∧ pl = [FREE f n])) as (l1' & pl & TP & E1 & HX1 & HTP & Htp).
  { destruct Hcp as [[-> ->]|(n & b & -> & -> & Hsp & HX)].
    - exists l1, [], []. rewrite app_nil_r. split_and!; [done|done|by left|by left].
    - destruct (Hp n eq_refl) as (l0 & g & k & -> & ->). exists l0, [FREE g k], [b]. split_and!; [done|done| |].
      + right. exists g, k, b. destruct Hsp as (S1 & S2 & S3 & S4). unfold place. cbn in *. split_and!; congruence.
      + right. by exists g, k. }
  assert (∃ nl l2' TN, l2 = nl ++ l2' ∧ X1 ≡ₚ TN ++ X2 ∧ taken (zone_id m) (chunks l1 + size_idx m) nl TN ∧ block_units tn = chunks nl) as (nl & l2' & TN & E2 & HX2 & HTN & Htn).
  { destruct Hcn as [[-> ->]|(n & b & -> & -> & Hsp & HX)].
    - exists [], l2, []. split_and!; [done|done|by left|done].
    - destruct (Hn n eq_refl) as (g & k & l3 & -> & ->). exists [FREE g k], l3, [b]. split_and!; [done|done| |].
      + right. exists g, k, b. destruct Hsp as (S1 & S2 & S3 & S4). unfold place. cbn in *. split_and!; congruence.
      + cbn. lia. }
  pose proof (zone_sized _ _ _ _ Hok) as Hsz. pose proof (zo_pos _ _ _ _ Hok) as Hpos. destruct Hok as [_ _ _ Hch].
  subst l1 l2. rewrite <-!app_assoc in *. rewrite !chunks_app in *. cbn [chunks foldr sg_size FREE] in Hpos. fold (chunks (nl ++ l2')) in Hpos. rewrite chunks_app in Hpos.
  assert (sized l1' ∧ sized pl ∧ 1 ≤ size_idx m ∧ sized nl ∧ sized l2') as (Z1 & Z2 & Z3 & Z4 & Z5).
  { apply Forall_app in Hsz as [? Hsz]. apply Forall_app in Hsz as [? Hsz]. apply Forall_cons_1 in Hsz as [? Hsz]. apply Forall_app in Hsz as [? ?]. done. }
  pose proof (chunks_nonneg _ Z1). pose proof (chunks_nonneg _ Z2). pose proof (chunks_nonneg _ Z4). pose proof (chunks_nonneg _ Z5).
  apply chain_app in Hch as [_ Hch]. rewrite Z.add_0_l in Hch.
  assert (∃ f', seg_of (l1' ++ pl ++ FREE f (size_idx m) :: nl ++ l2') (chunks l1') = Some (FREE f' (if decide (pl = []) then size_idx m else chunks pl)) ∧
    look (heap_coalesce layout tp m tn) (set_bucket h bk2) =
      (Ok (free_block (zone_id m) (chunks l1') f' (chunks pl + size_idx m + chunks nl)), set_bucket h bk2)) as (f' & Hf' & Ec).
  { unfold look, heap_coalesce. rewrite Htn. destruct Htp as [[-> ->]|(g & k & -> & ->)].
    - exists f. cbn [app] in *. split; [by rewrite seg_of_at|]. destruct Hch as [Hs _]. cbn [default block_units]. rewrite Z.add_0_l, u32_id by (unfold MAX_CHUNK in *; lia).
      rewrite Hc, Ho. change (chunks []) with 0 in *. rewrite Z.add_0_r, Z.add_0_l. change (MemoryBlock ?a ?b ?c 0 HEADER_LEGACY MEMORY_BLOCK_HUGE) with (block_at a b c).
      erewrite look_free by exact (sa_hdr _ _ _ _ _ Hs). done.
    - exists g. cbn [app] in *. rewrite decide_False by done. assert (chunks [FREE g k] = k) as Ek by (cbn; lia). rewrite Ek in *. split; [by rewrite seg_of_at|].
      destruct Hch as [Hs _]. unfold default, id. cbn [block_units free_block set_state block_at size_idx chunk_id zone_id block_off]. rewrite u32_id by (unfold MAX_CHUNK in *; lia).
      change (MemoryBlock ?a ?b ?c 0 HEADER_LEGACY MEMORY_BLOCK_HUGE) with (block_at a b c).
      erewrite look_free by exact (sa_hdr _ _ _ _ _ Hs). done. }
  exists (free_block (zone_id m) (chunks l1') f' (chunks pl + size_idx m + chunks nl)), bk2, l1', pl, nl, l2', TP, TN, X2, f'.
  rewrite <-?app_assoc. split_and!; [exact Ec|done|done|done|by rewrite HX1, HX2|done|done|done|done].
Qed.
End coalesce.

(** * libpmemobj: the free chunks of a heap

    [heap_free_chunk_reuse] and [heap_split_block] keep the invariant of the free chunks. *)

(** ** Changing the invariant *)

Lemma seg_flags layout z x i s : seg_at layout z x i s → flags_ok (sg_flags s).
Proof.
  intros [_ _ H3 H4 _ _]. split; [|done]. rewrite <-(hi_flags _ _ _ _ _ H4). apply hdr_flags_range.
Qed.

Lemma seg_of_mid l1 l l2 c : sized (l1 ++ l ++ l2) → chunks l1 ≤ c < chunks l1 + chunks l →
  seg_of (l1 ++ l ++ l2) c = seg_of l (c - chunks l1).
Proof.
  intros Hs Hc. apply Forall_app in Hs as [H1 Hs]. apply Forall_app in Hs as [H2 H3].
  rewrite !seg_of_app by (try apply Forall_app; done). rewrite (proj2 (Z.ltb_ge _ _)), (proj2 (Z.ltb_lt _ _)) by lia. done.
Qed.

Section change.
Context (layout : Z).

Lemma heap_free_sub x zs T X X' : X ≡ₚ T ++ X' → heap_free layout x zs X → heap_free layout x zs X'.
Proof.
  intros HX [H1 H2 H3 H4]. rewrite HX in H2, H3, H4. rewrite fmap_app in H3. apply NoDup_app in H3 as (_ & _ & H3).
  apply Forall_app in H2 as [_ H2]. apply Forall_app in H4 as [_ H4]. by split.
Qed.

Lemma heap_free_replace x x' zs z X l1 l l' l2 : heap_free layout x zs X → zs !! z = Some (l1 ++ l ++ l2) → chunks l' = chunks l →
  chain layout z x' (chunks l1) l' → hdrs_kept layout z x x' (chunks l1) (chunks l) →
  (∀ b, b ∈ X → zone_id b = z → chunks l1 ≤ chunk_id b < chunks l1 + chunks l → False) →
  heap_free layout x' (<[z := l1 ++ l' ++ l2]> zs) X.
Proof.
  intros [H1 H2 H3 H4] Hl El Hc Hk Hn. split; [by eapply zones_replace| |done|done].
  rewrite Forall_forall in H2 |- *. intros b Hb. eapply free_replace; [done|done|done|by eapply chain_sizes| |by apply H2].
  intros Hz. specialize (Hn b Hb Hz). destruct (decide (chunk_id b < chunks l1)); [by left|right]. lia.
Qed.

Lemma heap_free_add x zs X b : heap_free layout x zs X → free_at zs b → place b ∉ place <$> X →
  mb_type b = MEMORY_BLOCK_HUGE → block_off b = 0 → heap_free layout x zs (b :: X).
Proof.
  intros [H1 H2 H3 H4] Hf Hp Ht Ho. split; [done|by constructor| |by constructor]. rewrite fmap_cons. by constructor.
Qed.

(** A block of the bucket is not inside the segments that were taken out of it. *)
Lemma not_inside x zs z X l1 f n l2 pl nl TP TN X' b : heap_free layout x zs X → zs !! z = Some (l1 ++ (pl ++ FREE f n :: nl) ++ l2) →
  X ≡ₚ TP ++ TN ++ X' → taken z (chunks l1) pl TP → taken z (chunks l1 + chunks pl + n) nl TN → (z, chunks l1 + chunks pl) ∉ place <$> X →
  b ∈ X' → zone_id b = z → chunks l1 ≤ chunk_id b < chunks l1 + chunks (pl ++ FREE f n :: nl) → False.
Proof.
  intros [H1 H2 H3 H4] Hl HX HP HN Hm Hb Hz Hc. destruct (H1 _ _ Hl) as [_ Hok]. pose proof (zone_sized _ _ _ _ Hok) as Hs.
  assert (b ∈ X) as HbX by (rewrite HX; set_solver). rewrite Forall_forall in H2. destruct (H2 b HbX) as (k & g & Hk & Hg).
  rewrite Hz, Hl in Hk. injection Hk as <-. rewrite seg_of_mid in Hg by done.
  assert (chunk_id b ∈ [chunks l1 + chunks pl] ++ (chunk_id <$> TP) ++ (chunk_id <$> TN)) as Hin.
  { assert (sized (pl ++ FREE f n :: nl)) as Hs' by (apply Forall_app in Hs as [_ Hs]; by apply Forall_app in Hs as [Hs _]).
    apply Forall_app in Hs' as [Hs1 Hs2]. apply Forall_cons_1 in Hs2 as [Hs2 Hs3]. cbn [sg_size FREE] in Hs2.
    rewrite seg_of_app in Hg by (done || by constructor). apply elem_of_app. destruct (Z.ltb_spec (chunk_id b - chunks l1) (chunks pl)).
    - right. apply elem_of_app. left. destruct HP as [[-> _]|(f1 & n1 & b1 & -> & -> & Hp1 & <-)]; [cbn in *; lia|]. cbn [seg_of] in Hg.
      destruct (Z.eqb_spec (chunk_id b - chunks l1) 0); [|done]. injection Hp1 as _ Hp1. cbn. apply list_elem_of_singleton. lia.
    - cbn [seg_of] in Hg. destruct (Z.eqb_spec (chunk_id b - chunks l1 - chunks pl) 0); [left; apply list_elem_of_singleton; lia|right; apply elem_of_app; right].
      destruct HN as [[-> _]|(f1 & n1 & b1 & -> & -> & Hp1 & <-)]; [done|]. cbn [seg_of sg_size FREE] in Hg.
      destruct (Z.eqb_spec (chunk_id b - chunks l1 - chunks pl - n) 0); [|done]. injection Hp1 as _ Hp1. cbn. apply list_elem_of_singleton. lia. }
  assert (Forall (λ t, zone_id t = z) (TP ++ TN)) as HzT.
  { apply Forall_app. split; [destruct HP as [[_ ->]|(f1 & n1 & b1 & _ & -> & Hp1 & _)]|destruct HN as [[_ ->]|(f1 & n1 & b1 & _ & -> & Hp1 & _)]]; repeat constructor; by injection Hp1. }
  rewrite <-fmap_app in Hin. apply elem_of_app in Hin as [Hin|Hin].
  - apply list_elem_of_singleton in Hin. apply Hm. rewrite <-Hz, <-Hin. change (zone_id b, chunk_id b) with (place b). by apply list_elem_of_fmap_2.
  - apply list_elem_of_fmap in Hin as (t & Et & Ht). rewrite Forall_forall in HzT. pose proof (HzT t Ht) as Hzt.
    rewrite HX, app_assoc, fmap_app in H3. apply NoDup_app in H3 as (_ & H3 & _). apply (H3 (place t)); [by apply list_elem_of_fmap_2|].
    replace (place t) with (place b) by (unfold place; congruence). by apply list_elem_of_fmap_2.
Qed.
End change.

(** ** Operations *)

Definition set_pm {C} (h : heap C) (p : pmem) : heap C :=
  Heap p (h_default_bucket h) (h_alloc_classes h) (h_recyclers h) (h_nzones h) (h_zones_exhausted h).

(** The blocks of the bucket after an attempt to insert one. *)
Definition with_block (ok : bool) (b : memory_block) (X : list memory_block) : list memory_block := if ok then b :: X else X.

Definition units (T : list memory_block) : Z := foldr (λ b n, size_idx b + n) 0 T.

Lemma units_app T T' : units (T ++ T') = units T + units T'.
Proof. unfold units. induction T as [|b T IH]; cbn [app foldr]; lia. Qed.

(** The free segments [l] of [z] are replaced by [l'], the others are the same. *)
Record retiled (zs zs' : gmap Z (list seg)) (z : Z) (l1 l l' l2 : list seg) : Prop := {
  rt_before : zs !! z = Some (l1 ++ l ++ l2);
  rt_after : zs' = <[z := l1 ++ l' ++ l2]> zs;
  rt_free : Forall (λ s, sg_type s = CHUNK_TYPE_FREE) l;
  rt_size : chunks l' = chunks l
}.

Section ops.
Context {C : Type} (ops : block_container_ops C) `{!BlockContainer ops} (o : pmem_ops) `{!OpsSpec o} (layout : Z).

Lemma bucket_insert_run (h : heap C) X b : bucket_holds ops (h_default_bucket h) X → can_insert (bk_container (h_default_bucket h)) b →
  ∃ (ok : bool) bk, on_default (attempt (bucket_insert_block b)) h = (Ok (if ok then Some tt else None), set_bucket h bk) ∧
    bucket_holds ops bk (with_block ok b X).
Proof using Type*.
  intros [Eo Hh] Hc. destruct (insert_ok _ _ b Hh Hc) as (r & s' & E & H).
  unfold on_default, attempt, bucket_insert_block, on_container. rewrite Eo, E.
  destruct H as [[-> H]|[[e ->] H]]; [exists true|exists false]; (eexists; split; [reflexivity|by split]).
Qed.

Lemma bucket_insert_errno (h : heap C) X b : bucket_holds ops (h_default_bucket h) X → can_insert (bk_container (h_default_bucket h)) b →
  ∃ (e : option Z) bk, on_default (errno_of (bucket_insert_block b)) h = (Ok e, set_bucket h bk) ∧
    bucket_holds ops bk (with_block (bool_decide (e = None)) b X).
Proof using Type*.
  intros [Eo Hh] Hc. destruct (insert_ok _ _ b Hh Hc) as (r & s' & E & H).
  unfold on_default, errno_of, bucket_insert_block, on_container. rewrite Eo, E.
  destruct H as [[-> H]|[[e ->] H]]; [exists None|exists (Some e)]; (eexists; split; [reflexivity|by split]).
Qed.

Lemma on_hpm_run {A} (f : M pmem A) (h : heap C) a p : f (h_pm h) = (Ok a, p) → on_hpm f h = (Ok a, set_pm h p).
Proof. intros E. unfold on_hpm. by rewrite E. Qed.

Lemma chain_one x z i s : seg_at layout z x i s → chain layout z x i [s].
Proof. by split. Qed.

Lemma chunks_one s : chunks [s] = sg_size s.
Proof. unfold chunks. cbn [foldr]. lia. Qed.

(** The merged block is written, if it has grown. *)
Lemma merge_written (h : heap C) zs X m l1 pl f nl l2 f' : heap_free layout (mem_of h) zs X → 
  zs !! zone_id m = Some (l1 ++ (pl ++ FREE f (size_idx m) :: nl) ++ l2) →
  mb_type m = MEMORY_BLOCK_HUGE →
  seg_of (l1 ++ (pl ++ FREE f (size_idx m) :: nl) ++ l2) (chunks l1) = Some (FREE f' (if decide (pl = []) then size_idx m else chunks pl)) →
  let nm := free_block (zone_id m) (chunks l1) f' (chunks pl + size_idx m + chunks nl) in
  (∀ b, b ∈ X → zone_id b = zone_id m → chunks l1 ≤ chunk_id b < chunks l1 + chunks (pl ++ FREE f (size_idx m) :: nl) → False) →
  ∃ p, (if negb (size_idx nm =? size_idx m) then
          match mb_type m with
          | MEMORY_BLOCK_HUGE => on_hpm (huge_prep_now o layout nm MEMBLOCK_FREE)
          | MEMORY_BLOCK_RUN => undef
          end
        else mret tt) h = (Ok tt, set_pm h p) ∧
    hdrs_kept layout (zone_id m) (mem_of h) (pm_mem p) (chunk_id nm) (size_idx nm) ∧
    heap_free layout (pm_mem p) (<[zone_id m := l1 ++ [FREE f' (size_idx nm)] ++ l2]> zs) X.
Proof using Type*.
  intros Hf Hl Ht Hsg nm Hn. destruct (hf_zones _ _ _ _ Hf _ _ Hl) as [_ Hok]. pose proof (zone_sized _ _ _ _ Hok) as Hs.
  pose proof (zo_pos _ _ _ _ Hok) as Hp. assert (chunks (pl ++ FREE f (size_idx m) :: nl) = size_idx nm) as El.
  { rewrite chunks_app. cbn [chunks foldr sg_size FREE]. fold (chunks nl). cbn. lia. }
  assert (sized l1 ∧ sized (pl ++ FREE f (size_idx m) :: nl) ∧ sized l2) as (S1 & S2 & S3).
  { apply Forall_app in Hs as [? Hs]. apply Forall_app in Hs as [? ?]. done. }
  assert (sized pl ∧ 1 ≤ size_idx m ∧ sized nl) as (S4 & S5 & S6).
  { apply Forall_app in S2 as [? S2]. apply Forall_cons_1 in S2 as [? ?]. done. }
  rewrite (chunks_app l1), (chunks_app _ l2), El in Hp. pose proof (chunks_nonneg _ S1). pose proof (chunks_nonneg _ S3). pose proof (chunks_nonneg _ S4). pose proof (chunks_nonneg _ S6).
  assert (size_idx nm = chunks pl + size_idx m + chunks nl) as En by done.
  destruct (seg_of_split _ _ _ Hsg) as (k1 & k2 & Ek & Ek1). pose proof (zo_chain _ _ _ _ Hok) as Hch. rewrite Ek in Hch.
  apply chain_app in Hch as [_ [Hseg _]]. rewrite Z.add_0_l, Ek1 in Hseg.
  destruct (Z.eqb_spec (size_idx nm) (size_idx m)) as [E|E]; cbn [negb].
  - exists (h_pm h). split; [by destruct h|]. split; [done|].
    assert (pl = [] ∧ nl = []) as [-> ->].
    { split; [destruct pl as [|s ?]; [done|]|destruct nl as [|s ?]; [done|]].
      - apply Forall_cons_1 in S4 as [S4 S4']. pose proof (chunks_nonneg _ S4') as Hx. rewrite E in En. cbn [chunks foldr] in En. unfold chunks in *. lia.
      - apply Forall_cons_1 in S6 as [S6 S6']. pose proof (chunks_nonneg _ S6') as Hx. rewrite E in En. cbn [chunks foldr] in En. unfold chunks in *. lia. }
    cbn [app] in *. rewrite decide_True in Hsg by done. rewrite seg_of_at in Hsg by done. injection Hsg as <-. rewrite E. by rewrite insert_id.
  - rewrite Ht. destruct (prep_now_run o layout (zone_id m) nm f' (if decide (pl = []) then size_idx m else chunks pl) (h_pm h)) as (p & Er & Hsp & Hk).
    + done.
    + unfold MAX_CHUNK in *. lia.
    + by apply (seg_flags _ _ _ _ _ Hseg).
    + exact (sa_hdr _ _ _ _ _ Hseg).
    + exists p. split; [by apply on_hpm_run|]. split; [done|]. eapply heap_free_replace; [done|done| | |by rewrite El|done].
      * rewrite chunks_one. cbn [sg_size FREE]. by rewrite El.
      * by apply chain_one.
Qed.

(** ** [heap_free_chunk_reuse] *)

Lemma reuse_run `{!ExactContainer ops} (h : heap C) zs X m : heap_free layout (mem_of h) zs X → bucket_holds ops (h_default_bucket h) X →
  free_at zs m → mb_type m = MEMORY_BLOCK_HUGE → block_off m = 0 → place m ∉ place <$> X →
  (∀ nm h1, heap_coalesce_huge layout m h = (Ok nm, h1) → can_insert (bk_container (h_default_bucket h1)) nm) →
  ∃ nm e h' l1 l l2 f T X', heap_free_chunk_reuse o layout m h = (Ok (nm, e), h') ∧
    X ≡ₚ T ++ X' ∧ size_idx nm = size_idx m + units T ∧ (length T ≤ 2)%nat ∧
    zone_id nm = zone_id m ∧ chunk_id nm = chunks l1 ∧ size_idx nm = chunks l ∧ chunk_id nm ≤ chunk_id m ∧ chunk_id m + size_idx m ≤ chunk_id nm + size_idx nm ∧
    (∃ zs', retiled zs zs' (zone_id m) l1 l [FREE f (size_idx nm)] l2 ∧ heap_free layout (mem_of h') zs' (with_block (bool_decide (e = None)) nm X')) ∧
    bucket_holds ops (h_default_bucket h') (with_block (bool_decide (e = None)) nm X') ∧
    hdrs_kept layout (zone_id m) (mem_of h) (mem_of h') (chunk_id nm) (size_idx nm).
Proof using Type*.
  intros Hf Hb (l & f & Hl & Hsg) Ht Ho Hp Hi. destruct (seg_of_split _ _ _ Hsg) as (l1 & l2 & -> & Hc). symmetry in Hc.
  destruct (coalesce_run ops layout h zs X m l1 f l2 (hf_zones _ _ _ _ Hf) Hb Hl Hc Ho)
    as (nm & bk & k1 & pl & nl & k2 & TP & TN & X' & f' & E & Hbk & -> & -> & HX & HTP & HTN & Hf' & Enm).
  specialize (Hi _ _ E). rewrite chunks_app in Hc, HTN. unfold place in Hp. rewrite Hc in Hp.
  assert ((k1 ++ pl) ++ FREE f (size_idx m) :: nl ++ k2 = k1 ++ (pl ++ FREE f (size_idx m) :: nl) ++ k2) as El by (by rewrite <-!app_assoc).
  rewrite El in Hl, Hf'. assert (X ≡ₚ (TP ++ TN) ++ X') as HX2 by (by rewrite <-app_assoc).
  assert (∀ b, b ∈ X' → zone_id b = zone_id m → chunks k1 ≤ chunk_id b < chunks k1 + chunks (pl ++ FREE f (size_idx m) :: nl) → False) as Hout
    by (intros b; eapply not_inside; [done..|by rewrite <-Z.add_assoc in HTN |- *|done]).
  destruct (merge_written (set_bucket h bk) zs X' m k1 pl f nl k2 f' (heap_free_sub _ _ _ _ _ _ HX2 Hf) Hl Ht Hf' Hout) as (p & Ew & Hk & Hw).
  rewrite <-Enm in *. destruct (bucket_insert_errno (set_pm (set_bucket h bk) p) X' nm Hbk Hi) as (e & bk2 & Ei & Hbk2).
  destruct (hf_zones _ _ _ _ Hf _ _ Hl) as [_ Hok]. pose proof (zone_sized _ _ _ _ Hok) as Hs.
  assert (chunks (pl ++ FREE f (size_idx m) :: nl) = size_idx nm) as Esz.
  { rewrite chunks_app, Enm. cbn [chunks foldr sg_size FREE]. fold (chunks nl). cbn. lia. }
  assert (sized k1 ∧ sized pl ∧ 1 ≤ size_idx m ∧ sized nl) as (S1 & S4 & S5 & S6).
  { apply Forall_app in Hs as [? Hs]. apply Forall_app in Hs as [Hs ?]. apply Forall_app in Hs as [? Hs]. apply Forall_cons_1 in Hs as [? ?]. done. }
  pose proof (chunks_nonneg _ S4). pose proof (chunks_nonneg _ S6). assert (size_idx nm = chunks pl + size_idx m + chunks nl) as En by (by rewrite Enm).
  exists nm, e, (set_bucket (set_pm (set_bucket h bk) p) bk2), k1, (pl ++ FREE f (size_idx m) :: nl), k2, f', (TP ++ TN), X'.
  split_and!.
  - unfold heap_free_chunk_reuse. erewrite bind_ok by exact E. erewrite bind_ok by exact Ew. erewrite bind_ok by exact Ei. done.
  - done.
  - rewrite units_app. apply taken_size in HTP, HTN. unfold units. lia.
  - rewrite length_app. destruct HTP as [[_ ->]|(? & ? & ? & _ & -> & _)], HTN as [[_ ->]|(? & ? & ? & _ & -> & _)]; cbn; lia.
  - by rewrite Enm.
  - by rewrite Enm.
  - done.
  - rewrite Enm, Hc. cbn. lia.
  - rewrite En, Hc. rewrite Enm. cbn. lia.
  - eexists. split.
    + split; [done|reflexivity| |by rewrite chunks_one].
      apply Forall_app. split; [by eapply taken_free|]. constructor; [done|by eapply taken_free].
    + cbn [set_bucket h_pm mem_of heap_has_mem set_pm]. destruct (bool_decide (e = None)); [|done]. apply heap_free_add; [done| | |by rewrite Enm|by rewrite Enm].
      * exists (k1 ++ [FREE f' (size_idx nm)] ++ k2), f'. rewrite Enm at 1. cbn [zone_id free_block set_state block_at]. rewrite lookup_insert_eq. split; [done|].
        replace (chunk_id nm) with (chunks k1) by (by rewrite Enm). apply seg_of_at. eapply (zone_sized layout (zone_id m)).
        apply (hf_zones _ _ _ _ Hw). by rewrite lookup_insert_eq.
      * intros Hin. apply list_elem_of_fmap in Hin as (b & Eb & Hb'). apply (Hout b Hb'); unfold place in Eb; rewrite Enm in Eb; cbn in Eb; injection Eb as Eb1 Eb2; [done|].
        rewrite Esz, En. lia.
  - done.
  - done.
Qed.

(** ** [heap_split_block] and [heap_get_bestfit_block] *)

Lemma kept_trans z x x' x'' c n c' n' : c ≤ c' → c' + n' ≤ c + n → hdrs_kept layout z x x' c n → hdrs_kept layout z x' x'' c' n' → hdrs_kept layout z x x'' c n.
Proof. intros H1 H2 H3 H4 a Ha. rewrite H4 by (unfold GET_CHUNK_HDR in *; lia). by apply H3. Qed.

Lemma kept_wider z x x' c n c' n' : c' ≤ c → c + n ≤ c' + n' → hdrs_kept layout z x x' c n → hdrs_kept layout z x x' c' n'.
Proof. intros H1 H2 H3 a Ha. apply H3. unfold GET_CHUNK_HDR in *; lia. Qed.

(** The block at a free segment that is not in the bucket overlaps none that is. *)
Lemma alone x zs X b : heap_free layout x zs X → free_at zs b → place b ∉ place <$> X →
  ∀ b', b' ∈ X → zone_id b' = zone_id b → chunk_id b ≤ chunk_id b' < chunk_id b + size_idx b → False.
Proof.
  intros [H1 H2 _ _] (l & f & Hl & Hsg) Hp b' Hb' Hz Hc. rewrite Forall_forall in H2. destruct (H2 b' Hb') as (l' & f' & Hl' & Hsg').
  rewrite Hz, Hl in Hl'. injection Hl' as <-. destruct (H1 _ _ Hl) as [_ Hok]. destruct (seg_of_split _ _ _ Hsg) as (l1 & l2 & -> & Ec).
  pose proof (zone_sized _ _ _ _ Hok) as Hs. rewrite <-Ec in Hc. destruct (seg_of_inside _ _ _ _ _ Hs Hsg' Hc) as [E _].
  apply Hp. replace (place b) with (place b') by (unfold place; congruence). by apply list_elem_of_fmap_2.
Qed.

Lemma split_run (h : heap C) zs X b u : heap_free layout (mem_of h) zs X → bucket_holds ops (h_default_bucket h) X →
  free_at zs b → place b ∉ place <$> X → 0 < u < size_idx b →
  can_insert (bk_container (h_default_bucket h)) (block_at (chunk_id b + u) (zone_id b) (size_idx b - u)) →
  ∃ ok h' l1 f l2 zs', heap_split_huge o layout b u h = (Ok (block_at (chunk_id b) (zone_id b) u), h') ∧ chunk_id b = chunks l1 ∧
    retiled zs zs' (zone_id b) l1 [FREE f (size_idx b)] [FREE 0 u; FREE 0 (size_idx b - u)] l2 ∧
    heap_free layout (mem_of h') zs' (with_block ok (block_at (chunk_id b + u) (zone_id b) (size_idx b - u)) X) ∧
    bucket_holds ops (h_default_bucket h') (with_block ok (block_at (chunk_id b + u) (zone_id b) (size_idx b - u)) X) ∧
    hdrs_kept layout (zone_id b) (mem_of h) (mem_of h') (chunk_id b) (size_idx b).
Proof using Type*.
  intros Hf Hb Hfr Hp Hu Hi. pose proof (alone _ _ _ _ Hf Hfr Hp) as Halone. destruct Hfr as (l & f & Hl & Hsg).
  destruct (seg_of_split _ _ _ Hsg) as (l1 & l2 & -> & Hc). symmetry in Hc.
  destruct (hf_zones _ _ _ _ Hf _ _ Hl) as [_ Hok]. pose proof (zone_sized _ _ _ _ Hok) as Hs. pose proof (zo_pos _ _ _ _ Hok) as Hpos.
  apply Forall_app in Hs as [S1 Hs]. apply Forall_cons_1 in Hs as [_ S2]. rewrite chunks_app in Hpos. cbn [chunks foldr sg_size FREE] in Hpos. fold (chunks l2) in Hpos.
  pose proof (chunks_nonneg _ S1). pose proof (chunks_nonneg _ S2). unfold MAX_CHUNK in Hpos. set (z := zone_id b) in *. set (n := size_idx b) in *.
  destruct (huge_init_run o layout z (chunk_id b) u (h_pm h)) as (p1 & E1 & Hs1 & Hk1); [lia|].
  destruct (huge_init_run o layout z (chunk_id b + u) (n - u) p1) as (p2 & E2 & Hs2 & Hk2); [lia|].
  assert (hdrs_kept layout z (mem_of h) (pm_mem p2) (chunk_id b) n) as Hk.
  { eapply kept_trans; [| |eapply kept_wider; [| |exact Hk1]|exact Hk2]; lia. }
  assert (heap_free layout (pm_mem p2) (<[z := l1 ++ [FREE 0 u; FREE 0 (n - u)] ++ l2]> zs) X) as Hf2.
  { eapply (heap_free_replace layout _ _ zs z X l1 [FREE f n]); [done|done| | |rewrite chunks_one, <-Hc; done|].
    - unfold chunks. cbn [foldr sg_size FREE]. lia.
    - rewrite <-Hc. split; [|by split]. eapply seg_frame; [|exact Hs1]. intros a Ha. apply Hk2. cbn [sg_size FREE] in *. unfold GET_CHUNK_HDR in *. lia.
    - intros b' Hb' Hz' Hr. rewrite chunks_one in Hr. apply (Halone b' Hb' Hz'). rewrite Hc. done. }
  destruct (bucket_insert_run (set_pm (set_pm h p1) p2) X _ Hb Hi) as (ok & bk & Ei & Hbk).
  exists ok, (set_bucket (set_pm (set_pm h p1) p2) bk), l1, f, l2, (<[z := l1 ++ [FREE 0 u; FREE 0 (n - u)] ++ l2]> zs). split_and!.
  - unfold heap_split_huge. rewrite (proj2 (Z.leb_le u _)), (proj2 (Z.ltb_lt 0 u)) by lia. cbn [andb negb].
    fold n z. rewrite !u32_id by lia. erewrite bind_ok by (apply on_hpm_run; exact E1).
    erewrite bind_ok by (apply on_hpm_run; exact E2). erewrite bind_ok by exact Ei. done.
  - done.
  - split; [done|done|by repeat constructor|]. unfold chunks. cbn [foldr sg_size FREE]. lia.
  - cbn [set_bucket h_pm mem_of heap_has_mem set_pm]. destruct ok; [|done]. cbn [with_block]. apply heap_free_add; [done| | |done|done].
    + eexists _, 0. cbn [zone_id block_at chunk_id size_idx]. rewrite lookup_insert_eq. split; [done|].
      change (l1 ++ [FREE 0 u; FREE 0 (n - u)] ++ l2) with (l1 ++ [FREE 0 u] ++ FREE 0 (n - u) :: l2). rewrite app_assoc.
      replace (chunk_id b + u) with (chunks (l1 ++ [FREE 0 u])) by (rewrite chunks_app, chunks_one; cbn [sg_size FREE]; lia).
      apply seg_of_at. rewrite <-app_assoc. eapply (zone_sized layout z). apply (hf_zones _ _ _ _ Hf2). by rewrite lookup_insert_eq.
    + intros Hin. apply list_elem_of_fmap in Hin as (b' & Eb & Hb'). unfold place in Eb. cbn in Eb. injection Eb as Eb1 Eb2. apply (Halone b' Hb'); [done|lia].
  - done.
  - exact Hk.
Qed.

(** The header type of the block is set at the end. *)
Lemma header_set_run h zs X b f l1 l2 t : heap_free layout (mem_of h) zs X → zs !! zone_id b = Some (l1 ++ [FREE f (size_idx b)] ++ l2) →
  chunk_id b = chunks l1 → mb_type b = MEMORY_BLOCK_HUGE → place b ∉ place <$> X →
  ∃ p f', on_hpm (mop_ensure_header_type o layout b t) h = (Ok tt, set_pm (C := C) h p) ∧
    heap_free layout (pm_mem p) (<[zone_id b := l1 ++ [FREE f' (size_idx b)] ++ l2]> zs) X ∧
    hdrs_kept layout (zone_id b) (mem_of h) (pm_mem p) (chunk_id b) (size_idx b).
Proof using Type*.
  intros Hf Hl Hc Ht Hp. destruct (hf_zones _ _ _ _ Hf _ _ Hl) as [_ Hok]. pose proof (zone_sized _ _ _ _ Hok) as Hs.
  pose proof (zo_chain _ _ _ _ Hok) as Hch. apply chain_app in Hch as [_ [Hseg _]]. rewrite Z.add_0_l, <-Hc in Hseg.
  destruct (ensure_header_run o layout (zone_id b) b t f (h_pm h)) as (p & f' & E & _ & Hseg' & Hk); [done|done|by apply (seg_flags _ _ _ _ _ Hseg)|done|].
  exists p, f'. split; [by apply on_hpm_run|]. split; [|done].
  eapply heap_free_replace; [done|done|by rewrite !chunks_one|rewrite <-Hc; by apply chain_one|by rewrite chunks_one, <-Hc|].
  intros b' Hb' Hz Hr. rewrite chunks_one, <-Hc in Hr. refine (alone _ _ _ b Hf _ Hp b' Hb' Hz Hr).
  exists (l1 ++ [FREE f (size_idx b)] ++ l2), f. split; [done|]. rewrite Hc. by apply seg_of_at.
Qed.
End ops.
