(* ===== verification/HeapExample.v ===== *)
(** * libpmemobj: a small heap

    A zone of a few chunks on which the definitions of the heap are evaluated: splitting a block and a crash, a footer that was
    not written back and the first traversal of the zone after the crash, and the size of the last zone. *)

From stdpp Require Import base gmap list numbers.
From S2P Require Import Prelude Memory Pmem Util Ulog UlogSpec UlogEntry UlogTheorems Ravl Container ContainerSeglists ContainerRavl Bucket Memops MemopsExample MemopsTheorems Memblock MemblockFree.
From S2P Require Import MemblockRun AllocClass Recycler Heap HeapZone.
Local Open Scope Z_scope.

(** A zone at [ZID_TO_ZONE 4096 0] with the segments [l] from chunk [i] on. *)
Fixpoint write_segs (l : list seg) (i : Z) (x : mem) : mem :=
  match l with
  | [] => x
  | s :: l =>
      let h := GET_CHUNK_HDR 4096 0 i in
      let x := wr x h (hdr_bytes (sg_type s) (sg_flags s) (sg_size s)) in
      let x := if sg_size s =? 1 then x else wr x (h + 8 * (sg_size s - 1)) (hdr_bytes CHUNK_TYPE_FOOTER 0 (sg_size s)) in
      write_segs l (i + sg_size s) x
  end.
Definition ex_zone (l : list seg) : mem := write_segs l 0 (wr ∅ (ZID_TO_ZONE 4096 0) (zone_header_bytes (chunks l))).

Definition ex_chunks (c n : Z) : memory_block := block_at c 0 n.
Definition ex_hbucket (t : block_container_ravl) : bucket block_container_ravl :=
  Bucket (Some CLASS_HUGE) t (container_ravl_ops huge_user_data) None true.
Definition ex_classes : aenv := AEnv init_collection ∅ 1 [].
Definition ex_zone_heap (p : pmem) (t : block_container_ravl) : heap block_container_ravl := Heap p (ex_hbucket t) ex_classes ∅ 1 1.

Definition USED (n : Z) : seg := Seg CHUNK_TYPE_USED 0 n.

(** ** A crash while a block is split *)

Definition ex_split0 : heap block_container_ravl := ex_zone_heap (Pmem (ex_zone [FREE 0 16; USED 4]) []) ex_tree0.
Definition ex_split1 := (heap_split_huge clflush_ops 4096 (ex_chunks 0 16) 2 ex_split0).2.

(** a crash while a block of chunks is split.  [heap_split_block] shrinks the header of the block before it writes the header of the rest.  After a crash
    between the two, the chunk after the first part has no header: the zone, that was well formed before, is not accepted any more. *)
Theorem heap_split_block_crash : ∃ x', crash (mem_of ex_split0) (pm_evs (h_pm ex_split1)) x' ∧
  heap_verify_zone (mem_of ex_split0) (ZID_TO_ZONE 4096 0) = Ok true ∧ heap_verify_zone (mem_of ex_split1) (ZID_TO_ZONE 4096 0) = Ok true ∧
  hdr_type x' (GET_CHUNK_HDR 4096 0 0) = CHUNK_TYPE_FREE ∧ hdr_size_idx x' (GET_CHUNK_HDR 4096 0 0) = 2 ∧
  hdr_type x' (GET_CHUNK_HDR 4096 0 2) = CHUNK_TYPE_UNKNOWN ∧ hdr_size_idx x' (GET_CHUNK_HDR 4096 0 2) = 0 ∧
  heap_verify_zone x' (ZID_TO_ZONE 4096 0) = Ok false.
Proof.
  exists (replay (mem_of ex_split0) (take 3 (pm_evs (h_pm ex_split1)))). split.
  - exists 3%nat. split; [vm_compute; lia|]. apply crash_at_replay.
  - vm_compute. done.
Qed.

(** ** A footer that was not written back *)

Local Abbreviation no_extend := (λ _, mret None).
Local Abbreviation unlocked := (λ _ : Z, false).

(** The free block of 16 chunks serves two requests for 2 chunks ... *)
Definition ex_stale0 : heap block_container_ravl :=
  ex_zone_heap (Pmem (ex_zone [FREE 0 16; USED 4]) []) (container_ravl_insert_block huge_user_data (ex_chunks 0 16) ex_tree0).2.
Definition ex_stale1 : heap block_container_ravl :=
  ((heap_get_bestfit_huge clflush_ops 4096 0 no_extend unlocked 0 0 HEADER_COMPACT (request 2);;
    heap_get_bestfit_huge clflush_ops 4096 0 no_extend unlocked 0 0 HEADER_COMPACT (request 2)) ex_stale0).2.
(** ... and an operation allocates the second block and frees the chunks 16 to 19. *)
Definition ex_stale_env : menv := MEnv (h_pm ex_stale1) [Some 1900000; Some 2000000; Some 2100000; Some 2200000].
Definition ex_stale_ctx : mstate :=
  match operation_new 3 1024 640 LOG_TYPE_REDO ex_stale_env with
  | (Ok (Some c), e) => MState e c
  | (_, e) => MState e no_ctx
  end.
Definition ex_stale_pop : pool_layout := PoolLayout 4096 2097152 1024 1 64 72.
Definition ex_stale_run :=
  (operation_start;;
   huge_prep_operation_hdr 4096 ex_stale_pop (ex_chunks 2 2) MEMBLOCK_ALLOCATED;;
   huge_prep_operation_hdr 4096 ex_stale_pop (ex_chunks 16 4) MEMBLOCK_FREE;;
   operation_finish clflush_ops no_free no_push 10) ex_stale_ctx.
Definition ex_stale2 : pmem := me_pm (ms_env ex_stale_run.2).
Definition ex_stale_evs : list ev := pm_evs (me_pm (ms_env ex_stale_run.2)).
(** The memory after a crash in which the footer of the chunks 4 to 15 is lost, and the first traversal of the zone. *)
Definition ex_stale_mem : mem := wr (replay (mem_of ex_stale0) ex_stale_evs) (GET_CHUNK_HDR 4096 0 15) (hdr_bytes CHUNK_TYPE_FOOTER 0 16).
Definition ex_stale_boot := heap_reclaim_zone_garbage clflush_ops 4096 0 (ex_zone_heap (Pmem ex_stale_mem []) ex_tree0).

(** One word that was never written back. *)
Lemma crash_lost_word m0 es w bs : durable_upto es w = 0%nat → length bs = 8%nat → Forall is_byte bs → rdn m0 (8 * w) 8 = bs →
  crash m0 es (wr (replay m0 es) (8 * w) bs).
Proof.
  intros Hd Hl Hb Hr. exists (length es). split; [done|]. rewrite take_ge by done. intros w'. destruct (decide (w' = w)) as [->|Hne].
  - exists 0%nat. split; [lia|]. intros a Ha. assert (a = 8 * w + a mod 8 ∧ 0 ≤ a mod 8 < 8) as [Ea Hm].
    { rewrite <-Ha. split; [by apply Z.div_mod|by apply Z.mod_pos_bound]. }
    rewrite Ea. change (replay m0 (take 0 es)) with m0. set (i := a mod 8) in *.
    pose proof (rdn_wr_same' (replay m0 es) (8 * w) bs 8 Hb Hl) as H1. rewrite <-Hr in H1.
    assert (∀ x, nth (Z.to_nat i) (rdn x (8 * w) 8) 0 = rd x (8 * w + i)) as Hn.
    { intros x. rewrite nth_rdn by lia. f_equal. lia. }
    rewrite <-!Hn, <-Hr. by rewrite H1.
  - destruct (crash_at_replay m0 es w') as (j & Hj & Ej). exists j. split; [done|]. intros a Ha. rewrite <-Ej by done.
    apply rd_wr_out. rewrite Hl. intros Hin. apply Hne. rewrite <-Ha. symmetry. apply (Z.div_unique a 8 w (a - 8 * w)); lia.
Qed.

(** footers after a crash.  Footers are not written back, because they would be written again when the zone is
    traversed for the first time; but that is done for used chunks only.  From a consistent heap: two requests are served from a free block of 16 chunks, an operation
    allocates one of the blocks and frees the chunks after the 16, and the power fails when everything is written back except the footer of the
    rest of the block.  The zone is accepted by the check.  The first traversal finds the old footer, merges the first two
    chunks with the last four, that do not touch, and writes the header of 6 free chunks over the allocated block: the traversal does not
    end well and the zone is not accepted any more. *)
Theorem stale_footer_corrupts :
  crash (mem_of ex_stale0) ex_stale_evs ex_stale_mem ∧ ex_stale_run.1 = Ok tt ∧
  heap_verify_zone (mem_of ex_stale0) (ZID_TO_ZONE 4096 0) = Ok true ∧ heap_verify_zone ex_stale_mem (ZID_TO_ZONE 4096 0) = Ok true ∧
  hdr_type ex_stale_mem (GET_CHUNK_HDR 4096 0 2) = CHUNK_TYPE_USED ∧ hdr_size_idx ex_stale_mem (GET_CHUNK_HDR 4096 0 2) = 2 ∧
  let x := mem_of ex_stale_boot.2 in
  hdr_type x (GET_CHUNK_HDR 4096 0 0) = CHUNK_TYPE_FREE ∧ hdr_size_idx x (GET_CHUNK_HDR 4096 0 0) = 6 ∧
  hdr_type x (GET_CHUNK_HDR 4096 0 2) = CHUNK_TYPE_USED ∧ hdr_size_idx x (GET_CHUNK_HDR 4096 0 2) = 2 ∧
  ex_stale_boot.1 = Undef ∧ heap_verify_zone x (ZID_TO_ZONE 4096 0) = Ok false.
Proof.
  split; [|vm_compute; done]. unfold ex_stale_mem. change (GET_CHUNK_HDR 4096 0 15) with (8 * 663).
  apply crash_lost_word; [vm_compute; reflexivity|done|apply hdr_bytes_bytes|vm_compute; reflexivity].
Qed.

(** ** The size of the last zone *)

(** the size of the last zone.  [zone_calc_size_idx] does not leave out the header of the heap: a heap whose size after the header is
    not more than 1024 bytes short of a whole number of chunks has a last chunk that ends after the heap does. *)
Theorem last_chunk_past_heap : let size := sizeof_zone + 4 * CHUNKSIZE in HEAP_MIN_SIZE ≤ size ∧ heap_max_zone size = 1 ∧
  zone_calc_size_idx 0 (heap_max_zone size) size = Ok 4 ∧ GET_CHUNK 0 0 4 = size + sizeof_heap_header.
Proof. vm_compute. split; [intros [=]|done]. Qed.
