(* ===== verification/HeapTheorems.v ===== *)
(** * libpmemobj: theorems on the heap

    The free chunks of a heap are handed out, split, given back and merged without being lost or handed out twice, and
    [heap_check] accepts the heap at any time; what can go wrong after a crash. *)

From stdpp Require Import base gmap list numbers.
From S2P Require Import Prelude Memory Pmem Util Ulog UlogSpec UlogEntry Ravl Container ContainerSeglists ContainerRavl Bucket Memops MemopsExample Memblock MemblockFree MemblockRun AllocClass.
From S2P Require Import Recycler Heap HeapZone HeapExample.
From stdpp Require Import list.
Local Open Scope Z_scope.

(** C22: freeing a block of chunks.  When chunks become free, [heap_free_chunk_reuse] merges them with the free chunks before and
    after them as far as those are in the bucket: it always returns, the block that is inserted covers the given one and
    the blocks that were taken out of the bucket and nothing else, the zones are sequences of segments as before in which
    these free segments are one, every block of the bucket is a free segment and in it once, and no byte is written except chunk headers of the new block.
    (The container can take the merged block: for the tree, no other block of it is at that address and the rank of the root is below 2^31 - 1.) *)
Theorem heap_free_chunk_reuse_merges {C} (ops : block_container_ops C) `{!BlockContainer ops} `{!ExactContainer ops} (o : pmem_ops) `{!OpsSpec o}
    layout (h : heap C) zs X m :
  heap_free layout (mem_of h) zs X → bucket_holds ops (h_default_bucket h) X →
  free_at zs m → mb_type m = MEMORY_BLOCK_HUGE → block_off m = 0 → place m ∉ place <$> X →
  (∀ nm h1, heap_coalesce_huge layout m h = (Ok nm, h1) → can_insert (bk_container (h_default_bucket h1)) nm) →
  ∃ nm e h' l1 l l2 f T X', heap_free_chunk_reuse o layout m h = (Ok (nm, e), h') ∧
    X ≡ₚ T ++ X' ∧ size_idx nm = size_idx m + units T ∧ (length T ≤ 2)%nat ∧
    zone_id nm = zone_id m ∧ chunk_id nm = chunks l1 ∧ size_idx nm = chunks l ∧ chunk_id nm ≤ chunk_id m ∧ chunk_id m + size_idx m ≤ chunk_id nm + size_idx nm ∧
    (∃ zs', retiled zs zs' (zone_id m) l1 l [FREE f (size_idx nm)] l2 ∧ heap_free layout (mem_of h') zs' (with_block (bool_decide (e = None)) nm X')) ∧
    bucket_holds ops (h_default_bucket h') (with_block (bool_decide (e = None)) nm X') ∧
    hdrs_kept layout (zone_id m) (mem_of h) (mem_of h') (chunk_id nm) (size_idx nm).
Proof. apply (reuse_run ops o layout). Qed.

(** ** Requests *)

Section bestfit.
Context {C : Type} (ops : block_container_ops C) `{!BlockContainer ops} (o : pmem_ops) `{!OpsSpec o} (layout sizep : Z).
Context (extend : Z → M pmem (option Z)) (locked : Z → bool) (grow : Z) (fuel : nat).

(** What the caller gets: a free segment of [n] chunks that is not in the bucket any more, the first part of [b0]. *)
Record served (h h' : heap C) (X : list memory_block) (n : Z) (t : header_type) (b0 b : memory_block) (X' : list memory_block) : Prop := {
  sv_zone : zone_id b = zone_id b0;
  sv_chunk : chunk_id b = chunk_id b0;
  sv_size : size_idx b = n;
  sv_type : mb_header_type b = t;
  sv_rest : ∃ X0, X ≡ₚ b0 :: X0 ∧ (X' = X0 ∨ (n < size_idx b0 ∧ X' = block_at (chunk_id b0 + n) (zone_id b0) (size_idx b0 - n) :: X0));
  sv_heap : ∃ zs', heap_free layout (mem_of h') zs' X' ∧ free_at zs' b;
  sv_bucket : bucket_holds ops (h_default_bucket h') X';
  sv_gone : place b ∉ place <$> X';
  sv_kept : hdrs_kept layout (zone_id b0) (mem_of h) (mem_of h') (chunk_id b0) (size_idx b0)
}.

(** The block that is taken out of the bucket, cut to size. *)
Lemma cut_run (h : heap C) zs X b0 X0 n t bk : heap_free layout (mem_of h) zs X → X ≡ₚ b0 :: X0 → bucket_holds ops bk X0 → 0 < n ≤ size_idx b0 →
  (n < size_idx b0 → can_insert (bk_container bk) (block_at (chunk_id b0 + n) (zone_id b0) (size_idx b0 - n))) →
  ∃ b h' X', (b ← (if n =? size_idx b0 then mret b0 else heap_split_huge o layout b0 n);
      on_hpm (mop_ensure_header_type o layout b t);; mret (set_state t (mb_type b) b)) (set_bucket h bk) = (Ok b, h') ∧
    served h h' X n t b0 b X'.
Proof using Type*.
  intros Hf HX Hb Hn Hi. assert (X ≡ₚ [b0] ++ X0) as HX1 by done. pose proof (heap_free_sub _ _ _ _ _ _ HX1 Hf) as Hf0.
  assert (b0 ∈ X) as Hb0 by (rewrite HX; by left).
  assert (place b0 ∉ place <$> X0) as Hp.
  { pose proof (hf_once _ _ _ _ Hf) as H. rewrite HX in H. by apply NoDup_cons in H as [H _]. }
  pose proof (proj1 (Forall_forall _ _) (hf_free _ _ _ _ Hf) b0 Hb0) as Hfr.
  destruct (proj1 (Forall_forall _ _) (hf_huge _ _ _ _ Hf) b0 Hb0) as [Ht Ho].
  destruct (Z.eqb_spec n (size_idx b0)) as [->|Hne].
  - destruct Hfr as (l & f & Hl & Hsg). destruct (seg_of_split _ _ _ Hsg) as (l1 & l2 & -> & Hc). symmetry in Hc.
    destruct (header_set_run ops o layout (set_bucket h bk) zs X0 b0 f l1 l2 t Hf0 Hl Hc Ht Hp) as (p & f' & E & Hf' & Hk).
    exists (set_state t (mb_type b0) b0), (set_pm (set_bucket h bk) p), X0. split; [erewrite bind_ok by reflexivity; erewrite bind_ok by exact E; done|].
    split; try done; [by exists X0; split; [|left]|]. eexists. split; [exact Hf'|].
    eexists _, f'. cbn [zone_id set_state chunk_id size_idx]. rewrite lookup_insert_eq. split; [done|]. rewrite Hc. apply seg_of_at.
    eapply (zone_sized layout (zone_id b0)). apply (hf_zones _ _ _ _ Hf'). by rewrite lookup_insert_eq.
  - destruct (split_run ops o layout (set_bucket h bk) zs X0 b0 n Hf0 Hb Hfr Hp) as (ok & h1 & l1 & f & l2 & zs' & E & Hc & Hrt & Hf1 & Hb1 & Hk1); [lia|apply Hi; lia|].
    set (r := block_at (chunk_id b0 + n) (zone_id b0) (size_idx b0 - n)) in *. set (m := block_at (chunk_id b0) (zone_id b0) n) in *.
    assert (place m ∉ place <$> with_block ok r X0) as Hp'.
    { destruct ok; [|done]. cbn [with_block]. rewrite fmap_cons, not_elem_of_cons. split; [|done]. unfold place. cbn. intros [=]. lia. }
    destruct Hrt as [R1 -> R3 R4].
    destruct (header_set_run ops o layout h1 _ (with_block ok r X0) m 0 l1 (FREE 0 (size_idx b0 - n) :: l2) t Hf1) as (p & f' & E2 & Hf' & Hk); [cbn; by rewrite lookup_insert_eq|done|done|done|].
    exists (set_state t (mb_type m) m), (set_pm h1 p), (with_block ok r X0). split; [erewrite bind_ok by exact E; erewrite bind_ok by exact E2; done|].
    split; try done.
    + exists X0. split; [done|]. destruct ok; [right; split; [lia|done]|by left].
    + eexists. split; [exact Hf'|]. eexists _, f'. cbn [zone_id set_state chunk_id size_idx]. rewrite lookup_insert_eq. split; [done|]. cbn [chunk_id m block_at]. rewrite Hc. apply seg_of_at.
      eapply (zone_sized layout (zone_id b0)). apply (hf_zones _ _ _ _ Hf'). by rewrite lookup_insert_eq.
    + eapply kept_trans; [| |exact Hk1|exact Hk]; cbn; lia.
Qed.
End bestfit.

(** C23: serving a request for chunks.  When the bucket has a block of at least [n] chunks, [heap_get_bestfit_block] takes the
    smallest one, cuts it to [n] chunks and gives the rest back to the bucket: it always returns a free segment of [n] chunks that
    starts where the block that was taken did, that is no longer in the bucket and overlaps no block that is; what is left
    is as before, no other chunk header is written, and nothing of the heap outside the block changes.  (The container can take the rest: for the tree, no other block of it is at that address and the rank of the root is below 2^31 - 1.) *)
Theorem heap_get_bestfit_serves {C} (ops : block_container_ops C) `{!BlockContainer ops} (o : pmem_ops) `{!OpsSpec o}
    layout sizep extend locked grow fuel (h : heap C) zs X n t :
  heap_free layout (mem_of h) zs X → bucket_holds ops (h_default_bucket h) X → 0 < n ≤ max_request → (∃ b, b ∈ X ∧ n ≤ size_idx b) →
  (∀ b c, bc_get_rm_bestfit ops (request n) (bk_container (h_default_bucket h)) = (Ok b, c) → n < size_idx b →
     can_insert c (block_at (chunk_id b + n) (zone_id b) (size_idx b - n))) →
  ∃ b0 b h' X', heap_get_bestfit_huge o layout sizep extend locked grow fuel t (request n) h = (Ok b, h') ∧
    best_fit n X b0 ∧ served ops layout h h' X n t b0 b X' ∧
    (∀ b', b' ∈ X' → zone_id b' = zone_id b → chunk_id b' + size_idx b' ≤ chunk_id b ∨ chunk_id b + n ≤ chunk_id b').
Proof.
  intros Hf [Eo Hh] Hn (c & Hc & Hcn) Hi. destruct (bestfit_ok _ _ n Hh Hn) as [[HF _]|(b0 & X0 & s' & E & HX & Hb & Hh')].
  { rewrite Forall_forall in HF. specialize (HF c Hc). lia. }
  set (bk := Bucket (bk_aclass (h_default_bucket h)) s' ops (bk_active_memory_block (h_default_bucket h)) (bk_is_active (h_default_bucket h))).
  destruct (cut_run ops o layout h zs X b0 X0 n t bk Hf HX) as (b & h' & X' & Er & Hs); [by split|destruct Hb as (_ & Hb & _); lia|by apply Hi|].
  exists b0, b, h', X'. split_and!; [|done|done|].
  - unfold heap_get_bestfit_huge. assert (∀ k, bestfit_huge_loop o layout sizep extend locked grow k (request n) h = (Ok (Some b0), set_bucket h bk)) as El.
    { intros k. destruct k; cbn [bestfit_huge_loop]; unfold mbind at 1, M_bind at 1, on_default, attempt;
        rewrite (on_container_run ops (λ ops, bc_get_rm_bestfit ops (request n)) _ _ _ Eo E); done. }
    erewrite bind_ok by apply El. destruct Hb as (_ & Hb & _). cbn [size_idx request].
    rewrite (proj2 (Z.leb_le n _)) by lia. exact Er.
  - intros b' Hb' Hz. destruct (sv_heap _ _ _ _ _ _ _ _ _ _ Hs) as (zs' & Hf' & Hfr).
    pose proof (alone layout _ zs' X' b Hf' Hfr (sv_gone _ _ _ _ _ _ _ _ _ _ Hs) b' Hb' Hz) as H1.
    rewrite (sv_size _ _ _ _ _ _ _ _ _ _ Hs) in H1. destruct (decide (chunk_id b + n ≤ chunk_id b')); [by right|].
    destruct (decide (chunk_id b ≤ chunk_id b')); [exfalso; lia|]. left.
    destruct Hfr as (l & f & Hl & Hsg). pose proof (proj1 (Forall_forall _ _) (hf_free _ _ _ _ Hf') b' Hb') as (l' & f' & Hl' & Hsg').
    rewrite Hz, Hl in Hl'. injection Hl' as <-. destruct (hf_zones _ _ _ _ Hf' _ _ Hl) as [_ Hok]. apply zone_sized in Hok.
    destruct (seg_of_split _ _ _ Hsg') as (k1 & k2 & -> & Ek). destruct (decide (chunk_id b < chunk_id b' + size_idx b')); [|lia].
    destruct (seg_of_inside _ _ _ _ _ Hok Hsg) as [? _]; [cbn; lia|]. lia.
Qed.

(** ** The check *)

Lemma length_chunks l : sized l → Z.of_nat (length l) ≤ chunks l.
Proof. unfold chunks. induction 1; cbn [length foldr]; lia. Qed.

Lemma verify_chain layout z x l : ∀ fuel i, chain layout z x i l → 0 ≤ i → i + chunks l < 2 ^ 32 → (length l ≤ fuel)%nat →
  verify_loop fuel x (ZID_TO_ZONE layout z) (i + chunks l) i = Ok (Some (i + chunks l)).
Proof.
  induction l as [|s l IH]; intros fuel i Hc Hi Hn Hf.
  - change (chunks []) with 0. destruct fuel; cbn [verify_loop]; rewrite (proj2 (Z.ltb_ge _ _)) by lia; cbn [negb]; do 2 f_equal; lia.
  - destruct Hc as [Hs Hc]. pose proof (chunks_nonneg _ (chain_sizes _ _ _ _ _ Hc)) as H0. cbn [chunks foldr] in *. fold (chunks l) in *.
    pose proof (sa_size _ _ _ _ _ Hs) as H1. destruct fuel as [|fuel]; [cbn in Hf; lia|]. cbn [verify_loop].
    rewrite (proj2 (Z.ltb_lt i _)) by lia. cbn [negb]. change (ZID_TO_ZONE layout z + 64 + 8 * i) with (GET_CHUNK_HDR layout z i).
    destruct (sa_hdr _ _ _ _ _ Hs) as [E1 E2 E3]. unfold heap_verify_chunk_header. rewrite E1, E2, E3, (sa_flags _ _ _ _ _ Hs).
    assert ((sg_type s =? CHUNK_TYPE_UNKNOWN) = false ∧ (MAX_CHUNK_TYPE <=? sg_type s) = false) as [-> ->]
      by (destruct (sa_type _ _ _ _ _ Hs) as [-> |[-> | ->]]; done).
    cbn [Z.eqb]. rewrite u32_id by lia. replace (i + (sg_size s + chunks l)) with (i + sg_size s + chunks l) by lia.
    apply IH; [done|lia|lia|]. cbn in Hf. lia.
Qed.

(** C31: the check accepts the heaps that the operations keep.  [heap_verify_zone] ends and accepts a zone that is a sequence of
    segments whose sizes add up to that of the zone. *)
Theorem heap_verify_zone_accepts layout z x l : zone_ok layout z x l → heap_verify_zone x (ZID_TO_ZONE layout z) = Ok true.
Proof.
  intros Hok. pose proof (zone_sized _ _ _ _ Hok) as Hs. destruct Hok as [Hm Hz Hp Hc]. unfold heap_verify_zone, heap_verify_zone_header.
  rewrite Hm, Hz. change (ZONE_HEADER_MAGIC =? 0) with false. rewrite Z.eqb_refl. cbn [negb]. rewrite (proj2 (Z.eqb_neq _ 0)) by lia. cbn [negb].
  pose proof (verify_chain layout z x l (Z.to_nat (chunks l)) 0 Hc) as E. rewrite Z.add_0_l in E. rewrite E; [by rewrite Z.eqb_refl|lia|unfold MAX_CHUNK in *; lia|].
  pose proof (length_chunks l Hs). lia.
Qed.

(** ** Witnesses *)

(** Free chunks at 0, 5, 7 and 10; those at 5 and 10 are in the bucket. *)
Definition ex_segs : list seg := [FREE 0 3; USED 2; FREE 0 2; FREE 0 3; FREE 0 4].
Definition ex_free_heap : heap block_container_ravl :=
  ex_zone_heap (Pmem (ex_zone ex_segs) []) (ex_tree huge_user_data (ex_chunks 5 2) (ex_chunks 10 4)).
Definition ex_free_blocks : list memory_block := [ex_chunks 10 4; ex_chunks 5 2].

Lemma ex_zone_ok : zone_ok 4096 0 (ex_zone ex_segs) ex_segs.
Proof.
  split; [vm_compute; reflexivity|vm_compute; reflexivity|vm_compute; split; [reflexivity|intros [=]]|].
  repeat split; try (cbn; lia || (vm_compute; reflexivity)); try (intros j [=]); try (by vm_compute; auto);
    intros _ _; exists 0; split; vm_compute; reflexivity.
Qed.

Lemma ex_heap_free : heap_free 4096 (mem_of ex_free_heap) {[0 := ex_segs]} ex_free_blocks.
Proof.
  split.
  - intros z l Hl. apply lookup_singleton_Some in Hl as [<- <-]. split; [lia|]. exact ex_zone_ok.
  - repeat constructor; exists ex_segs, 0; (split; [reflexivity|vm_compute; reflexivity]).
  - apply (bool_decide_unpack _). vm_compute. exact I.
  - by repeat constructor.
Qed.

Lemma ex_heap_bucket : bucket_holds (container_ravl_ops huge_user_data) (h_default_bucket ex_free_heap) ex_free_blocks.
Proof. split; [reflexivity|]. unfold ex_free_blocks. ex_tree_ok. Qed.

Lemma heap_verify_zone_accepts_witness : heap_verify_zone (ex_zone ex_segs) (ZID_TO_ZONE 4096 0) = Ok true.
Proof. apply (heap_verify_zone_accepts 4096 0 (ex_zone ex_segs) ex_segs). exact ex_zone_ok. Defined.

(** The condition of an insertion into a tree that is empty ... *)
Lemma insert_empty ud s m : r_heap (cr_tree s) = ∅ → 0 ≤ ud m < 2 ^ 64 → block_range m → ravl_container_can_insert ud s m.
Proof.
  intros E Hu Hm. split; [|done]. split; [done| |unfold root_rank; by rewrite E, lookup_empty]. intros p n H. by rewrite E, lookup_empty in H.
Qed.
(** ... or has one block. *)
Lemma insert_second ud s m a k : r_heap (cr_tree s) = {[a := k]} → r_root (cr_tree s) = a → rank k < 2 ^ 31 - 1 → ravl_data k ≠ Ptr (ud m) →
  0 ≤ ud m < 2 ^ 64 → block_range m → ravl_container_can_insert ud s m.
Proof.
  intros E Er Hk Hd Hu Hm. split; [|done]. split; [done| |unfold root_rank; rewrite E, Er, lookup_singleton_eq; lia].
  intros p n H Hn. rewrite E in H. apply lookup_singleton_Some in H as [<- <-]. done.
Qed.

Definition ex_merged := heap_free_chunk_reuse clflush_ops 4096 (ex_chunks 7 3) ex_free_heap.

(** The chunks 7 to 9 are merged with both neighbours. *)
Lemma heap_free_chunk_reuse_merges_witness : ∃ h' X', ex_merged = (Ok (ex_chunks 5 9, None), h') ∧
  bucket_holds (container_ravl_ops huge_user_data) (h_default_bucket h') (ex_chunks 5 9 :: X') ∧
  heap_verify_zone (mem_of h') (ZID_TO_ZONE 4096 0) = Ok true.
Proof.
  destruct (heap_free_chunk_reuse_merges (container_ravl_ops huge_user_data) clflush_ops 4096 ex_free_heap {[0 := ex_segs]} ex_free_blocks (ex_chunks 7 3))
    as (nm & e & h' & l1 & l & l2 & f & T & X' & E & _ & _ & _ & _ & _ & _ & _ & _ & _ & Hb & _).
  - exact ex_heap_free.
  - exact ex_heap_bucket.
  - exists ex_segs, 0. split; [reflexivity|vm_compute; reflexivity].
  - reflexivity.
  - reflexivity.
  - apply (bool_decide_unpack _). vm_compute. exact I.
  - intros nm h1 E. assert ((heap_coalesce_huge 4096 (ex_chunks 7 3) ex_free_heap).1 = Ok (ex_chunks 5 9)) as E1 by (vm_compute; reflexivity).
    assert (r_heap (cr_tree (bk_container (h_default_bucket (heap_coalesce_huge 4096 (ex_chunks 7 3) ex_free_heap).2))) = ∅) as E2 by (vm_compute; reflexivity).
    rewrite E in E1, E2. injection E1 as ->. apply insert_empty; [exact E2|vm_compute; split; congruence|split; simpl; lia].
  - assert (ex_merged.1 = Ok (ex_chunks 5 9, None)) as E1 by (vm_compute; reflexivity).
    assert (heap_verify_zone (mem_of ex_merged.2) (ZID_TO_ZONE 4096 0) = Ok true) as E2 by (vm_compute; reflexivity).
    unfold ex_merged in *. rewrite E in *. injection E1 as -> ->. exists h', X'. split; [reflexivity|split; [exact Hb|exact E2]].
Defined.

Definition ex_served := heap_get_bestfit_huge clflush_ops 4096 0 (λ _, mret None) (λ _, false) 0 0 HEADER_COMPACT (request 3) ex_free_heap.

(** Three chunks are cut off the block at 10. *)
Lemma heap_get_bestfit_serves_witness : ∃ b h' X', ex_served = (Ok b, h') ∧ b = MemoryBlock 10 0 3 0 HEADER_COMPACT MEMORY_BLOCK_HUGE ∧
  bucket_holds (container_ravl_ops huge_user_data) (h_default_bucket h') X' ∧ place b ∉ place <$> X'.
Proof.
  destruct (heap_get_bestfit_serves (container_ravl_ops huge_user_data) clflush_ops 4096 0 (λ _, mret None) (λ _, false) 0 0 ex_free_heap {[0 := ex_segs]} ex_free_blocks 3 HEADER_COMPACT)
    as (b0 & b & h' & X' & E & _ & Hs & _).
  - exact ex_heap_free.
  - exact ex_heap_bucket.
  - vm_compute. split; congruence.
  - exists (ex_chunks 10 4). split; [left|simpl; lia].
  - intros b c E _. set (t := container_ravl_get_rm_block_bestfit (request 3) (ex_tree huge_user_data (ex_chunks 5 2) (ex_chunks 10 4))).
    assert (t.1 = Ok (ex_chunks 10 4)) as E1 by (vm_compute; reflexivity).
    assert (r_heap (cr_tree t.2) = {[1 := RavlNode 0 0 0 1 true (le_bytes 8 (huge_user_data (ex_chunks 5 2)))]}) as E2 by (vm_compute; reflexivity).
    assert (r_root (cr_tree t.2) = 1) as E3 by (vm_compute; reflexivity).
    change (t = (Ok b, c)) in E. rewrite E in E1, E2, E3. injection E1 as ->.
    eapply insert_second; [exact E2|exact E3|reflexivity|vm_compute; congruence|vm_compute; split; congruence|split; simpl; lia].
  - assert (ex_served.1 = Ok (MemoryBlock 10 0 3 0 HEADER_COMPACT MEMORY_BLOCK_HUGE)) as E1 by (vm_compute; reflexivity).
    unfold ex_served in *. rewrite E in E1. injection E1 as ->. eexists _, h', X'. split; [exact E|]. split; [reflexivity|].
    split; [exact (sv_bucket _ _ _ _ _ _ _ _ _ _ Hs)|exact (sv_gone _ _ _ _ _ _ _ _ _ _ Hs)].
Defined.
