(* ===== verification/HeapRun.v ===== *)
(** * libpmemobj: the heap, runs

    Models the rest of [libpmemobj/heap.c]: the buckets of runs in the arenas, how they are filled, and the start and the end of
    the heap.  The model follows one thread: the locks of buckets and runs are free when it takes them. *)

From stdpp Require Import base gmap list numbers.
From S2P Require Import Prelude Memory Pmem Util Ulog Container ContainerSeglists Bucket Cuckoo Memops Memblock AllocClass Recycler Heap.
Local Open Scope Z_scope.

(** ** Data *)

(** A bucket with the address of its class and that of its active memory block (0 for [NULL]).  A bucket that was freed is not live. *)
Record run_bucket (R : Type) : Type := RunBucket { rk_bucket : bucket R; rk_aclass : Z; rk_resv : Z; rk_live : bool }.
Arguments RunBucket {R}.
Arguments rk_bucket {R}.
Arguments rk_aclass {R}.
Arguments rk_resv {R}.
Arguments rk_live {R}.

Record arena (R : Type) : Type := Arena { ar_buckets : gmap Z (run_bucket R); ar_nthreads : Z }.
Arguments Arena {R}.
Arguments ar_buckets {R}.
Arguments ar_nthreads {R}.

(** The heap with its arenas and the arena of the thread ([None]: not assigned); the next address, and the outcomes of allocations. *)
Record rheap (C R : Type) : Type := RHeap {
  rh_heap : heap C;
  rh_arenas : list (arena R);
  rh_thread_arena : option nat;
  rh_next : Z;
  rh_malloc : list bool
}.
Arguments RHeap {C R}.
Arguments rh_heap {C R}.
Arguments rh_arenas {C R}.
Arguments rh_thread_arena {C R}.
Arguments rh_next {C R}.
Arguments rh_malloc {C R}.

#[global] Instance rheap_has_mem C R : HasMem (rheap C R) := λ h, mem_of (rh_heap h).

Section rheap.
Context {C R : Type} (p_ops : pmem_ops) (layout sizep : Z).
Local Abbreviation MR A := (M (rheap C R) A).

Definition on_heap {A} (f : M (heap C) A) : MR A := λ h,
  let '(r, k) := f (rh_heap h) in (r, RHeap k (rh_arenas h) (rh_thread_arena h) (rh_next h) (rh_malloc h)).
Definition set_arenas (l : list (arena R)) : MR unit :=
  modify (λ h, RHeap (rh_heap h) l (rh_thread_arena h) (rh_next h) (rh_malloc h)).
(** The outcome of an allocation. *)
Definition malloc_ok : MR bool := λ h,
  match rh_malloc h with
  | [] => (Ok true, h)
  | b :: l => (Ok b, RHeap (rh_heap h) (rh_arenas h) (rh_thread_arena h) (rh_next h) l)
  end.
(** A new address. *)
Definition fresh : MR Z := λ h, (Ok (rh_next h), RHeap (rh_heap h) (rh_arenas h) (rh_thread_arena h) (rh_next h + 1) (rh_malloc h)).

(** ** Arenas *)

Definition heap_arena_init : arena R := Arena ∅ 0.

(** The least used of the arenas from [i] on, and how many threads it has. *)
Fixpoint least_used_loop (l : list (arena R)) (i : nat) (least : option (nat * Z)) : option (nat * Z) :=
  match l with
  | [] => least
  | a :: l =>
      least_used_loop l (S i)
        (match least with
         | Some (_, n) => if ar_nthreads a <? n then Some (i, ar_nthreads a) else least
         | None => Some (i, ar_nthreads a)
         end)
  end.
Definition heap_thread_arena_assign : MR nat :=
  h ← gets id;
  match least_used_loop (rh_arenas h) 0 None with
  | None => undef
  | Some (i, n) =>
      modify (λ h, RHeap (rh_heap h) (alter (λ a, Arena (ar_buckets a) (u64 (n + 1))) i (rh_arenas h)) (Some i) (rh_next h) (rh_malloc h));;
      mret i
  end.
Definition heap_thread_arena : MR nat :=
  h ← gets id;
  match rh_thread_arena h with Some a => mret a | None => heap_thread_arena_assign end.
(** When the thread ends. *)
Definition heap_thread_arena_destructor (i : nat) : MR unit :=
  modify (λ h, RHeap (rh_heap h) (alter (λ a, Arena (ar_buckets a) (u64 (ar_nthreads a - 1))) i (rh_arenas h)) (rh_thread_arena h) (rh_next h) (rh_malloc h)).

(** ** Buckets *)

(** A bucket is the default one, or one of an arena. *)
Inductive bucket_ref : Type := DefaultBucket | ArenaBucket (a : nat) (class_id : Z).

Definition heap_bucket_acquire_by_id (class_id : Z) : MR bucket_ref :=
  if class_id =? DEFAULT_ALLOC_CLASS_ID then mret DefaultBucket
  else a ← heap_thread_arena; mret (ArenaBucket a class_id).

Definition get_rb (a : nat) (id : Z) : MR (run_bucket R) := λ h,
  match rh_arenas h !! a ≫= λ x, ar_buckets x !! id with
  | Some b => if rk_live b then (Ok b, h) else (Undef, h)
  | None => (Undef, h)
  end.
Definition put_rb (a : nat) (id : Z) (b : run_bucket R) : MR unit := λ h,
  (Ok tt, RHeap (rh_heap h) (alter (λ x, Arena (<[id := b]> (ar_buckets x)) (ar_nthreads x)) a (rh_arenas h)) (rh_thread_arena h) (rh_next h) (rh_malloc h)).
Definition on_rb {A} (a : nat) (id : Z) (f : M (bucket R) A) : MR A := λ h,
  match get_rb a id h with
  | (Ok b, _) =>
      let '(r, k) := f (rk_bucket b) in
      (r, (put_rb a id (RunBucket k (rk_aclass b) (rk_resv b) (rk_live b)) h).2)
  | _ => (Undef, h)
  end.
Definition rb_class (a : nat) (id : Z) : MR alloc_class :=
  b ← get_rb a id; on_heap (on_classes (class_at (rk_aclass b))).

Definition set_active (m : option memory_block_reserved) (on : bool) : M (bucket R) unit :=
  modify (λ b, Bucket (bk_aclass b) (bk_container b) (bk_c_ops b) m on).

(** [active_memory_block->m = *m; is_active = 1] *)
Definition activate (a : nat) (id : Z) (m : memory_block) : MR unit :=
  on_rb a id (b ← gets (λ b, b);
    match bk_active_memory_block b with
    | None => undef
    | Some mr => set_active (Some (MemoryBlockReserved m (mr_nresv mr))) true
    end).

(** ** Filling a bucket of runs *)

(** 0, or an error. *)
Definition heap_memblock_insert_block (a : nat) (id : Z) (m : memory_block) : MR Z :=
  r ← attempt (on_rb a id (bucket_insert_block m)); mret (match r with Some _ => 0 | None => 1 end).

(** The run, [None] for -1. *)
Definition heap_run_create (a : nat) (id : Z) (m : memory_block) : MR (option memory_block) :=
  c ← rb_class a id;
  r ← on_heap (on_classes (class_run c));
  m ← on_heap (on_hpm (memblock_run_init p_ops layout (chunk_id m) (zone_id m) (size_idx m) (ac_flags c) (ac_unit_size c) (rc_alignment r)));
  ret ← mop_iterate_free layout (heap_memblock_insert_block a id) m;
  if negb (ret =? 0) then on_rb a id (on_container bc_rm_all);; mret None
  else mret (Some m).

(** [true] for 0. *)
Definition heap_run_reuse (a : nat) (id : Z) (m : memory_block) : MR bool :=
  if decide (mb_type m = MEMORY_BLOCK_RUN) then
    ret ← mop_iterate_free layout (heap_memblock_insert_block a id) m;
    if ret =? 0 then activate a id m;; mret true
    else on_rb a id (on_container bc_rm_all);; mret false
  else undef.

(** [locked]: which recyclers are in use elsewhere. *)
Context (util_pool_extend : Z → M pmem (option Z)) (locked : Z → bool) (growsize : Z).

Definition heap_reuse_from_recycler (a : nat) (id units : Z) (force : bool) : MR bool :=
  c ← rb_class a id;
  let get : MR (option memory_block) := attempt (on_heap (on_recycler (ac_id c) (λ x, recycler_get layout x (request units)))) in
  m ← (if force then mret None else get);
  match m with
  | Some m => heap_run_reuse a id m
  | None =>
      on_heap (heap_recycle_unused p_ops layout (locked (ac_id c)) (ac_id c) force);;
      m ← get;
      match m with
      | Some m => heap_run_reuse a id m
      | None => mret false
      end
  end.

(** Gets rid of the active block of the bucket. *)
Definition drop_active (a : nat) (id : Z) : MR unit :=
  b ← get_rb a id;
  if negb (bk_is_active (rk_bucket b)) then mret tt
  else
    on_rb a id (on_container bc_rm_all);;
    match bk_active_memory_block (rk_bucket b) with
    | None => undef
    | Some mr =>
        (if negb (mr_nresv mr =? 0) then
           c ← rb_class a id;
           ok ← malloc_ok;
           on_heap (on_recycler (ac_id c) (λ _, recycler_pending_put ok (rk_resv b) mr));;
           ok ← malloc_ok;
           p ← fresh;
           on_rb a id (set_active (if (ok : bool) then Some (MemoryBlockReserved (request 0) 0) else None) true);;
           k ← get_rb a id;
           put_rb a id (RunBucket (rk_bucket k) (rk_aclass k) (if (ok : bool) then p else 0) (rk_live k))
         else
           r ← on_heap (heap_reclaim_run layout (mr_m mr));
           if (r : bool) then on_heap (heap_run_into_free_chunk p_ops layout (mr_m mr));; mret tt else mret tt);;
        on_rb a id (k ← gets (λ b, b); set_active (bk_active_memory_block k) false)
    end.

(** The default bucket's class gives the header type of its blocks. *)
Definition default_header : MR header_type :=
  p ← on_heap (on_classes (alloc_class_by_id DEFAULT_ALLOC_CLASS_ID)); c ← on_heap (on_classes (class_at p)); mret (ac_header_type c).
(** [fuel]: for the requests to the default bucket. *)
Definition heap_ensure_run_bucket_filled (fuel : nat) (a : nat) (id units : Z) : MR bool :=
  c ← rb_class a id;
  if negb (bool_decide (ac_type c = CLASS_RUN)) then undef
  else
    drop_active a id;;
    r ← heap_reuse_from_recycler a id units false;
    if (r : bool) then mret true
    else
      on_heap (heap_populate_bucket p_ops layout sizep);;
      r ← heap_reuse_from_recycler a id units false;
      if (r : bool) then mret true
      else
        rc ← on_heap (on_classes (class_run c));
        t ← default_header;
        m ← attempt (on_heap (heap_get_bestfit_huge p_ops layout sizep util_pool_extend locked growsize fuel t (request (rc_size_idx rc))));
        match m with
        | Some m =>
            if negb (block_off m =? 0) then undef
            else
              r ← heap_run_create a id m;
              match r with
              | None => mret false
              | Some m => activate a id m;; mret true
              end
        | None => heap_reuse_from_recycler a id units false
        end.

(** ** Requests *)

(** The first units of a block of a run; the rest goes to the bucket. *)
Definition heap_split_run (a : nat) (id : Z) (m : memory_block) (units : Z) : MR memory_block :=
  if negb ((units <=? 2 ^ 16 - 1) && (0 <? units)) then undef
  else if negb (block_off m + units <=? 2 ^ 32 - 1) then undef
  else
    r ← look (memblock_rebuild_state layout (MemoryBlock (chunk_id m) (zone_id m) (u32 (size_idx m - units)) (u32 (block_off m + units)) HEADER_LEGACY MEMORY_BLOCK_HUGE));
    attempt (on_rb a id (bucket_insert_block r));;
    mret (set_size_idx units m).

Fixpoint bestfit_run_loop (fuel : nat) (a : nat) (id : Z) (m : memory_block) : MR (option memory_block) :=
  r ← attempt (on_rb a id (on_container (λ ops, bc_get_rm_bestfit ops m)));
  match r with
  | Some b => mret (Some b)
  | None =>
      match fuel with
      | O => undef
      | S fuel =>
          ok ← heap_ensure_run_bucket_filled fuel a id (size_idx m);
          if (ok : bool) then bestfit_run_loop fuel a id m else mret None
      end
  end.
Definition heap_get_bestfit_run (fuel : nat) (a : nat) (id : Z) (m : memory_block) : MR memory_block :=
  c ← rb_class a id;
  r ← bestfit_run_loop fuel a id m;
  match r with
  | None => fail ENOMEM
  | Some b =>
      if negb (size_idx m <=? size_idx b) then undef
      else
        b ← (if size_idx m =? size_idx b then mret b else heap_split_run a id b (size_idx m));
        on_heap (on_hpm (mop_ensure_header_type p_ops layout b (ac_header_type c)));;
        mret (set_state (ac_header_type c) (mb_type b) b)
  end.
Definition heap_get_bestfit_block (fuel : nat) (b : bucket_ref) (m : memory_block) : MR memory_block :=
  match b with
  | DefaultBucket => t ← default_header; on_heap (heap_get_bestfit_huge p_ops layout sizep util_pool_extend locked growsize fuel t m)
  | ArenaBucket a id => heap_get_bestfit_run fuel a id m
  end.
End rheap.

(** ** Start and end *)

(** [cpus]: the result of [sysconf]. *)
Definition heap_get_narenas (cpus : Z) : Z := u32 (if cpus <? 1 then 1 else cpus).

Section boot.
Context {C R : Type} (p_ops : pmem_ops) (layout sizep : Z).
Local Abbreviation MR A := (M (rheap C R) A).

(** [container_new_seglists] and [container_new_ravl], given the outcome of their allocation. *)
Context (new_run : bool → option (R * block_container_ops R)) (new_default : bool → option (C * block_container_ops C)).

(** Deletes the bucket of a class in an arena; its memory must not be used any more. *)
Definition delete_rb (a : nat) (id : Z) : MR unit :=
  on_rb a id bucket_delete;;
  b ← get_rb a id;
  put_rb a id (RunBucket (rk_bucket b) (rk_aclass b) (rk_resv b) false).
(** The buckets of the arenas [n - 1] to 0. *)
Fixpoint delete_buckets_loop (n : nat) (id : Z) : MR unit :=
  match n with
  | O => mret tt
  | S n => delete_rb n id;; delete_buckets_loop n id
  end.
(** The classes from [id] on; a bucket that is [NULL] is not in the map. *)
Fixpoint arena_destroy_loop (n : nat) (a : nat) (id : Z) : MR unit :=
  match n with
  | O => mret tt
  | S n =>
      h ← gets (λ h, h);
      (match rh_arenas h !! a ≫= λ x, ar_buckets x !! id with
       | Some _ => delete_rb a id
       | None => mret tt
       end);;
      arena_destroy_loop n a (id + 1)
  end.
Definition heap_arena_destroy (a : nat) : MR unit := arena_destroy_loop (Z.to_nat MAX_ALLOCATION_CLASSES) a 0.

(** A new bucket for a run class: the container, the bucket and its active block are allocated; [None] for [NULL]. *)
Definition new_rb (p : Z) (c : alloc_class) : MR (option (run_bucket R)) :=
  ok1 ← malloc_ok;
  ok2 ← malloc_ok;
  ok3 ← malloc_ok;
  match bucket_new (new_run ok1) (Some (ac_type c)) ok2 ok3 with
  | None => mret None
  | Some b =>
      r ← fresh;
      mret (Some (RunBucket b p (if bk_active_memory_block b then r else 0) true))
  end.

(** The arenas from [i] on; the arena for which there was no memory. *)
Fixpoint create_buckets_loop (n : nat) (i : nat) (p : Z) (c : alloc_class) : MR (option nat) :=
  match n with
  | O => mret None
  | S n =>
      b ← new_rb p c;
      match b with
      | None => mret (Some i)
      | Some b => put_rb i (ac_id c) b;; create_buckets_loop n (S i) p c
      end
  end.

Definition put_recycler (id : Z) (r : recycler) : M (heap C) unit :=
  modify (λ h, Heap (h_pm h) (h_default_bucket h) (h_alloc_classes h) (<[id := r]> (h_recyclers h)) (h_nzones h) (h_zones_exhausted h)).

(** [p]: the address of the class.  [true] for 0.  A recycler that was deleted stays in the table. *)
Definition heap_create_alloc_class_buckets (p : Z) : MR bool :=
  c ← on_heap (on_classes (class_at p));
  ok ← (if decide (ac_type c = CLASS_RUN) then
          r ← on_heap (on_classes (class_run c));
          ok1 ← malloc_ok;
          ok2 ← malloc_ok;
          match recycler_new (rc_nallocs r) [ok1; ok2] with
          | None => mret false
          | Some y => on_heap (put_recycler (ac_id c) y);; mret true
          end
        else mret true);
  if negb ok then mret false
  else
    n ← gets (λ h, length (rh_arenas h));
    r ← create_buckets_loop n 0 p c;
    match r with
    | None => mret true
    | Some i =>
        on_heap (on_recycler (ac_id c) (λ _, recycler_delete));;
        delete_buckets_loop i (ac_id c);;
        mret false
    end.

(** The classes from [i] on. *)
Fixpoint class_buckets_loop (n : nat) (i : Z) : MR bool :=
  match n with
  | O => mret true
  | S n =>
      p ← on_heap (on_classes (alloc_class_by_id i));
      ok ← (if p =? 0 then mret true else heap_create_alloc_class_buckets p);
      if (ok : bool) then class_buckets_loop n (i + 1) else mret false
  end.
Fixpoint destroy_arenas (n : nat) (a : nat) : MR unit :=
  match n with
  | O => mret tt
  | S n => heap_arena_destroy a;; destroy_arenas n (S a)
  end.
Definition set_default_bucket (b : bucket C) : M (heap C) unit :=
  modify (λ h, Heap (h_pm h) b (h_alloc_classes h) (h_recyclers h) (h_nzones h) (h_zones_exhausted h)).
Definition heap_buckets_init : MR bool :=
  ok ← class_buckets_loop (Z.to_nat MAX_ALLOCATION_CLASSES) 0;
  ok ← (if (ok : bool) then
          ok1 ← malloc_ok;
          ok2 ← malloc_ok;
          p ← on_heap (on_classes (alloc_class_by_id DEFAULT_ALLOC_CLASS_ID));
          c ← on_heap (on_classes (class_at p));
          match bucket_new (new_default ok1) (Some (ac_type c)) ok2 true with
          | None => mret false
          | Some b => on_heap (set_default_bucket b);; mret true
          end
        else mret false);
  if (ok : bool) then mret true
  else n ← gets (λ h, length (rh_arenas h)); destroy_arenas n 0;; mret false.

(** [b0]: the default bucket, which is not initialised yet; [e0]: an environment with the outcomes of the allocations of classes.  The result: the heap, or an error. *)
Definition heap_boot (heap_size cpus : Z) (b0 : bucket C) (e0 : aenv) (malloc : list bool) : M pmem (rheap C R) :=
  old ← gets (λ p, rd64 (pm_mem p) sizep);
  (if old =? 0 then
     modify (λ p, pm_store p sizep (le_bytes 8 heap_size));;
     modify (λ p, op_persist p_ops p sizep 8 0)
   else mret tt);;
  size ← gets (λ p, rd64 (pm_mem p) sizep);
  if heap_size <? size then fail EINVAL
  else
    match malloc with
    | true :: malloc =>
        match alloc_class_collection_new e0 with
        | (Ok true, e) =>
            match malloc with
            | true :: malloc => λ p,
                let h := RHeap (Heap p b0 e ∅ (heap_max_zone heap_size) 0)
                           (repeat heap_arena_init (Z.to_nat (heap_get_narenas cpus))) None 1 malloc in
                let '(r, h) := on_heap (heap_zone_update_if_needed p_ops layout sizep) h in
                (match r with Ok _ => Ok h | Fail e => Fail e | Undef => Undef end, h_pm (rh_heap h))
            | _ => match alloc_class_collection_delete e with (Ok _, _) => fail ENOMEM | _ => undef end
            end
        | (Ok false, _) => fail ENOMEM
        | _ => undef
        end
    | _ => fail ENOMEM
    end.

(** The recyclers of the classes from [id] on. *)
Fixpoint delete_recyclers_loop (n : nat) (id : Z) : MR unit :=
  match n with
  | O => mret tt
  | S n =>
      y ← gets (λ h, h_recyclers (rh_heap h) !! id);
      (match y with None => mret tt | Some _ => on_heap (on_recycler id (λ _, recycler_delete)) end);;
      delete_recyclers_loop n (id + 1)
  end.
Definition heap_cleanup : MR unit :=
  on_heap (on_classes alloc_class_collection_delete);;
  on_heap (on_default bucket_delete);;
  n ← gets (λ h, length (rh_arenas h));
  destroy_arenas n 0;;
  set_arenas [];;
  delete_recyclers_loop (Z.to_nat MAX_ALLOCATION_CLASSES) 0.
End boot.
