(* ===== verification/HeapRunTheorems.v ===== *)
(** * libpmemobj: theorems on the buckets of runs

    A bucket of an arena has free units of the run it works on, each once: filling it from a run establishes that, and serving a
    request takes units that nobody else gets. *)

From stdpp Require Import base gmap list numbers sorting.
From S2P Require Import Prelude Memory Pmem Util Ulog UlogSpec UlogEntry Container ContainerSeglists Ravl ContainerRavl Bucket Memops Memblock MemblockFree MemblockRun.
From S2P Require Import MemopsExample MemblockAlloc AllocClass Recycler Heap HeapExample HeapRun.
From stdpp Require Import list.
Local Open Scope Z_scope.

(** ** The state *)

Section state.
Context {C R : Type}.
Implicit Types (s : rheap C R) (rb : run_bucket R).

Definition upd_rb (a : nat) (id : Z) rb s : rheap C R := (put_rb a id rb s).2.
Definition with_bucket (bk : bucket R) rb : run_bucket R := RunBucket bk (rk_aclass rb) (rk_resv rb) (rk_live rb).

(** The bucket of a class in an arena. *)
Definition rb_at (a : nat) (id : Z) s rb : Prop := get_rb a id s = (Ok rb, s).

Lemma rb_at_live a id s rb : rb_at a id s rb → rk_live rb = true.
Proof. unfold rb_at, get_rb. case_match; [|done]. destruct (rk_live r) eqn:E; [|done]. by intros [= <-]. Qed.

Lemma rb_at_upd a id s rb rb' : rb_at a id s rb → rk_live rb' = true → rb_at a id (upd_rb a id rb' s) rb'.
Proof.
  unfold rb_at, get_rb, upd_rb, put_rb. intros H Hl. cbn [snd rh_arenas].
  destruct (rh_arenas s !! a) as [x|] eqn:E; cbn in H; [|done]. rewrite list_lookup_alter, decide_True, E by done. cbn. by rewrite lookup_insert_eq, Hl.
Qed.

Lemma upd_upd a id s rb rb' : upd_rb a id rb' (upd_rb a id rb s) = upd_rb a id rb' s.
Proof.
  unfold upd_rb, put_rb. cbn [snd rh_heap rh_arenas rh_thread_arena rh_next rh_malloc]. f_equal. rewrite list_alter_alter_eq.
  apply list_alter_ext; [|done]. intros [bs n] _. cbn. by rewrite insert_insert_eq.
Qed.

Lemma upd_same a id s rb : rb_at a id s rb → upd_rb a id rb s = s.
Proof.
  unfold rb_at, get_rb, upd_rb, put_rb. intros H. destruct s as [k l t n ml]. cbn [snd rh_heap rh_arenas rh_thread_arena rh_next rh_malloc] in *. f_equal.
  apply list_eq. intros i. rewrite list_lookup_alter. case_decide as Hi; [subst i|done].
  destruct (l !! a) as [[bs q]|] eqn:Hx; [|done]. cbn in H. destruct (bs !! id) as [rb'|] eqn:E; [|done].
  destruct (rk_live rb'); [|done]. injection H as <-. cbn. by rewrite insert_id.
Qed.

Lemma upd_mem a id s rb : mem_of (upd_rb a id rb s) = mem_of s.
Proof. done. Qed.

Lemma on_rb_run {A} a id (f : M (bucket R) A) s rb r bk : rb_at a id s rb → f (rk_bucket rb) = (r, bk) →
  on_rb a id f s = (r, upd_rb a id (with_bucket bk rb) s).
Proof. intros H E. unfold on_rb. by rewrite H, E. Qed.

Lemma rb_class_run a id s rb c : rb_at a id s rb → ae_heap (h_alloc_classes (rh_heap s)) !! rk_aclass rb = Some c →
  rb_class a id s = (Ok c, s).
Proof.
  intros H E. unfold rb_class. erewrite bind_ok by exact H. unfold on_heap, on_classes, class_at. rewrite E. by destruct s as [[] ? ? ? ?].
Qed.
End state.

(** ** Blocks of units *)

(** The units of a block. *)
Definition block_units_of (f : memory_block) : list Z := seqZ (block_off f) (size_idx f).

(** [X]: blocks of free units of the run of [m] with the bitmap [b], no unit in two of them. *)
Record run_blocks (x : mem) (m : memory_block) (b : run_bitmap) (X : list memory_block) : Prop := {
  rk_place : Forall (λ f, chunk_id f = chunk_id m ∧ zone_id f = zone_id m ∧ mb_type f = MEMORY_BLOCK_RUN ∧ 1 ≤ size_idx f ∧ 0 ≤ block_off f ∧ block_off f mod 64 + size_idx f ≤ 64 ∧ block_off f + size_idx f ≤ 64 * rb_nvalues b) X;
  rk_free : ∀ k, k ∈ X ≫= block_units_of → bitmap_bit x (rb_values b) k = false;
  rk_apart : NoDup (X ≫= block_units_of)
}.

#[global] Instance run_blocks_perm x m b : Proper ((≡ₚ) ==> iff) (run_blocks x m b).
Proof.
  assert (∀ X X', X ≡ₚ X' → run_blocks x m b X → run_blocks x m b X') as H.
  { intros X X' HX [H1 H2 H3]. assert (X ≫= block_units_of ≡ₚ X' ≫= block_units_of) as HU by (by rewrite HX).
    split; [by rewrite <-HX|intros k; rewrite <-HU; apply H2|by rewrite <-HU]. }
  intros X X' HX. split; apply H; [done|by symmetry].
Qed.

Lemma gaps_units n f : ∀ i o, 0 ≤ o → NoDup (gaps n f i o ≫= λ g, seqZ g.1 g.2) ∧
  ∀ k, k ∈ (gaps n f i o ≫= λ g, seqZ g.1 g.2) → i - o ≤ k < i + Z.of_nat n.
Proof.
  induction n as [|n IH]; intros i o Ho; cbn [gaps].
  - destruct (Z.eqb_spec o 0); [split; [constructor|intros k Hk; by apply elem_of_nil in Hk]|].
    cbn. rewrite app_nil_r. split; [apply NoDup_seqZ|]. intros k. rewrite elem_of_seqZ. lia.
  - destruct (f i).
    + destruct (IH (i + 1) 0) as [H1 H2]; [lia|]. destruct (Z.eqb_spec o 0).
      * split; [done|]. intros k Hk. specialize (H2 k Hk). lia.
      * rewrite bind_app. replace ([(i - o, o)] ≫= (λ g, seqZ g.1 g.2)) with (seqZ (i - o) o) by (cbn; by rewrite app_nil_r). split.
        -- apply NoDup_app. split_and!; [apply NoDup_seqZ| |done]. intros k Hk Hk'. apply elem_of_seqZ in Hk. specialize (H2 k Hk'). lia.
        -- intros k [Hk|Hk]%elem_of_app; [apply elem_of_seqZ in Hk; lia|specialize (H2 k Hk); lia].
    + destruct (IH (i + 1) (o + 1)) as [H1 H2]; [lia|]. split; [done|]. intros k Hk. specialize (H2 k Hk). lia.
Qed.

Local Transparent value_gaps.
Lemma value_gaps_units v : NoDup (value_gaps v ≫= λ g, seqZ g.1 g.2) ∧ ∀ k, k ∈ (value_gaps v ≫= λ g, seqZ g.1 g.2) → 0 ≤ k < 64.
Proof.
  unfold value_gaps. destruct (gaps_units 64 (Z.testbit v) 0 0 (Z.le_refl 0)) as [H1 H2]. split; [exact H1|].
  intros k Hk. specialize (H2 k Hk). lia.
Qed.

Local Opaque value_gaps.

Lemma blocks_at_units m base l : (blocks_at m base l ≫= block_units_of) = (Z.add base) <$> (l ≫= λ g, seqZ g.1 g.2).
Proof.
  induction l as [|g l IH]; [done|]. cbn [blocks_at fmap list_fmap mbind list_bind]. fold (blocks_at m base l). rewrite fmap_app, <-IH. f_equal.
  unfold block_units_of. cbn [block_off size_idx set_block]. rewrite Z.add_comm. unfold seqZ. rewrite <-list_fmap_compose. apply list_fmap_ext. intros ? i _. cbn. lia.
Qed.

Lemma free_blocks_units x m a n : ∀ i, NoDup (free_blocks x m a n i ≫= block_units_of) ∧
  ∀ k, k ∈ (free_blocks x m a n i ≫= block_units_of) → 64 * i ≤ k < 64 * (i + Z.of_nat n).
Proof.
  induction n as [|n IH]; intros i; cbn [free_blocks]; [split; [constructor|intros k Hk; by apply elem_of_nil in Hk]|].
  destruct (IH (i + 1)) as [H1 H2]. unfold RUN_BITS_PER_VALUE. rewrite bind_app, blocks_at_units.
  set (v := rd64 x (a + 8 * i)). destruct (value_gaps_units v) as [G1 G2]. clearbody v. split.
  - apply NoDup_app. split_and!; [apply NoDup_fmap_2; [intros ? ? ?; lia|done]| |done].
    intros k Hk Hk'. apply list_elem_of_fmap in Hk as (j & -> & Hj). specialize (G2 j Hj). specialize (H2 _ Hk'). lia.
  - intros k [Hk|Hk]%elem_of_app; [apply list_elem_of_fmap in Hk as (j & -> & Hj); specialize (G2 j Hj); lia|specialize (H2 k Hk); lia].
Qed.

(** The free blocks of a run. *)
Lemma free_blocks_run x m b : mb_type m = MEMORY_BLOCK_RUN → 0 ≤ rb_nvalues b →
  run_blocks x m b (free_blocks x m (rb_values b) (Z.to_nat (rb_nvalues b)) 0).
Proof.
  intros Ht Hn. destruct (free_blocks_units x m (rb_values b) (Z.to_nat (rb_nvalues b)) 0) as [H1 H2]. split; [|..|done].
  - apply Forall_forall. intros f Hf. destruct (free_blocks_in _ _ _ _ _ _ (Z.le_refl 0) Hf) as (j & g & Hj & Hg & ->).
    destruct (free_blocks_size _ _ _ _ _ Hf) as (S1 & S2 & S3 & S4). destruct (value_gaps_maximal _ _ Hg) as (G1 & G2 & G3 & _). cbn in *. split_and!; try done; lia.
  - intros k Hk. pose proof (H2 k Hk) as Hr. apply list_elem_of_bind in Hk as (f & Hk & Hf). unfold block_units_of in Hk. apply elem_of_seqZ in Hk.
    apply (free_blocks_bits x m (rb_values b) (Z.to_nat (rb_nvalues b)) k); [lia|]. by exists f.
Qed.

(** ** Filling *)

Section fill.
Context {C R : Type} (ops : block_container_ops R) `{!BlockContainer ops} (layout : Z).
Implicit Types (s : rheap C R) (rb : run_bucket R).

Lemma insert_block_mem a id m s : mem_of (heap_memblock_insert_block (C := C) a id m s).2 = mem_of s.
Proof.
  unfold heap_memblock_insert_block, mbind, M_bind, attempt, on_rb, get_rb. repeat case_match; simplify_eq; done.
Qed.

Lemma insert_block_run a id m s rb r bk : rb_at a id s rb → bucket_insert_block m (rk_bucket rb) = (r, bk) → r ≠ Undef →
  heap_memblock_insert_block a id m s = (Ok (match r with Ok _ => 0 | _ => 1 end), upd_rb a id (with_bucket bk rb) s).
Proof.
  intros Hrb E Hr. unfold heap_memblock_insert_block, mbind, M_bind, attempt. rewrite (on_rb_run _ _ _ _ _ _ _ Hrb E). by destruct r.
Qed.

(** Inserting blocks one after the other, as long as there is memory. *)
Lemma insert_all_run a id ms : ∀ s rb X, rb_at a id s rb → bucket_holds ops (rk_bucket rb) X →
  run_allowed ops (rk_bucket rb) (BInsert <$> ms) →
  ∃ ret bk, call_all (heap_memblock_insert_block a id) ms s = (Ok ret, upd_rb a id (with_bucket bk rb) s) ∧
    bk_active_memory_block bk = bk_active_memory_block (rk_bucket rb) ∧
    ((ret = 0 ∧ bucket_holds ops bk (rev ms ++ X)) ∨ (ret ≠ 0 ∧ ∃ Y, bucket_holds ops bk Y)).
Proof using Type*.
  induction ms as [|m ms IH]; intros s rb X Hrb Hh Ha; cbn [call_all fmap list_fmap run_allowed] in *.
  - exists 0, (rk_bucket rb). split; [|split; [done|left; done]]. f_equal. replace (with_bucket (rk_bucket rb) rb) with rb by (by destruct rb). by rewrite upd_same.
  - destruct Ha as [Ha Hr]. destruct Hh as [Eo Hh]. cbn [op_allowed] in Ha.
    destruct (insert_ok _ _ m Hh Ha) as (r & c & E & H). set (bk := Bucket (bk_aclass (rk_bucket rb)) c ops (bk_active_memory_block (rk_bucket rb)) (bk_is_active (rk_bucket rb))).
    assert (bucket_insert_block m (rk_bucket rb) = (r, bk)) as Ei by (apply (on_container_run ops (λ ops, bc_insert ops m)); [done|exact E]).
    destruct H as [[-> H]|[[e ->] H]]; (erewrite bind_ok by (apply (insert_block_run _ _ _ _ _ _ _ Hrb Ei); done)).
    + cbn [negb Z.eqb]. destruct (IH (upd_rb a id (with_bucket bk rb) s) (with_bucket bk rb) (m :: X)) as (ret & bk' & E' & Hact & H').
      * apply (rb_at_upd _ _ _ _ _ Hrb). exact (rb_at_live _ _ _ _ Hrb).
      * by split.
      * cbn [bucket_do] in Hr. by rewrite Ei in Hr.
      * exists ret, bk'. split; [rewrite E', upd_upd; done|]. split; [exact Hact|]. cbn [rev]. rewrite <-app_assoc. exact H'.
    + exists 1, bk. split; [done|]. split; [done|]. right. split; [done|]. exists X. by split.
Qed.

(** The bucket after a run was taken into it. *)
Record filled s s' rb (a : nat) (id : Z) (m : memory_block) (b : run_bitmap) (X : list memory_block) : Prop := {
  fl_bucket : ∃ rb', rb_at a id s' rb' ∧ bucket_holds ops (rk_bucket rb') X ∧ rk_aclass rb' = rk_aclass rb ∧ rk_resv rb' = rk_resv rb ∧
    bk_active_memory_block (rk_bucket rb') = (λ mr, MemoryBlockReserved m (mr_nresv mr)) <$> bk_active_memory_block (rk_bucket rb) ∧ bk_is_active (rk_bucket rb') = true;
  fl_blocks : run_blocks (mem_of s) m b X;
  fl_all k : 0 ≤ k < 64 * rb_nvalues b → bitmap_bit (mem_of s) (rb_values b) k = false → k ∈ X ≫= block_units_of
}.

Lemma reuse_fills s rb a id m b mr : rb_at a id s rb → bucket_holds ops (rk_bucket rb) [] → bk_active_memory_block (rk_bucket rb) = Some mr →
  mb_type m = MEMORY_BLOCK_RUN → rebuilt layout m s → bitmap_at layout (mem_of s) m b → 0 ≤ rb_nvalues b < 2 ^ 26 →
  run_allowed ops (rk_bucket rb) (BInsert <$> free_blocks (mem_of s) m (rb_values b) (Z.to_nat (rb_nvalues b)) 0) →
  ∃ ok s', heap_run_reuse layout a id m s = (Ok ok, s') ∧ mem_of s' = mem_of s ∧
    (ok = true → ∃ X, filled s s' rb a id m b X) ∧
    (ok = false → ∃ rb', rb_at a id s' rb' ∧ bucket_holds ops (rk_bucket rb') []).
Proof using Type*.
  intros Hrb Hh Hmr Ht Hre Hbm Hn Ha. set (fb := free_blocks _ _ _ _ _) in *.
  destruct (insert_all_run a id fb s rb [] Hrb Hh Ha) as (ret & bk & E & Emr & Hret). rewrite app_nil_r in Hret. rewrite Hmr in Emr.
  pose proof (rb_at_live _ _ _ _ Hrb) as Hlive. set (rb1 := with_bucket bk rb). assert (rb_at a id (upd_rb a id rb1 s) rb1) as Hrb1 by (by apply (rb_at_upd _ _ _ rb)).
  assert (mop_iterate_free layout (heap_memblock_insert_block a id) m s = (Ok ret, upd_rb a id rb1 s)) as Ei.
  { unfold mop_iterate_free. rewrite Ht, (run_iterate_free_spec _ layout m (insert_block_mem a id) b s Hre Hbm) by lia. exact E. }
  unfold heap_run_reuse. rewrite decide_True by done. erewrite bind_ok by exact Ei. destruct Hret as [[-> HX]|[Hne (Y & HY)]].
  - change (0 =? 0) with true. cbv iota. set (bk2 := Bucket (bk_aclass bk) (bk_container bk) (bk_c_ops bk) (Some (MemoryBlockReserved m (mr_nresv mr))) true).
    assert (activate a id m (upd_rb a id rb1 s) = (Ok tt, upd_rb a id (with_bucket bk2 rb) s)) as Eact.
    { unfold activate. rewrite (on_rb_run _ _ _ _ _ (Ok tt) bk2 Hrb1); [by rewrite upd_upd|]. cbn [rk_bucket rb1 with_bucket]. erewrite bind_ok by reflexivity. by rewrite Emr. }
    erewrite bind_ok by exact Eact. exists true. eexists. split; [reflexivity|]. split; [done|]. split; [|done]. intros _. exists (rev fb). split.
    + exists (with_bucket bk2 rb). split; [by apply (rb_at_upd _ _ _ rb)|]. split; [by destruct HX|]. cbn. by rewrite Hmr.
    + rewrite <-Permutation_rev. apply free_blocks_run; [done|lia].
    + intros k Hk Hbit. rewrite <-Permutation_rev. apply (free_blocks_bits _ m _ (Z.to_nat (rb_nvalues b))) in Hbit as (f & Hf & Hin); [|lia].
      apply list_elem_of_bind. exists f. split; [|done]. unfold block_units_of. apply elem_of_seqZ. lia.
  - rewrite (proj2 (Z.eqb_neq _ _)) by done. destruct HY as [Eo HY]. destruct (rm_all_ok _ _ HY) as (c & Ec & Hc).
    pose proof (on_container_run ops bc_rm_all bk _ _ Eo Ec) as Er. erewrite bind_ok by exact (on_rb_run _ _ _ _ _ _ _ Hrb1 Er).
    exists false. eexists. split; [reflexivity|]. split; [done|]. split; [done|]. intros _. eexists. split; [apply (rb_at_upd _ _ _ rb1 _ Hrb1); done|]. by split.
Qed.
End fill.

(** ** Serving a request *)

Section serve.
Context {C R : Type} (ops : block_container_ops R) `{!BlockContainer ops} (o : pmem_ops) (layout sizep : Z).
Context (extend : Z → M pmem (option Z)) (locked : Z → bool) (grow : Z).
Implicit Types (s : rheap C R) (rb : run_bucket R).

(** Cutting a block of units. *)
Definition unit_rest (t : header_type) (f : memory_block) (n : Z) : memory_block :=
  MemoryBlock (chunk_id f) (zone_id f) (size_idx f - n) (block_off f + n) t MEMORY_BLOCK_RUN.

Lemma run_blocks_cons x m b f X : run_blocks x m b (f :: X) → run_blocks x m b X.
Proof.
  intros [H1 H2 H3]. cbn [mbind list_bind] in *. apply Forall_cons_1 in H1 as [_ H1]. apply NoDup_app in H3 as (_ & _ & H3).
  split; [done| |done]. intros k Hk. apply H2. apply elem_of_app. by right.
Qed.

Lemma run_blocks_cut x m b f X n t t' : run_blocks x m b (f :: X) → 0 < n < size_idx f →
  run_blocks x m b (set_state t MEMORY_BLOCK_RUN (set_size_idx n f) :: unit_rest t' f n :: X).
Proof.
  intros [H1 H2 H3] Hn. apply Forall_cons_1 in H1 as [(P1 & P2 & P3 & P4 & P5 & P6 & P7) H1].
  assert (block_units_of (set_state t MEMORY_BLOCK_RUN (set_size_idx n f)) ++ block_units_of (unit_rest t' f n) = block_units_of f) as EU.
  { unfold block_units_of. cbn [block_off size_idx set_state set_size_idx unit_rest].
    replace (size_idx f) with (n + (size_idx f - n)) at 2 by lia. by rewrite seqZ_app by lia. }
  assert ((set_state t MEMORY_BLOCK_RUN (set_size_idx n f) :: unit_rest t' f n :: X) ≫= block_units_of = (f :: X) ≫= block_units_of) as EB.
  { cbn [mbind list_bind]. rewrite <-EU. by rewrite <-app_assoc. }
  split; [|by rewrite EB..]. pose proof (Z.mod_pos_bound (block_off f) 64 ltac:(lia)).
  assert ((block_off f + n) mod 64 = block_off f mod 64 + n) as Em.
  { symmetry. apply (Z.mod_unique _ _ (block_off f / 64)); [lia|]. pose proof (Z.div_mod (block_off f) 64 ltac:(lia)). lia. }
  constructor; [|constructor; [|done]]; cbn; rewrite ?Em; split_and!; (done || lia).
Qed.

Lemma rebuild_rest x m f fl n k : hdr_is x (heap_get_chunk_hdr layout m) CHUNK_TYPE_RUN fl k → chunk_id f = chunk_id m → zone_id f = zone_id m → 
  0 < n < size_idx f → 0 ≤ block_off f → block_off f + size_idx f < 2 ^ 32 →
  memblock_rebuild_state layout (MemoryBlock (chunk_id f) (zone_id f) (u32 (size_idx f - n)) (u32 (block_off f + n)) HEADER_LEGACY MEMORY_BLOCK_HUGE) x
    = (Ok (unit_rest (flags_header fl) f n), x).
Proof.
  intros Hh Hc Hz Hn Ho Hs. rewrite !u32_id by lia.
  rewrite (rebuild_run layout _ x CHUNK_TYPE_RUN fl k); [done| |by left]. unfold heap_get_chunk_hdr in *. cbn. by rewrite Hc, Hz.
Qed.

Lemma ensure_run x p m f fl k t : pm_mem p = x → hdr_is x (heap_get_chunk_hdr layout m) CHUNK_TYPE_RUN fl k → Z.land fl (header_type_to_flag t) = header_type_to_flag t →
  chunk_id f = chunk_id m → zone_id f = zone_id m → mb_type f = MEMORY_BLOCK_RUN → mop_ensure_header_type o layout f t p = (Ok tt, p).
Proof.
  intros <- [E1 E2 _] Hfl Hc Hz Ht. unfold mop_ensure_header_type. rewrite Ht. unfold run_ensure_header_type, heap_get_chunk_hdr in *. rewrite Hc, Hz.
  erewrite bind_ok by reflexivity. rewrite E1, E2, Hfl, !Z.eqb_refl. done.
Qed.

(** What the thread gets: [blk], the first [n] units of the block [b0] of the bucket. *)
Record unit_served s s' rb (a : nat) (id : Z) (m : memory_block) (b : run_bitmap) (X : list memory_block) (n : Z) (t : header_type) (b0 blk : memory_block) (X' : list memory_block) : Prop := {
  us_block : chunk_id blk = chunk_id m ∧ zone_id blk = zone_id m ∧ size_idx blk = n ∧ block_off blk = block_off b0 ∧ mb_header_type blk = t;
  us_rest : ∃ X0 t', X ≡ₚ b0 :: X0 ∧ (X' = X0 ∨ X' = unit_rest t' b0 n :: X0);
  us_blocks : run_blocks (mem_of s') m b (blk :: X');
  us_bucket : ∃ rb', rb_at a id s' rb' ∧ bucket_holds ops (rk_bucket rb') X' ∧
    bk_active_memory_block (rk_bucket rb') = bk_active_memory_block (rk_bucket rb) ∧ rk_resv rb' = rk_resv rb;
  us_mem : mem_of s' = mem_of s
}.

Lemma on_hpm_same {A} (f : M pmem A) s r : f (h_pm (rh_heap s)) = (r, h_pm (rh_heap s)) → on_heap (R := R) (on_hpm f) s = (r, s).
Proof. intros E. unfold on_heap, on_hpm. rewrite E. by destruct s as [[] ? ? ? ?]. Qed.

Lemma serve_run fuel s rb a id c m b fl k X n : rb_at a id s rb → ae_heap (h_alloc_classes (rh_heap s)) !! rk_aclass rb = Some c →
  bucket_holds ops (rk_bucket rb) X → run_blocks (mem_of s) m b X → 0 ≤ rb_nvalues b < 2 ^ 26 →
  hdr_is (mem_of s) (heap_get_chunk_hdr layout m) CHUNK_TYPE_RUN fl k → Z.land fl (header_type_to_flag (ac_header_type c)) = header_type_to_flag (ac_header_type c) →
  0 < n ≤ max_request → (∃ f, f ∈ X ∧ n ≤ size_idx f) →
  (∀ f q, bc_get_rm_bestfit ops (request n) (bk_container (rk_bucket rb)) = (Ok f, q) → n < size_idx f → can_insert q (unit_rest (flags_header fl) f n)) →
  ∃ b0 blk s' X', heap_get_bestfit_run o layout sizep extend locked grow fuel a id (request n) s = (Ok blk, s') ∧ best_fit n X b0 ∧
    unit_served s s' rb a id m b X n (ac_header_type c) b0 blk X'.
Proof using Type*.
  intros Hrb Hcl [Eo Hh] Hrun Hnv Hhdr Hfl Hn (g & Hg & Hgn) Hi. destruct (bestfit_ok _ _ n Hh Hn) as [[HF _]|(b0 & X0 & q & E & HX & Hb & Hq)].
  { rewrite Forall_forall in HF. specialize (HF g Hg). lia. }
  set (t := ac_header_type c) in *. set (bk1 := Bucket (bk_aclass (rk_bucket rb)) q ops (bk_active_memory_block (rk_bucket rb)) (bk_is_active (rk_bucket rb))).
  set (rb1 := with_bucket bk1 rb). set (s1 := upd_rb a id rb1 s). pose proof (rb_at_live _ _ _ _ Hrb) as Hlive.
  assert (rb_at a id s1 rb1) as Hrb1 by (by apply (rb_at_upd _ _ _ rb)).
  assert (bestfit_run_loop o layout sizep extend locked grow fuel a id (request n) s = (Ok (Some b0), s1)) as El.
  { pose proof (on_container_run ops (λ ops, bc_get_rm_bestfit ops (request n)) _ _ _ Eo E) as Ec.
    destruct fuel; cbn [bestfit_run_loop]; (erewrite bind_ok by (unfold attempt; rewrite (on_rb_run _ _ _ _ _ _ _ Hrb Ec); reflexivity)); done. }
  destruct Hb as (Hb0 & Hnb & Hmin). assert (best_fit n X b0) as Hbest by done. rewrite HX in Hrun.
  pose proof (rk_place _ _ _ _ Hrun) as Hpl. apply Forall_cons_1 in Hpl as [(P1 & P2 & P3 & P4 & P5 & P6 & P7) _]. pose proof (Z.mod_pos_bound (block_off b0) 64 ltac:(lia)).
  unfold heap_get_bestfit_run. erewrite bind_ok by exact (rb_class_run _ _ _ _ _ Hrb Hcl). erewrite bind_ok by exact El. cbn [size_idx request].
  rewrite (proj2 (Z.leb_le n _)) by lia. cbn [negb]. destruct (Z.eqb_spec n (size_idx b0)) as [->|Hne].
  - erewrite bind_ok by reflexivity. erewrite bind_ok by (apply on_hpm_same, (ensure_run _ _ m _ fl k _ eq_refl Hhdr Hfl P1 P2 P3)).
    exists b0, (set_state t (mb_type b0) b0), s1, X0. split; [done|]. split; [done|]. split; [done|by exists X0, t; split; [|left]| |by exists rb1|done].
    destruct Hrun as [R1 R2 R3]. split; [|done|done]. apply Forall_cons_1 in R1 as [R1 R1']. by constructor.
  - assert (bk_c_ops bk1 = ops) as Eo1 by done. specialize (Hi b0 q E ltac:(lia)). set (r := unit_rest (flags_header fl) b0 n) in *.
    destruct (insert_ok _ _ r Hq Hi) as (ret & c' & Ei & Hins). pose proof (on_container_run ops (λ ops, bc_insert ops r) bk1 _ _ Eo1 Ei) as Ec.
    set (bk2 := Bucket (bk_aclass bk1) c' ops (bk_active_memory_block bk1) (bk_is_active bk1)) in *. set (s2 := upd_rb a id (with_bucket bk2 rb1) s1).
    assert (heap_split_run layout a id b0 n s1 = (Ok (set_size_idx n b0), s2)) as Es.
    { unfold heap_split_run. rewrite (proj2 (Z.leb_le n _)), (proj2 (Z.ltb_lt 0 n)), (proj2 (Z.leb_le (block_off b0 + n) _)) by lia. cbn [andb negb].
      erewrite bind_ok by (unfold look; change (mem_of s1) with (mem_of s); rewrite (rebuild_rest _ m b0 fl n k Hhdr P1 P2) by lia; reflexivity).
      fold r. unfold mbind, M_bind, attempt, bucket_insert_block. rewrite (on_rb_run _ _ _ _ _ _ _ Hrb1 Ec). by destruct Hins as [[-> _]|[[e ->] _]]. }
    erewrite bind_ok by exact Es. erewrite bind_ok by (apply on_hpm_same, (ensure_run (mem_of s) _ m (set_size_idx n b0) fl k _ eq_refl Hhdr Hfl P1 P2 P3)).
    assert (rb_at a id s2 (with_bucket bk2 rb1)) as Hrb2 by (by apply (rb_at_upd _ _ _ rb1)).
    pose proof (run_blocks_cut _ _ _ _ _ n t (flags_header fl) Hrun ltac:(lia)) as Hcut. fold r in Hcut.
    fold t. assert (set_state t (mb_type (set_size_idx n b0)) (set_size_idx n b0) = set_state t MEMORY_BLOCK_RUN (set_size_idx n b0)) as -> by (unfold set_state; cbn; by rewrite P3).
    destruct Hins as [[_ Hins]|[_ Hins]].
    + exists b0. eexists. exists s2, (r :: X0). split; [reflexivity|]. split; [done|]. split; [done|by exists X0, (flags_header fl); split; [|right]|done|by exists (with_bucket bk2 rb1)|done].
    + exists b0. eexists. exists s2, X0. split; [reflexivity|]. split; [done|]. split; [done|by exists X0, t; split; [|left]| |by exists (with_bucket bk2 rb1)|done].
      change (mem_of s2) with (mem_of s). eapply run_blocks_cons. by rewrite Permutation_swap.
Qed.
End serve.

(** ** Theorems *)

(** filling a bucket from a run.  [heap_run_reuse] passes the free units of a run to the empty bucket of a thread: it always
    returns, without changing the pool; if there was memory for all blocks, the bucket has exactly the free units of the run, none of
    them twice, and the run is its active block with the reservations that were counted before; otherwise the bucket is empty. *)
Theorem heap_run_reuse_fills {C R} (ops : block_container_ops R) `{!BlockContainer ops} layout (s : rheap C R) rb a id m b mr :
  rb_at a id s rb → bucket_holds ops (rk_bucket rb) [] → bk_active_memory_block (rk_bucket rb) = Some mr →
  mb_type m = MEMORY_BLOCK_RUN → rebuilt layout m s → bitmap_at layout (mem_of s) m b → 0 ≤ rb_nvalues b < 2 ^ 26 →
  run_allowed ops (rk_bucket rb) (BInsert <$> free_blocks (mem_of s) m (rb_values b) (Z.to_nat (rb_nvalues b)) 0) →
  ∃ ok s', heap_run_reuse layout a id m s = (Ok ok, s') ∧ mem_of s' = mem_of s ∧
    (ok = true → ∃ X, filled ops s s' rb a id m b X) ∧
    (ok = false → ∃ rb', rb_at a id s' rb' ∧ bucket_holds ops (rk_bucket rb') []).
Proof. apply reuse_fills. Qed.

(** C24: serving a request for units.  When the bucket of a class has a block of at least [n] units, [heap_get_bestfit_block] takes the
    smallest one, cuts it to [n] units and gives the rest back: it returns a block of [n] free units of the run, and
    together with the blocks that are left in the bucket it is again a collection of free units in which none is twice.  The pool does
    not change.  The condition is that the container can take the rest: for segregated lists the queue for its size is not full, or is full with its front at a multiple of twice the capacity; elsewhere
    [vecq_grow] loses blocks ([seglists_growth_loses] in Bucket.v) and the claim is not made. *)
Theorem heap_get_bestfit_run_serves {C R} (ops : block_container_ops R) `{!BlockContainer ops} o layout sizep extend locked grow fuel
    (s : rheap C R) rb a id c m b fl k X n :
  rb_at a id s rb → ae_heap (h_alloc_classes (rh_heap s)) !! rk_aclass rb = Some c →
  bucket_holds ops (rk_bucket rb) X → run_blocks (mem_of s) m b X → 0 ≤ rb_nvalues b < 2 ^ 26 →
  hdr_is (mem_of s) (heap_get_chunk_hdr layout m) CHUNK_TYPE_RUN fl k → Z.land fl (header_type_to_flag (ac_header_type c)) = header_type_to_flag (ac_header_type c) →
  0 < n ≤ max_request → (∃ f, f ∈ X ∧ n ≤ size_idx f) →
  (∀ f q, bc_get_rm_bestfit ops (request n) (bk_container (rk_bucket rb)) = (Ok f, q) → n < size_idx f → can_insert q (unit_rest (flags_header fl) f n)) →
  ∃ b0 blk s' X', heap_get_bestfit_run o layout sizep extend locked grow fuel a id (request n) s = (Ok blk, s') ∧ best_fit n X b0 ∧
    unit_served ops s s' rb a id m b X n (ac_header_type c) b0 blk X'.
Proof. apply serve_run. Qed.

(** ** Witnesses *)

(** A run of units of 128 bytes in chunk 5 of a heap at 4096; a class for it and a thread whose arena has its bucket. *)
Definition ex_run5 : mem := pm_mem ((memblock_huge_init clflush_ops 4096 5 0 1;; memblock_run_init clflush_ops 4096 5 0 1 1 128 0) (Pmem ∅ [])).2.
Definition ex_run5_block : memory_block := MemoryBlock 5 0 1 0 HEADER_COMPACT MEMORY_BLOCK_RUN.
Definition ex_run5_bitmap : run_bitmap := RunBitmap 32 2045 304 1840144.
Definition ex_unit_class : alloc_class := AllocClass 1 1 128 HEADER_COMPACT CLASS_RUN (Some (RunClass 1 0 2045)).
Definition ex_run_env : aenv := AEnv init_collection {[1 := ex_unit_class]} 2 [].
Definition ex_rheap (bk : bucket block_container_seglists) : rheap block_container_ravl block_container_seglists :=
  RHeap (Heap (Pmem ex_run5 []) (ex_hbucket ex_tree0) ex_run_env ∅ 1 1) [Arena {[1 := RunBucket bk 1 7 true]} 1] (Some 0%nat) 8 [].
Definition ex_rb (bk : bucket block_container_seglists) : run_bucket block_container_seglists := RunBucket bk 1 7 true.

Lemma ex_rb_at bk : rb_at 0 1 (ex_rheap bk) (ex_rb bk).
Proof. reflexivity. Qed.

Lemma ex_run5_bitmap_at : (run_get_bitmap 4096 ex_run5_block ex_run5).1 = Ok ex_run5_bitmap.
Proof. vm_compute. reflexivity. Qed.

Lemma ex_run5_read : bitmap_at 4096 ex_run5 ex_run5_block ex_run5_bitmap.
Proof.
  unfold bitmap_at. pose proof ex_run5_bitmap_at as E. revert E. unfold run_get_bitmap, mbind, M_bind, gets, mret, M_ret, fail, undef.
  by repeat case_match; intros [= ->].
Qed.

Lemma ex_run5_hdr : hdr_is ex_run5 (heap_get_chunk_hdr 4096 ex_run5_block) CHUNK_TYPE_RUN 1 1.
Proof. split; vm_compute; reflexivity. Qed.

(** All insertions are possible, as a test. *)
Fixpoint insertsb (bk : bucket block_container_seglists) (ms : list memory_block) : bool :=
  match ms with
  | [] => true
  | m :: ms => seglists_can_insertb (bk_container bk) m && insertsb (bucket_do (BInsert m) bk).2 ms
  end.
Lemma insertsb_ok ms : ∀ bk, insertsb bk ms = true → run_allowed container_seglists_ops bk (BInsert <$> ms).
Proof.
  induction ms as [|m ms IH]; intros bk H; [done|]. cbn [insertsb] in H. apply andb_true_iff in H as [H1 H2].
  split; [by apply seglists_can_insertb_ok|]. by apply IH.
Qed.

Definition ex_fill := heap_run_reuse 4096 0 1 ex_run5_block (ex_rheap ex_bucket).

Lemma heap_run_reuse_fills_witness : ∃ s' X, ex_fill = (Ok true, s') ∧
  filled container_seglists_ops (ex_rheap ex_bucket) s' (ex_rb ex_bucket) 0 1 ex_run5_block ex_run5_bitmap X.
Proof.
  destruct (heap_run_reuse_fills container_seglists_ops 4096 (ex_rheap ex_bucket) (ex_rb ex_bucket) 0 1 ex_run5_block ex_run5_bitmap
    (MemoryBlockReserved (request 0) 0)) as (ok & s' & E & _ & Ht & _).
  - exact (ex_rb_at ex_bucket).
  - split; [reflexivity|exact ex_seglists_holds].
  - reflexivity.
  - reflexivity.
  - exact (rebuild_run 4096 ex_run5_block ex_run5 CHUNK_TYPE_RUN 1 1 ex_run5_hdr (or_introl eq_refl)).
  - exact ex_run5_read.
  - vm_compute. split; congruence.
  - apply insertsb_ok. vm_compute. reflexivity.
  - assert (ex_fill.1 = Ok true) as E1 by (vm_compute; reflexivity). unfold ex_fill in *. rewrite E in E1. injection E1 as ->.
    destruct (Ht eq_refl) as (X & HX). exists s', X. rewrite E. split; [reflexivity|exact HX].
Defined.

(** A bucket with units 4 to 6 and 8 to 12; four of the five units are handed out for a request of 4. *)
Definition ex_units_bucket : bucket block_container_seglists :=
  Bucket (Some CLASS_RUN) ex_lists container_seglists_ops (Some (MemoryBlockReserved ex_run5_block 0)) true.

Lemma ex_units_blocks : run_blocks ex_run5 ex_run5_block ex_run5_bitmap [run_block 5 8; run_block 3 4].
Proof.
  split.
  - repeat constructor; vm_compute; congruence.
  - apply Forall_forall. apply (bool_decide_unpack _). vm_compute. exact I.
  - apply (bool_decide_unpack _). vm_compute. exact I.
Qed.

Definition ex_unit_served := heap_get_bestfit_run clflush_ops 4096 0 (λ _, mret None) (λ _, false) 0 0 0 1 (request 4) (ex_rheap ex_units_bucket).

Lemma heap_get_bestfit_run_serves_witness : ∃ s' X', ex_unit_served = (Ok (run_block 4 8), s') ∧
  run_blocks (mem_of s') ex_run5_block ex_run5_bitmap (run_block 4 8 :: X').
Proof.
  destruct (heap_get_bestfit_run_serves container_seglists_ops clflush_ops 4096 0 (λ _, mret None) (λ _, false) 0 0 (ex_rheap ex_units_bucket) (ex_rb ex_units_bucket)
    0 1 ex_unit_class ex_run5_block ex_run5_bitmap 1 1 [run_block 5 8; run_block 3 4] 4) as (b0 & blk & s' & X' & E & _ & Hs).
  - exact (ex_rb_at ex_units_bucket).
  - reflexivity.
  - split; [reflexivity|exact ex_lists_holds].
  - exact ex_units_blocks.
  - vm_compute. split; congruence.
  - exact ex_run5_hdr.
  - reflexivity.
  - vm_compute. split; congruence.
  - exists (run_block 5 8). split; [left|simpl; lia].
  - intros f q E _. set (t := bc_get_rm_bestfit container_seglists_ops (request 4) ex_lists).
    assert (t.1 = Ok (run_block 5 8)) as E1 by (vm_compute; reflexivity).
    assert (seglists_can_insertb t.2 (unit_rest HEADER_COMPACT (run_block 5 8) 4) = true) as E2 by (vm_compute; reflexivity).
    change (t = (Ok f, q)) in E. rewrite E in E1, E2. injection E1 as ->. apply seglists_can_insertb_ok. exact E2.
  - assert (ex_unit_served.1 = Ok (run_block 4 8)) as E1 by (vm_compute; reflexivity). unfold ex_unit_served in *. rewrite E in E1. injection E1 as ->.
    exists s', X'. rewrite E. split; [reflexivity|exact (us_blocks _ _ _ _ _ _ _ _ _ _ _ _ _ _ Hs)].
Defined.

(** ** Buckets when there is no memory *)

(** One class, two arenas, and no memory for the bucket of the second one. *)
Definition ex_one_class : aenv := AEnv (set_aclasses (updZ (repeat 0 255) 1 1) init_collection) {[1 := ex_unit_class]} 2 [].
Definition ex_two_arenas (malloc : list bool) : rheap block_container_ravl block_container_seglists :=
  RHeap (Heap (Pmem ∅ []) (ex_hbucket ex_tree0) ex_one_class ∅ 1 1) [heap_arena_init; heap_arena_init] None 1 malloc.
Definition ex_new_run (ok : bool) := (λ c, (c, container_seglists_ops)) <$> container_new_seglists ok (request 0) [].
Definition ex_new_default (ok : bool) : option (block_container_ravl * block_container_ops block_container_ravl) :=
  if ok then Some (ex_tree0, container_ravl_ops huge_user_data) else None.

(** running out of memory when the buckets are created.  [heap_create_alloc_class_buckets] deletes the buckets of a class in the arenas it had come to but leaves
    the pointers; [heap_buckets_init] then destroys the arenas and deletes them again.  With two arenas and no memory for the bucket
    of the second one, the bucket of the first is freed twice. *)
Theorem heap_buckets_init_frees_twice :
  let s := ex_two_arenas [true; true; true; true; true; false] in
  (heap_create_alloc_class_buckets ex_new_run 1 s).1 = Ok false ∧
  (rk_live <$> (rh_arenas (heap_create_alloc_class_buckets ex_new_run 1 s).2 !! 0%nat ≫= λ a, ar_buckets a !! 1)) = Some false ∧
  (heap_arena_destroy 0 (heap_create_alloc_class_buckets ex_new_run 1 s).2).1 = Undef ∧
  (heap_buckets_init ex_new_run ex_new_default s).1 = Undef.
Proof. vm_compute. done. Qed.
