(* ===== verification/Palloc.v ===== *)
(** * libpmemobj: the allocator

    Models [libpmemobj/palloc.c]: reservations, deferred frees, and actions that are executed together in one operation.  The
    Valgrind calls and the statistics are left out.  Pool offsets and addresses are the same: the pool is at 0. *)

From stdpp Require Import base gmap list numbers sorting.
From S2P Require Import Prelude Memory Pmem Util Ulog Container ContainerSeglists Ravl Bucket Cuckoo Memops Memblock AllocClass Recycler Heap HeapRun.
Local Open Scope Z_scope.

Definition ECANCELED : Z := 125.
Definition PALLOC_CTL_DEBUG_NO_PATTERN : Z := -1.

(** ** Actions *)

(** Where a counter of reservations is: the active block of a bucket, by its address; it may have become pending in the recycler of the class. *)
Record resv_ref : Type := ResvRef { rv_arena : nat; rv_class : Z; rv_addr : Z }.

#[global] Instance resv_ref_eq_dec : EqDecision resv_ref.
Proof. solve_decision. Defined.

Inductive action_data : Type :=
| ActionHeap (offset : Z) (new_state : memblock_state) (m : memory_block) (resvp : option resv_ref)
| ActionMem (ptr value : Z).
(** [act_lock]: the number of a lock, [None] for [NULL]. *)
Record pobj_action_internal : Type := PobjAction { act_lock : option Z; act_data : action_data }.

Definition palloc_set_value (ptr value : Z) : pobj_action_internal := PobjAction None (ActionMem ptr value).

(** [NULL] comes before every lock. *)
Definition lock_key (l : option Z) : Z := match l with Some i => i + 1 | None => 0 end.
Definition palloc_action_compare (lhs rhs : pobj_action_internal) : Z :=
  let vlhs := lock_key (act_lock lhs) in
  let vrhs := lock_key (act_lock rhs) in
  if vlhs <? vrhs then -1 else if vrhs <? vlhs then 1 else 0.

(** ** State *)

(** The heap, the operation context with the results of its allocations, the locks of runs that are held, and the bytes that were requested. *)
Record palloc_state (C R : Type) : Type := PallocState {
  pa_heap : rheap C R;
  pa_ctx : operation_context;
  pa_alloc : list (option Z);
  pa_locks : gset Z;
  pa_size_allocated : Z
}.
Arguments PallocState {C R}.
Arguments pa_heap {C R}.
Arguments pa_ctx {C R}.
Arguments pa_alloc {C R}.
Arguments pa_locks {C R}.
Arguments pa_size_allocated {C R}.

#[global] Instance palloc_has_mem C R : HasMem (palloc_state C R) := λ s, mem_of (pa_heap s).

(** ** Locks *)

Section locks.
Context {C R : Type}.
Local Abbreviation MP A := (M (palloc_state C R) A).

Definition set_locks (l : gset Z) : MP unit :=
  modify (λ s, PallocState (pa_heap s) (pa_ctx s) (pa_alloc s) l (pa_size_allocated s)).
(** A thread that takes a lock that it holds waits for ever. *)
Definition util_mutex_lock (l : Z) : MP unit := λ s,
  if decide (l ∈ pa_locks s) then (Undef, s) else set_locks ({[l]} ∪ pa_locks s) s.
Definition util_mutex_unlock (l : Z) : MP unit := λ s,
  if decide (l ∈ pa_locks s) then set_locks (pa_locks s ∖ {[l]}) s else (Undef, s).
Definition for_lock (f : Z → MP unit) (l : option Z) : MP unit := match l with Some l => f l | None => mret tt end.

(** The actions from one on, given the lock of the action before it. *)
Fixpoint exec_loop (exec : pobj_action_internal → MP unit) (prev : option (option Z)) (l : list pobj_action_internal) : MP unit :=
  match l with
  | [] => mret tt
  | act :: l =>
      (if bool_decide (prev = Some (act_lock act)) then mret tt else for_lock util_mutex_lock (act_lock act));;
      exec act;;
      exec_loop exec (Some (act_lock act)) l
  end.
Fixpoint process_loop (on_process : pobj_action_internal → MP unit) (prev : option (option Z)) (l : list pobj_action_internal) : MP unit :=
  match l with
  | [] => mret tt
  | act :: l =>
      on_process act;;
      (if bool_decide (prev = Some (act_lock act)) then mret tt else for_lock util_mutex_unlock (act_lock act));;
      process_loop on_process (Some (act_lock act)) l
  end.
Fixpoint each_action (f : pobj_action_internal → MP unit) (l : list pobj_action_internal) : MP unit :=
  match l with
  | [] => mret tt
  | act :: l => f act;; each_action f l
  end.
End locks.

Section palloc.
Context {C R : Type} (p_ops : pmem_ops) (layout sizep nlocks : Z) (pop : pool_layout) (padding : list Z) (alloc_pattern : Z).
(** For the heap and for the operations of [memops.c]. *)
Context (util_pool_extend : Z → M pmem (option Z)) (locked : Z → bool) (growsize : Z) (fuel : nat).
Context (ulog_free : Z → M pmem unit) (push_ok : nat → bool).
Local Abbreviation MP A := (M (palloc_state C R) A).

Definition on_rheap {A} (f : M (rheap C R) A) : MP A := λ s,
  let '(r, h) := f (pa_heap s) in (r, PallocState h (pa_ctx s) (pa_alloc s) (pa_locks s) (pa_size_allocated s)).
Definition on_ppm {A} (f : M pmem A) : MP A := on_rheap (on_heap (on_hpm f)).
Definition with_pm (p : pmem) (h : rheap C R) : rheap C R := (on_heap (on_hpm (λ _, (Ok tt, p))) h).2.
Definition on_operation {A} (f : M mstate A) : MP A := λ s,
  let '(r, t) := f (MState (MEnv (h_pm (rh_heap (pa_heap s))) (pa_alloc s)) (pa_ctx s)) in
  (r, PallocState (with_pm (me_pm (ms_env t)) (pa_heap s)) (ms_ctx t) (me_alloc (ms_env t)) (pa_locks s) (pa_size_allocated s)).

Definition block_get_lock (m : memory_block) : option Z :=
  match mb_type m with MEMORY_BLOCK_HUGE => huge_get_lock m | MEMORY_BLOCK_RUN => run_get_lock nlocks m end.

(** ** Reservations *)

(** [constructor]: the user data and its size; its result is not 0 to cancel.  The offset, [None] if it was cancelled. *)
Definition alloc_prep_block (m : memory_block) (constructor : option (Z → Z → M pmem Z)) (extra_field object_flags : Z) : MP (option Z) :=
  uptr ← look (mop_get_user_data layout m);
  usize ← look (block_get_user_size layout m);
  on_ppm (block_write_header p_ops layout padding m extra_field object_flags);;
  (if PALLOC_CTL_DEBUG_NO_PATTERN <? alloc_pattern then on_ppm (modify (λ p, op_memset p_ops p uptr alloc_pattern usize 0)) else mret tt);;
  ret ← (match constructor with Some f => on_ppm (f uptr usize) | None => mret 0 end);
  mret (if ret =? 0 then Some uptr else None).

(** [bucket_current_resvp], and the addition of 1 to the counter. *)
Definition take_reservation (b : bucket_ref) : M (rheap C R) (option resv_ref) :=
  match b with
  | DefaultBucket => mret None
  | ArenaBucket a id =>
      k ← get_rb a id;
      match bk_active_memory_block (rk_bucket k) with
      | None => mret None
      | Some mr =>
          on_rb a id (set_active (Some (MemoryBlockReserved (mr_m mr) (mr_nresv mr + 1))) (bk_is_active (rk_bucket k)));;
          mret (Some (ResvRef a id (rk_resv k)))
      end
  end.
(** Subtracts 1, where the block is now. *)
Definition drop_reservation (r : resv_ref) : M (rheap C R) unit :=
  k ← get_rb (rv_arena r) (rv_class r);
  match bk_active_memory_block (rk_bucket k) with
  | Some mr =>
      if rk_resv k =? rv_addr r
      then on_rb (rv_arena r) (rv_class r) (set_active (Some (MemoryBlockReserved (mr_m mr) (mr_nresv mr - 1))) (bk_is_active (rk_bucket k)))
      else on_heap (on_recycler (rv_class r) (λ _ y,
        match rr_reserved y !! rv_addr r with
        | Some mr => (Ok tt, set_pending (rr_pending y) (<[rv_addr r := MemoryBlockReserved (mr_m mr) (mr_nresv mr - 1)]> (rr_reserved y)) y)
        | None => (Undef, y)
        end))
  | None => undef
  end.

(** The bucket gets the block back when it is of chunks. *)
Definition bucket_put_back (b : bucket_ref) (m : memory_block) : M (rheap C R) unit :=
  match mb_type m with
  | MEMORY_BLOCK_HUGE =>
      match b with
      | DefaultBucket => on_heap (on_default (errno_of (bucket_insert_block m)));; mret tt
      | ArenaBucket a id => on_rb a id (errno_of (bucket_insert_block m));; mret tt
      end
  | MEMORY_BLOCK_RUN => mret tt
  end.

Definition palloc_reservation_create (size : Z) (constructor : option (Z → Z → M pmem Z)) (extra_field object_flags class_id : Z) : MP pobj_action_internal :=
  if negb (class_id <? 255) then undef
  else
    p ← on_rheap (on_heap (on_classes (if class_id =? 0 then alloc_class_by_alloc_size size else alloc_class_by_id class_id)));
    if p =? 0 then fail EINVAL
    else
      c ← on_rheap (on_heap (on_classes (class_at p)));
      n ← of_res (alloc_class_calc_size_idx c size);
      match n with
      | None => fail EINVAL
      | Some n =>
          b ← on_rheap (heap_bucket_acquire_by_id (ac_id c));
          m ← on_rheap (heap_get_bestfit_block p_ops layout sizep util_pool_extend locked growsize fuel b (request (u32 n)));
          off ← alloc_prep_block m constructor extra_field object_flags;
          match off with
          | None => on_rheap (bucket_put_back b m);; fail ECANCELED
          | Some off =>
              r ← on_rheap (take_reservation b);
              modify (λ s, PallocState (pa_heap s) (pa_ctx s) (pa_alloc s) (pa_locks s) (u64 (pa_size_allocated s + size)));;
              mret (PobjAction (block_get_lock m) (ActionHeap off MEMBLOCK_ALLOCATED m r))
          end
      end.
Definition palloc_reserve := palloc_reservation_create.

Definition palloc_defer_free_create (off : Z) : MP pobj_action_internal :=
  m ← look (memblock_from_offset layout off);
  mret (PobjAction (block_get_lock m) (ActionHeap off MEMBLOCK_FREE m None)).
Definition palloc_defer_free := palloc_defer_free_create.

(** ** Handlers of actions *)

Definition palloc_restore_free_chunk_state (m : memory_block) : MP unit :=
  match mb_type m with
  | MEMORY_BLOCK_HUGE =>
      r ← on_rheap (on_heap (heap_free_chunk_reuse p_ops layout m));
      if bool_decide (snd r = Some EEXIST) then undef else mret tt
  | MEMORY_BLOCK_RUN => mret tt
  end.
Definition release (r : option resv_ref) : MP unit := match r with Some r => on_rheap (drop_reservation r) | None => mret tt end.

Definition palloc_heap_action_exec (new_state : memblock_state) (m : memory_block) : MP unit :=
  st ← look (mop_get_state layout m);
  if bool_decide (st = new_state) then undef else on_operation (mop_prep_hdr layout pop m new_state).
Definition palloc_heap_action_on_cancel (new_state : memblock_state) (m : memory_block) (resvp : option resv_ref) : MP unit :=
  (if bool_decide (new_state = MEMBLOCK_ALLOCATED) then palloc_restore_free_chunk_state m else mret tt);;
  release resvp.
Definition palloc_heap_action_on_process (new_state : memblock_state) (m : memory_block) (resvp : option resv_ref) : MP unit :=
  if bool_decide (new_state = MEMBLOCK_ALLOCATED) then release resvp
  else if bool_decide (new_state = MEMBLOCK_FREE) then on_rheap (on_heap (heap_memblock_on_free layout m))
  else mret tt.
Definition palloc_heap_action_on_unlock (new_state : memblock_state) (m : memory_block) : MP unit :=
  if bool_decide (new_state = MEMBLOCK_FREE) then palloc_restore_free_chunk_state m else mret tt.
Definition palloc_mem_action_exec (ptr value : Z) : MP unit := on_operation (ignore (operation_add_entry pop ptr value ULOG_OPERATION_SET)).

(** [action_funcs] *)
Definition action_exec (act : pobj_action_internal) : MP unit :=
  match act_data act with
  | ActionHeap _ st m _ => palloc_heap_action_exec st m
  | ActionMem ptr value => palloc_mem_action_exec ptr value
  end.
Definition action_on_cancel (act : pobj_action_internal) : MP unit :=
  match act_data act with ActionHeap _ st m r => palloc_heap_action_on_cancel st m r | ActionMem _ _ => mret tt end.
Definition action_on_process (act : pobj_action_internal) : MP unit :=
  match act_data act with ActionHeap _ st m r => palloc_heap_action_on_process st m r | ActionMem _ _ => mret tt end.
Definition action_on_unlock (act : pobj_action_internal) : MP unit :=
  match act_data act with ActionHeap _ st m _ => palloc_heap_action_on_unlock st m | ActionMem _ _ => mret tt end.

(** ** Operations *)

(** [qsort]: sorts by [palloc_action_compare]; the order of actions with the same lock is its own. *)
Context (qsort : list pobj_action_internal → list pobj_action_internal).

Definition palloc_exec_actions (actv : list pobj_action_internal) : MP unit :=
  let actv := qsort actv in
  exec_loop action_exec None actv;;
  on_ppm (modify (op_drain p_ops));;
  on_operation (operation_finish p_ops ulog_free push_ok fuel);;
  process_loop action_on_process None actv;;
  each_action action_on_unlock actv.

Definition palloc_cancel (actv : list pobj_action_internal) : MP unit := each_action action_on_cancel actv.
Definition palloc_publish (actv : list pobj_action_internal) : MP unit := palloc_exec_actions actv.

Definition alloc_offset (act : pobj_action_internal) : Z :=
  match act_data act with ActionHeap off _ _ _ => off | ActionMem _ _ => 0 end.

(** [dest_off]: where the offset of the new object is stored, [None] for [NULL].  The result of the allocation, when there is one, decides. *)
Definition palloc_operation (off : Z) (dest_off : option Z) (size : Z) (constructor : option (Z → Z → M pmem Z))
    (extra_field object_flags class_id : Z) : MP unit :=
  dealloc ← (if off =? 0 then mret None
             else act ← palloc_defer_free_create off;
                  n ← (match act_data act with ActionHeap _ _ m _ => look (block_get_user_size layout m) | ActionMem _ _ => undef end);
                  mret (Some (act, n)));
  if bool_decide (snd <$> dealloc = Some size) then on_operation operation_cancel
  else
    alloc ← (if size =? 0 then mret None
             else λ s,
               match palloc_reservation_create size constructor extra_field object_flags class_id s with
               | (Ok act, s) => (Ok (Some act), s)
               | (Fail e, s) => (on_operation operation_cancel;; fail e) s
               | (Undef, s) => (Undef, s)
               end);
    (match alloc, dealloc with
     | Some new, Some (_, user_size) =>
         let to_cpy := if size <? user_size then size else user_size in
         x ← look (gets id);
         on_ppm (modify (λ p, op_memcpy p_ops p (alloc_offset new) (rdn x off (Z.to_nat to_cpy)) 0))
     | _, _ => mret tt
     end);;
    (match dest_off with
     | Some d => on_operation (ignore (operation_add_entry pop d (match alloc with Some a => alloc_offset a | None => 0 end) ULOG_OPERATION_SET))
     | None => mret tt
     end);;
    palloc_exec_actions ((match dealloc with Some (a, _) => [a] | None => [] end) ++ (match alloc with Some a => [a] | None => [] end)).
End palloc.

(** ** Objects *)

Section objects.
Context (layout : Z).

Definition palloc_usable_size (off : Z) : M mem Z := m ← memblock_from_offset layout off; block_get_user_size layout m.
Definition palloc_extra (off : Z) : M mem Z := m ← memblock_from_offset layout off; block_get_extra layout m.
Definition palloc_flags (off : Z) : M mem Z := m ← memblock_from_offset layout off; block_get_flags layout m.

(** [MEMORY_BLOCK_EQUALS]; a block that is not [MEMORY_BLOCK_NONE] has the one heap. *)
Definition MEMORY_BLOCK_EQUALS (lhs rhs : memory_block) : bool :=
  (zone_id lhs =? zone_id rhs) && (chunk_id lhs =? chunk_id rhs) && (block_off lhs =? block_off rhs).

(** The memory, and the block that was found ([None] for [MEMORY_BLOCK_NONE]). *)
Definition search_state : Type := mem * option memory_block.
#[global] Instance search_has_mem : HasMem search_state := fst.

Definition pmalloc_search_cb (m : memory_block) : M search_state Z := λ s,
  if (match snd s with Some out => MEMORY_BLOCK_EQUALS m out | None => false end) then (Ok 0, s) else (Ok 1, (fst s, Some m)).

(** 0 when there is none. *)
Definition palloc_first (nzones : Z) (x : mem) : res Z :=
  match heap_foreach_object layout pmalloc_search_cb nzones (request 0) (x, None) with
  | (Ok _, (_, None)) => Ok 0
  | (Ok _, (_, Some search)) => (mop_get_user_data layout search x).1
  | (Fail e, _) => Fail e
  | (Undef, _) => Undef
  end.
Definition palloc_next (nzones off : Z) (x : mem) : res Z :=
  match memblock_from_offset layout off x with
  | (Ok m, _) =>
      match heap_foreach_object layout pmalloc_search_cb nzones m (x, Some m) with
      | (Ok _, (_, None)) => Ok 0
      | (Ok _, (_, Some search)) => if MEMORY_BLOCK_EQUALS search m then Ok 0 else (mop_get_user_data layout search x).1
      | (Fail e, _) => Fail e
      | (Undef, _) => Undef
      end
  | (Fail e, _) => Fail e
  | (Undef, _) => Undef
  end.
End objects.
