(* ===== verification/PallocTheorems.v ===== *)
(** * libpmemobj: theorems on the allocator

    The actions of an operation are sorted by their locks, so that every lock is taken once and given back. *)

From stdpp Require Import base gmap list numbers sorting.
From S2P Require Import Prelude Memory Pmem Util Ulog UlogSpec UlogTheorems Vecq Container ContainerSeglists Ravl ContainerRavl Bucket Memops MemopsExample MemopsTheorems.
From S2P Require Import Memblock MemblockAlloc MemblockAllocTheorems AllocClass Recycler Heap HeapExample HeapRun Palloc.
From stdpp Require Import list sorting.
Local Open Scope Z_scope.

(** ** Functions that do not look at locks *)

Section locks.
Context {C R : Type}.
Local Abbreviation PS := (palloc_state C R).
Implicit Types (s : PS) (L : gset Z).

Definition with_locks L s : PS := PallocState (pa_heap s) (pa_ctx s) (pa_alloc s) L (pa_size_allocated s).

Definition ignores_locks {A} (f : M PS A) : Prop := ∀ s L, f (with_locks L s) = ((f s).1, with_locks L (f s).2).

Lemma with_locks_same s : with_locks (pa_locks s) s = s.
Proof. by destruct s. Qed.
Lemma with_locks_twice L L' s : with_locks L (with_locks L' s) = with_locks L s.
Proof. done. Qed.

Lemma ignores_same {A} (f : M PS A) s : ignores_locks f → pa_locks (f s).2 = pa_locks s.
Proof. intros H. specialize (H s (pa_locks s)). rewrite with_locks_same in H. by rewrite H. Qed.

Lemma ignores_ret {A} (a : A) : ignores_locks (mret a).
Proof. done. Qed.
Lemma ignores_undef {A} : ignores_locks (undef (A := A)).
Proof. done. Qed.
Lemma ignores_look {A} (f : M mem A) : ignores_locks (look f).
Proof. done. Qed.
Lemma ignores_rheap {A} (f : M (rheap C R) A) : ignores_locks (on_rheap f).
Proof. intros s L. unfold on_rheap. cbn [with_locks pa_heap]. by destruct (f (pa_heap s)). Qed.
Lemma ignores_operation {A} (f : M mstate A) : ignores_locks (on_operation f).
Proof. intros s L. unfold on_operation. cbn [with_locks pa_heap pa_alloc pa_ctx]. by case_match. Qed.
Lemma ignores_bind {A B} (f : M PS A) (k : A → M PS B) : ignores_locks f → (∀ a, ignores_locks (k a)) → ignores_locks (x ← f; k x).
Proof.
  intros Hf Hk s L. unfold mbind, M_bind. rewrite Hf. destruct (f s) as [[a|e|] s']; cbn; [|done|done]. apply Hk.
Qed.
Lemma ignores_each f l : (∀ act, ignores_locks (f act)) → ignores_locks (each_action f l).
Proof.
  intros Hf. induction l as [|act l IH]; cbn [each_action]; [apply ignores_ret|]. by apply ignores_bind.
Qed.

(** ** Taking and giving back the locks *)

(** Sorted by their locks, after an action with the lock [prev]. *)
Definition act_key (act : pobj_action_internal) : Z := lock_key (act_lock act).
Definition after (prev : option (option Z)) (l : list pobj_action_internal) : Prop :=
  StronglySorted (λ a b, act_key a ≤ act_key b) l ∧ (∀ p act, prev = Some p → act ∈ l → lock_key p ≤ act_key act) ∧
  ∀ act i, act ∈ l → act_lock act = Some i → 0 ≤ i.
Definition locks_of (l : list pobj_action_internal) : gset Z := list_to_set (omap act_lock l).

Lemma after_cons prev act l : after prev (act :: l) → after (Some (act_lock act)) l.
Proof.
  intros (Hs & _ & Hn). apply StronglySorted_inv in Hs as [Hs Hf]. split_and!; [done| |intros b i Hb; apply Hn; by right].
  intros p b [= <-] Hb. by apply (proj1 (Forall_forall _ _) Hf).
Qed.

(** The lock of the action before is that of an action in between. *)
Lemma after_between p act l b i : after (Some p) (act :: l) → b ∈ l → act_lock b = Some i → p = Some i → act_lock act = Some i.
Proof.
  intros Ha Hb Hi ->. pose proof (proj1 (proj2 (after_cons _ _ _ Ha)) _ b eq_refl Hb) as H1. destruct Ha as (_ & Ha & Hn).
  specialize (Ha _ act eq_refl ltac:(by left)). specialize (Hn b i ltac:(by right) Hi). unfold act_key in *. rewrite Hi in *. cbn in *. destruct (act_lock act) as [j|]; cbn in *; [f_equal; lia|].
  lia.
Qed.

Lemma locks_of_cons act l : locks_of (act :: l) = (match act_lock act with Some i => {[i]} | None => ∅ end) ∪ locks_of l.
Proof. unfold locks_of. cbn [omap list_omap]. destruct (act_lock act); cbn [list_to_set]; [done|]. by rewrite union_empty_l_L. Qed.

Lemma exec_loop_run f l : (∀ act, ignores_locks (f act)) → ∀ prev s s', after prev l →
  (∀ act i, act ∈ l → act_lock act = Some i → i ∈ pa_locks s → prev = Some (Some i)) → (∀ i, prev = Some (Some i) → i ∈ pa_locks s) →
  each_action f l s = (Ok tt, s') → exec_loop f prev l s = (Ok tt, with_locks (locks_of l ∪ pa_locks s) s').
Proof.
  intros Hf. induction l as [|act l IH]; intros prev s s' Ha Hin Hheld E; cbn [exec_loop each_action] in *.
  { injection E as <-. unfold locks_of. cbn. rewrite union_empty_l_L. by rewrite with_locks_same. }
  apply bind_inv_ok in E as ([] & s1 & E1 & E2). pose proof (ignores_same (f act) s (Hf act)) as Hl1. rewrite E1 in Hl1. cbn [snd] in Hl1.
  pose proof (after_cons _ _ _ Ha) as Ha'. rewrite locks_of_cons. case_bool_decide as Hp.
  - erewrite bind_ok by reflexivity. erewrite bind_ok by exact E1. rewrite (IH (Some (act_lock act)) s1 s' Ha'); [|intros b i Hb Hi; rewrite Hl1, <-Hp; apply (Hin b i); [by right|done]|intros i Hi; rewrite Hl1; apply Hheld; congruence|done].
    do 2 f_equal. rewrite Hl1. destruct (act_lock act) as [j|] eqn:Ej; [|by rewrite union_empty_l_L]. specialize (Hheld j Hp). set_solver.
  - destruct (act_lock act) as [j|] eqn:Ej; cbn [for_lock].
    + assert (j ∉ pa_locks s) as Hj by (intros Hj; apply Hp; apply (Hin act j); [by left|done|done]).
      erewrite bind_ok by (unfold util_mutex_lock; rewrite decide_False by done; reflexivity). fold (with_locks ({[j]} ∪ pa_locks s) s).
      erewrite bind_ok by (rewrite (Hf act s), E1; reflexivity). 
      rewrite (IH (Some (Some j)) (with_locks ({[j]} ∪ pa_locks s) s1) (with_locks ({[j]} ∪ pa_locks s) s') Ha').
      * rewrite with_locks_twice. do 2 f_equal. cbn [with_locks pa_locks]. set_solver.
      * intros b i Hb Hi Hli. cbn in Hli. apply elem_of_union in Hli as [->%elem_of_singleton|Hli]; [done|].
        pose proof (Hin b i ltac:(by right) Hi Hli) as ->. rewrite (after_between _ _ _ b i Ha Hb Hi eq_refl) in Ej. by injection Ej as ->.
      * intros i [= <-]. cbn. set_solver.
      * by rewrite (ignores_each f l Hf s1), E2.
    + erewrite bind_ok by reflexivity. erewrite bind_ok by exact E1. rewrite (IH (Some None) s1 s' Ha'); [by rewrite union_empty_l_L, Hl1| |done|done].
      intros b i Hb Hi Hli. rewrite Hl1 in Hli. pose proof (Hin b i ltac:(by right) Hi Hli) as ->. by rewrite (after_between _ _ _ b i Ha Hb Hi eq_refl) in Ej.
Qed.

Lemma process_loop_run f l : (∀ act, ignores_locks (f act)) → ∀ prev s s', after prev l →
  (∀ act i, act ∈ l → act_lock act = Some i → i ∈ pa_locks s ∨ prev = Some (Some i)) → (∀ i, prev = Some (Some i) → i ∉ pa_locks s) →
  each_action f l s = (Ok tt, s') → process_loop f prev l s = (Ok tt, with_locks (pa_locks s ∖ locks_of l) s').
Proof.
  intros Hf. induction l as [|act l IH]; intros prev s s' Ha Hin Hheld E; cbn [process_loop each_action] in *.
  { injection E as <-. unfold locks_of. cbn. rewrite difference_empty_L. by rewrite with_locks_same. }
  apply bind_inv_ok in E as ([] & s1 & E1 & E2). pose proof (ignores_same (f act) s (Hf act)) as Hl1. rewrite E1 in Hl1. cbn [snd] in Hl1.
  pose proof (after_cons _ _ _ Ha) as Ha'. rewrite locks_of_cons. erewrite bind_ok by exact E1. case_bool_decide as Hp.
  - erewrite bind_ok by reflexivity. rewrite (IH (Some (act_lock act)) s1 s' Ha'); [|intros b i Hb Hi; rewrite Hl1, <-Hp; apply (Hin b i); [by right|done]|intros i Hi; rewrite Hl1; apply Hheld; congruence|done].
    do 2 f_equal. rewrite Hl1. destruct (act_lock act) as [j|] eqn:Ej; [|by rewrite union_empty_l_L]. specialize (Hheld j Hp). set_solver.
  - destruct (act_lock act) as [j|] eqn:Ej; cbn [for_lock].
    + assert (j ∈ pa_locks s1) as Hj by (rewrite Hl1; destruct (Hin act j); [by left|done|done|done]).
      erewrite bind_ok by (unfold util_mutex_unlock; rewrite decide_True by done; reflexivity). fold (with_locks (pa_locks s1 ∖ {[j]}) s1).
      rewrite (IH (Some (Some j)) (with_locks (pa_locks s1 ∖ {[j]}) s1) (with_locks (pa_locks s1 ∖ {[j]}) s') Ha').
      * rewrite with_locks_twice. do 2 f_equal. cbn [with_locks pa_locks]. rewrite Hl1. set_solver.
      * intros b i Hb Hi. cbn. rewrite Hl1. destruct (decide (i = j)) as [->|Hne]; [by right|]. left. destruct (Hin b i ltac:(by right) Hi) as [Hli| ->]; [set_solver|].
        rewrite (after_between _ _ _ b i Ha Hb Hi eq_refl) in Ej. by injection Ej as ->.
      * intros i [= <-]. cbn. set_solver.
      * by rewrite (ignores_each f l Hf s1), E2.
    + erewrite bind_ok by reflexivity. rewrite (IH (Some None) s1 s' Ha'); [by rewrite union_empty_l_L, Hl1| |done|done].
      intros b i Hb Hi. rewrite Hl1. destruct (Hin b i ltac:(by right) Hi) as [Hli| ->]; [by left|]. by rewrite (after_between _ _ _ b i Ha Hb Hi eq_refl) in Ej.
Qed.
End locks.

Section exec.
Context {C R : Type} (o : pmem_ops) (layout : Z) (pop : pool_layout) (fuel : nat) (ulog_free : Z → M pmem unit) (push_ok : nat → bool).
Local Abbreviation PS := (palloc_state C R).

Lemma restore_ignores m : ignores_locks (C := C) (R := R) (palloc_restore_free_chunk_state o layout m).
Proof.
  unfold palloc_restore_free_chunk_state. destruct (mb_type m); [|apply ignores_ret]. apply ignores_bind; [apply ignores_rheap|].
  intros r. case_bool_decide; [apply ignores_undef|apply ignores_ret].
Qed.
Lemma exec_ignores act : ignores_locks (C := C) (R := R) (action_exec layout pop act).
Proof.
  unfold action_exec, palloc_heap_action_exec, palloc_mem_action_exec. destruct (act_data act); [|apply ignores_operation].
  apply ignores_bind; [apply ignores_look|]. intros st. case_bool_decide; [apply ignores_undef|apply ignores_operation].
Qed.
Lemma process_ignores act : ignores_locks (C := C) (R := R) (action_on_process layout act).
Proof.
  unfold action_on_process, palloc_heap_action_on_process. destruct (act_data act) as [off st m r|]; [|apply ignores_ret].
  case_bool_decide; [destruct r; [apply ignores_rheap|apply ignores_ret]|]. case_bool_decide; [apply ignores_rheap|apply ignores_ret].
Qed.
Lemma unlock_ignores act : ignores_locks (C := C) (R := R) (action_on_unlock o layout act).
Proof.
  unfold action_on_unlock, palloc_heap_action_on_unlock. destruct (act_data act); [|apply ignores_ret].
  case_bool_decide; [apply restore_ignores|apply ignores_ret].
Qed.

(** The actions one after the other, without locks. *)
Definition exec_unlocked (actv : list pobj_action_internal) : M PS unit :=
  each_action (action_exec layout pop) actv;;
  on_ppm (modify (op_drain o));;
  on_operation (operation_finish o ulog_free push_ok fuel);;
  each_action (action_on_process layout) actv;;
  each_action (action_on_unlock o layout) actv.

Lemma exec_locks_run l s s' : after None l → locks_of l ## pa_locks s → exec_unlocked l s = (Ok tt, s') →
  (exec_loop (action_exec layout pop) None l;;
   on_ppm (modify (op_drain o));;
   on_operation (operation_finish o ulog_free push_ok fuel);;
   process_loop (action_on_process layout) None l;;
   each_action (action_on_unlock o layout) l) s = (Ok tt, s') ∧ pa_locks s' = pa_locks s.
Proof.
  intros Ha Hd E. set (L := locks_of l ∪ pa_locks s).
  assert (∀ act i, act ∈ l → act_lock act = Some i → i ∈ locks_of l) as Hin.
  { intros act i Hact Hi. unfold locks_of. apply elem_of_list_to_set, list_elem_of_omap. by exists act. }
  unfold exec_unlocked in E. apply bind_inv_ok in E as ([] & s1 & E1 & E). apply bind_inv_ok in E as ([] & s2 & E2 & E).
  apply bind_inv_ok in E as ([] & s3 & E3 & E). apply bind_inv_ok in E as ([] & s4 & E4 & E5).
  assert (∀ A (f : M PS A) t t' r, ignores_locks f → f t = (r, t') → pa_locks t = pa_locks s → pa_locks t' = pa_locks s ∧ f (with_locks L t) = (r, with_locks L t')) as Hstep.
  { intros A f t t' r Hf Et Hl. split; [|by rewrite Hf, Et]. pose proof (ignores_same f t Hf) as H. rewrite Et in H. cbn in H. by rewrite H. }
  destruct (Hstep _ _ _ _ _ (ignores_each _ l exec_ignores) E1 eq_refl) as [H1 _].
  destruct (Hstep _ _ _ _ _ (ignores_rheap _) E2 H1) as [H2 F2]. destruct (Hstep _ _ _ _ _ (ignores_operation _) E3 H2) as [H3 F3].
  destruct (Hstep _ _ _ _ _ (ignores_each _ l process_ignores) E4 H3) as [H4 F4]. destruct (Hstep _ _ _ _ _ (ignores_each _ l unlock_ignores) E5 H4) as [H5 _].
  split; [|done].
  erewrite bind_ok by (eapply exec_loop_run; [exact exec_ignores|done| |done|exact E1]; intros act i Hact Hi Hli; exfalso; apply (Hd i); [by eapply Hin|done]).
  fold L. erewrite bind_ok by exact F2. erewrite bind_ok by exact F3.
  erewrite bind_ok by (eapply process_loop_run; [exact process_ignores|done| |done|exact F4]; intros act i Hact Hi; left; cbn; apply elem_of_union_l; by eapply Hin).
  rewrite with_locks_twice. cbn [with_locks pa_locks]. replace (L ∖ locks_of l) with (pa_locks s4) by (rewrite H4; unfold L; set_solver).
  by rewrite with_locks_same.
Qed.
End exec.

Lemma actions_sorted l : StronglySorted (λ a b, palloc_action_compare a b ≤ 0) l → StronglySorted (λ a b, act_key a ≤ act_key b) l.
Proof.
  induction 1 as [|a l Hl IH Hf]; [constructor|]. constructor; [done|]. rewrite Forall_forall in Hf |- *.
  intros b Hb. specialize (Hf b Hb). unfold palloc_action_compare, act_key in *. repeat case_match; lia.
Qed.

(** C25: the locks of an operation.  [palloc_exec_actions] takes the lock of an action when it differs from that of the action before it,
    and gives it back in the same way.  Given a sorting function that sorts, and no lock that is held by the thread before, this is right: the result is that of the
    actions executed one after the other without any locks, so no lock is taken twice (which would not return) or given back when it is not held,
    and afterwards the thread holds the locks it held before. *)
Theorem palloc_exec_actions_locks {C R} (o : pmem_ops) layout pop fuel ulog_free push_ok qsort actv (s s' : palloc_state C R) :
  (∀ l, qsort l ≡ₚ l) → (∀ l, StronglySorted (λ a b, palloc_action_compare a b ≤ 0) (qsort l)) →
  (∀ act i, act ∈ actv → act_lock act = Some i → 0 ≤ i ∧ i ∉ pa_locks s) →
  exec_unlocked o layout pop fuel ulog_free push_ok (qsort actv) s = (Ok tt, s') →
  palloc_exec_actions o layout pop fuel ulog_free push_ok qsort actv s = (Ok tt, s') ∧ pa_locks s' = pa_locks s.
Proof.
  intros Hp Hs Hl E. refine (exec_locks_run o layout pop fuel ulog_free push_ok (qsort actv) s s' _ _ E).
  - split_and!; [|done|].
    + apply actions_sorted, Hs.
    + intros act i Hact Hi. rewrite Hp in Hact. by destruct (Hl act i Hact Hi).
  - intros i Hi Hli. unfold locks_of in Hi. apply elem_of_list_to_set, list_elem_of_omap in Hi as (act & Hact & Hi). rewrite Hp in Hact. by destruct (Hl act i Hact Hi).
Qed.

(** ** Witness *)

(** A heap with a run in chunk 0 and a started operation; two blocks of the run are allocated and a word is set. *)
Definition ex_started : mstate := (operation_start ex_heap).2.
Definition ex_palloc : palloc_state block_container_ravl block_container_seglists :=
  PallocState (RHeap (Heap (me_pm (ms_env ex_started)) (ex_hbucket ex_tree0) ex_classes ∅ 1 1) [] None 1 []) (ms_ctx ex_started) (me_alloc (ms_env ex_started)) ∅ 0.
Definition ex_actions : list pobj_action_internal :=
  [PobjAction (Some 0) (ActionHeap 530432 MEMBLOCK_ALLOCATED ex_block None);
   palloc_set_value 8192 530432;
   PobjAction (Some 0) (ActionHeap 542592 MEMBLOCK_ALLOCATED (MemoryBlock 0 0 2 100 HEADER_LEGACY MEMORY_BLOCK_RUN) None)].

Definition compare_le (a b : pobj_action_internal) : Prop := palloc_action_compare a b ≤ 0.
#[local] Instance compare_le_dec a b : Decision (compare_le a b).
Proof. unfold compare_le. apply _. Defined.
Definition ex_qsort : list pobj_action_internal → list pobj_action_internal := merge_sort compare_le.

#[local] Instance compare_le_trans : Transitive compare_le.
Proof. intros a b c. unfold compare_le, palloc_action_compare. repeat case_match; lia. Qed.
#[local] Instance compare_le_total : Total compare_le.
Proof. intros a b. unfold compare_le, palloc_action_compare. repeat case_match; lia. Qed.

Lemma ex_actions_locks act i : act ∈ ex_actions → act_lock act = Some i → 0 ≤ i ∧ i ∉ pa_locks ex_palloc.
Proof.
  intros Hact Hi. split; [|apply not_elem_of_empty]. unfold ex_actions in Hact. rewrite !elem_of_cons in Hact.
  destruct Hact as [-> |[-> |[-> |[]%elem_of_nil]]]; cbn in Hi; simplify_eq; lia.
Qed.

Lemma palloc_exec_actions_locks_witness : ∃ s', palloc_exec_actions clflush_ops 4096 ex_pop 10 no_free no_push ex_qsort ex_actions ex_palloc = (Ok tt, s') ∧ pa_locks s' = ∅.
Proof.
  set (e := exec_unlocked clflush_ops 4096 ex_pop 10 no_free no_push (ex_qsort ex_actions) ex_palloc). exists e.2.
  assert (e.1 = Ok tt) as E1 by (vm_compute; reflexivity). assert (e = (Ok tt, e.2)) as E by (destruct e; cbn in E1 |- *; by rewrite E1).
  apply (palloc_exec_actions_locks clflush_ops 4096 ex_pop 10 no_free no_push ex_qsort ex_actions ex_palloc e.2).
  - intros l. apply merge_sort_Permutation.
  - intros l. apply (StronglySorted_merge_sort compare_le).
  - exact ex_actions_locks.
  - exact E.
Defined.
