(* ===== verification/Pmalloc.v ===== *)
(** * libpmemobj: allocation in a lane

    Models [libpmemobj/pmalloc.c]: one operation of the allocator in the context of a lane that is taken for it, the start of the allocator, and the
    handlers of the control interface for allocation classes and for the size of the heap.  The Valgrind calls and the registration of the handlers are left
    out; a handler that sets [errno] and returns -1 fails with that number. *)

From stdpp Require Import base gmap list numbers strings.
From S2P Require Import Prelude Memory Pmem Util Ulog Container ContainerSeglists Ravl Bucket Cuckoo Memops Lane LaneHold Memblock AllocClass Recycler Heap HeapRun Palloc.
Local Open Scope Z_scope.

Inductive pmalloc_operation_type : Type := OPERATION_INTERNAL | OPERATION_EXTERNAL.

(** The lanes and the thread, the allocator, and the locks in the pool that the thread holds. *)
Record obj_state (C R : Type) : Type := ObjState {
  ob_hold : hold_state;
  ob_palloc : palloc_state C R;
  ob_held : gset Z
}.
Arguments ObjState {C R}.
Arguments ob_hold {C R}.
Arguments ob_palloc {C R}.
Arguments ob_held {C R}.

#[global] Instance obj_has_mem C R : HasMem (obj_state C R) := λ s, mem_of (ob_palloc s).

(** [lane->internal] or [lane->external] *)
Definition lane_context (type : pmalloc_operation_type) (l : lane) : operation_context :=
  match type with OPERATION_INTERNAL => ln_internal l | OPERATION_EXTERNAL => ln_external l end.
Definition set_context (type : pmalloc_operation_type) (c : operation_context) (l : lane) : lane :=
  match type with
  | OPERATION_INTERNAL => Lane (ln_layout l) c (ln_external l) (ln_undo l)
  | OPERATION_EXTERNAL => Lane (ln_layout l) (ln_internal l) c (ln_undo l)
  end.

Section pmalloc.
Context {C R : Type}.
Local Abbreviation MO A := (M (obj_state C R) A).

(** The pool, and what the allocator and the operations take as arguments. *)
Context (uuid_lo : Z) (p_ops : pmem_ops) (layout sizep nlocks : Z) (pop : pool_layout) (padding : list Z) (alloc_pattern : Z).
Context (util_pool_extend : Z → M pmem (option Z)) (locked : Z → bool) (growsize : Z) (fuel : nat).
Context (ulog_free : Z → M pmem unit) (push_ok : nat → bool) (qsort : list pobj_action_internal → list pobj_action_internal).
(** For taking a lane. *)
Context (malloc zalloc tls_ok has_remote_replicas : bool).

Definition on_lanes {A} (f : M hold_state A) : MO A := λ s,
  let '(r, h) := f (ob_hold s) in (r, ObjState h (ob_palloc s) (ob_held s)).
Definition on_palloc {A} (f : M (palloc_state C R) A) : MO A := λ s,
  let '(r, p) := f (ob_palloc s) in (r, ObjState (ob_hold s) p (ob_held s)).

(** [f] on a context of the lane [i]. *)
Definition in_context {A} (i : Z) (type : pmalloc_operation_type) (f : M (palloc_state C R) A) : MO A := λ s,
  match lookupZ (hs_lanes (ob_hold s)) i with
  | None => (Undef, s)
  | Some l =>
      let p := ob_palloc s in
      let '(r, p) := f (PallocState (pa_heap p) (lane_context type l) (pa_alloc p) (pa_locks p) (pa_size_allocated p)) in
      let h := ob_hold s in
      (r, ObjState (HoldState (hs_thread h) (hs_shared h) (updZ (hs_lanes h) i (set_context type (pa_ctx p) l))) p (ob_held s))
  end.

(** ** Operations *)

(** The number of the lane. *)
Definition pmalloc_operation_hold_type (type : pmalloc_operation_type) (start : bool) : MO Z :=
  i ← on_lanes (lane_hold malloc zalloc tls_ok fuel uuid_lo has_remote_replicas true);
  (if start then in_context i type (on_operation operation_start) else mret tt);;
  mret i.
Definition pmalloc_operation_hold_no_start : MO Z := pmalloc_operation_hold_type OPERATION_EXTERNAL false.
Definition pmalloc_operation_hold : MO Z := pmalloc_operation_hold_type OPERATION_EXTERNAL true.
Definition pmalloc_operation_release : MO unit := on_lanes (lane_release malloc zalloc tls_ok uuid_lo has_remote_replicas).

Local Abbreviation palloc_op := (palloc_operation p_ops layout sizep nlocks pop padding alloc_pattern util_pool_extend locked growsize fuel ulog_free push_ok qsort).

(** What is common to the functions that follow: [off] is the old object, [dest] the address where the offset of the new one is stored. *)
Definition palloc_in_lane (off dest size : Z) (constructor : option (Z → Z → M pmem Z)) (extra_field object_flags class_id : Z) : MO (option Z) :=
  i ← pmalloc_operation_hold_type OPERATION_INTERNAL true;
  e ← in_context i OPERATION_INTERNAL (errno_of (palloc_op off (Some dest) size constructor extra_field object_flags class_id));
  pmalloc_operation_release;;
  mret e.
Definition return_errno (e : option Z) : MO unit := match e with Some e => fail e | None => mret tt end.

Definition pmalloc (off size extra_field object_flags : Z) : MO unit :=
  e ← palloc_in_lane 0 off size None extra_field object_flags 0; return_errno e.
Definition pmalloc_construct (off size : Z) (constructor : Z → Z → M pmem Z) (extra_field object_flags class_id : Z) : MO unit :=
  e ← palloc_in_lane 0 off size (Some constructor) extra_field object_flags class_id; return_errno e.
Definition prealloc (off size extra_field object_flags : Z) : MO unit :=
  old ← gets (λ s, rd64 (mem_of s) off);
  e ← palloc_in_lane old off size None extra_field object_flags 0; return_errno e.
(** The result is asserted to be 0. *)
Definition pfree (off : Z) : MO unit :=
  old ← gets (λ s, rd64 (mem_of s) off);
  e ← palloc_in_lane old off 0 None 0 0 0;
  match e with Some _ => undef | None => mret tt end.

(** ** Start and end *)

(** For [heap_boot]: see [HeapRun.v].  [None] for an error of [palloc_buckets_init]: the heap has been cleaned up. *)
Context (new_run : bool → option (R * block_container_ops R)) (new_default : bool → option (C * block_container_ops C)).

Definition init_buckets (h : rheap C R) : M pmem (option (rheap C R)) := λ p,
  match heap_buckets_init new_run new_default (with_pm p h) with
  | (Ok true, h) => (Ok (Some h), h_pm (rh_heap h))
  | (Ok false, h) => let '(r, h) := heap_cleanup h in (match r with Ok _ => Ok None | Fail e => Fail e | Undef => Undef end, h_pm (rh_heap h))
  | (Fail e, h) => (Fail e, h_pm (rh_heap h))
  | (Undef, h) => (Undef, h_pm (rh_heap h))
  end.
Definition pmalloc_boot (poolsize cpus : Z) (b0 : bucket C) (e0 : aenv) (outcomes : list bool) : M pmem (option (rheap C R)) :=
  h ← heap_boot p_ops layout sizep (poolsize - pl_heap_offset pop) cpus b0 e0 outcomes;
  init_buckets h.
Definition pmalloc_cleanup : M (rheap C R) Z := heap_cleanup;; mret 0.
End pmalloc.

(** ** The control interface *)

(** [enum pobj_header_type] of [ctl.h]; any other number is [MAX_POBJ_HEADER_TYPES]. *)
Inductive pobj_header_type : Type := POBJ_HEADER_LEGACY | POBJ_HEADER_COMPACT | POBJ_HEADER_NONE | MAX_POBJ_HEADER_TYPES.
Record pobj_alloc_class_desc : Type := PobjAllocClassDesc {
  pd_unit_size : Z;
  pd_alignment : Z;
  pd_units_per_block : Z;
  pd_header_type : pobj_header_type;
  pd_class_id : Z
}.

Definition ERANGE : Z := 34.
Definition ENOENT : Z := 2.
Definition MEGABYTE : Z := Z.shiftl 1 20.
Definition PMEMOBJ_MIN_PART : Z := 1024 * 1024 * 2.
Definition MAX_ALLOC_SIZE : Z := 0x3FFDFFFC0.
Definition CHUNK_ALIGN_UP (value : Z) : Z := u64 (value + (CHUNKSIZE - 1)) &&& (2 ^ 64 - CHUNKSIZE).

Definition pmalloc_header_type_parser (arg : string) : res pobj_header_type :=
  if String.eqb arg "none" then Ok POBJ_HEADER_NONE
  else if String.eqb arg "compact" then Ok POBJ_HEADER_COMPACT
  else if String.eqb arg "legacy" then Ok POBJ_HEADER_LEGACY
  else Fail EINVAL.

Definition lib_htype (t : pobj_header_type) : option header_type :=
  match t with
  | POBJ_HEADER_LEGACY => Some HEADER_LEGACY
  | POBJ_HEADER_COMPACT => Some HEADER_COMPACT
  | POBJ_HEADER_NONE => Some HEADER_NONE
  | MAX_POBJ_HEADER_TYPES => None
  end.
Definition user_htype (t : header_type) : pobj_header_type :=
  match t with HEADER_LEGACY => POBJ_HEADER_LEGACY | HEADER_COMPACT => POBJ_HEADER_COMPACT | HEADER_NONE => POBJ_HEADER_NONE end.

(** The error number of the checks of a description. *)
Definition desc_check (p : pobj_alloc_class_desc) : option Z :=
  if (pd_unit_size p <=? 0) || (MAX_ALLOC_SIZE <? pd_unit_size p) || (pd_units_per_block p <=? 0) then Some EINVAL
  else if negb (pd_alignment p =? 0) && negb (pd_unit_size p mod pd_alignment p =? 0) then Some EINVAL
  else if MEGABYTE * 2 <? pd_alignment p then Some EINVAL
  else None.

(** How many chunks a run gets. *)
Definition desc_size_idx (p : pobj_alloc_class_desc) : Z :=
  let runsize_bytes := CHUNK_ALIGN_UP (u64 (pd_units_per_block p * pd_unit_size p + RUN_BASE_METADATA_SIZE)) in
  let runsize_bytes := if pd_alignment p =? 0 then runsize_bytes else u64 (runsize_bytes + pd_alignment p) in
  let size_idx := u32 (runsize_bytes / CHUNKSIZE) in
  if 2 ^ 16 - 1 <? size_idx then 2 ^ 16 - 1 else size_idx.

Section ctl.
Context {C R : Type} (p_ops : pmem_ops) (layout sizep : Z) (util_pool_extend : Z → M pmem (option Z)).
Context (new_run : bool → option (R * block_container_ops R)).
Local Abbreviation MR A := (M (rheap C R) A).

(** The slot of a new class: the index of the query, or the first free one. *)
Definition desc_slot (index : option Z) : MR Z :=
  match index with
  | None => id ← on_heap (on_classes alloc_class_find_first_free_slot); match id with Some id => mret id | None => fail EINVAL end
  | Some v =>
      if (v <? 0) || (MAX_ALLOCATION_CLASSES <=? v) then fail ERANGE
      else ok ← on_heap (on_classes (alloc_class_reserve (u8 v))); if (ok : bool) then mret (u8 v) else fail EEXIST
  end.

(** [CTL_WRITE_HANDLER(desc)]: the description with the identifier and the number of units. *)
Definition desc_write (index : option Z) (p : pobj_alloc_class_desc) : MR pobj_alloc_class_desc :=
  match desc_check p, lib_htype (pd_header_type p) with
  | Some e, _ => fail e
  | None, None => fail EINVAL
  | None, Some ht =>
      id ← desc_slot index;
      c ← on_heap (on_classes (alloc_class_new id CLASS_RUN ht (pd_unit_size p) (pd_alignment p) (desc_size_idx p)));
      if c =? 0 then fail EINVAL
      else
        ok ← heap_create_alloc_class_buckets new_run c;
        if negb ok then on_heap (on_classes (alloc_class_delete c));; fail ENOMEM
        else
          a ← on_heap (on_classes (class_at c));
          r ← on_heap (on_classes (class_run a));
          mret (PobjAllocClassDesc (pd_unit_size p) (pd_alignment p) (rc_nallocs r) (pd_header_type p) (ac_id a))
  end.

(** [CTL_READ_HANDLER(desc)] *)
Definition desc_read (index : Z) : MR pobj_alloc_class_desc :=
  if (index <? 0) || (MAX_ALLOCATION_CLASSES <=? index) then fail ERANGE
  else
    c ← on_heap (on_classes (alloc_class_by_id (u8 index)));
    if c =? 0 then fail ENOENT
    else
      a ← on_heap (on_classes (class_at c));
      units ← (if decide (ac_type a = CLASS_HUGE) then mret 0 else r ← on_heap (on_classes (class_run a)); mret (rc_nallocs r));
      align ← (if (ac_flags a &&& CHUNK_FLAG_ALIGNED) =? 0 then mret 0 else r ← on_heap (on_classes (class_run a)); mret (rc_alignment r));
      mret (PobjAllocClassDesc (ac_unit_size a) align units (user_htype (ac_header_type a)) (ac_id a)).

(** [CTL_RUNNABLE_HANDLER(extend)]; [arg_in] is signed. *)
Definition extend_run (arg_in : Z) : MR Z :=
  if arg_in <? PMEMOBJ_MIN_PART then mret (-1)
  else
    _ ← heap_bucket_acquire_by_id DEFAULT_ALLOC_CLASS_ID;
    r ← on_heap (heap_extend p_ops layout sizep util_pool_extend arg_in);
    mret (match r with ExtendFailed => -1 | _ => 0 end).
End ctl.

(** The signed number of a 32-bit word. *)
Definition s32 (x : Z) : Z := let y := u32 x in if y <? 2 ^ 31 then y else y - 2 ^ 32.

(** [heap.growsize] is the state; [arg]: the eight bytes of the argument.  [CTL_READ_HANDLER(granularity)], [CTL_WRITE_HANDLER(granularity)] *)
Definition granularity_read : M Z Z := gets id.
Definition granularity_write (arg : Z) : M Z Z :=
  let arg_in := s32 arg in
  if negb (arg_in =? 0) && (arg_in <? PMEMOBJ_MIN_PART) then mret (-1)
  else modify (λ _, u64 arg_in);; mret 0.

(** ** Arguments that are not what the caller wrote *)

(** The argument is registered as a [long long] but the handler reads an [int]: a granularity of 4 GiB is accepted and stored as 0, that turns growing off, and one of 3 GiB is
    refused as too small. *)
Theorem granularity_write_truncates g : granularity_write (2 ^ 32) g = (Ok 0, 0) ∧ granularity_write (3 * 2 ^ 30) g = (Ok (-1), g).
Proof. split; reflexivity. Qed.

(** The size of a run wraps around: a class of 2 ^ 31 units of 8 GiB passes the checks and gets runs of one chunk. *)
Theorem desc_size_wraps : let p := PobjAllocClassDesc (2 ^ 33) 0 (2 ^ 31) POBJ_HEADER_COMPACT 0 in desc_check p = None ∧ desc_size_idx p = 1.
Proof. split; reflexivity. Qed.
(** An alignment that is not a power of two is accepted. *)
Theorem desc_alignment_any : desc_check (PobjAllocClassDesc 96 48 100 POBJ_HEADER_COMPACT 0) = None.
Proof. reflexivity. Qed.
