(* ===== verification/Tx.v ===== *)
(** * libpmemobj: transactions

    Models [libpmemobj/tx.c]: the stages of a transaction and its nesting, the locks it takes, the tree of the ranges that have been
    snapshotted, and the allocations and frees that are published when it commits.  The state has one pool; the thread of
    the caller and the lanes are those of [LaneHold.v], the contexts of the lane that is held are used for the operations.

    [longjmp] with an error number is [Fail]; a function that returns an error number returns it as a value.  [FATAL], a
    failing assertion and a lock that cannot be released are [Undef].  Addresses are offsets: the pool is at 0.  The Valgrind calls are left out. *)

From stdpp Require Import base gmap list numbers.
From S2P Require Import Prelude Memory Pmem Util Ulog Container ContainerSeglists Ravl Bucket Cuckoo Memops Lane LaneHold Memblock AllocClass Recycler Heap HeapRun Palloc.
Local Open Scope Z_scope.

(** ** Data *)

Inductive pobj_tx_stage : Type := TX_STAGE_NONE | TX_STAGE_WORK | TX_STAGE_ONCOMMIT | TX_STAGE_ONABORT | TX_STAGE_FINALLY.
Inductive pobj_tx_param : Type := TX_PARAM_NONE | TX_PARAM_MUTEX | TX_PARAM_RWLOCK | TX_PARAM_CB.

#[global] Instance pobj_tx_stage_eq_dec : EqDecision pobj_tx_stage.
Proof. solve_decision. Defined.
#[global] Instance pobj_tx_param_eq_dec : EqDecision pobj_tx_param.
Proof. solve_decision. Defined.

Definition POBJ_FLAG_ZERO : Z := Z.shiftl 1 0.
Definition POBJ_FLAG_NO_FLUSH : Z := Z.shiftl 1 1.
Definition POBJ_XALLOC_CLASS_MASK : Z := Z.shiftl (Z.shiftl 1 16 - 1) 48.
Definition POBJ_TX_XALLOC_VALID_FLAGS : Z := POBJ_FLAG_ZERO ||| POBJ_FLAG_NO_FLUSH ||| POBJ_XALLOC_CLASS_MASK.
Definition POBJ_XADD_VALID_FLAGS : Z := POBJ_FLAG_NO_FLUSH.
Definition CLASS_ID_FROM_FLAG (flag : Z) : Z := u16 (Z.shiftr flag 48).
Definition PMEMOBJ_MAX_ALLOC_SIZE : Z := 0x3FFDFFFC0.
Definition _POBJ_CL_SIZE : Z := 64.
Definition TX_DEFAULT_RANGE_CACHE_SIZE : Z := Z.shiftl 1 15.

Record PMEMoid : Type := Oid { oid_pool_uuid_lo : Z; oid_off : Z }.
Definition OID_NULL : PMEMoid := Oid 0 0.
Definition OBJ_OID_IS_NULL (oid : PMEMoid) : bool := oid_off oid =? 0.

Record tx_lock_data : Type := TxLockData { txl_lock : Z; txl_type : pobj_tx_param }.
(** What [copy_ptr] points to: an object of the pool, or memory of the caller. *)
Inductive copy_src : Type := SrcPool (off : Z) | SrcUser (bs : list Z).
Record tx_alloc_args : Type := TxAllocArgs { ta_flags : Z; ta_copy_ptr : option copy_src; ta_copy_size : Z }.
Record tx_range_def : Type := TxRangeDef { rd_offset : Z; rd_size : Z; rd_flags : Z }.
Record tx_range_data : Type := TxRangeData { txr_begin : Z; txr_end : Z }.

#[global] Instance tx_range_def_eq_dec : EqDecision tx_range_def.
Proof. solve_decision. Defined.

(** The bytes of a range definition in a node of the tree. *)
Definition sizeof_tx_range_def : Z := 24.
Definition range_bytes (r : tx_range_def) : list Z := le_bytes 8 (rd_offset r) ++ le_bytes 8 (rd_size r) ++ le_bytes 8 (rd_flags r).
Definition range_at (d : dref) : tx_range_def :=
  match d with
  | Own bs => TxRangeDef (le_of (take 8 bs)) (le_of (take 8 (drop 8 bs))) (le_of (take 8 (drop 16 bs)))
  | Ptr _ => TxRangeDef 0 0 0
  end.

Definition tx_range_def_cmp (lhs rhs : dref) : Z :=
  let l := range_at lhs in
  let r := range_at rhs in
  if rd_offset r <? rd_offset l then 1 else if rd_offset l <? rd_offset r then -1 else 0.

(** [struct tx], with the capacity of the vector of actions; an entry says whether its [env] is not zero.  [tx_lane]: the number of the lane, [None] for
    [NULL]; a pool is a number, 0 for [NULL]. *)
Record tx : Type := Tx {
  tx_pop : Z;
  tx_stage : pobj_tx_stage;
  tx_last_errnum : Z;
  tx_lane : option Z;
  tx_locks : list tx_lock_data;
  tx_entries : list bool;
  tx_ranges : option ravl;
  tx_actions : list pobj_action_internal;
  tx_actions_capacity : Z;
  tx_stage_callback : option (Z * Z);
  tx_first_snapshot : bool
}.

Definition set_stage (x : pobj_tx_stage) (t : tx) : tx :=
  Tx (tx_pop t) x (tx_last_errnum t) (tx_lane t) (tx_locks t) (tx_entries t) (tx_ranges t) (tx_actions t) (tx_actions_capacity t) (tx_stage_callback t) (tx_first_snapshot t).
Definition set_errnum (x : Z) (t : tx) : tx :=
  Tx (tx_pop t) (tx_stage t) x (tx_lane t) (tx_locks t) (tx_entries t) (tx_ranges t) (tx_actions t) (tx_actions_capacity t) (tx_stage_callback t) (tx_first_snapshot t).
Definition set_lane (x : option Z) (t : tx) : tx :=
  Tx (tx_pop t) (tx_stage t) (tx_last_errnum t) x (tx_locks t) (tx_entries t) (tx_ranges t) (tx_actions t) (tx_actions_capacity t) (tx_stage_callback t) (tx_first_snapshot t).
Definition set_tx_locks (x : list tx_lock_data) (t : tx) : tx :=
  Tx (tx_pop t) (tx_stage t) (tx_last_errnum t) (tx_lane t) x (tx_entries t) (tx_ranges t) (tx_actions t) (tx_actions_capacity t) (tx_stage_callback t) (tx_first_snapshot t).
Definition set_entries (x : list bool) (t : tx) : tx :=
  Tx (tx_pop t) (tx_stage t) (tx_last_errnum t) (tx_lane t) (tx_locks t) x (tx_ranges t) (tx_actions t) (tx_actions_capacity t) (tx_stage_callback t) (tx_first_snapshot t).
Definition set_ranges (x : option ravl) (t : tx) : tx :=
  Tx (tx_pop t) (tx_stage t) (tx_last_errnum t) (tx_lane t) (tx_locks t) (tx_entries t) x (tx_actions t) (tx_actions_capacity t) (tx_stage_callback t) (tx_first_snapshot t).
Definition set_actions (x : list pobj_action_internal) (n : Z) (t : tx) : tx :=
  Tx (tx_pop t) (tx_stage t) (tx_last_errnum t) (tx_lane t) (tx_locks t) (tx_entries t) (tx_ranges t) x n (tx_stage_callback t) (tx_first_snapshot t).
Definition set_callback (x : option (Z * Z)) (t : tx) : tx :=
  Tx (tx_pop t) (tx_stage t) (tx_last_errnum t) (tx_lane t) (tx_locks t) (tx_entries t) (tx_ranges t) (tx_actions t) (tx_actions_capacity t) x (tx_first_snapshot t).
Definition set_first_snapshot (x : bool) (t : tx) : tx :=
  Tx (tx_pop t) (tx_stage t) (tx_last_errnum t) (tx_lane t) (tx_locks t) (tx_entries t) (tx_ranges t) (tx_actions t) (tx_actions_capacity t) (tx_stage_callback t) x.
Definition set_pop (x : Z) (t : tx) : tx :=
  Tx x (tx_stage t) (tx_last_errnum t) (tx_lane t) (tx_locks t) (tx_entries t) (tx_ranges t) (tx_actions t) (tx_actions_capacity t) (tx_stage_callback t) (tx_first_snapshot t).

(** The transaction of the thread, the lanes, the allocator, the locks that the thread holds, and the outcomes of the next allocations of volatile
    memory. *)
Record tx_state (C R : Type) : Type := TxState {
  ts_tx : tx;
  ts_hold : hold_state;
  ts_palloc : palloc_state C R;
  ts_held : gset Z;
  ts_malloc : list bool
}.
Arguments TxState {C R}.
Arguments ts_tx {C R}.
Arguments ts_hold {C R}.
Arguments ts_palloc {C R}.
Arguments ts_held {C R}.
Arguments ts_malloc {C R}.

#[global] Instance tx_has_mem C R : HasMem (tx_state C R) := λ s, mem_of (ts_palloc s).

(** ** Restoring a snapshot around locks *)

Section restore.
Context (p_ops : pmem_ops).
(** Whether a record of a range that begins there can be allocated. *)
Context (txr_malloc : Z → bool).

(** The list is [before ++ txr :: l]; new records go to its head.  [None]: [FATAL]. *)
Fixpoint remove_range_loop (begin_ end_ : Z) (before l : list tx_range_data) : option (list tx_range_data) :=
  match l with
  | [] => Some before
  | txr :: l =>
      if (txr_end txr <=? begin_) || (end_ <? txr_begin txr) then remove_range_loop begin_ end_ (before ++ [txr]) l
      else
        let left := txr_begin txr <? begin_ in
        let right := end_ <? txr_end txr in
        if (left && negb (txr_malloc (txr_begin txr))) || (right && negb (txr_malloc end_)) then None
        else
          remove_range_loop begin_ end_
            ((if right then [TxRangeData end_ (txr_end txr)] else []) ++ (if left then [TxRangeData (txr_begin txr) begin_] else []) ++ before) l
  end.
Definition tx_remove_range (tx_ranges : list tx_range_data) (begin_ end_ : Z) : option (list tx_range_data) :=
  remove_range_loop begin_ end_ [] tx_ranges.

(** The ranges without the locks of the transaction. *)
Fixpoint remove_locks (tx_locks : list tx_lock_data) (ranges : list tx_range_data) : option (list tx_range_data) :=
  match tx_locks with
  | [] => Some ranges
  | txl :: tx_locks => rs ← tx_remove_range ranges (txl_lock txl) (txl_lock txl + _POBJ_CL_SIZE); remove_locks tx_locks rs
  end.

(** [range]: the address of the entry. *)
Fixpoint restore_loop (range dst : Z) (l : list tx_range_data) : M pmem unit :=
  match l with
  | [] => mret tt
  | txr :: l =>
      if (txr_begin txr <? dst) || (txr_end txr <? txr_begin txr) then undef
      else
        src ← in_mem (λ m, rdn m (entry_data range + (txr_begin txr - dst)) (Z.to_nat (txr_end txr - txr_begin txr)));
        modify (λ p, op_memcpy p_ops p (txr_begin txr) src 0);;
        restore_loop range dst l
  end.
Definition tx_restore_range (tx_locks : list tx_lock_data) (range : Z) : M pmem unit :=
  off ← in_mem (λ m, ulog_entry_offset m range);
  size ← in_mem (λ m, entry_f_size m range);
  if negb (txr_malloc off) then undef
  else
    match remove_locks tx_locks [TxRangeData off (off + size)] with
    | None | Some [] => undef
    | Some ranges => restore_loop range off ranges
    end.

Definition tx_undo_entry_apply (tx_locks : list tx_lock_data) (e : Z) : M pmem Z :=
  t ← in_mem (λ m, ulog_entry_type m e);
  if t =? ULOG_OPERATION_BUF_CPY then tx_restore_range tx_locks e;; mret 0 else undef.
End restore.

(** The callback of [ravl_delete_cb]; [OBJ_OFF_TO_PTR] is the identity. *)
Definition tx_flush_range (p_ops : pmem_ops) (range : tx_range_def) (p : pmem) : pmem :=
  if (rd_flags range &&& POBJ_FLAG_NO_FLUSH) =? 0 then op_flush p_ops p (rd_offset range) (rd_size range) PMEMOBJ_F_RELAXED else p.

(** The constructor of an object: the user data and its size. *)
Definition constructor_tx_alloc (args : tx_alloc_args) (ptr usable_size : Z) : M pmem Z :=
  (if (ta_flags args &&& POBJ_FLAG_ZERO) =? 0 then mret tt else modify (λ p, pm_store p ptr (zeros usable_size)));;
  (match ta_copy_ptr args with
   | Some src =>
       if ta_copy_size args =? 0 then mret tt
       else
         bs ← (match src with
               | SrcPool off => in_mem (λ m, rdn m off (Z.to_nat (ta_copy_size args)))
               | SrcUser bs => mret (take (Z.to_nat (ta_copy_size args)) bs)
               end);
         modify (λ p, pm_store p ptr bs)
   | None => mret tt
   end);;
  mret 0.

(** A call whose error number is looked at. *)
Definition attempt {S A} (f : M S A) : M S (A + Z) := λ s,
  match f s with
  | (Ok a, s') => (Ok (inl a), s')
  | (Fail e, s') => (Ok (inr e), s')
  | (Undef, s') => (Undef, s')
  end.

Definition VEC_INIT_SIZE : Z := 64.

(** The arguments of [pmemobj_tx_begin] after [env]. *)
Inductive tx_param : Type := ParamLock (type : pobj_tx_param) (lock : Z) | ParamCb (cb arg : Z).

Section tx.
Context {C R : Type}.
Local Abbreviation MT A := (M (tx_state C R) A).

(** The pool: its number and the low part of its identifier, and what the allocator and the operations take as arguments. *)
Context (pool uuid_lo : Z) (p_ops : pmem_ops) (layout sizep nlocks : Z) (pop : pool_layout) (padding : list Z) (alloc_pattern : Z).
Context (util_pool_extend : Z → M pmem (option Z)) (locked : Z → bool) (growsize : Z) (fuel : nat).
Context (ulog_free : Z → M pmem unit) (push_ok : nat → bool) (redo_extend undo_extend : option (Z → M pmem unit)).
Context (qsort : list pobj_action_internal → list pobj_action_internal).
(** For taking a lane. *)
Context (malloc zalloc tls_ok has_remote_replicas : bool).
(** For rolling back, the result of taking a lock, and the callback of the user given its address, the pool, the stage and its argument. *)
Context (txr_malloc : Z → bool) (os_lock : Z → Z) (callback : Z → Z → pobj_tx_stage → Z → MT unit).

(** *** Access to the parts of the state *)

Definition get_tx {A} (f : tx → A) : MT A := gets (f ∘ ts_tx).
Definition mod_tx (f : tx → tx) : MT unit := modify (λ s, TxState (f (ts_tx s)) (ts_hold s) (ts_palloc s) (ts_held s) (ts_malloc s)).
Definition on_hold {A} (f : M hold_state A) : MT A := λ s,
  let '(r, h) := f (ts_hold s) in (r, TxState (ts_tx s) h (ts_palloc s) (ts_held s) (ts_malloc s)).
Definition on_pa {A} (f : M (palloc_state C R) A) : MT A := λ s,
  let '(r, p) := f (ts_palloc s) in (r, TxState (ts_tx s) (ts_hold s) p (ts_held s) (ts_malloc s)).
Definition on_tpm {A} (f : M pmem A) : MT A := on_pa (on_ppm f).
Definition Malloc_tx : MT bool := λ s,
  (Ok (default true (head (ts_malloc s))), TxState (ts_tx s) (ts_hold s) (ts_palloc s) (ts_held s) (tail (ts_malloc s))).

(** The lane of the transaction. *)
Definition tx_lane_of (s : tx_state C R) : option (Z * lane) :=
  i ← tx_lane (ts_tx s); l ← lookupZ (hs_lanes (ts_hold s)) i; Some (i, l).
Definition put_lane (i : Z) (l : lane) : MT unit := on_hold (modify (λ h, HoldState (hs_thread h) (hs_shared h) (updZ (hs_lanes h) i l))).
Definition set_external (c : operation_context) (l : lane) : lane := Lane (ln_layout l) (ln_internal l) c (ln_undo l).
Definition set_undo (c : operation_context) (l : lane) : lane := Lane (ln_layout l) (ln_internal l) (ln_external l) c.

(** The allocator with the operation context [c]. *)
Definition with_ctx (c : operation_context) : MT unit :=
  on_pa (modify (λ p, PallocState (pa_heap p) c (pa_alloc p) (pa_locks p) (pa_size_allocated p))).
(** [f] on [tx->lane->external] or [tx->lane->undo]. *)
Definition on_external {A} (f : M (palloc_state C R) A) : MT A := λ s,
  match tx_lane_of s with
  | None => (Undef, s)
  | Some (i, l) =>
      let '(r, s) := on_pa f (with_ctx (ln_external l) s).2 in
      (r, (put_lane i (set_external (pa_ctx (ts_palloc s)) l) s).2)
  end.
Definition on_undo {A} (f : M mstate A) : MT A := λ s,
  match tx_lane_of s with
  | None => (Undef, s)
  | Some (i, l) =>
      let '(r, s) := on_pa (on_operation f) (with_ctx (ln_undo l) s).2 in
      (r, (put_lane i (set_undo (pa_ctx (ts_palloc s)) l) s).2)
  end.
Definition on_ranges {A} (f : M ravl A) : MT A := λ s,
  match tx_ranges (ts_tx s) with
  | None => (Undef, s)
  | Some r => let '(x, r) := f r in (x, (mod_tx (set_ranges (Some r)) s).2)
  end.

(** *** Actions *)

(** [VEC_INC_BACK]; the new element is not initialised.  Without memory the vector stays as it is, which the callers do not look at. *)
Definition VEC_INC_BACK : MT unit :=
  n ← get_tx (λ t, len (tx_actions t));
  cap ← get_tx tx_actions_capacity;
  ok ← (if cap =? n then Malloc_tx else mret true);
  if (ok : bool)
  then mod_tx (λ t, set_actions (tx_actions t ++ [PobjAction None (ActionMem 0 0)])
                      (if cap =? n then (if cap =? 0 then VEC_INIT_SIZE else cap * 2) else cap) t)
  else mret tt.
(** Writes to [VEC_BACK]. *)
Definition VEC_BACK_put (a : pobj_action_internal) : MT unit :=
  l ← get_tx tx_actions;
  match l with
  | [] => undef
  | _ => mod_tx (λ t, set_actions (removelast (tx_actions t) ++ [a]) (tx_actions_capacity t) t)
  end.
(** On an empty vector the size would wrap around. *)
Definition VEC_POP_BACK : MT unit :=
  l ← get_tx tx_actions;
  match l with [] => undef | _ => mod_tx (λ t, set_actions (removelast (tx_actions t)) (tx_actions_capacity t) t) end.
(** The element at the position [i] is replaced by the last one. *)
Definition VEC_ERASE_BY_PTR (i : nat) : MT unit :=
  mod_tx (λ t,
    let l := tx_actions t in
    set_actions (removelast (match l !! pred (length l) with Some x => <[i := x]> l | None => l end)) (tx_actions_capacity t) t).

(** The error number when the function returns [NULL]. *)
Definition tx_action_add : MT (option Z) :=
  n ← get_tx (λ t, len (tx_actions t));
  e ← on_external (on_operation (errno_of (operation_reserve redo_extend fuel ((n + 1) * sizeof_ulog_entry_val))));
  match e with
  | Some e => mret (Some e)
  | None => VEC_INC_BACK;; mret None
  end.
Definition tx_action_remove : MT unit := VEC_POP_BACK.

(** *** Locks *)

(** [pmemobj_mutex_lock], [pmemobj_rwlock_wrlock] and their counterparts. *)
Definition pmemobj_lock (lock : Z) : MT Z := λ s,
  if decide (lock ∈ ts_held s) then (Undef, s)
  else if os_lock lock =? 0 then (Ok 0, TxState (ts_tx s) (ts_hold s) (ts_palloc s) ({[lock]} ∪ ts_held s) (ts_malloc s))
  else (Ok (os_lock lock), s).
Definition pmemobj_unlock (lock : Z) : MT unit := λ s,
  if decide (lock ∈ ts_held s) then (Ok tt, TxState (ts_tx s) (ts_hold s) (ts_palloc s) (ts_held s ∖ {[lock]}) (ts_malloc s))
  else (Undef, s).
Definition is_lock_type (type : pobj_tx_param) : bool := bool_decide (type = TX_PARAM_MUTEX ∨ type = TX_PARAM_RWLOCK).

Definition add_to_tx_and_lock (type : pobj_tx_param) (lock : Z) : MT Z :=
  l ← get_tx tx_locks;
  if existsb (λ txl, txl_lock txl =? lock) l then mret 0
  else
    ok ← Malloc_tx;
    if negb ok then mret ENOMEM
    else if negb (is_lock_type type) then undef
    else
      retval ← pmemobj_lock lock;
      mod_tx (λ t, set_tx_locks (TxLockData lock type :: tx_locks t) t);;
      mret retval.

Fixpoint release_locks_loop (l : list tx_lock_data) : MT unit :=
  match l with
  | [] => mret tt
  | tx_lock :: l =>
      mod_tx (set_tx_locks l);;
      (if is_lock_type (txl_type tx_lock) then pmemobj_unlock (txl_lock tx_lock) else undef);;
      release_locks_loop l
  end.
Definition release_and_free_tx_locks : MT unit := l ← get_tx tx_locks; release_locks_loop l.

(** *** Aborting *)

Definition tx_abort_set : MT unit :=
  locks ← get_tx tx_locks;
  u ← (λ s, match tx_lane_of s with Some (_, l) => (Ok (Lane.lane_undo (ln_layout l)), s) | None => (Undef, s) end);
  on_tpm (ignore (ulog_foreach_entry fuel u (tx_undo_entry_apply p_ops txr_malloc locks)));;
  on_undo (operation_finish p_ops ulog_free push_ok fuel).

(** The callback that cleans a range is for Valgrind only. *)
Definition tx_abort : MT unit :=
  tx_abort_set;;
  on_ranges ravl_delete_cb;;
  actv ← get_tx tx_actions;
  on_pa (palloc_cancel p_ops layout actv);;
  mod_tx (λ t, set_actions [] (tx_actions_capacity t) t);;
  mod_tx (set_ranges None).

Definition obj_tx_callback : MT unit :=
  cb ← get_tx tx_stage_callback;
  match cb with
  | None => mret tt
  | Some (cb, arg) =>
      entries ← get_tx tx_entries;
      match entries with
      | [] => undef
      | [_] => p ← get_tx tx_pop; stage ← get_tx tx_stage; callback cb p stage arg
      | _ => mret tt
      end
  end.

Definition release_lane : MT unit := on_hold (lane_release malloc zalloc tls_ok uuid_lo has_remote_replicas);; mod_tx (set_lane None).

(** [ASSERT_TX_STAGE_WORK]; it implies [ASSERT_IN_TX]. *)
Definition assert_stage_work : MT unit :=
  stage ← get_tx tx_stage; if bool_decide (stage = TX_STAGE_WORK) then mret tt else undef.

Definition obj_tx_abort (errnum : Z) : MT unit :=
  assert_stage_work;;
  lane ← get_tx tx_lane;
  match lane with
  | None => undef
  | Some _ =>
      let errnum := if errnum =? 0 then ECANCELED else errnum in
      mod_tx (set_stage TX_STAGE_ONABORT);;
      entries ← get_tx tx_entries;
      match entries with
      | [] => undef
      | env :: outer =>
          (match outer with [] => tx_abort;; release_lane | _ => mret tt end);;
          mod_tx (set_errnum errnum);;
          obj_tx_callback;;
          if (env : bool) then fail errnum else mret tt
      end
  end.
Definition obj_tx_abort_err (errnum : Z) : MT Z := obj_tx_abort errnum;; mret errnum.
Definition obj_tx_abort_null (errnum : Z) : MT PMEMoid := obj_tx_abort errnum;; mret OID_NULL.
Definition pmemobj_tx_abort (errnum : Z) : MT unit := obj_tx_abort errnum.

(** *** Begin, commit and end *)

Fixpoint params_loop (params : list tx_param) : MT Z :=
  match params with
  | [] => mret 0
  | ParamCb cb arg :: params =>
      old ← get_tx tx_stage_callback;
      if bool_decide (old = None ∨ old = Some (cb, arg)) then mod_tx (set_callback (Some (cb, arg)));; params_loop params else undef
  | ParamLock type lock :: params =>
      err ← add_to_tx_and_lock type lock;
      if err =? 0 then params_loop params else mret err
  end.

(** [range_malloc]: the outcomes of the allocations of the tree of ranges.  The state has one pool. *)
Definition tx_begin_outermost (range_malloc : list bool) (p : Z) : MT unit :=
  if negb (p =? pool) then undef
  else
    i ← on_hold (lane_hold malloc zalloc tls_ok fuel uuid_lo has_remote_replicas true);
    mod_tx (set_lane (Some i));;
    on_undo operation_start;;
    mod_tx (λ t, set_first_snapshot true (set_pop p (set_ranges (ravl_new_sized sizeof_tx_range_def range_malloc)
                   (set_tx_locks [] (set_entries [] (set_actions [] 0 t))))));;
    mret tt.
Definition begin_abort (err : Z) : MT Z :=
  stage ← get_tx tx_stage;
  (if bool_decide (stage = TX_STAGE_WORK) then obj_tx_abort err else mod_tx (set_stage TX_STAGE_ONABORT));;
  mret err.
Definition tx_begin_entry (env : bool) (params : list tx_param) : MT Z :=
  ok ← Malloc_tx;
  if negb ok then begin_abort ENOMEM
  else
    mod_tx (λ t, set_stage TX_STAGE_WORK (set_entries (env :: tx_entries t) (set_errnum 0 t)));;
    err ← params_loop params;
    if err =? 0 then mret 0 else begin_abort err.
Definition pmemobj_tx_begin (range_malloc : list bool) (p : Z) (env : bool) (params : list tx_param) : MT Z :=
  t ← get_tx id;
  match tx_stage t with
  | TX_STAGE_WORK =>
      if bool_decide (tx_lane t = None) then undef
      else if negb (tx_pop t =? p) then obj_tx_abort_err EINVAL
      else tx_begin_entry env params
  | TX_STAGE_NONE => tx_begin_outermost range_malloc p;; tx_begin_entry env params
  | _ => undef
  end.

Definition pmemobj_tx_lock (type : pobj_tx_param) (lockp : Z) : MT Z := assert_stage_work;; add_to_tx_and_lock type lockp.

(** Flushes all ranges and destroys the tree. *)
Definition tx_pre_commit : MT unit :=
  l ← on_ranges ravl_delete_cb;
  on_tpm (modify (λ p, foldl (λ p d, tx_flush_range p_ops (range_at d) p) p l));;
  mod_tx (set_ranges None).
Definition tx_post_commit : MT unit :=
  on_undo (operation_finish p_ops ulog_free push_ok fuel);;
  mod_tx (λ t, set_actions [] (tx_actions_capacity t) t).

Definition pmemobj_tx_commit : MT unit :=
  assert_stage_work;;
  obj_tx_callback;;
  t ← get_tx id;
  match tx_lane t, tx_entries t with
  | None, _ | _, [] => undef
  | Some _, _ :: outer =>
      (match outer with
       | [] =>
           tx_pre_commit;;
           on_tpm (modify (op_drain p_ops));;
           on_external (on_operation operation_start);;
           actv ← get_tx tx_actions;
           on_external (palloc_publish p_ops layout pop fuel ulog_free push_ok qsort actv);;
           tx_post_commit;;
           release_lane
       | _ => mret tt
       end);;
      mod_tx (set_stage TX_STAGE_ONCOMMIT);;
      obj_tx_callback
  end.

Definition pmemobj_tx_end : MT Z :=
  t ← get_tx id;
  if bool_decide (tx_stage t = TX_STAGE_WORK) || (tx_pop t =? 0) then undef
  else
    (if bool_decide (tx_stage_callback t ≠ None) && bool_decide (tx_stage t = TX_STAGE_ONCOMMIT ∨ tx_stage t = TX_STAGE_ONABORT)
     then mod_tx (set_stage TX_STAGE_FINALLY);; obj_tx_callback
     else mret tt);;
    entries ← get_tx tx_entries;
    match entries with
    | [] => undef
    | _ :: outer =>
        mod_tx (set_entries outer);;
        (match outer with
         | [] =>
             lane ← get_tx tx_lane;
             if bool_decide (lane ≠ None) then undef
             else
               release_and_free_tx_locks;;
               mod_tx (λ t, set_actions [] 0 (set_stage TX_STAGE_NONE (set_pop 0 t)));;
               cb ← get_tx tx_stage_callback;
               match cb with
               | None => mret tt
               | Some (cb, arg) => mod_tx (set_callback None);; p ← get_tx tx_pop; callback cb p TX_STAGE_NONE arg
               end
         | _ =>
             mod_tx (set_stage TX_STAGE_WORK);;
             e ← get_tx tx_last_errnum;
             if e =? 0 then mret tt else obj_tx_abort e
         end);;
        get_tx tx_last_errnum
    end.

Definition pmemobj_tx_process : MT unit :=
  stage ← get_tx tx_stage;
  match stage with
  | TX_STAGE_NONE => undef
  | TX_STAGE_WORK => pmemobj_tx_commit
  | TX_STAGE_ONABORT | TX_STAGE_ONCOMMIT => mod_tx (set_stage TX_STAGE_FINALLY);; obj_tx_callback
  | TX_STAGE_FINALLY => mod_tx (set_stage TX_STAGE_NONE)
  end.

(** *** Ranges *)

(** The range in the node [n]. *)
Definition get_range (n : Z) : MT tx_range_def := d ← on_ranges (node_data n); mret (range_at d).
Definition put_range (n : Z) (r : tx_range_def) : MT unit := on_ranges (node_mod n (n_set_data (range_bytes r))).

Definition tx_lane_ranges_insert_def (rdef : tx_range_def) : MT Z :=
  e ← on_ranges (errno_of (ravl_emplace_copy tx_range_def_cmp (range_bytes rdef)));
  match e with
  | None => mret 0
  | Some e => if e =? EEXIST then undef else mret e
  end.

Definition pmemobj_tx_add_snapshot (snapshot : tx_range_def) : MT Z :=
  first ← get_tx tx_first_snapshot;
  e ← (if (first : bool) then
         e ← tx_action_add;
         match e with
         | Some _ => mret (-1)
         | None =>
             u ← (λ s, match tx_lane_of s with Some (_, l) => (Ok (ulog_data (Lane.lane_undo (ln_layout l))), s) | None => (Undef, s) end);
             VEC_BACK_put (palloc_set_value u 0);;
             mod_tx (set_first_snapshot false);;
             mret 0
         end
       else mret 0);
  if negb (e =? 0) then mret e
  else
    src ← look (gets (λ m, rdn m (rd_offset snapshot) (Z.to_nat (rd_size snapshot))));
    e ← on_undo (errno_of (operation_add_buffer p_ops undo_extend fuel (S (Z.to_nat (rd_size snapshot))) (rd_offset snapshot) src ULOG_OPERATION_BUF_CPY));
    mret (match e with Some _ => -1 | None => 0 end).

(** No range overlaps [r]: the adjacent one on the right grows, or there is a new one. *)
Definition add_uncovered (r : tx_range_def) (nprev : Z) : MT Z :=
  ret ← (if nprev =? 0 then tx_lane_ranges_insert_def r
         else
           fprev ← get_range nprev;
           if negb (u64 (rd_offset r + rd_size r) =? rd_offset fprev) then undef
           else put_range nprev (TxRangeDef (u64 (rd_offset fprev - rd_size r)) (u64 (rd_size fprev + rd_size r)) (rd_flags fprev));; mret 0);
  if negb (ret =? 0) then mret ret else pmemobj_tx_add_snapshot r.

(** The range in the node [n], that ends inside of [r] at [fend], grows to the end of [r] ... *)
Definition extend_found (args r : tx_range_def) (n fend : Z) : MT Z :=
  let snapshot := TxRangeDef fend (u64 (u64 (rd_offset r + rd_size r) - fend)) (rd_flags args) in
  f ← get_range n;
  put_range n (TxRangeDef (rd_offset f) (u64 (rd_size f + rd_size snapshot)) (rd_flags f));;
  if rd_size snapshot =? 0 then mret 0 else pmemobj_tx_add_snapshot snapshot.
(** ... and takes in the adjacent one on the right. *)
Definition merge_next (r : tx_range_def) (n nprev : Z) : MT unit :=
  if nprev =? 0 then mret tt
  else
    fprev ← get_range nprev;
    if negb (u64 (rd_offset r + rd_size r) =? rd_offset fprev) then undef
    else
      f ← get_range n;
      put_range n (TxRangeDef (rd_offset f) (u64 (rd_size f + rd_size fprev)) (rd_flags f));;
      on_ranges (ravl_remove nprev).

(** The loop of [pmemobj_tx_add_common]; [r] is what is left of the range. *)
Fixpoint add_loop (n_fuel : nat) (args r : tx_range_def) (p nprev : Z) : MT Z :=
  if rd_size r =? 0 then mret 0
  else
    match n_fuel with
    | O => undef
    | S n_fuel =>
        let rend := u64 (rd_offset r + rd_size r) in
        n ← on_ranges (ravl_find tx_range_def_cmp (Own (range_bytes (TxRangeDef rend 0 0))) p);
        f ← (if n =? 0 then mret (TxRangeDef 0 0 0) else get_range n);
        let fend := u64 (rd_offset f + rd_size f) in
        if (fend =? 0) || (fend <? rd_offset r) then add_uncovered r nprev
        else if fend <=? rend then
          let intersection := u64 (fend - Z.max (rd_offset f) (rd_offset r)) in
          ret ← extend_found args r n fend;
          if negb (ret =? 0) then mret ret
          else
            merge_next r n nprev;;
            add_loop n_fuel args (TxRangeDef (rd_offset r) (u64 (rd_size r - (intersection + u64 (rend - fend)))) (rd_flags r)) RAVL_PREDICATE_LESS n
        else if rd_offset r <=? fend then
          let overlap := u64 (rend - Z.max (rd_offset f) (rd_offset r)) in
          add_loop n_fuel args (TxRangeDef (rd_offset r) (u64 (rd_size r - overlap)) (rd_flags r)) RAVL_PREDICATE_LESS n
        else undef
    end.

(** Every turn but the first deals with another range. *)
Definition ranges_fuel (r : ravl) : nat := S (path_fuel r).

Definition pmemobj_tx_add_common (args : tx_range_def) : MT Z :=
  if PMEMOBJ_MAX_ALLOC_SIZE <? rd_size args then obj_tx_abort_err EINVAL
  else if (rd_offset args <? pl_heap_offset pop) || (u64 (pl_heap_offset pop + pl_heap_size pop) <? u64 (rd_offset args + rd_size args))
  then obj_tx_abort_err EINVAL
  else
    n ← on_ranges (gets ranges_fuel);
    ret ← add_loop n args args RAVL_PREDICATE_LESS_EQUAL 0;
    if negb (ret =? 0) then obj_tx_abort_err ENOMEM else mret 0.

Definition OBJ_PTR_FROM_POOL (ptr : Z) : bool := (0 <=? ptr) && (ptr <? pl_heap_offset pop + pl_heap_size pop).
Definition OBJ_OID_IS_VALID (oid : PMEMoid) : bool :=
  OBJ_OID_IS_NULL oid ||
  ((oid_pool_uuid_lo oid =? uuid_lo) && (pl_heap_offset pop <=? oid_off oid) && (oid_off oid <? u64 (pl_heap_offset pop + pl_heap_size pop))).

Definition pmemobj_tx_add_range_direct (ptr size : Z) : MT Z :=
  assert_stage_work;;
  if negb (OBJ_PTR_FROM_POOL ptr) then obj_tx_abort_err EINVAL
  else pmemobj_tx_add_common (TxRangeDef ptr size 0).
Definition pmemobj_tx_xadd_range_direct (ptr size flags : Z) : MT Z :=
  assert_stage_work;;
  if negb (OBJ_PTR_FROM_POOL ptr) then obj_tx_abort_err EINVAL
  else if negb (Z.ldiff flags POBJ_XADD_VALID_FLAGS =? 0) then obj_tx_abort_err EINVAL
  else pmemobj_tx_add_common (TxRangeDef ptr size flags).
Definition pmemobj_tx_add_range (oid : PMEMoid) (hoff size : Z) : MT Z :=
  assert_stage_work;;
  if negb (oid_pool_uuid_lo oid =? uuid_lo) then obj_tx_abort_err EINVAL
  else if negb (OBJ_OID_IS_VALID oid) then undef
  else pmemobj_tx_add_common (TxRangeDef (u64 (oid_off oid + hoff)) size 0).
Definition pmemobj_tx_xadd_range (oid : PMEMoid) (hoff size flags : Z) : MT Z :=
  assert_stage_work;;
  if negb (oid_pool_uuid_lo oid =? uuid_lo) then obj_tx_abort_err EINVAL
  else if negb (OBJ_OID_IS_VALID oid) then undef
  else if negb (Z.ldiff flags POBJ_XADD_VALID_FLAGS =? 0) then obj_tx_abort_err EINVAL
  else pmemobj_tx_add_common (TxRangeDef (u64 (oid_off oid + hoff)) size flags).

(** *** Objects *)

Definition err_oom : MT PMEMoid := tx_action_remove;; obj_tx_abort_null ENOMEM.

Definition tx_alloc_common (size type_num : Z) (args : tx_alloc_args) : MT PMEMoid :=
  if PMEMOBJ_MAX_ALLOC_SIZE <? size then obj_tx_abort_null ENOMEM
  else
    e ← tx_action_add;
    match e with
    | Some _ => obj_tx_abort_null ENOMEM
    | None =>
        act ← on_pa (attempt (palloc_reserve p_ops layout sizep nlocks padding alloc_pattern util_pool_extend locked growsize fuel
                               size (Some (constructor_tx_alloc args)) type_num 0 (CLASS_ID_FROM_FLAG (ta_flags args))));
        match act with
        | inr _ => err_oom
        | inl act =>
            VEC_BACK_put act;;
            let off := alloc_offset act in
            size ← look (palloc_usable_size layout off);
            ret ← tx_lane_ranges_insert_def (TxRangeDef off size (ta_flags args));
            if negb (ret =? 0) then err_oom else mret (Oid uuid_lo off)
        end
    end.

(** The position of the first action on the object. *)
Definition is_heap_action (off : Z) (a : pobj_action_internal) : bool :=
  match act_data a with ActionHeap o _ _ _ => o =? off | ActionMem _ _ => false end.

Definition pmemobj_tx_free (oid : PMEMoid) : MT Z :=
  assert_stage_work;;
  if OBJ_OID_IS_NULL oid then mret 0
  else if negb (uuid_lo =? oid_pool_uuid_lo oid) then obj_tx_abort_err EINVAL
  else if negb (OBJ_OID_IS_VALID oid) then undef
  else
    n ← on_ranges (ravl_find tx_range_def_cmp (Own (range_bytes (TxRangeDef (oid_off oid) 0 0))) RAVL_PREDICATE_EQUAL);
    actions ← get_tx tx_actions;
    match (if n =? 0 then None else list_find (λ a, is_heap_action (oid_off oid) a = true) actions) with
    | Some (i, action) =>
        on_ranges (ravl_remove n);;
        on_pa (palloc_cancel p_ops layout [action]);;
        VEC_ERASE_BY_PTR i;;
        mret 0
    | None =>
        e ← tx_action_add;
        match e with
        | Some e => obj_tx_abort_err e
        | None => act ← on_pa (palloc_defer_free layout nlocks (oid_off oid)); VEC_BACK_put act;; mret 0
        end
    end.

Definition tx_realloc_common (oid : PMEMoid) (size type_num flags : Z) : MT PMEMoid :=
  if PMEMOBJ_MAX_ALLOC_SIZE <? size then obj_tx_abort_null ENOMEM
  else if OBJ_OID_IS_NULL oid then tx_alloc_common size type_num (TxAllocArgs flags None 0)
  else if negb (OBJ_OID_IS_VALID oid) then undef
  else if size =? 0 then
    ret ← pmemobj_tx_free oid;
    mret (if ret =? 0 then OID_NULL else oid)
  else
    old_size ← look (palloc_usable_size layout (oid_off oid));
    new_obj ← tx_alloc_common size type_num (TxAllocArgs flags (Some (SrcPool (oid_off oid))) (if old_size <? size then old_size else size));
    if OBJ_OID_IS_NULL new_obj then mret new_obj
    else
      ret ← pmemobj_tx_free oid;
      if ret =? 0 then mret new_obj else VEC_POP_BACK;; mret OID_NULL.

Definition pmemobj_tx_alloc (size type_num : Z) : MT PMEMoid :=
  assert_stage_work;;
  if size =? 0 then obj_tx_abort_null EINVAL else tx_alloc_common size type_num (TxAllocArgs 0 None 0).
Definition pmemobj_tx_zalloc (size type_num : Z) : MT PMEMoid :=
  assert_stage_work;;
  if size =? 0 then obj_tx_abort_null EINVAL else tx_alloc_common size type_num (TxAllocArgs POBJ_FLAG_ZERO None 0).
Definition pmemobj_tx_xalloc (size type_num flags : Z) : MT PMEMoid :=
  assert_stage_work;;
  if size =? 0 then obj_tx_abort_null EINVAL
  else if negb (Z.ldiff flags POBJ_TX_XALLOC_VALID_FLAGS =? 0) then obj_tx_abort_null EINVAL
  else tx_alloc_common size type_num (TxAllocArgs flags None 0).
Definition pmemobj_tx_realloc (oid : PMEMoid) (size type_num : Z) : MT PMEMoid :=
  assert_stage_work;; tx_realloc_common oid size type_num 0.
Definition pmemobj_tx_zrealloc (oid : PMEMoid) (size type_num : Z) : MT PMEMoid :=
  assert_stage_work;; tx_realloc_common oid size type_num POBJ_FLAG_ZERO.

(** A string of [n]-byte characters: its bytes, with the terminator; [None] for [NULL]. *)
Definition tx_dup (n : Z) (str : option (list Z)) (type_num : Z) : MT PMEMoid :=
  assert_stage_work;;
  match str with
  | None => obj_tx_abort_null EINVAL
  | Some bs =>
      if len bs =? n then tx_alloc_common n type_num (TxAllocArgs POBJ_FLAG_ZERO None 0)
      else tx_alloc_common (len bs) type_num (TxAllocArgs 0 (Some (SrcUser bs)) (len bs))
  end.
Definition pmemobj_tx_strdup : option (list Z) → Z → MT PMEMoid := tx_dup 1.
Definition pmemobj_tx_wcsdup : option (list Z) → Z → MT PMEMoid := tx_dup 4.

(** [VEC_PUSH_BACK]; its result is not looked at, and without memory the element is not written. *)
Fixpoint publish_loop (actv : list pobj_action_internal) : MT unit :=
  match actv with
  | [] => mret tt
  | a :: actv =>
      n ← get_tx (λ t, len (tx_actions t));
      VEC_INC_BACK;;
      n' ← get_tx (λ t, len (tx_actions t));
      (if n =? n' then mret tt else VEC_BACK_put a);;
      publish_loop actv
  end.
Definition pmemobj_tx_publish (actv : list pobj_action_internal) : MT Z :=
  assert_stage_work;;
  n ← get_tx (λ t, len (tx_actions t));
  e ← on_external (on_operation (errno_of (operation_reserve redo_extend fuel ((n + len actv) * sizeof_ulog_entry_val))));
  match e with
  | Some _ => mret (-1)
  | None => publish_loop actv;; mret 0
  end.
End tx.

(** ** Parameters *)

(** [tx_params_new]: the size of the cache, [None] without memory; the handler that sets it gives an error or the new size. *)
Definition tx_params_new (malloc_ok : bool) : option Z := if malloc_ok then Some TX_DEFAULT_RANGE_CACHE_SIZE else None.
Definition CTL_WRITE_HANDLER_size (arg_in : Z) : option Z :=
  if (arg_in <? 0) || (PMEMOBJ_MAX_ALLOC_SIZE <? arg_in) then None else Some arg_in.
