(* ===== verification/ObjList.v ===== *)
(** * libpmemobj: atomic lists

    Models [libpmemobj/list.c]: circular doubly-linked lists of objects in the pool.  An operation collects all changes of links in the redo operation of a lane,
    that makes them at once; the allocation or the free of an element is published with them.

    Addresses are offsets: the pool is at 0.  A result of -1 with [errno] is [Fail]; an assertion that fails is [Undef].  The errors of
    [operation_add_entry] are not looked at, as in the code. *)

From stdpp Require Import base gmap list numbers.
From S2P Require Import Prelude Memory Pmem Util Ulog Container ContainerSeglists Ravl Bucket Cuckoo Memops Lane LaneHold Memblock AllocClass Recycler Heap HeapRun Palloc Pmalloc Tx.
Local Open Scope Z_scope.

(** ** Layout *)

Definition oid_at (m : mem) (a : Z) : PMEMoid := Oid (rd64 m a) (rd64 m (a + 8)).

(** The fields of [struct list_entry] and of [struct list_head]. *)
Definition pe_next (entry : Z) : Z := entry.
Definition pe_prev (entry : Z) : Z := entry + 16.
Definition sizeof_list_entry : Z := 32.
Definition pe_first (head : Z) : Z := head.
Definition head_lock (head : Z) : Z := head + 16.
(** The two words of an object identifier. *)
Definition uuid_addr (a : Z) : Z := a.
Definition off_addr (a : Z) : Z := a + 8.

Definition PREV_OFF : Z := pe_prev 0 + off_addr 0.
Definition NEXT_OFF : Z := pe_next 0 + off_addr 0.
Definition POBJ_LIST_DEST_HEAD : bool := true.

Record list_args_common : Type := ListArgsCommon { lc_pe_offset : Z; lc_obj_doffset : Z; lc_entry_ptr : Z }.
Record list_args_insert : Type := ListArgsInsert { lx_head : Z; lx_dest : PMEMoid; lx_dest_entry_ptr : Z; lx_before : bool }.
Record list_args_remove : Type := ListArgsRemove { lr_pe_offset : Z; lr_obj_doffset : Z; lr_head : Z; lr_entry_ptr : Z }.

(** [OBJ_OFF_TO_PTR] of an offset plus a signed one. *)
Definition entry_of (off pe_offset : Z) : Z := u64 (off + pe_offset).

Definition list_get_dest (head : Z) (dest : PMEMoid) (pe_offset : Z) (before : bool) (m : mem) : PMEMoid :=
  if negb (oid_off dest =? 0) then dest
  else
    let first := oid_at m (pe_first head) in
    if (oid_off first =? 0) || eqb before POBJ_LIST_DEST_HEAD then first
    else oid_at m (pe_prev (entry_of (oid_off first) pe_offset)).

(** [off] is signed. *)
Definition u64_add_offset {S} (value off : Z) : M S Z :=
  if 0 <=? off then let v := u64 (value + off) in if value <=? v then mret v else undef
  else let v := u64 (value - u64 (- off)) in if v <? value then mret v else undef.

(** ** Requests *)

Section requests.
Context (uuid_lo : Z) (p_ops : pmem_ops) (pop : pool_layout) (fuel : nat) (ulog_free : Z → M pmem unit) (push_ok : nat → bool).
Local Abbreviation MS A := (M mstate A).

Definition word (a : Z) : MS Z := gets (λ s, rd64 (pm_mem (me_pm (ms_env s))) a).
Definition check (b : bool) : MS unit := if b then mret tt else undef.
(** The result of [operation_add_entry] is not looked at. *)
Definition request_set (ptr value : Z) : MS unit :=
  ignore (operation_add_entry pop ptr value ULOG_OPERATION_SET).

Definition list_set_oid_redo_log (oidp obj_doffset : Z) (oidp_inited : bool) : MS unit :=
  check (OBJ_OFF_IS_VALID pop oidp);;
  u ← word (uuid_addr oidp);
  (if negb oidp_inited || negb (u =? uuid_lo) then
     (if oidp_inited then check (u =? 0) else mret tt);;
     request_set (uuid_addr oidp) uuid_lo
   else mret tt);;
  request_set (off_addr oidp) obj_doffset.

Definition list_update_head (head first_offset : Z) : MS unit :=
  request_set (off_addr (pe_first head)) first_offset;;
  u ← word (uuid_addr (pe_first head));
  if u =? 0 then request_set (uuid_addr (pe_first head)) uuid_lo else mret tt.

(** For newly allocated objects. *)
Definition list_fill_entry_persist (entry_ptr next_offset prev_offset : Z) : MS unit :=
  lift_pm (modify (λ p, pm_store p (uuid_addr (pe_next entry_ptr)) (le_bytes 8 uuid_lo)));;
  lift_pm (modify (λ p, pm_store p (off_addr (pe_next entry_ptr)) (le_bytes 8 next_offset)));;
  lift_pm (modify (λ p, pm_store p (uuid_addr (pe_prev entry_ptr)) (le_bytes 8 uuid_lo)));;
  lift_pm (modify (λ p, pm_store p (off_addr (pe_prev entry_ptr)) (le_bytes 8 prev_offset)));;
  lift_pm (modify (λ p, op_persist p_ops p entry_ptr sizeof_list_entry 0)).

(** For objects that exist. *)
Definition list_fill_entry_redo_log (args : list_args_common) (next_offset prev_offset : Z) (set_uuid : bool) : MS unit :=
  check (negb (lc_entry_ptr args =? 0));;
  check (negb (lc_obj_doffset args =? 0));;
  (if set_uuid then
     lift_pm (modify (λ p, pm_store p (uuid_addr (pe_next (lc_entry_ptr args))) (le_bytes 8 uuid_lo)));;
     lift_pm (modify (λ p, pm_store p (uuid_addr (pe_prev (lc_entry_ptr args))) (le_bytes 8 uuid_lo)));;
     lift_pm (modify (λ p, op_persist p_ops p (lc_entry_ptr args) sizeof_list_entry 0))
   else
     u ← word (uuid_addr (pe_next (lc_entry_ptr args)));
     check (u =? uuid_lo);;
     v ← word (uuid_addr (pe_prev (lc_entry_ptr args)));
     check (v =? uuid_lo));;
  next_ptr ← u64_add_offset (u64 (lc_obj_doffset args + NEXT_OFF)) (lc_pe_offset args);
  prev_ptr ← u64_add_offset (u64 (lc_obj_doffset args + PREV_OFF)) (lc_pe_offset args);
  request_set next_ptr next_offset;;
  request_set prev_ptr prev_offset.

Definition list_remove_single (args : list_args_remove) : MS unit :=
  next_off ← word (off_addr (pe_next (lr_entry_ptr args)));
  if next_off =? lr_obj_doffset args then
    first ← word (off_addr (pe_first (lr_head args)));
    check (first =? lr_obj_doffset args);;
    prev_off ← word (off_addr (pe_prev (lr_entry_ptr args)));
    check (prev_off =? lr_obj_doffset args);;
    list_update_head (lr_head args) 0
  else
    prev_ptr ← u64_add_offset (u64 (next_off + PREV_OFF)) (lr_pe_offset args);
    prev_off ← word (off_addr (pe_prev (lr_entry_ptr args)));
    next_ptr ← u64_add_offset (u64 (prev_off + NEXT_OFF)) (lr_pe_offset args);
    request_set prev_ptr prev_off;;
    request_set next_ptr next_off;;
    first ← word (off_addr (pe_first (lr_head args)));
    if first =? lr_obj_doffset args then list_update_head (lr_head args) next_off else mret tt.

(** The next and the previous element of the new one. *)
Definition list_insert_before (args : list_args_insert) (args_common : list_args_common) : MS (Z * Z) :=
  prev ← word (off_addr (pe_prev (lx_dest_entry_ptr args)));
  dest_prev_ptr ← u64_add_offset (u64 (oid_off (lx_dest args) + PREV_OFF)) (lc_pe_offset args_common);
  dest_prev_next_ptr ← u64_add_offset (u64 (prev + NEXT_OFF)) (lc_pe_offset args_common);
  request_set dest_prev_ptr (lc_obj_doffset args_common);;
  request_set dest_prev_next_ptr (lc_obj_doffset args_common);;
  mret (oid_off (lx_dest args), prev).
Definition list_insert_after (args : list_args_insert) (args_common : list_args_common) : MS (Z * Z) :=
  next ← word (off_addr (pe_next (lx_dest_entry_ptr args)));
  dest_next_ptr ← u64_add_offset (u64 (oid_off (lx_dest args) + NEXT_OFF)) (lc_pe_offset args_common);
  dest_next_prev_ptr ← u64_add_offset (u64 (next + PREV_OFF)) (lc_pe_offset args_common);
  request_set dest_next_ptr (lc_obj_doffset args_common);;
  request_set dest_next_prev_ptr (lc_obj_doffset args_common);;
  mret (next, oid_off (lx_dest args)).

Definition list_insert_user (args : list_args_insert) (args_common : list_args_common) : MS (Z * Z) :=
  if oid_off (lx_dest args) =? 0 then
    first ← word (off_addr (pe_first (lx_head args)));
    check (first =? 0);;
    list_update_head (lx_head args) (lc_obj_doffset args_common);;
    mret (lc_obj_doffset args_common, lc_obj_doffset args_common)
  else if lx_before args then
    r ← list_insert_before args args_common;
    first ← word (off_addr (pe_first (lx_head args)));
    (if oid_off (lx_dest args) =? first then list_update_head (lx_head args) (lc_obj_doffset args_common) else mret tt);;
    mret r
  else list_insert_after args args_common.

(** ** Whole operations, between taking and releasing the lane and the locks *)

Definition in_pool {A} (f : mem → A) : MS A := gets (λ s, f (pm_mem (me_pm (ms_env s)))).
Definition finish : MS unit := operation_finish p_ops ulog_free push_ok fuel.

Definition insert_requests (pe_offset head : Z) (dest : PMEMoid) (before : bool) (oid : PMEMoid) : MS unit :=
  dest ← in_pool (list_get_dest head dest pe_offset before);
  let args := ListArgsInsert head dest (entry_of (oid_off dest) pe_offset) before in
  let args_common := ListArgsCommon pe_offset (oid_off oid) (entry_of (oid_off oid) pe_offset) in
  r ← list_insert_user args args_common;
  list_fill_entry_redo_log args_common r.1 r.2 true.
Definition insert_operation (pe_offset head : Z) (dest : PMEMoid) (before : bool) (oid : PMEMoid) : MS unit :=
  operation_start;; insert_requests pe_offset head dest before oid;; finish.

Definition remove_requests (pe_offset head : Z) (oid : PMEMoid) : MS unit :=
  let entry_ptr := entry_of (oid_off oid) pe_offset in
  list_remove_single (ListArgsRemove pe_offset (oid_off oid) head entry_ptr);;
  list_fill_entry_redo_log (ListArgsCommon pe_offset (oid_off oid) entry_ptr) 0 0 false.
Definition remove_operation (pe_offset head : Z) (oid : PMEMoid) : MS unit :=
  operation_start;; remove_requests pe_offset head oid;; finish.

(** What is to be done within one list when the element is next to the destination: nothing, a new first element, or all. *)
Inductive same_list : Type := MoveNothing | MoveHead (first : Z) | MoveAll.
Definition move_same_list (head : Z) (dest oid : PMEMoid) (before : bool) (dest_entry_ptr entry_ptr_old : Z) (m : mem) : same_list :=
  if oid_off dest =? oid_off oid then MoveNothing
  else if before && (rd64 m (off_addr (pe_prev dest_entry_ptr)) =? oid_off oid) then
    if negb (rd64 m (off_addr (pe_first head)) =? oid_off dest) then MoveNothing else MoveHead (oid_off oid)
  else if negb before && (rd64 m (off_addr (pe_next dest_entry_ptr)) =? oid_off oid) then
    if negb (rd64 m (off_addr (pe_first head)) =? oid_off oid) then MoveNothing else MoveHead (rd64 m (off_addr (pe_next entry_ptr_old)))
  else MoveAll.

Definition move_requests (pe_offset_old head_old pe_offset_new head_new : Z) (dest : PMEMoid) (before : bool) (oid : PMEMoid) : MS unit :=
  dest ← in_pool (list_get_dest head_new dest pe_offset_new before);
  let entry_ptr_old := entry_of (oid_off oid) pe_offset_old in
  let entry_ptr_new := entry_of (oid_off oid) pe_offset_new in
  let dest_entry_ptr := entry_of (oid_off dest) pe_offset_new in
  what ← (if head_old =? head_new then in_pool (move_same_list head_old dest oid before dest_entry_ptr entry_ptr_old) else mret MoveAll);
  match what with
  | MoveNothing => mret tt
  | MoveHead first => list_update_head head_old first
  | MoveAll =>
      check (pe_offset_old <? 2 ^ 63);;
      check (pe_offset_new <? 2 ^ 63);;
      let args_common := ListArgsCommon pe_offset_new (oid_off oid) entry_ptr_new in
      list_remove_single (ListArgsRemove pe_offset_old (oid_off oid) head_old entry_ptr_old);;
      r ← list_insert_user (ListArgsInsert head_new dest dest_entry_ptr before) args_common;
      list_fill_entry_redo_log args_common r.1 r.2 (negb (pe_offset_new =? pe_offset_old))
  end.
Definition move_operation (pe_offset_old head_old pe_offset_new head_new : Z) (dest : PMEMoid) (before : bool) (oid : PMEMoid) : MS unit :=
  operation_start;; move_requests pe_offset_old head_old pe_offset_new head_new dest before oid;; finish.

(** The element at [oidp], or 0 for [NULL]; an identifier outside of the pool is stored to directly. *)
Definition insert_new_requests (pe_offset user_head : Z) (dest : PMEMoid) (before : bool) (oidp obj_doffset : Z) : MS unit :=
  operation_start;;
  check (pe_offset <? 2 ^ 63);;
  dest ← in_pool (list_get_dest user_head dest pe_offset before);
  let entry_ptr := entry_of obj_doffset pe_offset in
  let args := ListArgsInsert user_head dest (entry_of (oid_off dest) pe_offset) before in
  r ← list_insert_user args (ListArgsCommon pe_offset obj_doffset entry_ptr);
  list_fill_entry_persist entry_ptr r.1 r.2;;
  if oidp =? 0 then mret tt
  else if OBJ_OFF_IS_VALID pop oidp then list_set_oid_redo_log oidp obj_doffset false
  else
    lift_pm (modify (λ p, dram_store p (off_addr oidp) (le_bytes 8 obj_doffset)));;
    lift_pm (modify (λ p, dram_store p (uuid_addr oidp) (le_bytes 8 uuid_lo))).

Definition remove_free_requests (pe_offset user_head oidp obj_doffset : Z) : MS unit :=
  check (pe_offset <? 2 ^ 63);;
  list_remove_single (ListArgsRemove pe_offset obj_doffset user_head (entry_of obj_doffset pe_offset));;
  if OBJ_OFF_IS_VALID pop oidp then list_set_oid_redo_log oidp 0 true
  else lift_pm (modify (λ p, dram_store p (off_addr oidp) (le_bytes 8 0))).
End requests.

(** ** Operations *)

Section list.
Context {C R : Type}.
Local Abbreviation MO A := (M (obj_state C R) A).
Context (uuid_lo : Z) (p_ops : pmem_ops) (layout sizep nlocks : Z) (pop : pool_layout) (padding : list Z) (alloc_pattern : Z).
Context (util_pool_extend : Z → M pmem (option Z)) (locked : Z → bool) (growsize : Z) (fuel : nat).
Context (ulog_free : Z → M pmem unit) (push_ok : nat → bool) (qsort : list pobj_action_internal → list pobj_action_internal).
Context (malloc zalloc tls_ok has_remote_replicas : bool).
(** The result of taking a lock. *)
Context (os_lock : Z → Z).

Local Abbreviation hold_lane := (on_lanes (lane_hold malloc zalloc tls_ok fuel uuid_lo has_remote_replicas true)).
Local Abbreviation drop_lane := (pmalloc_operation_release uuid_lo malloc zalloc tls_ok has_remote_replicas).
Local Abbreviation in_external i f := (in_context i OPERATION_EXTERNAL f).

Definition pmemobj_mutex_lock (lock : Z) : MO Z := λ s,
  if decide (lock ∈ ob_held s) then (Undef, s)
  else if os_lock lock =? 0 then (Ok 0, ObjState (ob_hold s) (ob_palloc s) ({[lock]} ∪ ob_held s))
  else (Ok (os_lock lock), s).
(** [pmemobj_mutex_unlock_nofail] *)
Definition pmemobj_mutex_unlock (lock : Z) : MO unit := λ s,
  if decide (lock ∈ ob_held s) then (Ok tt, ObjState (ob_hold s) (ob_palloc s) (ob_held s ∖ {[lock]})) else (Undef, s).
Definition pmemobj_mutex_assert_locked (lock : Z) : MO unit := λ s,
  if decide (lock ∈ ob_held s) then (Ok tt, s) else (Undef, s).

(** In ascending order of addresses; 0 for [NULL]. *)
Definition list_mutexes_lock (head1 head2 : Z) : MO Z :=
  if head1 =? 0 then undef
  else if (head2 =? 0) || (head1 =? head2) then pmemobj_mutex_lock (head_lock head1)
  else
    let lock1 := if head_lock head1 <? head_lock head2 then head_lock head1 else head_lock head2 in
    let lock2 := if head_lock head1 <? head_lock head2 then head_lock head2 else head_lock head1 in
    ret ← pmemobj_mutex_lock lock1;
    if negb (ret =? 0) then mret ret
    else
      ret ← pmemobj_mutex_lock lock2;
      if ret =? 0 then mret 0 else pmemobj_mutex_unlock lock1;; mret ret.
Definition list_mutexes_unlock (head1 head2 : Z) : MO unit :=
  if head1 =? 0 then undef
  else if (head2 =? 0) || (head1 =? head2) then pmemobj_mutex_unlock (head_lock head1)
  else pmemobj_mutex_unlock (head_lock head1);; pmemobj_mutex_unlock (head_lock head2).

Definition list_insert_new (pe_offset user_head : Z) (dest : PMEMoid) (before : bool) (size type_num : Z) (constructor : option (Z → Z → M pmem Z))
    (oidp : Z) : MO unit :=
  (if user_head =? 0 then undef else mret tt);;
  pmemobj_mutex_assert_locked (head_lock user_head);;
  i ← hold_lane;
  reserved ← attempt (on_palloc (palloc_reserve p_ops layout sizep nlocks padding alloc_pattern util_pool_extend locked growsize fuel size constructor type_num 0 0));
  match reserved with
  | inr e => drop_lane;; fail e
  | inl reserved =>
      in_external i (on_operation (insert_new_requests uuid_lo p_ops pop pe_offset user_head dest before oidp (alloc_offset reserved));;
                     palloc_publish p_ops layout pop fuel ulog_free push_ok qsort [reserved]);;
      drop_lane
  end.
Definition list_insert_new_user (pe_offset user_head : Z) (dest : PMEMoid) (before : bool) (size type_num : Z) (constructor : option (Z → Z → M pmem Z))
    (oidp : Z) : MO unit :=
  ret ← pmemobj_mutex_lock (head_lock user_head);
  if negb (ret =? 0) then fail ret
  else
    e ← errno_of (list_insert_new pe_offset user_head dest before size type_num constructor oidp);
    pmemobj_mutex_unlock (head_lock user_head);;
    return_errno e.

Definition list_insert (pe_offset head : Z) (dest : PMEMoid) (before : bool) (oid : PMEMoid) : MO unit :=
  (if head =? 0 then undef else mret tt);;
  i ← hold_lane;
  ret ← pmemobj_mutex_lock (head_lock head);
  if negb (ret =? 0) then drop_lane;; fail ret
  else
    in_external i (on_operation (insert_operation uuid_lo p_ops pop fuel ulog_free push_ok pe_offset head dest before oid));;
    pmemobj_mutex_unlock (head_lock head);;
    drop_lane.

Definition list_remove_free (pe_offset user_head oidp : Z) : MO unit :=
  (if user_head =? 0 then undef else mret tt);;
  pmemobj_mutex_assert_locked (head_lock user_head);;
  i ← hold_lane;
  in_external i (on_operation operation_start);;
  obj_doffset ← gets (λ s, rd64 (mem_of s) (off_addr oidp));
  deferred ← on_palloc (palloc_defer_free layout nlocks obj_doffset);
  in_external i (on_operation (remove_free_requests uuid_lo pop pe_offset user_head oidp obj_doffset);;
                 palloc_publish p_ops layout pop fuel ulog_free push_ok qsort [deferred]);;
  drop_lane.
Definition list_remove_free_user (pe_offset user_head oidp : Z) : MO unit :=
  ret ← pmemobj_mutex_lock (head_lock user_head);
  if negb (ret =? 0) then fail ret
  else list_remove_free pe_offset user_head oidp;; pmemobj_mutex_unlock (head_lock user_head).

Definition list_remove (pe_offset head : Z) (oid : PMEMoid) : MO unit :=
  (if head =? 0 then undef else mret tt);;
  i ← hold_lane;
  ret ← pmemobj_mutex_lock (head_lock head);
  if negb (ret =? 0) then drop_lane;; fail ret
  else
    in_external i (on_operation (remove_operation uuid_lo p_ops pop fuel ulog_free push_ok pe_offset head oid));;
    pmemobj_mutex_unlock (head_lock head);;
    drop_lane.

Definition list_move (pe_offset_old head_old pe_offset_new head_new : Z) (dest : PMEMoid) (before : bool) (oid : PMEMoid) : MO unit :=
  (if (head_old =? 0) || (head_new =? 0) then undef else mret tt);;
  i ← hold_lane;
  ret ← list_mutexes_lock head_new head_old;
  if negb (ret =? 0) then drop_lane;; fail ret
  else
    in_external i (on_operation (move_operation uuid_lo p_ops pop fuel ulog_free push_ok pe_offset_old head_old pe_offset_new head_new dest before oid));;
    list_mutexes_unlock head_new head_old;;
    drop_lane.
End list.
