(* ===== verification/ObjListSpec.v ===== *)
(** * libpmemobj: lists as sequences

    What the links of a list of [list.c] mean: a ring of elements, each with a next and a previous one, and the first of them in the head.  Inserting and removing elements
    changes four links; the words of the memory after a list of assignments. *)

From stdpp Require Import base gmap list numbers.
From S2P Require Import Prelude Memory Util Ulog UlogSpec UlogEntry Memops MemopsMerge.
From stdpp Require Import list.
Local Open Scope Z_scope.

(** ** Rings *)

Section ring.
Implicit Types (N P : Z → Z) (l A B : list Z).

(** From [a] over the elements of [l], forwards with [N] and back with [P]. *)
Fixpoint chain N P (a : Z) l : Prop :=
  match l with
  | [] => True
  | b :: l => (N a = b ∧ P b = a) ∧ chain N P b l
  end.
Definition ring N P l : Prop := match l with [] => True | a :: l => chain N P a (l ++ [a]) end.
Definition lastof (a : Z) l : Z := List.last l a.

Lemma lastof_snoc l a b : lastof a (l ++ [b]) = b.
Proof. apply List.last_last. Qed.
Lemma lastof_cons l a b : lastof a (b :: l) = lastof b l.
Proof. revert b. induction l as [|c l IH]; intros b; [done|]. unfold lastof in *. cbn in *. by destruct l. Qed.
Lemma lastof_in l a : lastof a l ∈ a :: l.
Proof.
  revert a. induction l as [|b l IH]; intros a; [left|]. rewrite lastof_cons. right. apply IH.
Qed.

Lemma chain_links_app N P l l' : ∀ a, chain N P a (l ++ l') ↔ chain N P a l ∧ chain N P (lastof a l) l'.
Proof.
  induction l as [|b l IH]; intros a; [by unfold lastof; cbn; naive_solver|]. cbn [app chain]. rewrite IH, lastof_cons. naive_solver.
Qed.
Lemma chain_snoc N P l a b : chain N P a (l ++ [b]) ↔ chain N P a l ∧ N (lastof a l) = b ∧ P b = lastof a l.
Proof. rewrite chain_links_app. cbn. naive_solver. Qed.

(** Only the last element may have another successor, and only the first another predecessor. *)
Lemma chain_ext N P N' P' l : ∀ a, chain N P a l → NoDup (a :: l) →
  (∀ y, y ∈ a :: l → y ≠ lastof a l → N' y = N y) → (∀ y, y ∈ l → P' y = P y) → chain N' P' a l.
Proof.
  induction l as [|b l IH]; intros a; [done|]. cbn [chain]. intros [[H1 H2] H3] Hd HN HP.
  apply NoDup_cons in Hd as [Ha Hd]. rewrite lastof_cons in HN. split; [split|apply IH; try done].
  - rewrite HN; [done|left|]. intros ->. apply Ha, lastof_in.
  - rewrite HP; [done|left].
  - intros y Hy Hne. apply HN; [by right|done].
  - intros y Hy. apply HP. by right.
Qed.

Lemma ring_ext N P N' P' l : ring N P l → (∀ y, y ∈ l → N' y = N y ∧ P' y = P y) → ring N' P' l.
Proof.
  destruct l as [|a l]; [done|]. cbn [ring]. intros H He. assert (∀ k b, chain N P b k → b ∈ a :: l → (∀ y, y ∈ k → y ∈ a :: l) → chain N' P' b k) as Hc.
  { clear H. induction k as [|c k IH]; intros b; [done|]. cbn [chain]. intros [[E1 E2] E3] Hb Hk. pose proof (Hk c ltac:(left)) as Hcin.
    split; [split; [by rewrite (proj1 (He b Hb))|by rewrite (proj2 (He c Hcin))]|]. apply IH; [done|done|]. intros y Hy. apply Hk. by right. }
  apply Hc; [done|left|]. intros y. set_solver.
Qed.

Lemma ring_rot N P A B : ring N P (A ++ B) → ring N P (B ++ A).
Proof.
  destruct A as [|a A]; [by rewrite app_nil_r|]. destruct B as [|b B]; [by rewrite app_nil_r|].
  cbn [app ring]. rewrite <-!app_assoc. cbn [app]. rewrite chain_links_app. cbn [chain]. rewrite chain_links_app. cbn [chain].
  intros (HA & [H1 H2] & HB & [H3 H4] & _). rewrite chain_links_app. cbn [chain]. rewrite chain_snoc. done.
Qed.

(** The ring seen from one of its elements. *)
Lemma ring_at N P A d B : ring N P (A ++ d :: B) → chain N P d ((B ++ A) ++ [d]).
Proof. intros H%ring_rot. exact H. Qed.
Lemma ring_to N P A d B : chain N P d ((B ++ A) ++ [d]) → ring N P (A ++ d :: B).
Proof. intros H. apply (ring_rot _ _ (d :: B)). exact H. Qed.
Lemma nodup_at A d B : NoDup (A ++ d :: B) → NoDup (d :: B ++ A).
Proof. by rewrite (Permutation_app_comm A). Qed.

Lemma ring_next_in N P l d : ring N P l → d ∈ l → N d ∈ l ∧ P d ∈ l.
Proof.
  intros H (A & B & ->)%list_elem_of_split. apply ring_at in H. rewrite (Permutation_app_comm A). cbn [app]. split.
  - destruct (B ++ A) as [|n C]; cbn in H; destruct H as [[-> _] _]; [left|right; left].
  - apply chain_snoc in H as (_ & _ & ->). apply lastof_in.
Qed.
(** Every element is the predecessor of its successor. *)
Lemma ring_prev_next N P l d : ring N P l → d ∈ l → P (N d) = d ∧ N (P d) = d.
Proof.
  intros H (A & B & ->)%list_elem_of_split. apply ring_at in H. split.
  - destruct (B ++ A) as [|n C]; cbn in H; by destruct H as [[-> H] _].
  - apply chain_snoc in H as (_ & H & ->). done.
Qed.
Lemma ring_neighbour N P A p d B : ring N P (A ++ p :: d :: B) → P d = p ∧ N p = d.
Proof. intros H%ring_at. cbn in H. naive_solver. Qed.
Lemma ring_single N P A d B : ring N P (A ++ d :: B) → NoDup (A ++ d :: B) → N d = d → A = [] ∧ B = [].
Proof.
  intros H%ring_at Hd%nodup_at E. destruct (B ++ A) as [|n C] eqn:Ec; [by apply app_eq_nil in Ec as [-> ->]|].
  cbn in H. destruct H as [[H _] _]. apply NoDup_cons in Hd as [Hd _]. destruct Hd. rewrite <-E, H. left.
Qed.
Lemma ring_last N P a l : ring N P (a :: l) → P a = lastof a l.
Proof. intros H. cbn in H. by apply chain_snoc in H as (_ & _ & ->). Qed.
Lemma ring_second N P a b l : ring N P (a :: b :: l) → N a = b.
Proof. intros H. cbn in H. naive_solver. Qed.

(** ** Insertion and removal *)

Lemma ring_insert_before N P N' P' A d B x : ring N P (A ++ d :: B) → NoDup (A ++ d :: B) →
  N' (P d) = x → P' x = P d → N' x = d → P' d = x →
  (∀ y, y ∈ A ++ d :: B → y ≠ P d → N' y = N y) → (∀ y, y ∈ A ++ d :: B → y ≠ d → P' y = P y) → ring N' P' (A ++ x :: d :: B).
Proof.
  intros H%ring_at Hd%nodup_at H1 H2 H3 H4 HN HP. apply chain_snoc in H as (H & Hp & Hq). rewrite Hq in *.
  change (A ++ x :: d :: B) with (A ++ [x] ++ d :: B). rewrite app_assoc. apply ring_to. rewrite app_assoc, !chain_snoc, lastof_snoc.
  split_and!; [|congruence..]. apply (chain_ext N P); [done|done|..].
  - intros y Hy Hne. apply HN; [|congruence]. rewrite (Permutation_app_comm A). exact Hy.
  - intros y Hy. apply HP; [rewrite (Permutation_app_comm A); by right|]. intros ->. by apply NoDup_cons in Hd as [Hd _].
Qed.

Lemma ring_insert_after N P N' P' A d B x : ring N P (A ++ d :: B) → NoDup (A ++ d :: B) →
  N' d = x → P' x = d → N' x = N d → P' (N d) = x →
  (∀ y, y ∈ A ++ d :: B → y ≠ d → N' y = N y) → (∀ y, y ∈ A ++ d :: B → y ≠ N d → P' y = P y) → ring N' P' (A ++ d :: x :: B).
Proof.
  intros H%ring_at Hd%nodup_at H1 H2 H3 H4 HN HP. apply ring_to. cbn [app chain]. split; [done|].
  assert (NoDup ((B ++ A) ++ [d])) as Hd' by (by rewrite Permutation_app_comm).
  assert (∀ y, y ∈ (B ++ A) ++ [d] → y ∈ A ++ d :: B) as Hin by (intros y; set_solver).
  pose proof (lastof_snoc (B ++ A) 0 d) as Hlast.
  destruct ((B ++ A) ++ [d]) as [|n E]; [done|]. cbn [chain] in *. destruct H as [[Hn Hpn] H]. rewrite Hn in *. split; [done|].
  rewrite lastof_cons in Hlast. apply (chain_ext N P); [done|done|..].
  - intros y Hy Hne. apply HN; [by apply Hin|congruence].
  - intros y Hy. apply HP; [apply Hin; by right|]. intros ->. by apply NoDup_cons in Hd' as [Hd' _].
Qed.

Lemma ring_remove N P N' P' A x B : ring N P (A ++ x :: B) → NoDup (A ++ x :: B) → N x ≠ x →
  N' (P x) = N x → P' (N x) = P x →
  (∀ y, y ∈ A ++ B → y ≠ P x → N' y = N y) → (∀ y, y ∈ A ++ B → y ≠ N x → P' y = P y) → ring N' P' (A ++ B).
Proof.
  intros H%ring_at Hd%nodup_at Hne H1 H2 HN HP. apply ring_rot.
  assert (∀ y, y ∈ B ++ A → y ∈ A ++ B) as Hin by (intros y; set_solver).
  destruct (B ++ A) as [|n C] eqn:Ec; [done|]. cbn [app chain] in *. destruct H as [[Hn Hpn] H]. rewrite Hn in *.
  apply chain_snoc in H as (H & Hp & Hq). rewrite Hq in *. apply NoDup_cons in Hd as [Hx Hd].
  cbn [ring]. rewrite chain_snoc. split_and!; [|done..]. apply (chain_ext N P); [done|done|..].
  - intros y Hy Hny. apply HN; [by apply Hin|done].
  - intros y Hy. apply HP; [apply Hin; by right|]. intros ->. by apply NoDup_cons in Hd as [Hd _].
Qed.
Lemma ring_remove_next N P A x B : ring N P (A ++ x :: B) → NoDup (A ++ x :: B) → N x ≠ x → N x ∈ A ++ B ∧ P x ∈ A ++ B.
Proof.
  intros H Hd Hne. pose proof (ring_prev_next N P _ x H) as [H1 H2]; [set_solver|].
  pose proof (ring_next_in N P _ x H) as [H3 H4]; [set_solver|]. assert (P x ≠ x) by congruence. set_solver.
Qed.
End ring.

(** ** Sequences *)

Definition seq_step (dest : Z) (before : bool) (x y : Z) : list Z := if y =? dest then (if before then [x; y] else [y; x]) else [y].
(** The position of a new element: before or after [dest], or at an end when [dest] is 0. *)
Definition seq_insert (dest : Z) (before : bool) (x : Z) (xs : list Z) : list Z :=
  if dest =? 0 then (if before then x :: xs else xs ++ [x])
  else concat (seq_step dest before x <$> xs).
Definition seq_remove (x : Z) (xs : list Z) : list Z := filter (λ y, y ≠ x) xs.

Lemma seq_insert_other dest before x A : dest ∉ A → concat (seq_step dest before x <$> A) = A.
Proof.
  induction A as [|a A IH]; intros H; [done|]. rewrite fmap_cons. cbn [concat]. unfold seq_step at 1. rewrite (proj2 (Z.eqb_neq a dest)) by set_solver. cbn. f_equal. apply IH. set_solver.
Qed.
Lemma seq_insert_at dest before x A B : dest ≠ 0 → NoDup (A ++ dest :: B) →
  seq_insert dest before x (A ++ dest :: B) = A ++ (if before then [x; dest] else [dest; x]) ++ B.
Proof.
  intros H0 Hd. unfold seq_insert. rewrite (proj2 (Z.eqb_neq _ _)) by done. apply NoDup_app in Hd as (_ & HA & Hd). apply NoDup_cons in Hd as [HB _].
  rewrite fmap_app, concat_app, fmap_cons. cbn [concat]. unfold seq_step at 2. rewrite Z.eqb_refl, !seq_insert_other; [done|done|]. intros H%HA. apply H. left.
Qed.
Lemma seq_remove_at x A B : NoDup (A ++ x :: B) → seq_remove x (A ++ x :: B) = A ++ B.
Proof.
  intros Hd. apply NoDup_app in Hd as (_ & HA & Hd). apply NoDup_cons in Hd as [HB _]. unfold seq_remove.
  assert (∀ l : list Z, x ∉ l → filter (λ y, y ≠ x) l = l) as Hf.
  { induction l as [|y l IH]; intros Hl; [done|]. rewrite filter_cons, decide_True by set_solver. f_equal. apply IH. set_solver. }
  rewrite filter_app, filter_cons, decide_False by naive_solver. rewrite !Hf; [done|done|]. intros H%HA. apply H. left.
Qed.

(** ** Words *)

(** An assignment of a word: its address and its value. *)
Definition assign_of (r : Z * Z) : vent := VEnt r.1 r.2 0.
(** The words after assignments. *)
Definition assigned (rs : list (Z * Z)) (w : Z → Z) (a : Z) : Z := foldl (λ v r, if r.1 =? a then r.2 else v) (w a) rs.

Lemma assigned_app rs rs' w a : assigned (rs ++ rs') w a = assigned rs' (assigned rs w) a.
Proof. unfold assigned. by rewrite foldl_app. Qed.
Lemma assigned_out rs w a : Forall (λ r, r.1 ≠ a) rs → assigned rs w a = w a.
Proof.
  unfold assigned. generalize (w a). induction rs as [|r rs IH]; intros v H; [done|]. apply Forall_cons_1 in H as [H1 H2].
  cbn [foldl]. rewrite (proj2 (Z.eqb_neq _ _)) by done. by apply IH.
Qed.
Lemma assigned_in rs w p v a : (p, v) ∈ rs → NoDup rs.*1 → p = a → assigned rs w a = v.
Proof.
  intros (l & l' & ->)%list_elem_of_split Hd ->. rewrite fmap_app, fmap_cons in Hd. apply NoDup_app in Hd as (_ & _ & Hd). apply NoDup_cons in Hd as [Hd _].
  rewrite assigned_app. change ((a, v) :: l') with ([(a, v)] ++ l'). rewrite assigned_app, assigned_out.
  - unfold assigned. cbn. by rewrite Z.eqb_refl.
  - apply Forall_forall. intros r Hr E. apply Hd. apply list_elem_of_fmap. by exists r.
Qed.

(** A word of the memory after assignments of other words or of the same. *)
Lemma assigned_words rs : ∀ m a, (8 | a) → Forall (λ r, (8 | r.1) ∧ 0 ≤ r.2 < 2 ^ 64) rs →
  rd64 (uops_apply m (vent_op <$> (assign_of <$> rs))) a = assigned rs (rd64 m) a.
Proof.
  induction rs as [|[p v] rs IH]; intros m a Ha Hr; [done|]. apply Forall_cons_1 in Hr as [[Hp Hv] Hr]. cbn in Hp, Hv.
  rewrite !fmap_cons. unfold uops_apply. cbn [foldl]. fold (uops_apply (uop_apply m (vent_op (assign_of (p, v)))) (vent_op <$> (assign_of <$> rs))).
  rewrite IH by done. change ((p, v) :: rs) with ([(p, v)] ++ rs). rewrite assigned_app. unfold assigned at 1 2. f_equal. unfold assigned. cbn [foldl fst snd].
  change (uop_apply m (vent_op (assign_of (p, v)))) with (wr64 m p v). destruct (Z.eqb_spec p a) as [->|Hne].
  - rewrite rd64_wr64. by apply u64_id.
  - apply rd64_wr_out. destruct Ha as [x ->], Hp as [y ->]. unfold len. rewrite length_le_bytes. lia.
Qed.
Lemma assigned_at rs w w' a : w a = w' a → assigned rs w a = assigned rs w' a.
Proof. unfold assigned. by intros ->. Qed.
