(* ===== verification/ObjListRun.v ===== *)
(** * libpmemobj: the requests of list operations

    An operation of [list.c] asks for assignments of words and then finishes the redo operation.  Here the assignments are computed from the memory at the start, and
    the words of the memory after the operation are those that the assignments give. *)

From stdpp Require Import base gmap list numbers.
From S2P Require Import Prelude Memory Pmem Util Ulog UlogSpec UlogEntry UlogTheorems Vecq Memops MemopsMerge MemopsRedo MemopsCrash MemopsTheorems Lane LaneHold LaneHoldTheorems Memblock Heap HeapRun Palloc.
From S2P Require Import Pmalloc Tx ObjList ObjListSpec.
From stdpp Require Import list.
Local Open Scope Z_scope.

Local Abbreviation smem s := (pm_mem (me_pm (ms_env s))).
Local Abbreviation plog s := (oc_pshadow_ops (ms_ctx s)).

Definition pool_end (pop : pool_layout) : Z := pl_heap_offset pop + pl_heap_size pop.
(** A word of the heap. *)
Record word_ok (pop : pool_layout) (a : Z) : Prop := {
  wo_align : (8 | a);
  wo_low : pl_heap_offset pop ≤ a;
  wo_high : a + 8 ≤ pool_end pop
}.
(** The heap is behind the logs of the lanes, and addresses fit in an entry. *)
Definition pool_ok (pop : pool_layout) : Prop := 0 < pl_heap_offset pop ∧ 0 ≤ pl_heap_size pop ∧ pool_end pop < 2 ^ 61.

(** ** The assignments of an operation *)

(** [w]: the words at the start. *)
Section sets.
Context (uuid_lo : Z) (w : Z → Z).

Definition nextw (pe x : Z) : Z := w (x + pe + 8).
Definition prevw (pe x : Z) : Z := w (x + pe + 24).
Definition firstw (head : Z) : Z := w (head + 8).

Definition head_sets (head v : Z) : list (Z * Z) := (head + 8, v) :: if w head =? 0 then [(head, uuid_lo)] else [].
Definition remove_sets (pe head x : Z) : list (Z * Z) :=
  if nextw pe x =? x then head_sets head 0
  else [(nextw pe x + pe + 24, prevw pe x); (prevw pe x + pe + 8, nextw pe x)] ++
       (if firstw head =? x then head_sets head (nextw pe x) else []).
(** [d]: the destination, 0 for an empty list. *)
Definition insert_sets (pe head d : Z) (before : bool) (x : Z) : list (Z * Z) :=
  if d =? 0 then head_sets head x
  else if before then [(d + pe + 24, x); (prevw pe d + pe + 8, x)] ++ (if d =? firstw head then head_sets head x else [])
  else [(d + pe + 8, x); (nextw pe d + pe + 24, x)].
Definition insert_next (pe d : Z) (before : bool) (x : Z) : Z := if d =? 0 then x else if before then d else nextw pe d.
Definition insert_prev (pe d : Z) (before : bool) (x : Z) : Z := if d =? 0 then x else if before then prevw pe d else d.
(** The entry of the element, and the identifiers of the pool in it. *)
Definition fill_sets (pe x next prev : Z) : list (Z * Z) := [(x + pe + 8, next); (x + pe + 24, prev)].
Definition uuid_sets (pe x : Z) (set_uuid : bool) : list (Z * Z) := if set_uuid then [(x + pe, uuid_lo); (x + pe + 16, uuid_lo)] else [].
End sets.

Section requests.
Context (uuid_lo : Z) (o : pmem_ops) `{!OpsSpec o} (pop : pool_layout) (fuel : nat) (ulog_free : Z → M pmem unit) (push_ok : nat → bool).
Context (Hpop : pool_ok pop) (Huuid : 0 < uuid_lo < 2 ^ 64).
Local Abbreviation D := (pool_end pop).

Lemma word_valid a : word_ok pop a → OBJ_OFF_IS_VALID pop a = true ∧ 0 < a < 2 ^ 61.
Proof using Hpop.
  intros [_ H1 H2]. destruct Hpop as (H3 & _ & H4). unfold pool_end in *. split; [|lia]. unfold OBJ_OFF_IS_VALID, OBJ_OFF_FROM_HEAP.
  rewrite u64_id by lia. rewrite (proj2 (Z.leb_le _ _)), (proj2 (Z.ltb_lt _ _)) by lia. done.
Qed.

(** ** An operation in progress *)

(** The requests [rs] have been made since [s0]; [m] is the memory of the pool. *)
Record pending (m : mem) (s0 s : mstate) (rs : list (Z * Z)) : Prop := {
  pd_ctx : ∃ q l, ms_ctx s = set_merge q (set_pshadow l (ms_ctx s0));
  pd_mem a : a < D → rd (smem s) a = rd m a;
  pd_alloc : alloc_ok D s;
  pd_ulog : D ≤ ol_ulog (plog s);
  pd_capacity : ULOG_BASE_SIZE ≤ ol_capacity (plog s);
  pd_log : ∃ es t, shadow_inv s es t ∧ (length es ≤ length rs)%nat ∧ (∀ a, changes es a → changes (assign_of <$> rs) a) ∧
    uops_equiv (vent_op <$> es) (vent_op <$> (assign_of <$> rs))
}.

(** The capacity of the shadow log is enough for this many requests. *)
Definition few (rs : list (Z * Z)) : Prop := (length rs ≤ 16)%nat.

Lemma request_run m s0 s rs a v : pending m s0 s rs → word_ok pop a → 0 ≤ v < 2 ^ 64 → few (rs ++ [(a, v)]) →
  ∃ s', request_set pop a v s = (Ok tt, s') ∧ pending m s0 s' (rs ++ [(a, v)]).
Proof using Hpop.
  intros [(q & l & Hc) Hm Ha Hu Hcap (es & t & Hsh & Hl & Hch & Heq)] Hw Hv Hfew. destruct (word_valid a Hw) as [Hval Hrange].
  unfold few in Hfew. rewrite length_app in Hfew. cbn in Hfew.
  destruct (add_entry_ok D s es t (assign_of (a, v)) Hsh) as (res & s' & E & Hst & Hor); [split; [done|apply Hw|done|by cbn]|done|done|lia|].
  destruct Hor as [(-> & es' & t' & H1 & H2 & H3 & H4)|(-> & _ & Hf)].
  2: { rewrite (sh_offset _ _ _ Hsh) in Hf. unfold ULOG_BASE_SIZE in *. lia. }
  exists s'. split.
  - unfold request_set, operation_add_entry. rewrite u64_id, Hval by lia. cbn [assign_of ve_ptr ve_val ve_k fst snd] in E. unfold ignore. change ULOG_OPERATION_SET with (Z.shiftl 0 61). by rewrite E.
  - destruct Hst as [(q' & l' & Hc') _ Hp Hal Hul Hca]. split.
    + exists q', l'. by rewrite Hc', Hc.
    + intros x Hx. by rewrite Hp, Hm.
    + intros x Hx. by apply Ha, Hal.
    + by apply Hul.
    + lia.
    + exists es', t'. rewrite length_app, fmap_app. cbn [length fmap list_fmap]. split_and!; [done|lia| |].
      * intros x Hx%H3. destruct Hx as (e & He & <-). rewrite elem_of_app in He. destruct He as [He| ->%list_elem_of_singleton].
        -- destruct (Hch (ve_ptr e)) as (e' & He' & <-); [by exists e|]. exists e'. split; [|done]. apply elem_of_app. by left.
        -- exists (assign_of (a, v)). split; [|done]. apply elem_of_app. right. by left.
      * rewrite H4, Heq, fmap_app. done.
Qed.

(** A change of the pool below the shadow log. *)
Lemma pending_mem m m' s0 s s' rs : pending m s0 s rs → ms_ctx s' = ms_ctx s → me_alloc (ms_env s') = me_alloc (ms_env s) →
  (∀ a, a < D → rd (smem s') a = rd m' a) → (∀ a, D ≤ a → rd (smem s') a = rd (smem s) a) → pending m' s0 s' rs.
Proof using.
  clear. intros [Hc Hm Ha Hu Hcap (es & t & Hsh & Hl & Hch & Heq)] Ec Ea Hm' Hk. split; rewrite ?Ec; try done.
  - intros x. rewrite Ea. apply Ha.
  - exists es, t. split_and!; try done. destruct Hsh. split; rewrite ?Ec; try done.
    + eapply entries_ext; [|done]. intros a Hx. apply Hk. unfold ulog_data in Hx. lia.
    + intros Hne. rewrite <-sh_end by done. apply rd64_ext. intros a Hx. apply Hk. unfold slot_addr, ulog_data in Hx. lia.
    + rewrite <-sh_header. apply rd64_ext. intros a Hx. apply Hk. lia.
Qed.

Lemma store_word_run m s0 s rs a v : pending m s0 s rs → word_ok pop a →
  ∃ s', lift_pm (modify (λ p, pm_store p a (le_bytes 8 v))) s = (Ok tt, s') ∧ pending (wr64 m a v) s0 s' rs.
Proof using.
  clear. intros Hp [_ _ Hh]. eexists. split; [reflexivity|]. eapply pending_mem; [exact Hp|done|done|..]; cbn; intros x Hx.
  - unfold wr64. rewrite !rd_wr. case_decide; [done|]. by apply Hp.
  - apply rd_wr_out. unfold len. rewrite length_le_bytes. lia.
Qed.
Lemma persist_run m s0 s rs a n : pending m s0 s rs →
  ∃ s', lift_pm (modify (λ p, op_persist o p a n 0)) s = (Ok tt, s') ∧ pending m s0 s' rs.
Proof using OpsSpec0.
  intros Hp. eexists. split; [reflexivity|]. destruct (ops_persist (me_pm (ms_env s)) a n 0) as (es & E & _).
  eapply pending_mem; [exact Hp|done|done|..]; cbn; rewrite E; cbn; intros x Hx; [by apply Hp|done].
Qed.
Lemma word_run m s0 s rs a : pending m s0 s rs → a + 8 ≤ D → word a s = (Ok (rd64 m a), s).
Proof using. clear. intros Hp Ha. unfold word, gets. do 2 f_equal. apply rd64_ext. intros x Hx. apply Hp. lia. Qed.

(** ** The functions of [list.c] *)


Definition head_ok (head : Z) : Prop := word_ok pop head ∧ word_ok pop (head + 8).
(** An object whose list entry is at [pe]. *)
Record elem_ok (pe x : Z) : Prop := {
  el_range : 0 < x < 2 ^ 61;
  el_offset : - 2 ^ 62 < pe < 2 ^ 62;
  el_first : word_ok pop (x + pe);
  el_last : word_ok pop (x + pe + 24)
}.

Lemma elem_words pe x : elem_ok pe x → word_ok pop (x + pe + 8) ∧ word_ok pop (x + pe + 16).
Proof using.
  clear. intros [_ _ [H1 H2 H3] [H4 H5 H6]]. destruct H1 as [k Hk]. split; (split; [|lia|lia]); [exists (k + 1)|exists (k + 2)]; lia.
Qed.
Lemma elem_entry pe x : elem_ok pe x → entry_of x pe = x + pe.
Proof using Hpop. intros [H1 _ H3 _]. apply word_valid in H3 as [_ H3]. unfold entry_of. apply u64_id. lia. Qed.

Lemma add_offset_run {S} pe x k (s : S) : elem_ok pe x → 0 ≤ k ≤ 24 → u64_add_offset (u64 (x + k)) pe s = (Ok (x + pe + k), s).
Proof using Hpop.
  intros [H1 H2 H3 H4] Hk. apply word_valid in H3 as [_ H3]. apply word_valid in H4 as [_ H4]. unfold u64_add_offset. rewrite (u64_id (x + k)) by lia.
  destruct (Z.leb_spec 0 pe).
  - rewrite u64_id by lia. rewrite (proj2 (Z.leb_le _ _)) by lia. unfold mret, M_ret. do 2 f_equal. lia.
  - rewrite (u64_id (- pe)), u64_id by lia. rewrite (proj2 (Z.ltb_lt _ _)) by lia. unfold mret, M_ret. do 2 f_equal. lia.
Qed.

Lemma update_head_run m s0 s rs head v : pending m s0 s rs → head_ok head → 0 ≤ v < 2 ^ 64 → (length rs + 2 ≤ 16)%nat →
  ∃ s', list_update_head uuid_lo pop head v s = (Ok tt, s') ∧ pending m s0 s' (rs ++ head_sets uuid_lo (rd64 m) head v).
Proof using Hpop Huuid.
  intros Hp [H1 H2] Hv Hf. unfold list_update_head, pe_first, off_addr, uuid_addr, head_sets.
  destruct (request_run m s0 s rs (head + 8) v Hp H2 Hv) as (s1 & E1 & Hp1); [unfold few; rewrite length_app; cbn; lia|].
  erewrite bind_ok by exact E1. erewrite bind_ok by (eapply word_run; [exact Hp1|apply H1]). destruct (rd64 m head =? 0); [|by exists s1].
  destruct (request_run m s0 s1 _ head uuid_lo Hp1 H1) as (s2 & E2 & Hp2); [lia|unfold few; rewrite !length_app; cbn; lia|].
  exists s2. split; [done|]. by rewrite <-app_assoc in Hp2.
Qed.

(** *** Removing *)



Lemma remove_single_run m s0 s rs pe head x : pending m s0 s rs → head_ok head → elem_ok pe x → elem_ok pe (nextw (rd64 m) pe x) → elem_ok pe (prevw (rd64 m) pe x) →
  (nextw (rd64 m) pe x = x → firstw (rd64 m) head = x ∧ prevw (rd64 m) pe x = x) → (length rs + 4 ≤ 16)%nat →
  ∃ s', list_remove_single uuid_lo pop (ListArgsRemove pe x head (x + pe)) s = (Ok tt, s') ∧ pending m s0 s' (rs ++ remove_sets uuid_lo (rd64 m) pe head x).
Proof using Hpop Huuid.
  intros Hp Hh Hx Hn Hq Hone Hf. destruct (elem_words pe x Hx) as [W1 W2]. unfold list_remove_single. cbn [lr_entry_ptr lr_obj_doffset lr_head lr_pe_offset].
  unfold remove_sets, pe_next, pe_prev, pe_first, off_addr. replace (x + pe + 16 + 8) with (x + pe + 24) by lia.
  erewrite bind_ok by (eapply word_run; [exact Hp|apply W1]). fold (nextw (rd64 m) pe x).
  pose proof (el_range _ _ Hn). pose proof (el_range _ _ Hq).
  destruct (Z.eqb_spec (nextw (rd64 m) pe x) x) as [Heq|Hne].
  - destruct (Hone Heq) as [Hfi Hpr]. erewrite bind_ok by (eapply word_run; [exact Hp|apply Hh]). fold (firstw (rd64 m) head). rewrite Hfi, Z.eqb_refl.
    erewrite bind_ok by reflexivity. erewrite bind_ok by (eapply word_run; [exact Hp|apply Hx]). fold (prevw (rd64 m) pe x). rewrite Hpr, Z.eqb_refl.
    erewrite bind_ok by reflexivity. apply update_head_run; [done|done|lia|lia].
  - change PREV_OFF with 24. change NEXT_OFF with 8. erewrite bind_ok by (by apply add_offset_run). erewrite bind_ok by (eapply word_run; [exact Hp|apply Hx]). fold (prevw (rd64 m) pe x).
    erewrite bind_ok by (by apply add_offset_run). destruct (elem_words pe _ Hq) as [W3 _].
    destruct (request_run m s0 s rs _ (prevw (rd64 m) pe x) Hp (el_last _ _ Hn)) as (s1 & E1 & Hp1); [lia|unfold few; rewrite length_app; cbn; lia|].
    erewrite bind_ok by exact E1.
    destruct (request_run m s0 s1 _ _ (nextw (rd64 m) pe x) Hp1 W3) as (s2 & E2 & Hp2); [lia|unfold few; rewrite !length_app; cbn; lia|].
    erewrite bind_ok by exact E2. erewrite bind_ok by (eapply word_run; [exact Hp2|apply Hh]). fold (firstw (rd64 m) head).
    rewrite <-app_assoc in Hp2. cbn [app] in Hp2. destruct (firstw (rd64 m) head =? x); [|by exists s2].
    destruct (update_head_run m s0 s2 _ head (nextw (rd64 m) pe x) Hp2 Hh) as (s3 & E3 & Hp3); [lia|rewrite length_app; cbn; lia|].
    exists s3. split; [exact E3|]. by rewrite <-app_assoc in Hp3.
Qed.

(** *** Inserting *)


Lemma insert_user_run m s0 s rs pe head u d before x : pending m s0 s rs → head_ok head → elem_ok pe x →
  (d = 0 → firstw (rd64 m) head = 0) → (d ≠ 0 → elem_ok pe d ∧ elem_ok pe (nextw (rd64 m) pe d) ∧ elem_ok pe (prevw (rd64 m) pe d)) → (length rs + 4 ≤ 16)%nat →
  ∃ s', list_insert_user uuid_lo pop (ListArgsInsert head (Oid u d) (entry_of d pe) before) (ListArgsCommon pe x (x + pe)) s =
      (Ok (insert_next (rd64 m) pe d before x, insert_prev (rd64 m) pe d before x), s') ∧ pending m s0 s' (rs ++ insert_sets uuid_lo (rd64 m) pe head d before x).
Proof using Hpop Huuid.
  intros Hp Hh Hx H0 Hd Hf. pose proof (el_range _ _ Hx) as Hxr. unfold list_insert_user, insert_sets, insert_next, insert_prev.
  cbn [lx_dest lx_head lx_before oid_off lc_obj_doffset]. unfold pe_first, off_addr. destruct (Z.eqb_spec d 0) as [->|Hne].
  - erewrite bind_ok by (eapply word_run; [exact Hp|apply Hh]). fold (firstw (rd64 m) head). rewrite H0 by done. erewrite bind_ok by reflexivity.
    destruct (update_head_run m s0 s rs head x Hp Hh) as (s1 & E1 & Hp1); [lia|lia|]. erewrite bind_ok by exact E1. by exists s1.
  - destruct (Hd Hne) as (Hd1 & Hn & Hq). destruct (elem_words pe d Hd1) as [W1 _]. destruct (elem_words pe _ Hq) as [W2 _]. rewrite (elem_entry pe d Hd1).
    pose proof (el_range _ _ Hn) as Hnr. pose proof (el_range _ _ Hq) as Hqr. destruct before.
    + unfold list_insert_before. cbn [lx_dest lx_dest_entry_ptr lc_pe_offset lc_obj_doffset oid_off]. unfold pe_prev, off_addr. change PREV_OFF with 24. change NEXT_OFF with 8.
      replace (d + pe + 16 + 8) with (d + pe + 24) by lia.
      destruct (request_run m s0 s rs (d + pe + 24) x Hp (el_last _ _ Hd1)) as (s1 & E1 & Hp1); [lia|unfold few; rewrite length_app; cbn; lia|].
      destruct (request_run m s0 s1 _ _ x Hp1 W2) as (s2 & E2 & Hp2); [lia|unfold few; rewrite !length_app; cbn; lia|].
      erewrite bind_ok.
      2: { erewrite bind_ok by (eapply word_run; [exact Hp|apply Hd1]). fold (prevw (rd64 m) pe d). erewrite bind_ok by (by apply add_offset_run).
           erewrite bind_ok by (by apply add_offset_run). erewrite bind_ok by exact E1. erewrite bind_ok by exact E2. reflexivity. }
      erewrite bind_ok by (eapply word_run; [exact Hp2|apply Hh]). fold (firstw (rd64 m) head). rewrite <-app_assoc in Hp2. cbn [app] in Hp2.
      destruct (d =? firstw (rd64 m) head); [|by exists s2].
      destruct (update_head_run m s0 s2 _ head x Hp2 Hh) as (s3 & E3 & Hp3); [lia|rewrite length_app; cbn; lia|].
      erewrite bind_ok by exact E3. exists s3. split; [done|]. by rewrite <-app_assoc in Hp3.
    + unfold list_insert_after. cbn [lx_dest lx_dest_entry_ptr lc_pe_offset lc_obj_doffset oid_off]. unfold pe_next, off_addr. change PREV_OFF with 24. change NEXT_OFF with 8.
      destruct (request_run m s0 s rs (d + pe + 8) x Hp W1) as (s1 & E1 & Hp1); [lia|unfold few; rewrite length_app; cbn; lia|].
      destruct (request_run m s0 s1 _ _ x Hp1 (el_last _ _ Hn)) as (s2 & E2 & Hp2); [lia|unfold few; rewrite !length_app; cbn; lia|].
      exists s2. split; [|by rewrite <-app_assoc in Hp2].
      erewrite bind_ok by (eapply word_run; [exact Hp|apply W1]). fold (nextw (rd64 m) pe d). erewrite bind_ok by (by apply add_offset_run).
      erewrite bind_ok by (by apply add_offset_run). erewrite bind_ok by exact E1. by erewrite bind_ok by exact E2.
Qed.

(** *** The entry of the element *)

(** The identifiers of the pool are stored directly. *)
Definition fill_mem (m : mem) (pe x : Z) (set_uuid : bool) : mem := if set_uuid then wr64 (wr64 m (x + pe) uuid_lo) (x + pe + 16) uuid_lo else m.
Definition entry_uuid (m : mem) (pe x : Z) : Prop := rd64 m (x + pe) = uuid_lo ∧ rd64 m (x + pe + 16) = uuid_lo.

Lemma fill_run m s0 s rs pe x next prev set_uuid : pending m s0 s rs → elem_ok pe x → 0 ≤ next < 2 ^ 64 → 0 ≤ prev < 2 ^ 64 →
  (set_uuid = false → entry_uuid m pe x) → (length rs + 2 ≤ 16)%nat →
  ∃ s', list_fill_entry_redo_log uuid_lo o pop (ListArgsCommon pe x (x + pe)) next prev set_uuid s = (Ok tt, s') ∧
    pending (fill_mem m pe x set_uuid) s0 s' (rs ++ fill_sets pe x next prev).
Proof using Hpop OpsSpec0.
  intros Hp Hx Hn Hq Hid Hf. destruct (elem_words pe x Hx) as [W1 W2]. pose proof (el_range _ _ Hx) as Hxr.
  destruct (word_valid _ (el_first _ _ Hx)) as [_ Hpos]. unfold list_fill_entry_redo_log. cbn [lc_entry_ptr lc_obj_doffset lc_pe_offset].
  rewrite (proj2 (Z.eqb_neq (x + pe) 0)), (proj2 (Z.eqb_neq x 0)) by lia. do 2 (erewrite bind_ok by reflexivity).
  assert (∃ s1, (if set_uuid then
     lift_pm (modify (λ p, pm_store p (uuid_addr (pe_next (x + pe))) (le_bytes 8 uuid_lo)));;
     lift_pm (modify (λ p, pm_store p (uuid_addr (pe_prev (x + pe))) (le_bytes 8 uuid_lo)));;
     lift_pm (modify (λ p, op_persist o p (x + pe) sizeof_list_entry 0))
   else
     u ← word (uuid_addr (pe_next (x + pe)));
     check (u =? uuid_lo);;
     v ← word (uuid_addr (pe_prev (x + pe)));
     check (v =? uuid_lo)) s = (Ok tt, s1) ∧ pending (fill_mem m pe x set_uuid) s0 s1 rs) as (s1 & E1 & Hp1).
  { unfold uuid_addr, pe_next, pe_prev, fill_mem. destruct set_uuid.
    - destruct (store_word_run m s0 s rs (x + pe) uuid_lo Hp (el_first _ _ Hx)) as (t1 & F1 & Hq1). erewrite bind_ok by exact F1.
      destruct (store_word_run _ s0 t1 rs (x + pe + 16) uuid_lo Hq1 W2) as (t2 & F2 & Hq2). erewrite bind_ok by exact F2. by eapply persist_run.
    - destruct (Hid eq_refl) as [I1 I2]. exists s. split; [|done]. erewrite bind_ok by (eapply word_run; [exact Hp|apply Hx]). rewrite I1, Z.eqb_refl.
      erewrite bind_ok by reflexivity. erewrite bind_ok by (eapply word_run; [exact Hp|apply W2]). by rewrite I2, Z.eqb_refl. }
  erewrite bind_ok by exact E1. change PREV_OFF with 24. change NEXT_OFF with 8. do 2 (erewrite bind_ok by (by apply add_offset_run)).
  destruct (request_run _ s0 s1 rs _ next Hp1 W1 Hn) as (s2 & E2 & Hp2); [unfold few; rewrite length_app; cbn; lia|]. erewrite bind_ok by exact E2.
  destruct (request_run _ s0 s2 _ _ prev Hp2 (el_last _ _ Hx) Hq) as (s3 & E3 & Hp3); [unfold few; rewrite !length_app; cbn; lia|].
  exists s3. split; [done|]. by rewrite <-app_assoc in Hp3.
Qed.

(** ** Finishing *)

(** The log of the context is before the heap and long enough, and nothing has been asked for. *)
Record list_ready (s : mstate) : Prop := {
  rdy_ctx : ctx_ready s;
  rdy_type : oc_type (ms_ctx s) = LOG_TYPE_REDO;
  rdy_alloc : alloc_ok D s;
  rdy_shadow : D ≤ ol_ulog (plog s);
  rdy_log : 0 ≤ oc_ulog (ms_ctx s) ∧ oc_ulog (ms_ctx s) + 64 + oc_ulog_base_nbytes (ms_ctx s) ≤ pl_heap_offset pop;
  rdy_size : 320 ≤ oc_ulog_base_nbytes (ms_ctx s)
}.
Local Abbreviation in_log c a := (oc_ulog c ≤ a < oc_ulog c + 64 + oc_ulog_base_nbytes c).

Lemma pending_start s : list_ready s → operation_start s = (Ok tt, started s) ∧ pending (smem s) (started s) (started s) [].
Proof using.
  clear. intros [Hr Ht Ha Hs Hl Hn]. split; [by apply start_run, Hr|]. split; try done.
  - exists (oc_merge_entries (ms_ctx (started s))), (plog (started s)). done.
  - cbn. by rewrite (cr_capacity _ Hr).
  - exists [], 0%nat. split_and!; [by apply started_inv|done|done|done].
Qed.

Lemma pending_pre m s0 s rs es : list_ready s0 → pending m (started s0) s rs → Forall (λ r, word_ok pop r.1) rs → few rs →
  (length es ≤ length rs)%nat → (∀ a, changes es a → changes (assign_of <$> rs) a) → redo_pre D s es.
Proof using Hpop.
  intros [_ _ _ _ Hl Hn] [(q & l & Hc) _ _ Hu _ _] Hw Hf Hlen Hch. destruct Hpop as (Ho & Hz & Hd).
  assert (Forall (λ e, word_ok pop (ve_ptr e)) es) as He.
  { apply Forall_forall. intros e Hin. destruct (Hch (ve_ptr e)) as (e' & (r & -> & Hr)%list_elem_of_fmap & E); [by exists e|]. rewrite <-E. by apply (proj1 (Forall_forall _ _) Hw). }
  split; rewrite ?Hc; cbn; [lia|by rewrite Hc in Hu|unfold pool_end in *; lia| | |].
  - pose proof (roundup_bounds (16 * Z.of_nat (length es) + 8) 64 ltac:(lia)). unfold few in Hf. unfold roundup in *. lia.
  - eapply Forall_impl; [exact He|]. intros e []. done.
  - eapply Forall_impl; [exact He|]. intros e [_ H _]. right. lia.
Qed.

(** The words of the pool after the operation. *)
Lemma pending_finish m s0 s rs : list_ready s0 → pending m (started s0) s rs → Forall (λ r, word_ok pop r.1 ∧ 0 ≤ r.2 < 2 ^ 64) rs → few rs → (16 < fuel)%nat →
  ∃ s', finish o fuel ulog_free push_ok s = (Ok tt, s') ∧ ∀ a, (8 | a) → a + 8 ≤ D → (a + 8 ≤ oc_ulog (ms_ctx s0) ∨ oc_ulog (ms_ctx s0) + 64 + oc_ulog_base_nbytes (ms_ctx s0) ≤ a) →
    rd64 (smem s') a = assigned rs (rd64 m) a.
Proof using Hpop OpsSpec0.
  intros Hr Hp Hw Hf Hfu. pose proof Hp as [(q & l & Hc) Hm _ _ _ (es & t & Hsh & Hl & Hch & Heq)]. unfold few in Hf.
  destruct (finish_applies o ulog_free push_ok fuel D s es t Hsh) as (s' & E & Hm').
  - eapply pending_pre; try done. eapply Forall_impl; [exact Hw|]. by intros r [].
  - lia.
  - rewrite Hc. apply Hr.
  - by rewrite Hc.
  - by rewrite Hc.
  - exists s'. split; [exact E|]. intros a Ha HaD Hlog. rewrite <-assigned_words; [|done|eapply Forall_impl; [exact Hw|]; by intros r [[] ?]].
    apply rd64_ext. intros x Hx. rewrite Hm'; [|lia|rewrite Hc; cbn; lia]. rewrite (uops_equiv_apply _ _ (smem s) Heq x).
    apply apply_at. apply Hm. lia.
Qed.
End requests.

(** ** Lanes *)

(** A context between operations after [operation_init]. *)
Lemma reinit_ready pop e c : list_ready pop (MState e c) → list_ready pop (MState e (reinit c)).
Proof.
  intros [[H1 H2 H3 [l H4] H5] Ht Ha Hs Hl Hn]. split; try done. split; try done. destruct (clear_inv _ _ H4) as [Hq _]. by eexists.
Qed.

Section lanes.
Context (uuid_lo : Z) (fuel : nat) (malloc zalloc tls_ok has_remote : bool).

(** The thread holds no lane, and one is free. *)
Definition can_hold (h : hold_state) : Prop := ∃ next n ths d t a inf, 0 < n < 2 ^ 32 ∧ rtc lane_step (sys_boot next n) (Sys (hs_shared h) ths d) ∧
  Z.of_nat (length (hs_lanes h)) = n ∧ n ≤ Z.of_nat fuel ∧ cached (hs_thread h) uuid_lo a inf ∧ ths !! t = Some (false, inf) ∧
  li_nest_count inf = 0 ∧ ∃ f, lookupZ (lk_locks (hs_shared h)) f = Some 0.

(** Taking a lane, changing it and releasing it. *)
Lemma lane_cycle h : can_hold h →
  ∃ i l h1, lane_hold malloc zalloc tls_ok fuel uuid_lo has_remote true h = (Ok i, h1) ∧ lookupZ (hs_lanes h) i = Some l ∧
    hs_lanes h1 = updZ (hs_lanes h) i (reinit_lane l) ∧
    ∀ l', ∃ h2, lane_release malloc zalloc tls_ok uuid_lo has_remote (HoldState (hs_thread h1) (hs_shared h1) (updZ (hs_lanes h1) i l')) = (Ok tt, h2) ∧
      hs_lanes h2 = updZ (hs_lanes h) i l' ∧ lk_locks (hs_shared h2) = lk_locks (hs_shared h) ∧ can_hold h2.
Proof.
  intros (next & n & ths & d & t & a & inf & Hn & Hs & Hl & Hf & Hc & Ht & H0 & Hfree).
  destruct (hold_returns malloc zalloc tls_ok fuel uuid_lo has_remote true next n h ths d t a inf) as (inf' & h1 & E & Hi & Hc' & Hla & Hnest & Hst & Hk); try done.
  { rewrite H0. unfold UINT64_MAX. lia. }
  rewrite H0 in Hk, Hnest. change (0 =? 0) with true in Hk. cbv iota in Hk. destruct Hk as [Hk0 Hk1].
  destruct (lookupZ_is_Some (hs_lanes h) (li_lane_idx inf')) as [l Hll]; [lia|].
  assert (hs_lanes h1 = updZ (hs_lanes h) (li_lane_idx inf') (reinit_lane l)) as Hl1.
  { rewrite Hla. unfold hold_lanes. rewrite Hll, Hnest. done. }
  exists (li_lane_idx inf'), l, h1. split_and!; [done..|]. intros l'.
  assert (rtc lane_step (sys_boot next n) (Sys (hs_shared h1) (<[t := (false, inf')]> ths) d)) as Hr by (by etrans).
  destruct (reachable_inv next n _ ltac:(lia) Hr) as (_ & _ & Hnl). cbn in Hnl.
  assert (lookupZ (lk_locks (hs_shared h1)) (li_lane_idx inf') = Some 1) as H1 by (rewrite Hk1, lookupZ_updZ_eq; [done|]; by apply lookupZ_Some in Hk0).
  rewrite (release_run malloc zalloc tls_ok uuid_lo has_remote _ a inf'); cbn [hs_thread hs_shared hs_lanes]; [|done|lia|unfold UINT64_MAX; lia|lia|done].
  rewrite Hnest. change (0 + 1 =? 1) with true. cbv iota. eexists. split; [reflexivity|]. cbn [hs_lanes hs_shared lk_locks set_locks].
  assert (updZ (lk_locks (hs_shared h1)) (li_lane_idx inf') 0 = lk_locks (hs_shared h)) as Hlk by (rewrite Hk1, updZ_updZ; by apply updZ_id).
  split_and!; [by rewrite Hl1, updZ_updZ|done|].
  exists next, n, (<[t := (false, set_nest 0 inf')]> (<[t := (false, inf')]> ths)), d, t, a, (set_nest 0 inf'). cbn [hs_shared hs_lanes hs_thread].
  split_and!; try done; try lia.
  - eapply rtc_r; [exact Hr|]. apply step_release; [apply lookup_insert_eq|lia|]. unfold cas. by rewrite H1.
  - by rewrite length_updZ, Hl1, length_updZ.
  - apply (put_cached uuid_lo _ _ inf'); [done|apply Hc'].
  - apply lookup_insert_eq.
  - cbn [set_locks lk_locks]. by rewrite Hlk.
Qed.
End lanes.
