(* ===== verification/TxRanges.v ===== *)
(** * libpmemobj: the ranges of a transaction

    The tree of [tx.c] holds the ranges that are part of a transaction.  Here it is read as a list of disjoint ranges in
    order, with the addresses of their nodes, and the operations of the tree that [pmemobj_tx_add_common] uses are described on that list. *)

From stdpp Require Import base gmap list numbers sorting.
From S2P Require Import Prelude Memory Ravl RavlTree RavlBalance RavlRun RavlSearch RavlTheorems Heap Tx.
Local Open Scope Z_scope.

(** ** Positions in a tree *)

(** The way to an entry, given what is before and after it. *)
Lemma focus_split t : ∀ es1 p k es2, entries t = es1 ++ (p, k) :: es2 →
  ∃ c rk x l rt, t = plug c (Node p rk x l rt) ∧ key_of x = k ∧ es1 = lefts c ++ entries l ∧ es2 = entries rt ++ rights c.
Proof.
  induction t as [|q rk x l IHl rt IHr]; intros es1 p k es2 E; cbn [entries] in E; [by destruct es1|].
  apply app_eq_inv in E as [(es & El & Er)|(es & -> & Er)].
  - destruct es as [|e es]; cbn in Er.
    + rewrite app_nil_r in El. injection Er as -> -> ->. exists [], rk, x, l, rt. cbn. by rewrite app_nil_r.
    + injection Er as <- ->. destruct (IHl _ _ _ _ El) as (c & rk' & x' & l' & rt' & -> & Hk & -> & ->).
      exists (c ++ [Fr L q rk x rt]), rk', x', l', rt'. rewrite plug_app. split_and!; [done|done|..].
      * f_equal. clear. induction c as [|f c IH]; cbn; [done|]. by rewrite IH.
      * rewrite <-app_assoc. f_equal. clear. induction c as [|f c IH]; cbn; [by rewrite app_nil_r|]. by rewrite <-app_assoc, IH.
  - destruct es as [|e es]; cbn in Er.
    + injection Er as <- <- <-. exists [], rk, x, l, rt. cbn. by rewrite !app_nil_r.
    + injection Er as <- Er. destruct (IHr _ _ _ _ Er) as (c & rk' & x' & l' & rt' & -> & Hk & -> & ->).
      exists (c ++ [Fr R q rk x l]), rk', x', l', rt'. rewrite plug_app. split_and!; [done|done|..].
      * assert (lefts (c ++ [Fr R q rk x l]) = entries l ++ (q, key_of x) :: lefts c) as ->; [|by rewrite <-app_assoc].
        clear. induction c as [|f c IH]; cbn; [done|]. by rewrite IH, <-app_assoc.
      * f_equal. clear. induction c as [|f c IH]; cbn; [done|]. by rewrite IH.
Qed.

Lemma lefts_node c p rk x l rt : entries (plug c (Node p rk x l rt)) = (lefts c ++ entries l) ++ (p, key_of x) :: entries rt ++ rights c.
Proof. rewrite entries_plug. cbn [entries]. by rewrite <-!app_assoc. Qed.

Lemma trank_plug c t t' : trank t' ≤ trank t → trank (plug c t') ≤ trank (plug c t).
Proof. destruct c as [|f c]; [done|]. intros _. by rewrite (trank_plug_cons f c t t'). Qed.

Section update.
Context (compare : dref → dref → Z) `{!CompareOk compare}.

(** Changing the data of a node in place. *)
Lemma set_data_spec r t es1 p k es2 d : ravl_inv compare false r t → entries t = es1 ++ (p, k) :: es2 → len d = r_data_size r →
  sorted compare (es1 ++ (p, Own d) :: es2) →
  ∃ r' t', node_mod p (n_set_data d) r = (Ok tt, r') ∧ ravl_inv compare false r' t' ∧ same r r' ∧
    entries t' = es1 ++ (p, Own d) :: es2 ∧ trank t' = trank t.
Proof using Type*.
  intros [Hf Hs Hr Hd Hb] E Hl Hso. destruct (focus_split t es1 p k es2 E) as (c & rk & x & l & rt & -> & <- & -> & ->).
  pose proof (proj2 (focus_plug _ _ _ _) Hf) as Hf1. pose proof (focus_node _ _ _ _ _ _ _ _ Hf1) as [Hp _].
  apply tall_plug in Hd as [(Hx & Hdl & Hdr) Hdc]. apply rank_ok_plug in Hr as [Hr Hrc].
  exists (r_set_heap (<[p := RavlNode (cpar c) (tptr l) (tptr rt) rk false d]> (r_heap r)) r), (plug c (Node p rk (false, d) l rt)).
  assert (entries (plug c (Node p rk (false, d) l rt)) = (lefts c ++ entries l) ++ (p, Own d) :: entries rt ++ rights c) as He by apply lefts_node.
  split_and!; [|split|done|done|].
  - rewrite (node_mod_run _ _ _ _ Hp). unfold n_set_data. cbn. by rewrite (proj1 Hx).
  - apply (proj1 (focus_plug _ _ _ _)). by apply (focus_update r ∅ c p rk x l rt rk (false, d)).
  - by rewrite He.
  - apply rank_ok_plug. by split.
  - apply tall_plug. by split.
  - destruct Hb as [Hb0 Hb]. split; [done|]. intros q Hq. apply Hb. rewrite tdom_entries in Hq |- *. rewrite He in Hq. rewrite lefts_node.
    by rewrite !fmap_app, !fmap_cons in Hq |- *.
  - destruct c as [|f c]; [done|]. apply trank_plug_cons.
Qed.

(** A removal keeps the nodes of the entries before the one that is removed. *)
Lemma remove_split r t es1 p k es2 : ravl_inv compare false r t → entries t = es1 ++ (p, k) :: es2 →
  ∃ r' t' es2', ravl_remove p r = (Ok tt, r') ∧ ravl_inv compare false r' t' ∧ same r r' ∧
    entries t' = es1 ++ es2' ∧ es2'.*2 = es2.*2 ∧ trank t' ≤ trank t.
Proof using Type*.
  intros Hi E. pose proof Hi as [Hf Hs Hr Hd Hb]. destruct (focus_split t es1 p k es2 E) as (c & rk & x & l & rt & -> & Hk & -> & ->).
  pose proof (proj2 (focus_plug _ _ _ _) Hf) as Hf1.
  destruct (remove_run r ∅ c (Node p rk x l rt) Hf1 ltac:(done)) as (r' & t' & Er & Hsm & Hrm & Hf').
  { apply tall_plug in Hd as [Hd _]. revert Hd. generalize (Node p rk x l rt). clear. induction t; simpl; tauto. }
  destruct (removed_spec false (r_data_size r) _ _ _ Hrm Hr Hd) as (? & ? & ? & ? & ? & [= <- <- <- <- <-] & Hkeys & Hrk & Hda & Hdm).
  assert (∃ es2', entries t' = (lefts c ++ entries l) ++ es2' ∧ es2'.*2 = (entries rt ++ rights c).*2 ∧ trank t' ≤ trank (plug c (Node p rk x l rt)))
    as (es2' & He & Hes & Htr).
  { apply rank_ok_plug in Hr as [(R1 & R2 & _ & R3) _]. apply tall_plug in Hd as [((Hx & _) & _ & Hdr) _].
    inversion Hrm as [? ? ? ? ? Hone|? ? ? ? c1 q rq xq rr Hne Hlc]; subst.
    - exists (entries rt ++ rights c). split_and!; [|done|].
      + rewrite entries_plug. destruct l; cbn [only_child entries]; [by rewrite !app_nil_r|]. destruct Hone as [?| ->]; [done|]. cbn. by rewrite <-!app_assoc.
      + apply trank_plug. destruct l; cbn [only_child trank] in *; lia.
    - exists ((p, key_of (x.1, xq.2)) :: entries (plug c1 rr) ++ rights c). split_and!.
      + by rewrite lefts_node.
      + apply tall_plug in Hdr as [((Hq & _) & _) _]. assert (key_of (x.1, xq.2) = key_of xq) as -> by (unfold key_of; cbn; by rewrite Hx, Hq).
        by rewrite !entries_plug, Hlc.
      + apply trank_plug. done. }
  exists r', t', es2'. pose proof Hsm as (Hds & Hbk & _). split_and!; [done| |done|done|done|done].
  split; [done| |done|by rewrite Hds|rewrite Hbk; destruct Hb as [Hb0 Hb]; split; [done|intros q Hq; apply Hb, Hdm, Hq]].
  apply sorted_keys. apply sorted_keys in Hs. rewrite lefts_node in Hs. rewrite He. rewrite fmap_app in Hs |- *. rewrite fmap_cons in Hs. rewrite Hes.
  by apply (ssorted_app compare) in Hs as (Hs & _).
Qed.
End update.

(** ** Ranges *)

Definition rng_end (r : tx_range_def) : Z := rd_offset r + rd_size r.
Record range_ok (r : tx_range_def) : Prop := {
  ro_offset : 0 ≤ rd_offset r;
  ro_size : 0 < rd_size r;
  ro_end : rng_end r < 2 ^ 64;
  ro_flags : 0 ≤ rd_flags r < 2 ^ 64
}.
Definition in_range (a : Z) (r : tx_range_def) : Prop := rd_offset r ≤ a < rng_end r.
Definition covers (L : list tx_range_def) (a : Z) : Prop := Exists (in_range a) L.

(** Disjoint ranges in order. *)
Definition before (a b : tx_range_def) : Prop := rng_end a ≤ rd_offset b.
Record ranges_ok (L : list tx_range_def) : Prop := { rs_ok : Forall range_ok L; rs_sorted : StronglySorted before L }.

Lemma sorted_app_before L1 L2 : StronglySorted before (L1 ++ L2) ↔
  StronglySorted before L1 ∧ StronglySorted before L2 ∧ ∀ a b, a ∈ L1 → b ∈ L2 → before a b.
Proof.
  induction L1 as [|x L1 IH]; cbn [app].
  { split; [intros H; split_and!; [constructor|done|by intros ? ? ?%elem_of_nil]|tauto]. }
  split.
  - intros [H1 H2]%StronglySorted_inv. apply IH in H1 as (? & ? & ?). rewrite Forall_app in H2. destruct H2 as [H2 H3].
    split_and!; [by constructor|done|]. intros a b [->|?]%elem_of_cons Hb; [by apply (proj1 (Forall_forall _ _) H3)|auto].
  - intros ([H1 H2]%StronglySorted_inv & H3 & H4). constructor; [apply IH; split_and!; auto; intros; apply H4; [by right|done]|].
    apply Forall_app. split; [done|]. apply Forall_forall. intros b Hb. apply H4; [by left|done].
Qed.

Lemma ranges_app L1 L2 : ranges_ok (L1 ++ L2) ↔ ranges_ok L1 ∧ ranges_ok L2 ∧ ∀ a b, a ∈ L1 → b ∈ L2 → before a b.
Proof.
  split.
  - intros [H1 H2]. apply Forall_app in H1 as [? ?]. by apply sorted_app_before in H2 as (? & ? & ?).
  - intros ([? ?] & [? ?] & ?). split; [by apply Forall_app|by apply sorted_app_before].
Qed.
Lemma ranges_cons x L : ranges_ok (x :: L) ↔ range_ok x ∧ ranges_ok L ∧ ∀ b, b ∈ L → before x b.
Proof.
  split.
  - intros [H1 [H2 H3]%StronglySorted_inv]. apply Forall_cons in H1 as [? ?]. split_and!; [done|done|]. by rewrite Forall_forall in H3.
  - intros (? & [? ?] & ?). split; [by constructor|]. constructor; [done|]. by apply Forall_forall.
Qed.
Lemma covers_app L1 L2 a : covers (L1 ++ L2) a ↔ covers L1 a ∨ covers L2 a.
Proof. apply Exists_app. Qed.
Lemma covers_cons x L a : covers (x :: L) a ↔ in_range a x ∨ covers L a.
Proof. apply Exists_cons. Qed.
Lemma covers_nil a : covers [] a ↔ False.
Proof. apply Exists_nil. Qed.

(** ** The bytes of a range in a node *)

Lemma range_at_bytes r : 0 ≤ rd_offset r < 2 ^ 64 → 0 ≤ rd_size r < 2 ^ 64 → 0 ≤ rd_flags r < 2 ^ 64 → range_at (Own (range_bytes r)) = r.
Proof.
  destruct r as [a b c]. cbn [rd_offset rd_size rd_flags]. intros H1 H2 H3. unfold range_at, range_bytes. cbn [rd_offset rd_size rd_flags].
  rewrite take_app_length' by (by rewrite length_le_bytes). rewrite drop_app_length' by (by rewrite length_le_bytes).
  rewrite take_app_length' by (by rewrite length_le_bytes).
  assert (drop 16 (le_bytes 8 a ++ le_bytes 8 b ++ le_bytes 8 c) = le_bytes 8 c) as ->.
  { rewrite app_assoc, drop_app_length'; [done|]. by rewrite length_app, !length_le_bytes. }
  rewrite (take_ge (le_bytes 8 c)) by (by rewrite length_le_bytes).
  rewrite !le_of_le_bytes. change (256 ^ Z.of_nat 8) with (2 ^ 64). by rewrite !Z.mod_small.
Qed.
Lemma length_range_bytes r : len (range_bytes r) = sizeof_tx_range_def.
Proof. unfold range_bytes. by rewrite !length_app, !length_le_bytes. Qed.
Lemma range_ok_bytes r : range_ok r → range_at (Own (range_bytes r)) = r.
Proof. intros [H1 H2 H3 H4]. unfold rng_end in *. apply range_at_bytes; lia. Qed.

Lemma range_cmp_spec a b :
  (tx_range_def_cmp a b < 0 ↔ rd_offset (range_at a) < rd_offset (range_at b)) ∧
  (tx_range_def_cmp a b = 0 ↔ rd_offset (range_at a) = rd_offset (range_at b)).
Proof. unfold tx_range_def_cmp. destruct (Z.ltb_spec (rd_offset (range_at b)) (rd_offset (range_at a))); [lia|]. destruct (Z.ltb_spec (rd_offset (range_at a)) (rd_offset (range_at b))); lia. Qed.

#[global] Instance range_cmp_ok : CompareOk tx_range_def_cmp.
Proof.
  split.
  - intros a b. unfold tx_range_def_cmp. repeat case_match; lia.
  - intros a b c. unfold tx_range_def_cmp. repeat case_match; lia.
Qed.

(** ** The tree as a list of ranges with their nodes *)

Definition tree_ranges (t : tree) : list (Z * tx_range_def) := (λ e, (e.1, range_at e.2)) <$> entries t.

(** [N] bounds the rank of the tree, that grows by at most one for an insertion; there is memory for nodes. *)
Definition ranges_rep (N : Z) (r : ravl) (L : list (Z * tx_range_def)) : Prop :=
  ∃ t, ravl_inv tx_range_def_cmp false r t ∧ r_data_size r = sizeof_tx_range_def ∧ tree_ranges t = L ∧ trank t ≤ N ∧ Forall (eq true) (r_malloc r).

(** The ranges are ordered by their offsets alone. *)
Definition by_offset (a b : Z * tx_range_def) : Prop := rd_offset a.2 < rd_offset b.2.

Lemma sorted_offsets es : sorted tx_range_def_cmp es ↔ StronglySorted by_offset ((λ e, (e.1, range_at e.2)) <$> es).
Proof.
  unfold sorted. induction es as [|e es IH]; [split; constructor|]. rewrite fmap_cons. split; intros [H1 H2]%StronglySorted_inv; constructor; try (by apply IH).
  - rewrite Forall_fmap. eapply Forall_impl; [exact H2|]. intros f Hf. by apply range_cmp_spec.
  - rewrite Forall_fmap in H2. eapply Forall_impl; [exact H2|]. intros f Hf. by apply range_cmp_spec.
Qed.

Lemma ranges_fmap_split (es : list (Z * dref)) L1 n x L2 : (λ e, (e.1, range_at e.2)) <$> es = L1 ++ (n, x) :: L2 →
  ∃ es1 k es2, es = es1 ++ (n, k) :: es2 ∧ (λ e, (e.1, range_at e.2)) <$> es1 = L1 ∧ range_at k = x ∧ (λ e, (e.1, range_at e.2)) <$> es2 = L2.
Proof.
  intros E. apply fmap_app_inv in E as (es1 & es' & H1 & E & ->). symmetry in E. apply fmap_cons_inv in E as ([m k] & es2 & [= -> ->] & -> & ->).
  exists es1, k, es2. by rewrite <-H1.
Qed.

Section rep.
Context (N : Z).

Lemma rep_node r L1 n x L2 : ranges_rep N r (L1 ++ (n, x) :: L2) → n ≠ 0 ∧ ∃ d, node_data n r = (Ok d, r) ∧ range_at d = x.
Proof.
  intros (t & Hi & _ & E & _). apply ranges_fmap_split in E as (es1 & k & es2 & E & _ & Hk & _).
  destruct (focus_split t es1 n k es2 E) as (c & rk & y & l & rt & -> & <- & _ & _).
  pose proof (proj2 (focus_plug _ _ _ _) (ri_focus _ _ _ _ Hi)) as Hf. pose proof (focus_node _ _ _ _ _ _ _ _ Hf) as [Hp Hn0].
  split; [done|]. exists (key_of y). split; [|done]. by rewrite (node_data_run _ _ _ Hp).
Qed.

Lemma ranges_put r L1 n x L2 y : ranges_rep N r (L1 ++ (n, x) :: L2) → 0 ≤ rd_offset y < 2 ^ 64 → 0 ≤ rd_size y < 2 ^ 64 → 0 ≤ rd_flags y < 2 ^ 64 →
  (∀ a, a ∈ L1.*2 → rd_offset a < rd_offset y) → (∀ b, b ∈ L2.*2 → rd_offset y < rd_offset b) →
  ∃ r', node_mod n (n_set_data (range_bytes y)) r = (Ok tt, r') ∧ ranges_rep N r' (L1 ++ (n, y) :: L2).
Proof.
  intros (t & Hi & Hsz & E & HN & HM) Y1 Y2 Y3 H1 H2. pose proof (range_at_bytes y Y1 Y2 Y3) as Ey.
  pose proof (proj1 (sorted_offsets _) (ri_sorted _ _ _ _ Hi)) as Hs. fold (tree_ranges t) in Hs. rewrite E in Hs.
  apply ranges_fmap_split in E as (es1 & k & es2 & E & <- & Hk & <-).
  destruct (set_data_spec tx_range_def_cmp r t es1 n k es2 (range_bytes y) Hi E) as (r' & t' & Er & Hi' & (Hd & _ & Hm) & E' & Hr).
  { by rewrite length_range_bytes. }
  { apply sorted_offsets. rewrite fmap_app, fmap_cons. cbn [fst snd]. rewrite Ey.
    apply StronglySorted_app in Hs as (S1 & S3 & S2). apply StronglySorted_inv in S2 as [S2 S4].
    apply StronglySorted_app. split_and!; [|done|].
    - intros a b Ha [->|Hb]%elem_of_cons; [unfold by_offset; cbn; apply H1; by apply list_elem_of_fmap_2|]. apply S1; [done|by right].
    - constructor; [done|]. apply Forall_forall. intros b Hb. unfold by_offset. cbn. apply H2. by apply list_elem_of_fmap_2. }
  exists r'. split; [done|]. exists t'. split_and!; [done|by rewrite Hd| |by rewrite Hr|by rewrite Hm].
  unfold tree_ranges. rewrite E', fmap_app, fmap_cons. cbn [fst snd]. by rewrite Ey.
Qed.

Lemma rep_remove r L1 n x L2 : ranges_rep N r (L1 ++ (n, x) :: L2) →
  ∃ r' L2', ravl_remove n r = (Ok tt, r') ∧ ranges_rep N r' (L1 ++ L2') ∧ L2'.*2 = L2.*2.
Proof.
  intros (t & Hi & Hsz & E & HN & HM). apply ranges_fmap_split in E as (es1 & k & es2 & E & <- & Hk & <-).
  destruct (remove_split tx_range_def_cmp r t es1 n k es2 Hi E) as (r' & t' & es2' & Er & Hi' & (Hd & _ & Hm) & E' & Hes & Hr).
  exists r', ((λ e, (e.1, range_at e.2)) <$> es2'). split_and!; [done| |].
  - exists t'. split_and!; [done|by rewrite Hd| |lia|by rewrite Hm]. unfold tree_ranges. by rewrite E', fmap_app.
  - rewrite <-!list_fmap_compose. change (snd ∘ (λ e : Z * dref, (e.1, range_at e.2))) with (range_at ∘ (snd (A := Z) (B := dref))).
    rewrite !list_fmap_compose. by rewrite Hes.
Qed.

(** The last range at or before an offset, or before it. *)
Lemma rep_find r L1 L2 x flags : ranges_rep N r (L1 ++ L2) → 0 ≤ x < 2 ^ 64 →
  (flags = RAVL_PREDICATE_LESS_EQUAL ∧ (∀ a, a ∈ L1.*2 → rd_offset a ≤ x) ∧ (∀ b, b ∈ L2.*2 → x < rd_offset b) ∨
   flags = RAVL_PREDICATE_LESS ∧ (∀ a, a ∈ L1.*2 → rd_offset a < x) ∧ (∀ b, b ∈ L2.*2 → x ≤ rd_offset b)) →
  ravl_find tx_range_def_cmp (Own (range_bytes (TxRangeDef x 0 0))) flags r = (Ok (from_option fst 0 (last L1)), r).
Proof.
  intros (t & Hi & Hsz & E & HN & HM) Hx Hfl. pose proof (ri_sorted _ _ _ _ Hi) as Hs.
  rewrite (find_spec _ _ _ _ _ _ Hi) by (unfold predicates; destruct Hfl as [[-> _]|[-> _]]; set_solver). f_equal. f_equal.
  apply fmap_app_inv in E as (es1 & es2 & -> & -> & Et). rewrite Et in Hs |- *. set (k := Own _).
  assert (∀ e, tx_range_def_cmp k e < 0 ↔ x < rd_offset (range_at e)) as Hlt.
  { intros e. rewrite (proj1 (range_cmp_spec k e)). unfold k. by rewrite range_at_bytes by (cbn; lia). }
  assert (∀ e, tx_range_def_cmp k e = 0 ↔ x = rd_offset (range_at e)) as Heq.
  { intros e. rewrite (proj2 (range_cmp_spec k e)). unfold k. by rewrite range_at_bytes by (cbn; lia). }
  assert (∀ (e : Z * dref) es, e ∈ es → range_at e.2 ∈ ((λ e : Z * dref, (e.1, range_at e.2)) <$> es).*2) as Hin.
  { intros e es He. apply list_elem_of_fmap. exists (e.1, range_at e.2). split; [done|]. apply list_elem_of_fmap. by exists e. }
  assert (from_option fst 0 (last ((λ e : Z * dref, (e.1, range_at e.2)) <$> es1)) = near L es1) as ->.
  { unfold near. rewrite fmap_last. by destruct (last es1). }
  destruct Hfl as [(-> & H1 & H2)|(-> & H1 & H2)]; unfold found, neighbour;
    change (has_flag _ RAVL_PREDICATE_GREATER) with false; change (has_flag _ RAVL_PREDICATE_LESS) with true; cbv iota; rewrite !filter_app.
  - change (has_flag _ RAVL_PREDICATE_EQUAL) with true. cbv iota.
    rewrite (filter_none (λ e : Z * dref, tx_range_def_cmp k e.2 = 0) es2) by (intros e He; rewrite Heq; pose proof (H2 _ (Hin e _ He)); lia).
    rewrite (filter_none (λ e : Z * dref, 0 < tx_range_def_cmp k e.2) es2) by (intros e He; pose proof (H2 _ (Hin e _ He)); pose proof (Hlt e.2); lia).
    rewrite !app_nil_r. destruct es1 as [|e es1 _] using rev_ind; [done|]. rewrite !filter_app.
    apply sorted_app in Hs as (Hs & _ & _). apply sorted_app in Hs as (_ & _ & Hs).
    assert (∀ f, f ∈ es1 → rd_offset (range_at f.2) < x) as Hlow.
    { intros f Hf. pose proof (Hs f e Hf ltac:(by left)) as Hfe. unfold elt, lt in Hfe. rewrite (proj1 (range_cmp_spec f.2 e.2)) in Hfe.
      pose proof (H1 (range_at e.2) (Hin e (es1 ++ [e]) ltac:(apply elem_of_app; right; by left))). lia. }
    rewrite (filter_none (λ e : Z * dref, tx_range_def_cmp k e.2 = 0) es1) by (intros f Hf; rewrite Heq; pose proof (Hlow f Hf); lia).
    rewrite (filter_all (λ e : Z * dref, 0 < tx_range_def_cmp k e.2) es1) by (intros f Hf; pose proof (Hlow f Hf); pose proof (Hlt f.2); pose proof (Heq f.2); lia).
    rewrite !filter_cons, !filter_nil. cbn [app]. unfold near. pose proof (H1 (range_at e.2) (Hin e (es1 ++ [e]) ltac:(apply elem_of_app; right; by left))).
    destruct (decide (tx_range_def_cmp k e.2 = 0)); [by rewrite last_snoc|]. rewrite decide_True by (pose proof (Hlt e.2); pose proof (Heq e.2); lia).
    by rewrite last_snoc.
  - change (has_flag _ RAVL_PREDICATE_EQUAL) with false. cbv iota.
    rewrite (filter_none (λ e : Z * dref, 0 < tx_range_def_cmp k e.2) es2) by (intros e He; pose proof (H2 _ (Hin e _ He)); pose proof (Hlt e.2); pose proof (Heq e.2); lia).
    rewrite (filter_all (λ e : Z * dref, 0 < tx_range_def_cmp k e.2) es1) by (intros f Hf; pose proof (H1 _ (Hin f _ Hf)); pose proof (Hlt f.2); pose proof (Heq f.2); lia).
    rewrite !app_nil_r. by case_match.
Qed.

(** A new range between two others. *)
Lemma rep_insert r L1 L2 x : ranges_rep N r (L1 ++ L2) → N < 2 ^ 31 - 1 → range_ok x →
  (∀ a, a ∈ L1.*2 → rd_offset a < rd_offset x) → (∀ b, b ∈ L2.*2 → rd_offset x < rd_offset b) →
  ∃ r' L', ravl_emplace_copy tx_range_def_cmp (range_bytes x) r = (Ok tt, r') ∧ ranges_rep (N + 1) r' L' ∧ L'.*2 = L1.*2 ++ x :: L2.*2.
Proof.
  intros (t & Hi & Hsz & E & HN & HM) Hrk Hx H1 H2. pose proof (range_ok_bytes x Hx) as Ex.
  destruct (emplace_spec tx_range_def_cmp ravl_node_copy_constructor r t 0 (range_bytes x) (range_bytes x) Hi)
    as (r' & t' & Er & Hi' & Hsz' & Hm & Hk & _ & _ & Hrk'); [by rewrite Hsz|by rewrite Hsz|lia|].
  change (key_of (constr_pointer ravl_node_copy_constructor, range_bytes x)) with (Own (range_bytes x)) in *.
  assert ((tree_ranges t').*2 = range_at <$> keys t') as Hks.
  { unfold tree_ranges, keys. by rewrite <-!list_fmap_compose. }
  apply fmap_app_inv in E as (es1 & es2 & -> & -> & Et).
  assert (∀ (e : Z * dref) es, e ∈ es → range_at e.2 ∈ ((λ e : Z * dref, (e.1, range_at e.2)) <$> es).*2) as Hin.
  { intros e es He. apply list_elem_of_fmap. exists (e.1, range_at e.2). split; [done|]. apply list_elem_of_fmap. by exists e. }
  assert (∀ e : Z * dref, e ∈ es1 → lt tx_range_def_cmp e.2 (Own (range_bytes x))) as L1.
  { intros e He. unfold lt. rewrite (proj1 (range_cmp_spec e.2 _)), Ex. by apply H1, Hin. }
  assert (∀ e : Z * dref, e ∈ es2 → lt tx_range_def_cmp (Own (range_bytes x)) e.2) as L2.
  { intros e He. unfold lt. rewrite (proj1 (range_cmp_spec _ e.2)), Ex. by apply H2, Hin. }
  assert (keys t = (es1 ++ es2).*2) as Ekt by (unfold keys; by rewrite Et). rewrite Ekt in Er, Hk.
  unfold emplace_result in Er, Hk. rewrite (member_between tx_range_def_cmp _ es1 es2 L1 L2) in Er, Hk.
  assert (ravl_emplace tx_range_def_cmp ravl_node_copy_constructor 0 (range_bytes x) r = (Ok tt, r') ∧ keys t' = ins tx_range_def_cmp (Own (range_bytes x)) (es1 ++ es2).*2)
    as [E' Hk'] by (destruct (r_malloc r) as [|[] ml]; [done|done|by apply Forall_cons in HM as [? _]]).
  exists r', (tree_ranges t'). split_and!; [done| |].
  - exists t'. split_and!; [done|by rewrite Hsz'|done|lia|]. rewrite Hm. by destruct HM.
  - rewrite Hks, Hk', (ins_between tx_range_def_cmp _ es1 es2 L1 L2), fmap_app, fmap_cons, Ex. by rewrite <-!list_fmap_compose.
Qed.

(** One turn of the loop for every range, and two. *)
Lemma rep_fuel r L : ranges_rep N r L → ranges_fuel r = S (S (length L)).
Proof.
  intros (t & Hi & _ & <- & _). unfold ranges_fuel, path_fuel, tree_ranges. rewrite length_fmap, tsize_entries.
  pose proof (ri_focus _ _ _ _ Hi) as Hf. do 2 f_equal. rewrite <-(tsize_tdom t) by apply Hf. rewrite <-size_dom. f_equal. rewrite (fo_dom _ _ _ _ Hf). set_solver.
Qed.
End rep.
