(* ===== verification/TxAdd.v ===== *)
(** * libpmemobj: adding a range to a transaction

    The loop of [pmemobj_tx_add_common] against an interface of taking snapshots: the ranges of the transaction grow by the range that is
    added, they stay disjoint, and exactly the bytes that were not in a range before are snapshotted, each of them once. *)

From stdpp Require Import base gmap list numbers sorting.
From S2P Require Import Prelude Memory Ravl RavlTree RavlSearch RavlTheorems Heap Tx TxRanges.
Local Open Scope Z_scope.

(** The state with another tree of ranges. *)
Definition with_ranges {C R} (r : ravl) (s : tx_state C R) : tx_state C R := (mod_tx (set_ranges (Some r)) s).2.
Definition ranges_of {C R} (s : tx_state C R) : option ravl := tx_ranges (ts_tx s).

(** The space that snapshots take in the log. *)
Definition snap_weight (x : tx_range_def) : Z := roundup (24 + rd_size x) 64.
Fixpoint weight (ss : list tx_range_def) : Z := match ss with [] => 0 | x :: ss => snap_weight x + weight ss end.

Lemma weight_app ss1 ss2 : weight (ss1 ++ ss2) = weight ss1 + weight ss2.
Proof. induction ss1; cbn; lia. Qed.
Lemma snap_weight_le x : snap_weight x ≤ rd_size x + 88.
Proof. unfold snap_weight. pose proof (roundup_bounds (24 + rd_size x) 64). lia. Qed.
Lemma weight_snoc ss x : weight (ss ++ [x]) ≤ weight ss + rd_size x + 88.
Proof. rewrite weight_app. cbn [weight]. pose proof (snap_weight_le x). lia. Qed.

(** What the ranges need of the snapshots: a snapshot of a range of the heap that has no byte of an earlier one is taken if there is room, and the
    tree does not matter to them.  [Inv ss s]: the snapshots [ss] have been taken. *)
Class SnapshotSpec {C R} (snapshot : tx_range_def → M (tx_state C R) Z) (lo hi cap : Z)
    (Inv : list tx_range_def → tx_state C R → Prop) : Prop := {
  snap_ranges ss s r : Inv ss s → Inv ss (with_ranges r s);
  snap_step ss s x : Inv ss s → range_ok x → lo ≤ rd_offset x → rng_end x ≤ hi → (∀ a, in_range a x → ¬ covers ss a) → weight (ss ++ [x]) ≤ cap →
    ∃ s', snapshot x s = (Ok 0, s') ∧ ranges_of s' = ranges_of s ∧ Inv (ss ++ [x]) s'
}.

(** ** Coverage *)

Lemma covers_below L z a : (∀ b, b ∈ L → rng_end b ≤ z) → covers L a → a < z.
Proof. intros H Ha. apply Exists_exists in Ha as (b & Hb & Hr). specialize (H b Hb). unfold in_range in Hr. lia. Qed.
Lemma covers_above L z a : (∀ b, b ∈ L → z ≤ rd_offset b) → covers L a → z ≤ a.
Proof. intros H Ha. apply Exists_exists in Ha as (b & Hb & Hr). specialize (H b Hb). unfold in_range in Hr. lia. Qed.

#[global] Instance covers_dec L a : Decision (covers L a).
Proof. apply Exists_dec. intros x. unfold in_range. apply _. Defined.

(** An interval that is extended to the right, and one that is joined with the next one. *)
Lemma covers_split L1 x L2 a : covers (L1 ++ x :: L2) a ↔ covers L1 a ∨ in_range a x ∨ covers L2 a.
Proof. rewrite covers_app, covers_cons. tauto. Qed.

(** Neighbours in a list of disjoint ranges. *)
Lemma ranges_middle L1 x L2 : ranges_ok (L1 ++ x :: L2) →
  range_ok x ∧ (∀ a, a ∈ L1 → rng_end a ≤ rd_offset x) ∧ (∀ b, b ∈ L2 → rng_end x ≤ rd_offset b).
Proof.
  intros (H1 & H2 & H3)%ranges_app. apply ranges_cons in H2 as (Hx & _ & H4). split_and!; [done| |done]. intros a Ha. apply H3; [done|by left].
Qed.
Lemma ranges_replace L1 x L2 y : ranges_ok (L1 ++ x :: L2) → range_ok y → (∀ a, a ∈ L1 → rng_end a ≤ rd_offset y) →
  (∀ b, b ∈ L2 → rng_end y ≤ rd_offset b) → ranges_ok (L1 ++ y :: L2).
Proof.
  intros (H1 & H2 & H3)%ranges_app Hy Hl Hr. apply ranges_cons in H2 as (_ & H2 & _). apply ranges_app. split_and!; [done|by apply ranges_cons|].
  intros a b Ha [->|Hb]%elem_of_cons; [by apply Hl|]. apply H3; [done|by right].
Qed.
Lemma ranges_drop L1 x L2 : ranges_ok (L1 ++ x :: L2) → ranges_ok (L1 ++ L2).
Proof.
  intros (H1 & H2 & H3)%ranges_app. apply ranges_cons in H2 as (_ & H2 & _). apply ranges_app. split_and!; [done..|].
  intros a b Ha Hb. apply H3; [done|by right].
Qed.

Lemma ranges_left L1 L2 : ranges_ok (L1 ++ L2) → Forall range_ok L1.
Proof. by intros (H1 & _)%ranges_app; apply H1. Qed.

(** Offsets are ordered as well. *)
Lemma offset_below L z : Forall range_ok L → (∀ a, a ∈ L → rng_end a ≤ z) → ∀ a, a ∈ L → rd_offset a < z.
Proof. intros HL H a Ha. specialize (H a Ha). destruct (proj1 (Forall_forall _ _) HL a Ha). unfold rng_end in *. lia. Qed.

Section add.
Context {C R : Type} (o : Ulog.pmem_ops) (fuel : nat) (redo_extend undo_extend : option (Z → M Pmem.pmem unit)).
Local Abbreviation S := (tx_state C R).
Local Abbreviation snapshot := (pmemobj_tx_add_snapshot (C := C) (R := R) o fuel redo_extend undo_extend).
Context (lo hi cap : Z) (Inv : list tx_range_def → S → Prop) `{!SnapshotSpec snapshot lo hi cap Inv}.
Context (Hlo : 0 ≤ lo) (Hhi : hi < 2 ^ 63).
Implicit Types (s : S) (rv : ravl) (L : list (Z * tx_range_def)).

Lemma on_ranges_run {A} (f : M ravl A) s rv x rv' : ranges_of s = Some rv → f rv = (x, rv') → on_ranges f s = (x, with_ranges rv' s).
Proof using. clear. unfold ranges_of. intros E Ef. unfold on_ranges. by rewrite E, Ef. Qed.
Lemma with_ranges_same s rv : ranges_of s = Some rv → with_ranges rv s = s.
Proof using. clear. unfold ranges_of, with_ranges. destruct s as [[] ? ? ? ?]. cbn. by intros ->. Qed.
Lemma ranges_of_with s rv : ranges_of (with_ranges rv s) = Some rv.
Proof using. done. Qed.

Section ops.
Context (N : Z).

Lemma get_range_run s rv L1 n x L2 : ranges_of s = Some rv → ranges_rep N rv (L1 ++ (n, x) :: L2) → get_range n s = (Ok x, s).
Proof using.
  clear. intros Hs Hr. destruct (rep_node N rv L1 n x L2 Hr) as (_ & d & Ed & <-). unfold get_range.
  erewrite bind_ok by (by eapply on_ranges_run). by rewrite (with_ranges_same s rv Hs).
Qed.
Lemma put_range_run s rv L1 n x L2 y : ranges_of s = Some rv → ranges_rep N rv (L1 ++ (n, x) :: L2) → range_ok y →
  (∀ a, a ∈ L1.*2 → rd_offset a < rd_offset y) → (∀ b, b ∈ L2.*2 → rd_offset y < rd_offset b) →
  ∃ rv', put_range n y s = (Ok tt, with_ranges rv' s) ∧ ranges_rep N rv' (L1 ++ (n, y) :: L2).
Proof using.
  clear. intros Hs Hr [Y1 Y2 Y3 Y4] H1 H2. unfold rng_end in Y3. destruct (ranges_put N rv L1 n x L2 y Hr) as (rv' & E & Hr'); [lia..|done|done|].
  exists rv'. split; [by eapply on_ranges_run|done].
Qed.

(** The result of adding [x] to the ranges [L] with the snapshots [ss]: at most [k] snapshots were taken, and at most [j] more ranges are there. *)
Definition added L (ss : list tx_range_def) (x : tx_range_def) (k j : Z) (s' : S) : Prop := ∃ rv' L' ss',
  ranges_of s' = Some rv' ∧ ranges_rep N rv' L' ∧ ranges_ok L'.*2 ∧ Inv (ss ++ ss') s' ∧
  (∀ a, covers L'.*2 a ↔ covers L.*2 a ∨ in_range a x) ∧ (∀ a, covers ss' a ↔ in_range a x ∧ ¬ covers L.*2 a) ∧
  weight (ss ++ ss') ≤ weight ss + rd_size x + 88 * k ∧ Z.of_nat (length L') ≤ Z.of_nat (length L) + j.

(** Where a new piece [x] of the range goes. *)
Record piece_ok (x : tx_range_def) : Prop := {
  po_ok : range_ok x;
  po_lo : lo ≤ rd_offset x;
  po_hi : rng_end x ≤ hi
}.

Lemma uncovered_right s rv L1 n y L2 x ss : ranges_of s = Some rv → ranges_rep N rv (L1 ++ (n, y) :: L2) → ranges_ok (L1.*2 ++ y :: L2.*2) →
  Inv ss s → piece_ok x → rng_end x = rd_offset y → (∀ a, a ∈ L1.*2 → rng_end a ≤ rd_offset x) → rng_end y < 2 ^ 64 →
  (∀ a, covers ss a → covers (L1.*2 ++ y :: L2.*2) a) → weight ss + rd_size x + 88 ≤ cap →
  ∃ s', add_uncovered o fuel redo_extend undo_extend x n s = (Ok 0, s') ∧ added (L1 ++ (n, y) :: L2) ss x 1 0 s'.
Proof using Type*.
  intros Hs Hr HL Hi [Hx Hxl Hxh] Hxy Hl Hy64 Hss Hcap. destruct (ranges_middle _ _ _ HL) as (Hy & Hly & Hry).
  pose proof Hx as [X1 X2 X3 X4]. destruct Hy as [Y1 Y2 Y3 Y4].
  set (y' := TxRangeDef (rd_offset x) (rd_size y + rd_size x) (rd_flags y)).
  assert (range_ok y') as Hy' by (split; unfold rng_end in *; cbn; lia).
  destruct (put_range_run s rv L1 n y L2 y' Hs Hr Hy') as (rv' & Ep & Hr').
  { apply (offset_below _ _ (ranges_left _ _ HL)), Hl. }
  { intros b Hb. specialize (Hry b Hb). unfold y', rng_end in *. cbn. lia. }
  unfold add_uncovered. destruct (rep_node N rv L1 n y L2 Hr) as [Hn0 _]. rewrite (proj2 (Z.eqb_neq n 0)) by done.
  erewrite (bind_ok _ _ s 0 (with_ranges rv' s)).
  2: { erewrite bind_ok by (by eapply get_range_run). unfold rng_end in Hxy, X3. rewrite (u64_id (rd_offset x + rd_size x)), Hxy, Z.eqb_refl by lia. cbn [negb].
       rewrite !u64_id by (unfold rng_end in *; lia). replace (rd_offset y - rd_size x) with (rd_offset x) by lia. fold y'. by erewrite bind_ok by exact Ep. }
  change (0 =? 0) with true. cbn [negb].
  assert (∀ a, in_range a x → ¬ covers (L1.*2 ++ y :: L2.*2) a) as Hnot.
  { intros a Ha Hc. unfold in_range in Ha. apply covers_split in Hc as [Hc|[Hc|Hc]].
    - apply (covers_below _ (rd_offset x)) in Hc; [lia|done].
    - unfold in_range in Hc. lia.
    - apply (covers_above _ (rng_end y)) in Hc; [unfold rng_end in *; lia|done]. }
  destruct (snap_step ss (with_ranges rv' s) x) as (s' & Es & Hrs & Hi'); [by apply snap_ranges|done|done|done|..].
  { intros a Ha Hc. by apply (Hnot a Ha), Hss. }
  { pose proof (weight_snoc ss x). lia. }
  exists s'. split; [done|]. exists rv', (L1 ++ (n, y') :: L2), [x]. rewrite !fmap_app, !fmap_cons in *. cbn [snd] in *.
  split_and!; [by rewrite Hrs|done| |done|..].
  - apply (ranges_replace _ y); [done..|]. intros b Hb. specialize (Hry b Hb). unfold y', rng_end in *. cbn. lia.
  - intros a. rewrite !covers_split. assert (in_range a y' ↔ in_range a y ∨ in_range a x) by (unfold in_range, y', rng_end in *; cbn; lia). tauto.
  - intros a. rewrite covers_cons, covers_nil. specialize (Hnot a). tauto.
  - pose proof (weight_snoc ss x). lia.
  - rewrite !length_app. cbn [length]. lia.
Qed.

(** A range that ends inside of [x] grows to its end. *)
Definition grown (f x : tx_range_def) : tx_range_def := TxRangeDef (rd_offset f) (rng_end x - rd_offset f) (rd_flags f).
Definition gap (args f x : tx_range_def) : list tx_range_def :=
  if rng_end f =? rng_end x then [] else [TxRangeDef (rng_end f) (rng_end x - rng_end f) (rd_flags args)].

Lemma extend_run s rv L1 n f L2 args x ss : ranges_of s = Some rv → ranges_rep N rv (L1 ++ (n, f) :: L2) → ranges_ok (L1.*2 ++ f :: L2.*2) →
  Inv ss s → piece_ok x → 0 ≤ rd_flags args < 2 ^ 64 → rd_offset x ≤ rng_end f ≤ rng_end x → (∀ b, b ∈ L2.*2 → rng_end x ≤ rd_offset b) →
  (∀ a, covers ss a → covers (L1.*2 ++ f :: L2.*2) a) → weight ss + (rng_end x - rng_end f) + 88 ≤ cap →
  ∃ s' rv', extend_found o fuel redo_extend undo_extend args x n (rng_end f) s = (Ok 0, s') ∧ ranges_of s' = Some rv' ∧
    ranges_rep N rv' (L1 ++ (n, grown f x) :: L2) ∧ Inv (ss ++ gap args f x) s'.
Proof using Type*.
  intros Hs Hr HL Hi [Hx Hxl Hxh] Hargs Hfx Hr2 Hss Hcap. destruct (ranges_middle _ _ _ HL) as (Hf & Hlf & Hrf).
  pose proof Hx as [X1 X2 X3 X4]. pose proof Hf as [F1 F2 F3 F4].
  assert (range_ok (grown f x)) as Hg by (split; unfold grown, rng_end in *; cbn; lia).
  destruct (put_range_run s rv L1 n f L2 (grown f x) Hs Hr Hg) as (rv' & Ep & Hr').
  { apply (offset_below _ _ (ranges_left _ _ HL)), Hlf. }
  { intros b Hb. specialize (Hrf b Hb). unfold grown, rng_end in *. cbn. lia. }
  unfold extend_found. erewrite bind_ok by (by eapply get_range_run). cbn [rd_size].
  assert (u64 (u64 (rd_offset x + rd_size x) - rng_end f) = rng_end x - rng_end f) as -> by (unfold rng_end in *; rewrite (u64_id (_ + _)), u64_id by lia; done).
  assert (u64 (rd_size f + (rng_end x - rng_end f)) = rng_end x - rd_offset f) as -> by (unfold rng_end in *; rewrite u64_id by lia; lia).
  erewrite bind_ok by exact Ep. unfold gap. destruct (Z.eqb_spec (rng_end f) (rng_end x)) as [E|E].
  { rewrite (proj2 (Z.eqb_eq _ _)) by lia. exists (with_ranges rv' s), rv'. rewrite app_nil_r. split_and!; [done|done|done|by apply snap_ranges]. }
  rewrite (proj2 (Z.eqb_neq _ _)) by lia. set (sn := TxRangeDef _ _ _).
  destruct (snap_step ss (with_ranges rv' s) sn) as (s' & Es & Hrs & Hi'); [by apply snap_ranges|split; unfold sn, rng_end in *; cbn; lia|unfold sn, rng_end in *; cbn; lia|unfold sn, rng_end in *; cbn; lia| | |].
  { intros a Ha Hc. apply Hss, covers_split in Hc. unfold in_range, sn, rng_end in Ha. cbn in Ha. destruct Hc as [Hc|[Hc|Hc]].
    - apply (covers_below _ (rd_offset f)) in Hc; [unfold rng_end in *; lia|done].
    - unfold in_range, rng_end in *. lia.
    - apply (covers_above _ (rng_end x)) in Hc; [unfold rng_end in *; lia|done]. }
  { pose proof (weight_snoc ss sn) as Hw. unfold sn in Hw at 2. cbn in Hw. lia. }
  exists s', rv'. split_and!; [done|by rewrite Hrs|done|done].
Qed.

Lemma merge_run s rv L1 n f m y L2 x : ranges_of s = Some rv → ranges_rep N rv (L1 ++ (n, f) :: (m, y) :: L2) →
  ranges_ok (L1.*2 ++ f :: y :: L2.*2) → rng_end x = rd_offset y → rng_end x = rng_end f → 0 ≤ rng_end x →
  ∃ rv' L2', merge_next x n m s = (Ok tt, with_ranges rv' s) ∧ ranges_rep N rv' (L1 ++ (n, grown f y) :: L2') ∧ L2'.*2 = L2.*2.
Proof using.
  clear. intros Hs Hr HL Hxy Hxf H0. destruct (ranges_middle _ _ _ HL) as (Hf & Hlf & Hrf).
  assert (range_ok y) as Hy by (apply ranges_app in HL as (_ & HL & _); apply ranges_cons in HL as (_ & HL & _); by apply ranges_cons in HL as (HL & _)).
  assert (∀ b, b ∈ L2.*2 → rng_end y ≤ rd_offset b) as Hry
    by (apply ranges_app in HL as (_ & HL & _); apply ranges_cons in HL as (_ & HL & _); by apply ranges_cons in HL as (_ & _ & HL)).
  pose proof Hf as [F1 F2 F3 F4]. pose proof Hy as [Y1 Y2 Y3 Y4].
  assert (ranges_rep N rv ((L1 ++ [(n, f)]) ++ (m, y) :: L2)) as Hr' by (by rewrite <-app_assoc).
  unfold merge_next. destruct (rep_node N rv _ m y L2 Hr') as [Hm0 _]. rewrite (proj2 (Z.eqb_neq m 0)) by done.
  erewrite bind_ok by (by eapply get_range_run). unfold rng_end in Hxy. rewrite (u64_id (rd_offset x + rd_size x)) by (unfold rng_end in *; lia). rewrite Hxy, Z.eqb_refl. cbn [negb].
  erewrite bind_ok by (eapply (get_range_run s rv L1 n f ((m, y) :: L2)); done).
  assert (u64 (rd_size f + rd_size y) = rng_end y - rd_offset f) as -> by (unfold rng_end in *; rewrite u64_id by lia; lia).
  assert (range_ok (grown f y)) as Hg by (split; unfold grown, rng_end in *; cbn; lia).
  destruct (put_range_run s rv L1 n f ((m, y) :: L2) (grown f y) Hs Hr Hg) as (rv1 & Ep & Hr1).
  { apply (offset_below _ _ (ranges_left _ _ HL)), Hlf. }
  { rewrite fmap_cons. intros b [->|Hb]%elem_of_cons; [unfold grown, rng_end in *; cbn; lia|]. specialize (Hry b Hb). unfold grown, rng_end in *. cbn. lia. }
  erewrite bind_ok by exact Ep. rewrite (cons_middle (n, grown f y)), (app_assoc L1) in Hr1.
  destruct (rep_remove N rv1 (L1 ++ [(n, grown f y)]) m y L2 Hr1) as (rv2 & L2' & Er & Hr2 & HL2).
  exists rv2, L2'. split_and!; [|by rewrite <-app_assoc in Hr2|done]. by rewrite (on_ranges_run _ (with_ranges rv1 s) rv1 _ rv2 eq_refl Er).
Qed.

(** What is left of [x] after the range [f], that reaches its end, has been dealt with. *)
Definition cut (x f : tx_range_def) : tx_range_def := TxRangeDef (rd_offset x) (Z.max (rd_offset f) (rd_offset x) - rd_offset x) (rd_flags x).

Lemma added_step L L1 ss g x x' k j k' j' s' : added L1 (ss ++ g) x' k j s' →
  (∀ a, covers L1.*2 a ↔ covers L.*2 a ∨ covers g a) → (∀ a, covers g a → in_range a x ∧ ¬ covers L.*2 a) →
  (∀ a, in_range a x' → in_range a x) → (∀ a, in_range a x → in_range a x' ∨ covers L1.*2 a) →
  weight (ss ++ g) + rd_size x' + 88 * k ≤ weight ss + rd_size x + 88 * k' → Z.of_nat (length L1) + j ≤ Z.of_nat (length L) + j' →
  added L ss x k' j' s'.
Proof using.
  clear. intros (rv' & L' & ss' & H1 & H2 & H3 & H4 & H5 & H6 & H7 & H8) HL Hg Hx Hx' Hw Hj.
  exists rv', L', (g ++ ss'). rewrite app_assoc. split_and!; [done|done|done|done| | |lia|lia].
  - intros a. rewrite H5, HL. specialize (Hg a). specialize (Hx a). specialize (Hx' a). rewrite HL in Hx'. tauto.
  - intros a. rewrite covers_app, H6, HL. specialize (Hg a). specialize (Hx a). specialize (Hx' a). rewrite HL in Hx'.
    destruct (decide (covers L.*2 a)), (decide (covers g a)); tauto.
Qed.

(** Nothing is left. *)
Lemma added_done L ss x s rv : ranges_of s = Some rv → ranges_rep N rv L → ranges_ok L.*2 → Inv ss s → rd_size x = 0 → added L ss x 0 0 s.
Proof using.
  clear. intros Hs Hr HL Hi Hx. exists rv, L, []. rewrite app_nil_r. split_and!; [done..| | |lia|lia].
  - intros a. unfold in_range, rng_end. rewrite Hx. split; [by left|]. intros [?|?]; [done|lia].
  - intros a. rewrite covers_nil. unfold in_range, rng_end. rewrite Hx. split; [done|]. intros [? _]. lia.
Qed.

Lemma loop_empty n_fuel args x p n s : rd_size x = 0 → add_loop o fuel redo_extend undo_extend n_fuel args x p n s = (Ok 0, s).
Proof using. clear. intros Hx. destruct n_fuel; cbn [add_loop]; by rewrite Hx. Qed.

(** The new size of the rest. *)
Lemma cut_size x f : range_ok x → range_ok f → rd_offset f ≤ rng_end x → rd_offset x ≤ rng_end f ≤ rng_end x →
  u64 (rd_size x - (u64 (rng_end f - Z.max (rd_offset f) (rd_offset x)) + u64 (rng_end x - rng_end f))) = rd_size (cut x f).
Proof using.
  clear. intros [X1 X2 X3 X4] [F1 F2 F3 F4] H1 H2. cbn.
  rewrite (u64_id (rng_end f - _)), (u64_id (rng_end x - rng_end f)), u64_id by (unfold rng_end in *; lia). unfold rng_end in *. lia.
Qed.

(** The ranges after [f] has grown to the end of [x], and the bytes that it took in. *)
Lemma grown_covers (L1 L2 : list tx_range_def) f args x a : ranges_ok (L1 ++ f :: L2) → rng_end f ≤ rng_end x → 
  covers (L1 ++ grown f x :: L2) a ↔ covers (L1 ++ f :: L2) a ∨ covers (gap args f x) a.
Proof using.
  clear. intros HL Hfx. destruct (ranges_middle _ _ _ HL) as ([F1 F2 F3 F4] & _ & _). rewrite !covers_split.
  assert (covers (gap args f x) a ↔ rng_end f ≤ a < rng_end x) as ->.
  { unfold gap. destruct (Z.eqb_spec (rng_end f) (rng_end x)); [rewrite covers_nil; lia|]. rewrite covers_cons, covers_nil. unfold in_range, rng_end in *. cbn. lia. }
  assert (in_range a (grown f x) ↔ in_range a f ∨ rng_end f ≤ a < rng_end x) by (unfold in_range, grown, rng_end in *; cbn; lia). tauto.
Qed.
Lemma gap_covers (L1 L2 : list tx_range_def) f args x a : ranges_ok (L1 ++ f :: L2) → rd_offset x ≤ rng_end f → (∀ b, b ∈ L2 → rng_end x ≤ rd_offset b) →
  covers (gap args f x) a → in_range a x ∧ ¬ covers (L1 ++ f :: L2) a.
Proof using.
  clear. intros HL Hfx Hr Ha. destruct (ranges_middle _ _ _ HL) as ([F1 F2 F3 F4] & Hl & _).
  assert (rng_end f ≤ a < rng_end x) as Ha'.
  { unfold gap in Ha. destruct (Z.eqb_spec (rng_end f) (rng_end x)); [by apply covers_nil in Ha|]. rewrite covers_cons, covers_nil in Ha.
    unfold in_range, rng_end in *. cbn in Ha. lia. }
  split; [unfold in_range; lia|]. rewrite covers_split. intros [H|[H|H]].
  - apply (covers_below _ (rd_offset f)) in H; [unfold rng_end in *; lia|done].
  - unfold in_range in H. lia.
  - apply (covers_above _ (rng_end x)) in H; [lia|done].
Qed.
Lemma gap_weight ss args f x : rd_offset f ≤ rng_end x → rd_offset x ≤ rng_end f ≤ rng_end x → range_ok f →
  weight (ss ++ gap args f x) + rd_size (cut x f) ≤ weight ss + rd_size x + 88.
Proof using.
  clear. intros H1 H2 [F1 F2 F3 F4]. unfold gap. destruct (Z.eqb_spec (rng_end f) (rng_end x)) as [E|E].
  - rewrite app_nil_r. unfold cut, rng_end in *. cbn. lia.
  - pose proof (weight_snoc ss (TxRangeDef (rng_end f) (rng_end x - rng_end f) (rd_flags args))) as Hw. unfold cut, rng_end in *. cbn in *. lia.
Qed.

(** One turn, without and with a range that was found. *)
Lemma turn_none n_fuel args x p n s rv : range_ok x → ranges_of s = Some rv →
  ravl_find tx_range_def_cmp (Own (range_bytes (TxRangeDef (rng_end x) 0 0))) p rv = (Ok 0, rv) →
  add_loop o fuel redo_extend undo_extend (Datatypes.S n_fuel) args x p n s = add_uncovered o fuel redo_extend undo_extend x n s.
Proof using.
  clear. intros [X1 X2 X3 X4] Hs Ef. cbn [add_loop]. rewrite (proj2 (Z.eqb_neq _ _)) by lia. unfold rng_end in Ef, X3. rewrite (u64_id (rd_offset x + rd_size x)) by lia.
  erewrite bind_ok by (by eapply on_ranges_run). rewrite (with_ranges_same s rv Hs). by erewrite bind_ok by reflexivity.
Qed.
Lemma turn_found n_fuel args x p n s rv m f : range_ok x → ranges_of s = Some rv →
  ravl_find tx_range_def_cmp (Own (range_bytes (TxRangeDef (rng_end x) 0 0))) p rv = (Ok m, rv) → m ≠ 0 → get_range m s = (Ok f, s) → range_ok f →
  add_loop o fuel redo_extend undo_extend (Datatypes.S n_fuel) args x p n s =
    if rng_end f <? rd_offset x then add_uncovered o fuel redo_extend undo_extend x n s
    else if rng_end f <=? rng_end x then
      (ret ← extend_found o fuel redo_extend undo_extend args x m (rng_end f);
       if negb (ret =? 0) then mret ret
       else merge_next x m n;;
            add_loop o fuel redo_extend undo_extend n_fuel args
              (TxRangeDef (rd_offset x) (u64 (rd_size x - (u64 (rng_end f - Z.max (rd_offset f) (rd_offset x)) + u64 (rng_end x - rng_end f)))) (rd_flags x))
              RAVL_PREDICATE_LESS m) s
    else add_loop o fuel redo_extend undo_extend n_fuel args
           (TxRangeDef (rd_offset x) (u64 (rd_size x - u64 (rng_end x - Z.max (rd_offset f) (rd_offset x)))) (rd_flags x)) RAVL_PREDICATE_LESS m s.
Proof using.
  clear. intros [X1 X2 X3 X4] Hs Ef Hm Eg [F1 F2 F3 F4]. cbn [add_loop]. rewrite (proj2 (Z.eqb_neq _ _)) by lia. fold (rng_end x).
  rewrite (u64_id (rng_end x)) by (unfold rng_end in *; lia). erewrite bind_ok by (by eapply on_ranges_run). rewrite (with_ranges_same s rv Hs).
  rewrite (proj2 (Z.eqb_neq m 0)) by done. erewrite bind_ok by exact Eg. fold (rng_end f). rewrite (u64_id (rng_end f)) by (unfold rng_end in *; lia).
  rewrite (proj2 (Z.eqb_neq (rng_end f) 0)) by (unfold rng_end in *; lia). cbn [orb].
  destruct (Z.ltb_spec (rng_end f) (rd_offset x)); [done|]. destruct (Z.leb_spec (rng_end f) (rng_end x)); [done|].
  by rewrite (proj2 (Z.leb_le _ _)) by lia.
Qed.

(** The turns after the first one: the range in the node [n] begins where [x] ends. *)
Definition right_ok args L1 : Prop := ∀ n_fuel s rv n y L2 x ss, (length L1 < n_fuel)%nat →
  ranges_of s = Some rv → ranges_rep N rv (L1 ++ (n, y) :: L2) → ranges_ok (L1.*2 ++ y :: L2.*2) →
  Inv ss s → piece_ok x → rng_end x = rd_offset y → (∀ a, covers ss a → covers (L1.*2 ++ y :: L2.*2) a) →
  weight ss + rd_size x + 88 * (Z.of_nat (length L1) + 1) ≤ cap →
  ∃ s', add_loop o fuel redo_extend undo_extend n_fuel args x RAVL_PREDICATE_LESS n s = (Ok 0, s') ∧
    added (L1 ++ (n, y) :: L2) ss x (Z.of_nat (length L1) + 1) 0 s'.

Lemma added_weaken L ss x k k' j j' s' : added L ss x k j s' → k ≤ k' → j ≤ j' → added L ss x k' j' s'.
Proof using.
  clear. intros (rv' & L' & ss' & H1 & H2 & H3 & H4 & H5 & H6 & H7 & H8) Hk Hj. exists rv', L', ss'. split_and!; [done..|lia|lia].
Qed.

(** What is left of [x] when the range [f] in the node [m], that has become [g], has been dealt with. *)
Lemma loop_rest args L1 n_fuel s rv m f g L2 x ss : right_ok args L1 → (length L1 < n_fuel)%nat →
  ranges_of s = Some rv → ranges_rep N rv (L1 ++ (m, g) :: L2) → ranges_ok (L1.*2 ++ g :: L2.*2) →
  Inv ss s → piece_ok x → rd_offset g = rd_offset f → rd_offset f ≤ rng_end x → (∀ a, covers ss a → covers (L1.*2 ++ g :: L2.*2) a) →
  weight ss + rd_size (cut x f) + 88 * (Z.of_nat (length L1) + 1) ≤ cap →
  ∃ s', add_loop o fuel redo_extend undo_extend n_fuel args (cut x f) RAVL_PREDICATE_LESS m s = (Ok 0, s') ∧
    added (L1 ++ (m, g) :: L2) ss (cut x f) (Z.of_nat (length L1) + 1) 0 s'.
Proof using Type*.
  intros IH Hfu Hs Hr HL Hi [[X1 X2 X3 X4] Hxl Hxh] Hgf Hfx Hss Hcap. destruct (decide (rd_size (cut x f) = 0)) as [H0|H0].
  - rewrite loop_empty by done. exists s. split; [done|]. eapply added_weaken; [by eapply (added_done _ ss (cut x f)); try done; rewrite fmap_app|lia|lia].
  - apply (IH n_fuel s rv m g L2 (cut x f) ss); try done.
    + split; [split| |]; unfold cut, rng_end in *; cbn in *; lia.
    + unfold cut, rng_end in *. cbn in *. lia.
Qed.

(** The node that is found is the last one of [L1]. *)
Lemma find_last rv L1 m f L2 x : ranges_rep N rv (L1 ++ (m, f) :: L2) → ranges_ok (L1.*2 ++ f :: L2.*2) → range_ok x →
  rng_end f ≤ rng_end x → (∀ b, b ∈ L2.*2 → rng_end x ≤ rd_offset b) →
  ravl_find tx_range_def_cmp (Own (range_bytes (TxRangeDef (rng_end x) 0 0))) RAVL_PREDICATE_LESS rv = (Ok m, rv).
Proof using.
  clear. intros Hr HL [X1 X2 X3 X4] Hfx H2. destruct (ranges_middle _ _ _ HL) as ([F1 F2 F3 F4] & Hlf & _). rewrite cons_middle, app_assoc in Hr.
  rewrite (rep_find N rv (L1 ++ [(m, f)]) L2 (rng_end x) _ Hr); [by rewrite last_snoc|unfold rng_end in *; lia|]. right. split_and!; [done| |done].
  rewrite fmap_app. intros a [Ha|Ha]%elem_of_app.
  - pose proof (offset_below _ _ (ranges_left _ _ HL) Hlf a Ha). unfold rng_end in *. lia.
  - cbn in Ha. apply list_elem_of_singleton in Ha as ->. unfold rng_end in *. lia.
Qed.

(** The range [f] grows over the gap and takes in [y]. *)
Lemma right_extend args L1 n_fuel s rv m f n y L2 x ss : 0 ≤ rd_flags args < 2 ^ 64 → right_ok args L1 → (length L1 < n_fuel)%nat →
  ranges_of s = Some rv → ranges_rep N rv (L1 ++ (m, f) :: (n, y) :: L2) → ranges_ok (L1.*2 ++ f :: y :: L2.*2) →
  Inv ss s → piece_ok x → rng_end x = rd_offset y → rd_offset x ≤ rng_end f → (∀ a, covers ss a → covers (L1.*2 ++ f :: y :: L2.*2) a) →
  weight ss + rd_size x + 88 * (Z.of_nat (length L1) + 2) ≤ cap →
  ∃ s', (ret ← extend_found o fuel redo_extend undo_extend args x m (rng_end f);
         if negb (ret =? 0) then mret ret
         else merge_next x m n;; add_loop o fuel redo_extend undo_extend n_fuel args (cut x f) RAVL_PREDICATE_LESS m) s = (Ok 0, s') ∧
    added (L1 ++ (m, f) :: (n, y) :: L2) ss x (Z.of_nat (length L1) + 2) 0 s'.
Proof using Type*.
  intros Hargs IH Hfu Hs Hr HL Hi Hx Hxy Hge Hss Hcap. pose proof (ranges_middle _ _ _ HL) as (Hf & Hlf & Hrf). pose proof Hf as [F1 F2 F3 F4].
  pose proof Hx as [[X1 X2 X3 X4] Hxl Hxh]. assert (rng_end f ≤ rd_offset y) as Hfy by (apply Hrf; by left).
  apply ranges_app in HL as HLy. destruct HLy as (_ & HLy & _). apply ranges_cons in HLy as (_ & HLy & _). apply ranges_cons in HLy as (Hy & _ & Hry).
  pose proof Hy as [Y1 Y2 Y3 Y4]. assert (rd_offset f ≤ rng_end x) as Hfx0 by (unfold rng_end in *; lia).
  assert (∀ b, b ∈ y :: L2.*2 → rng_end x ≤ rd_offset b) as Hafter.
  { intros b [->|Hb]%elem_of_cons; [lia|]. specialize (Hry b Hb). unfold before, rng_end in *. lia. }
  destruct (extend_run s rv L1 m f ((n, y) :: L2) args x ss) as (s1 & rv1 & E1 & Hs1 & Hr1 & Hi1); try done; [lia|unfold rng_end in *; lia|].
  erewrite bind_ok by exact E1. change (0 =? 0) with true. cbn [negb].
  assert (ranges_ok (L1.*2 ++ grown f x :: y :: L2.*2)) as HL1.
  { apply (ranges_replace _ f); [done|split; unfold grown, rng_end in *; cbn; lia|done|]. intros b Hb. specialize (Hafter b Hb). unfold grown, rng_end in *. cbn. lia. }
  destruct (merge_run s1 rv1 L1 m (grown f x) n y L2 x Hs1 Hr1 HL1 Hxy) as (rv2 & L2' & E2 & Hr2 & HL2); [unfold grown, rng_end; cbn; lia|unfold rng_end in *; lia|].
  erewrite bind_ok by exact E2. set (g := grown (grown f x) y) in *.
  assert (ranges_ok (L1.*2 ++ g :: L2'.*2)) as HLg.
  { rewrite HL2. apply (ranges_replace _ (grown f x)); [|split; unfold g, grown, rng_end in *; cbn; lia|done|].
    - rewrite cons_middle, app_assoc in HL1 |- *. by apply ranges_drop in HL1.
    - intros b Hb. specialize (Hry b Hb). unfold before, g, grown, rng_end in *. cbn. lia. }
  assert (∀ a, covers (L1.*2 ++ g :: L2'.*2) a ↔ covers (L1.*2 ++ f :: y :: L2.*2) a ∨ covers (gap args f x) a) as Hcov.
  { intros a. rewrite HL2, <-(grown_covers L1.*2 (y :: L2.*2) f args x a HL) by lia. rewrite !covers_split, covers_cons.
    assert (in_range a g ↔ in_range a (grown f x) ∨ in_range a y) by (unfold in_range, g, grown, rng_end in *; cbn; lia). tauto. }
  pose proof (gap_weight ss args f x ltac:(lia) ltac:(lia) Hf) as Hgw.
  destruct (loop_rest args L1 n_fuel (with_ranges rv2 s1) rv2 m f g L2' x (ss ++ gap args f x)) as (s' & E & Ha); try done; [by apply snap_ranges| |lia|].
  { intros a. rewrite covers_app, Hcov. intros [Ha|Ha]; [left; by apply Hss|by right]. }
  exists s'. split; [done|]. eapply (added_step _ _ ss (gap args f x)); [exact Ha|..]; rewrite ?fmap_app, ?fmap_cons; cbn [snd].
  - done.
  - intros a. by apply gap_covers; [|lia|].
  - intros a. unfold in_range, cut, rng_end in *. cbn. lia.
  - intros a Hax. rewrite covers_split.
    destruct (decide (a < Z.max (rd_offset f) (rd_offset x))); [left|right; right; left]; unfold in_range, cut, g, grown, rng_end in *; cbn; lia.
  - lia.
  - rewrite !length_app. cbn [length]. apply (f_equal length) in HL2. rewrite !length_fmap in HL2. lia.
Qed.

Lemma loop_right args : 0 ≤ rd_flags args < 2 ^ 64 → ∀ L1, right_ok args L1.
Proof using Type*.
  intros Hargs L1. induction L1 as [|[m f] L1 IH] using rev_ind; intros n_fuel s rv n y L2 x ss Hfu Hs Hr HL Hi Hx Hxy Hss Hcap;
    (destruct n_fuel as [|n_fuel]; [lia|]); pose proof (ranges_middle _ _ _ HL) as (Hy & Hly & Hry); pose proof Hx as [[X1 X2 X3 X4] Hxl Hxh];
    pose proof (ro_end _ Hy) as Y3; pose proof (ro_size _ Hy) as Y2;
    (assert (∀ b, b ∈ y :: L2.*2 → rng_end x ≤ rd_offset b) as Hafter
      by (intros b [->|Hb]%elem_of_cons; [lia|]; specialize (Hry b Hb); unfold rng_end in *; lia)).
  - rewrite (turn_none _ _ _ _ _ _ rv); [|apply Hx|done|].
    + apply (uncovered_right s rv [] n y L2 x ss); try done. by intros a Ha%elem_of_nil.
    + apply (rep_find N rv [] ((n, y) :: L2) (rng_end x) _ Hr); [unfold rng_end in *; lia|]. right. split_and!; [done|by intros ? ?%elem_of_nil|done].
  - rewrite fmap_app in HL, Hss. rewrite length_app in Hfu, Hcap |- *. rewrite <-app_assoc in Hr, HL, Hss |- *.
    cbn [app length fmap list_fmap snd] in Hfu, Hcap, Hr, HL, Hss |- *.
    pose proof (ranges_middle _ _ _ HL) as (Hf & Hlf & Hrf). assert (rng_end f ≤ rd_offset y) as Hfy by (apply Hrf; by left).
    destruct (rep_node N rv L1 m f ((n, y) :: L2) Hr) as [Hm0 _]. pose proof (get_range_run s rv L1 m f ((n, y) :: L2) Hs Hr) as Eg.
    pose proof (find_last rv L1 m f ((n, y) :: L2) x Hr HL ltac:(done) ltac:(lia) Hafter) as Ef.
    rewrite (turn_found _ _ _ _ _ _ rv m f) by (apply Hx || done). destruct (Z.ltb_spec (rng_end f) (rd_offset x)) as [Hlt|Hge].
    + destruct (uncovered_right s rv (L1 ++ [(m, f)]) n y L2 x ss) as (s' & E & Ha); rewrite ?fmap_app, <-?app_assoc; try done.
      { cbn [fmap list_fmap snd]. intros a [Ha| ->%list_elem_of_singleton]%elem_of_app; [|lia]. specialize (Hlf a Ha). pose proof (ro_size _ Hf). unfold rng_end in *. lia. }
      { lia. }
      exists s'. split; [done|]. rewrite <-app_assoc in Ha. eapply added_weaken; [exact Ha|lia|lia].
    + rewrite (proj2 (Z.leb_le _ _)) by lia. assert (rd_offset f ≤ rng_end x) by (pose proof (ro_size _ Hf); unfold rng_end in *; lia). rewrite cut_size by (apply Hx || done || lia). fold (cut x f).
      destruct (right_extend args L1 n_fuel s rv m f n y L2 x ss) as (s' & E & Ha); try done; [lia|lia|].
      exists s'. split; [exact E|]. eapply added_weaken; [exact Ha|lia|lia].
Qed.
End ops.

(** ** The first turn *)

Lemma rep_weaken N N' rv L : ranges_rep N rv L → N ≤ N' → ranges_rep N' rv L.
Proof using. clear. intros (t & H1 & H2 & H3 & H4 & H5) HN. exists t. split_and!; [done..|lia|done]. Qed.
Lemma added_rank N N' L ss x k j s' : added N L ss x k j s' → N ≤ N' → added N' L ss x k j s'.
Proof using.
  clear. intros (rv' & L' & ss' & H1 & H2 & H3) HN. exists rv', L', ss'. split_and!; [done|by eapply rep_weaken|apply H3..].
Qed.

(** The ranges up to an offset. *)
Lemma split_at L z : ranges_ok L.*2 → ∃ L1 L2, L = L1 ++ L2 ∧ (∀ a, a ∈ L1.*2 → rd_offset a ≤ z) ∧ (∀ b, b ∈ L2.*2 → z < rd_offset b).
Proof using.
  clear. induction L as [|[n f] L IH]; intros HL.
  { exists [], []. split_and!; [done|by intros ? ?%elem_of_nil..]. }
  rewrite fmap_cons in HL. cbn [snd] in HL. apply ranges_cons in HL as (Hf & HL & Hb). destruct (decide (rd_offset f ≤ z)) as [Hz|Hz].
  - destruct (IH HL) as (L1 & L2 & -> & H1 & H2). exists ((n, f) :: L1), L2. split_and!; [done| |done].
    rewrite fmap_cons. cbn [snd]. intros a [->|Ha]%elem_of_cons; [done|by apply H1].
  - exists [], ((n, f) :: L). split_and!; [done|by intros ? ?%elem_of_nil|]. rewrite fmap_cons. cbn [snd].
    intros b [->|Hb']%elem_of_cons; [lia|]. specialize (Hb b Hb'). destruct Hf. unfold before, rng_end in *. lia.
Qed.

Lemma uncovered_new N s rv L1 L2 x ss : ranges_of s = Some rv → ranges_rep N rv (L1 ++ L2) → ranges_ok (L1 ++ L2).*2 → N < 2 ^ 31 - 1 →
  Inv ss s → piece_ok x → (∀ a, a ∈ L1.*2 → rng_end a < rd_offset x) → (∀ b, b ∈ L2.*2 → rng_end x < rd_offset b) →
  (∀ a, covers ss a → covers (L1 ++ L2).*2 a) → weight ss + rd_size x + 88 ≤ cap →
  ∃ s', add_uncovered o fuel redo_extend undo_extend x 0 s = (Ok 0, s') ∧ added (N + 1) (L1 ++ L2) ss x 1 1 s'.
Proof using Type*.
  intros Hs Hr HL HN Hi [Hx Hxl Hxh] Hl Hrt Hss Hcap. pose proof Hx as [X1 X2 X3 X4]. rewrite fmap_app in HL, Hss.
  destruct (rep_insert N rv L1 L2 x Hr HN Hx) as (rv' & L' & Ei & Hr' & HL').
  { apply (offset_below _ _ (ranges_left _ _ HL)). intros a Ha. specialize (Hl a Ha). lia. }
  { intros b Hb. specialize (Hrt b Hb). unfold rng_end in *. lia. }
  unfold add_uncovered. change (0 =? 0) with true. cbv iota. erewrite (bind_ok _ _ s 0 (with_ranges rv' s)).
  2: { unfold tx_lane_ranges_insert_def. erewrite (bind_ok _ _ s None (with_ranges rv' s)); [done|]. eapply on_ranges_run; [exact Hs|]. unfold errno_of. by rewrite Ei. }
  change (0 =? 0) with true. cbn [negb].
  assert (∀ a, in_range a x → ¬ covers (L1.*2 ++ L2.*2) a) as Hnot.
  { intros a Ha Hc. unfold in_range in Ha. apply covers_app in Hc as [Hc|Hc].
    - apply (covers_below _ (rd_offset x)) in Hc; [lia|]. intros b Hb. specialize (Hl b Hb). lia.
    - apply (covers_above _ (rng_end x)) in Hc; [lia|]. intros b Hb. specialize (Hrt b Hb). lia. }
  destruct (snap_step ss (with_ranges rv' s) x) as (s' & Es & Hrs & Hi'); [by apply snap_ranges|done|done|done|..].
  { intros a Ha Hc. by apply (Hnot a Ha), Hss. }
  { pose proof (weight_snoc ss x). lia. }
  exists s'. split; [done|]. exists rv', L', [x]. split_and!; [by rewrite Hrs|done| |done|..].
  - rewrite HL'. apply ranges_app in HL as (HL1 & HL2 & HL3). apply ranges_app. split_and!; [done| |].
    + apply ranges_cons. split_and!; [done|done|]. intros b Hb. specialize (Hrt b Hb). unfold before. lia.
    + intros a b Ha [->|Hb]%elem_of_cons; [specialize (Hl a Ha); unfold before; lia|by apply HL3].
  - intros a. rewrite HL', covers_split, fmap_app, covers_app. tauto.
  - intros a. rewrite covers_cons, covers_nil, fmap_app. specialize (Hnot a). tauto.
  - pose proof (weight_snoc ss x). lia.
  - apply (f_equal length) in HL'. rewrite length_app in HL'. cbn [length] in HL'. rewrite !length_fmap in HL'. rewrite length_app. lia.
Qed.

(** The range that is found for the first turn ends inside of [x]. *)
Lemma first_extend N L1 n_fuel s rv m f L2 x ss : (length L1 < n_fuel)%nat →
  ranges_of s = Some rv → ranges_rep N rv (L1 ++ (m, f) :: L2) → ranges_ok (L1.*2 ++ f :: L2.*2) →
  Inv ss s → piece_ok x → rd_offset x ≤ rng_end f ≤ rng_end x → (∀ b, b ∈ L2.*2 → rng_end x < rd_offset b) →
  (∀ a, covers ss a → covers (L1.*2 ++ f :: L2.*2) a) → weight ss + rd_size x + 88 * (Z.of_nat (length L1) + 2) ≤ cap →
  ∃ s', (ret ← extend_found o fuel redo_extend undo_extend x x m (rng_end f);
         if negb (ret =? 0) then mret ret
         else merge_next x m 0;; add_loop o fuel redo_extend undo_extend n_fuel x (cut x f) RAVL_PREDICATE_LESS m) s = (Ok 0, s') ∧
    added N (L1 ++ (m, f) :: L2) ss x (Z.of_nat (length L1) + 2) 0 s'.
Proof using Type*.
  intros Hfu Hs Hr HL Hi Hx Hfx Hrt Hss Hcap. pose proof (ranges_middle _ _ _ HL) as (Hf & Hlf & Hrf). pose proof Hf as [F1 F2 F3 F4].
  pose proof Hx as [[X1 X2 X3 X4] Hxl Hxh]. assert (rd_offset f ≤ rng_end x) as Hfx0 by (unfold rng_end in *; lia).
  assert (∀ b, b ∈ L2.*2 → rng_end x ≤ rd_offset b) as Hafter by (intros b Hb; specialize (Hrt b Hb); lia).
  destruct (extend_run N s rv L1 m f L2 x x ss) as (s1 & rv1 & E1 & Hs1 & Hr1 & Hi1); try done; [unfold rng_end in *; lia|].
  erewrite bind_ok by exact E1. change (0 =? 0) with true. cbn [negb]. unfold merge_next. change (0 =? 0) with true. cbv iota. erewrite bind_ok by reflexivity.
  assert (ranges_ok (L1.*2 ++ grown f x :: L2.*2)) as HL1.
  { apply (ranges_replace _ f); [done|split; unfold grown, rng_end in *; cbn; lia|done|]. intros b Hb. specialize (Hafter b Hb). unfold grown, rng_end in *. cbn. lia. }
  pose proof (gap_weight ss x f x ltac:(lia) ltac:(lia) Hf) as Hgw.
  destruct (loop_rest N x L1 n_fuel s1 rv1 m f (grown f x) L2 x (ss ++ gap x f x)) as (s' & E & Ha); try done; [by apply loop_right| |lia|].
  { intros a. rewrite covers_app, (grown_covers L1.*2 L2.*2 f x x a HL) by lia. intros [Ha|Ha]; [left; by apply Hss|by right]. }
  exists s'. split; [done|]. eapply (added_step N _ _ ss (gap x f x)); [exact Ha|..]; rewrite ?fmap_app, ?fmap_cons; cbn [snd].
  - intros a. apply grown_covers; [done|lia].
  - intros a. by apply gap_covers; [|lia|].
  - intros a. unfold in_range, cut, rng_end in *. cbn. lia.
  - intros a Hax. rewrite covers_split.
    destruct (decide (a < Z.max (rd_offset f) (rd_offset x))); [left|right; right; left]; unfold in_range, cut, grown, rng_end in *; cbn; lia.
  - lia.
  - rewrite !length_app. cbn [length]. lia.
Qed.

(** The range that is found reaches over the end of [x]. *)
Lemma first_overlap N L1 n_fuel s rv m f L2 x ss : (length L1 < n_fuel)%nat →
  ranges_of s = Some rv → ranges_rep N rv (L1 ++ (m, f) :: L2) → ranges_ok (L1.*2 ++ f :: L2.*2) →
  Inv ss s → piece_ok x → rd_offset f ≤ rng_end x < rng_end f →
  (∀ a, covers ss a → covers (L1.*2 ++ f :: L2.*2) a) → weight ss + rd_size x + 88 * (Z.of_nat (length L1) + 1) ≤ cap →
  ∃ s', add_loop o fuel redo_extend undo_extend n_fuel x (cut x f) RAVL_PREDICATE_LESS m s = (Ok 0, s') ∧
    added N (L1 ++ (m, f) :: L2) ss x (Z.of_nat (length L1) + 1) 0 s'.
Proof using Type*.
  intros Hfu Hs Hr HL Hi Hx Hfx Hss Hcap. pose proof Hx as [[X1 X2 X3 X4] Hxl Hxh].
  assert (rd_size (cut x f) ≤ rd_size x) as Hcs by (unfold cut, rng_end in *; cbn; lia).
  destruct (loop_rest N x L1 n_fuel s rv m f f L2 x ss) as (s' & E & Ha); try done; [by apply loop_right|lia|lia|].
  exists s'. split; [done|]. eapply (added_step N _ _ ss []); [rewrite app_nil_r; exact Ha|..]; rewrite ?fmap_app, ?fmap_cons; cbn [snd].
  - intros a. rewrite covers_nil. tauto.
  - intros a H. by apply covers_nil in H.
  - intros a. unfold in_range, cut, rng_end in *. cbn. lia.
  - intros a Hax. rewrite covers_split. 
    destruct (decide (a < Z.max (rd_offset f) (rd_offset x))); [left|right; right; left]; unfold in_range, cut, rng_end in *; cbn; lia.
  - rewrite app_nil_r. lia.
  - lia.
Qed.

Lemma add_loop_run N s rv L x ss : ranges_of s = Some rv → ranges_rep N rv L → ranges_ok L.*2 → N < 2 ^ 31 - 1 →
  Inv ss s → piece_ok x → (∀ a, covers ss a → covers L.*2 a) → weight ss + rd_size x + 88 * (Z.of_nat (length L) + 1) ≤ cap →
  ∃ s', add_loop o fuel redo_extend undo_extend (Datatypes.S (Datatypes.S (length L))) x x RAVL_PREDICATE_LESS_EQUAL 0 s = (Ok 0, s') ∧
    added (N + 1) L ss x (Z.of_nat (length L) + 1) 1 s'.
Proof using Type*.
  intros Hs Hr HL HN Hi Hx Hss Hcap. pose proof Hx as [Hx0 Hxl Hxh]. pose proof Hx0 as [X1 X2 X3 X4].
  destruct (split_at L (rng_end x) HL) as (L1 & L2 & -> & H1 & H2).
  assert (ravl_find tx_range_def_cmp (Own (range_bytes (TxRangeDef (rng_end x) 0 0))) RAVL_PREDICATE_LESS_EQUAL rv = (Ok (from_option fst 0 (last L1)), rv)) as Ef.
  { apply (rep_find N rv L1 L2 (rng_end x) _ Hr); [unfold rng_end in *; lia|]. by left. }
  destruct L1 as [|[m f] L1 _] using rev_ind.
  { rewrite (turn_none _ _ _ _ _ _ rv) by done. destruct (uncovered_new N s rv [] L2 x ss) as (s' & E & Ha); try done; [by intros ? ?%elem_of_nil|cbn in Hcap; lia|].
    exists s'. split; [done|]. eapply added_weaken; [exact Ha|lia|lia]. }
  rewrite last_snoc in Ef. cbn [from_option fst] in Ef. rewrite <-app_assoc in Hr, HL, Hss, Hcap |- *. rewrite fmap_app in HL, H1, Hss. rewrite length_app in Hcap |- *.
  cbn [app length fmap list_fmap snd] in Hr, HL, H1, Hss, Hcap |- *. change ((m, f) :: L2).*2 with (f :: L2.*2) in HL, Hss.
  pose proof (ranges_middle _ _ _ HL) as (Hf & Hlf & Hrf). pose proof Hf as [F1 F2 F3 F4].
  assert (rd_offset f ≤ rng_end x) as Hfx by (apply H1, elem_of_app; right; by left).
  destruct (rep_node N rv L1 m f L2 Hr) as [Hm0 _]. rewrite (turn_found _ _ _ _ _ _ rv m f) by (done || by eapply (get_range_run N s rv L1)).
  destruct (Z.ltb_spec (rng_end f) (rd_offset x)) as [Hlt|Hge]; [|destruct (Z.leb_spec (rng_end f) (rng_end x)) as [Hle|Hgt]].
  - destruct (uncovered_new N s rv (L1 ++ [(m, f)]) L2 x ss) as (s' & E & Ha); rewrite <-?app_assoc; try done; [by rewrite fmap_app| |by rewrite fmap_app|lia|].
    + rewrite fmap_app. intros a [Ha| ->%list_elem_of_singleton]%elem_of_app; [|done]. specialize (Hlf a Ha). unfold rng_end in *. lia.
    + exists s'. split; [done|]. rewrite <-app_assoc in Ha. eapply added_weaken; [exact Ha|lia|lia].
  - rewrite cut_size by (done || lia). fold (cut x f).
    destruct (first_extend N L1 (Datatypes.S (length L1 + Datatypes.S (length L2))) s rv m f L2 x ss) as (s' & E & Ha); try done; [lia|lia|].
    exists s'. split; [exact E|]. eapply added_rank; [eapply added_weaken; [exact Ha|lia|lia]|lia].
  - assert (u64 (rd_size x - u64 (rng_end x - Z.max (rd_offset f) (rd_offset x))) = rd_size (cut x f)) as ->.
    { rewrite (u64_id (rng_end x - _)), u64_id by (unfold rng_end in *; lia). unfold cut, rng_end in *. cbn. lia. }
    destruct (first_overlap N L1 (Datatypes.S (length L1 + Datatypes.S (length L2))) s rv m f L2 x ss) as (s' & E & Ha); try done; [lia|lia|].
    exists s'. split; [exact E|]. eapply added_rank; [eapply added_weaken; [exact Ha|lia|lia]|lia].
Qed.
End add.
