(* ===== verification/TxProgram.v ===== *)
(** * libpmemobj: transactions that change ranges and are aborted

    Three parts: rolling back around locks, snapshots on the undo log of a lane, and programs of snapshots and stores with their abort.

    When a transaction is aborted its snapshots are copied back, but not over the locks it holds.  The first part shows what the list of ranges around
    the locks covers ([tx_remove_range]), what a snapshot restores ([tx_restore_range]) and what the walk over the undo log does. *)

From stdpp Require Import base gmap list numbers.
From S2P Require Import Prelude Memory Pmem Util Ulog UlogSpec UlogEntry UlogTheorems Ravl RavlTree RavlTheorems Memops MemopsCrash MemopsTheorems MemopsTx Lane LaneHold LaneHoldTheorems.
From S2P Require Import Memblock Heap HeapRun Palloc Tx TxRanges TxAdd.
Local Open Scope Z_scope.

(** ** The ranges around the locks *)

Definition piece_covers (r : tx_range_data) (a : Z) : Prop := txr_begin r ≤ a < txr_end r.
Definition pieces_cover (l : list tx_range_data) (a : Z) : Prop := Exists (λ r, piece_covers r a) l.
Definition pieces_ok (lo hi : Z) (l : list tx_range_data) : Prop := Forall (λ r, lo ≤ txr_begin r < txr_end r ∧ txr_end r ≤ hi) l.
Definition in_lock (l : tx_lock_data) (a : Z) : Prop := txl_lock l ≤ a < txl_lock l + _POBJ_CL_SIZE.
Definition in_locks (locks : list tx_lock_data) (a : Z) : Prop := Exists (λ l, in_lock l a) locks.

#[global] Instance in_lock_dec l a : Decision (in_lock l a).
Proof. unfold in_lock. apply _. Defined.
#[global] Instance in_locks_dec locks a : Decision (in_locks locks a).
Proof. unfold in_locks. apply _. Defined.
#[global] Instance piece_covers_dec r a : Decision (piece_covers r a).
Proof. unfold piece_covers. apply _. Defined.
#[global] Instance pieces_cover_dec l a : Decision (pieces_cover l a).
Proof. unfold pieces_cover. apply _. Defined.

Section pieces.
Context (txr_malloc : Z → bool) (Hmalloc : ∀ a, txr_malloc a = true) (lo hi : Z).

Lemma remove_loop_run b e : b < e → ∀ l before, pieces_ok lo hi l → pieces_ok lo hi before → (∀ a, pieces_cover before a → ¬ (b ≤ a < e)) →
  ∃ l', remove_range_loop txr_malloc b e before l = Some l' ∧ pieces_ok lo hi l' ∧
    ∀ a, pieces_cover l' a ↔ (pieces_cover before a ∨ pieces_cover l a) ∧ ¬ (b ≤ a < e).
Proof using Type*.
  intros Hbe l. induction l as [|r l IH]; intros bf Hl Hbf Hout; cbn [remove_range_loop].
  { exists bf. split_and!; [done|done|]. intros a. unfold pieces_cover. rewrite Exists_nil. specialize (Hout a). unfold pieces_cover in Hout. tauto. }
  apply Forall_cons_1 in Hl as [Hr Hl]. destruct r as [rb re]. cbn [txr_begin txr_end] in *.
  destruct ((re <=? b) || (e <? rb)) eqn:Esk.
  - destruct (IH (bf ++ [TxRangeData rb re])) as (l' & E & Hl' & Hc); [done|apply Forall_app; split; [done|constructor; [cbn; lia|apply Forall_nil_2]]| |].
    { intros a. unfold pieces_cover. rewrite Exists_app, Exists_cons, Exists_nil. unfold piece_covers. cbn. specialize (Hout a). unfold pieces_cover, piece_covers in Hout.
      apply orb_true_iff in Esk. intros [H|[H|[]]]; [by apply Hout|]. destruct Esk as [Esk%Z.leb_le|Esk%Z.ltb_lt]; lia. }
    exists l'. split_and!; [done|done|]. intros a. rewrite Hc. unfold pieces_cover. rewrite Exists_app, !Exists_cons, Exists_nil. tauto.
  - apply orb_false_iff in Esk as [E1%Z.leb_gt E2%Z.ltb_ge]. rewrite !Hmalloc. cbn [negb]. rewrite !andb_false_r. cbn [orb].
    set (new := (if e <? re then [TxRangeData e re] else []) ++ (if rb <? b then [TxRangeData rb b] else [])).
    assert (∀ a, pieces_cover new a ↔ rb ≤ a < re ∧ ¬ (b ≤ a < e)) as Hnew.
    { intros a. unfold pieces_cover, new. rewrite Exists_app. destruct (Z.ltb_spec e re), (Z.ltb_spec rb b); rewrite ?Exists_cons, ?Exists_nil; unfold piece_covers; cbn; lia. }
    assert (pieces_ok lo hi new) as Hok.
    { unfold new, pieces_ok. apply Forall_app. split; [destruct (Z.ltb_spec e re)|destruct (Z.ltb_spec rb b)]; repeat constructor; cbn; lia. }
    rewrite (app_assoc _ _ bf). fold new. destruct (IH (new ++ bf)) as (l' & E & Hl' & Hc); [done|by apply Forall_app| |].
    { intros a. unfold pieces_cover. rewrite Exists_app. intros [H|H]; [exact (proj2 (proj1 (Hnew a) H))|by apply Hout]. }
    exists l'. split_and!; [done|done|]. intros a. rewrite Hc. specialize (Hnew a). unfold pieces_cover in *. rewrite Exists_app, Exists_cons. unfold piece_covers in *. cbn. tauto.
Qed.

Lemma remove_locks_run locks : ∀ l, pieces_ok lo hi l → ∃ l', remove_locks txr_malloc locks l = Some l' ∧ pieces_ok lo hi l' ∧
  ∀ a, pieces_cover l' a ↔ pieces_cover l a ∧ ¬ in_locks locks a.
Proof using Type*.
  induction locks as [|k locks IH]; intros l Hl; cbn [remove_locks].
  { exists l. split_and!; [done|done|]. intros a. unfold in_locks. rewrite Exists_nil. tauto. }
  destruct (remove_loop_run (txl_lock k) (txl_lock k + _POBJ_CL_SIZE) ltac:(unfold _POBJ_CL_SIZE; lia) l [] Hl ltac:(constructor)) as (l1 & E1 & Hl1 & Hc1).
  { intros a H. by apply Exists_nil in H. }
  destruct (IH l1 Hl1) as (l' & E & Hl' & Hc). exists l'. unfold tx_remove_range. rewrite E1. split_and!; [done|done|].
  intros a. rewrite Hc, Hc1. unfold pieces_cover, in_locks. rewrite Exists_nil, Exists_cons. unfold in_lock. tauto.
Qed.
End pieces.

(** ** Restoring one snapshot *)

(** [snap_covers] as a decision. *)
#[global] Instance snap_covers_dec s a : Decision (snap_covers s a).
Proof. unfold snap_covers. apply _. Defined.

(** The byte of the snapshot at an address. *)
Definition snap_byte (s : snap) (a : Z) : Z := nth (Z.to_nat (a - sn_dst s)) (sn_data s) 0.

Section restore.
Context (o : pmem_ops) `{!OpsSpec o} (txr_malloc : Z → bool) (Hmalloc : ∀ a, txr_malloc a = true).

Lemma snap_entry m e s : snap_at m e s → ulog_entry_type m e = ULOG_OPERATION_BUF_CPY ∧ ulog_entry_offset m e = sn_dst s ∧
  entry_f_size m e = len (sn_data s) ∧ rdn m (entry_data e) (length (sn_data s)) = sn_data s.
Proof using.
  intros H. destruct (snap_fields m e s H) as [_ Hsz]. destruct H as (_ & _ & H). unfold uop_at, snap_op in H.
  destruct (_ =? ULOG_OPERATION_AND); [done|]. destruct (_ =? ULOG_OPERATION_OR); [done|].
  destruct (_ =? ULOG_OPERATION_SET); [done|]. destruct (_ =? ULOG_OPERATION_BUF_SET); [done|].
  destruct (Z.eqb_spec (ulog_entry_type m e) ULOG_OPERATION_BUF_CPY) as [E|E]; [|done]. injection H as Hd Hb. rewrite Hsz, Nat2Z.id in Hb. done.
Qed.

Lemma restore_loop_run e s l : ∀ p, pieces_ok (sn_dst s) (sn_dst s + len (sn_data s)) l → Forall is_byte (sn_data s) →
  rdn (pm_mem p) (entry_data e) (length (sn_data s)) = sn_data s →
  (∀ a, snap_covers s a → ¬ (entry_data e ≤ a < entry_data e + len (sn_data s))) →
  ∃ p', restore_loop o e (sn_dst s) l p = (Ok tt, p') ∧
    ∀ a, rd (pm_mem p') a = if decide (pieces_cover l a) then snap_byte s a else rd (pm_mem p) a.
Proof using OpsSpec0.
  induction l as [|r l IH]; intros p Hl Hb Hd Hap; cbn [restore_loop].
  { exists p. split; [done|]. intros a. rewrite decide_False; [done|]. intros H. by apply Exists_nil in H. }
  apply Forall_cons_1 in Hl as [Hr Hl]. destruct r as [rb re]. cbn [txr_begin txr_end] in *.
  rewrite (proj2 (Z.ltb_ge rb _)), (proj2 (Z.ltb_ge re rb)) by lia. cbn [orb]. erewrite bind_ok by reflexivity. erewrite bind_ok by reflexivity. cbn [compose].
  set (src := rdn (pm_mem p) _ _). set (p1 := op_memcpy _ _ _ _ _). destruct (ops_memcpy p rb src 0) as [Em _]. fold p1 in Em.
  assert (len src = re - rb) as Hlen by (unfold src; rewrite length_rdn; lia).
  assert (∀ a, rb ≤ a < re → nth (Z.to_nat (a - rb)) src 0 = snap_byte s a) as Hsrc.
  { intros a Ha. unfold src, snap_byte. rewrite nth_rdn by lia. rewrite <-Hd, nth_rdn by lia. f_equal. lia. }
  assert (∀ a, snap_byte s a mod 256 = snap_byte s a) as Hmod by (intros a; by apply nth_mod_byte).
  destruct (IH p1 Hl Hb) as (p' & E & Hm); [|done|].
  { rewrite <-Hd at 2. apply rdn_ext. intros a Ha. rewrite Em. apply rd_wr_out. rewrite Hlen. intros Hin. apply (Hap a); [unfold snap_covers|]; lia. }
  exists p'. split; [done|]. intros a. rewrite Hm. unfold pieces_cover. destruct (decide (Exists _ l)) as [H|H].
  - rewrite decide_True; [done|]. by apply Exists_cons_tl.
  - rewrite Em, rd_wr, Hlen. destruct (decide (rb ≤ a < rb + (re - rb))) as [Ha|Ha].
    + rewrite decide_True by (apply Exists_cons_hd; unfold piece_covers; cbn; lia). by rewrite Hsrc by lia.
    + rewrite decide_False; [done|]. intros [Hc|Hc]%Exists_cons; [unfold piece_covers in Hc; cbn in Hc; lia|done].
Qed.

(** Some byte of the snapshot is not in a lock. *)
Definition outside_locks (locks : list tx_lock_data) (s : snap) : Prop := ∃ a, snap_covers s a ∧ ¬ in_locks locks a.

Lemma entry_apply_undo locks p e s : snap_at (pm_mem p) e s → snap_ok s → outside_locks locks s →
  (∀ a, snap_covers s a → ¬ (e ≤ a < e + snap_size s)) →
  ∃ p', tx_undo_entry_apply o txr_malloc locks e p = (Ok 0, p') ∧
    ∀ a, rd (pm_mem p') a = if decide (snap_covers s a ∧ ¬ in_locks locks a) then snap_byte s a else rd (pm_mem p) a.
Proof using Type*.
  intros Hs [_ Hne _ Hb] (a0 & Ha0 & Hk0) Hap. destruct (snap_entry _ _ _ Hs) as (Et & Eo & Esz & Ed). destruct (snap_size_bounds s) as (H24 & _ & _).
  unfold tx_undo_entry_apply. erewrite bind_ok by reflexivity. cbn [compose]. rewrite Et, Z.eqb_refl. unfold tx_restore_range.
  assert (pieces_ok (sn_dst s) (sn_dst s + len (sn_data s)) [TxRangeData (sn_dst s) (sn_dst s + len (sn_data s))]) as Hok.
  { constructor; [|constructor]. cbn. assert (0 < length (sn_data s))%nat by (destruct (sn_data s); [done|simpl; lia]). lia. }
  destruct (remove_locks_run txr_malloc Hmalloc _ _ locks _ Hok) as (l & El & Hl & Hc).
  assert (∀ a, pieces_cover l a ↔ snap_covers s a ∧ ¬ in_locks locks a) as Hc'.
  { intros a. rewrite Hc. unfold pieces_cover. rewrite Exists_cons, Exists_nil. unfold piece_covers, snap_covers. cbn. tauto. }
  assert (l ≠ []) as Hl0. { intros ->. assert (pieces_cover [] a0) as H by (by apply Hc'). by apply Exists_nil in H. }
  destruct (restore_loop_run e s l p Hl Hb Ed) as (p' & E & Hm).
  { intros a Ha. pose proof (Hap a Ha). unfold entry_data. lia. }
  exists p'. split.
  - erewrite bind_ok; [done|]. erewrite bind_ok by reflexivity. erewrite bind_ok by reflexivity. cbn [compose]. rewrite Eo, Esz, Hmalloc. cbn [negb].
    rewrite El. destruct l; [done|]. exact E.
  - intros a. rewrite Hm. destruct (decide (pieces_cover l a)) as [H|H]; [rewrite decide_True by (by apply Hc')|rewrite decide_False by (by rewrite <-Hc')]; done.
Qed.
End restore.

(** ** Restoring all of them *)

Section walk.
Context (o : pmem_ops) `{!OpsSpec o} (txr_malloc : Z → bool) (Hmalloc : ∀ a, txr_malloc a = true).
Context (locks : list tx_lock_data) (u cap : Z) (m0 : mem).

(** The bytes that are given back. *)
Definition given_back (ss : list snap) (a : Z) : Prop := Exists (λ s, snap_covers s a) ss ∧ ¬ in_locks locks a.
#[global] Instance given_back_dec ss a : Decision (given_back ss a).
Proof. unfold given_back. apply _. Defined.

Record walk_ok (s : snap) : Prop := {
  wo_ok : snap_ok s;
  wo_apart a : snap_covers s a → ¬ in_undo_log u cap a;
  wo_old a : snap_covers s a → snap_byte s a = rd m0 a;
  wo_locks : outside_locks locks s
}.

Lemma restored_next ss s p p1 p' : walk_ok s →
  (∀ a, rd (pm_mem p1) a = if decide (snap_covers s a ∧ ¬ in_locks locks a) then snap_byte s a else rd (pm_mem p) a) →
  (∀ a, rd (pm_mem p') a = if decide (given_back ss a) then rd m0 a else rd (pm_mem p1) a) →
  ∀ a, rd (pm_mem p') a = if decide (given_back (s :: ss) a) then rd m0 a else rd (pm_mem p) a.
Proof using.
  intros Hs H1 H2 a. rewrite H2, H1. unfold given_back. pose proof (wo_old s Hs a) as Ho.
  assert (Exists (λ s0, snap_covers s0 a) (s :: ss) ↔ snap_covers s a ∨ Exists (λ s0, snap_covers s0 a) ss) as He by apply Exists_cons.
  repeat case_decide; tauto.
Qed.

Lemma walk_run ss : ∀ off fuel p, ulog_f_capacity (pm_mem p) u = cap → cap < 2 ^ 62 → 0 ≤ off → snaps_at (pm_mem p) u off ss →
  ends_at (pm_mem p) u cap (off + log_size ss) → (length ss < fuel)%nat → Forall walk_ok ss →
  ∃ p', foreach_in (tx_undo_entry_apply o txr_malloc locks) fuel u off 0 p = (Ok (0, bool_decide (off + log_size ss < cap)), p') ∧
    ∀ a, rd (pm_mem p') a = if decide (given_back ss a) then rd m0 a else rd (pm_mem p) a.
Proof using OpsSpec0 Hmalloc.
  induction ss as [|s ss IH]; intros off fuel p Hc Hcap Hoff Hs He Hf Hok; (destruct fuel as [|fuel]; [simpl in Hf; lia|]); cbn [foreach_in log_size] in *;
    (erewrite bind_ok by reflexivity); cbn [compose]; rewrite Hc.
  - exists p. rewrite Z.add_0_r in *. split; [|intros a; rewrite decide_False; [done|]; by intros [H%Exists_nil _]].
    destruct He as [->|[Hlt H0]]; [by rewrite Z.ltb_irrefl, bool_decide_false by lia|].
    rewrite (proj2 (Z.ltb_lt _ _)), bool_decide_true by lia. erewrite (bind_ok _ _ _ false); [done|]. unfold entry_valid, try_mem. by rewrite (proj1 (end_invalid _ u off H0)).
  - destruct Hs as [Hs1 Hs2]. apply Forall_cons_1 in Hok as [Hwo Hok]. destruct (snap_size_bounds s) as (_ & H64 & _). pose proof (log_size_bounds ss) as [Hl _].
    assert (off + snap_size s + log_size ss ≤ cap) as Hfit by (destruct He as [He|[He _]]; lia).
    rewrite (proj2 (Z.ltb_lt _ _)) by lia. erewrite (bind_ok _ _ _ true) by (unfold entry_valid, try_mem; by rewrite (proj1 Hs1)). cbn [negb].
    destruct (entry_apply_undo o txr_malloc Hmalloc locks p _ s Hs1 (wo_ok s Hwo) (wo_locks s Hwo)) as (p1 & E1 & Hm1).
    { intros a Ha Hin. apply (wo_apart s Hwo a Ha). unfold in_undo_log, ulog_data in *. lia. }
    erewrite bind_ok by exact E1. change (0 =? 0) with true. cbn [negb]. erewrite bind_ok by reflexivity. cbn [compose].
    assert (∀ a, in_undo_log u cap a → rd (pm_mem p1) a = rd (pm_mem p) a) as Hlog.
    { intros a Ha. rewrite Hm1, decide_False; [done|]. intros [Hsc _]. by apply (wo_apart s Hwo a). }
    unfold in_undo_log, ulog_data in *. destruct (snap_frame (pm_mem p) (pm_mem p1) (u + 64 + off) s) as (_ & -> & _); [intros a Ha; apply Hlog; lia|done|].
    rewrite u64_id by lia. destruct (IH (off + snap_size s) fuel p1) as (p' & E & Hm); [| |lia| | |simpl in Hf; lia|done|].
    + etransitivity; [|exact Hc]. apply rd64_ext. intros a Ha. apply Hlog. lia.
    + done.
    + apply (snaps_frame (pm_mem p)); [|done]. intros a Ha. unfold ulog_data in Ha. apply Hlog. lia.
    + rewrite <-Z.add_assoc. destruct He as [He|[He1 He2]]; [by left|right]. split; [done|]. unfold ulog_data in *. rewrite <-He2. apply rd64_ext. intros a Ha. apply Hlog. lia.
    + exists p'. rewrite E, Z.add_assoc. split; [done|]. by eapply restored_next.
Qed.

(** The walk of [tx_abort_set]. *)
Lemma foreach_undo_run fuel p ss : undo_log (pm_mem p) u cap ss → Forall walk_ok ss → (length ss < fuel)%nat →
  ∃ p', ulog_foreach_entry fuel u (tx_undo_entry_apply o txr_malloc locks) p = (Ok 0, p') ∧ undo_log (pm_mem p') u cap ss ∧
    ∀ a, rd (pm_mem p') a = if decide (given_back ss a) then rd m0 a else rd (pm_mem p) a.
Proof using OpsSpec0 Hmalloc.
  intros Hu Hok Hf. pose proof Hu as [Hc Hn Hs _ _ Hr _].
  destruct (walk_run ss 0 fuel p Hc Hr ltac:(lia) Hs (undo_ends _ _ _ _ Hu) Hf Hok) as (p' & E & Hm).
  assert (undo_log (pm_mem p') u cap ss) as Hu'.
  { apply (undo_log_ext (pm_mem p)); [|done]. intros a Ha. rewrite Hm, decide_False; [done|]. intros [Hc' _]. apply Exists_exists in Hc' as (s & Hin & Hsc).
    apply (wo_apart s (proj1 (Forall_forall _ _) Hok s Hin) a Hsc). done. }
  exists p'. split_and!; [|done|done]. unfold ulog_foreach_entry. destruct fuel as [|fuel]; [lia|]. cbn [foreach_logs]. erewrite bind_ok by exact E. cbn [fst snd].
  destruct (bool_decide _); [done|]. erewrite bind_ok by reflexivity. cbn [compose].
  assert (ulog_next (pm_mem p') u = None) as -> by (unfold ulog_next, ulog_by_offset; by rewrite (ul_next _ _ _ _ Hu')). by destruct fuel.
Qed.
End walk.

(** * libpmemobj: the snapshots of a transaction

    [pmemobj_tx_add_snapshot] on the undo log of the lane that the transaction holds.  It has the interface [SnapshotSpec] of [TxAdd.v], with the invariant
    of [MemopsTx.v]: the log holds the contents that the ranges had at the start. *)

Section undo.
Context {C R : Type}.
Local Abbreviation S := (tx_state C R).
Implicit Types (s : S).

(** ** The contexts of the lane *)

Definition tx_pm s : pmem := h_pm (rh_heap (pa_heap (ts_palloc s))).
(** An operation on a context of the lane, and the state after it. *)
Definition ctx_state s (c : operation_context) : mstate := MState (MEnv (tx_pm s) (pa_alloc (ts_palloc s))) c.
Definition after_ctx s (i : Z) (l : lane) (t : mstate) : S :=
  let p := ts_palloc s in
  TxState (ts_tx s) (HoldState (hs_thread (ts_hold s)) (hs_shared (ts_hold s)) (updZ (hs_lanes (ts_hold s)) i l))
    (PallocState (with_pm (me_pm (ms_env t)) (pa_heap p)) (ms_ctx t) (me_alloc (ms_env t)) (pa_locks p) (pa_size_allocated p)) (ts_held s) (ts_malloc s).

Lemma on_undo_run {A} (f : M mstate A) s i l x t : tx_lane_of s = Some (i, l) → f (ctx_state s (ln_undo l)) = (x, t) →
  on_undo f s = (x, after_ctx s i (set_undo (ms_ctx t) l) t).
Proof. intros Hl Hf. unfold on_undo. rewrite Hl. unfold on_pa, on_operation. cbn. unfold ctx_state, tx_pm in Hf. by rewrite Hf. Qed.
Lemma on_external_run {A} (f : M mstate A) s i l x t : tx_lane_of s = Some (i, l) → f (ctx_state s (ln_external l)) = (x, t) →
  on_external (on_operation f) s = (x, after_ctx s i (set_external (ms_ctx t) l) t).
Proof. intros Hl Hf. unfold on_external. rewrite Hl. unfold on_pa, on_operation. cbn. unfold ctx_state, tx_pm in Hf. by rewrite Hf. Qed.

Lemma lane_of_lookup s i l : tx_lane_of s = Some (i, l) → tx_lane (ts_tx s) = Some i ∧ lookupZ (hs_lanes (ts_hold s)) i = Some l.
Proof. unfold tx_lane_of. destruct (tx_lane _) as [j|]; [|done]. cbn. destruct (lookupZ _ j) eqn:E; [|done]. cbn. intros [= <- <-]. done. Qed.
Lemma after_lane s i l l' t : tx_lane_of s = Some (i, l) → tx_lane_of (after_ctx s i l' t) = Some (i, l').
Proof.
  intros [Hi Hl]%lane_of_lookup. unfold tx_lane_of, after_ctx. cbn. rewrite Hi. cbn. rewrite lookupZ_updZ_eq; [done|]. by apply lookupZ_Some in Hl.
Qed.
Lemma after_state s i l t : ctx_state (after_ctx s i l t) (ms_ctx t) = t.
Proof. by destruct t as [[] ?]. Qed.
Lemma after_mem s i l t : mem_of (after_ctx s i l t) = pm_mem (me_pm (ms_env t)).
Proof. done. Qed.

(** ** What operations on the ranges leave alone *)

Record tx_frame s s' : Prop := {
  tf_pop : tx_pop (ts_tx s') = tx_pop (ts_tx s);
  tf_stage : tx_stage (ts_tx s') = tx_stage (ts_tx s);
  tf_errnum : tx_last_errnum (ts_tx s') = tx_last_errnum (ts_tx s);
  tf_lane : tx_lane (ts_tx s') = tx_lane (ts_tx s);
  tf_locks : tx_locks (ts_tx s') = tx_locks (ts_tx s);
  tf_entries : tx_entries (ts_tx s') = tx_entries (ts_tx s);
  tf_callback : tx_stage_callback (ts_tx s') = tx_stage_callback (ts_tx s);
  tf_thread : hs_thread (ts_hold s') = hs_thread (ts_hold s);
  tf_shared : hs_shared (ts_hold s') = hs_shared (ts_hold s);
  tf_held : ts_held s' = ts_held s;
  tf_alloc : pa_alloc (ts_palloc s') = pa_alloc (ts_palloc s);
  tf_external j : ln_external <$> lookupZ (hs_lanes (ts_hold s')) j = ln_external <$> lookupZ (hs_lanes (ts_hold s)) j
}.
Lemma tx_frame_refl s : tx_frame s s.
Proof. by split. Qed.
Lemma tx_frame_trans s1 s2 s3 : tx_frame s1 s2 → tx_frame s2 s3 → tx_frame s1 s3.
Proof. intros [] []. split; congruence. Qed.

(** An operation on the undo log of the lane. *)
Lemma after_frame s i l c t : tx_lane_of s = Some (i, l) → me_alloc (ms_env t) = pa_alloc (ts_palloc s) → tx_frame s (after_ctx s i (set_undo c l) t).
Proof.
  intros [_ Hl]%lane_of_lookup Ha. split; try done. intros j. cbn. destruct (decide (i = j)) as [<-|Hj]; [|by rewrite lookupZ_updZ_ne].
  rewrite lookupZ_updZ_eq, Hl; [done|]. by apply lookupZ_Some in Hl.
Qed.

(** ** The invariant *)

Definition def_range (x : tx_range_def) : Z * nat := (rd_offset x, Z.to_nat (rd_size x)).

(** The transaction of [s] holds the lane [i], [l]; its log at [u], of [cap] bytes, has the snapshots [snaps] of the memory [m0]; the redo log has room for the one action. *)
Record tx_lane_inv (i u cap : Z) (m0 : mem) s (l : lane) (snaps : list snap) : Prop := {
  tl_lane : tx_lane_of s = Some (i, l);
  tl_log : Lane.lane_undo (ln_layout l) = u;
  tl_type : oc_type (ln_undo l) = LOG_TYPE_UNDO;
  tl_progress : oc_in_progress (ln_undo l) = true;
  tl_nbytes : oc_ulog_base_nbytes (ln_undo l) = cap;
  tl_room : sizeof_ulog_entry_val ≤ oc_ulog_capacity (ln_external l);
  tl_undo : tx_inv u cap m0 (ctx_state s (ln_undo l)) snaps;
  tl_malloc : Forall (eq true) (ts_malloc s);
  tl_actions : tx_actions (ts_tx s) = if tx_first_snapshot (ts_tx s) then [] else [palloc_set_value (ulog_data u) 0]
}.

Definition snaps_inv (i u cap : Z) (m0 : mem) (s0 : S) (ss : list tx_range_def) s : Prop :=
  (∃ l snaps, tx_lane_inv i u cap m0 s l snaps ∧ range_of <$> snaps = def_range <$> ss) ∧ Forall (λ x, 0 ≤ rd_size x) ss ∧ tx_frame s0 s ∧
  ∀ a, ¬ in_undo_log u cap a → rd (mem_of s) a = rd (mem_of s0) a.

(** ** Taking a snapshot *)

Section snapshot.
Context (o : pmem_ops) `{!OpsSpec o} (fuel : nat) (redo_extend undo_extend : option (Z → M pmem unit)).
Context (i u cap : Z) (m0 : mem).

Lemma malloc_run s : Forall (eq true) (ts_malloc s) → Malloc_tx s = (Ok true, TxState (ts_tx s) (ts_hold s) (ts_palloc s) (ts_held s) (tail (ts_malloc s))).
Proof. unfold Malloc_tx. intros []; [done|by subst]. Qed.

Lemma inc_back_run s : Forall (eq true) (ts_malloc s) → ∃ cp ml, Forall (eq true) ml ∧
  VEC_INC_BACK s = (Ok tt, TxState (set_actions (tx_actions (ts_tx s) ++ [PobjAction None (ActionMem 0 0)]) cp (ts_tx s)) (ts_hold s) (ts_palloc s) (ts_held s) ml).
Proof.
  intros Hm. unfold VEC_INC_BACK. do 2 (erewrite bind_ok by reflexivity). cbn [compose]. destruct (_ =? _).
  - erewrite bind_ok by (by apply malloc_run). eexists _, _. split; [|reflexivity]. destruct Hm; by cbn.
  - erewrite bind_ok by reflexivity. by eexists _, (ts_malloc s).
Qed.

Lemma with_pm_same (h : rheap C R) : with_pm (h_pm (rh_heap h)) h = h.
Proof. by destruct h as [[] ? ? ? ?]. Qed.

(** The state with more actions; the context in the allocator is not looked at again. *)
Definition with_actions (acts : list pobj_action_internal) (cp : Z) (c : operation_context) (ml : list bool) s : S :=
  let p := ts_palloc s in
  TxState (set_actions acts cp (ts_tx s)) (ts_hold s) (PallocState (pa_heap p) c (pa_alloc p) (pa_locks p) (pa_size_allocated p)) (ts_held s) ml.

Lemma action_add_run s l : tx_lane_of s = Some (i, l) → (len (tx_actions (ts_tx s)) + 1) * sizeof_ulog_entry_val ≤ oc_ulog_capacity (ln_external l) →
  Forall (eq true) (ts_malloc s) → ∃ cp ml, Forall (eq true) ml ∧
    tx_action_add fuel redo_extend s = (Ok None, with_actions (tx_actions (ts_tx s) ++ [PobjAction None (ActionMem 0 0)]) cp (ln_external l) ml s).
Proof.
  intros Hl Hroom Hm. unfold tx_action_add. erewrite bind_ok by reflexivity. cbn [compose].
  erewrite bind_ok.
  2: { eapply on_external_run; [exact Hl|]. unfold errno_of, operation_reserve. erewrite bind_ok by reflexivity. cbn [compose id ctx_state ms_ctx].
       by rewrite (proj2 (Z.ltb_ge _ _)) by lia. }
  cbn [ctx_state ms_ctx]. assert (after_ctx s i (set_external (ln_external l) l) (ctx_state s (ln_external l)) =
    with_actions (tx_actions (ts_tx s)) (tx_actions_capacity (ts_tx s)) (ln_external l) (ts_malloc s) s) as ->.
  { apply lane_of_lookup in Hl as [_ Hl]. unfold after_ctx, with_actions. f_equal; [by destruct (ts_tx s)| |].
    - destruct l. cbn. rewrite updZ_id by done. by destruct (ts_hold s).
    - unfold ctx_state, tx_pm. cbn [ms_ctx ms_env me_pm me_alloc]. by rewrite with_pm_same. }
  destruct (inc_back_run (with_actions (tx_actions (ts_tx s)) (tx_actions_capacity (ts_tx s)) (ln_external l) (ts_malloc s) s) Hm) as (cp & ml & Hml & E).
  exists cp, ml. split; [done|]. by erewrite bind_ok by exact E.
Qed.

Lemma back_put_run s (acts : list pobj_action_internal) b a : tx_actions (ts_tx s) = acts ++ [b] →
  VEC_BACK_put a s = (Ok tt, TxState (set_actions (acts ++ [a]) (tx_actions_capacity (ts_tx s)) (ts_tx s)) (ts_hold s) (ts_palloc s) (ts_held s) (ts_malloc s)).
Proof.
  intros E. unfold VEC_BACK_put. erewrite bind_ok by reflexivity. cbn [compose]. destruct (tx_actions (ts_tx s)) as [|x l] eqn:Ea; [by destruct acts|].
  unfold mod_tx, modify. rewrite Ea, E, removelast_last. done.
Qed.

(** The first snapshot adds the action that ends the log when the transaction is committed. *)
Definition prepare : M S Z :=
  first ← get_tx tx_first_snapshot;
  if (first : bool) then
    e ← tx_action_add fuel redo_extend;
    match e with
    | Some _ => mret (-1)
    | None =>
        u ← (λ s, match tx_lane_of s with Some (_, l) => (Ok (ulog_data (Lane.lane_undo (ln_layout l))), s) | None => (Undef, s) end);
        VEC_BACK_put (palloc_set_value u 0);;
        mod_tx (set_first_snapshot false);;
        mret 0
    end
  else mret 0.

Lemma prepare_run s l snaps : tx_lane_inv i u cap m0 s l snaps →
  ∃ s1, prepare s = (Ok 0, s1) ∧ ranges_of s1 = ranges_of s ∧ tx_frame s s1 ∧ mem_of s1 = mem_of s ∧ tx_lane_inv i u cap m0 s1 l snaps ∧
    ctx_state s1 (ln_undo l) = ctx_state s (ln_undo l).
Proof.
  intros [Hl Hu Ht Hp Hn Hr Hi Hm Ha]. unfold prepare. erewrite bind_ok by reflexivity. cbn [compose].
  destruct (tx_first_snapshot (ts_tx s)) eqn:Ef; [|exists s; split_and!; try done; split; try done; by rewrite Ef].
  destruct (action_add_run s l Hl) as (cp & ml & Hml & E); [rewrite Ha; cbn; lia|done|]. rewrite Ha in E. cbn [app] in E. erewrite bind_ok by exact E. cbv beta iota.
  erewrite bind_ok.
  2: { assert (tx_lane_of (with_actions [PobjAction None (ActionMem 0 0)] cp (ln_external l) ml s) = Some (i, l)) as -> by done. reflexivity. }
  erewrite bind_ok by (by eapply (back_put_run _ [])). erewrite bind_ok by reflexivity. rewrite Hu.
  eexists. split; [reflexivity|]. by split_and!.
Qed.

Lemma snapshot_phases x s s1 : prepare s = (Ok 0, s1) → pmemobj_tx_add_snapshot o fuel redo_extend undo_extend x s =
  (src ← look (gets (λ m, rdn m (rd_offset x) (Z.to_nat (rd_size x))));
   e ← on_undo (errno_of (operation_add_buffer o undo_extend fuel (Datatypes.S (Z.to_nat (rd_size x))) (rd_offset x) src ULOG_OPERATION_BUF_CPY));
   mret (match e with Some _ => -1 | None => 0 end)) s1.
Proof.
  unfold prepare, pmemobj_tx_add_snapshot. intros E. erewrite bind_ok by reflexivity. erewrite (bind_ok _ _ s) in E by reflexivity.
  erewrite bind_ok by exact E. done.
Qed.

Lemma covered_def ss a : covered (def_range <$> ss) a ↔ covers ss a.
Proof. unfold covered, covers. rewrite Exists_fmap, !Exists_exists. unfold def_range, in_range, rng_end. cbn. split; intros (x & ? & ?); exists x; (split; [done|lia]). Qed.
Lemma size_def ss : Forall (λ x, 0 ≤ rd_size x) ss → ranges_size (def_range <$> ss) = weight ss.
Proof. induction 1 as [|x ss Hx _ IH]; [done|]. rewrite fmap_cons. cbn. rewrite IH. unfold snap_weight. by rewrite Z2Nat.id. Qed.

Context (s0 : S) (lo hi : Z) (Hlo : 0 < lo) (Hhi : hi < 2 ^ 61) (Hheap : ∀ a, lo ≤ a < hi → ¬ in_undo_log u cap a).

Lemma add_snapshot_run ss s x : snaps_inv i u cap m0 s0 ss s → range_ok x → lo ≤ rd_offset x → rng_end x ≤ hi → (∀ a, in_range a x → ¬ covers ss a) →
  weight (ss ++ [x]) ≤ cap →
  ∃ s', pmemobj_tx_add_snapshot o fuel redo_extend undo_extend x s = (Ok 0, s') ∧ ranges_of s' = ranges_of s ∧ snaps_inv i u cap m0 s0 (ss ++ [x]) s'.
Proof using OpsSpec0 Hlo Hhi Hheap.
  intros ((l & snaps & Hl & Hss) & Hpos & Hfr & Hmem) [X1 X2 X3 X4] Hxl Hxh Hnew Hw. unfold rng_end in *.
  destruct (prepare_run s l snaps Hl) as (s1 & E1 & Hr1 & Hfr1 & Hm1 & Hl1 & Hc1). rewrite (snapshot_phases x s s1 E1).
  erewrite bind_ok by reflexivity. cbv beta. pose proof Hl1 as [L1 L2 L3 L4 L5 L6 L7 L8 L9].
  assert (Forall (λ x, 0 ≤ rd_size x) (ss ++ [x])) as Hpos' by (apply Forall_app; split; [done|]; repeat constructor; lia).
  destruct (tx_snapshot o undo_extend fuel u cap m0 (ctx_state s1 (ln_undo l)) snaps (rd_offset x) (Z.to_nat (rd_size x)) L7) as (t & E & Hst & Hi & Hm); [lia..| | |].
  { rewrite Hss. intros a Ha. rewrite covered_def. split; [apply Hheap; lia|]. apply Hnew. unfold in_range, rng_end. lia. }
  { rewrite Hss. change [(rd_offset x, Z.to_nat (rd_size x))] with (def_range <$> [x]). by rewrite <-fmap_app, size_def. }
  unfold tx_do in E. erewrite bind_ok in E by (by apply lift_run). cbn [compose id] in E.
  erewrite bind_ok.
  2: { eapply (on_undo_run _ s1); [exact L1|]. unfold errno_of. change (mem_of s1) with (pm_mem (tx_pm s1)).
       replace (operation_add_buffer _ _ _ _ _ _ _ (ctx_state s1 (ln_undo l))) with (@Ok unit tt, t); reflexivity. }
  eexists. split; [reflexivity|]. split; [by rewrite <-Hr1|]. split; [|split; [done|split]].
  - exists (set_undo (ms_ctx t) l), (snaps ++ [Snap (rd_offset x) (rdn (pm_mem (tx_pm s1)) (rd_offset x) (Z.to_nat (rd_size x)))]).
    split; [|rewrite !fmap_app, Hss; f_equal; rewrite !list_fmap_singleton; unfold range_of; cbn [sn_dst sn_data]; by rewrite length_rdn].
    destruct Hst as [Q1 Q2 Q3 Q4 Q5 Q6]. cbn in Q1, Q2, Q5. split; [by eapply after_lane|done|cbn; congruence..|done| |done|done].
    cbn [set_undo ln_undo]. rewrite after_state. exact Hi.
  - eapply tx_frame_trans; [exact Hfr|]. eapply tx_frame_trans; [exact Hfr1|]. apply after_frame; [done|apply Hst].
  - intros a Ha. rewrite after_mem, Hm by done. rewrite <-(Hmem a Ha). change (rd (mem_of s1) a = rd (mem_of s) a). by rewrite Hm1.
Qed.

#[global] Instance snapshot_spec : SnapshotSpec (pmemobj_tx_add_snapshot o fuel redo_extend undo_extend) lo hi cap (snaps_inv i u cap m0 s0).
Proof using OpsSpec0 Hlo Hhi Hheap.
  split; [|exact add_snapshot_run]. intros ss s r ((l & snaps & Hl & Hss) & Hpos & Hfr & Hmem). split; [|split; [done|split; [|done]]].
  - exists l, snaps. split; [|done]. destruct Hl. by split.
  - destruct Hfr. by split.
Qed.
End snapshot.
End undo.

(** * libpmemobj: transactions that change ranges and are aborted

    Ranges of the heap are added to a transaction with [pmemobj_tx_add_range_direct] and changed by plain stores.  The ranges and their snapshots are put
    together here, from [TxAdd.v] and the parts above; aborting the transaction gives the memory back. *)

Section program.
Context {C R : Type} (o : pmem_ops) `{!OpsSpec o}.
Local Abbreviation S := (tx_state C R).
Implicit Types (s : S).

(** What the operations on transactions take as arguments. *)
Context (uuid_lo layout : Z) (pop : pool_layout) (fuel : nat) (ulog_free : Z → M pmem unit) (push_ok : nat → bool).
Context (redo_extend undo_extend : option (Z → M pmem unit)) (malloc zalloc tls_ok has_remote : bool).
Context (txr_malloc : Z → bool) (callback : Z → Z → pobj_tx_stage → Z → M S unit).
Local Abbreviation add_range := (pmemobj_tx_add_range_direct uuid_lo o layout pop fuel ulog_free push_ok redo_extend undo_extend malloc zalloc tls_ok
  has_remote txr_malloc callback).

(** The heap: [lo] to [hi]. *)
Local Abbreviation lo := (pl_heap_offset pop).
Local Abbreviation hi := (pl_heap_offset pop + pl_heap_size pop).
(** The lane, its log, and the memory at the start. *)
Context (i u cap : Z) (m0 : mem).
Context (Hlo : 0 < lo) (Hhi : hi < 2 ^ 61) (Hheap : ∀ a, lo ≤ a < hi → ¬ in_undo_log u cap a).

(** ** Adding a range *)

(** The transaction is in progress with the ranges [L] and the snapshots [ss]. *)
Record tx_work (N : Z) s (L : list (Z * tx_range_def)) (ss : list tx_range_def) : Prop := {
  tw_stage : tx_stage (ts_tx s) = TX_STAGE_WORK;
  tw_ranges : ∃ rv, ranges_of s = Some rv ∧ ranges_rep N rv L;
  tw_ok : ranges_ok L.*2;
  tw_snaps : snaps_inv i u cap m0 s ss s;
  tw_within a : covers ss a → covers L.*2 a;
  tw_covered a : covers L.*2 a → lo ≤ a < hi ∧ covers ss a
}.

(** A range of the heap. *)
Record heap_range (ptr size : Z) : Prop := {
  hr_ptr : lo ≤ ptr;
  hr_size : 0 < size ≤ PMEMOBJ_MAX_ALLOC_SIZE;
  hr_end : ptr + size ≤ hi
}.

Lemma snaps_inv_base s0 s ss : snaps_inv i u cap m0 s0 ss s → snaps_inv i u cap m0 s ss s.
Proof using. intros (H1 & H2 & _). split_and!; try done. Qed.

Lemma add_range_run N s L ss ptr size : tx_work N s L ss → heap_range ptr size → N < 2 ^ 31 - 1 → weight ss + size + 88 * (Z.of_nat (length L) + 1) ≤ cap →
  ∃ s' L' ss', add_range ptr size s = (Ok 0, s') ∧ tx_work (N + 1) s' L' (ss ++ ss') ∧ tx_frame s s' ∧
    (∀ a, ¬ in_undo_log u cap a → rd (mem_of s') a = rd (mem_of s) a) ∧
    (∀ a, covers L'.*2 a ↔ covers L.*2 a ∨ ptr ≤ a < ptr + size) ∧ (∀ a, covers ss' a ↔ ptr ≤ a < ptr + size ∧ ¬ covers L.*2 a) ∧
    weight (ss ++ ss') ≤ weight ss + size + 88 * (Z.of_nat (length L) + 1) ∧ (length L' ≤ Datatypes.S (length L))%nat.
Proof using OpsSpec0 Hlo Hhi Hheap.
  intros [W1 (rv & W2 & W3) W4 W5 W6 W7] [H1 H2 H3] HN Hcap. set (x := TxRangeDef ptr size 0).
  assert (piece_ok lo hi x) as Hx by (split; [split|..]; unfold rng_end; cbn; lia).
  pose proof (snapshot_spec o fuel redo_extend undo_extend i u cap m0 s lo hi Hlo Hhi Hheap) as Hspec.
  destruct (add_loop_run o fuel redo_extend undo_extend lo hi cap (snaps_inv i u cap m0 s) ltac:(lia) ltac:(lia) N s rv L x ss W2 W3 W4 HN W5 Hx W6 Hcap)
    as (s' & E & rv' & L' & ss' & A1 & A2 & A3 & A4 & A5 & A6 & A7 & A8).
  exists s', L', ss'. pose proof A4 as (A41 & A42 & A43 & A44). split; [|split_and!; try done; [|lia]].
  - unfold pmemobj_tx_add_range_direct, assert_stage_work. erewrite bind_ok by (erewrite bind_ok by reflexivity; cbn [compose]; by rewrite W1).
    unfold OBJ_PTR_FROM_POOL. rewrite (proj2 (Z.leb_le 0 ptr)), (proj2 (Z.ltb_lt ptr hi)) by lia. cbn [andb negb]. fold x.
    unfold pmemobj_tx_add_common. cbn [x rd_size rd_offset]. rewrite (proj2 (Z.ltb_ge _ size)), (proj2 (Z.ltb_ge ptr lo)) by lia. rewrite !u64_id by lia.
    rewrite (proj2 (Z.ltb_ge hi _)) by lia. cbn [orb]. erewrite bind_ok by (by eapply on_ranges_run). rewrite with_ranges_same by done.
    rewrite (rep_fuel _ _ _ W3). fold x. by erewrite bind_ok by exact E.
  - split; [by rewrite (tf_stage _ _ A43)|by exists rv'|done|by eapply snaps_inv_base|..].
    + intros a. rewrite covers_app, A5, A6. intros [Ha|[Ha _]]; [left; by apply W6|by right].
    + intros a. rewrite covers_app, A5, A6. unfold in_range, x, rng_end. cbn. intros Ha. destruct (decide (covers L.*2 a)) as [Hc|Hc]; [destruct (W7 a Hc); tauto|].
      destruct Ha as [Ha|Ha]; [done|]. split; [lia|by right].
Qed.

(** ** Changing what has been added *)

(** The state after changing the memory. *)
Definition with_tpm (p : pmem) s : S :=
  let pa := ts_palloc s in
  TxState (ts_tx s) (ts_hold s) (PallocState (Palloc.with_pm p (pa_heap pa)) (pa_ctx pa) (pa_alloc pa) (pa_locks pa) (pa_size_allocated pa)) (ts_held s) (ts_malloc s).
Lemma on_tpm_run {A} (f : M pmem A) s x p : f (tx_pm s) = (x, p) → on_tpm f s = (x, with_tpm p s).
Proof using. clear. intros E. unfold on_tpm, on_pa, on_ppm, on_rheap, on_heap, on_hpm. unfold tx_pm in E. by rewrite E. Qed.

Definition tx_assign (dst : Z) (bs : list Z) : M S unit := on_tpm (modify (λ p, pm_store p dst bs)).

Lemma tx_store_run N s L ss dst bs : tx_work N s L ss → (∀ a, dst ≤ a < dst + len bs → covers L.*2 a) →
  ∃ s', tx_assign dst bs s = (Ok tt, s') ∧ tx_work N s' L ss ∧ tx_frame s s' ∧ mem_of s' = wr (mem_of s) dst bs.
Proof using o fuel.
  intros [W1 W2 W4 ((l & snaps & [T1 T2 T3 T4 T5 T6 T7 T8 T9] & Hss) & Hpos & _ & _) W6 W7] Hc.
  destruct (tx_store o None fuel u cap m0 (ctx_state s (ln_undo l)) snaps dst bs T7) as (t & E & _ & Hi & Hm).
  { intros a Ha. rewrite Hss, covered_def. by apply W7, Hc. }
  unfold tx_do in E. erewrite lift_run in E by reflexivity. injection E as <-.
  eexists. split; [by apply on_tpm_run|]. split_and!; [|by split|done].
  split; [done|done|done| |done|done]. split; [|split_and!; [done|done|done]]. exists l, snaps. by split.
Qed.

Inductive tx_op : Type := TxAddRange (ptr size : Z) | TxAssign (dst : Z) (bs : list Z).
Definition op_do (op : tx_op) : M S unit :=
  match op with
  | TxAddRange ptr size => add_range ptr size;; mret tt
  | TxAssign dst bs => tx_assign dst bs
  end.
Fixpoint prog_do (ops : list tx_op) : M S unit := match ops with [] => mret tt | op :: ops => op_do op;; prog_do ops end.

(** What the stores make of the memory. *)
Fixpoint prog_mem (m : mem) (ops : list tx_op) : mem :=
  match ops with
  | [] => m
  | TxAddRange _ _ :: ops => prog_mem m ops
  | TxAssign dst bs :: ops => prog_mem (wr m dst bs) ops
  end.
Lemma prog_mem_at ops : ∀ m m' a, rd m a = rd m' a → rd (prog_mem m ops) a = rd (prog_mem m' ops) a.
Proof using. clear. induction ops as [|[ptr size|dst bs] ops IH]; intros m m' a H; cbn [prog_mem]; [done|by apply IH|]. apply IH. rewrite !rd_wr. by case_decide. Qed.

(** Ranges of the heap are added, only what has been added is changed, and the log has [room]: every range that is added takes its size and at most a
    header and the rest of a cache line for every gap that it fills. *)
Fixpoint prog_ok (P : Z → Prop) (k room : Z) (ops : list tx_op) : Prop :=
  match ops with
  | [] => 0 ≤ room
  | TxAddRange ptr size :: ops =>
      heap_range ptr size ∧ size + 88 * (k + 1) ≤ room ∧ prog_ok (λ a, P a ∨ ptr ≤ a < ptr + size) (k + 1) (room - (size + 88 * (k + 1))) ops
  | TxAssign dst bs :: ops => (∀ a, dst ≤ a < dst + len bs → P a) ∧ prog_ok P k room ops
  end.

Lemma prog_run ops : ∀ N s L ss P k room, tx_work N s L ss → Z.of_nat (length L) ≤ k → weight ss + room ≤ cap → (∀ a, P a → covers L.*2 a) →
  prog_ok P k room ops → N + len ops < 2 ^ 31 - 1 →
  ∃ s' L' ss', prog_do ops s = (Ok tt, s') ∧ tx_work (N + len ops) s' L' ss' ∧ tx_frame s s' ∧
    ∀ a, ¬ in_undo_log u cap a → rd (mem_of s') a = rd (prog_mem (mem_of s) ops) a.
Proof using OpsSpec0 Hlo Hhi Hheap.
  induction ops as [|[ptr size|dst bs] ops IH]; intros N s L ss P k room Hw HL Hcap HP Hok HN; cbn [prog_ok prog_do op_do prog_mem length] in *.
  - exists s, L, ss. rewrite Z.add_0_r. by split_and!; try done.
  - destruct Hok as (Hr & Hsz & Hok). destruct (add_range_run N s L ss ptr size Hw Hr) as (s1 & L1 & ss1 & E & Hw1 & Hf1 & Hm1 & Hc1 & _ & Hwt & Hlen); [lia..|].
    erewrite bind_ok by (by erewrite bind_ok by exact E).
    edestruct (IH (N + 1) s1 L1 (ss ++ ss1)) as (s' & L' & ss' & E' & Hw' & Hf' & Hm'); [exact Hw1|..|exact Hok|lia|]; [lia|lia| |].
    { intros a [Ha|Ha]; apply Hc1; [left; by apply HP|by right]. }
    exists s', L', ss'. split_and!; [done|by replace (N + _) with (N + 1 + len ops) by lia|by eapply tx_frame_trans|]. intros a Ha. rewrite Hm' by done. by apply prog_mem_at, Hm1.
  - destruct Hok as [Hd Hok]. destruct (tx_store_run N s L ss dst bs Hw) as (s1 & E & Hw1 & Hf1 & Hm1); [by intros; apply HP, Hd|].
    erewrite bind_ok by exact E. destruct (IH (N + 1) s1 L ss P k room) as (s' & L' & ss' & E' & Hw' & Hf' & Hm'); try done; [|lia|].
    { destruct Hw1 as [V1 (rv & V2 & (t & V3 & V4 & V5 & V6 & V7)) V8 V9 V10 V11]. split; try done. exists rv. split; [done|]. exists t. split_and!; try done. lia. }
    exists s', L', ss'. split_and!; [done|by replace (N + _) with (N + 1 + len ops) by lia|by eapply tx_frame_trans|]. intros a Ha. rewrite Hm' by done. by rewrite Hm1.
Qed.

(** Only the heap is changed. *)
Lemma prog_mem_out ops a : ¬ (lo ≤ a < hi) → ∀ m P k room, (∀ x, P x → lo ≤ x < hi) → prog_ok P k room ops → rd (prog_mem m ops) a = rd m a.
Proof using.
  clear. intros Ha. induction ops as [|[ptr size|dst bs] ops IH]; intros m P k room HP Hok; cbn [prog_ok prog_mem] in *; [done|..].
  - destruct Hok as ([H1 H2 H3] & _ & Hok). eapply (IH m); [|exact Hok]. intros x [Hx|Hx]; [by apply HP|lia].
  - destruct Hok as [Hd Hok]. rewrite (IH _ _ _ _ HP Hok). apply rd_wr_out. intros Hin. by apply Ha, HP, Hd.
Qed.

(** ** Aborting *)

Context (Hmalloc : ∀ a, txr_malloc a = true) (Hfuel : cap < 64 * Z.of_nat fuel).
Local Abbreviation abort_set := (tx_abort_set o fuel ulog_free push_ok txr_malloc).

Lemma log_length snaps : 64 * Z.of_nat (length snaps) ≤ log_size snaps.
Proof using. clear. induction snaps as [|sn snaps IH]; cbn [log_size length]; [lia|]. destruct (snap_size_bounds sn). lia. Qed.

(** The snapshots of the transaction. *)
Definition tx_snaps s (snaps : list snap) : Prop := ∃ l, tx_lane_inv i u cap m0 s l snaps.

Lemma walk_snaps s l snaps locks : tx_lane_inv i u cap m0 s l snaps → Forall (outside_locks locks) snaps → Forall (walk_ok locks u cap m0) snaps.
Proof using.
  intros Hl Ho. destruct (tl_undo _ _ _ _ _ _ _ Hl) as [Hu Hap Hold _]. pose proof (ui_ok _ _ _ _ Hu) as Hok.
  rewrite Forall_forall in *. unfold snaps_apart, snaps_of in Hap, Hold. rewrite Forall_forall in Hap, Hold. intros sn Hin. split; eauto.
Qed.

(** Every byte that is not in a lock has its value again. *)
Lemma restored s l snaps locks a : tx_lane_inv i u cap m0 s l snaps → ¬ in_undo_log u cap a →
  (if decide (given_back locks snaps a) then rd m0 a else rd (mem_of s) a) = if decide (in_locks locks a) then rd (mem_of s) a else rd m0 a.
Proof using.
  intros Hl Ha. destruct (tl_undo _ _ _ _ _ _ _ Hl) as [_ _ _ Hmem]. specialize (Hmem a Ha). rewrite covered_snaps in Hmem. unfold given_back.
  change (rd (mem_of s) a = rd m0 a ∨ Exists (λ sn, snap_covers sn a) snaps) in Hmem.
  destruct (decide (in_locks locks a)) as [H|H]; [by rewrite decide_False by (by intros [_ ?])|]. destruct Hmem as [->|Hm]; [by case_decide|]. by rewrite decide_True.
Qed.

Lemma abort_set_run s snaps : tx_snaps s snaps → Forall (outside_locks (tx_locks (ts_tx s))) snaps →
  ∃ s', abort_set s = (Ok tt, s') ∧ ts_tx s' = ts_tx s ∧ tx_frame s s' ∧ undo_log (mem_of s') u cap [] ∧
    ∀ a, ¬ in_undo_log u cap a → rd (mem_of s') a = if decide (in_locks (tx_locks (ts_tx s)) a) then rd (mem_of s) a else rd m0 a.
Proof using OpsSpec0 Hmalloc Hfuel.
  intros [l Hl] Ho. pose proof (walk_snaps s l snaps _ Hl Ho) as Hwalk. pose proof Hl as [T1 T2 T3 T4 T5 T6 [Hu _ _ _] T8 T9].
  pose proof (log_length snaps) as Hlen. pose proof (ul_fits _ _ _ _ (ui_log _ _ _ _ Hu)) as Hfit.
  unfold tx_abort_set. erewrite bind_ok by reflexivity. cbn [compose]. erewrite bind_ok by (by rewrite T1). rewrite T2.
  destruct (foreach_undo_run o txr_malloc Hmalloc (tx_locks (ts_tx s)) u cap m0 fuel (tx_pm s) snaps (ui_log _ _ _ _ Hu) Hwalk ltac:(lia)) as (p & E & Hlog & Hm).
  erewrite bind_ok by (apply on_tpm_run; unfold ignore; by rewrite E).
  destruct (undo_finish_run o ulog_free push_ok fuel (ctx_state (with_tpm p s) (ln_undo l)) u cap snaps) as (t & E' & Hal & Hlog' & Hm'); try done.
  { apply Hu. } { apply Hu. } { lia. }
  eexists. split; [by eapply on_undo_run|]. split_and!; [done|eapply tx_frame_trans; [|exact (after_frame (with_tpm p s) i l _ t T1 Hal)]; by split|done|]. intros a Ha. rewrite after_mem, Hm' by done.
  change (pm_mem (me_pm (ms_env (ctx_state (with_tpm p s) (ln_undo l))))) with (pm_mem p). rewrite Hm.
  change (pm_mem (tx_pm s)) with (mem_of s). by apply (restored s l).
Qed.

(** Nothing is to be taken back. *)
Lemma cancel_run s l snaps (p : palloc_state C R) : tx_lane_inv i u cap m0 s l snaps → palloc_cancel o layout (tx_actions (ts_tx s)) p = (Ok tt, p).
Proof using. intros Hl. rewrite (tl_actions _ _ _ _ _ _ _ Hl). unfold palloc_cancel. by destruct (tx_first_snapshot _). Qed.

Local Abbreviation abort_tx := (tx_abort o layout fuel ulog_free push_ok txr_malloc).
Local Abbreviation abort_with := (obj_tx_abort uuid_lo o layout fuel ulog_free push_ok malloc zalloc tls_ok has_remote txr_malloc callback).

(** The tree of the ranges. *)
Definition has_tree s : Prop := ∃ rv t, ranges_of s = Some rv ∧ ravl_inv tx_range_def_cmp false rv t.
Lemma work_tree N s L ss : tx_work N s L ss → has_tree s.
Proof using. intros [_ (rv & W2 & (t & Ht & _)) _ _ _ _]. by exists rv, t. Qed.

Lemma tx_abort_run s snaps : has_tree s → tx_snaps s snaps → Forall (outside_locks (tx_locks (ts_tx s))) snaps →
  ∃ s', abort_tx s = (Ok tt, s') ∧ ranges_of s' = None ∧ tx_actions (ts_tx s') = [] ∧ tx_frame s s' ∧ undo_log (mem_of s') u cap [] ∧
    ∀ a, ¬ in_undo_log u cap a → rd (mem_of s') a = if decide (in_locks (tx_locks (ts_tx s)) a) then rd (mem_of s) a else rd m0 a.
Proof using OpsSpec0 Hmalloc Hfuel.
  intros (rv & t & W2 & Ht) Hs Ho. destruct (abort_set_run s snaps Hs Ho) as (s1 & E1 & Htx & Hf & Hlog & Hm).
  unfold tx_abort. erewrite bind_ok by exact E1. destruct (delete_spec _ _ _ _ Ht) as (r' & E2 & _).
  erewrite bind_ok by (eapply on_ranges_run; [by unfold ranges_of; rewrite Htx|exact E2]). erewrite bind_ok by reflexivity.
  erewrite bind_ok.
  2: { unfold on_pa. cbn [with_ranges mod_tx modify snd ts_tx set_ranges tx_actions compose]. rewrite Htx. destruct Hs as [l Hl]. by erewrite cancel_run by exact Hl. }
  erewrite bind_ok by reflexivity. eexists. split; [reflexivity|]. split_and!; [done|done| |done|done].
  eapply tx_frame_trans; [exact Hf|]. split; cbn; by rewrite ?Htx.
Qed.

(** The thread holds the lane once, and nobody else does. *)
Definition holds_lane (h : hold_state) : Prop := ∃ a inf, cached (hs_thread h) uuid_lo a inf ∧ lk_runtime_nlanes (hs_shared h) ≠ 0 ∧
  li_lane_idx inf = i ∧ i ≠ UINT64_MAX ∧ li_nest_count inf = 1 ∧ lookupZ (lk_locks (hs_shared h)) i = Some 1.

Lemma release_lane_run s : holds_lane (ts_hold s) →
  ∃ h, release_lane uuid_lo malloc zalloc tls_ok has_remote s = (Ok tt, TxState (set_lane None (ts_tx s)) h (ts_palloc s) (ts_held s) (ts_malloc s)) ∧
    lk_locks (hs_shared h) = updZ (lk_locks (hs_shared (ts_hold s))) i 0.
Proof using.
  clear. intros (a & inf & Hc & Hn & Hi & Hm & H1 & Hk). unfold release_lane.
  pose proof (release_run malloc zalloc tls_ok uuid_lo has_remote (ts_hold s) a inf Hc Hn) as E. rewrite Hi, H1 in E.
  eexists. split.
  - erewrite bind_ok by (unfold on_hold; rewrite E by (done || lia); reflexivity). reflexivity.
  - done.
Qed.

(** The result of [obj_tx_abort]: [longjmp] if the caller asked for it. *)
Definition abort_result (env : bool) (errnum : Z) : res unit := if env then Fail errnum else Ok tt.

(** What is left of the outermost transaction after it has been aborted. *)
Record aborted (errnum : Z) s s' : Prop := {
  ab_stage : tx_stage (ts_tx s') = TX_STAGE_ONABORT;
  ab_errnum : tx_last_errnum (ts_tx s') = errnum;
  ab_lane : tx_lane (ts_tx s') = None;
  ab_ranges : ranges_of s' = None;
  ab_actions : tx_actions (ts_tx s') = [];
  ab_pop : tx_pop (ts_tx s') = tx_pop (ts_tx s);
  ab_locks : tx_locks (ts_tx s') = tx_locks (ts_tx s);
  ab_entries : tx_entries (ts_tx s') = tx_entries (ts_tx s);
  ab_callback : tx_stage_callback (ts_tx s') = tx_stage_callback (ts_tx s);
  ab_held : ts_held s' = ts_held s;
  ab_release : lk_locks (hs_shared (ts_hold s')) = updZ (lk_locks (hs_shared (ts_hold s))) i 0;
  ab_log : undo_log (mem_of s') u cap [];
  ab_mem a : ¬ in_undo_log u cap a → rd (mem_of s') a = if decide (in_locks (tx_locks (ts_tx s)) a) then rd (mem_of s) a else rd m0 a
}.

Lemma obj_tx_abort_run s snaps env errnum : tx_stage (ts_tx s) = TX_STAGE_WORK → has_tree s → tx_snaps s snaps →
  Forall (outside_locks (tx_locks (ts_tx s))) snaps → tx_entries (ts_tx s) = [env] → tx_stage_callback (ts_tx s) = None → holds_lane (ts_hold s) → errnum ≠ 0 →
  ∃ s', abort_with errnum s = (abort_result env errnum, s') ∧ aborted errnum s s'.
Proof using OpsSpec0 Hmalloc Hfuel.
  intros Hst Ht Hs Ho He Hcb Hh Hn0. pose proof Hs as [l Hl]. pose proof (tl_lane _ _ _ _ _ _ _ Hl) as [Hi _]%lane_of_lookup.
  unfold obj_tx_abort, assert_stage_work. erewrite bind_ok by (erewrite bind_ok by reflexivity; cbn [compose]; by rewrite Hst).
  erewrite bind_ok by reflexivity. cbn [compose]. rewrite Hi, (proj2 (Z.eqb_neq _ _)) by done. erewrite bind_ok by reflexivity. erewrite bind_ok by reflexivity. cbn [compose].
  set (s1 := TxState (set_stage TX_STAGE_ONABORT (ts_tx s)) (ts_hold s) (ts_palloc s) (ts_held s) (ts_malloc s)). change (tx_entries (ts_tx s1)) with (tx_entries (ts_tx s)). rewrite He.
  destruct (tx_abort_run s1 snaps) as (s2 & E2 & Hr & Ha & Hf & Hlog & Hm); [done|by exists l; destruct Hl|done|].
  destruct (release_lane_run s2) as (h & E3 & Hk).
  { destruct Hf as [_ _ _ _ _ _ _ F1 F2 _]. unfold holds_lane. by rewrite F1, F2. }
  erewrite bind_ok by (erewrite bind_ok by exact E2; exact E3). destruct Hf as [F1 F2 F3 F4 F5 F6 F7 F8 F9 F10].
  erewrite bind_ok by reflexivity. unfold obj_tx_callback. erewrite bind_ok.
  2: { erewrite bind_ok by reflexivity. cbn [compose ts_tx set_lane set_errnum tx_stage_callback]. rewrite F7. cbn. rewrite Hcb. reflexivity. }
  unfold abort_result. eexists. split; [by destruct env|]. split; cbn in *; try done; try congruence.
Qed.
End program.
