(* ===== verification/TxCommit.v ===== *)
(** * libpmemobj: committing and beginning a transaction

    [pmemobj_tx_commit] of an outermost transaction that has changed ranges: the ranges are flushed, the redo operation of the lane writes the word that
    ends the undo log, and the undo operation is finished.  The changes stay.  The second part is [pmemobj_tx_begin]. *)

From stdpp Require Import base gmap list numbers.
From S2P Require Import Prelude Memory Pmem Util Ulog UlogSpec UlogEntry UlogTheorems Ravl RavlTree RavlTheorems Vecq Memops MemopsMerge MemopsCrash MemopsTheorems MemopsTx Lane.
From S2P Require Import LaneHold LaneHoldTheorems Memblock Heap HeapRun Palloc Tx TxRanges TxAdd TxProgram.
Local Open Scope Z_scope.

Local Abbreviation smem s := (pm_mem (me_pm (ms_env s))).

(** ** Publishing values *)

Section publish.
Context {C R : Type} (o : pmem_ops) `{!OpsSpec o} (layout : Z) (pop : pool_layout) (fuel : nat) (ulog_free : Z → M pmem unit) (push_ok : nat → bool).
Context (qsort : list pobj_action_internal → list pobj_action_internal) (Hqsort : ∀ l, qsort l ≡ₚ l) (D : Z).
Implicit Types (p : palloc_state C R).

(** The operation of the allocator, and the allocator after it. *)
Definition pa_state p : mstate := MState (MEnv (h_pm (rh_heap (pa_heap p))) (pa_alloc p)) (pa_ctx p).
Definition put_state p (t : mstate) : palloc_state C R :=
  PallocState (with_pm (me_pm (ms_env t)) (pa_heap p)) (ms_ctx t) (me_alloc (ms_env t)) (pa_locks p) (pa_size_allocated p).

Lemma on_operation_run {A} (f : M mstate A) p r t : f (pa_state p) = (r, t) → on_operation f p = (r, put_state p t).
Proof using. clear. unfold on_operation, pa_state. by intros ->. Qed.
Lemma put_twice p t t' : put_state (put_state p t) t' = put_state p t'.
Proof using. clear. by destruct p as [[[] ? ? ? ?] ? ? ? ?]. Qed.
Lemma put_pa p t : pa_state (put_state p t) = t.
Proof using. clear. by destruct t as [[] ?]. Qed.
Lemma put_same p : put_state p (pa_state p) = p.
Proof using. clear. by destruct p as [[[] ? ? ? ?] ? ? ? ?]. Qed.

(** Actions that set words of the pool are the requests [rs]. *)
Definition set_action (r : vent) : pobj_action_internal := palloc_set_value (ve_ptr r) (ve_val r).
Definition set_ok (r : vent) : Prop := vent_ok r ∧ ve_k r = 0 ∧ OBJ_OFF_IS_VALID pop (ve_ptr r) = true.

(** The entries of the actions, when none of them is dropped. *)
Lemma exec_sets rs : ∀ prev p t, Forall set_ok rs → add_all rs (pa_state p) = (Ok tt, t) →
  exec_loop (action_exec layout pop) prev (set_action <$> rs) p = (Ok tt, put_state p t).
Proof using.
  clear. induction rs as [|r rs IH]; intros prev p t Hrs E.
  { injection E as <-. cbn [fmap list_fmap exec_loop]. by rewrite put_same. }
  apply Forall_cons_1 in Hrs as [([Hp _ _ _] & Hk & Hv) Hrs]. rewrite fmap_cons. cbn [exec_loop set_action palloc_set_value act_lock act_data for_lock add_all] in *.
  apply bind_inv_ok in E as ([] & t1 & E1 & E). rewrite Hk in E1. change (Z.shiftl 0 61) with ULOG_OPERATION_SET in E1.
  erewrite bind_ok by (by case_bool_decide). erewrite (bind_ok _ _ _ tt (put_state p t1)).
  2: { apply on_operation_run. unfold ignore, operation_add_entry. by rewrite u64_id, Hv, E1 by lia. }
  rewrite (IH _ _ t Hrs); [by rewrite put_twice|]. by rewrite put_pa.
Qed.

Lemma process_sets rs : ∀ prev p, process_loop (action_on_process layout) prev (set_action <$> rs) p = (Ok tt, p).
Proof using. clear. induction rs as [|r rs IH]; intros prev p; [done|]. rewrite fmap_cons. cbn [process_loop set_action]. erewrite bind_ok by reflexivity. erewrite bind_ok by (by case_bool_decide). apply IH. Qed.
Lemma unlock_sets rs p : each_action (action_on_unlock o layout) (set_action <$> rs) p = (Ok tt, p).
Proof using. clear. induction rs as [|r rs IH]; [done|]. rewrite fmap_cons. cbn [each_action]. by erewrite bind_ok by reflexivity. Qed.

(** One request fits without the shadow log being enlarged. *)
Lemma add_one_ok s rs : shadow_inv s [] 0 → Forall vent_ok rs → (length rs ≤ 1)%nat → alloc_ok D s → D ≤ ol_ulog (oc_pshadow_ops (ms_ctx s)) →
  ol_capacity (oc_pshadow_ops (ms_ctx s)) = ULOG_BASE_SIZE →
  ∃ s' es t, add_all rs s = (Ok tt, s') ∧ shadow_step D s s' ∧ shadow_inv s' es t ∧ (length es ≤ length rs)%nat ∧ (∀ a, changes es a → changes rs a) ∧
    uops_equiv (vent_op <$> es) (vent_op <$> rs).
Proof using.
  clear. intros Hi Hok Hlen Ha HD Hc. destruct rs as [|r [|]]; [|..|simpl in Hlen; lia]; cbn [add_all].
  - exists s, [], 0%nat. split_and!; try done. apply step_refl.
  - apply Forall_cons_1 in Hok as [Hr _]. destruct (add_entry_ok D s [] 0 r Hi Hr Ha HD ltac:(done)) as (res & s1 & E & Hs & [(-> & es & t & H1 & H2 & H3 & H4)|(-> & _ & Hf)]).
    + erewrite bind_ok by exact E. exists s1, es, t. by split_and!.
    + rewrite (sh_offset _ _ _ Hi), Hc in Hf. done.
Qed.

Lemma inv_mem s s' es t : ms_ctx s' = ms_ctx s → smem s' = smem s → shadow_inv s es t → shadow_inv s' es t.
Proof using. clear. intros Hc Hm []. by split; rewrite ?Hc, ?Hm. Qed.
Lemma pre_ctx s s' es : ms_ctx s' = ms_ctx s → redo_pre D s es → redo_pre D s' es.
Proof using. clear. intros Hc []. by split; rewrite ?Hc. Qed.

(** The context of the lane is started, and nothing has been asked for. *)
Record redo_started (s : mstate) (rs : list vent) : Prop := {
  rs_inv : shadow_inv s [] 0;
  rs_type : oc_type (ms_ctx s) = LOG_TYPE_REDO;
  rs_progress : oc_in_progress (ms_ctx s) = true;
  rs_transient : ol_offset (oc_transient_ops (ms_ctx s)) = 0;
  rs_capacity : ol_capacity (oc_pshadow_ops (ms_ctx s)) = ULOG_BASE_SIZE;
  rs_alloc : alloc_ok D s;
  rs_pre : redo_pre D s rs
}.

Lemma started_redo s rs : ctx_ready s → oc_type (ms_ctx s) = LOG_TYPE_REDO → alloc_ok D s → redo_pre D s rs → redo_started (started s) rs.
Proof using. clear. intros Hr Ht Ha Hp. split; try done; [by apply started_inv|apply Hr|by destruct Hp]. Qed.

Lemma publish_run rs p : redo_started (pa_state p) rs → Forall set_ok rs → (length rs ≤ 1)%nat → (1 < fuel)%nat →
  ∃ t, palloc_publish o layout pop fuel ulog_free push_ok qsort (set_action <$> rs) p = (Ok tt, put_state p t) ∧
    ∀ a, a < D → ¬ (oc_ulog (pa_ctx p) ≤ a < oc_ulog (pa_ctx p) + 64 + oc_ulog_base_nbytes (pa_ctx p)) →
      rd (smem t) a = rd (uops_apply (smem (pa_state p)) (vent_op <$> rs)) a.
Proof using OpsSpec0 Hqsort.
  intros [Hi Ht Hp Htr Hc Ha Hpre] Hrs Hlen Hf.
  assert (qsort (set_action <$> rs) = set_action <$> rs) as Hq.
  { destruct rs as [|r [|]]; [by apply Permutation_nil_r|by apply Permutation_singleton_r|simpl in Hlen; lia]. }
  destruct (add_one_ok (pa_state p) rs Hi) as (t1 & es & k & E1 & Hs1 & Hi1 & Hl1 & Hch & Heq); [eapply Forall_impl; [|exact Hrs]; by intros r []|done|done|apply Hpre|done|].
  destruct (ops_drain (me_pm (ms_env t1))) as (evs & Ed & _).
  set (t2 := MState (MEnv (op_drain o (me_pm (ms_env t1))) (me_alloc (ms_env t1))) (ms_ctx t1)).
  assert (smem t2 = smem t1) as Hm2 by (unfold t2; cbn; by rewrite Ed). destruct (ss_ctx _ _ _ Hs1) as (q & l & Ec).
  destruct (finish_applies o ulog_free push_ok fuel D t2 es k) as (t3 & E3 & Hm3);
    [by apply (inv_mem t1)|by eapply (pre_ctx t1), pre_entries|lia|by cbn; rewrite Ec..|].
  exists t3. split.
  - unfold palloc_publish, palloc_exec_actions. rewrite Hq. erewrite bind_ok by (by apply exec_sets).
    erewrite (bind_ok _ _ _ tt (put_state p t2)) by reflexivity.
    erewrite bind_ok by (apply on_operation_run; rewrite put_pa; exact E3). erewrite bind_ok by apply process_sets. rewrite unlock_sets. by rewrite put_twice.
  - intros a Hlt Hna. rewrite Hm3; [|done|cbn; by rewrite Ec]. rewrite Hm2, (uops_equiv_apply _ _ (smem t1) Heq a). apply apply_at. by apply (ss_pool _ _ _ Hs1).
Qed.
End publish.

(** ** Committing *)

Section commit.
Context {C R : Type} (o : pmem_ops) `{!OpsSpec o}.
Local Abbreviation S := (tx_state C R).
Implicit Types (s : S).
Context (uuid_lo layout : Z) (pop : pool_layout) (fuel : nat) (ulog_free : Z → M pmem unit) (push_ok : nat → bool).
Context (qsort : list pobj_action_internal → list pobj_action_internal) (Hqsort : ∀ l, qsort l ≡ₚ l).
Context (malloc zalloc tls_ok has_remote : bool) (callback : Z → Z → pobj_tx_stage → Z → M S unit).
Local Abbreviation commit := (pmemobj_tx_commit uuid_lo o layout pop fuel ulog_free push_ok qsort malloc zalloc tls_ok has_remote callback).
(** The pool is below [D]. *)
Context (i u cap D : Z) (m0 : mem).

(** The request that ends the undo log. *)
Definition mark : vent := VEnt (ulog_data u) 0 0.
Definition in_redo_log (c : operation_context) (a : Z) : Prop := oc_ulog c ≤ a < oc_ulog c + 64 + oc_ulog_base_nbytes c.

(** The redo context of the lane can be used, and its log and that of the undo context are apart. *)
Record redo_ready (st : mstate) : Prop := {
  rr_ready : ctx_ready st;
  rr_type : oc_type (ms_ctx st) = LOG_TYPE_REDO;
  rr_alloc : alloc_ok D st;
  rr_pre : redo_pre D st [mark];
  rr_set : set_ok pop mark;
  rr_undo : 0 ≤ u ∧ 64 ≤ cap ∧ u + 64 + cap ≤ D;
  rr_apart a : in_undo_log u cap a → ¬ in_redo_log (ms_ctx st) a
}.

Definition pa_with s (c : operation_context) : palloc_state C R :=
  let p := ts_palloc s in PallocState (pa_heap p) c (pa_alloc p) (pa_locks p) (pa_size_allocated p).
Lemma on_external_pa {A} (f : M (palloc_state C R) A) s j l r t : tx_lane_of s = Some (j, l) →
  f (pa_with s (ln_external l)) = (r, put_state (pa_with s (ln_external l)) t) → on_external f s = (r, after_ctx s j (set_external (ms_ctx t) l) t).
Proof using. clear. intros Hl Hf. unfold on_external. rewrite Hl. unfold on_pa. cbn. unfold pa_with in Hf. rewrite Hf. done. Qed.

Lemma redo_pre_nil st : redo_pre D st [mark] → redo_pre D st [].
Proof using. clear. intros []. by split. Qed.

(** Flushing changes nothing. *)
Lemma flush_ranges_mem (l : list dref) : ∀ p : pmem, pm_mem (foldl (λ p d, tx_flush_range o (range_at d) p) p l) = pm_mem p.
Proof using OpsSpec0.
  clear -OpsSpec0. induction l as [|d l IH]; intros p; [done|]. cbn [foldl]. rewrite IH. unfold tx_flush_range. case_match; [|done].
  destruct (ops_flush p (rd_offset (range_at d)) (rd_size (range_at d)) PMEMOBJ_F_RELAXED) as (es & -> & _). done.
Qed.

(** The word that ends the log is in the log: what is behind the snapshots stays. *)
Lemma space_marked m m' snaps rs : undo_log m u cap snaps → (rs = [] ∨ rs = [mark]) →
  (∀ a, in_undo_log u cap a → rd m' a = rd (uops_apply m (vent_op <$> rs)) a) → undo_space m' u cap (log_size snaps).
Proof using.
  clear. intros Hlog Hrs Hm. destruct (log_space _ _ _ _ Hlog) as [P1 P2 P3 P4 P5 P6].
  assert (∀ a, in_undo_log u cap a → rd m' a = rd m a ∨ ulog_data u ≤ a ∧ rd m' a = 0) as Hw.
  { intros a Ha. rewrite Hm by done. destruct Hrs as [->| ->]; [by left|]. change (uops_apply m (vent_op <$> [mark])) with (wr m (ulog_data u) (repeat 0 8)).
    rewrite rd_wr. case_decide; [right|by left]. rewrite nth_repeat. split; [lia|done]. }
  unfold in_undo_log, ulog_data in *. split; [rewrite <-P1|rewrite <-P2|done| |done|done].
  - apply rd64_ext. intros a Ha. destruct (Hw a); lia.
  - apply rd64_ext. intros a Ha. destruct (Hw a); lia.
  - intros a Ha. unfold ulog_data in Ha. destruct (Hw a) as [E|[_ E]]; [lia|rewrite E|done]. apply P4. lia.
Qed.

(** Only the header of the shadow log is read. *)
Lemma redo_ready_mem st st' : ms_ctx st' = ms_ctx st → me_alloc (ms_env st') = me_alloc (ms_env st) → (∀ a, D ≤ a → rd (smem st') a = rd (smem st) a) →
  redo_ready st → redo_ready st'.
Proof using.
  clear. intros Hc Ha Hm [[C1 C2 C3 C4 C5] R2 R3 R4 R5 R6 R7]. pose proof (rp_shadow _ _ _ R4) as HD. split; rewrite ?Hc; try done.
  - split; rewrite ?Hc; try done. etransitivity; [|exact C3]. apply rd64_ext. intros a Hr. apply Hm. lia.
  - unfold alloc_ok. by rewrite Ha.
  - by apply (pre_ctx _ st).
Qed.
Lemma redo_ready_reinit e c : redo_ready (MState e c) → redo_ready (MState e (reinit c)).
Proof using.
  clear. intros [[C1 C2 C3 [q C4] C5] R2 R3 [] R5 R6 R7]. split; try done; split; try done. cbn. exists []. by apply (clear_inv _ q).
Qed.

(** What is left of the outermost transaction after it has been committed. *)
Record committed s s' (c : operation_context) : Prop := {
  cm_stage : tx_stage (ts_tx s') = TX_STAGE_ONCOMMIT;
  cm_errnum : tx_last_errnum (ts_tx s') = tx_last_errnum (ts_tx s);
  cm_lane : tx_lane (ts_tx s') = None;
  cm_ranges : ranges_of s' = None;
  cm_actions : tx_actions (ts_tx s') = [];
  cm_pop : tx_pop (ts_tx s') = tx_pop (ts_tx s);
  cm_locks : tx_locks (ts_tx s') = tx_locks (ts_tx s);
  cm_entries : tx_entries (ts_tx s') = tx_entries (ts_tx s);
  cm_callback : tx_stage_callback (ts_tx s') = tx_stage_callback (ts_tx s);
  cm_held : ts_held s' = ts_held s;
  cm_release : lk_locks (hs_shared (ts_hold s')) = updZ (lk_locks (hs_shared (ts_hold s))) i 0;
  cm_log : undo_log (mem_of s') u cap [];
  cm_mem a : a < D → ¬ in_undo_log u cap a → ¬ in_redo_log c a → rd (mem_of s') a = rd (mem_of s) a
}.

(** The middle part: the redo operation and the end of the undo operation. *)
Lemma publish_finish_run s l snaps : tx_lane_inv i u cap m0 s l snaps → redo_ready (ctx_state s (ln_external l)) → (1 < fuel)%nat →
  ∃ h p, (on_external (on_operation operation_start);; actv ← get_tx tx_actions;
          on_external (palloc_publish o layout pop fuel ulog_free push_ok qsort actv);; tx_post_commit o fuel ulog_free push_ok) s =
      (Ok tt, TxState (set_actions [] (tx_actions_capacity (ts_tx s)) (ts_tx s)) h p (ts_held s) (ts_malloc s)) ∧
    hs_thread h = hs_thread (ts_hold s) ∧ hs_shared h = hs_shared (ts_hold s) ∧ undo_log (mem_of p) u cap [] ∧
    ∀ a, a < D → ¬ in_undo_log u cap a → ¬ in_redo_log (ln_external l) a → rd (mem_of p) a = rd (mem_of s) a.
Proof using OpsSpec0 Hqsort.
  intros [T1 T2 T3 T4 T5 T6 [Hu _ _ _] T8 T9] [R1 R2 R3 R4 R5 (R6 & R8 & R6') R7] Hf.
  erewrite bind_ok by (eapply on_external_run; [exact T1|apply start_run; apply R1]). cbn [ctx_state ms_ctx] in *.
  set (t1 := started (ctx_state s (ln_external l))). set (l1 := set_external (ms_ctx t1) l). set (s1 := after_ctx s i l1 t1).
  assert (tx_lane_of s1 = Some (i, l1)) as Hl1 by (by eapply after_lane).
  erewrite bind_ok by reflexivity. cbn [compose]. change (tx_actions (ts_tx s1)) with (tx_actions (ts_tx s)). rewrite T9.
  assert (∃ rs, (if tx_first_snapshot (ts_tx s) then [] else [palloc_set_value (ulog_data u) 0]) = set_action <$> rs ∧ (rs = [] ∨ rs = [mark])) as (rs & -> & Hrs).
  { destruct (tx_first_snapshot _); [exists []|exists [mark]]; split; (reflexivity || (by left) || (by right)). }
  assert (pa_state (pa_with s1 (ln_external l1)) = t1) as Hps by (by destruct s).
  destruct (publish_run o layout pop fuel ulog_free push_ok qsort Hqsort D rs (pa_with s1 (ln_external l1))) as (t2 & E2 & Hm2).
  { rewrite Hps. apply started_redo; [done..|]. destruct Hrs as [->| ->]; [by eapply redo_pre_nil|done]. }
  { destruct Hrs as [->| ->]; [apply Forall_nil_2|apply Forall_cons_2; [exact R5|apply Forall_nil_2]]. }
  { destruct Hrs as [->| ->]; simpl; lia. } { done. }
  erewrite bind_ok by (eapply (on_external_pa _ s1); [exact Hl1|exact E2]). set (l2 := set_external (ms_ctx t2) l1). set (s2 := after_ctx s1 i l2 t2).
  assert (tx_lane_of s2 = Some (i, l2)) as Hl2 by (by eapply after_lane).
  rewrite Hps in Hm2. change (smem t1) with (mem_of s) in Hm2. change (pa_ctx (pa_with s1 (ln_external l1))) with (ms_ctx t1) in Hm2.
  change (oc_ulog (ms_ctx t1)) with (oc_ulog (ln_external l)) in Hm2. change (oc_ulog_base_nbytes (ms_ctx t1)) with (oc_ulog_base_nbytes (ln_external l)) in Hm2.
  assert (undo_space (mem_of s2) u cap (log_size snaps)) as Hsp.
  { eapply (space_marked (mem_of s)); [apply (ui_log _ _ _ _ Hu)|exact Hrs|]. intros a Ha. apply Hm2; [unfold in_undo_log in Ha; lia|by apply R7]. }
  destruct (undo_clear_run o ulog_free push_ok fuel (ctx_state s2 (ln_undo l2)) u cap (log_size snaps)) as (t3 & E3 & _ & Hlog & Hm3); [done|done|done|apply Hu|done|apply Hu|lia|].
  unfold tx_post_commit. erewrite bind_ok by (by eapply on_undo_run).
  eexists _, _. split; [reflexivity|]. split_and!; [done|done|done|]. intros a Hlt Ha Hna. change (rd (smem t3) a = rd (mem_of s) a). rewrite Hm3 by done.
  change (rd (smem t2) a = rd (mem_of s) a). rewrite Hm2 by done. destruct Hrs as [->| ->]; [done|]. change (uops_apply (mem_of s) (vent_op <$> [mark])) with (wr (mem_of s) (ulog_data u) (repeat 0 8)).
  apply rd_wr_out. change (len (repeat 0 8)) with 8. unfold in_undo_log, ulog_data in *. lia.
Qed.

(** The ranges are flushed and the tree is destroyed. *)
Lemma pre_commit_run s : has_tree s → ∃ p, (tx_pre_commit o;; on_tpm (modify (op_drain o))) s = (Ok tt, with_tpm p (TxState (set_ranges None (ts_tx s)) (ts_hold s) (ts_palloc s) (ts_held s) (ts_malloc s))) ∧
  pm_mem p = mem_of s.
Proof using OpsSpec0.
  intros (rv & t & Hrv & Ht). destruct (delete_spec _ _ _ _ Ht) as (r' & E2 & _).
  set (p1 := foldl (λ p d, tx_flush_range o (range_at d) p) (tx_pm s) (RavlSearch.objects t)). exists (op_drain o p1). split.
  - erewrite bind_ok.
    2: { unfold tx_pre_commit. erewrite bind_ok by (by eapply on_ranges_run). erewrite bind_ok by (apply on_tpm_run; reflexivity). reflexivity. }
    reflexivity.
  - destruct (ops_drain p1) as (es & -> & _). cbn. unfold p1. by rewrite flush_ranges_mem.
Qed.

Lemma commit_run s l snaps env : tx_stage (ts_tx s) = TX_STAGE_WORK → has_tree s → tx_lane_inv i u cap m0 s l snaps → redo_ready (ctx_state s (ln_external l)) →
  tx_entries (ts_tx s) = [env] → tx_stage_callback (ts_tx s) = None → holds_lane uuid_lo i (ts_hold s) → (1 < fuel)%nat →
  ∃ s', commit s = (Ok tt, s') ∧ committed s s' (ln_external l).
Proof using OpsSpec0 Hqsort.
  intros Hst Ht Hl Hr He Hcb Hh Hf. pose proof (tl_lane _ _ _ _ _ _ _ Hl) as [Hi Hll]%lane_of_lookup.
  unfold pmemobj_tx_commit, assert_stage_work. erewrite bind_ok by (erewrite bind_ok by reflexivity; cbn [compose]; by rewrite Hst).
  erewrite bind_ok by (unfold obj_tx_callback; erewrite bind_ok by reflexivity; cbn [compose]; by rewrite Hcb).
  erewrite bind_ok by reflexivity. cbn [compose id]. rewrite Hi, He. destruct (pre_commit_run s Ht) as (p & E1 & Hp).
  apply bind_inv_ok in E1 as ([] & s1 & Ea & Eb). set (s2 := with_tpm p _) in Eb.
  assert (tx_lane_inv i u cap m0 s2 l snaps) as Hl2.
  { destruct Hl as [T1 T2 T3 T4 T5 T6 [[U1 U2 U3 U4 U5 U6] T7b T7c T7d] T8 T9]. split; try done. split; [split; try done|done|done|]; unfold ctx_state, tx_pm; cbn; by rewrite Hp. }
  destruct (publish_finish_run s2 l snaps Hl2) as (h & q & E3 & Hth & Hsh & Hlog & Hm).
  { destruct Hr as [[C1 C2 C3 C4 C5] R2 R3 R4 R5 R6 R7]. split; try done; [split; try done|by destruct R4]. unfold ctx_state, tx_pm. cbn. rewrite Hp. exact C3. }
  { done. }
  destruct (release_lane_run uuid_lo malloc zalloc tls_ok has_remote i (TxState (set_actions [] (tx_actions_capacity (ts_tx s2)) (ts_tx s2)) h q (ts_held s2) (ts_malloc s2))) as (h' & E4 & Hk).
  { unfold holds_lane. cbn [ts_hold]. by rewrite Hth, Hsh. }
  erewrite bind_ok.
  2: { erewrite bind_ok by exact Ea. erewrite bind_ok by exact Eb. apply bind_inv_ok in E3 as (x3 & s3 & Ec & E3). erewrite bind_ok by exact Ec.
       apply bind_inv_ok in E3 as (x4 & s4 & Ed & E3). erewrite bind_ok by exact Ed. apply bind_inv_ok in E3 as (x5 & s5 & Ee & E3). erewrite bind_ok by exact Ee.
       erewrite bind_ok by exact E3. exact E4. }
  erewrite bind_ok by reflexivity. unfold obj_tx_callback. erewrite bind_ok by reflexivity. cbn. rewrite Hcb.
  eexists. split; [reflexivity|]. split; try done. 
  - cbn. by rewrite Hk; cbn; rewrite Hsh.
  - intros a Ha H1 H2. change (rd (mem_of q) a = rd (mem_of s) a). rewrite Hm by done. change (mem_of s2) with (pm_mem p). by rewrite Hp.
Qed.
End commit.

(** * libpmemobj: beginning a transaction

    [pmemobj_tx_begin] outside of a transaction, with locks: it takes a lane that nobody holds, starts the undo operation of the lane and takes
    the locks; the result is a transaction in progress as [TxProgram.v] has it, with nothing added. *)

Definition lane_log (l : lane) : Z := Lane.lane_undo (ln_layout l).

(** A lane between transactions. *)
Record lane_idle (m : mem) (l : lane) : Prop := {
  ld_ready : undo_ready (MState (MEnv (Pmem.Pmem m []) []) (ln_undo l)) (lane_log l) LANE_UNDO_SIZE;
  ld_log : undo_log m (lane_log l) LANE_UNDO_SIZE [];
  ld_redo : sizeof_ulog_entry_val ≤ oc_ulog_capacity (ln_external l)
}.

Section begin.
Context {C R : Type}.
Local Abbreviation S := (tx_state C R).
Implicit Types (s : S).
Context (pool uuid_lo : Z) (o : pmem_ops) (layout : Z) (pop : pool_layout) (fuel : nat) (ulog_free : Z → M pmem unit) (push_ok : nat → bool).
Context (malloc zalloc tls_ok has_remote : bool) (txr_malloc : Z → bool) (os_lock : Z → Z) (callback : Z → Z → pobj_tx_stage → Z → M S unit).
Local Abbreviation tx_begin := (pmemobj_tx_begin pool uuid_lo o layout fuel ulog_free push_ok malloc zalloc tls_ok has_remote txr_malloc os_lock callback).

(** ** The locks *)

Definition lock_param (k : tx_lock_data) : tx_param := ParamLock (txl_type k) (txl_lock k).
Definition lock_set (l : list tx_lock_data) : gset Z := list_to_set (txl_lock <$> l).

(** The state with other locks. *)
Definition with_locks_held (l : list tx_lock_data) (held : gset Z) (ml : list bool) s : S := TxState (set_tx_locks l (ts_tx s)) (ts_hold s) (ts_palloc s) held ml.

(** Locks that can be taken. *)
Record free_locks s (l : list tx_lock_data) : Prop := {
  fl_once : NoDup (txl_lock <$> l);
  fl_types : Forall (λ k, is_lock_type (txl_type k) = true ∧ os_lock (txl_lock k) = 0) l;
  fl_new : ∀ k, k ∈ txl_lock <$> l → k ∉ ts_held s ∧ k ∉ txl_lock <$> tx_locks (ts_tx s)
}.

Lemma lock_run s k : is_lock_type (txl_type k) = true → os_lock (txl_lock k) = 0 → txl_lock k ∉ ts_held s → txl_lock k ∉ txl_lock <$> tx_locks (ts_tx s) →
  Forall (eq true) (ts_malloc s) →
  add_to_tx_and_lock os_lock (txl_type k) (txl_lock k) s = (Ok 0, with_locks_held (k :: tx_locks (ts_tx s)) ({[txl_lock k]} ∪ ts_held s) (tail (ts_malloc s)) s).
Proof using.
  clear. intros Ht Ho Hh Hl Hm. unfold add_to_tx_and_lock. erewrite bind_ok by reflexivity. cbn [compose].
  assert (existsb (λ txl, txl_lock txl =? txl_lock k) (tx_locks (ts_tx s)) = false) as ->.
  { apply not_true_is_false. intros (x & Hx & E%Z.eqb_eq)%existsb_exists. apply Hl, list_elem_of_fmap. exists x. split; [done|by apply list_elem_of_In]. }
  erewrite bind_ok by (by apply malloc_run). cbn [negb]. rewrite Ht. cbn [negb].
  erewrite bind_ok by (unfold pmemobj_lock; cbn [ts_held]; rewrite decide_False, Ho by done; reflexivity).
  erewrite bind_ok by reflexivity. by destruct k.
Qed.

Lemma params_run l : ∀ s, free_locks s l → Forall (eq true) (ts_malloc s) → ∃ ml, Forall (eq true) ml ∧
  params_loop os_lock (lock_param <$> l) s = (Ok 0, with_locks_held (rev l ++ tx_locks (ts_tx s)) (lock_set l ∪ ts_held s) ml s).
Proof using.
  clear. induction l as [|k l IH]; intros s [Hn Ht Hnew] Hm.
  { exists (ts_malloc s). split; [done|]. cbn. unfold with_locks_held, lock_set. cbn. rewrite (left_id_L ∅ (∪)). by destruct s as [[] ? ? ? ?]. }
  rewrite !fmap_cons in *. pose proof (NoDup_cons_1_1 _ _ Hn) as Hk. apply NoDup_cons_1_2 in Hn. apply Forall_cons_1 in Ht as [[Ht Ho] Hts].
  destruct (Hnew (txl_lock k)) as [Hh Hl]; [by left|]. cbn [params_loop lock_param].
  erewrite bind_ok by (by apply lock_run). change (0 =? 0) with true. cbv iota.
  destruct (IH (with_locks_held (k :: tx_locks (ts_tx s)) ({[txl_lock k]} ∪ ts_held s) (tail (ts_malloc s)) s)) as (ml & Hml & E).
  - split; [done|done|]. intros x Hx. destruct (Hnew x) as [H1 H2]; [by right|]. cbn. set_solver.
  - cbn. by destruct Hm.
  - exists ml. split; [done|]. rewrite E. unfold with_locks_held, lock_set. cbn. rewrite <-app_assoc. do 2 f_equal. set_solver.
Qed.

(** ** The lane *)

Lemma reinit_idle m l : lane_idle m l → lane_idle m (reinit_lane l).
Proof using. clear. intros [[]]. by split. Qed.

(** No transaction is running, the thread holds no lane, one is free, and all lanes are between transactions. *)
Record tx_idle s : Prop := {
  ti_stage : tx_stage (ts_tx s) = TX_STAGE_NONE;
  ti_callback : tx_stage_callback (ts_tx s) = None;
  ti_lanes : Forall (lane_idle (mem_of s)) (hs_lanes (ts_hold s));
  ti_malloc : Forall (eq true) (ts_malloc s);
  ti_threads : ∃ next n ths d t a inf, 0 < n < 2 ^ 32 ∧ rtc lane_step (sys_boot next n) (Sys (hs_shared (ts_hold s)) ths d) ∧
    Z.of_nat (length (hs_lanes (ts_hold s))) = n ∧ n ≤ Z.of_nat fuel ∧ cached (hs_thread (ts_hold s)) uuid_lo a inf ∧ ths !! t = Some (false, inf) ∧
    li_nest_count inf = 0 ∧ ∃ f, lookupZ (lk_locks (hs_shared (ts_hold s))) f = Some 0
}.

Lemma take_lane s : tx_idle s →
  ∃ i l h, on_hold (lane_hold malloc zalloc tls_ok fuel uuid_lo has_remote true) s = (Ok i, TxState (ts_tx s) h (ts_palloc s) (ts_held s) (ts_malloc s)) ∧
    lookupZ (hs_lanes (ts_hold s)) i = Some l ∧ lookupZ (hs_lanes h) i = Some (reinit_lane l) ∧ lookupZ (lk_locks (hs_shared (ts_hold s))) i = Some 0 ∧
    lk_locks (hs_shared h) = updZ (lk_locks (hs_shared (ts_hold s))) i 1 ∧ holds_lane uuid_lo i h.
Proof using.
  clear. intros [_ _ _ _ (next & n & ths & d & t & a & inf & Hn & Hs & Hl & Hf & Hc & Ht & H0 & Hfree)].
  destruct (hold_returns malloc zalloc tls_ok fuel uuid_lo has_remote true next n (ts_hold s) ths d t a inf) as (inf' & h & E & Hi & Hc' & Hla & Hnest & Hst & Hk); try done.
  { rewrite H0. unfold UINT64_MAX. lia. }
  rewrite H0 in Hk, Hnest. change (0 =? 0) with true in Hk. cbv iota in Hk. destruct Hk as [Hk0 Hk1].
  destruct (lookupZ_is_Some (hs_lanes (ts_hold s)) (li_lane_idx inf')) as [l Hll]; [lia|].
  exists (li_lane_idx inf'), l, h. split_and!; [by unfold on_hold; rewrite E|done| |done|done|].
  - rewrite Hla. unfold hold_lanes. rewrite Hll, Hnest. change (true && (0 + 1 =? 1)) with true. cbv iota. rewrite lookupZ_updZ_eq; [done|]. lia.
  - exists a, inf'. split_and!; try done; [|unfold UINT64_MAX; lia|].
    + assert (rtc lane_step (sys_boot next n) (Sys (hs_shared h) (<[t := (false, inf')]> ths) d)) as Hr by (by etrans).
      destruct (reachable_inv next n _ ltac:(lia) Hr) as (_ & _ & Hnl). cbn in Hnl. lia.
    + rewrite Hk1, lookupZ_updZ_eq; [done|]. by apply lookupZ_Some in Hk0.
Qed.

(** ** Beginning *)

(** The locks of a transaction: each is there once, is held, and is of a type that can be released. *)
Record locks_ok s : Prop := {
  lo_once : NoDup (txl_lock <$> tx_locks (ts_tx s));
  lo_held : Forall (λ k, txl_lock k ∈ ts_held s ∧ is_lock_type (txl_type k) = true) (tx_locks (ts_tx s))
}.

(** A transaction that has just begun on the lane [i] with the log at [u]. *)
Record begun (i u : Z) (env : bool) (locks : list tx_lock_data) s s' : Prop := {
  bg_work : tx_work pop i u LANE_UNDO_SIZE (mem_of s) 0 s' [] [];
  bg_entries : tx_entries (ts_tx s') = [env];
  bg_pop : tx_pop (ts_tx s') = pool;
  bg_callback : tx_stage_callback (ts_tx s') = None;
  bg_lane : holds_lane uuid_lo i (ts_hold s');
  bg_lanes : lk_locks (hs_shared (ts_hold s')) = updZ (lk_locks (hs_shared (ts_hold s))) i 1;
  bg_locks : tx_locks (ts_tx s') = rev locks;
  bg_ok : locks_ok s';
  bg_held : ts_held s' = lock_set locks ∪ ts_held s;
  bg_mem : mem_of s' = mem_of s;
  bg_errnum : tx_last_errnum (ts_tx s') = 0
}.

Lemma entry_run s env locks : tx_locks (ts_tx s) = [] → free_locks s locks → Forall (eq true) (ts_malloc s) → ∃ ml, Forall (eq true) ml ∧
  tx_begin_entry uuid_lo o layout fuel ulog_free push_ok malloc zalloc tls_ok has_remote txr_malloc os_lock callback env (lock_param <$> locks) s =
    (Ok 0, TxState (set_tx_locks (rev locks) (set_stage TX_STAGE_WORK (set_entries (env :: tx_entries (ts_tx s)) (set_errnum 0 (ts_tx s))))) (ts_hold s) (ts_palloc s)
             (lock_set locks ∪ ts_held s) ml).
Proof using.
  intros Hl0 Hk Hm. unfold tx_begin_entry. erewrite bind_ok by (by apply malloc_run). cbn [negb]. erewrite bind_ok by reflexivity.
  destruct (params_run locks (TxState (set_stage TX_STAGE_WORK (set_entries (env :: tx_entries (ts_tx s)) (set_errnum 0 (ts_tx s)))) (ts_hold s) (ts_palloc s) (ts_held s) (tail (ts_malloc s))))
    as (ml & Hml & E); [by destruct Hk|by destruct Hm|].
  exists ml. split; [done|]. erewrite bind_ok by exact E. change (0 =? 0) with true. cbv iota. unfold with_locks_held. cbn [ts_tx tx_locks set_stage set_entries set_errnum].
  rewrite Hl0, app_nil_r. done.
Qed.

Lemma new_locks_ok locks (held : gset Z) s : free_locks s locks → NoDup (txl_lock <$> rev locks) ∧ Forall (λ k, txl_lock k ∈ lock_set locks ∪ held ∧ is_lock_type (txl_type k) = true) (rev locks).
Proof using.
  clear. intros [H1 H2 _]. split.
  - assert (txl_lock <$> rev locks ≡ₚ txl_lock <$> locks) as ->; [by rewrite <-Permutation_rev|done].
  - rewrite Forall_forall in H2 |- *. intros k Hk. assert (k ∈ locks) as Hin by (by apply list_elem_of_In, in_rev).
    split; [|by apply (H2 k), list_elem_of_In]. apply elem_of_union_l, elem_of_list_to_set, list_elem_of_fmap. by exists k.
Qed.

Lemma begin_run range_malloc s env locks : tx_idle s → free_locks (with_locks_held [] (ts_held s) (ts_malloc s) s) locks → Forall (eq true) range_malloc →
  ∃ i l s', tx_begin range_malloc pool env (lock_param <$> locks) s = (Ok 0, s') ∧ lookupZ (hs_lanes (ts_hold s)) i = Some l ∧
    lookupZ (lk_locks (hs_shared (ts_hold s))) i = Some 0 ∧ begun i (lane_log l) env locks s s' ∧
    pa_alloc (ts_palloc s') = pa_alloc (ts_palloc s) ∧ ln_external <$> lookupZ (hs_lanes (ts_hold s')) i = Some (reinit (ln_external l)).
Proof using.
  intros Hid Hk Hrm. pose proof Hid as [Hst Hcb Hla Hm _]. destruct (take_lane s Hid) as (i & l & h & E1 & Hl & Hl' & Hi0 & Hi1 & Hh).
  exists i, l. assert (lane_idle (mem_of s) l) as Hli by (by eapply lookupZ_Forall).
  apply reinit_idle in Hli. set (l1 := reinit_lane l) in *. destruct Hli as [Hr Hlog Hred].
  set (s1 := TxState (set_lane (Some i) (ts_tx s)) h (ts_palloc s) (ts_held s) (ts_malloc s)).
  assert (tx_lane_of s1 = Some (i, l1)) as Hlo by (unfold tx_lane_of; cbn; by rewrite Hl').
  unfold pmemobj_tx_begin. erewrite bind_ok by reflexivity. cbn [compose id]. rewrite Hst.
  unfold tx_begin_outermost. rewrite Z.eqb_refl. cbn [negb].
  assert (∃ rv, ravl_new_sized sizeof_tx_range_def range_malloc = Some rv ∧ ranges_rep 0 rv []) as (rv & Erv & Hrv).
  { destruct Hrm as [|b rm <- Hrm]; (eexists; split; [reflexivity|]).
    - destruct (new_spec tx_range_def_cmp sizeof_tx_range_def [] _ eq_refl false) as (H1 & H2 & _ & H3). exists Leaf. by split_and!.
    - destruct (new_spec tx_range_def_cmp sizeof_tx_range_def (true :: rm) _ eq_refl false) as (H1 & H2 & _ & H3). exists Leaf. by split_and!. }
  erewrite bind_ok.
  2: { erewrite bind_ok by exact E1. erewrite bind_ok by reflexivity. fold s1.
       erewrite bind_ok by (eapply (on_undo_run _ s1); [exact Hlo|apply start_run; apply (ur_idle _ _ _ Hr)]). erewrite bind_ok by reflexivity. rewrite Erv. reflexivity. }
  cbv beta iota. set (c := started _). set (s2 := TxState _ _ _ _ _).
  destruct (entry_run s2 env locks) as (ml & Hml & E); [done|by destruct Hk|done|].
  rewrite E. eexists. split; [reflexivity|]. split; [done|]. split; [done|]. destruct (new_locks_ok locks (ts_held s) _ Hk) as [Hk1 Hk2].
  split; [|split; [done|]].
  2: { apply lookupZ_Some in Hl'. cbn. by rewrite lookupZ_updZ_eq. }
  split; [|done|done|done|done|done|done|by split|done|done|done].
  split; [done|by exists rv|by split; constructor| |by intros a Ha%Exists_nil|by intros a Ha%Exists_nil].
  split; [|by split_and!; [constructor|..]]. exists (set_undo (ms_ctx c) l1), []. split; [|done]. split; try done.
  - exact (after_lane s1 i l1 (set_undo (ms_ctx c) l1) c Hlo).
  - exact (ur_type _ _ _ Hr).
  - exact (ur_nbytes _ _ _ Hr).
  - apply (tx_start (lane_log l) LANE_UNDO_SIZE (ctx_state s1 (ln_undo l1))); [|exact Hlog]. by destruct Hr.
Qed.
End begin.
