(* ===== verification/TxExample.v ===== *)
(** * libpmemobj: a pool with one lane

    The state that the theorems on transactions are instantiated with: nothing is running, the one lane of the pool is free, and its logs are empty.
    At the end, runs from it that go wrong. *)

From stdpp Require Import base gmap list numbers.
From S2P Require Import Prelude Memory Pmem Util Ulog UlogSpec UlogTheorems Ravl Vecq Container ContainerSeglists ContainerRavl Memops MemopsMerge MemopsCrash MemopsExample MemopsTheorems MemopsTx.
From S2P Require Import Lane LaneHold LaneHoldTheorems Memblock Heap HeapExample HeapRun Palloc PallocTheorems Tx TxProgram TxCommit.
Local Open Scope Z_scope.

Definition ex_layout : Z := 4096.
Definition ex_tx_heap : pool_layout := PoolLayout 65536 1048576 4096 1 2048 2056.
(** The headers of the logs and of the shadow log, which is above the pool, and an object. *)
Definition ex_tx_mem : mem :=
  wr (wr64 (wr64 (wr64 ∅ (lane_external ex_layout + 16) LANE_REDO_EXTERNAL_SIZE) (Lane.lane_undo ex_layout + 16) LANE_UNDO_SIZE) 2100016 LANE_REDO_EXTERNAL_SIZE)
    70000 [11; 12; 13; 14].
Definition ex_context_of (ulog size : Z) (type : log_type) : operation_context :=
  match (operation_new 3 ulog size type (MEnv (Pmem.Pmem ex_tx_mem []) (Some <$> [1900000; 2000000; 2100000]))).1 with Ok (Some c) => c | _ => no_ctx end.
Definition ex_tx_lane : lane :=
  Lane ex_layout no_ctx (ex_context_of (lane_external ex_layout) LANE_REDO_EXTERNAL_SIZE LOG_TYPE_REDO)
    (ex_context_of (Lane.lane_undo ex_layout) LANE_UNDO_SIZE LOG_TYPE_UNDO).

Definition no_tx : tx := Tx 0 TX_STAGE_NONE 0 None [] [] None [] 0 None false.
Definition ex_idle : tx_state block_container_ravl block_container_seglists :=
  TxState no_tx (HoldState (ex_thread ex_record) (LaneShared [0] 0 1) [ex_tx_lane])
    (PallocState (with_pm (Pmem.Pmem ex_tx_mem []) (pa_heap ex_palloc)) no_ctx [] ∅ 0) ∅ [].

Definition no_callback {S} : Z → Z → pobj_tx_stage → Z → M S unit := λ _ _ _ _, mret tt.

Lemma ex_lane_idle : lane_idle ex_tx_mem ex_tx_lane.
Proof.
  split; [split; vm_compute; (reflexivity || discriminate)| |vm_compute; discriminate].
  split; [vm_compute; reflexivity..|done|vm_compute; discriminate| |unfold LANE_UNDO_SIZE; lia|by exists 32]. cbn [log_size]. intros a Ha.
  apply (zero_outside ex_tx_mem (λ k, (k <? 5120) || (7168 <=? k))); [vm_compute; reflexivity|].
  change (ulog_data (lane_log ex_tx_lane)) with 5120 in Ha. unfold LANE_UNDO_SIZE in Ha. apply orb_false_iff. lia.
Qed.

Lemma ex_tx_idle : tx_idle 7 40 ex_idle.
Proof.
  split; [done|done|by repeat constructor; apply ex_lane_idle|by constructor|].
  exists 0, 1, {[0%nat := (false, ex_record)]}, ∅, 0%nat, 1, ex_record. split_and!; try done; [|by exists 0].
  eapply rtc_l; [by apply (step_record _ _ _ 0%nat ex_record)|]. apply rtc_refl.
Qed.

(** A mutex in the object, and a program that changes what is around it. *)
Definition ex_lock : tx_lock_data := TxLockData 70016 TX_PARAM_MUTEX.
Definition ex_prog : list tx_op := [TxAddRange 70000 100; TxAssign 70000 [1; 2]; TxAddRange 70050 100; TxAssign 70120 [3]].

Lemma ex_prog_ok : prog_ok ex_tx_heap (λ _, False) 0 LANE_UNDO_SIZE ex_prog.
Proof. cbn [prog_ok ex_prog length]. unfold LANE_UNDO_SIZE. split_and!; try lia; try (split; cbn; unfold PMEMOBJ_MAX_ALLOC_SIZE; lia); intros a Ha; cbn in Ha; lia. Qed.

Lemma ex_free_locks locks : NoDup (txl_lock <$> locks) → Forall (λ k, is_lock_type (txl_type k) = true) locks →
  free_locks (λ _, 0) (with_locks_held [] (ts_held ex_idle) (ts_malloc ex_idle) ex_idle) locks.
Proof. intros H1 H2. split; [done|eapply Forall_impl; [|exact H2]; done|]. intros k _. split; cbn; [apply not_elem_of_empty|apply not_elem_of_nil]. Qed.

Lemma ex_apart l a : l ∈ hs_lanes (ts_hold ex_idle) →
  pl_heap_offset ex_tx_heap ≤ a < pl_heap_offset ex_tx_heap + pl_heap_size ex_tx_heap → ¬ in_undo_log (lane_log l) LANE_UNDO_SIZE a.
Proof. intros ->%list_elem_of_singleton Ha. change (lane_log ex_tx_lane) with 5056. unfold in_undo_log, LANE_UNDO_SIZE. cbn in Ha. lia. Qed.

Lemma ex_redo_ready l : l ∈ hs_lanes (ts_hold ex_idle) → redo_ready ex_tx_heap (lane_log l) LANE_UNDO_SIZE 1200000 (ctx_state ex_idle (ln_external l)).
Proof.
  intros ->%list_elem_of_singleton. change (lane_log ex_tx_lane) with 5056. split.
  - split; [vm_compute; reflexivity..| |left; vm_compute; reflexivity]. exists []. apply init_inv.
  - vm_compute. reflexivity.
  - intros a Ha. by apply elem_of_nil in Ha.
  - split; [lia|vm_compute; discriminate|split; vm_compute; discriminate|vm_compute; discriminate|..]; repeat constructor; vm_compute; (discriminate || (right; discriminate)).
  - split; [|by split]. split; [change (ve_ptr (mark 5056)) with 5120; lia|by exists 640|by cbn|by cbn].
  - unfold LANE_UNDO_SIZE. lia.
  - intros a Ha Hb. unfold in_undo_log, in_redo_log in *. change (oc_ulog _) with 4352 in Hb. change (oc_ulog_base_nbytes _) with 640 in Hb. lia.
Qed.

(** * libpmemobj: runs of transactions that go wrong

    Concrete runs from the state of [TxExample.v]: a lock that cannot be taken, no memory for the first entry, and ranges with different flags side by side. *)

Definition EINVAL_lock (_ : Z) : Z := 22.
Local Abbreviation begin_with os_lock := (pmemobj_tx_begin 1 7 clflush_ops 4096 40 no_free no_push true true true false (λ _, true) os_lock no_callback [] 1 false).
Local Abbreviation end_tx := (pmemobj_tx_end 7 clflush_ops 4096 40 no_free no_push true true true false (λ _, true) no_callback).
Local Abbreviation add_direct := (pmemobj_tx_add_range_direct 7 clflush_ops 4096 ex_tx_heap 40 no_free no_push None None true true true false (λ _, true) no_callback).
Local Abbreviation xadd_direct := (pmemobj_tx_xadd_range_direct 7 clflush_ops 4096 ex_tx_heap 40 no_free no_push None None true true true false (λ _, true) no_callback).

(** A transaction that cannot take its lock is aborted with the error, but the lock is on its list: ending it unlocks a lock that is not held. *)
Theorem failed_lock_is_unlocked : let s := (begin_with EINVAL_lock [lock_param ex_lock] ex_idle).2 in
  (begin_with EINVAL_lock [lock_param ex_lock] ex_idle).1 = Ok 22 ∧ tx_locks (ts_tx s) = [ex_lock] ∧ ts_held s = ∅ ∧ (end_tx s).1 = Undef.
Proof. split_and!; vm_compute; reflexivity. Qed.

(** Without memory for the first entry, [pmemobj_tx_begin] leaves the lane locked and no entry, and ending the transaction reads through [NULL]. *)
Theorem begin_out_of_memory_dangles :
  let s0 := TxState (ts_tx ex_idle) (ts_hold ex_idle) (ts_palloc ex_idle) (ts_held ex_idle) [false] in
  let s := (begin_with (λ _, 0) [] s0).2 in
  (begin_with (λ _, 0) [] s0).1 = Ok ENOMEM ∧ tx_stage (ts_tx s) = TX_STAGE_ONABORT ∧ tx_entries (ts_tx s) = [] ∧
  lk_locks (hs_shared (ts_hold s)) = [1] ∧ (end_tx s).1 = Undef.
Proof. split_and!; vm_compute; reflexivity. Qed.

(** A range that is added behind one with [POBJ_FLAG_NO_FLUSH] becomes a part of it: committing flushes nothing. *)
Theorem merged_range_not_flushed :
  let x := (begin_with (λ _, 0) [];; xadd_direct 70000 100 POBJ_FLAG_NO_FLUSH;; add_direct 70100 100) ex_idle in
  x.1 = Ok 0 ∧ (on_ranges ravl_delete_cb x.2).1 = Ok [Own (range_bytes (TxRangeDef 70000 200 POBJ_FLAG_NO_FLUSH))] ∧
  pm_evs (tx_pm (tx_pre_commit clflush_ops x.2).2) = pm_evs (tx_pm x.2).
Proof. split_and!; vm_compute; reflexivity. Qed.
