(* ===== verification/TxStages.v ===== *)
(** * libpmemobj: the stages of a transaction

    A transaction that is being worked on has a lane and an entry for every level; the outermost one gives the lane back when it leaves that stage, the others keep it.
    Every call that returns keeps it so.  The operations on ranges and objects do not touch the stage, the entries or the lane, unless they abort:
    this is found out for each of them by composition. *)

From stdpp Require Import base gmap list numbers.
From S2P Require Import Prelude Memory Pmem Util Ulog Ravl Memops MemopsExample MemopsTheorems Lane LaneHold Memblock Heap HeapRun Palloc Tx TxCommit TxExample.
Local Open Scope Z_scope.

(** ** Calls *)

Inductive tx_call : Type :=
| CallBegin (range_malloc : list bool) (p : Z) (env : bool) (params : list tx_param)
| CallLock (type : pobj_tx_param) (lock : Z)
| CallAbort (errnum : Z)
| CallCommit
| CallEnd
| CallProcess
| CallAddRange (oid : PMEMoid) (hoff size : Z)
| CallXaddRange (oid : PMEMoid) (hoff size flags : Z)
| CallAddRangeDirect (ptr size : Z)
| CallXaddRangeDirect (ptr size flags : Z)
| CallAlloc (size type_num : Z)
| CallZalloc (size type_num : Z)
| CallXalloc (size type_num flags : Z)
| CallRealloc (oid : PMEMoid) (size type_num : Z)
| CallZrealloc (oid : PMEMoid) (size type_num : Z)
| CallStrdup (s : option (list Z)) (type_num : Z)
| CallWcsdup (s : option (list Z)) (type_num : Z)
| CallFree (oid : PMEMoid)
| CallPublish (actv : list pobj_action_internal).

(** The stage, the entries and the lane fit together. *)
Definition tx_wf (t : tx) : Prop :=
  match tx_stage t, tx_entries t with
  | TX_STAGE_WORK, es => es ≠ [] ∧ tx_lane t ≠ None
  | st, [] => st = TX_STAGE_NONE ∧ tx_lane t = None
  | _, [_] => tx_lane t = None
  | _, _ => tx_lane t ≠ None
  end.

Create HintDb stages.

Section stages.
Context {C R : Type}.
Local Abbreviation S := (tx_state C R).
Implicit Types (s : S).

(** *** Functions that leave the stage, the entries and the lane alone *)

Definition core s : pobj_tx_stage * list bool * option Z := (tx_stage (ts_tx s), tx_entries (ts_tx s), tx_lane (ts_tx s)).
Definition steady {A} (f : M S A) : Prop := ∀ s a s', f s = (Ok a, s') → core s' = core s.
(** Functions that keep the transaction well formed. *)
Definition keeps {A} (f : M S A) : Prop := ∀ s a s', tx_wf (ts_tx s) → f s = (Ok a, s') → tx_wf (ts_tx s').

Lemma wf_core s s' : core s' = core s → tx_wf (ts_tx s) → tx_wf (ts_tx s').
Proof. unfold core, tx_wf. by intros [= -> -> ->]. Qed.
Lemma steady_keeps {A} (f : M S A) : steady f → keeps f.
Proof. intros Hf s a s' Hw E. by eapply wf_core, Hw; eapply Hf. Qed.

Lemma steady_ret {A} (a : A) : steady (mret a).
Proof. by intros s b s' [= <- <-]. Qed.
Lemma steady_undef {A} : steady (@undef S A).
Proof. by intros s b s'. Qed.
Lemma steady_fail {A} e : steady (@fail S A e).
Proof. by intros s b s'. Qed.
Lemma steady_bind {A B} (f : M S A) (k : A → M S B) : steady f → (∀ a, steady (k a)) → steady (x ← f; k x).
Proof. intros Hf Hk s b s' E. apply bind_inv_ok in E as (a & s1 & E1 & E2). etransitivity; [by eapply Hk|by eapply Hf]. Qed.
Lemma steady_reads {A} (f : S → res A) : steady (λ s, (f s, s)).
Proof. by intros s b s' [= _ <-]. Qed.
Lemma steady_get {A} (f : tx → A) : steady (get_tx f).
Proof. by intros s b s' [= _ <-]. Qed.
Lemma steady_mod f : (∀ t, tx_stage (f t) = tx_stage t ∧ tx_entries (f t) = tx_entries t ∧ tx_lane (f t) = tx_lane t) → steady (mod_tx f).
Proof. intros Hf s b s' [= _ <-]. unfold core. cbn. by destruct (Hf (ts_tx s)) as (-> & -> & ->). Qed.
Lemma steady_hold {A} (f : M hold_state A) : steady (on_hold f).
Proof. intros s b s'. unfold on_hold. destruct (f _). by intros [= _ <-]. Qed.
Lemma steady_pa {A} (f : M (palloc_state C R) A) : steady (on_pa f).
Proof. intros s b s'. unfold on_pa. destruct (f _). by intros [= _ <-]. Qed.
Lemma steady_tpm {A} (f : M pmem A) : steady (on_tpm f).
Proof. apply steady_pa. Qed.
Lemma steady_look {A} (f : M mem A) : steady (look f).
Proof. by intros s b s' [= _ <-]. Qed.
Lemma steady_malloc : steady Malloc_tx.
Proof. by intros s b s' [= _ <-]. Qed.
Lemma steady_lane {A} (f : Z * lane → res A) : steady (λ s, match tx_lane_of s with Some x => (f x, s) | None => (Undef, s) end).
Proof. intros s b s'. destruct (tx_lane_of s); by intros [= _ <-]. Qed.
Lemma steady_external {A} (f : M (palloc_state C R) A) : steady (on_external f).
Proof.
  intros s b s'. unfold on_external. destruct (tx_lane_of s) as [[i l]|]; [|done]. destruct (on_pa f _) as [r s1] eqn:E. intros [= -> <-].
  apply (steady_pa f) in E. exact E.
Qed.
Lemma steady_undo {A} (f : M mstate A) : steady (on_undo f).
Proof.
  intros s b s'. unfold on_undo. destruct (tx_lane_of s) as [[i l]|]; [|done]. destruct (on_pa _ _) as [r s1] eqn:E. intros [= -> <-].
  apply (steady_pa (on_operation f)) in E. exact E.
Qed.
Lemma steady_ranges {A} (f : M ravl A) : steady (on_ranges f).
Proof. intros s b s'. unfold on_ranges. destruct (tx_ranges _); [|done]. destruct (f _). by intros [= _ <-]. Qed.
Lemma steady_lock l os_lock : steady (pmemobj_lock os_lock l).
Proof. intros s b s'. unfold pmemobj_lock. repeat case_match; by intros [= _ <-]. Qed.
Lemma steady_unlock l : steady (pmemobj_unlock l).
Proof. intros s b s'. unfold pmemobj_unlock. repeat case_match; by intros [= _ <-]. Qed.

(** *** The operations *)

Context (pool uuid_lo : Z) (p_ops : pmem_ops) (layout sizep nlocks : Z) (pop : pool_layout) (padding : list Z) (alloc_pattern : Z).
Context (util_pool_extend : Z → M pmem (option Z)) (locked : Z → bool) (growsize : Z) (fuel : nat).
Context (ulog_free : Z → M pmem unit) (push_ok : nat → bool) (redo_extend undo_extend : option (Z → M pmem unit)).
Context (qsort : list pobj_action_internal → list pobj_action_internal) (malloc zalloc tls_ok has_remote : bool).
Context (txr_malloc : Z → bool) (os_lock : Z → Z) (callback : Z → Z → pobj_tx_stage → Z → M S unit).
(** The callback of the user does not call into the transaction. *)
Context (Hcallback : ∀ cb p st arg, steady (callback cb p st arg)).

Hint Resolve steady_ret steady_undef steady_fail steady_get steady_hold steady_pa steady_tpm steady_look steady_malloc steady_external steady_undo steady_ranges
  steady_lock steady_unlock : stages.
Hint Extern 1 (steady (mod_tx _)) => (apply steady_mod; done) : stages.
Hint Extern 1 (steady (λ s, match tx_lane_of s with _ => _ end)) =>
  (intros ? ? ?; destruct (tx_lane_of _) as [[? ?]|]; by intros [= _ <-]) : stages.
Ltac steady := repeat (first [apply steady_bind; [|intros ?] | case_match | solve [eauto with stages] | progress cbv zeta]).

Lemma steady_inc_back : steady VEC_INC_BACK.
Proof. unfold VEC_INC_BACK. steady. Qed.
Lemma steady_back_put a : steady (VEC_BACK_put a).
Proof. unfold VEC_BACK_put. steady. Qed.
Lemma steady_pop_back : steady VEC_POP_BACK.
Proof. unfold VEC_POP_BACK. steady. Qed.
Lemma steady_erase n : steady (VEC_ERASE_BY_PTR n).
Proof. unfold VEC_ERASE_BY_PTR. steady. Qed.
Hint Resolve steady_inc_back steady_back_put steady_pop_back steady_erase : stages.
Lemma steady_action_add : steady (tx_action_add fuel redo_extend).
Proof. unfold tx_action_add. steady. Qed.
Lemma steady_add_lock type lock : steady (add_to_tx_and_lock os_lock type lock).
Proof. unfold add_to_tx_and_lock. steady. Qed.
Hint Resolve steady_action_add steady_add_lock : stages.
Lemma steady_params l : steady (params_loop os_lock l).
Proof. induction l as [|[] l IH]; cbn [params_loop]; steady. Qed.
Lemma steady_release l : steady (release_locks_loop l).
Proof. induction l as [|k l IH]; cbn [release_locks_loop]; steady. Qed.
Lemma steady_assert : steady assert_stage_work.
Proof. unfold assert_stage_work. steady. Qed.
Lemma steady_callback : steady (obj_tx_callback callback).
Proof using Hcallback. unfold obj_tx_callback. steady. Qed.
Lemma steady_abort : steady (tx_abort p_ops layout fuel ulog_free push_ok txr_malloc).
Proof. unfold tx_abort, tx_abort_set. steady. Qed.
Lemma steady_pre_commit : steady (tx_pre_commit p_ops).
Proof. unfold tx_pre_commit. steady. Qed.
Lemma steady_post_commit : steady (tx_post_commit p_ops fuel ulog_free push_ok).
Proof. unfold tx_post_commit. steady. Qed.
Lemma steady_get_range n : steady (get_range n).
Proof. unfold get_range. steady. Qed.
Lemma steady_put_range n r : steady (put_range n r).
Proof. unfold put_range. steady. Qed.
Lemma steady_insert_def r : steady (tx_lane_ranges_insert_def r).
Proof. unfold tx_lane_ranges_insert_def. steady. Qed.
Hint Resolve steady_params steady_release steady_assert steady_callback steady_abort steady_pre_commit steady_post_commit steady_get_range steady_put_range steady_insert_def : stages.
Lemma steady_snapshot r : steady (pmemobj_tx_add_snapshot p_ops fuel redo_extend undo_extend r).
Proof. unfold pmemobj_tx_add_snapshot. steady. Qed.
Hint Resolve steady_snapshot : stages.
Lemma steady_add_loop n : ∀ args r p nprev, steady (add_loop p_ops fuel redo_extend undo_extend n args r p nprev).
Proof. induction n as [|n IH]; intros; cbn [add_loop]; unfold add_uncovered, extend_found, merge_next; steady. Qed.
Lemma steady_publish_loop l : steady (publish_loop l).
Proof. induction l as [|a l IH]; cbn [publish_loop]; steady. Qed.
Hint Resolve steady_add_loop steady_publish_loop : stages.

(** *** Operations that may abort *)

Lemma keeps_bind {A B} (f : M S A) (k : A → M S B) : keeps f → (∀ a, keeps (k a)) → keeps (x ← f; k x).
Proof. intros Hf Hk s b s' Hw E. apply bind_inv_ok in E as (a & s1 & E1 & E2). eapply Hk; [|exact E2]. by eapply Hf. Qed.
Hint Resolve steady_keeps : stages.
Ltac keeps := repeat (first [solve [eauto with stages] | apply keeps_bind; [|intros ?] | case_match | progress cbv zeta]).

Local Abbreviation abort_with := (obj_tx_abort uuid_lo p_ops layout fuel ulog_free push_ok malloc zalloc tls_ok has_remote txr_malloc callback).

(** After giving the lane back. *)
Lemma release_core s a s' : release_lane uuid_lo malloc zalloc tls_ok has_remote s = (Ok a, s') → core s' = (tx_stage (ts_tx s), tx_entries (ts_tx s), None).
Proof.
  unfold release_lane. intros E. apply bind_inv_ok in E as (x & s1 & E1 & [= _ <-]). apply steady_hold in E1. injection E1 as E1 E2 _. unfold core. cbn. by rewrite E1, E2.
Qed.

Lemma keeps_obj_abort e : keeps (abort_with e).
Proof using Hcallback.
  intros s a s' Hw E. unfold obj_tx_abort in E. apply bind_inv_ok in E as ([] & s1 & E1 & E). apply steady_assert in E1 as Ec.
  unfold assert_stage_work in E1. apply bind_inv_ok in E1 as (st & s0 & [= <- <-] & E1). case_bool_decide as Hst; [|done]. injection E1 as <-. cbn in Hst.
  unfold tx_wf in Hw. rewrite Hst in Hw. destruct Hw as [He Hl].
  apply bind_inv_ok in E as (ln & s2 & [= <- <-] & E). cbn in E. destruct (tx_lane (ts_tx s)) as [ln|] eqn:Hln; [|done].
  apply bind_inv_ok in E as ([] & s3 & [= <-] & E). apply bind_inv_ok in E as (es & s4 & [= <- <-] & E). cbn in E.
  destruct (tx_entries (ts_tx s)) as [|env outer] eqn:Hes; [done|]. apply bind_inv_ok in E as ([] & s5 & E5 & E).
  assert (tx_wf (ts_tx s5)) as Hw5.
  { destruct outer as [|env' outer].
    - apply bind_inv_ok in E5 as ([] & s6 & E6 & E5). apply steady_abort in E6. apply release_core in E5. injection E6 as E6a E6b E6c. injection E5 as E5a E5b E5c.
      unfold tx_wf. rewrite E5a, E6a, E5b, E6b. cbn. by rewrite Hes.
    - injection E5 as <-. unfold tx_wf. cbn. by rewrite Hes, Hln. }
  apply bind_inv_ok in E as ([] & s7 & E7 & E). apply (steady_mod (set_errnum _)) in E7 as Hc7; [|done].
  apply bind_inv_ok in E as ([] & s8 & E8 & E). apply steady_callback in E8. destruct env; [done|]. injection E as _ <-.
  eapply wf_core; [exact E8|]. by eapply wf_core.
Qed.
Hint Resolve keeps_obj_abort : stages.
Lemma keeps_abort_err e : keeps (obj_tx_abort_err uuid_lo p_ops layout fuel ulog_free push_ok malloc zalloc tls_ok has_remote txr_malloc callback e).
Proof using Hcallback. unfold obj_tx_abort_err. keeps. Qed.
Lemma keeps_abort_null e : keeps (obj_tx_abort_null uuid_lo p_ops layout fuel ulog_free push_ok malloc zalloc tls_ok has_remote txr_malloc callback e).
Proof using Hcallback. unfold obj_tx_abort_null. keeps. Qed.
Hint Resolve keeps_abort_err keeps_abort_null : stages.

Lemma keeps_add_common args : keeps (pmemobj_tx_add_common uuid_lo p_ops layout pop fuel ulog_free push_ok redo_extend undo_extend malloc zalloc tls_ok has_remote txr_malloc callback args).
Proof using Hcallback. unfold pmemobj_tx_add_common. keeps. Qed.
Lemma keeps_alloc_common size type_num args : keeps (tx_alloc_common uuid_lo p_ops layout sizep nlocks padding alloc_pattern util_pool_extend locked growsize fuel ulog_free push_ok redo_extend
  malloc zalloc tls_ok has_remote txr_malloc callback size type_num args).
Proof using Hcallback. unfold tx_alloc_common, err_oom, tx_action_remove. keeps. Qed.
Lemma keeps_free oid : keeps (pmemobj_tx_free uuid_lo p_ops layout nlocks pop fuel ulog_free push_ok redo_extend malloc zalloc tls_ok has_remote txr_malloc callback oid).
Proof using Hcallback. unfold pmemobj_tx_free. keeps. Qed.
Hint Resolve keeps_add_common keeps_alloc_common keeps_free : stages.
Lemma keeps_realloc_common oid size type_num flags : keeps (tx_realloc_common uuid_lo p_ops layout sizep nlocks pop padding alloc_pattern util_pool_extend locked growsize fuel ulog_free push_ok
  redo_extend malloc zalloc tls_ok has_remote txr_malloc callback oid size type_num flags).
Proof using Hcallback. unfold tx_realloc_common. keeps. Qed.
Hint Resolve keeps_realloc_common : stages.

Local Abbreviation tx_begin := (pmemobj_tx_begin pool uuid_lo p_ops layout fuel ulog_free push_ok malloc zalloc tls_ok has_remote txr_malloc os_lock callback).
Local Abbreviation commit := (pmemobj_tx_commit uuid_lo p_ops layout pop fuel ulog_free push_ok qsort malloc zalloc tls_ok has_remote callback).
Local Abbreviation tx_end := (pmemobj_tx_end uuid_lo p_ops layout fuel ulog_free push_ok malloc zalloc tls_ok has_remote txr_malloc callback).

(** *** Stages *)

(** A transaction that is being worked on. *)
Lemma working s : tx_wf (ts_tx s) → tx_stage (ts_tx s) = TX_STAGE_WORK → ∃ env outer i, tx_entries (ts_tx s) = env :: outer ∧ tx_lane (ts_tx s) = Some i.
Proof. unfold tx_wf. intros Hw Hst. rewrite Hst in Hw. destruct Hw as [He Hl]. destruct (tx_entries _) as [|env outer]; [done|]. destruct (tx_lane _) as [i|]; [|done]. by exists env, outer, i. Qed.

Lemma keeps_entry env params s a s' : tx_lane (ts_tx s) ≠ None → (tx_stage (ts_tx s) = TX_STAGE_WORK ∧ tx_wf (ts_tx s) ∨ head (ts_malloc s) ≠ Some false) →
  tx_begin_entry uuid_lo p_ops layout fuel ulog_free push_ok malloc zalloc tls_ok has_remote txr_malloc os_lock callback env params s = (Ok a, s') → tx_wf (ts_tx s').
Proof using Hcallback.
  intros Hl Hm E. unfold tx_begin_entry in E. apply bind_inv_ok in E as (ok & s1 & [= <- <-] & E). set (s1 := TxState _ _ _ _ _) in E.
  assert (∀ e b t, tx_wf (ts_tx t) → tx_stage (ts_tx t) = TX_STAGE_WORK →
    begin_abort uuid_lo p_ops layout fuel ulog_free push_ok malloc zalloc tls_ok has_remote txr_malloc callback e t = (Ok b, s') → tx_wf (ts_tx s')) as Hab.
  { intros e b t Hw Ht Eb. unfold begin_abort in Eb. apply bind_inv_ok in Eb as (st & t1 & [= <- <-] & Eb). cbn in Eb. rewrite Ht, bool_decide_true in Eb by done.
    apply bind_inv_ok in Eb as ([] & t2 & E2 & [= _ <-]). by eapply (keeps_obj_abort e). }
  destruct (default true (head (ts_malloc s))) eqn:Hd; cbn [negb] in E.
  - apply bind_inv_ok in E as ([] & s2 & [= <-] & E). apply bind_inv_ok in E as (err & s3 & E3 & E). apply steady_params in E3. injection E3 as E3a E3b E3c. cbn in E3a, E3b, E3c.
    assert (tx_wf (ts_tx s3)) as Hw3 by (unfold tx_wf; by rewrite E3a, E3b, E3c). destruct (err =? 0); [injection E as _ <-; done|]. by eapply Hab.
  - destruct Hm as [[Hst Hw]|Hm]; [by eapply (Hab _ _ s1)|]. destruct (head (ts_malloc s)) as [[]|]; done.
Qed.

Lemma keeps_begin range_malloc p env params s a s' : tx_wf (ts_tx s) → head (ts_malloc s) ≠ Some false → tx_begin range_malloc p env params s = (Ok a, s') → tx_wf (ts_tx s').
Proof using Hcallback.
  intros Hw Hm E. unfold pmemobj_tx_begin in E. apply bind_inv_ok in E as (t & s1 & [= <- <-] & E). cbn in E. destruct (tx_stage (ts_tx s)) eqn:Hst; try done.
  - apply bind_inv_ok in E as ([] & s1 & E1 & E). unfold tx_begin_outermost in E1. destruct (negb _); [done|].
    apply bind_inv_ok in E1 as (i & s2 & E2 & E1). apply bind_inv_ok in E1 as ([] & s3 & [= <-] & E1). apply bind_inv_ok in E1 as ([] & s4 & E4 & E1).
    apply bind_inv_ok in E1 as ([] & s5 & [= <-] & [= <-]).
    assert (ts_malloc s4 = ts_malloc s) as Hm4.
    { unfold on_hold in E2. destruct (lane_hold _ _ _ _ _ _ _ _). injection E2 as _ <-. unfold on_undo in E4. destruct (tx_lane_of _) as [[j l]|]; [|done].
      unfold on_pa in E4. destruct (on_operation _ _). by injection E4 as _ <-. }
    apply steady_undo in E4. injection E4 as _ _ E4. eapply (keeps_entry env params); [|right|exact E]; [cbn; by rewrite E4|]. cbn. by rewrite Hm4.
  - destruct (working s Hw Hst) as (env' & outer & i & He & Hl). rewrite Hl, bool_decide_false in E by done. destruct (negb _).
    + by eapply (keeps_abort_err EINVAL).
    + eapply (keeps_entry env params s); [by rewrite Hl|by left|exact E].
Qed.

Lemma keeps_commit : keeps commit.
Proof using Hcallback.
  intros s a s' Hw E. unfold pmemobj_tx_commit in E. apply bind_inv_ok in E as ([] & s1 & E1 & E). apply steady_assert in E1 as Hc1.
  unfold assert_stage_work in E1. apply bind_inv_ok in E1 as (st & s0 & [= <- <-] & E1). case_bool_decide as Hst; [|done]. injection E1 as <-. cbn in Hst.
  destruct (working s Hw Hst) as (env & outer & i & He & Hl). apply bind_inv_ok in E as ([] & s2 & E2 & E). apply steady_callback in E2. injection E2 as Ea Eb Ec.
  apply bind_inv_ok in E as (t & s3 & [= <- <-] & E). cbn in E. rewrite Ec, Eb, Hl, He in E. apply bind_inv_ok in E as ([] & s4 & E4 & E).
  apply bind_inv_ok in E as ([] & s5 & [= <-] & E). apply steady_callback in E. eapply wf_core; [exact E|]. unfold tx_wf. cbn. destruct outer as [|env' outer].
  - apply bind_inv_ok in E4 as ([] & t1 & H1 & E4). apply bind_inv_ok in E4 as ([] & t2 & H2 & E4). apply bind_inv_ok in E4 as ([] & t3 & H3 & E4).
    apply bind_inv_ok in E4 as (actv & t4 & H4 & E4). apply bind_inv_ok in E4 as ([] & t5 & H5 & E4). apply bind_inv_ok in E4 as ([] & t6 & H6 & E4).
    apply steady_pre_commit in H1. apply steady_tpm in H2. apply steady_external in H3, H5. apply steady_get in H4. apply steady_post_commit in H6. apply release_core in E4.
    injection E4 as _ E4b E4c. rewrite E4b, E4c. assert (core t6 = core s2) as Ht by congruence. injection Ht as _ -> _. by rewrite Eb, He.
  - injection E4 as <-. by rewrite Eb, He, Ec, Hl.
Qed.

Lemma keeps_end : keeps tx_end.
Proof using Hcallback.
  intros s a s' Hw E. unfold pmemobj_tx_end in E. apply bind_inv_ok in E as (t & s1 & [= <- <-] & E). cbn in E.
  destruct (_ || _) eqn:Hg; [done|]. apply orb_false_iff in Hg as [Hg _]. apply bool_decide_eq_false in Hg.
  apply bind_inv_ok in E as ([] & s2 & E2 & E).
  assert (tx_wf (ts_tx s2) ∧ tx_stage (ts_tx s2) ≠ TX_STAGE_WORK) as [Hw2 Hg2].
  { destruct (_ && _) eqn:Hb; [|injection E2 as <-; done]. apply andb_true_iff in Hb as [_ Hb%bool_decide_eq_true].
    apply bind_inv_ok in E2 as ([] & t1 & [= <-] & E2). apply steady_callback in E2. injection E2 as Ha Hb' Hc. cbn in Ha, Hb', Hc. unfold tx_wf. rewrite Ha, Hb', Hc. split; [|done].
    unfold tx_wf in Hw. destruct Hb as [Hb|Hb]; rewrite Hb in Hw; (destruct (tx_entries (ts_tx s)) as [|e [|]]; [by destruct Hw|done|done]). }
  apply bind_inv_ok in E as (es & s3 & [= <- <-] & E). cbn in E. destruct (tx_entries (ts_tx s2)) as [|env outer] eqn:He; [done|].
  apply bind_inv_ok in E as ([] & s4 & [= <-] & E). apply bind_inv_ok in E as ([] & s5 & E5 & [= _ <-]). destruct outer as [|env' outer].
  - apply bind_inv_ok in E5 as (ln & t1 & [= <- <-] & E5). cbn in E5. case_bool_decide as Hl; [done|]. apply bind_inv_ok in E5 as ([] & t2 & E6 & E5).
    unfold release_and_free_tx_locks in E6. apply bind_inv_ok in E6 as (l & t3 & [= <- <-] & E6). apply steady_release in E6. injection E6 as Ha Hb Hc. cbn in Ha, Hb, Hc.
    apply bind_inv_ok in E5 as ([] & t4 & [= <-] & E5). apply bind_inv_ok in E5 as (cb & t5 & [= <- <-] & E5).
    assert (core s5 = (TX_STAGE_NONE, [], None)) as Hcore.
    { assert (tx_lane (ts_tx s2) = None) as Hln by (destruct (tx_lane (ts_tx s2)); [by destruct Hl|done]). cbn in E5. destruct (tx_stage_callback (ts_tx t2)) as [[cb arg]|].
      - apply bind_inv_ok in E5 as ([] & t6 & [= <-] & E5). apply bind_inv_ok in E5 as (pp & t7 & [= <- <-] & E5). apply Hcallback in E5. rewrite E5. unfold core. cbn. by rewrite Hb, Hc, Hln.
      - injection E5 as <-. unfold core. cbn. by rewrite Hb, Hc, Hln. }
    injection Hcore as Hx Hy Hz. unfold tx_wf. by rewrite Hx, Hy, Hz.
  - apply bind_inv_ok in E5 as ([] & t1 & [= <-] & E5). apply bind_inv_ok in E5 as (e & t2 & [= <- <-] & E5). cbn in E5.
    assert (tx_lane (ts_tx s2) ≠ None) as Hln by (unfold tx_wf in Hw2; rewrite He in Hw2; by destruct (tx_stage (ts_tx s2))).
    destruct (_ =? 0); [injection E5 as <-; by unfold tx_wf|]. eapply keeps_obj_abort, E5. by unfold tx_wf.
Qed.

Lemma keeps_process : keeps (pmemobj_tx_process uuid_lo p_ops layout pop fuel ulog_free push_ok qsort malloc zalloc tls_ok has_remote callback).
Proof using Hcallback.
  intros s a s' Hw E. unfold pmemobj_tx_process in E. apply bind_inv_ok in E as (st & s1 & [= <- <-] & E). cbn in E.
  destruct (tx_stage (ts_tx s)) eqn:Hst; [done|by eapply keeps_commit|..].
  3: { injection E as _ <-. unfold tx_wf in *. rewrite Hst in Hw. cbn. destruct (tx_entries (ts_tx s)) as [|e [|]]; [by destruct Hw|done|done]. }
  all: apply bind_inv_ok in E as ([] & t1 & [= <-] & E); apply steady_callback in E; (eapply wf_core; [exact E|]); unfold tx_wf in *; rewrite Hst in Hw; cbn;
    (destruct (tx_entries (ts_tx s)) as [|e [|]]; [by destruct Hw|done|done]).
Qed.

(** *** All calls *)

Local Abbreviation adds f := (f uuid_lo p_ops layout pop fuel ulog_free push_ok redo_extend undo_extend malloc zalloc tls_ok has_remote txr_malloc callback).
Local Abbreviation allocs f := (f uuid_lo p_ops layout sizep nlocks padding alloc_pattern util_pool_extend locked growsize fuel ulog_free push_ok redo_extend malloc zalloc tls_ok
  has_remote txr_malloc callback).
Local Abbreviation reallocs f := (f uuid_lo p_ops layout sizep nlocks pop padding alloc_pattern util_pool_extend locked growsize fuel ulog_free push_ok redo_extend malloc zalloc tls_ok
  has_remote txr_malloc callback).

Definition tx_call_run (c : tx_call) : M S unit :=
  match c with
  | CallBegin range_malloc p env params => tx_begin range_malloc p env params;; mret tt
  | CallLock type lock => pmemobj_tx_lock os_lock type lock;; mret tt
  | CallAbort errnum => pmemobj_tx_abort uuid_lo p_ops layout fuel ulog_free push_ok malloc zalloc tls_ok has_remote txr_malloc callback errnum
  | CallCommit => commit
  | CallEnd => tx_end;; mret tt
  | CallProcess => pmemobj_tx_process uuid_lo p_ops layout pop fuel ulog_free push_ok qsort malloc zalloc tls_ok has_remote callback
  | CallAddRange oid hoff size => adds pmemobj_tx_add_range oid hoff size;; mret tt
  | CallXaddRange oid hoff size flags => adds pmemobj_tx_xadd_range oid hoff size flags;; mret tt
  | CallAddRangeDirect ptr size => adds pmemobj_tx_add_range_direct ptr size;; mret tt
  | CallXaddRangeDirect ptr size flags => adds pmemobj_tx_xadd_range_direct ptr size flags;; mret tt
  | CallAlloc size type_num => allocs pmemobj_tx_alloc size type_num;; mret tt
  | CallZalloc size type_num => allocs pmemobj_tx_zalloc size type_num;; mret tt
  | CallXalloc size type_num flags => allocs pmemobj_tx_xalloc size type_num flags;; mret tt
  | CallRealloc oid size type_num => reallocs pmemobj_tx_realloc oid size type_num;; mret tt
  | CallZrealloc oid size type_num => reallocs pmemobj_tx_zrealloc oid size type_num;; mret tt
  | CallStrdup str type_num => allocs pmemobj_tx_strdup str type_num;; mret tt
  | CallWcsdup str type_num => allocs pmemobj_tx_wcsdup str type_num;; mret tt
  | CallFree oid => pmemobj_tx_free uuid_lo p_ops layout nlocks pop fuel ulog_free push_ok redo_extend malloc zalloc tls_ok has_remote txr_malloc callback oid;; mret tt
  | CallPublish actv => pmemobj_tx_publish fuel redo_extend actv;; mret tt
  end.

Hint Resolve keeps_commit keeps_end keeps_process : stages.
Definition is_begin (c : tx_call) : bool := match c with CallBegin _ _ _ _ => true | _ => false end.
Lemma keeps_call c : is_begin c = false → keeps (tx_call_run c).
Proof using Hcallback.
  destruct c; intros Hb; [done|..]; cbn [tx_call_run];
    unfold pmemobj_tx_lock, pmemobj_tx_abort, pmemobj_tx_add_range, pmemobj_tx_xadd_range, pmemobj_tx_add_range_direct, pmemobj_tx_xadd_range_direct, pmemobj_tx_alloc, pmemobj_tx_zalloc,
      pmemobj_tx_xalloc, pmemobj_tx_realloc, pmemobj_tx_zrealloc, pmemobj_tx_strdup, pmemobj_tx_wcsdup, tx_dup, pmemobj_tx_publish; keeps.
Qed.

(** C9: the stage, the entries and the lane of a transaction always fit together: one that is worked on has a lane and an entry for every level, and so the
    calls that need them find them; when it has left that stage, the outermost one has given its lane back and the others still have it.  Every call of the interface that
    returns keeps this, whatever it has done: failed, aborted or ended a transaction (when there is memory for the entry of a new outermost transaction).  The stage callback is
    assumed not to change the transaction. *)
Theorem tx_calls_well_formed c s s' : tx_wf (ts_tx s) → head (ts_malloc s) ≠ Some false → tx_call_run c s = (Ok tt, s') → tx_wf (ts_tx s').
Proof using Hcallback.
  intros Hw Hm E. destruct (is_begin c) eqn:Hb; [|by eapply (keeps_call c)]. destruct c; try done. cbn [tx_call_run] in E.
  apply bind_inv_ok in E as (r & s1 & E1 & [= <-]). by eapply keeps_begin.
Qed.
End stages.

(** ** Witness *)

Lemma steady_no_callback {C R} cb p st arg : steady (C := C) (R := R) (no_callback cb p st arg).
Proof. apply steady_ret. Qed.

(** Beginning a transaction with a mutex. *)
Lemma tx_calls_well_formed_witness : ∃ s',
  tx_call_run 1 7 clflush_ops 4096 1 1 ex_tx_heap [] 0 (λ _, mret None) (λ _, false) 0 40 no_free no_push None None id true true true false (λ _, true) (λ _, 0) no_callback
    (CallBegin [] 1 false (lock_param <$> [ex_lock])) ex_idle = (Ok tt, s') ∧ tx_wf (ts_tx s').
Proof.
  destruct (begin_run 1 7 clflush_ops 4096 ex_tx_heap 40 no_free no_push true true true false (λ _, true) (λ _, 0) no_callback [] ex_idle false [ex_lock])
    as (i & l & s' & E & _); [apply ex_tx_idle|apply ex_free_locks; [repeat constructor; set_solver|by repeat constructor]|by constructor|].
  exists s'. assert (tx_call_run 1 7 clflush_ops 4096 1 1 ex_tx_heap [] 0 (λ _, mret None) (λ _, false) 0 40 no_free no_push None None id true true true false (λ _, true) (λ _, 0) no_callback
    (CallBegin [] 1 false (lock_param <$> [ex_lock])) ex_idle = (Ok tt, s')) as Er by (cbn [tx_call_run]; by erewrite bind_ok by exact E).
  split; [exact Er|]. eapply tx_calls_well_formed; [|..|exact Er]; [apply steady_no_callback|split; reflexivity|discriminate].
Defined.
