(* ===== verification/TxTheorems.v ===== *)
(** * libpmemobj: theorems on transactions

    Ranges that are added to a transaction, aborting it at any depth of nesting, and ending it. *)

From stdpp Require Import base gmap list numbers.
From S2P Require Import Prelude Memory Pmem Util Ulog UlogSpec UlogTheorems Ravl RavlTree RavlTheorems Memops MemopsCrash MemopsExample MemopsTheorems MemopsTx Lane LaneHold LaneHoldTheorems.
From S2P Require Import Memblock Heap HeapRun Palloc Tx TxRanges TxAdd TxProgram TxCommit TxExample.
Local Open Scope Z_scope.

Section theorems.
Context {C R : Type} (o : pmem_ops) `{!OpsSpec o}.
Local Abbreviation S := (tx_state C R).
Implicit Types (s : S).
Context (uuid_lo layout : Z) (pop : pool_layout) (fuel : nat) (ulog_free : Z → M pmem unit) (push_ok : nat → bool).
Context (redo_extend undo_extend : option (Z → M pmem unit)) (malloc zalloc tls_ok has_remote : bool).
Context (txr_malloc : Z → bool) (callback : Z → Z → pobj_tx_stage → Z → M S unit).
Local Abbreviation add_range := (pmemobj_tx_add_range_direct uuid_lo o layout pop fuel ulog_free push_ok redo_extend undo_extend malloc zalloc tls_ok
  has_remote txr_malloc callback).
Local Abbreviation abort_with := (pmemobj_tx_abort uuid_lo o layout fuel ulog_free push_ok malloc zalloc tls_ok has_remote txr_malloc callback).
Local Abbreviation tx_end := (pmemobj_tx_end uuid_lo o layout fuel ulog_free push_ok malloc zalloc tls_ok has_remote txr_malloc callback).

(** ** Ending *)

Lemma release_locks_run l : ∀ s, NoDup (txl_lock <$> l) → Forall (λ k, txl_lock k ∈ ts_held s ∧ is_lock_type (txl_type k) = true) l →
  tx_locks (ts_tx s) = l → release_locks_loop l s = (Ok tt, with_locks_held [] (ts_held s ∖ lock_set l) (ts_malloc s) s).
Proof using.
  clear. induction l as [|k l IH]; intros s Hn Hh Hl; cbn [release_locks_loop].
  - unfold with_locks_held, lock_set. rewrite <-Hl. destruct s as [[] ? ? ? ?]. cbn in *. subst. do 2 f_equal. set_solver.
  - rewrite fmap_cons in Hn. pose proof (NoDup_cons_1_1 _ _ Hn) as Hk. apply NoDup_cons_1_2 in Hn. apply Forall_cons_1 in Hh as [[Hk1 Hk2] Hh]. erewrite bind_ok by reflexivity. rewrite Hk2.
    erewrite bind_ok by (unfold pmemobj_unlock; cbn [ts_held]; by rewrite decide_True).
    rewrite IH; [|done| |done].
    + unfold with_locks_held, lock_set. cbn. do 2 f_equal. set_solver.
    + rewrite Forall_forall in Hh |- *. intros x Hx. destruct (Hh x Hx) as [H1 H2]. split; [|done]. cbn. apply elem_of_difference. split; [done|].
      intros E%elem_of_singleton. apply Hk, list_elem_of_fmap. exists x. split; [by rewrite E|by apply list_elem_of_In].
Qed.

(** The state in which no transaction is running. *)
Record ended s s' : Prop := {
  en_stage : tx_stage (ts_tx s') = TX_STAGE_NONE;
  en_pop : tx_pop (ts_tx s') = 0;
  en_lane : tx_lane (ts_tx s') = None;
  en_entries : tx_entries (ts_tx s') = [];
  en_locks : tx_locks (ts_tx s') = [];
  en_actions : tx_actions (ts_tx s') = [];
  en_held : ts_held s' = ts_held s ∖ lock_set (tx_locks (ts_tx s));
  en_hold : ts_hold s' = ts_hold s;
  en_palloc : ts_palloc s' = ts_palloc s;
  en_errnum : tx_last_errnum (ts_tx s') = tx_last_errnum (ts_tx s)
}.

Lemma end_run s env : tx_entries (ts_tx s) = [env] → tx_stage (ts_tx s) ≠ TX_STAGE_WORK → tx_pop (ts_tx s) ≠ 0 → tx_stage_callback (ts_tx s) = None →
  tx_lane (ts_tx s) = None → locks_ok s → ∃ s', tx_end s = (Ok (tx_last_errnum (ts_tx s)), s') ∧ ended s s'.
Proof using.
  intros He Hst Hp Hcb Hl [Hn Hh]. unfold pmemobj_tx_end. erewrite bind_ok by reflexivity. cbn [compose id].
  rewrite bool_decide_false, (proj2 (Z.eqb_neq _ _)), Hcb, (bool_decide_false (None ≠ None)) by naive_solver. cbn [orb andb].
  erewrite bind_ok by reflexivity. erewrite bind_ok by reflexivity. cbn [compose]. rewrite He. erewrite bind_ok by reflexivity.
  erewrite bind_ok.
  2: { erewrite bind_ok by reflexivity. cbn [compose ts_tx set_entries tx_lane]. rewrite Hl, bool_decide_false by naive_solver.
       erewrite bind_ok by (unfold release_and_free_tx_locks; erewrite bind_ok by reflexivity; by apply release_locks_run).
       erewrite bind_ok by reflexivity. erewrite bind_ok by reflexivity. cbn [compose ts_tx with_locks_held set_tx_locks set_entries set_pop set_stage set_actions tx_stage_callback].
       rewrite Hcb. reflexivity. }
  eexists. split; [reflexivity|]. by split.
Qed.

(** ** Aborting at any depth *)

(** Leaving [n] transactions, one after the other; a [longjmp] ends at the next one. *)
Fixpoint unwind (n : nat) : M S unit := match n with O => mret tt | Datatypes.S n => ignore tx_end;; unwind n end.

(** The state with other entries. *)
Definition with_entries (es : list bool) s : S := TxState (set_entries es (ts_tx s)) (ts_hold s) (ts_palloc s) (ts_held s) (ts_malloc s).

(** ... and another error number. *)
Definition with_inner (es : list bool) (errnum : Z) s : S := TxState (set_errnum errnum (ts_tx (with_entries es s))) (ts_hold s) (ts_palloc s) (ts_held s) (ts_malloc s).
Lemma inner_locks es errnum s : tx_locks (ts_tx (with_inner es errnum s)) = tx_locks (ts_tx s).
Proof using. done. Qed.

(** An inner transaction is aborted: only the stage and the error number change. *)
Definition inner_aborted (errnum : Z) s : S :=
  TxState (set_errnum errnum (set_stage TX_STAGE_ONABORT (ts_tx s))) (ts_hold s) (ts_palloc s) (ts_held s) (ts_malloc s).

Lemma inner_abort_run s env es errnum : tx_stage (ts_tx s) = TX_STAGE_WORK → tx_lane (ts_tx s) ≠ None → tx_entries (ts_tx s) = env :: es → es ≠ [] →
  tx_stage_callback (ts_tx s) = None → errnum ≠ 0 → abort_with errnum s = (abort_result env errnum, inner_aborted errnum s).
Proof using.
  intros Hst Hl He Hes Hcb Hn. unfold pmemobj_tx_abort, obj_tx_abort, assert_stage_work.
  erewrite bind_ok by (erewrite bind_ok by reflexivity; cbn [compose]; by rewrite Hst).
  erewrite bind_ok by reflexivity. cbn [compose]. destruct (tx_lane (ts_tx s)); [|done]. rewrite (proj2 (Z.eqb_neq _ _)) by done.
  do 2 (erewrite bind_ok by reflexivity). cbn [compose ts_tx set_stage tx_entries]. rewrite He. destruct es as [|e es]; [done|].
  do 2 (erewrite bind_ok by reflexivity). unfold obj_tx_callback. erewrite bind_ok.
  2: { erewrite bind_ok by reflexivity. cbn [compose ts_tx set_errnum set_stage tx_stage_callback]. rewrite Hcb. reflexivity. }
  unfold abort_result. by destruct env.
Qed.

(** Leaving a transaction with an error aborts the one around it. *)
Lemma inner_end_run s env es errnum r s3 : tx_pop (ts_tx s) ≠ 0 → tx_entries (ts_tx s) = env :: es → es ≠ [] → tx_stage (ts_tx s) = TX_STAGE_WORK →
  tx_stage_callback (ts_tx s) = None → errnum ≠ 0 → r ≠ Undef →
  abort_with errnum (with_inner es errnum s) = (r, s3) →
  ignore tx_end (inner_aborted errnum s) = (Ok tt, s3).
Proof using.
  intros Hp He Hes Hst Hcb Hn Hr E. unfold ignore, pmemobj_tx_end. erewrite bind_ok by reflexivity. cbn [compose id inner_aborted ts_tx set_errnum set_stage tx_stage tx_pop tx_stage_callback].
  rewrite bool_decide_false, (proj2 (Z.eqb_neq _ _)), Hcb, (bool_decide_false (None ≠ None)) by naive_solver. cbn [orb andb].
  do 2 (erewrite bind_ok by reflexivity). cbn [compose inner_aborted ts_tx set_errnum set_stage tx_entries]. rewrite He. erewrite bind_ok by reflexivity. destruct es as [|e es]; [done|].
  match goal with |- context [(?f ≫= _) ?x] => assert (f x = abort_with errnum (with_inner (e :: es) errnum s)) as Ef end.
  { erewrite bind_ok by reflexivity. erewrite bind_ok by reflexivity. cbn [compose]. cbn [ts_tx set_stage set_entries set_errnum tx_last_errnum].
    rewrite (proj2 (Z.eqb_neq _ _)) by done. unfold pmemobj_tx_abort. f_equal. unfold with_inner, with_entries. cbn [ts_tx]. f_equal. unfold set_stage, set_entries, set_errnum. cbn. by rewrite Hst. }
  rewrite E in Ef. destruct r as [[]|e'|]; [|by erewrite bind_fail by exact Ef|done]. by erewrite bind_ok by exact Ef.
Qed.

(** The lane, its log, and the memory at the start. *)
Context (i u cap : Z) (m0 : mem) (Hmalloc : ∀ a, txr_malloc a = true) (Hfuel : cap < 64 * Z.of_nat fuel).

(** A transaction, with any number of others in it, that can be rolled back. *)
Record abortable s (snaps : list snap) : Prop := {
  at_stage : tx_stage (ts_tx s) = TX_STAGE_WORK;
  at_pop : tx_pop (ts_tx s) ≠ 0;
  at_callback : tx_stage_callback (ts_tx s) = None;
  at_tree : has_tree s;
  at_snaps : tx_snaps i u cap m0 s snaps;
  at_outside : Forall (outside_locks (tx_locks (ts_tx s))) snaps;
  at_lane : holds_lane uuid_lo i (ts_hold s)
}.
Lemma locks_ok_entries s es errnum : locks_ok s →
  locks_ok (with_inner es errnum s).
Proof using. clear. intros []. by split. Qed.
Lemma abortable_entries s snaps es errnum : abortable s snaps →
  abortable (with_inner es errnum s) snaps.
Proof using. intros [? ? ? ? [l Hl] ? ?]. split; try done. exists l. by destruct Hl. Qed.

Lemma unwind_run inner env errnum : errnum ≠ 0 → ∀ s snaps, abortable s snaps → tx_entries (ts_tx s) = inner ++ [env] →
  ∃ s', (ignore (abort_with errnum);; unwind (length inner)) s = (Ok tt, s') ∧ aborted i u cap m0 errnum (with_entries [env] s) s'.
Proof using OpsSpec0 Hmalloc Hfuel.
  intros Hn. induction inner as [|env' inner IH]; intros s snaps Ha He; cbn [app length unwind] in *.
  - destruct Ha as [A1 A2 A3 A4 A5 A6 A7].
    destruct (obj_tx_abort_run o uuid_lo layout fuel ulog_free push_ok malloc zalloc tls_ok has_remote txr_malloc callback i u cap m0 Hmalloc Hfuel s snaps env errnum)
      as (s' & E & Hab); try done.
    exists s'. split; [erewrite bind_ok; [reflexivity|]; unfold ignore, pmemobj_tx_abort; rewrite E; by destruct env|]. destruct Hab. split; try done. by rewrite ab_entries, He.
  - destruct (IH _ snaps (abortable_entries s snaps (inner ++ [env]) errnum Ha) eq_refl) as (s' & E & Hab).
    pose proof Ha as [A1 A2 A3 A4 [l Hl] A6 A7]. pose proof (tl_lane _ _ _ _ _ _ _ Hl) as [Hi _]%lane_of_lookup.
    erewrite bind_ok by (unfold ignore; rewrite (inner_abort_run s env' (inner ++ [env]) errnum) by (done || congruence || by destruct inner); by destruct env').
    exists s'. split; [|by destruct Hab; split].
    apply bind_inv_ok in E as ([] & s3 & E3 & E). unfold ignore in E3. destruct (abort_with errnum _) as [r s4] eqn:Eab.
    erewrite bind_ok; [exact E|]. rewrite (inner_end_run s env' (inner ++ [env]) errnum r s4); try done; [by destruct r; simplify_eq/=|by destruct inner|by destruct r].
Qed.

(** What is left after an abort and the ends that follow it. *)
Record unwound errnum s s' : Prop := {
  uw_stage : tx_stage (ts_tx s') = TX_STAGE_NONE;
  uw_entries : tx_entries (ts_tx s') = [];
  uw_lane : tx_lane (ts_tx s') = None;
  uw_locks : tx_locks (ts_tx s') = [];
  uw_errnum : tx_last_errnum (ts_tx s') = errnum;
  uw_held : ts_held s' = ts_held s ∖ lock_set (tx_locks (ts_tx s));
  uw_release : lk_locks (hs_shared (ts_hold s')) = updZ (lk_locks (hs_shared (ts_hold s))) i 0;
  uw_log : undo_log (mem_of s') u cap [];
  uw_mem a : ¬ in_undo_log u cap a → rd (mem_of s') a = if decide (in_locks (tx_locks (ts_tx s)) a) then rd (mem_of s) a else rd m0 a
}.

Lemma unwound_run inner env errnum s snaps : errnum ≠ 0 → abortable s snaps → tx_entries (ts_tx s) = inner ++ [env] → locks_ok s →
  ∃ s', (ignore (abort_with errnum);; unwind (length inner);; tx_end) s = (Ok errnum, s') ∧ unwound errnum s s'.
Proof using OpsSpec0 Hmalloc Hfuel.
  intros Hn Ha He [Hk1 Hk2]. destruct (unwind_run inner env errnum Hn s snaps Ha He) as (s1 & E & [B1 B2 B3 B4 B5 B6 B7 B8 B9 B10 B11 B12 B13]).
  destruct (end_run s1 env) as (s' & E' & [D1 D2 D3 D4 D5 D6 D7 D8 D9 D10]); [done|by rewrite B1|rewrite B6; apply Ha|rewrite B9; apply Ha|done|split; by rewrite B7, ?B10|].
  assert (mem_of s' = mem_of s1) as Hm by (unfold mem_of, tx_has_mem; by rewrite D9). exists s'. split.
  - apply bind_inv_ok in E as ([] & s2 & E1 & E2). erewrite bind_ok by exact E1. erewrite bind_ok by exact E2. by rewrite E', B2.
  - split; rewrite ?Hm; try done; [congruence|by rewrite D7, B10, B7|by rewrite D8].
Qed.

(** C8: an abort, in a transaction in any number of others, undoes the outermost one: the call and the calls of [pmemobj_tx_end] that follow give back every
    byte that is not in a lock of the transaction, empty the log, unlock the lane and the locks, and the last one returns the error.  The conditions, in [abortable]: every snapshot has a byte that is
    not in a lock of the transaction (tx_restore_range asserts that something is left to restore); no stage callback is set; the log of the lane holds exactly the snapshots,
    in its base buffer, with no chained logs; the volatile allocations succeed.  The build is the one without PMDK_NO_TX. *)
Theorem pmemobj_tx_abort_unwinds inner env errnum s snaps : errnum ≠ 0 → abortable s snaps → tx_entries (ts_tx s) = inner ++ [env] → locks_ok s →
  ∃ s', (ignore (abort_with errnum);; unwind (length inner);; tx_end) s = (Ok errnum, s') ∧ unwound errnum s s'.
Proof using OpsSpec0 Hmalloc Hfuel. apply unwound_run. Qed.
End theorems.

(** ** From begin to end *)

Section lifecycle.
Context {C R : Type} (o : pmem_ops) `{!OpsSpec o}.
Local Abbreviation S := (tx_state C R).
Implicit Types (s : S).
Context (pool uuid_lo layout : Z) (pop : pool_layout) (fuel : nat) (ulog_free : Z → M pmem unit) (push_ok : nat → bool).
Context (redo_extend undo_extend : option (Z → M pmem unit)) (malloc zalloc tls_ok has_remote : bool).
Context (txr_malloc : Z → bool) (os_lock : Z → Z) (callback : Z → Z → pobj_tx_stage → Z → M S unit).
Local Abbreviation add_range := (pmemobj_tx_add_range_direct uuid_lo o layout pop fuel ulog_free push_ok redo_extend undo_extend malloc zalloc tls_ok
  has_remote txr_malloc callback).
Local Abbreviation run := (prog_do o uuid_lo layout pop fuel ulog_free push_ok redo_extend undo_extend malloc zalloc tls_ok has_remote txr_malloc callback).
Local Abbreviation tx_begin := (pmemobj_tx_begin pool uuid_lo o layout fuel ulog_free push_ok malloc zalloc tls_ok has_remote txr_malloc os_lock callback).
Local Abbreviation abort_with := (pmemobj_tx_abort uuid_lo o layout fuel ulog_free push_ok malloc zalloc tls_ok has_remote txr_malloc callback).
Local Abbreviation tx_end := (pmemobj_tx_end uuid_lo o layout fuel ulog_free push_ok malloc zalloc tls_ok has_remote txr_malloc callback).
Local Abbreviation lo := (pl_heap_offset pop).
Local Abbreviation hi := (pl_heap_offset pop + pl_heap_size pop).
Context (Hlo : 0 < lo) (Hhi : hi < 2 ^ 61).

(** C7: [pmemobj_tx_add_range_direct] of a range of the heap, with room in the log: the loop over the tree of ranges ends and the call returns 0; the
    ranges of the transaction, which stay disjoint, grow by the new one; exactly the bytes that were in no range before are snapshotted; and nothing outside of the
    log is written.  The build is the one without PMDK_NO_TX. *)
Theorem pmemobj_tx_add_range_covers i u cap m0 N s L ss ptr size : (∀ a, lo ≤ a < hi → ¬ in_undo_log u cap a) →
  tx_work pop i u cap m0 N s L ss → heap_range pop ptr size → N < 2 ^ 31 - 1 → weight ss + size + 88 * (len L + 1) ≤ cap →
  ∃ s' L' ss', add_range ptr size s = (Ok 0, s') ∧ tx_work pop i u cap m0 (N + 1) s' L' (ss ++ ss') ∧
    (∀ a, covers L'.*2 a ↔ covers L.*2 a ∨ ptr ≤ a < ptr + size) ∧
    (∀ a, covers ss' a ↔ ptr ≤ a < ptr + size ∧ ¬ covers L.*2 a) ∧
    ∀ a, ¬ in_undo_log u cap a → rd (mem_of s') a = rd (mem_of s) a.
Proof using OpsSpec0 Hlo Hhi.
  intros Hheap Hw Hr HN Hc. edestruct (add_range_run o uuid_lo layout pop fuel ulog_free push_ok redo_extend undo_extend malloc zalloc tls_ok has_remote txr_malloc callback)
    as (s' & L' & ss' & H1 & H2 & H3 & H4 & H5 & H6 & _); [done..|]. by exists s', L', ss'.
Qed.

Lemma in_locks_rev l a : in_locks (rev l) a ↔ in_locks l a.
Proof using. clear. unfold in_locks. by rewrite <-Permutation_rev. Qed.
Lemma lookupZ_elem {A} (l : list A) i x : lookupZ l i = Some x → x ∈ l.
Proof using. clear. unfold lookupZ. case_decide; [apply list_elem_of_lookup_2|done]. Qed.
Lemma lock_set_rev l : lock_set (rev l) = lock_set l.
Proof using. clear. unfold lock_set. apply list_to_set_perm_L. by rewrite <-Permutation_rev. Qed.

(** Locks that were free are free again. *)
Lemma held_back (f : Z → Z) s locks : free_locks f (with_locks_held [] (ts_held s) (ts_malloc s) s) locks → (lock_set locks ∪ ts_held s) ∖ lock_set locks = ts_held s.
Proof using.
  clear. intros Hk. pose proof (fl_new _ _ _ Hk) as Hnew. apply set_eq. intros x. specialize (Hnew x). unfold lock_set.
  rewrite elem_of_difference, elem_of_union, elem_of_list_to_set. cbn in Hnew. tauto.
Qed.

(** A transaction with work done in it can be rolled back. *)
Lemma work_abortable i u cap m0 N s L ss snaps : tx_work pop i u cap m0 N s L ss → tx_pop (ts_tx s) ≠ 0 → tx_stage_callback (ts_tx s) = None →
  tx_snaps i u cap m0 s snaps → Forall (outside_locks (tx_locks (ts_tx s))) snaps → holds_lane uuid_lo i (ts_hold s) → abortable uuid_lo i u cap m0 s snaps.
Proof using. intros Hw Hp Hc Hs Ho Hh. split; try done; [apply Hw|by eapply work_tree]. Qed.

(** C5: a transaction that is aborted leaves no trace.  Outside of a transaction, begin one with any free locks, add ranges of the heap that fit in the undo log of the lane and change what has been added,
    then abort and end it: the calls return; no transaction is running, the locks and the lane are free as before, the log of the
    lane is empty, and every byte has the value it had at the beginning, but for those in the log and in the locks, which are as they were left.  The conditions: the ranges fit in the 2048 bytes of
    the undo log at the lane, without chained logs, where each range is charged its size and 88 bytes for itself and for every range added before it (so six ranges of 32 bytes fit, or one of 1960); the volatile
    allocations succeed; no stage callback is set; for the abort, every snapshot has a byte that is not in the locks (tx_restore_range asserts that something is left to restore).  Ranges may overlap, and ranges and stores come in any order
    in which every store is to what has been added.  The build is the one without PMDK_NO_TX. *)
Theorem pmemobj_tx_aborted_no_trace s range_malloc env locks ops errnum :
  tx_idle uuid_lo fuel s → free_locks os_lock (with_locks_held [] (ts_held s) (ts_malloc s) s) locks → Forall (eq true) range_malloc →
  (∀ l a, l ∈ hs_lanes (ts_hold s) → lo ≤ a < hi → ¬ in_undo_log (lane_log l) LANE_UNDO_SIZE a) →
  prog_ok pop (λ _, False) 0 LANE_UNDO_SIZE ops → len ops < 2 ^ 31 - 1 → pool ≠ 0 → errnum ≠ 0 → (∀ a, txr_malloc a = true) → (32 < fuel)%nat →
  ∃ i l s1 s2 snaps, tx_begin range_malloc pool env (lock_param <$> locks) s = (Ok 0, s1) ∧ lookupZ (hs_lanes (ts_hold s)) i = Some l ∧
    run ops s1 = (Ok tt, s2) ∧ tx_snaps i (lane_log l) LANE_UNDO_SIZE (mem_of s) s2 snaps ∧
    (∀ a, ¬ in_undo_log (lane_log l) LANE_UNDO_SIZE a → rd (mem_of s2) a = rd (prog_mem (mem_of s) ops) a) ∧
    (Forall (outside_locks locks) snaps →
     ∃ s3, (ignore (abort_with errnum);; tx_end) s2 = (Ok errnum, s3) ∧
       tx_stage (ts_tx s3) = TX_STAGE_NONE ∧ ts_held s3 = ts_held s ∧ lk_locks (hs_shared (ts_hold s3)) = lk_locks (hs_shared (ts_hold s)) ∧
       undo_log (mem_of s3) (lane_log l) LANE_UNDO_SIZE [] ∧
       ∀ a, ¬ in_undo_log (lane_log l) LANE_UNDO_SIZE a → rd (mem_of s3) a = if decide (in_locks locks a) then rd (mem_of s2) a else rd (mem_of s) a).
Proof using OpsSpec0 Hlo Hhi.
  intros Hid Hk Hrm Happ Hok Hlen Hp Hn Hm Hf.
  destruct (begin_run pool uuid_lo o layout pop fuel ulog_free push_ok malloc zalloc tls_ok has_remote txr_malloc os_lock callback range_malloc s env locks Hid Hk Hrm)
    as (i & l & s1 & E1 & Hl & Hi0 & [G1 G2 G3 G4 G5 G6 G7 G8 G9 G10 G11] & _).
  assert (∀ a, lo ≤ a < hi → ¬ in_undo_log (lane_log l) LANE_UNDO_SIZE a) as Hheap by (intros a; apply Happ; by eapply lookupZ_elem).
  destruct (prog_run o uuid_lo layout pop fuel ulog_free push_ok redo_extend undo_extend malloc zalloc tls_ok has_remote txr_malloc callback i (lane_log l) LANE_UNDO_SIZE (mem_of s)
    Hlo Hhi Hheap ops 0 s1 [] [] (λ _, False) 0 LANE_UNDO_SIZE G1) as (s2 & L & ss & E2 & W & [F1 F2 F3 F4 F5 F6 F7 F8 F9 F10] & Hm2); [done|done|done|done|done|].
  pose proof (tw_snaps _ _ _ _ _ _ _ _ _ W) as ((l' & snaps & Hs & _) & _). exists i, l, s1, s2, snaps. split_and!; try done; [by exists l'|by rewrite <-G10|].
  intros Ho. assert (tx_locks (ts_tx s2) = rev locks) as Hlk by (by rewrite F5).
  assert (abortable uuid_lo i (lane_log l) LANE_UNDO_SIZE (mem_of s) s2 snaps) as Hab.
  { eapply work_abortable; [exact W|by rewrite F1, G3|by rewrite F7|by exists l'| |unfold holds_lane; by rewrite F8, F9].
    rewrite Hlk. eapply Forall_impl; [|exact Ho]. intros sn (a & Ha & Hna). exists a. split; [done|]. by rewrite in_locks_rev. }
  assert (locks_ok s2) as Hlok by (destruct G8 as [K1 K2]; split; by rewrite ?F10, F5).
  destruct (unwound_run o uuid_lo layout fuel ulog_free push_ok malloc zalloc tls_ok has_remote txr_malloc callback i (lane_log l) LANE_UNDO_SIZE (mem_of s) Hm
    ltac:(unfold LANE_UNDO_SIZE; lia) [] env errnum s2 snaps Hn Hab ltac:(by rewrite F6) Hlok) as (s3 & E3 & [U1 U2 U3 U4 U5 U6 U7 U8 U9]).
  exists s3. split_and!; [exact E3|done| | |done|].
  - rewrite U6, F10, G9, Hlk, lock_set_rev. by apply (held_back os_lock s).
  - rewrite U7, F9, G6, updZ_updZ. by apply updZ_id.
  - intros a Ha. rewrite U9 by done. rewrite Hlk. repeat case_decide; try done; rewrite in_locks_rev in *; done.
Qed.

Section commit.
Context (qsort : list pobj_action_internal → list pobj_action_internal) (D : Z).
Local Abbreviation commit := (pmemobj_tx_commit uuid_lo o layout pop fuel ulog_free push_ok qsort malloc zalloc tls_ok has_remote callback).

(** C6: a transaction that is committed keeps its changes.  Outside of a transaction, begin one with any free locks, add ranges of the heap that fit in the undo log of the lane and change what has been
    added, then commit and end it: the calls return; no transaction is running, the locks and the lane are free as before, the log of the
    lane is empty, and the pool is as the stores have made it, but for the two logs of the lane.  The conditions: the ranges fit in the 2048 bytes of the undo log at the lane, without
    chained logs, where each range is charged its size and 88 bytes for itself and for every range added before it; the volatile allocations succeed; the redo log of the lane is idle and has
    room for the one entry that invalidates the undo log; no stage callback is set; [qsort] permutes its input.  Ranges may overlap, and ranges and stores come in any order in which every store is to what has been added.  The build
    is the one without PMDK_NO_TX. *)
Theorem pmemobj_tx_committed_keeps s range_malloc env locks ops : (∀ l, qsort l ≡ₚ l) →
  tx_idle uuid_lo fuel s → free_locks os_lock (with_locks_held [] (ts_held s) (ts_malloc s) s) locks → Forall (eq true) range_malloc →
  (∀ l, l ∈ hs_lanes (ts_hold s) → redo_ready pop (lane_log l) LANE_UNDO_SIZE D (ctx_state s (ln_external l))) →
  (∀ l a, l ∈ hs_lanes (ts_hold s) → lo ≤ a < hi → ¬ in_undo_log (lane_log l) LANE_UNDO_SIZE a) → hi ≤ D →
  prog_ok pop (λ _, False) 0 LANE_UNDO_SIZE ops → len ops < 2 ^ 31 - 1 → pool ≠ 0 → (1 < fuel)%nat →
  ∃ l s1 s2 s3, l ∈ hs_lanes (ts_hold s) ∧ tx_begin range_malloc pool env (lock_param <$> locks) s = (Ok 0, s1) ∧ run ops s1 = (Ok tt, s2) ∧
    (commit;; tx_end) s2 = (Ok 0, s3) ∧ tx_stage (ts_tx s3) = TX_STAGE_NONE ∧ ts_held s3 = ts_held s ∧
    lk_locks (hs_shared (ts_hold s3)) = lk_locks (hs_shared (ts_hold s)) ∧ undo_log (mem_of s3) (lane_log l) LANE_UNDO_SIZE [] ∧
    ∀ a, a < D → ¬ in_undo_log (lane_log l) LANE_UNDO_SIZE a → ¬ in_redo_log (ln_external l) a → rd (mem_of s3) a = rd (prog_mem (mem_of s) ops) a.
Proof using OpsSpec0 Hlo Hhi.
  intros Hq Hid Hk Hrm Hredo Happ HD Hok Hlen Hp Hf.
  destruct (begin_run pool uuid_lo o layout pop fuel ulog_free push_ok malloc zalloc tls_ok has_remote txr_malloc os_lock callback range_malloc s env locks Hid Hk Hrm)
    as (i & l & s1 & E1 & Hl & Hi0 & [G1 G2 G3 G4 G5 G6 G7 G8 G9 G10 G11] & Hal & Hex).
  assert (l ∈ hs_lanes (ts_hold s)) as Hin by (by eapply lookupZ_elem).
  assert (∀ a, lo ≤ a < hi → ¬ in_undo_log (lane_log l) LANE_UNDO_SIZE a) as Hheap by (intros a; by apply Happ).
  destruct (prog_run o uuid_lo layout pop fuel ulog_free push_ok redo_extend undo_extend malloc zalloc tls_ok has_remote txr_malloc callback i (lane_log l) LANE_UNDO_SIZE (mem_of s)
    Hlo Hhi Hheap ops 0 s1 [] [] (λ _, False) 0 LANE_UNDO_SIZE G1) as (s2 & L & ss & E2 & W & [F1 F2 F3 F4 F5 F6 F7 F8 F9 F10 F11 F12] & Hm2); [done|done|done|done|done|].
  pose proof (tw_snaps _ _ _ _ _ _ _ _ _ W) as ((l' & snaps & Hs & _) & _).
  pose proof (tl_lane _ _ _ _ _ _ _ Hs) as [_ Hl']%lane_of_lookup. specialize (F12 i). rewrite Hex, Hl' in F12. injection F12 as Hc.
  assert (redo_ready pop (lane_log l) LANE_UNDO_SIZE D (ctx_state s2 (ln_external l'))) as Hrr.
  { rewrite Hc. eapply redo_ready_mem; [..|eapply (redo_ready_reinit _ _ _ _ _ _ (Hredo l Hin))]; [done|cbn; by rewrite F11, Hal|]. intros a Ha.
    destruct (rr_undo _ _ _ _ _ (Hredo l Hin)) as (H1 & H2 & H3). change (rd (mem_of s2) a = rd (mem_of s) a). rewrite Hm2 by (unfold in_undo_log; lia). rewrite G10.
    eapply (prog_mem_out pop); [lia| |exact Hok]. by intros ? []. }
  destruct (commit_run o uuid_lo layout pop fuel ulog_free push_ok qsort Hq malloc zalloc tls_ok has_remote callback i (lane_log l) LANE_UNDO_SIZE D (mem_of s) s2 l' snaps env)
    as (s3 & E3 & [M1 M2 M3 M4 M5 M6 M7 M8 M9 M10 M11 M12 M13]); [apply W|by eapply work_tree|done|done|by rewrite F6|by rewrite F7|unfold holds_lane; by rewrite F8, F9|done|].
  assert (locks_ok s3) as Hlok by (destruct G8 as [K1 K2]; split; by rewrite ?M10, ?F10, M7, F5).
  destruct (end_run o uuid_lo layout fuel ulog_free push_ok malloc zalloc tls_ok has_remote txr_malloc callback s3 env) as (s4 & E4 & [D1 D2 D3 D4 D5 D6 D7 D8 D9 D10]);
    [by rewrite M8, F6|by rewrite M1|by rewrite M6, F1, G3|by rewrite M9, F7|done|done|].
  assert (mem_of s4 = mem_of s3) as Hmem by (unfold mem_of, tx_has_mem; by rewrite D9).
  exists l, s1, s2, s4. split_and!; [done|done|done| |done| | |by rewrite Hmem|].
  - erewrite bind_ok by exact E3. by rewrite E4, M2, F3, G11.
  - rewrite D7, M10, F10, G9, M7, F5, G7, lock_set_rev. by apply (held_back os_lock s).
  - rewrite D8, M11, F9, G6, updZ_updZ. by apply updZ_id.
  - intros a Ha H1 H2. rewrite Hmem, M13; [by rewrite Hm2, G10|done|done|]. by rewrite Hc.
Qed.
End commit.
End lifecycle.

(** ** Witnesses *)

Definition always (_ : Z) : bool := true.
(** The state after beginning a transaction with the locks. *)
Definition ex_begun (locks : list tx_lock_data) :=
  (pmemobj_tx_begin 1 7 clflush_ops 4096 40 no_free no_push true true true false always (λ _, 0) no_callback [] 1 false (lock_param <$> locks) ex_idle).2.

Lemma ex_begun_run locks : NoDup (txl_lock <$> locks) → Forall (λ k, is_lock_type (txl_type k) = true) locks →
  begun 1 7 ex_tx_heap 0 5056 false locks ex_idle (ex_begun locks).
Proof.
  intros H1 H2. destruct (begin_run 1 7 clflush_ops 4096 ex_tx_heap 40 no_free no_push true true true false always (λ _, 0) no_callback [] ex_idle false locks)
    as (i & l & s' & E & Hl & _ & Hb & _); [apply ex_tx_idle|by apply ex_free_locks|by constructor|].
  pose proof (lookupZ_Some _ _ _ Hl) as Hi. cbn in Hi. assert (i = 0) as -> by lia. injection Hl as <-. unfold ex_begun. by rewrite E.
Qed.

Lemma ex_log_apart a : pl_heap_offset ex_tx_heap ≤ a < pl_heap_offset ex_tx_heap + pl_heap_size ex_tx_heap → ¬ in_undo_log 5056 LANE_UNDO_SIZE a.
Proof. intros Ha. apply (ex_apart ex_tx_lane); [by left|done]. Qed.

Lemma pmemobj_tx_add_range_covers_witness : ∃ s', pmemobj_tx_add_range_direct 7 clflush_ops 4096 ex_tx_heap 40 no_free no_push None None true true true false always no_callback
  70000 100 (ex_begun [ex_lock]) = (Ok 0, s').
Proof.
  destruct (pmemobj_tx_add_range_covers clflush_ops 7 4096 ex_tx_heap 40 no_free no_push None None true true true false always no_callback ltac:(done) ltac:(done)
    0 5056 LANE_UNDO_SIZE (mem_of ex_idle) 0 (ex_begun [ex_lock]) [] [] 70000 100) as (s' & L' & ss' & E & _).
  - exact ex_log_apart.
  - apply (bg_work _ _ _ _ _ _ _ _ _ (ex_begun_run [ex_lock] ltac:(repeat constructor; set_solver) ltac:(by repeat constructor))).
  - split; cbn; unfold PMEMOBJ_MAX_ALLOC_SIZE; lia.
  - lia.
  - cbn. unfold LANE_UNDO_SIZE. lia.
  - by exists s'.
Defined.

Lemma outside_no_locks sn : snap_ok sn → outside_locks [] sn.
Proof. intros [_ Hne _ _]. exists (sn_dst sn). split; [|by intros Hk%Exists_nil]. unfold snap_covers. destruct (sn_data sn); [done|cbn; lia]. Qed.

(** With a lock up to the abort, and without one to the end. *)
Lemma pmemobj_tx_aborted_no_trace_witness :
  (∃ s2, prog_do clflush_ops 7 4096 ex_tx_heap 40 no_free no_push None None true true true false always no_callback ex_prog (ex_begun [ex_lock]) = (Ok tt, s2)) ∧
  ∃ s2 s3, prog_do clflush_ops 7 4096 ex_tx_heap 40 no_free no_push None None true true true false always no_callback ex_prog (ex_begun []) = (Ok tt, s2) ∧
    (ignore (pmemobj_tx_abort 7 clflush_ops 4096 40 no_free no_push true true true false always no_callback 5);;
     pmemobj_tx_end 7 clflush_ops 4096 40 no_free no_push true true true false always no_callback) s2 = (Ok 5, s3) ∧
    rd (mem_of s2) 70000 = 1 ∧ rd (mem_of s3) 70000 = 11.
Proof.
  assert (∀ locks, NoDup (txl_lock <$> locks) → Forall (λ k, is_lock_type (txl_type k) = true) locks → ∃ s2 snaps,
    prog_do clflush_ops 7 4096 ex_tx_heap 40 no_free no_push None None true true true false always no_callback ex_prog (ex_begun locks) = (Ok tt, s2) ∧
    Forall snap_ok snaps ∧ rd (mem_of s2) 70000 = 1 ∧ (Forall (outside_locks locks) snaps → ∃ s3,
    (ignore (pmemobj_tx_abort 7 clflush_ops 4096 40 no_free no_push true true true false always no_callback 5);;
     pmemobj_tx_end 7 clflush_ops 4096 40 no_free no_push true true true false always no_callback) s2 = (Ok 5, s3) ∧
    ∀ a, ¬ in_undo_log 5056 LANE_UNDO_SIZE a → rd (mem_of s3) a = if decide (in_locks locks a) then rd (mem_of s2) a else rd (mem_of ex_idle) a)) as Hrun.
  { intros locks H1 H2. destruct (pmemobj_tx_aborted_no_trace clflush_ops 1 7 4096 ex_tx_heap 40 no_free no_push None None true true true false always (λ _, 0) no_callback
      ltac:(done) ltac:(done) ex_idle [] false locks ex_prog 5) as (i & l & s1 & s2 & snaps & E1 & Hl & E2 & [l' Hs] & Hm & H);
      [apply ex_tx_idle|by apply ex_free_locks|by constructor|exact ex_apart|apply ex_prog_ok|done|done|done|done|lia|].
    pose proof (lookupZ_Some _ _ _ Hl) as Hi. cbn in Hi. assert (i = 0) as -> by lia. injection Hl as <-.
    exists s2, snaps. unfold ex_begun. rewrite E1. split_and!; [exact E2|exact (ui_ok _ _ _ _ (ti_undo _ _ _ _ _ (tl_undo _ _ _ _ _ _ _ Hs)))| |].
    - rewrite Hm; [vm_compute; reflexivity|]. apply ex_log_apart. cbn. lia.
    - intros Ho. destruct (H Ho) as (s3 & E3 & _ & _ & _ & _ & Hm3). by exists s3. }
  split.
  - destruct (Hrun [ex_lock]) as (s2 & _ & E & _); [repeat constructor; set_solver|by repeat constructor|]. by exists s2.
  - destruct (Hrun []) as (s2 & snaps & E & Hok & Hm & H); [constructor|constructor|]. destruct H as (s3 & E3 & Hm3).
    { eapply Forall_impl; [|exact Hok]. apply outside_no_locks. }
    exists s2, s3. split_and!; [done|done|done|]. rewrite Hm3; [vm_compute; reflexivity|]. apply ex_log_apart. cbn. lia.
Defined.

(** Two transactions in the outermost one. *)
Definition ex_nested := with_inner [false; true; false] 0 (ex_begun [ex_lock]).

Lemma ex_nested_abortable : ∃ snaps, abortable 7 0 5056 LANE_UNDO_SIZE (mem_of ex_idle) ex_nested snaps ∧ snaps = [].
Proof.
  destruct (ex_begun_run [ex_lock]) as [G1 _ G3 G4 G5 _ _ _ _ _ _]; [repeat constructor; set_solver|by repeat constructor|].
  pose proof (tw_snaps _ _ _ _ _ _ _ _ _ G1) as ((l & snaps & Hs & Hss) & _). exists snaps. destruct snaps; [|done]. split; [|done].
  apply abortable_entries. eapply work_abortable; [exact G1|by rewrite G3|done|by exists l|constructor|done].
Qed.

(** The state after the program, in two transactions in the outermost one. *)
Lemma ex_worked : ∃ s2 snaps,
  prog_do clflush_ops 7 4096 ex_tx_heap 40 no_free no_push None None true true true false always no_callback ex_prog (ex_begun []) = (Ok tt, s2) ∧
  abortable 7 0 5056 LANE_UNDO_SIZE (mem_of ex_idle) (with_inner [false; true; false] 0 s2) snaps ∧ locks_ok (with_inner [false; true; false] 0 s2) ∧
  tx_locks (ts_tx s2) = [] ∧ rd (mem_of s2) 70000 = 1.
Proof.
  destruct (ex_begun_run []) as [G1 G2 G3 G4 G5 _ G7 G8 _ G10 _]; [constructor..|].
  destruct (prog_run clflush_ops 7 4096 ex_tx_heap 40 no_free no_push None None true true true false always no_callback 0 5056 LANE_UNDO_SIZE (mem_of ex_idle)
    ltac:(done) ltac:(done) ex_log_apart ex_prog 0 (ex_begun []) [] [] (λ _, False) 0 LANE_UNDO_SIZE G1) as (s2 & L & ss & E2 & W & [F1 F2 F3 F4 F5 F6 F7 F8 F9 F10] & Hm2);
    [done|done|done|exact ex_prog_ok|done|].
  pose proof (tw_snaps _ _ _ _ _ _ _ _ _ W) as ((l' & snaps & Hs & _) & _). assert (tx_locks (ts_tx s2) = []) as Hlk by (by rewrite F5).
  exists s2, snaps. split_and!; [exact E2| | |exact Hlk|].
  - apply abortable_entries. eapply work_abortable; [exact W|by rewrite F1, G3|by rewrite F7|by exists l'| |unfold holds_lane; by rewrite F8, F9].
    rewrite Hlk. eapply Forall_impl; [|exact (ui_ok _ _ _ _ (ti_undo _ _ _ _ _ (tl_undo _ _ _ _ _ _ _ Hs)))]. apply outside_no_locks.
  - apply locks_ok_entries. destruct G8 as [K1 K2]. split; by rewrite ?F10, F5.
  - rewrite Hm2, G10; [vm_compute; reflexivity|]. apply ex_log_apart. cbn. lia.
Qed.

(** With a lock that is released, and with changes that are rolled back. *)
Lemma pmemobj_tx_abort_unwinds_witness : (∃ s',
  (ignore (pmemobj_tx_abort 7 clflush_ops 4096 40 no_free no_push true true true false always no_callback 5);;
   unwind clflush_ops 7 4096 40 no_free no_push true true true false always no_callback 2;;
   pmemobj_tx_end 7 clflush_ops 4096 40 no_free no_push true true true false always no_callback) ex_nested = (Ok 5, s') ∧ ts_held s' = ts_held ex_nested ∖ {[70016]}) ∧
  ∃ s2 s',
  prog_do clflush_ops 7 4096 ex_tx_heap 40 no_free no_push None None true true true false always no_callback ex_prog (ex_begun []) = (Ok tt, s2) ∧
  (ignore (pmemobj_tx_abort 7 clflush_ops 4096 40 no_free no_push true true true false always no_callback 5);;
   unwind clflush_ops 7 4096 40 no_free no_push true true true false always no_callback 2;;
   pmemobj_tx_end 7 clflush_ops 4096 40 no_free no_push true true true false always no_callback) (with_inner [false; true; false] 0 s2) = (Ok 5, s') ∧
  rd (mem_of s2) 70000 = 1 ∧ rd (mem_of s') 70000 = 11.
Proof.
  split.
  - destruct ex_nested_abortable as (snaps & Ha & ->).
    destruct (ex_begun_run [ex_lock]) as [_ _ _ _ _ _ G7 G8 _ _ _]; [repeat constructor; set_solver|by repeat constructor|].
    destruct (pmemobj_tx_abort_unwinds clflush_ops 7 4096 40 no_free no_push true true true false always no_callback 0 5056 LANE_UNDO_SIZE (mem_of ex_idle) ltac:(done)
      ltac:(reflexivity) [false; true] false 5 ex_nested []) as (s' & E & Hu); [discriminate|exact Ha|reflexivity|exact (locks_ok_entries _ _ _ G8)|].
    exists s'. split; [exact E|]. rewrite (uw_held _ _ _ _ _ _ _ Hu). unfold ex_nested at 2. rewrite inner_locks, G7. f_equal.
  - destruct ex_worked as (s2 & snaps & E & Ha & Hk & Hlk & Hm).
    destruct (pmemobj_tx_abort_unwinds clflush_ops 7 4096 40 no_free no_push true true true false always no_callback 0 5056 LANE_UNDO_SIZE (mem_of ex_idle) ltac:(done)
      ltac:(reflexivity) [false; true] false 5 (with_inner [false; true; false] 0 s2) snaps) as (s' & E' & Hu); [discriminate|exact Ha|reflexivity|exact Hk|].
    exists s2, s'. split; [exact E|]. split; [exact E'|]. split; [exact Hm|].
    rewrite (uw_mem _ _ _ _ _ _ _ Hu 70000) by (apply ex_log_apart; cbn; lia). rewrite inner_locks, Hlk, decide_False by (by intros []%Exists_nil).
    vm_compute. reflexivity.
Defined.

Lemma pmemobj_tx_committed_keeps_witness : ∃ s2 s3,
  prog_do clflush_ops 7 4096 ex_tx_heap 40 no_free no_push None None true true true false always no_callback ex_prog (ex_begun [ex_lock]) = (Ok tt, s2) ∧
  (pmemobj_tx_commit 7 clflush_ops 4096 ex_tx_heap 40 no_free no_push id true true true false no_callback;;
   pmemobj_tx_end 7 clflush_ops 4096 40 no_free no_push true true true false always no_callback) s2 = (Ok 0, s3) ∧ rd (mem_of s3) 70120 = 3.
Proof.
  destruct (pmemobj_tx_committed_keeps clflush_ops 1 7 4096 ex_tx_heap 40 no_free no_push None None true true true false always (λ _, 0) no_callback
    ltac:(done) ltac:(done) id 1200000 ex_idle [] false [ex_lock] ex_prog) as (l & s1 & s2 & s3 & Hl & E1 & E2 & E3 & _ & _ & _ & _ & Hm);
    [done|apply ex_tx_idle|apply ex_free_locks; [repeat constructor; set_solver|by repeat constructor]|by constructor|exact ex_redo_ready|exact ex_apart|done|apply ex_prog_ok|done|done|lia|].
  apply list_elem_of_singleton in Hl as ->. exists s2, s3. unfold ex_begun. rewrite E1. split; [exact E2|]. split; [exact E3|].
  rewrite Hm; [vm_compute; reflexivity|reflexivity|apply ex_log_apart; split; [discriminate|reflexivity]|]. unfold in_redo_log. change (oc_ulog _) with 4352. change (oc_ulog_base_nbytes _) with 640. clear. lia.
Defined.
