(* ===== verification/ObjListTheorems.v ===== *)
(** * libpmemobj: theorems about lists

    The operations of [list.c] insert, remove and move elements of a sequence. *)

From stdpp Require Import base gmap list numbers.
From S2P Require Import Prelude Memory Pmem Util Ulog UlogSpec UlogEntry UlogTheorems Vecq Memops MemopsMerge MemopsRedo MemopsCrash MemopsTheorems Lane LaneHold LaneHoldTheorems Memblock.
From S2P Require Import MemopsExample Container ContainerSeglists ContainerRavl Heap HeapExample HeapRun Palloc PallocTheorems Pmalloc Tx TxExample ObjList ObjListSpec ObjListRun.
From stdpp Require Import list.
Local Open Scope Z_scope.

Local Abbreviation smem s := (pm_mem (me_pm (ms_env s))).

(** ** Lists in the words of the memory *)

Section lists.
Context (uuid_lo : Z) (pop : pool_layout) (Huuid : 0 < uuid_lo < 2 ^ 64).
Implicit Types (w : Z → Z).

(** The list at [head] of the elements [xs], linked by their entries at [pe]. *)
Record obj_list w (pe head : Z) (xs : list Z) : Prop := {
  ol_first : firstw w head = default 0 (list.head xs);
  ol_ring : ring (nextw w pe) (prevw w pe) xs;
  ol_uuid : ∀ x, x ∈ xs → w (x + pe) = uuid_lo ∧ w (x + pe + 16) = uuid_lo;
  ol_head : w head = uuid_lo ∨ w head = 0 ∧ xs = []
}.

(** The head and the elements are objects of the heap, and they do not overlap. *)
Record list_place (pe head : Z) (xs : list Z) : Prop := {
  lp_nodup : NoDup xs;
  lp_head : head_ok pop head;
  lp_elem : ∀ x, x ∈ xs → elem_ok pop pe x;
  lp_apart : ∀ x y, x ∈ xs → y ∈ xs → x = y ∨ x + 32 ≤ y ∨ y + 32 ≤ x;
  lp_head_apart : ∀ x, x ∈ xs → x + pe + 32 ≤ head ∨ head + 16 ≤ x + pe
}.

(** The words of a list. *)
Definition list_word (pe head : Z) (xs : list Z) (a : Z) : Prop := a = head ∨ a = head + 8 ∨ ∃ x, x ∈ xs ∧ x + pe ≤ a < x + pe + 32.

Lemma list_ext w w' pe head xs : (∀ a, list_word pe head xs a → w' a = w a) → obj_list w pe head xs → obj_list w' pe head xs.
Proof using.
  clear. intros Hw [H1 H2 H3 H4].
  assert (∀ x k, x ∈ xs → 0 ≤ k < 32 → w' (x + pe + k) = w (x + pe + k)) as He by (intros x k Hx Hk; apply Hw; right; right; exists x; split; [done|lia]).
  split.
  - unfold firstw in *. rewrite Hw; [done|by right; left].
  - eapply ring_ext; [exact H2|]. intros y Hy. unfold nextw, prevw. by rewrite !He by (done || lia).
  - intros x Hx. destruct (H3 x Hx) as [E1 E2]. rewrite (He x 16), E2 by (done || lia). split; [|done]. rewrite <-E1. replace (x + pe) with (x + pe + 0) by lia. apply He; [done|lia].
  - rewrite Hw; [done|by left].
Qed.

Lemma place_sub pe head xs ys : list_place pe head xs → NoDup ys → (∀ y, y ∈ ys → y ∈ xs) → list_place pe head ys.
Proof using. clear. intros [H1 H2 H3 H4 H5] Hd Hs. split; auto. Qed.

Lemma entry_ne pe head xs x y i j a b : list_place pe head xs → a = x + pe + i → b = y + pe + j → x ∈ xs → y ∈ xs → 0 ≤ i < 32 → 0 ≤ j < 32 →
  x ≠ y ∨ i ≠ j → a ≠ b.
Proof using. clear. intros Hp -> -> Hx Hy Hi Hj Hne. destruct (lp_apart _ _ _ Hp x y Hx Hy); lia. Qed.
Lemma head_ne pe head xs x i j a b : list_place pe head xs → a = x + pe + i → b = head + j → x ∈ xs → 0 ≤ i < 32 → 0 ≤ j < 16 → a ≠ b.
Proof using. clear. intros Hp -> -> Hx Hi Hj. destruct (lp_head_apart _ _ _ Hp x Hx); lia. Qed.

(** Addresses of a list differ when they are of different elements or of different fields. *)
Ltac addr_ne Hp :=
  match type of Hp with list_place ?pe ?head ?xs =>
    let arith := (clear; lia) in
    let go x i y j := (apply (entry_ne pe head xs x y i j _ _ Hp); [arith|arith|done|done|arith|arith|first [right; arith|left; done|left; congruence]]) in
    let hd x i j := (apply (head_ne pe head xs x i j _ _ Hp); [arith|arith|done|arith|arith]) in
    match goal with
    | |- head + _ ≠ head => arith
    | |- head ≠ head + _ => arith
    | |- ?x + pe + ?i ≠ ?y + pe + ?j => go x i y j
    | |- ?x + pe ≠ ?y + pe + ?j => go x 0 y j
    | |- ?x + pe + ?i ≠ ?y + pe => go x i y 0
    | |- ?x + pe ≠ ?y + pe => go x 0 y 0
    | |- ?x + pe + ?i ≠ head + ?j => hd x i j
    | |- ?x + pe ≠ head + ?j => hd x 0 j
    | |- ?x + pe + ?i ≠ head => hd x i 0
    | |- ?x + pe ≠ head => hd x 0 0
    | |- head + ?j ≠ _ => apply not_eq_sym; addr_ne Hp
    | |- head ≠ _ => apply not_eq_sym; addr_ne Hp
    end
  end.
(** A word after assignments to words of the list. *)
Ltac words Hp :=
  unfold assigned, nextw, prevw, firstw, fill_sets, uuid_sets; cbn [app foldl fst snd];
  repeat match goal with
  | |- context [?a =? ?a] => rewrite (Z.eqb_refl a)
  | |- context [?a =? ?b] => rewrite (proj2 (Z.eqb_neq a b)) by addr_ne Hp
  end; try done.

Lemma elem_pos pe head xs x : list_place pe head xs → x ∈ xs → 0 < x < 2 ^ 61.
Proof using. clear. intros Hp Hx. by apply (lp_elem _ _ _ Hp) in Hx as []. Qed.

(** *** Insertion *)

Definition insert_all w pe head d before x : list (Z * Z) :=
  uuid_sets uuid_lo pe x true ++ insert_sets uuid_lo w pe head d before x ++ fill_sets pe x (insert_next w pe d before x) (insert_prev w pe d before x).

Lemma inserted_empty w pe head before x : obj_list w pe head [] → list_place pe head [x] →
  obj_list (assigned (insert_all w pe head 0 before x) w) pe head [x].
Proof using Huuid.
  intros [H1 H2 H3 H4] Hp. assert (x ∈ [x]) as Hx by left.
  unfold insert_all, insert_sets, insert_next, insert_prev, head_sets. change (0 =? 0) with true. cbv iota. split.
  - destruct (w head =? 0); words Hp.
  - cbn. destruct (w head =? 0); words Hp.
  - intros y ->%list_elem_of_singleton. destruct (w head =? 0); split; words Hp.
  - left. destruct (Z.eqb_spec (w head) 0); words Hp. destruct H4 as [H4|[H4 _]]; done.
Qed.

(** The elements of a list that an operation looks at. *)
Lemma list_next w pe head xs x : obj_list w pe head xs → x ∈ xs → nextw w pe x ∈ xs ∧ prevw w pe x ∈ xs.
Proof using. clear. intros [_ H _ _] Hx. by apply ring_next_in. Qed.
Lemma list_head_uuid w pe head xs x : obj_list w pe head xs → x ∈ xs → w head = uuid_lo.
Proof using. clear. intros [_ _ _ [H|[_ ->]]] Hx; [done|by apply not_elem_of_nil in Hx]. Qed.
Lemma head_sets_one w pe head xs x v : obj_list w pe head xs → x ∈ xs → head_sets uuid_lo w head v = [(head + 8, v)].
Proof using Huuid. intros Hl Hx. unfold head_sets. rewrite (list_head_uuid _ _ _ _ _ Hl Hx), (proj2 (Z.eqb_neq _ _)) by lia. done. Qed.
Lemma list_first_at w pe head A d B : obj_list w pe head (A ++ d :: B) → NoDup (A ++ d :: B) → (firstw w head = d ↔ A = []).
Proof using.
  clear. intros [-> _ _ _] Hd. destruct A as [|a A]; [done|]. cbn. split; [|done]. intros ->. apply NoDup_cons in Hd as [Hd _]. destruct Hd. set_solver.
Qed.

Lemma place_new pe head x xs : list_place pe head (x :: xs) → NoDup xs ∧ x ∉ xs.
Proof using. clear. intros Hp. by pose proof (lp_nodup _ _ _ Hp) as [Hx Hn]%NoDup_cons. Qed.

Lemma inserted_before w pe head A d B x : obj_list w pe head (A ++ d :: B) → list_place pe head (x :: A ++ d :: B) → d ≠ 0 →
  obj_list (assigned (insert_all w pe head d true x) w) pe head (A ++ x :: d :: B).
Proof using Huuid.
  intros Hl Hp Hd0. destruct (place_new _ _ _ _ Hp) as (Hnd & Hx). assert (∀ y, y ∈ A ++ d :: B → y ∈ x :: A ++ d :: B ∧ x ≠ y) as Hin by set_solver.
  assert (d ∈ A ++ d :: B) as Hd by set_solver. destruct (list_next _ _ _ _ _ Hl Hd) as [_ Hq]. pose proof (list_first_at _ _ _ _ _ _ Hl Hnd) as Hf.
  pose proof (Hin d Hd) as [? ?]. pose proof (Hin _ Hq) as [? ?]. assert (x ∈ x :: A ++ d :: B) by left.
  unfold insert_all, insert_sets, insert_next, insert_prev. rewrite (proj2 (Z.eqb_neq d 0)) by done. rewrite (head_sets_one _ _ _ _ _ _ Hl Hd).
  pose proof (list_head_uuid _ _ _ _ _ Hl Hd) as Hu. destruct Hl as [L1 L2 L3 L4]. remember (prevw w pe d) as q eqn:Eq. split.
  - destruct A as [|a A]; cbn in L1 |- *.
    + rewrite L1, Z.eqb_refl. words Hp.
    + rewrite (proj2 (Z.eqb_neq d (firstw w head))) by (intros E; symmetry in E; by apply Hf in E). rewrite <-L1. words Hp.
  - apply (ring_insert_before (nextw w pe) (prevw w pe)); rewrite <-?Eq; [done|done|destruct (d =? firstw w head); words Hp..| |];
      intros y Hy Hne; pose proof (Hin y Hy) as [? ?]; destruct (d =? firstw w head); words Hp.
  - intros y Hy. assert (y = x ∨ y ∈ A ++ d :: B) as [->|Hy'] by set_solver; [split; destruct (d =? firstw w head); words Hp|].
    destruct (L3 y Hy') as [I1 I2]. pose proof (Hin y Hy') as [? ?]. split; destruct (d =? firstw w head); words Hp.
  - left. destruct (d =? firstw w head); words Hp.
Qed.

Lemma inserted_after w pe head A d B x : obj_list w pe head (A ++ d :: B) → list_place pe head (x :: A ++ d :: B) → d ≠ 0 →
  obj_list (assigned (insert_all w pe head d false x) w) pe head (A ++ d :: x :: B).
Proof using Huuid.
  intros Hl Hp Hd0. destruct (place_new _ _ _ _ Hp) as (Hnd & Hx). assert (∀ y, y ∈ A ++ d :: B → y ∈ x :: A ++ d :: B ∧ x ≠ y) as Hin by set_solver.
  assert (d ∈ A ++ d :: B) as Hd by set_solver. destruct (list_next _ _ _ _ _ Hl Hd) as [Hn _].
  pose proof (Hin d Hd) as [? ?]. pose proof (Hin _ Hn) as [? ?]. assert (x ∈ x :: A ++ d :: B) by left.
  unfold insert_all, insert_sets, insert_next, insert_prev. rewrite (proj2 (Z.eqb_neq d 0)) by done.
  pose proof (list_head_uuid _ _ _ _ _ Hl Hd) as Hu. destruct Hl as [L1 L2 L3 L4]. remember (nextw w pe d) as n eqn:En. split.
  - assert (list.head (A ++ d :: x :: B) = list.head (A ++ d :: B)) as -> by (by destruct A). rewrite <-L1. words Hp.
  - apply (ring_insert_after (nextw w pe) (prevw w pe)); rewrite <-?En; [done|done|words Hp..| |]; intros y Hy Hne; pose proof (Hin y Hy) as [? ?]; words Hp.
  - intros y Hy. assert (y = x ∨ y ∈ A ++ d :: B) as [->|Hy'] by set_solver; [split; words Hp|].
    destruct (L3 y Hy') as [I1 I2]. pose proof (Hin y Hy') as [? ?]. split; words Hp.
  - left. words Hp.
Qed.

(** *** The destination *)

(** [list_get_dest] on words. *)
Definition get_dest w (pe head dest : Z) (before : bool) : Z :=
  if negb (dest =? 0) then dest else if (firstw w head =? 0) || before then firstw w head else prevw w pe (firstw w head).

Lemma dest_inserted w pe head xs dest before x : obj_list w pe head xs → list_place pe head xs → (dest ≠ 0 → dest ∈ xs) →
  let d := get_dest w pe head dest before in (d = 0 ∧ xs = [] ∨ d ≠ 0 ∧ d ∈ xs) ∧ seq_insert d before x xs = seq_insert dest before x xs.
Proof using.
  intros Hl Hp Hd d. subst d. unfold get_dest. destruct (Z.eqb_spec dest 0) as [->|H0]; cbn [negb]; [|by split; [right; auto|]].
  destruct xs as [|a xs].
  { rewrite (ol_first _ _ _ _ Hl). cbn. split; [by left|done]. }
  pose proof (elem_pos _ _ _ a Hp ltac:(left)) as Ha. pose proof (ol_first _ _ _ _ Hl) as ->. cbn [list.head default id]. rewrite (proj2 (Z.eqb_neq a 0)) by lia. cbn [orb].
  pose proof (lp_nodup _ _ _ Hp) as Hn. destruct before.
  - split; [right; split; [lia|left]|]. by apply (seq_insert_at a true x [] xs); [lia|].
  - pose proof (ring_last _ _ _ _ (ol_ring _ _ _ _ Hl)) as ->. pose proof (lastof_in xs a) as Hlast. split; [right; split; [|done]; pose proof (elem_pos _ _ _ _ Hp Hlast); lia|].
    destruct (list_eq_dec xs []) as [->|Hne]; [by apply (seq_insert_at a false x [] []); [lia|]|].
    destruct (exists_last Hne) as (ys & z & ->). rewrite lastof_snoc in Hlast |- *. change (a :: ys ++ [z]) with ((a :: ys) ++ z :: []) in *.
    rewrite seq_insert_at; [|pose proof (elem_pos _ _ _ _ Hp Hlast); lia|done]. unfold seq_insert. cbn [Z.eqb]. by rewrite <-app_assoc.
Qed.

Lemma list_inserted w pe head xs dest before x : obj_list w pe head xs → list_place pe head (x :: xs) → (dest ≠ 0 → dest ∈ xs) →
  obj_list (assigned (insert_all w pe head (get_dest w pe head dest before) before x) w) pe head (seq_insert dest before x xs).
Proof using Huuid.
  intros Hl Hp Hd. destruct (place_new _ _ _ _ Hp) as [Hnd _].
  destruct (dest_inserted w pe head xs dest before x Hl) as [Hor <-]; [eapply place_sub; [exact Hp|done|by intros; right]|done|].
  destruct Hor as [[-> ->]|[H0 (A & B & ->)%list_elem_of_split]].
  - pose proof (inserted_empty w pe head before x Hl Hp). unfold seq_insert. cbn [Z.eqb fmap list_fmap concat app]. by destruct before.
  - rewrite seq_insert_at by done. destruct before; cbn [app]; [by apply inserted_before|by apply inserted_after].
Qed.

(** *** Removal *)

Lemma removed w pe head xs x : obj_list w pe head xs → list_place pe head xs → x ∈ xs →
  obj_list (assigned (remove_sets uuid_lo w pe head x) w) pe head (seq_remove x xs).
Proof using Huuid.
  intros Hl Hp Hx. pose proof (lp_nodup _ _ _ Hp) as Hnd. destruct (list_next _ _ _ _ _ Hl Hx) as [Hn Hq].
  pose proof (list_head_uuid _ _ _ _ _ Hl Hx) as Hu. unfold remove_sets. rewrite !(head_sets_one _ _ _ _ _ _ Hl Hx).
  apply list_elem_of_split in Hx as (A & B & ->). rewrite seq_remove_at by done. pose proof (list_first_at _ _ _ _ _ _ Hl Hnd) as Hf.
  destruct Hl as [L1 L2 L3 L4]. destruct (Z.eqb_spec (nextw w pe x) x) as [E|Hne].
  { destruct (ring_single _ _ _ _ _ L2 Hnd E) as [-> ->]. split; [words Hp|done|by intros y Hy%not_elem_of_nil|left; words Hp]. }
  pose proof (ring_remove_next _ _ _ _ _ L2 Hnd Hne) as [Hn' Hq'].
  pose proof (λ N' P', ring_remove (nextw w pe) (prevw w pe) N' P' A x B L2 Hnd Hne) as Hring.
  assert (A = [] → nextw w pe x = default 0 (list.head B)) as Hsec.
  { intros ->. destruct B as [|b B]; [by apply not_elem_of_nil in Hn'|]. by eapply ring_second. }
  remember (nextw w pe x) as n eqn:En. remember (prevw w pe x) as q eqn:Eq.
  assert (∀ y, y ∈ A ++ B → y ∈ A ++ x :: B) as Hin by set_solver. split.
  - destruct A as [|a A].
    + rewrite L1. cbn [list.head default app id]. rewrite Z.eqb_refl, <-Hsec by done. words Hp.
    + rewrite (proj2 (Z.eqb_neq (firstw w head) x)) by (intros E; by apply Hf in E). cbn in L1 |- *. rewrite <-L1. words Hp.
  - apply Hring; [destruct (firstw w head =? x); words Hp..| |]; intros y Hy Hy'; pose proof (Hin y Hy); destruct (firstw w head =? x); words Hp.
  - intros y Hy. destruct (L3 y (Hin y Hy)) as [I1 I2]. pose proof (Hin y Hy). split; destruct (firstw w head =? x); words Hp.
  - left. destruct (firstw w head =? x); words Hp.
Qed.

(** The words that removing changes are of the list. *)
Lemma remove_sets_words w pe head xs x : obj_list w pe head xs → x ∈ xs → Forall (λ r, list_word pe head xs r.1) (remove_sets uuid_lo w pe head x).
Proof using Huuid.
  intros Hl Hx. destruct (list_next _ _ _ _ _ Hl Hx) as [Hn Hq]. unfold remove_sets. rewrite !(head_sets_one _ _ _ _ _ _ Hl Hx).
  assert (list_word pe head xs (head + 8)) as H8 by (by right; left).
  case_match; [by repeat constructor|]. constructor; [right; right; eexists; split; [exact Hn|cbn; lia]|]. constructor; [right; right; eexists; split; [exact Hq|cbn; lia]|].
  case_match; by repeat constructor.
Qed.
Lemma insert_sets_words w pe head xs d before x : obj_list w pe head xs → d = 0 ∧ xs = [] ∨ d ≠ 0 ∧ d ∈ xs →
  Forall (λ r, list_word pe head xs r.1) (insert_sets uuid_lo w pe head d before x).
Proof using Huuid.
  intros Hl Hd. assert (list_word pe head xs (head + 8)) as H8 by (by right; left). assert (list_word pe head xs head) as H0 by (by left). unfold insert_sets.
  destruct Hd as [[-> ->]|[Hd0 Hd]]; [unfold head_sets; cbn; case_match; by repeat constructor|].
  destruct (list_next _ _ _ _ _ Hl Hd) as [Hn Hq]. rewrite (proj2 (Z.eqb_neq d 0)) by done. rewrite !(head_sets_one _ _ _ _ _ _ Hl Hd). destruct before.
  - constructor; [right; right; eexists; split; [exact Hd|cbn; lia]|]. constructor; [right; right; eexists; split; [exact Hq|cbn; lia]|].
    case_match; by repeat constructor.
  - constructor; [right; right; eexists; split; [exact Hd|cbn; lia]|]. constructor; [right; right; eexists; split; [exact Hn|cbn; lia]|]. constructor.
Qed.

(** *** Moving *)

Lemma seq_remove_in x y xs : y ∈ seq_remove x xs ↔ y ≠ x ∧ y ∈ xs.
Proof using. clear. unfold seq_remove. by rewrite list_elem_of_filter. Qed.
Lemma place_remove pe head xs x : list_place pe head xs → list_place pe head (seq_remove x xs).
Proof using. clear. intros Hp. eapply place_sub; [exact Hp|apply NoDup_filter, Hp|]. by intros y [_ ?]%seq_remove_in. Qed.
Lemma place_readd pe head xs x : list_place pe head xs → x ∈ xs → list_place pe head (x :: seq_remove x xs).
Proof using.
  clear. intros Hp Hx. eapply place_sub; [exact Hp|apply NoDup_cons; split; [by intros [? _]%seq_remove_in|apply NoDup_filter, Hp]|].
  intros y [->|[_ ?]%seq_remove_in]%elem_of_cons; done.
Qed.

Lemma remove_sets_rest w pe head xs x : obj_list w pe head xs → list_place pe head xs → x ∈ xs →
  Forall (λ r, list_word pe head (seq_remove x xs) r.1) (remove_sets uuid_lo w pe head x).
Proof using Huuid.
  intros Hl Hp Hx. destruct (list_next _ _ _ _ _ Hl Hx) as [Hn Hq]. unfold remove_sets. rewrite !(head_sets_one _ _ _ _ _ _ Hl Hx).
  assert (list_word pe head (seq_remove x xs) (head + 8)) as H8 by (by right; left).
  destruct (Z.eqb_spec (nextw w pe x) x) as [E|Hne]; [by repeat constructor|].
  destruct (ring_prev_next _ _ _ x (ol_ring _ _ _ _ Hl) Hx) as [_ Hnp]. assert (prevw w pe x ≠ x) by congruence.
  constructor; [right; right; exists (nextw w pe x); split; [by apply seq_remove_in|cbn; lia]|]. constructor; [right; right; exists (prevw w pe x); split; [by apply seq_remove_in|cbn; lia]|].
  case_match; by repeat constructor.
Qed.

(** Identifiers that are there already. *)
Lemma uuid_same w pe x rs a : w (x + pe) = uuid_lo → w (x + pe + 16) = uuid_lo → assigned (uuid_sets uuid_lo pe x true ++ rs) w a = assigned rs w a.
Proof using.
  clear. intros H1 H2. rewrite assigned_app. apply assigned_at. unfold assigned, uuid_sets. cbn [foldl fst snd].
  destruct (Z.eqb_spec (x + pe + 16) a) as [<-|_]; [done|]. by destruct (Z.eqb_spec (x + pe) a) as [<-|_].
Qed.

(** The assignments of a move from one list to another, or within a list. *)
Definition move_all w pe1 head1 pe2 head2 d before x : list (Z * Z) :=
  uuid_sets uuid_lo pe2 x (negb (pe2 =? pe1)) ++ remove_sets uuid_lo w pe1 head1 x ++ insert_sets uuid_lo w pe2 head2 d before x ++
  fill_sets pe2 x (insert_next w pe2 d before x) (insert_prev w pe2 d before x).

Lemma out_words rs (Q : Z → Prop) w a : Forall (λ r, Q r.1) rs → ¬ Q a → assigned rs w a = w a.
Proof using. clear. intros H Ha. apply assigned_out. eapply Forall_impl; [exact H|]. intros r Hr <-. done. Qed.

Lemma entry_sets_words pe head x xs n q b : Forall (λ r, list_word pe head (x :: xs) r.1) (uuid_sets uuid_lo pe x b ++ fill_sets pe x n q).
Proof using. clear. destruct b; cbn [uuid_sets fill_sets app]; repeat first [apply Forall_nil_2|apply Forall_cons_2; [right; right; exists x; split; [left|cbn [fst]; lia]|]]. Qed.

Lemma moved_two w pe1 head1 xs pe2 head2 ys dest before x : obj_list w pe1 head1 xs → obj_list w pe2 head2 ys → list_place pe1 head1 xs → list_place pe2 head2 (x :: ys) →
  x ∈ xs → (dest ≠ 0 → dest ∈ ys) → (∀ a, list_word pe1 head1 (seq_remove x xs) a → ¬ list_word pe2 head2 (x :: ys) a) →
  let w' := assigned (move_all w pe1 head1 pe2 head2 (get_dest w pe2 head2 dest before) before x) w in
  obj_list w' pe1 head1 (seq_remove x xs) ∧ obj_list w' pe2 head2 (seq_insert dest before x ys).
Proof using Huuid.
  intros Hl1 Hl2 Hp1 Hp2 Hx Hd Hdis w'. set (d := get_dest w pe2 head2 dest before) in *. destruct (place_new _ _ _ _ Hp2) as [Hnd Hnx].
  assert (list_place pe2 head2 ys) as Hp2' by (eapply place_sub; [exact Hp2|done|by intros; right]).
  destruct (dest_inserted w pe2 head2 ys dest before x Hl2 Hp2' Hd) as [Hor _]. fold d in Hor.
  pose proof (remove_sets_rest _ _ _ _ _ Hl1 Hp1 Hx) as Hrw. pose proof (insert_sets_words _ _ _ _ d before x Hl2 Hor) as Hiw.
  assert (∀ a, list_word pe2 head2 ys a → list_word pe2 head2 (x :: ys) a) as Hsub.
  { intros a [->|[->|(y & Hy & Ha)]]; [by left|by right; left|]. right. right. exists y. split; [by right|done]. }
  pose proof (entry_sets_words pe2 head2 x ys (insert_next w pe2 d before x) (insert_prev w pe2 d before x) (negb (pe2 =? pe1))) as Hew.
  apply Forall_app in Hew as [Huw Hfw]. subst w'. unfold move_all. split.
  - eapply list_ext; [|by apply removed]. intros a Ha. pose proof (Hdis a Ha) as Hna. rewrite !assigned_app.
    rewrite (out_words (fill_sets _ _ _ _) (list_word pe2 head2 (x :: ys))) by done. rewrite (out_words (insert_sets _ _ _ _ _ _ _) (list_word pe2 head2 ys)) by naive_solver.
    apply assigned_at. by apply (out_words _ (list_word pe2 head2 (x :: ys))).
  - eapply list_ext; [|by apply list_inserted]. fold d. intros a Ha.
    assert (list_word pe2 head2 (x :: ys) a) as Ha'.
    { destruct Ha as [->|[->|(y & Hy & Ha)]]; [by left|by right; left|]. right. right. exists y. split; [|done]. unfold seq_insert in Hy.
      case_match; [case_match; set_solver|]. apply list_elem_of_In, in_concat in Hy as (l & (z & <- & Hz)%in_map_iff & Hy). apply list_elem_of_In in Hy. apply list_elem_of_In in Hz.
      unfold seq_step in Hy. repeat case_match; set_solver. }
    assert (¬ list_word pe1 head1 (seq_remove x xs) a) as Hna by (intros Hb; by apply (Hdis a Hb)).
    unfold insert_all. rewrite !assigned_app. apply assigned_at, assigned_at. rewrite (out_words _ _ _ _ Hrw Hna).
    destruct (Z.eqb_spec pe2 pe1) as [->|]; cbn [negb]; [|done]. destruct (ol_uuid _ _ _ _ Hl1 x Hx). rewrite <-(app_nil_r (uuid_sets uuid_lo pe1 x true)).
    by rewrite uuid_same.
Qed.

(** Within one list. *)
Definition seq_move (dest : Z) (before : bool) (x : Z) (xs : list Z) : list Z := if dest =? x then xs else seq_insert dest before x (seq_remove x xs).

Lemma dest_moved w pe head xs dest before x : obj_list w pe head xs → list_place pe head xs → (dest ≠ 0 → dest ∈ xs) → x ∈ xs →
  let d := get_dest w pe head dest before in d ≠ 0 ∧ d ∈ xs ∧ seq_move d before x xs = seq_move dest before x xs.
Proof using.
  intros Hl Hp Hd Hx d. destruct (dest_inserted w pe head xs dest before x Hl Hp Hd) as [Hor _]. fold d in Hor.
  destruct Hor as [[_ ->]|[Hd0 Hin]]; [by apply not_elem_of_nil in Hx|]. split_and!; [done..|]. subst d. unfold get_dest in *.
  destruct (Z.eqb_spec dest 0) as [->|H0]; cbn [negb] in *; [|done]. pose proof (elem_pos _ _ _ x Hp Hx). pose proof (lp_nodup _ _ _ Hp) as Hn.
  destruct xs as [|a xs]; [by apply not_elem_of_nil in Hx|]. rewrite (ol_first _ _ _ _ Hl) in *. cbn [list.head default id] in *.
  pose proof (elem_pos _ _ _ a Hp ltac:(left)). rewrite (proj2 (Z.eqb_neq a 0)) in * by lia. cbn [orb] in *. unfold seq_move. rewrite (proj2 (Z.eqb_neq 0 x)) by lia.
  destruct before.
  - destruct (Z.eqb_spec a x) as [->|Hne].
    + pose proof (seq_remove_at x [] xs Hn) as E. cbn [app] in E. unfold seq_insert. cbn [Z.eqb]. by rewrite E.
    + pose proof (place_remove _ _ _ x Hp) as Hp'. assert (seq_remove x (a :: xs) = a :: seq_remove x xs) as Er by (unfold seq_remove; by rewrite filter_cons, decide_True).
      rewrite Er in *. apply (seq_insert_at a true x []); [lia|apply Hp'].
  - pose proof (ring_last _ _ _ _ (ol_ring _ _ _ _ Hl)) as El. rewrite El in *. assert (∃ ys, a :: xs = ys ++ [lastof a xs]) as [ys Eys].
    { destruct (exists_last (l := a :: xs) ltac:(done)) as (ys & z & E). exists ys. rewrite E. f_equal. f_equal. rewrite <-(lastof_cons xs 0 a), E. symmetry. apply lastof_snoc. }
    rewrite Eys in *. clear Eys El. set (z := lastof a xs) in *. destruct (Z.eqb_spec z x) as [->|Hne].
    + unfold seq_insert. cbn [Z.eqb]. by rewrite (seq_remove_at x ys []), app_nil_r.
    + pose proof (place_remove _ _ _ x Hp) as Hp'. assert (seq_remove x (ys ++ [z]) = seq_remove x ys ++ [z]) as Er.
      { unfold seq_remove. rewrite filter_app. f_equal. by rewrite filter_cons, decide_True. }
      rewrite Er in *. rewrite seq_insert_at; [|lia|apply Hp']. unfold seq_insert. cbn [Z.eqb]. by rewrite <-app_assoc.
Qed.

(** A list whose ring is looked at from another element. *)
Lemma list_rotated w pe head A b B : obj_list w pe head (A ++ b :: B) → list_place pe head (A ++ b :: B) →
  obj_list (assigned (head_sets uuid_lo w head b) w) pe head (b :: B ++ A).
Proof using Huuid.
  intros Hl Hp. assert (b ∈ A ++ b :: B) as Hb by set_solver. rewrite (head_sets_one _ _ _ _ _ _ Hl Hb). pose proof (list_head_uuid _ _ _ _ _ Hl Hb) as Hu.
  assert (∀ y, y ∈ b :: B ++ A → y ∈ A ++ b :: B) as Hin by set_solver. destruct Hl as [L1 L2 L3 L4]. apply ring_rot in L2.
  split.
  - words Hp.
  - eapply ring_ext; [exact L2|]. intros y Hy%Hin. split; words Hp.
  - intros y Hy. destruct (L3 y (Hin y Hy)) as [I1 I2]. pose proof (Hin y Hy). split; words Hp.
  - left. words Hp.
Qed.

Lemma seq_move_at d before x xs A B : d ≠ 0 → d ≠ x → NoDup (A ++ d :: B) → seq_remove x xs = A ++ d :: B →
  seq_move d before x xs = A ++ (if before then [x; d] else [d; x]) ++ B.
Proof using. clear. intros H0 Hne Hd E. unfold seq_move. rewrite (proj2 (Z.eqb_neq d x)), E by done. by apply seq_insert_at. Qed.

(** The element is just before the destination. *)
Lemma moved_prev w pe head xs d x : obj_list w pe head xs → list_place pe head xs → d ∈ xs → d ≠ x → prevw w pe d = x →
  if firstw w head =? d then obj_list (assigned (head_sets uuid_lo w head x) w) pe head (seq_move d true x xs) else obj_list w pe head (seq_move d true x xs).
Proof using Huuid.
  intros Hl Hp Hd Hne Hpr. pose proof (elem_pos _ _ _ _ Hp Hd) as Hpos. pose proof (lp_nodup _ _ _ Hp) as Hnd. apply list_elem_of_split in Hd as (A & B & ->).
  pose proof (list_first_at _ _ _ _ _ _ Hl Hnd) as Hf. pose proof (ol_ring _ _ _ _ Hl) as Hr. destruct (list_eq_dec A []) as [->|HA].
  - rewrite (proj2 (Z.eqb_eq _ _)) by (by apply Hf). cbn [app] in *. rewrite (ring_last _ _ _ _ Hr) in Hpr.
    destruct (list_eq_dec B []) as [->|HB]; [by cbn in Hpr|]. destruct (exists_last HB) as (B' & z & ->). rewrite lastof_snoc in Hpr. subst z.
    change (d :: B' ++ [x]) with ((d :: B') ++ x :: []) in *. pose proof (seq_remove_at x (d :: B') [] Hnd) as Er. rewrite app_nil_r in Er.
    rewrite (seq_move_at d true x _ [] B'); [|lia|done| |done]; [|by apply NoDup_app in Hnd as [Hnd _]]. apply (list_rotated w pe head (d :: B') x []); done.
  - rewrite (proj2 (Z.eqb_neq _ _)) by (intros E; by apply Hf in E). destruct (exists_last HA) as (A' & z & ->). rewrite <-app_assoc in *. cbn [app] in *.
    destruct (ring_neighbour _ _ _ _ _ _ Hr) as [Hz _]. rewrite Hpr in Hz. subst z. pose proof (seq_remove_at x A' (d :: B) Hnd) as Er.
    rewrite (seq_move_at d true x _ A' B); [done|lia|done| |done]. rewrite <-Er. apply NoDup_filter, Hnd.
Qed.
(** The element is just after the destination. *)
Lemma moved_next w pe head xs d x : obj_list w pe head xs → list_place pe head xs → d ∈ xs → d ≠ x → nextw w pe d = x →
  if firstw w head =? x then obj_list (assigned (head_sets uuid_lo w head (nextw w pe x)) w) pe head (seq_move d false x xs) else obj_list w pe head (seq_move d false x xs).
Proof using Huuid.
  intros Hl Hp Hd Hne Hnx. pose proof (elem_pos _ _ _ _ Hp Hd) as Hpos. pose proof (lp_nodup _ _ _ Hp) as Hnd. apply list_elem_of_split in Hd as (A & B & ->).
  pose proof (ol_ring _ _ _ _ Hl) as Hr. destruct B as [|z B].
  - destruct A as [|a A]; [destruct (ring_prev_next _ _ _ d Hr ltac:(left)) as [_ ?]; cbn in Hr; naive_solver|].
    assert (nextw w pe d = a) as Ea by (apply ring_at in Hr; cbn in Hr; naive_solver). rewrite Hnx in Ea. subst a. rewrite (ol_first _ _ _ _ Hl). cbn [app list.head default id] in *.
    rewrite Z.eqb_refl. pose proof (seq_remove_at x [] (A ++ [d]) Hnd) as Er. cbn [app] in Er. assert (NoDup (A ++ [d])) as Hnd' by (by apply NoDup_cons in Hnd as [_ ?]).
    rewrite (seq_move_at d false x _ A []) by (done || lia). replace (A ++ [d; x] ++ []) with ((A ++ [d]) ++ [x]) by (by rewrite <-app_assoc).
    destruct (A ++ [d]) as [|c C] eqn:Ec; [by apply app_eq_nil in Ec as [_ ?]|]. rewrite (ring_second _ _ _ _ _ Hr).
    by apply (list_rotated w pe head [x] c C).
  - change (d :: z :: B) with ([d] ++ z :: B) in *. rewrite (app_assoc A [d]) in *. destruct (ring_neighbour (nextw w pe) (prevw w pe) A d z B) as [_ Hz]; [by rewrite <-app_assoc in Hr|].
    rewrite Hnx in Hz. subst z. rewrite (proj2 (Z.eqb_neq _ _)) by (intros E; apply (list_first_at _ _ _ _ _ _ Hl Hnd) in E; by destruct A).
    pose proof (seq_remove_at x (A ++ [d]) B Hnd) as Er. rewrite <-(app_assoc A [d] B) in Er. rewrite (seq_move_at d false x _ A B); [|lia|done| |done].
    + by rewrite <-app_assoc in Hl.
    + change ([d] ++ B) with (d :: B) in Er. rewrite <-Er. apply NoDup_filter, Hnd.
Qed.

(** The general case: removed and inserted again. *)
Lemma moved_all w pe head xs d before x : obj_list w pe head xs → list_place pe head xs → x ∈ xs → d ∈ xs → d ≠ x →
  (before = true → prevw w pe d ≠ x) → (before = false → nextw w pe d ≠ x) →
  obj_list (assigned (move_all w pe head pe head d before x) w) pe head (seq_move d before x xs).
Proof using Huuid.
  intros Hl Hp Hx Hd Hne Hb Ha. pose proof (elem_pos _ _ _ _ Hp Hd) as Hpos. set (w1 := assigned (remove_sets uuid_lo w pe head x) w).
  pose proof (removed _ _ _ _ _ Hl Hp Hx) as Hl1. fold w1 in Hl1. pose proof (place_readd _ _ _ _ Hp Hx) as Hp1.
  assert (d ∈ seq_remove x xs) as Hd1 by (by apply seq_remove_in). unfold seq_move. rewrite (proj2 (Z.eqb_neq d x)) by done.
  pose proof (list_inserted w1 pe head (seq_remove x xs) d before x Hl1 Hp1 (λ _, Hd1)) as Hres.
  unfold get_dest in Hres. rewrite (proj2 (Z.eqb_neq d 0)) in Hres by lia. cbn [negb] in Hres.
  destruct (list_next _ _ _ _ _ Hl Hx) as [Hn Hq]. destruct (list_next _ _ _ _ _ Hl Hd) as [Hdn Hdq].
  destruct (ring_prev_next _ _ _ x (ol_ring _ _ _ _ Hl) Hx) as [Hpn Hnp]. pose proof (ol_uuid _ _ _ _ Hl x Hx) as [I1 I2].
  (* the element is not alone *)
  assert (nextw w pe x ≠ x) as Hnx.
  { intros E. apply list_elem_of_split in Hx as (A & B & ->). destruct (ring_single _ _ _ _ _ (ol_ring _ _ _ _ Hl) (lp_nodup _ _ _ Hp) E) as [-> ->].
    by apply list_elem_of_singleton in Hd. }
  assert (before = true → d ≠ nextw w pe x) as Hb' by (intros Hb1 E; apply (Hb Hb1); by rewrite E).
  assert (before = false → d ≠ prevw w pe x) as Ha' by (intros Hb1 E; apply (Ha Hb1); by rewrite E).
  assert (∀ y, y ∈ xs → y ≠ prevw w pe x → nextw w1 pe y = nextw w pe y) as Hw1.
  { intros y Hy Hyq. unfold w1, remove_sets. rewrite (proj2 (Z.eqb_neq (nextw w pe x) x)) by done. rewrite (head_sets_one _ _ _ _ _ _ Hl Hx).
    remember (nextw w pe x) as n. remember (prevw w pe x) as q. destruct (firstw w head =? x); words Hp. }
  assert (∀ y, y ∈ xs → y ≠ nextw w pe x → prevw w1 pe y = prevw w pe y) as Hw2.
  { intros y Hy Hyq. unfold w1, remove_sets. rewrite (proj2 (Z.eqb_neq (nextw w pe x) x)) by done. rewrite (head_sets_one _ _ _ _ _ _ Hl Hx).
    remember (nextw w pe x) as n. remember (prevw w pe x) as q. destruct (firstw w head =? x); words Hp. }
  assert (before = true → (d =? firstw w1 head) = (d =? firstw w head)) as Hw3.
  { intros Hbt. unfold w1, remove_sets. rewrite (proj2 (Z.eqb_neq (nextw w pe x) x)) by done. rewrite (head_sets_one _ _ _ _ _ _ Hl Hx). pose proof (Hb' Hbt) as Hdn'.
    destruct (Z.eqb_spec (firstw w head) x) as [E|E].
    - rewrite E, (proj2 (Z.eqb_neq d x)) by done. apply Z.eqb_neq. remember (nextw w pe x) as n. remember (prevw w pe x) as q. words Hp.
    - f_equal. remember (nextw w pe x) as n. remember (prevw w pe x) as q. words Hp. }
  assert (w1 (x + pe) = w (x + pe) ∧ w1 (x + pe + 16) = w (x + pe + 16)) as [J1 J2].
  { unfold w1, remove_sets. rewrite (proj2 (Z.eqb_neq (nextw w pe x) x)) by done. rewrite (head_sets_one _ _ _ _ _ _ Hl Hx).
    remember (nextw w pe x) as n. remember (prevw w pe x) as q. split; destruct (firstw w head =? x); words Hp. }
  eapply list_ext; [|exact Hres]. intros a _. unfold move_all, insert_all. rewrite Z.eqb_refl. cbn [negb]. change (uuid_sets uuid_lo pe x false) with (@nil (Z * Z)). rewrite app_nil_l, assigned_app. fold w1.
  rewrite uuid_same by congruence. f_equal. unfold insert_sets, insert_next, insert_prev. rewrite (proj2 (Z.eqb_neq d 0)) by lia. rewrite (head_sets_one _ _ _ _ _ _ Hl Hx), (head_sets_one _ _ _ _ _ _ Hl1 Hd1).
  destruct before; [rewrite Hw3, Hw2 by auto; done|rewrite Hw1 by auto; done].
Qed.

Lemma moved_same m pe head xs u d before v x : let w := rd64 m in obj_list w pe head xs → list_place pe head xs → x ∈ xs → d ∈ xs →
  match move_same_list head (Oid u d) (Oid v x) before (d + pe) (x + pe) m with
  | MoveNothing => obj_list w pe head (seq_move d before x xs)
  | MoveHead first => first ∈ xs ∧ obj_list (assigned (head_sets uuid_lo w head first) w) pe head (seq_move d before x xs)
  | MoveAll => obj_list (assigned (move_all w pe head pe head d before x) w) pe head (seq_move d before x xs)
  end.
Proof using Huuid.
  intros w Hl Hp Hx Hd. unfold move_same_list, off_addr, pe_prev, pe_next, pe_first. cbn [oid_off]. replace (d + pe + 16 + 8) with (d + pe + 24) by lia.
  change (rd64 m (d + pe + 24)) with (prevw w pe d). change (rd64 m (d + pe + 8)) with (nextw w pe d). change (rd64 m (head + 8)) with (firstw w head). change (rd64 m (x + pe + 8)) with (nextw w pe x).
  destruct (Z.eqb_spec d x) as [->|Hne]; [by unfold seq_move; rewrite Z.eqb_refl|]. destruct (list_next _ _ _ _ _ Hl Hx) as [Hn _]. destruct before; cbn [andb negb].
  - destruct (Z.eqb_spec (prevw w pe d) x) as [E|E]; [|by apply moved_all]. pose proof (moved_prev _ _ _ _ _ _ Hl Hp Hd Hne E) as H. by destruct (firstw w head =? d); cbn [negb].
  - destruct (Z.eqb_spec (nextw w pe d) x) as [E|E]; [|by apply moved_all]. pose proof (moved_next _ _ _ _ _ _ Hl Hp Hd Hne E) as H. by destruct (firstw w head =? x); cbn [negb].
Qed.
End lists.

(** ** Operations on the context of a lane *)

Section operations.
Context (uuid_lo : Z) (o : pmem_ops) `{!OpsSpec o} (pop : pool_layout) (fuel : nat) (ulog_free : Z → M pmem unit) (push_ok : nat → bool).
Context (Hpop : pool_ok pop) (Huuid : 0 < uuid_lo < 2 ^ 64) (Hfuel : (16 < fuel)%nat).

(** The operation [f] started in [s] makes the assignments [rs]. *)
Definition performs (f : M mstate unit) (s : mstate) (rs : list (Z * Z)) : Prop :=
  ∃ s', f s = (Ok tt, s') ∧ ∀ a, word_ok pop a → rd64 (smem s') a = assigned rs (rd64 (smem s)) a.

(** The requests [f] in an operation. *)
Lemma operation_performs f m s rs us : list_ready pop s →
  (∃ s', f (started s) = (Ok tt, s') ∧ pending pop m (started s) s' rs) → Forall (λ r, word_ok pop r.1 ∧ 0 ≤ r.2 < 2 ^ 64) rs → few rs →
  (∀ a, word_ok pop a → rd64 m a = assigned us (rd64 (smem s)) a) →
  performs (operation_start;; f;; finish o fuel ulog_free push_ok) s (us ++ rs).
Proof using Hpop Hfuel OpsSpec0.
  intros Hr (s1 & E1 & Hp) Hw Hf Hm. destruct (pending_start pop s Hr) as [E0 _].
  destruct (pending_finish o pop fuel ulog_free push_ok Hpop m s s1 rs Hr Hp Hw Hf Hfuel) as (s2 & E2 & Hm2).
  exists s2. split; [by erewrite bind_ok by exact E0; erewrite bind_ok by exact E1|]. intros a Ha. rewrite assigned_app, Hm2; [by apply assigned_at, Hm|apply Ha..|].
  right. pose proof (wo_low _ _ Ha). pose proof (rdy_log _ _ Hr). lia.
Qed.

Lemma fill_words m pe x a : elem_ok pop pe x → word_ok pop a → rd64 (fill_mem uuid_lo m pe x true) a = assigned (uuid_sets uuid_lo pe x true) (rd64 m) a.
Proof using Huuid.
  clear Hfuel. intros Hx Ha. destruct (elem_words _ _ _ Hx) as [_ W]. pose proof (el_first _ _ _ Hx) as W0. change (fill_mem uuid_lo m pe x true) with
    (uops_apply m (vent_op <$> (assign_of <$> uuid_sets uuid_lo pe x true))). apply assigned_words; [apply Ha|]. repeat constructor; (apply W0 || apply W || cbn; lia).
Qed.

Lemma elem_facts pe x : elem_ok pop pe x → word_ok pop (x + pe + 8) ∧ word_ok pop (x + pe + 24) ∧ 0 ≤ x < 2 ^ 64.
Proof using. clear. intros He. destruct (elem_words _ _ _ He). pose proof (el_range _ _ _ He). split_and!; (done || apply He || lia). Qed.

Lemma get_dest_mem m pe head u dest before : (∀ d, d = get_dest (rd64 m) pe head dest before → dest = 0 → firstw (rd64 m) head ≠ 0 → elem_ok pop pe (firstw (rd64 m) head)) →
  oid_off (list_get_dest head (Oid u dest) pe before m) = get_dest (rd64 m) pe head dest before.
Proof using Hpop.
  clear Hfuel Huuid. intros He. unfold list_get_dest, get_dest. cbn [oid_off]. destruct (Z.eqb_spec dest 0) as [->|Hd]; cbn [negb]; [|done]. cbn [oid_at oid_off]. unfold pe_first, POBJ_LIST_DEST_HEAD.
  fold (firstw (rd64 m) head). destruct (Z.eqb_spec (firstw (rd64 m) head) 0) as [Ef|Ef]; [done|]. destruct before; [done|]. cbn [orb eqb]. cbn [oid_at oid_off]. unfold pe_prev.
  rewrite (elem_entry pop Hpop) by (by eapply He). unfold prevw. f_equal. lia.
Qed.

(** The assignments are to words of the heap. *)
Local Abbreviation sets_ok := (Forall (λ r, word_ok pop r.1 ∧ 0 ≤ r.2 < 2 ^ 64)).

Ltac sets := repeat first [apply Forall_nil_2|apply Forall_cons_2; [split; cbn [fst snd]; [by auto|lia]|]].

Lemma head_sets_ok w head v : head_ok pop head → 0 ≤ v < 2 ^ 64 → sets_ok (head_sets uuid_lo w head v) ∧ (length (head_sets uuid_lo w head v) ≤ 2)%nat.
Proof using Huuid.
  clear Hfuel. intros [H1 H2] Hv. unfold head_sets. case_match; (split; [sets|cbn; lia]).
Qed.
Lemma fill_sets_ok pe x n q : elem_ok pop pe x → 0 ≤ n < 2 ^ 64 → 0 ≤ q < 2 ^ 64 → sets_ok (fill_sets pe x n q).
Proof using. clear. intros Hx Hn Hq. destruct (elem_words _ _ _ Hx). pose proof (el_last _ _ _ Hx). unfold fill_sets. sets. Qed.

Lemma insert_sets_ok w pe head xs d before x : obj_list uuid_lo w pe head xs → head_ok pop head → (∀ y, y ∈ x :: xs → elem_ok pop pe y) → d = 0 ∧ xs = [] ∨ d ≠ 0 ∧ d ∈ xs →
  let rs := insert_sets uuid_lo w pe head d before x in sets_ok rs ∧ (length rs ≤ 4)%nat ∧
  0 ≤ insert_next w pe d before x < 2 ^ 64 ∧ 0 ≤ insert_prev w pe d before x < 2 ^ 64.
Proof using Huuid.
  clear Hfuel. intros Hl Hh0 Hp Hd rs. subst rs. destruct (elem_facts _ _ (Hp x ltac:(left))) as (_ & _ & Hx).
  destruct (head_sets_ok w head x Hh0 Hx) as [Hh Hhl]. unfold insert_sets, insert_next, insert_prev.
  destruct Hd as [[-> ->]|[Hd0 Hd]]; [cbn [Z.eqb]; split_and!; (done || lia)|]. rewrite (proj2 (Z.eqb_neq d 0)) by done.
  destruct (list_next _ _ _ _ _ _ Hl Hd) as [Hn Hq].
  destruct (elem_facts _ _ (Hp d ltac:(by right))) as (D1 & D2 & D3). destruct (elem_facts _ _ (Hp _ ltac:(right; exact Hn))) as (N1 & N2 & N3).
  destruct (elem_facts _ _ (Hp _ ltac:(right; exact Hq))) as (Q1 & Q2 & Q3). destruct before.
  - split_and!; [apply Forall_app; split; [sets|case_match; done]|rewrite length_app; case_match; cbn in *; lia|lia..].
  - split_and!; [sets|cbn; lia|lia..].
Qed.
Lemma remove_sets_ok w pe head xs x : obj_list uuid_lo w pe head xs → list_place pop pe head xs → x ∈ xs →
  let rs := remove_sets uuid_lo w pe head x in sets_ok rs ∧ (length rs ≤ 4)%nat.
Proof using Huuid.
  clear Hfuel. intros Hl Hp Hx rs. subst rs. destruct (list_next _ _ _ _ _ _ Hl Hx) as [Hn Hq].
  destruct (elem_facts _ _ (lp_elem _ _ _ _ Hp _ Hn)) as (N1 & N2 & N3). destruct (elem_facts _ _ (lp_elem _ _ _ _ Hp _ Hq)) as (Q1 & Q2 & Q3).
  destruct (head_sets_ok w head 0 (lp_head _ _ _ _ Hp) ltac:(lia)) as [Hh Hhl]. destruct (head_sets_ok w head _ (lp_head _ _ _ _ Hp) N3) as [Hg Hgl]. unfold remove_sets.
  case_match; [split; [done|lia]|]. split; [apply Forall_app; split; [sets|case_match; done]|rewrite length_app; case_match; cbn in *; lia].
Qed.

(** *** The three operations *)

Lemma list_dest_run m pe head xs u dest before : obj_list uuid_lo (rd64 m) pe head xs → list_place pop pe head xs →
  oid_off (list_get_dest head (Oid u dest) pe before m) = get_dest (rd64 m) pe head dest before.
Proof using Hpop.
  clear Hfuel Huuid. intros Hl Hp. apply get_dest_mem. intros _ _ _ H0. rewrite (ol_first _ _ _ _ _ Hl) in *. destruct xs as [|a xs]; [done|]. apply Hp. left.
Qed.

Lemma insert_user_performs m s0 s rs pe head xs u d before x : pending pop m s0 s rs → obj_list uuid_lo (rd64 m) pe head xs → head_ok pop head →
  (∀ y, y ∈ x :: xs → elem_ok pop pe y) → d = 0 ∧ xs = [] ∨ d ≠ 0 ∧ d ∈ xs → (length rs ≤ 8)%nat →
  ∃ s', list_insert_user uuid_lo pop (ListArgsInsert head (Oid u d) (entry_of d pe) before) (ListArgsCommon pe x (x + pe)) s =
      (Ok (insert_next (rd64 m) pe d before x, insert_prev (rd64 m) pe d before x), s') ∧ pending pop m s0 s' (rs ++ insert_sets uuid_lo (rd64 m) pe head d before x).
Proof using Hpop Huuid.
  clear Hfuel. intros Hp Hl Hh He Hd Hlen. apply (insert_user_run uuid_lo pop Hpop Huuid); [done|done|apply He; left| | |lia].
  - intros ->. destruct Hd as [[_ ->]|[]]; [|done]. by rewrite (ol_first _ _ _ _ _ Hl).
  - intros H0. destruct Hd as [[]|[_ Hd]]; [done|]. destruct (list_next _ _ _ _ _ _ Hl Hd). split_and!; (apply He; by right).
Qed.
Lemma remove_single_performs m s0 s rs pe head xs x : pending pop m s0 s rs → obj_list uuid_lo (rd64 m) pe head xs → list_place pop pe head xs → x ∈ xs → (length rs ≤ 8)%nat →
  ∃ s', list_remove_single uuid_lo pop (ListArgsRemove pe x head (x + pe)) s = (Ok tt, s') ∧ pending pop m s0 s' (rs ++ remove_sets uuid_lo (rd64 m) pe head x).
Proof using Hpop Huuid.
  clear Hfuel. intros Hp Hl Hpl Hx Hlen. destruct (list_next _ _ _ _ _ _ Hl Hx). apply (remove_single_run uuid_lo pop Hpop Huuid); [done|apply Hpl|by apply Hpl..| |lia].
  intros E. pose proof (lp_nodup _ _ _ _ Hpl) as Hnd. destruct (ring_prev_next _ _ _ x (ol_ring _ _ _ _ _ Hl) Hx) as [Hpn _]. rewrite E in Hpn. split; [|done].
  apply list_elem_of_split in Hx as (A & B & ->). destruct (ring_single _ _ _ _ _ (ol_ring _ _ _ _ _ Hl) Hnd E) as [-> ->]. by rewrite (ol_first _ _ _ _ _ Hl).
Qed.

Lemma insert_performs s pe head xs u dest before v x : list_ready pop s → obj_list uuid_lo (rd64 (smem s)) pe head xs → list_place pop pe head (x :: xs) → (dest ≠ 0 → dest ∈ xs) →
  performs (insert_operation uuid_lo o pop fuel ulog_free push_ok pe head (Oid u dest) before (Oid v x)) s
    (insert_all uuid_lo (rd64 (smem s)) pe head (get_dest (rd64 (smem s)) pe head dest before) before x).
Proof using Hpop Huuid Hfuel OpsSpec0.
  intros Hr Hl Hp Hdest. set (w := rd64 (smem s)) in *. set (d := get_dest w pe head dest before). destruct (place_new _ _ _ _ _ Hp) as [Hnd _].
  assert (list_place pop pe head xs) as Hp' by (eapply place_sub; [exact Hp|done|by intros; right]).
  destruct (dest_inserted _ _ w pe head xs dest before x Hl Hp' Hdest) as [Hd _]. fold d in Hd.
  pose proof (lp_elem _ _ _ _ Hp x ltac:(left)) as Hx. destruct (insert_sets_ok w pe head xs d before x Hl (lp_head _ _ _ _ Hp) (lp_elem _ _ _ _ Hp) Hd) as (Hs1 & Hs2 & Hs3 & Hs4).
  unfold insert_operation, insert_all. apply (operation_performs _ (fill_mem uuid_lo (smem s) pe x true)); [done| | | |].
  - destruct (pending_start pop s Hr) as [_ Hp0].
    unfold insert_requests. erewrite bind_ok by reflexivity. change (pm_mem (me_pm (ms_env (started s)))) with (smem s).
    pose proof (list_dest_run (smem s) pe head xs u dest before Hl Hp') as Ed. destruct (list_get_dest head (Oid u dest) pe before (smem s)) as [u' d']. cbn [oid_off] in Ed |- *. rewrite Ed. fold w d.
    rewrite (elem_entry pop Hpop pe x Hx). destruct (insert_user_performs (smem s) (started s) (started s) [] pe head xs u' d before x Hp0 Hl (lp_head _ _ _ _ Hp) (lp_elem _ _ _ _ Hp) Hd) as (s1 & E1 & Hp1); [cbn; lia|].
    erewrite bind_ok by exact E1. cbn [fst snd]. cbn [app] in Hp1. eapply (fill_run uuid_lo o pop Hpop); [exact Hp1|done|done|done|done|fold w; lia].
  - apply Forall_app. split; [done|by apply fill_sets_ok].
  - unfold few. rewrite length_app. cbn. lia.
  - intros a Ha. by apply fill_words.
Qed.

Lemma remove_performs s pe head xs v x : list_ready pop s → obj_list uuid_lo (rd64 (smem s)) pe head xs → list_place pop pe head xs → x ∈ xs →
  performs (remove_operation uuid_lo o pop fuel ulog_free push_ok pe head (Oid v x)) s (remove_sets uuid_lo (rd64 (smem s)) pe head x ++ fill_sets pe x 0 0).
Proof using Hpop Huuid Hfuel OpsSpec0.
  intros Hr Hl Hp Hx. pose proof (lp_elem _ _ _ _ Hp x Hx) as Hxe. destruct (remove_sets_ok (rd64 (smem s)) pe head xs x Hl Hp Hx) as (Hs1 & Hs2).
  apply (operation_performs _ (smem s) s _ []); [done| | | |done].
  - destruct (pending_start pop s Hr) as [_ Hp0]. unfold remove_requests. cbn [oid_off]. rewrite (elem_entry pop Hpop pe x Hxe).
    destruct (remove_single_performs (smem s) (started s) (started s) [] pe head xs x Hp0 Hl Hp Hx) as (s1 & E1 & Hp1); [cbn; lia|].
    erewrite bind_ok by exact E1. eapply (fill_run uuid_lo o pop Hpop _ _ _ _ _ _ _ _ false); [exact Hp1|done|lia|lia| |cbn; lia]. intros _. by apply (ol_uuid _ _ _ _ _ Hl).
  - apply Forall_app. split; [done|apply fill_sets_ok; [done|lia|lia]].
  - unfold few. rewrite length_app. cbn. lia.
Qed.

(** Removing from one list and inserting into a list, which may be the same. *)
Lemma move_all_performs (f : M mstate unit) s pe1 head1 xs pe2 head2 ys u d before x : list_ready pop s → let w := rd64 (smem s) in
  obj_list uuid_lo w pe1 head1 xs → obj_list uuid_lo w pe2 head2 ys → list_place pop pe1 head1 xs → head_ok pop head2 → (∀ y, y ∈ x :: ys → elem_ok pop pe2 y) →
  x ∈ xs → d = 0 ∧ ys = [] ∨ d ≠ 0 ∧ d ∈ ys →
  f (started s) = (list_remove_single uuid_lo pop (ListArgsRemove pe1 x head1 (x + pe1));;
     r ← list_insert_user uuid_lo pop (ListArgsInsert head2 (Oid u d) (entry_of d pe2) before) (ListArgsCommon pe2 x (x + pe2));
     list_fill_entry_redo_log uuid_lo o pop (ListArgsCommon pe2 x (x + pe2)) r.1 r.2 (negb (pe2 =? pe1))) (started s) →
  performs (operation_start;; f;; finish o fuel ulog_free push_ok) s (move_all uuid_lo w pe1 head1 pe2 head2 d before x).
Proof using Hpop Huuid Hfuel OpsSpec0.
  intros Hr w Hl1 Hl2 Hp1 Hh2 He2 Hx Hd Ef. destruct (remove_sets_ok w pe1 head1 xs x Hl1 Hp1 Hx) as (R1 & R2).
  destruct (insert_sets_ok w pe2 head2 ys d before x Hl2 Hh2 He2 Hd) as (S1 & S2 & S3 & S4). pose proof (He2 x ltac:(left)) as Hxe.
  unfold move_all. apply (operation_performs _ (fill_mem uuid_lo (smem s) pe2 x (negb (pe2 =? pe1)))); [done| | | |].
  - rewrite Ef. destruct (pending_start pop s Hr) as [_ Hp0].
    destruct (remove_single_performs (smem s) (started s) (started s) [] pe1 head1 xs x Hp0 Hl1 Hp1 Hx) as (s1 & E1 & P1); [cbn; lia|].
    erewrite bind_ok by exact E1. cbn [app] in P1.
    destruct (insert_user_performs (smem s) (started s) s1 _ pe2 head2 ys u d before x P1 Hl2 Hh2 He2 Hd) as (s2 & E2 & P2); [fold w; lia|].
    erewrite bind_ok by exact E2. cbn [fst snd]. rewrite (app_assoc (remove_sets _ _ _ _ _)). eapply (fill_run uuid_lo o pop Hpop); [exact P2|done|done|done| |rewrite length_app; fold w; lia].
    intros Hpe. apply negb_false_iff, Z.eqb_eq in Hpe. subst pe2. by apply (ol_uuid _ _ _ _ _ Hl1).
  - repeat (apply Forall_app; split); [done|done|by apply fill_sets_ok].
  - unfold few. rewrite !length_app. cbn. lia.
  - intros a Ha. destruct (pe2 =? pe1); [done|by apply fill_words].
Qed.

Lemma move_two_performs s pe1 head1 xs pe2 head2 ys u dest before v x : list_ready pop s → let w := rd64 (smem s) in
  obj_list uuid_lo w pe1 head1 xs → obj_list uuid_lo w pe2 head2 ys → list_place pop pe1 head1 xs → list_place pop pe2 head2 (x :: ys) → head1 ≠ head2 →
  x ∈ xs → (dest ≠ 0 → dest ∈ ys) →
  performs (move_operation uuid_lo o pop fuel ulog_free push_ok pe1 head1 pe2 head2 (Oid u dest) before (Oid v x)) s
    (move_all uuid_lo w pe1 head1 pe2 head2 (get_dest w pe2 head2 dest before) before x).
Proof using Hpop Huuid Hfuel OpsSpec0.
  intros Hr w Hl1 Hl2 Hp1 Hp2 Hne Hx Hdest. destruct (place_new _ _ _ _ _ Hp2) as [Hnd _].
  assert (list_place pop pe2 head2 ys) as Hp2' by (eapply place_sub; [exact Hp2|done|by intros; right]).
  destruct (dest_inserted _ _ w pe2 head2 ys dest before x Hl2 Hp2' Hdest) as [Hd _].
  pose proof (list_dest_run (smem s) pe2 head2 ys u dest before Hl2 Hp2') as Ed.
  destruct (list_get_dest head2 (Oid u dest) pe2 before (smem s)) as [u' d'] eqn:Eg. cbn [oid_off] in Ed. subst d'.
  apply (move_all_performs _ s pe1 head1 xs pe2 head2 ys u' _ before x); try done; [apply Hp2|apply Hp2|].
  pose proof (lp_elem _ _ _ _ Hp1 x Hx) as E1. pose proof (lp_elem _ _ _ _ Hp2 x ltac:(left)) as E2.
  unfold move_requests. erewrite bind_ok by reflexivity. change (pm_mem (me_pm (ms_env (started s)))) with (smem s). rewrite Eg, (proj2 (Z.eqb_neq head1 head2)) by done.
  erewrite bind_ok by reflexivity. cbn [oid_off]. rewrite (elem_entry pop Hpop pe1 x E1), (elem_entry pop Hpop pe2 x E2).
  pose proof (el_offset _ _ _ E1). pose proof (el_offset _ _ _ E2). rewrite !(proj2 (Z.ltb_lt _ _)) by lia. do 2 (erewrite bind_ok by reflexivity). done.
Qed.

(** The assignments of a move within a list. *)
Definition same_sets (m : mem) (pe head d : Z) (before : bool) (x : Z) : list (Z * Z) :=
  match move_same_list head (Oid 0 d) (Oid 0 x) before (d + pe) (x + pe) m with
  | MoveNothing => []
  | MoveHead first => head_sets uuid_lo (rd64 m) head first
  | MoveAll => move_all uuid_lo (rd64 m) pe head pe head d before x
  end.

Lemma move_same_performs s pe head xs u dest before v x : list_ready pop s → let w := rd64 (smem s) in
  obj_list uuid_lo w pe head xs → list_place pop pe head xs → x ∈ xs → (dest ≠ 0 → dest ∈ xs) →
  let rs := same_sets (smem s) pe head (get_dest w pe head dest before) before x in
  performs (move_operation uuid_lo o pop fuel ulog_free push_ok pe head pe head (Oid u dest) before (Oid v x)) s rs ∧
  obj_list uuid_lo (assigned rs w) pe head (seq_move dest before x xs) ∧ Forall (λ r, list_word pe head xs r.1) rs.
Proof using Hpop Huuid Hfuel OpsSpec0.
  intros Hr w Hl Hp Hx Hdest rs. destruct (dest_moved _ _ w pe head xs dest before x Hl Hp Hdest Hx) as (Hd0 & Hd & <-).
  pose proof (list_dest_run (smem s) pe head xs u dest before Hl Hp) as Ed. fold w in Ed.
  destruct (list_get_dest head (Oid u dest) pe before (smem s)) as [u' d'] eqn:Eg. cbn [oid_off] in Ed. subst rs. rewrite <-Ed in *. clear Ed. unfold same_sets.
  change (move_same_list head (Oid 0 d') (Oid 0 x) before (d' + pe) (x + pe) (smem s)) with (move_same_list head (Oid u' d') (Oid v x) before (d' + pe) (x + pe) (smem s)).
  pose proof (lp_elem _ _ _ _ Hp x Hx) as E1. pose proof (lp_elem _ _ _ _ Hp d' Hd) as E2. pose proof (el_offset _ _ _ E1).
  pose proof (moved_same uuid_lo pop Huuid (smem s) pe head xs u' d' before v x Hl Hp Hx Hd) as Hm. fold w in Hm. cbv zeta in Hm.
  assert (move_requests uuid_lo o pop pe head pe head (Oid u dest) before (Oid v x) (started s) =
    match move_same_list head (Oid u' d') (Oid v x) before (d' + pe) (x + pe) (smem s) with
    | MoveNothing => (Ok tt, started s)
    | MoveHead first => list_update_head uuid_lo pop head first (started s)
    | MoveAll => (list_remove_single uuid_lo pop (ListArgsRemove pe x head (x + pe));;
        r ← list_insert_user uuid_lo pop (ListArgsInsert head (Oid u' d') (entry_of d' pe) before) (ListArgsCommon pe x (x + pe));
        list_fill_entry_redo_log uuid_lo o pop (ListArgsCommon pe x (x + pe)) r.1 r.2 (negb (pe =? pe))) (started s)
    end) as Erun.
  { unfold move_requests. erewrite bind_ok by reflexivity. change (pm_mem (me_pm (ms_env (started s)))) with (smem s). rewrite Eg, (Z.eqb_refl head). cbn [oid_off].
    rewrite (elem_entry pop Hpop pe x E1), (elem_entry pop Hpop pe d' E2). erewrite bind_ok by reflexivity. change (pm_mem (me_pm (ms_env (started s)))) with (smem s).
    destruct (move_same_list _ _ _ _ _ _ _); [done|done|]. rewrite !(proj2 (Z.ltb_lt _ _)) by lia. by do 2 (erewrite bind_ok by reflexivity). }
  destruct (pending_start pop s Hr) as [_ Hp0]. destruct (move_same_list _ _ _ _ _ _ _) as [|first|].
  - split_and!; [|done|constructor]. apply (operation_performs _ (smem s) s [] []); [done|by exists (started s)|constructor|unfold few; cbn; lia|done].
  - destruct Hm as [Hfi Hm]. pose proof (elem_facts _ _ (lp_elem _ _ _ _ Hp first Hfi)) as (_ & _ & Hfr).
    destruct (head_sets_ok w head first (lp_head _ _ _ _ Hp) Hfr) as [H1 H2]. split_and!; [|done|].
    + apply (operation_performs _ (smem s) s (head_sets uuid_lo w head first) []); [done| |done|unfold few; lia|done]. rewrite Erun.
      destruct (update_head_run uuid_lo pop Hpop Huuid (smem s) (started s) (started s) [] head first Hp0 (lp_head _ _ _ _ Hp) Hfr) as (s1 & F1 & F2); [cbn; lia|]. by exists s1.
    + rewrite (head_sets_one _ Huuid _ _ _ _ _ _ Hl Hx). apply Forall_cons_2; [by right; left|constructor].
  - split_and!; [|done|].
    + eapply (move_all_performs _ s pe head xs pe head xs); try done; [apply Hp| |by right]. intros y [->|Hy]%elem_of_cons; by apply Hp.
    + unfold move_all. rewrite Z.eqb_refl. cbn [negb uuid_sets app]. repeat (apply Forall_app; split); [by apply remove_sets_words|apply insert_sets_words; [done|done|by right]|].
      unfold fill_sets. repeat first [apply Forall_nil_2|apply Forall_cons_2; [right; right; exists x; split; [done|cbn [fst]; lia]|]].
Qed.
End operations.

(** ** The calls *)

Section calls.
Context {C R : Type} (uuid_lo : Z) (o : pmem_ops) `{!OpsSpec o} (pop : pool_layout) (fuel : nat) (ulog_free : Z → M pmem unit) (push_ok : nat → bool).
Context (malloc zalloc tls_ok has_remote : bool) (os_lock : Z → Z).
Context (Hpop : pool_ok pop) (Huuid : 0 < uuid_lo < 2 ^ 64) (Hfuel : (16 < fuel)%nat).
Implicit Types (s : obj_state C R).

Definition context_state s (c : operation_context) : mstate := MState (MEnv (h_pm (rh_heap (pa_heap (ob_palloc s)))) (pa_alloc (ob_palloc s))) c.
(** The thread can take a lane, and the lanes are between operations. *)
Record obj_ready s : Prop := {
  or_hold : can_hold uuid_lo fuel (ob_hold s);
  or_lanes : Forall (λ l, list_ready pop (context_state s (ln_external l))) (hs_lanes (ob_hold s))
}.

(** What a call leaves as it was: the locks of lanes and of lists; the thread can take a lane again. *)
Record call_returns s s' : Prop := {
  ca_held : ob_held s' = ob_held s;
  ca_lanes : lk_locks (hs_shared (ob_hold s')) = lk_locks (hs_shared (ob_hold s));
  ca_hold : can_hold uuid_lo fuel (ob_hold s')
}.

(** An operation in a lane and under locks. *)
Lemma call_run s (op : M mstate unit) rs (lk : M (obj_state C R) Z) (ul : M (obj_state C R) unit) e held : obj_ready s →
  (∀ t, list_ready pop t → smem t = mem_of s → performs pop op t rs) →
  (∀ h p, lk (ObjState h p (ob_held s)) = (Ok e, ObjState h p held)) → (e ≠ 0 → held = ob_held s) →
  (e = 0 → ∀ h p, ul (ObjState h p held) = (Ok tt, ObjState h p (ob_held s))) →
  ∃ r s', (i ← on_lanes (lane_hold malloc zalloc tls_ok fuel uuid_lo has_remote true);
      ret ← lk;
      if negb (ret =? 0) then pmalloc_operation_release uuid_lo malloc zalloc tls_ok has_remote;; fail ret
      else in_context i OPERATION_EXTERNAL (on_operation op);; ul;; pmalloc_operation_release uuid_lo malloc zalloc tls_ok has_remote) s = (r, s') ∧ call_returns s s' ∧
    (e = 0 ∧ r = Ok tt ∧ (∀ a, word_ok pop a → rd64 (mem_of s') a = assigned rs (rd64 (mem_of s)) a) ∨ e ≠ 0 ∧ r = Fail e ∧ mem_of s' = mem_of s).
Proof using.
  clear. intros [Hh Hl] Hop Hlk Hheld Hul. destruct s as [h p k]. cbn [ob_hold ob_palloc ob_held] in *.
  destruct (lane_cycle uuid_lo fuel malloc zalloc tls_ok has_remote h Hh) as (i & l & h1 & E1 & Hi & Hl1 & Hrel).
  erewrite bind_ok by (unfold on_lanes; cbn [ob_hold]; rewrite E1; reflexivity). cbn [ob_palloc ob_held]. erewrite bind_ok by apply Hlk.
  assert (lookupZ (hs_lanes h1) i = Some (reinit_lane l)) as Hi1 by (rewrite Hl1, lookupZ_updZ_eq; [done|]; by apply lookupZ_Some in Hi).
  destruct (Z.eqb_spec e 0) as [->|He]; cbn [negb].
  - assert (list_ready pop (context_state (ObjState h p k) (reinit (ln_external l)))) as Hr by (apply reinit_ready; by apply (lookupZ_Forall _ _ _ _ Hl Hi)).
    destruct (Hop _ Hr eq_refl) as (t & Et & Hw). destruct (Hrel (set_context OPERATION_EXTERNAL (ms_ctx t) (reinit_lane l))) as (h2 & E2 & _ & H3 & H4).
    erewrite bind_ok.
    2: { unfold in_context. cbn [ob_hold]. rewrite Hi1. unfold on_operation. cbn [ob_palloc pa_heap pa_alloc pa_ctx lane_context reinit_lane ln_external ob_held].
         unfold context_state in Et. cbn [ob_palloc] in Et. rewrite Et. reflexivity. }
    cbn [pa_ctx pa_heap pa_alloc pa_locks pa_size_allocated]. erewrite bind_ok by (by apply Hul). unfold pmalloc_operation_release, on_lanes. cbn [ob_hold]. rewrite E2.
    eexists _, _. split; [reflexivity|]. split; [done|]. left. split_and!; [done..|]. exact Hw.
  - destruct (Hrel (reinit_lane l)) as (h2 & E2 & _ & H3 & H4). rewrite (updZ_id _ _ _ Hi1) in E2.
    assert (HoldState (hs_thread h1) (hs_shared h1) (hs_lanes h1) = h1) as E3 by (by destruct h1). rewrite E3 in E2.
    erewrite bind_ok by (unfold pmalloc_operation_release, on_lanes; cbn [ob_hold]; rewrite E2; reflexivity).
    eexists _, _. split; [reflexivity|]. split; [split; cbn; [by rewrite Hheld|done|done]|]. by right.
Qed.

(** *** Locks *)

Lemma lock_one s head : head_lock head ∉ ob_held s → let e := os_lock (head_lock head) in
  ∃ held, (∀ h (p : palloc_state C R), pmemobj_mutex_lock os_lock (head_lock head) (ObjState h p (ob_held s)) = (Ok e, ObjState h p held)) ∧ (e ≠ 0 → held = ob_held s) ∧
    (e = 0 → ∀ h (p : palloc_state C R), pmemobj_mutex_unlock (head_lock head) (ObjState h p held) = (Ok tt, ObjState h p (ob_held s))).
Proof using.
  clear. intros Hk e. subst e. unfold pmemobj_mutex_lock. cbn [ob_held]. destruct (Z.eqb_spec (os_lock (head_lock head)) 0) as [E|E].
  - exists ({[head_lock head]} ∪ ob_held s). split_and!; [intros; by rewrite decide_False, E by done|done|]. intros _ h p. unfold pmemobj_mutex_unlock. cbn.
    rewrite decide_True by set_solver. do 2 f_equal. set_solver.
  - exists (ob_held s). split_and!; [intros; by rewrite decide_False by done|done|done].
Qed.

Local Abbreviation obj_insert := (ObjList.list_insert uuid_lo o pop fuel ulog_free push_ok malloc zalloc tls_ok has_remote os_lock).
Local Abbreviation obj_remove := (ObjList.list_remove uuid_lo o pop fuel ulog_free push_ok malloc zalloc tls_ok has_remote os_lock).
Local Abbreviation obj_move := (ObjList.list_move uuid_lo o pop fuel ulog_free push_ok malloc zalloc tls_ok has_remote os_lock).

Lemma head_not_null pe head xs : list_place pop pe head xs → (head =? 0) = false.
Proof using Hpop. clear Hfuel Huuid. intros [_ [[_ H _] _] _ _ _]. destruct Hpop as [H0 _]. apply Z.eqb_neq. lia. Qed.

(** Elements of a list are words of the heap. *)
Lemma word_of_list m m' pe head xs : list_place pop pe head xs → obj_list uuid_lo m pe head xs → (∀ a, word_ok pop a → m' a = m a) → obj_list uuid_lo m' pe head xs.
Proof using.
  clear. intros Hp [L1 L2 L3 L4] Hm. destruct (lp_head _ _ _ _ Hp) as [W0 W8]. split.
  - unfold firstw in *. by rewrite Hm.
  - eapply ring_ext; [exact L2|]. intros y Hy. destruct (elem_facts _ _ _ (lp_elem _ _ _ _ Hp y Hy)) as (W1 & W2 & _). unfold nextw, prevw. by rewrite !Hm.
  - intros y Hy. destruct (elem_words _ _ _ (lp_elem _ _ _ _ Hp y Hy)) as [_ W]. rewrite !Hm; [by apply L3|done|]. apply Hp, Hy.
  - by rewrite Hm.
Qed.

Lemma seq_insert_place pe head x xs dest before : list_place pop pe head (x :: xs) → list_place pop pe head (seq_insert dest before x xs) ∨ dest ≠ 0 ∧ dest ∉ xs.
Proof using.
  clear. intros Hp. destruct (place_new _ _ _ _ _ Hp) as [Hn Hx]. destruct (Z.eq_dec dest 0) as [->|H0]; [left|destruct (decide (dest ∈ xs)) as [Hd|]; [left|by right]].
  - eapply place_sub; [exact Hp|..]; unfold seq_insert; cbn; destruct before; [by apply NoDup_cons|by rewrite Permutation_app_comm; apply NoDup_cons|set_solver|set_solver].
  - apply list_elem_of_split in Hd as (A & B & ->). rewrite seq_insert_at by done. eapply place_sub; [exact Hp| |destruct before; set_solver].
    assert (A ++ (if before then [x; dest] else [dest; x]) ++ B ≡ₚ x :: A ++ dest :: B) as ->; [|apply Hp]. destruct before; cbn; [by rewrite <-Permutation_middle|].
    etrans; [apply Permutation_app_head, perm_swap|]. by rewrite <-Permutation_middle.
Qed.

(** C11: [list_insert] inserts into a sequence.  On a list in the pool whose elements are [xs], and an object [x] that is not on it, the call puts [x] before or after
    the destination, or at the head or the tail when there is none: the links and the head are those of the new sequence, and no other word of the heap changes.  The lane and the lock are
    given back.  If the lock cannot be taken, the call fails with that error and the memory is as before. *)
Theorem list_insert_refines s pe head u dest before v x xs : obj_ready s → head_lock head ∉ ob_held s →
  obj_list uuid_lo (rd64 (mem_of s)) pe head xs → list_place pop pe head (x :: xs) → (dest ≠ 0 → dest ∈ xs) →
  ∃ r s', obj_insert pe head (Oid u dest) before (Oid v x) s = (r, s') ∧ call_returns s s' ∧
    (os_lock (head_lock head) = 0 ∧ r = Ok tt ∧ obj_list uuid_lo (rd64 (mem_of s')) pe head (seq_insert dest before x xs) ∧
       (∀ a, word_ok pop a → ¬ list_word pe head (x :: xs) a → rd64 (mem_of s') a = rd64 (mem_of s) a) ∨
     os_lock (head_lock head) ≠ 0 ∧ r = Fail (os_lock (head_lock head)) ∧ mem_of s' = mem_of s).
Proof using Hpop Huuid Hfuel OpsSpec0.
  intros Hr Hk Hl Hp Hd. set (w := rd64 (mem_of s)) in *. set (d := get_dest w pe head dest before). destruct (lock_one s head Hk) as (held & K1 & K2 & K3).
  destruct (call_run s (insert_operation uuid_lo o pop fuel ulog_free push_ok pe head (Oid u dest) before (Oid v x)) (insert_all uuid_lo w pe head d before x)
    (pmemobj_mutex_lock os_lock (head_lock head)) (pmemobj_mutex_unlock (head_lock head)) (os_lock (head_lock head)) held Hr)
    as (r & s' & E & Hc & Hor); [|exact K1|exact K2|exact K3|].
  { intros t Ht Em. subst d. subst w. rewrite <-Em in Hl |- *. by eapply insert_performs. }
  exists r, s'. split; [|split; [done|]].
  { unfold ObjList.list_insert. rewrite (head_not_null _ _ _ Hp). by erewrite bind_ok by reflexivity. }
  destruct Hor as [(E0 & -> & Hw)|H]; [left|by right]. split_and!; [done|done| |].
  - destruct (seq_insert_place _ _ _ _ dest before Hp) as [Hp'|[H0 Hnd]]; [|by destruct Hnd; apply Hd]. eapply word_of_list; [exact Hp'|apply (list_inserted uuid_lo pop Huuid w); done|exact Hw].
  - intros a Ha Hna. rewrite Hw by done. apply (out_words _ (list_word pe head (x :: xs))); [|done].
    destruct (place_new _ _ _ _ _ Hp) as [Hnd _]. assert (list_place pop pe head xs) as Hp' by (eapply place_sub; [exact Hp|done|by intros; right]).
    destruct (dest_inserted _ _ w pe head xs dest before x Hl Hp' Hd) as [Hdd _].
    unfold insert_all. pose proof (entry_sets_words uuid_lo pe head x xs (insert_next w pe d before x) (insert_prev w pe d before x) true) as [H1 H2]%Forall_app.
    repeat (apply Forall_app; split); [done| |done]. eapply Forall_impl; [apply (insert_sets_words uuid_lo Huuid); done|].
    intros q [->|[->|(y & Hy & Hq)]]; [by left|by right; left|]. right. right. exists y. split; [by right|done].
Qed.

(** C12: [list_remove] removes from a sequence.  The call takes the object [x] off its list: the links and the head are those of the sequence without [x], the entry of [x] is cleared, and
    no other word of the heap changes.  The lane and the lock are given back.  If the lock cannot be taken, the call fails with that error and the memory is as before. *)
Theorem list_remove_refines s pe head v x xs : obj_ready s → head_lock head ∉ ob_held s →
  obj_list uuid_lo (rd64 (mem_of s)) pe head xs → list_place pop pe head xs → x ∈ xs →
  ∃ r s', obj_remove pe head (Oid v x) s = (r, s') ∧ call_returns s s' ∧
    (os_lock (head_lock head) = 0 ∧ r = Ok tt ∧ obj_list uuid_lo (rd64 (mem_of s')) pe head (seq_remove x xs) ∧
       nextw (rd64 (mem_of s')) pe x = 0 ∧ prevw (rd64 (mem_of s')) pe x = 0 ∧
       (∀ a, word_ok pop a → ¬ list_word pe head xs a → rd64 (mem_of s') a = rd64 (mem_of s) a) ∨
     os_lock (head_lock head) ≠ 0 ∧ r = Fail (os_lock (head_lock head)) ∧ mem_of s' = mem_of s).
Proof using Hpop Huuid Hfuel OpsSpec0.
  intros Hr Hk Hl Hp Hx. set (w := rd64 (mem_of s)) in *. destruct (lock_one s head Hk) as (held & K1 & K2 & K3).
  destruct (call_run s (remove_operation uuid_lo o pop fuel ulog_free push_ok pe head (Oid v x)) (remove_sets uuid_lo w pe head x ++ fill_sets pe x 0 0)
    (pmemobj_mutex_lock os_lock (head_lock head)) (pmemobj_mutex_unlock (head_lock head)) (os_lock (head_lock head)) held Hr)
    as (r & s' & E & Hc & Hor); [|exact K1|exact K2|exact K3|].
  { intros t Ht Em. subst w. rewrite <-Em in Hl |- *. by eapply remove_performs. }
  exists r, s'. split; [|split; [done|]].
  { unfold ObjList.list_remove. rewrite (head_not_null _ _ _ Hp). by erewrite bind_ok by reflexivity. }
  destruct Hor as [(E0 & -> & Hw)|H]; [left|by right]. pose proof (elem_facts _ _ _ (lp_elem _ _ _ _ Hp x Hx)) as (W1 & W2 & _).
  assert (∀ a, a ≠ x + pe + 8 → a ≠ x + pe + 24 → assigned (remove_sets uuid_lo w pe head x ++ fill_sets pe x 0 0) w a = assigned (remove_sets uuid_lo w pe head x) w a) as Hout.
  { intros a H1 H2. rewrite assigned_app. apply assigned_out. repeat apply Forall_cons_2; [by apply not_eq_sym|by apply not_eq_sym|apply Forall_nil_2]. }
  split_and!; [done|done| | | |].
  - eapply word_of_list; [by apply place_remove| |exact Hw]. eapply list_ext; [|apply (removed uuid_lo pop Huuid w); done].
    intros a Ha. apply Hout; intros ->; destruct Ha as [E1|[E1|(y & [Hy1 Hy2]%seq_remove_in & Hy3)]];
      try (pose proof (lp_head_apart _ _ _ _ Hp x Hx); lia); pose proof (lp_apart _ _ _ _ Hp x y Hx Hy2); lia.
  - unfold nextw. rewrite Hw by done. rewrite assigned_app. unfold assigned, fill_sets. cbn [foldl fst snd]. rewrite Z.eqb_refl, (proj2 (Z.eqb_neq _ _)) by lia. done.
  - unfold prevw. rewrite Hw by done. rewrite assigned_app. unfold assigned, fill_sets. cbn [foldl fst snd]. by rewrite Z.eqb_refl.
  - intros a Ha Hna. rewrite Hw, Hout by (done || (intros ->; apply Hna; right; right; exists x; split; [done|lia])).
    apply (out_words _ (list_word pe head xs)); [|done]. by apply remove_sets_words.
Qed.

(** *** Moving *)

(** The result of [list_mutexes_lock]: the lock at the lower address is taken first. *)
Definition lock_result (head1 head2 : Z) : Z :=
  if head1 =? head2 then os_lock (head_lock head1)
  else
    let l1 := if head1 <? head2 then head_lock head1 else head_lock head2 in
    let l2 := if head1 <? head2 then head_lock head2 else head_lock head1 in
    if os_lock l1 =? 0 then os_lock l2 else os_lock l1.

Lemma lock_heads s head1 head2 : 0 < head1 → 0 < head2 → head_lock head1 ∉ ob_held s → head_lock head2 ∉ ob_held s → let e := lock_result head1 head2 in
  ∃ held, (∀ h (p : palloc_state C R), list_mutexes_lock os_lock head1 head2 (ObjState h p (ob_held s)) = (Ok e, ObjState h p held)) ∧ (e ≠ 0 → held = ob_held s) ∧
    (e = 0 → ∀ h (p : palloc_state C R), list_mutexes_unlock head1 head2 (ObjState h p held) = (Ok tt, ObjState h p (ob_held s))).
Proof using.
  clear. intros H1 H2 K1 K2 e. subst e. unfold lock_result, list_mutexes_lock, list_mutexes_unlock.
  rewrite (proj2 (Z.eqb_neq head1 0)), (proj2 (Z.eqb_neq head2 0)) by lia. cbn [orb]. destruct (Z.eqb_spec head1 head2) as [<-|Hne]; [by apply lock_one|].
  assert (head_lock head1 ≠ head_lock head2) as Hkne by (unfold head_lock; lia).
  assert ((head_lock head1 <? head_lock head2) = (head1 <? head2)) as -> by (unfold head_lock; apply eq_true_iff_eq; rewrite !Z.ltb_lt; lia).
  set (l1 := if head1 <? head2 then _ else _). set (l2 := if head1 <? head2 then _ else _). assert (l1 ∉ ob_held s ∧ l2 ∉ ob_held s ∧ l1 ≠ l2 ∧ {[l1; l2]} =@{gset Z} {[head_lock head1; head_lock head2]}) as (L1 & L2 & L3 & L4)
    by (unfold l1, l2; case_match; split_and!; set_solver).
  clearbody l1 l2.
  exists (if os_lock l1 =? 0 then if os_lock l2 =? 0 then {[l2]} ∪ ({[l1]} ∪ ob_held s) else ob_held s else ob_held s). split_and!.
  - intros h p. destruct (Z.eqb_spec (os_lock l1) 0) as [E1|E1].
    + erewrite bind_ok by (unfold pmemobj_mutex_lock; cbn [ob_held]; rewrite decide_False, E1 by done; reflexivity). cbn [Z.eqb negb]. destruct (Z.eqb_spec (os_lock l2) 0) as [E2|E2].
      * erewrite bind_ok by (unfold pmemobj_mutex_lock; cbn [ob_held]; rewrite decide_False, E2 by set_solver; reflexivity). by rewrite E2.
      * erewrite bind_ok by (unfold pmemobj_mutex_lock; cbn [ob_held ob_hold ob_palloc]; rewrite decide_False, (proj2 (Z.eqb_neq (os_lock l2) 0)) by (done || set_solver); reflexivity).
        rewrite (proj2 (Z.eqb_neq (os_lock l2) 0)) by done. erewrite bind_ok by (unfold pmemobj_mutex_unlock; cbn [ob_held]; rewrite decide_True by set_solver; reflexivity).
        cbn. do 2 f_equal. set_solver.
    + erewrite bind_ok by (unfold pmemobj_mutex_lock; cbn [ob_held ob_hold ob_palloc]; rewrite decide_False, (proj2 (Z.eqb_neq (os_lock l1) 0)) by done; reflexivity).
      by rewrite (proj2 (Z.eqb_neq (os_lock l1) 0)) by done.
  - destruct (Z.eqb_spec (os_lock l1) 0); destruct (Z.eqb_spec (os_lock l2) 0); done.
  - destruct (Z.eqb_spec (os_lock l1) 0) as [E1|E1]; [|done]. intros E2 h p. rewrite E2. cbn [Z.eqb].
    assert ({[l2]} ∪ ({[l1]} ∪ ob_held s) = {[head_lock head1; head_lock head2]} ∪ ob_held s) as -> by (by rewrite (assoc_L (∪)), (comm_L (∪) {[l2]}), L4).
    erewrite bind_ok by (unfold pmemobj_mutex_unlock; cbn [ob_held]; rewrite decide_True by set_solver; reflexivity). unfold pmemobj_mutex_unlock. cbn [ob_held ob_hold ob_palloc].
    rewrite decide_True by set_solver. do 2 f_equal. set_solver.
Qed.

Lemma heads_not_null pe1 head1 xs pe2 head2 ys : list_place pop pe1 head1 xs → list_place pop pe2 head2 ys → 0 < head1 ∧ 0 < head2 ∧ ((head1 =? 0) || (head2 =? 0)) = false.
Proof using Hpop.
  clear Hfuel Huuid. intros [_ [[_ H1 _] _] _ _ _] [_ [[_ H2 _] _] _ _ _]. destruct Hpop as [H0 _]. split_and!; [lia|lia|]. apply orb_false_iff. split; apply Z.eqb_neq; lia.
Qed.

Lemma seq_move_place pe head xs dest before x : list_place pop pe head xs → x ∈ xs → (dest ≠ 0 → dest ∈ xs) → list_place pop pe head (seq_move dest before x xs).
Proof using.
  clear. intros Hp Hx Hd. unfold seq_move. destruct (Z.eqb_spec dest x) as [|Hne]; [done|].
  destruct (seq_insert_place _ _ _ _ dest before (place_readd _ _ _ _ _ Hp Hx)) as [H|[H0 H]]; [done|]. destruct H. apply seq_remove_in. auto.
Qed.

(** C10: [list_move] moves between two lists.  An element [x] of one list goes to its place in another list, by its entry at the same offset or at another one: both lists are those of the
    sequences without and with [x], and no other word of the heap changes.  The locks are taken in the order of their addresses; if one of them
    cannot be taken, none is held after the call, which fails with that error and leaves the memory as before. *)
Theorem list_move_refines s pe1 head1 xs pe2 head2 ys u dest before v x : obj_ready s → head_lock head1 ∉ ob_held s → head_lock head2 ∉ ob_held s → head1 ≠ head2 →
  obj_list uuid_lo (rd64 (mem_of s)) pe1 head1 xs → obj_list uuid_lo (rd64 (mem_of s)) pe2 head2 ys → list_place pop pe1 head1 xs → list_place pop pe2 head2 (x :: ys) →
  x ∈ xs → (dest ≠ 0 → dest ∈ ys) → (∀ a, list_word pe1 head1 (seq_remove x xs) a → ¬ list_word pe2 head2 (x :: ys) a) →
  ∃ r s', obj_move pe1 head1 pe2 head2 (Oid u dest) before (Oid v x) s = (r, s') ∧ call_returns s s' ∧ let e := lock_result head2 head1 in
    (e = 0 ∧ r = Ok tt ∧ obj_list uuid_lo (rd64 (mem_of s')) pe1 head1 (seq_remove x xs) ∧ obj_list uuid_lo (rd64 (mem_of s')) pe2 head2 (seq_insert dest before x ys) ∧
       (∀ a, word_ok pop a → ¬ list_word pe1 head1 xs a → ¬ list_word pe2 head2 (x :: ys) a → rd64 (mem_of s') a = rd64 (mem_of s) a) ∨
     e ≠ 0 ∧ r = Fail e ∧ mem_of s' = mem_of s).
Proof using Hpop Huuid Hfuel OpsSpec0.
  intros Hr K1 K2 Hne Hl1 Hl2 Hp1 Hp2 Hx Hd Hdis. set (w := rd64 (mem_of s)) in *. set (d := get_dest w pe2 head2 dest before).
  destruct (heads_not_null _ _ _ _ _ _ Hp1 Hp2) as (Z1 & Z2 & Z3). destruct (lock_heads s head2 head1 Z2 Z1 K2 K1) as (held & J1 & J2 & J3).
  destruct (call_run s (move_operation uuid_lo o pop fuel ulog_free push_ok pe1 head1 pe2 head2 (Oid u dest) before (Oid v x)) (move_all uuid_lo w pe1 head1 pe2 head2 d before x)
    (list_mutexes_lock os_lock head2 head1) (list_mutexes_unlock head2 head1) (lock_result head2 head1) held Hr) as (r & s' & E & Hc & Hor); [|exact J1|exact J2|exact J3|].
  { intros t Ht Em. subst d. subst w. rewrite <-Em in Hl1, Hl2 |- *. by eapply move_two_performs. }
  exists r, s'. split; [|split; [done|]].
  { unfold ObjList.list_move. rewrite Z3. by erewrite bind_ok by reflexivity. }
  destruct Hor as [(E0 & -> & Hw)|H]; [left|by right].
  destruct (moved_two uuid_lo pop Huuid w pe1 head1 xs pe2 head2 ys dest before x) as [M1 M2]; [done..|]. split_and!; [done|done| | |].
  - eapply word_of_list; [by apply place_remove|exact M1|exact Hw].
  - destruct (seq_insert_place _ _ _ _ dest before Hp2) as [Hp'|[H0 Hnd]]; [|by destruct Hnd; apply Hd]. eapply word_of_list; [exact Hp'|exact M2|exact Hw].
  - intros a Ha N1 N2. rewrite Hw by done. destruct (place_new _ _ _ _ _ Hp2) as [Hnd _].
    assert (list_place pop pe2 head2 ys) as Hp2' by (eapply place_sub; [exact Hp2|done|by intros; right]). destruct (dest_inserted _ _ w pe2 head2 ys dest before x Hl2 Hp2' Hd) as [Hdd _].
    unfold move_all. rewrite !assigned_app.
    pose proof (entry_sets_words uuid_lo pe2 head2 x ys (insert_next w pe2 d before x) (insert_prev w pe2 d before x) (negb (pe2 =? pe1))) as [F1 F2]%Forall_app.
    rewrite (out_words _ _ _ _ F2 N2), (out_words _ (list_word pe2 head2 ys)); [|by apply insert_sets_words|].
    2: { intros Hy. apply N2. destruct Hy as [->|[->|(y & Hy & Hq)]]; [by left|by right; left|]. right. right. exists y. split; [by right|done]. }
    rewrite (out_words _ (list_word pe1 head1 xs)); [|by apply remove_sets_words|done]. by apply (out_words _ _ _ _ F1).
Qed.

(** C13: [list_move] within one list.  The element [x] goes before or after the destination, or to an end of the list when there is none; next to the destination only the head changes, or nothing.  The
    links and the head are those of the new sequence, and no word of the heap outside of the list changes. *)
Theorem list_move_within s pe head xs u dest before v x : obj_ready s → head_lock head ∉ ob_held s →
  obj_list uuid_lo (rd64 (mem_of s)) pe head xs → list_place pop pe head xs → x ∈ xs → (dest ≠ 0 → dest ∈ xs) →
  ∃ r s', obj_move pe head pe head (Oid u dest) before (Oid v x) s = (r, s') ∧ call_returns s s' ∧
    (os_lock (head_lock head) = 0 ∧ r = Ok tt ∧ obj_list uuid_lo (rd64 (mem_of s')) pe head (seq_move dest before x xs) ∧
       (∀ a, word_ok pop a → ¬ list_word pe head xs a → rd64 (mem_of s') a = rd64 (mem_of s) a) ∨
     os_lock (head_lock head) ≠ 0 ∧ r = Fail (os_lock (head_lock head)) ∧ mem_of s' = mem_of s).
Proof using Hpop Huuid Hfuel OpsSpec0.
  intros Hr Hk Hl Hp Hx Hd. set (w := rd64 (mem_of s)) in *. set (d := get_dest w pe head dest before).
  assert (∀ t, list_ready pop t → smem t = mem_of s → performs pop (move_operation uuid_lo o pop fuel ulog_free push_ok pe head pe head (Oid u dest) before (Oid v x)) t
      (same_sets uuid_lo (mem_of s) pe head d before x) ∧ obj_list uuid_lo (assigned (same_sets uuid_lo (mem_of s) pe head d before x) w) pe head (seq_move dest before x xs) ∧
      Forall (λ r, list_word pe head xs r.1) (same_sets uuid_lo (mem_of s) pe head d before x)) as Hop.
  { intros t Ht Em. subst d. subst w. rewrite <-Em in Hl |- *. by apply move_same_performs. }
  destruct (heads_not_null _ _ _ _ _ _ Hp Hp) as (Z1 & _ & Z3). destruct (lock_heads s head head Z1 Z1 Hk Hk) as (held & J1 & J2 & J3).
  assert (lock_result head head = os_lock (head_lock head)) as Ek by (unfold lock_result; by rewrite Z.eqb_refl). rewrite Ek in *.
  assert (∃ t, list_ready pop t ∧ smem t = mem_of s) as (t0 & Ht0 & Em0).
  { destruct (lane_cycle uuid_lo fuel malloc zalloc tls_ok has_remote _ (or_hold _ Hr)) as (i & l & _ & _ & Hi & _). exists (context_state s (ln_external l)). split; [|done].
    by apply (lookupZ_Forall _ _ _ _ (or_lanes _ Hr) Hi). }
  destruct (Hop t0 Ht0 Em0) as (_ & Hl' & Hwords).
  destruct (call_run s (move_operation uuid_lo o pop fuel ulog_free push_ok pe head pe head (Oid u dest) before (Oid v x)) (same_sets uuid_lo (mem_of s) pe head d before x)
    (list_mutexes_lock os_lock head head) (list_mutexes_unlock head head) (os_lock (head_lock head)) held Hr) as (r & s' & E & Hc & Hor); [|exact J1|exact J2|exact J3|].
  { intros t Ht Em. by apply Hop. }
  exists r, s'. split; [|split; [done|]].
  { unfold ObjList.list_move. rewrite Z3. by erewrite bind_ok by reflexivity. }
  destruct Hor as [(E0 & -> & Hw)|H]; [left|by right]. split_and!; [done|done| |].
  - eapply word_of_list; [|exact Hl'|exact Hw]. by apply seq_move_place.
  - intros a Ha Hna. rewrite Hw by done. by apply (out_words _ (list_word pe head xs)).
Qed.
End calls.

(** ** Witnesses *)

(** Two lists, of two elements and of one, with entries at the offset 16 of the elements. *)
Definition ex_entry (e next prev : Z) : list (Z * Z) := [(e + 16, 7); (e + 24, next); (e + 32, 7); (e + 40, prev)].
Definition ex_words : list (Z * Z) :=
  [(70400, 7); (70408, 80000)] ++ ex_entry 80000 80064 80064 ++ ex_entry 80064 80000 80000 ++ [(70600, 7); (70608, 80256)] ++ ex_entry 80256 80256 80256.
Definition ex_list_mem : mem := foldl (λ m r, wr64 m r.1 r.2) ex_tx_mem ex_words.
Definition ex_lists : obj_state block_container_ravl block_container_seglists :=
  ObjState (HoldState (ex_thread ex_record) (LaneShared [0] 0 1) [ex_tx_lane]) (PallocState (with_pm (Pmem.Pmem ex_list_mem []) (pa_heap ex_palloc)) no_ctx [] ∅ 0) ∅.

Lemma ex_pool_ok : pool_ok ex_tx_heap.
Proof. split_and!; done. Qed.
Lemma ex_lists_ready : obj_ready 7 ex_tx_heap 40 ex_lists.
Proof.
  split.
  - exists 0, 1, {[0%nat := (false, ex_record)]}, ∅, 0%nat, 1, ex_record. split_and!; try done; [|by exists 0].
    eapply rtc_l; [by apply (step_record _ _ _ 0%nat ex_record)|]. apply rtc_refl.
  - apply Forall_cons_2; [|apply Forall_nil_2]. split.
    + split; [vm_compute; reflexivity..| |left; vm_compute; reflexivity]. exists []. apply init_inv.
    + vm_compute. reflexivity.
    + intros a Ha. by apply elem_of_nil in Ha.
    + vm_compute. discriminate.
    + split; vm_compute; discriminate.
    + vm_compute. discriminate.
Qed.
Lemma ex_place head xs : head ∈ [70400; 70600] → NoDup xs → (∀ x, x ∈ xs → x ∈ [80000; 80064; 80128; 80256]) → list_place ex_tx_heap 16 head xs.
Proof.
  intros Hh Hn Hs. assert (∀ k, 0 ≤ k < 100 → word_ok ex_tx_heap (70400 + 8 * k)) as W1.
  { intros k Hk. split; [exists (8800 + k); lia|cbn; lia|unfold pool_end; cbn; lia]. }
  assert (∀ k, 0 ≤ k < 100 → word_ok ex_tx_heap (80000 + 8 * k)) as W2.
  { intros k Hk. split; [exists (10000 + k); lia|cbn; lia|unfold pool_end; cbn; lia]. }
  assert (∀ x, x ∈ xs → x = 80000 ∨ x = 80064 ∨ x = 80128 ∨ x = 80256) as Hx by (intros x H%Hs; set_solver).
  assert (head = 70400 ∨ head = 70600) as Hh' by set_solver. split; [done| | | |].
  - destruct Hh' as [-> | ->]; split; [apply (W1 0)|apply (W1 1)|apply (W1 25)|apply (W1 26)]; lia.
  - intros x H%Hx. destruct H as [->|[->|[->| ->]]]; (split; [lia|lia|..]); [apply (W2 2)|apply (W2 5)|apply (W2 10)|apply (W2 13)|apply (W2 18)|apply (W2 21)|apply (W2 34)|apply (W2 37)]; lia.
  - intros x y H1%Hx H2%Hx. lia.
  - intros x H%Hx. lia.
Qed.
Lemma ex_first_list : obj_list 7 (rd64 (mem_of ex_lists)) 16 70400 [80000; 80064].
Proof. split; [vm_compute; reflexivity|by vm_compute| |left; vm_compute; reflexivity]. intros x [->|[->|[]%not_elem_of_nil]%elem_of_cons]%elem_of_cons; by vm_compute. Qed.
Lemma ex_second_list : obj_list 7 (rd64 (mem_of ex_lists)) 16 70600 [80256].
Proof. split; [vm_compute; reflexivity|by vm_compute| |left; vm_compute; reflexivity]. intros x ->%list_elem_of_singleton; by vm_compute. Qed.

Local Abbreviation ex_insert := (ObjList.list_insert 7 clflush_ops ex_tx_heap 40 no_free no_push true true true false (λ _, 0)).
Local Abbreviation ex_remove := (ObjList.list_remove 7 clflush_ops ex_tx_heap 40 no_free no_push true true true false (λ _, 0)).
Local Abbreviation ex_move := (ObjList.list_move 7 clflush_ops ex_tx_heap 40 no_free no_push true true true false (λ _, 0)).

Lemma list_insert_refines_witness : ∃ s', ex_insert 16 70400 (Oid 7 80064) true (Oid 7 80128) ex_lists = (Ok tt, s') ∧
  obj_list 7 (rd64 (mem_of s')) 16 70400 [80000; 80128; 80064].
Proof.
  destruct (list_insert_refines 7 clflush_ops ex_tx_heap 40 no_free no_push true true true false (λ _, 0) ex_pool_ok ltac:(lia) ltac:(lia)
    ex_lists 16 70400 7 80064 true 7 80128 [80000; 80064]) as (r & s' & E & _ & Hor).
  - apply ex_lists_ready.
  - apply not_elem_of_empty.
  - apply ex_first_list.
  - apply ex_place; [left|vm_compute; repeat constructor; set_solver|set_solver].
  - set_solver.
  - destruct Hor as [(_ & -> & H & _)|[H _]]; [|destruct H; reflexivity]. exists s'. split; [exact E|exact H].
Defined.
Lemma list_remove_refines_witness : ∃ s', ex_remove 16 70400 (Oid 7 80000) ex_lists = (Ok tt, s') ∧ obj_list 7 (rd64 (mem_of s')) 16 70400 [80064].
Proof.
  destruct (list_remove_refines 7 clflush_ops ex_tx_heap 40 no_free no_push true true true false (λ _, 0) ex_pool_ok ltac:(lia) ltac:(lia)
    ex_lists 16 70400 7 80000 [80000; 80064]) as (r & s' & E & _ & Hor).
  - apply ex_lists_ready.
  - apply not_elem_of_empty.
  - apply ex_first_list.
  - apply ex_place; [left|repeat constructor; set_solver|set_solver].
  - left.
  - destruct Hor as [(_ & -> & H & _)|[H _]]; [|destruct H; reflexivity]. exists s'. split; [exact E|exact H].
Defined.
Lemma list_move_refines_witness : ∃ s', ex_move 16 70400 16 70600 (Oid 0 0) false (Oid 7 80000) ex_lists = (Ok tt, s') ∧
  obj_list 7 (rd64 (mem_of s')) 16 70400 [80064] ∧ obj_list 7 (rd64 (mem_of s')) 16 70600 [80256; 80000].
Proof.
  destruct (list_move_refines 7 clflush_ops ex_tx_heap 40 no_free no_push true true true false (λ _, 0) ex_pool_ok ltac:(lia) ltac:(lia)
    ex_lists 16 70400 [80000; 80064] 16 70600 [80256] 0 0 false 7 80000) as (r & s' & E & _ & Hor).
  - apply ex_lists_ready.
  - apply not_elem_of_empty.
  - apply not_elem_of_empty.
  - lia.
  - apply ex_first_list.
  - apply ex_second_list.
  - apply ex_place; [left|repeat constructor; set_solver|set_solver].
  - apply ex_place; [right; left|repeat constructor; set_solver|set_solver].
  - left.
  - done.
  - intros a H1 H2. change (seq_remove 80000 [80000; 80064]) with [80064] in H1.
    destruct H1 as [->|[->|(y & ->%list_elem_of_singleton & Hy)]]; destruct H2 as [?|[?|(z & [->|Hz1%list_elem_of_singleton]%elem_of_cons & Hz)]]; lia.
  - destruct Hor as [(_ & -> & H1 & H2 & _)|[H _]]; [|destruct H; reflexivity]. exists s'. split; [exact E|]. split; [exact H1|exact H2].
Defined.
Lemma list_move_within_witness : ∃ s', ex_move 16 70400 16 70400 (Oid 7 80000) true (Oid 7 80064) ex_lists = (Ok tt, s') ∧
  obj_list 7 (rd64 (mem_of s')) 16 70400 [80064; 80000].
Proof.
  destruct (list_move_within 7 clflush_ops ex_tx_heap 40 no_free no_push true true true false (λ _, 0) ex_pool_ok ltac:(lia) ltac:(lia)
    ex_lists 16 70400 [80000; 80064] 7 80000 true 7 80064) as (r & s' & E & _ & Hor).
  - apply ex_lists_ready.
  - apply not_elem_of_empty.
  - apply ex_first_list.
  - apply ex_place; [left|repeat constructor; set_solver|set_solver].
  - right. left.
  - left.
  - destruct Hor as [(_ & -> & H & _)|[H _]]; [|destruct H; reflexivity]. exists s'. split; [exact E|exact H].
Defined.
